(* ===== verification/_CoqProject ===== *)
-Q . S2P
Prelude.v
Packet.v
Bytes.v
Checksum.v
Echo.v
Parsing.v
Rewrite.v
Stats.v
CString.v
Params.v
Errno.v
Heap.v
Zip.v
Linfo.v
PinnedMaps.v
Sockets.v
Nlattr.v
Netlink.v
NetlinkSpec.v
TcHook.v
Pin.v
Hashmap.v
Strset.v
Btf.v
BtfSpec.v
BtfTypes.v
BtfRaw.v
BtfAdd.v
BtfBuild.v
BtfOps.v
BtfRun.v
BtfCopy.v
BtfCopied.v
BtfExt.v
BtfExtSpec.v
Ring.v
Ringbuf.v
RingbufSetup.v
Libxdp.v
RunConfig.v
BtfView.v
Open.v
Multiprog.v
StateDirs.v
StateDirsSpec.v
Dispatcher.v
MultiprogSpec.v
Probe.v
Linked.v
Readback.v
Loader.v
XskProg.v
XskProgSpec.v
Xsk.v
XskSpec.v
XskRings.v
