(* ===== verification/Prelude.v ===== *)
(** * Verification of the XDP kernel-bypass echo project

    The program answers UDP and ICMP echo traffic inside the network driver, by
    XDP programs, and compares that with a user-space echo server.  Its parts,
    all under [src/src]:

    - the XDP programs [xdp/xdp_echo_kern.c] and [xdp/xdp_icmp_echo.c], which
      rewrite a packet in place and send it back, and the header-only helpers
      [common/parsing_helpers.h], [common/rewrite_helpers.h] and
      [common/xdp_stats_kern.h] for such programs;
    - the loader [xdp/xdp_pass_user.c] on top of [common/common_params.c] (the
      command line), [common/common_user_bpf_xdp.c] and
      [common/common_libbpf.c] (loading, pinned maps, unloading);
    - the user-space server [server.c] and client [echocli.c];
    - the libraries vendored under [lib]: libxdp ([xdp-tools/lib/libxdp]), which
      keeps several XDP programs on one interface behind a dispatcher program and
      sets up AF_XDP sockets, and libbpf, of which the hash map, the string set,
      the netlink requests that put programs on interfaces, the BPF ring buffers,
      the zip reader, the line tables and the type information as it is read,
      searched, built and written back are modelled.

    The loader parses its options into a [config], loads or removes programs
    through libxdp, and libxdp talks to the kernel through libbpf.  The XDP
    programs share no state with the loader but the statistics map.

    ** Files

    - [Prelude]: machine integers, little-endian encodings, byte swaps, the
      state-and-fault monad with its weakest-precondition rules, list slices.
    - [Packet]: [struct xdp_md], checked packet accesses, the header layouts.
      [Checksum]: the Internet checksum as a receiver computes it.
    - [Echo]: the two XDP programs (Modules [UdpEcho], [IcmpEcho],
      [EchoChecksum]).
    - [Parsing], [Rewrite], [Stats]: the three helper headers.
    - [CString], [Errno]: C strings, error numbers and error pointers.
      [Bytes]: buffers with checked reads and writes.  [Heap]: the allocator, as an
      oracle and a count of live blocks.
    - [Params]: [common_params.c] and the option table of [xdp_pass_user.c].
    - [PinnedMaps]: [common_libbpf.c].  [Sockets]: [server.c] and [echocli.c].
    - [Libxdp]: program objects of [libxdp.c]; [RunConfig]: their run
      configuration read from type information; [Open]: opening them from files,
      objects and descriptors, and the generic constructor.
    - [Multiprog]: dispatchers: reading them from an interface, building them,
      attaching and detaching; [MultiprogSpec]: the specifications of these
      operations; [Dispatcher]: the dispatcher program [xdp-dispatcher.c.in] as it
      runs in the kernel; [Readback]: what is written for a dispatcher is read
      back; [Probe]: the feature probe and test runs.
    - [Pin]: pinning dispatchers in the BPF file system; [StateDirs] and
      [StateDirsSpec]: the state directories, the lock, and the removal of stale
      pins; [Linked]: [Multiprog] on top of [StateDirs], [Pin] and [Probe].
    - [Ring]: the rings of AF_XDP sockets ([headers/xdp/xsk.h]); [XskProg] and
      [XskProgSpec]: the program behind the sockets and its count of users;
      [Xsk]: umems, contexts and sockets ([xsk.c]); [XskSpec]: their life;
      [XskRings]: what is left in the ring structures.
    - [Loader]: [common_user_bpf_xdp.c] (Modules [Maps], [Unload]) and the main
      function of [xdp_pass_user.c], on top of [Multiprog].
    - [Hashmap]: [hashmap.c] and [hashmap.h]; [Strset]: [strset.c] on top of it.
    - [Btf]: type information as bytes ([btf.c]): reading, searching, sizes and
      alignments, writing back; [BtfSpec]: which bytes are accepted; [BtfTypes]: sizes
      and alignments; [BtfRaw]: what is written; [BtfView]: the lists of types that
      [RunConfig] works on, as a view of such bytes.  [BtfAdd]: new objects and the
      functions that add strings and types to objects, over the string set;
      [BtfBuild]: what an object stands for while it is modified; [BtfOps]: every
      function that adds something; [BtfRun]: sequences of calls.  [BtfCopy]: copying one or
      all types of another object; [BtfCopied]: what the copies are.  [BtfExt]: the section
      [.BTF.ext] with records of functions, lines and relocations; [BtfExtSpec]: which
      data is accepted and what the visits do.
    - [Nlattr]: [nlattr.c] and [nlattr.h]; [Netlink]: the sockets, the receive loop
      and the XDP requests of [netlink.c]; [NetlinkSpec]: what they mean; [TcHook]:
      the traffic control half of [netlink.c].
    - [Ringbuf]: the loops of [ringbuf.c] over shared memory; [RingbufSetup]: the
      objects around them.  [Zip]: [zip.c].  [Linfo]: [bpf_prog_linfo.c].

    Functions keep their C names.  A loop of a function is a [Fixpoint] of its
    own next to it.  State is passed explicitly: the packet for XDP programs,
    the [world] (program and dispatcher objects, [errno], the log of requests to
    the kernel) for libxdp, to which [Xsk] adds stores of umems, contexts, sockets
    and ring structures, the file system for pinning, with the variables that the
    C code keeps between calls in [StateDirs], and the array of chains for the
    hash map.  Faults (an access outside an object, a null pointer, a use
    after free) are [None], so that a theorem that a run is [Some] says it has
    none.

    ** What the theorems show

    - Echo programs: both refine a specification on the bytes of the packet for
      every packet, without a faulting access; the shape of the reply; echoing
      twice; exactly when the checksums of the reply are valid.
    - Parsers: every parser meets its specification, any sequence of parsers
      stays inside the packet (from the contract [HeaderParser] alone), VLAN
      collection, and parsing what was built.  Rewriting: what push, pop and the
      swaps do, their inverses and errors.  Statistics: exact counts modulo 2^64.
    - Command line: exactly which option sequences end the program and how, the
      configuration the others give, field by field, when stored names are
      terminated, when printing the help stays inside its buffer.
    - Loader: the loops over maps and programs, what a failed load leaves
      behind, that unloading requests nothing it should not, and that
      [xdp_pass_user] ends unless it unloads from a dispatcher that holds a program
      twice.
    - Server and client: every datagram is answered once and in order; the
      client's counts and bounds against such a server.
    - libxdp: attach and detach return whatever the kernel answers, use
      no released object, release what they allocate, but for detaching from a
      dispatcher that holds a program twice, where the code follows a null pointer
      ([MultiprogSpec.detach_twice_null]); dispatchers are sorted, configured and
      linked for their programs; the order used for sorting; the text of the
      action bitmap; pinning is all or nothing up to files that the system refuses
      to remove; a declared run configuration is
      read back, and so are the configuration and the programs of a dispatcher; the unrolled
      dispatcher computes the chain of its programs, shown on the two echo
      programs; who owns the object of an opened file; cleaning removes only
      the directories of dispatchers that are not reported on their interface and
      gives the lock back; with
      these parts put together, a dispatcher that was pinned is found again with
      every program at its place.
    - AF_XDP: any interleaving on a ring, by clients that use the indices they are
      given, is a first-in first-out queue that never gets stuck; the rings that the set-up calls leave behind are where that
      model starts; after any sequence of calls the reference counts count, every
      program has one owner and no call uses anything freed; processes that share
      a program update its count in steps that interleave, and its lock makes the
      count right and the last of them take the program off.
    - libbpf: the hash map refines a finite map from key classes to entries, for
      call-backs that satisfy [KeyClass]; what appending does to the order of
      entries; the string set refines a dictionary from strings to offsets, as a
      client of the hash map through [KeyClass].
    - Netlink: parsing attributes reads inside the stream and indexes them; the
      receive loop refines a recursion over lists of messages, right ones and those for
      another port or request; an attach request asks for an acknowledgement and
      decodes to what was asked for; a query asks for the list of interfaces and finds the
      programs of its own.
    - Ring buffers: in every interleaving of producer and consumer the samples
      arrive as they were submitted, in order; the consumer's loop ends with
      everything delivered that can be; the life of the objects around the rings;
      the blocking reservation without a time limit gives up after one wait.
    - Zip archives: no byte string makes the reader leave it, and every member of
      an archive is found.  Line tables: exactly which descriptions are refused, and
      what the two searches return.
    - Type information: exactly the images of well-formed types and strings are
      accepted, in either byte order, and the index leads to each type; sizes are the
      products along the chain of a type; alignments are found for types that are not
      cyclic; data read in one byte order is written in another with the same
      contents; searches by name and by identifier agree with the searches in the list
      of types on which libxdp's functions are modelled.  Where the code is wrong on
      accepted bytes (cyclic types, short headers, gaps between sections, split
      information over split information), [BtfRaw] shows it on an example.
    - Building type information: any sequence of calls on a new object, with types of
      every kind, elements, strings, searches, changes of the byte order and writing in
      between, gives what the same sequence gives on a list of types and a
      dictionary of strings, whichever allocations fail; what is written is read back
      with the same types, identifiers and strings, and can be modified in turn.
      Types that are copied from another object keep their meaning: names lead to the
      same strings and identifiers to the same copies.  Where copying goes wrong (an
      error after a string was added, nothing copied to nothing), [BtfCopied] shows it.
    - The section [.BTF.ext]: exactly the data that consists of segments of named
      sections of records is accepted, reading stays inside it, and visiting type
      identifiers or string offsets reaches each of them once and nothing else when the
      segments do not overlap; when they do, [BtfExtSpec] shows what happens.

    ** Interfaces and assumptions

    Kernel helpers and foreign libraries are arguments of the definitions.  What
    is assumed of them is named: [AdjustHead] in [Rewrite] (the packet loses or
    gains bytes at its head), the documented refusal of [bpf_csum_diff] in
    [Echo], [kernel_ok] in [MultiprogSpec] (type information
    and dispatcher maps read from the kernel are well formed, a failing call
    reports an error; [Readback] adds that a failing [dup] does), [xsk_env] in
    [XskProgSpec] (the maps of a program stay the same; also two conditions on the
    use of the system, without which the code crashes: no interface has a program
    in hardware, and no program is pinned twice, [Readback.pinned_once]),
    [shared_map] there (a map holds what was written last), [maps_ok] in [XskRings],
    [os_ok] in [StateDirsSpec] (with the modes of an interface as the kernel reports them),
    the oracles [refuse] and [keep] in [Pin] (which files cannot be made, and which cannot
    be removed), the allocator's answers in [Hashmap] and [Strset], [net_ok] in [NetlinkSpec] (error
    numbers are positive, and what arrives on a socket of one protocol are messages; that the kernel
    acknowledges or lists is assumed only for requests that ask for it, [acked] and
    [listing]), [RingOsOk] in [RingbufSetup] (error numbers
    are positive, a ring has a size that fits the address space), the allocator in
    [Heap], and [info_ok] in [Linfo] (the kernel's description of a program points to tables of
    the lengths it names).  Components
    meet in classes: [HeaderParser] in [Parsing], [KeyClass] in [Hashmap],
    [ProgramContract] in [XskProgSpec], through which [XskSpec] sees the program
    side.  Every theorem with a hypothesis is applied to a concrete
    instance by the lemma of the same name with [_witness].

    ** Bounds and fuel

    Integers that the code keeps at a width are wrapped at that width ([u8] to
    [u64], [s32]).  Loops without a structural measure carry fuel: the second
    round of [xdp_attach_fd] (2), the retry loops of libxdp (the code's own limit
    [MAX_RETRY]), the initial strings of a set (the size of the data, one byte
    per round at least), chains of type modifiers (the number of types, enough
    for every chain without a cycle: [RunConfig.skip_mods_resolves]), the
    attributes and messages of a buffer (its length), the search for the end of an
    archive (2^16, its range in the code), the consumer of a ring buffer (three
    steps per record in it), the types of a section (its length, a type has twelve
    bytes at least), the sections and records of [.BTF.ext] (its length, eight bytes at
    least each).  The recursion of [btf__align_of] has no bound in the code: its
    depth is an argument of the model, and a run that uses it up is a value of its own.
    The theorems about these functions show that the fuel does not run out.

    The theorems about building type information are for objects below 4 GiB and with
    at most 65535 elements of types: beyond that the code's own fields overflow
    ([BtfRun.inc_vlen_wraps]).

    ** Not modelled

    Of type information: deduplication and ELF files; objects that build on others are modelled when they are read, while the theorems about adding are for
    objects of their own.  Object files, relocation, linking and the rest of libbpf;
    the command-line tools of xdp-tools; scripts and plotting; the replacements
    that libxdp compiles in for functions that an old libbpf lacks; messages.

    ** Plan

    What would come next is the deduplication of types, over the invariant
    [BtfBuild.stands]. *)

From Stdlib Require Export ZArith Lia.
From stdpp Require Export base numbers list strings gmap.

Coercion Z.of_nat : nat >-> Z.
Open Scope Z_scope.

(** ** Machine integers

    A [w]-bit unsigned C value is a [Z] in [0, 2^w); arithmetic wraps with
    [wrap].  [sint] reads such a value as two's complement, which is what a C
    conversion to a signed type does on the targets of this project. *)

Definition wrap (w z : Z) : Z := z mod 2 ^ w.
Definition sint (w z : Z) : Z :=
  if wrap w z <? 2 ^ (w - 1) then wrap w z else wrap w z - 2 ^ w.

Declare Scope word_scope.
Delimit Scope word_scope with W.
Notation "'u8' z" := (wrap 8 z) (at level 10, z at level 9) : word_scope.
Notation "'u16' z" := (wrap 16 z) (at level 10, z at level 9) : word_scope.
Notation "'u32' z" := (wrap 32 z) (at level 10, z at level 9) : word_scope.
Notation "'u64' z" := (wrap 64 z) (at level 10, z at level 9) : word_scope.
Notation "'s32' z" := (sint 32 z) (at level 10, z at level 9) : word_scope.
Open Scope word_scope.

Definition is_word (w z : Z) : Prop := 0 ≤ z < 2 ^ w.
Abbreviation is_byte := (is_word 8).
Abbreviation bytes_ok := (Forall is_byte).

#[export] Instance is_word_dec w z : Decision (is_word w z).
Proof. unfold is_word. apply _. Defined.

Create HintDb word.

(** [lia] extended to [/] and [mod] by literals. *)
Ltac dlia := Z.to_euclidean_division_equations; lia.

Lemma wrap_range w z : 0 ≤ w → is_word w (wrap w z).
Proof. intros ?. apply Z.mod_pos_bound. by apply Z.pow_pos_nonneg. Qed.

Lemma wrap_small w z : is_word w z → wrap w z = z.
Proof. apply Z.mod_small. Qed.

Lemma wrap_wrap w z : wrap w (wrap w z) = wrap w z.
Proof. apply Zmod_mod. Qed.

Lemma wrap_add_l w a b : wrap w (wrap w a + b) = wrap w (a + b).
Proof. apply Zplus_mod_idemp_l. Qed.

Lemma wrap_add_r w a b : wrap w (a + wrap w b) = wrap w (a + b).
Proof. apply Zplus_mod_idemp_r. Qed.

Lemma sint_small w z : 0 < w → 0 ≤ z < 2 ^ (w - 1) → sint w z = z.
Proof.
  intros Hw Hz. unfold sint.
  assert (2 ^ w = 2 * 2 ^ (w - 1)) as E.
  { rewrite <- Z.pow_succ_r by lia. f_equal. lia. }
  rewrite (wrap_small w z) by (unfold is_word; lia).
  by rewrite (proj2 (Z.ltb_lt _ _)) by lia.
Qed.

#[export] Hint Resolve wrap_range : word.
#[export] Hint Extern 1 (0 ≤ _) => lia : word.

(** ** Little-endian encodings

    Multi-byte loads and stores of the modelled targets (BPF and x86-64, both
    little-endian) go through these two functions. *)

Fixpoint le_val (bs : list Z) : Z :=
  match bs with
  | [] => 0
  | b :: bs => b + 256 * le_val bs
  end.

Fixpoint le_bytes (n : nat) (z : Z) : list Z :=
  match n with
  | O => []
  | S n => z mod 256 :: le_bytes n (z / 256)
  end.

Lemma length_le_bytes n z : length (le_bytes n z) = n.
Proof. revert z; induction n; intros; simpl; auto. Qed.

Lemma le_bytes_ok n z : bytes_ok (le_bytes n z).
Proof.
  revert z; induction n as [|n IH]; intros z; simpl; constructor; [|done].
  apply Z.mod_pos_bound. lia.
Qed.

Lemma le_val_range bs : bytes_ok bs → is_word (8 * length bs) (le_val bs).
Proof.
  unfold is_word. induction 1 as [|b bs Hb _ IH]; [simpl; lia|].
  cbn [le_val length].
  rewrite Nat2Z.inj_succ, <- Zmult_succ_r_reverse, Z.pow_add_r by lia.
  unfold is_word in Hb. lia.
Qed.

Lemma le_bytes_le_val bs : bytes_ok bs → le_bytes (length bs) (le_val bs) = bs.
Proof.
  induction 1 as [|b bs Hb _ IH]; [done|]. cbn [le_val le_bytes length].
  unfold is_word in Hb. f_equal.
  - rewrite Z.mul_comm, Z.mod_add by lia. by apply Z.mod_small.
  - rewrite Z.mul_comm, Z.div_add, Z.div_small by lia. done.
Qed.

Lemma le_val_le_bytes n z : le_val (le_bytes n z) = wrap (8 * n) z.
Proof.
  unfold wrap. revert z; induction n as [|n IH]; intros z.
  - simpl. by rewrite Z.mod_1_r.
  - cbn [le_val le_bytes]. rewrite IH.
    replace (8 * S n) with (8 + 8 * n) by lia.
    rewrite Z.pow_add_r, Z.rem_mul_r by lia. done.
Qed.

Lemma le_val_inj bs1 bs2 :
  bytes_ok bs1 → bytes_ok bs2 → length bs1 = length bs2 →
  le_val bs1 = le_val bs2 → bs1 = bs2.
Proof.
  intros H1 H2 Hl He.
  by rewrite <- (le_bytes_le_val bs1), <- (le_bytes_le_val bs2), Hl, He.
Qed.

(** ** Byte swapping: [___bpf_mvb] and the [___bpf_swab] macros of
    [bpf_endian.h].  [mvb w x n m] moves byte [n] of the [w]-bit [x] to byte [m]. *)

Definition mvb (w x n m : Z) : Z :=
  Z.shiftl (Z.shiftr (wrap w (Z.shiftl x (w - (n + 1) * 8))) (w - 8)) (m * 8).
Definition swab16 (x : Z) : Z := u16 (Z.lor (mvb 16 x 0 1) (mvb 16 x 1 0)).
Definition swab32 (x : Z) : Z :=
  u32 (Z.lor (Z.lor (Z.lor (mvb 32 x 0 3) (mvb 32 x 1 2)) (mvb 32 x 2 1)) (mvb 32 x 3 0)).

Definition bpf_htons (x : Z) : Z := swab16 x.
Definition bpf_ntohs (x : Z) : Z := swab16 x.
Definition bpf_htonl (x : Z) : Z := swab32 x.
Definition bpf_ntohl (x : Z) : Z := swab32 x.

Lemma lor_add_disjoint a b n :
  0 ≤ n → 0 ≤ b < 2 ^ n → Z.lor (Z.shiftl a n) b = a * 2 ^ n + b.
Proof.
  intros Hn Hb.
  assert (Z.land (Z.shiftl a n) b = 0) as Hd.
  { apply Z.bits_inj'. intros i Hi. rewrite Z.land_spec, Z.bits_0.
    destruct (Z.lt_ge_cases i n).
    - by rewrite Z.shiftl_spec_low.
    - rewrite <- (Z.mod_small b (2 ^ n)) by done.
      rewrite Z.mod_pow2_bits_high by lia. apply andb_false_r. }
  rewrite <- Z.shiftl_mul_pow2, Z.add_nocarry_lxor, Z.lxor_lor by done. done.
Qed.

(** The byte swap reads the two bytes in the opposite order. *)
Lemma swab16_le_val b0 b1 :
  is_byte b0 → is_byte b1 → swab16 (le_val [b0; b1]) = 256 * b0 + b1.
Proof.
  unfold is_word, swab16, mvb. intros H0 H1. simpl (le_val _).
  rewrite Z.mul_0_r, Z.add_0_r.
  change (16 - (0 + 1) * 8) with 8. change (16 - (1 + 1) * 8) with 0.
  change (16 - 8) with 8. change (1 * 8) with 8. change (0 * 8) with 0.
  rewrite !Z.shiftl_0_r.
  assert (Z.shiftr (wrap 16 (Z.shiftl (b0 + 256 * b1) 8)) 8 = b0) as ->.
  { rewrite Z.shiftl_mul_pow2, Z.shiftr_div_pow2 by lia. unfold wrap.
    change (2 ^ 16) with 65536. change (2 ^ 8) with 256. dlia. }
  assert (Z.shiftr (wrap 16 (b0 + 256 * b1)) 8 = b1) as ->.
  { rewrite Z.shiftr_div_pow2 by lia. unfold wrap.
    change (2 ^ 16) with 65536. change (2 ^ 8) with 256. dlia. }
  rewrite lor_add_disjoint by (change (2 ^ 8) with 256; lia).
  rewrite wrap_small; unfold is_word; change (2 ^ 8) with 256;
    change (2 ^ 16) with 65536; lia.
Qed.

(** ** Programs over a state that may fault

    [prog S A] is code that reads and writes a state of type [S] and returns an
    [A].  [None] is a fault: an access outside the memory the code may touch.
    [wp m s Q] says that [m] started in [s] does not fault and ends in a value
    and a state satisfying [Q]; the rules below are its weakest-precondition
    calculus. *)

Definition prog (S A : Type) : Type := S → option (A * S).
Definition pret {S A} (a : A) : prog S A := λ s, Some (a, s).
Definition pbind {S A B} (m : prog S A) (k : A → prog S B) : prog S B :=
  λ s, match m s with Some (a, s') => k a s' | None => None end.
Definition pget {S} : prog S S := λ s, Some (s, s).
Definition pput {S} (s : S) : prog S () := λ _, Some ((), s).
Definition pfault {S A} : prog S A := λ _, None.

Declare Scope prog_scope.
Delimit Scope prog_scope with prog.
Notation "'let!' x := m 'in' k" := (pbind m (λ x, k))
  (at level 10, x pattern, m at level 100, k at level 200) : prog_scope.
Notation "m ';;;' k" := (pbind m (λ _, k))
  (at level 100, right associativity) : prog_scope.
Open Scope prog_scope.

Definition wp {S A} (m : prog S A) (s : S) (Q : A → S → Prop) : Prop :=
  match m s with Some (a, s') => Q a s' | None => False end.

Section wp_rules.
Context {S : Type}.

Lemma wp_ret {A} (a : A) (s : S) Q : Q a s → wp (pret a) s Q.
Proof. done. Qed.

Lemma wp_bind {A B} (m : prog S A) (k : A → prog S B) s Q :
  wp m s (λ a s', wp (k a) s' Q) → wp (pbind m k) s Q.
Proof. unfold wp, pbind. by destruct (m s) as [[a s']|]. Qed.

Lemma wp_get (s : S) Q : Q s s → wp pget s Q.
Proof. done. Qed.

Lemma wp_put (s s' : S) Q : Q () s' → wp (pput s') s Q.
Proof. done. Qed.

Lemma wp_mono {A} (m : prog S A) s (Q R : A → S → Prop) :
  wp m s Q → (∀ a s', Q a s' → R a s') → wp m s R.
Proof. unfold wp. destruct (m s) as [[a s']|]; auto. Qed.

Lemma wp_if {A} (b : bool) (m1 m2 : prog S A) s Q :
  (b = true → wp m1 s Q) → (b = false → wp m2 s Q) →
  wp (if b then m1 else m2) s Q.
Proof. destruct b; auto. Qed.

(** A terminating, fault-free run can be read back from its [wp]. *)
Lemma wp_run {A} (m : prog S A) s Q :
  wp m s Q ↔ ∃ a s', m s = Some (a, s') ∧ Q a s'.
Proof.
  unfold wp. split.
  - destruct (m s) as [[a s']|]; [eauto|done].
  - by intros (a & s' & -> & HQ).
Qed.
End wp_rules.

Create HintDb wp.
#[export] Hint Resolve wp_ret wp_get wp_put : wp.

(** ** Sub-lists: [sub o n l] is [n] elements of [l] from offset [o]. *)

Definition sub {A} (o n : Z) (l : list A) : list A :=
  take (Z.to_nat n) (drop (Z.to_nat o) l).

Lemma length_sub {A} o n (l : list A) :
  0 ≤ o → 0 ≤ n → o + n ≤ length l → length (sub o n l) = Z.to_nat n.
Proof. intros. unfold sub. rewrite length_take, length_drop. lia. Qed.

Lemma sub_sub {A} o n o' n' (l : list A) :
  0 ≤ o → 0 ≤ o' → 0 ≤ n' → o' + n' ≤ n → sub o' n' (sub o n l) = sub (o + o') n' l.
Proof.
  intros. unfold sub. rewrite skipn_firstn_comm, take_take, drop_drop.
  f_equal; [lia|]. f_equal. lia.
Qed.

Lemma sub_bytes_ok o n l : bytes_ok l → bytes_ok (sub o n l).
Proof. intros. by apply Forall_take, Forall_drop. Qed.

#[export] Hint Resolve sub_bytes_ok le_bytes_ok : word.

(** Element-wise views of [sub] and stdpp's [list_inserts]; [list_ext] proves
    list equations from them by cases on the index. *)
Lemma lookup_sub {A} o n (l : list A) i :
  sub o n l !! i =
    if decide (i < Z.to_nat n)%nat then l !! (Z.to_nat o + i)%nat else None.
Proof.
  unfold sub. case_decide.
  - by rewrite lookup_take_lt, lookup_drop by lia.
  - by rewrite lookup_take_ge by lia.
Qed.

Lemma lookup_inserts {A} o (l k : list A) i :
  (o + length l ≤ length k)%nat →
  list_inserts o l k !! i =
    if decide (o ≤ i < o + length l)%nat then l !! (i - o)%nat else k !! i.
Proof.
  intros. case_decide.
  - apply list_lookup_inserts; lia.
  - destruct (decide (i < o)%nat).
    + by apply list_lookup_inserts_lt.
    + apply list_lookup_inserts_ge; lia.
Qed.

Ltac list_ext :=
  apply list_eq; intros ?i;
  repeat (rewrite lookup_sub || rewrite lookup_inserts by
            (rewrite ?length_inserts, ?length_sub; simpl; lia));
  repeat case_decide; try (exfalso; simpl in *; lia); try done; try (f_equal; lia).

Lemma sub_inserts_before {A} o n i k (l : list A) :
  0 ≤ o → 0 ≤ n → o + n ≤ i → i + length k ≤ length l →
  sub o n (list_inserts (Z.to_nat i) k l) = sub o n l.
Proof. intros. list_ext. Qed.

Lemma inserts_app_at {A} (l1 l2 k : list A) :
  list_inserts (length l1) k (l1 ++ l2) = l1 ++ list_inserts 0 k l2.
Proof. rewrite <- (list_inserts_app_r k l1 l2 0). f_equal. lia. Qed.

Lemma sub_app_at {A} (l1 l2 : list A) i n :
  0 ≤ i → sub (length l1 + i) n (l1 ++ l2) = sub i n l2.
Proof.
  intros. unfold sub. replace (Z.to_nat (length l1 + i)) with (length l1 + Z.to_nat i)%nat by lia.
  by rewrite drop_app_add.
Qed.

Lemma inserts_app_off {A} (l1 l2 k : list A) i :
  0 ≤ i → list_inserts (Z.to_nat (length l1 + i)) k (l1 ++ l2) =
    l1 ++ list_inserts (Z.to_nat i) k l2.
Proof.
  intros. rewrite <- list_inserts_app_r. f_equal. lia.
Qed.

Lemma take_plus {A} n m (l : list A) : take (n + m) l = take n l ++ take m (drop n l).
Proof.
  revert l. induction n as [|n IH]; intros [|x l]; simpl; rewrite ?take_nil; try done.
  by rewrite IH.
Qed.

(** [bytes_ok] of an explicit list. *)
Ltac bytes_tac :=
  repeat (apply Forall_cons; split; [solve [assumption | split; lia | unfold is_word; lia | done]|]);
  first [apply Forall_nil; exact I | assumption].
#[export] Hint Extern 2 (Forall (is_word 8) (_ :: _)) => solve [bytes_tac] : word.

(** Big-endian 16-bit encoding, and the bytes a byte-swapped value leaves in
    little-endian memory. *)
Definition be16 (n : Z) : list Z := [n / 256; n mod 256].

Lemma length_be16 n : length (be16 n) = 2%nat.
Proof. done. Qed.

Lemma be16_ok n : is_word 16 n → bytes_ok (be16 n).
Proof.
  unfold be16, is_word. change (2 ^ 16) with 65536. change (2 ^ 8) with 256. intros.
  repeat (apply Forall_cons; split; [cbv beta; dlia|]). by apply Forall_nil.
Qed.

Lemma swab16_wrap v : swab16 v = swab16 (u16 v).
Proof.
  unfold swab16, mvb. f_equal. f_equal.
  - f_equal. f_equal. change (16 - (0 + 1) * 8) with 8. unfold wrap.
    rewrite !Z.shiftl_mul_pow2 by lia. by rewrite Zmult_mod_idemp_l.
  - f_equal. f_equal. change (16 - (1 + 1) * 8) with 0. rewrite !Z.shiftl_0_r.
    by rewrite wrap_wrap.
Qed.

Lemma le_bytes_swab16 v : le_bytes 2 (swab16 v) = be16 (u16 v).
Proof.
  rewrite swab16_wrap. assert (is_word 16 (u16 v)) as Hv by (apply wrap_range; lia).
  revert Hv. generalize (u16 v). clear v. intros v Hv. unfold is_word in Hv.
  change (2 ^ 16) with 65536 in Hv.
  replace v with (le_val [v mod 256; v / 256]) at 1 by (simpl; dlia).
  rewrite swab16_le_val by (unfold is_word; change (2 ^ 8) with 256; dlia).
  unfold be16. cbn [le_bytes]. f_equal; [dlia|]. f_equal. dlia.
Qed.
