(* ===== verification/Packet.v ===== *)
(** * The XDP context, packet memory and protocol headers

    [struct xdp_md] as the XDP programs of [src/src/xdp] and the helpers of
    [src/src/common] see it: a frame buffer (head room included) and the two
    offsets [data] and [data_end] into it.  Addresses are offsets into the
    frame; a load or store outside [data, data_end) is a fault, the access the
    kernel's verifier has to exclude.  Every operation is related to the packet
    proper, the list [pkt s] of the bytes between the two pointers. *)

From S2P Require Import Prelude.

(** ** Verdicts: [enum xdp_action] of [linux/bpf.h]. *)
Definition XDP_ABORTED : Z := 0.
Definition XDP_DROP : Z := 1.
Definition XDP_PASS : Z := 2.
Definition XDP_TX : Z := 3.
Definition XDP_REDIRECT : Z := 4.

(** ** Protocol numbers *)
Definition ETH_ALEN : Z := 6.
Definition ETH_P_IP : Z := 0x0800.
Definition ETH_P_IPV6 : Z := 0x86DD.
Definition ETH_P_8021Q : Z := 0x8100.
Definition ETH_P_8021AD : Z := 0x88A8.
Definition IPPROTO_ICMP : Z := 1.
Definition IPPROTO_TCP : Z := 6.
Definition IPPROTO_UDP : Z := 17.
Definition IPPROTO_ICMPV6 : Z := 58.
Definition ICMP_ECHOREPLY : Z := 0.
Definition ICMP_ECHO : Z := 8.

(** ** Header layouts: the address of each field the code uses, given the
    address of the header. *)
Module ethhdr.
Definition sizeof : Z := 14.
Definition h_dest (p : Z) : Z := p.
Definition h_source (p : Z) : Z := p + 6.
Definition h_proto (p : Z) : Z := p + 12.
End ethhdr.

Module iphdr.
Definition sizeof : Z := 20.
Definition version_ihl (p : Z) : Z := p.
Definition protocol (p : Z) : Z := p + 9.
Definition check (p : Z) : Z := p + 10.
Definition saddr (p : Z) : Z := p + 12.
Definition daddr (p : Z) : Z := p + 16.
(** The bit-field [ihl] is the low nibble of the first byte. *)
Definition ihl_of (b : Z) : Z := Z.land b 15.
End iphdr.

Module ipv6hdr.
Definition sizeof : Z := 40.
Definition nexthdr (p : Z) : Z := p + 6.
Definition saddr (p : Z) : Z := p + 8.
Definition daddr (p : Z) : Z := p + 24.
End ipv6hdr.

Module udphdr.
Definition sizeof : Z := 8.
Definition source (p : Z) : Z := p.
Definition dest (p : Z) : Z := p + 2.
Definition len (p : Z) : Z := p + 4.
Definition check (p : Z) : Z := p + 6.
End udphdr.

Module tcphdr.
Definition sizeof : Z := 20.
Definition source (p : Z) : Z := p.
Definition dest (p : Z) : Z := p + 2.
(** [res1] and [doff] share byte 12; [doff] is its high nibble. *)
Definition doff_byte (p : Z) : Z := p + 12.
Definition doff_of (b : Z) : Z := Z.shiftr b 4.
End tcphdr.

Module icmphdr.
Definition sizeof : Z := 8.
Definition type (p : Z) : Z := p.
Definition code (p : Z) : Z := p + 1.
Definition checksum (p : Z) : Z := p + 2.
End icmphdr.

Module icmp6hdr.
Definition sizeof : Z := 8.
Definition icmp6_type (p : Z) : Z := p.
End icmp6hdr.

(** ** The context *)
Record xdp_md := mk_xdp_md {
  buf : list Z;
  data : Z;
  data_end : Z;
}.

Definition wf_xdp (s : xdp_md) : Prop :=
  0 ≤ data s ≤ data_end s ∧ data_end s ≤ length (buf s) ∧ bytes_ok (buf s).

#[export] Instance wf_xdp_dec s : Decision (wf_xdp s).
Proof. unfold wf_xdp. apply _. Defined.

Abbreviation xprog := (prog xdp_md).

(** ** Memory accesses *)
Definition load_bytes (p n : Z) : xprog (list Z) := λ s,
  if (data s <=? p) && (0 <=? n) && (p + n <=? data_end s)
  then Some (sub p n (buf s), s) else None.

Definition store_bytes (p : Z) (bs : list Z) : xprog () := λ s,
  if (data s <=? p) && (p + length bs <=? data_end s)
  then Some ((), mk_xdp_md (list_inserts (Z.to_nat p) bs (buf s)) (data s) (data_end s))
  else None.

Definition load8 (p : Z) : xprog Z := let! bs := load_bytes p 1 in pret (le_val bs).
Definition load16 (p : Z) : xprog Z := let! bs := load_bytes p 2 in pret (le_val bs).
Definition load32 (p : Z) : xprog Z := let! bs := load_bytes p 4 in pret (le_val bs).
Definition store8 (p v : Z) : xprog () := store_bytes p (le_bytes 1 v).
Definition store16 (p v : Z) : xprog () := store_bytes p (le_bytes 2 v).
Definition store32 (p v : Z) : xprog () := store_bytes p (le_bytes 4 v).

(** [__builtin_memcpy] within the packet. *)
Definition memcpy (dst src n : Z) : xprog () :=
  let! bs := load_bytes src n in store_bytes dst bs.

(** ** The packet and its replacement *)
Definition pkt_len (s : xdp_md) : Z := data_end s - data s.
Definition pkt (s : xdp_md) : list Z := sub (data s) (pkt_len s) (buf s).
Definition with_pkt (s : xdp_md) (l : list Z) : xdp_md :=
  mk_xdp_md (list_inserts (Z.to_nat (data s)) l (buf s)) (data s) (data_end s).

Lemma length_pkt s : wf_xdp s → Z.of_nat (length (pkt s)) = pkt_len s.
Proof.
  intros (? & ? & _). unfold pkt, pkt_len. rewrite length_sub; lia.
Qed.

Lemma pkt_bytes_ok s : wf_xdp s → bytes_ok (pkt s).
Proof. intros (_ & _ & ?). unfold pkt. auto with word. Qed.

(** A replacement fits when it is as long as the packet and made of bytes. *)
Definition fits (s : xdp_md) (l : list Z) : Prop :=
  wf_xdp s ∧ Z.of_nat (length l) = pkt_len s ∧ bytes_ok l.

Lemma fits_pkt s : wf_xdp s → fits s (pkt s).
Proof. intros. split; [done|]. auto using length_pkt, pkt_bytes_ok. Qed.

Lemma with_pkt_pkt s : wf_xdp s → with_pkt s (pkt s) = s.
Proof.
  intros Hw. pose proof (length_pkt s Hw) as Hl. destruct Hw as (? & ? & _).
  unfold with_pkt. destruct s as [b d e]. simpl in *. f_equal.
  unfold pkt, pkt_len in *; simpl in *.
  apply list_eq. intros i. rewrite lookup_inserts by lia.
  case_decide; [|done]. rewrite lookup_sub. case_decide; [|lia]. f_equal. lia.
Qed.

Lemma pkt_with_pkt s l : fits s l → pkt (with_pkt s l) = l.
Proof.
  intros ((? & ? & _) & Hl & _). unfold pkt, with_pkt, pkt_len in *; simpl.
  apply list_eq. intros i. rewrite lookup_sub. case_decide.
  - rewrite lookup_inserts by lia. case_decide; [|lia]. f_equal. lia.
  - rewrite lookup_ge_None_2 by lia. done.
Qed.

Lemma with_pkt_with_pkt s l l' :
  fits s l → length l = length l' → with_pkt (with_pkt s l) l' = with_pkt s l'.
Proof.
  intros ((? & ? & _) & Hl & _) He. unfold with_pkt, pkt_len in *; simpl. f_equal.
  apply list_eq. intros i. rewrite !lookup_inserts by (rewrite ?length_inserts; lia).
  repeat case_decide; try done; lia.
Qed.

Lemma Forall_inserts {A} (P : A → Prop) i k l :
  Forall P k → Forall P l → Forall P (list_inserts i k l).
Proof.
  intros Hk Hl. revert i. induction Hk; intros i; simpl; [done|].
  by apply Forall_insert.
Qed.

Lemma wf_with_pkt s l : fits s l → wf_xdp (with_pkt s l).
Proof.
  intros ((? & ? & ?) & Hl & ?). unfold wf_xdp, with_pkt; simpl.
  rewrite length_inserts. split_and!; auto using Forall_inserts; lia.
Qed.

Lemma fits_with_pkt s l l' : fits s l → fits s l' → fits (with_pkt s l) l'.
Proof.
  intros Hl (_ & ? & ?). split; [by apply wf_with_pkt|]. done.
Qed.

Lemma fits_inserts s l i k :
  fits s l → bytes_ok k → fits s (list_inserts i k l).
Proof.
  intros (? & ? & ?) ?. split; [done|]. rewrite length_inserts.
  auto using Forall_inserts.
Qed.

Lemma wf_data_nonneg s : wf_xdp s → 0 ≤ data s.
Proof. intros [? _]. lia. Qed.

#[export] Hint Resolve fits_pkt wf_with_pkt fits_with_pkt fits_inserts
  wf_data_nonneg pkt_bytes_ok Forall_inserts : word.

(** ** Access rules, relative to the packet *)
Lemma load_bytes_with_pkt s l i n :
  fits s l → 0 ≤ i → 0 ≤ n → i + n ≤ length l →
  load_bytes (data s + i) n (with_pkt s l) = Some (sub i n l, with_pkt s l).
Proof.
  intros Hf Hi Hn Hin. rewrite <- (pkt_with_pkt s l Hf) at 2.
  destruct Hf as ((? & ? & _) & Hl & _). unfold load_bytes, pkt, pkt_len in *; simpl.
  rewrite !(proj2 (Z.leb_le _ _)) by lia. simpl. by rewrite sub_sub by lia.
Qed.

Lemma store_bytes_with_pkt s l i bs :
  fits s l → 0 ≤ i → i + length bs ≤ length l →
  store_bytes (data s + i) bs (with_pkt s l) =
    Some ((), with_pkt s (list_inserts (Z.to_nat i) bs l)).
Proof.
  intros ((? & ? & _) & Hl & _) Hi Hin. unfold store_bytes, with_pkt, pkt_len in *; simpl.
  rewrite !(proj2 (Z.leb_le _ _)) by lia. simpl. do 2 f_equal. f_equal.
  apply list_eq. intros j.
  rewrite !lookup_inserts by (rewrite ?length_inserts; lia). rewrite ?length_inserts.
  repeat case_decide; try done; try lia; f_equal; lia.
Qed.

Lemma wp_load_bytes s l p i n Q :
  p = data s + i → fits s l → 0 ≤ i → 0 ≤ n → i + n ≤ length l →
  Q (sub i n l) (with_pkt s l) → wp (load_bytes p n) (with_pkt s l) Q.
Proof. intros ->. intros. unfold wp. by rewrite load_bytes_with_pkt. Qed.

Lemma wp_store_bytes s l p i bs Q :
  p = data s + i → fits s l → 0 ≤ i → i + length bs ≤ length l →
  Q () (with_pkt s (list_inserts (Z.to_nat i) bs l)) →
  wp (store_bytes p bs) (with_pkt s l) Q.
Proof. intros ->. intros. unfold wp. by rewrite store_bytes_with_pkt. Qed.

(** ** Automation

    [wp_step] symbolically executes one operation of a packet program whose
    state has the form [with_pkt s l]; [with_offset] computes the literal offset
    of an address made of field offsets from [data s]. *)
Create HintDb hdr.
#[export] Hint Unfold ethhdr.sizeof ethhdr.h_dest ethhdr.h_source ethhdr.h_proto
  iphdr.sizeof iphdr.version_ihl iphdr.protocol iphdr.check iphdr.saddr iphdr.daddr
  ipv6hdr.sizeof ipv6hdr.nexthdr ipv6hdr.saddr ipv6hdr.daddr
  udphdr.sizeof udphdr.source udphdr.dest udphdr.len udphdr.check
  tcphdr.sizeof tcphdr.source tcphdr.dest tcphdr.doff_byte
  icmphdr.sizeof icmphdr.type icmphdr.code icmphdr.checksum
  icmp6hdr.sizeof icmp6hdr.icmp6_type ETH_ALEN : hdr.

Ltac with_offset s p tac :=
  let f := eval pattern (data s) in p in
  lazymatch f with
  | ?g _ => let o := eval cbv in (g 0) in tac o
  end.

Ltac addr_solve := autounfold with hdr; lia.

Lemma fits_length s l : fits s l → Z.of_nat (length l) = pkt_len s.
Proof. by intros (_ & ? & _). Qed.

Lemma fits_bytes_ok s l : fits s l → bytes_ok l.
Proof. by intros (_ & _ & ?). Qed.

Lemma fits_sub_ok s l o n : fits s l → bytes_ok (sub o n l).
Proof. intros ?%fits_bytes_ok. auto with word. Qed.

#[export] Hint Resolve fits_sub_ok : word.

Lemma le_bytes_le_val_n n bs :
  length bs = n → bytes_ok bs → le_bytes n (le_val bs) = bs.
Proof. intros <-. apply le_bytes_le_val. Qed.

Ltac len_solve :=
  cbv [ETH_ALEN]; rewrite ?length_le_bytes, ?length_be16; rewrite ?length_sub by lia;
  first [lia | cbn [app length]; lia].

(** After a store the new packet gets a name, with its defining equation. *)
Ltac name_pkt :=
  lazymatch goal with
  | Hf : fits ?s ?l |- context [with_pkt ?s (list_inserts ?i ?bs ?l)] =>
    let l' := fresh "l" in let Hf' := fresh "Hf" in
    let E := fresh "E" in let Hn := fresh "Hn" in
    assert (fits s (list_inserts i bs l)) as Hf'
      by (apply fits_inserts; [exact Hf|solve [eauto with word]]);
    pose proof (length_inserts l i bs) as Hn;
    remember (list_inserts i bs l) as l' eqn:E
  end.

Ltac wp_access :=
  lazymatch goal with
  | |- wp (load_bytes ?p ?n) (with_pkt ?s ?l) _ =>
    with_offset s p ltac:(fun o =>
      apply (wp_load_bytes s l p o n);
      [addr_solve|assumption|len_solve|len_solve|len_solve|])
  | |- wp (store_bytes _ (le_bytes ?n (le_val ?bs))) _ _ =>
    (* a value loaded from the packet and stored back unchanged *)
    rewrite (le_bytes_le_val_n n bs) by first [len_solve | solve [eauto with word]];
    wp_access
  | |- wp (store_bytes ?p ?bs) (with_pkt ?s ?l) _ =>
    with_offset s p ltac:(fun o =>
      apply (wp_store_bytes s l p o bs);
      [addr_solve|assumption|len_solve|len_solve|]);
    name_pkt
  | |- wp (load8 _) _ _ => unfold load8; apply wp_bind; wp_access; apply wp_ret
  | |- wp (load16 _) _ _ => unfold load16; apply wp_bind; wp_access; apply wp_ret
  | |- wp (load32 _) _ _ => unfold load32; apply wp_bind; wp_access; apply wp_ret
  | |- wp (store8 _ _) _ _ => unfold store8; wp_access
  | |- wp (store16 _ _) _ _ => unfold store16; wp_access
  | |- wp (store32 _ _) _ _ => unfold store32; wp_access
  | |- wp (memcpy _ _ _) _ _ => unfold memcpy; apply wp_bind; wp_access; wp_access
  end.

(** The same for an access at the offset [o], which need not be a literal. *)
Ltac wp_at o :=
  lazymatch goal with
  | |- wp (pbind _ _) _ _ => apply wp_bind; wp_at o
  | |- wp (load8 _) _ _ => unfold load8; wp_at o; apply wp_ret
  | |- wp (load16 _) _ _ => unfold load16; wp_at o; apply wp_ret
  | |- wp (store8 _ _) _ _ => unfold store8; wp_at o
  | |- wp (store16 _ _) _ _ => unfold store16; wp_at o
  | |- wp (load_bytes ?p ?n) (with_pkt ?s ?l) _ =>
    apply (wp_load_bytes s l p o n);
    [addr_solve|assumption|len_solve|len_solve|len_solve|]
  | |- wp (store_bytes ?p ?bs) (with_pkt ?s ?l) _ =>
    apply (wp_store_bytes s l p o bs);
    [addr_solve|assumption|len_solve|len_solve|]; name_pkt
  end; cbv beta.

Ltac wp_step :=
  lazymatch goal with
  | |- wp (pbind _ _) _ _ => apply wp_bind
  | |- wp (pret _) _ _ => apply wp_ret
  | |- wp pget _ _ => apply wp_get
  | |- _ => wp_access
  end; cbv beta.

(** [explode n l] writes a list known to be long enough as [n] explicit
    elements followed by the rest. *)
Tactic Notation "explode" integer(n) hyp(l) :=
  do n (let b := fresh "b" in destruct l as [|b l]; [simpl in *; lia|]).

(** A run from a well-formed context, read off a [wp] on its packet. *)
Lemma run_of_wp {A} (m : xprog A) s r :
  wf_xdp s →
  (∀ l, pkt s = l → fits s l → Z.of_nat (length l) = pkt_len s →
        wp m (with_pkt s l) (λ a s', (a, s') = r)) →
  m s = Some r.
Proof.
  intros Hw H. specialize (H _ eq_refl (fits_pkt s Hw) (length_pkt s Hw)).
  apply wp_run in H as (a & s' & Hr & He). rewrite with_pkt_pkt in Hr by done.
  by rewrite Hr, He.
Qed.
