(* ===== verification/Bytes.v ===== *)
(** * Checked access to a buffer

    Bytes that code receives or builds: a pointer is an offset, [load] and
    [store] fault outside the buffer.  Used for netlink messages, archives and
    tables read from the kernel. *)

From S2P Require Import Prelude.
From Stdlib Require Import Ascii.
Local Open Scope Z_scope.

(** [n] bytes at [o], and their value. *)
Definition range (o n : Z) (b : list Z) : option (list Z) :=
  if (0 <=? o) && (0 <=? n) && (o + n <=? length b) then Some (sub o n b) else None.
Definition load (n o : Z) (b : list Z) : option Z := le_val <$> range o n b.
Definition store (o : Z) (v b : list Z) : option (list Z) :=
  if (0 <=? o) && (o + length v <=? length b) then Some (list_inserts (Z.to_nat o) v b) else None.

(** Rounding up to a multiple of 4, as [NLA_ALIGN] and [NLMSG_ALIGN] do it. *)
Definition align4 (n : Z) : Z := Z.land (n + 3) (Z.lnot 3).

Lemma align4_eq n : align4 n = 4 * ((n + 3) / 4).
Proof.
  unfold align4. change 3 with (Z.ones 2) at 2. rewrite <- Z.ldiff_land, Z.ldiff_ones_r by lia.
  rewrite Z.shiftr_div_pow2, Z.shiftl_mul_pow2 by lia. change (2 ^ 2) with 4. lia.
Qed.
Lemma align4_bounds n : n ≤ align4 n < n + 4.
Proof. rewrite align4_eq. dlia. Qed.
Lemma align4_mul n : align4 n mod 4 = 0.
Proof. rewrite align4_eq, Z.mul_comm. by apply Z.mod_mul. Qed.
Lemma align4_id n : n mod 4 = 0 → align4 n = n.
Proof. intros. rewrite align4_eq. dlia. Qed.
Lemma align4_add a b : a mod 4 = 0 → align4 (a + b) = a + align4 b.
Proof. intros. rewrite !align4_eq. dlia. Qed.

Section range.
Implicit Types b : list Z.

Lemma range_Some o n b : 0 ≤ o → 0 ≤ n → o + n ≤ length b → range o n b = Some (sub o n b).
Proof.
  intros. unfold range. rewrite (proj2 (Z.leb_le 0 o)), (proj2 (Z.leb_le 0 n)), (proj2 (Z.leb_le (o + n) _)) by lia. done.
Qed.
Lemma range_inv o n b v : range o n b = Some v → 0 ≤ o ∧ 0 ≤ n ∧ o + n ≤ length b ∧ v = sub o n b.
Proof.
  unfold range. destruct (Z.leb_spec 0 o), (Z.leb_spec 0 n), (Z.leb_spec (o + n) (length b)); try done.
  by intros [= <-].
Qed.
Lemma load_Some n o b : 0 ≤ o → 0 ≤ n → o + n ≤ length b → load n o b = Some (le_val (sub o n b)).
Proof. intros. unfold load. by rewrite range_Some. Qed.
Lemma load_range n o b v : bytes_ok b → load n o b = Some v → is_word (8 * n) v.
Proof.
  unfold load. intros Hb E. destruct (range o n b) as [l|] eqn:Er; [|done]. injection E as <-.
  apply range_inv in Er as (? & ? & ? & ->).
  pose proof (le_val_range (sub o n b) (sub_bytes_ok o n b Hb)) as H2. rewrite length_sub in H2 by lia.
  by rewrite Z2Nat.id in H2 by lia.
Qed.
Lemma load_word n o b : bytes_ok b → 0 ≤ o → 0 ≤ n → o + n ≤ length b →
  ∃ v, load n o b = Some v ∧ is_word (8 * n) v.
Proof. intros. rewrite load_Some by done. eexists. split; [done|]. eapply load_range; [done|]. by apply load_Some. Qed.

(** Reading inside a part of the buffer. *)
Lemma sub_app_l {A} o n (l1 l2 : list A) : 0 ≤ o → 0 ≤ n → o + n ≤ length l1 → sub o n (l1 ++ l2) = sub o n l1.
Proof. intros. unfold sub. rewrite drop_app_le, take_app_le by (rewrite ?length_drop; lia). done. Qed.
Lemma range_app_r o n (l1 l2 : list Z) : 0 ≤ o → range (length l1 + o) n (l1 ++ l2) = range o n l2.
Proof.
  intros. unfold range. rewrite length_app, sub_app_at by done.
  destruct (Z.leb_spec 0 n), (Z.leb_spec 0 o), (Z.leb_spec 0 (length l1 + o)), (Z.leb_spec (length l1 + o + n) (length l1 + length l2)%nat),
    (Z.leb_spec (o + n) (length l2)); try done; lia.
Qed.
Lemma load_app_r n o (l1 l2 : list Z) : 0 ≤ o → load n (length l1 + o) (l1 ++ l2) = load n o l2.
Proof. intros. unfold load. by rewrite range_app_r. Qed.
Lemma range_app_l o n (l1 l2 : list Z) : 0 ≤ o → 0 ≤ n → o + n ≤ length l1 → range o n (l1 ++ l2) = range o n l1.
Proof. intros. rewrite !range_Some by (rewrite ?length_app; lia). by rewrite sub_app_l. Qed.
Lemma load_app_l n o (l1 l2 : list Z) : 0 ≤ o → 0 ≤ n → o + n ≤ length l1 → load n o (l1 ++ l2) = load n o l1.
Proof. intros. unfold load. by rewrite range_app_l. Qed.
(** Loading what [le_bytes] wrote. *)
Lemma load_le_bytes (n : nat) z l : load n 0 (le_bytes n z ++ l) = Some (wrap (8 * n) z).
Proof.
  unfold load. rewrite range_app_l by (rewrite ?length_le_bytes; lia). rewrite range_Some by (rewrite ?length_le_bytes; lia).
  cbn [fmap option_fmap option_map]. f_equal. rewrite <- le_val_le_bytes. f_equal. unfold sub. rewrite Nat2Z.id.
  change (Z.to_nat 0) with 0%nat. rewrite drop_0. apply take_ge. by rewrite length_le_bytes.
Qed.

(** Where a store is, and where it is not. *)
Lemma store_Some o v b : 0 ≤ o → o + length v ≤ length b → store o v b = Some (list_inserts (Z.to_nat o) v b).
Proof. intros. unfold store. rewrite (proj2 (Z.leb_le 0 o)), (proj2 (Z.leb_le _ _)) by lia. done. Qed.
Lemma store_at (l1 l2 l3 v : list Z) (o : Z) : o = length l1 → length v = length l2 →
  store o v (l1 ++ l2 ++ l3) = Some (l1 ++ v ++ l3).
Proof.
  intros -> Hl. rewrite store_Some by (rewrite ?length_app; lia). f_equal. rewrite Nat2Z.id, inserts_app_at. f_equal.
  by apply list_inserts_0_r.
Qed.
Lemma store_head (l2 l3 v : list Z) : length v = length l2 → store 0 v (l2 ++ l3) = Some (v ++ l3).
Proof. by apply (store_at []). Qed.
End range.

(** ** Strings in memory *)

(** The string at [o], up to the zero byte that ends it. *)
Fixpoint cstr (l : list Z) : option (list Z) :=
  match l with [] => None | c :: l => if c =? 0 then Some [] else cons c <$> cstr l end.
Definition read_str (o : Z) (b : list Z) : option (list Z) :=
  if 0 <=? o then cstr (drop (Z.to_nat o) b) else None.

Lemma cstr_app l c l' : c = 0 → ∃ s, cstr (l ++ c :: l') = Some s.
Proof.
  intros ->. induction l as [|x l [s IH]]; [by exists []|]. cbn. destruct (x =? 0); [by eexists|].
  rewrite IH. by eexists.
Qed.

Lemma read_str_at b o l : 0 ≤ o ≤ l → load 1 l b = Some 0 → is_Some (read_str o b).
Proof.
  intros Ho Hl. unfold read_str. rewrite (proj2 (Z.leb_le 0 o)) by lia. unfold load in Hl.
  destruct (range l 1 b) as [v|] eqn:Er; [|done]. apply range_inv in Er as (_ & _ & Hin & ->).
  destruct (lookup_lt_is_Some_2 b (Z.to_nat l)) as [c Hc]; [lia|].
  assert (c = 0) as ->.
  { revert Hl. unfold sub. rewrite (drop_S _ c) by done. cbn. intros [= ?]. lia. }
  assert (drop (Z.to_nat o) b = take (Z.to_nat l - Z.to_nat o) (drop (Z.to_nat o) b) ++ 0 :: drop (S (Z.to_nat l)) b) as ->.
  { rewrite <- (take_drop (Z.to_nat l - Z.to_nat o) (drop (Z.to_nat o) b)) at 1. f_equal. rewrite drop_drop.
    replace (Z.to_nat o + (Z.to_nat l - Z.to_nat o))%nat with (Z.to_nat l) by lia. by apply drop_S. }
  destruct (cstr_app (take (Z.to_nat l - Z.to_nat o) (drop (Z.to_nat o) b)) 0 (drop (S (Z.to_nat l)) b) eq_refl) as [s ->]. done.
Qed.

(** The bytes of a string literal. *)
Definition bytes_of (s : string) : list Z := (λ c, Z.of_nat (nat_of_ascii c)) <$> String.list_ascii_of_string s.
Lemma bytes_of_ok s : bytes_ok (bytes_of s).
Proof.
  unfold bytes_of. apply Forall_fmap, Forall_forall. intros c _. cbv beta. unfold is_word, compose.
  pose proof (nat_ascii_bounded c). change (2 ^ 8) with 256. lia.
Qed.

(** ** Records in memory: fields of some widths, one after the other *)

Definition enc (fs : list (nat * Z)) : list Z := concat ((λ f, le_bytes f.1 f.2) <$> fs).
Definition width (fs : list (nat * Z)) : Z := foldr (λ f n, Z.of_nat f.1 + n) 0 fs.

Lemma length_enc fs : Z.of_nat (length (enc fs)) = width fs.
Proof. induction fs as [|[w v] fs IH]; [done|]. unfold enc in *. cbn. rewrite length_app, length_le_bytes. unfold width in IH. lia. Qed.
Lemma enc_bytes fs : bytes_ok (enc fs).
Proof. induction fs as [|[w v] fs IH]; [constructor|]. apply Forall_app_2; [apply le_bytes_ok|exact IH]. Qed.

(** A part of the bytes at a place. *)
Definition has (o : Z) (l d : list Z) : Prop := ∃ pre post, d = pre ++ l ++ post ∧ Z.of_nat (length pre) = o.

Lemma has_app o l1 l2 d : has o (l1 ++ l2) d → has o l1 d ∧ has (o + length l1) l2 d.
Proof.
  intros (pre & post & -> & <-). split; [exists pre, (l2 ++ post); by rewrite <- app_assoc|].
  exists (pre ++ l1), post. rewrite length_app. split; [by rewrite <- !app_assoc|lia].
Qed.
Lemma has_bound o l d : has o l d → 0 ≤ o ∧ o + length l ≤ length d.
Proof. intros (pre & post & -> & <-). rewrite !length_app. lia. Qed.
Lemma has_range o l d : has o l d → range o (length l) d = Some l.
Proof.
  intros (pre & post & -> & <-). replace (Z.of_nat (length pre)) with (length pre + 0) by lia. rewrite range_app_r by lia. rewrite range_app_l by lia.
  rewrite range_Some by lia. f_equal. unfold sub. rewrite Nat2Z.id. change (Z.to_nat 0) with 0%nat. rewrite drop_0. by apply take_ge.
Qed.
Lemma has_field fs (i w : nat) v o d : has o (enc fs) d → fs !! i = Some (w, v) → is_word (8 * w) v → load w (o + width (take i fs)) d = Some v.
Proof.
  intros Hh Hi Hv. rewrite <- (take_drop_middle _ _ _ Hi) in Hh. unfold enc in Hh. rewrite fmap_app, concat_app in Hh.
  apply has_app in Hh as [_ Hh]. fold (enc (take i fs)) in Hh. rewrite length_enc in Hh. cbn in Hh. apply has_app in Hh as [Hh _].
  apply has_range in Hh. unfold load. rewrite length_le_bytes in Hh. rewrite Hh. cbn. f_equal. rewrite le_val_le_bytes. by apply wrap_small.
Qed.
Lemma fields_at d fs o : has o (enc fs) d → Forall (λ f : nat * Z, is_word (8 * Z.of_nat f.1) f.2) fs →
  ∀ (i w : nat) (z v off : Z), fs !! i = Some (w, v) → z = Z.of_nat w → off = width (take i fs) → load z (o + off) d = Some v.
Proof. intros Hh Hf i w z v off Hi -> ->. apply (has_field fs i); [done..|]. exact (Forall_lookup_1 _ _ _ _ Hf Hi). Qed.
