(* ===== verification/Checksum.v ===== *)
(** * The Internet checksum

    Reference definition of the one's-complement checksum of RFC 1071, as a
    receiver of the packets the echo programs transmit computes it: 16-bit
    big-endian words added with end-around carry, valid when the sum over the
    data and its checksum field is [0xffff].  The lemmas reduce validity to
    arithmetic modulo 65535. *)

From S2P Require Import Prelude.

(** One step of the one's-complement sum. *)
Definition onec_add (a b : Z) : Z := (a + b) mod 65536 + (a + b) / 65536.

(** Big-endian 16-bit words; an odd last byte is padded with zero. *)
Fixpoint be_words (bs : list Z) : list Z :=
  match bs with
  | a :: b :: bs => (256 * a + b) :: be_words bs
  | [a] => [256 * a]
  | [] => []
  end.

Definition onec_sum (bs : list Z) : Z := foldr onec_add 0 (be_words bs).
Definition csum_valid (bs : list Z) : Prop := onec_sum bs = 65535.

#[export] Instance csum_valid_dec bs : Decision (csum_valid bs).
Proof. unfold csum_valid. apply _. Defined.

Definition words_sum (bs : list Z) : Z := foldr Z.add 0 (be_words bs).

(** Two-step induction along the words of a byte list. *)
Lemma list_pair_ind {A} (P : list A → Prop) :
  P [] → (∀ a, P [a]) → (∀ a b l, P l → P (a :: b :: l)) → ∀ l, P l.
Proof.
  intros H0 H1 H2 l.
  enough (P l ∧ ∀ a, P (a :: l)) as [? _] by done.
  induction l as [|x l [IH1 IH2]]; split; auto.
Qed.

Lemma be_words_range bs : bytes_ok bs → Forall (is_word 16) (be_words bs).
Proof.
  unfold is_word. induction bs as [|a|a b bs IH] using list_pair_ind; simpl; intros H.
  - constructor.
  - inv H. constructor; [lia|constructor].
  - inv H. inv H3. constructor; [lia|auto].
Qed.

(** The end-around-carry sum is the representative of the plain sum in
    [1, 65535], and 0 exactly when every word is 0. *)
Lemma onec_sum_mod ws :
  Forall (is_word 16) ws →
  0 ≤ foldr Z.add 0 ws ∧
  foldr onec_add 0 ws =
    if foldr Z.add 0 ws =? 0 then 0 else 1 + (foldr Z.add 0 ws - 1) mod 65535.
Proof.
  unfold is_word. induction 1 as [|w ws Hw _ [IH0 IH]]; cbn [foldr]; [done|].
  change (2 ^ 16) with 65536 in Hw. split; [lia|].
  rewrite IH. clear IH. generalize dependent (foldr Z.add 0 ws). intros n H0.
  unfold onec_add. repeat case_match; dlia.
Qed.

Lemma csum_valid_iff bs :
  bytes_ok bs → csum_valid bs ↔ 0 < words_sum bs ∧ words_sum bs mod 65535 = 0.
Proof.
  intros Hb. unfold csum_valid, onec_sum, words_sum.
  destruct (onec_sum_mod _ (be_words_range _ Hb)) as [H0 ->].
  generalize dependent (foldr Z.add 0 (be_words bs)). intros n H0.
  case_match; dlia.
Qed.

Lemma words_sum_app bs1 bs2 :
  Nat.Even (length bs1) → words_sum (bs1 ++ bs2) = words_sum bs1 + words_sum bs2.
Proof.
  unfold words_sum. induction bs1 as [|a|a b bs1 IH] using list_pair_ind; simpl.
  - lia.
  - intros [k Hk]. lia.
  - intros [k Hk]. rewrite IH; [lia|]. exists (k - 1)%nat. lia.
Qed.

Lemma words_sum_range bs :
  bytes_ok bs → 0 ≤ words_sum bs.
Proof.
  intros Hb. unfold words_sum. apply (onec_sum_mod _ (be_words_range _ Hb)).
Qed.
