(* ===== verification/Echo.v ===== *)
(** * The XDP echo programs

    [xdp_udp_echo] ([src/src/xdp/xdp_echo_kern.c]) and [xdp_icmp_echo]
    ([src/src/xdp/xdp_icmp_echo.c]), statement by statement over the packet
    memory of [Packet], their specifications on the bytes of the packet, and
    the proofs that the programs implement them without a faulting access. *)

From S2P Require Import Prelude Packet Checksum.

(** ** The UDP echo *)
Module UdpEcho.

Definition xdp_udp_echo : xprog Z :=
  let! ctx := pget in
  let data_end := data_end ctx in
  let data := data ctx in
  if data_end <? data + ethhdr.sizeof + iphdr.sizeof + udphdr.sizeof
  then pret XDP_ABORTED
  else
  let eth := data in
  let ip := data + ethhdr.sizeof in
  let udp := ip + iphdr.sizeof in
  let! protocol := load8 (iphdr.protocol ip) in
  if negb (protocol =? IPPROTO_UDP) then pret XDP_PASS
  else
  let! tmp := load_bytes (ethhdr.h_dest eth) ETH_ALEN in
  memcpy (ethhdr.h_dest eth) (ethhdr.h_source eth) ETH_ALEN ;;;
  store_bytes (ethhdr.h_source eth) tmp ;;;
  let! sip := load32 (iphdr.saddr ip) in
  let! dip := load32 (iphdr.daddr ip) in
  store32 (iphdr.saddr ip) dip ;;;
  store32 (iphdr.daddr ip) sip ;;;
  store16 (iphdr.check ip) 0 ;;;
  let! sp := load16 (udphdr.source udp) in
  let! dp := load16 (udphdr.dest udp) in
  store16 (udphdr.source udp) dp ;;;
  store16 (udphdr.dest udp) sp ;;;
  store16 (udphdr.check udp) 0 ;;;
  pret XDP_TX.

(** The intended reply on the bytes of the packet: Ethernet and IPv4 addresses
    and UDP ports exchanged, both checksums zero, everything else kept. *)
Definition udp_reply (l : list Z) : list Z :=
  sub 6 6 l ++ sub 0 6 l ++ sub 12 12 l ++ [0; 0] ++ sub 30 4 l ++ sub 26 4 l ++
  sub 36 2 l ++ sub 34 2 l ++ sub 38 2 l ++ [0; 0] ++ drop 42 l.

Definition udp_echo_spec (l : list Z) : Z * list Z :=
  if length l <? 42 then (XDP_ABORTED, l)
  else if negb (le_val (sub 23 1 l) =? IPPROTO_UDP) then (XDP_PASS, l)
  else (XDP_TX, udp_reply l).

(** Symbolic execution of the whole program. *)
Lemma xdp_udp_echo_run s :
  wf_xdp s →
  xdp_udp_echo s = Some ((udp_echo_spec (pkt s)).1, with_pkt s (udp_echo_spec (pkt s)).2).
Proof.
  intros Hw. apply run_of_wp; [done|]. intros l -> Hf Hl.
  unfold xdp_udp_echo, udp_echo_spec, pkt_len in *.
  do 2 wp_step. cbn [data_end data with_pkt]. autounfold with hdr.
  apply wp_if; intros Hb.
  { rewrite (proj2 (Z.ltb_lt _ _)) by lia. by apply wp_ret. }
  rewrite (proj2 (Z.ltb_ge _ _)) by lia.
  repeat wp_step. apply wp_if; intros ->; [by apply wp_ret|].
  assert (42 ≤ length l)%nat as Hlen by lia.
  repeat wp_step. cbn [fst snd]. do 2 f_equal. subst. clear - Hlen.
  explode 42 l. reflexivity.
Qed.

Lemma length_udp_reply l : (42 ≤ length l)%nat → length (udp_reply l) = length l.
Proof. intros Hl. explode 42 l. reflexivity. Qed.

Lemma udp_reply_fits s : wf_xdp s → (42 ≤ length (pkt s))%nat → fits s (udp_reply (pkt s)).
Proof.
  intros Hw Hl. pose proof (pkt_bytes_ok s Hw). split; [done|]. split.
  - rewrite length_udp_reply by done. by apply length_pkt.
  - unfold udp_reply. rewrite !Forall_app.
    split_and!; auto with word. by apply Forall_drop.
Qed.

(** The packet after a run that transmits. *)
Lemma udp_echo_tx s s' :
  wf_xdp s → xdp_udp_echo s = Some (XDP_TX, s') →
  (42 ≤ length (pkt s))%nat ∧ pkt s' = udp_reply (pkt s).
Proof.
  intros Hw. rewrite xdp_udp_echo_run by done. unfold udp_echo_spec.
  repeat case_match; intros [= <-]. split; [lia|].
  apply pkt_with_pkt, udp_reply_fits; [done|lia].
Qed.

Lemma udp_echo_wf s s' : wf_xdp s → xdp_udp_echo s = Some (XDP_TX, s') → wf_xdp s'.
Proof.
  intros Hw. rewrite xdp_udp_echo_run by done. unfold udp_echo_spec.
  repeat case_match; intros [= <-]. apply wf_with_pkt, udp_reply_fits; [done|lia].
Qed.

(** C1: [xdp_udp_echo] never makes an access outside the packet, and on every
    packet its verdict and the bytes it leaves are those of [udp_echo_spec];
    the rest of the frame is untouched. *)
Theorem xdp_udp_echo_refines s :
  wf_xdp s →
  xdp_udp_echo s = Some ((udp_echo_spec (pkt s)).1, with_pkt s (udp_echo_spec (pkt s)).2).
Proof. apply xdp_udp_echo_run. Qed.

(** A 46-byte frame behind 4 bytes of head room: Ethernet, IPv4 with a valid
    header checksum, UDP from port 4660 to port 9000, four bytes of payload. *)
Definition sample_udp : xdp_md := mk_xdp_md
  ([0; 0; 0; 0] ++
   [2; 0; 0; 0; 0; 1; 2; 0; 0; 0; 0; 2; 8; 0] ++
   [69; 0; 0; 32; 0; 1; 64; 0; 64; 17; 38; 202; 10; 0; 0; 2; 10; 0; 0; 1] ++
   [18; 52; 35; 40; 0; 12; 171; 205] ++ [1; 2; 3; 4]) 4 50.

Lemma sample_udp_wf : wf_xdp sample_udp.
Proof. by apply (bool_decide_unpack _). Defined.

Lemma xdp_udp_echo_refines_witness :
  wf_xdp sample_udp ∧
  xdp_udp_echo sample_udp = Some (XDP_TX, with_pkt sample_udp (udp_reply (pkt sample_udp))).
Proof.
  split; [exact sample_udp_wf|].
  exact (xdp_udp_echo_refines sample_udp sample_udp_wf).
Defined.

(** The verdict does not depend on the EtherType: replacing it in any frame
    leaves the verdict as it was, so that a frame that is not IPv4 is echoed
    when the byte at the place of the protocol field is 17. *)
Theorem udp_echo_ignores_ethertype s e0 e1 :
  wf_xdp s → is_byte e0 → is_byte e1 →
  let s1 := with_pkt s (list_inserts 12 [e0; e1] (pkt s)) in
  fst <$> xdp_udp_echo s1 = fst <$> xdp_udp_echo s.
Proof.
  intros Hw H0 H1 s1. pose proof (fits_pkt s Hw) as Hf.
  assert (fits s (list_inserts 12 [e0; e1] (pkt s))) as Hf1
    by (apply fits_inserts; [done|bytes_tac]).
  assert (wf_xdp s1) as Hw1 by by apply wf_with_pkt.
  rewrite !xdp_udp_echo_run by done. unfold s1. rewrite pkt_with_pkt by done.
  unfold udp_echo_spec. rewrite length_inserts. cbn [fmap option_fmap option_map].
  destruct (_ <? 42) eqn:El; [done|].
  replace (sub 23 1 (list_inserts 12 [e0; e1] (pkt s))) with (sub 23 1 (pkt s)).
  { by destruct (_ =? IPPROTO_UDP). }
  list_ext.
Qed.

Lemma udp_echo_ignores_ethertype_witness :
  fst <$> xdp_udp_echo (with_pkt sample_udp (list_inserts 12 [8; 6] (pkt sample_udp)))
  = Some XDP_TX.
Proof.
  rewrite (udp_echo_ignores_ethertype sample_udp 8 6 sample_udp_wf); done.
Defined.
End UdpEcho.

(** ** The ICMP echo *)
Module IcmpEcho.

Definition swap_src_dst_mac (eth : Z) : xprog () :=
  let! tmp := load_bytes (ethhdr.h_dest eth) ETH_ALEN in
  memcpy (ethhdr.h_dest eth) (ethhdr.h_source eth) ETH_ALEN ;;;
  store_bytes (ethhdr.h_source eth) tmp.

Definition swap_src_dst_ipv4 (ip : Z) : xprog () :=
  let! t := load32 (iphdr.saddr ip) in
  let! d := load32 (iphdr.daddr ip) in
  store32 (iphdr.saddr ip) d ;;;
  store32 (iphdr.daddr ip) t.

Section icmp_echo.
(** The kernel helper: the [from] buffer and its size, the [to] buffer and
    its size, the seed; the result is the signed 64-bit return value. *)
Context (bpf_csum_diff : list Z → Z → list Z → Z → Z → Z).

Definition xdp_icmp_echo : xprog Z :=
  let! ctx := pget in
  let data_end := data_end ctx in
  let data := data ctx in
  if data_end <? data + ethhdr.sizeof + iphdr.sizeof + icmphdr.sizeof
  then pret XDP_PASS else
  let eth := data in
  let! h_proto := load16 (ethhdr.h_proto eth) in
  if negb (h_proto =? bpf_htons ETH_P_IP) then pret XDP_PASS else
  let ip := data + ethhdr.sizeof in
  let! protocol := load8 (iphdr.protocol ip) in
  if negb (protocol =? IPPROTO_ICMP) then pret XDP_PASS else
  let! vihl := load8 (iphdr.version_ihl ip) in
  let icmp := ip + iphdr.ihl_of vihl * 4 in
  if data_end <? icmp + icmphdr.sizeof then pret XDP_PASS else
  let! type := load8 (icmphdr.type icmp) in
  if negb (type =? ICMP_ECHO) then pret XDP_PASS else
  swap_src_dst_mac eth ;;;
  swap_src_dst_ipv4 ip ;;;
  store16 (iphdr.check ip) 0 ;;;
  let! code := load8 (icmphdr.code icmp) in
  let old16 := bpf_htons (Z.lor (Z.shiftl ICMP_ECHO 8) code) in
  let new16 := bpf_htons (Z.lor (Z.shiftl ICMP_ECHOREPLY 8) code) in
  store8 (icmphdr.type icmp) ICMP_ECHOREPLY ;;;
  let! checksum := load16 (icmphdr.checksum icmp) in
  let csum := u32 (bpf_csum_diff (le_bytes 2 old16) 2 (le_bytes 2 new16) 2 checksum) in
  store16 (icmphdr.checksum icmp) (u16 csum) ;;;
  pret XDP_TX.

(** The specification, in two stages: the Ethernet and IPv4 rewriting, then
    the ICMP rewriting at the offset the header length gives. *)
Definition ip_swapped (l : list Z) : list Z :=
  sub 6 6 l ++ sub 0 6 l ++ sub 12 12 l ++ [0; 0] ++ sub 30 4 l ++ sub 26 4 l ++
  drop 34 l.

Definition icmp_off (l : list Z) : Z := 14 + iphdr.ihl_of (le_val (sub 14 1 l)) * 4.

(** The value the program stores in the checksum field, given the ICMP code
    and the old checksum. *)
Definition new_csum (code checksum : Z) : Z :=
  u16 (u32 (bpf_csum_diff (le_bytes 2 (bpf_htons (Z.lor (Z.shiftl ICMP_ECHO 8) code))) 2
                          (le_bytes 2 (bpf_htons (Z.lor (Z.shiftl ICMP_ECHOREPLY 8) code))) 2
                          checksum)).

Definition icmp_reply (off : Z) (l : list Z) : list Z :=
  let l1 := list_inserts (Z.to_nat off) [ICMP_ECHOREPLY] l in
  list_inserts (Z.to_nat (off + 2))
    (le_bytes 2 (new_csum (le_val (sub (off + 1) 1 l)) (le_val (sub (off + 2) 2 l1)))) l1.

Definition is_echo_request (l : list Z) : bool :=
  (42 <=? length l) && (le_val (sub 12 2 l) =? bpf_htons ETH_P_IP) &&
  (le_val (sub 23 1 l) =? IPPROTO_ICMP) && (icmp_off l + 8 <=? length l) &&
  (le_val (sub (icmp_off l) 1 l) =? ICMP_ECHO).

Definition icmp_echo_spec (l : list Z) : Z * list Z :=
  if is_echo_request l then (XDP_TX, icmp_reply (icmp_off l) (ip_swapped l))
  else (XDP_PASS, l).

Lemma icmp_off_range l : 14 ≤ icmp_off l ≤ 74.
Proof.
  unfold icmp_off, iphdr.ihl_of.
  change 15 with (Z.ones 4). rewrite Z.land_ones by lia.
  pose proof (Z.mod_pos_bound (le_val (sub 14 1 l)) (2 ^ 4) ltac:(lia)). lia.
Qed.

(** Closes the branch of a guard that rejected the packet. *)
Ltac not_request l :=
  assert (is_echo_request l = false) as -> by
    (unfold is_echo_request;
     repeat match goal with H : _ = false |- _ => rewrite H end;
     by rewrite ?andb_false_r);
  by apply wp_ret.

Lemma ip_swapped_inserts l :
  (34 ≤ length l)%nat →
  let l1 := list_inserts 0 (sub 6 6 l) l in
  let l2 := list_inserts 6 (sub 0 6 l) l1 in
  let l3 := list_inserts 26 (sub 30 4 l2) l2 in
  let l4 := list_inserts 30 (sub 26 4 l2) l3 in
  list_inserts 24 [0; 0] l4 = ip_swapped l.
Proof. intros Hlen. explode 34 l. reflexivity. Qed.

(** Symbolic execution of the whole program. *)
Lemma xdp_icmp_echo_run s :
  wf_xdp s →
  xdp_icmp_echo s = Some ((icmp_echo_spec (pkt s)).1, with_pkt s (icmp_echo_spec (pkt s)).2).
Proof.
  intros Hw. apply run_of_wp; [done|]. intros l -> Hf Hl.
  pose proof (icmp_off_range l) as Hoff.
  unfold xdp_icmp_echo, icmp_echo_spec, pkt_len in *.
  do 2 wp_step. cbn [data_end data with_pkt]. autounfold with hdr.
  apply wp_if; intros Hb.
  { unfold is_echo_request. rewrite (proj2 (Z.leb_gt _ _)) by lia. by apply wp_ret. }
  assert (42 ≤ length l)%nat as Hlen by lia.
  repeat wp_step. apply wp_if; intros Hp; rewrite ?negb_true_iff, ?negb_false_iff in Hp;
    [not_request l|].
  repeat wp_step. apply wp_if; intros Hq; rewrite ?negb_true_iff, ?negb_false_iff in Hq;
    [not_request l|].
  repeat wp_step. apply wp_if; intros Hr.
  { assert ((icmp_off l + 8 <=? length l) = false) by (unfold icmp_off; lia).
    not_request l. }
  assert (icmp_off l = 14 + iphdr.ihl_of (le_val (sub 14 1 l)) * 4) as Ho by done.
  generalize dependent (iphdr.ihl_of (le_val (sub 14 1 l))). intros ihl Hr Ho.
  wp_at (icmp_off l).
  apply wp_if; intros Ht; rewrite ?negb_true_iff, ?negb_false_iff in Ht;
    [not_request l|].
  assert (is_echo_request l = true) as ->.
  { unfold is_echo_request. rewrite Hp, Hq, Ht. lia. }
  unfold swap_src_dst_mac, swap_src_dst_ipv4. autounfold with hdr.
  repeat wp_step.
  match goal with E : ?l' = list_inserts _ _ _ |- wp _ (with_pkt s ?l') _ =>
    assert (l' = ip_swapped l) as -> by
      (subst; apply ip_swapped_inserts; lia)
  end.
  wp_at (icmp_off l + 1). wp_step. wp_at (icmp_off l). wp_at (icmp_off l + 2). wp_step.
  wp_at (icmp_off l + 2). wp_step. subst. reflexivity.
Qed.

Lemma ip_swapped_app P Q : (34 ≤ length P)%nat → ip_swapped (P ++ Q) = ip_swapped P ++ Q.
Proof. intros Hlen. explode 34 P. reflexivity. Qed.

Lemma length_ip_swapped l : (34 ≤ length l)%nat → length (ip_swapped l) = length l.
Proof. intros Hlen. explode 34 l. reflexivity. Qed.

(** With the ICMP header past the fixed IPv4 header, the ICMP rewriting acts
    on the message alone. *)
Lemma icmp_reply_app P t code k0 k1 rest :
  icmp_reply (length P) (P ++ t :: code :: k0 :: k1 :: rest) =
  P ++ ICMP_ECHOREPLY :: code :: le_bytes 2 (new_csum code (le_val [k0; k1])) ++ rest.
Proof.
  unfold icmp_reply. rewrite Nat2Z.id, inserts_app_at.
  rewrite inserts_app_off, !sub_app_at by lia. f_equal.
  change (sub 1 1 _) with [code].
  by replace (le_val [code]) with code by (simpl; lia).
Qed.

(** The packet after a run that transmits. *)
Lemma icmp_echo_tx s s' :
  wf_xdp s → xdp_icmp_echo s = Some (XDP_TX, s') →
  is_echo_request (pkt s) = true ∧
  pkt s' = icmp_reply (icmp_off (pkt s)) (ip_swapped (pkt s)).
Proof.
  intros Hw. rewrite xdp_icmp_echo_run by done. unfold icmp_echo_spec.
  pose proof (length_pkt s Hw). pose proof (pkt_bytes_ok s Hw).
  destruct (is_echo_request (pkt s)) eqn:E; [|done]. intros [= <-]. split; [done|].
  apply pkt_with_pkt. split; [done|].
  unfold is_echo_request in E.
  assert (34 ≤ length (pkt s))%nat by lia.
  split; unfold icmp_reply.
  - by rewrite !length_inserts, length_ip_swapped.
  - do 2 (apply Forall_inserts; [solve [auto with word]|]).
    unfold ip_swapped. rewrite !Forall_app. split_and!; auto with word.
    by apply Forall_drop.
Qed.

Lemma icmp_echo_reply_run s hdr code k0 k1 rest :
  wf_xdp s → is_echo_request (pkt s) = true →
  pkt s = hdr ++ ICMP_ECHO :: code :: k0 :: k1 :: rest →
  icmp_off (pkt s) = length hdr → (34 ≤ length hdr)%nat →
  ∃ s', xdp_icmp_echo s = Some (XDP_TX, s') ∧
    pkt s' = ip_swapped hdr ++ ICMP_ECHOREPLY :: code ::
               le_bytes 2 (new_csum code (le_val [k0; k1])) ++ rest.
Proof.
  intros Hw Hr Hp Ho Hh. pose proof (xdp_icmp_echo_run s Hw) as Hrun.
  unfold icmp_echo_spec in Hrun. rewrite Hr in Hrun. eexists; split; [exact Hrun|].
  destruct (icmp_echo_tx s _ Hw Hrun) as [_ ->].
  rewrite Ho, Hp, ip_swapped_app, <- (length_ip_swapped hdr) by done.
  apply icmp_reply_app.
Qed.

(** C2: [xdp_icmp_echo] never makes an access outside the packet, whatever
    the header-length field says, and on every packet its verdict and the
    bytes it leaves are those of [icmp_echo_spec]. *)
Theorem xdp_icmp_echo_refines s :
  wf_xdp s →
  xdp_icmp_echo s = Some ((icmp_echo_spec (pkt s)).1, with_pkt s (icmp_echo_spec (pkt s)).2).
Proof. apply xdp_icmp_echo_run. Qed.

(** For a well-formed echo request (the ICMP header behind the fixed
    IPv4 header) the program transmits the reply: Ethernet and IPv4 addresses
    exchanged, type [ICMP_ECHOREPLY], code, identifier, sequence number and
    payload kept. *)
Theorem icmp_echo_reply_shape s hdr code k0 k1 rest :
  wf_xdp s → is_echo_request (pkt s) = true →
  pkt s = hdr ++ ICMP_ECHO :: code :: k0 :: k1 :: rest →
  icmp_off (pkt s) = length hdr → (34 ≤ length hdr)%nat →
  ∃ s', xdp_icmp_echo s = Some (XDP_TX, s') ∧
    pkt s' = ip_swapped hdr ++ ICMP_ECHOREPLY :: code ::
               le_bytes 2 (new_csum code (le_val [k0; k1])) ++ rest.
Proof. apply icmp_echo_reply_run. Qed.

(** The checksum helper is documented to want sizes that are multiples of
    four and to return a negative error code on failure. *)
Hypothesis csum_diff_sizes : ∀ from from_size to to_size seed,
  from_size mod 4 ≠ 0 ∨ to_size mod 4 ≠ 0 →
  -4095 ≤ bpf_csum_diff from from_size to to_size seed < 0.

Lemma new_csum_is_error code k : 61441 ≤ new_csum code k < 65536.
Proof.
  unfold new_csum.
  match goal with |- context [bpf_csum_diff ?f 2 ?t 2 ?d] =>
    pose proof (csum_diff_sizes f 2 t 2 d ltac:(by left)) as He end.
  unfold wrap. change (2 ^ 32) with 4294967296. change (2 ^ 16) with 65536. dlia.
Qed.

(** The size argument 2 makes the helper fail, so what the program stores
    as the ICMP checksum is a truncated error code.  Consequently the reply
    to a request with a valid checksum is itself invalid whenever the correct
    reply checksum has a low byte below [0xf0]. *)
Theorem icmp_echo_reply_checksum_invalid s s' hdr code k0 k1 rest :
  wf_xdp s → xdp_icmp_echo s = Some (XDP_TX, s') →
  pkt s = hdr ++ ICMP_ECHO :: code :: k0 :: k1 :: rest →
  icmp_off (pkt s) = length hdr → (34 ≤ length hdr)%nat →
  csum_valid (ICMP_ECHO :: code :: k0 :: k1 :: rest) →
  0 < (256 * k0 + k1 + 2048) mod 65535 →
  ((256 * k0 + k1 + 2048) mod 65535) mod 256 < 240 →
  ¬ csum_valid (drop (length hdr) (pkt s')).
Proof.
  intros Hw Hrun Hp Ho Hh Hv H0 H240.
  destruct (icmp_echo_tx s s' Hw Hrun) as [Hr _].
  destruct (icmp_echo_reply_run s hdr code k0 k1 rest) as (s'' & Hrun' & Hp'); [done..|].
  rewrite Hrun in Hrun'. injection Hrun' as <-. rewrite Hp'.
  pose proof (pkt_bytes_ok s Hw) as Hb. rewrite Hp in Hb.
  apply Forall_app in Hb as [_ Hb]. rewrite <- (length_ip_swapped hdr) by done.
  rewrite drop_app_length. apply csum_valid_iff in Hv; [|done].
  rewrite !Forall_cons in Hb. destruct Hb as (? & ? & ? & ? & ?). unfold is_word in *.
  rewrite csum_valid_iff.
  2: { do 2 (constructor; [done|]). apply Forall_app. auto with word. }
  pose proof (new_csum_is_error code (le_val [k0; k1])) as He.
  generalize dependent (new_csum code (le_val [k0; k1])). intros ck He.
  unfold words_sum in *. simpl in *. unfold ICMP_ECHO, ICMP_ECHOREPLY in *. dlia.
Qed.
End icmp_echo.

(** A frame with an IPv4 header of 20 bytes and an ICMP echo request, both with
    valid checksums. *)
Definition sample_hdr : list Z :=
  [2; 0; 0; 0; 0; 1; 2; 0; 0; 0; 0; 2; 8; 0] ++
  [69; 0; 0; 32; 0; 1; 64; 0; 64; 1; 38; 218; 10; 0; 0; 2; 10; 0; 0; 1].
Definition sample_icmp : xdp_md := mk_xdp_md
  ([0; 0; 0; 0] ++ sample_hdr ++ [8; 0; 243; 215; 0; 1; 0; 1; 1; 2; 3; 36]) 4 50.

(** A helper with the documented interface: 32-bit one's-complement difference
    of the two buffers added to the seed, [-EINVAL] for unaligned sizes. *)
Fixpoint le32_words (bs : list Z) : list Z :=
  match bs with
  | a :: b :: c :: d :: bs => le_val [a; b; c; d] :: le32_words bs
  | _ => []
  end.
Definition sample_csum_diff (from : list Z) (from_size : Z) (to : list Z) (to_size seed : Z) : Z :=
  if (from_size mod 4 =? 0) && (to_size mod 4 =? 0)
  then (seed + foldr Z.add 0 (le32_words to)
        + foldr Z.add 0 (Z.lxor 4294967295 <$> le32_words from)) mod 4294967295
  else -22.

Lemma sample_icmp_wf : wf_xdp sample_icmp.
Proof. by apply (bool_decide_unpack _). Defined.

Lemma xdp_icmp_echo_refines_witness :
  wf_xdp sample_icmp ∧
  (fst <$> xdp_icmp_echo sample_csum_diff sample_icmp) = Some XDP_TX.
Proof.
  split; [exact sample_icmp_wf|].
  rewrite (xdp_icmp_echo_refines sample_csum_diff sample_icmp sample_icmp_wf).
  vm_compute. reflexivity.
Defined.

Lemma icmp_echo_reply_shape_witness :
  ∃ s', xdp_icmp_echo sample_csum_diff sample_icmp = Some (XDP_TX, s') ∧
        pkt s' = ip_swapped sample_hdr ++ [0; 0; 234; 255; 0; 1; 0; 1; 1; 2; 3; 36].
Proof.
  exact (icmp_echo_reply_shape sample_csum_diff sample_icmp sample_hdr 0 243 215 [0; 1; 0; 1; 1; 2; 3; 36]
           sample_icmp_wf eq_refl eq_refl eq_refl ltac:(vm_compute; lia)).
Defined.

Lemma sample_csum_diff_sizes from from_size to to_size seed :
  from_size mod 4 ≠ 0 ∨ to_size mod 4 ≠ 0 →
  -4095 ≤ sample_csum_diff from from_size to to_size seed < 0.
Proof.
  intros H. unfold sample_csum_diff.
  assert ((from_size mod 4 =? 0) && (to_size mod 4 =? 0) = false) as -> by lia. lia.
Qed.

Lemma icmp_echo_reply_checksum_invalid_witness :
  ∃ s', xdp_icmp_echo sample_csum_diff sample_icmp = Some (XDP_TX, s') ∧
        ¬ csum_valid (drop (length sample_hdr) (pkt s')).
Proof.
  eexists. split; [vm_compute; reflexivity|].
  eapply (icmp_echo_reply_checksum_invalid sample_csum_diff sample_csum_diff_sizes
            sample_icmp _ sample_hdr 0 243 215 [0; 1; 0; 1; 1; 2; 3; 36] sample_icmp_wf);
    vm_compute; reflexivity || lia.
Defined.

(** A header-length field below 5 is not rejected.  In this frame it is 1,
    the "ICMP header" is the identification field of the IPv4 header, and the
    program answers and overwrites that field. *)
Definition short_ihl : xdp_md := mk_xdp_md
  ([2; 0; 0; 0; 0; 1; 2; 0; 0; 0; 0; 2; 8; 0] ++
   [65; 0; 0; 32; 8; 0; 64; 0; 64; 1; 0; 0; 10; 0; 0; 2; 10; 0; 0; 1] ++
   [0; 0; 0; 0; 0; 0; 0; 0]) 0 42.

Theorem icmp_echo_accepts_short_ihl csum_diff :
  iphdr.ihl_of (le_val (sub 14 1 (pkt short_ihl))) = 1 ∧
  ∃ s', xdp_icmp_echo csum_diff short_ihl = Some (XDP_TX, s') ∧
        sub 18 1 (pkt s') = [ICMP_ECHOREPLY].
Proof.
  assert (wf_xdp short_ihl) as Hw by by apply (bool_decide_unpack _).
  pose proof (xdp_icmp_echo_run csum_diff short_ihl Hw) as Hrun.
  split; [reflexivity|]. eexists. split; [exact Hrun|].
  destruct (icmp_echo_tx csum_diff _ _ Hw Hrun) as [_ ->].
  change (icmp_off _) with 18. unfold icmp_reply.
  rewrite sub_inserts_before; [reflexivity|lia|lia|lia|vm_compute; discriminate].
Qed.
End IcmpEcho.

(** ** The IPv4 header the echo programs transmit *)
Module EchoChecksum.
Import UdpEcho IcmpEcho.

(** Exchanging the addresses leaves the sum alone; clearing the checksum field
    takes its value away. *)
Lemma words_sum_ip_swapped l :
  (34 ≤ length l)%nat →
  words_sum (sub 14 20 l) =
    words_sum (sub 14 20 (ip_swapped l)) + words_sum (sub 24 2 l).
Proof. intros Hlen. explode 34 l. unfold words_sum. simpl. lia. Qed.

Lemma csum_valid_cleared l :
  bytes_ok l → (34 ≤ length l)%nat → csum_valid (sub 14 20 l) →
  csum_valid (sub 14 20 (ip_swapped l)) ↔
    words_sum (sub 24 2 l) mod 65535 = 0 ∧ 0 < words_sum (sub 14 20 (ip_swapped l)).
Proof.
  intros Hb Hl. rewrite !csum_valid_iff; auto with word.
  - rewrite words_sum_ip_swapped by done. intros [_ H1].
    pose proof (words_sum_range (sub 24 2 l) ltac:(auto with word)). dlia.
  - apply sub_bytes_ok. unfold ip_swapped. rewrite !Forall_app.
    split_and!; auto with word. by apply Forall_drop.
Qed.

Lemma udp_reply_header l :
  (42 ≤ length l)%nat → sub 14 20 (udp_reply l) = sub 14 20 (ip_swapped l).
Proof. intros Hlen. explode 42 l. reflexivity. Qed.

Lemma icmp_reply_header csum_diff off l :
  34 ≤ off → off + 8 ≤ length l →
  sub 14 20 (icmp_reply csum_diff off l) = sub 14 20 l.
Proof.
  intros. unfold icmp_reply.
  rewrite !sub_inserts_before; rewrite ?length_inserts, ?length_le_bytes; simpl; lia || done.
Qed.

Lemma csum_field_zero l :
  bytes_ok l → (34 ≤ length l)%nat →
  words_sum (sub 24 2 l) mod 65535 = 0 ↔ sub 24 2 l = [0; 0] ∨ sub 24 2 l = [255; 255].
Proof.
  intros Hb Hl. apply (sub_bytes_ok 24 2) in Hb. pose proof (length_sub 24 2 l ltac:(lia) ltac:(lia) ltac:(lia)) as Hs.
  destruct (sub 24 2 l) as [|a [|b [|]]]; try done. rewrite !Forall_cons in Hb. unfold words_sum. cbn.
  split; [|by intros [[= -> ->]|[= -> ->]]]. intros H. apply Z.mod_divide in H as [k Hk]; [|done].
  assert (k = 0 ∨ k = 1) as [-> | ->] by (unfold is_byte in Hb; lia).
  - left. assert (a = 0 ∧ b = 0) as [-> ->] by (unfold is_byte in Hb; lia). done.
  - right. assert (a = 255 ∧ b = 255) as [-> ->] by (unfold is_byte in Hb; lia). done.
Qed.

Lemma ip_swapped_sum l :
  bytes_ok l → (34 ≤ length l)%nat → sub 14 1 l = [69] → 0 < words_sum (sub 14 20 (ip_swapped l)).
Proof.
  intros Hb Hl H.
  assert (bytes_ok (ip_swapped l)) as Hs.
  { unfold ip_swapped. rewrite !Forall_app. split_and!; auto with word. by apply Forall_drop. }
  assert (∃ x, sub 14 20 (ip_swapped l) = 69 :: x :: sub 16 18 (ip_swapped l)) as [x E].
  { revert H. explode 34 l. cbn. intros [= ->]. by eexists. }
  rewrite E. pose proof (sub_bytes_ok 14 20 _ Hs) as Hx. rewrite E, !Forall_cons in Hx.
  pose proof (words_sum_range (sub 16 18 (ip_swapped l)) ltac:(auto with word)).
  unfold words_sum, is_byte in *. cbn [be_words foldr]. lia.
Qed.

(** C3: both programs clear the IPv4 header checksum and do not recompute it.
    For a header without options (its first byte is [0x45], so that it is the
    20 bytes behind the Ethernet header) whose checksum is valid, the header
    of the transmitted reply is valid exactly when the received checksum field
    was [0x0000] or [0xffff]; with any other field a receiver following RFC 791
    discards the reply. *)
Theorem echo_ip_checksum_invalid csum_diff s s' :
  wf_xdp s → sub 14 1 (pkt s) = [69] →
  xdp_udp_echo s = Some (XDP_TX, s') ∨ xdp_icmp_echo csum_diff s = Some (XDP_TX, s') →
  csum_valid (sub 14 20 (pkt s)) →
  csum_valid (sub 14 20 (pkt s')) ↔
    sub 24 2 (pkt s) = [0; 0] ∨ sub 24 2 (pkt s) = [255; 255].
Proof.
  intros Hw Hv Hrun Hc. pose proof (pkt_bytes_ok s Hw) as Hb.
  enough ((34 ≤ length (pkt s))%nat ∧
          sub 14 20 (pkt s') = sub 14 20 (ip_swapped (pkt s))) as [Hl ->].
  { rewrite csum_valid_cleared, csum_field_zero by done. pose proof (ip_swapped_sum _ Hb Hl Hv). tauto. }
  destruct Hrun as [Hrun|Hrun].
  - apply udp_echo_tx in Hrun as (Hl & ->); [|done].
    split; [lia|]. by apply udp_reply_header.
  - assert (icmp_off (pkt s) = 34) as Ho by (unfold icmp_off; by rewrite Hv).
    apply icmp_echo_tx in Hrun as [Hr ->]; [|done]. unfold is_echo_request in Hr.
    rewrite icmp_reply_header; rewrite ?length_ip_swapped; try lia. split; [lia|done].
Qed.

(** Echoing a UDP packet twice gives back the original packet with its two
    checksum fields cleared. *)
Theorem udp_echo_twice s s' s'' :
  wf_xdp s → xdp_udp_echo s = Some (XDP_TX, s') → xdp_udp_echo s' = Some (XDP_TX, s'') →
  pkt s'' = list_inserts 24 [0; 0] (list_inserts 40 [0; 0] (pkt s)).
Proof.
  intros Hw H1 H2. assert (wf_xdp s') as Hw' by eauto using udp_echo_wf.
  apply udp_echo_tx in H1 as (Hl & E1); [|done]. apply udp_echo_tx in H2 as (_ & ->); [|done].
  rewrite E1. revert Hl. generalize (pkt s). intros l Hl. explode 42 l. reflexivity.
Qed.

Lemma echo_ip_checksum_invalid_witness :
  ∃ s', xdp_udp_echo sample_udp = Some (XDP_TX, s') ∧
    csum_valid (sub 14 20 (pkt sample_udp)) ∧ ¬ csum_valid (sub 14 20 (pkt s')).
Proof.
  eexists. split; [vm_compute; reflexivity|]. split; [vm_compute; reflexivity|].
  rewrite (echo_ip_checksum_invalid sample_csum_diff sample_udp _ sample_udp_wf);
    [intros [E|E]; vm_compute in E; discriminate E|vm_compute; reflexivity|left; vm_compute; reflexivity|vm_compute; reflexivity].
Defined.

Lemma udp_echo_twice_witness :
  ∃ s' s'', xdp_udp_echo sample_udp = Some (XDP_TX, s') ∧
    xdp_udp_echo s' = Some (XDP_TX, s'') ∧
    pkt s'' = list_inserts 24 [0; 0] (list_inserts 40 [0; 0] (pkt sample_udp)).
Proof.
  do 2 eexists. split; [vm_compute; reflexivity|]. split; [vm_compute; reflexivity|].
  eapply (udp_echo_twice sample_udp _ _ sample_udp_wf); vm_compute; reflexivity.
Defined.
End EchoChecksum.
