(* ===== verification/Parsing.v ===== *)
(** * Header parsing helpers

    [src/src/common/parsing_helpers.h], one definition per function.  A parser
    takes the cursor and [data_end] and returns its [int] result, the cursor it
    leaves and the header address it stored through its out parameter ([None]
    when it stored nothing).  The class [HeaderParser] is the contract the XDP
    programs rely on; every parser is an instance, and chains of parsers are
    proved safe from the contract alone. *)

From S2P Require Import Prelude Packet.

Record hdr_cursor := mk_cursor { pos : Z }.

Definition parsed : Type := Z * hdr_cursor * option Z.

Definition VLAN_MAX_DEPTH : nat := 2.
Definition VLAN_VID_MASK : Z := 0x0fff.

Module vlan_hdr.
Definition sizeof : Z := 4.
Definition h_vlan_TCI (p : Z) : Z := p.
Definition h_vlan_encapsulated_proto (p : Z) : Z := p + 2.
End vlan_hdr.

Module icmphdr_common.
Definition sizeof : Z := 4.
Definition type (p : Z) : Z := p.
End icmphdr_common.

#[export] Hint Unfold vlan_hdr.sizeof vlan_hdr.h_vlan_TCI
  vlan_hdr.h_vlan_encapsulated_proto icmphdr_common.sizeof icmphdr_common.type : hdr.

Definition proto_is_vlan (h_proto : Z) : bool :=
  (h_proto =? bpf_htons ETH_P_8021Q) || (h_proto =? bpf_htons ETH_P_8021AD).

(** The unrolled loop of [parse_ethhdr_vlan]: [n] rounds are left, [i] is the
    loop counter, [vlans] the caller's [struct collect_vlans] if it passed one. *)
Fixpoint vlan_loop (n : nat) (i : nat) (h_proto vlh data_end : Z)
    (vlans : option (list Z)) : xprog (Z * Z * option (list Z)) :=
  match n with
  | O => pret (h_proto, vlh, vlans)
  | S n =>
    if negb (proto_is_vlan h_proto) then pret (h_proto, vlh, vlans)
    else if data_end <? vlh + vlan_hdr.sizeof then pret (h_proto, vlh, vlans)
    else
    let! h_proto := load16 (vlan_hdr.h_vlan_encapsulated_proto vlh) in
    let! vlans := match vlans with
                  | None => pret None
                  | Some id =>
                    let! tci := load16 (vlan_hdr.h_vlan_TCI vlh) in
                    pret (Some (<[i := Z.land (bpf_ntohs tci) VLAN_VID_MASK]> id))
                  end in
    vlan_loop n (S i) h_proto (vlh + vlan_hdr.sizeof) data_end vlans
  end.

Definition parse_ethhdr_vlan (nh : hdr_cursor) (data_end : Z)
    (vlans : option (list Z)) : xprog (parsed * option (list Z)) :=
  let eth := pos nh in
  let hdrsize := ethhdr.sizeof in
  if data_end <? pos nh + hdrsize then pret (-1, nh, None, vlans)
  else
  let! h_proto := load16 (ethhdr.h_proto eth) in
  let! (h_proto, vlh, vlans) :=
    vlan_loop VLAN_MAX_DEPTH 0 h_proto (pos nh + hdrsize) data_end vlans in
  pret (h_proto, mk_cursor vlh, Some eth, vlans).

Definition parse_ethhdr (nh : hdr_cursor) (data_end : Z) : xprog parsed :=
  let! (r, _) := parse_ethhdr_vlan nh data_end None in pret r.

Definition parse_ip6hdr (nh : hdr_cursor) (data_end : Z) : xprog parsed :=
  let ip6h := pos nh in
  if data_end <? ip6h + ipv6hdr.sizeof then pret (-1, nh, None)
  else
  let! nexthdr := load8 (ipv6hdr.nexthdr ip6h) in
  pret (nexthdr, mk_cursor (ip6h + ipv6hdr.sizeof), Some ip6h).

Definition parse_iphdr (nh : hdr_cursor) (data_end : Z) : xprog parsed :=
  let iph := pos nh in
  if data_end <? iph + iphdr.sizeof then pret (-1, nh, None)
  else
  let! vihl := load8 (iphdr.version_ihl iph) in
  let hdrsize := iphdr.ihl_of vihl * 4 in
  if hdrsize <? iphdr.sizeof then pret (-1, nh, None)
  else if data_end <? pos nh + hdrsize then pret (-1, nh, None)
  else
  let! protocol := load8 (iphdr.protocol iph) in
  pret (protocol, mk_cursor (pos nh + hdrsize), Some iph).

Definition parse_icmp6hdr (nh : hdr_cursor) (data_end : Z) : xprog parsed :=
  let icmp6h := pos nh in
  if data_end <? icmp6h + icmp6hdr.sizeof then pret (-1, nh, None)
  else
  let! icmp6_type := load8 (icmp6hdr.icmp6_type icmp6h) in
  pret (icmp6_type, mk_cursor (icmp6h + icmp6hdr.sizeof), Some icmp6h).

Definition parse_icmphdr (nh : hdr_cursor) (data_end : Z) : xprog parsed :=
  let icmph := pos nh in
  if data_end <? icmph + icmphdr.sizeof then pret (-1, nh, None)
  else
  let! type := load8 (icmphdr.type icmph) in
  pret (type, mk_cursor (icmph + icmphdr.sizeof), Some icmph).

Definition parse_icmphdr_common (nh : hdr_cursor) (data_end : Z) : xprog parsed :=
  let h := pos nh in
  if data_end <? h + icmphdr_common.sizeof then pret (-1, nh, None)
  else
  let! type := load8 (icmphdr_common.type h) in
  pret (type, mk_cursor (h + icmphdr_common.sizeof), Some h).

Definition parse_udphdr (nh : hdr_cursor) (data_end : Z) : xprog parsed :=
  let h := pos nh in
  if data_end <? h + udphdr.sizeof then pret (-1, nh, None)
  else
  let nh := mk_cursor (h + udphdr.sizeof) in
  let! l := load16 (udphdr.len h) in
  let len := s32 (u64 (bpf_ntohs l - udphdr.sizeof)) in
  if len <? 0 then pret (-1, nh, Some h) else pret (len, nh, Some h).

Definition parse_tcphdr (nh : hdr_cursor) (data_end : Z) : xprog parsed :=
  let h := pos nh in
  if data_end <? h + tcphdr.sizeof then pret (-1, nh, None)
  else
  let! b := load8 (tcphdr.doff_byte h) in
  let len := tcphdr.doff_of b * 4 in
  if len <? tcphdr.sizeof then pret (-1, nh, None)
  else if data_end <? pos nh + len then pret (-1, nh, None)
  else pret (len, mk_cursor (pos nh + len), Some h).

(** ** The bytes in front of the cursor *)
Definition rest (s : xdp_md) (p : Z) : list Z := drop (Z.to_nat (p - data s)) (pkt s).

Section rest.
Context (s : xdp_md) (Hw : wf_xdp s).

Lemma length_rest p :
  data s ≤ p ≤ data_end s → Z.of_nat (length (rest s p)) = data_end s - p.
Proof using Hw.
  intros Hp. unfold rest. rewrite length_drop.
  pose proof (length_pkt s Hw). unfold pkt_len in *. lia.
Qed.

Lemma rest_bytes_ok p : bytes_ok (rest s p).
Proof using Hw. apply Forall_drop. by apply pkt_bytes_ok. Qed.

Lemma rest_add p n : data s ≤ p → 0 ≤ n → rest s (p + n) = drop (Z.to_nat n) (rest s p).
Proof using Type.
  intros. unfold rest. rewrite drop_drop. f_equal. lia.
Qed.

Lemma load_rest p q o n :
  q = p + o → data s ≤ p ≤ data_end s → 0 ≤ o → 0 ≤ n → o + n ≤ length (rest s p) →
  load_bytes q n s = Some (sub o n (rest s p), s).
Proof using Hw.
  intros -> Hp Ho Hn Hl. rewrite length_rest in Hl by done.
  unfold load_bytes. rewrite !(proj2 (Z.leb_le _ _)) by lia. simpl. do 2 f_equal.
  pose proof (wf_data_nonneg s Hw).
  apply list_eq. intros i. unfold rest, pkt, pkt_len. rewrite !lookup_sub.
  case_decide; [|done]. rewrite lookup_drop, lookup_sub. case_decide; [|lia]. f_equal. lia.
Qed.

Lemma wp_load_rest p q o n Q :
  q = p + o → data s ≤ p ≤ data_end s → 0 ≤ o → 0 ≤ n → o + n ≤ length (rest s p) →
  Q (sub o n (rest s p)) s → wp (load_bytes q n) s Q.
Proof using Hw. intros. unfold wp. by erewrite load_rest. Qed.
End rest.

(** ** Specifications on bytes

    A specification maps the bytes in front of the cursor to the result, the
    number of bytes consumed and whether the header address is stored. *)
Definition hdr_spec : Type := list Z → Z * Z * bool.

Definition reject : Z * Z * bool := (-1, 0, false).

(** A header of fixed [size] whose result is the byte at offset [field]. *)
Definition fixed_spec (size field : Z) : hdr_spec := λ l,
  if length l <? size then reject else (le_val (sub field 1 l), size, true).

Definition ip_spec : hdr_spec := λ l,
  if length l <? 20 then reject
  else let n := iphdr.ihl_of (le_val (sub 0 1 l)) * 4 in
  if (n <? 20) || (length l <? n) then reject
  else (le_val (sub 9 1 l), n, true).

Definition udp_spec : hdr_spec := λ l,
  if length l <? 8 then reject
  else let n := bpf_ntohs (le_val (sub 4 2 l)) in
  (if n <? 8 then -1 else n - 8, 8, true).

Definition tcp_spec : hdr_spec := λ l,
  if length l <? 20 then reject
  else let n := tcphdr.doff_of (le_val (sub 12 1 l)) * 4 in
  if (n <? 20) || (length l <? n) then reject else (n, n, true).

(** VLAN tags following an EtherType, at most [n] of them: the EtherType behind
    the tags, the VLAN identifiers and the number of tags skipped. *)
Fixpoint vlan_tags (n : nat) (proto : Z) (l : list Z) : Z * list Z * nat :=
  match n with
  | O => (proto, [], O)
  | S n =>
    if proto_is_vlan proto then
      match l with
      | t0 :: t1 :: p0 :: p1 :: l =>
        let '(proto', ids, k) := vlan_tags n (le_val [p0; p1]) l in
        (proto', (256 * t0 + t1) mod 4096 :: ids, S k)
      | _ => (proto, [], O)
      end
    else (proto, [], O)
  end.

Definition eth_spec : hdr_spec := λ l,
  if length l <? 14 then reject
  else let '(proto, _, k) := vlan_tags VLAN_MAX_DEPTH (le_val (sub 12 2 l)) (drop 14 l) in
  (proto, 14 + 4 * k, true).

(** ** The contract *)
Definition to_parsed (nh : hdr_cursor) (o : Z * Z * bool) : parsed :=
  let '(r, n, stored) := o in
  (r, mk_cursor (pos nh + n), if stored then Some (pos nh) else None).

Class HeaderParser (p : hdr_cursor → Z → xprog parsed) (spec : hdr_spec) : Prop := {
  parser_refines : ∀ s nh, wf_xdp s → data s ≤ pos nh ≤ data_end s →
    p nh (data_end s) s = Some (to_parsed nh (spec (rest s (pos nh))), s);
  parser_spec_ok : ∀ l r n stored, bytes_ok l → spec l = (r, n, stored) →
    0 ≤ n ≤ length l ∧ -1 ≤ r ∧ (0 ≤ r → stored = true ∧ 0 < n);
}.

(** ** Every parser meets its specification *)
Section parser_lemmas.
Context (s : xdp_md) (Hw : wf_xdp s) (p : Z) (Hp : data s ≤ p ≤ data_end s).

(** The bounds test of the code is a test on the number of bytes left. *)
Lemma bounds_rest n : (data_end s <? p + n) = (length (rest s p) <? n).
Proof using Hw Hp. rewrite length_rest by done. lia. Qed.

Lemma bind_load8 {A} q o (k : Z → xprog A) :
  q = p + o → 0 ≤ o → o + 1 ≤ length (rest s p) →
  pbind (load8 q) k s = k (le_val (sub o 1 (rest s p))) s.
Proof using Hw Hp.
  intros. unfold load8, pbind. by erewrite (load_rest s Hw p) by (done || lia).
Qed.

Lemma bind_load16 {A} q o (k : Z → xprog A) :
  q = p + o → 0 ≤ o → o + 2 ≤ length (rest s p) →
  pbind (load16 q) k s = k (le_val (sub o 2 (rest s p))) s.
Proof using Hw Hp.
  intros. unfold load16, pbind. by erewrite (load_rest s Hw p) by (done || lia).
Qed.
End parser_lemmas.

Lemma le_val_sub_range l o n :
  bytes_ok l → 0 ≤ o → 0 ≤ n → o + n ≤ length l → is_word (8 * n) (le_val (sub o n l)).
Proof.
  intros. pose proof (le_val_range (sub o n l) ltac:(auto with word)) as Hr.
  rewrite length_sub in Hr by lia. by rewrite Z2Nat.id in Hr.
Qed.

Lemma swab16_range x : is_word 16 (swab16 x).
Proof. apply wrap_range. lia. Qed.

(** [parser_bounds] turns the bounds tests into tests on the bytes left;
    [parser_load o] executes the load at offset [o] from the cursor. *)
Ltac parser_bounds Hw Hp :=
  autounfold with hdr; rewrite ?(bounds_rest _ Hw _ Hp).
Ltac parser_load Hw Hp o :=
  first [rewrite (bind_load8 _ Hw _ Hp _ o) by lia | rewrite (bind_load16 _ Hw _ Hp _ o) by lia].

(** A parser of a fixed-size header that returns one of its bytes. *)
Lemma fixed_parser size field (p : hdr_cursor → Z → xprog parsed) :
  0 ≤ field < size →
  (∀ nh data_end, p nh data_end =
     if data_end <? pos nh + size then pret (-1, nh, None)
     else let! r := load8 (pos nh + field) in pret (r, mk_cursor (pos nh + size), Some (pos nh))) →
  HeaderParser p (fixed_spec size field).
Proof.
  intros Hf Hdef. split.
  - intros s nh Hw Hp. rewrite Hdef. unfold fixed_spec. parser_bounds Hw Hp.
    destruct (_ <? size) eqn:E.
    + destruct nh. unfold to_parsed, reject. simpl. by rewrite Z.add_0_r.
    + by parser_load Hw Hp field.
  - intros l r n st Hb. unfold fixed_spec, reject.
    destruct (_ <? size) eqn:E; intros [= <- <- <-]; [lia|].
    destruct (le_val_sub_range l field 1 Hb); lia.
Qed.

#[export] Instance parse_ip6hdr_parser : HeaderParser parse_ip6hdr (fixed_spec 40 6).
Proof. apply fixed_parser; [lia|]. done. Qed.
#[export] Instance parse_icmp6hdr_parser : HeaderParser parse_icmp6hdr (fixed_spec 8 0).
Proof. apply fixed_parser; [lia|]. intros. by rewrite Z.add_0_r. Qed.
#[export] Instance parse_icmphdr_parser : HeaderParser parse_icmphdr (fixed_spec 8 0).
Proof. apply fixed_parser; [lia|]. intros. by rewrite Z.add_0_r. Qed.
#[export] Instance parse_icmphdr_common_parser :
  HeaderParser parse_icmphdr_common (fixed_spec 4 0).
Proof. apply fixed_parser; [lia|]. intros. by rewrite Z.add_0_r. Qed.

Lemma to_parsed_reject nh : to_parsed nh reject = (-1, nh, None).
Proof. destruct nh. unfold to_parsed, reject. simpl. by rewrite Z.add_0_r. Qed.

#[export] Instance parse_iphdr_parser : HeaderParser parse_iphdr ip_spec.
Proof.
  split.
  - intros s nh Hw Hp. unfold parse_iphdr, ip_spec. parser_bounds Hw Hp.
    destruct (_ <? 20) eqn:E; [by rewrite to_parsed_reject|].
    parser_load Hw Hp 0. cbv zeta. parser_bounds Hw Hp.
    destruct (_ * 4 <? 20) eqn:E1; cbn [orb]; [by rewrite to_parsed_reject|].
    destruct (_ <? _ * 4) eqn:E2; [by rewrite to_parsed_reject|].
    by parser_load Hw Hp 9.
  - intros l r n st Hb. unfold ip_spec, reject.
    destruct (_ <? 20) eqn:E; [intros [= <- <- <-]; lia|].
    destruct (_ || _) eqn:E1; intros [= <- <- <-]; [lia|].
    destruct (le_val_sub_range l 9 1 Hb); lia.
Qed.

#[export] Instance parse_tcphdr_parser : HeaderParser parse_tcphdr tcp_spec.
Proof.
  split.
  - intros s nh Hw Hp. unfold parse_tcphdr, tcp_spec. parser_bounds Hw Hp.
    destruct (_ <? 20) eqn:E; [by rewrite to_parsed_reject|].
    parser_load Hw Hp 12. cbv zeta. parser_bounds Hw Hp.
    destruct (_ * 4 <? 20) eqn:E1; cbn [orb]; [by rewrite to_parsed_reject|].
    by destruct (_ <? _ * 4) eqn:E2; [rewrite to_parsed_reject|].
  - intros l r n st Hb. unfold tcp_spec, reject.
    destruct (_ <? 20) eqn:E; [intros [= <- <- <-]; lia|].
    destruct (_ || _) eqn:E1; intros [= <- <- <-]; lia.
Qed.

(** The unsigned subtraction of [parse_udphdr], converted to [int]. *)
Lemma udp_len_int x : is_word 16 x → s32 (u64 (x - 8)) = x - 8.
Proof.
  unfold is_word, sint, wrap. change (2 ^ 16) with 65536. intros H.
  change (2 ^ 32) with 4294967296. change (2 ^ 64) with 18446744073709551616.
  change (2 ^ (32 - 1)) with 2147483648.
  destruct (_ <? _) eqn:E; dlia.
Qed.

#[export] Instance parse_udphdr_parser : HeaderParser parse_udphdr udp_spec.
Proof.
  split.
  - intros s nh Hw Hp. unfold parse_udphdr, udp_spec. parser_bounds Hw Hp.
    destruct (_ <? 8) eqn:E; [by rewrite to_parsed_reject|].
    parser_load Hw Hp 4. rewrite udp_len_int by apply swab16_range.
    unfold bpf_ntohs. generalize (swab16 (le_val (sub 4 2 (rest s (pos nh))))). intros x.
    destruct (x - 8 <? 0) eqn:E1, (x <? 8) eqn:E2; done || lia.
  - intros l r n st Hb. unfold udp_spec, reject.
    destruct (_ <? 8) eqn:E; [intros [= <- <- <-]; lia|].
    intros [= <- <- <-]. destruct (bpf_ntohs _ <? 8) eqn:E1; lia.
Qed.

Lemma vid_le_val t0 t1 :
  is_byte t0 → is_byte t1 →
  Z.land (bpf_ntohs (le_val [t0; t1])) VLAN_VID_MASK = (256 * t0 + t1) mod 4096.
Proof.
  intros. unfold bpf_ntohs. rewrite swab16_le_val by done.
  by change VLAN_VID_MASK with (Z.ones 12); rewrite Z.land_ones by lia.
Qed.

(** Stores [ids] into the array from index [i] on; indices beyond the array are
    dropped, as the loop never produces them for an array of its depth. *)
Fixpoint store_ids (i : nat) (ids : list Z) (id : list Z) : list Z :=
  match ids with
  | [] => id
  | v :: ids => store_ids (S i) ids (<[i := v]> id)
  end.

(** One iteration that finds a complete tag. *)
Lemma vlan_tags_short n proto l :
  (length l < 4)%nat ∨ proto_is_vlan proto = false → vlan_tags n proto l = (proto, [], O).
Proof.
  destruct n; [done|]. cbn [vlan_tags]. destruct (proto_is_vlan proto); [|done].
  destruct l as [|t0 [|t1 [|p0 [|p1 l]]]]; try done.
  intros [H|H]; simpl in *; [lia|done].
Qed.

Lemma vlan_loop_spec s n i proto p vlans proto' ids k :
  wf_xdp s → data s ≤ p ≤ data_end s →
  vlan_tags n proto (rest s p) = (proto', ids, k) →
  vlan_loop n i proto p (data_end s) vlans s =
    Some ((proto', p + 4 * k, store_ids i ids <$> vlans), s) ∧
  p + 4 * k ≤ data_end s.
Proof.
  intros Hw. revert i proto p vlans proto' ids k.
  induction n as [|n IH]; intros i proto p vlans proto' ids k Hp Ht.
  { injection Ht as <- <- <-. simpl. rewrite Z.add_0_r. split; [by destruct vlans|lia]. }
  cbn [vlan_loop]. parser_bounds Hw Hp.
  destruct (proto_is_vlan proto) eqn:Ev; cbn [negb]; cycle 1.
  { rewrite vlan_tags_short in Ht by auto. injection Ht as <- <- <-.
    rewrite Z.add_0_r. split; [by destruct vlans|lia]. }
  destruct (length (rest s p) <? 4) eqn:El.
  { rewrite vlan_tags_short in Ht by (left; lia). injection Ht as <- <- <-.
    rewrite Z.add_0_r. split; [by destruct vlans|lia]. }
  rewrite (bind_load16 s Hw p Hp _ 2) by lia.
  pose proof (length_rest s Hw p Hp) as Hlen.
  pose proof (rest_bytes_ok s Hw p) as Hb.
  pose proof (rest_add s p 4 ltac:(lia) ltac:(lia)) as Hr.
  destruct (rest s p) as [|t0 [|t1 [|p0 [|p1 l]]]] eqn:Er;
    try (exfalso; apply Z.ltb_ge in El; simpl in El; lia).
  cbn [vlan_tags] in Ht. rewrite Ev in Ht. rewrite !Forall_cons in Hb.
  destruct Hb as (H0 & H1 & _). change (sub 2 2 _) with [p0; p1].
  destruct (vlan_tags n (le_val [p0; p1]) l) as [[proto1 ids1] k1] eqn:E1.
  injection Ht as <- <- <-. simpl in Hlen, Hr.
  destruct (IH (S i) (le_val [p0; p1]) (p + 4)
              (<[i := (256 * t0 + t1) mod 4096]> <$> vlans) proto1 ids1 k1) as [IH1 IH2].
  { lia. } { by rewrite Hr. }
  split; [|lia]. unfold pbind at 1.
  replace (p + 4 * S k1) with (p + 4 + 4 * k1) by lia.
  destruct vlans as [id|]; [|exact IH1].
  rewrite (bind_load16 s Hw p Hp _ 0) by (rewrite ?Er; simpl; lia).
  rewrite Er. change (sub 0 2 _) with [t0; t1]. rewrite vid_le_val by done. exact IH1.
Qed.

(** [parse_ethhdr_vlan], the collected identifiers included. *)
Lemma parse_ethhdr_vlan_run s nh vlans :
  wf_xdp s → data s ≤ pos nh ≤ data_end s →
  parse_ethhdr_vlan nh (data_end s) vlans s =
    Some ((to_parsed nh (eth_spec (rest s (pos nh))),
           if length (rest s (pos nh)) <? 14 then vlans
           else store_ids 0 (vlan_tags VLAN_MAX_DEPTH (le_val (sub 12 2 (rest s (pos nh))))
                               (drop 14 (rest s (pos nh)))).1.2 <$> vlans), s).
Proof.
  intros Hw Hp. unfold parse_ethhdr_vlan, eth_spec. parser_bounds Hw Hp.
  destruct (_ <? 14) eqn:E; [by rewrite to_parsed_reject|].
  parser_load Hw Hp 12. pose proof (length_rest s Hw _ Hp).
  pose proof (rest_add s (pos nh) 14 ltac:(lia) ltac:(lia)) as Hr.
  change (Z.to_nat 14) with 14%nat in Hr.
  destruct (vlan_tags _ _ (drop 14 _)) as [[proto ids] k] eqn:Et.
  destruct (vlan_loop_spec s VLAN_MAX_DEPTH 0 (le_val (sub 12 2 (rest s (pos nh))))
              (pos nh + 14) vlans proto ids k) as [Hv _]; [done|lia|by rewrite Hr|].
  unfold pbind at 1. rewrite Hv. unfold to_parsed. by rewrite Z.add_assoc.
Qed.

Lemma vlan_tags_ok n proto l proto' ids k :
  bytes_ok l → 0 ≤ proto → vlan_tags n proto l = (proto', ids, k) →
  0 ≤ proto' ∧ 4 * k ≤ length l ∧ length ids = k ∧ (k ≤ n)%nat.
Proof.
  revert proto l proto' ids k.
  induction n as [|n IH]; intros proto l proto' ids k Hb H0 Ht.
  { injection Ht as <- <- <-. simpl. lia. }
  destruct (decide ((length l < 4)%nat ∨ proto_is_vlan proto = false)) as [Hs|Hs].
  { rewrite vlan_tags_short in Ht by done. injection Ht as <- <- <-. simpl. lia. }
  destruct l as [|t0 [|t1 [|p0 [|p1 l]]]]; try (exfalso; simpl in Hs; lia).
  rewrite !Forall_cons in Hb. destruct Hb as (_ & _ & Hp0 & Hp1 & Hb).
  cbn [vlan_tags] in Ht. destruct (proto_is_vlan proto); [|by destruct Hs; auto].
  destruct (vlan_tags n _ l) as [[proto1 ids1] k1] eqn:E1. injection Ht as <- <- <-.
  apply IH in E1 as (? & ? & ? & ?); [simpl; lia|done|].
  unfold is_word in *. simpl. lia.
Qed.

#[export] Instance parse_ethhdr_parser : HeaderParser parse_ethhdr eth_spec.
Proof.
  split.
  - intros s nh Hw Hp. unfold parse_ethhdr, pbind. by rewrite parse_ethhdr_vlan_run.
  - intros l r n st Hb. unfold eth_spec, reject.
    destruct (_ <? 14) eqn:E; [intros [= <- <- <-]; lia|].
    destruct (vlan_tags _ _ _) as [[proto ids] k] eqn:Et. intros [= <- <- <-].
    apply vlan_tags_ok in Et as (? & Hk & _);
      [|by apply Forall_drop|destruct (le_val_sub_range l 12 2 Hb); lia].
    rewrite length_drop in Hk. lia.
Qed.

(** ** Properties *)

(** C4: on every packet and cursor position inside it, every parser runs
    without a faulting access, leaves the packet alone, and returns, advances
    and stores exactly what its specification on bytes says. *)
Theorem parsers_meet_specs s nh :
  wf_xdp s → data s ≤ pos nh ≤ data_end s →
  let run (p : hdr_cursor → Z → xprog parsed) (spec : hdr_spec) :=
    p nh (data_end s) s = Some (to_parsed nh (spec (rest s (pos nh))), s) in
  run parse_ethhdr eth_spec ∧ run parse_iphdr ip_spec ∧
  run parse_ip6hdr (fixed_spec 40 6) ∧ run parse_icmphdr (fixed_spec 8 0) ∧
  run parse_icmp6hdr (fixed_spec 8 0) ∧ run parse_icmphdr_common (fixed_spec 4 0) ∧
  run parse_udphdr udp_spec ∧ run parse_tcphdr tcp_spec.
Proof. intros. split_and!; by apply parser_refines. Qed.

(** [parse_ethhdr_vlan] skips up to two complete VLAN tags and stores
    their identifiers, priority bits masked out, in order in the caller's
    array, which keeps its size. *)
Theorem parse_ethhdr_vlan_collects s nh a b :
  wf_xdp s → data s ≤ pos nh → pos nh + 14 ≤ data_end s →
  ∃ proto ids k,
    vlan_tags VLAN_MAX_DEPTH (le_val (sub 12 2 (rest s (pos nh))))
      (drop 14 (rest s (pos nh))) = (proto, ids, k) ∧
    length ids = k ∧ (k ≤ 2)%nat ∧ pos nh + 14 + 4 * k ≤ data_end s ∧
    parse_ethhdr_vlan nh (data_end s) (Some [a; b]) s =
      Some ((proto, mk_cursor (pos nh + 14 + 4 * k), Some (pos nh),
             Some (ids ++ drop k [a; b])), s).
Proof.
  intros Hw Hp1 Hp2. assert (data s ≤ pos nh ≤ data_end s) as Hp by lia.
  pose proof (length_rest s Hw _ Hp) as Hl. pose proof (rest_bytes_ok s Hw (pos nh)) as Hb.
  rewrite parse_ethhdr_vlan_run by done. unfold eth_spec.
  destruct (_ <? 14) eqn:E; [lia|].
  destruct (vlan_tags _ _ _) as [[proto ids] k] eqn:Et. exists proto, ids, k.
  pose proof Et as Ht. apply vlan_tags_ok in Ht as (_ & Hk & Hi & Hk2);
    [|by apply Forall_drop|destruct (le_val_sub_range (rest s (pos nh)) 12 2 Hb); lia].
  rewrite length_drop in Hk. unfold VLAN_MAX_DEPTH in Hk2.
  split_and!; [done..|lia|]. unfold to_parsed. rewrite Z.add_assoc. do 3 f_equal.
  clear -Hi Hk2. cbn [fst snd]. destruct ids as [|i0 [|i1 [|]]]; simpl in *; subst k;
    (reflexivity || lia).
Qed.

(** Running parsers one after the other until one fails, the way XDP programs
    use them. *)
Fixpoint parse_chain (ps : list (hdr_cursor → Z → xprog parsed)) (nh : hdr_cursor)
    (data_end : Z) : xprog (Z * hdr_cursor) :=
  match ps with
  | [] => pret (0, nh)
  | [p] => let! (r, nh, _) := p nh data_end in pret (r, nh)
  | p :: ps =>
    let! (r, nh, _) := p nh data_end in
    if r <? 0 then pret (r, nh) else parse_chain ps nh data_end
  end.

Definition is_parser (p : hdr_cursor → Z → xprog parsed) : Prop :=
  ∃ spec, HeaderParser p spec.

Lemma parse_one_safe p s nh :
  is_parser p → wf_xdp s → data s ≤ pos nh ≤ data_end s →
  ∃ r nh' h, p nh (data_end s) s = Some ((r, nh', h), s) ∧ -1 ≤ r ∧
    pos nh ≤ pos nh' ≤ data_end s ∧ (0 ≤ r → h = Some (pos nh) ∧ pos nh < pos nh').
Proof.
  intros [spec Hs] Hw Hp. rewrite parser_refines by done.
  destruct (spec (rest s (pos nh))) as [[r n] st] eqn:E.
  pose proof (length_rest s Hw _ Hp).
  apply parser_spec_ok in E as (? & ? & Hr); [|by apply rest_bytes_ok].
  do 3 eexists. split; [done|]. simpl. split_and!; [lia..|].
  intros [-> ?]%Hr. split; [done|lia].
Qed.

(** Any sequence of parsers that meet the contract, started inside the
    packet, runs to its end without a fault and leaves the cursor inside the
    packet and not before where it started. *)
Theorem parse_chain_safe ps s nh :
  Forall is_parser ps → wf_xdp s → data s ≤ pos nh ≤ data_end s →
  ∃ r nh', parse_chain ps nh (data_end s) s = Some ((r, nh'), s) ∧ -1 ≤ r ∧
    pos nh ≤ pos nh' ≤ data_end s.
Proof.
  intros Hps Hw. revert nh. induction Hps as [|p ps Hp _ IH]; intros nh Hnh.
  { simpl. do 2 eexists. split; [done|]. lia. }
  destruct (parse_one_safe p s nh Hp Hw Hnh) as (r & nh' & h & Hrun & Hr & Hnh' & _).
  destruct ps as [|q ps].
  { cbn [parse_chain]. unfold pbind. rewrite Hrun. do 2 eexists. split; [done|]. lia. }
  assert (parse_chain (p :: q :: ps) nh (data_end s) s =
          (if r <? 0 then pret (r, nh') else parse_chain (q :: ps) nh' (data_end s)) s) as ->.
  { cbn [parse_chain]. unfold pbind at 1. by rewrite Hrun. }
  destruct (r <? 0); [do 2 eexists; split; [done|]; lia|].
  destruct (IH nh' ltac:(lia)) as (r1 & nh1 & -> & ? & ?).
  do 2 eexists. split; [done|]. lia.
Qed.

(** ** Parsing what a sender builds *)
(** A UDP datagram in IPv4 behind at most two 802.1Q tags. *)
Definition vlan_encap (tags : list (Z * Z)) : list Z :=
  concat ((λ t, [0x81; 0x00; t.1; t.2]) <$> tags).
Definition udp_frame (macs : list Z) (tags : list (Z * Z)) (vihl : Z) (ipa ipb : list Z)
    (ports cksum payload : list Z) : list Z :=
  macs ++ vlan_encap tags ++ [0x08; 0x00] ++ vihl :: ipa ++ IPPROTO_UDP :: ipb ++
  ports ++ be16 (8 + length payload) ++ cksum ++ payload.

Lemma length_vlan_encap tags : length (vlan_encap tags) = (4 * length tags)%nat.
Proof.
  unfold vlan_encap. induction tags as [|t tags IH]; [done|].
  rewrite fmap_cons. cbn [concat length]. rewrite length_app, IH. simpl. lia.
Qed.

Lemma eth_spec_encap macs tags l :
  length macs = 12%nat → (length tags ≤ 2)%nat →
  eth_spec (macs ++ vlan_encap tags ++ [0x08; 0x00] ++ l) =
    (bpf_htons ETH_P_IP, 14 + 4 * length tags, true).
Proof.
  intros Hm Ht. do 12 (destruct macs as [|? macs]; [done|]). destruct macs; [|done].
  unfold eth_spec. destruct (_ <? 14) eqn:E.
  { apply Z.ltb_lt in E. rewrite !length_app in E. simpl in E. lia. }
  destruct tags as [|[] [|[] [|]]]; simpl in Ht; try lia; reflexivity.
Qed.

Lemma ip_spec_encap vihl ipa ipb l :
  let n := 4 * iphdr.ihl_of vihl in
  20 ≤ n → length ipa = 8%nat → 10 + length ipb = n →
  ip_spec (vihl :: ipa ++ IPPROTO_UDP :: ipb ++ l) = (IPPROTO_UDP, n, true).
Proof.
  intros n Hn Ha Hb. unfold ip_spec.
  do 8 (destruct ipa as [|? ipa]; [done|]). destruct ipa; [|done].
  change (sub 0 1 _) with [vihl]. change (sub 9 1 _) with [IPPROTO_UDP].
  replace (le_val [vihl]) with vihl by (simpl; lia).
  destruct (_ <? 20) eqn:E.
  { apply Z.ltb_lt in E. simpl in E. rewrite length_app in E. lia. }
  cbv zeta. destruct (_ || _) eqn:E1.
  { apply orb_true_iff in E1. rewrite !Z.ltb_lt in E1. simpl in E1.
    rewrite length_app in E1. lia. }
  f_equal. f_equal. lia.
Qed.

Lemma udp_spec_encap ports cksum payload :
  length ports = 4%nat → length cksum = 2%nat → 8 + length payload < 65536 →
  udp_spec (ports ++ be16 (8 + length payload) ++ cksum ++ payload) =
    (Z.of_nat (length payload), 8, true).
Proof.
  intros Hp Hc Hl. unfold udp_spec.
  do 4 (destruct ports as [|? ports]; [done|]). destruct ports; [|done].
  do 2 (destruct cksum as [|? cksum]; [done|]). destruct cksum; [|done].
  destruct (_ <? 8) eqn:E.
  { apply Z.ltb_lt in E. simpl in E. lia. }
  change (sub 4 2 _) with (be16 (8 + length payload)). unfold be16, bpf_ntohs.
  rewrite swab16_le_val by (clear E; unfold is_word; change (2 ^ 8) with 256; dlia).
  cbv zeta. rewrite <- Z_div_mod_eq_full.
  destruct (8 + _ <? 8) eqn:E1; [lia|]. do 2 f_equal. lia.
Qed.

(** C5: parsing a UDP datagram behind zero to two VLAN tags and IPv4 options
    with [parse_ethhdr], [parse_iphdr] and [parse_udphdr] gives the length of
    its payload and leaves the cursor at the payload. *)
Theorem udp_frame_roundtrip s macs tags vihl ipa ipb ports cksum payload :
  wf_xdp s → pkt s = udp_frame macs tags vihl ipa ipb ports cksum payload →
  length macs = 12%nat → (length tags ≤ 2)%nat → length ipa = 8%nat →
  20 ≤ 4 * iphdr.ihl_of vihl → 10 + length ipb = 4 * iphdr.ihl_of vihl →
  length ports = 4%nat → length cksum = 2%nat → 8 + length payload < 65536 →
  parse_chain [parse_ethhdr; parse_iphdr; parse_udphdr] (mk_cursor (data s)) (data_end s) s =
    Some ((Z.of_nat (length payload), mk_cursor (data_end s - length payload)), s).
Proof.
  intros Hw Hpkt Hm Ht Ha Hi Hb Hp Hc Hl.
  pose proof (length_pkt s Hw) as Hlen. unfold pkt_len in Hlen.
  assert (rest s (data s) = pkt s) as Hr0. { unfold rest. by rewrite Z.sub_diag. }
  pose proof (length_vlan_encap tags) as Hv.
  rewrite Hpkt in Hlen, Hr0. unfold udp_frame in *.
  repeat (rewrite !length_app in Hlen; cbn [length be16] in Hlen).
  cbn [parse_chain]. unfold pbind.
  rewrite (@parser_refines _ _ parse_ethhdr_parser) by (done || simpl; lia). cbn [pos to_parsed].
  rewrite Hr0, eth_spec_encap by done. cbn [pos to_parsed].
  change (bpf_htons ETH_P_IP <? 0) with false. cbv beta iota.
  assert (rest s (data s + (14 + 4 * length tags)) =
          vihl :: ipa ++ IPPROTO_UDP :: ipb ++ ports ++ be16 (8 + length payload) ++
            cksum ++ payload) as Hr1.
  { rewrite rest_add, Hr0 by lia. rewrite !app_assoc. apply drop_app_length'.
    rewrite !length_app. simpl. lia. }
  rewrite (@parser_refines _ _ parse_iphdr_parser) by (done || simpl; lia). cbn [pos to_parsed].
  rewrite Hr1, ip_spec_encap by (done || lia). cbn [pos to_parsed].
  change (IPPROTO_UDP <? 0) with false. cbv beta iota.
  assert (rest s (data s + (14 + 4 * length tags) + 4 * iphdr.ihl_of vihl) =
          ports ++ be16 (8 + length payload) ++ cksum ++ payload) as Hr2.
  { rewrite rest_add, Hr1 by lia.
    replace (Z.to_nat _) with (length (vihl :: ipa ++ IPPROTO_UDP :: ipb))
      by (simpl; rewrite length_app; simpl; lia).
    etransitivity; [|apply (drop_app_length (vihl :: ipa ++ IPPROTO_UDP :: ipb))].
    f_equal. simpl. by rewrite <- app_assoc. }
  rewrite (@parser_refines _ _ parse_udphdr_parser) by (done || simpl; lia).
  cbn [pos to_parsed]. rewrite Hr2, udp_spec_encap by done. cbn [to_parsed pos].
  unfold pret. do 4 f_equal. lia.
Qed.

(** ** A concrete frame: one VLAN tag (identifier 5, priority 1), an IPv4
    header with one word of options, a UDP datagram of three bytes. *)
Definition sample_macs : list Z := [2; 0; 0; 0; 0; 1; 2; 0; 0; 0; 0; 2].
Definition sample_ipa : list Z := [0; 0; 35; 0; 1; 64; 0; 64].
Definition sample_ipb : list Z := [0; 0; 10; 0; 0; 2; 10; 0; 0; 1; 1; 1; 1; 0].
Definition sample_frame : list Z :=
  udp_frame sample_macs [(32, 5)] 70 sample_ipa sample_ipb [18; 52; 35; 40] [0; 0] [7; 8; 9].
Definition sample_tagged : xdp_md := mk_xdp_md ([0; 0] ++ sample_frame) 2 55.

Lemma sample_tagged_wf : wf_xdp sample_tagged.
Proof. by apply (bool_decide_unpack _). Defined.

Lemma parsers_meet_specs_witness :
  parse_ethhdr (mk_cursor 2) 55 sample_tagged =
    Some ((bpf_htons ETH_P_IP, mk_cursor 20, Some 2), sample_tagged).
Proof.
  destruct (parsers_meet_specs sample_tagged (mk_cursor 2) sample_tagged_wf) as [H _];
    [simpl; lia|exact H].
Defined.

Lemma parse_ethhdr_vlan_collects_witness :
  ∃ proto ids k, ids = [5] ∧
    parse_ethhdr_vlan (mk_cursor 2) 55 (Some [0; 0]) sample_tagged =
      Some ((proto, mk_cursor (2 + 14 + 4 * Z.of_nat k), Some 2, Some (ids ++ drop k [0; 0])),
            sample_tagged).
Proof.
  destruct (parse_ethhdr_vlan_collects sample_tagged (mk_cursor 2) 0 0 sample_tagged_wf)
    as (proto & ids & k & Ht & _ & _ & _ & H); [simpl; lia..|].
  exists proto, ids, k. split; [|exact H]. vm_compute in Ht. by injection Ht as <- <- <-.
Defined.

Lemma parse_chain_safe_witness :
  ∃ r nh', parse_chain [parse_ethhdr; parse_ip6hdr; parse_tcphdr] (mk_cursor 2) 55 sample_tagged
    = Some ((r, nh'), sample_tagged) ∧ -1 ≤ r ∧ 2 ≤ pos nh' ≤ 55.
Proof.
  apply (parse_chain_safe _ sample_tagged (mk_cursor 2)).
  - repeat constructor; eexists;
      [exact parse_ethhdr_parser|exact parse_ip6hdr_parser|exact parse_tcphdr_parser].
  - exact sample_tagged_wf.
  - simpl. lia.
Defined.

Lemma udp_frame_roundtrip_witness :
  parse_chain [parse_ethhdr; parse_iphdr; parse_udphdr] (mk_cursor 2) 55 sample_tagged =
    Some ((3, mk_cursor 52), sample_tagged).
Proof.
  apply (udp_frame_roundtrip sample_tagged sample_macs [(32, 5)] 70 sample_ipa sample_ipb
           [18; 52; 35; 40] [0; 0] [7; 8; 9] sample_tagged_wf);
    vm_compute; reflexivity || lia || discriminate.
Defined.
