(* ===== verification/Rewrite.v ===== *)
(** * Packet rewriting helpers

    [src/src/common/rewrite_helpers.h]: popping and pushing a VLAN tag and the
    three address swaps.  [bpf_xdp_adjust_head] is a kernel helper; the class
    [AdjustHead] states what its documentation promises (the packet loses or
    gains bytes at its head, or a negative error is returned). *)

From S2P Require Import Prelude Packet Checksum Echo Parsing.

(** ** The kernel helper *)
Class AdjustHead (adjust_head : Z → xprog Z) : Prop := {
  adjust_total : ∀ s delta, wf_xdp s → ∃ r s', adjust_head delta s = Some (r, s') ∧ r ≤ 0;
  adjust_pop : ∀ s s' n, wf_xdp s → 0 ≤ n → adjust_head n s = Some (0, s') →
    wf_xdp s' ∧ pkt s' = drop (Z.to_nat n) (pkt s);
  adjust_push : ∀ s s' n, wf_xdp s → 0 ≤ n → adjust_head (- n) s = Some (0, s') →
    wf_xdp s' ∧ ∃ new, Z.of_nat (length new) = n ∧ bytes_ok new ∧ pkt s' = new ++ pkt s;
}.

Section vlan.
Context (bpf_xdp_adjust_head : Z → xprog Z).

Definition vlan_tag_pop (eth : Z) : xprog Z :=
  let! ctx := pget in
  let data_end0 := data_end ctx in
  let! proto := load16 (ethhdr.h_proto eth) in
  if negb (proto_is_vlan proto) then pret (-1) else
  let vlh := eth + ethhdr.sizeof in
  if data_end0 <? vlh + vlan_hdr.sizeof then pret (-1) else
  let! tci := load16 (vlan_hdr.h_vlan_TCI vlh) in
  let vlid := bpf_ntohs tci in
  let! h_proto := load16 (vlan_hdr.h_vlan_encapsulated_proto vlh) in
  let! eth_cpy := load_bytes eth ethhdr.sizeof in
  let! err := bpf_xdp_adjust_head vlan_hdr.sizeof in
  if negb (err =? 0) then pret (-1) else
  let! ctx := pget in
  let eth := data ctx in
  let data_end1 := data_end ctx in
  if data_end1 <? eth + ethhdr.sizeof then pret (-1) else
  store_bytes eth eth_cpy ;;;
  store16 (ethhdr.h_proto eth) h_proto ;;;
  pret vlid.

Definition vlan_tag_push (eth vlid : Z) : xprog Z :=
  let! eth_cpy := load_bytes eth ethhdr.sizeof in
  let! err := bpf_xdp_adjust_head (0 - vlan_hdr.sizeof) in
  if negb (err =? 0) then pret (-1) else
  let! ctx := pget in
  let data_end1 := data_end ctx in
  let eth := data ctx in
  if data_end1 <? eth + ethhdr.sizeof then pret (-1) else
  store_bytes eth eth_cpy ;;;
  let vlh := eth + ethhdr.sizeof in
  if data_end1 <? vlh + vlan_hdr.sizeof then pret (-1) else
  store16 (vlan_hdr.h_vlan_TCI vlh) (bpf_htons vlid) ;;;
  let! proto := load16 (ethhdr.h_proto eth) in
  store16 (vlan_hdr.h_vlan_encapsulated_proto vlh) proto ;;;
  store16 (ethhdr.h_proto eth) (bpf_htons ETH_P_8021Q) ;;;
  pret 0.
End vlan.

(** ** Address swaps *)
Definition swap_src_dst_mac (eth : Z) : xprog () :=
  let! h_tmp := load_bytes (ethhdr.h_source eth) ETH_ALEN in
  memcpy (ethhdr.h_source eth) (ethhdr.h_dest eth) ETH_ALEN ;;;
  store_bytes (ethhdr.h_dest eth) h_tmp.

Definition swap_src_dst_ipv6 (ipv6 : Z) : xprog () :=
  let! tmp := load_bytes (ipv6hdr.saddr ipv6) 16 in
  memcpy (ipv6hdr.saddr ipv6) (ipv6hdr.daddr ipv6) 16 ;;;
  store_bytes (ipv6hdr.daddr ipv6) tmp.

Definition swap_src_dst_ipv4 (iphdr : Z) : xprog () :=
  let! tmp := load32 (iphdr.saddr iphdr) in
  let! d := load32 (iphdr.daddr iphdr) in
  store32 (iphdr.saddr iphdr) d ;;;
  store32 (iphdr.daddr iphdr) tmp.

(** ** Behaviour of push and pop *)

(** Enters the [with_pkt] form for a context with a known packet. *)
Lemma wp_with_pkt {A} (m : xprog A) s l Q :
  wf_xdp s → pkt s = l →
  (fits s l → Z.of_nat (length l) = pkt_len s → wp m (with_pkt s l) Q) → wp m s Q.
Proof.
  intros Hw <- H. rewrite <- (with_pkt_pkt s Hw). apply H; [by apply fits_pkt|by apply length_pkt].
Qed.

Lemma wp_eq {A} (m : xprog A) s a s' :
  wp m s (λ b t, b = a ∧ t = s') → m s = Some (a, s').
Proof. by intros (? & ? & -> & -> & ->)%wp_run. Qed.

Section vlan_proofs.
Context {adj : Z → xprog Z} `{!AdjustHead adj}.

Lemma wp_vlan_tag_push s s1 macs p0 p1 l vlid :
  wf_xdp s → pkt s = macs ++ p0 :: p1 :: l → length macs = 12%nat →
  adj (-4) s = Some (0, s1) →
  wp (vlan_tag_push adj (data s) vlid) s (λ r s',
    r = 0 ∧ wf_xdp s' ∧ data s' = data s1 ∧ data_end s' = data_end s1 ∧
    pkt s' = macs ++ [0x81; 0x00] ++ be16 (u16 vlid) ++ p0 :: p1 :: l).
Proof.
  intros Hw Hpkt Hm Ha. destruct (adjust_push s s1 4 Hw ltac:(lia) Ha) as (Hw1 & new & Hn & Hbn & Hp1).
  unfold vlan_tag_push. eapply wp_with_pkt; [done|exact Hpkt|]. intros Hf Hl.
  assert (14 ≤ length (macs ++ p0 :: p1 :: l)) by (rewrite length_app; simpl; lia).
  autounfold with hdr. apply wp_bind. wp_at 0. rewrite <- Hpkt, with_pkt_pkt by done. apply wp_bind.
  unfold wp at 1. change (0 - 4) with (-4). rewrite Ha. cbn [Z.eqb negb].
  eapply wp_with_pkt; [done|exact Hp1|]. intros Hf1 Hl1. rewrite Hpkt in *.
  do 4 (destruct new as [|? new]; [simpl in Hn; lia|]). destruct new; [|simpl in Hn; lia].
  do 12 (destruct macs as [|? macs]; [done|]). destruct macs; [|done].
  unfold pkt_len in Hl1.
  do 2 wp_step. cbn [data_end data with_pkt]. autounfold with hdr.
  apply wp_if; intros Hb1; [simpl in Hl1; lia|].
  wp_step. wp_step. rewrite !length_app in Hl1. simpl in Hl1.
  apply wp_if; intros Hb2; [lia|]. simpl in Hn0.
  unfold bpf_htons at 1. unfold store16 at 1. rewrite le_bytes_swab16.
  assert (bytes_ok (be16 (u16 vlid))) by (apply be16_ok, wrap_range; lia).
  repeat wp_step. split_and!; [done|by apply wf_with_pkt|done..|].
  rewrite pkt_with_pkt by done. subst. reflexivity.
Qed.

Lemma wp_vlan_tag_pop s s1 macs e0 e1 t0 t1 p0 p1 l :
  wf_xdp s → pkt s = macs ++ e0 :: e1 :: t0 :: t1 :: p0 :: p1 :: l →
  length macs = 12%nat → proto_is_vlan (le_val [e0; e1]) = true →
  adj 4 s = Some (0, s1) →
  wp (vlan_tag_pop adj (data s)) s (λ r s',
    r = 256 * t0 + t1 ∧ wf_xdp s' ∧ data s' = data s1 ∧ data_end s' = data_end s1 ∧
    pkt s' = macs ++ p0 :: p1 :: l).
Proof.
  intros Hw Hpkt Hm Hv Ha. destruct (adjust_pop s s1 4 Hw ltac:(lia) Ha) as (Hw1 & Hp1).
  pose proof (pkt_bytes_ok s Hw) as Hb. rewrite Hpkt in Hb.
  do 12 (destruct macs as [|? macs]; [done|]). destruct macs; [|done].
  simpl in Hb. rewrite !Forall_cons in Hb. destruct_and! Hb.
  unfold vlan_tag_pop. eapply wp_with_pkt; [done|exact Hpkt|]. intros Hf Hl.
  unfold pkt_len in Hl. simpl in Hl. autounfold with hdr.
  do 2 wp_step. cbn [data_end data with_pkt].
  repeat wp_step. change (sub 12 2 _) with [e0; e1]. rewrite Hv. cbn [negb].
  apply wp_if; intros Hb1; [lia|].
  repeat wp_step.
  match goal with |- wp _ (with_pkt s ?L) _ => replace L with (pkt s) by done end.
  rewrite with_pkt_pkt by done. unfold wp at 1. rewrite Ha. cbn [Z.eqb negb].
  rewrite !Hpkt in *.
  change (sub 0 14 _) with [z; z0; z1; z2; z3; z4; z5; z6; z7; z8; z9; z10; e0; e1].
  change (sub 16 2 _) with [p0; p1]. change (sub 14 2 _) with [t0; t1].
  cbn [drop app] in Hp1. change (Z.to_nat 4) with 4%nat in Hp1. cbn [drop] in Hp1.
  eapply wp_with_pkt; [done|exact Hp1|]. intros Hf1 Hl1.
  unfold pkt_len in Hl1. simpl in Hl1.
  do 2 wp_step. cbn [data_end data with_pkt].
  apply wp_if; intros Hb2; [lia|].
  wp_step. wp_access. simpl in Hn. repeat wp_step.
  split_and!; [by apply swab16_le_val|by apply wf_with_pkt|done..|].
  rewrite pkt_with_pkt by done. subst. reflexivity.
Qed.

(** C6: pushing a tag: when the helper makes room, [vlan_tag_push] returns 0
    and the packet is the old one with the 802.1Q tag (the low 16 bits of
    [vlid]) between the addresses and the old EtherType. *)
Theorem vlan_tag_push_inserts s s1 macs p0 p1 l vlid :
  wf_xdp s → pkt s = macs ++ p0 :: p1 :: l → length macs = 12%nat →
  adj (-4) s = Some (0, s1) →
  ∃ s', vlan_tag_push adj (data s) vlid s = Some (0, s') ∧
    pkt s' = macs ++ [0x81; 0x00] ++ be16 (u16 vlid) ++ p0 :: p1 :: l.
Proof.
  intros Hw Hp Hm Ha. pose proof (wp_vlan_tag_push s s1 macs p0 p1 l vlid Hw Hp Hm Ha) as H.
  apply wp_run in H as (r & s' & Hr & -> & _ & _ & _ & Hp'). eauto.
Qed.

(** Popping a tag: on a packet with a complete VLAN tag, when the helper
    cuts the head, [vlan_tag_pop] returns the whole tag control field (the
    identifier together with the priority bits) and the packet is the old one
    without the tag. *)
Theorem vlan_tag_pop_removes s s1 macs e0 e1 t0 t1 p0 p1 l :
  wf_xdp s → pkt s = macs ++ e0 :: e1 :: t0 :: t1 :: p0 :: p1 :: l →
  length macs = 12%nat → proto_is_vlan (le_val [e0; e1]) = true →
  adj 4 s = Some (0, s1) →
  ∃ s', vlan_tag_pop adj (data s) s = Some (256 * t0 + t1, s') ∧
    pkt s' = macs ++ p0 :: p1 :: l.
Proof.
  intros Hw Hp Hm Hv Ha.
  pose proof (wp_vlan_tag_pop s s1 macs e0 e1 t0 t1 p0 p1 l Hw Hp Hm Hv Ha) as H.
  apply wp_run in H as (r & s' & Hr & -> & _ & _ & _ & Hp'). eauto.
Qed.

(** Popping what was pushed gives back the packet and the low 16 bits of
    the identifier, for any helper that grants both adjustments. *)
Theorem vlan_push_pop_roundtrip s s1 s2 macs p0 p1 l vlid :
  wf_xdp s → pkt s = macs ++ p0 :: p1 :: l → length macs = 12%nat →
  adj (-4) s = Some (0, s1) →
  vlan_tag_push adj (data s) vlid s = Some (0, s2) →
  (∃ s3, adj 4 s2 = Some (0, s3)) →
  ∃ s', vlan_tag_pop adj (data s2) s2 = Some (u16 vlid, s') ∧ pkt s' = pkt s.
Proof.
  intros Hw Hp Hm Ha Hpush [s3 Ha2].
  pose proof (wp_vlan_tag_push s s1 macs p0 p1 l vlid Hw Hp Hm Ha) as H.
  apply wp_run in H as (r & s2' & Hr & -> & Hw2 & _ & _ & Hp2).
  rewrite Hpush in Hr. injection Hr as <-.
  pose proof (wp_vlan_tag_pop s2 s3 macs 0x81 0x00 (u16 vlid / 256) (u16 vlid mod 256) p0 p1 l
                Hw2 Hp2 Hm eq_refl Ha2) as H.
  apply wp_run in H as (r & s' & Hr & -> & _ & _ & _ & Hp').
  exists s'. rewrite Hp', Hp, Hr. split; [|done]. do 2 f_equal. symmetry.
  apply Z_div_mod_eq_full.
Qed.

(** The error paths of [vlan_tag_pop]: a packet that is not tagged or
    holds no complete tag is refused with [-1] and left as it was, and so is
    a failing helper reported as [-1]. *)
Theorem vlan_tag_pop_errors s :
  wf_xdp s → 14 ≤ pkt_len s →
  (proto_is_vlan (le_val (sub 12 2 (pkt s))) = false ∨ pkt_len s < 18 →
   vlan_tag_pop adj (data s) s = Some (-1, s)) ∧
  (∀ r s1, proto_is_vlan (le_val (sub 12 2 (pkt s))) = true → 18 ≤ pkt_len s →
   adj 4 s = Some (r, s1) → r ≠ 0 → vlan_tag_pop adj (data s) s = Some (-1, s1)).
Proof.
  intros Hw Hl. pose proof (length_pkt s Hw) as Hlen. unfold pkt_len in *.
  unfold vlan_tag_pop. split.
  - intros Hg. apply run_of_wp; [done|]. intros l <- Hf _.
    do 2 wp_step. cbn [data_end data with_pkt]. autounfold with hdr. repeat wp_step.
    destruct (proto_is_vlan _); cbn [negb].
    2: { apply wp_ret. by rewrite with_pkt_pkt. }
    apply wp_if; intros; [apply wp_ret; by rewrite with_pkt_pkt|].
    destruct Hg; [done|lia].
  - intros r s1 Hv Hl18 Ha Hr.
    eapply (wp_eq _ s). eapply wp_with_pkt; [done|reflexivity|]. intros Hf _.
    do 2 wp_step. cbn [data_end data with_pkt]. autounfold with hdr. repeat wp_step.
    rewrite Hv. cbn [negb]. apply wp_if; intros; [lia|]. repeat wp_step.
    rewrite with_pkt_pkt by done. unfold wp at 1. rewrite Ha.
    rewrite (proj2 (Z.eqb_neq _ _)) by done. by apply wp_ret.
Qed.
End vlan_proofs.

(** ** The swaps *)

(** Exchange of the [n] bytes at [o1] with the [n] bytes at [o2]. *)
Definition swap_ranges (o1 o2 n : Z) (l : list Z) : list Z :=
  list_inserts (Z.to_nat o2) (sub o1 n l) (list_inserts (Z.to_nat o1) (sub o2 n l) l).

Section swap_ranges.
Context (o1 o2 n : Z) (l : list Z).
Context (Ho1 : 0 ≤ o1) (Hn : 0 ≤ n) (Hd : o1 + n ≤ o2) (Hl : o2 + n ≤ length l).

Lemma lookup_swap_ranges (i : nat) :
  swap_ranges o1 o2 n l !! i =
    if decide (o1 ≤ i < o1 + n) then l !! (i + Z.to_nat (o2 - o1))%nat
    else if decide (o2 ≤ i < o2 + n) then l !! (i - Z.to_nat (o2 - o1))%nat
    else l !! i.
Proof using All.
  unfold swap_ranges.
  rewrite !lookup_inserts by (rewrite ?length_inserts, ?length_sub; lia).
  rewrite !length_sub by lia. rewrite !lookup_sub.
  repeat case_decide; try lia; try done; f_equal; lia.
Qed.

Lemma length_swap_ranges : length (swap_ranges o1 o2 n l) = length l.
Proof. unfold swap_ranges. by rewrite !length_inserts. Qed.

(** The order of the two stores does not matter. *)
Lemma swap_ranges_comm :
  list_inserts (Z.to_nat o1) (sub o2 n l) (list_inserts (Z.to_nat o2) (sub o1 n l) l) =
  swap_ranges o1 o2 n l.
Proof using All.
  apply list_eq. intros i. rewrite lookup_swap_ranges.
  rewrite !lookup_inserts by (rewrite ?length_inserts, ?length_sub; lia).
  rewrite !length_sub by lia. rewrite !lookup_sub.
  repeat case_decide; try lia; try done; f_equal; lia.
Qed.
End swap_ranges.

Lemma swap_ranges_involutive o1 o2 n l :
  0 ≤ o1 → 0 ≤ n → o1 + n ≤ o2 → o2 + n ≤ length l →
  swap_ranges o1 o2 n (swap_ranges o1 o2 n l) = l.
Proof.
  intros. apply list_eq. intros i.
  rewrite !lookup_swap_ranges by (rewrite ?length_swap_ranges; done).
  repeat case_decide; try lia; try done; f_equal; lia.
Qed.

Lemma fits_swap_ranges s o1 o2 n l : fits s l → fits s (swap_ranges o1 o2 n l).
Proof. intros. unfold swap_ranges. eauto with word. Qed.

Section swaps.
Context (s : xdp_md) (l : list Z) (Hf : fits s l) (i : Z) (Hi : 0 ≤ i).

Lemma run_swap_mac :
  i + 14 ≤ length l →
  swap_src_dst_mac (data s + i) (with_pkt s l) =
    Some ((), with_pkt s (swap_ranges i (i + 6) 6 l)).
Proof using Hf Hi.
  intros Hl. apply wp_eq. unfold swap_src_dst_mac, memcpy. autounfold with hdr.
  wp_at (i + 6). apply wp_bind. wp_at i. wp_at (i + 6). wp_at i. split; [done|].
  subst. by rewrite swap_ranges_comm by lia.
Qed.

Lemma run_icmp_swap_mac :
  i + 14 ≤ length l →
  IcmpEcho.swap_src_dst_mac (data s + i) (with_pkt s l) =
    Some ((), with_pkt s (swap_ranges i (i + 6) 6 l)).
Proof using Hf Hi.
  intros Hl. apply wp_eq. unfold IcmpEcho.swap_src_dst_mac, memcpy. autounfold with hdr.
  wp_at i. apply wp_bind. wp_at (i + 6). wp_at i. wp_at (i + 6). split; [done|].
  by subst.
Qed.

Lemma run_swap_ipv6 :
  i + 40 ≤ length l →
  swap_src_dst_ipv6 (data s + i) (with_pkt s l) =
    Some ((), with_pkt s (swap_ranges (i + 8) (i + 24) 16 l)).
Proof using Hf Hi.
  intros Hl. apply wp_eq. unfold swap_src_dst_ipv6, memcpy. autounfold with hdr.
  wp_at (i + 8). apply wp_bind. wp_at (i + 24). wp_at (i + 8). wp_at (i + 24).
  split; [done|]. by subst.
Qed.

Lemma run_swap_ipv4 :
  i + 20 ≤ length l →
  swap_src_dst_ipv4 (data s + i) (with_pkt s l) =
    Some ((), with_pkt s (swap_ranges (i + 12) (i + 16) 4 l)).
Proof using Hf Hi.
  intros Hl. apply wp_eq. unfold swap_src_dst_ipv4, load32, store32. autounfold with hdr.
  apply wp_bind. wp_at (i + 12). apply wp_ret. apply wp_bind. wp_at (i + 16). apply wp_ret.
  rewrite !le_bytes_le_val_n by first [len_solve|eauto with word].
  wp_at (i + 12). wp_at (i + 16). split; [done|]. by subst.
Qed.
End swaps.

(** The two [swap_src_dst_mac] of the repository, which save a different
    one of the two addresses, behave alike on every Ethernet header. *)
Theorem swap_mac_versions_agree s i :
  wf_xdp s → 0 ≤ i → i + 14 ≤ pkt_len s →
  swap_src_dst_mac (data s + i) s = IcmpEcho.swap_src_dst_mac (data s + i) s.
Proof.
  intros Hw Hi Hl. rewrite <- (length_pkt s Hw) in Hl.
  rewrite <- (with_pkt_pkt s Hw) at 2 4.
  rewrite run_swap_mac, run_icmp_swap_mac; auto with word.
Qed.

(** Each swap exchanges exactly the two address fields of the header it is
    given, wherever the header lies in the packet, and doing it twice restores
    the packet. *)
Theorem swaps_exchange_and_undo s i :
  wf_xdp s → 0 ≤ i → i + 40 ≤ pkt_len s →
  let exchanges (swap : Z → xprog ()) (o1 o2 n : Z) :=
    ∃ s', swap (data s + i) s = Some ((), s') ∧
      pkt s' = swap_ranges (i + o1) (i + o2) n (pkt s) ∧
      swap (data s + i) s' = Some ((), s) in
  exchanges swap_src_dst_mac 0 6 6 ∧ exchanges swap_src_dst_ipv4 12 16 4 ∧
  exchanges swap_src_dst_ipv6 8 24 16.
Proof.
  intros Hw Hi Hl. rewrite <- (length_pkt s Hw) in Hl. pose proof (fits_pkt s Hw) as Hf.
  enough (∀ swap o1 o2 n, 0 ≤ o1 → 0 ≤ n → o1 + n ≤ o2 → o2 + n ≤ 40 →
    (∀ l, fits s l → length l = length (pkt s) → swap (data s + i) (with_pkt s l) =
       Some ((), with_pkt s (swap_ranges (i + o1) (i + o2) n l))) →
    ∃ s', swap (data s + i) s = Some ((), s') ∧
      pkt s' = swap_ranges (i + o1) (i + o2) n (pkt s) ∧
      swap (data s + i) s' = Some ((), s)) as H.
  { split_and!; apply H; try lia; intros l Hfl Hll; rewrite ?Z.add_0_r;
      [apply run_swap_mac|apply run_swap_ipv4|apply run_swap_ipv6]; done || lia. }
  intros swap o1 o2 n H1 H2 H3 H4 Hrun.
  exists (with_pkt s (swap_ranges (i + o1) (i + o2) n (pkt s))). split_and!.
  - rewrite <- (with_pkt_pkt s Hw) at 2. by apply Hrun.
  - by apply pkt_with_pkt, fits_swap_ranges.
  - rewrite Hrun; [|by apply fits_swap_ranges|by rewrite length_swap_ranges].
    rewrite swap_ranges_involutive by lia. by rewrite with_pkt_pkt.
Qed.

(** ** A helper that moves [data] within the frame, and concrete runs *)
Definition frame_adjust_head (delta : Z) : xprog Z := λ s,
  if (0 <=? data s + delta) && (data s + delta <=? data_end s - ethhdr.sizeof)
  then Some (0, mk_xdp_md (buf s) (data s + delta) (data_end s))
  else Some (-22, s).

#[export] Instance frame_adjust_head_ok : AdjustHead frame_adjust_head.
Proof.
  split.
  - intros s delta _. unfold frame_adjust_head. case_match; do 2 eexists; split; done || lia.
  - intros s s' n (Hd & He & Hb) Hn. unfold frame_adjust_head, ethhdr.sizeof.
    case_match; [|done]. intros [= <-]. split; [split_and!; simpl; done || lia|].
    unfold pkt, pkt_len, sub. simpl. rewrite skipn_firstn_comm, drop_drop.
    f_equal; [lia|]. f_equal. lia.
  - intros s s' n (Hd & He & Hb) Hn. unfold frame_adjust_head, ethhdr.sizeof.
    case_match; [|done]. intros [= <-]. split; [split_and!; simpl; done || lia|].
    exists (sub (data s - n) n (buf s)). split; [rewrite length_sub; lia|].
    split; [auto with word|]. unfold pkt, pkt_len, sub. simpl.
    replace (Z.to_nat (data_end s - (data s + - n))) with
      (Z.to_nat n + Z.to_nat (data_end s - data s))%nat by lia.
    rewrite take_plus. f_equal.
    rewrite drop_drop. do 2 f_equal. lia.
Qed.

(** An untagged 18-byte frame with four bytes of head room. *)
Definition sample_plain : xdp_md := mk_xdp_md
  ([0; 0; 0; 0] ++ sample_macs ++ [8; 0] ++ [1; 2; 3; 4]) 4 22.

Lemma sample_plain_wf : wf_xdp sample_plain.
Proof. by apply (bool_decide_unpack _). Defined.

Lemma vlan_tag_push_inserts_witness :
  ∃ s', vlan_tag_push frame_adjust_head 4 0x2005 sample_plain = Some (0, s') ∧
    pkt s' = sample_macs ++ [0x81; 0x00] ++ [0x20; 0x05] ++ [8; 0; 1; 2; 3; 4].
Proof.
  exact (vlan_tag_push_inserts sample_plain (mk_xdp_md (buf sample_plain) 0 22)
           sample_macs 8 0 [1; 2; 3; 4] 0x2005 sample_plain_wf eq_refl eq_refl eq_refl).
Defined.

Lemma vlan_tag_pop_removes_witness :
  ∃ s', vlan_tag_pop frame_adjust_head 2 sample_tagged = Some (8197, s') ∧
    pkt s' = sample_macs ++ 8 :: 0 :: drop 18 sample_frame.
Proof.
  exact (vlan_tag_pop_removes sample_tagged (mk_xdp_md (buf sample_tagged) 6 55)
           sample_macs 0x81 0 32 5 8 0 (drop 18 sample_frame)
           sample_tagged_wf eq_refl eq_refl eq_refl eq_refl).
Defined.

Lemma vlan_push_pop_roundtrip_witness :
  ∃ s2 s', vlan_tag_push frame_adjust_head 4 70000 sample_plain = Some (0, s2) ∧
    vlan_tag_pop frame_adjust_head (data s2) s2 = Some (4464, s') ∧ pkt s' = pkt sample_plain.
Proof.
  exists (mk_xdp_md (sample_macs ++ [129; 0; 17; 112; 8; 0; 1; 2; 3; 4]) 0 22).
  destruct (vlan_push_pop_roundtrip (adj := frame_adjust_head) sample_plain
    (mk_xdp_md (buf sample_plain) 0 22)
    (mk_xdp_md (sample_macs ++ [129; 0; 17; 112; 8; 0; 1; 2; 3; 4]) 0 22)
    sample_macs 8 0 [1; 2; 3; 4] 70000 sample_plain_wf eq_refl eq_refl eq_refl eq_refl)
    as (s' & H1 & H2); [by eexists|].
  exists s'. split; [reflexivity|]. split; [exact H1|exact H2].
Defined.

Lemma vlan_tag_pop_errors_witness :
  vlan_tag_pop frame_adjust_head 4 sample_plain = Some (-1, sample_plain).
Proof.
  apply (vlan_tag_pop_errors (adj := frame_adjust_head) sample_plain sample_plain_wf);
    [vm_compute; discriminate|left; reflexivity].
Defined.

Lemma swap_mac_versions_agree_witness :
  swap_src_dst_mac (2 + 0) sample_tagged = IcmpEcho.swap_src_dst_mac (2 + 0) sample_tagged.
Proof.
  exact (swap_mac_versions_agree sample_tagged 0 sample_tagged_wf ltac:(lia)
           ltac:(vm_compute; discriminate)).
Defined.

Lemma swaps_exchange_and_undo_witness :
  ∃ s', swap_src_dst_ipv4 (2 + 1) sample_tagged = Some ((), s') ∧
        swap_src_dst_ipv4 (2 + 1) s' = Some ((), sample_tagged).
Proof.
  destruct (swaps_exchange_and_undo sample_tagged 1 sample_tagged_wf ltac:(lia)
              ltac:(vm_compute; discriminate)) as (_ & (s' & H1 & _ & H2) & _).
  exists s'. split; [exact H1|exact H2].
Defined.
