(* ===== verification/Stats.v ===== *)
(** * Per-action packet counters

    [src/src/common/xdp_stats_kern.h] and [xdp_stats_kern_user.h]: the
    per-CPU array [xdp_stats_map], seen from the CPU the program runs on as a
    finite map from action numbers to [struct datarec], and
    [xdp_stats_record_action], which bumps the entry of the action a program
    returns.  The counters are 64 bits wide and the packet length is a 32-bit
    difference, as in the code. *)

From S2P Require Import Prelude Packet.

Record datarec := mk_datarec { rx_packets : Z; rx_bytes : Z }.

Definition XDP_ACTION_MAX : Z := XDP_REDIRECT + 1.

(** [bpf_map_lookup_elem] on the map is [!!]: the entry, or none. *)
Abbreviation stats_map := (gmap Z datarec).

Definition xdp_stats_record_action (ctx : xdp_md) (action : Z) (m : stats_map) : Z * stats_map :=
  if XDP_ACTION_MAX <=? action then (XDP_ABORTED, m) else
  match m !! action with
  | None => (XDP_ABORTED, m)
  | Some rec =>
    (action, <[action := mk_datarec (u64 (rx_packets rec + 1))
                           (u64 (rx_bytes rec + u32 (data_end ctx - data ctx)))]> m)
  end.

(** The map as the kernel creates it: one zeroed record per key. *)
Definition stats_init : stats_map :=
  list_to_map ((λ k, (k, mk_datarec 0 0)) <$> [XDP_ABORTED; XDP_DROP; XDP_PASS; XDP_TX; XDP_REDIRECT]).

(** ** Invariant: every action has a record with 64-bit counters. *)
Definition stats_wf (m : stats_map) : Prop :=
  ∀ k, 0 ≤ k < XDP_ACTION_MAX →
  ∃ r, m !! k = Some r ∧ is_word 64 (rx_packets r) ∧ is_word 64 (rx_bytes r).

Lemma stats_init_lookup k : 0 ≤ k < XDP_ACTION_MAX → stats_init !! k = Some (mk_datarec 0 0).
Proof.
  unfold XDP_ACTION_MAX, XDP_REDIRECT. intros Hk.
  assert (k = 0 ∨ k = 1 ∨ k = 2 ∨ k = 3 ∨ k = 4) as [->|[->|[->|[->| ->]]]] by lia;
    reflexivity.
Qed.

Lemma stats_init_wf : stats_wf stats_init.
Proof. intros k Hk. exists (mk_datarec 0 0). by rewrite stats_init_lookup. Qed.

Lemma record_action_wf ctx action m :
  stats_wf m → stats_wf (xdp_stats_record_action ctx action m).2.
Proof.
  intros Hm k Hk. unfold xdp_stats_record_action.
  destruct (_ <=? _); [by apply Hm|]. destruct (m !! action) as [rec|] eqn:E; [|by apply Hm].
  simpl. destruct (decide (action = k)) as [->|].
  - rewrite lookup_insert_eq. eexists. split; [done|]. simpl. auto with word.
  - rewrite lookup_insert_ne by done. by apply Hm.
Qed.

(** A run of the program on a list of packets with the actions it chose. *)
Fixpoint record_all (log : list (xdp_md * Z)) (m : stats_map) : stats_map :=
  match log with
  | [] => m
  | (ctx, action) :: log => record_all log (xdp_stats_record_action ctx action m).2
  end.

(** What the counters of action [k] should say about a log. *)
Definition count_action (k : Z) (log : list (xdp_md * Z)) : Z :=
  length (filter (λ e, e.2 = k) log).
Definition bytes_action (k : Z) (log : list (xdp_md * Z)) : Z :=
  foldr (λ e n, u32 (data_end e.1 - data e.1) + n) 0 (filter (λ e, e.2 = k) log).

Lemma record_all_counts log m k rec :
  stats_wf m → 0 ≤ k < XDP_ACTION_MAX → m !! k = Some rec →
  is_word 64 (rx_packets rec) → is_word 64 (rx_bytes rec) →
  record_all log m !! k =
    Some (mk_datarec (u64 (rx_packets rec + count_action k log))
                     (u64 (rx_bytes rec + bytes_action k log))).
Proof.
  revert m rec. induction log as [|[ctx action] log IH]; intros m rec Hm Hk Hr H1 H2.
  { simpl. unfold count_action, bytes_action. simpl. rewrite !Z.add_0_r, !wrap_small by done.
    by destruct rec. }
  cbn [record_all]. pose proof (record_action_wf ctx action m Hm) as Hm'.
  unfold count_action, bytes_action. rewrite filter_cons. cbn [snd].
  destruct (decide (action = k)) as [->|Hne].
  - rewrite (IH _ (mk_datarec (u64 (rx_packets rec + 1))
              (u64 (rx_bytes rec + u32 (data_end ctx - data ctx))))); auto with word.
    + f_equal. cbn [rx_packets rx_bytes]. unfold count_action, bytes_action.
      cbn [length foldr fst]. rewrite !wrap_add_l. f_equal; f_equal; lia.
    + unfold xdp_stats_record_action. rewrite (proj2 (Z.leb_gt _ _)) by lia.
      rewrite Hr. apply lookup_insert_eq.
    + simpl. auto with word.
    + simpl. auto with word.
  - rewrite (IH _ rec); auto. unfold xdp_stats_record_action.
    destruct (_ <=? _); [done|]. destruct (m !! action); [|done].
    simpl. by rewrite lookup_insert_ne.
Qed.

(** C7: after any sequence of packets, starting from the zeroed map, the record
    of every action holds the number of packets given that action and the sum
    of their lengths, each modulo 2^64; in particular the totals are exact
    until a counter would reach 2^64. *)
Theorem stats_count_packets log k :
  0 ≤ k < XDP_ACTION_MAX →
  record_all log stats_init !! k =
    Some (mk_datarec (u64 (count_action k log)) (u64 (bytes_action k log))).
Proof.
  intros Hk. rewrite (record_all_counts log stats_init k (mk_datarec 0 0)); try done.
  - apply stats_init_wf.
  - by apply stats_init_lookup.
Qed.

Lemma stats_count_packets_witness :
  record_all [(mk_xdp_md [] 0 60, XDP_TX); (mk_xdp_md [] 0 100, XDP_PASS);
              (mk_xdp_md [] 10 52, XDP_TX)] stats_init !! XDP_TX = Some (mk_datarec 2 102).
Proof. rewrite (stats_count_packets _ XDP_TX); [reflexivity|split; reflexivity || discriminate]. Defined.

(** The return value is the action itself when the map has a record for it
    and [XDP_ABORTED] otherwise, and then nothing is counted. *)
Theorem record_action_result ctx action m :
  stats_wf m → 0 ≤ action →
  (action < XDP_ACTION_MAX → (xdp_stats_record_action ctx action m).1 = action) ∧
  (XDP_ACTION_MAX ≤ action → xdp_stats_record_action ctx action m = (XDP_ABORTED, m)).
Proof.
  intros Hm Ha. unfold xdp_stats_record_action. split; intros H.
  - rewrite (proj2 (Z.leb_gt _ _)) by done. by destruct (Hm action) as (r & -> & _).
  - by rewrite (proj2 (Z.leb_le _ _)) by done.
Qed.

Lemma record_action_result_witness :
  xdp_stats_record_action (mk_xdp_md [] 0 60) 5 stats_init = (XDP_ABORTED, stats_init).
Proof.
  apply (record_action_result (mk_xdp_md [] 0 60) 5 stats_init stats_init_wf);
    [lia|discriminate].
Defined.
