(* ===== verification/CString.v ===== *)
(** * C strings and character buffers

    What the user-space programs use of the C library's strings: a C string is
    a [string] without NUL, a [char] array is a list of characters of the
    array's size.  [strncpy], [strcmp], [atoi] and the path building of
    [snprintf("%s/%s")] as the C library documents them. *)

From S2P Require Import Prelude.
From Stdlib Require Export Ascii.

Definition NUL : ascii := "000"%char.

Abbreviation chars := String.list_ascii_of_string.

(** The size of a path buffer. *)
Definition PATH_MAX : Z := 4096.

Definition strlen (s : string) : Z := String.length s.

(** A proper C string holds no NUL. *)
Definition cstring (s : string) : Prop := NUL ∉ chars s.

#[export] Instance cstring_dec s : Decision (cstring s).
Proof. unfold cstring. apply _. Defined.

(** The bytes [strncpy(dest, src, n)] leaves in a [dest] of [n] bytes: the
    first [n] characters, padded with NULs.  There is no terminator when [src]
    is [n] characters or longer. *)
Definition strncpy (n : nat) (src : string) : list ascii :=
  take n (chars src) ++ replicate (n - String.length src) NUL.

(** The string a [char] array holds; [None] when no NUL ends it. *)
Fixpoint buf_str (b : list ascii) : option string :=
  match b with
  | [] => None
  | c :: b => if decide (c = NUL) then Some EmptyString else String c <$> buf_str b
  end.

Definition streq (a b : string) : bool := bool_decide (a = b).

(** [strtol(s, NULL, 10)], saturating at the bounds of [long], and [atoi]. *)
Definition isspace (c : ascii) : bool :=
  let n := nat_of_ascii c in (n =? 32)%nat || ((9 <=? n)%nat && (n <=? 13)%nat).

Fixpoint skip_space (s : string) : string :=
  match s with
  | String c s' => if isspace c then skip_space s' else s
  | EmptyString => EmptyString
  end.

Fixpoint digits (acc : Z) (s : string) : Z :=
  match s with
  | String c s' =>
    let d := Z.of_nat (nat_of_ascii c) - 48 in
    if (0 <=? d) && (d <=? 9) then digits (10 * acc + d) s' else acc
  | EmptyString => acc
  end.

Definition clamp_long (z : Z) : Z := Z.max (- 2 ^ 63) (Z.min z (2 ^ 63 - 1)).

Definition strtol (s : string) : Z :=
  clamp_long
    match skip_space s with
    | String "-" s' => - digits 0 s'
    | String "+" s' => digits 0 s'
    | s' => digits 0 s'
    end.

Definition atoi (s : string) : Z := s32 (strtol s).

Definition path_join (dir name : string) : string := dir +:+ "/" +:+ name.

(** ** Lemmas *)
Lemma length_chars s : length (chars s) = String.length s.
Proof. induction s; simpl; auto. Qed.

Lemma length_strncpy n s : length (strncpy n s) = n.
Proof.
  unfold strncpy. rewrite length_app, length_take, length_replicate, length_chars. lia.
Qed.

Lemma buf_str_none b : NUL ∉ b → buf_str b = None.
Proof.
  induction b as [|c b IH]; intros Hn; [done|]. simpl.
  rewrite decide_False by (intros ->; set_solver). rewrite IH; [done|set_solver].
Qed.

Lemma buf_str_chars s b : cstring s → buf_str (chars s ++ NUL :: b) = Some s.
Proof.
  unfold cstring. induction s as [|c s IH]; simpl; intros Hn; [done|].
  rewrite decide_False by (intros ->; set_solver). by rewrite IH by set_solver.
Qed.

(** A string shorter than the array is stored whole and terminated. *)
Lemma strncpy_fits (n : nat) s : cstring s → strlen s < n → buf_str (strncpy n s) = Some s.
Proof.
  unfold strlen, strncpy. intros Hc Hl. rewrite take_ge by (rewrite length_chars; lia).
  destruct (n - String.length s)%nat eqn:E; [lia|]. simpl. by apply buf_str_chars.
Qed.

(** A string as long as the array or longer is left without a terminator. *)
Lemma strncpy_overflows (n : nat) s : cstring s → n ≤ strlen s → buf_str (strncpy n s) = None.
Proof.
  unfold strlen, strncpy, cstring. intros Hc Hl.
  replace (n - String.length s)%nat with O by lia. rewrite app_nil_r.
  apply buf_str_none. intros Hin. apply Hc.
  rewrite <- (take_drop n (chars s)). set_solver.
Qed.

Lemma atoi_range s : - 2 ^ 31 ≤ atoi s < 2 ^ 31.
Proof.
  unfold atoi, sint, wrap. pose proof (Z.mod_pos_bound (strtol s) (2 ^ 32) ltac:(lia)).
  destruct (_ <? _) eqn:E; lia.
Qed.

Example atoi_examples :
  atoi "42" = 42 ∧ atoi " -7x" = -7 ∧ atoi "" = 0 ∧ atoi "abc" = 0 ∧
  atoi "4294967297" = 1.
Proof. vm_compute. done. Qed.
