(* ===== verification/Params.v ===== *)
(** * Command-line parsing

    [src/src/common/common_params.c] with the data of [common_defines.h] and
    [common_params.h] and the option table of [src/src/xdp/xdp_pass_user.c].
    [getopt_long] and [if_nametoindex] belong to the C library: the parser takes
    the sequence of (option, argument) pairs the first returns before [-1], and
    the second as a function from names to indices with 0 for failure.
    Printing is modelled by the text written to standard output; [None] is an
    access outside an array. *)

From S2P Require Import Prelude CString.

(** ** Data *)
Inductive xdp_attach_mode := XDP_MODE_UNSPEC | XDP_MODE_NATIVE | XDP_MODE_SKB | XDP_MODE_HW.

#[export] Instance xdp_attach_mode_eq_dec : EqDecision xdp_attach_mode.
Proof. solve_decision. Defined.

(** [char *ifname] is null or points to the array next to it. *)
Inductive buf_ptr := NullPtr | OwnBuf.

Definition IF_NAMESIZE : nat := 16.
Definition EXIT_OK : Z := 0.
Definition EXIT_FAIL : Z := 1.
Definition EXIT_FAIL_OPTION : Z := 2.
Definition EXIT_FAIL_XDP : Z := 30.
Definition EXIT_FAIL_BPF : Z := 40.
Definition XDP_COPY : Z := 2.
Definition XDP_ZEROCOPY : Z := 4.

Record config := mk_config {
  attach_mode : xdp_attach_mode;
  xdp_flags : Z;
  ifindex : Z;
  ifname : buf_ptr;
  ifname_buf : list ascii;
  redirect_ifindex : Z;
  redirect_ifname : buf_ptr;
  redirect_ifname_buf : list ascii;
  do_unload : bool;
  prog_id : Z;
  reuse_maps : bool;
  pin_dir : list ascii;
  filename : list ascii;
  progname : list ascii;
  src_mac : list ascii;
  dest_mac : list ascii;
  xsk_bind_flags : Z;
  xsk_if_queue : Z;
  xsk_poll_mode : bool;
  unload_all : bool;
}.

(** Assignments to the fields. *)
Definition set_attach_mode v c := mk_config v (xdp_flags c) (ifindex c) (ifname c) (ifname_buf c)
  (redirect_ifindex c) (redirect_ifname c) (redirect_ifname_buf c) (do_unload c) (prog_id c)
  (reuse_maps c) (pin_dir c) (filename c) (progname c) (src_mac c) (dest_mac c)
  (xsk_bind_flags c) (xsk_if_queue c) (xsk_poll_mode c) (unload_all c).
Definition set_dev (idx : Z) (b : list ascii) c := mk_config (attach_mode c) (xdp_flags c) idx OwnBuf b
  (redirect_ifindex c) (redirect_ifname c) (redirect_ifname_buf c) (do_unload c) (prog_id c)
  (reuse_maps c) (pin_dir c) (filename c) (progname c) (src_mac c) (dest_mac c)
  (xsk_bind_flags c) (xsk_if_queue c) (xsk_poll_mode c) (unload_all c).
Definition set_redirect_dev (idx : Z) (b : list ascii) c := mk_config (attach_mode c) (xdp_flags c)
  (ifindex c) (ifname c) (ifname_buf c) idx OwnBuf b (do_unload c) (prog_id c)
  (reuse_maps c) (pin_dir c) (filename c) (progname c) (src_mac c) (dest_mac c)
  (xsk_bind_flags c) (xsk_if_queue c) (xsk_poll_mode c) (unload_all c).
Definition set_unload (id : Z) c := mk_config (attach_mode c) (xdp_flags c) (ifindex c) (ifname c)
  (ifname_buf c) (redirect_ifindex c) (redirect_ifname c) (redirect_ifname_buf c) true id
  (reuse_maps c) (pin_dir c) (filename c) (progname c) (src_mac c) (dest_mac c)
  (xsk_bind_flags c) (xsk_if_queue c) (xsk_poll_mode c) (unload_all c).
Definition set_reuse_maps v c := mk_config (attach_mode c) (xdp_flags c) (ifindex c) (ifname c)
  (ifname_buf c) (redirect_ifindex c) (redirect_ifname c) (redirect_ifname_buf c) (do_unload c)
  (prog_id c) v (pin_dir c) (filename c) (progname c) (src_mac c) (dest_mac c)
  (xsk_bind_flags c) (xsk_if_queue c) (xsk_poll_mode c) (unload_all c).
Definition set_filename v c := mk_config (attach_mode c) (xdp_flags c) (ifindex c) (ifname c)
  (ifname_buf c) (redirect_ifindex c) (redirect_ifname c) (redirect_ifname_buf c) (do_unload c)
  (prog_id c) (reuse_maps c) (pin_dir c) v (progname c) (src_mac c) (dest_mac c)
  (xsk_bind_flags c) (xsk_if_queue c) (xsk_poll_mode c) (unload_all c).
Definition set_progname v c := mk_config (attach_mode c) (xdp_flags c) (ifindex c) (ifname c)
  (ifname_buf c) (redirect_ifindex c) (redirect_ifname c) (redirect_ifname_buf c) (do_unload c)
  (prog_id c) (reuse_maps c) (pin_dir c) (filename c) v (src_mac c) (dest_mac c)
  (xsk_bind_flags c) (xsk_if_queue c) (xsk_poll_mode c) (unload_all c).
Definition set_src_mac v c := mk_config (attach_mode c) (xdp_flags c) (ifindex c) (ifname c)
  (ifname_buf c) (redirect_ifindex c) (redirect_ifname c) (redirect_ifname_buf c) (do_unload c)
  (prog_id c) (reuse_maps c) (pin_dir c) (filename c) (progname c) v (dest_mac c)
  (xsk_bind_flags c) (xsk_if_queue c) (xsk_poll_mode c) (unload_all c).
Definition set_dest_mac v c := mk_config (attach_mode c) (xdp_flags c) (ifindex c) (ifname c)
  (ifname_buf c) (redirect_ifindex c) (redirect_ifname c) (redirect_ifname_buf c) (do_unload c)
  (prog_id c) (reuse_maps c) (pin_dir c) (filename c) (progname c) (src_mac c) v
  (xsk_bind_flags c) (xsk_if_queue c) (xsk_poll_mode c) (unload_all c).
Definition set_bind_flags v c := mk_config (attach_mode c) (xdp_flags c) (ifindex c) (ifname c)
  (ifname_buf c) (redirect_ifindex c) (redirect_ifname c) (redirect_ifname_buf c) (do_unload c)
  (prog_id c) (reuse_maps c) (pin_dir c) (filename c) (progname c) (src_mac c) (dest_mac c)
  v (xsk_if_queue c) (xsk_poll_mode c) (unload_all c).
Definition set_if_queue v c := mk_config (attach_mode c) (xdp_flags c) (ifindex c) (ifname c)
  (ifname_buf c) (redirect_ifindex c) (redirect_ifname c) (redirect_ifname_buf c) (do_unload c)
  (prog_id c) (reuse_maps c) (pin_dir c) (filename c) (progname c) (src_mac c) (dest_mac c)
  (xsk_bind_flags c) v (xsk_poll_mode c) (unload_all c).
Definition set_poll_mode v c := mk_config (attach_mode c) (xdp_flags c) (ifindex c) (ifname c)
  (ifname_buf c) (redirect_ifindex c) (redirect_ifname c) (redirect_ifname_buf c) (do_unload c)
  (prog_id c) (reuse_maps c) (pin_dir c) (filename c) (progname c) (src_mac c) (dest_mac c)
  (xsk_bind_flags c) (xsk_if_queue c) v (unload_all c).
Definition set_unload_all v c := mk_config (attach_mode c) (xdp_flags c) (ifindex c) (ifname c)
  (ifname_buf c) (redirect_ifindex c) (redirect_ifname c) (redirect_ifname_buf c) (do_unload c)
  (prog_id c) (reuse_maps c) (pin_dir c) (filename c) (progname c) (src_mac c) (dest_mac c)
  (xsk_bind_flags c) (xsk_if_queue c) (xsk_poll_mode c) v.

(** ** Options *)
Record option_t := mk_option { opt_name : option string; has_arg : Z; opt_val : Z }.
Record option_wrapper := mk_wrapper {
  opt : option_t;
  help : string;
  metavar : option string;
  required : bool;
}.

(** ** Printing *)
Definition BUFSIZE : Z := 30.

Fixpoint spaces (n : nat) : string :=
  match n with O => EmptyString | S n => String " " (spaces n) end.

(** [printf("%-22s", s)]. *)
Definition pad_right (n : nat) (s : string) : string := s +:+ spaces (n - String.length s).

(** [snprintf(buf, n, ...)] leaves the first [n - 1] characters of its output. *)
Definition snprintf_text (n : Z) (s : string) : string :=
  String.substring 0 (Z.to_nat (n - 1)) s.

(** The two [snprintf] calls on [buf]: the second one's size argument
    [BUFSIZE - pos] is converted to an unsigned type, so that once [pos]
    exceeds [BUFSIZE] it no longer bounds the write. *)
Definition option_text (name : string) (metavar : option string) : option string :=
  let full := " --" +:+ name in
  let pos := strlen full in
  let buf := snprintf_text BUFSIZE full in
  match metavar with
  | None => Some buf
  | Some m =>
    if pos <? BUFSIZE then Some (buf +:+ snprintf_text (BUFSIZE - pos) (" " +:+ m))
    else if pos =? BUFSIZE then Some buf
    else None
  end.

Definition newline : string := String "010" EmptyString.

Fixpoint _print_options (long_options : list option_wrapper) (req : bool) : option string :=
  match long_options with
  | [] => None
  | o :: rest =>
    match opt_name (opt o) with
    | None => Some EmptyString
    | Some name =>
      if negb (Bool.eqb (required o) req) then _print_options rest req else
      let flag := if 64 <? opt_val (opt o)
                  then " -" +:+ String (ascii_of_nat (Z.to_nat (opt_val (opt o)))) ","
                  else "    " in
      text ← option_text name (metavar o);
      tail ← _print_options rest req;
      Some (flag +:+ pad_right 22 text +:+ "  " +:+ help o +:+ newline +:+ tail)
    end
  end.

Definition usage (prog_name doc : string) (long_options : list option_wrapper) (full : bool)
  : option string :=
  let head := "Usage: " +:+ prog_name +:+ " [options]" +:+ newline in
  if negb full
  then Some (head +:+ "Use --help (or -h) to see full option list." +:+ newline)
  else
  req ← _print_options long_options true;
  oth ← _print_options long_options false;
  Some (head +:+ newline +:+ "DOCUMENTATION:" +:+ newline +:+ " " +:+ doc +:+ newline +:+
        "Required options:" +:+ newline +:+ req +:+ newline +:+
        "Other options:" +:+ newline +:+ oth +:+ newline).

(** ** The option array for [getopt_long] *)

(** The counting loop: entries before the one with a null name. *)
Fixpoint count_options (wrapper : list option_wrapper) : option nat :=
  match wrapper with
  | [] => None
  | o :: rest => match opt_name (opt o) with None => Some O | Some _ => S <$> count_options rest end
  end.

Definition option_wrappers_to_options (malloc_ok : bool) (wrapper : list option_wrapper)
  : option (Z * list option_t) :=
  num ← count_options wrapper;
  if negb malloc_ok then Some (-1, []) else Some (0, opt <$> take num wrapper).

(** ** Parsing *)
Definition ch (c : ascii) : Z := Z.of_nat (nat_of_ascii c).

(** How the parser ends: it returns to its caller with the configuration and
    the global [verbose], or it exits the process after printing a text. *)
Inductive outcome :=
  | Configured (cfg : config) (verbose : bool)
  | Exited (code : Z) (printed : string).

Section parse.
Context (if_nametoindex : string → Z) (argv0 doc : string) (options_wrapper : list option_wrapper).

(** Copying a device name: [None] for the two error branches. *)
Definition lookup_dev (optarg : string) : option (Z * list ascii) :=
  if Z.of_nat IF_NAMESIZE <=? strlen optarg then None
  else let idx := s32 (if_nametoindex optarg) in
  if idx =? 0 then None else Some (idx, strncpy IF_NAMESIZE optarg).

(** One round of the [switch]; [inr full] is the exit through [usage]. *)
Definition parse_opt (o : Z) (optarg : string) (cfg : config) (verbose : bool)
  : (config * bool) + bool :=
  if o =? ch "d" then
    match lookup_dev optarg with
    | Some (idx, b) => inl (set_dev idx b cfg, verbose)
    | None => inr false
    end
  else if o =? ch "r" then
    match lookup_dev optarg with
    | Some (idx, b) => inl (set_redirect_dev idx b cfg, verbose)
    | None => inr false
    end
  else if o =? ch "A" then inl (set_attach_mode XDP_MODE_UNSPEC cfg, verbose)
  else if o =? ch "S" then
    let cfg := set_attach_mode XDP_MODE_SKB cfg in
    inl (set_bind_flags (Z.lor (Z.ldiff (xsk_bind_flags cfg) XDP_ZEROCOPY) XDP_COPY) cfg, verbose)
  else if o =? ch "N" then inl (set_attach_mode XDP_MODE_NATIVE cfg, verbose)
  else if o =? 3 then inl (set_attach_mode XDP_MODE_HW cfg, verbose)
  else if o =? ch "M" then inl (set_reuse_maps true cfg, verbose)
  else if o =? ch "U" then inl (set_unload (u32 (atoi optarg)) cfg, verbose)
  else if o =? ch "p" then inl (set_poll_mode true cfg, verbose)
  else if o =? ch "q" then inl (cfg, false)
  else if o =? ch "Q" then inl (set_if_queue (atoi optarg) cfg, verbose)
  else if o =? 1 then inl (set_filename (strncpy 512 optarg) cfg, verbose)
  else if o =? 2 then inl (set_progname (strncpy 32 optarg) cfg, verbose)
  else if o =? ch "L" then inl (set_src_mac (strncpy 18 optarg) cfg, verbose)
  else if o =? ch "R" then inl (set_dest_mac (strncpy 18 optarg) cfg, verbose)
  else if o =? ch "c" then
    inl (set_bind_flags (Z.lor (Z.ldiff (xsk_bind_flags cfg) XDP_ZEROCOPY) XDP_COPY) cfg, verbose)
  else if o =? ch "z" then
    inl (set_bind_flags (Z.lor (Z.ldiff (xsk_bind_flags cfg) XDP_COPY) XDP_ZEROCOPY) cfg, verbose)
  else if o =? 4 then inl (set_unload_all true cfg, verbose)
  else inr (o =? ch "h").

Fixpoint parse_loop (opts : list (Z * string)) (cfg : config) (verbose : bool) : option outcome :=
  match opts with
  | [] => Some (Configured cfg verbose)
  | (o, optarg) :: opts =>
    match parse_opt o optarg cfg verbose with
    | inl (cfg, verbose) => parse_loop opts cfg verbose
    | inr full_help => text ← usage argv0 doc options_wrapper full_help; Some (Exited EXIT_FAIL_OPTION text)
    end
  end.

Definition parse_cmdline_args (malloc_ok : bool) (opts : list (Z * string)) (cfg : config) (verbose : bool)
  : option outcome :=
  r ← option_wrappers_to_options malloc_ok options_wrapper;
  let '(err, _) := r in
  if negb (err =? 0) then Some (Exited EXIT_FAIL_OPTION EmptyString)
  else parse_loop opts cfg verbose.
End parse.

(** ** The table of [xdp_pass_user.c] *)
Definition no_argument : Z := 0.
Definition required_argument : Z := 1.
Definition pass_long_options : list option_wrapper := [
  mk_wrapper (mk_option (Some "help") no_argument (ch "h")) "Show help" None false;
  mk_wrapper (mk_option (Some "dev") required_argument (ch "d"))
    "Operate on device <ifname>" (Some "<ifname>") true;
  mk_wrapper (mk_option (Some "skb-mode") no_argument (ch "S"))
    "Install XDP program in SKB (AKA generic) mode" None false;
  mk_wrapper (mk_option (Some "native-mode") no_argument (ch "N"))
    "Install XDP program in native mode" None false;
  mk_wrapper (mk_option (Some "auto-mode") no_argument (ch "A"))
    "Auto-detect SKB or native mode" None false;
  mk_wrapper (mk_option (Some "unload") required_argument (ch "U"))
    "Unload XDP program <id> instead of loading" (Some "<id>") false;
  mk_wrapper (mk_option (Some "unload-all") no_argument 4)
    "Unload all XDP programs on device" None false;
  mk_wrapper (mk_option None 0 0) EmptyString None false
].

(** ** Invariant of the configuration

    A device name that was given is a terminated string naming an interface
    with a non-zero index, the arrays keep their sizes, and the two bind modes
    exclude each other. *)
Definition dev_ok (if_nametoindex : string → Z) (p : buf_ptr) (b : list ascii) (idx : Z) : Prop :=
  p = OwnBuf → ∃ name, buf_str b = Some name ∧ length b = IF_NAMESIZE ∧
    idx = s32 (if_nametoindex name) ∧ idx ≠ 0.

Definition bind_ok (flags : Z) : Prop :=
  ¬ (Z.testbit flags 1 = true ∧ Z.testbit flags 2 = true).

Definition config_ok (n2i : string → Z) (c : config) : Prop :=
  dev_ok n2i (ifname c) (ifname_buf c) (ifindex c) ∧
  dev_ok n2i (redirect_ifname c) (redirect_ifname_buf c) (redirect_ifindex c) ∧
  length (filename c) = 512%nat ∧ length (progname c) = 32%nat ∧
  length (src_mac c) = 18%nat ∧ length (dest_mac c) = 18%nat ∧
  is_word 32 (prog_id c) ∧ bind_ok (xsk_bind_flags c).

Section invariant.
Context (n2i : string → Z).

Lemma lookup_dev_ok arg idx b :
  cstring arg → lookup_dev n2i arg = Some (idx, b) → dev_ok n2i OwnBuf b idx.
Proof.
  unfold lookup_dev. intros Hc. destruct (_ <=? _) eqn:E1; [done|].
  destruct (_ =? 0) eqn:E2; [done|]. intros [= <- <-] _. exists arg.
  split_and!; [|apply length_strncpy|done|lia].
  apply strncpy_fits; [done|]. lia.
Qed.

Lemma bind_copy flags : bind_ok (Z.lor (Z.ldiff flags XDP_ZEROCOPY) XDP_COPY).
Proof.
  intros [_ H]. rewrite Z.lor_spec, Z.ldiff_spec in H. change (Z.testbit XDP_ZEROCOPY 2) with true in H.
  change (Z.testbit XDP_COPY 2) with false in H. by rewrite andb_false_r in H.
Qed.

Lemma bind_zerocopy flags : bind_ok (Z.lor (Z.ldiff flags XDP_COPY) XDP_ZEROCOPY).
Proof.
  intros [H _]. rewrite Z.lor_spec, Z.ldiff_spec in H. change (Z.testbit XDP_COPY 1) with true in H.
  change (Z.testbit XDP_ZEROCOPY 1) with false in H. by rewrite andb_false_r in H.
Qed.

Lemma parse_opt_ok o arg cfg v cfg' v' :
  cstring arg → config_ok n2i cfg → parse_opt n2i o arg cfg v = inl (cfg', v') →
  config_ok n2i cfg'.
Proof.
  intros Hc Hok. pose proof Hok as (H1 & H2 & H3 & H4 & H5 & H6 & H7 & H8).
  unfold parse_opt.
  repeat match goal with |- (if ?b then _ else _) = _ → _ => destruct b end;
    try (by intros [= <- <-]);
    try (destruct (lookup_dev n2i arg) as [[idx b]|] eqn:E; [|done]);
    intros [= <- <-]; split_and!; simpl; auto using length_strncpy, bind_copy, bind_zerocopy;
    try (apply wrap_range; lia); eauto using lookup_dev_ok.
Qed.
End invariant.

(** ** Properties *)

(** What the parser is meant to do, option by option: an option is good when
    it is one of the letters and numbers below and, if it names a device, the
    name has at most 15 characters and an interface of the system carries it. *)
Definition device_opts : list Z := [ch "d"; ch "r"].
Definition other_opts : list Z :=
  [ch "A"; ch "S"; ch "N"; 3; ch "M"; ch "U"; ch "p"; ch "q"; ch "Q"; 1; 2; ch "L"; ch "R"; ch "c"; ch "z"; 4].
Definition good_opt (n2i : string → Z) (e : Z * string) : Prop :=
  e.1 ∈ other_opts ∨ e.1 ∈ device_opts ∧ (String.length e.2 ≤ 15)%nat ∧ s32 (n2i e.2) ≠ 0.

#[export] Instance good_opt_dec n2i e : Decision (good_opt n2i e).
Proof. apply _. Defined.

(** The last option among [keys]. *)
Definition last_of (keys : list Z) (opts : list (Z * string)) : option (Z * string) :=
  last (filter (λ e, e.1 ∈ keys) opts).
Definition last_arg {A} (key : Z) (opts : list (Z * string)) (f : string → A) (old : A) : A :=
  match last_of [key] opts with Some (_, a) => f a | None => old end.
Definition given (key : Z) (opts : list (Z * string)) : bool := bool_decide (key ∈ opts.*1).

Definition mode_of (o : Z) : xdp_attach_mode :=
  if o =? ch "S" then XDP_MODE_SKB else if o =? ch "N" then XDP_MODE_NATIVE
  else if o =? 3 then XDP_MODE_HW else XDP_MODE_UNSPEC.

(** The configuration that good options ask for: of options for the same
    field the last one counts, and all other fields keep their values. *)
Record configured (n2i : string → Z) (opts : list (Z * string)) (old new : config) : Prop := {
  c_mode : attach_mode new = match last_of [ch "A"; ch "S"; ch "N"; 3] opts with Some (o, _) => mode_of o | None => attach_mode old end;
  c_dev : (ifindex new, ifname new, ifname_buf new) =
    last_arg (ch "d") opts (λ a, (s32 (n2i a), OwnBuf, strncpy 16 a)) (ifindex old, ifname old, ifname_buf old);
  c_redirect : (redirect_ifindex new, redirect_ifname new, redirect_ifname_buf new) =
    last_arg (ch "r") opts (λ a, (s32 (n2i a), OwnBuf, strncpy 16 a)) (redirect_ifindex old, redirect_ifname old, redirect_ifname_buf old);
  c_unload : do_unload new = given (ch "U") opts || do_unload old;
  c_prog_id : prog_id new = last_arg (ch "U") opts (λ a, u32 (atoi a)) (prog_id old);
  c_unload_all : unload_all new = given 4 opts || unload_all old;
  c_reuse : reuse_maps new = given (ch "M") opts || reuse_maps old;
  c_poll : xsk_poll_mode new = given (ch "p") opts || xsk_poll_mode old;
  c_queue : xsk_if_queue new = last_arg (ch "Q") opts atoi (xsk_if_queue old);
  c_file : filename new = last_arg 1 opts (strncpy 512) (filename old);
  c_prog : progname new = last_arg 2 opts (strncpy 32) (progname old);
  c_src : src_mac new = last_arg (ch "L") opts (strncpy 18) (src_mac old);
  c_dest : dest_mac new = last_arg (ch "R") opts (strncpy 18) (dest_mac old);
  c_bind : ∀ i, 0 ≤ i → Z.testbit (xsk_bind_flags new) i =
    match last_of [ch "S"; ch "c"; ch "z"] opts with
    | Some (o, _) => if i =? 1 then negb (o =? ch "z") else if i =? 2 then o =? ch "z" else Z.testbit (xsk_bind_flags old) i
    | None => Z.testbit (xsk_bind_flags old) i
    end;
  c_rest : (xdp_flags new, pin_dir new) = (xdp_flags old, pin_dir old);
}.

Lemma last_of_snoc keys opts e :
  last_of keys (opts ++ [e]) = if existsb (Z.eqb e.1) keys then Some e else last_of keys opts.
Proof.
  unfold last_of. rewrite filter_app.
  assert (e.1 ∈ keys ↔ existsb (Z.eqb e.1) keys = true) as Hk.
  { rewrite existsb_exists. setoid_rewrite <- list_elem_of_In. setoid_rewrite Z.eqb_eq. split; [eauto|]. by intros (? & ? & <-). }
  destruct (decide (e.1 ∈ keys)) as [H|H].
  - rewrite filter_cons_True, filter_nil by done. rewrite last_snoc. by rewrite (proj1 Hk H).
  - rewrite filter_cons_False, filter_nil by done. rewrite app_nil_r. destruct (existsb _ _); [|done]. exfalso. by apply H, Hk.
Qed.
Lemma last_arg_snoc {A} key opts o a (f : string → A) old :
  last_arg key (opts ++ [(o, a)]) f old = if o =? key then f a else last_arg key opts f old.
Proof. unfold last_arg. rewrite last_of_snoc. cbn [existsb fst]. rewrite orb_false_r. by destruct (o =? key). Qed.
Lemma given_snoc key opts o a : given key (opts ++ [(o, a)]) = (o =? key) || given key opts.
Proof.
  unfold given. rewrite fmap_app. cbn [fmap list_fmap fst]. destruct (Z.eqb_spec o key) as [-> |Hn]; cbn [orb].
  - apply bool_decide_eq_true_2. rewrite elem_of_app, list_elem_of_singleton. by right.
  - apply bool_decide_ext. rewrite elem_of_app, list_elem_of_singleton. split; [by intros [?|<-]|by left].
Qed.

Lemma copy_bits flags i : 0 ≤ i →
  Z.testbit (Z.lor (Z.ldiff flags XDP_ZEROCOPY) XDP_COPY) i = if i =? 1 then true else if i =? 2 then false else Z.testbit flags i.
Proof.
  intros Hi. rewrite Z.lor_spec, Z.ldiff_spec. change XDP_ZEROCOPY with (2 ^ 2). change XDP_COPY with (2 ^ 1).
  rewrite !Z.pow2_bits_eqb by lia. destruct (Z.eqb_spec i 1) as [-> |]; [by rewrite orb_true_r|].
  destruct (Z.eqb_spec i 2) as [-> |]; [by rewrite andb_false_r|]. rewrite !(proj2 (Z.eqb_neq _ _)) by lia. by rewrite andb_true_r, orb_false_r.
Qed.
Lemma zerocopy_bits flags i : 0 ≤ i →
  Z.testbit (Z.lor (Z.ldiff flags XDP_COPY) XDP_ZEROCOPY) i = if i =? 1 then false else if i =? 2 then true else Z.testbit flags i.
Proof.
  intros Hi. rewrite Z.lor_spec, Z.ldiff_spec. change XDP_ZEROCOPY with (2 ^ 2). change XDP_COPY with (2 ^ 1).
  rewrite !Z.pow2_bits_eqb by lia. destruct (Z.eqb_spec i 1) as [-> |]; [by rewrite andb_false_r|].
  destruct (Z.eqb_spec i 2) as [-> |]; [by rewrite orb_true_r|]. rewrite !(proj2 (Z.eqb_neq _ _)) by lia. by rewrite andb_true_r, orb_false_r.
Qed.

Lemma lookup_dev_good n2i arg :
  lookup_dev n2i arg = if decide ((String.length arg ≤ 15)%nat ∧ s32 (n2i arg) ≠ 0) then Some (s32 (n2i arg), strncpy 16 arg) else None.
Proof.
  unfold lookup_dev, strlen, IF_NAMESIZE. destruct (Z.leb_spec (Z.of_nat 16) (Z.of_nat (String.length arg))); [by rewrite decide_False by lia|].
  destruct (Z.eqb_spec (s32 (n2i arg)) 0); [by rewrite decide_False by tauto|]. by rewrite decide_True by (split; [lia|done]).
Qed.

(** One good option more. *)
Lemma parse_opt_good n2i opts o arg old cfg v :
  configured n2i opts old cfg → good_opt n2i (o, arg) →
  ∃ cfg', parse_opt n2i o arg cfg v = inl (cfg', v && negb (o =? ch "q")) ∧ configured n2i (opts ++ [(o, arg)]) old cfg'.
Proof.
  intros Hc Hg. unfold good_opt, device_opts, other_opts in Hg. cbn [fst snd] in Hg. unfold parse_opt. rewrite !lookup_dev_good.
  destruct Hg as [Hg|[Hg Hd]].
  - rewrite !elem_of_cons, elem_of_nil in Hg. destruct Hc.
    destruct_or! Hg; subst o; try done; cbn -[ch last_of Z.testbit]; (eexists; split; [rewrite ?andb_true_r, ?andb_false_r; reflexivity|]); split;
      rewrite ?last_of_snoc, ?last_arg_snoc, ?given_snoc; try done; cbn -[last_of Z.testbit]; try done.
    all: intros i Hi; rewrite ?last_of_snoc; cbn -[last_of Z.testbit Z.lor Z.ldiff]; rewrite ?copy_bits, ?zerocopy_bits by done; rewrite ?c_bind0 by done; try done.
    all: destruct (Z.eqb_spec i 1), (Z.eqb_spec i 2); try done; repeat case_match; done.
  - rewrite (decide_True _ _ Hd). rewrite !elem_of_cons, elem_of_nil in Hg. destruct Hc.
    destruct_or! Hg; subst o; try done; cbn -[ch last_of Z.testbit]; (eexists; split; [rewrite ?andb_true_r; reflexivity|]); split;
      rewrite ?last_of_snoc, ?last_arg_snoc, ?given_snoc; try done; cbn -[last_of Z.testbit]; try done.
    all: intros i Hi; rewrite ?last_of_snoc; cbn -[last_of Z.testbit]; by apply c_bind0.
Qed.
Lemma parse_opt_bad n2i o arg cfg v :
  ¬ good_opt n2i (o, arg) → parse_opt n2i o arg cfg v = inr (o =? ch "h").
Proof.
  intros Hb. unfold good_opt, device_opts, other_opts in Hb. cbn [fst snd] in Hb. rewrite !elem_of_cons in Hb.
  assert (o ∈ [ch "d"; ch "r"] → (o =? ch "h") = false) as Hh by (rewrite !elem_of_cons, elem_of_nil; by intros [-> |[-> |[]]]).
  rewrite !elem_of_cons in Hh. unfold parse_opt. rewrite !lookup_dev_good.
  repeat match goal with |- context [o =? ?x] => lazymatch x with ch "h" => fail | _ =>
    destruct (Z.eqb_spec o x); [try (exfalso; apply Hb; tauto)|] end end;
    try (rewrite decide_False by tauto; by rewrite Hh by tauto). done.
Qed.

Section loop.
Context (n2i : string → Z) (argv0 doc : string) (ws : list option_wrapper).

Lemma parse_loop_app pre post old cfg v done_opts :
  configured n2i done_opts old cfg → Forall (good_opt n2i) pre →
  ∃ cfg', configured n2i (done_opts ++ pre) old cfg' ∧
    parse_loop n2i argv0 doc ws (pre ++ post) cfg v = parse_loop n2i argv0 doc ws post cfg' (v && negb (given (ch "q") pre)).
Proof.
  intros Hc Hg. revert done_opts cfg v Hc. induction Hg as [|[o arg] pre Ho Hg IH]; intros d cfg v Hc.
  - exists cfg. rewrite app_nil_r. by rewrite andb_true_r.
  - destruct (parse_opt_good n2i d o arg old cfg v Hc Ho) as (cfg1 & E & H1).
    destruct (IH _ cfg1 (v && negb (o =? ch "q")) H1) as (cfg2 & H2 & E2). exists cfg2. split; [by rewrite <- (assoc_L (++)) in H2|].
    cbn [app parse_loop]. rewrite E, E2. f_equal. rewrite <- andb_assoc. f_equal. unfold given. cbn [fmap list_fmap fst].
    rewrite <- negb_orb. f_equal. destruct (Z.eqb_spec o (ch "q")) as [-> |]; cbn [orb].
    + symmetry. apply bool_decide_eq_true_2. rewrite elem_of_cons. by left.
    + apply bool_decide_ext. rewrite elem_of_cons. split; [by right|by intros [<-|?]].
Qed.
Lemma configured_nil cfg : configured n2i [] cfg cfg.
Proof. by split. Qed.
End loop.

(** Whatever options are given, the configuration handed back is well
    formed: device names are terminated strings of existing interfaces, array
    sizes are kept, and copy and zero-copy mode are never both requested. *)
Theorem parse_keeps_config_ok n2i argv0 doc ws opts cfg v cfg' v' :
  Forall (λ e, cstring e.2) opts → config_ok n2i cfg →
  parse_cmdline_args n2i argv0 doc ws true opts cfg v = Some (Configured cfg' v') →
  config_ok n2i cfg'.
Proof.
  intros Hc Hok. unfold parse_cmdline_args, option_wrappers_to_options.
  destruct (count_options ws); [|done]. cbn. intros Hl. revert cfg v Hok Hl.
  induction Hc as [|[o arg] opts Ha _ IH]; intros cfg v Hok Hl; cbn [parse_loop] in Hl.
  { by injection Hl as <- <-. }
  destruct (parse_opt n2i o arg cfg v) as [[cfg1 v1]|full] eqn:E.
  - eapply IH; [|exact Hl]. by eapply parse_opt_ok.
  - by destruct (usage argv0 doc ws full).
Qed.

(** A program or file name is stored as a string the loader can read only
    if it is shorter than its array; a longer one is cut without a
    terminating NUL and nothing reports it. *)
Theorem names_stored_iff_short n2i argv0 doc ws arg cfg v :
  cstring arg →
  ∃ cfg1 cfg2,
    parse_loop n2i argv0 doc ws [(2, arg)] cfg v = Some (Configured cfg1 v) ∧
    parse_loop n2i argv0 doc ws [(1, arg)] cfg v = Some (Configured cfg2 v) ∧
    (buf_str (progname cfg1) = Some arg ↔ strlen arg < 32) ∧
    (buf_str (filename cfg2) = Some arg ↔ strlen arg < 512).
Proof.
  intros Hc. do 2 eexists. split; [reflexivity|]. split; [reflexivity|]. cbn [progname filename set_progname set_filename].
  assert (∀ n : nat, buf_str (strncpy n arg) = Some arg ↔ strlen arg < n) as H.
  { intros n. split; [|by apply strncpy_fits]. intros Hs. apply Z.nle_gt. intros Hge.
    by rewrite strncpy_overflows in Hs. }
  split; [apply (H 32%nat)|apply (H 512%nat)].
Qed.

(** The array given to [getopt_long], which expects a last element that is
    all zero, never contains one: the entry with the null name is left out. *)
Theorem getopt_array_unterminated ws err l :
  option_wrappers_to_options true ws = Some (err, l) →
  err = 0 ∧ Some (length l) = count_options ws ∧ Forall (λ o, opt_name o ≠ None) l.
Proof.
  unfold option_wrappers_to_options. revert err l.
  induction ws as [|o ws IH]; intros err l; [done|]. cbn [count_options].
  destruct (opt_name (opt o)) eqn:En.
  - destruct (count_options ws) as [num|] eqn:Ec; [|done]. cbn in *. intros [= <- <-].
    destruct (IH 0 _ eq_refl) as (_ & Hl & Hf).
    injection Hl as Hl. split_and!; [done|cbn; by rewrite Hl|].
    constructor; [by rewrite En|done].
  - cbn. intros [= <- <-]. done.
Qed.

(** The options printed for [req], up to the terminator. *)
Fixpoint printed (ws : list option_wrapper) (req : bool) : list (string * option string) :=
  match ws with
  | [] => []
  | o :: ws =>
    match opt_name (opt o) with
    | None => []
    | Some name =>
      if Bool.eqb (required o) req then (name, metavar o) :: printed ws req else printed ws req
    end
  end.

Definition text_fits (e : string * option string) : Prop := e.2 = None ∨ strlen e.1 ≤ 27.
#[export] Instance text_fits_dec e : Decision (text_fits e).
Proof. unfold text_fits. apply _. Defined.

Lemma option_text_fits name m : is_Some (option_text name m) ↔ text_fits (name, m).
Proof.
  unfold option_text, text_fits, BUFSIZE. cbn [fst snd].
  change (" --" +:+ name) with (String " " (String "-" (String "-" name))).
  replace (strlen (String " " _)) with (3 + strlen name) by (unfold strlen; simpl; lia).
  destruct m as [m|]; [|split; [by left|eauto]].
  destruct (Z.ltb_spec (3 + strlen name) 30); [split; [right; lia|eauto]|].
  destruct (Z.eqb_spec (3 + strlen name) 30); [split; [right; lia|eauto]|].
  split; [by intros [? ?]|]. intros [?|?]; [done|lia].
Qed.

(** Printing the options stays inside the 30-byte line buffer exactly when
    every printed option has no meta variable or a name of at most 27
    characters; a longer name turns the remaining size negative and the write
    leaves the buffer.  The table of [xdp_pass_user] is within the limit. *)
Theorem print_options_safe ws req :
  count_options ws ≠ None →
  is_Some (_print_options ws req) ↔ Forall text_fits (printed ws req).
Proof.
  intros Hw. induction ws as [|o ws IH]; [done|]. cbn [count_options _print_options printed] in *.
  destruct (opt_name (opt o)) as [name|]; [|split; [constructor|eauto]].
  assert (count_options ws ≠ None) as Hw' by (intros E; by rewrite E in Hw).
  specialize (IH Hw'). destruct (Bool.eqb (required o) req); cbn [negb]; [|done].
  rewrite Forall_cons, <- IH, <- option_text_fits.
  destruct (option_text name (metavar o)), (_print_options ws req); cbn;
    split; try (intros [? [=]]); try (intros [[? [=]] [? [=]]]); eauto.
Qed.

Lemma usage_full argv0 doc ws :
  count_options ws ≠ None →
  is_Some (usage argv0 doc ws true) ↔ Forall text_fits (printed ws true ++ printed ws false).
Proof.
  intros Hw. rewrite Forall_app, <- !print_options_safe by done. unfold usage. cbn [negb].
  destruct (_print_options ws true), (_print_options ws false); cbn;
    (split; [intros H|intros [H1 H2]]); eauto; try (by destruct H); by (destruct H1 || destruct H2).
Qed.

(** C8: how [parse_cmdline_args] ends.  When the array for [getopt_long] cannot be
    allocated, the process exits with [EXIT_FAIL_OPTION] and prints nothing.
    Otherwise, when every option is good, the configuration is the one the options
    ask for, field by field, and the program is quiet exactly when it was before or
    [-q] is given.  When some option is not good, the first such one ends the
    process with [EXIT_FAIL_OPTION]: after the short usage text, or, when it is
    [-h], after the full text, whose printing stays inside its 30-byte buffer exactly when no
    option of the table with a meta variable has a name of more than 27
    characters.  Options that the short-option string announces but the [switch]
    does not handle, such as [-F], are not good. *)
Theorem parse_exits_on_bad_option n2i argv0 doc ws opts cfg v :
  count_options ws ≠ None →
  let parse ok := parse_cmdline_args n2i argv0 doc ws ok opts cfg v in
  parse false = Some (Exited EXIT_FAIL_OPTION EmptyString) ∧
  (Forall (good_opt n2i) opts →
   ∃ cfg', parse true = Some (Configured cfg' (v && negb (given (ch "q") opts))) ∧ configured n2i opts cfg cfg') ∧
  (∀ pre o arg post, opts = pre ++ (o, arg) :: post → Forall (good_opt n2i) pre → ¬ good_opt n2i (o, arg) →
   if o =? ch "h"
   then (Forall text_fits (printed ws true ++ printed ws false) →
         ∃ text, usage argv0 doc ws true = Some text ∧ parse true = Some (Exited EXIT_FAIL_OPTION text)) ∧
        (¬ Forall text_fits (printed ws true ++ printed ws false) → parse true = None)
   else parse true = Some (Exited EXIT_FAIL_OPTION
     (("Usage: " +:+ argv0 +:+ " [options]" +:+ newline) +:+ "Use --help (or -h) to see full option list." +:+ newline))) ∧
  ¬ good_opt n2i (ch "F", EmptyString).
Proof.
  intros Hw. pose proof (usage_full argv0 doc ws Hw) as Hu. unfold parse_cmdline_args, option_wrappers_to_options.
  destruct (count_options ws) as [num|] eqn:E; [|done]. cbn [mbind option_bind negb Z.eqb].
  split_and!; [done| | |by apply (bool_decide_unpack _)].
  - intros Hg. destruct (parse_loop_app n2i argv0 doc ws opts [] cfg cfg v [] (configured_nil n2i cfg) Hg) as (cfg' & Hc & E').
    exists cfg'. rewrite app_nil_r in E'. by rewrite E'.
  - intros pre o arg post -> Hg Hb.
    destruct (parse_loop_app n2i argv0 doc ws pre ((o, arg) :: post) cfg cfg v [] (configured_nil n2i cfg) Hg) as (cfg' & _ & E').
    rewrite E'. cbn [parse_loop]. rewrite parse_opt_bad by done. destruct (o =? ch "h"); [|done]. rewrite <- Hu. split.
    + intros [text ->]. by exists text.
    + intros Hn. destruct (usage argv0 doc ws true); [|done]. by destruct Hn.
Qed.

(** ** Concrete runs: the initial configuration of [xdp_pass_user]. *)
Definition zeros (n : nat) : list ascii := replicate n NUL.
Definition pass_config : config :=
  mk_config XDP_MODE_UNSPEC 0 (-1) NullPtr (zeros 16) 0 NullPtr (zeros 16) false 0 false
    (zeros 512) (zeros 512) (zeros 32) (zeros 18) (zeros 18) 0 0 false false.

Lemma pass_config_ok n2i : config_ok n2i pass_config.
Proof. split_and!; try done. by intros [? ?]. Qed.

Definition sample_n2i (name : string) : Z := if streq name "veth0" then 7 else 0.

Definition pass_doc : string := "Simple XDP prog doing XDP_PASS" +:+ newline.

(** An unknown device after a known one ends the program; with the known one alone
    it is configured. *)
Lemma parse_exits_on_bad_option_witness :
  let parse opts := parse_cmdline_args sample_n2i "xdp_pass_user" pass_doc pass_long_options true opts pass_config true in
  parse [(ch "d", "veth0"); (ch "d", "veth1")]%string =
    Some (Exited EXIT_FAIL_OPTION ("Usage: xdp_pass_user [options]" +:+ newline +:+ "Use --help (or -h) to see full option list." +:+ newline)) ∧
  (∃ text, usage "xdp_pass_user" pass_doc pass_long_options true = Some text ∧ parse [(ch "h", EmptyString)] = Some (Exited EXIT_FAIL_OPTION text)) ∧
  ∃ cfg', parse [(ch "d", "veth0")]%string = Some (Configured cfg' true) ∧ configured sample_n2i [(ch "d", "veth0")]%string pass_config cfg'.
Proof.
  split_and!.
  - destruct (parse_exits_on_bad_option sample_n2i "xdp_pass_user" pass_doc pass_long_options [(ch "d", "veth0"); (ch "d", "veth1")]%string
      pass_config true) as (_ & _ & H & _); [discriminate|].
    refine (H [(ch "d", "veth0")]%string (ch "d") "veth1"%string [] eq_refl _ _); [constructor; [|constructor]|]; apply (bool_decide_unpack _); vm_compute; exact I.
  - destruct (parse_exits_on_bad_option sample_n2i "xdp_pass_user" pass_doc pass_long_options [(ch "h", EmptyString)]
      pass_config true) as (_ & _ & H & _); [discriminate|].
    destruct (H [] (ch "h") EmptyString [] eq_refl) as [Hf _]; [constructor|apply (bool_decide_unpack _); vm_compute; exact I|].
    apply Hf, (bool_decide_unpack _). vm_compute. exact I.
  - destruct (parse_exits_on_bad_option sample_n2i "xdp_pass_user" pass_doc pass_long_options [(ch "d", "veth0")]%string
      pass_config true) as (_ & H & _ & _); [discriminate|].
    apply H. constructor; [|constructor]. apply (bool_decide_unpack _); vm_compute; exact I.
Defined.

Lemma parse_keeps_config_ok_witness :
  config_ok sample_n2i
    (set_unload 42 (set_bind_flags 2 (set_attach_mode XDP_MODE_SKB
       (set_dev 7 (strncpy 16 "veth0") pass_config)))).
Proof.
  apply (parse_keeps_config_ok sample_n2i "xdp_pass_user" pass_doc pass_long_options
           [(ch "d", "veth0"%string); (ch "S", EmptyString); (ch "U", "42"%string)] pass_config true _ true).
  - repeat constructor; by apply (bool_decide_unpack _).
  - apply pass_config_ok.
  - vm_compute. reflexivity.
Defined.

Lemma names_stored_iff_short_witness :
  ∃ cfg1,
    parse_loop sample_n2i "xdp_pass_user" pass_doc pass_long_options [(2, "xdp_prog_simple"%string)] pass_config true = Some (Configured cfg1 true) ∧
    buf_str (progname cfg1) = Some "xdp_prog_simple"%string.
Proof.
  destruct (names_stored_iff_short sample_n2i "xdp_pass_user" pass_doc pass_long_options "xdp_prog_simple" pass_config true)
    as (cfg1 & cfg2 & H1 & H2 & H3 & _); [by apply (bool_decide_unpack _)|].
  exists cfg1. split; [exact H1|]. apply H3. vm_compute. reflexivity.
Defined.

Lemma getopt_array_unterminated_witness :
  Forall (λ o, opt_name o ≠ None) (opt <$> take 7 pass_long_options).
Proof.
  apply (getopt_array_unterminated pass_long_options 0 (opt <$> take 7 pass_long_options) eq_refl).
Defined.

Lemma print_options_safe_witness :
  is_Some (_print_options pass_long_options false) ↔
  Forall text_fits [("help", None); ("skb-mode", None); ("native-mode", None); ("auto-mode", None);
                    ("unload", Some "<id>"); ("unload-all", None)]%string.
Proof. apply (print_options_safe pass_long_options false). discriminate. Defined.
