(* ===== verification/Errno.v ===== *)
(** * Error numbers and error pointers

    The error numbers the user-space code returns, and the pointer encoding of
    [linux/err.h]: a pointer is null, an encoded negative error number, or
    points to an object. *)

From S2P Require Import Prelude.

Definition EPERM : Z := 1.
Definition ENOENT : Z := 2.
Definition E2BIG : Z := 7.
Definition EAGAIN : Z := 11.
Definition ENOMEM : Z := 12.
Definition EBUSY : Z := 16.
Definition EEXIST : Z := 17.
Definition EINVAL : Z := 22.
Definition ENOSPC : Z := 28.
Definition ENAMETOOLONG : Z := 36.
Definition EOPNOTSUPP : Z := 95.

Inductive ptr (A : Type) := Null | ErrPtr (e : Z) | Ptr (a : A).
Arguments Null {A}.
Arguments ErrPtr {A}.
Arguments Ptr {A}.

Definition IS_ERR {A} (p : ptr A) : bool := match p with ErrPtr _ => true | _ => false end.
Definition IS_ERR_OR_NULL {A} (p : ptr A) : bool := match p with Ptr _ => false | _ => true end.
