(* ===== verification/Heap.v ===== *)
(** * Memory that C code allocates

    How many blocks were asked for, how many are held, and [errno].  Whether a
    request succeeds is an argument, which may depend on how many there were
    before.  Giving back a block when none is held is a fault. *)

From S2P Require Import Prelude.

Record heap := mk_heap { asked : nat; live : Z; l_errno : Z }.

Section memory.
Context (malloc_ok : nat → bool).

Definition malloc : prog heap bool := λ h,
  let ok := malloc_ok (asked h) in Some (ok, mk_heap (S (asked h)) (if ok then live h + 1 else live h) (l_errno h)).
Definition free {A} (p : option A) : prog heap () := λ h,
  match p with
  | None => Some ((), h)
  | Some _ => if live h <=? 0 then None else Some ((), mk_heap (asked h) (live h - 1) (l_errno h))
  end.
Definition fail {A} (e : Z) : prog heap (option A) := λ h, Some (None, mk_heap (asked h) (live h) e).

Lemma wp_malloc h (Q : bool → heap → Prop) : (∀ h', live h' = live h → Q false h') → (∀ h', live h' = live h + 1 → Q true h') → wp malloc h Q.
Proof. intros H1 H2. unfold wp, malloc. destruct (malloc_ok (asked h)); [by apply H2|by apply H1]. Qed.
(** The same, with the reason of a failure. *)
Lemma wp_malloc_no h (Q : bool → heap → Prop) : (∀ h', live h' = live h → (∃ n, malloc_ok n = false) → Q false h') →
  (∀ h', live h' = live h + 1 → Q true h') → wp malloc h Q.
Proof. intros H1 H2. unfold wp, malloc. destruct (malloc_ok (asked h)) eqn:E; [by apply H2|apply H1; eauto]. Qed.
End memory.

Definition one {A} (p : option A) : Z := match p with Some _ => 1 | None => 0 end.
Lemma one_range {A} (p : option A) : 0 ≤ one p ≤ 1.
Proof. destruct p; cbn; lia. Qed.
Lemma wp_free {A} (p : option A) h (Q : () → heap → Prop) : 0 < live h → (∀ h', live h' = live h - one p → Q () h') → wp (free p) h Q.
Proof. intros Hl Hq. unfold wp, free. destruct p; [rewrite (proj2 (Z.leb_gt _ _)) by lia; by apply Hq|apply Hq; cbn; lia]. Qed.
