(* ===== verification/Zip.v ===== *)
(** * libbpf: zip archives

    [zip.c]: finding the central directory of an archive that is mapped into
    memory, and an entry by its name.  The archive is a list of bytes in which
    every read is checked; offsets are 32-bit numbers. *)

From S2P Require Import Prelude Errno Bytes.
Local Open Scope Z_scope.

Definition END_OF_CD_RECORD_MAGIC : Z := 0x06054b50.
Definition CD_FILE_HEADER_MAGIC : Z := 0x02014b50.
Definition LOCAL_FILE_HEADER_MAGIC : Z := 0x04034b50.
Definition FLAG_ENCRYPTED : Z := 1.
Definition FLAG_HAS_DATA_DESCRIPTOR : Z := 8.
Definition ENOTSUP : Z := 95.
Definition UINT32_MAX : Z := 2 ^ 32 - 1.

(** ** Layouts *)

Module end_of_cd_record.
Definition sizeof : Z := 22.
Definition magic (p : Z) : Z := p.
Definition this_disk (p : Z) : Z := p + 4.
Definition cd_disk (p : Z) : Z := p + 6.
Definition cd_records (p : Z) : Z := p + 8.
Definition cd_records_total (p : Z) : Z := p + 10.
Definition cd_size (p : Z) : Z := p + 12.
Definition cd_offset (p : Z) : Z := p + 16.
Definition comment_length (p : Z) : Z := p + 20.
End end_of_cd_record.

Module cd_file_header.
Definition sizeof : Z := 46.
Definition magic (p : Z) : Z := p.
Definition flags (p : Z) : Z := p + 8.
Definition file_name_length (p : Z) : Z := p + 28.
Definition extra_field_length (p : Z) : Z := p + 30.
Definition file_comment_length (p : Z) : Z := p + 32.
Definition offset (p : Z) : Z := p + 42.
End cd_file_header.

Module local_file_header.
Definition sizeof : Z := 30.
Definition magic (p : Z) : Z := p.
Definition flags (p : Z) : Z := p + 6.
Definition compression (p : Z) : Z := p + 8.
Definition compressed_size (p : Z) : Z := p + 18.
Definition file_name_length (p : Z) : Z := p + 26.
Definition extra_field_length (p : Z) : Z := p + 28.
End local_file_header.

(** ** The functions *)

Record zip_archive := mk_archive { data : list Z; size : Z; cd_offset : Z; cd_records : Z }.
Record zip_entry := mk_entry {
  compression : Z; name : Z; name_length : Z; e_data : Z; data_length : Z; data_offset : Z }.

Definition check_access (a : zip_archive) (offset sz : Z) : option Z :=
  if (size a <? u32 (offset + sz)) || (u32 (offset + sz) <? offset) then None else Some offset.

Definition try_parse_end_of_cd (a : zip_archive) (offset : Z) : option (Z * zip_archive) :=
  match check_access a offset end_of_cd_record.sizeof with
  | None => Some (- EINVAL, a)
  | Some eocd =>
    magic ← load 4 (end_of_cd_record.magic eocd) (data a);
    if negb (magic =? END_OF_CD_RECORD_MAGIC) then Some (- EINVAL, a)
    else
      comment_length ← load 2 (end_of_cd_record.comment_length eocd) (data a);
      if negb (u64 (offset + end_of_cd_record.sizeof + comment_length) =? size a) then Some (- EINVAL, a)
      else
        recs ← load 2 (end_of_cd_record.cd_records eocd) (data a);
        this_disk ← load 2 (end_of_cd_record.this_disk eocd) (data a);
        cd_disk ← load 2 (end_of_cd_record.cd_disk eocd) (data a);
        total ← load 2 (end_of_cd_record.cd_records_total eocd) (data a);
        if negb (this_disk =? 0) || negb (cd_disk =? 0) || negb (total =? recs) then Some (- ENOTSUP, a)
        else
          off ← load 4 (end_of_cd_record.cd_offset eocd) (data a);
          cd_size ← load 4 (end_of_cd_record.cd_size eocd) (data a);
          match check_access a off cd_size with
          | None => Some (- EINVAL, a)
          | Some _ => Some (0, mk_archive (data a) (size a) off recs)
          end
  end.

(** The loop of [find_cd]; it looks at 2^16 offsets at most. *)
Fixpoint find_cd_loop (fuel : nat) (a : zip_archive) (offset limit rc : Z) : option (Z * zip_archive) :=
  if (0 <=? offset) && (limit <? offset) && negb (rc =? 0) then
    match fuel with
    | O => None
    | S fuel =>
      '(rc, a) ← try_parse_end_of_cd a (u32 offset);
      if rc =? - ENOTSUP then Some (rc, a) else find_cd_loop fuel a (offset - 1) limit rc
    end
  else Some (rc, a).
Definition find_cd (a : zip_archive) : option (Z * zip_archive) :=
  if size a <=? end_of_cd_record.sizeof then Some (- EINVAL, a)
  else
    let offset := size a - end_of_cd_record.sizeof in
    find_cd_loop (Z.to_nat (2 ^ 16)) a offset (offset - 2 ^ 16) (- EINVAL).

Definition local_file_header_at_offset (a : zip_archive) (offset : Z) : option (option Z) :=
  match check_access a offset local_file_header.sizeof with
  | None => Some None
  | Some lfh =>
    magic ← load 4 (local_file_header.magic lfh) (data a);
    Some (if negb (magic =? LOCAL_FILE_HEADER_MAGIC) then None else Some lfh)
  end.

Definition flag (flags bit : Z) : bool := negb (Z.land flags bit =? 0).

Definition get_entry_at_offset (a : zip_archive) (offset : Z) : option (Z + zip_entry) :=
  h ← local_file_header_at_offset a offset;
  match h with
  | None => Some (inl (- EINVAL))
  | Some lfh =>
    let offset := u32 (offset + local_file_header.sizeof) in
    flags ← load 2 (local_file_header.flags lfh) (data a);
    if flag flags FLAG_ENCRYPTED || flag flags FLAG_HAS_DATA_DESCRIPTOR then Some (inl (- EINVAL))
    else
      nlen ← load 2 (local_file_header.file_name_length lfh) (data a);
      match check_access a offset nlen with
      | None => Some (inl (- EINVAL))
      | Some nm =>
        let offset := u32 (offset + nlen) in
        elen ← load 2 (local_file_header.extra_field_length lfh) (data a);
        match check_access a offset elen with
        | None => Some (inl (- EINVAL))
        | Some _ =>
          let offset := u32 (offset + elen) in
          compressed_size ← load 4 (local_file_header.compressed_size lfh) (data a);
          match check_access a offset compressed_size with
          | None => Some (inl (- EINVAL))
          | Some dat =>
            comp ← load 2 (local_file_header.compression lfh) (data a);
            Some (inr (mk_entry comp nm nlen dat compressed_size offset))
          end
        end
      end
  end.

(** The loop of [zip_archive_find_entry] over [n] further records. *)
Fixpoint find_entry_loop (n : nat) (a : zip_archive) (file_name : list Z) (offset : Z) : option (Z + zip_entry) :=
  match n with
  | O => Some (inl (- ENOENT))
  | S n =>
    match check_access a offset cd_file_header.sizeof with
    | None => Some (inl (- EINVAL))
    | Some cdfh =>
      magic ← load 4 (cd_file_header.magic cdfh) (data a);
      if negb (magic =? CD_FILE_HEADER_MAGIC) then Some (inl (- EINVAL))
      else
        let offset := u32 (offset + cd_file_header.sizeof) in
        nlen ← load 2 (cd_file_header.file_name_length cdfh) (data a);
        match check_access a offset nlen with
        | None => Some (inl (- EINVAL))
        | Some _ =>
          flags ← load 2 (cd_file_header.flags cdfh) (data a);
          same ← (if negb (flag flags FLAG_ENCRYPTED) && negb (flag flags FLAG_HAS_DATA_DESCRIPTOR) && (length file_name =? nlen)
                  then s ← range offset (length file_name) (data a); Some (bool_decide (s = file_name)) else Some false);
          if same : bool then loc ← load 4 (cd_file_header.offset cdfh) (data a); get_entry_at_offset a loc
          else
            elen ← load 2 (cd_file_header.extra_field_length cdfh) (data a);
            clen ← load 2 (cd_file_header.file_comment_length cdfh) (data a);
            find_entry_loop n a file_name (u32 (u32 (u32 (offset + nlen) + elen) + clen))
        end
    end
  end.
Definition zip_archive_find_entry (a : zip_archive) (file_name : list Z) : option (Z + zip_entry) :=
  find_entry_loop (Z.to_nat (cd_records a)) a file_name (cd_offset a).

(** ** Opening and closing *)

(** What the process holds: open descriptors, mappings and blocks. *)
Record zip_held := mk_held { h_fds : Z; h_maps : Z; h_blocks : Z }.
Definition hold_more (f m b : Z) : prog zip_held () := λ h,
  let h' := mk_held (h_fds h + f) (h_maps h + m) (h_blocks h + b) in
  if (0 <=? h_fds h') && (0 <=? h_maps h') && (0 <=? h_blocks h') then Some ((), h') else None.

(** The answers of [open], [lseek], [mmap] and [malloc]: an error number, or the
    size, the bytes, and whether there is memory. *)
Definition zip_archive_open (opened : option Z) (sz : option Z) (mapped : Z + list Z) (malloc : bool) : prog zip_held (Z + zip_archive) :=
  match opened with
  | Some e => pret (inl (- e))
  | None =>
    hold_more 1 0 0 ;;;
    match sz with
    | None => hold_more (-1) 0 0 ;;; pret (inl (- EINVAL))
    | Some sz =>
      if UINT32_MAX <? sz then hold_more (-1) 0 0 ;;; pret (inl (- EINVAL))
      else
        match mapped with
        | inl e => hold_more (-1) 0 0 ;;; pret (inl (- e))
        | inr bytes =>
          hold_more 0 1 0 ;;; hold_more (-1) 0 0 ;;;
          if negb malloc then hold_more 0 (-1) 0 ;;; pret (inl (- ENOMEM))
          else
            hold_more 0 0 1 ;;;
            let! r := (λ h, r ← find_cd (mk_archive bytes (u32 sz) 0 0); Some (r, h)) in
            let (err, a) := r : Z * zip_archive in
            if negb (err =? 0) then hold_more 0 (-1) 0 ;;; hold_more 0 0 (-1) ;;; pret (inl err)
            else pret (inr a)
        end
    end
  end.
Definition zip_archive_close (a : zip_archive) : prog zip_held () := hold_more 0 (-1) 0 ;;; hold_more 0 0 (-1).

(** ** Every read is inside the archive *)

Definition archive_ok (a : zip_archive) : Prop := bytes_ok (data a) ∧ size a = length (data a) ∧ size a < 2 ^ 32.
Definition in_archive (a : zip_archive) (o n : Z) : Prop := 0 ≤ o ∧ 0 ≤ n ∧ o + n ≤ size a.

Lemma check_access_eq a offset sz : 0 ≤ offset < 2 ^ 32 → 0 ≤ sz < 2 ^ 32 → 0 ≤ size a < 2 ^ 32 →
  check_access a offset sz = if offset + sz <=? size a then Some offset else None.
Proof.
  intros Ho Hs Ha. unfold check_access. destruct (Z.lt_ge_cases (offset + sz) (2 ^ 32)) as [Hl|Hl].
  - rewrite wrap_small by (unfold is_word; lia). rewrite (proj2 (Z.ltb_ge (offset + sz) offset)), orb_false_r by lia.
    destruct (Z.ltb_spec (size a) (offset + sz)), (Z.leb_spec (offset + sz) (size a)); try done; lia.
  - assert (u32 (offset + sz) = offset + sz - 2 ^ 32) as E.
    { unfold wrap. symmetry. apply (Z.mod_unique_pos _ _ 1); lia. }
    rewrite E, (proj2 (Z.ltb_lt (offset + sz - 2 ^ 32) offset)), orb_true_r by lia.
    destruct (Z.leb_spec (offset + sz) (size a)); [lia|done].
Qed.

Lemma load_in a n o : archive_ok a → in_archive a o n → ∃ v, load n o (data a) = Some v ∧ 0 ≤ v < 2 ^ (8 * n).
Proof. intros (Hb & Hs & _) (? & ? & ?). apply load_word; [done|lia..]. Qed.

(** Reads one field. *)
Ltac field v Hv := match goal with
  |- _ _ (mbind _ (load ?n ?o (data ?a))) =>
    let E := fresh "E" in
    destruct (load_in a n o ltac:(done) ltac:(repeat split; cbv [end_of_cd_record.magic end_of_cd_record.this_disk end_of_cd_record.cd_disk
      end_of_cd_record.cd_records end_of_cd_record.cd_records_total end_of_cd_record.cd_size end_of_cd_record.cd_offset end_of_cd_record.comment_length
      cd_file_header.magic cd_file_header.flags cd_file_header.file_name_length cd_file_header.extra_field_length cd_file_header.file_comment_length
      cd_file_header.offset local_file_header.magic local_file_header.flags local_file_header.compression local_file_header.compressed_size
      local_file_header.file_name_length local_file_header.extra_field_length] in *; lia)) as (v & E & Hv); rewrite E; clear E; cbn [mbind option_bind]
  end.
(** Tests whether a part is in the archive. *)
Ltac access H := match goal with
  |- context [check_access ?a ?o ?n] => rewrite (check_access_eq a o n) by lia; destruct (Z.leb_spec (o + n) (size a)) as [H|H]
  end.

Definition parsed (a : zip_archive) (rc : Z) (a' : zip_archive) : Prop :=
  rc = 0 ∧ data a' = data a ∧ size a' = size a ∧ 0 ≤ cd_offset a' < 2 ^ 32 ∧ 0 ≤ cd_records a' < 2 ^ 16 ∨ (rc = - EINVAL ∨ rc = - ENOTSUP) ∧ a' = a.

Definition parse_ok (a : zip_archive) (o : option (Z * zip_archive)) : Prop := ∃ rc a', o = Some (rc, a') ∧ parsed a rc a'.

Lemma try_parse_ok a offset : archive_ok a → 0 ≤ offset < 2 ^ 32 → parse_ok a (try_parse_end_of_cd a offset).
Proof.
  intros Ha Ho. pose proof Ha as (Hb & Hs & Hl). unfold try_parse_end_of_cd. unfold end_of_cd_record.sizeof in *.
  assert (∀ e, e = - EINVAL ∨ e = - ENOTSUP → parse_ok a (Some (e, a))) as Herr by (intros e He; eexists _, _; split; [done|]; by right).
  access Hx; [|auto]. field m Hm. destruct (negb _); [auto|]. field c Hc. destruct (negb _); [auto|].
  field r Hr. field t Ht. field cd Hcd. field tot Htot. destruct (_ || _ || _); [auto|]. field off Hoff. field csz Hcsz.
  change (2 ^ (8 * 4)) with (2 ^ 32) in *. change (2 ^ (8 * 2)) with (2 ^ 16) in *.
  access Hy; [|auto]. eexists _, _. split; [done|]. left. cbn. done.
Qed.

Lemma find_cd_loop_ok fuel : ∀ a offset limit rc, archive_ok a → offset < 2 ^ 32 → offset - limit ≤ Z.of_nat fuel →
  (rc = - EINVAL ∨ rc = - ENOTSUP) → ∃ rc' a', find_cd_loop fuel a offset limit rc = Some (rc', a') ∧ parsed a rc' a'.
Proof.
  induction fuel as [|fuel IH]; intros a offset limit rc Ha Ho Hf Hrc; cbn [find_cd_loop].
  all: destruct (Z.leb_spec 0 offset) as [Hp|Hp]; cbn [andb]; [|eexists _, _; split; [done|]; right; auto].
  all: destruct (Z.ltb_spec limit offset) as [Hlim|Hlim]; cbn [andb]; [|eexists _, _; split; [done|]; right; auto].
  { lia. }
  destruct (negb (rc =? 0)) eqn:Er; [|destruct Hrc as [-> | ->]; done]. rewrite wrap_small by (unfold is_word; lia).
  destruct (try_parse_ok a offset Ha ltac:(lia)) as (rc' & a' & E & Hp'). rewrite E. cbn [mbind option_bind].
  destruct (Z.eqb_spec rc' (- ENOTSUP)) as [->|Hne]; [eauto|]. destruct Hp' as [Hp'|[Hr ->]].
  - destruct Hp' as (-> & Hp'). destruct fuel; cbn [find_cd_loop]; rewrite andb_false_r; eexists _, _; (split; [done|]); by left.
  - apply IH; [done|lia..|done].
Qed.

Lemma find_cd_ok a : archive_ok a → ∃ rc a', find_cd a = Some (rc, a') ∧ parsed a rc a'.
Proof.
  intros Ha. pose proof Ha as (_ & _ & Hl). unfold find_cd. unfold end_of_cd_record.sizeof. destruct (Z.leb_spec (size a) 22) as [H|H].
  - eexists _, _. split; [done|]. right. auto.
  - apply find_cd_loop_ok; [done|lia| |by left]. rewrite Z2Nat.id; lia.
Qed.

(** An entry that was found lies in the archive. *)
Definition entry_ok (a : zip_archive) (e : zip_entry) : Prop :=
  in_archive a (name e) (name_length e) ∧ in_archive a (e_data e) (data_length e) ∧ data_offset e = e_data e.
Definition found_ok (a : zip_archive) (o : option (Z + zip_entry)) : Prop :=
  ∃ r, o = Some r ∧ match r with inl err => err = - EINVAL ∨ err = - ENOENT | inr e => entry_ok a e end.

Lemma local_header_ok a offset : archive_ok a → 0 ≤ offset < 2 ^ 32 →
  local_file_header_at_offset a offset = Some None ∨ local_file_header_at_offset a offset = Some (Some offset) ∧ offset + 30 ≤ size a.
Proof.
  intros Ha Ho. pose proof Ha as (Hb & Hs & Hl). unfold local_file_header_at_offset. unfold local_file_header.sizeof. access H1; [|by left].
  destruct (load_in a 4 offset) as (m & E & _); [done|repeat split; lia|]. unfold local_file_header.magic. rewrite E. cbn. destruct (negb _); auto.
Qed.

Lemma get_entry_ok a offset : archive_ok a → 0 ≤ offset < 2 ^ 32 → found_ok a (get_entry_at_offset a offset).
Proof.
  intros Ha Ho. pose proof Ha as (Hb & Hs & Hl). assert (∀ e, e = - EINVAL ∨ e = - ENOENT → found_ok a (Some (inl e))) as Herr by (intros; eexists; eauto).
  unfold get_entry_at_offset. destruct (local_header_ok a offset Ha Ho) as [E|[E H1]]; rewrite E; cbn [mbind option_bind]; [by apply Herr; left|].
  unfold local_file_header.sizeof. rewrite (wrap_small 32) by (unfold is_word; lia).
  field fl Hfl. destruct (_ || _); [by apply Herr; left|]. field nl Hnl. change (2 ^ (8 * 2)) with (2 ^ 16) in *.
  access H2; [|by apply Herr; left]. rewrite (wrap_small 32) by (unfold is_word; lia). field el Hel. change (2 ^ (8 * 2)) with (2 ^ 16) in *.
  access H3; [|by apply Herr; left]. rewrite (wrap_small 32) by (unfold is_word; lia). field cs Hcs. change (2 ^ (8 * 4)) with (2 ^ 32) in *.
  access H4; [|by apply Herr; left]. field co Hco. eexists. split; [done|]. repeat split; cbn; lia.
Qed.

Lemma find_entry_loop_ok n : ∀ a nm offset, archive_ok a → 0 ≤ offset < 2 ^ 32 → found_ok a (find_entry_loop n a nm offset).
Proof.
  induction n as [|n IH]; intros a nm offset Ha Ho; cbn [find_entry_loop]; [eexists; split; [done|]; by right|].
  pose proof Ha as (Hb & Hs & Hl). assert (∀ e, e = - EINVAL ∨ e = - ENOENT → found_ok a (Some (inl e))) as Herr by (intros; eexists; eauto).
  unfold cd_file_header.sizeof. access H1; [|by apply Herr; left]. field m Hm. destruct (negb _); [by apply Herr; left|].
  rewrite (wrap_small 32 (offset + 46)) by (unfold is_word; lia). field nl Hnl. change (2 ^ (8 * 2)) with (2 ^ 16) in *.
  access H2; [|by apply Herr; left]. field fl Hfl.
  match goal with |- _ _ (mbind _ ?x) => assert (∃ b : bool, x = Some b) as [b E]; [|rewrite E; clear E] end.
  { destruct (_ && _) eqn:E; [|eauto]. apply andb_true_iff in E as [_ E]. apply Z.eqb_eq in E. rewrite range_Some by lia. cbn. eauto. }
  cbn [mbind option_bind]. destruct b.
  - field loc Hloc. by apply get_entry_ok.
  - field el Hel. field cl Hcl. apply IH; [done|]. apply wrap_range. lia.
Qed.

Lemma wp_hold f m b h (Q : () → zip_held → Prop) : 0 ≤ h_fds h + f → 0 ≤ h_maps h + m → 0 ≤ h_blocks h + b →
  Q () (mk_held (h_fds h + f) (h_maps h + m) (h_blocks h + b)) → wp (hold_more f m b) h Q.
Proof.
  intros. unfold wp, hold_more. cbn [h_fds h_maps h_blocks]. rewrite (proj2 (Z.leb_le 0 _)), (proj2 (Z.leb_le 0 _)), (proj2 (Z.leb_le 0 _)) by lia. done.
Qed.
Lemma held_eq h f m b : f = h_fds h → m = h_maps h → b = h_blocks h → mk_held f m b = h.
Proof. intros -> -> ->. by destruct h. Qed.
Definition held_ok (h : zip_held) : Prop := 0 ≤ h_fds h ∧ 0 ≤ h_maps h ∧ 0 ≤ h_blocks h.

(** C38: whatever bytes a file holds, opening it as an archive and looking for a name
    reads nothing outside the archive and ends; an entry that is returned, its name
    and its data, lies in the archive.  A failed attempt gives back the descriptor,
    the mapping and the block; closing the archive gives back the mapping and the
    block. *)
Theorem zip_safe opened sz mapped malloc h nm : held_ok h → (∀ b, mapped = inr b → bytes_ok b ∧ sz = Some (Z.of_nat (length b))) →
  wp (zip_archive_open opened sz mapped malloc) h (λ r h',
    match r with
    | inl _ => h' = h
    | inr a => h' = mk_held (h_fds h) (h_maps h + 1) (h_blocks h + 1) ∧ found_ok a (zip_archive_find_entry a nm) ∧
        wp (zip_archive_close a) h' (λ _ h'', h'' = h)
    end).
Proof.
  intros (H1 & H2 & H3) Hm. unfold zip_archive_open. destruct opened as [e|]; [by apply wp_ret|]. apply wp_bind, wp_hold; [lia..|].
  assert (∀ e : Z, wp (hold_more (-1) 0 0 ;;; pret (inl e : Z + zip_archive)) (mk_held (h_fds h + 1) (h_maps h + 0) (h_blocks h + 0))
    (λ r h', match r with inl _ => h' = h | inr a => h' = mk_held (h_fds h) (h_maps h + 1) (h_blocks h + 1) ∧ found_ok a (zip_archive_find_entry a nm) ∧
        wp (zip_archive_close a) h' (λ _ h'', h'' = h) end)) as Hclose.
  { intros e. apply wp_bind, wp_hold; cbn; [lia..|]. apply wp_ret, held_eq; lia. }
  destruct sz as [sz|]; [|apply Hclose]. destruct (Z.ltb_spec UINT32_MAX sz) as [Hs|Hs]; [apply Hclose|]. unfold UINT32_MAX in Hs.
  destruct mapped as [e|b]; [apply Hclose|]. destruct (Hm b eq_refl) as [Hb [= ->]].
  apply wp_bind, wp_hold; cbn; [lia..|]. apply wp_bind, wp_hold; cbn; [lia..|]. destruct malloc; cbn [negb].
  2: { apply wp_bind, wp_hold; cbn; [lia..|]. apply wp_ret, held_eq; lia. }
  apply wp_bind, wp_hold; cbn [h_fds h_maps h_blocks]; [lia..|]. apply wp_bind. rewrite wrap_small by (unfold is_word; lia).
  assert (archive_ok (mk_archive b (length b) 0 0)) as Ha by (split; [done|]; split; [done|]; cbn; lia).
  destruct (find_cd_ok _ Ha) as (rc & a & E & Hp). unfold wp at 1. rewrite E. cbn [mbind option_bind].
  destruct Hp as [(-> & Ed & Es & Ho & Hr)|[Hrc ->]].
  - cbn [Z.eqb negb]. apply wp_ret. split; [f_equal; lia|]. split.
    + apply find_entry_loop_ok; [|done]. unfold archive_ok. rewrite Ed, Es. exact Ha.
    + unfold zip_archive_close. apply wp_bind, wp_hold; cbn; [lia..|]. apply wp_hold; cbn; [lia..|]. apply held_eq; lia.
  - rewrite (proj2 (Z.eqb_neq rc 0)) by (destruct Hrc as [-> | ->]; done). cbn [negb].
    apply wp_bind, wp_hold; cbn; [lia..|]. apply wp_bind, wp_hold; cbn; [lia..|]. apply wp_ret, held_eq; lia.
Qed.

(** ** Reading back an archive *)

(** A member of an archive, and the archive of some members without a comment of
    its own. *)
Record member := mk_member {
  m_name : list Z; m_data : list Z; m_flags : Z; m_compression : Z; m_extra : list Z; m_cd_extra : list Z; m_comment : list Z }.
Definition lfh_fields (m : member) : list (nat * Z) :=
  [(4%nat, LOCAL_FILE_HEADER_MAGIC); (2%nat, 20); (2%nat, m_flags m); (2%nat, m_compression m); (2%nat, 0); (2%nat, 0); (4%nat, 0);
   (4%nat, Z.of_nat (length (m_data m))); (4%nat, Z.of_nat (length (m_data m))); (2%nat, Z.of_nat (length (m_name m)));
   (2%nat, Z.of_nat (length (m_extra m)))].
Definition local_part (m : member) : list Z := enc (lfh_fields m) ++ m_name m ++ m_extra m ++ m_data m.
Definition cd_fields (m : member) (off : Z) : list (nat * Z) :=
  [(4%nat, CD_FILE_HEADER_MAGIC); (2%nat, 20); (2%nat, 20); (2%nat, m_flags m); (2%nat, m_compression m); (2%nat, 0); (2%nat, 0); (4%nat, 0);
   (4%nat, Z.of_nat (length (m_data m))); (4%nat, Z.of_nat (length (m_data m))); (2%nat, Z.of_nat (length (m_name m)));
   (2%nat, Z.of_nat (length (m_cd_extra m))); (2%nat, Z.of_nat (length (m_comment m))); (2%nat, 0); (2%nat, 0); (4%nat, 0); (4%nat, off)].
Definition cd_part (m : member) (off : Z) : list Z := enc (cd_fields m off) ++ m_name m ++ m_cd_extra m ++ m_comment m.

Definition locals (ms : list member) : list Z := concat (local_part <$> ms).
Fixpoint directory (off : Z) (ms : list member) : list Z :=
  match ms with [] => [] | m :: ms => cd_part m off ++ directory (off + length (local_part m)) ms end.
Definition end_fields (ms : list member) : list (nat * Z) :=
  [(4%nat, END_OF_CD_RECORD_MAGIC); (2%nat, 0); (2%nat, 0); (2%nat, Z.of_nat (length ms)); (2%nat, Z.of_nat (length ms));
   (4%nat, Z.of_nat (length (directory 0 ms))); (4%nat, Z.of_nat (length (locals ms))); (2%nat, 0)].
Definition build (ms : list member) : list Z := locals ms ++ directory 0 ms ++ enc (end_fields ms).

Definition member_ok (m : member) : Prop :=
  is_word 16 (m_flags m) ∧ is_word 16 (m_compression m) ∧ Z.of_nat (length (m_name m)) < 2 ^ 16 ∧ Z.of_nat (length (m_extra m)) < 2 ^ 16 ∧
  Z.of_nat (length (m_cd_extra m)) < 2 ^ 16 ∧ Z.of_nat (length (m_comment m)) < 2 ^ 16.
Definition wanted (nm : list Z) (m : member) : bool :=
  negb (flag (m_flags m) FLAG_ENCRYPTED) && negb (flag (m_flags m) FLAG_HAS_DATA_DESCRIPTOR) && bool_decide (m_name m = nm).

Section roundtrip.
Context (d : list Z) (cdo n : Z).
Context (Hd : Z.of_nat (length d) < 2 ^ 32).
Abbreviation a := (mk_archive d (length d) cdo n).

Lemma access_has o l : has o l d → check_access a o (length l) = Some o.
Proof. intros Hh. apply has_bound in Hh. rewrite check_access_eq by (cbn; lia). cbn. by rewrite (proj2 (Z.leb_le _ _)) by lia. Qed.
Lemma access_at o l z : has o l d → z = Z.of_nat (length l) → check_access a o z = Some o.
Proof. intros Hh ->. by apply access_has. Qed.

(** The fields of a header, all within their widths, by index and offset. *)
Lemma entry_at m o : member_ok m → Z.of_nat (length (m_data m)) < 2 ^ 32 → wanted (m_name m) m = true → has o (local_part m) d →
  ∃ e, get_entry_at_offset a o = Some (inr e) ∧ range (e_data e) (data_length e) d = Some (m_data m) ∧
    range (name e) (name_length e) d = Some (m_name m) ∧ compression e = m_compression m.
Proof.
  intros (Hfl & Hco & Hn & He & Hc & Hcm) Hdl Hw Hh. pose proof (has_bound _ _ _ Hh) as Hb. unfold local_part in Hh, Hb. rewrite !length_app in Hb.
  apply has_app in Hh as [Hh1 Hh]. apply has_app in Hh as [Hh2 Hh]. apply has_app in Hh as [Hh3 Hh4].
  assert (Z.of_nat (length (enc (lfh_fields m))) = 30) as El by (by rewrite length_enc). rewrite El in *.
  assert (Forall (λ f : nat * Z, is_word (8 * Z.of_nat f.1) f.2) (lfh_fields m)) as Hf.
  { unfold lfh_fields, is_word in *. repeat (apply Forall_cons; split; [cbn [fst snd]; first [done|cbn; lia]|]). by apply Forall_nil. }
  pose proof (fields_at _ _ _ Hh1 Hf) as F. unfold get_entry_at_offset, local_file_header_at_offset. cbn [data]. rewrite (access_at o _ _ Hh1) by (by rewrite El).
  unfold local_file_header.magic, local_file_header.flags, local_file_header.file_name_length, local_file_header.extra_field_length,
    local_file_header.compressed_size, local_file_header.compression, local_file_header.sizeof.
  replace (load 4 o d) with (Some LOCAL_FILE_HEADER_MAGIC) by (rewrite <- (F 0%nat 4%nat 4 LOCAL_FILE_HEADER_MAGIC 0 eq_refl eq_refl eq_refl); by rewrite Z.add_0_r).
  cbn [mbind option_bind]. rewrite Z.eqb_refl. cbn [negb]. rewrite (F 2%nat 2%nat 2 (m_flags m) 6 eq_refl eq_refl eq_refl). cbn [mbind option_bind].
  apply andb_true_iff in Hw as [Hw _]. apply andb_true_iff in Hw as [Hw1 Hw2]. apply negb_true_iff in Hw1, Hw2. rewrite Hw1, Hw2. cbn [orb].
  rewrite (F 9%nat 2%nat 2 (Z.of_nat (length (m_name m))) 26 eq_refl eq_refl eq_refl). cbn [mbind option_bind].
  rewrite (wrap_small 32 (o + 30)) by (unfold is_word; lia). rewrite (access_has _ _ Hh2).
  rewrite (F 10%nat 2%nat 2 (Z.of_nat (length (m_extra m))) 28 eq_refl eq_refl eq_refl). cbn [mbind option_bind].
  rewrite (wrap_small 32 (o + 30 + _)) by (unfold is_word; lia). rewrite (access_has _ _ Hh3).
  rewrite (F 7%nat 4%nat 4 (Z.of_nat (length (m_data m))) 18 eq_refl eq_refl eq_refl). cbn [mbind option_bind].
  rewrite (wrap_small 32 (o + 30 + _ + _)) by (unfold is_word; lia). rewrite (access_has _ _ Hh4).
  rewrite (F 3%nat 2%nat 2 (m_compression m) 8 eq_refl eq_refl eq_refl). cbn [mbind option_bind]. eexists. split; [done|]. cbn.
  split; [by apply has_range|]. split; [by apply has_range|done].
Qed.

Lemma step_at m off o nm k : member_ok m → Z.of_nat (length (m_data m)) < 2 ^ 32 → 0 ≤ off < 2 ^ 32 → has o (cd_part m off) d →
  find_entry_loop (S k) a nm o = if wanted nm m then get_entry_at_offset a off else find_entry_loop k a nm (o + length (cd_part m off)).
Proof.
  intros (Hfl & Hco & Hn & He & Hc & Hcm) Hdl Hoff Hh. pose proof (has_bound _ _ _ Hh) as Hb. unfold cd_part in Hh, Hb |- *. rewrite !length_app in Hb |- *.
  apply has_app in Hh as [Hh1 Hh]. apply has_app in Hh as [Hh2 _].
  assert (Z.of_nat (length (enc (cd_fields m off))) = 46) as El by (by rewrite length_enc). rewrite El in *.
  assert (Forall (λ f : nat * Z, is_word (8 * Z.of_nat f.1) f.2) (cd_fields m off)) as Hf.
  { unfold cd_fields, is_word in *. repeat (apply Forall_cons; split; [cbn [fst snd]; first [done|cbn; lia]|]). by apply Forall_nil. }
  pose proof (fields_at _ _ _ Hh1 Hf) as F. cbn [find_entry_loop data]. rewrite (access_at o _ _ Hh1) by (by rewrite El).
  unfold cd_file_header.magic, cd_file_header.flags, cd_file_header.file_name_length, cd_file_header.extra_field_length,
    cd_file_header.file_comment_length, cd_file_header.offset, cd_file_header.sizeof.
  replace (load 4 o d) with (Some CD_FILE_HEADER_MAGIC) by (rewrite <- (F 0%nat 4%nat 4 CD_FILE_HEADER_MAGIC 0 eq_refl eq_refl eq_refl); by rewrite Z.add_0_r).
  cbn [mbind option_bind]. rewrite Z.eqb_refl. cbn [negb].
  rewrite (F 10%nat 2%nat 2 (Z.of_nat (length (m_name m))) 28 eq_refl eq_refl eq_refl). cbn [mbind option_bind].
  rewrite (wrap_small 32 (o + 46)) by (unfold is_word; lia). rewrite (access_has _ _ Hh2).
  rewrite (F 3%nat 2%nat 2 (m_flags m) 8 eq_refl eq_refl eq_refl). cbn [mbind option_bind].
  match goal with |- mbind _ ?x = _ => replace x with (Some (wanted nm m)) end.
  2: { unfold wanted. destruct (negb (flag (m_flags m) FLAG_ENCRYPTED) && negb (flag (m_flags m) FLAG_HAS_DATA_DESCRIPTOR)); cbn [andb]; [|done]. destruct (Z.eqb_spec (length nm) (length (m_name m))) as [E|E].
       - rewrite E, (has_range _ _ _ Hh2). done.
       - rewrite bool_decide_false; [done|]. intros <-. by apply E. }
  cbn [mbind option_bind]. destruct (wanted nm m).
  - by rewrite (F 16%nat 4%nat 4 off 42 eq_refl eq_refl eq_refl).
  - rewrite (F 11%nat 2%nat 2 (Z.of_nat (length (m_cd_extra m))) 30 eq_refl eq_refl eq_refl). cbn [mbind option_bind].
    rewrite (F 12%nat 2%nat 2 (Z.of_nat (length (m_comment m))) 32 eq_refl eq_refl eq_refl). cbn [mbind option_bind].
    rewrite (wrap_small 32 (o + 46 + _)), (wrap_small 32 (o + 46 + _ + _)), (wrap_small 32 (o + 46 + _ + _ + _)) by (unfold is_word; lia). f_equal. lia.
Qed.

(** Looking through a directory that starts with [ms] at [o], whose members start at
    [off]. *)
Lemma loop_at nm ms : ∀ off o, Forall (λ m, member_ok m ∧ Z.of_nat (length (m_data m)) < 2 ^ 32) ms → has off (locals ms) d → has o (directory off ms) d →
  match list_find (λ m, wanted nm m = true) ms with
  | Some (_, m) => ∃ e, find_entry_loop (length ms) a nm o = Some (inr e) ∧ range (e_data e) (data_length e) d = Some (m_data m) ∧
      range (name e) (name_length e) d = Some nm ∧ compression e = m_compression m
  | None => find_entry_loop (length ms) a nm o = Some (inl (- ENOENT))
  end.
Proof.
  induction ms as [|m ms IH]; intros off o Hok Hl Hc; [done|]. apply Forall_cons in Hok as [[Hm Hdl] Hok].
  change (locals (m :: ms)) with (local_part m ++ locals ms) in Hl. cbn [directory] in Hc. apply has_app in Hl as [Hl1 Hl]. apply has_app in Hc as [Hc1 Hc].
  pose proof (has_bound _ _ _ Hl1) as Hb. cbn [length]. rewrite (step_at m off o nm (length ms)) by (try done; lia).
  cbn [list_find]. destruct (decide (wanted nm m = true)) as [E|E].
  - rewrite E. assert (m_name m = nm) as <- by (unfold wanted in E; apply andb_true_iff in E as [_ E]; by apply bool_decide_eq_true in E).
    by apply entry_at.
  - apply not_true_is_false in E. rewrite E. specialize (IH _ _ Hok Hl Hc). destruct (list_find _ ms) as [[i m']|]; exact IH.
Qed.
End roundtrip.

Lemma data_bound ms : Forall (λ m, Z.of_nat (length (m_data m)) ≤ length (locals ms)) ms.
Proof.
  induction ms as [|m ms IH]; [constructor|]. change (locals (m :: ms)) with (local_part m ++ locals ms). rewrite length_app. apply Forall_cons. split.
  - unfold local_part. rewrite !length_app. lia.
  - eapply Forall_impl; [exact IH|]. cbn. lia.
Qed.
Lemma directory_pos off ms : ms ≠ [] → 0 < Z.of_nat (length (directory off ms)).
Proof. destruct ms as [|m ms]; [done|]. intros _. cbn [directory]. unfold cd_part. rewrite !length_app. assert (Z.of_nat (length (enc (cd_fields m off))) = 46) by (by rewrite length_enc). lia. Qed.

Lemma build_parses ms : ms ≠ [] → Z.of_nat (length ms) < 2 ^ 16 → Z.of_nat (length (build ms)) < 2 ^ 32 →
  find_cd (mk_archive (build ms) (length (build ms)) 0 0) = Some (0, mk_archive (build ms) (length (build ms)) (length (locals ms)) (length ms)).
Proof.
  intros Hne Hn Hl. set (d := build ms) in *. pose proof (directory_pos 0 ms Hne) as Hpos.
  assert (has 0 (locals ms ++ directory 0 ms ++ enc (end_fields ms)) d) as Hh by (exists [], []; by rewrite app_nil_r).
  apply has_app in Hh as [Hh1 Hh]. apply has_app in Hh as [Hh2 Hh3]. pose proof (has_bound _ _ _ Hh3) as Hb.
  assert (Z.of_nat (length (enc (end_fields ms))) = 22) as El by (by rewrite length_enc). rewrite El in Hb.
  assert (0 + length (locals ms) + length (directory 0 ms) = length d - 22) as Eo by (unfold d, build in *; rewrite !length_app in *; lia). rewrite Eo in *.
  unfold find_cd. cbn [size]. unfold end_of_cd_record.sizeof. rewrite (proj2 (Z.leb_gt _ _)) by lia.
  destruct (Z.to_nat (2 ^ 16)) as [|fuel] eqn:Ef; [lia|]. clear Ef. cbn [find_cd_loop].
  rewrite (proj2 (Z.leb_le 0 _)), (proj2 (Z.ltb_lt _ _)) by lia. cbn [andb negb Z.eqb Z.opp EINVAL]. rewrite wrap_small by (unfold is_word; lia).
  assert (Forall (λ f : nat * Z, is_word (8 * Z.of_nat f.1) f.2) (end_fields ms)) as Hf.
  { unfold end_fields, is_word. repeat (apply Forall_cons; split; [cbn [fst snd]; first [done|cbn; lia]|]). by apply Forall_nil. }
  pose proof (fields_at d _ _ Hh3 Hf) as F. set (o := length d - 22) in *.
  assert (try_parse_end_of_cd (mk_archive d (length d) 0 0) o = Some (0, mk_archive d (length d) (length (locals ms)) (length ms))) as ->.
  2: { cbn [mbind option_bind Z.eqb Z.opp ENOTSUP]. destruct fuel; cbn [find_cd_loop negb Z.eqb]; by rewrite andb_false_r. }
  unfold try_parse_end_of_cd, end_of_cd_record.sizeof. rewrite (access_at d 0 0 Hl o _ 22 Hh3) by (by rewrite El).
  unfold end_of_cd_record.magic, end_of_cd_record.comment_length, end_of_cd_record.cd_records, end_of_cd_record.this_disk, end_of_cd_record.cd_disk,
    end_of_cd_record.cd_records_total, end_of_cd_record.cd_offset, end_of_cd_record.cd_size. cbn [data size].
  replace (load 4 o d) with (Some END_OF_CD_RECORD_MAGIC) by (rewrite <- (F 0%nat 4%nat 4 END_OF_CD_RECORD_MAGIC 0 eq_refl eq_refl eq_refl); by rewrite Z.add_0_r).
  cbn [mbind option_bind]. rewrite Z.eqb_refl. cbn [negb]. rewrite (F 7%nat 2%nat 2 0 20 eq_refl eq_refl eq_refl). cbn [mbind option_bind].
  rewrite (wrap_small 64) by (unfold is_word; change (2 ^ 64) with (2 ^ 32 * 2 ^ 32); lia). rewrite (proj2 (Z.eqb_eq _ _)) by lia. cbn [negb].
  rewrite (F 3%nat 2%nat 2 (Z.of_nat (length ms)) 8 eq_refl eq_refl eq_refl), (F 1%nat 2%nat 2 0 4 eq_refl eq_refl eq_refl).
  rewrite (F 2%nat 2%nat 2 0 6 eq_refl eq_refl eq_refl), (F 4%nat 2%nat 2 (Z.of_nat (length ms)) 10 eq_refl eq_refl eq_refl).
  cbn [mbind option_bind]. rewrite !Z.eqb_refl. cbn [negb orb].
  rewrite (F 6%nat 4%nat 4 (Z.of_nat (length (locals ms))) 16 eq_refl eq_refl eq_refl), (F 5%nat 4%nat 4 (Z.of_nat (length (directory 0 ms))) 12 eq_refl eq_refl eq_refl).
  rewrite Z.add_0_l in Hh2. cbn [mbind option_bind]. rewrite (access_has d 0 0 Hl _ _ Hh2). done.
Qed.

(** C39: in an archive built from some members, every name that a member without the
    unsupported flags carries is found, with the data and the compression of the
    first such member; any other name gives [-ENOENT]. *)
Theorem zip_roundtrip ms nm : ms ≠ [] → Forall member_ok ms → Z.of_nat (length ms) < 2 ^ 16 → Z.of_nat (length (build ms)) < 2 ^ 32 →
  ∃ a, find_cd (mk_archive (build ms) (length (build ms)) 0 0) = Some (0, a) ∧
    match list_find (λ m, wanted nm m = true) ms with
    | Some (_, m) => ∃ e, zip_archive_find_entry a nm = Some (inr e) ∧ range (e_data e) (data_length e) (build ms) = Some (m_data m) ∧
        range (name e) (name_length e) (build ms) = Some nm ∧ compression e = m_compression m
    | None => zip_archive_find_entry a nm = Some (inl (- ENOENT))
    end.
Proof.
  intros Hne Hok Hn Hl. eexists. split; [by apply build_parses|]. unfold zip_archive_find_entry. cbn [cd_records cd_offset]. rewrite Nat2Z.id.
  assert (has 0 (locals ms ++ directory 0 ms ++ enc (end_fields ms)) (build ms)) as Hh by (exists [], []; by rewrite app_nil_r).
  apply has_app in Hh as [Hh1 Hh]. apply has_app in Hh as [Hh2 _]. apply (loop_at (build ms) _ _ Hl nm ms 0); [|done|done].
  pose proof (data_bound ms) as Hd. pose proof (has_bound _ _ _ Hh1). eapply Forall_impl; [apply Forall_and; split; [exact Hok|exact Hd]|]. cbn. intros m [Hm Hm']. split; [done|lia].
Qed.

Definition demo_member (c : Z) : member := mk_member [c; 46; c] [c; c; c; c] 0 8 [1] [] [7; 7].
Definition demo_members : list member := [mk_member [97] [1] 1 0 [] [] []; demo_member 97; demo_member 98].
Lemma zip_roundtrip_witness : ∃ a, find_cd (mk_archive (build demo_members) (length (build demo_members)) 0 0) = Some (0, a) ∧
  ∃ e, zip_archive_find_entry a [98; 46; 98] = Some (inr e) ∧ range (e_data e) (data_length e) (build demo_members) = Some [98; 98; 98; 98] ∧
    range (name e) (name_length e) (build demo_members) = Some [98; 46; 98] ∧ compression e = 8.
Proof.
  apply (zip_roundtrip demo_members [98; 46; 98]).
  - discriminate.
  - repeat (apply Forall_cons; split; [unfold member_ok, is_word; cbn; lia|]). by apply Forall_nil.
  - vm_compute. reflexivity.
  - vm_compute. reflexivity.
Defined.

Lemma zip_safe_witness : held_ok (mk_held 0 0 0) ∧
  wp (zip_archive_open None (Some (Z.of_nat (length (build demo_members)))) (inr (build demo_members)) true) (mk_held 0 0 0) (λ r h',
    match r with
    | inl _ => h' = mk_held 0 0 0
    | inr a => h' = mk_held 0 (0 + 1) (0 + 1) ∧ found_ok a (zip_archive_find_entry a [97]) ∧ wp (zip_archive_close a) h' (λ _ h'', h'' = mk_held 0 0 0)
    end).
Proof.
  split; [vm_compute; repeat split; discriminate|].
  apply (zip_safe None (Some (Z.of_nat (length (build demo_members)))) (inr (build demo_members)) true (mk_held 0 0 0) [97]).
  - vm_compute. repeat split; discriminate.
  - intros b [= <-]. split; [|reflexivity]. apply (bool_decide_unpack _). vm_compute. exact I.
Defined.
