(* ===== verification/Linfo.v ===== *)
(** * libbpf: line information of programs

    [bpf_prog_linfo.c]: the tables from byte-code offsets and from addresses of
    compiled code to source lines, copied from the kernel's description of a
    program, and the searches in them. *)

From stdpp Require Import sorting.
From S2P Require Import Prelude Errno Bytes Heap.
Local Open Scope Z_scope.

(** The part of [struct bpf_prog_info] that is used; the memory that its pointers
    point to stands for them, [None] for a null pointer. *)
Record bpf_prog_info := mk_info {
  nr_line_info : Z; line_info_rec_size : Z; line_info : list Z;
  nr_jited_ksyms : Z; jited_ksyms : option (list Z);
  nr_jited_func_lens : Z; jited_func_lens : option (list Z);
  nr_jited_line_info : Z; jited_line_info_rec_size : Z; jited_line_info : option (list Z) }.

(** Entries of allocated arrays are [None] until they are written. *)
Record bpf_prog_linfo := mk_linfo {
  raw_linfo : option (list Z); raw_jited_linfo : option (list Z);
  nr_jited_linfo_per_func : option (list (option Z)); jited_linfo_func_idx : option (list (option Z));
  nr_linfo : Z; nr_jited_func : Z; rec_size : Z; jited_rec_size : Z }.

(** Writing into an array. *)
Definition put (i v : Z) (l : list (option Z)) : option (list (option Z)) :=
  if (0 <=? i) && (i <? length l) then Some (<[Z.to_nat i := Some v]> l) else None.
Definition get {A} (i : Z) (l : list A) : option A := if 0 <=? i then l !! Z.to_nat i else None.

(** The loop of [dissect_jited_func]: [n] more records, [last] is the address at
    [i - 1].  The result is an error or what is left at its end. *)
Fixpoint dissect_loop (n : nat) (jited : list Z) (jrec : Z) (ksym_func ksym_len : list Z) (nfunc : Z) (last i prev_i f : Z)
    (per_func func_idx : list (option Z)) : option (Z + Z * Z * list (option Z) * list (option Z)) :=
  match n with
  | O => Some (inr (f, prev_i, per_func, func_idx))
  | S n =>
    if negb (f <? nfunc) then Some (inr (f, prev_i, per_func, func_idx))
    else
      addr ← load 8 (i * jrec) jited;
      func ← get f ksym_func;
      if func =? addr then
        func_idx ← put f i func_idx;
        prev ← get (f - 1) ksym_func;
        len ← get (f - 1) ksym_len;
        if len <? u64 (last - prev + 1) then Some (inl (- EINVAL))
        else
          per_func ← put (f - 1) (u32 (i - prev_i)) per_func;
          dissect_loop n jited jrec ksym_func ksym_len nfunc addr (i + 1) i (f + 1) per_func func_idx
      else if addr <=? last then Some (inl (- EINVAL))
      else dissect_loop n jited jrec ksym_func ksym_len nfunc addr (i + 1) prev_i f per_func func_idx
  end.

Definition dissect_jited_func (p : bpf_prog_linfo) (ksym_func ksym_len : list Z) : option (Z * bpf_prog_linfo) :=
  jited ← raw_jited_linfo p;
  per_func ← nr_jited_linfo_per_func p;
  func_idx ← jited_linfo_func_idx p;
  addr ← load 8 0 jited;
  func ← get 0 ksym_func;
  if negb (func =? addr) then Some (- EINVAL, p)
  else
    func_idx ← put 0 0 func_idx;
    r ← dissect_loop (Z.to_nat (nr_linfo p - 1)) jited (jited_rec_size p) ksym_func ksym_len (nr_jited_func p) addr 1 0 1 per_func func_idx;
    match r with
    | inl err => Some (err, p)
    | inr (f, prev_i, per_func, func_idx) =>
      if negb (f =? nr_jited_func p) then Some (- EINVAL, p)
      else
        per_func ← put (nr_jited_func p - 1) (u32 (nr_linfo p - prev_i)) per_func;
        Some (0, mk_linfo (raw_linfo p) (raw_jited_linfo p) (Some per_func) (Some func_idx)
                   (nr_linfo p) (nr_jited_func p) (rec_size p) (jited_rec_size p))
    end.

(** ** Allocation *)

Section memory.
Context (malloc_ok : nat → bool).

Definition bpf_prog_linfo__free (p : option bpf_prog_linfo) : prog heap () :=
  match p with
  | None => pret ()
  | Some p => free (raw_linfo p) ;;; free (raw_jited_linfo p) ;;; free (nr_jited_linfo_per_func p) ;;; free (jited_linfo_func_idx p) ;;; free (Some p)
  end.

Definition err_free (p : bpf_prog_linfo) : prog heap (option bpf_prog_linfo) :=
  bpf_prog_linfo__free (Some p) ;;; fail EINVAL.

(** Copying [n] bytes. *)
Definition copy (n : Z) (src : list Z) : prog heap (list Z) := λ h, l ← range 0 n src; Some (l, h).

Definition jited_ok (info : bpf_prog_info) : bool :=
  negb (nr_jited_ksyms info =? 0) && bool_decide (is_Some (jited_line_info info)) && (nr_jited_line_info info =? nr_line_info info) &&
  negb (jited_line_info_rec_size info <? 8) && (nr_jited_func_lens info =? nr_jited_ksyms info) &&
  bool_decide (is_Some (jited_ksyms info)) && bool_decide (is_Some (jited_func_lens info)).

Definition bpf_prog_linfo__new (info : bpf_prog_info) : prog heap (option bpf_prog_linfo) :=
  let n := nr_line_info info in
  if n =? 0 then fail EINVAL
  else if line_info_rec_size info <? 4 then fail EINVAL
  else
  let! ok := malloc malloc_ok in
  if negb ok then fail ENOMEM
  else
  let rs := line_info_rec_size info in
  let! ok := malloc malloc_ok in
  if negb ok then err_free (mk_linfo None None None None n 0 rs 0)
  else
  let! raw := copy (u64 (n * rs)) (line_info info) in
  let p := mk_linfo (Some raw) None None None n 0 rs 0 in
  match jited_line_info info, jited_ksyms info, jited_func_lens info with
  | Some jl, Some ksyms, Some lens =>
    if negb (jited_ok info) then pret (Some p)
    else
    let nf := nr_jited_ksyms info in
    let jrs := jited_line_info_rec_size info in
    let! ok := malloc malloc_ok in
    if negb ok then err_free (mk_linfo (Some raw) None None None n nf rs jrs)
    else
    let! jraw := copy (u64 (n * jrs)) jl in
    let! ok := malloc malloc_ok in
    if negb ok then err_free (mk_linfo (Some raw) (Some jraw) None None n nf rs jrs)
    else
    let per_func := Some (replicate (Z.to_nat nf) None) in
    let! ok := malloc malloc_ok in
    if negb ok then err_free (mk_linfo (Some raw) (Some jraw) per_func None n nf rs jrs)
    else
    let p := mk_linfo (Some raw) (Some jraw) per_func per_func n nf rs jrs in
    let! r := (λ h, r ← dissect_jited_func p ksyms lens; Some (r, h)) in
    if negb (r.1 =? 0) then err_free r.2 else pret (Some r.2)
  | _, _, _ => pret (Some p)
  end.
End memory.

(** ** Searching *)

(** Both return the offset of a record in [raw_linfo], or an error number. *)
Fixpoint addr_loop (n : nat) (p : bpf_prog_linfo) (jited : list Z) (addr raw jraw : Z) : option Z :=
  match n with
  | O => Some raw
  | S n =>
    a ← load 8 jraw jited;
    if addr <? a then Some raw else addr_loop n p jited addr (raw + rec_size p) (jraw + jited_rec_size p)
  end.
Definition bpf_prog_linfo__lfind_addr_func (p : bpf_prog_linfo) (addr func_idx nr_skip : Z) : option (Z + Z) :=
  if nr_jited_func p <=? func_idx then Some (inl ENOENT)
  else
    per_func ← nr_jited_linfo_per_func p;
    nr ← mjoin (get func_idx per_func);
    if nr <=? nr_skip then Some (inl ENOENT)
    else
      idx ← jited_linfo_func_idx p;
      first ← mjoin (get func_idx idx);
      jited ← raw_jited_linfo p;
      let start := u32 (first + nr_skip) in
      let jraw := u32 (start * jited_rec_size p) in
      a ← load 8 jraw jited;
      if addr <? a then Some (inl ENOENT)
      else
        raw ← addr_loop (Z.to_nat (nr - nr_skip)) p jited addr (u32 (start * rec_size p)) jraw;
        Some (inr (raw - rec_size p)).

Fixpoint insn_loop (n : nat) (p : bpf_prog_linfo) (raw : list Z) (insn_off pos : Z) : option Z :=
  match n with
  | O => Some pos
  | S n =>
    off ← load 4 pos raw;
    if insn_off <? off then Some pos else insn_loop n p raw insn_off (pos + rec_size p)
  end.
Definition bpf_prog_linfo__lfind (p : bpf_prog_linfo) (insn_off nr_skip : Z) : option (Z + Z) :=
  if nr_linfo p <=? nr_skip then Some (inl ENOENT)
  else
    raw ← raw_linfo p;
    let pos := u32 (nr_skip * rec_size p) in
    off ← load 4 pos raw;
    if insn_off <? off then Some (inl ENOENT)
    else
      pos ← insn_loop (Z.to_nat (nr_linfo p - nr_skip)) p raw insn_off pos;
      Some (inr (pos - rec_size p)).

(** ** The tables that a new object holds *)

(** The numbers of records from each start to the next. *)
Definition gaps (l : list Z) : list Z := zip_with (λ a b, b - a) l (tail l).

Lemma gaps_snoc l x y : gaps ((l ++ [x]) ++ [y]) = gaps (l ++ [x]) ++ [y - x].
Proof.
  induction l as [|a l IH]; [done|]. destruct l as [|b l]; [done|]. change (gaps (((a :: b :: l) ++ [x]) ++ [y])) with ((b - a) :: gaps (((b :: l) ++ [x]) ++ [y])).
  change (gaps ((a :: b :: l) ++ [x])) with ((b - a) :: gaps ((b :: l) ++ [x])). by rewrite IH.
Qed.
Lemma length_gaps l : l ≠ [] → S (length (gaps l)) = length l.
Proof. intros Hl. destruct l as [|a l]; [done|]. unfold gaps. rewrite length_zip_with. cbn [length tail]. lia. Qed.

Definition written (l : list Z) (k : nat) : list (option Z) := (Some <$> l) ++ replicate k None.
Lemma put_next l k i v : i = Z.of_nat (length l) → put i v (written l (S k)) = Some (written (l ++ [v]) k).
Proof.
  intros ->. unfold put, written. rewrite length_app, length_fmap, length_replicate. rewrite (proj2 (Z.leb_le 0 _)), (proj2 (Z.ltb_lt _ _)) by lia.
  cbn [andb]. f_equal. rewrite Nat2Z.id, insert_app_r_alt by (rewrite length_fmap; lia). rewrite length_fmap, Nat.sub_diag, fmap_app, <- app_assoc. done.
Qed.
Lemma get_ok {A} (l : list A) i : 0 ≤ i < length l → ∃ v, get i l = Some v ∧ l !! Z.to_nat i = Some v.
Proof. intros Hi. unfold get. rewrite (proj2 (Z.leb_le 0 i)) by lia. destruct (lookup_lt_is_Some_2 l (Z.to_nat i) ltac:(lia)) as [v E]. eauto. Qed.

(** Starts in ascending order below a bound. *)
Definition ascending (l : list Z) (bound : Z) : Prop := Sorted Z.lt l ∧ Forall (λ x, 0 ≤ x < bound) l.
Lemma ascending_snoc l x bound : ascending (l ++ [x]) bound → ∀ y, bound ≤ y → ascending ((l ++ [x]) ++ [y]) (y + 1).
Proof.
  intros [Hs Hf] y Hy. split.
  - apply StronglySorted_Sorted. apply StronglySorted_app_2; [|by apply Sorted_StronglySorted; [apply _|]|repeat constructor].
    intros a b Ha Hb. apply list_elem_of_singleton in Hb as ->. pose proof (proj1 (Forall_forall _ _) Hf a Ha) as H. cbn in H. lia.
  - apply Forall_app_2; [eapply Forall_impl; [exact Hf|]; cbn; lia|]. apply Forall_singleton. pose proof (proj1 (Forall_forall _ _) Hf x) as H.
    specialize (H ltac:(apply elem_of_app; right; by apply list_elem_of_singleton)). cbn in H. lia.
Qed.
Lemma ascending_mono l b b' : ascending l b → b ≤ b' → ascending l b'.
Proof. intros [Hs Hf] Hb. split; [done|]. eapply Forall_impl; [exact Hf|]. cbn. lia. Qed.

(** The address of a record. *)
Definition addr_at (jrec : Z) (jited : list Z) (j : Z) : Z := le_val (sub (j * jrec) 8 jited).

(** How the records, with addresses [A], belong to the functions, whose addresses
    and lengths the kernel gives as [kf] and [kl]: the first record of each has
    its address.  Between two of these the addresses ascend, none of them is that
    of the next function, and the last one is within the length of the function. *)
Record divides (A : Z → Z) (kf kl starts : list Z) : Prop := {
  d_first : head starts = Some 0;
  d_at : ∀ f s, starts !! f = Some s → kf !! f = Some (A s);
  d_in : ∀ f s s' j, starts !! f = Some s → starts !! S f = Some s' → s < j < s' → A (j - 1) < A j ∧ kf !! S f ≠ Some (A j);
  d_len : ∀ f s s' len, starts !! f = Some s → starts !! S f = Some s' → kl !! f = Some len → u64 (A (s' - 1) - A s + 1) ≤ len }.

(** The records after the start [x] of the last function found, up to [i]. *)
Definition trail (A : Z → Z) (next : option Z) (x i : Z) : Prop := ∀ j, x < j < i → A (j - 1) < A j ∧ next ≠ Some (A j).

Lemma divides_snoc A kf kl l x i len : divides A kf kl (l ++ [x]) → kf !! length (l ++ [x]) = Some (A i) →
  trail A (kf !! length (l ++ [x])) x i → kl !! length l = Some len → u64 (A (i - 1) - A x + 1) ≤ len →
  divides A kf kl ((l ++ [x]) ++ [i]).
Proof.
  intros [D1 D2 D3 D4] Hi Ht Hl Hu.
  assert (∀ f s s', ((l ++ [x]) ++ [i]) !! f = Some s → ((l ++ [x]) ++ [i]) !! S f = Some s' →
    ((l ++ [x]) !! f = Some s ∧ (l ++ [x]) !! S f = Some s') ∨ (f = length l ∧ s = x ∧ s' = i)) as Hc.
  { intros f s s' H1 H2. apply lookup_snoc_Some in H2 as [[Hlt H2]|[Ef <-]].
    - left. rewrite lookup_app_l in H1 by lia. done.
    - rewrite length_app in Ef. cbn in Ef. right. split; [lia|]. rewrite lookup_app_l in H1 by (rewrite length_app; cbn; lia).
      replace f with (length l) in H1 by lia. rewrite lookup_app_r, Nat.sub_diag in H1 by lia. by injection H1. }
  split.
  - by destruct l.
  - intros f s [[_ H]|[-> <-]]%lookup_snoc_Some; [by apply D2|done].
  - intros f s s' j H1 H2 Hj. destruct (Hc f s s' H1 H2) as [[? ?]|(-> & -> & ->)]; [by eapply D3|].
    rewrite length_app, Nat.add_1_r in Ht. by apply Ht.
  - intros f s s' ln H1 H2 H3. destruct (Hc f s s' H1 H2) as [[? ?]|(-> & -> & ->)]; [by eapply D4|]. congruence.
Qed.

(** What the loop leaves: the starts found so far and the numbers between them. *)
Definition dissected (A : Z → Z) (kf kl : list Z) (nr nf : Z) (o : option (Z + Z * Z * list (option Z) * list (option Z))) : Prop :=
  (o = Some (inl (- EINVAL))) ∨ ∃ ss x k, o = Some (inr (Z.of_nat (length (ss ++ [x])), x, written (gaps (ss ++ [x])) (S k), written (ss ++ [x]) k)) ∧
    ascending (ss ++ [x]) nr ∧ divides A kf kl (ss ++ [x]) ∧ Z.of_nat (length (ss ++ [x])) + Z.of_nat k = nf.

Lemma dissect_loop_ok (n : nat) : ∀ jited jrec kf kl nf last i ss x k, bytes_ok jited → 8 ≤ jrec → 0 ≤ i → i + n < 2 ^ 32 → (i + n) * jrec ≤ length jited →
  Z.of_nat (length kf) = nf → Z.of_nat (length kl) = nf → Z.of_nat (length (ss ++ [x])) + Z.of_nat k = nf → ascending (ss ++ [x]) i →
  divides (addr_at jrec jited) kf kl (ss ++ [x]) → trail (addr_at jrec jited) (kf !! length (ss ++ [x])) x i → last = addr_at jrec jited (i - 1) →
  dissected (addr_at jrec jited) kf kl (i + n) nf (dissect_loop n jited jrec kf kl nf last i x (length (ss ++ [x])) (written (gaps (ss ++ [x])) (S k)) (written (ss ++ [x]) k)).
Proof.
  induction n as [|n IH]; intros jited jrec kf kl nf last i ss x k Hb Hj Hi Hn Hl Hkf Hkl Hk Ha Hd Ht Hlast; cbn [dissect_loop].
  { right. exists ss, x, k. split; [done|]. split; [|done]. by rewrite Z.add_0_r. }
  set (f := Z.of_nat (length (ss ++ [x]))) in *. destruct (Z.ltb_spec f nf) as [Hf|Hf]; cbn [negb].
  2: { right. exists ss, x, k. split; [done|]. split; [|done]. eapply ascending_mono; [exact Ha|lia]. }
  rewrite load_Some by nia. fold (addr_at jrec jited i). cbn [mbind option_bind].
  destruct (get_ok kf f) as (fn & Ef & Ef'); [unfold f; lia|]. rewrite Ef. cbn [mbind option_bind].
  assert (1 ≤ f) as Hf1 by (unfold f; rewrite length_app; cbn; lia).
  unfold f in Ef'. rewrite Nat2Z.id in Ef'. assert (Z.to_nat (f - 1) = length ss) as Efs by (unfold f; rewrite length_app; cbn; lia).
  destruct (Z.eqb_spec fn (addr_at jrec jited i)) as [->|Hne].
  - destruct k as [|k]; [lia|]. rewrite (put_next (ss ++ [x]) k f i eq_refl). cbn [mbind option_bind].
    destruct (get_ok kf (f - 1)) as (pf & Epf & Epf'); [lia|]. rewrite Epf. cbn [mbind option_bind].
    destruct (get_ok kl (f - 1)) as (pl & Epl & Epl'); [lia|]. rewrite Epl. cbn [mbind option_bind]. destruct (Z.ltb_spec pl (u64 (last - pf + 1))) as [|Hlen]; [by left|].
    assert (pf = addr_at jrec jited x) as ->.
    { rewrite Efs, (d_at _ _ _ _ Hd (length ss) x) in Epf' by (by rewrite lookup_app_r, Nat.sub_diag by lia). by injection Epf'. }
    assert (0 ≤ x < i) as Hx.
    { destruct Ha as [_ Ha]. apply Forall_app in Ha as [_ Ha]. rewrite Forall_singleton in Ha. exact Ha. }
    rewrite put_next.
    2: { pose proof (length_gaps (ss ++ [x]) ltac:(by destruct ss)). unfold f. lia. }
    cbn [mbind option_bind]. rewrite (wrap_small 32) by (unfold is_word; lia). rewrite <- gaps_snoc.
    replace (f + 1) with (Z.of_nat (length ((ss ++ [x]) ++ [i]))) by (unfold f; rewrite (length_app (ss ++ [x])); cbn; lia).
    replace (i + S n) with (i + 1 + n) by lia. apply IH; try done; try lia.
    + rewrite (length_app (ss ++ [x])). cbn. lia.
    + by apply (ascending_snoc ss x i).
    + apply (divides_snoc _ _ _ ss x i pl); [done|done|done|by rewrite <- Efs|by rewrite <- Hlast].
    + intros j Hjj. lia.
    + f_equal. lia.
  - destruct (Z.leb_spec (addr_at jrec jited i) last) as [|Hinc]; [by left|]. replace (i + S n) with (i + 1 + n) by lia. apply IH; try done; try lia.
    + eapply ascending_mono; [exact Ha|lia].
    + intros j Hjj. destruct (decide (j = i)) as [->|]; [rewrite <- Hlast, Ef'; split; [done|congruence]|apply Ht; lia].
    + f_equal. lia.
Qed.

Lemma sorted_next (l : list Z) f s s' : Sorted Z.lt l → l !! f = Some s → l !! S f = Some s' → s < s'.
Proof.
  intros Hs%Sorted_StronglySorted; [|apply _]. revert f. induction Hs as [|z l Hss IH Hz]; intros [|f] H1 H2; try done; [|by apply (IH f)].
  injection H1 as ->. exact (proj1 (Forall_lookup _ _) Hz _ _ H2).
Qed.

(** When the records can be divided among the functions, the loop finds that. *)
Lemma dissect_complete (n : nat) : ∀ jited jrec kf kl nf last i ss x pf fi sts, 8 ≤ jrec → 0 ≤ i → (i + n) * jrec ≤ length jited →
  divides (addr_at jrec jited) kf kl sts → ascending sts (i + n) → Z.of_nat (length sts) = nf → take (length (ss ++ [x])) sts = ss ++ [x] →
  x < i → (∀ s, sts !! length (ss ++ [x]) = Some s → i ≤ s) → last = addr_at jrec jited (i - 1) →
  match dissect_loop n jited jrec kf kl nf last i x (length (ss ++ [x])) pf fi with
  | Some (inl _) => False
  | Some (inr (f, _, _, _)) => f = nf
  | None => True
  end.
Proof.
  induction n as [|n IH]; intros jited jrec kf kl nf last i ss x pf fi sts Hj Hi Hl Hd Ha Hnf Hpre Hx Hnext Hlast; cbn [dissect_loop];
    pose proof (f_equal length Hpre) as Hlen; rewrite length_take in Hlen.
  { destruct (sts !! length (ss ++ [x])) as [s|] eqn:Es; [|apply lookup_ge_None in Es; lia].
    pose proof (Forall_lookup_1 _ _ _ _ (proj2 Ha) Es) as Hs. cbn in Hs. specialize (Hnext s eq_refl). lia. }
  set (f := Z.of_nat (length (ss ++ [x]))) in *. destruct (Z.ltb_spec f nf) as [Hf|Hf]; cbn [negb]; [|unfold f in *; lia].
  rewrite load_Some by nia. fold (addr_at jrec jited i). cbn [mbind option_bind].
  destruct (lookup_lt_is_Some_2 sts (length (ss ++ [x])) ltac:(lia)) as [s Es]. specialize (Hnext s Es).
  assert (sts !! length ss = Some x) as Ex.
  { rewrite <- (lookup_take_lt sts (length (ss ++ [x]))) by (rewrite length_app; cbn; lia). rewrite Hpre, lookup_app_r, Nat.sub_diag by lia. done. }
  assert (length (ss ++ [x]) = S (length ss)) as El by (rewrite length_app; cbn; lia).
  assert (get f kf = Some (addr_at jrec jited s)) as ->.
  { unfold get, f. rewrite (proj2 (Z.leb_le 0 _)), Nat2Z.id by lia. apply (d_at _ _ _ _ Hd _ _ Es). }
  cbn [mbind option_bind].
  assert (∀ j, x < j < s → addr_at jrec jited (j - 1) < addr_at jrec jited j ∧ addr_at jrec jited s ≠ addr_at jrec jited j) as Hin.
  { intros j Hjj. rewrite El in Es. destruct (d_in _ _ _ _ Hd _ _ _ j Ex Es Hjj) as [? Hn]. rewrite (d_at _ _ _ _ Hd _ _ Es) in Hn. split; [done|congruence]. }
  destruct (Z.eqb_spec (addr_at jrec jited s) (addr_at jrec jited i)) as [Ea|Hne].
  - assert (s = i) as -> by (destruct (decide (s = i)); [done|]; destruct (Hin i) as [_ []]; [lia|done]).
    destruct (put f i fi) as [fi'|]; [|done]. cbn [mbind option_bind]. unfold get. rewrite (proj2 (Z.leb_le 0 (f - 1))) by lia.
    replace (Z.to_nat (f - 1)) with (length ss) by lia. rewrite (d_at _ _ _ _ Hd _ _ Ex). cbn [mbind option_bind].
    destruct (kl !! length ss) as [len|] eqn:Ekl; [|done]. cbn [mbind option_bind]. rewrite El in Es.
    pose proof (d_len _ _ _ _ Hd _ _ _ _ Ex Es Ekl) as Hu. rewrite Hlast, (proj2 (Z.ltb_ge _ _) Hu).
    destruct (put (f - 1) _ pf) as [pf'|]; [|done]. cbn [mbind option_bind].
    replace (f + 1) with (Z.of_nat (length ((ss ++ [x]) ++ [i]))) by (unfold f; rewrite (length_app (ss ++ [x])); cbn; lia).
    apply (IH _ _ _ _ _ _ _ (ss ++ [x]) i _ _ sts); try done; try lia; [by replace (i + 1 + n) with (i + S n) by lia| | |f_equal; lia].
    + rewrite (length_app (ss ++ [x])). cbn [length]. rewrite Nat.add_1_r, (take_S_r _ _ i) by (by rewrite El). by rewrite Hpre.
    + intros s' Es'. rewrite (length_app (ss ++ [x])) in Es'. cbn [length] in Es'. rewrite El, Nat.add_1_r in Es'. pose proof (sorted_next _ _ _ _ (proj1 Ha) Es Es'). lia.
  - assert (i ≠ s) by (intros ->; done). rewrite Hlast, (proj2 (Z.leb_gt _ _)) by (apply Hin; lia).
    apply (IH _ _ _ _ _ _ _ ss x _ _ sts); try done; try lia; [by replace (i + 1 + n) with (i + S n) by lia| |f_equal; lia].
    intros s' Es'. rewrite Es in Es'. injection Es' as <-. lia.
Qed.

Record info_ok (info : bpf_prog_info) : Prop := {
  i_nr : is_word 32 (nr_line_info info); i_rec : is_word 32 (line_info_rec_size info); i_bytes : bytes_ok (line_info info);
  i_len : Z.of_nat (length (line_info info)) = nr_line_info info * line_info_rec_size info;
  i_jrec : is_word 32 (jited_line_info_rec_size info);
  i_ksyms l : jited_ksyms info = Some l → Z.of_nat (length l) = nr_jited_ksyms info;
  i_lens l : jited_func_lens info = Some l → Z.of_nat (length l) = nr_jited_func_lens info;
  i_jited l : jited_line_info info = Some l → bytes_ok l ∧ Z.of_nat (length l) = nr_jited_line_info info * jited_line_info_rec_size info }.

(** All functions have records, in order. *)
Definition splits (A : Z → Z) (kf kl : list Z) (nr : Z) (starts : list Z) : Prop :=
  length starts = length kf ∧ ascending starts nr ∧ divides A kf kl starts.

(** The tables of the compiled code. *)
Definition tables (p : bpf_prog_linfo) (jited kf kl starts : list Z) : Prop :=
  raw_jited_linfo p = Some jited ∧ bytes_ok jited ∧ Z.of_nat (length jited) = nr_linfo p * jited_rec_size p ∧ 8 ≤ jited_rec_size p < 2 ^ 32 ∧
  nr_jited_func p = Z.of_nat (length starts) ∧ jited_linfo_func_idx p = Some (Some <$> starts) ∧
  nr_jited_linfo_per_func p = Some (Some <$> gaps (starts ++ [nr_linfo p])) ∧ splits (addr_at (jited_rec_size p) jited) kf kl (nr_linfo p) starts.
Definition linfo_ok (p : bpf_prog_linfo) : Prop :=
  0 < nr_linfo p < 2 ^ 32 ∧ 4 ≤ rec_size p < 2 ^ 32 ∧
  ∃ raw, raw_linfo p = Some raw ∧ bytes_ok raw ∧ Z.of_nat (length raw) = nr_linfo p * rec_size p.

Lemma dissect_ok p jited kf kl : 0 < nr_linfo p < 2 ^ 32 → 8 ≤ jited_rec_size p < 2 ^ 32 → raw_jited_linfo p = Some jited → bytes_ok jited →
  Z.of_nat (length jited) = nr_linfo p * jited_rec_size p → 0 < nr_jited_func p → Z.of_nat (length kf) = nr_jited_func p → Z.of_nat (length kl) = nr_jited_func p →
  nr_jited_linfo_per_func p = Some (replicate (Z.to_nat (nr_jited_func p)) None) → jited_linfo_func_idx p = Some (replicate (Z.to_nat (nr_jited_func p)) None) →
  ∃ err p', dissect_jited_func p kf kl = Some (err, p') ∧ (err = - EINVAL ∧ p' = p ∧ (∀ sts, ¬ splits (addr_at (jited_rec_size p) jited) kf kl (nr_linfo p) sts) ∨ err = 0 ∧ raw_linfo p' = raw_linfo p ∧ nr_linfo p' = nr_linfo p ∧
    rec_size p' = rec_size p ∧ jited_rec_size p' = jited_rec_size p ∧ ∃ starts, tables p' jited kf kl starts).
Proof.
  intros Hn Hj Er Hb Hl Hf Hkf Hkl Ep Ei. unfold dissect_jited_func. rewrite Er, Ep, Ei. cbn [mbind option_bind].
  set (A := addr_at (jited_rec_size p) jited). rewrite load_Some by nia. change (le_val (sub 0 8 jited)) with (A 0). cbn [mbind option_bind].
  destruct (get_ok kf 0) as (fn & Ef & Ef'); [lia|]. rewrite Ef. cbn [mbind option_bind]. destruct (Z.eqb_spec fn (A 0)) as [->|Hne]; cbn [negb].
  2: { eexists _, _. split; [done|]. left. split; [done|]. split; [done|]. intros sts (_ & _ & D). pose proof (d_first _ _ _ _ D) as H0. destruct sts as [|z sts]; [done|].
       injection H0 as ->. pose proof (d_at _ _ _ _ D 0%nat 0 eq_refl) as E0. change (Z.to_nat 0) with 0%nat in Ef'. congruence. }
  destruct (Z.to_nat (nr_jited_func p)) as [|k] eqn:Ek; [lia|]. change (replicate (S k) None) with (written [] (S k)) at 2.
  rewrite (put_next [] k 0 0 eq_refl). cbn [mbind option_bind app].
  pose proof (dissect_loop_ok (Z.to_nat (nr_linfo p - 1)) jited (jited_rec_size p) kf kl (nr_jited_func p) (A 0) 1 [] 0 k Hb) as Hd.
  assert (∀ r, dissect_loop (Z.to_nat (nr_linfo p - 1)) jited (jited_rec_size p) kf kl (nr_jited_func p) (A 0) 1 0 1 (replicate (S k) None) (written [0] k) = r →
    match r with Some (inr (f, _, _, _)) => f ≠ nr_jited_func p | _ => True end → ∀ sts, r ≠ None → ¬ splits A kf kl (nr_linfo p) sts) as Hno.
  { intros r <- Hr sts Hsome (S1 & S2 & S3). pose proof (d_first _ _ _ _ S3) as H0. destruct sts as [|z sts]; [done|]. injection H0 as ->.
    pose proof (dissect_complete (Z.to_nat (nr_linfo p - 1)) jited (jited_rec_size p) kf kl (nr_jited_func p) (A 0) 1 [] 0 (replicate (S k) None) (written [0] k) (0 :: sts)) as Hc.
    cbn [app length] in Hc. change (Z.of_nat 1) with 1 in Hc. replace (1 + Z.to_nat (nr_linfo p - 1)) with (nr_linfo p) in Hc by lia.
    destruct (dissect_loop _ _ _ _ _ _ _ _ _ _ _ _) as [[e|[[[f ?] ?] ?]]|]; [|apply Hr|done]; apply Hc; try done; try lia; try (cbn in S1; lia);
      intros s Hs; pose proof (sorted_next _ 0 _ _ (proj1 S2) eq_refl Hs); lia. }
  replace (1 + Z.to_nat (nr_linfo p - 1)) with (nr_linfo p) in Hd by lia. cbn [app length] in Hd. change (gaps [0]) with (@nil Z) in Hd.
  destruct Hd as [E|(ss & x & k' & E & Hasc & Hdiv & Hk)]; [lia..|nia|done|done|lia|split; [by repeat constructor|by apply Forall_singleton; lia]| | |done| |].
  { split; [done|intros [|f] s' [= <-]; exact Ef'|by intros f s' s2 j ? [=]|by intros f s' s2 j ? [=]]. }
  { intros j Hjj. lia. }
  - change (Z.of_nat 1) with 1 in E. change (written [] (S k)) with (replicate (S k) (@None Z)) in E. rewrite E. cbn [mbind option_bind]. eexists _, _. split; [done|]. left. split; [done|]. split; [done|]. intros sts. by apply (Hno _ E).
  - change (Z.of_nat 1) with 1 in E. change (written [] (S k)) with (replicate (S k) (@None Z)) in E. rewrite E. cbn [mbind option_bind].
    destruct (Z.eqb_spec (length (ss ++ [x])) (nr_jited_func p)) as [Ee|Ee]; cbn [negb]; [|eexists _, _; split; [done|]; left; split; [done|]; split; [done|]; intros sts; by apply (Hno _ E)].
    assert (k' = 0%nat) as -> by lia. assert (0 ≤ x < nr_linfo p) as Hx.
    { destruct Hasc as [_ Ha]. apply Forall_app in Ha as [_ Ha]. rewrite Forall_singleton in Ha. exact Ha. }
    rewrite put_next by (pose proof (length_gaps (ss ++ [x]) ltac:(by destruct ss)); lia). cbn [mbind option_bind]. rewrite (wrap_small 32), <- gaps_snoc by (unfold is_word; lia).
    eexists _, _. split; [done|]. right. cbn. split; [done|]. split; [done|]. split; [done|]. split; [done|]. split; [done|]. exists (ss ++ [x]). unfold tables, written. cbn.
    rewrite !app_nil_r. unfold splits. do 7 (split; [done|]). split; [lia|done].
Qed.

Section linfo_new_ok.
Context (malloc_ok : nat → bool).

Lemma wp_copy n src h (Q : list Z → heap → Prop) : n = Z.of_nat (length src) → Q src h → wp (copy n src) h Q.
Proof.
  intros -> Hq. unfold wp, copy. rewrite range_Some by lia. cbn [mbind option_bind]. unfold sub. rewrite Nat2Z.id. change (Z.to_nat 0) with 0%nat. rewrite drop_0. by rewrite take_ge by lia.
Qed.

Definition blocks_of (p : bpf_prog_linfo) : Z :=
  1 + one (raw_linfo p) + one (raw_jited_linfo p) + one (nr_jited_linfo_per_func p) + one (jited_linfo_func_idx p).

Lemma linfo_free_ok p h (Q : () → heap → Prop) : blocks_of p ≤ live h → (∀ h', live h' = live h - blocks_of p → Q () h') → wp (bpf_prog_linfo__free (Some p)) h Q.
Proof.
  unfold blocks_of. intros Hl Hq. unfold bpf_prog_linfo__free. pose proof (one_range (raw_linfo p)). pose proof (one_range (raw_jited_linfo p)).
  pose proof (one_range (nr_jited_linfo_per_func p)). pose proof (one_range (jited_linfo_func_idx p)).
  do 4 (apply wp_bind, wp_free; [lia|]; intros ? ?). apply wp_free; [lia|]. intros hn Hh. apply Hq. cbn in Hh. lia.
Qed.

(** Why there is no object: no memory, no records, records that are too short, or
    records of the compiled code that cannot be divided among its functions. *)
Definition refused (info : bpf_prog_info) : Prop :=
  (∃ n, malloc_ok n = false) ∨ nr_line_info info = 0 ∨ line_info_rec_size info < 4 ∨
  ∃ jl kf kl, jited_ok info = true ∧ jited_line_info info = Some jl ∧ jited_ksyms info = Some kf ∧ jited_func_lens info = Some kl ∧
    ∀ starts, ¬ splits (addr_at (jited_line_info_rec_size info) jl) kf kl (nr_line_info info) starts.

(** What making an object gives. *)
Definition made (info : bpf_prog_info) (h : heap) (r : option bpf_prog_linfo) (h' : heap) : Prop :=
  match r with
  | None => live h' = live h ∧ (l_errno h' = EINVAL ∨ l_errno h' = ENOMEM) ∧ refused info
  | Some p => linfo_ok p ∧ live h' = live h + blocks_of p ∧ raw_linfo p = Some (line_info info) ∧ nr_linfo p = nr_line_info info ∧
      rec_size p = line_info_rec_size info ∧ (if jited_ok info then raw_jited_linfo p = jited_line_info info else raw_jited_linfo p = None) ∧
      (∀ jl, raw_jited_linfo p = Some jl → jited_rec_size p = jited_line_info_rec_size info ∧
         ∃ kf kl starts, jited_ksyms info = Some kf ∧ jited_func_lens info = Some kl ∧ tables p jl kf kl starts)
  end.

Lemma made_fail info h0 h e : live h = live h0 → e = EINVAL ∨ e = ENOMEM → refused info → wp (fail e) h (made info h0).
Proof. intros Hl He Hr. by split. Qed.
Lemma made_err_free info h0 p h : 0 ≤ live h0 → live h = live h0 + blocks_of p → refused info → wp (err_free p) h (made info h0).
Proof. intros H0 Hl Hr. unfold err_free. apply wp_bind, linfo_free_ok; [lia|]. intros h' Hh. apply made_fail; [lia|by left|done]. Qed.

Lemma linfo_new_ok info h : info_ok info → 0 ≤ live h → wp (bpf_prog_linfo__new malloc_ok info) h (made info h).
Proof.
  intros [Hnr Hrec Hb Hlen Hjrec Hks Hls Hjl] Hlive. unfold bpf_prog_linfo__new. unfold is_word in Hnr, Hrec, Hjrec.
  destruct (Z.eqb_spec (nr_line_info info) 0); [apply made_fail; unfold refused; auto|]. destruct (Z.ltb_spec (line_info_rec_size info) 4); [apply made_fail; unfold refused; auto|].
  apply wp_bind, wp_malloc_no; [intros h1 L1 Hno|intros h1 L1]; cbn [negb]; [apply made_fail; auto; by left|].
  apply wp_bind, wp_malloc_no; [intros h2 L2 Hno|intros h2 L2]; cbn [negb]; [apply made_err_free; [lia|unfold blocks_of; cbn; lia|by left]|].
  apply wp_bind. rewrite wrap_small by (unfold is_word; change (2 ^ 64) with (2 ^ 32 * 2 ^ 32); nia). apply wp_copy; [lia|].
  assert (∀ h', live h' = live h + 2 → jited_ok info = false → wp (pret (Some (mk_linfo (Some (line_info info)) None None None (nr_line_info info) 0 (line_info_rec_size info) 0))) h' (made info h)) as Hplain.
  { intros h' Hh Hj. apply wp_ret. unfold made, blocks_of. rewrite Hj. cbn. split; [|split; [lia|done]]. split; [cbn; lia|]. split; [cbn; lia|]. by exists (line_info info). }
  destruct (jited_line_info info) as [jl|] eqn:Ejl; [|apply Hplain; [lia|unfold jited_ok; by rewrite Ejl, andb_false_r]]. destruct (jited_ksyms info) as [ks|] eqn:Eks; [|apply Hplain; [lia|unfold jited_ok; by rewrite Eks, andb_false_r]].
  destruct (jited_func_lens info) as [ls|] eqn:Els; [|apply Hplain; [lia|unfold jited_ok; by rewrite Els, andb_false_r]].
  destruct (jited_ok info) eqn:Ejok; cbn [negb]; [|apply Hplain; [lia|done]].
  pose proof Ejok as Ej. unfold jited_ok in Ej. repeat (apply andb_true_iff in Ej as [Ej ?]). destruct (Hjl jl eq_refl) as [Hjb Ejlen].
  specialize (Hks ks eq_refl). specialize (Hls ls eq_refl).
  apply wp_bind, wp_malloc_no; [intros h3 L3 Hno|intros h3 L3]; cbn [negb]; [apply made_err_free; [lia|unfold blocks_of; cbn; lia|by left]|].
  apply wp_bind. rewrite wrap_small by (unfold is_word; change (2 ^ 64) with (2 ^ 32 * 2 ^ 32); nia). apply wp_copy; [lia|].
  apply wp_bind, wp_malloc_no; [intros h4 L4 Hno|intros h4 L4]; cbn [negb]; [apply made_err_free; [lia|unfold blocks_of; cbn; lia|by left]|].
  apply wp_bind, wp_malloc_no; [intros h5 L5 Hno|intros h5 L5]; cbn [negb]; [apply made_err_free; [lia|unfold blocks_of; cbn; lia|by left]|].
  set (p := mk_linfo _ _ _ _ _ _ _ _). apply wp_bind.
  destruct (dissect_ok p jl ks ls) as (err & p' & E & Hd); [cbn; lia..|done|done|cbn; nia|cbn; lia|cbn; lia|cbn; lia|done|done|].
  unfold wp at 1. rewrite E. cbn [mbind option_bind fst snd]. destruct Hd as [(-> & -> & Hno)|(-> & Er & En & Ec & Ejr & st & Ht)].
  - cbn [negb Z.eqb Z.opp EINVAL]. apply made_err_free; [done|unfold blocks_of; cbn; lia|]. do 3 right. by exists jl, ks, ls.
  - cbn [negb Z.eqb]. apply wp_ret. pose proof Ht as (Ej1 & _ & _ & _ & _ & Ei & Ep & _). unfold made, blocks_of. rewrite Ejok, Er, Ej1, Ei, Ep, Ejr, En, Ec. cbn.
    split; [|split; [lia|]; do 3 (split; [done|]); split; [done|]; intros l [= <-]; split; [done|]; by exists ks, ls, st].
    split; [rewrite En; cbn; lia|]. split; [rewrite Ec; cbn; lia|]. exists (line_info info). rewrite Er, En, Ec. by repeat split.
Qed.
End linfo_new_ok.

(** ** What the searches find *)

(** The last of the records from [lo] up to the first one above [target], among
    those below [hi]; for keys in ascending order, the last one not above it. *)
Definition found (key : Z → Z) (lo hi target rec : Z) (r : option (Z + Z)) : Prop :=
  (hi ≤ lo ∨ target < key lo) ∧ r = Some (inl ENOENT) ∨
  ∃ k, lo ≤ k < hi ∧ r = Some (inr (k * rec)) ∧ (∀ j, lo ≤ j ≤ k → key j ≤ target) ∧ (k + 1 = hi ∨ target < key (k + 1)).

Definition insn_at (rec : Z) (raw : list Z) (j : Z) : Z := le_val (sub (j * rec) 4 raw).

Lemma addr_loop_ok (n : nat) : ∀ p jited addr k, 0 ≤ k → 8 ≤ jited_rec_size p → (k + n) * jited_rec_size p ≤ length jited →
  ∃ m, k ≤ m ≤ k + n ∧ addr_loop n p jited addr (k * rec_size p) (k * jited_rec_size p) = Some (m * rec_size p) ∧
    (∀ j, k ≤ j < m → addr_at (jited_rec_size p) jited j ≤ addr) ∧ (m = k + n ∨ addr < addr_at (jited_rec_size p) jited m).
Proof.
  induction n as [|n IH]; intros p jited addr k Hk Hj Hl; cbn [addr_loop]; [exists k; split; [lia|]; split; [done|]; split; [lia|lia]|].
  rewrite load_Some by nia. cbn [mbind option_bind]. fold (addr_at (jited_rec_size p) jited k).
  destruct (Z.ltb_spec addr (addr_at (jited_rec_size p) jited k)) as [Ha|Ha]; [exists k; split; [lia|]; split; [done|]; split; [lia|by right]|].
  destruct (IH p jited addr (k + 1)) as (m & Hm & E & Hle & Hnext); [lia|done|nia|]. exists m. split; [lia|].
  replace (k * rec_size p + rec_size p) with ((k + 1) * rec_size p) by lia. replace (k * jited_rec_size p + jited_rec_size p) with ((k + 1) * jited_rec_size p) by lia.
  split; [done|]. split; [|destruct Hnext; [left; lia|by right]]. intros j Hjk. destruct (decide (j = k)) as [->|]; [done|apply Hle; lia].
Qed.
Lemma insn_loop_ok (n : nat) : ∀ p raw insn k, 0 ≤ k → 4 ≤ rec_size p → (k + n) * rec_size p ≤ length raw →
  ∃ m, k ≤ m ≤ k + n ∧ insn_loop n p raw insn (k * rec_size p) = Some (m * rec_size p) ∧
    (∀ j, k ≤ j < m → insn_at (rec_size p) raw j ≤ insn) ∧ (m = k + n ∨ insn < insn_at (rec_size p) raw m).
Proof.
  induction n as [|n IH]; intros p raw insn k Hk Hj Hl; cbn [insn_loop]; [exists k; split; [lia|]; split; [done|]; split; [lia|lia]|].
  rewrite load_Some by nia. cbn [mbind option_bind]. fold (insn_at (rec_size p) raw k).
  destruct (Z.ltb_spec insn (insn_at (rec_size p) raw k)) as [Ha|Ha]; [exists k; split; [lia|]; split; [done|]; split; [lia|by right]|].
  destruct (IH p raw insn (k + 1)) as (m & Hm & E & Hle & Hnext); [lia|done|nia|]. exists m. split; [lia|].
  replace (k * rec_size p + rec_size p) with ((k + 1) * rec_size p) by lia.
  split; [done|]. split; [|destruct Hnext; [left; lia|by right]]. intros j Hjk. destruct (decide (j = k)) as [->|]; [done|apply Hle; lia].
Qed.

(** The record before the one where a scan stopped. *)
Lemma found_scan key lo (n : nat) target rec m : (0 < n)%nat → key lo ≤ target → lo ≤ m ≤ lo + n → (∀ j, lo ≤ j < m → key j ≤ target) →
  (m = lo + n ∨ target < key m) → found key lo (lo + n) target rec (Some (inr (m * rec - rec))).
Proof.
  intros Hn Hlo Hm Hle Hnext. assert (lo < m) by (destruct Hnext; [lia|]; destruct (decide (m = lo)) as [->|]; lia).
  right. exists (m - 1). split; [lia|]. split; [do 2 f_equal; lia|]. split; [intros j Hj; apply Hle; lia|]. replace (m - 1 + 1) with m by lia. destruct Hnext; [left; lia|by right].
Qed.

Lemma lfind_ok p raw insn skip : linfo_ok p → raw_linfo p = Some raw → nr_linfo p * rec_size p < 2 ^ 32 → 0 ≤ skip →
  found (insn_at (rec_size p) raw) skip (nr_linfo p) insn (rec_size p) (bpf_prog_linfo__lfind p insn skip).
Proof.
  intros (Hn & Hr & raw' & Er & _ & Hl) Er' Hov Hs. rewrite Er' in Er. injection Er as <-. unfold bpf_prog_linfo__lfind.
  destruct (Z.leb_spec (nr_linfo p) skip); [left; split; [by left|done]|]. rewrite Er'. cbn [mbind option_bind].
  rewrite (wrap_small 32) by (unfold is_word; nia). rewrite load_Some by nia. cbn [mbind option_bind]. fold (insn_at (rec_size p) raw skip).
  destruct (Z.ltb_spec insn (insn_at (rec_size p) raw skip)) as [Ha|Ha]; [left; split; [by right|done]|].
  destruct (insn_loop_ok (Z.to_nat (nr_linfo p - skip)) p raw insn skip) as (m & Hm & E & Hle & Hnext); [lia|lia|nia|]. rewrite E. cbn [mbind option_bind].
  replace (nr_linfo p) with (skip + Z.to_nat (nr_linfo p - skip)) by lia. by apply found_scan; [lia|..].
Qed.

Lemma gap_at starts nr (f : nat) s c : ascending starts nr → starts !! f = Some s → gaps (starts ++ [nr]) !! f = Some c → 0 < c ∧ 0 ≤ s ∧ s + c ≤ nr.
Proof.
  intros Hasc Hs Hc. unfold gaps in Hc. apply lookup_zip_with_Some in Hc as (a & b & -> & Ha & Hb).
  rewrite lookup_app_l in Ha by (by apply lookup_lt_Some in Hs). rewrite Hs in Ha. injection Ha as <-.
  destruct Hasc as [Hsort Hf]. pose proof (proj1 (Forall_lookup _ _) Hf _ _ Hs) as Hr. cbn in Hr.
  assert ((starts ++ [nr]) !! S f = Some b) as Hb' by (destruct starts as [|z l]; [done|exact Hb]).
  destruct (decide (S f < length starts)%nat) as [Hl|Hl].
  - rewrite lookup_app_l in Hb' by done. pose proof (proj1 (Forall_lookup _ _) Hf _ _ Hb') as Hr'. cbn in Hr'.
    pose proof (sorted_next _ _ _ _ Hsort Hs Hb'). lia.
  - apply lookup_lt_Some in Hs. assert (S f = length starts) as Ef by lia. rewrite lookup_app_r, Ef, Nat.sub_diag in Hb' by lia. injection Hb' as <-. lia.
Qed.

Lemma lfind_addr_ok p jited kf kl starts addr f s c skip : tables p jited kf kl starts → 0 < nr_linfo p < 2 ^ 32 → 4 ≤ rec_size p →
  nr_linfo p * rec_size p < 2 ^ 32 → nr_linfo p * jited_rec_size p < 2 ^ 32 → 0 ≤ skip →
  starts !! f = Some s → gaps (starts ++ [nr_linfo p]) !! f = Some c →
  found (addr_at (jited_rec_size p) jited) (s + skip) (s + c) addr (rec_size p) (bpf_prog_linfo__lfind_addr_func p addr (Z.of_nat f) skip).
Proof.
  intros (Ej & _ & Hl & Hj & Enf & Ei & Ep & _ & Hasc & _) Hn Hrec Ho1 Ho2 Hs Hsf Hcf. destruct (gap_at _ _ _ _ _ Hasc Hsf Hcf) as (Hc & Hs0 & Hsc).
  unfold bpf_prog_linfo__lfind_addr_func. pose proof (lookup_lt_Some _ _ _ Hsf). rewrite (proj2 (Z.leb_gt _ _)) by lia. rewrite Ep, Ei, Ej.
  cbn [mbind option_bind]. unfold get. rewrite (proj2 (Z.leb_le 0 _)) by lia. rewrite Nat2Z.id, !list_lookup_fmap, Hsf, Hcf. cbn [mbind option_bind fmap option_fmap option_map mjoin option_join].
  destruct (Z.leb_spec c skip); [left; split; [left; lia|done]|]. rewrite (wrap_small 32 (s + skip)) by (unfold is_word; lia).
  rewrite (wrap_small 32), (wrap_small 32) by (unfold is_word; nia). rewrite load_Some by nia. cbn [mbind option_bind]. fold (addr_at (jited_rec_size p) jited (s + skip)).
  destruct (Z.ltb_spec addr (addr_at (jited_rec_size p) jited (s + skip))) as [Ha|Ha]; [left; split; [by right|done]|].
  destruct (addr_loop_ok (Z.to_nat (c - skip)) p jited addr (s + skip)) as (m & Hm & E & Hle & Hnext); [lia|lia|nia|]. rewrite E. cbn [mbind option_bind].
  replace (s + c) with (s + skip + Z.to_nat (c - skip)) by lia. by apply found_scan; [lia|..].
Qed.

(** C40: making the object from a description of a program always ends.  It fails,
    and gives every block back, exactly for lack of memory, without records, with
    records that are too short, or when the records of the compiled code cannot be
    divided among the functions of the kernel's table: the first record of each
    has its address, up to the next one the addresses ascend without meeting it,
    and stay within the length of the function.  Otherwise, as long as the tables are
    smaller than 2^32 bytes, a search for an instruction, or for an address among the
    records of a function, gives the last record up to the first one above it, among
    those not to be skipped, or [ENOENT] if there is none. *)
Theorem linfo_searches malloc_ok info h : info_ok info → 0 ≤ live h →
  nr_line_info info * line_info_rec_size info < 2 ^ 32 → nr_line_info info * jited_line_info_rec_size info < 2 ^ 32 →
  wp (bpf_prog_linfo__new malloc_ok info) h (λ r h',
    match r with
    | None => live h' = live h ∧ (l_errno h' = EINVAL ∨ l_errno h' = ENOMEM) ∧ refused malloc_ok info
    | Some p =>
      (∀ insn skip, 0 ≤ skip → found (insn_at (line_info_rec_size info) (line_info info)) skip (nr_line_info info) insn (line_info_rec_size info)
        (bpf_prog_linfo__lfind p insn skip)) ∧
      (if jited_ok info then raw_jited_linfo p = jited_line_info info else raw_jited_linfo p = None) ∧
      (∀ jl, raw_jited_linfo p = Some jl → ∃ kf kl starts, jited_ksyms info = Some kf ∧ jited_func_lens info = Some kl ∧
        splits (addr_at (jited_line_info_rec_size info) jl) kf kl (nr_line_info info) starts ∧
        ∀ addr f s c skip, 0 ≤ skip → starts !! f = Some s → gaps (starts ++ [nr_line_info info]) !! f = Some c →
          found (addr_at (jited_line_info_rec_size info) jl) (s + skip) (s + c) addr (line_info_rec_size info) (bpf_prog_linfo__lfind_addr_func p addr (Z.of_nat f) skip)) ∧
      wp (bpf_prog_linfo__free (Some p)) h' (λ _ h'', live h'' = live h)
    end).
Proof.
  intros Hi Hl Ho1 Ho2. eapply wp_mono; [by apply linfo_new_ok|]. intros [p|] h'; [|done]. intros (Hok & El & Er & En & Ec & Ejo & Ejl). split_and!.
  - intros insn skip Hs. rewrite <- Ec, <- En. apply lfind_ok; [done|done|by rewrite Ec, En|done].
  - exact Ejo.
  - intros jl Ej. destruct (Ejl jl Ej) as (Ejr & kf & kl & starts & Ek & Els & Ht). destruct Hok as (Hn & Hr & _).
    exists kf, kl, starts. split; [done|]. split; [done|]. split; [rewrite <- Ejr, <- En; apply Ht|].
    intros addr f s c skip Hs Hsf Hcf. rewrite <- Ejr, <- Ec. apply (lfind_addr_ok p jl kf kl starts); try done.
    + lia.
    + by rewrite Ec, En.
    + by rewrite Ejr, En.
    + by rewrite En.
  - apply linfo_free_ok; [lia|]. intros h'' Hh. lia.
Qed.

Definition demo_info : bpf_prog_info :=
  mk_info 3 4 (le_bytes 4 0 ++ le_bytes 4 5 ++ le_bytes 4 9) 2 (Some [100; 300]) 2 (Some [50; 60]) 3 8 (Some (le_bytes 8 100 ++ le_bytes 8 120 ++ le_bytes 8 300)).
(** The object is made, and an address of the second function is found there. *)
Lemma linfo_searches_witness : ∃ p h', bpf_prog_linfo__new (λ _, true) demo_info (mk_heap 0 0 0) = Some (Some p, h') ∧
  nr_jited_func p = 2 ∧
  ∃ starts, splits (addr_at 8 (le_bytes 8 100 ++ le_bytes 8 120 ++ le_bytes 8 300)) [100; 300] [50; 60] 3 starts ∧
    ∀ addr f s c skip, 0 ≤ skip → starts !! f = Some s → gaps (starts ++ [3]) !! f = Some c →
      found (addr_at 8 (le_bytes 8 100 ++ le_bytes 8 120 ++ le_bytes 8 300)) (s + skip) (s + c) addr 4 (bpf_prog_linfo__lfind_addr_func p addr (Z.of_nat f) skip).
Proof.
  assert (∃ p h', bpf_prog_linfo__new (λ _, true) demo_info (mk_heap 0 0 0) = Some (Some p, h') ∧ nr_jited_func p = 2) as (p & h' & E & Ef).
  { eexists _, _. split; [vm_compute; reflexivity|reflexivity]. }
  exists p, h'. split; [exact E|]. split; [exact Ef|].
  assert (info_ok demo_info) as Hi.
  { split; try (vm_compute; split; congruence); try (intros l [= <-]; vm_compute; reflexivity).
    + apply (bool_decide_unpack _). vm_compute. exact I.
    + intros l [= <-]. split; [apply (bool_decide_unpack _); vm_compute; exact I|vm_compute; reflexivity]. }
  pose proof (linfo_searches (λ _, true) demo_info (mk_heap 0 0 0) Hi (Z.le_refl 0) eq_refl eq_refl) as Hw.
  unfold wp at 1 in Hw. rewrite E in Hw. destruct Hw as (_ & Hr & Hs & _). change (jited_ok demo_info) with true in Hr. cbv iota in Hr.
  destruct (Hs _ Hr) as (kf & kl & starts & Ek & El & Hsp & Hfind). injection Ek as <-. injection El as <-.
  exists starts. split; [exact Hsp|exact Hfind].
Defined.

Example demo_lookup :
  (λ p : option bpf_prog_linfo * heap, p.1 ≫= λ p, Some (bpf_prog_linfo__lfind p 7 0, bpf_prog_linfo__lfind_addr_func p 130 0 0, bpf_prog_linfo__lfind_addr_func p 299 1 0))
    <$> bpf_prog_linfo__new (λ _, true) demo_info (mk_heap 0 0 0) = Some (Some (Some (inr 4), Some (inr 4), Some (inl ENOENT))).
Proof. vm_compute. reflexivity. Qed.
