(* ===== verification/PinnedMaps.v ===== *)
(** * Loading an object with pinned maps

    [bpf_prog_load_xattr_maps] of [src/src/common/common_libbpf.c]: opens an object
    file, lets every requested map that is already pinned reuse the pinned one,
    loads the object, and pins the other requested maps. *)

From S2P Require Import Prelude CString Errno.

(** [struct bpf_pinned_map] and [struct bpf_prog_load_attr_maps]. *)
Record bpf_pinned_map := mk_pin { pin_name : string; pin_filename : string; map_fd : Z }.
Record load_attr := mk_attr {
  file : option string;
  prog_type : Z;
  expected_attach_type : Z;
  attr_ifindex : Z;
  pinned_maps : list bpf_pinned_map }.

Definition set_fd (fd : Z) (p : bpf_pinned_map) : bpf_pinned_map := mk_pin (pin_name p) (pin_filename p) fd.

(** A map of the object and whether it may be offloaded. *)
Record bpf_map := mk_map { map_name : string; offload_neutral : bool }.

(** The calls that change the object or the file system, in order. *)
Inductive event :=
  | SetupProg (prog : string) (ifindex type attach_type : Z)
  | MapIfindex (map : string) (ifindex : Z)
  | ReuseFd (map : string) (fd : Z)
  | Load
  | Pin (map path : string)
  | CloseObj.

Section load.
(** libbpf and the file system: the opened object (its programs and maps), the
    descriptor of a pinned file, the result of loading, of pinning, and the
    descriptors of maps and programs. *)
Context (bpf_object_open : string → option (list string * list bpf_map))
        (bpf_obj_get : string → Z) (bpf_object_load : Z)
        (bpf_map_pin : string → string → Z) (bpf_map_fd bpf_program_fd : string → Z).

(** The inner loop of the first pass over the maps, for one map. *)
Definition reuse_entry (map : string) (p : bpf_pinned_map) : bpf_pinned_map * list event :=
  if negb (streq map (pin_name p)) then (p, [])
  else
    let fd := bpf_obj_get (pin_filename p) in
    if 0 <? fd then (set_fd fd p, [ReuseFd map fd]) else (p, []).

(** The inner loop of the second pass, after loading. *)
Definition pin_entry (map : string) (p : bpf_pinned_map) : bpf_pinned_map * list event :=
  if negb (streq map (pin_name p)) then (p, [])
  else if negb (map_fd p =? -1) then (p, [])
  else
    let err := bpf_map_pin map (pin_filename p) in
    if negb (err =? 0) then (p, [Pin map (pin_filename p)])
    else (set_fd (bpf_map_fd map) p, [Pin map (pin_filename p)]).

Fixpoint entries (f : bpf_pinned_map → bpf_pinned_map * list event) (ps : list bpf_pinned_map)
    : list bpf_pinned_map * list event :=
  match ps with
  | [] => ([], [])
  | p :: ps => let (p, e) := f p in let (ps, es) := entries f ps in (p :: ps, e ++ es)
  end.

Fixpoint reuse_pass (maps : list bpf_map) (ifindex : Z) (ps : list bpf_pinned_map)
    : list bpf_pinned_map * list event :=
  match maps with
  | [] => (ps, [])
  | m :: maps =>
    let off := if negb (offload_neutral m) then [MapIfindex (map_name m) ifindex] else [] in
    let (ps, e) := entries (reuse_entry (map_name m)) ps in
    let (ps, es) := reuse_pass maps ifindex ps in (ps, off ++ e ++ es)
  end.

Fixpoint pin_pass (maps : list bpf_map) (ps : list bpf_pinned_map) : list bpf_pinned_map * list event :=
  match maps with
  | [] => (ps, [])
  | m :: maps =>
    let (ps, e) := entries (pin_entry (map_name m)) ps in
    let (ps, es) := pin_pass maps ps in (ps, e ++ es)
  end.

Record result := mk_result {
  ret : Z; out_prog_fd : option Z; out_maps : list bpf_pinned_map; events : list event }.

(** [None] is the fault of a null [attr], which is followed in the initialiser
    before it is tested. *)
Definition bpf_prog_load_xattr_maps (attr : option load_attr) : option result :=
  match attr with
  | None => None
  | Some attr =>
    Some match file attr with
    | None => mk_result (- EINVAL) None (pinned_maps attr) []
    | Some f =>
      match bpf_object_open f with
      | None => mk_result (- ENOENT) None (pinned_maps attr) []
      | Some (progs, maps) =>
        let setup := (λ p, SetupProg p (attr_ifindex attr) (prog_type attr) (expected_attach_type attr)) <$> progs in
        let reset := set_fd (-1) <$> pinned_maps attr in
        let (ps, e1) := reuse_pass maps (attr_ifindex attr) reset in
        match progs with
        | [] => mk_result (- ENOENT) None ps (setup ++ e1 ++ [CloseObj])
        | first_prog :: _ =>
          if negb (bpf_object_load =? 0)
          then mk_result (- EINVAL) None ps (setup ++ e1 ++ [Load; CloseObj])
          else
            let (ps, e2) := pin_pass maps ps in
            mk_result 0 (Some (bpf_program_fd first_prog)) ps (setup ++ e1 ++ [Load] ++ e2)
        end
      end
    end
  end.

(** ** What the passes compute *)

Lemma entries_fst f ps : (entries f ps).1 = (λ p, (f p).1) <$> ps.
Proof.
  induction ps as [|p ps IH]; cbn; [done|]. destruct (f p) as [p' e], (entries f ps) as [ps' es]. cbn in *. by f_equal.
Qed.

Definition has_map (maps : list bpf_map) (name : string) : Prop := name ∈ map_name <$> maps.

#[local] Instance has_map_dec maps name : Decision (has_map maps name).
Proof. unfold has_map. apply _. Defined.

(** The entry after the first pass and after the second. *)
Definition reused (maps : list bpf_map) (p : bpf_pinned_map) : bpf_pinned_map :=
  if decide (has_map maps (pin_name p) ∧ 0 < bpf_obj_get (pin_filename p))
  then set_fd (bpf_obj_get (pin_filename p)) p else p.
Definition pinned (maps : list bpf_map) (p : bpf_pinned_map) : bpf_pinned_map :=
  if decide (has_map maps (pin_name p) ∧ map_fd p = -1 ∧ bpf_map_pin (pin_name p) (pin_filename p) = 0)
  then set_fd (bpf_map_fd (pin_name p)) p else p.

Lemma has_map_cons m maps n : has_map (m :: maps) n ↔ n = map_name m ∨ has_map maps n.
Proof. unfold has_map. apply elem_of_cons. Qed.

Lemma has_map_nil n : ¬ has_map [] n.
Proof. apply not_elem_of_nil. Qed.

Lemma reused_cons m maps p : reused maps (reuse_entry (map_name m) p).1 = reused (m :: maps) p.
Proof.
  unfold reuse_entry, streq. case_bool_decide as E; cbn [negb].
  - destruct (Z.ltb_spec 0 (bpf_obj_get (pin_filename p))); unfold reused; cbn.
    + rewrite (decide_True (P := has_map (m :: maps) _ ∧ _)) by (rewrite has_map_cons; auto). by destruct (decide _).
    + rewrite !decide_False by (intros [_ ?]; lia). done.
  - unfold reused. cbn. apply decide_ext. rewrite has_map_cons. intuition congruence.
Qed.

Lemma pinned_cons m maps p : pinned maps (pin_entry (map_name m) p).1 = pinned (m :: maps) p.
Proof.
  unfold pin_entry, streq. case_bool_decide as E; cbn [negb].
  - destruct (Z.eqb_spec (map_fd p) (-1)) as [Hfd|Hfd]; cbn [negb].
    + destruct (Z.eqb_spec (bpf_map_pin (map_name m) (pin_filename p)) 0) as [Hp|Hp]; cbn [negb fst];
        rewrite E in Hp; unfold pinned; cbn.
      * rewrite (decide_True (P := has_map (m :: maps) _ ∧ _)) by (rewrite has_map_cons; auto).
        rewrite E. by destruct (decide _).
      * rewrite !decide_False by (intros (_ & _ & ?); lia). done.
    + unfold pinned. cbn. rewrite !decide_False by (intros (_ & ? & _); lia). done.
  - unfold pinned. cbn. apply decide_ext. rewrite has_map_cons. intuition congruence.
Qed.

Lemma reuse_pass_fst maps i ps : (reuse_pass maps i ps).1 = reused maps <$> ps.
Proof.
  revert ps. induction maps as [|m maps IH]; intros ps; cbn [reuse_pass].
  - rewrite <- (list_fmap_id ps) at 1. apply list_fmap_ext. intros _ p _. unfold reused.
    rewrite decide_False; [done|]. by intros [Hin%has_map_nil _].
  - pose proof (entries_fst (reuse_entry (map_name m)) ps) as E. destruct (entries _ ps) as [ps1 e]. cbn in E. subst ps1.
    specialize (IH ((λ p, (reuse_entry (map_name m) p).1) <$> ps)). destruct (reuse_pass _ _ _) as [ps2 es]. cbn in *.
    subst ps2. rewrite <- list_fmap_compose. apply list_fmap_ext. intros _ p _. apply reused_cons.
Qed.

Lemma pin_pass_fst maps ps : (pin_pass maps ps).1 = pinned maps <$> ps.
Proof.
  revert ps. induction maps as [|m maps IH]; intros ps; cbn [pin_pass].
  - rewrite <- (list_fmap_id ps) at 1. apply list_fmap_ext. intros _ p _. unfold pinned.
    rewrite decide_False; [done|]. by intros [Hin%has_map_nil _].
  - pose proof (entries_fst (pin_entry (map_name m)) ps) as E. destruct (entries _ ps) as [ps1 e]. cbn in E. subst ps1.
    specialize (IH ((λ p, (pin_entry (map_name m) p).1) <$> ps)). destruct (pin_pass _ _) as [ps2 es]. cbn in *.
    subst ps2. rewrite <- list_fmap_compose. apply list_fmap_ext. intros _ p _. apply pinned_cons.
Qed.

(** The first pass and the set-up never load, pin or close. *)
Definition quiet (e : event) : Prop := match e with Load | Pin _ _ | CloseObj => False | _ => True end.

Lemma entries_quiet map ps : Forall quiet (entries (reuse_entry map) ps).2.
Proof.
  induction ps as [|p ps IH]; cbn; [done|]. unfold reuse_entry at 1.
  destruct (negb _); [|destruct (_ <? _)]; destruct (entries _ ps); cbn in *; [done| |done]. by constructor.
Qed.

Lemma reuse_pass_quiet maps i ps : Forall quiet (reuse_pass maps i ps).2.
Proof.
  revert ps. induction maps as [|m maps IH]; intros ps; cbn [reuse_pass]; [done|].
  pose proof (entries_quiet (map_name m) ps) as E. destruct (entries _ ps) as [ps1 e].
  specialize (IH ps1). destruct (reuse_pass maps i ps1) as [ps2 es]. cbn in *.
  apply Forall_app. split; [by destruct (offload_neutral m); repeat constructor|]. by apply Forall_app.
Qed.

(** The descriptor an entry ends up with: that of the pinned file when it could
    be opened, otherwise that of the object's own map once it is pinned, and -1
    when the object has no such map or pinning failed. *)
Definition final_fd (maps : list bpf_map) (p : bpf_pinned_map) : Z :=
  if decide (has_map maps (pin_name p)) then
    if 0 <? bpf_obj_get (pin_filename p) then bpf_obj_get (pin_filename p)
    else if bpf_map_pin (pin_name p) (pin_filename p) =? 0 then bpf_map_fd (pin_name p) else -1
  else -1.

Lemma final_fd_ok maps p : pinned maps (reused maps (set_fd (-1) p)) = set_fd (final_fd maps p) p.
Proof.
  unfold final_fd, reused. cbn. destruct (decide (has_map maps (pin_name p))) as [Hh|Hh].
  - destruct (Z.ltb_spec 0 (bpf_obj_get (pin_filename p))) as [Hg|Hg].
    + rewrite decide_True by done. unfold pinned. cbn. rewrite decide_False by (intros (_ & ? & _); lia). done.
    + rewrite decide_False by (intros [_ ?]; lia). unfold pinned. cbn.
      destruct (Z.eqb_spec (bpf_map_pin (pin_name p) (pin_filename p)) 0).
      * by rewrite decide_True.
      * rewrite decide_False by (intros (_ & _ & ?); done). done.
  - rewrite decide_False by (intros [? _]; done). unfold pinned. cbn.
    rewrite decide_False by (intros [? _]; done). done.
Qed.

(** A successful load leaves in every requested entry the descriptor
    [final_fd] describes; a failing one has closed the object as its last
    action, has pinned nothing, and reports no program. *)
Theorem load_xattr_maps_result attr f progs maps :
  file attr = Some f → bpf_object_open f = Some (progs, maps) →
  ∃ r, bpf_prog_load_xattr_maps (Some attr) = Some r ∧
    (ret r = 0 ↔ progs ≠ [] ∧ bpf_object_load = 0) ∧
    (ret r = 0 → out_maps r = (λ p, set_fd (final_fd maps p) p) <$> pinned_maps attr ∧
       out_prog_fd r = bpf_program_fd <$> head progs) ∧
    (ret r ≠ 0 → out_prog_fd r = None ∧
       ∃ es, events r = es ++ [CloseObj] ∧ Forall (λ e, ∀ m p, e ≠ Pin m p) es).
Proof.
  intros Hf Ho. cbn. rewrite Hf, Ho.
  pose proof (reuse_pass_fst maps (attr_ifindex attr) (set_fd (-1) <$> pinned_maps attr)) as E.
  pose proof (reuse_pass_quiet maps (attr_ifindex attr) (set_fd (-1) <$> pinned_maps attr)) as Hq.
  destruct (reuse_pass _ _ _) as [ps e1]. cbn in E, Hq.
  assert (∀ es, Forall quiet es → Forall (λ e, ∀ m p, e ≠ Pin m p) es) as Hnp.
  { intros es H. eapply Forall_impl; [exact H|]. by intros []. }
  destruct progs as [|p0 progs].
  - eexists. split; [reflexivity|]. split; [cbn; unfold ENOENT; split; [lia|by intros [? _]]|].
    split; [done|]. intros _. split; [done|]. exists e1. split; [done|by apply Hnp].
  - destruct (Z.eqb_spec bpf_object_load 0) as [Hl|Hl]; cbn [negb].
    + pose proof (pin_pass_fst maps ps) as E2. destruct (pin_pass maps ps) as [ps2 e2]. cbn in E2.
      eexists. split; [reflexivity|]. split; [done|]. split; [|done]. intros _. split; [|done]. cbn [out_maps].
      rewrite E2, E, <- !list_fmap_compose. apply list_fmap_ext. intros _ p _. cbn.
      apply final_fd_ok.
    + eexists. split; [reflexivity|]. split; [cbn; unfold EINVAL; split; [lia|by intros [_ ?]]|].
      split; [done|]. intros _. split; [done|]. exists (((λ p, SetupProg p (attr_ifindex attr) (prog_type attr) (expected_attach_type attr)) <$> p0 :: progs)
        ++ e1 ++ [Load]).
      split; [cbn [events]; by rewrite <- !app_assoc|].
      rewrite !Forall_app, Forall_fmap, Forall_singleton. repeat split; [by apply Forall_true|by apply Hnp|done].
Qed.

End load.

(** A request for two maps, the first already pinned. *)
Definition sample_attr : load_attr :=
  mk_attr (Some "prog.o"%string) 6 37 3
    [mk_pin "xdp_stats_map" "/sys/fs/bpf/stats" 0; mk_pin "other" "/sys/fs/bpf/other" 0;
     mk_pin "missing" "/sys/fs/bpf/missing" 0].

Lemma load_xattr_maps_result_witness :
  let open (_ : string) := Some (["xdp_prog"%string], [mk_map "xdp_stats_map" true; mk_map "other" false]) in
  let get f := if streq f "/sys/fs/bpf/stats" then 5 else -1 in
  ∃ r, bpf_prog_load_xattr_maps open get 0 (λ _ _, 0) (λ _, 8) (λ _, 9) (Some sample_attr) = Some r ∧
    map_fd <$> out_maps r = [5; 8; -1].
Proof.
  destruct (load_xattr_maps_result
    (λ _, Some (["xdp_prog"%string], [mk_map "xdp_stats_map" true; mk_map "other" false]))
    (λ f, if streq f "/sys/fs/bpf/stats" then 5 else -1) 0 (λ _ _, 0) (λ _, 8) (λ _, 9)
    sample_attr "prog.o" ["xdp_prog"%string] [mk_map "xdp_stats_map" true; mk_map "other" false] eq_refl eq_refl)
    as (r & E & H0 & H1 & _).
  exists r. split; [exact E|]. destruct H1 as [-> _]; [|reflexivity]. by apply H0.
Defined.
