(* ===== verification/Sockets.v ===== *)
(** * The user-space echo server and its client

    [src/src/server.c]: the echo server the kernel programs are measured against,
    as the sends it makes for the outcomes of its [recvfrom] calls, with the
    buffer it reuses for every datagram.  [src/src/echocli.c]: the client, with the
    buffer it sends from and receives into.  Times are values of a type with a
    comparison and a difference, which stands for [double]. *)

From S2P Require Import Prelude CString.

(** Receiving at most [n] bytes of datagram [d] into a buffer of at least [n]
    bytes: the number of bytes and the buffer. *)
Definition recv_into (n : nat) (d buf : list Z) : nat * list Z :=
  let k := Nat.min n (length d) in (k, list_inserts 0 (take k d) buf).

Lemma inserts_prefix {A} (k l r : list A) : length k = length l → list_inserts 0 k (l ++ r) = k ++ r.
Proof.
  revert l. induction k as [|x k IH]; intros [|y l] Hl; try done. cbn [list_inserts app].
  pose proof (inserts_app_at [y] (l ++ r) k) as E. cbn [length app] in E.
  rewrite E, IH by (cbn in Hl; lia). done.
Qed.

Module Server.

Definition BUF_SZ : nat := 2048.
Definition PORT : Z := 9000.

Section server.
Context {addr : Type}.

(** What one [recvfrom] delivers: an error, or a datagram and its sender. *)
Definition outcome : Type := option (list Z * addr).

(** One round of the loop: the datagram sent, if any, and the buffer. *)
Definition serve (o : outcome) (buf : list Z) : option (list Z * addr) * list Z :=
  match o with
  | None => (None, buf)
  | Some (d, peer) =>
    let (n, buf) := recv_into BUF_SZ d buf in (Some (take n buf, peer), buf)
  end.

Fixpoint serve_all (os : list outcome) (buf : list Z) : list (list Z * addr) :=
  match os with
  | [] => []
  | o :: os =>
    let (s, buf) := serve o buf in
    match s with Some s => s :: serve_all os buf | None => serve_all os buf end
  end.

(** [main]: [inl] is its exit status when the socket cannot be set up,
    otherwise the sends for a finite run of the endless loop. *)
Definition main (sock bound : Z) (os : list outcome) (buf : list Z) : Z + list (list Z * addr) :=
  if sock <? 0 then inl 1
  else if bound <? 0 then inl 1
  else inr (serve_all os buf).

Lemma recv_into_buf n d buf :
  (n ≤ length buf)%nat →
  (recv_into n d buf).1 = Nat.min n (length d) ∧ length (recv_into n d buf).2 = length buf ∧
  take (recv_into n d buf).1 (recv_into n d buf).2 = take n d ∧
  drop (recv_into n d buf).1 (recv_into n d buf).2 = drop (recv_into n d buf).1 buf.
Proof.
  intros Hn. unfold recv_into. cbn [fst snd]. set (k := Nat.min n (length d)).
  assert (length (take k d) = k) as Hk by (rewrite length_take; lia).
  assert (list_inserts 0 (take k d) buf = take k d ++ drop k buf) as E.
  { rewrite <- (take_drop k buf) at 1. apply inserts_prefix. rewrite Hk, length_take. lia. }
  rewrite E. split; [done|]. split; [rewrite length_app, length_drop; lia|]. split.
  - rewrite take_app_le by lia. rewrite take_take, Nat.min_id. unfold k.
    destruct (decide (n ≤ length d)%nat); [by rewrite Nat.min_l|].
    rewrite Nat.min_r by lia. by rewrite !take_ge by lia.
  - rewrite drop_app_ge by lia. by rewrite Hk, Nat.sub_diag, drop_0.
Qed.

(** The reply to a datagram. *)
Definition echo_of (e : list Z * addr) : list Z * addr := (take BUF_SZ e.1, e.2).

Lemma serve_all_echo os buf :
  length buf = BUF_SZ → serve_all os buf = echo_of <$> omap id os.
Proof.
  revert buf. induction os as [|[[d peer]|] os IH]; intros buf Hb; [done| |by apply IH].
  cbn [serve_all serve]. destruct (recv_into_buf BUF_SZ d buf) as (H1 & H2 & H3 & _); [lia|].
  destruct (recv_into BUF_SZ d buf) as [n buf']. cbn [fst snd] in *. rewrite H3, IH by lia. done.
Qed.

(** C13: the server answers every datagram it receives, in order and to its
    sender, with exactly the bytes of that datagram up to 2048 of them; a failed
    receive is answered with nothing, and nothing an earlier datagram left in
    the buffer is ever sent. *)
Theorem server_echoes sock bound os buf :
  length buf = BUF_SZ →
  main sock bound os buf =
    if (0 <=? sock) && (0 <=? bound) then inr (echo_of <$> omap id os) else inl 1.
Proof.
  intros Hb. unfold main. rewrite serve_all_echo by done.
  destruct (Z.ltb_spec sock 0), (Z.leb_spec 0 sock), (Z.ltb_spec bound 0), (Z.leb_spec 0 bound); cbn; try done; lia.
Qed.
End server.

Lemma server_echoes_witness :
  main 3 0 [Some ([1; 2; 3], "a"%string); None; Some ([9], "b"%string)] (replicate 2048 7)
  = inr [([1; 2; 3], "a"%string); ([9], "b"%string)].
Proof. rewrite (server_echoes 3 0) by (by rewrite length_replicate). reflexivity. Defined.
End Server.

Module Client.

Definition PORT : Z := 9000.

(** [atol]: [strtol] without the narrowing of [atoi]. *)
Definition atol (s : string) : Z := strtol s.

Section client.
(** [double] times, and the replies: what the network returns for each
    datagram sent. *)
Context {T : Type} (sub : T → T → T) (ltb : T → T → bool).

Record stats := mk_stats { sent : list (list Z); tmin : T; tmax : T }.

(** One round: send the buffer, receive a reply [d] of at most [payload] bytes,
    and update the extremes with the time between [t0] and [t1]. *)
Definition round (payload : nat) (d : list Z) (t0 t1 : T) (st : list Z * stats) : list Z * stats :=
  let (buf, s) := st in
  let out := take payload buf in
  let buf := (recv_into payload d buf).2 in
  let rtt := sub t1 t0 in
  let mn := if ltb rtt (tmin s) then rtt else tmin s in
  let mx := if ltb (tmax s) rtt then rtt else tmax s in
  (buf, mk_stats (sent s ++ [out]) mn mx).

(** The loop from round [i] on; [answer] is what comes back for a datagram,
    with the clock readings around it. *)
Fixpoint client_loop (answer : nat → list Z → list Z * (T * T)) (payload i n : nat)
    (st : list Z * stats) : list Z * stats :=
  match n with
  | O => st
  | S n =>
    let '(d, (t0, t1)) := answer i (take payload st.1) in
    client_loop answer payload (S i) n (round payload d t0 t1 st)
  end.

(** [main] for its arguments: the exit status for a wrong number of them, a
    fault when [malloc] fails for a non-empty buffer (its result is not
    tested), otherwise the statistics of [count] rounds.  The total and the
    average that are printed beside the extremes are left out. *)
Definition main (malloc : Z → bool) (t_min t_max : T) (argv : list string)
    (answer : nat → list Z → list Z * (T * T)) : option (Z + stats) :=
  match argv with
  | [_; ip; arg_payload; arg_count] =>
    let payload := atoi arg_payload in
    let count := atol arg_count in
    let size := u64 payload in
    if negb (malloc size) && negb (size =? 0) then None
    else
      let buf := replicate (Z.to_nat size) 0xAB in
      Some (inr (client_loop answer (Z.to_nat size) 0 (Z.to_nat count) (buf, mk_stats [] t_min t_max)).2)
  | _ => Some (inl 1)
  end.

(** ** Against the server *)

Context (le : T → T → Prop) (le_refl : ∀ x, le x x) (le_trans : ∀ x y z, le x y → le y z → le x z)
        (ltb_spec : ∀ x y, if ltb x y then le x y else le y x).

(** The network answers with the echo of the server. *)
Definition echoing (times : nat → T * T) (i : nat) (out : list Z) : list Z * (T * T) :=
  (take Server.BUF_SZ out, times i).

Lemma round_echo n t0 t1 s :
  (round n (take Server.BUF_SZ (replicate n 0xAB)) t0 t1 (replicate n 0xAB, s)).1 = replicate n 0xAB.
Proof.
  cbn. unfold recv_into. cbn [snd]. rewrite !take_replicate, length_replicate.
  set (k := Nat.min n _). replace n with (k + (n - k))%nat at 2 by lia.
  rewrite replicate_add, inserts_prefix by (rewrite !length_replicate; lia). rewrite <- replicate_add. f_equal. lia.
Qed.

Definition rtt (times : nat → T * T) (i : nat) : T := sub (times i).2 (times i).1.

Lemma client_loop_echo n times i c s :
  let st := (client_loop (echoing times) n i c (replicate n 0xAB, s)).2 in
  sent st = sent s ++ replicate c (replicate n 0xAB) ∧
  le (tmin st) (tmin s) ∧ le (tmax s) (tmax st) ∧
  ∀ j, (i ≤ j < i + c)%nat → le (tmin st) (rtt times j) ∧ le (rtt times j) (tmax st).
Proof.
  cbv zeta. revert i s. induction c as [|c IH]; intros i s.
  { cbn. rewrite app_nil_r. split_and!; auto. lia. }
  cbn [client_loop fst]. unfold echoing. rewrite take_replicate, Nat.min_id.
  destruct (times i) as [t0 t1] eqn:Et.
  pose proof (round_echo n t0 t1 s) as Hr.
  destruct (round n _ t0 t1 _) as [buf' s'] eqn:Er. cbn [fst] in Hr. subst buf'.
  fold (echoing times). specialize (IH (S i) s') as (H1 & H2 & H3 & H4).
  injection Er as _ <-. cbn [sent tmin tmax] in *.
  set (st := (client_loop _ n (S i) c _).2) in *.
  assert (sub t1 t0 = rtt times i) as Hi by (unfold rtt; by rewrite Et). rewrite Hi in *.
  pose proof (ltb_spec (rtt times i) (tmin s)) as Hmn. pose proof (ltb_spec (tmax s) (rtt times i)) as Hmx.
  assert (le (tmin st) (tmin s) ∧ le (tmin st) (rtt times i)) as [Hm1 Hm2]
    by (destruct (ltb (rtt times i) (tmin s)); eauto).
  assert (le (tmax s) (tmax st) ∧ le (rtt times i) (tmax st)) as [Hx1 Hx2]
    by (destruct (ltb (tmax s) (rtt times i)); eauto).
  split_and!; [|done|done|].
  - rewrite H1, <- app_assoc. cbn. by rewrite take_replicate, Nat.min_id.
  - intros j Hj. destruct (decide (j = i)) as [->|]; [done|]. apply H4. lia.
Qed.

(** C14: run against the server, the client sends exactly [count] datagrams of
    [payload] bytes [0xAB], whatever the payload size is, and the extremes it
    reports bound the round-trip time of every one of them.  A negative payload
    asks [malloc] for almost 2^64 bytes, and when that fails the program
    faults. *)
Theorem client_against_server malloc t_min t_max prog ip arg_payload arg_count times :
  let argv := [prog; ip; arg_payload; arg_count] in
  let payload := atoi arg_payload in
  (malloc payload = true → 0 ≤ payload →
   ∃ st, main malloc t_min t_max argv (echoing times) = Some (inr st) ∧
     sent st = replicate (Z.to_nat (atol arg_count)) (replicate (Z.to_nat payload) 0xAB) ∧
     ∀ j, (j < Z.to_nat (atol arg_count))%nat → le (tmin st) (rtt times j) ∧ le (rtt times j) (tmax st)) ∧
  (payload < 0 → malloc (2 ^ 64 + payload) = false → main malloc t_min t_max argv (echoing times) = None).
Proof.
  cbv zeta. unfold main. pose proof (atoi_range arg_payload) as Hr. split.
  - intros Hm Hp. rewrite wrap_small by (unfold is_word; lia). rewrite Hm. cbn [negb andb].
    destruct (client_loop_echo (Z.to_nat (atoi arg_payload)) times 0 (Z.to_nat (atol arg_count))
      (mk_stats [] t_min t_max)) as (H1 & _ & _ & H4).
    eexists. split; [reflexivity|]. split; [exact H1|]. intros j Hj. apply H4. lia.
  - intros Hneg Hm. assert (u64 (atoi arg_payload) = 2 ^ 64 + atoi arg_payload) as ->.
    { unfold wrap. symmetry. apply Z.mod_unique_pos with (-1); lia. }
    rewrite Hm. rewrite (proj2 (Z.eqb_neq _ _)) by lia. done.
Qed.

End client.

Lemma client_against_server_witness :
  ∃ st, main Z.sub Z.ltb (λ n, n <? 2 ^ 40) 1000000 0 ["echocli"; "10.0.0.1"; "3"; "2"]%string
          (echoing (λ i, (Z.of_nat i, 2 * Z.of_nat i + 5))) = Some (inr st) ∧
    sent st = [[0xAB; 0xAB; 0xAB]; [0xAB; 0xAB; 0xAB]].
Proof.
  destruct (client_against_server Z.sub Z.ltb Z.le Z.le_refl Z.le_trans
    ltac:(intros x y; destruct (Z.ltb_spec x y); lia) (λ n, n <? 2 ^ 40) 1000000 0
    "echocli" "10.0.0.1" "3" "2" (λ i, (Z.of_nat i, 2 * Z.of_nat i + 5))) as [Hok _].
  destruct Hok as (st & E & Hs & _); [reflexivity|vm_compute; discriminate|].
  exists st. split; [exact E|]. rewrite Hs. reflexivity.
Defined.
End Client.
