(* ===== verification/Nlattr.v ===== *)
(** * libbpf: netlink attributes

    [nlattr.c] and [nlattr.h]: reading a stream of attributes (a length, a type
    and a payload, padded to 4 bytes), and adding attributes to a request.  A
    message is a buffer of [Bytes], a pointer an offset into it; a read outside
    the buffer is a fault. *)

From S2P Require Import Prelude Bytes CString Errno.
Local Open Scope Z_scope.

Definition EMSGSIZE : Z := 90.
Definition NLA_F_NESTED : Z := 2 ^ 15.
Definition NLA_F_NET_BYTEORDER : Z := 2 ^ 14.
Definition NLA_TYPE_MASK : Z := Z.lnot (Z.lor NLA_F_NESTED NLA_F_NET_BYTEORDER).
Definition NLA_ALIGN (len : Z) : Z := align4 len.
Definition NLA_HDRLEN : Z := 4.
Definition NLMSG_ALIGN (len : Z) : Z := align4 len.
Definition NLMSG_HDRLEN : Z := 16.
Definition NLM_F_CAPPED : Z := 0x100.
Definition NLM_F_ACK_TLVS : Z := 0x200.

(** [struct nlattr] and [struct nlmsghdr]. *)
Definition nla_len (nla : Z) (b : list Z) : option Z := load 2 nla b.
Definition nlmsg_len (nh : Z) (b : list Z) : option Z := load 4 nh b.
Definition nlmsg_type (nh : Z) (b : list Z) : option Z := load 2 (nh + 4) b.
Definition nlmsg_flags (nh : Z) (b : list Z) : option Z := load 2 (nh + 6) b.
Definition nlmsg_seq (nh : Z) (b : list Z) : option Z := load 4 (nh + 8) b.
Definition nlmsg_pid (nh : Z) (b : list Z) : option Z := load 4 (nh + 12) b.

(** The kinds of attributes, and what may be asked of one. *)
Definition LIBBPF_NLA_UNSPEC : Z := 0.
Definition LIBBPF_NLA_U8 : Z := 1.
Definition LIBBPF_NLA_U16 : Z := 2.
Definition LIBBPF_NLA_U32 : Z := 3.
Definition LIBBPF_NLA_U64 : Z := 4.
Definition LIBBPF_NLA_STRING : Z := 5.
Definition LIBBPF_NLA_TYPE_MAX : Z := 8.

Record libbpf_nla_policy := mk_policy { p_type : Z; p_minlen : Z; p_maxlen : Z }.
Definition no_policy : libbpf_nla_policy := mk_policy 0 0 0.

Definition nla_attr_minlen (type : Z) : Z := nth (Z.to_nat type) [0; 1; 2; 4; 8; 1; 0; 0; 0] 0.

(** ** Reading *)

Definition nla_next (nla rem : Z) (b : list Z) : option (Z * Z) :=
  l ← nla_len nla b; let totlen := NLA_ALIGN l in Some (nla + totlen, rem - totlen).

Definition nla_ok (nla rem : Z) (b : list Z) : option bool :=
  if rem <? 4 then Some false
  else l ← nla_len nla b; Some ((4 <=? l) && (l <=? rem)).

Definition nla_type (nla : Z) (b : list Z) : option Z :=
  t ← load 2 (nla + 2) b; Some (Z.land t NLA_TYPE_MASK).

Definition libbpf_nla_data (nla : Z) : Z := nla + NLA_HDRLEN.
Definition libbpf_nla_len (nla : Z) (b : list Z) : option Z := l ← nla_len nla b; Some (l - NLA_HDRLEN).
Definition libbpf_nla_getattr_u8 (nla : Z) (b : list Z) : option Z := load 1 (libbpf_nla_data nla) b.
Definition libbpf_nla_getattr_u16 (nla : Z) (b : list Z) : option Z := load 2 (libbpf_nla_data nla) b.
Definition libbpf_nla_getattr_u32 (nla : Z) (b : list Z) : option Z := load 4 (libbpf_nla_data nla) b.
Definition libbpf_nla_getattr_u64 (nla : Z) (b : list Z) : option Z := load 8 (libbpf_nla_data nla) b.

(** The least length of the payload: [libbpf_nla_len(nla) < minlen] compares
    unsigned numbers. *)
Definition validate_nla (nla maxtype : Z) (policy : list libbpf_nla_policy) (b : list Z) : option Z :=
  type ← nla_type nla b;
  if (type <? 0) || (maxtype <? type) then Some 0
  else
    pt ← policy !! Z.to_nat type;
    if LIBBPF_NLA_TYPE_MAX <? p_type pt then Some 0
    else
      let minlen := if negb (p_minlen pt =? 0) then p_minlen pt
                    else if negb (p_type pt =? LIBBPF_NLA_UNSPEC) then nla_attr_minlen (p_type pt) else 0 in
      l ← libbpf_nla_len nla b;
      if u32 l <? minlen then Some (-1)
      else if negb (p_maxlen pt =? 0) && (p_maxlen pt <? l) then Some (-1)
      else if p_type pt =? LIBBPF_NLA_STRING then
        c ← load 1 (libbpf_nla_data nla + (l - 1)) b; Some (if negb (c =? 0) then -1 else 0)
      else Some 0.

(** The loop of [libbpf_nla_parse]; an attribute has 4 bytes at least, so that
    the length of the stream is fuel enough. *)
Fixpoint nla_parse_loop (fuel : nat) (tb : list (option Z)) (maxtype nla rem : Z)
    (policy : option (list libbpf_nla_policy)) (b : list Z) : option (Z * list (option Z)) :=
  ok ← nla_ok nla rem b;
  if negb ok then Some (0, tb)
  else
    match fuel with
    | O => None
    | S fuel =>
      type ← nla_type nla b;
      '(nla', rem') ← nla_next nla rem b;
      if maxtype <? type then nla_parse_loop fuel tb maxtype nla' rem' policy b
      else
        err ← (match policy with Some p => validate_nla nla maxtype p b | None => Some 0 end);
        if err <? 0 then Some (err, tb)
        else nla_parse_loop fuel (<[Z.to_nat type := Some nla]> tb) maxtype nla' rem' policy b
    end.

(** The index of the attributes: for each type a pointer, or null. *)
Definition libbpf_nla_parse (maxtype head len : Z) (policy : option (list libbpf_nla_policy)) (b : list Z)
    : option (Z * list (option Z)) :=
  nla_parse_loop (Z.to_nat len) (replicate (Z.to_nat (maxtype + 1)) None) maxtype head len policy b.

Definition libbpf_nla_parse_nested (maxtype nla : Z) (policy : option (list libbpf_nla_policy)) (b : list Z)
    : option (Z * list (option Z)) :=
  l ← libbpf_nla_len nla b; libbpf_nla_parse maxtype (libbpf_nla_data nla) l policy b.

Definition tb_get (t : Z) (tb : list (option Z)) : option Z := mjoin (tb !! Z.to_nat t).

(** ** The message of an error *)

Definition NLMSGERR_ATTR_MSG : Z := 1.
Definition NLMSGERR_ATTR_MAX : Z := 3.
Definition extack_policy : list libbpf_nla_policy :=
  [no_policy; mk_policy LIBBPF_NLA_STRING 0 0; mk_policy LIBBPF_NLA_U32 0 0; no_policy].

(** The line that is printed: nothing, or the message, which may be missing. *)
Definition libbpf_nla_dump_errormsg (nlh : Z) (b : list Z) : option (option (option (list Z))) :=
  flags ← nlmsg_flags nlh b;
  if Z.land flags NLM_F_ACK_TLVS =? 0 then Some None
  else
    let err := nlh + NLMSG_HDRLEN in
    inner ← (if Z.land flags NLM_F_CAPPED =? 0 then nlmsg_len (err + 4) b else Some 16);
    let hlen := 20 + s32 (u32 (inner - NLMSG_HDRLEN)) in
    len ← nlmsg_len nlh b;
    let attr := err + hlen in
    '(e, tb) ← libbpf_nla_parse NLMSGERR_ATTR_MAX attr (s32 (nlh + len - attr)) (Some extack_policy) b;
    if negb (e =? 0) then Some None
    else match tb_get NLMSGERR_ATTR_MSG tb with
         | Some nla => m ← read_str (libbpf_nla_data nla) b; Some (Some (Some m))
         | None => Some (Some None)
         end.

(** ** Building a request

    [struct libbpf_nla_req] as its bytes: the header, the largest of the three
    family headers, and 128 bytes for attributes. *)
Definition req_size : Z := 16 + 20 + 128.

Definition req_tail (req : list Z) : option Z := l ← nlmsg_len 0 req; Some (NLMSG_ALIGN l).

(** The sizes are compared as unsigned numbers; the length of the message is
    stored in 32 bits, that of an attribute in 16. *)
Definition nlattr_add (type : Z) (data : option (list Z)) (len : Z) (req : list Z) : option (Z * list Z) :=
  nlen ← nlmsg_len 0 req;
  if req_size <? u32 (NLMSG_ALIGN nlen + NLA_ALIGN (NLA_HDRLEN + len)) then Some (- EMSGSIZE, req)
  else if negb (Bool.eqb (bool_decide (is_Some data)) (negb (len =? 0))) then Some (- EINVAL, req)
  else
    let nla := NLMSG_ALIGN nlen in
    req ← store (nla + 2) (le_bytes 2 type) req;
    req ← store nla (le_bytes 2 (NLA_HDRLEN + len)) req;
    req ← (match data with
           | Some d => d ← range 0 len d; store (nla + NLA_HDRLEN) d req
           | None => Some req
           end);
    alen ← nla_len nla req;
    req ← store 0 (le_bytes 4 (NLMSG_ALIGN nlen + NLA_ALIGN alen)) req;
    Some (0, req).

Definition nlattr_begin_nested (type : Z) (req : list Z) : option (option Z * list Z) :=
  tail ← req_tail req;
  '(err, req) ← nlattr_add (Z.lor type NLA_F_NESTED) None 0 req;
  Some (if negb (err =? 0) then None else Some tail, req).

Definition nlattr_end_nested (tail : Z) (req : list Z) : option (list Z) :=
  t ← req_tail req; store tail (le_bytes 2 (t - tail)) req.

(** ** What a stream of attributes is *)

(** An attribute that was found: where it is, and its type. *)
Record attr := mk_attr { a_at : Z; a_type : Z }.

Definition complete (b : list Z) (head len : Z) (a : attr) : Prop :=
  ∃ l, nla_len (a_at a) b = Some l ∧ nla_type (a_at a) b = Some (a_type a) ∧
    head ≤ a_at a ∧ 4 ≤ l ∧ a_at a + l ≤ head + len.

Inductive attrs_from (b : list Z) : Z → Z → list attr → Prop :=
  | attrs_end nla rem : nla_ok nla rem b = Some false → attrs_from b nla rem []
  | attrs_more nla rem l t as_ : nla_ok nla rem b = Some true → nla_len nla b = Some l →
      nla_type nla b = Some t → attrs_from b (nla + NLA_ALIGN l) (rem - NLA_ALIGN l) as_ →
      attrs_from b nla rem (mk_attr nla t :: as_).

(** The last attribute of a type. *)
Definition last_of (as_ : list attr) (t : Z) : option Z := a_at <$> last (filter (λ a, a_type a = t) as_).

(** What a policy asks of the attributes that it covers. *)
Definition accepts (pt : libbpf_nla_policy) (nla l : Z) (b : list Z) : Prop :=
  LIBBPF_NLA_TYPE_MAX < p_type pt ∨
  (if decide (p_minlen pt = 0) then nla_attr_minlen (p_type pt) else p_minlen pt) ≤ l ∧
  (p_maxlen pt = 0 ∨ l ≤ p_maxlen pt) ∧
  (p_type pt = LIBBPF_NLA_STRING → load 1 (libbpf_nla_data nla + (l - 1)) b = Some 0).
Definition valid (maxtype : Z) (policy : option (list libbpf_nla_policy)) (b : list Z) (a : attr) : Prop :=
  ∀ p pt l, policy = Some p → a_type a ≤ maxtype → p !! Z.to_nat (a_type a) = Some pt →
    libbpf_nla_len (a_at a) b = Some l → accepts pt (a_at a) l b.

(** A table with an entry for every type; a string is not asked to be empty. *)
Definition policy_ok (maxtype : Z) (policy : option (list libbpf_nla_policy)) : Prop :=
  ∀ p, policy = Some p → length p = Z.to_nat (maxtype + 1) ∧
    Forall (λ pt, 0 ≤ p_type pt ∧ 0 ≤ p_minlen pt) p.

Section parse.
Context (b : list Z) (Hb : bytes_ok b).

Lemma nla_type_range nla t : nla_type nla b = Some t → 0 ≤ t < 2 ^ 14.
Proof.
  unfold nla_type. destruct (load 2 (nla + 2) b) as [v|] eqn:E; [|done]. intros [= <-].
  pose proof (load_range _ _ _ _ Hb E) as Hv. unfold is_word in Hv.
  unfold NLA_TYPE_MASK, NLA_F_NESTED, NLA_F_NET_BYTEORDER.
  replace (Z.land v _) with (v mod 2 ^ 14); [apply Z.mod_pos_bound; lia|].
  apply Z.bits_inj'. intros i Hi. rewrite Z.land_spec, Z.lnot_spec by lia.
  change (Z.lor (2 ^ 15) (2 ^ 14)) with (Z.shiftl (Z.ones 2) 14). rewrite Z.shiftl_spec by lia.
  destruct (Z.lt_ge_cases i 14) as [Hlt|Hge].
  - rewrite Z.mod_pow2_bits_low by lia. rewrite (Z.testbit_neg_r _ (i - 14)) by lia. by rewrite andb_true_r.
  - rewrite Z.mod_pow2_bits_high by lia. destruct (Z.lt_ge_cases i 16).
    + rewrite Z.ones_spec_low by lia. by rewrite andb_false_r.
    + rewrite (Z.bits_above_log2 v i), andb_false_l; [done|lia|].
      destruct (Z.eq_dec v 0) as [->|]; [cbn; lia|]. apply Z.log2_lt_pow2; [lia|].
      eapply Z.lt_le_trans; [apply Hv|]. apply Z.pow_le_mono_r; lia.
Qed.

(** The guard reads only inside the stream. *)
Lemma nla_ok_cases nla rem : 0 ≤ nla → nla + rem ≤ length b →
  nla_ok nla rem b = Some false ∨
  nla_ok nla rem b = Some true ∧ ∃ l t, nla_len nla b = Some l ∧ nla_type nla b = Some t ∧ 4 ≤ l ≤ rem.
Proof.
  intros Hn Hr. unfold nla_ok. destruct (Z.ltb_spec rem 4) as [|H4]; [by left|].
  destruct (load_word 2 nla b) as (l & El & Hl); [done|lia..|]. unfold nla_len. rewrite El. cbn.
  destruct (Z.leb_spec 4 l), (Z.leb_spec l rem); cbn; [|by left..]. right. split; [done|].
  destruct (load_word 2 (nla + 2) b) as (t & Et & _); [done|lia..|].
  eexists l, _. unfold nla_type. rewrite Et. cbn. done.
Qed.

Lemma nla_len_data nla l : nla_len nla b = Some l → libbpf_nla_len nla b = Some (l - 4).
Proof. unfold libbpf_nla_len. by intros ->. Qed.

(** What is asked of an attribute that the table covers: reads only inside a
    complete attribute, and decides [accepts]. *)
Definition check_nla (pt : libbpf_nla_policy) (nla l : Z) : option Z :=
  let minlen := if negb (p_minlen pt =? 0) then p_minlen pt
                else if negb (p_type pt =? LIBBPF_NLA_UNSPEC) then nla_attr_minlen (p_type pt) else 0 in
  if u32 l <? minlen then Some (-1)
  else if negb (p_maxlen pt =? 0) && (p_maxlen pt <? l) then Some (-1)
  else if p_type pt =? LIBBPF_NLA_STRING then
    c ← load 1 (libbpf_nla_data nla + (l - 1)) b; Some (if negb (c =? 0) then -1 else 0)
  else Some 0.

Lemma check_nla_spec pt nla l : 0 ≤ p_minlen pt → p_type pt ≤ LIBBPF_NLA_TYPE_MAX → 0 ≤ l < 2 ^ 16 → 0 ≤ nla →
  nla + 4 + l ≤ length b →
  check_nla pt nla l = Some 0 ∧ accepts pt nla l b ∨ check_nla pt nla l = Some (-1) ∧ ¬ accepts pt nla l b.
Proof.
  intros Hmin Hm Hl Hn Hin. unfold check_nla, accepts. change (2 ^ 16) with 65536 in Hl.
  rewrite wrap_small by (unfold is_word; change (2 ^ 32) with 4294967296; lia). cbv zeta.
  assert ((if negb (p_minlen pt =? 0) then p_minlen pt
    else if negb (p_type pt =? LIBBPF_NLA_UNSPEC) then nla_attr_minlen (p_type pt) else 0) =
    if decide (p_minlen pt = 0) then nla_attr_minlen (p_type pt) else p_minlen pt) as ->.
  { destruct (Z.eqb_spec (p_minlen pt) 0), (decide (p_minlen pt = 0)); try done. cbn.
    by destruct (Z.eqb_spec (p_type pt) LIBBPF_NLA_UNSPEC) as [->|]. }
  assert (p_type pt = LIBBPF_NLA_STRING → 1 ≤ if decide (p_minlen pt = 0) then nla_attr_minlen (p_type pt) else p_minlen pt) as Hs.
  { intros ->. change (nla_attr_minlen LIBBPF_NLA_STRING) with 1. destruct (decide _); lia. }
  set (m := if decide _ then _ else _) in *. clearbody m. destruct (Z.ltb_spec l m) as [|Hm1]; [right; split; [done|]; intros [?|(? & ? & _)]; lia|].
  destruct (Z.eqb_spec (p_maxlen pt) 0) as [E0|E0], (Z.ltb_spec (p_maxlen pt) l) as [|Hx]; cbn [negb andb];
    try (right; split; [done|]; intros [?|(? & ? & _)]; lia).
  all: destruct (Z.eqb_spec (p_type pt) LIBBPF_NLA_STRING) as [Est|Est];
    [specialize (Hs Est)|left; split; [done|]; right; split_and!; [done|auto|by intros ?]].
  all: destruct (load_word 1 (libbpf_nla_data nla + (l - 1)) b) as (c & Ec & _);
    [done|unfold libbpf_nla_data, NLA_HDRLEN; lia..|].
  all: rewrite Ec; cbn [mbind option_bind]; destruct (Z.eqb_spec c 0) as [->|Hc]; cbn [negb]; [left; split; [done|]; right; auto|].
  all: right; split; [done|]; intros [?|(_ & _ & Hz)]; [lia|]; specialize (Hz Est); congruence.
Qed.

Lemma validate_nla_spec maxtype p nla l t :
  policy_ok maxtype (Some p) → nla_len nla b = Some l → nla_type nla b = Some t → 4 ≤ l → 0 ≤ nla →
  nla + l ≤ length b → t ≤ maxtype →
  ∃ err, validate_nla nla maxtype p b = Some err ∧
    (err = 0 ∧ valid maxtype (Some p) b (mk_attr nla t) ∨ err = -1 ∧ ¬ valid maxtype (Some p) b (mk_attr nla t)).
Proof.
  intros Hp El Et H4 Hn Hin Ht. destruct (Hp p eq_refl) as [Hlen Hpt].
  pose proof (nla_type_range _ _ Et) as Htr. unfold validate_nla. rewrite Et. cbn [mbind option_bind].
  destruct (Z.ltb_spec t 0), (Z.ltb_spec maxtype t); [lia..|]. cbn [orb].
  destruct (p !! Z.to_nat t) as [pt|] eqn:Ep; [|apply lookup_ge_None in Ep; lia]. cbn [mbind option_bind].
  apply (proj1 (Forall_lookup _ _) Hpt) in Ep as Hpt'. destruct Hpt' as [Hty Hmin].
  assert (valid maxtype (Some p) b (mk_attr nla t) ↔ accepts pt nla (l - 4) b) as Hval.
  { unfold valid. cbn. split.
    - intros Hv. apply (Hv p pt); [done|done|done|]. by apply nla_len_data.
    - intros Ha p' pt' l' [= <-] _ E1 E2. rewrite (nla_len_data _ _ El) in E2. congruence. }
  destruct (Z.ltb_spec LIBBPF_NLA_TYPE_MAX (p_type pt)) as [Hm|Hm].
  { exists 0. split; [done|]. left. split; [done|]. apply Hval. by left. }
  rewrite (nla_len_data _ _ El). cbn [mbind option_bind].
  pose proof (load_range _ _ _ _ Hb El) as Hlw. unfold is_word in Hlw. change (2 ^ (8 * 2)) with (2 ^ 16) in Hlw.
  destruct (check_nla_spec pt nla (l - 4)) as [[E Ha]|[E Ha]]; [lia..| |]; unfold check_nla in E; rewrite E;
    eexists; (split; [done|]); rewrite Hval; auto.
Qed.

Lemma last_of_cons a as_ t :
  last_of (a :: as_) t = match last_of as_ t with Some o => Some o | None => if decide (a_type a = t) then Some (a_at a) else None end.
Proof.
  unfold last_of. rewrite filter_cons. destruct (decide (a_type a = t)); [|by destruct (last _)].
  rewrite last_cons. by destruct (last _).
Qed.

Lemma tb_get_insert t k v tb : 0 ≤ t → 0 ≤ k < length tb →
  tb_get t (<[Z.to_nat k := v]> tb) = if decide (k = t) then v else tb_get t tb.
Proof.
  intros Ht Hk. unfold tb_get. destruct (decide (k = t)) as [->|Hne].
  - by rewrite list_lookup_insert_eq by lia.
  - by rewrite list_lookup_insert_ne by lia.
Qed.

(** The index [tb'] that is made of [tb] by the attributes [used]. *)
Definition indexed (maxtype : Z) (used : list attr) (tb tb' : list (option Z)) : Prop :=
  length tb' = length tb ∧ ∀ t, 0 ≤ t ≤ maxtype →
    tb_get t tb' = match last_of used t with Some o => Some o | None => tb_get t tb end.
(** How far the attributes were used: up to the first that is not valid. *)
Definition stops (maxtype : Z) (policy : option (list libbpf_nla_policy)) (err : Z) (as_ used : list attr) : Prop :=
  Forall (valid maxtype policy b) used ∧
  (err = 0 ∧ as_ = used ∨ err = -1 ∧ ∃ bad rest, as_ = used ++ bad :: rest ∧ ¬ valid maxtype policy b bad).

Lemma stops_cons maxtype policy err a as_ used : valid maxtype policy b a →
  stops maxtype policy err as_ used → stops maxtype policy err (a :: as_) (a :: used).
Proof.
  intros Ha [Hu Hs]. split; [by constructor|]. destruct Hs as [[-> ->]|(-> & bad & rest & -> & Hn)]; [by left|].
  right. split; [done|]. by exists bad, rest.
Qed.

Lemma complete_mono h1 n1 h2 n2 a : h2 ≤ h1 → h1 + n1 ≤ h2 + n2 → complete b h1 n1 a → complete b h2 n2 a.
Proof. intros ?? (l & ? & ? & ? & ? & ?). exists l. split_and!; [done|done|lia..]. Qed.

Lemma nla_parse_loop_spec maxtype policy : 0 ≤ maxtype → policy_ok maxtype policy →
  ∀ (fuel : nat) tb nla rem, 0 ≤ nla → nla + rem ≤ length b → rem ≤ fuel → length tb = Z.to_nat (maxtype + 1) →
  ∃ as_ used err tb', nla_parse_loop fuel tb maxtype nla rem policy b = Some (err, tb') ∧
    attrs_from b nla rem as_ ∧ Forall (complete b nla rem) as_ ∧
    stops maxtype policy err as_ used ∧ indexed maxtype used tb tb'.
Proof.
  intros Hmax Hp fuel. induction fuel as [|fuel IH]; intros tb nla rem Hn Hr Hf Htb; cbn [nla_parse_loop];
    (destruct (nla_ok_cases nla rem Hn Hr) as [E|(E & l & t & El & Et & Hl)];
     [exists [], [], 0, tb; rewrite E; cbn; split_and!; [done|by constructor|done|split; [done|by left]|done]|]).
  { lia. }
  rewrite E, Et. unfold nla_next. rewrite El. cbn [mbind option_bind negb].
  pose proof (align4_bounds l) as Hal. pose proof (nla_type_range _ _ Et) as Ht. unfold NLA_ALIGN.
  assert (complete b nla rem (mk_attr nla t)) as Hc by (exists l; split_and!; [done|done|cbn; lia..]).
  assert (∀ tb1, length tb1 = Z.to_nat (maxtype + 1) → ∃ as_ used err tb',
    nla_parse_loop fuel tb1 maxtype (nla + align4 l) (rem - align4 l) policy b = Some (err, tb') ∧
    attrs_from b nla rem (mk_attr nla t :: as_) ∧ Forall (complete b nla rem) (mk_attr nla t :: as_) ∧
    stops maxtype policy err as_ used ∧ indexed maxtype used tb1 tb') as Hrest.
  { intros tb1 H1. destruct (IH tb1 (nla + align4 l) (rem - align4 l)) as (as_ & used & err & tb' & ? & Ha & Hcs & ? & ?); [lia..|done|].
    exists as_, used, err, tb'. split_and!; [done|by econstructor| |done..]. constructor; [done|].
    eapply Forall_impl; [exact Hcs|]. intros a. apply complete_mono; lia. }
  destruct (Z.ltb_spec maxtype t) as [Hm|Hm].
  - destruct (Hrest tb Htb) as (as_ & used & err & tb' & ? & ? & ? & Hs & Hi & Hix).
    exists (mk_attr nla t :: as_), (mk_attr nla t :: used), err, tb'. split_and!; [done|done|done| |split; [done|]].
    + apply stops_cons; [|done]. intros p pt l' _ Hle. cbn in Hle. lia.
    + intros t' Ht'. rewrite last_of_cons, Hix by done. cbn. rewrite decide_False by lia. by destruct (last_of used t').
  - assert (∃ err, match policy with Some p => validate_nla nla maxtype p b | None => Some 0 end = Some err ∧
      (err = 0 ∧ valid maxtype policy b (mk_attr nla t) ∨ err = -1 ∧ ¬ valid maxtype policy b (mk_attr nla t))) as (err & Ev & Hv).
    { destruct policy as [p|]; [by eapply validate_nla_spec; eauto; lia|]. exists 0. split; [done|]. left. split; [done|]. by intros p pt l' [=]. }
    rewrite Ev. cbn [mbind option_bind]. destruct Hv as [[-> Hv]|[-> Hv]]; cbn [Z.ltb Z.compare].
    + destruct (Hrest (<[Z.to_nat t := Some nla]> tb)) as (as_ & used & err & tb' & ? & ? & ? & Hs & Hi & Hix);
        [by rewrite length_insert|].
      exists (mk_attr nla t :: as_), (mk_attr nla t :: used), err, tb'. split_and!; [done|done|done|by apply stops_cons|split].
      * by rewrite Hi, length_insert.
      * intros t' Ht'. rewrite last_of_cons, Hix, tb_get_insert by (done || lia). cbn.
        destruct (last_of used t'), (decide (t = t')); done.
    + destruct (Hrest tb Htb) as (as_ & used & err & tb' & ? & ? & ? & _).
      exists (mk_attr nla t :: as_), [], (-1), tb. split_and!; [done|done|done| |done].
      split; [done|]. right. split; [done|]. by exists (mk_attr nla t), as_.
Qed.
End parse.

(** Parsing a stream of attributes reads nothing outside it and always ends,
    whatever the bytes are.  The index it makes holds for every type the last
    attribute of that type, each of them complete, up to the first attribute
    that the policy refuses; there it stops with -1. *)
Theorem nla_parse_index b maxtype head len policy :
  bytes_ok b → 0 ≤ maxtype → policy_ok maxtype policy → 0 ≤ head → head + len ≤ length b →
  ∃ as_ used err tb, libbpf_nla_parse maxtype head len policy b = Some (err, tb) ∧
    attrs_from b head len as_ ∧ Forall (complete b head len) as_ ∧
    stops b maxtype policy err as_ used ∧
    length tb = Z.to_nat (maxtype + 1) ∧ ∀ t, 0 ≤ t ≤ maxtype → tb_get t tb = last_of used t.
Proof.
  intros Hb Hmax Hp Hh Hl. unfold libbpf_nla_parse.
  destruct (nla_parse_loop_spec b Hb maxtype policy Hmax Hp (Z.to_nat len) (replicate (Z.to_nat (maxtype + 1)) None) head len)
    as (as_ & used & err & tb & E & Ha & Hc & Hs & Hlen & Hix); [lia..|by rewrite length_replicate|].
  exists as_, used, err, tb. split_and!; [done..|by rewrite Hlen, length_replicate|].
  intros t Ht. rewrite Hix by done. destruct (last_of used t); [done|]. unfold tb_get.
  rewrite lookup_replicate_2 by lia. done.
Qed.

(** Two attributes of type 1 and one that is too short for the policy. *)
Definition sample_stream : list Z :=
  [8; 0; 1; 0; 1; 2; 3; 4] ++ [6; 0; 1; 128; 9; 9; 0; 0] ++ [5; 0; 2; 0; 7; 0; 0; 0].

Lemma nla_parse_index_witness :
  libbpf_nla_parse 2 0 24 (Some [no_policy; no_policy; mk_policy LIBBPF_NLA_U32 0 0]) sample_stream =
    Some (-1, [None; Some 8; None]) ∧
  ∃ used, last_of used 1 = Some 8 ∧ last_of used 2 = None.
Proof.
  set (policy := Some [no_policy; no_policy; mk_policy LIBBPF_NLA_U32 0 0]).
  assert (libbpf_nla_parse 2 0 24 policy sample_stream = Some (-1, [None; Some 8; None])) as E by (vm_compute; reflexivity).
  split; [exact E|].
  destruct (nla_parse_index sample_stream 2 0 24 policy) as (as_ & used & err & tb & E' & _ & _ & _ & _ & Hix).
  - apply (bool_decide_unpack _). vm_compute. exact I.
  - lia.
  - intros p [= <-]. split; [reflexivity|]. apply (bool_decide_unpack _). vm_compute. exact I.
  - lia.
  - vm_compute. congruence.
  - rewrite E in E'. injection E' as <- <-. exists used. split; symmetry; [apply (Hix 1)|apply (Hix 2)]; lia.
Defined.

(** ** Writing attributes, and reading them back *)

(** [bs] are the attributes [l], each with some padding. *)
Inductive encodes : list (Z * list Z) → list Z → Prop :=
  | enc_nil : encodes [] []
  | enc_cons t d pad l bs : is_word 16 t → 4 + length d < 2 ^ 16 →
      4 + length d + length pad = align4 (4 + length d) → encodes l bs →
      encodes ((t, d) :: l) (le_bytes 2 (4 + length d) ++ le_bytes 2 t ++ d ++ pad ++ bs).

Fixpoint enc_len (l : list (Z * list Z)) : Z :=
  match l with [] => 0 | (_, d) :: l => align4 (4 + length d) + enc_len l end.

Lemma encodes_length l bs : encodes l bs → Z.of_nat (length bs) = enc_len l.
Proof. induction 1; [done|]. cbn [enc_len]. rewrite !length_app, !length_le_bytes. lia. Qed.
Lemma enc_len_nonneg l : 0 ≤ enc_len l.
Proof. induction l as [|[t d] l IH]; cbn [enc_len]; [lia|]. pose proof (align4_bounds (4 + length d)). lia. Qed.
Lemma enc_len_mod l : enc_len l mod 4 = 0.
Proof.
  induction l as [|[t d] l IH]; cbn [enc_len]; [done|]. pose proof (align4_mul (4 + length d)). dlia.
Qed.
Lemma enc_len_app l1 l2 : enc_len (l1 ++ l2) = enc_len l1 + enc_len l2.
Proof. induction l1 as [|[t d] l1 IH]; cbn [enc_len app]; lia. Qed.

Lemma encodes_app l1 l2 b1 b2 : encodes l1 b1 → encodes l2 b2 → encodes (l1 ++ l2) (b1 ++ b2).
Proof. induction 1; intros Hx; [done|]. rewrite <- !(assoc_L (++)). constructor; auto. Qed.
Lemma encodes_app_inv l1 l2 bs : encodes (l1 ++ l2) bs → ∃ b1 b2, bs = b1 ++ b2 ∧ encodes l1 b1 ∧ encodes l2 b2.
Proof.
  revert bs. induction l1 as [|[t d] l1 IH]; intros bs; [exists [], bs; by repeat constructor|].
  cbn. inversion 1 as [|t' d' pad l' bs' ? ? Hpad He]; subst. destruct (IH _ He) as (b1 & b2 & -> & ? & ?).
  eexists _, b2. split; [|split; [by constructor|done]]. by rewrite <- !(assoc_L (++)).
Qed.

(** The encoding with zeros as padding. *)
Fixpoint enc_attrs (l : list (Z * list Z)) : list Z :=
  match l with
  | [] => []
  | (t, d) :: l => le_bytes 2 (4 + length d) ++ le_bytes 2 t ++ d ++
      replicate (Z.to_nat (align4 (4 + length d) - (4 + length d))) 0 ++ enc_attrs l
  end.
Definition attr_fits (a : Z * list Z) : Prop := is_word 16 a.1 ∧ 4 + length a.2 < 2 ^ 16.
Lemma enc_attrs_ok l : Forall attr_fits l → encodes l (enc_attrs l).
Proof.
  induction 1 as [|[t d] l [Ht Hd] _ IH]; cbn [enc_attrs]; constructor; [done|done| |done].
  rewrite length_replicate. pose proof (align4_bounds (4 + length d)). lia.
Qed.

Definition holds (nla : Z) (d b : list Z) : Prop :=
  libbpf_nla_len nla b = Some (Z.of_nat (length d)) ∧ range (libbpf_nla_data nla) (length d) b = Some d.
Definition is_attr (b : list Z) (td : Z * list Z) (a : attr) : Prop :=
  a_type a = Z.land td.1 NLA_TYPE_MASK ∧ holds (a_at a) td.2 b.

Lemma attr_at t d pad (pre rest : list Z) : is_word 16 t → 4 + length d < 2 ^ 16 →
  let b := pre ++ le_bytes 2 (4 + length d) ++ le_bytes 2 t ++ d ++ pad ++ rest in
  nla_len (length pre) b = Some (4 + length d) ∧ nla_type (length pre) b = Some (Z.land t NLA_TYPE_MASK) ∧
  holds (length pre) d b.
Proof.
  intros Ht Hd b.
  assert (nla_len (length pre) b = Some (4 + length d)) as El.
  { unfold nla_len, b. rewrite <- (Z.add_0_r (length pre)), load_app_r by lia.
    rewrite (load_le_bytes 2), wrap_small; [done|]. split; [lia|]. exact Hd. }
  split_and!; [done| |split; [by unfold libbpf_nla_len; rewrite El; cbn; f_equal; unfold NLA_HDRLEN; lia|]].
  - unfold nla_type, b. rewrite load_app_r by lia. change 2 with (length (le_bytes 2 (4 + length d)) + 0) at 2.
    rewrite load_app_r, (load_le_bytes 2), wrap_small by (done || lia). done.
  - unfold libbpf_nla_data, NLA_HDRLEN, b. rewrite range_app_r by lia. rewrite !(assoc_L (++)), <- !(assoc_L (++)).
    rewrite (assoc_L (++) (le_bytes 2 (4 + length d))). change 4 with (length (le_bytes 2 (4 + length d) ++ le_bytes 2 t) + 0).
    rewrite range_app_r, range_app_l by lia. rewrite range_Some by lia. f_equal. unfold sub.
    by rewrite Nat2Z.id, drop_0, take_ge.
Qed.

(** The attributes found in an encoding are those that were encoded. *)
Lemma attrs_encoded l bs : encodes l bs → ∀ pre post, ∃ as_,
  attrs_from (pre ++ bs ++ post) (length pre) (length bs) as_ ∧ Forall2 (is_attr (pre ++ bs ++ post)) l as_.
Proof.
  induction 1 as [|t d pad l bs Ht Hd Hpad He IH]; intros pre post.
  { exists []. split; [by constructor|constructor]. }
  set (a := le_bytes 2 (4 + length d) ++ le_bytes 2 t ++ d ++ pad).
  assert (Z.of_nat (length a) = align4 (4 + length d)) as Ha.
  { unfold a. rewrite !length_app, !length_le_bytes. lia. }
  replace (le_bytes 2 (4 + length d) ++ le_bytes 2 t ++ d ++ pad ++ bs) with (a ++ bs)
    by (unfold a; by rewrite <- !(assoc_L (++))).
  destruct (IH (pre ++ a) post) as (as_ & Has & Hall). rewrite <- !(assoc_L (++)) in Has, Hall |- *.
  set (b := pre ++ a ++ bs ++ post) in *.
  destruct (attr_at t d pad pre (bs ++ post) Ht Hd) as (El & Ety & Hh). cbv zeta in El, Ety, Hh.
  replace (pre ++ le_bytes 2 (4 + length d) ++ le_bytes 2 t ++ d ++ pad ++ bs ++ post) with b in *
    by (unfold b, a; by rewrite <- !(assoc_L (++))).
  exists (mk_attr (length pre) (Z.land t NLA_TYPE_MASK) :: as_). split; [|by constructor].
  pose proof (align4_bounds (4 + length d)) as Hal.
  eapply attrs_more; [|exact El|exact Ety|].
  - unfold nla_ok. rewrite El, length_app. rewrite (proj2 (Z.ltb_ge _ _)) by lia. cbn [mbind option_bind]. rewrite (proj2 (Z.leb_le 4 _)), (proj2 (Z.leb_le (4 + length d) _)) by lia. done.
  - unfold NLA_ALIGN. rewrite <- Ha. rewrite length_app in Has |- *.
    replace (length pre + length a) with (Z.of_nat (length pre + length a)) by lia.
    replace (Z.of_nat (length a + length bs) - length a) with (Z.of_nat (length bs)) by lia. done.
Qed.

Lemma attrs_from_det b nla rem as1 as2 : attrs_from b nla rem as1 → attrs_from b nla rem as2 → as1 = as2.
Proof.
  intros H1. revert as2. induction H1 as [nla rem E|nla rem l t as_ E El Et _ IH]; intros as2;
    inversion 1; simplify_eq; [done|]. f_equal. by apply IH.
Qed.

(** The payload of the last attribute of a type. *)
Definition payload_of (l : list (Z * list Z)) (t : Z) : option (list Z) :=
  snd <$> last (filter (λ td, Z.land td.1 NLA_TYPE_MASK = t) l).

Lemma payload_of_cons td l t : payload_of (td :: l) t =
  match payload_of l t with Some d => Some d
  | None => if decide (Z.land td.1 NLA_TYPE_MASK = t) then Some td.2 else None end.
Proof.
  unfold payload_of. rewrite filter_cons. destruct (decide _); [|by destruct (last _)].
  rewrite last_cons. by destruct (last _).
Qed.

(** What a table says of the attributes [l]. *)
Definition tb_of (maxtype : Z) (l : list (Z * list Z)) (tb : list (option Z)) (b : list Z) : Prop :=
  ∀ t, 0 ≤ t ≤ maxtype →
    match payload_of l t with
    | Some d => ∃ nla, tb_get t tb = Some nla ∧ holds nla d b
    | None => tb_get t tb = None
    end.

Lemma parse_encoded l bs pre post maxtype :
  bytes_ok (pre ++ bs ++ post) → encodes l bs → 0 ≤ maxtype →
  ∃ tb, libbpf_nla_parse maxtype (length pre) (length bs) None (pre ++ bs ++ post) = Some (0, tb) ∧
    tb_of maxtype l tb (pre ++ bs ++ post).
Proof.
  intros Hb He Hmax. destruct (attrs_encoded l bs He pre post) as (as_ & Has & Hall). set (b := pre ++ bs ++ post) in *.
  assert (policy_ok maxtype None) as Hp by by intros p [=].
  destruct (nla_parse_index b maxtype (length pre) (length bs) None) as (as' & used & err & tb & E & Has' & _ & [_ Hst] & _ & Hix);
    [done|done|done|lia|unfold b; rewrite !length_app; lia|].
  rewrite (attrs_from_det _ _ _ _ _ Has' Has) in Hst. destruct Hst as [[-> <-]|(_ & bad & rest & _ & Hn)]; [|destruct Hn; by intros p pt l' [=]].
  exists tb. split; [done|]. intros t Ht. rewrite Hix by done. clear Has Has' E Hix Hp He.
  induction Hall as [|[t' d] a l' as2 [Hty Hh] _ IH]; [done|]. rewrite payload_of_cons, last_of_cons. cbn [fst snd] in *.
  destruct (payload_of l' t) as [d'|].
  - destruct IH as (o & Eo & Ho). exists o. by rewrite Eo.
  - rewrite IH, Hty. destruct (decide _); [|done]. by exists (a_at a).
Qed.

(** Reading a number. *)
Lemma holds_load nla d b n : holds nla d b → Z.of_nat (length d) = n → load n (libbpf_nla_data nla) b = Some (le_val d).
Proof. intros [_ Hr] <-. unfold load. by rewrite Hr. Qed.
Lemma nested_encoded nla d l b maxtype :
  bytes_ok b → holds nla d b → encodes l d → 0 ≤ maxtype →
  ∃ tb, libbpf_nla_parse_nested maxtype nla None b = Some (0, tb) ∧ tb_of maxtype l tb b.
Proof.
  intros Hb [El Hr] He Hmax. unfold libbpf_nla_parse_nested. rewrite El. cbn [mbind option_bind].
  apply range_inv in Hr as (H0 & _ & Hlen & Hd). set (o := libbpf_nla_data nla) in *.
  set (pre := take (Z.to_nat o) b). set (post := drop (Z.to_nat o + length d) b).
  assert (b = pre ++ d ++ post) as Eb.
  { unfold pre, post. rewrite <- (take_drop (Z.to_nat o) b) at 1. f_equal. rewrite Hd at 1. unfold sub. rewrite Nat2Z.id.
    rewrite <- drop_drop. by rewrite take_drop. }
  assert (Z.of_nat (length pre) = o) as Hpre by (unfold pre; rewrite length_take; lia).
  destruct (parse_encoded l d pre post maxtype) as (tb & E & Ht); [by rewrite <- Eb|done|done|].
  rewrite <- Eb, Hpre in *. by exists tb.
Qed.

(** ** Requests *)

(** A request: its length, the rest of its headers, and the attributes. *)
Definition req_of (hdr : list Z) (l : list (Z * list Z)) (req : list Z) : Prop :=
  ∃ bs rest, req = le_bytes 4 (4 + length hdr + enc_len l) ++ hdr ++ bs ++ rest ∧ encodes l bs ∧
    (4 + length hdr) mod 4 = 0 ∧ Z.of_nat (length req) = req_size ∧ bytes_ok req.
Definition req_len (hdr : list Z) (l : list (Z * list Z)) : Z := 4 + length hdr + enc_len l.

Lemma req_of_len hdr l req : req_of hdr l req → nlmsg_len 0 req = Some (req_len hdr l) ∧
  NLMSG_ALIGN (req_len hdr l) = req_len hdr l ∧ 4 ≤ req_len hdr l ≤ req_size.
Proof.
  intros (bs & rest & -> & He & Hm & Hlen & _). pose proof (enc_len_nonneg l). pose proof (encodes_length l bs He) as Hbs.
  rewrite !length_app, length_le_bytes in Hlen. unfold req_len. split_and!; [|apply align4_id|lia..].
  - unfold nlmsg_len. rewrite (load_le_bytes 4), wrap_small; [done|]. unfold is_word, req_size in *. cbn. lia.
  - pose proof (enc_len_mod l). dlia.
Qed.

(** An attribute without payload is one that will hold others. *)
Definition given (data : option (list Z)) (len : Z) (d : list Z) : Prop :=
  match data with
  | Some x => d = x ∧ len = length d ∧ d ≠ []
  | None => d = [] ∧ len = 0
  end.

Lemma given_len data len d : given data len d → len = length d.
Proof. destruct data as [x|]; cbn; [by intros (-> & -> & _)|by intros [-> ->]]. Qed.
Lemma given_guard data len d : given data len d → negb (Bool.eqb (bool_decide (is_Some data)) (negb (len =? 0))) = false.
Proof.
  destruct data as [x|]; cbn.
  - intros (-> & -> & Hne). destruct (Z.eqb_spec (length x) 0); [|done].
    by destruct x.
  - by intros [_ ->].
Qed.

Lemma nlattr_add_full hdr l req type data len d : req_of hdr l req → given data len d → len < 2 ^ 31 - 1000 →
  req_size < req_len hdr l + align4 (4 + length d) → nlattr_add type data len req = Some (- EMSGSIZE, req).
Proof.
  intros Hr Hg Hl Hs. destruct (req_of_len _ _ _ Hr) as (E & Ea & Hb). unfold nlattr_add. rewrite E. cbn [mbind option_bind].
  pose proof (given_len _ _ _ Hg) as ->.
  rewrite Ea. pose proof (align4_bounds (4 + length d)). unfold req_size, NLA_ALIGN, NLA_HDRLEN in *.
  rewrite wrap_small by (unfold is_word; change (2 ^ 32) with 4294967296; change (2 ^ 31) with 2147483648 in Hl; lia).
  by rewrite (proj2 (Z.ltb_lt _ _)) by lia.
Qed.

Lemma split_at {A} (l : list A) n : (n ≤ length l)%nat → ∃ l1 l2, l = l1 ++ l2 ∧ length l1 = n.
Proof. intros. exists (take n l), (drop n l). rewrite take_drop, length_take. split; [done|lia]. Qed.

(** The three stores of an attribute into the room [a] left for it. *)
Lemma put_attr (q a rest d : list Z) type data (o : Z) : given data (length d) d → o = length q →
  Z.of_nat (length a) = align4 (4 + length d) → ∃ pad, length pad = (length a - 4 - length d)%nat ∧ pad ⊆ a ∧
  (req ← store (o + 2) (le_bytes 2 type) (q ++ a ++ rest);
   req ← store o (le_bytes 2 (4 + length d)) req;
   match data with
   | Some x => x ← range 0 (length d) x; store (o + 4) x req
   | None => Some req
   end) = Some (q ++ le_bytes 2 (4 + length d) ++ le_bytes 2 type ++ d ++ pad ++ rest).
Proof.
  intros Hg -> Ha. pose proof (align4_bounds (4 + length d)) as Hal.
  destruct (split_at a 2) as (a1 & a' & -> & H1); [lia|]. rewrite length_app in Ha.
  destruct (split_at a' 2) as (a2 & a'' & -> & H2); [lia|]. rewrite length_app in Ha.
  destruct (split_at a'' (length d)) as (a3 & pad & -> & H3); [lia|]. rewrite length_app in Ha.
  exists pad. split; [rewrite !length_app; lia|]. split; [intros x Hx; rewrite !elem_of_app; auto|].
  replace (q ++ (a1 ++ a2 ++ a3 ++ pad) ++ rest) with ((q ++ a1) ++ a2 ++ (a3 ++ pad ++ rest)) by by rewrite <- !(assoc_L (++)).
  rewrite (store_at (q ++ a1)) by (rewrite ?length_app, ?length_le_bytes; lia). cbn [mbind option_bind].
  rewrite <- (assoc_L (++)). rewrite (store_at q) by (rewrite ?length_le_bytes; lia). cbn [mbind option_bind].
  set (h := le_bytes 2 (4 + length d)). set (ty := le_bytes 2 type). destruct data as [x|].
  - destruct Hg as (-> & _ & _). rewrite range_Some by lia. cbn [mbind option_bind]. unfold sub.
    rewrite Nat2Z.id, drop_0, take_ge by done.
    replace (q ++ h ++ ty ++ a3 ++ pad ++ rest) with ((q ++ h ++ ty) ++ a3 ++ pad ++ rest) by by rewrite <- !(assoc_L (++)).
    rewrite (store_at (q ++ h ++ ty)) by (unfold h, ty; rewrite ?length_app, ?length_le_bytes; lia).
    by rewrite <- !(assoc_L (++)).
  - destruct Hg as (-> & _). destruct a3; [done|]. cbn in H3. lia.
Qed.

(** Adding an attribute that fits appends it; one that does not changes
    nothing. *)
Lemma nlattr_add_ok hdr l req type data len d : req_of hdr l req → given data len d → is_word 16 type → bytes_ok d →
  req_len hdr l + align4 (4 + length d) ≤ req_size →
  ∃ req', nlattr_add type data len req = Some (0, req') ∧ req_of hdr (l ++ [(type, d)]) req'.
Proof.
  intros Hr Hg Hty Hdb Hs. destruct (req_of_len _ _ _ Hr) as (E & Ea & Hb). unfold nlattr_add. rewrite E. cbn [mbind option_bind].
  rewrite (given_guard _ _ _ Hg). pose proof (given_len _ _ _ Hg) as ->. rewrite Ea.
  pose proof (align4_bounds (4 + length d)) as Hal. pose proof (enc_len_nonneg l) as Hnn. unfold NLA_ALIGN, NLA_HDRLEN.
  rewrite wrap_small by (unfold is_word, req_size in *; change (2 ^ 32) with 4294967296; lia).
  rewrite (proj2 (Z.ltb_ge _ _)) by lia.
  destruct Hr as (bs & rest & -> & He & Hm & Hlen & Hbo). pose proof (encodes_length _ _ He) as Hbs.
  rewrite !length_app, length_le_bytes in Hlen. unfold req_len in *.
  destruct (split_at rest (Z.to_nat (align4 (4 + length d)))) as (a & rest' & -> & Hla); [unfold req_size in *; lia|].
  set (p := le_bytes 4 (4 + length hdr + enc_len l)). set (q := p ++ hdr ++ bs).
  assert (Z.of_nat (length q) = 4 + length hdr + enc_len l) as Hq by (unfold q, p; rewrite !length_app, length_le_bytes; lia).
  replace (p ++ hdr ++ bs ++ a ++ rest') with (q ++ a ++ rest') by (unfold q; by rewrite <- !(assoc_L (++))).
  destruct (put_attr q a rest' d type data (4 + length hdr + enc_len l)) as (pad & Hpad & Hsub & Ep); [done|lia..|].
  destruct (store _ _ (q ++ a ++ rest')) as [r1|]; [|done]. cbn [mbind option_bind] in Ep |- *.
  destruct (store _ _ r1) as [r2|]; [|done]. cbn [mbind option_bind] in Ep |- *. rewrite Ep. cbn [mbind option_bind].
  assert (is_word 16 (4 + length d)) as Hd16 by (unfold is_word, req_size in *; change (2 ^ 16) with 65536; lia).
  destruct (attr_at type d pad q rest' Hty) as (El & _ & _); [apply Hd16|]. cbv zeta in El. rewrite Hq in El. rewrite El.
  cbn [mbind option_bind]. unfold q. rewrite <- !(assoc_L (++)).
  rewrite store_head by (unfold p; by rewrite !length_le_bytes). eexists. split; [done|].
  exists (bs ++ le_bytes 2 (4 + length d) ++ le_bytes 2 type ++ d ++ pad), rest'. cbn [app]. split_and!.
  - rewrite enc_len_app. cbn [enc_len]. rewrite <- !(assoc_L (++)). f_equal. f_equal. lia.
  - apply encodes_app; [done|]. rewrite <- (app_nil_r pad). constructor; [done|apply Hd16|lia|constructor].
  - done.
  - rewrite !length_app, !length_le_bytes in *. unfold req_size in *. lia.
  - unfold p in Hbo. rewrite !Forall_app in *. destruct Hbo as (_ & ? & ? & Ha & ?). split_and!; auto using le_bytes_ok.
    apply Forall_forall. intros x Hx. by apply (proj1 (Forall_forall _ _) Ha), Hsub.
Qed.

(** Nesting: the attribute that was begun, with everything added since. *)
Lemma begin_nested_ok hdr l req type : req_of hdr l req → is_word 15 type → req_len hdr l + 4 ≤ req_size →
  ∃ req', nlattr_begin_nested type req = Some (Some (req_len hdr l), req') ∧
    req_of hdr (l ++ [(Z.lor type NLA_F_NESTED, [])]) req'.
Proof.
  intros Hr Hty Hs. destruct (req_of_len _ _ _ Hr) as (E & Ea & _).
  assert (is_word 16 (Z.lor type NLA_F_NESTED)) as Hw.
  { unfold is_word, NLA_F_NESTED in *. rewrite Z.lor_comm. change (2 ^ 15) with (Z.shiftl 1 15) at 1 2.
    rewrite lor_add_disjoint by lia. change (2 ^ 16) with (2 * 2 ^ 15). lia. }
  destruct (nlattr_add_ok hdr l req (Z.lor type NLA_F_NESTED) None 0 []) as (req' & Eq & Hr'); [done..|].
  exists req'. unfold nlattr_begin_nested, req_tail. rewrite E. cbn [mbind option_bind]. rewrite Ea, Eq. done.
Qed.

Lemma end_nested_ok hdr l t l2 req : req_of hdr (l ++ (t, []) :: l2) req → is_word 16 t → 
  ∃ req' inner, nlattr_end_nested (req_len hdr l) req = Some req' ∧ encodes l2 inner ∧ req_of hdr (l ++ [(t, inner)]) req'.
Proof.
  intros Hr Ht. destruct (req_of_len _ _ _ Hr) as (E & Ea & Hb).
  destruct Hr as (bs & rest & -> & He & Hm & Hlen & Hbo). unfold nlattr_end_nested, req_tail. rewrite E. cbn [mbind option_bind].
  rewrite Ea. apply encodes_app_inv in He as (b1 & b2 & -> & He1 & He2). pose proof (encodes_length _ _ He1) as H1.
  inversion He2 as [|t' d' pad l' inner _ _ Hpad Hin]; subst. pose proof (encodes_length _ _ Hin) as H2.
  cbn [length] in Hpad. rewrite Z.add_0_r in Hpad. change (align4 4) with 4 in Hpad. destruct pad; [|cbn in Hpad; lia]. clear Hpad.
  unfold req_len in *. rewrite enc_len_app in *. cbn [enc_len length app] in *.
  rewrite Z.add_0_r in *. change (align4 4) with 4 in *.
  pose proof (enc_len_nonneg l). pose proof (enc_len_nonneg l2).
  set (p := le_bytes 4 _). set (q := p ++ hdr ++ b1).
  assert (Z.of_nat (length q) = 4 + length hdr + enc_len l) as Hq by (unfold q, p; rewrite !length_app, length_le_bytes; lia).
  replace (p ++ hdr ++ (b1 ++ le_bytes 2 4 ++ le_bytes 2 t ++ inner) ++ rest) with (q ++ le_bytes 2 4 ++ (le_bytes 2 t ++ inner ++ rest))
    by (unfold q; by rewrite <- !(assoc_L (++))).
  rewrite (store_at q) by (rewrite ?length_le_bytes; lia). cbn [mbind option_bind]. eexists _, inner. split; [done|]. split; [done|].
  exists (b1 ++ le_bytes 2 (4 + length inner) ++ le_bytes 2 t ++ inner), rest. split_and!.
  - rewrite enc_len_app. cbn [enc_len]. rewrite align4_id by (rewrite H2; pose proof (enc_len_mod l2); dlia).
    unfold q, p. rewrite <- !(assoc_L (++)). f_equal; [f_equal; lia|]. do 4 f_equal. lia.
  - apply encodes_app; [done|]. assert (inner = inner ++ [] ++ []) as Ei by by rewrite !app_nil_r. rewrite Ei at 3.
    constructor; [done| |cbn; rewrite align4_id; [lia|rewrite H2; pose proof (enc_len_mod l2); dlia]|constructor].
    rewrite H2. unfold req_size in *. change (2 ^ 16) with 65536. lia.
  - done.
  - rewrite !length_app, !length_le_bytes in *. lia.
  - unfold q, p. rewrite !Forall_app in *. destruct Hbo as (? & ? & (? & _ & ? & ?) & ?). split_and!; auto using le_bytes_ok.
Qed.
