(* ===== verification/Netlink.v ===== *)
(** * libbpf: asking the kernel about an interface

    [netlink.c]: requests over netlink sockets, the receive loop, and what libxdp
    is built on: attaching an XDP program to an interface, asking which programs
    it has and which features; and the hooks for traffic control.

    A request and a reply are buffers of bytes ([Nlattr]).  The system is a set of
    oracles ([NetlinkOs]), each of which may depend on how many calls were made
    before; the replies to a request are a list of datagrams and failures.
    Waiting for a reply that never comes is [None], like a fault. *)

From S2P Require Import Prelude Bytes CString Errno Nlattr.
From stdpp Require Import pretty.
Local Open Scope Z_scope.

Definition EINTR : Z := 4.
Definition LIBBPF_ERRNO__INTERNAL : Z := 4004.
Definition LIBBPF_ERRNO__WRNGPID : Z := 4011.
Definition LIBBPF_ERRNO__INVSEQ : Z := 4012.
Definition LIBBPF_ERRNO__NLPARSE : Z := 4013.
Definition NETLINK_ROUTE : Z := 0.
Definition NETLINK_GENERIC : Z := 16.
Definition AF_PACKET : Z := 17.
Definition NLM_F_REQUEST : Z := 1.
Definition NLM_F_MULTI : Z := 2.
Definition NLM_F_ACK : Z := 4.
Definition NLM_F_ECHO : Z := 8.
Definition NLM_F_DUMP : Z := Z.lor 0x100 0x200.
Definition NLM_F_REPLACE : Z := 0x100.
Definition NLM_F_EXCL : Z := 0x200.
Definition NLM_F_CREATE : Z := 0x400.
Definition NLMSG_ERROR : Z := 2.
Definition NLMSG_DONE : Z := 3.
Definition NLMSG_LENGTH (n : Z) : Z := n + NLMSG_HDRLEN.
Definition RTM_NEWLINK : Z := 16.
Definition RTM_GETLINK : Z := 18.
Definition RTM_SETLINK : Z := 19.
Definition sizeof_ifinfomsg : Z := 16.
Definition GENL_HDRLEN : Z := 4.

(** ** The system *)

Class NetlinkOs := {
  nl_socket : nat → Z → Z + Z;
  nl_bind : nat → Z;
  nl_getsockname : nat → Z + Z * Z;
  nl_send : nat → Z;
  nl_replies : nat → Z → Z → list Z → list (Z + list Z);
  nl_time : nat → Z;
  nl_alloc : nat → Z → bool }.

(** How many calls were made, the sockets that are open, what was sent on which
    protocol, what is still to be received, and [errno]. *)
Record net := mk_net {
  ticks : nat; socks : gset Z; sent : list (Z * list Z); rx : list (Z + list Z); nl_errno : Z }.

Section netlink.
Context `{NetlinkOs}.
Abbreviation M := (prog net).

Definition call {A} (f : nat → A) : M A := λ s,
  Some (f (ticks s), mk_net (S (ticks s)) (socks s) (sent s) (rx s) (nl_errno s)).
Definition set_socks (l : gset Z → gset Z) : M () := λ s,
  Some ((), mk_net (ticks s) (l (socks s)) (sent s) (rx s) (nl_errno s)).
Definition set_rx (r : list (Z + list Z)) : M () := λ s,
  Some ((), mk_net (ticks s) (socks s) (sent s) r (nl_errno s)).
Definition log_sent (proto : Z) (r : list Z) : M () := λ s,
  Some ((), mk_net (ticks s) (socks s) (sent s ++ [(proto, r)]) (rx s) (nl_errno s)).
Definition libbpf_err (ret : Z) : M Z := λ s,
  Some (ret, if ret <? 0 then mk_net (ticks s) (socks s) (sent s) (rx s) (- ret) else s).
(** A computation on a buffer. *)
Definition pure {A} (x : option A) : M A := λ s, a ← x; Some (a, s).

(** The descriptor and the port.  Asking for extended errors on the socket is
    left out: its failure is only reported. *)
Definition libbpf_netlink_close (sock : Z) : M () := set_socks (λ l, l ∖ {[ sock ]}).
Definition libbpf_netlink_open (proto : Z) : M (Z + Z * Z) :=
  let! s := call (λ t, nl_socket t proto) in
  match s with
  | inl e => pret (inl (- e))
  | inr sock =>
    set_socks (λ l, {[ sock ]} ∪ l) ;;;
    let! e := call nl_bind in
    if negb (e =? 0) then libbpf_netlink_close sock ;;; pret (inl (- e))
    else
      let! a := call nl_getsockname in
      match a with
      | inl e => libbpf_netlink_close sock ;;; pret (inl (- e))
      | inr (pid, addrlen) =>
        if negb (addrlen =? 12) then libbpf_netlink_close sock ;;; pret (inl (- LIBBPF_ERRNO__INTERNAL))
        else pret (inr (sock, pid))
      end
  end.

(** ** Receiving *)

(** The loop of [netlink_recvmsg]: what the first call that was not interrupted
    returns. *)
Fixpoint first_event (l : list (Z + list Z)) : option ((Z + list Z) * list (Z + list Z)) :=
  match l with
  | [] => None
  | inl e :: l => if (e =? EINTR) || (e =? EAGAIN) then first_event l else Some (inl e, l)
  | inr d :: l => Some (inr d, l)
  end.

(** With [MSG_PEEK | MSG_TRUNC] the length of the datagram, which stays; without
    what fits into [size] bytes of it. *)
Definition netlink_recvmsg (peek : bool) (size : Z) : M (Z + list Z) :=
  let! s := pget in
  let! (ev, rest) := pure (first_event (rx s)) in
  match ev with
  | inl e => set_rx rest ;;; pret (inl (- e))
  | inr d => if peek then set_rx (inr d :: rest) ;;; pret (inr d)
             else set_rx rest ;;; pret (inr (take (Z.to_nat size) d))
  end.

Definition alloc_iov (len : Z) : M Z := let! ok := call (λ t, nl_alloc t len) in pret (if ok then 0 else - ENOMEM).

(** What one datagram leads to: the end with a result, another datagram, or its
    end, with whether more are to come. *)
Inductive round := Done (ret : Z) | Start | Ended (multipart : bool).

Definition NL_CONT : Z := 0.
Definition NL_NEXT : Z := 1.
Definition NL_DONE : Z := 2.

(** A call-back on a message: its result, and what it left in [cookie]. *)
Definition dump_fn (C : Type) : Type := Z → list Z → C → option (Z * C).

Definition nlmsg_ok (nh len : Z) (b : list Z) : option bool :=
  if len <? 16 then Some false else l ← nlmsg_len nh b; Some ((16 <=? l) && (l <=? len)).

(** One message.  [None] in the result stands for going on. *)
Definition handle_msg {C} (fn : option (dump_fn C)) (nl_pid seq nh : Z) (b : list Z) (c : C) : option (option round * C) :=
  pid ← nlmsg_pid nh b;
  if negb (pid =? nl_pid) then Some (Some (Done (- LIBBPF_ERRNO__WRNGPID)), c)
  else
    sq ← nlmsg_seq nh b;
    if negb (sq =? seq) then Some (Some (Done (- LIBBPF_ERRNO__INVSEQ)), c)
    else
      type ← nlmsg_type nh b;
      if type =? NLMSG_ERROR then
        e ← load 4 (nh + NLMSG_HDRLEN) b;
        if e =? 0 then Some (None, c)
        else _ ← libbpf_nla_dump_errormsg nh b; Some (Some (Done (s32 e)), c)
      else if type =? NLMSG_DONE then Some (Some (Done 0), c)
      else match fn with
           | None => Some (None, c)
           | Some fn =>
             '(ret, c) ← fn nh b c;
             Some (if ret =? NL_CONT then None
                   else if ret =? NL_NEXT then Some Start
                   else if ret =? NL_DONE then Some (Done 0) else Some (Done ret), c)
           end.

(** The loop over the messages of a datagram; a message has 16 bytes at least. *)
Fixpoint messages {C} (fuel : nat) (fn : option (dump_fn C)) (nl_pid seq nh len : Z) (multipart : bool)
    (b : list Z) (c : C) : option (round * C) :=
  ok ← nlmsg_ok nh len b;
  if negb ok then Some (Ended multipart, c)
  else
    match fuel with
    | O => None
    | S fuel =>
      flags ← nlmsg_flags nh b;
      '(r, c) ← handle_msg fn nl_pid seq nh b c;
      match r with
      | Some r => Some (r, c)
      | None =>
        l ← nlmsg_len nh b;
        messages fuel fn nl_pid seq (nh + NLMSG_ALIGN l) (len - NLMSG_ALIGN l)
          (multipart || negb (Z.land flags NLM_F_MULTI =? 0)) b c
      end
    end.

(** The rounds of [libbpf_netlink_recv]; each takes an event off the queue. *)
Fixpoint recv_rounds {C} (fuel : nat) (fn : option (dump_fn C)) (nl_pid seq iov_len : Z) (c : C) : M (Z * C) :=
  match fuel with
  | O => pfault
  | S fuel =>
    let! p := netlink_recvmsg true iov_len in
    match p with
    | inl err => pret (err, c)
    | inr d =>
      let! err := (if iov_len <? length d then alloc_iov (length d) else pret 0) in
      if negb (err =? 0) then pret (err, c)
      else
        let iov_len := Z.max iov_len (length d) in
        let! p := netlink_recvmsg false iov_len in
        match p with
        | inl err => pret (err, c)
        | inr b =>
          if bool_decide (b = []) then pret (0, c)
          else
            let! (r, c) := pure (messages (length b) fn nl_pid seq 0 (length b) false b c) in
            match r with
            | Done ret => pret (ret, c)
            | Start => recv_rounds fuel fn nl_pid seq iov_len c
            | Ended multipart => if multipart then recv_rounds fuel fn nl_pid seq iov_len c else pret (0, c)
            end
        end
    end
  end.

Definition libbpf_netlink_recv {C} (nl_pid seq : Z) (fn : option (dump_fn C)) (c : C) : M (Z * C) :=
  let! err := alloc_iov 4096 in
  if negb (err =? 0) then pret (err, c)
  else let! s := pget in recv_rounds (S (length (rx s))) fn nl_pid seq 4096 c.

Definition libbpf_netlink_send_recv {C} (req : list Z) (proto : Z) (fn : option (dump_fn C)) (c : C) : M (Z * C) :=
  let! o := libbpf_netlink_open proto in
  match o with
  | inl err => pret (err, c)
  | inr (sock, nl_pid) =>
    let! req := pure (store 12 (le_bytes 4 0) req) in
    let! now := call nl_time in
    let! req := pure (store 8 (le_bytes 4 now) req) in
    let! len := pure (nlmsg_len 0 req) in
    let! msg := pure (range 0 len req) in
    let! e := call nl_send in
    let! r :=
      (if negb (e =? 0) then pret (- e, c)
       else
         log_sent proto msg ;;;
         let! replies := call (λ t, nl_replies t proto nl_pid msg) in
         set_rx replies ;;;
         libbpf_netlink_recv nl_pid (u32 now) fn c) in
    libbpf_netlink_close sock ;;; pret r
  end.

(** ** Requests

    The headers of a request that is otherwise zero; [family] is the header of
    the family behind the one of netlink. *)
Definition new_req (len type flags : Z) (family : list Z) : list Z :=
  let h := le_bytes 4 len ++ le_bytes 2 type ++ le_bytes 2 flags ++ le_bytes 4 0 ++ le_bytes 4 0 ++ family in
  h ++ replicate (Z.to_nat req_size - length h) 0.
Definition ifinfomsg (family index : Z) : list Z :=
  le_bytes 1 family ++ le_bytes 1 0 ++ le_bytes 2 0 ++ le_bytes 4 index ++ le_bytes 4 0 ++ le_bytes 4 0.
Definition genlmsghdr (cmd version : Z) : list Z := le_bytes 1 cmd ++ le_bytes 1 version ++ le_bytes 2 0.

(** ** Attaching *)

Definition IFLA_XDP : Z := 43.
Definition IFLA_MAX : Z := 60.
Definition IFLA_XDP_FD : Z := 1.
Definition IFLA_XDP_ATTACHED : Z := 2.
Definition IFLA_XDP_FLAGS : Z := 3.
Definition IFLA_XDP_PROG_ID : Z := 4.
Definition IFLA_XDP_DRV_PROG_ID : Z := 5.
Definition IFLA_XDP_SKB_PROG_ID : Z := 6.
Definition IFLA_XDP_HW_PROG_ID : Z := 7.
Definition IFLA_XDP_EXPECTED_FD : Z := 8.
Definition IFLA_XDP_MAX : Z := 8.
Definition XDP_FLAGS_UPDATE_IF_NOEXIST : Z := 1.
Definition XDP_FLAGS_SKB_MODE : Z := 2.
Definition XDP_FLAGS_DRV_MODE : Z := 4.
Definition XDP_FLAGS_HW_MODE : Z := 8.
Definition XDP_FLAGS_REPLACE : Z := 16.
Definition XDP_FLAGS_MODES : Z := Z.lor (Z.lor XDP_FLAGS_SKB_MODE XDP_FLAGS_DRV_MODE) XDP_FLAGS_HW_MODE.
Definition XDP_FLAGS_MASK : Z := Z.lor (Z.lor XDP_FLAGS_UPDATE_IF_NOEXIST XDP_FLAGS_MODES) XDP_FLAGS_REPLACE.

(** Adding an attribute when [b] holds; a negative result ends the function. *)
Definition add_if (b : bool) (type : Z) (d req : list Z) : option (Z * list Z) :=
  if b then nlattr_add type (Some d) (length d) req else Some (0, req).

(** The request up to where it is sent: an error, or its bytes. *)
Definition xdp_attach_req (ifindex fd old_fd flags : Z) : option (Z + list Z) :=
  let req := new_req (NLMSG_LENGTH sizeof_ifinfomsg) RTM_SETLINK (Z.lor NLM_F_REQUEST NLM_F_ACK) (ifinfomsg 0 ifindex) in
  '(nla, req) ← nlattr_begin_nested IFLA_XDP req;
  match nla with
  | None => Some (inl (- EMSGSIZE))
  | Some nla =>
    '(ret, req) ← nlattr_add IFLA_XDP_FD (Some (le_bytes 4 fd)) 4 req;
    if ret <? 0 then Some (inl ret)
    else
      '(ret, req) ← add_if (negb (flags =? 0)) IFLA_XDP_FLAGS (le_bytes 4 flags) req;
      if ret <? 0 then Some (inl ret)
      else
        '(ret, req) ← add_if (negb (Z.land flags XDP_FLAGS_REPLACE =? 0)) IFLA_XDP_EXPECTED_FD (le_bytes 4 old_fd) req;
        if ret <? 0 then Some (inl ret)
        else req ← nlattr_end_nested nla req; Some (inr req)
  end.

Definition __bpf_set_link_xdp_fd_replace (ifindex fd old_fd flags : Z) : M Z :=
  let! r := pure (xdp_attach_req ifindex fd old_fd flags) in
  match r with
  | inl err => pret err
  | inr req => let! r := libbpf_netlink_send_recv req NETLINK_ROUTE None () in pret r.1
  end.

(** Option structures: their size as the caller gives it, and the bytes behind
    the last field that is known. *)
Definition opts_valid (sz : Z) (extra : list Z) : bool := (8 <=? sz) && forallb (Z.eqb 0) extra.
Record bpf_xdp_attach_opts := mk_attach_opts { ao_sz : Z; ao_old_prog_fd : Z; ao_extra : list Z }.
Definition opts_ok {O} (sz : O → Z) (extra : O → list Z) (opts : option O) : bool :=
  match opts with None => true | Some o => opts_valid (sz o) (extra o) end.
Definition opts_get {O} (sz get : O → Z) (fin dflt : Z) (opts : option O) : Z :=
  match opts with Some o => if fin <=? sz o then get o else dflt | None => dflt end.

Definition bpf_xdp_attach (ifindex prog_fd flags : Z) (opts : option bpf_xdp_attach_opts) : M Z :=
  if negb (opts_ok ao_sz ao_extra opts) then libbpf_err (- EINVAL)
  else
    let old_prog_fd := opts_get ao_sz ao_old_prog_fd 12 0 opts in
    let '(flags, old_prog_fd) :=
      if negb (old_prog_fd =? 0) then (Z.lor flags XDP_FLAGS_REPLACE, old_prog_fd) else (flags, -1) in
    let! err := __bpf_set_link_xdp_fd_replace ifindex prog_fd old_prog_fd flags in
    libbpf_err err.
Definition bpf_xdp_detach (ifindex flags : Z) (opts : option bpf_xdp_attach_opts) : M Z :=
  bpf_xdp_attach ifindex (-1) flags opts.

(** ** Queries *)

Definition XDP_ATTACHED_NONE : Z := 0.
Definition XDP_ATTACHED_MULTI : Z := 4.

Record xdp_link_info := mk_info {
  x_prog_id : Z; x_drv_prog_id : Z; x_hw_prog_id : Z; x_skb_prog_id : Z; x_attach_mode : Z }.
Record xdp_id_md := mk_xdp_id { xi_ifindex : Z; xi_info : xdp_link_info }.

(** A number that is taken over when the attribute is there. *)
Definition attr_u32 (t old : Z) (tb : list (option Z)) (b : list Z) : option Z :=
  match tb_get t tb with Some nla => libbpf_nla_getattr_u32 nla b | None => Some old end.

Definition get_xdp_info (ifi : Z) (tb : list (option Z)) (b : list Z) (c : xdp_id_md) : option (Z * xdp_id_md) :=
  index ← (if xi_ifindex c =? 0 then Some 0 else load 4 (ifi + 4) b);
  if negb (xi_ifindex c =? 0) && negb (xi_ifindex c =? s32 index) then Some (0, c)
  else match tb_get IFLA_XDP tb with
  | None => Some (0, c)
  | Some nla =>
    '(ret, xtb) ← libbpf_nla_parse_nested IFLA_XDP_MAX nla None b;
    if negb (ret =? 0) then Some (ret, c)
    else match tb_get IFLA_XDP_ATTACHED xtb with
    | None => Some (0, c)
    | Some nla =>
      mode ← libbpf_nla_getattr_u8 nla b;
      let i := xi_info c in
      let set p d h s := mk_xdp_id (xi_ifindex c) (mk_info p d h s mode) in
      if mode =? XDP_ATTACHED_NONE then
        Some (0, set (x_prog_id i) (x_drv_prog_id i) (x_hw_prog_id i) (x_skb_prog_id i))
      else
        p ← attr_u32 IFLA_XDP_PROG_ID (x_prog_id i) xtb b;
        s ← attr_u32 IFLA_XDP_SKB_PROG_ID (x_skb_prog_id i) xtb b;
        d ← attr_u32 IFLA_XDP_DRV_PROG_ID (x_drv_prog_id i) xtb b;
        h ← attr_u32 IFLA_XDP_HW_PROG_ID (x_hw_prog_id i) xtb b;
        Some (0, set p d h s)
    end
  end.

Definition __dump_link_nlmsg : dump_fn xdp_id_md := λ nlh b c,
  l ← nlmsg_len nlh b;
  let ifi := nlh + NLMSG_HDRLEN in
  '(err, tb) ← libbpf_nla_parse IFLA_MAX (ifi + sizeof_ifinfomsg) (s32 (l - NLMSG_LENGTH sizeof_ifinfomsg)) None b;
  if negb (err =? 0) then Some (- LIBBPF_ERRNO__NLPARSE, c) else get_xdp_info ifi tb b c.

(** The family of a name, and the features of an interface. *)
Definition CTRL_ATTR_FAMILY_ID : Z := 1.
Definition CTRL_ATTR_FAMILY_NAME : Z := 2.
Definition GENL_ID_CTRL : Z := 16.
Definition CTRL_CMD_GETFAMILY : Z := 3.
Definition NETDEV_CMD_DEV_GET : Z := 1.
Definition NETDEV_CMD_MAX : Z := 4.
Definition NETDEV_A_DEV_IFINDEX : Z := 1.
Definition NETDEV_A_DEV_XDP_FEATURES : Z := 3.

Definition genl_attrs (maxtype nh : Z) (b : list Z) : option (list (option Z)) :=
  l ← nlmsg_len nh b;
  snd <$> libbpf_nla_parse maxtype (nh + NLMSG_HDRLEN + GENL_HDRLEN) (s32 (l - 20)) None b.

Definition parse_genl_family_id : dump_fn Z := λ nh b id,
  tb ← genl_attrs CTRL_ATTR_FAMILY_ID nh b;
  match tb_get CTRL_ATTR_FAMILY_ID tb with
  | None => Some (NL_CONT, id)
  | Some nla => v ← libbpf_nla_getattr_u16 nla b; Some (NL_DONE, v)
  end.

Definition parse_xdp_features : dump_fn (Z * Z) := λ nh b md,
  tb ← genl_attrs NETDEV_CMD_MAX nh b;
  match tb_get NETDEV_A_DEV_IFINDEX tb, tb_get NETDEV_A_DEV_XDP_FEATURES tb with
  | Some i, Some f =>
    ifindex ← libbpf_nla_getattr_u32 i b;
    if negb (ifindex =? u32 md.1) then Some (NL_CONT, md)
    else v ← libbpf_nla_getattr_u64 f b; Some (NL_DONE, (md.1, v))
  | _, _ => Some (NL_CONT, md)
  end.

(** The variable [id] holds [id0] before the call. *)
Definition libbpf_netlink_resolve_genl_family_id (name : list Z) (id0 : Z) : M (Z * Z) :=
  let req := new_req (NLMSG_LENGTH GENL_HDRLEN) GENL_ID_CTRL NLM_F_REQUEST (genlmsghdr CTRL_CMD_GETFAMILY 2) in
  let! (err, req) := pure (nlattr_add CTRL_ATTR_FAMILY_NAME (Some name) (length name) req) in
  if err <? 0 then pret (err, id0)
  else libbpf_netlink_send_recv req NETLINK_GENERIC (Some parse_genl_family_id) id0.

Record bpf_xdp_query_opts := mk_query_opts {
  qo_sz : Z; qo_info : xdp_link_info; qo_feature_flags : Z; qo_extra : list Z }.

(** [OPTS_SET] of the five numbers: those that the size covers. *)
Definition set_info (sz : Z) (i o : xdp_link_info) : xdp_link_info :=
  let pick fin (f : xdp_link_info → Z) := if fin <=? sz then f i else f o in
  mk_info (pick 12 x_prog_id) (pick 16 x_drv_prog_id) (pick 20 x_hw_prog_id) (pick 24 x_skb_prog_id) (pick 25 x_attach_mode).

Definition netdev : list Z := [110; 101; 116; 100; 101; 118; 0].

(** The features, for options that have room for them; [id0] is what the
    variable [id], which is not set, holds. *)
Definition query_features (ifindex id0 : Z) (o : bpf_xdp_query_opts) : M (Z * bpf_xdp_query_opts) :=
  let set v := mk_query_opts (qo_sz o) (qo_info o) v (qo_extra o) in
  let! (err, id) := libbpf_netlink_resolve_genl_family_id netdev id0 in
  if err <? 0 then
    if err =? - ENOENT then pret (0, set 0) else let! r := libbpf_err err in pret (r, o)
  else
    let req := new_req (NLMSG_LENGTH GENL_HDRLEN) id NLM_F_REQUEST (genlmsghdr NETDEV_CMD_DEV_GET 2) in
    let! (err, req) := pure (nlattr_add NETDEV_A_DEV_IFINDEX (Some (le_bytes 4 ifindex)) 4 req) in
    if err <? 0 then let! r := libbpf_err err in pret (r, o)
    else
      let! (err, md) := libbpf_netlink_send_recv req NETLINK_GENERIC (Some parse_xdp_features) (ifindex, 0) in
      if negb (err =? 0) then let! r := libbpf_err err in pret (r, o) else pret (0, set md.2).

Definition no_info : xdp_link_info := mk_info 0 0 0 0 0.

Definition bpf_xdp_query (ifindex xdp_flags id0 : Z) (opts : option bpf_xdp_query_opts) : M (Z * option bpf_xdp_query_opts) :=
  let fail err := let! r := libbpf_err err in pret (r, opts) in
  if negb (opts_ok qo_sz qo_extra opts) then fail (- EINVAL)
  else if negb (Z.land xdp_flags (Z.lnot XDP_FLAGS_MASK) =? 0) then fail (- EINVAL)
  else
    let xdp_flags := Z.land xdp_flags XDP_FLAGS_MODES in
    if negb (Z.land xdp_flags (xdp_flags - 1) =? 0) then fail (- EINVAL)
    else
      let req := new_req (NLMSG_LENGTH sizeof_ifinfomsg) RTM_GETLINK (Z.lor NLM_F_DUMP NLM_F_REQUEST) (ifinfomsg AF_PACKET 0) in
      let! (err, x) := libbpf_netlink_send_recv req NETLINK_ROUTE (Some __dump_link_nlmsg) (mk_xdp_id ifindex no_info) in
      if negb (err =? 0) then fail err
      else match opts with
      | None => pret (0, None)
      | Some o =>
        let o := mk_query_opts (qo_sz o) (set_info (qo_sz o) (xi_info x) (qo_info o)) (qo_feature_flags o) (qo_extra o) in
        if qo_sz o <? 40 then pret (0, Some o)
        else let! (r, o) := query_features ifindex id0 o in pret (r, Some o)
      end.

(** The identifier for a mode; the options are those of [LIBBPF_OPTS]. *)
Definition bpf_xdp_query_id (ifindex flags id0 prog_id : Z) : M (Z * Z) :=
  let! (ret, o) := bpf_xdp_query ifindex flags id0 (Some (mk_query_opts 40 no_info 0 [])) in
  if negb (ret =? 0) then let! r := libbpf_err ret in pret (r, prog_id)
  else
    let i := from_option qo_info no_info o in
    let flags := Z.land flags XDP_FLAGS_MODES in
    pret (0,
      if negb (x_attach_mode i =? XDP_ATTACHED_MULTI) && (flags =? 0) then x_prog_id i
      else if negb (Z.land flags XDP_FLAGS_DRV_MODE =? 0) then x_drv_prog_id i
      else if negb (Z.land flags XDP_FLAGS_HW_MODE =? 0) then x_hw_prog_id i
      else if negb (Z.land flags XDP_FLAGS_SKB_MODE =? 0) then x_skb_prog_id i else 0).
End netlink.
