(* ===== verification/NetlinkSpec.v ===== *)
(** * libbpf: what is asked and what is understood

    The receive loop of [Netlink] on the encoding of a list of messages is a
    recursion over the messages ([recv_refines]); the request to attach a program
    says what was asked for; and a query against a kernel that lists its
    interfaces finds the programs of the one that was asked about. *)

From S2P Require Import Prelude Bytes CString Errno Nlattr Netlink.
Local Open Scope Z_scope.

(** ** Messages and datagrams *)

(** A message, for a port and in answer to a request with a sequence number, and
    what it means. *)
Record msg (X : Type) := mk_msg { m_type : Z; m_flags : Z; m_seq : Z; m_pid : Z; m_body : list Z; m_mean : X }.
Arguments mk_msg {X}.
Arguments m_type {X}.
Arguments m_flags {X}.
Arguments m_seq {X}.
Arguments m_pid {X}.
Arguments m_body {X}.
Arguments m_mean {X}.

Section messages.
Context {X : Type}.
Abbreviation msg := (msg X).

Definition msg_ok (m : msg) : Prop :=
  is_word 16 (m_type m) ∧ is_word 16 (m_flags m) ∧ (is_word 32 (m_seq m) ∧ is_word 32 (m_pid m)) ∧ bytes_ok (m_body m) ∧ length (m_body m) < 2 ^ 31 - 32 ∧
  (* an error carries its number *)
  (m_type m = NLMSG_ERROR → 20 ≤ length (m_body m)).

Definition msg_len (m : msg) : Z := 16 + length (m_body m).
Definition msg_bytes (m : msg) : list Z :=
  le_bytes 4 (msg_len m) ++ le_bytes 2 (m_type m) ++ le_bytes 2 (m_flags m) ++ le_bytes 4 (m_seq m) ++ le_bytes 4 (m_pid m) ++ m_body m.

(** [b] are the messages, each padded. *)
Inductive datagram : list msg → list Z → Prop :=
  | dg_nil : datagram [] []
  | dg_cons m pad ms b : msg_ok m → msg_len m + length pad = align4 (msg_len m) → bytes_ok pad →
      datagram ms b → datagram (m :: ms) (msg_bytes m ++ pad ++ b).

Lemma length_msg_bytes m : Z.of_nat (length (msg_bytes m)) = msg_len m.
Proof. unfold msg_bytes, msg_len. rewrite !length_app, !length_le_bytes. lia. Qed.

(** The fields of a message inside a buffer. *)
Section fields.
Context (m : msg) (Hm : msg_ok m) (pre rest : list Z).
Abbreviation b := (pre ++ msg_bytes m ++ rest).
Abbreviation nh := (Z.of_nat (length pre)).

Lemma load_after (l1 l2 : list Z) (o n : Z) : o = length l1 → load n (nh + o) (pre ++ l1 ++ l2) = load n 0 l2.
Proof. intros ->. rewrite load_app_r by lia. rewrite <- (Z.add_0_r (length l1)), load_app_r by lia. done. Qed.

Lemma msg_fields : nlmsg_len nh b = Some (msg_len m) ∧ nlmsg_type nh b = Some (m_type m) ∧
  nlmsg_flags nh b = Some (m_flags m) ∧ nlmsg_seq nh b = Some (m_seq m) ∧ nlmsg_pid nh b = Some (m_pid m).
Proof.
  destruct Hm as (Ht & Hf & [Hseq Hpid] & _ & Hl & _). unfold msg_bytes. rewrite <- !(assoc_L (++)).
  set (b0 := le_bytes 4 (msg_len m)). set (b1 := le_bytes 2 (m_type m)). set (b2 := le_bytes 2 (m_flags m)).
  set (b3 := le_bytes 4 (m_seq m)). set (b4 := le_bytes 4 (m_pid m)).
  unfold nlmsg_len, nlmsg_type, nlmsg_flags, nlmsg_seq, nlmsg_pid. split_and!.
  - rewrite <- (Z.add_0_r nh), load_app_r by lia. unfold b0. rewrite (load_le_bytes 4), wrap_small; [done|].
    unfold is_word, msg_len. change (2 ^ (8 * 4%nat)) with 4294967296. change (2 ^ 31) with 2147483648 in Hl. lia.
  - rewrite (load_after b0) by done. unfold b1. by rewrite (load_le_bytes 2), wrap_small by done.
  - rewrite (assoc_L (++) b0). rewrite (load_after (b0 ++ b1)) by done. unfold b2. by rewrite (load_le_bytes 2), wrap_small by done.
  - rewrite (assoc_L (++) b1), (assoc_L (++) b0). rewrite (load_after (b0 ++ b1 ++ b2)) by done. unfold b3.
    by rewrite (load_le_bytes 4), wrap_small by done.
  - rewrite (assoc_L (++) b2), (assoc_L (++) b1), (assoc_L (++) b0). rewrite (load_after (b0 ++ b1 ++ b2 ++ b3)) by done. unfold b4.
    by rewrite (load_le_bytes 4), wrap_small by done.
Qed.
(** The body is 16 bytes further. *)
Lemma msg_body_at : ∃ h, length h = 16%nat ∧ b = (pre ++ h) ++ m_body m ++ rest.
Proof.
  exists (le_bytes 4 (msg_len m) ++ le_bytes 2 (m_type m) ++ le_bytes 2 (m_flags m) ++ le_bytes 4 (m_seq m) ++ le_bytes 4 (m_pid m)).
  split; [done|]. unfold msg_bytes. by rewrite <- !(assoc_L (++)).
Qed.
End fields.

(** ** The error message *)

(** The request that an error repeats ends inside it. *)
Definition err_ok (m : msg) : Prop :=
  m_type m = NLMSG_ERROR → Z.land (m_flags m) NLM_F_ACK_TLVS ≠ 0 → Z.land (m_flags m) NLM_F_CAPPED = 0 →
  ∃ inner, load 4 4 (m_body m) = Some inner ∧ 16 ≤ inner ∧ 4 + inner ≤ length (m_body m).

Lemma last_of_elem as_ t o : last_of as_ t = Some o → mk_attr o t ∈ as_.
Proof.
  unfold last_of. destruct (last _) as [[o' t']|] eqn:E; [|done]. intros [= <-].
  apply last_Some_elem_of, list_elem_of_filter in E as [<- ?]. done.
Qed.
Lemma extack_policy_ok : policy_ok NLMSGERR_ATTR_MAX (Some extack_policy).
Proof. intros p [= <-]. split; [done|]. apply (bool_decide_unpack _). vm_compute. exact I. Qed.

(** Reading the string of an attribute that the policy accepted stays inside. *)
Lemma extack_str b head len : bytes_ok b → 0 ≤ head → head + len ≤ length b →
  ∃ e tb, libbpf_nla_parse NLMSGERR_ATTR_MAX head len (Some extack_policy) b = Some (e, tb) ∧
    (e = 0 → ∀ nla, tb_get NLMSGERR_ATTR_MSG tb = Some nla → is_Some (read_str (libbpf_nla_data nla) b)).
Proof.
  intros Hb Hh Hl. destruct (nla_parse_index b NLMSGERR_ATTR_MAX head len (Some extack_policy))
    as (as_ & used & e & tb & E & _ & Hc & [Hv Hst] & _ & Hix); [done|done|apply extack_policy_ok|done|done|].
  exists e, tb. split; [done|]. intros -> nla Hn. rewrite Hix in Hn by done. apply last_of_elem in Hn.
  destruct Hst as [[_ ->]|[? _]]; [|done].
  apply (proj1 (Forall_forall _ _) Hv) in Hn as Hval. apply (proj1 (Forall_forall _ _) Hc) in Hn as (l & El & _ & Hat & H4 & Hend).
  cbn [a_at] in *.
  destruct (Hval extack_policy (mk_policy LIBBPF_NLA_STRING 0 0) (l - 4)) as [?|(Hmin & _ & Hz)]; [done|done|done|by apply nla_len_data|done|].
  assert (1 ≤ l - 4) as H1 by exact Hmin. clear Hmin.
  eapply (read_str_at b _ (libbpf_nla_data nla + (l - 4 - 1))); [unfold libbpf_nla_data, NLA_HDRLEN; lia|]. by apply Hz.
Qed.

Lemma dump_errormsg_safe m pre rest : msg_ok m → err_ok m →
  m_type m = NLMSG_ERROR → bytes_ok (pre ++ msg_bytes m ++ rest) →
  is_Some (libbpf_nla_dump_errormsg (length pre) (pre ++ msg_bytes m ++ rest)).
Proof.
  intros Hm He Hty Hb. destruct (msg_fields m Hm pre rest) as (El & _ & Ef & _ & _).
  destruct (msg_body_at m pre rest) as (h & Hh & Eb). unfold libbpf_nla_dump_errormsg. rewrite Ef. cbn [mbind option_bind].
  destruct (Z.eqb_spec (Z.land (m_flags m) NLM_F_ACK_TLVS) 0) as [|Htlv]; [by eexists|].
  destruct Hm as (_ & _ & _ & _ & Hlen & H20). specialize (H20 Hty). change (2 ^ 31) with 2147483648 in Hlen.
  set (b := pre ++ msg_bytes m ++ rest) in *.
  assert (∃ inner, (if Z.land (m_flags m) NLM_F_CAPPED =? 0 then nlmsg_len (length pre + NLMSG_HDRLEN + 4) b else Some 16) = Some inner ∧
    16 ≤ inner ∧ 4 + inner ≤ length (m_body m)) as (inner & -> & Hi1 & Hi2).
  { destruct (Z.eqb_spec (Z.land (m_flags m) NLM_F_CAPPED) 0) as [Hc|Hc]; [|exists 16; split; [done|lia]].
    destruct (He Hty Htlv Hc) as (inner & Ei & ? & ?). exists inner. split; [|done]. unfold nlmsg_len, NLMSG_HDRLEN.
    rewrite Eb. replace (length pre + 16 + 4) with (length (pre ++ h) + 4) by (rewrite length_app; lia).
    rewrite load_app_r by lia. by rewrite load_app_l by lia. }
  cbn [mbind option_bind]. rewrite El. cbn [mbind option_bind]. unfold NLMSG_HDRLEN, msg_len.
  rewrite wrap_small by (unfold is_word; change (2 ^ 32) with 4294967296; lia).
  rewrite (sint_small 32 (inner - 16)) by (change (2 ^ (32 - 1)) with 2147483648; lia).
  rewrite (sint_small 32) by (change (2 ^ (32 - 1)) with 2147483648; lia).
  destruct (extack_str b (length pre + 16 + (20 + (inner - 16))) (length pre + (16 + length (m_body m)) - (length pre + 16 + (20 + (inner - 16)))))
    as (e & tb & E & Hstr); [done|lia|rewrite Eb, !length_app; lia|].
  rewrite E. cbn [mbind option_bind]. destruct (Z.eqb_spec e 0) as [->|]; cbn [negb]; [|by eexists].
  destruct (tb_get NLMSGERR_ATTR_MSG tb) as [nla|]; [|by eexists].
  destruct (Hstr eq_refl nla eq_refl) as [str ->]. by eexists.
Qed.

(** ** The receive loop as a recursion over messages *)

Definition event : Type := Z + list msg.
Definition err_no (m : msg) : Z := le_val (take 4 (m_body m)).

Section run.
Context {C : Type} (pid seq : Z) (spec : option (X → C → Z * C)).

(** A message for another port, or in answer to another request, ends with an
    error. *)
Definition run_msg (m : msg) (c : C) : option round * C :=
  if negb (m_pid m =? pid) then (Some (Done (- LIBBPF_ERRNO__WRNGPID)), c)
  else if negb (m_seq m =? seq) then (Some (Done (- LIBBPF_ERRNO__INVSEQ)), c)
  else if m_type m =? NLMSG_ERROR then
    if err_no m =? 0 then (None, c) else (Some (Done (s32 (err_no m))), c)
  else if m_type m =? NLMSG_DONE then (Some (Done 0), c)
  else match spec with
       | None => (None, c)
       | Some f =>
         let (ret, c) := f (m_mean m) c in
         (if ret =? NL_CONT then None
          else if ret =? NL_NEXT then Some Start
          else if ret =? NL_DONE then Some (Done 0) else Some (Done ret), c)
       end.

Fixpoint run_msgs (ms : list msg) (multipart : bool) (c : C) : round * C :=
  match ms with
  | [] => (Ended multipart, c)
  | m :: ms =>
    match run_msg m c with
    | (Some r, c) => (r, c)
    | (None, c) => run_msgs ms (multipart || negb (Z.land (m_flags m) NLM_F_MULTI =? 0)) c
    end
  end.

(** [None] is waiting for ever. *)
Fixpoint recv_run (evs : list event) (c : C) : option (Z * C) :=
  match evs with
  | [] => None
  | inl e :: evs => if (e =? EINTR) || (e =? EAGAIN) then recv_run evs c else Some (- e, c)
  | inr [] :: _ => Some (0, c)
  | inr ms :: evs =>
    match run_msgs ms false c with
    | (Done ret, c) => Some (ret, c)
    | (Start, c) | (Ended true, c) => recv_run evs c
    | (Ended false, c) => Some (0, c)
    end
  end.
End run.

Section refines.
Context `{NetlinkOs} {C : Type} (pid seq : Z).

(** A call-back does on a message what [f] says, where the message satisfies
    [P]. *)
Definition fn_does (fn : option (dump_fn C)) (spec : option (X → C → Z * C)) (P : msg → Prop) : Prop :=
  match fn, spec with
  | None, None => True
  | Some fn, Some f => ∀ m pre rest c, P m → msg_ok m → bytes_ok (pre ++ msg_bytes m ++ rest) →
      m_type m ≠ NLMSG_ERROR → m_type m ≠ NLMSG_DONE →
      fn (Z.of_nat (length pre)) (pre ++ msg_bytes m ++ rest) c = Some (f (m_mean m) c)
  | _, _ => False
  end.
Context (fn : option (dump_fn C)) (spec : option (X → C → Z * C)) (P : msg → Prop) (Hfn : fn_does fn spec P).

Lemma handle_msg_run m pre rest c : msg_ok m → (m_pid m = pid → m_seq m = seq → err_ok m ∧ P m) → bytes_ok (pre ++ msg_bytes m ++ rest) →
  handle_msg fn pid seq (length pre) (pre ++ msg_bytes m ++ rest) c = Some (run_msg pid seq spec m c).
Proof.
  intros Hm HeP Hb. destruct (msg_fields m Hm pre rest) as (_ & Et & _ & Es & Ep).
  unfold handle_msg, run_msg. rewrite Ep. cbn [mbind option_bind]. destruct (Z.eqb_spec (m_pid m) pid) as [E1|]; cbn [negb]; [|done].
  rewrite Es. cbn [mbind option_bind]. destruct (Z.eqb_spec (m_seq m) seq) as [E2|]; cbn [negb]; [|done].
  rewrite Et. cbn [mbind option_bind]. destruct (HeP E1 E2) as [He HP].
  destruct (Z.eqb_spec (m_type m) NLMSG_ERROR) as [Hty|Hty].
  - destruct (msg_body_at m pre rest) as (h & Hh & Eb). pose proof Hm as (_ & _ & _ & _ & _ & H20).
    assert (load 4 (length pre + NLMSG_HDRLEN) (pre ++ msg_bytes m ++ rest) = Some (err_no m)) as ->.
    { rewrite Eb. replace (length pre + NLMSG_HDRLEN) with (length (pre ++ h) + 0) by (rewrite length_app; unfold NLMSG_HDRLEN; lia).
      rewrite load_app_r by lia. specialize (H20 Hty). rewrite load_app_l, load_Some by lia. done. }
    cbn [mbind option_bind]. destruct (err_no m =? 0); [done|].
    destruct (dump_errormsg_safe m pre rest) as [x ->]; done.
  - destruct (Z.eqb_spec (m_type m) NLMSG_DONE) as [Hty'|Hty']; [done|].
    unfold fn_does in Hfn. destruct fn as [f|], spec as [g|]; [|done..]. rewrite Hfn by done. cbn [mbind option_bind].
    by destruct (g (m_mean m) c).
Qed.

Lemma datagram_bytes ms b : datagram ms b → bytes_ok b.
Proof.
  induction 1 as [|m pad ms b Hm _ Hp _ IH]; [done|]. destruct Hm as (_ & _ & _ & Hb & _).
  unfold msg_bytes. rewrite !Forall_app. split_and!; auto using le_bytes_ok.
Qed.

(** What is asked of the messages that are meant for the caller. *)
Definition msgs_ok (ms : list msg) : Prop := Forall (λ m, m_pid m = pid → m_seq m = seq → err_ok m ∧ P m) ms.

Lemma messages_run ms b : datagram ms b → msgs_ok ms → ∀ (fuel : nat) pre multipart c, bytes_ok pre → (length b ≤ fuel)%nat →
  messages fuel fn pid seq (length pre) (length b) multipart (pre ++ b) c = Some (run_msgs pid seq spec ms multipart c).
Proof.
  induction 1 as [|m pad ms b Hm Hpad Hpb Hd IH]; intros Hms fuel pre multipart c Hpre Hf.
  { by destruct fuel. }
  apply Forall_cons in Hms as [HeP Hms]. pose proof (datagram_bytes _ _ Hd) as Hbb.
  destruct (msg_fields m Hm pre (pad ++ b)) as (El & _ & Ef & _ & _).
  pose proof (length_msg_bytes m) as Hl. rewrite !length_app in Hf |- *.
  assert (bytes_ok (msg_bytes m)) as Hmb.
  { destruct Hm as (_ & _ & _ & ? & _). unfold msg_bytes. rewrite !Forall_app. split_and!; auto using le_bytes_ok. }
  assert (16 ≤ msg_len m) as H16 by (unfold msg_len; lia).
  assert (nlmsg_ok (length pre) (length (msg_bytes m) + (length pad + length b))%nat (pre ++ msg_bytes m ++ pad ++ b) = Some true) as Hok.
  { unfold nlmsg_ok. rewrite (proj2 (Z.ltb_ge _ _)) by lia. rewrite El. cbn [mbind option_bind].
    rewrite (proj2 (Z.leb_le _ _)), (proj2 (Z.leb_le _ _)) by lia. done. }
  destruct fuel as [|fuel]; cbn [messages]; rewrite Hok; cbn [mbind option_bind negb]; [lia|]. rewrite Ef. cbn [mbind option_bind].
  rewrite handle_msg_run by (done || rewrite !Forall_app; auto). cbn [mbind option_bind run_msgs].
  destruct (run_msg pid seq spec m c) as [[r|] c']; [done|]. rewrite El. cbn [mbind option_bind]. unfold NLMSG_ALIGN. rewrite <- Hpad.
  replace (length pre + (msg_len m + length pad)) with (Z.of_nat (length (pre ++ msg_bytes m ++ pad))) by (rewrite !length_app; lia).
  replace (Z.of_nat (length (msg_bytes m) + (length pad + length b)) - (msg_len m + length pad)) with (Z.of_nat (length b)) by lia.
  replace (pre ++ msg_bytes m ++ pad ++ b) with ((pre ++ msg_bytes m ++ pad) ++ b) by by rewrite <- !(assoc_L (++)).
  apply IH; [done|rewrite !Forall_app; auto|lia].
Qed.

(** The queue holds the events. *)
Definition is_event (e : event) (r : Z + list Z) : Prop :=
  match e, r with
  | inl x, inl y => x = y
  | inr ms, inr b => datagram ms b ∧ msgs_ok ms
  | _, _ => False
  end.

Lemma first_event_run evs q c : Forall2 is_event evs q →
  match first_event q with
  | None => recv_run pid seq spec evs c = None
  | Some (inl e, _) => recv_run pid seq spec evs c = Some (- e, c)
  | Some (inr b, q') => ∃ ms evs', recv_run pid seq spec evs c = recv_run pid seq spec (inr ms :: evs') c ∧
      datagram ms b ∧ msgs_ok ms ∧ Forall2 is_event evs' q' ∧ (length q' < length q)%nat
  end.
Proof.
  induction 1 as [|e r evs q Her Hq IH]; [done|]. destruct e as [e|ms], r as [e'|b]; try done; cbn [is_event] in Her.
  - subst e'. cbn [first_event recv_run]. destruct ((e =? EINTR) || (e =? EAGAIN)); [|done].
    destruct (first_event q) as [[[e1|b] q']|]; [done| |done]. destruct IH as (ms & evs' & ? & ? & ? & ? & ?).
    exists ms, evs'. split_and!; [done..|cbn; lia].
  - destruct Her. exists ms, evs. split_and!; [done..|cbn; lia].
Qed.

(** Nothing but the clock and the queue changes. *)
Definition same (s s' : net) : Prop := socks s' = socks s ∧ sent s' = sent s ∧ nl_errno s' = nl_errno s.

(** Memory was refused. *)
Definition no_memory : Prop := ∃ t n, nl_alloc t n = false.

(** A run ends as [o] says, or for lack of memory. *)
Definition agrees (s : net) (o : option (Z * C)) (r : option (Z * C * net)) : Prop :=
  match o with None => r = None | Some rc => ∃ s', r = Some (rc, s') ∧ same s s' end ∨
  no_memory ∧ ∃ c' s', r = Some ((- ENOMEM, c'), s') ∧ same s s'.

Definition with_rx (s : net) (q : list (Z + list Z)) : net := mk_net (ticks s) (socks s) (sent s) q (nl_errno s).

Lemma recvmsg_eq peek size s : netlink_recvmsg peek size s =
  match first_event (rx s) with
  | None => None
  | Some (inl e, q) => Some (inl (- e), with_rx s q)
  | Some (inr d, q) => Some (if peek then (inr d, with_rx s (inr d :: q)) else (inr (take (Z.to_nat size) d), with_rx s q))
  end.
Proof.
  unfold netlink_recvmsg, pbind, pget, pure. destruct (first_event (rx s)) as [[[e|d] q]|]; [done| |done]. by destruct peek.
Qed.

Lemma recv_rounds_run fuel : ∀ iov_len s evs c, Forall2 is_event evs (rx s) → (length (rx s) < fuel)%nat →
  agrees s (recv_run pid seq spec evs c) (recv_rounds fuel fn pid seq iov_len c s).
Proof.
  induction fuel as [|fuel IH]; intros iov_len s evs c Hev Hf; [lia|].
  pose proof (first_event_run evs (rx s) c Hev) as Hfe. cbn [recv_rounds].
  unfold pbind at 1. rewrite recvmsg_eq. destruct (first_event (rx s)) as [[[e|b] q']|].
  - left. rewrite Hfe. eexists. by split.
  - destruct Hfe as (ms & evs' & -> & Hd & Hms & Hev' & Hq). set (s0 := with_rx s (inr b :: q')).
    assert (∃ e s1, (if iov_len <? length b then alloc_iov (length b) else pret 0) s0 = Some (e, s1) ∧ same s s1 ∧
      (no_memory ∧ e = - ENOMEM ∨ e = 0 ∧ rx s1 = inr b :: q')) as (e & s1 & E1 & Hs1 & Hrx).
    { destruct (iov_len <? length b); [|eexists _, _; split; [done|]; split; [done|by right]]. unfold alloc_iov, pbind, call.
      eexists _, _. split; [done|]. split; [done|]. destruct (nl_alloc _ _) eqn:Ea; [by right|left]. split; [by eexists _, _|done]. }
    unfold pbind at 1. rewrite E1. destruct Hrx as [[Hno ->]|[-> Hrx]]; cbn [Z.eqb negb].
    { right. split; [done|]. by eexists _, _. } unfold pbind at 1. rewrite recvmsg_eq, Hrx. cbn [first_event].
    rewrite take_ge by lia.
    case_bool_decide as Hb.
    { destruct Hd as [|m pad ms b]; [|apply (f_equal (λ l, Z.of_nat (length l))) in Hb; rewrite length_app, Nat2Z.inj_add, length_msg_bytes in Hb; unfold msg_len in Hb; cbn in Hb; lia].
      left. eexists. split; [done|]. by destruct Hs1. }
    unfold pbind at 1, pure. pose proof (messages_run ms b Hd Hms (length b) [] false c) as Hrun. cbn [app length] in Hrun.
    change (Z.of_nat 0) with 0 in Hrun. rewrite Hrun by done. cbn [mbind option_bind].
    destruct ms as [|m ms]; [by inversion Hd; subst|]. cbn [recv_run]. destruct (run_msgs pid seq spec (m :: ms) false c) as [r c'].
    set (s2 := with_rx s1 q'). assert (same s s2) as Hs2 by by destruct Hs1.
    assert (∀ n, agrees s (recv_run pid seq spec evs' c') (recv_rounds fuel fn pid seq n c' s2)) as Hnext.
    { intros n. pose proof (IH n s2 evs' c' Hev' ltac:(cbn; lia)) as Hn. destruct Hs2 as (E2 & E3 & E4).
      assert (∀ s', same s2 s' → same s s') as Htr by (intros s' (? & ? & ?); repeat split; congruence).
      destruct Hn as [Hn|(Hno & c1 & s' & ? & ?)]; [left|right; split; [done|]; exists c1, s'; auto].
      destruct (recv_run pid seq spec evs' c'); [|done]. destruct Hn as (s' & ? & ?). exists s'. auto. }
    destruct r as [ret| |[|]]; [by left; exists s2|apply Hnext|apply Hnext|by left; exists s2].
  - left. by rewrite Hfe.
Qed.

Lemma recv_agrees s evs c : Forall2 is_event evs (rx s) →
  agrees s (recv_run pid seq spec evs c) (libbpf_netlink_recv pid seq fn c s).
Proof.
  intros Hev. unfold libbpf_netlink_recv, alloc_iov, pbind at 1, pbind at 1, call. destruct (nl_alloc _ _) eqn:Ea; cbn [pret Z.eqb negb].
  2: { right. split; [by eexists _, _|]. by eexists _, _. }
  unfold pbind, pget. cbn [rx].
  apply (recv_rounds_run _ 4096 (mk_net (S (ticks s)) (socks s) (sent s) (rx s) (nl_errno s)) evs c Hev). cbn. lia.
Qed.

(** C33: on replies that are lists of messages, for any port and any request, the
    receive loop with its buffers, offsets and lengths is the recursion over these
    messages: it goes wrong nowhere, ends with the same result and the same state of
    the call-back, and waits for ever exactly when they say so; a message for another
    port or in answer to another request ends it with the error for that.  The one
    exception is a buffer that cannot be allocated, which ends it with [-ENOMEM]. *)
Theorem recv_refines s evs c : Forall2 is_event evs (rx s) →
  match recv_run pid seq spec evs c with
  | None => libbpf_netlink_recv pid seq fn c s = None
  | Some rc => ∃ s', libbpf_netlink_recv pid seq fn c s = Some (rc, s') ∧ same s s'
  end ∨
  no_memory ∧ ∃ c' s', libbpf_netlink_recv pid seq fn c s = Some ((- ENOMEM, c'), s') ∧ same s s'.
Proof. apply recv_agrees. Qed.
End refines.
End messages.

(** ** A request and its answer *)

(** What is sent: the headers with the sequence number, and the attributes. *)
Definition msg_hdr (type flags seq : Z) (family : list Z) : list Z :=
  le_bytes 2 type ++ le_bytes 2 flags ++ le_bytes 4 seq ++ le_bytes 4 0 ++ family.
Definition wire (type flags seq : Z) (family : list Z) (l : list (Z * list Z)) (m : list Z) : Prop :=
  ∃ bs, encodes l bs ∧ m = le_bytes 4 (length m) ++ msg_hdr type flags seq family ++ bs ∧ Z.of_nat (length m) ≤ req_size ∧ bytes_ok m.

Lemma new_req_of type flags family : (length family = 4 ∨ length family = 16 ∨ length family = 20)%nat → bytes_ok family →
  req_of (msg_hdr type flags 0 family) [] (new_req (NLMSG_LENGTH (length family)) type flags family).
Proof.
  intros Hf Hfb. unfold req_of, new_req. cbv zeta. eexists [], _. cbn [app enc_len]. split_and!.
  - unfold msg_hdr. rewrite <- !(assoc_L (++)). f_equal. f_equal. rewrite !length_app, !length_le_bytes. unfold NLMSG_LENGTH, NLMSG_HDRLEN. lia.
  - constructor.
  - unfold msg_hdr. rewrite !length_app, !length_le_bytes. destruct Hf as [->|[->| ->]]; done.
  - rewrite !length_app, length_replicate, !length_le_bytes. unfold req_size. lia.
  - rewrite !Forall_app. split_and!; auto using le_bytes_ok. by apply Forall_replicate.
Qed.

(** Setting port and sequence number, and cutting off what is not sent. *)
Lemma req_wire type flags family l req now : req_of (msg_hdr type flags 0 family) l req → 
  ∃ req1 req2 m, store 12 (le_bytes 4 0) req = Some req1 ∧ store 8 (le_bytes 4 now) req1 = Some req2 ∧
    nlmsg_len 0 req2 = Some (Z.of_nat (length m)) ∧ range 0 (length m) req2 = Some m ∧ wire type flags now family l m.
Proof.
  intros (bs & rest & -> & He & Hm & Hlen & Hbo). pose proof (encodes_length _ _ He) as Hbs.
  unfold msg_hdr in *. rewrite !length_app, !length_le_bytes in *. set (n := 4 + _ + enc_len l) in *.
  set (b0 := le_bytes 4 n). set (b1 := le_bytes 2 type). set (b2 := le_bytes 2 flags). set (b3 := le_bytes 4 0).
  set (b4 := le_bytes 4 now).
  replace (b0 ++ (b1 ++ b2 ++ b3 ++ b3 ++ family) ++ bs ++ rest) with ((b0 ++ b1 ++ b2 ++ b3) ++ b3 ++ (family ++ bs ++ rest))
    by by rewrite <- !(assoc_L (++)).
  rewrite (store_at (b0 ++ b1 ++ b2 ++ b3)) by done.
  replace ((b0 ++ b1 ++ b2 ++ b3) ++ b3 ++ (family ++ bs ++ rest)) with ((b0 ++ b1 ++ b2) ++ b3 ++ (b3 ++ family ++ bs ++ rest))
    by by rewrite <- !(assoc_L (++)).
  set (m := b0 ++ (b1 ++ b2 ++ b4 ++ b3 ++ family) ++ bs).
  assert (Z.of_nat (length m) = n) as Hmn.
  { unfold m, b0, b1, b2, b3, b4, n. rewrite !length_app, !length_le_bytes. lia. }
  eexists _, ((b0 ++ b1 ++ b2) ++ b4 ++ (b3 ++ family ++ bs ++ rest)), m. split; [done|]. split; [by apply store_at|].
  assert (((b0 ++ b1 ++ b2) ++ b4 ++ b3 ++ family ++ bs ++ rest) = m ++ rest) as Em by (unfold m; by rewrite <- !(assoc_L (++))).
  rewrite Em. split_and!.
  - rewrite Hmn. unfold nlmsg_len, m, b0. rewrite <- (assoc_L (++)), (load_le_bytes 4), wrap_small; [done|].
    unfold is_word, req_size, n in *. change (2 ^ (8 * 4%nat)) with 4294967296. pose proof (enc_len_nonneg l). lia.
  - rewrite range_app_l, range_Some by lia. unfold sub. by rewrite Nat2Z.id, drop_0, take_ge.
  - exists bs. split; [done|]. split; [rewrite Hmn; done|]. split; [unfold n, req_size in *; lia|].
    unfold m. rewrite !Forall_app in *. destruct Hbo as (? & (? & ? & ? & ? & ?) & ? & ?). split_and!; auto using le_bytes_ok. apply le_bytes_ok.
Qed.

(** The system: error numbers are positive and ports are 32-bit numbers; and on
    the protocol [proto] it answers a request [m] from the port [pid] with the
    messages [answers pid m]. *)
Record net_ok `{NetlinkOs} {X} (proto : Z) (P : list Z → msg X → Prop) (answers : Z → list Z → list (event (X := X))) : Prop := {
  ok_socket : ∀ t p e, nl_socket t p = inl e → 0 < e;
  ok_bind : ∀ t, nl_bind t = 0 ∨ 0 < nl_bind t;
  ok_name : ∀ t, match nl_getsockname t with inl e => 0 < e | inr (pid, _) => is_word 32 pid end;
  ok_send : ∀ t, nl_send t = 0 ∨ 0 < nl_send t;
  ok_reply : ∀ t pid m seq, is_word 32 pid → bytes_ok m → nlmsg_seq 0 m = Some seq →
    Forall2 (is_event pid seq (P m)) (answers pid m) (nl_replies t proto pid m) }.

(** What a request does: nothing is sent and there is an error, or the message
    is sent and the result is that of the answer, or the lack of memory for it.
    No socket stays open. *)
Definition asked `{NetlinkOs} {X C} (answers : Z → list Z → list (event (X := X))) (spec : option (X → C → Z * C)) (proto : Z) (Q : list Z → Prop)
    (c : C) (s : net) (ret : Z) (c' : C) (s' : net) : Prop :=
  socks s' = socks s ∧ nl_errno s' = nl_errno s ∧
  (ret < 0 ∧ c' = c ∧ sent s' = sent s ∨
   ∃ m pid seq, Q m ∧ sent s' = sent s ++ [(proto, m)] ∧ is_word 32 pid ∧ nlmsg_seq 0 m = Some seq ∧
     (recv_run pid seq spec (answers pid m) c = Some (ret, c') ∨ no_memory ∧ ret = - ENOMEM)).

Section ask.
Context `{NetlinkOs} {X : Type} (proto : Z) (P : list Z → msg X → Prop) (answers : Z → list Z → list (event (X := X))) (ok : net_ok proto P answers).

Lemma wire_head type flags seq family l m : wire type flags seq family l m →
  nlmsg_type 0 m = Some (wrap 16 type) ∧ nlmsg_flags 0 m = Some (wrap 16 flags) ∧ nlmsg_seq 0 m = Some (u32 seq).
Proof.
  intros (bs & _ & -> & _ & _). unfold nlmsg_type, nlmsg_flags, nlmsg_seq, msg_hdr. rewrite <- !(assoc_L (++)). set (b0 := le_bytes 4 _).
  set (b1 := le_bytes 2 type). set (b2 := le_bytes 2 flags). split_and!.
  - change (0 + 4) with (length b0 + 0). rewrite load_app_r by lia. unfold b1. by rewrite (load_le_bytes 2).
  - rewrite (assoc_L (++) b0). change (0 + 6) with (length (b0 ++ b1) + 0). rewrite load_app_r by lia. unfold b2. by rewrite (load_le_bytes 2).
  - rewrite (assoc_L (++) b1), (assoc_L (++) b0). change (0 + 8) with (length (b0 ++ b1 ++ b2) + 0).
    rewrite load_app_r by lia. by rewrite (load_le_bytes 4).
Qed.

Lemma wire_bytes type flags seq family l m : wire type flags seq family l m → bytes_ok m.
Proof. by intros (bs & _ & _ & _ & ?). Qed.

Lemma close_one sock (l : gset Z) : l = ∅ → ({[ sock ]} ∪ l) ∖ {[ sock ]} = l.
Proof. intros ->. set_solver. Qed.

(** Opening: an error and nothing open, or the new socket. *)
Lemma open_cases s : socks s = ∅ →
  ∃ r s', libbpf_netlink_open proto s = Some (r, s') ∧ sent s' = sent s ∧ nl_errno s' = nl_errno s ∧
    match r with
    | inl e => e < 0 ∧ socks s' = socks s
    | inr (sock, pid) => is_word 32 pid ∧ socks s' = {[ sock ]} ∪ socks s
    end.
Proof.
  intros Hs. unfold libbpf_netlink_open, libbpf_netlink_close, set_socks, call, pbind.
  destruct (nl_socket (ticks s) proto) as [e|sock] eqn:Eo; cbn.
  { eexists _, _. split; [done|]. apply (ok_socket _ _ _ ok) in Eo. by split_and!; [..|lia|]. }
  destruct (Z.eqb_spec (nl_bind (S (ticks s))) 0) as [_|Hb]; cbn.
  2:{ eexists _, _. split; [done|]. destruct (ok_bind _ _ _ ok (S (ticks s))); [done|]. cbn. rewrite close_one by done. by split_and!; [..|lia|]. }
  pose proof (ok_name _ _ _ ok (S (S (ticks s)))) as Hn. destruct (nl_getsockname _) as [e|[pid alen]]; cbn.
  { eexists _, _. split; [done|]. cbn. rewrite close_one by done. by split_and!; [..|lia|]. }
  destruct (alen =? 12); cbn; (eexists _, _; split; [done|]); [done|].
  cbn. rewrite close_one by done. done.
Qed.

Lemma send_recv_asked {C} (fn : option (dump_fn C)) spec type flags family l req c s :
  (∀ m now, wire type flags now family l m → fn_does fn spec (P m)) →
  req_of (msg_hdr type flags 0 family) l req → socks s = ∅ →
  (∀ m now pid, wire type flags now family l m → is_word 32 pid → recv_run pid (u32 now) spec (answers pid m) c ≠ None) →
  ∃ ret c' s', libbpf_netlink_send_recv req proto fn c s = Some ((ret, c'), s') ∧
    asked answers spec proto (λ m, ∃ now, wire type flags now family l m) c s ret c' s'.
Proof.
  intros Hfn Hr Hs Hans. unfold libbpf_netlink_send_recv, pbind at 1.
  destruct (open_cases s Hs) as ([e|[sock pid]] & s1 & -> & Hse & He & Hr1).
  { destruct Hr1 as [? ?]. eexists _, _, _. split; [done|]. split; [done|]. split; [done|]. by left. }
  destruct Hr1 as [Hpid Hso]. set (now := nl_time (ticks s1)).
  destruct (req_wire _ _ _ _ _ now Hr) as (req1 & req2 & m & E1 & E2 & E3 & E4 & Hw).
  unfold pure, call, pbind at 1 2 3 4 5 6. rewrite E1. cbn [mbind option_bind]. fold now. rewrite E2. cbn [mbind option_bind].
  rewrite E3. cbn [mbind option_bind]. rewrite E4. cbn [mbind option_bind ticks].
  destruct (Z.eqb_spec (nl_send (S (ticks s1))) 0) as [_|Hsd]; cbn [negb].
  2:{ destruct (ok_send _ _ _ ok (S (ticks s1))); [done|]. unfold pbind, pret, libbpf_netlink_close, set_socks. cbn.
      eexists _, _, _. split; [done|]. rewrite Hso, close_one by done. split; [done|]. split; [done|]. left. split; [lia|done]. }
  unfold pbind, log_sent, set_rx. cbn [ticks socks sent nl_errno rx].
  set (s2 := mk_net _ _ _ (nl_replies _ _ _ _) _).
  destruct (wire_head _ _ _ _ _ _ Hw) as (_ & _ & Eseq).
  pose proof (ok_reply _ _ _ ok (S (S (ticks s1))) pid m (u32 now) Hpid (wire_bytes _ _ _ _ _ _ Hw) Eseq) as Hrep.
  pose proof (recv_agrees pid (u32 now) fn spec (P m) (Hfn m now Hw) s2 (answers pid m) c Hrep) as Hrec.
  pose proof (Hans m now pid Hw Hpid) as Hne.
  assert (∃ ret c' s3, libbpf_netlink_recv pid (u32 now) fn c s2 = Some ((ret, c'), s3) ∧ same s2 s3 ∧
    (recv_run pid (u32 now) spec (answers pid m) c = Some (ret, c') ∨ no_memory ∧ ret = - ENOMEM)) as (ret & c' & s3 & E & (Hs3 & Hs4 & Hs5) & Hres).
  { destruct Hrec as [Hrec|(Hno & c' & s3 & ? & ?)]; [|exists (- ENOMEM), c', s3; auto].
    destruct (recv_run _ _ _ _ _) as [[ret c']|]; [|done]. destruct Hrec as (s3 & ? & ?). exists ret, c', s3. auto. }
  rewrite E. unfold libbpf_netlink_close, set_socks, pret. eexists ret, c', _. split; [done|].
  unfold asked. cbn. rewrite Hs3, Hs4, Hs5. cbn. rewrite Hso, close_one by done. split; [done|]. split; [done|].
  right. exists m, pid, (u32 now). split; [by exists now|]. by rewrite Hse.
Qed.
End ask.

(** ** Attaching *)

(** A request to attach, as whoever receives it reads it: the interface, the
    program, the flags and the program that is to be replaced. *)
Definition read_u32 (t : Z) (tb : list (option Z)) (m : list Z) : option (option Z) :=
  match tb_get t tb with Some nla => Some <$> libbpf_nla_getattr_u32 nla m | None => Some None end.
Definition decode_attach (m : list Z) : option (Z * option Z * option Z * option Z) :=
  ty ← nlmsg_type 0 m;
  if negb (ty =? RTM_SETLINK) then None
  else
    index ← load 4 20 m;
    '(_, tb) ← libbpf_nla_parse IFLA_MAX 32 (length m - 32) None m;
    nla ← tb_get IFLA_XDP tb;
    '(_, x) ← libbpf_nla_parse_nested IFLA_XDP_MAX nla None m;
    fd ← read_u32 IFLA_XDP_FD x m; flags ← read_u32 IFLA_XDP_FLAGS x m; old ← read_u32 IFLA_XDP_EXPECTED_FD x m;
    Some (index, fd, flags, old).

Definition attach_attrs (fd old flags : Z) : list (Z * list Z) :=
  (IFLA_XDP_FD, le_bytes 4 fd) ::
  (if flags =? 0 then [] else [(IFLA_XDP_FLAGS, le_bytes 4 flags)]) ++
  (if Z.land flags XDP_FLAGS_REPLACE =? 0 then [] else [(IFLA_XDP_EXPECTED_FD, le_bytes 4 old)]).

Lemma add_if_ok hdr l req (t : bool) type d : req_of hdr l req → is_word 16 type → bytes_ok d → d ≠ [] →
  req_len hdr l + align4 (4 + length d) ≤ req_size →
  ∃ req', add_if t type d req = Some (0, req') ∧ req_of hdr (l ++ if t then [(type, d)] else []) req'.
Proof.
  intros Hr Ht Hb Hd Hs. destruct t; cbn [add_if].
  - by apply (nlattr_add_ok _ _ _ _ _ _ d).
  - exists req. by rewrite app_nil_r.
Qed.

Lemma req_len_app hdr l1 l2 : req_len hdr (l1 ++ l2) = req_len hdr l1 + enc_len l2.
Proof. unfold req_len. rewrite enc_len_app. lia. Qed.

Lemma le4_ne v : le_bytes 4 v ≠ [].
Proof. done. Qed.
Lemma enc_len_if (t : bool) (ty v : Z) : enc_len (if t then [(ty, le_bytes 4 v)] else []) ≤ 8.
Proof. by destruct t. Qed.

Lemma xdp_attach_req_ok ifindex fd old flags :
  ∃ req inner, xdp_attach_req ifindex fd old flags = Some (inr req) ∧ encodes (attach_attrs fd old flags) inner ∧
    req_of (msg_hdr RTM_SETLINK (Z.lor NLM_F_REQUEST NLM_F_ACK) 0 (ifinfomsg 0 ifindex)) [(Z.lor IFLA_XDP NLA_F_NESTED, inner)] req.
Proof.
  unfold xdp_attach_req. set (hdr := msg_hdr _ _ 0 _).
  assert (bytes_ok (ifinfomsg 0 ifindex)) as Hf by (unfold ifinfomsg; rewrite !Forall_app; auto 10 using le_bytes_ok).
  pose proof (new_req_of RTM_SETLINK (Z.lor NLM_F_REQUEST NLM_F_ACK) (ifinfomsg 0 ifindex) (or_intror (or_introl eq_refl)) Hf) as H0.
  fold hdr in H0. change (NLMSG_LENGTH (length (ifinfomsg 0 ifindex))) with (NLMSG_LENGTH sizeof_ifinfomsg) in H0.
  assert (req_len hdr [] = 32) as Hlen by done.
  destruct (begin_nested_ok hdr [] _ IFLA_XDP H0) as (r1 & -> & H1); [done|by rewrite Hlen|]. cbn [mbind option_bind].
  destruct (nlattr_add_ok hdr _ r1 IFLA_XDP_FD (Some (le_bytes 4 fd)) 4 (le_bytes 4 fd) H1) as (r2 & -> & H2);
    [by split_and!|done|apply le_bytes_ok|by rewrite req_len_app, Hlen|]. cbn [mbind option_bind Z.ltb Z.compare].
  destruct (add_if_ok hdr _ r2 (negb (flags =? 0)) IFLA_XDP_FLAGS (le_bytes 4 flags) H2) as (r3 & -> & H3);
    [done|apply le_bytes_ok|done|by rewrite !req_len_app, Hlen|]. cbn [mbind option_bind Z.ltb Z.compare].
  destruct (add_if_ok hdr _ r3 (negb (Z.land flags XDP_FLAGS_REPLACE =? 0)) IFLA_XDP_EXPECTED_FD (le_bytes 4 old) H3) as (r4 & -> & H4);
    [done|apply le_bytes_ok|done| |].
  { rewrite !req_len_app, Hlen. pose proof (enc_len_if (negb (flags =? 0)) IFLA_XDP_FLAGS flags).
    change (align4 _) with 8. change (enc_len [(Z.lor IFLA_XDP NLA_F_NESTED, [])]) with 4.
    change (enc_len [(IFLA_XDP_FD, le_bytes 4 fd)]) with 8. unfold req_size. lia. }
  cbn [mbind option_bind Z.ltb Z.compare app] in *.
  destruct (end_nested_ok hdr [] _ _ r4 H4) as (r5 & inner & -> & Hin & H5); [done|].
  exists r5, inner. split; [done|]. split; [|done]. unfold attach_attrs.
  by destruct (flags =? 0), (Z.land flags XDP_FLAGS_REPLACE =? 0).
Qed.

(** What a wire message with the 28 bytes of headers is read as. *)
Lemma wire_parse type flags seq family l m maxtype : wire type flags seq family l m → length family = 16%nat → 0 ≤ maxtype →
  ∃ tb, libbpf_nla_parse maxtype 32 (length m - 32) None m = Some (0, tb) ∧ tb_of maxtype l tb m.
Proof.
  intros (bs & He & Em & _ & Hb) Hf Hmax. set (pre := le_bytes 4 (length m) ++ msg_hdr type flags seq family).
  assert (m = pre ++ bs ++ []) as Em' by (rewrite app_nil_r; unfold pre; by rewrite <- (assoc_L (++))).
  assert (length pre = 32%nat) as Hpre by (unfold pre, msg_hdr; rewrite !length_app, !length_le_bytes; lia).
  destruct (parse_encoded l bs pre [] maxtype) as (tb & E & Ht); [by rewrite <- Em'|done|done|].
  rewrite <- Em', Hpre in *. exists tb. split; [|done]. rewrite <- E. f_equal.
  rewrite Em', !length_app, Hpre. cbn. lia.
Qed.

Lemma tb_of_u32 maxtype l tb m t (z : option Z) : tb_of maxtype l tb m → 0 ≤ t ≤ maxtype →
  payload_of l t = le_bytes 4 <$> z → read_u32 t tb m = Some (wrap 32 <$> z).
Proof.
  intros Ht Hr Hp. specialize (Ht t Hr). rewrite Hp in Ht. unfold read_u32. destruct z as [z|]; cbn [fmap option_fmap option_map] in Ht; [|by rewrite Ht].
  destruct Ht as (nla & -> & Hh). unfold libbpf_nla_getattr_u32. rewrite (holds_load _ _ _ 4 Hh) by done.
  cbn [fmap option_fmap option_map]. by rewrite le_val_le_bytes.
Qed.

Definition given_flags (flags : Z) : option Z := if flags =? 0 then None else Some flags.
Definition given_old (flags old : Z) : option Z := if Z.land flags XDP_FLAGS_REPLACE =? 0 then None else Some old.

Lemma decode_wire ifindex fd old flags inner now m :
  encodes (attach_attrs fd old flags) inner →
  wire RTM_SETLINK (Z.lor NLM_F_REQUEST NLM_F_ACK) now (ifinfomsg 0 ifindex) [(Z.lor IFLA_XDP NLA_F_NESTED, inner)] m →
  decode_attach m = Some (u32 ifindex, Some (u32 fd), wrap 32 <$> given_flags flags, wrap 32 <$> given_old flags old).
Proof.
  intros Hin Hw. destruct (wire_parse _ _ _ _ _ _ IFLA_MAX Hw) as (tb & Et & Htb); [done|done|].
  pose proof Hw as (bs & _ & Em & _ & Hb). unfold decode_attach.
  assert (nlmsg_type 0 m = Some RTM_SETLINK ∧ load 4 20 m = Some (u32 ifindex)) as [-> ->].
  { rewrite Em. unfold nlmsg_type, msg_hdr, ifinfomsg. rewrite <- !(assoc_L (++)). set (b0 := le_bytes 4 (length m)).
    split; [change (0 + 4) with (length b0 + 0); rewrite load_app_r by lia; by rewrite (load_le_bytes 2)|].
    set (b1 := le_bytes 2 RTM_SETLINK). set (b2 := le_bytes 2 _). set (b3 := le_bytes 4 now). set (b4 := le_bytes 4 0).
    set (b5 := le_bytes 1 0). set (b6 := le_bytes 2 0).
    change 20 with (length b0 + (length b1 + (length b2 + (length b3 + (length b4 + (length b5 + (length b5 + (length b6 + 0)))))))).
    rewrite !load_app_r by lia. by rewrite (load_le_bytes 4). }
  cbn [mbind option_bind Z.eqb negb]. change (RTM_SETLINK =? RTM_SETLINK) with true. cbn [negb]. rewrite Et. cbn [mbind option_bind].
  specialize (Htb IFLA_XDP ltac:(done)). unfold payload_of in Htb. rewrite filter_cons_True in Htb by done. cbn in Htb.
  destruct Htb as (nla & -> & Hh). cbn [mbind option_bind].
  destruct (nested_encoded nla inner _ m IFLA_XDP_MAX Hb Hh Hin) as (x & -> & Hx); [done|]. cbn [mbind option_bind].
  rewrite (tb_of_u32 _ _ _ _ IFLA_XDP_FD (Some fd) Hx), (tb_of_u32 _ _ _ _ IFLA_XDP_FLAGS (given_flags flags) Hx),
    (tb_of_u32 _ _ _ _ IFLA_XDP_EXPECTED_FD (given_old flags old) Hx); [done|..]; try done.
  all: unfold given_flags, given_old, attach_attrs; by destruct (flags =? 0), (Z.land flags XDP_FLAGS_REPLACE =? 0).
Qed.

(** A message that asks for an acknowledgement, and what the kernel then sends:
    one message, with the number of an error or 0, before which a call may be
    interrupted; or receiving it fails. *)
Definition wants_ack (m : list Z) : bool :=
  match nlmsg_flags 0 m with
  | Some f => negb (Z.land f NLM_F_REQUEST =? 0) && negb (Z.land f NLM_F_ACK =? 0)
  | None => false
  end.
Inductive acked (pid seq : Z) : Z → list (event (X := ())) → Prop :=
  | acked_msg m evs : m_pid m = pid → m_seq m = seq → m_type m = NLMSG_ERROR → Z.land (m_flags m) NLM_F_MULTI = 0 →
      acked pid seq (s32 (err_no m)) (inr [m] :: evs)
  | acked_intr e v evs : e = EINTR ∨ e = EAGAIN → acked pid seq v evs → acked pid seq v (inl e :: evs)
  | acked_fail e evs : e ≠ EINTR → e ≠ EAGAIN → acked pid seq (- e) (inl e :: evs).

Lemma acked_run pid seq v evs : acked pid seq v evs → recv_run (C := ()) pid seq None evs () = Some (v, ()).
Proof.
  induction 1 as [m evs Hp Hq Ht Hf|e v evs He _ IH|e evs H1 H2]; cbn [recv_run].
  - cbn [run_msgs]. unfold run_msg. rewrite Hp, Hq, Ht, Hf, !Z.eqb_refl. cbn [negb]. destruct (Z.eqb_spec (err_no m) 0) as [->|]; done.
  - rewrite IH. destruct He as [-> | ->]; done.
  - by rewrite (proj2 (Z.eqb_neq _ _) H1), (proj2 (Z.eqb_neq _ _) H2).
Qed.

(** C34: attaching a program, against a kernel that acknowledges a request on a
    routing socket when the request asks for it, sends one request at most and
    leaves no socket open.  Either nothing is sent and the result is an error, or
    the request that is sent asks for the acknowledgement and, read by the rules for
    attributes, names the interface, the program, the flags if there are any, and
    with a program to replace that program and the flag for it; and the result is
    the number in the acknowledgement, or [-ENOMEM] without memory to receive it. *)
Theorem attach_asks `{NetlinkOs} P (answers : Z → list Z → list (event (X := ()))) (ok : net_ok NETLINK_ROUTE P answers)
    ifindex prog_fd flags opts s :
  socks s = ∅ →
  (∀ pid seq m, is_word 32 pid → nlmsg_seq 0 m = Some seq → wants_ack m = true → ∃ v, acked pid seq v (answers pid m)) →
  let old := opts_get ao_sz ao_old_prog_fd 12 0 opts in
  let flags' := if old =? 0 then flags else Z.lor flags XDP_FLAGS_REPLACE in
  ∃ ret s', bpf_xdp_attach ifindex prog_fd flags opts s = Some (ret, s') ∧ socks s' = ∅ ∧
    (ret < 0 ∧ sent s' = sent s ∨
     opts_ok ao_sz ao_extra opts = true ∧ ∃ m pid seq, sent s' = sent s ++ [(NETLINK_ROUTE, m)] ∧
       wants_ack m = true ∧ nlmsg_seq 0 m = Some seq ∧
       decode_attach m = Some (u32 ifindex, Some (u32 prog_fd), wrap 32 <$> given_flags flags',
         wrap 32 <$> given_old flags' (if old =? 0 then -1 else old)) ∧
       (acked pid seq ret (answers pid m) ∨ no_memory ∧ ret = - ENOMEM)).
Proof.
  intros Hs Hans old flags'. unfold bpf_xdp_attach. fold old.
  assert (∀ r s0, ∃ s1, libbpf_err r s0 = Some (r, s1) ∧ socks s1 = socks s0 ∧ sent s1 = sent s0) as Herr.
  { intros r s0. unfold libbpf_err. eexists. split; [done|]. by destruct (r <? 0). }
  destruct (opts_ok ao_sz ao_extra opts); cbn [negb].
  2:{ destruct (Herr (- EINVAL) s) as (s1 & -> & E1 & E2). exists (- EINVAL), s1. rewrite E1. split_and!; [done|done|by left]. }
  set (old' := if old =? 0 then -1 else old).
  replace (if negb (old =? 0) then (Z.lor flags XDP_FLAGS_REPLACE, old) else (flags, -1)) with (flags', old')
    by (unfold flags', old'; by destruct (old =? 0)).
  destruct (xdp_attach_req_ok ifindex prog_fd old' flags') as (req & inner & Er & Hin & Hreq).
  unfold __bpf_set_link_xdp_fd_replace, pbind at 1 2, pure. rewrite Er. cbn [mbind option_bind].
  assert (∀ m now fam l, wire RTM_SETLINK (Z.lor NLM_F_REQUEST NLM_F_ACK) now fam l m → wants_ack m = true) as Hwa.
  { intros m now fam l (_ & Ef & _)%wire_head. unfold wants_ack. by rewrite Ef. }
  destruct (send_recv_asked NETLINK_ROUTE P answers ok None None _ _ _ _ req () s (λ _ _ _, I) Hreq Hs)
    as (ret & [] & s1 & E1 & Hso & _ & Hres).
  { intros m now pid Hw Hp. destruct (Hans pid (u32 now) m Hp) as [v Hv]; [by apply wire_head in Hw as (_ & _ & ?)|by eapply Hwa|].
    by rewrite (acked_run _ _ _ _ Hv). }
  unfold pbind at 1. rewrite E1. cbn [pret fst]. destruct (Herr ret s1) as (s2 & E2 & Hs2 & Hse).
  unfold pret. rewrite E2. exists ret, s2. split; [done|]. rewrite Hs2, Hse, Hso. split; [done|].
  destruct Hres as [(? & _ & ?)|(m & pid & seq & (now & Hw) & ? & Hp & Esq & Hr)]; [by left|]. right. split; [done|]. exists m, pid, seq.
  pose proof (Hwa _ _ _ _ Hw) as Hwm. split; [done|]. split; [done|]. split; [done|]. split; [by apply (decode_wire _ _ _ _ inner now)|].
  destruct Hr as [Hr|?]; [left|by right]. destruct (Hans pid seq m Hp Esq Hwm) as [v Hv]. rewrite (acked_run _ _ _ _ Hv) in Hr. by injection Hr as ->.
Qed.

(** ** Queries *)

(** An interface as the kernel lists it: its index, what else is said about it,
    and the attributes about its XDP programs. *)
Record link := mk_link { lk_index : Z; lk_others : list (Z * list Z); lk_xdp : option (list (Z * list Z)) }.

Definition has_size (x : list (Z * list Z)) (t : Z) (n : nat) : Prop := ∀ d, payload_of x t = Some d → length d = n.
Definition xdp_wf (x : list (Z * list Z)) : Prop :=
  has_size x IFLA_XDP_ATTACHED 1 ∧ has_size x IFLA_XDP_PROG_ID 4 ∧ has_size x IFLA_XDP_DRV_PROG_ID 4 ∧
  has_size x IFLA_XDP_SKB_PROG_ID 4 ∧ has_size x IFLA_XDP_HW_PROG_ID 4.

Definition xdp_attr (o : option (list (Z * list Z))) (l : list (Z * list Z)) : Prop :=
  match o with
  | None => l = []
  | Some x => xdp_wf x ∧ ∃ t inner, l = [(t, inner)] ∧ Z.land t NLA_TYPE_MASK = IFLA_XDP ∧ encodes x inner
  end.

(** The message about a link. *)
Definition is_link (m : msg link) : Prop :=
  m_type m = RTM_NEWLINK ∧ Z.land (m_flags m) NLM_F_MULTI ≠ 0 ∧
  - 2 ^ 31 ≤ lk_index (m_mean m) < 2 ^ 31 ∧ Forall (λ a, Z.land a.1 NLA_TYPE_MASK ≠ IFLA_XDP) (lk_others (m_mean m)) ∧
  ∃ ifi bs l, m_body m = ifi ++ bs ∧ length ifi = 16%nat ∧ load 4 4 ifi = Some (u32 (lk_index (m_mean m))) ∧
    xdp_attr (lk_xdp (m_mean m)) l ∧ encodes (lk_others (m_mean m) ++ l) bs.

(** The programs that the attributes tell of. *)
Definition id_of (x : list (Z * list Z)) (t old : Z) : Z := from_option le_val old (payload_of x t).
Definition info_of (x : list (Z * list Z)) (i : xdp_link_info) : xdp_link_info :=
  match payload_of x IFLA_XDP_ATTACHED with
  | None => i
  | Some d =>
    let mode := le_val d in
    if mode =? XDP_ATTACHED_NONE then mk_info (x_prog_id i) (x_drv_prog_id i) (x_hw_prog_id i) (x_skb_prog_id i) mode
    else mk_info (id_of x IFLA_XDP_PROG_ID (x_prog_id i)) (id_of x IFLA_XDP_DRV_PROG_ID (x_drv_prog_id i))
           (id_of x IFLA_XDP_HW_PROG_ID (x_hw_prog_id i)) (id_of x IFLA_XDP_SKB_PROG_ID (x_skb_prog_id i)) mode
  end.
Definition link_info (l : link) (i : xdp_link_info) : xdp_link_info := match lk_xdp l with Some x => info_of x i | None => i end.
Definition see_link (l : link) (c : xdp_id_md) : Z * xdp_id_md :=
  (0, if negb (xi_ifindex c =? 0) && negb (xi_ifindex c =? lk_index l) then c
      else mk_xdp_id (xi_ifindex c) (link_info l (xi_info c))).

Lemma payload_of_app l1 l2 t : payload_of (l1 ++ l2) t = match payload_of l2 t with Some d => Some d | None => payload_of l1 t end.
Proof.
  induction l1 as [|a l1 IH]; cbn [app].
  - by destruct (payload_of l2 t).
  - rewrite !payload_of_cons, IH. by destruct (payload_of l2 t).
Qed.
Lemma payload_of_none l t : Forall (λ a, Z.land a.1 NLA_TYPE_MASK ≠ t) l → payload_of l t = None.
Proof.
  induction 1 as [|a l Ha _ IH]; [done|]. rewrite payload_of_cons, IH. by rewrite decide_False.
Qed.

Lemma attr_u32_spec maxtype x xtb b t old : tb_of maxtype x xtb b → 0 ≤ t ≤ maxtype → has_size x t 4 →
  attr_u32 t old xtb b = Some (id_of x t old).
Proof.
  intros Ht Hr Hs. specialize (Ht t Hr). unfold attr_u32, id_of. destruct (payload_of x t) as [d|] eqn:E; [|by rewrite Ht].
  destruct Ht as (nla & -> & Hh). cbn [from_option]. apply (holds_load _ _ _ 4 Hh). by rewrite (Hs d E).
Qed.

(** The call-back on the attributes of a link. *)
Lemma get_xdp_info_spec ifi tb b c (l : link) la : bytes_ok b → load 4 (ifi + 4) b = Some (u32 (lk_index l)) →
  - 2 ^ 31 ≤ lk_index l < 2 ^ 31 → Forall (λ a, Z.land a.1 NLA_TYPE_MASK ≠ IFLA_XDP) (lk_others l) →
  xdp_attr (lk_xdp l) la → tb_of IFLA_MAX (lk_others l ++ la) tb b →
  get_xdp_info ifi tb b c = Some (see_link l c).
Proof.
  intros Hb Ei Hi Ho Hx Ht. unfold get_xdp_info, see_link.
  assert (∃ v, (if xi_ifindex c =? 0 then Some 0 else load 4 (ifi + 4) b) = Some v ∧
    negb (xi_ifindex c =? 0) && negb (xi_ifindex c =? s32 v) = negb (xi_ifindex c =? 0) && negb (xi_ifindex c =? lk_index l)) as (v & -> & Ev).
  { destruct (xi_ifindex c =? 0); [by eexists|]. rewrite Ei. eexists. split; [done|]. do 3 f_equal.
    unfold sint. rewrite wrap_wrap. unfold wrap. change (2 ^ (32 - 1)) with (2 ^ 31).
    change (2 ^ 32) with 4294967296. change (2 ^ 31) with 2147483648 in *.
    destruct (Z.ltb_spec (lk_index l mod 4294967296) 2147483648); dlia. }
  cbn [mbind option_bind]. rewrite Ev.
  destruct (negb (xi_ifindex c =? 0) && negb (xi_ifindex c =? lk_index l)); [by destruct c|].
  specialize (Ht IFLA_XDP ltac:(done)). rewrite payload_of_app, (payload_of_none (lk_others l)) in Ht by done. unfold link_info.
  destruct (lk_xdp l) as [x|]; cbn [xdp_attr] in Hx; [|subst la; cbn in Ht; rewrite Ht; by destruct c].
  destruct Hx as ((H1 & H2 & H3 & H4 & H5) & t & inner & -> & Hty & He). rewrite payload_of_cons, decide_True in Ht by done. cbn [payload_of filter last fmap] in Ht.
  destruct Ht as (nla & -> & Hh). destruct (nested_encoded nla inner x b IFLA_XDP_MAX Hb Hh He) as (xtb & -> & Hxt); [done|].
  cbn [mbind option_bind negb Z.eqb]. unfold info_of. pose proof (Hxt IFLA_XDP_ATTACHED ltac:(done)) as Ha.
  destruct (payload_of x IFLA_XDP_ATTACHED) as [d|] eqn:Ed; [|rewrite Ha; by destruct c].
  destruct Ha as (a & -> & Hah). unfold libbpf_nla_getattr_u8. rewrite (holds_load _ _ _ 1 Hah) by by rewrite (H1 d Ed).
  cbn [mbind option_bind]. destruct (le_val d =? XDP_ATTACHED_NONE); [done|].
  by rewrite !(attr_u32_spec IFLA_XDP_MAX x) by done.
Qed.

Lemma dump_link_does :
  fn_does (Some __dump_link_nlmsg) (Some see_link) (λ m, m_type m = NLMSG_DONE ∨ is_link m).
Proof.
  intros m pre rest c [?|Hl] Hm Hb _ Hd; [done|]. destruct Hl as (_ & _ & Hi & Ho & ifi & bs & la & Ebody & Hifi & Eidx & Hx & He).
  destruct (msg_fields m Hm pre rest) as (El & _). destruct (msg_body_at m pre rest) as (h & Hh & Eb).
  unfold __dump_link_nlmsg. rewrite El. cbn [mbind option_bind]. destruct Hm as (_ & _ & _ & _ & Hlen & _).
  unfold msg_len, NLMSG_LENGTH, NLMSG_HDRLEN, sizeof_ifinfomsg. rewrite Ebody in Hlen |- *. rewrite length_app in Hlen |- *.
  change (2 ^ 31) with 2147483648 in Hlen.
  rewrite sint_small by (change (2 ^ (32 - 1)) with 2147483648; lia).
  set (pre' := (pre ++ h) ++ ifi). assert (pre ++ msg_bytes m ++ rest = pre' ++ bs ++ rest) as Eb'.
  { rewrite Eb, Ebody. unfold pre'. by rewrite <- !(assoc_L (++)). }
  rewrite Eb' in *. replace (length pre + 16 + 16) with (Z.of_nat (length pre')) by (unfold pre'; rewrite !length_app; lia).
  replace (16 + Z.of_nat (length ifi + length bs) - (16 + 16)) with (Z.of_nat (length bs)) by lia.
  destruct (parse_encoded _ bs pre' rest IFLA_MAX Hb He) as (tb & -> & Ht); [done|]. cbn [mbind option_bind negb Z.eqb].
  apply (get_xdp_info_spec _ _ _ _ _ la); [done| |done|done|done|done].
  unfold pre'. rewrite <- !(assoc_L (++)), (assoc_L (++) pre).
  replace (length pre + 16 + 4) with (length (pre ++ h) + 4) by (rewrite length_app; lia).
  rewrite load_app_r by lia. by rewrite load_app_l by lia.
Qed.

(** A request for all links, and their listing in answer to it, over any number
    of datagrams, interrupted or not. *)
Definition asks_links (m : list Z) : bool :=
  match nlmsg_type 0 m, nlmsg_flags 0 m with
  | Some t, Some f => (t =? RTM_GETLINK) && negb (Z.land f NLM_F_REQUEST =? 0) && (Z.land f NLM_F_DUMP =? NLM_F_DUMP)
  | _, _ => false
  end.
Definition for_us (pid seq : Z) (m : msg link) : Prop := m_pid m = pid ∧ m_seq m = seq.
Inductive listing (pid seq : Z) : list link → list (event (X := link)) → Prop :=
  | listing_end ms d after evs : Forall (λ m, for_us pid seq m ∧ is_link m) ms → for_us pid seq d → m_type d = NLMSG_DONE →
      listing pid seq (m_mean <$> ms) (inr (ms ++ d :: after) :: evs)
  | listing_more ms ls evs : ms ≠ [] → Forall (λ m, for_us pid seq m ∧ is_link m) ms → listing pid seq ls evs →
      listing pid seq ((m_mean <$> ms) ++ ls) (inr ms :: evs)
  | listing_intr e ls evs : e = EINTR ∨ e = EAGAIN → listing pid seq ls evs → listing pid seq ls (inl e :: evs).

Definition see_all (ls : list link) (c : xdp_id_md) : xdp_id_md := foldl (λ c l, (see_link l c).2) c ls.

Lemma run_links pid seq ms rest multipart c : Forall (λ m, for_us pid seq m ∧ is_link m) ms →
  run_msgs pid seq (Some see_link) (ms ++ rest) multipart c =
    run_msgs pid seq (Some see_link) rest (multipart || bool_decide (ms ≠ [])) (see_all (m_mean <$> ms) c).
Proof.
  intros Hms. revert multipart c. induction Hms as [|m ms Hm _ IH]; intros multipart c; cbn [app].
  { by rewrite bool_decide_eq_false_2, orb_false_r by naive_solver. }
  cbn [run_msgs]. unfold run_msg. destruct Hm as [[-> ->] (-> & Hf & _)]. rewrite !Z.eqb_refl. cbn [negb].
  change (RTM_NEWLINK =? NLMSG_ERROR) with false. change (RTM_NEWLINK =? NLMSG_DONE) with false. cbv iota.
  unfold see_link at 1. cbn [Z.eqb NL_CONT]. rewrite IH. rewrite (proj2 (Z.eqb_neq _ _) Hf). cbn [negb].
  rewrite orb_true_r, (bool_decide_eq_true_2 (m :: ms ≠ [])), orb_true_r by done. done.
Qed.

Lemma recv_run_datagram {X C} pid seq (spec : option (X → C → Z * C)) ms evs c : ms ≠ [] →
  recv_run pid seq spec (inr ms :: evs) c =
    match run_msgs pid seq spec ms false c with
    | (Done ret, c) => Some (ret, c)
    | (Start, c) | (Ended true, c) => recv_run pid seq spec evs c
    | (Ended false, c) => Some (0, c)
    end.
Proof. by destruct ms. Qed.

Lemma listing_run pid seq ls evs c : listing pid seq ls evs → recv_run pid seq (Some see_link) evs c = Some (0, see_all ls c).
Proof.
  intros Hl. revert c. induction Hl as [ms d after evs Hms [Hp Hq] Hd|ms ls evs Hne Hms _ IH|e ls evs He _ IH]; intros c.
  - rewrite recv_run_datagram by (by destruct ms). rewrite run_links by done. cbn [run_msgs]. unfold run_msg. by rewrite Hp, Hq, Hd, !Z.eqb_refl.
  - rewrite recv_run_datagram by done. pose proof (run_links pid seq ms [] false c Hms) as E. rewrite app_nil_r in E. rewrite E.
    cbn [run_msgs orb]. rewrite bool_decide_eq_true_2 by done. rewrite IH. unfold see_all. by rewrite foldl_app.
  - cbn [recv_run]. assert ((e =? EINTR) || (e =? EAGAIN) = true) as -> by (destruct He as [-> | ->]; done). apply IH.
Qed.

(** Only the link that was asked about counts. *)
Lemma see_link_eq l i info : i ≠ 0 → (see_link l (mk_xdp_id i info)).2 =
  mk_xdp_id i (if decide (lk_index l = i) then link_info l info else info).
Proof.
  intros Hi. unfold see_link. cbn [snd xi_ifindex xi_info]. rewrite (proj2 (Z.eqb_neq i 0)) by done.
  destruct (decide (lk_index l = i)) as [<-|]; [by rewrite Z.eqb_refl|]. by rewrite (proj2 (Z.eqb_neq i (lk_index l))).
Qed.
Lemma see_all_cons l ls c : see_all (l :: ls) c = see_all ls (see_link l c).2.
Proof. done. Qed.
Lemma see_other ls i info : i ≠ 0 → Forall (λ l, lk_index l ≠ i) ls → see_all ls (mk_xdp_id i info) = mk_xdp_id i info.
Proof. intros Hi. induction 1 as [|l ls Hl _ IH]; [done|]. by rewrite see_all_cons, see_link_eq, decide_False. Qed.
Lemma see_all_one ls i info : i ≠ 0 → NoDup (lk_index <$> ls) →
  xi_info (see_all ls (mk_xdp_id i info)) =
    match list_find (λ l, lk_index l = i) ls with Some (_, l) => link_info l info | None => info end.
Proof.
  intros Hi. revert info. induction ls as [|l ls IH]; intros info Hnd; [done|]. apply NoDup_cons in Hnd as [Hn Hnd].
  rewrite see_all_cons, see_link_eq by done. cbn [list_find]. destruct (decide (lk_index l = i)) as [E|E].
  - rewrite see_other; [done|done|].
    apply Forall_forall. intros l' Hl' E'. apply Hn. change (fmap lk_index ls) with (lk_index <$> ls). rewrite E, <- E'.
    by apply list_elem_of_fmap_2.
  - rewrite IH by done. by destruct (list_find _ ls) as [[]|].
Qed.

(** Asking for the features changes nothing else in the options. *)
Lemma query_features_info `{NetlinkOs} ifindex id0 o s r o' s' :
  query_features ifindex id0 o s = Some ((r, o'), s') → qo_info o' = qo_info o ∧ qo_sz o' = qo_sz o.
Proof.
  unfold query_features, pbind. destruct (libbpf_netlink_resolve_genl_family_id _ _ _) as [[[e id] s1]|]; [|done].
  destruct (e <? 0); [destruct (e =? - ENOENT); cbn; by intros [= _ <- _]|].
  unfold pure. destruct (nlattr_add _ _ _ _) as [[e2 req]|]; [|done]. cbn.
  destruct (e2 <? 0); cbn; [by intros [= _ <- _]|].
  destruct (libbpf_netlink_send_recv _ _ _ _ _) as [[[e3 md] s2]|]; [|done]. destruct (negb (e3 =? 0)); cbn; by intros [= _ <- _].
Qed.

(** C35: a query against a kernel that lists its interfaces, in any number of
    datagrams and with interruptions, when it is asked on a routing socket to dump
    them, sends one such request, leaves no socket open, and puts into the options the
    programs that are reported for the interface asked about and for no other; zeros,
    when it is not in the list.  Options that have room for the features go on to ask
    for these, which leaves the rest alone.  When nothing could be sent, or there is no
    memory to receive the answer, the result is an error and the options are left as
    they were. *)
Theorem query_finds `{NetlinkOs} (answers : Z → list Z → list (event (X := link)))
    (ok : net_ok NETLINK_ROUTE (λ req m, asks_links req = true → m_type m = NLMSG_DONE ∨ is_link m) answers) links ifindex xdp_flags id0 o s :
  socks s = ∅ →
  (∀ pid seq m, is_word 32 pid → nlmsg_seq 0 m = Some seq → asks_links m = true → listing pid seq links (answers pid m)) →
  NoDup (lk_index <$> links) →
  ifindex ≠ 0 → opts_valid (qo_sz o) (qo_extra o) = true → 25 ≤ qo_sz o →
  Z.land xdp_flags (Z.lnot XDP_FLAGS_MASK) = 0 →
  Z.land (Z.land xdp_flags XDP_FLAGS_MODES) (Z.land xdp_flags XDP_FLAGS_MODES - 1) = 0 →
  ∃ ret s1, socks s1 = ∅ ∧
    (ret < 0 ∧ (sent s1 = sent s ∨ no_memory ∧ ∃ m, sent s1 = sent s ++ [(NETLINK_ROUTE, m)]) ∧
       bpf_xdp_query ifindex xdp_flags id0 (Some o) s = Some ((ret, Some o), s1) ∨
     (∃ m, sent s1 = sent s ++ [(NETLINK_ROUTE, m)] ∧ asks_links m = true) ∧ ∃ o',
       qo_info o' = match list_find (λ l, lk_index l = ifindex) links with
                    | Some (_, l) => link_info l no_info | None => no_info end ∧
       bpf_xdp_query ifindex xdp_flags id0 (Some o) s =
         (if qo_sz o <? 40 then Some ((0, Some o'), s1)
          else match query_features ifindex id0 o' s1 with
               | Some ((r, o''), s2) => Some ((r, Some o''), s2)
               | None => None
               end) ∧
       (∀ r o'' s2, query_features ifindex id0 o' s1 = Some ((r, o''), s2) → qo_info o'' = qo_info o')).
Proof.
  intros Hs Hans Hnd Hi Hv Hsz Hf1 Hf2. unfold bpf_xdp_query. cbn [opts_ok]. rewrite Hv. cbn [negb]. rewrite Hf1, Hf2. cbn [Z.eqb negb].
  assert (bytes_ok (ifinfomsg AF_PACKET 0)) as Hfb by (unfold ifinfomsg; rewrite !Forall_app; auto 10 using le_bytes_ok).
  pose proof (new_req_of RTM_GETLINK (Z.lor NLM_F_DUMP NLM_F_REQUEST) (ifinfomsg AF_PACKET 0) (or_intror (or_introl eq_refl)) Hfb) as Hreq.
  change (NLMSG_LENGTH (length (ifinfomsg AF_PACKET 0))) with (NLMSG_LENGTH sizeof_ifinfomsg) in Hreq.
  assert (∀ m now fam l, wire RTM_GETLINK (Z.lor NLM_F_DUMP NLM_F_REQUEST) now fam l m → asks_links m = true) as Hal.
  { intros m now fam l (Et & Ef & _)%wire_head. unfold asks_links. by rewrite Et, Ef. }
  destruct (send_recv_asked _ _ answers ok (Some __dump_link_nlmsg) (Some see_link) RTM_GETLINK (Z.lor NLM_F_DUMP NLM_F_REQUEST)
    (ifinfomsg AF_PACKET 0) [] (new_req (NLMSG_LENGTH sizeof_ifinfomsg) RTM_GETLINK (Z.lor NLM_F_DUMP NLM_F_REQUEST) (ifinfomsg AF_PACKET 0))
    (mk_xdp_id ifindex no_info) s) as (ret & c' & s1 & E1 & Hso & _ & Hres); [|exact Hreq|done| |].
  { intros m now Hw m' pre rest c HP. apply dump_link_does. by eapply HP, Hal. }
  { intros m now pid Hw Hp. rewrite (listing_run _ _ links); [done|]. apply Hans; [done|by apply wire_head in Hw as (_ & _ & ?)|by eapply Hal]. }
  assert (∀ (Hret : ret < 0) sent', sent s1 = sent' → ∃ s2, socks s2 = ∅ ∧ sent s2 = sent' ∧
    (let! r := libbpf_err ret in pret (r, Some o)) s1 = Some ((ret, Some o), s2)) as Hfail.
  { intros Hret sent' E. unfold pbind, libbpf_err, pret. rewrite (proj2 (Z.ltb_lt ret 0)) by done. eexists. split; [|split; [|done]]; [|done]. cbn. congruence. }
  unfold pbind at 1. rewrite E1. destruct Hres as [(Hret & -> & Hse)|(m & pid & seq & (now & Hw) & Hse & Hp & Esq & [Hrun|[Hno ->]])].
  - rewrite (proj2 (Z.eqb_neq ret 0)) by lia. cbn [negb]. destruct (Hfail Hret _ Hse) as (s2 & ? & ? & E). exists ret, s2. split; [done|]. left. auto.
  - rewrite (listing_run _ _ _ _ _ (Hans pid seq m Hp Esq (Hal _ _ _ _ Hw))) in Hrun. injection Hrun as <- <-. cbn [Z.eqb negb]. exists 0, s1. split; [by rewrite Hso|]. right.
    split; [exists m; split; [done|by eapply Hal]|].
    set (o' := mk_query_opts (qo_sz o) (set_info (qo_sz o) (xi_info (see_all links (mk_xdp_id ifindex no_info))) (qo_info o))
      (qo_feature_flags o) (qo_extra o)). exists o'. split_and!.
    + unfold o', set_info. cbn [qo_info]. rewrite !(proj2 (Z.leb_le _ (qo_sz o))) by lia. rewrite <- (see_all_one links ifindex no_info) by done.
      by destruct (xi_info (see_all _ _)).
    + unfold pbind at 1. rewrite E1. cbn [Z.eqb negb]. fold o'. change (qo_sz o') with (qo_sz o). destruct (qo_sz o <? 40); [done|]. unfold pbind. by destruct (query_features ifindex id0 o' s1) as [[[]]|].
    + intros r o'' s2 E. by apply query_features_info in E as [-> _].
  - cbn [Z.eqb negb Z.opp ENOMEM]. destruct (Hfail ltac:(unfold ENOMEM; lia) _ Hse) as (s2 & ? & ? & E). exists (- ENOMEM), s2. split; [done|]. left.
    split; [unfold ENOMEM; lia|]. split; [right; split; [done|by exists m]|exact E].
Qed.

(** ** An instance

    A kernel that accepts a program for interface 2 and refuses it for any other
    with [-EBUSY], and says so when it is asked to; and that lists the interfaces
    2, without a program, and 3, with the program 9, when it is asked for them. *)
Definition ack (seq pid e : Z) : msg () := mk_msg NLMSG_ERROR 0 seq pid (le_bytes 4 e ++ replicate 16 0) ().

Definition link2 : link := mk_link 2 [(3, [101; 116; 104; 48; 0])] None.
Definition link3 : link :=
  mk_link 3 [] (Some [(IFLA_XDP_ATTACHED, [1]); (IFLA_XDP_PROG_ID, le_bytes 4 9); (IFLA_XDP_DRV_PROG_ID, le_bytes 4 9)]).
Definition link_msg (seq pid : Z) (l : link) : msg link :=
  mk_msg RTM_NEWLINK NLM_F_MULTI seq pid
    (ifinfomsg 0 (lk_index l) ++
     enc_attrs (lk_others l ++ match lk_xdp l with Some x => [(IFLA_XDP, enc_attrs x)] | None => [] end)) l.
Definition done_msg (seq pid : Z) : msg link := mk_msg NLMSG_DONE NLM_F_MULTI seq pid (le_bytes 4 0) link2.

Definition seq_of (m : list Z) : Z := default 0 (nlmsg_seq 0 m).
Definition ack_events (pid : Z) (m : list Z) : list (event (X := ())) :=
  if wants_ack m then [inl EINTR; inr [ack (seq_of m) pid (if decide (load 4 20 m = Some 2) then 0 else - EBUSY)]] else [].
Definition links_from (seq pid : Z) : list (event (X := link)) :=
  [inl EINTR; inr [link_msg seq pid link2]; inl EAGAIN; inr [link_msg seq pid link3; done_msg seq pid]].
Definition link_events (pid : Z) (m : list Z) : list (event (X := link)) :=
  if asks_links m then links_from (seq_of m) pid else [].

Definition on_wire {X} (e : event (X := X)) : Z + list Z :=
  match e with inl e => inl e | inr ms => inr (concat (msg_bytes <$> ms)) end.
Definition sample_os {X} (answers : Z → list Z → list (event (X := X))) : NetlinkOs := {|
  nl_socket _ _ := inr 5; nl_bind _ := 0; nl_getsockname _ := inr (77, 12); nl_send _ := 0; nl_time _ := 1000;
  nl_alloc _ _ := true;
  nl_replies _ proto pid m := if proto =? NETLINK_ROUTE then on_wire <$> answers pid m else [] |}.
Definition sample_net_state : net := mk_net 0 ∅ [] [] 0.

Lemma datagram_concat {X} (ms : list (msg X)) :
  Forall (λ m, msg_ok m ∧ align4 (msg_len m) = msg_len m) ms → datagram ms (concat (msg_bytes <$> ms)).
Proof.
  induction 1 as [|m ms [Hm Ha] _ IH]; [constructor|]. cbn.
  change (concat (fmap msg_bytes ms)) with ([] ++ concat (msg_bytes <$> ms)). constructor; [done|cbn; lia|done|done].
Qed.

(** Events whose messages are well-formed and satisfy [P]. *)
Definition fine {X} (P : msg X → Prop) (e : event (X := X)) : Prop :=
  match e with
  | inl _ => True
  | inr ms => Forall (λ m, (msg_ok m ∧ align4 (msg_len m) = msg_len m) ∧ err_ok m ∧ P m) ms
  end.
Lemma fine_events {X} pid seq (P : msg X → Prop) evs : Forall (fine P) evs → Forall2 (is_event pid seq P) evs (on_wire <$> evs).
Proof.
  induction 1 as [|[e|ms] evs Hms _ IH]; [constructor|constructor; done|].
  constructor; [|done]. cbn. split; [apply datagram_concat|]; (eapply Forall_impl; [exact Hms|]); [by intros m' [? ?]|].
  intros m' [_ ?] _ _. done.
Qed.

Lemma sample_net_ok {X} (P : list Z → msg X → Prop) (answers : Z → list Z → list (event (X := X))) :
  (∀ pid seq m, is_word 32 pid → nlmsg_seq 0 m = Some seq → is_word 32 seq → Forall (fine (P m)) (answers pid m)) →
  net_ok (H := sample_os answers) NETLINK_ROUTE P answers.
Proof.
  intros Ha. split; [done|by left|by cbv|by left|]. intros t pid m seq Hp Hb E. apply fine_events. apply (Ha pid seq); [done|done|].
  exact (load_range 4 _ m seq Hb E).
Qed.

Lemma ack_ok seq pid e : is_word 32 seq → is_word 32 pid → fine (λ _, True) (inr [ack seq pid e]).
Proof.
  intros Hs Hp. apply Forall_singleton. split; [|split; [by intros _ ?|done]]. split; [|done]. split; [by vm_compute|]. split; [by vm_compute|]. split; [done|].
  split; [cbn [ack m_body]; rewrite Forall_app; split; [apply le_bytes_ok|by apply Forall_replicate]|].
  split; [done|]. intros _. cbn [ack m_body]. rewrite length_app, length_le_bytes. cbn. lia.
Qed.
Lemma ack_events_ok : net_ok (H := sample_os ack_events) NETLINK_ROUTE (λ _ _, True) ack_events.
Proof.
  apply (sample_net_ok (λ _ _, True)). intros pid seq m Hp E Hs. unfold ack_events, seq_of. rewrite E. destruct (wants_ack m); [|done].
  constructor; [done|]. apply Forall_singleton. by apply ack_ok.
Qed.
Lemma ack_events_acked pid seq m : is_word 32 pid → nlmsg_seq 0 m = Some seq → wants_ack m = true → ∃ v, acked pid seq v (ack_events pid m).
Proof.
  intros _ E Hw. unfold ack_events, seq_of. rewrite E, Hw. eexists. apply acked_intr; [by left|]. by apply acked_msg.
Qed.

(** Program 12 for interface 2, in native mode and in place of program 11; and
    for interface 4. *)
Lemma attach_asks_witness : ∃ m s',
  bpf_xdp_attach (H := sample_os ack_events) 2 12 XDP_FLAGS_DRV_MODE (Some (mk_attach_opts 16 11 [])) sample_net_state = Some (0, s') ∧
  sent s' = [(NETLINK_ROUTE, m)] ∧ decode_attach m = Some (2, Some 12, Some 20, Some 11) ∧
  ∃ m' s'', bpf_xdp_attach (H := sample_os ack_events) 4 12 0 None sample_net_state = Some (- EBUSY, s'') ∧
    sent s'' = [(NETLINK_ROUTE, m')] ∧ decode_attach m' = Some (4, Some 12, None, None).
Proof.
  destruct (attach_asks (H := sample_os ack_events) _ _ ack_events_ok 2 12 XDP_FLAGS_DRV_MODE (Some (mk_attach_opts 16 11 [])) sample_net_state eq_refl ack_events_acked)
    as (ret & s1 & E1 & _ & R1).
  destruct (attach_asks (H := sample_os ack_events) _ _ ack_events_ok 4 12 0 None sample_net_state eq_refl ack_events_acked) as (ret2 & s2 & E2 & _ & R2).
  assert (∃ s', bpf_xdp_attach (H := sample_os ack_events) 2 12 XDP_FLAGS_DRV_MODE (Some (mk_attach_opts 16 11 [])) sample_net_state = Some (0, s') ∧
    length (sent s') = 1%nat) as (s' & E1' & L1) by (eexists; split; [vm_compute; reflexivity|vm_compute; reflexivity]).
  assert (∃ s', bpf_xdp_attach (H := sample_os ack_events) 4 12 0 None sample_net_state = Some (- EBUSY, s') ∧
    length (sent s') = 1%nat) as (s'' & E2' & L2) by (eexists; split; [vm_compute; reflexivity|vm_compute; reflexivity]).
  rewrite E1' in E1. injection E1 as <- <-. rewrite E2' in E2. injection E2 as <- <-.
  destruct R1 as [[H1 _]|(_ & m & pid & seq & Hm & _ & _ & Hd & _)]; [lia|]. destruct R2 as [[_ H2]|(_ & m' & pid' & seq' & Hm' & _ & _ & Hd' & _)].
  { rewrite H2 in L2. discriminate L2. }
  exists m, s'. split; [exact E1'|]. split; [exact Hm|]. split; [exact Hd|]. exists m', s''. split; [exact E2'|]. split; [exact Hm'|exact Hd'].
Defined.

Lemma link_msg_ok seq pid l : is_word 32 seq → is_word 32 pid → l = link2 ∨ l = link3 →
  (msg_ok (link_msg seq pid l) ∧ align4 (msg_len (link_msg seq pid l)) = msg_len (link_msg seq pid l)) ∧ err_ok (link_msg seq pid l) ∧ is_link (link_msg seq pid l).
Proof.
  intros Hs Hp Hl. split; [|split; [by destruct Hl as [-> | ->]|]].
  - destruct Hl as [-> | ->]; (split; [|done]; split; [by vm_compute|]; split; [by vm_compute|]; split; [done|]; split; [|split; [by vm_compute|done]];
      cbn [link_msg m_body]; apply (bool_decide_unpack _); vm_compute; exact I).
  - destruct Hl as [-> | ->]; (split; [done|split; [done|split; [done|split; [apply (bool_decide_unpack _); vm_compute; exact I|]]]]).
    + eexists _, _, []. split; [reflexivity|]. split; [done|]. split; [done|]. split; [done|]. apply enc_attrs_ok.
      constructor; [by vm_compute|constructor].
    + eexists _, _, [(IFLA_XDP, _)]. split; [reflexivity|]. split; [done|]. split; [done|]. split.
      * split; [split_and!; intros d; vm_compute; by intros [= <-]|]. eexists IFLA_XDP, _. split; [reflexivity|]. split; [done|].
        apply enc_attrs_ok. repeat (constructor; [by vm_compute|]). constructor.
      * apply enc_attrs_ok. constructor; [by vm_compute|constructor].
Qed.

Lemma done_msg_ok seq pid : is_word 32 seq → is_word 32 pid →
  (msg_ok (done_msg seq pid) ∧ align4 (msg_len (done_msg seq pid)) = msg_len (done_msg seq pid)) ∧ err_ok (done_msg seq pid).
Proof.
  intros Hs Hp. split; [|done]. split; [|done]. split; [by vm_compute|]. split; [by vm_compute|]. split; [done|].
  split; [cbn [done_msg m_body]; apply le_bytes_ok|]. split; [by vm_compute|done].
Qed.

Lemma links_from_ok seq pid : is_word 32 seq → is_word 32 pid → Forall (fine (λ m, m_type m = NLMSG_DONE ∨ is_link m)) (links_from seq pid).
Proof.
  intros Hs Hp. destruct (link_msg_ok seq pid link2 Hs Hp) as (? & ? & ?); [by left|]. destruct (link_msg_ok seq pid link3 Hs Hp) as (? & ? & ?); [by right|].
  destruct (done_msg_ok seq pid Hs Hp) as [? ?].
  constructor; [done|]. constructor; [apply Forall_singleton; auto|]. constructor; [done|]. constructor; [|done].
  constructor; [by auto|]. apply Forall_singleton; auto.
Qed.
Lemma link_events_ok : net_ok (H := sample_os link_events) NETLINK_ROUTE (λ req m, asks_links req = true → m_type m = NLMSG_DONE ∨ is_link m) link_events.
Proof.
  apply (sample_net_ok (λ req m, asks_links req = true → m_type m = NLMSG_DONE ∨ is_link m)). intros pid seq m Hp E Hs.
  unfold link_events, seq_of. rewrite E. destruct (asks_links m); [|done].
  eapply Forall_impl; [by apply links_from_ok|]. intros [e|ms]; [done|]. cbn. intros Hms. eapply Forall_impl; [exact Hms|]. by intros m' (? & ? & ?).
Qed.

Lemma link_events_listing pid seq m : is_word 32 pid → nlmsg_seq 0 m = Some seq → asks_links m = true → listing pid seq [link2; link3] (link_events pid m).
Proof.
  intros Hp E Ha. unfold link_events, seq_of. rewrite Ha, E. cbn [default from_option]. unfold links_from, id.
  assert (∀ l, l = link2 ∨ l = link3 → for_us pid seq (link_msg seq pid l) ∧ is_link (link_msg seq pid l)) as Hl.
  { intros l Hl. split; [done|]. destruct (link_msg_ok 0 0 l) as (_ & _ & ?); [done|done|done|done]. }
  apply listing_intr; [by left|]. apply (listing_more pid seq [link_msg seq pid link2] [link3]); [done|apply Forall_singleton; apply Hl; by left|].
  apply listing_intr; [by right|]. apply (listing_end pid seq [link_msg seq pid link3] (done_msg seq pid) []); [apply Forall_singleton; apply Hl; by right|done|done].
Qed.

(** The program of interface 3, and none of interface 2. *)
Lemma query_finds_witness : ∃ s1 s2 o1 o2,
  bpf_xdp_query (H := sample_os link_events) 3 0 0 (Some (mk_query_opts 32 no_info 0 [])) sample_net_state = Some ((0, Some o1), s1) ∧
  qo_info o1 = mk_info 9 9 0 0 1 ∧
  bpf_xdp_query (H := sample_os link_events) 2 0 0 (Some (mk_query_opts 32 no_info 0 [])) sample_net_state = Some ((0, Some o2), s2) ∧
  qo_info o2 = no_info.
Proof.
  pose proof (λ i Hi, query_finds (H := sample_os link_events) link_events link_events_ok [link2; link3] i 0 0
    (mk_query_opts 32 no_info 0 []) sample_net_state eq_refl link_events_listing ltac:(apply (bool_decide_unpack _); vm_compute; exact I) Hi
    eq_refl ltac:(cbn; lia) eq_refl eq_refl) as Hq.
  destruct (Hq 3 ltac:(lia)) as (r1 & s1 & _ & R1). destruct (Hq 2 ltac:(lia)) as (r2 & s2 & _ & R2). clear Hq.
  assert (∃ o s, bpf_xdp_query (H := sample_os link_events) 3 0 0 (Some (mk_query_opts 32 no_info 0 [])) sample_net_state = Some ((0, o), s))
    as (x1 & t1 & X1) by (eexists _, _; vm_compute; reflexivity).
  assert (∃ o s, bpf_xdp_query (H := sample_os link_events) 2 0 0 (Some (mk_query_opts 32 no_info 0 [])) sample_net_state = Some ((0, o), s))
    as (x2 & t2 & X2) by (eexists _, _; vm_compute; reflexivity).
  destruct R1 as [(H1 & _ & E1)|(_ & o1 & I1 & E1 & _)]; [rewrite X1 in E1; injection E1 as <-; lia|].
  destruct R2 as [(H2 & _ & E2)|(_ & o2 & I2 & E2 & _)]; [rewrite X2 in E2; injection E2 as <-; lia|].
  exists s1, s2, o1, o2. split; [exact E1|]. split; [exact I1|]. split; [exact E2|exact I2].
Defined.

(** A listing; and the same listing received on another port. *)
Lemma recv_refines_witness :
  (∃ s', libbpf_netlink_recv (H := sample_os link_events) 77 1000 (Some __dump_link_nlmsg) (mk_xdp_id 3 no_info)
    (mk_net 0 ∅ [] (on_wire <$> links_from 1000 77) 0) = Some ((0, mk_xdp_id 3 (mk_info 9 9 0 0 1)), s') ∧ socks s' = ∅) ∧
  ∃ s', libbpf_netlink_recv (H := sample_os link_events) 78 1000 (Some __dump_link_nlmsg) (mk_xdp_id 3 no_info)
    (mk_net 0 ∅ [] (on_wire <$> links_from 1000 77) 0) = Some ((- LIBBPF_ERRNO__WRNGPID, mk_xdp_id 3 no_info), s') ∧ socks s' = ∅.
Proof.
  pose proof (λ pid, recv_refines (H := sample_os link_events) pid 1000 (Some __dump_link_nlmsg) (Some see_link) (λ m, m_type m = NLMSG_DONE ∨ is_link m)
    dump_link_does (mk_net 0 ∅ [] (on_wire <$> links_from 1000 77) 0) (links_from 1000 77) (mk_xdp_id 3 no_info)
    (fine_events pid 1000 _ _ (links_from_ok 1000 77 ltac:(vm_compute; split; congruence) ltac:(vm_compute; split; congruence)))) as Hr.
  split.
  - destruct (Hr 77) as [(s' & E & Hs & _)|((t & n & Hno) & _)]; [exists s'; split; [exact E|exact Hs]|discriminate Hno].
  - destruct (Hr 78) as [(s' & E & Hs & _)|((t & n & Hno) & _)]; [exists s'; split; [exact E|exact Hs]|discriminate Hno].
Defined.
