(* ===== verification/TcHook.v ===== *)
(** * libbpf: traffic control hooks

    The second half of [netlink.c]: creating and destroying the queueing
    discipline that BPF filters hang on, attaching, detaching and looking up such
    a filter, as requests of [Netlink]. *)

From S2P Require Import Prelude Bytes CString Errno Nlattr Netlink NetlinkSpec.
From stdpp Require Import pretty.
Local Open Scope Z_scope.

Definition BPF_TC_INGRESS : Z := 1.
Definition BPF_TC_EGRESS : Z := 2.
Definition BPF_TC_CUSTOM : Z := 4.
Definition BPF_TC_F_REPLACE : Z := 1.
Definition TC_H_MAJ_MASK : Z := 0xFFFF0000.
Definition TC_H_MIN_MASK : Z := 0x0000FFFF.
Definition TC_H_MAJ (h : Z) : Z := Z.land h TC_H_MAJ_MASK.
Definition TC_H_MAKE (maj min : Z) : Z := Z.lor (Z.land maj TC_H_MAJ_MASK) (Z.land min TC_H_MIN_MASK).
Definition TC_H_CLSACT : Z := 0xFFFFFFF1.
Definition TC_H_MIN_INGRESS : Z := 0xFFF2.
Definition TC_H_MIN_EGRESS : Z := 0xFFF3.
Definition RTM_NEWQDISC : Z := 36.
Definition RTM_DELQDISC : Z := 37.
Definition RTM_NEWTFILTER : Z := 44.
Definition RTM_DELTFILTER : Z := 45.
Definition RTM_GETTFILTER : Z := 46.
Definition TCA_KIND : Z := 1.
Definition TCA_OPTIONS : Z := 2.
Definition TCA_MAX : Z := 15.
Definition TCA_BPF_FD : Z := 6.
Definition TCA_BPF_NAME : Z := 7.
Definition TCA_BPF_FLAGS : Z := 8.
Definition TCA_BPF_ID : Z := 11.
Definition TCA_BPF_MAX : Z := 11.
Definition TCA_BPF_FLAG_ACT_DIRECT : Z := 1.
Definition ETH_P_ALL : Z := 3.
Definition sizeof_tcmsg : Z := 20.

Definition tcmsg (ifindex handle parent info : Z) : list Z :=
  le_bytes 1 0 ++ le_bytes 1 0 ++ le_bytes 2 0 ++ le_bytes 4 ifindex ++ le_bytes 4 handle ++
  le_bytes 4 parent ++ le_bytes 4 info.

Record bpf_tc_hook := mk_hook {
  h_sz : Z; h_ifindex : Z; h_attach_point : Z; h_parent : Z; h_extra : list Z }.
Record bpf_tc_opts := mk_opts {
  o_sz : Z; o_prog_fd : Z; o_flags : Z; o_prog_id : Z; o_handle : Z; o_priority : Z; o_extra : list Z }.

Definition hook_ifindex (h : option bpf_tc_hook) : Z := opts_get h_sz h_ifindex 12 0 h.
Definition hook_attach_point (h : option bpf_tc_hook) : Z := opts_get h_sz h_attach_point 16 0 h.
Definition hook_parent (h : option bpf_tc_hook) : Z := opts_get h_sz h_parent 20 0 h.
Definition opts_prog_fd (o : option bpf_tc_opts) : Z := opts_get o_sz o_prog_fd 12 0 o.
Definition opts_flags (o : option bpf_tc_opts) : Z := opts_get o_sz o_flags 16 0 o.
Definition opts_prog_id (o : option bpf_tc_opts) : Z := opts_get o_sz o_prog_id 20 0 o.
Definition opts_handle (o : option bpf_tc_opts) : Z := opts_get o_sz o_handle 24 0 o.
Definition opts_priority (o : option bpf_tc_opts) : Z := opts_get o_sz o_priority 28 0 o.

(** What the kernel reports of a program: an error, or its name and identifier. *)
Class TcOs := { prog_name_id : Z → Z + list Z * Z }.

Section tc.
Context `{NetlinkOs, TcOs}.
Abbreviation M := (prog net).

Definition clsact : list Z := bytes_of "clsact" ++ [0].
Definition bpf_kind : list Z := bytes_of "bpf" ++ [0].

(** ** The queueing discipline *)

(** Whether the discipline is [clsact_config]'s, or an error. *)
Definition attach_point_to_config (hook : bpf_tc_hook) : Z :=
  let ap := hook_attach_point (Some hook) in
  if (ap =? BPF_TC_INGRESS) || (ap =? BPF_TC_EGRESS) || (ap =? Z.lor BPF_TC_INGRESS BPF_TC_EGRESS) then
    if negb (hook_parent (Some hook) =? 0) then - EINVAL else 0
  else if ap =? BPF_TC_CUSTOM then - EOPNOTSUPP else - EINVAL.

Definition clsact_config (req : list Z) : option (Z * list Z) :=
  req ← store 28 (le_bytes 4 TC_H_CLSACT) req;
  req ← store 24 (le_bytes 4 (TC_H_MAKE TC_H_CLSACT 0)) req;
  nlattr_add TCA_KIND (Some clsact) (length clsact) req.

(** The result of a request without a call-back. *)
Definition ask (req : list Z) : M Z := let! r := libbpf_netlink_send_recv req NETLINK_ROUTE None () in pret r.1.

Definition tc_qdisc_modify (hook : bpf_tc_hook) (cmd flags : Z) : M Z :=
  let ret := attach_point_to_config hook in
  if ret <? 0 then pret ret
  else
    let req := new_req (NLMSG_LENGTH sizeof_tcmsg) cmd (Z.lor (Z.lor NLM_F_REQUEST NLM_F_ACK) flags)
                 (tcmsg (hook_ifindex (Some hook)) 0 0 0) in
    let! (ret, req) := pure (clsact_config req) in
    if ret <? 0 then pret ret else ask req.

Definition tc_qdisc_create_excl (hook : bpf_tc_hook) : M Z :=
  tc_qdisc_modify hook RTM_NEWQDISC (Z.lor NLM_F_CREATE NLM_F_EXCL).
Definition tc_qdisc_delete (hook : bpf_tc_hook) : M Z := tc_qdisc_modify hook RTM_DELQDISC 0.

Definition hook_ok (hook : option bpf_tc_hook) : bool := opts_ok h_sz h_extra hook.
Definition topts_ok (opts : option bpf_tc_opts) : bool := opts_ok o_sz o_extra opts.

Definition bpf_tc_hook_create (hook : option bpf_tc_hook) : M Z :=
  match hook with
  | Some h => if negb (hook_ok hook) || (hook_ifindex hook <=? 0) then libbpf_err (- EINVAL)
              else let! ret := tc_qdisc_create_excl h in libbpf_err ret
  | None => libbpf_err (- EINVAL)
  end.

(** ** Filters *)

Definition tc_get_tcm_parent (attach_point parent : Z) : Z + Z :=
  if (attach_point =? BPF_TC_INGRESS) || (attach_point =? BPF_TC_EGRESS) then
    if negb (parent =? 0) then inl (- EINVAL)
    else inr (TC_H_MAKE TC_H_CLSACT (if attach_point =? BPF_TC_INGRESS then TC_H_MIN_INGRESS else TC_H_MIN_EGRESS))
  else if attach_point =? BPF_TC_CUSTOM then if parent =? 0 then inl (- EINVAL) else inr parent
  else inl (- EINVAL).

(** [struct bpf_cb_ctx]: the options and whether a filter was reported. *)
Definition cb_ctx : Type := option bpf_tc_opts * bool.

Definition set_found (id handle priority : Z) (o : bpf_tc_opts) : bpf_tc_opts :=
  let pick fin v old := if fin <=? o_sz o then v else old in
  mk_opts (o_sz o) (o_prog_fd o) (o_flags o) (pick 20 id (o_prog_id o)) (pick 24 handle (o_handle o))
    (pick 28 priority (o_priority o)) (o_extra o).

Definition __get_tc_info (tc : Z) (tb : list (option Z)) (unicast : bool) (b : list Z) (c : cb_ctx) : option (Z * cb_ctx) :=
  match c.1 with
  | None => Some (- EINVAL, c)
  | Some o =>
    if unicast && c.2 then Some (- EINVAL, c)
    else match tb_get TCA_OPTIONS tb with
    | None => Some (NL_CONT, c)
    | Some nla =>
      '(_, tbb) ← libbpf_nla_parse_nested TCA_BPF_MAX nla None b;
      match tb_get TCA_BPF_ID tbb with
      | None => Some (- EINVAL, c)
      | Some nla =>
        id ← (if 20 <=? o_sz o then libbpf_nla_getattr_u32 nla b else Some 0);
        handle ← (if 24 <=? o_sz o then load 4 (tc + 8) b else Some 0);
        info ← (if 28 <=? o_sz o then load 4 (tc + 16) b else Some 0);
        Some (if unicast then NL_NEXT else NL_DONE, (Some (set_found id handle (Z.shiftr (TC_H_MAJ info) 16) o), true))
      end
    end
  end.

Definition get_tc_info : dump_fn cb_ctx := λ nh b c,
  let tc := nh + NLMSG_HDRLEN in
  l ← nlmsg_len nh b;
  '(_, tb) ← libbpf_nla_parse TCA_MAX (tc + sizeof_tcmsg) (s32 (l - 36)) None b;
  match tb_get TCA_KIND tb with
  | None => Some (NL_CONT, c)
  | Some _ => flags ← nlmsg_flags nh b; __get_tc_info tc tb (negb (Z.land flags NLM_F_ECHO =? 0)) b c
  end.

(** The name [name:[id]] in a buffer of 256 bytes, with its end. *)
Definition tc_name (name : list Z) (id : Z) : list Z := name ++ bytes_of (":[" +:+ (pretty id +:+ "]")).

Definition tc_add_fd_and_name (fd : Z) (req : list Z) : option (Z * list Z) :=
  match prog_name_id fd with
  | inl e => Some (- e, req)
  | inr (name, id) =>
    '(ret, req) ← nlattr_add TCA_BPF_FD (Some (le_bytes 4 fd)) 4 req;
    if ret <? 0 then Some (ret, req)
    else
      let name := tc_name name id in
      if 256 <=? length name then Some (- ENAMETOOLONG, req)
      else nlattr_add TCA_BPF_NAME (Some (name ++ [0])) (length name + 1) req
  end.

(** [priority << 16] and the protocol in network order. *)
Definition tc_info (priority : Z) : Z := TC_H_MAKE (u32 (Z.shiftl priority 16)) (bpf_htons ETH_P_ALL).

(** The request of [bpf_tc_attach] from the point where [parent] is known. *)
Definition tc_attach_req (ifindex handle priority parent prog_fd flags : Z) : option (Z + list Z) :=
  let req := new_req (NLMSG_LENGTH sizeof_tcmsg) RTM_NEWTFILTER
    (Z.lor (Z.lor (Z.lor (Z.lor NLM_F_REQUEST NLM_F_ACK) NLM_F_CREATE) NLM_F_ECHO) flags)
    (tcmsg ifindex handle parent (tc_info priority)) in
  '(ret, req) ← nlattr_add TCA_KIND (Some bpf_kind) (length bpf_kind) req;
  if ret <? 0 then Some (inl ret)
  else
    '(nla, req) ← nlattr_begin_nested TCA_OPTIONS req;
    match nla with
    | None => Some (inl (- EMSGSIZE))
    | Some nla =>
      '(ret, req) ← tc_add_fd_and_name prog_fd req;
      if ret <? 0 then Some (inl ret)
      else
        '(ret, req) ← nlattr_add TCA_BPF_FLAGS (Some (le_bytes 4 TCA_BPF_FLAG_ACT_DIRECT)) 4 req;
        if ret <? 0 then Some (inl ret) else req ← nlattr_end_nested nla req; Some (inr req)
    end.

(** Sending a request whose answer is a filter. *)
Definition ask_filter (req : list Z) (opts : option bpf_tc_opts) : M (Z * option bpf_tc_opts) :=
  let! (ret, c) := libbpf_netlink_send_recv req NETLINK_ROUTE (Some get_tc_info) (opts, false) in
  if ret <? 0 then let! r := libbpf_err ret in pret (r, c.1)
  else if negb (snd c) then let! r := libbpf_err (- ENOENT) in pret (r, fst c)
  else pret (ret, fst c).

Definition bpf_tc_attach (hook : option bpf_tc_hook) (opts : option bpf_tc_opts) : M (Z * option bpf_tc_opts) :=
  let fail err := let! r := libbpf_err err in pret (r, opts) in
  if negb (bool_decide (is_Some hook)) || negb (bool_decide (is_Some opts)) || negb (hook_ok hook) || negb (topts_ok opts)
  then fail (- EINVAL)
  else if (hook_ifindex hook <=? 0) || (opts_prog_fd opts =? 0) || negb (opts_prog_id opts =? 0) then fail (- EINVAL)
  else if 65535 <? opts_priority opts then fail (- EINVAL)
  else if negb (Z.land (opts_flags opts) (Z.lnot BPF_TC_F_REPLACE) =? 0) then fail (- EINVAL)
  else
    let flags := if negb (Z.land (opts_flags opts) BPF_TC_F_REPLACE =? 0) then NLM_F_REPLACE else NLM_F_EXCL in
    match tc_get_tcm_parent (hook_attach_point hook) (hook_parent hook) with
    | inl err => fail err
    | inr parent =>
      let! r := pure (tc_attach_req (hook_ifindex hook) (opts_handle opts) (opts_priority opts) parent (opts_prog_fd opts) flags) in
      match r with inl err => fail err | inr req => ask_filter req opts end
    end.

(** [flush] removes every filter of the hook. *)
Definition __bpf_tc_detach (hook : option bpf_tc_hook) (opts : option bpf_tc_opts) (flush : bool) : M Z :=
  let handle := opts_handle opts in
  let priority := opts_priority opts in
  if negb (bool_decide (is_Some hook)) || negb (hook_ok hook) || negb (topts_ok opts) then pret (- EINVAL)
  else if (hook_ifindex hook <=? 0) || negb (opts_flags opts =? 0) || negb (opts_prog_fd opts =? 0) || negb (opts_prog_id opts =? 0)
  then pret (- EINVAL)
  else if 65535 <? priority then pret (- EINVAL)
  else if (if flush then negb (handle =? 0) || negb (priority =? 0) else (handle =? 0) || (priority =? 0)) then pret (- EINVAL)
  else
    match tc_get_tcm_parent (hook_attach_point hook) (hook_parent hook) with
    | inl err => pret err
    | inr parent =>
      let req := new_req (NLMSG_LENGTH sizeof_tcmsg) RTM_DELTFILTER (Z.lor NLM_F_REQUEST NLM_F_ACK)
        (if flush then tcmsg (hook_ifindex hook) 0 parent 0
         else tcmsg (hook_ifindex hook) handle parent (tc_info priority)) in
      let! (ret, req) := pure (if flush then Some (0, req) else nlattr_add TCA_KIND (Some bpf_kind) (length bpf_kind) req) in
      if ret <? 0 then pret ret else ask req
    end.

Definition bpf_tc_hook_destroy (hook : option bpf_tc_hook) : M Z :=
  match hook with
  | None => libbpf_err (- EINVAL)
  | Some h =>
    if negb (hook_ok hook) || (hook_ifindex hook <=? 0) then libbpf_err (- EINVAL)
    else
      let ap := hook_attach_point hook in
      if (ap =? BPF_TC_INGRESS) || (ap =? BPF_TC_EGRESS) then let! r := __bpf_tc_detach hook None true in libbpf_err r
      else if ap =? Z.lor BPF_TC_INGRESS BPF_TC_EGRESS then let! r := tc_qdisc_delete h in libbpf_err r
      else if ap =? BPF_TC_CUSTOM then libbpf_err (- EOPNOTSUPP) else libbpf_err (- EINVAL)
  end.

Definition bpf_tc_detach (hook : option bpf_tc_hook) (opts : option bpf_tc_opts) : M Z :=
  match opts with
  | None => libbpf_err (- EINVAL)
  | Some _ => let! ret := __bpf_tc_detach hook opts false in libbpf_err ret
  end.

Definition bpf_tc_query (hook : option bpf_tc_hook) (opts : option bpf_tc_opts) : M (Z * option bpf_tc_opts) :=
  let fail err := let! r := libbpf_err err in pret (r, opts) in
  if negb (bool_decide (is_Some hook)) || negb (bool_decide (is_Some opts)) || negb (hook_ok hook) || negb (topts_ok opts)
  then fail (- EINVAL)
  else if (hook_ifindex hook <=? 0) || negb (opts_flags opts =? 0) || negb (opts_prog_fd opts =? 0) ||
          negb (opts_prog_id opts =? 0) || (opts_handle opts =? 0) || (opts_priority opts =? 0) then fail (- EINVAL)
  else if 65535 <? opts_priority opts then fail (- EINVAL)
  else
    match tc_get_tcm_parent (hook_attach_point hook) (hook_parent hook) with
    | inl err => fail err
    | inr parent =>
      let req := new_req (NLMSG_LENGTH sizeof_tcmsg) RTM_GETTFILTER NLM_F_REQUEST
        (tcmsg (hook_ifindex hook) (opts_handle opts) parent (tc_info (opts_priority opts))) in
      let! (ret, req) := pure (nlattr_add TCA_KIND (Some bpf_kind) (length bpf_kind) req) in
      if ret <? 0 then fail ret else ask_filter req opts
    end.

(** ** The request to attach

    With a name of up to 15 bytes, which is what the kernel reports, the request
    has room for everything: it holds the kind of the filter, and nested the
    program, its name and the flag. *)
Definition tc_options (fd : Z) (name : list Z) (id : Z) : list (Z * list Z) :=
  [(TCA_BPF_FD, le_bytes 4 fd); (TCA_BPF_NAME, tc_name name id ++ [0]); (TCA_BPF_FLAGS, le_bytes 4 TCA_BPF_FLAG_ACT_DIRECT)].

Lemma tcmsg_ok i h p f : bytes_ok (tcmsg i h p f) ∧ length (tcmsg i h p f) = 20%nat.
Proof. unfold tcmsg. split; [rewrite !Forall_app; auto 10 using le_bytes_ok|by rewrite !length_app, !length_le_bytes]. Qed.

Theorem tc_attach_req_ok ifindex handle priority parent fd flags name id :
  prog_name_id fd = inr (name, id) → bytes_ok name → length (tc_name name id) ≤ 40 →
  ∃ req inner, tc_attach_req ifindex handle priority parent fd flags = Some (inr req) ∧
    encodes (tc_options fd name id) inner ∧
    req_of (msg_hdr RTM_NEWTFILTER (Z.lor (Z.lor (Z.lor (Z.lor NLM_F_REQUEST NLM_F_ACK) NLM_F_CREATE) NLM_F_ECHO) flags) 0
             (tcmsg ifindex handle parent (tc_info priority)))
      [(TCA_KIND, bpf_kind); (Z.lor TCA_OPTIONS NLA_F_NESTED, inner)] req.
Proof.
  intros Ep Hn Hl. unfold tc_attach_req. set (fam := tcmsg _ _ _ _). set (fl := Z.lor _ flags). set (hdr := msg_hdr _ _ 0 _).
  destruct (tcmsg_ok ifindex handle parent (tc_info priority)) as [Hf Hfl]. fold fam in Hf, Hfl.
  pose proof (new_req_of RTM_NEWTFILTER fl fam (or_intror (or_intror Hfl)) Hf) as H0r. fold hdr in H0r.
  rewrite Hfl in H0r. change (NLMSG_LENGTH 20%nat) with (NLMSG_LENGTH sizeof_tcmsg) in H0r.
  assert (req_len hdr [] = 36) as Hlen by (unfold req_len, hdr, msg_hdr; rewrite !length_app, !length_le_bytes, Hfl; done).
  destruct (nlattr_add_ok hdr [] _ TCA_KIND (Some bpf_kind) (length bpf_kind) bpf_kind H0r) as (r1 & -> & H1);
    [by split_and!|done|apply (bool_decide_unpack _); vm_compute; exact I|by rewrite Hlen|]. cbn [mbind option_bind Z.ltb Z.compare].
  destruct (begin_nested_ok hdr _ r1 TCA_OPTIONS H1) as (r2 & -> & H2); [done|by rewrite req_len_app, Hlen|]. cbn [mbind option_bind].
  unfold tc_add_fd_and_name. rewrite Ep.
  destruct (nlattr_add_ok hdr _ r2 TCA_BPF_FD (Some (le_bytes 4 fd)) 4 (le_bytes 4 fd) H2) as (r3 & -> & H3);
    [by split_and!|done|apply le_bytes_ok|by rewrite !req_len_app, Hlen|]. cbn [mbind option_bind Z.ltb Z.compare].
  rewrite (proj2 (Z.leb_gt 256 _)) by lia.
  assert (bytes_ok (tc_name name id ++ [0])) as Hnb.
  { unfold tc_name. rewrite !Forall_app. split; [split; [done|apply bytes_of_ok]|by repeat constructor]. }
  assert (align4 (4 + length (tc_name name id ++ [0])) ≤ 48) as Hal.
  { rewrite length_app. cbn [length]. pose proof (align4_bounds (4 + (length (tc_name name id) + 1)%nat)). lia. }
  destruct (nlattr_add_ok hdr _ r3 TCA_BPF_NAME (Some (tc_name name id ++ [0])) (length (tc_name name id) + 1) (tc_name name id ++ [0]) H3)
    as (r4 & -> & H4); [|done|done| |].
  { split_and!; [done|rewrite length_app; cbn; lia|by destruct (tc_name name id)]. }
  { rewrite !req_len_app, Hlen. cbn [enc_len app]. change (align4 (4 + length bpf_kind)) with 8. cbn [length].
    change (align4 (4 + 0%nat)) with 4. change (align4 (4 + _)) with 8 at 1. unfold req_size. lia. }
  cbn [mbind option_bind Z.ltb Z.compare].
  destruct (nlattr_add_ok hdr _ r4 TCA_BPF_FLAGS (Some (le_bytes 4 TCA_BPF_FLAG_ACT_DIRECT)) 4 (le_bytes 4 TCA_BPF_FLAG_ACT_DIRECT) H4)
    as (r5 & -> & H5); [by split_and!|done|apply le_bytes_ok| |].
  { rewrite !req_len_app, Hlen. cbn [enc_len app]. change (align4 (4 + length bpf_kind)) with 8.
    change (align4 (4 + length (le_bytes 4 fd))) with 8. change (align4 (4 + length (le_bytes 4 TCA_BPF_FLAG_ACT_DIRECT))) with 8.
    cbn [length]. change (align4 (4 + 0%nat)) with 4. unfold req_size. lia. }
  cbn [mbind option_bind Z.ltb Z.compare app] in *.
  destruct (end_nested_ok hdr [(TCA_KIND, bpf_kind)] _ _ r5 H5) as (r6 & inner & E6 & Hin & H6); [done|].
  cbn [app]. rewrite E6. cbn [mbind option_bind]. by exists r6, inner.
Qed.
End tc.
