(* ===== verification/Pin.v ===== *)
(** * libxdp: pinning a dispatcher

    [xdp_multiprog__pin] and [xdp_multiprog__unpin] of [lib/libxdp/libxdp.c]
    over a model of the BPF file system: the links and programs of a dispatcher
    are pinned as files in a directory of its own, so that they stay alive
    without the process.  Failures of the system, when it creates and when it removes
    something, are chosen by arbitrary oracles on paths. *)

From S2P Require Import Prelude CString Errno.
From stdpp Require Import pretty.
Local Open Scope Z_scope.

Inductive node := Directory | Pinned (fd : Z).
#[export] Instance node_eq_dec : EqDecision node.
Proof. solve_decision. Defined.

Abbreviation fs := (gmap string node).

(** A program of the dispatcher, as far as it is pinned. *)
Record linked := mk_linked { attach_name : string; link_fd : Z; prog_fd : Z }.

(** [try_snprintf] into a buffer of [PATH_MAX] bytes. *)
Definition try_path (p : string) : Z := if PATH_MAX <=? strlen p then - ENAMETOOLONG else 0.

Definition link_path (dir : string) (p : linked) : string := dir +:+ ("/" +:+ (attach_name p +:+ "-link")).
Definition prog_path (dir : string) (p : linked) : string := dir +:+ ("/" +:+ (attach_name p +:+ "-prog")).

Section pin.
(** [refuse p] and [keep p]: the error number, if any, with which the system refuses to
    create or to remove [p]. *)
Context (refuse keep : string → option Z).

Definition mkdir (p : string) (s : fs) : Z * fs :=
  match refuse p, s !! p with
  | Some e, _ => (e, s)
  | None, Some _ => (EEXIST, s)
  | None, None => (0, <[p := Directory]> s)
  end.
Definition bpf_obj_pin (fd : Z) (p : string) (s : fs) : Z * fs :=
  match refuse p, s !! p with
  | Some e, _ => (e, s)
  | None, Some _ => (EEXIST, s)
  | None, None => (0, <[p := Pinned fd]> s)
  end.
Definition unlink (p : string) (s : fs) : Z * fs :=
  match keep p, s !! p with
  | Some e, _ => (e, s)
  | None, Some (Pinned _) => (0, delete p s)
  | None, Some Directory => (EPERM, s)
  | None, None => (ENOENT, s)
  end.
(** A directory is removed when nothing in it is left. *)
Definition rmdir (p : string) (s : fs) : Z * fs :=
  match keep p, s !! p with
  | Some e, _ => (e, s)
  | None, Some Directory =>
    if decide (Exists (λ kv : string * node, String.prefix (p +:+ "/") kv.1 = true) (map_to_list s))
    then (EBUSY, s) else (0, delete p s)
  | None, _ => (ENOENT, s)
  end.

(** One file of a program: the error and the file system. *)
Definition pin_file (path : string) (fd : Z) (s : fs) : Z * fs :=
  if negb (try_path path =? 0) then (try_path path, s)
  else let (e, s) := bpf_obj_pin fd path s in (- e, s).

(** The loop of [xdp_multiprog__pin]; [err] is its value before. *)
Fixpoint pin_progs (dir : string) (ps : list linked) (err : Z) (s : fs) : Z * fs :=
  match ps with
  | [] => (err, s)
  | p :: ps =>
    if link_fd p <? 0 then (- EINVAL, s)
    else
      let (e, s) := pin_file (link_path dir p) (link_fd p) s in
      if negb (e =? 0) then (e, s)
      else
        let (e, s) := pin_file (prog_path dir p) (prog_fd p) s in
        if negb (e =? 0) then (e, s) else pin_progs dir ps 0 s
  end.

(** The loop under [err_unpin]. *)
Fixpoint unpin_all (dir : string) (ps : list linked) (s : fs) : fs :=
  match ps with
  | [] => s
  | p :: ps =>
    let s := if try_path (link_path dir p) =? 0 then (unlink (link_path dir p) s).2 else s in
    let s := if try_path (prog_path dir p) =? 0 then (unlink (prog_path dir p) s).2 else s in
    unpin_all dir ps s
  end.

Definition pin_path (bpffs : string) (ifindex prog_id : Z) : string :=
  bpffs +:+ ("/dispatch-" +:+ (pretty ifindex +:+ ("-" +:+ pretty (s32 prog_id)))).

(** [bpffs_dir] is the result of [get_bpffs_dir], an error or a directory, and
    [lock] that of [xdp_lock_acquire].  A failing loop goes through [err_unpin];
    a failing [mkdir] does not. *)
Definition xdp_multiprog__pin (bpffs_dir : Z + string) (ifindex prog_id lock : Z) (legacy : bool)
    (ps : list linked) (s : fs) : Z * fs :=
  if legacy then (- EINVAL, s) else
  match bpffs_dir with
  | inl err => (err, s)
  | inr bpffs =>
  let dir := pin_path bpffs ifindex prog_id in
  if negb (try_path dir =? 0) then (try_path dir, s)
  else if lock <? 0 then (lock, s)
  else
    let (e, s) := mkdir dir s in
    if negb (e =? 0) && negb (e =? EEXIST) then (- e, s)
    else
      let (err, s) := pin_progs dir ps (if e =? 0 then 0 else -1) s in
      if (err =? 0) || (bool_decide (ps = [])) then (err, s)
      else (err, (rmdir dir (unpin_all dir ps s)).2)
  end.

(** One [unlink] of [xdp_multiprog__unpin]. *)
Definition unpin_file (path : string) (s : fs) : Z * fs :=
  if negb (try_path path =? 0) then (try_path path, s)
  else let (e, s) := unlink path s in (- e, s).

Fixpoint unpin_progs (dir : string) (ps : list linked) (s : fs) : Z * fs :=
  match ps with
  | [] => (0, s)
  | p :: ps =>
    let (e, s) := unpin_file (link_path dir p) s in
    if negb (e =? 0) then (e, s)
    else
      let (e, s) := unpin_file (prog_path dir p) s in
      if negb (e =? 0) then (e, s) else unpin_progs dir ps s
  end.

Definition xdp_multiprog__unpin (bpffs_dir : Z + string) (ifindex prog_id lock : Z) (legacy : bool)
    (ps : list linked) (s : fs) : Z * fs :=
  if legacy then (- EINVAL, s) else
  match bpffs_dir with
  | inl err => (err, s)
  | inr bpffs =>
  let dir := pin_path bpffs ifindex prog_id in
  if negb (try_path dir =? 0) then (try_path dir, s)
  else if lock <? 0 then (lock, s)
  else
    let (err, s) := unpin_progs dir ps s in
    if negb (err =? 0) then (err, s)
    else let (e, s) := rmdir dir s in (- e, s)
  end.

(** ** Properties *)

(** An existing file is reported by the file system itself. *)
Context (refuse_err : ∀ p e, refuse p = Some e → 0 < e ∧ e ≠ EEXIST).
Context (keep_err : ∀ p e, keep p = Some e → 0 < e).

Definition files (dir : string) (ps : list linked) : list string :=
  ps ≫= λ p, [link_path dir p; prog_path dir p].

Lemma files_cons dir p ps : files dir (p :: ps) = link_path dir p :: prog_path dir p :: files dir ps.
Proof. done. Qed.

Lemma pin_file_cases path fd s e s' :
  pin_file path fd s = (e, s') →
  e = 0 ∧ try_path path = 0 ∧ s !! path = None ∧ s' = <[path := Pinned fd]> s ∨ e ≠ 0 ∧ s' = s.
Proof.
  unfold pin_file, bpf_obj_pin. destruct (Z.eqb_spec (try_path path) 0) as [Ht|Ht]; cbn [negb].
  - destruct (refuse path) as [e'|] eqn:Er; [|destruct (s !! path) eqn:Es]; intros [= <- <-].
    + right. split; [|done]. pose proof (refuse_err _ _ Er). lia.
    + by right.
    + by left.
  - intros [= <- <-]. by right.
Qed.

(** A successful run of the loop: the files were absent and distinct, and are
    now pinned; nothing else changed. *)
Lemma pin_progs_ok dir ps err s s' :
  pin_progs dir ps err s = (0, s') → (ps = [] → err = 0) →
  NoDup (files dir ps) ∧ Forall (λ k, try_path k = 0 ∧ s !! k = None ∧ ∃ fd, s' !! k = Some (Pinned fd)) (files dir ps) ∧
  ∀ k, k ∉ files dir ps → s' !! k = s !! k.
Proof.
  revert err s. induction ps as [|p ps IH]; intros err s; cbn [pin_progs].
  { intros [= -> ->] _. split; [constructor|]. by split; [constructor|]. }
  intros Hrun _. revert Hrun. destruct (link_fd p <? 0); [done|].
  destruct (pin_file (link_path dir p) _ s) as [e1 s1] eqn:E1.
  apply pin_file_cases in E1 as [(-> & Ht1 & Hn1 & ->)|[He ->]]; [|rewrite (proj2 (Z.eqb_neq _ _) He); by intros [= ->]].
  cbn [Z.eqb negb]. destruct (pin_file (prog_path dir p) _ _) as [e2 s2] eqn:E2.
  apply pin_file_cases in E2 as [(-> & Ht2 & Hn2 & ->)|[He ->]]; [|rewrite (proj2 (Z.eqb_neq _ _) He); by intros [= ->]].
  cbn [Z.eqb negb]. intros Hrun. apply IH in Hrun as (Hnd & Hall & Hout); [|done].
  apply lookup_insert_None in Hn2 as [Hn2 Hne]. rewrite files_cons.
  assert (∀ k, k ∈ files dir ps → k ≠ link_path dir p ∧ k ≠ prog_path dir p ∧ s !! k = None) as Hf.
  { intros k Hk. apply (proj1 (Forall_forall _ _) Hall) in Hk as (_ & Hk & _).
    apply lookup_insert_None in Hk as [Hk ?]. by apply lookup_insert_None in Hk as [? ?]. }
  assert ((link_path dir p ∉ files dir ps) ∧ (prog_path dir p ∉ files dir ps)) as [Hl Hp]
    by (split; intros Hk; by apply Hf in Hk as (? & ? & _)).
  split_and!.
  - constructor; [|by constructor]. rewrite not_elem_of_cons. split; [congruence|done].
  - constructor; [|constructor].
    + split; [done|]. split; [done|]. eexists. rewrite Hout by done.
      rewrite lookup_insert_ne by congruence. apply lookup_insert_eq.
    + split; [done|]. split; [done|]. eexists. rewrite Hout by done. apply lookup_insert_eq.
    + apply Forall_forall. intros k Hk. pose proof (Hf k Hk) as (? & ? & ?).
      apply (proj1 (Forall_forall _ _) Hall) in Hk as (? & _ & ?). done.
  - intros k [H1 Hk]%not_elem_of_cons. apply not_elem_of_cons in Hk as [H2 H3].
    rewrite Hout by done. by rewrite !lookup_insert_ne by congruence.
Qed.

(** The descriptor behind each file. *)
Lemma pin_file_keeps path fd s k v : s !! k = Some v → (pin_file path fd s).2 !! k = Some v.
Proof.
  intros Hk. destruct (pin_file path fd s) as [e s'] eqn:E. cbn.
  apply pin_file_cases in E as [(_ & _ & Hn & ->)|[_ ->]]; [|done]. rewrite lookup_insert_ne by congruence. done.
Qed.
Lemma pin_progs_keeps dir ps err s k v : s !! k = Some v → (pin_progs dir ps err s).2 !! k = Some v.
Proof.
  revert err s. induction ps as [|p ps IH]; intros err s Hk; cbn [pin_progs]; [done|].
  destruct (link_fd p <? 0); [done|].
  pose proof (pin_file_keeps (link_path dir p) (link_fd p) s k v Hk) as H1. destruct (pin_file _ _ s) as [e1 s1]. cbn in H1.
  destruct (negb (e1 =? 0)); [done|].
  pose proof (pin_file_keeps (prog_path dir p) (prog_fd p) s1 k v H1) as H2. destruct (pin_file _ _ s1) as [e2 s2]. cbn in H2.
  destruct (negb (e2 =? 0)); [done|]. by apply IH.
Qed.
Lemma pin_progs_at dir ps err s s' i p :
  pin_progs dir ps err s = (0, s') → ps !! i = Some p →
  s' !! link_path dir p = Some (Pinned (link_fd p)) ∧ s' !! prog_path dir p = Some (Pinned (prog_fd p)).
Proof.
  revert err s i. induction ps as [|q ps IH]; intros err s i; [done|]. cbn [pin_progs].
  destruct (link_fd q <? 0); [done|].
  destruct (pin_file (link_path dir q) _ s) as [e1 s1] eqn:E1. destruct (Z.eqb_spec e1 0) as [->|]; cbn [negb]; [|by intros [= ->]].
  destruct (pin_file (prog_path dir q) _ s1) as [e2 s2] eqn:E2. destruct (Z.eqb_spec e2 0) as [->|]; cbn [negb]; [|by intros [= ->]].
  intros Hrun. destruct i as [|i]; [intros [= <-]|by apply (IH _ _ _ Hrun)].
  pose proof (λ k v, pin_progs_keeps dir ps 0 s2 k v) as Hk. rewrite Hrun in Hk. cbn in Hk.
  pose proof (pin_file_keeps (prog_path dir q) (prog_fd q) s1) as Hk1. rewrite E2 in Hk1. cbn in Hk1.
  apply pin_file_cases in E1 as [(_ & _ & _ & ->)|[? _]]; [|done].
  apply pin_file_cases in E2 as [(_ & _ & _ & ->)|[? _]]; [|done].
  split; apply Hk; [apply Hk1, lookup_insert_eq|apply lookup_insert_eq].
Qed.

(** Unpinning files that are all there removes exactly them, up to the first that the
    system refuses to remove. *)
Lemma unpin_file_ok path s fd :
  try_path path = 0 → s !! path = Some (Pinned fd) →
  unpin_file path s = match keep path with Some e => (- e, s) | None => (0, delete path s) end.
Proof. intros Ht Hs. unfold unpin_file, unlink. rewrite Ht, Hs. by destruct (keep path). Qed.

Lemma unpin_progs_ok dir ps s :
  NoDup (files dir ps) → Forall (λ k, try_path k = 0 ∧ ∃ fd, s !! k = Some (Pinned fd)) (files dir ps) →
  ∃ e s', unpin_progs dir ps s = (e, s') ∧ (∀ k, k ∉ files dir ps → s' !! k = s !! k) ∧
    if e =? 0 then ∀ k, k ∈ files dir ps → s' !! k = None else ∃ k, k ∈ files dir ps ∧ keep k = Some (- e).
Proof.
  revert s. induction ps as [|p ps IH]; intros s.
  { intros _ _. exists 0, s. split; [done|]. split; [done|]. intros k Hk. by apply not_elem_of_nil in Hk. }
  rewrite files_cons. intros [Hl Hnd]%NoDup_cons Hall. apply NoDup_cons in Hnd as [Hp Hnd].
  apply Forall_cons in Hall as [(Ht1 & fd1 & H1) Hall]. apply Forall_cons in Hall as [(Ht2 & fd2 & H2) Hall].
  apply not_elem_of_cons in Hl as [Hne Hl]. cbn [unpin_progs].
  rewrite (unpin_file_ok _ _ fd1) by done. destruct (keep (link_path dir p)) as [e|] eqn:Ek1.
  { pose proof (keep_err _ _ Ek1). rewrite (proj2 (Z.eqb_neq (- e) 0)) by lia. cbn [negb]. exists (- e), s. split; [done|]. split; [done|].
    rewrite (proj2 (Z.eqb_neq (- e) 0)) by lia. exists (link_path dir p). rewrite Z.opp_involutive. split; [left|done]. }
  cbn [Z.eqb negb].
  rewrite (unpin_file_ok _ _ fd2) by (done || by rewrite lookup_delete_ne by congruence). destruct (keep (prog_path dir p)) as [e|] eqn:Ek2.
  { pose proof (keep_err _ _ Ek2). rewrite (proj2 (Z.eqb_neq (- e) 0)) by lia. cbn [negb]. eexists (- e), _. split; [done|]. split.
    - intros k [Hk _]%not_elem_of_cons. by rewrite lookup_delete_ne by congruence.
    - rewrite (proj2 (Z.eqb_neq (- e) 0)) by lia. exists (prog_path dir p). rewrite Z.opp_involutive. split; [right; left|done]. }
  cbn [Z.eqb negb].
  destruct (IH (delete (prog_path dir p) (delete (link_path dir p) s))) as (e & s' & -> & Hout & Hin); [done| |].
  { apply Forall_forall. intros k Hk. pose proof (proj1 (Forall_forall _ _) Hall k Hk) as (? & fd & ?).
    split; [done|]. exists fd. by rewrite !lookup_delete_ne by congruence. }
  exists e, s'. split; [done|]. split.
  - intros k [Hk1 Hk]%not_elem_of_cons. apply not_elem_of_cons in Hk as [Hk2 Hk].
    rewrite Hout by done. by rewrite !lookup_delete_ne by congruence.
  - destruct (e =? 0); [|destruct Hin as (k & Hk & Ek); exists k; split; [by do 2 right|done]].
    intros k Hk. destruct (decide (k ∈ files dir ps)) as [|Hn]; [by apply Hin|]. rewrite Hout by done.
    apply elem_of_cons in Hk as [->|Hk]; [rewrite lookup_delete_ne by congruence; apply lookup_delete_eq|].
    apply elem_of_cons in Hk as [->|Hk]; [apply lookup_delete_eq|done].
Qed.

(** While a dispatcher is being pinned into a fresh directory the file system
    differs from [s0] in the directory and in files that could be created. *)
Definition partial (s0 : fs) (dir : string) (fl : list string) (s : fs) : Prop :=
  s !! dir = Some Directory ∧
  (∀ k, k ∉ fl → k ≠ dir → s !! k = s0 !! k) ∧
  (∀ k, k ∈ fl → s !! k = None ∨ try_path k = 0 ∧ ∃ fd, s !! k = Some (Pinned fd)).

Lemma partial_insert s0 dir fl s k fd :
  partial s0 dir fl s → k ∈ fl → k ≠ dir → try_path k = 0 → partial s0 dir fl (<[k := Pinned fd]> s).
Proof.
  intros (H1 & H2 & H3) Hk Hne Ht. split_and!.
  - by rewrite lookup_insert_ne.
  - intros j Hj Hd. rewrite lookup_insert_ne by congruence. auto.
  - intros j Hj. destruct (decide (j = k)) as [->|]; [|rewrite lookup_insert_ne by done; auto].
    right. split; [done|]. eexists. apply lookup_insert_eq.
Qed.

Lemma pin_progs_partial s0 dir fl ps err s :
  partial s0 dir fl s → dir ∉ fl → files dir ps ⊆ fl →
  partial s0 dir fl (pin_progs dir ps err s).2.
Proof.
  intros Hp Hd. revert err s Hp. induction ps as [|p ps IH]; intros err s Hp Hsub; cbn [pin_progs]; [done|].
  destruct (link_fd p <? 0); [done|]. rewrite files_cons in Hsub.
  assert (link_path dir p ∈ fl ∧ prog_path dir p ∈ fl) as [Hl Hg] by (split; apply Hsub; rewrite !elem_of_cons; auto).
  destruct (pin_file (link_path dir p) _ s) as [e1 s1] eqn:E1.
  assert (partial s0 dir fl s1) as Hp1.
  { apply pin_file_cases in E1 as [(_ & Ht & _ & ->)|[_ ->]]; [|done]. apply partial_insert; [done..| |done]. congruence. }
  destruct (negb (e1 =? 0)); [done|].
  destruct (pin_file (prog_path dir p) _ s1) as [e2 s2] eqn:E2.
  assert (partial s0 dir fl s2) as Hp2.
  { apply pin_file_cases in E2 as [(_ & Ht & _ & ->)|[_ ->]]; [|done]. apply partial_insert; [done..| |done]. congruence. }
  destruct (negb (e2 =? 0)); [done|]. apply IH; [done|]. intros k Hk. apply Hsub. rewrite !elem_of_cons. auto.
Qed.

(** A successful run leaves the directory and a file for every descriptor. *)
Lemma pin_success bpffs ifindex id legacy ps s s' :
  xdp_multiprog__pin (inr bpffs) ifindex id 0 legacy ps s = (0, s') →
  let dir := pin_path bpffs ifindex id in
  is_Some (s' !! dir) ∧ ∀ i p, ps !! i = Some p →
    s' !! link_path dir p = Some (Pinned (link_fd p)) ∧ s' !! prog_path dir p = Some (Pinned (prog_fd p)).
Proof.
  unfold xdp_multiprog__pin. destruct legacy; [done|]. set (dir := pin_path _ _ _). cbv zeta.
  destruct (Z.eqb_spec (try_path dir) 0) as [_|Ht]; cbn [negb]; [|by intros [= E]].
  cbn [Z.ltb Z.compare]. destruct (mkdir dir s) as [e s1] eqn:Em.
  destruct (negb (e =? 0) && negb (e =? EEXIST)) eqn:Ee; [intros [= ?]; destruct (Z.eqb_spec e 0); [done|lia]|].
  assert (is_Some (s1 !! dir)) as [v Hd].
  { revert Em Ee. unfold mkdir. destruct (refuse dir) as [e'|] eqn:Er.
    - apply refuse_err in Er as [? ?]. intros [= <- <-]. destruct (Z.eqb_spec e' 0); [lia|].
      by rewrite (proj2 (Z.eqb_neq e' EEXIST)) by done.
    - destruct (s !! dir) eqn:Es; intros [= <- <-] _; [by rewrite Es|by rewrite lookup_insert_eq]. }
  pose proof (pin_progs_keeps dir ps (if e =? 0 then 0 else -1) s1 _ _ Hd) as Hd'.
  destruct (pin_progs dir ps _ s1) as [err s2] eqn:Ep. cbn in Hd'.
  destruct (Z.eqb_spec err 0) as [->|Herr]; cbn [orb].
  - intros [= <-]. split; [by eexists|]. intros i p. by apply (pin_progs_at _ _ _ _ _ _ _ Ep).
  - case_bool_decide; intros [= E]; congruence.
Qed.

(** Removing one file that may be there. *)
Definition drop_file (k : string) (s : fs) : fs := if try_path k =? 0 then (unlink k s).2 else s.

Lemma drop_file_lookup s0 dir fl s k j :
  partial s0 dir fl s → k ∈ fl → drop_file k s !! j = if decide (j = k ∧ keep k = None) then None else s !! j.
Proof.
  intros (_ & _ & H3) Hk. unfold drop_file, unlink. destruct (keep k) as [e|].
  { rewrite decide_False by by intros [_ ?]. by destruct (_ =? 0). }
  destruct (H3 k Hk) as [E|(Ht & fd & E)].
  - rewrite E. destruct (try_path k =? 0); cbn; destruct (decide _) as [[-> _]|]; done.
  - rewrite E, Ht. cbn. destruct (decide _) as [[-> _]|Hn]; [apply lookup_delete_eq|]. apply lookup_delete_ne. by intros ->; apply Hn.
Qed.

Lemma partial_drop s0 dir fl s k :
  partial s0 dir fl s → k ∈ fl → dir ∉ fl → partial s0 dir fl (drop_file k s).
Proof.
  intros Hp Hk Hd. pose proof Hp as (H1 & H2 & H3). split_and!.
  - rewrite (drop_file_lookup s0 dir fl) by done. rewrite decide_False by (intros [-> _]; done). done.
  - intros j Hj Hne. rewrite (drop_file_lookup s0 dir fl), decide_False by (done || by intros [-> _]). auto.
  - intros j Hj. rewrite (drop_file_lookup s0 dir fl) by done. destruct (decide _); [by left|auto].
Qed.

Lemma unpin_all_partial s0 dir fl ps s :
  partial s0 dir fl s → dir ∉ fl → files dir ps ⊆ fl →
  partial s0 dir fl (unpin_all dir ps s) ∧
  ∀ k, (k ∈ files dir ps ∨ s !! k = None) → k ∈ fl → keep k = None → unpin_all dir ps s !! k = None.
Proof.
  intros Hp Hd. revert s Hp. induction ps as [|p ps IH]; intros s Hp Hsub.
  { split; [done|]. intros k [Hk|Hk] _; [by apply not_elem_of_nil in Hk|done]. }
  rewrite files_cons in Hsub |- *.
  assert (link_path dir p ∈ fl ∧ prog_path dir p ∈ fl) as [Hl Hg] by (split; apply Hsub; rewrite !elem_of_cons; auto).
  change (unpin_all dir (p :: ps) s)
    with (unpin_all dir ps (drop_file (prog_path dir p) (drop_file (link_path dir p) s))).
  pose proof (partial_drop _ _ _ _ _ Hp Hl Hd) as Hp1. pose proof (partial_drop _ _ _ _ _ Hp1 Hg Hd) as Hp2.
  destruct (IH _ Hp2) as [Hp' Hno].
  { intros k Hk. apply Hsub. rewrite !elem_of_cons. auto. }
  split; [done|]. intros k Hk Hkf Hkeep. apply Hno; [|done|done].
  rewrite (drop_file_lookup s0 dir fl), (drop_file_lookup s0 dir fl) by done.
  destruct (decide (k = prog_path dir p ∧ _)); [by right|]. destruct (decide (k = link_path dir p ∧ _)); [by right|].
  rewrite !elem_of_cons in Hk. destruct Hk as [[->|[->|?]]|?]; [tauto..|by left|by right].
Qed.

(** A directory that does not exist and has nothing below it. *)
Definition fresh_dir (dir : string) (s : fs) : Prop :=
  s !! dir = None ∧ ∀ k, String.prefix (dir +:+ "/") k = true → s !! k = None.

Lemma prefix_app a b : String.prefix a (a +:+ b) = true.
Proof.
  induction a as [|c a IH]; [by destruct b|]. change (String c a +:+ b) with (String c (a +:+ b)). cbn.
  by destruct (ascii_dec c c).
Qed.

Lemma prefix_length a b : String.prefix a b = true → (String.length a ≤ String.length b)%nat.
Proof.
  revert b. induction a as [|c a IH]; intros b; [intros; cbn; lia|]. destruct b as [|d b]; [done|]. cbn.
  destruct (ascii_dec c d); [|done]. intros H%IH. lia.
Qed.

Lemma string_app_assoc a b c : (a +:+ b) +:+ c = a +:+ (b +:+ c).
Proof. induction a as [|x a IH]; [done|]. exact (f_equal (String x) IH). Qed.

Lemma length_string_app a b : String.length (a +:+ b) = (String.length a + String.length b)%nat.
Proof. induction a as [|x a IH]; [done|]. exact (f_equal S IH). Qed.

Lemma files_below dir ps k : k ∈ files dir ps → String.prefix (dir +:+ "/") k = true.
Proof.
  unfold files. intros (p & Hk & _)%list_elem_of_bind. rewrite !elem_of_cons in Hk.
  destruct Hk as [->|[->|Hk]]; [| |by apply not_elem_of_nil in Hk]; unfold link_path, prog_path;
    rewrite <- string_app_assoc; apply prefix_app.
Qed.

Lemma dir_not_below dir : String.prefix (dir +:+ "/") dir ≠ true.
Proof. intros H%prefix_length. rewrite length_string_app in H. cbn in H. lia. Qed.

Lemma dir_not_file dir ps : dir ∉ files dir ps.
Proof. intros H%files_below. by apply dir_not_below in H. Qed.

Lemma partial_start s0 dir ps : fresh_dir dir s0 → partial s0 dir (files dir ps) (<[dir := Directory]> s0).
Proof.
  intros [H1 H2]. split_and!.
  - apply lookup_insert_eq.
  - intros k _ Hne. by rewrite lookup_insert_ne.
  - intros k Hk. left. rewrite lookup_insert_ne; [apply H2; by eapply files_below|].
    intros <-. by apply dir_not_file in Hk.
Qed.

(** Once no file is left, removing the directory restores the file system. *)
Lemma rmdir_restores s0 dir fl s :
  fresh_dir dir s0 → partial s0 dir fl s → (∀ k, k ∈ fl → s !! k = None) →
  (∀ k, k ∈ fl → String.prefix (dir +:+ "/") k = true) →
  rmdir dir s = match keep dir with Some e => (e, s) | None => (0, s0) end.
Proof.
  intros [H1 H2] (Hd & Hout & _) Hno Hb. unfold rmdir. rewrite Hd. destruct (keep dir); [done|].
  assert (∀ k, k ≠ dir → s !! k = s0 !! k) as Heq.
  { intros k Hk. destruct (decide (k ∈ fl)) as [Hf|Hf]; [|by apply Hout]. rewrite Hno by done. symmetry. by apply H2, Hb. }
  rewrite decide_False.
  - f_equal. apply map_eq. intros k. destruct (decide (k = dir)) as [->|Hk].
    + by rewrite lookup_delete_eq.
    + rewrite lookup_delete_ne by done. by apply Heq.
  - intros ((k & v) & Hin & Hp)%Exists_exists. apply elem_of_map_to_list in Hin. cbn in Hp.
    assert (k ≠ dir) as Hk by (intros ->; by apply dir_not_below in Hp).
    rewrite Heq, H2 in Hin by done. done.
Qed.

(** What can be left of a failed attempt: what the system refuses to remove, and the
    directory of it. *)
Definition stuck (dir : string) (ps : list linked) (k : string) : Prop :=
  k ∈ files dir ps ∧ is_Some (keep k) ∨
  k = dir ∧ (is_Some (keep dir) ∨ ∃ f, f ∈ files dir ps ∧ is_Some (keep f)).

Lemma cleanup_left s0 dir ps s :
  fresh_dir dir s0 → partial s0 dir (files dir ps) s →
  ∀ k, (rmdir dir (unpin_all dir ps s)).2 !! k ≠ s0 !! k → stuck dir ps k.
Proof.
  intros Hf Hp. destruct (unpin_all_partial s0 dir (files dir ps) ps s Hp (dir_not_file dir ps) (reflexivity _)) as [Hp2 Hno].
  set (t := unpin_all dir ps s) in *. pose proof Hf as [Hf1 Hf2].
  assert (∀ k, k ≠ dir → t !! k ≠ s0 !! k → k ∈ files dir ps ∧ is_Some (keep k)) as Hdiff.
  { intros k Hk Hne. destruct (decide (k ∈ files dir ps)) as [Hin|Hin]; [|by destruct Hne; apply Hp2]. split; [done|].
    destruct (keep k) eqn:E; [by eexists|]. destruct Hne. rewrite Hno by auto. symmetry. apply Hf2. by eapply files_below. }
  destruct (decide (Exists (λ f, is_Some (keep f)) (files dir ps))) as [He|He].
  - apply Exists_exists in He as (f & Hin & Hk). intros k Hne. destruct (decide (k = dir)) as [->|Hkd]; [right; split; [done|]; right; by exists f|].
    left. apply Hdiff; [done|]. revert Hne. unfold rmdir. destruct (keep dir); [done|]. destruct (t !! dir) as [[]|]; [|done..].
    destruct (decide _); [done|]. cbn. by rewrite lookup_delete_ne.
  - rewrite (rmdir_restores s0 dir (files dir ps)); [|done..| |intros k; apply files_below].
    + destruct (keep dir) as [e|] eqn:Ed; [|done]. cbn. intros k Hne. destruct (decide (k = dir)) as [->|Hkd]; [right; rewrite Ed; split; [done|left; by eexists]|].
      left. by apply Hdiff.
    + intros k Hk. apply Hno; [by left|done|]. destruct (keep k) eqn:E; [|done]. destruct He. apply Exists_exists. exists k. split; [done|by rewrite E].
Qed.

(** C15: pinning into a fresh directory, when the system may refuse to create or to
    remove anything.  When it fails, for whatever reason and at whatever program, the file system
    is as it was before, except for pins of this dispatcher that the system refuses to remove and
    the directory they are in (or that itself is refused).  When it succeeds, unpinning restores
    the file system, or it reports with which error the system refused to remove a pin or
    the directory, and has changed nothing but the pins and the directory. *)
Theorem pin_atomic bpffs_dir ifindex id lock legacy ps s0 :
  match bpffs_dir with inl err => err < 0 | inr bpffs => fresh_dir (pin_path bpffs ifindex id) s0 end →
  let dir := match bpffs_dir with inl _ => EmptyString | inr bpffs => pin_path bpffs ifindex id end in
  let (e, s1) := xdp_multiprog__pin bpffs_dir ifindex id lock legacy ps s0 in
  if e =? 0 then
    let (e2, s2) := xdp_multiprog__unpin bpffs_dir ifindex id lock legacy ps s1 in
    if e2 =? 0 then s2 = s0
    else (∃ k, k ∈ dir :: files dir ps ∧ keep k = Some (- e2)) ∧ ∀ k, k ∉ dir :: files dir ps → s2 !! k = s0 !! k
  else ∀ k, s1 !! k ≠ s0 !! k → stuck dir ps k.
Proof.
  intros Hf. cbv zeta. assert (∀ d k, s0 !! k ≠ s0 !! k → stuck d ps k) as Hsame by by intros ? ? [].
  unfold xdp_multiprog__pin, xdp_multiprog__unpin. destruct legacy; [exact (Hsame _)|].
  destruct bpffs_dir as [err|bpffs]; [rewrite (proj2 (Z.eqb_neq err 0)) by lia; exact (Hsame _)|].
  set (dir := pin_path bpffs ifindex id) in *. destruct (Z.eqb_spec (try_path dir) 0) as [Ht|Ht]; cbn [negb];
    [|rewrite (proj2 (Z.eqb_neq _ _) Ht); exact (Hsame _)].
  destruct (Z.ltb_spec lock 0) as [Hl|_]; [rewrite (proj2 (Z.eqb_neq lock 0)) by lia; exact (Hsame _)|].
  pose proof (partial_start s0 dir ps Hf) as Hp0. unfold mkdir. rewrite (proj1 Hf).
  destruct (refuse dir) as [e|] eqn:Er.
  { pose proof (refuse_err _ _ Er) as He. destruct (Z.eqb_spec e 0); [lia|]. cbn [negb andb].
    rewrite (proj2 (Z.eqb_neq e EEXIST)) by (by destruct He). cbn [negb].
    rewrite (proj2 (Z.eqb_neq (- e) 0)) by lia. exact (Hsame _). }
  cbn [Z.eqb negb andb].
  pose proof (pin_progs_partial s0 dir (files dir ps) ps 0 _ Hp0 (dir_not_file dir ps) (reflexivity _)) as Hp1.
  destruct (pin_progs dir ps 0 _) as [err s1] eqn:Ep. cbn [snd] in Hp1.
  destruct (Z.eqb_spec err 0) as [->|He]; cbn [orb].
  - apply pin_progs_ok in Ep as (Hnd & Hall & Hout); [|done]. pose proof Hp1 as (H1 & H2 & H3).
    destruct (unpin_progs_ok dir ps s1 Hnd) as (e & s2 & -> & Hout2 & Hin).
    { eapply Forall_impl; [exact Hall|]. by intros k (? & _ & ?). }
    destruct (Z.eqb_spec e 0) as [->|Hne]; cbn [negb].
    + rewrite (rmdir_restores s0 dir (files dir ps)); [|done| |done|intros k; apply files_below].
      * destruct (keep dir) as [e|] eqn:Ek; [|done]. pose proof (keep_err _ _ Ek). rewrite (proj2 (Z.eqb_neq (- e) 0)) by lia.
        split; [exists dir; rewrite Z.opp_involutive; split; [left|done]|].
        intros k [Hk1 Hk2]%not_elem_of_cons. rewrite Hout2 by done. auto.
      * split_and!; [by rewrite Hout2 by apply dir_not_file| |by intros k Hk; left; auto].
        intros k Hk Hkd. rewrite Hout2 by done. auto.
    + rewrite (proj2 (Z.eqb_neq _ _) Hne). destruct Hin as (k & Hk & Ek). split; [exists k; split; [by right|done]|].
      intros j [Hj1 Hj2]%not_elem_of_cons. rewrite Hout2 by done. auto.
  - case_bool_decide as Hps; [subst ps; by injection Ep as <- <-|].
    rewrite (proj2 (Z.eqb_neq _ _) He). by apply cleanup_left.
Qed.

End pin.

(** Two programs; the second run meets a file that cannot be created. *)
Definition sample_ps : list linked := [mk_linked "prog0" 11 12; mk_linked "prog1" 13 14].

(** The second run leaves nothing; the third cannot remove the first link either, which
    stays with its directory. *)
Lemma pin_atomic_witness :
  (xdp_multiprog__pin (λ _, None) (λ _, None) (inr "/sys/fs/bpf/xdp") 3 5 4 false sample_ps ∅).1 = 0 ∧
  let refuse p := if streq p "/sys/fs/bpf/xdp/dispatch-3-5/prog1-prog" then Some ENOSPC else None in
  let keep p := if streq p "/sys/fs/bpf/xdp/dispatch-3-5/prog0-link" then Some EPERM else None in
  xdp_multiprog__pin refuse (λ _, None) (inr "/sys/fs/bpf/xdp") 3 5 4 false sample_ps ∅ = (- ENOSPC, ∅) ∧
  ∃ s, xdp_multiprog__pin refuse keep (inr "/sys/fs/bpf/xdp") 3 5 4 false sample_ps ∅ = (- ENOSPC, s) ∧
    s = {[ "/sys/fs/bpf/xdp/dispatch-3-5"%string := Directory; "/sys/fs/bpf/xdp/dispatch-3-5/prog0-link"%string := Pinned 11 ]} ∧
    ∀ k, s !! k ≠ None → stuck keep "/sys/fs/bpf/xdp/dispatch-3-5" sample_ps k.
Proof.
  split; [vm_compute; reflexivity|]. cbv zeta.
  set (refuse p := if streq p "/sys/fs/bpf/xdp/dispatch-3-5/prog1-prog" then Some ENOSPC else None).
  set (keep p := if streq p "/sys/fs/bpf/xdp/dispatch-3-5/prog0-link" then Some EPERM else None).
  assert (∀ p e, refuse p = Some e → 0 < e ∧ e ≠ EEXIST) as Hr.
  { intros p e. unfold refuse. destruct (streq _ _); [|done]. by intros [= <-]. }
  assert (∀ p e, keep p = Some e → 0 < e) as Hk.
  { intros p e. unfold keep. destruct (streq _ _); [|done]. by intros [= <-]. }
  split; [vm_compute; reflexivity|].
  pose proof (pin_atomic refuse keep Hr Hk (inr "/sys/fs/bpf/xdp"%string) 3 5 4 false sample_ps ∅ (conj eq_refl (λ _ _, eq_refl))) as Hp.
  assert (xdp_multiprog__pin refuse keep (inr "/sys/fs/bpf/xdp"%string) 3 5 4 false sample_ps ∅ =
    (- ENOSPC, {[ "/sys/fs/bpf/xdp/dispatch-3-5"%string := Directory; "/sys/fs/bpf/xdp/dispatch-3-5/prog0-link"%string := Pinned 11 ]})) as He
    by (vm_compute; reflexivity).
  eexists. split; [exact He|]. split; [reflexivity|]. cbv zeta in Hp. rewrite He in Hp. exact Hp.
Defined.
