(* ===== verification/Hashmap.v ===== *)
(** * The hash map of libbpf ([hashmap.c], [hashmap.h])

    A map keeps an array of collision chains.  The array is modelled as a list
    of lists ([None] for the null array of an empty map), a chain from its head
    to its tail; the position of an entry in its chain stands for the pointer to
    the link that leads to it.  Indexing the array out of range is a fault
    ([None] of the operations).  Keys and values are [long]s; the hashing and
    comparison call-backs, with their context applied, are the arguments
    [hash_fn] and [equal_fn] of every operation.  The results of [calloc] and
    [malloc] are arguments of the operations that allocate.

    [KeyClass] states what the map expects of its call-backs: [equal_fn] compares
    keys by a class and equal keys have equal hashes.  Against it, the operations
    other than [HASHMAP_APPEND] refine a finite map from classes to entries, and
    [HASHMAP_APPEND] is described on the chain of its key. *)

From S2P Require Import Prelude Errno.

Definition HASHMAP_MIN_CAP_BITS : Z := 2.

Inductive hashmap_insert_strategy :=
  HASHMAP_ADD | HASHMAP_SET | HASHMAP_UPDATE | HASHMAP_APPEND.

#[export] Instance strategy_eq_dec : EqDecision hashmap_insert_strategy.
Proof. solve_decision. Defined.

(** [hash_bits], in the branch of a 64-bit [size_t]. *)
Definition hash_bits (h bits : Z) : Z :=
  if bits =? 0 then 0 else Z.shiftr (u64 (h * 11400714819323198485)) (64 - bits).

(** [str_hash] on the characters before the terminator; [char] is signed. *)
Definition str_hash (s : list Z) : Z := fold_left (λ h c, u64 (h * 31 + sint 8 c)) s 0.

Module hashmap_entry.
Record t := mk { key : Z; value : Z }.
End hashmap_entry.
Import hashmap_entry.

Module hashmap.
Record t := mk {
  buckets : option (list (list hashmap_entry.t));
  cap : Z;
  cap_bits : Z;
  sz : Z
}.
End hashmap.
Import hashmap.

(** [calloc] refuses a product that overflows [size_t]; [ok] is whether the
    memory is there. *)
Definition calloc_ok (n size : Z) (ok : bool) : bool := (n * size <? 2 ^ 64) && ok.

(** The result of [hashmap_insert]: the return value and what is written through
    [old_key] and [old_value]. *)
Record insert_result := mk_insert_result { ret : Z; old_key : Z; old_value : Z }.

Section operations.
Context (hash_fn : Z → Z) (equal_fn : Z → Z → bool).
Implicit Types (map : hashmap.t) (e : hashmap_entry.t).

Definition hashmap__init : hashmap.t := hashmap.mk None 0 0 0.

Definition hashmap__new (malloc : bool) : ptr hashmap.t :=
  if malloc then Ptr hashmap__init else ErrPtr (- ENOMEM).

(** [hashmap__for_each_entry]: the chains in the order of the array. *)
Definition for_each_entry map : list hashmap_entry.t :=
  match buckets map with Some bs => concat bs | None => [] end.

(** The entries freed and the cleared map. *)
Definition hashmap__clear map : list hashmap_entry.t * hashmap.t :=
  (for_each_entry map, hashmap.mk None 0 0 0).

(** [hashmap__free]: the entries given back, none for an error or null pointer. *)
Definition hashmap__free (p : ptr hashmap.t) : list hashmap_entry.t :=
  match p with Ptr map => (hashmap__clear map).1 | _ => [] end.

Definition hashmap__size map : Z := sz map.
Definition hashmap__capacity map : Z := cap map.

Definition hashmap_needs_to_grow map : bool :=
  (cap map =? 0) || (cap map <? u64 (u64 (sz map + 1) * 4) / 3).

(** [hashmap_add_entry(&buckets[h], entry)]. *)
Definition hashmap_add_entry (bs : list (list hashmap_entry.t)) (h : Z) e
    : option (list (list hashmap_entry.t)) :=
  match bs !! Z.to_nat h with
  | Some chain => Some (<[Z.to_nat h := e :: chain]> bs)
  | None => None
  end.

(** [hashmap_del_entry]: the entry at a position leaves its chain. *)
Definition hashmap_del_entry (i : nat) (chain : list hashmap_entry.t) : list hashmap_entry.t :=
  delete i chain.

Fixpoint rehash (es : list hashmap_entry.t) (new_cap_bits : Z) (new_buckets : list (list hashmap_entry.t))
    : option (list (list hashmap_entry.t)) :=
  match es with
  | [] => Some new_buckets
  | cur :: es =>
      match hashmap_add_entry new_buckets (hash_bits (hash_fn (key cur)) new_cap_bits) cur with
      | Some new_buckets => rehash es new_cap_bits new_buckets
      | None => None
      end
  end.

Definition hashmap_grow map (calloc : bool) : option (Z * hashmap.t) :=
  let new_cap_bits := u64 (cap_bits map + 1) in
  let new_cap_bits :=
    if new_cap_bits <? HASHMAP_MIN_CAP_BITS then HASHMAP_MIN_CAP_BITS else new_cap_bits in
  let new_cap := u64 (Z.shiftl 1 new_cap_bits) in
  if negb (calloc_ok new_cap 8 calloc) then Some (- ENOMEM, map)
  else
    match rehash (for_each_entry map) new_cap_bits (replicate (Z.to_nat new_cap) []) with
    | Some new_buckets => Some (0, hashmap.mk (Some new_buckets) new_cap new_cap_bits (sz map))
    | None => None
    end.

(** The position and the entry found in the chain [hash], if any. *)
Definition hashmap_find_entry map (k hash : Z) : option (option (nat * hashmap_entry.t)) :=
  match buckets map with
  | None => Some None
  | Some bs =>
      match bs !! Z.to_nat hash with
      | Some chain => Some (list_find (λ e, equal_fn (key e) k = true) chain)
      | None => None
      end
  end.

(** Writing through the links of the chain at [h] of the array. *)
Definition with_chain map (h : Z) (f : list hashmap_entry.t → list hashmap_entry.t) (size : Z) : hashmap.t :=
  hashmap.mk (alter f (Z.to_nat h) <$> buckets map) (cap map) (cap_bits map) size.

Definition insert_new map (k v : Z) (malloc : bool) : option (insert_result * hashmap.t) :=
  let h := hash_bits (hash_fn k) (cap_bits map) in
  if negb malloc then Some (mk_insert_result (- ENOMEM) 0 0, map)
  else
    match buckets map with
    | None => None
    | Some bs =>
        match hashmap_add_entry bs h (hashmap_entry.mk k v) with
        | Some bs => Some (mk_insert_result 0 0 0,
                           hashmap.mk (Some bs) (cap map) (cap_bits map) (u64 (sz map + 1)))
        | None => None
        end
    end.

Definition hashmap_insert map (k v : Z) (strategy : hashmap_insert_strategy) (calloc malloc : bool)
    : option (insert_result * hashmap.t) :=
  let h := hash_bits (hash_fn k) (cap_bits map) in
  match (if decide (strategy = HASHMAP_APPEND) then Some None else hashmap_find_entry map k h) with
  | None => None
  | Some (Some (i, entry)) =>
      if decide (strategy = HASHMAP_ADD)
      then Some (mk_insert_result (- EEXIST) (key entry) (value entry), map)
      else Some (mk_insert_result 0 (key entry) (value entry),
                 with_chain map h <[i := hashmap_entry.mk k v]> (sz map))
  | Some None =>
      if decide (strategy = HASHMAP_UPDATE) then Some (mk_insert_result (- ENOENT) 0 0, map)
      else if hashmap_needs_to_grow map then
        match hashmap_grow map calloc with
        | None => None
        | Some (err, map) =>
            if negb (err =? 0) then Some (mk_insert_result err 0 0, map)
            else insert_new map k v malloc
        end
      else insert_new map k v malloc
  end.

Definition hashmap_find map (k : Z) : option (option Z) :=
  match hashmap_find_entry map k (hash_bits (hash_fn k) (cap_bits map)) with
  | None => None
  | Some None => Some None
  | Some (Some (_, entry)) => Some (Some (value entry))
  end.

(** The entries [hashmap__for_each_key_entry] visits, in its order. *)
Definition for_each_key_entry map (k : Z) : list hashmap_entry.t :=
  match buckets map with
  | None => []
  | Some bs =>
      filter (λ e, equal_fn (key e) k = true)
        (default [] (bs !! Z.to_nat (hash_bits (hash_fn k) (cap_bits map))))
  end.

(** The deleted entry, if any. *)
Definition hashmap_delete map (k : Z) : option (option (Z * Z) * hashmap.t) :=
  let h := hash_bits (hash_fn k) (cap_bits map) in
  match hashmap_find_entry map k h with
  | None => None
  | Some None => Some (None, map)
  | Some (Some (i, entry)) =>
      Some (Some (key entry, value entry), with_chain map h (hashmap_del_entry i) (u64 (sz map - 1)))
  end.
End operations.

(** ** What the map expects of its call-backs *)

Class KeyClass {K : Type} `{Countable K} (hash_fn : Z → Z) (equal_fn : Z → Z → bool) (class : Z → K) := {
  equal_class k1 k2 : equal_fn k1 k2 = true ↔ class k1 = class k2;
  hash_class k1 k2 : class k1 = class k2 → hash_fn k1 = hash_fn k2;
}.

(** ** Chains and the array *)

Lemma hash_bits_range h bits : 0 ≤ bits ≤ 64 → 0 ≤ hash_bits h bits < 2 ^ bits.
Proof.
  intros Hb. unfold hash_bits. destruct (Z.eqb_spec bits 0) as [->|]; [simpl; lia|].
  rewrite Z.shiftr_div_pow2 by lia.
  pose proof (wrap_range 64 (h * 11400714819323198485) ltac:(lia)) as [? ?].
  split; [apply Z.div_pos; [lia|apply Z.pow_pos_nonneg; lia]|].
  apply Z.div_lt_upper_bound; [apply Z.pow_pos_nonneg; lia|].
  rewrite <- Z.pow_add_r by lia. by replace (64 - bits + bits) with 64 by lia.
Qed.

(** Changing one chain of the array changes that part of its concatenation. *)
Lemma concat_chain {A} (bs : list (list A)) h c :
  bs !! h = Some c →
  ∃ rest, concat bs ≡ₚ c ++ rest ∧ ∀ c', concat (<[h := c']> bs) ≡ₚ c' ++ rest.
Proof.
  intros Hc. exists (concat (take h bs) ++ concat (drop (S h) bs)).
  pose proof (lookup_lt_Some _ _ _ Hc). split.
  - rewrite <- (take_drop_middle bs h c Hc) at 1. rewrite concat_app. simpl.
    rewrite !(assoc_L (++)). f_equiv. apply Permutation_app_comm.
  - intros c'. rewrite insert_take_drop, concat_app by done. simpl.
    rewrite !(assoc_L (++)). f_equiv. apply Permutation_app_comm.
Qed.

Lemma elem_of_chain {A} (bs : list (list A)) i chain e :
  bs !! i = Some chain → e ∈ chain → e ∈ concat bs.
Proof.
  intros Hi He. apply list_elem_of_In, in_concat. exists chain.
  split; apply list_elem_of_In; [by eapply list_elem_of_lookup_2|done].
Qed.

Lemma list_find_None_iff {A} (P : A → Prop) `{∀ x, Decision (P x)} l :
  list_find P l = None ↔ ∀ x, x ∈ l → ¬ P x.
Proof. rewrite list_find_None. apply Forall_forall. Qed.

(** ** The invariant of a map

    Without an array the map is empty; with one, the array has [2 ^ cap_bits]
    chains, every entry is in the chain of its hash, [sz] counts the entries and
    the map is at most three quarters full. *)

Definition load_ok (size cap : Z) : Prop := size * 4 / 3 ≤ cap.

Section invariant.
Context (hash_fn : Z → Z).

Definition placed (bits : Z) (bs : list (list hashmap_entry.t)) : Prop :=
  ∀ i chain e, bs !! i = Some chain → e ∈ chain → Z.to_nat (hash_bits (hash_fn (key e)) bits) = i.

Definition wf (map : hashmap.t) : Prop :=
  match buckets map with
  | None => cap map = 0 ∧ cap_bits map = 0 ∧ sz map = 0
  | Some bs =>
      2 ≤ cap_bits map ≤ 60 ∧ cap map = 2 ^ cap_bits map ∧ Z.of_nat (length bs) = cap map ∧
      placed (cap_bits map) bs ∧ sz map = length (concat bs) ∧ load_ok (sz map) (cap map)
  end.

Lemma wf_init : wf hashmap__init.
Proof. done. Qed.

Lemma chain_in_array bits (bs : list (list hashmap_entry.t)) k :
  0 ≤ bits ≤ 64 → Z.of_nat (length bs) = 2 ^ bits →
  ∃ chain, bs !! Z.to_nat (hash_bits (hash_fn k) bits) = Some chain.
Proof.
  intros Hb Hl. pose proof (hash_bits_range (hash_fn k) bits Hb).
  apply lookup_lt_is_Some. lia.
Qed.

Lemma placed_elem bits bs k chain e :
  placed bits bs → bs !! Z.to_nat (hash_bits (hash_fn k) bits) = Some chain →
  e ∈ concat bs → hash_fn (key e) = hash_fn k → e ∈ chain.
Proof.
  intros Hp Hc (c & Hin & He)%list_elem_of_In%in_concat Hh.
  apply list_elem_of_In in He. apply list_elem_of_In, list_elem_of_lookup in Hin as [i Hi].
  pose proof (Hp _ _ _ Hi He) as E. rewrite Hh in E. congruence.
Qed.

(** Re-inserting a list of entries prepends, to each chain, the entries that
    belong there in reverse order. *)
Lemma rehash_spec es bits bs :
  0 ≤ bits ≤ 64 → Z.of_nat (length bs) = 2 ^ bits →
  ∃ bs', rehash hash_fn es bits bs = Some bs' ∧ length bs' = length bs ∧
    concat bs' ≡ₚ es ++ concat bs ∧
    ∀ i c, bs !! i = Some c →
      bs' !! i = Some (reverse (filter (λ e, Z.to_nat (hash_bits (hash_fn (key e)) bits) = i) es) ++ c).
Proof.
  intros Hb. revert bs. induction es as [|e es IH]; intros bs Hl; [by exists bs|].
  destruct (chain_in_array bits bs (key e) Hb Hl) as [c Hc].
  simpl. unfold hashmap_add_entry. rewrite Hc.
  set (h := Z.to_nat _) in *.
  destruct (IH (<[h := e :: c]> bs)) as (bs' & -> & Hl' & Hp & Hi); [by rewrite length_insert|].
  exists bs'. split; [done|]. split; [by rewrite Hl', length_insert|]. split.
  - destruct (concat_chain bs h c Hc) as (rest & E & E').
    rewrite Hp, E', E. symmetry. apply Permutation_middle.
  - intros i c' Hc'. rewrite filter_cons. case_decide as Hd; fold h in Hd.
    + subst i. simplify_eq. rewrite (Hi h (e :: c)).
      * by rewrite reverse_cons, <- (assoc_L (++)).
      * apply list_lookup_insert_eq. by eapply lookup_lt_Some.
    + apply Hi. by rewrite list_lookup_insert_ne.
Qed.

(** When the map need not grow, one more entry keeps the load bound. *)
Lemma needs_to_grow_false map :
  wf map → hashmap_needs_to_grow map = false →
  is_Some (buckets map) ∧ load_ok (sz map + 1) (cap map).
Proof.
  unfold wf, hashmap_needs_to_grow, load_ok. intros Hwf [Hc%Z.eqb_neq Hg%Z.ltb_ge]%orb_false_iff.
  destruct (buckets map) as [bs|]; [|lia]. split; [eauto|].
  destruct Hwf as (Hb & Hcap & _ & _ & Hsz & Hl).
  assert (cap map ≤ 2 ^ 60) by (rewrite Hcap; apply Z.pow_le_mono_r; lia).
  unfold wrap in Hg. rewrite (Z.mod_small (sz map + 1)) in Hg by dlia.
  by rewrite Z.mod_small in Hg by dlia.
Qed.

(** The array after growing. *)
Definition grown (map map' : hashmap.t) : Prop :=
  wf map' ∧ hashmap_needs_to_grow map' = false ∧ sz map' = sz map ∧
  ∃ bs', buckets map' = Some bs' ∧ concat bs' ≡ₚ for_each_entry map ∧
    ∀ k, bs' !! Z.to_nat (hash_bits (hash_fn k) (cap_bits map')) =
      Some (reverse (filter (λ e, Z.to_nat (hash_bits (hash_fn (key e)) (cap_bits map')) =
                              Z.to_nat (hash_bits (hash_fn k) (cap_bits map'))) (for_each_entry map))).

Lemma concat_replicate_nil {A} n : concat (replicate n (@nil A)) = [].
Proof. induction n; done. Qed.

(** The size and load of the new array. *)
Lemma grow_cap map :
  wf map →
  let bits := Z.max 2 (cap_bits map + 1) in
  (if u64 (cap_bits map + 1) <? HASHMAP_MIN_CAP_BITS then HASHMAP_MIN_CAP_BITS
   else u64 (cap_bits map + 1)) = bits ∧
  2 ≤ bits ≤ 61 ∧ u64 (Z.shiftl 1 bits) = 2 ^ bits ∧ (sz map + 1) * 4 / 3 ≤ 2 ^ bits ∧
  sz map = length (for_each_entry map).
Proof.
  intros Hwf bits. unfold wf, load_ok, for_each_entry in *.
  assert (0 ≤ cap_bits map ≤ 60 ∧ 2 ≤ bits ≤ 61) as [Hb Hb'].
  { unfold bits. destruct (buckets map); lia. }
  assert (u64 (cap_bits map + 1) = cap_bits map + 1) as ->.
  { apply wrap_small. unfold is_word. lia. }
  split; [unfold bits, HASHMAP_MIN_CAP_BITS; destruct (Z.ltb_spec (cap_bits map + 1) 2); lia|].
  split; [done|]. split.
  { rewrite Z.shiftl_1_l. apply wrap_small. unfold is_word. split; [apply Z.pow_nonneg; lia|].
    apply Z.pow_lt_mono_r; lia. }
  destruct (buckets map) as [bs|]; unfold bits.
  - destruct Hwf as (? & Hcap & _ & _ & Hsz & Hl). split; [|done].
    replace (Z.max 2 (cap_bits map + 1)) with (1 + cap_bits map) by lia.
    rewrite Z.pow_add_r by lia. change (2 ^ 1) with 2.
    assert (2 ^ 2 ≤ 2 ^ cap_bits map) by (apply Z.pow_le_mono_r; lia).
    change (2 ^ 2) with 4 in *. rewrite Hcap in Hl. dlia.
  - destruct Hwf as (? & -> & ->). split; [vm_compute; discriminate|done].
Qed.

Lemma grown_intro map bits bs' :
  2 ≤ bits ≤ 60 → (sz map + 1) * 4 / 3 ≤ 2 ^ bits → sz map = length (for_each_entry map) →
  Z.of_nat (length bs') = 2 ^ bits → concat bs' ≡ₚ for_each_entry map →
  (∀ i, (i < length bs')%nat → bs' !! i =
     Some (reverse (filter (λ e, Z.to_nat (hash_bits (hash_fn (key e)) bits) = i) (for_each_entry map)))) →
  grown map (hashmap.mk (Some bs') (2 ^ bits) bits (sz map)).
Proof.
  intros Hb Hl Hsz Hlen Hp Hi. unfold grown, wf, hashmap_needs_to_grow, load_ok. simpl.
  assert (0 < 2 ^ bits ≤ 2 ^ 60).
  { split; [apply Z.pow_pos_nonneg; lia|apply Z.pow_le_mono_r; lia]. }
  split_and!; try first [done | lia].
  - intros i chain e Hc He. rewrite Hi in Hc by (by eapply lookup_lt_Some). simplify_eq.
    by apply elem_of_reverse, list_elem_of_filter in He as [He _].
  - by rewrite Hp.
  - dlia.
  - apply orb_false_iff. split; [apply Z.eqb_neq; lia|]. apply Z.ltb_ge.
    unfold wrap. rewrite (Z.mod_small (sz map + 1)) by dlia. rewrite Z.mod_small by dlia. done.
  - exists bs'. split_and!; [done..|]. intros k. apply Hi.
    pose proof (hash_bits_range (hash_fn k) bits ltac:(lia)). lia.
Qed.

Lemma grow_spec map calloc :
  wf map → hashmap_needs_to_grow map = true →
  (hashmap_grow hash_fn map calloc = Some (- ENOMEM, map) ∧ (calloc = false ∨ 2 ^ 59 ≤ sz map)) ∨
  (∃ map', hashmap_grow hash_fn map calloc = Some (0, map') ∧ grown map map').
Proof.
  intros Hwf Hg. destruct (grow_cap map Hwf) as (E1 & Hb & E2 & Hl & Hsz).
  unfold hashmap_grow. rewrite E1, E2. set (bits := Z.max 2 (cap_bits map + 1)) in *.
  unfold calloc_ok. destruct (Z.ltb_spec (2 ^ bits * 8) (2 ^ 64)) as [Hlt|Hge]; simpl.
  - destruct calloc; [|by left; auto]. right. simpl.
    assert (bits ≤ 60).
    { assert (bits ≠ 61); [|lia]. intros E. rewrite E in Hlt. lia. }
    destruct (rehash_spec (for_each_entry map) bits (replicate (Z.to_nat (2 ^ bits)) []))
      as (bs' & -> & Hlen & Hp & Hi); [lia|rewrite length_replicate; lia|].
    rewrite length_replicate in Hlen. rewrite concat_replicate_nil, (right_id_L [] (++)) in Hp.
    eexists. split; [done|]. apply grown_intro; try done; [lia..|].
    intros i Hlt'. rewrite (Hi i []); [by rewrite (right_id_L [] (++))|].
    apply lookup_replicate_2. lia.
  - left. split; [done|]. right. assert (2 ^ 61 ≤ 2 ^ bits) as H61 by lia.
    apply Z.pow_le_mono_r_iff in H61; [|lia..].
    unfold wf, load_ok, hashmap_needs_to_grow in *. destruct (buckets map) as [bs|]; [|lia].
    destruct Hwf as (? & Hcap & _ & _ & _ & Hload).
    replace (cap_bits map) with 60 in Hcap by lia. rewrite Hcap in *.
    apply orb_prop in Hg as [Hg|Hg%Z.ltb_lt]; [done|].
    assert (0 ≤ sz map) by lia. unfold wrap in Hg.
    rewrite (Z.mod_small (sz map + 1)) in Hg by dlia. rewrite Z.mod_small in Hg by dlia. dlia.
Qed.
End invariant.

(** The invariant depends on the hashes of the entries alone. *)
Lemma wf_ext h1 h2 map :
  (∀ e, e ∈ for_each_entry map → h1 (key e) = h2 (key e)) → wf h1 map → wf h2 map.
Proof.
  unfold wf, for_each_entry. destruct (buckets map) as [bs|]; [|done].
  intros Hh (? & ? & ? & Hp & ?). split_and!; try tauto.
  intros i chain e Hi He. rewrite <- Hh; [by eapply Hp|].
  by eapply elem_of_chain.
Qed.

(** ** The abstract map

    [repr es g]: the entries [es], one per class, form the finite map [g] from
    classes to entries.  The order of [es] does not matter. *)

Section abstract.
Context {K : Type} `{Countable K} (class : Z → K).
Implicit Types (es : list hashmap_entry.t) (g : gmap K hashmap_entry.t).

Definition cls (e : hashmap_entry.t) : K := class (key e).
Definition repr es g : Prop :=
  NoDup (cls <$> es) ∧ g = list_to_map ((λ e, (cls e, e)) <$> es).

Lemma fst_classes es : ((λ e, (cls e, e)) <$> es).*1 = cls <$> es.
Proof. rewrite <- list_fmap_compose. done. Qed.

#[export] Instance repr_perm : Proper ((≡ₚ) ==> (=) ==> iff) repr.
Proof.
  assert (∀ es1 es2 g, es1 ≡ₚ es2 → repr es1 g → repr es2 g) as Himp.
  { intros es1 es2 g Hp [Hn ->]. split; [by rewrite <- Hp|].
    apply list_to_map_proper; [by rewrite fst_classes|by rewrite Hp]. }
  intros es1 es2 Hp g ? <-. split; by apply Himp.
Qed.

Lemma repr_elem es g e : repr es g → e ∈ es → g !! cls e = Some e.
Proof.
  intros [Hn ->] He. apply elem_of_list_to_map_1; [by rewrite fst_classes|].
  apply list_elem_of_fmap. by exists e.
Qed.

Lemma repr_none es g c : repr es g → (∀ e, e ∈ es → cls e ≠ c) → g !! c = None.
Proof.
  intros [_ ->] Hne. apply not_elem_of_list_to_map_1. rewrite fst_classes, list_elem_of_fmap.
  intros (e & -> & He). by apply (Hne e).
Qed.

Lemma repr_insert es g e : repr es g → g !! cls e = None → repr (e :: es) (<[cls e := e]> g).
Proof.
  intros [Hn ->] Hg. split; [|done]. rewrite fmap_cons. apply NoDup_cons. split; [|done].
  apply not_elem_of_list_to_map_2 in Hg. by rewrite fst_classes in Hg.
Qed.

Lemma repr_delete es g e : repr (e :: es) g → repr es (delete (cls e) g).
Proof.
  unfold repr. rewrite !fmap_cons.
  intros [[Hn Hd]%NoDup_cons ->]. split; [done|]. simpl.
  rewrite delete_insert_id; [done|]. apply not_elem_of_list_to_map_1. by rewrite fst_classes.
Qed.

Lemma repr_replace es g e e' :
  repr (e :: es) g → cls e' = cls e → repr (e' :: es) (<[cls e := e']> g).
Proof.
  intros Hr E. rewrite <- insert_delete_eq, <- E. apply repr_insert.
  - rewrite E. by apply repr_delete.
  - by rewrite E, lookup_delete_eq.
Qed.

Lemma repr_size es g : repr es g → size g = length es.
Proof.
  intros [Hn ->]. rewrite map_size_list_to_map; [by rewrite length_fmap|by rewrite fst_classes].
Qed.
End abstract.

Lemma repr_ext {K : Type} `{Countable K} (c1 c2 : Z → K) es g :
  (∀ e, e ∈ es → c1 (key e) = c2 (key e)) → repr c1 es g → repr c2 es g.
Proof.
  intros Hc [Hn ->]. unfold repr, cls in *. split.
  - erewrite list_fmap_ext; [exact Hn|]. intros i e ?%list_elem_of_lookup_2. symmetry. by apply Hc.
  - f_equal. apply list_fmap_ext. intros i e ?%list_elem_of_lookup_2. by rewrite Hc.
Qed.

(** ** One chain replaced *)

Lemma insert_Permutation {A} (l : list A) i x y :
  l !! i = Some y → <[i := x]> l ≡ₚ x :: delete i l.
Proof.
  intros Hl. pose proof (lookup_lt_Some _ _ _ Hl).
  rewrite insert_take_drop, delete_take_drop by done. symmetry. apply Permutation_middle.
Qed.

Lemma alter_insert {A} (f : A → A) (l : list A) i x :
  l !! i = Some x → alter f i l = <[i := f x]> l.
Proof.
  intros. rewrite list_insert_alter. apply list_alter_ext; [|done]. intros. by simplify_eq.
Qed.

Lemma with_chain_spec hash_fn map k bs chain f size :
  let h := hash_bits (hash_fn k) (cap_bits map) in
  wf hash_fn map → buckets map = Some bs → bs !! Z.to_nat h = Some chain →
  (∀ e, e ∈ f chain → hash_fn (key e) = hash_fn k ∨ e ∈ chain) →
  size = sz map - length chain + length (f chain) → load_ok size (cap map) →
  wf hash_fn (with_chain map h f size) ∧
  ∃ rest, for_each_entry map ≡ₚ chain ++ rest ∧
    for_each_entry (with_chain map h f size) ≡ₚ f chain ++ rest.
Proof.
  intros h Hwf Hbs Hc Hf Hsize Hload.
  destruct (concat_chain bs _ _ Hc) as (rest & E & E').
  pose proof (alter_insert f _ _ _ Hc) as Ha.
  unfold wf, with_chain, for_each_entry in *. rewrite Hbs in *. simpl. rewrite Ha.
  split; [|by exists rest].
  destruct Hwf as (Hb & Hcap & Hlen & Hp & Hsz & _). split_and!; try first [done | lia].
  - by rewrite length_insert.
  - intros i c e Hi He. destruct (decide (i = Z.to_nat h)) as [->|Hne].
    + rewrite list_lookup_insert_eq in Hi by (by eapply lookup_lt_Some). simplify_eq.
      destruct (Hf e He) as [Hh|Hin]; [by rewrite Hh|by eapply Hp].
    + rewrite list_lookup_insert_ne in Hi by done. by eapply Hp.
  - apply Permutation_length in E. rewrite (Permutation_length (E' _)), length_app.
    rewrite length_app in E. lia.
Qed.

(** ** Operations on a map and on the abstract map *)

Inductive op :=
  | Insert (k v : Z) (strategy : hashmap_insert_strategy) (calloc malloc : bool)
  | Find (k : Z)
  | Delete (k : Z)
  | Size
  | Clear.

Inductive result :=
  | RInsert (r : insert_result)
  | RFind (v : option Z)
  | RDelete (kv : option (Z * Z))
  | RSize (n : Z)
  | RClear.

Section run.
Context (hash_fn : Z → Z) (equal_fn : Z → Z → bool).

Definition do_op (o : op) (map : hashmap.t) : option (result * hashmap.t) :=
  match o with
  | Insert k v strategy calloc malloc =>
      '(r, map) ← hashmap_insert hash_fn equal_fn map k v strategy calloc malloc; Some (RInsert r, map)
  | Find k => r ← hashmap_find hash_fn equal_fn map k; Some (RFind r, map)
  | Delete k => '(r, map) ← hashmap_delete hash_fn equal_fn map k; Some (RDelete r, map)
  | Size => Some (RSize (hashmap__size map), map)
  | Clear => Some (RClear, (hashmap__clear map).2)
  end.

Fixpoint run (ops : list op) (map : hashmap.t) : option (list result * hashmap.t) :=
  match ops with
  | [] => Some ([], map)
  | o :: ops =>
      '(r, map) ← do_op o map; '(rs, map) ← run ops map; Some (r :: rs, map)
  end.
End run.

Section spec.
Context {K : Type} `{Countable K} (class : Z → K).
Implicit Types g : gmap K hashmap_entry.t.

(** [Insert] with memory at hand: a present key is kept or replaced, an absent
    one added or refused, as the strategy says. *)
Definition spec_insert g (k v : Z) (strategy : hashmap_insert_strategy)
    : insert_result * gmap K hashmap_entry.t :=
  let g' := <[class k := hashmap_entry.mk k v]> g in
  match g !! class k with
  | Some e =>
      if decide (strategy = HASHMAP_ADD) then (mk_insert_result (- EEXIST) (key e) (value e), g)
      else (mk_insert_result 0 (key e) (value e), g')
  | None =>
      if decide (strategy = HASHMAP_UPDATE) then (mk_insert_result (- ENOENT) 0 0, g)
      else (mk_insert_result 0 0 0, g')
  end.

(** An insertion may be refused for lack of memory only when it adds an entry and
    an allocation failed or the map has 2^59 entries. *)
Inductive spec_op g : op → result → gmap K hashmap_entry.t → Prop :=
  | spec_insert_done k v strategy calloc malloc :
      spec_op g (Insert k v strategy calloc malloc)
        (RInsert (spec_insert g k v strategy).1) (spec_insert g k v strategy).2
  | spec_insert_nomem k v strategy calloc malloc :
      (spec_insert g k v strategy).1 = mk_insert_result 0 0 0 → g !! class k = None →
      calloc = false ∨ malloc = false ∨ 2 ^ 59 ≤ size g →
      spec_op g (Insert k v strategy calloc malloc) (RInsert (mk_insert_result (- ENOMEM) 0 0)) g
  | spec_find k : spec_op g (Find k) (RFind (value <$> g !! class k)) g
  | spec_delete k :
      spec_op g (Delete k) (RDelete ((λ e, (key e, value e)) <$> g !! class k)) (delete (class k) g)
  | spec_size : spec_op g Size (RSize (size g)) g
  | spec_clear : spec_op g Clear RClear ∅.

Inductive spec_run : gmap K hashmap_entry.t → list op → list result → gmap K hashmap_entry.t → Prop :=
  | spec_nil g : spec_run g [] [] g
  | spec_cons g o r g1 ops rs g2 :
      spec_op g o r g1 → spec_run g1 ops rs g2 → spec_run g (o :: ops) (r :: rs) g2.
End spec.

Definition no_append (o : op) : Prop :=
  match o with Insert _ _ strategy _ _ => strategy ≠ HASHMAP_APPEND | _ => True end.

(** ** The map refines the abstract map *)

Section refinement.
Context {K : Type} `{Countable K} (hash_fn : Z → Z) (equal_fn : Z → Z → bool) (class : Z → K).
Context {KeyClass0 : KeyClass hash_fn equal_fn class}.
Implicit Types (map : hashmap.t) (g : gmap K hashmap_entry.t).

Abbreviation bucket map k := (hash_bits (hash_fn k) (cap_bits map)).

Definition models map g : Prop := wf hash_fn map ∧ repr class (for_each_entry map) g.

Lemma equal_cls e k : equal_fn (key e) k = true ↔ cls class e = class k.
Proof. exact (equal_class (KeyClass := KeyClass0) (key e) k). Qed.

Lemma hash_cls e k : cls class e = class k → hash_fn (key e) = hash_fn k.
Proof. exact (hash_class (KeyClass := KeyClass0) (key e) k). Qed.

Lemma find_entry_spec map k :
  wf hash_fn map → ∃ r, hashmap_find_entry equal_fn map k (bucket map k) = Some r ∧
    match r with
    | None => ∀ e, e ∈ for_each_entry map → cls class e ≠ class k
    | Some (i, e) => ∃ bs chain, buckets map = Some bs ∧
        bs !! Z.to_nat (bucket map k) = Some chain ∧ chain !! i = Some e ∧ cls class e = class k
    end.
Proof.
  intros Hwf. unfold hashmap_find_entry, for_each_entry, wf in *.
  destruct (buckets map) as [bs|] eqn:Hbs; [|exists None; split; [done|set_solver]].
  destruct Hwf as (Hb & Hcap & Hlen & Hp & _).
  destruct (chain_in_array hash_fn (cap_bits map) bs k) as [chain Hc]; [lia..|].
  rewrite Hc. eexists. split; [done|].
  destruct (list_find _ chain) as [[i e]|] eqn:Hf.
  - apply list_find_Some in Hf as (Hi & He & _). exists bs, chain. split_and!; try done.
    by apply equal_cls.
  - intros e He Hcl. rewrite list_find_None_iff in Hf. apply (Hf e).
    + eapply placed_elem; try done. by apply hash_cls.
    + by apply equal_cls.
Qed.

(** What a lookup finds is what the abstract map holds. *)
Lemma find_entry_models map g k :
  models map g → ∃ r, hashmap_find_entry equal_fn map k (bucket map k) = Some r ∧
    g !! class k = snd <$> r ∧
    ∀ i e, r = Some (i, e) → ∃ bs chain, buckets map = Some bs ∧
        bs !! Z.to_nat (bucket map k) = Some chain ∧ chain !! i = Some e ∧ cls class e = class k.
Proof.
  intros [Hwf Hr]. destruct (find_entry_spec map k Hwf) as (r & Hf & Hm).
  exists r. split; [done|]. destruct r as [[i e]|]; simpl.
  - split; [|by intros ?? [= <- <-]]. destruct Hm as (bs & chain & Hbs & Hc & Hi & <-).
    apply (repr_elem _ _ _ _ Hr). unfold for_each_entry. rewrite Hbs.
    eapply elem_of_chain; [done|]. by eapply list_elem_of_lookup_2.
  - split; [|done]. by eapply repr_none.
Qed.

Lemma models_grown map map' g : models map g → grown hash_fn map map' → models map' g.
Proof.
  intros [_ Hr] (Hwf & _ & _ & bs' & Hbs & Hp & _). split; [done|].
  unfold for_each_entry at 1. by rewrite Hbs, Hp.
Qed.

Lemma models_size map g : models map g → sz map = size g.
Proof.
  intros [Hwf Hr]. rewrite (repr_size _ _ _ Hr). unfold wf, for_each_entry in *.
  destruct (buckets map); [tauto|]. by destruct Hwf as (_ & _ & ->).
Qed.

Lemma sz_small map : wf hash_fn map → 0 ≤ sz map ≤ 2 ^ 60.
Proof.
  unfold wf, load_ok. destruct (buckets map); [|lia].
  intros (Hb & Hcap & _ & _ & Hsz & Hl).
  assert (2 ^ cap_bits map ≤ 2 ^ 60) by (apply Z.pow_le_mono_r; lia). dlia.
Qed.

(** Adding an entry at the head of its chain. *)
Lemma insert_new_chain map k v malloc :
  wf hash_fn map → hashmap_needs_to_grow map = false →
  insert_new hash_fn map k v malloc =
    Some (if malloc
          then (mk_insert_result 0 0 0,
                with_chain map (bucket map k) (cons (hashmap_entry.mk k v)) (sz map + 1))
          else (mk_insert_result (- ENOMEM) 0 0, map)) ∧
  wf hash_fn (with_chain map (bucket map k) (cons (hashmap_entry.mk k v)) (sz map + 1)) ∧
  for_each_entry (with_chain map (bucket map k) (cons (hashmap_entry.mk k v)) (sz map + 1)) ≡ₚ
    hashmap_entry.mk k v :: for_each_entry map.
Proof.
  intros Hwf Hg. destruct (needs_to_grow_false _ _ Hwf Hg) as [[bs Hbs] Hload].
  pose proof (sz_small map Hwf) as Hsz.
  assert (∃ chain, bs !! Z.to_nat (bucket map k) = Some chain) as [chain Hc].
  { unfold wf in Hwf. rewrite Hbs in Hwf. apply chain_in_array; lia. }
  destruct (with_chain_spec hash_fn map k bs chain (cons (hashmap_entry.mk k v)) (sz map + 1))
    as (Hwf' & rest & E & E'); try done.
  { intros e [->|?]%elem_of_cons; [by left|by right]. }
  { simpl length. lia. }
  rewrite E', E. split; [|done].
  unfold insert_new, hashmap_add_entry, with_chain. rewrite Hbs, Hc. destruct malloc; [|done]. simpl.
  rewrite (wrap_small 64) by (unfold is_word; lia).
  do 4 f_equal. symmetry. by apply alter_insert.
Qed.

Lemma models_insert_new map g k v malloc :
  models map g → hashmap_needs_to_grow map = false → g !! class k = None →
  ∃ r map', insert_new hash_fn map k v malloc = Some (r, map') ∧
    if malloc then r = mk_insert_result 0 0 0 ∧ models map' (<[class k := hashmap_entry.mk k v]> g)
    else r = mk_insert_result (- ENOMEM) 0 0 ∧ models map' g.
Proof.
  intros [Hwf Hr] Hg Hk. destruct (insert_new_chain map k v malloc Hwf Hg) as (-> & Hwf' & E).
  destruct malloc; do 2 eexists; (split; [done|]); (split; [done|]); [|done].
  split; [done|]. rewrite E. by apply (repr_insert class _ _ (hashmap_entry.mk k v)).
Qed.

(** Replacing and deleting the entry found. *)
Lemma models_replace map g k v bs chain i e :
  models map g → buckets map = Some bs → bs !! Z.to_nat (bucket map k) = Some chain →
  chain !! i = Some e → cls class e = class k →
  models (with_chain map (bucket map k) <[i := hashmap_entry.mk k v]> (sz map))
         (<[class k := hashmap_entry.mk k v]> g).
Proof.
  intros [Hwf Hr] Hbs Hc Hi Hcls.
  destruct (with_chain_spec hash_fn map k bs chain <[i := hashmap_entry.mk k v]> (sz map))
    as (Hwf' & rest & E & E'); try done.
  { intros e'. rewrite (insert_Permutation _ _ _ _ Hi). intros [->|?]%elem_of_cons; [by left|].
    right. rewrite (delete_Permutation _ _ _ Hi). by right. }
  { rewrite length_insert. lia. }
  { unfold wf in Hwf. rewrite Hbs in Hwf. tauto. }
  split; [done|]. rewrite E', (insert_Permutation _ _ _ _ Hi). simpl.
  rewrite E, (delete_Permutation _ _ _ Hi) in Hr. rewrite <- Hcls. by apply repr_replace.
Qed.

Lemma models_delete map g k bs chain i e :
  models map g → buckets map = Some bs → bs !! Z.to_nat (bucket map k) = Some chain →
  chain !! i = Some e → cls class e = class k →
  models (with_chain map (bucket map k) (delete i) (u64 (sz map - 1))) (delete (class k) g).
Proof.
  intros [Hwf Hr] Hbs Hc Hi Hcls.
  assert (sz map = length (for_each_entry map) ∧ load_ok (sz map) (cap map)) as [Hsz Hload].
  { unfold wf, for_each_entry in *. rewrite Hbs in *. tauto. }
  pose proof (sz_small map Hwf). pose proof (delete_Permutation _ _ _ Hi) as Hd.
  pose proof (Permutation_length Hd) as Hlen. simpl in Hlen.
  destruct (with_chain_spec hash_fn map k bs chain (delete i) (sz map - 1))
    as (Hwf' & rest & E & E'); try done.
  { intros e' ?. right. rewrite Hd. by right. }
  { lia. }
  { unfold load_ok in *. dlia. }
  apply Permutation_length in E as Hlen'. rewrite length_app in Hlen'.
  rewrite (wrap_small 64) by (unfold is_word; lia).
  split; [done|]. rewrite E'. rewrite E, Hd in Hr. rewrite <- Hcls. by apply repr_delete.
Qed.

Lemma insert_refines map g k v strategy calloc malloc :
  models map g → strategy ≠ HASHMAP_APPEND →
  ∃ r map' g', hashmap_insert hash_fn equal_fn map k v strategy calloc malloc = Some (r, map') ∧
    models map' g' ∧ spec_op class g (Insert k v strategy calloc malloc) (RInsert r) g'.
Proof.
  intros Hm Hs. destruct (find_entry_models map g k Hm) as (r & Hf & Hg & Hr).
  pose proof (spec_insert_done class g k v strategy calloc malloc) as Hspec.
  unfold hashmap_insert. rewrite decide_False, Hf by done. unfold spec_insert in Hspec.
  rewrite Hg in Hspec. destruct r as [[i e]|]; simpl in Hspec.
  - destruct (Hr i e eq_refl) as (bs & chain & Hbs & Hc & Hi & Hcls).
    case_decide; do 3 eexists; (split; [done|]); (split; [|exact Hspec]); [done|].
    by eapply models_replace.
  - case_decide; [by do 3 eexists; split_and!; [done|done|exact Hspec]|]. simpl in *.
    assert (∀ map', models map' g → hashmap_needs_to_grow map' = false →
      ∃ r map'' g', insert_new hash_fn map' k v malloc = Some (r, map'') ∧ models map'' g' ∧
        spec_op class g (Insert k v strategy calloc malloc) (RInsert r) g') as Hnew.
    { intros map' Hm' Hn. destruct (models_insert_new map' g k v malloc Hm' Hn Hg) as (r & map'' & -> & Hi).
      destruct malloc; destruct Hi as [-> Hi]; do 3 eexists; (split_and!; [done|exact Hi|]); [exact Hspec|].
      apply spec_insert_nomem; [|done|by auto]. unfold spec_insert. by rewrite Hg, decide_False. }
    destruct (hashmap_needs_to_grow map) eqn:Hn; [|by apply Hnew].
    destruct (grow_spec hash_fn map calloc (proj1 Hm) Hn) as [[-> Hno]|(map' & -> & Hgr)]; simpl.
    + do 3 eexists. split_and!; [done|done|]. apply spec_insert_nomem; [|done|].
      * unfold spec_insert. by rewrite Hg, decide_False.
      * rewrite <- (models_size _ _ Hm). tauto.
    + apply Hnew; [by eapply models_grown|]. by destruct Hgr as (_ & ? & _).
Qed.

(** Appending a key that is not there adds it. *)
Lemma append_refines map g k v calloc malloc :
  models map g → g !! class k = None →
  ∃ r map', hashmap_insert hash_fn equal_fn map k v HASHMAP_APPEND calloc malloc = Some (r, map') ∧
    (ret r = 0 ∧ models map' (<[class k := hashmap_entry.mk k v]> g) ∨
     ret r = - ENOMEM ∧ models map' g ∧ (calloc = false ∨ malloc = false ∨ 2 ^ 59 ≤ size g)).
Proof.
  intros Hm Hk. unfold hashmap_insert. rewrite decide_True, decide_False by done.
  assert (∀ map', models map' g → hashmap_needs_to_grow map' = false →
    ∃ r map'', insert_new hash_fn map' k v malloc = Some (r, map'') ∧
      (ret r = 0 ∧ models map'' (<[class k := hashmap_entry.mk k v]> g) ∨
       ret r = - ENOMEM ∧ models map'' g ∧ (calloc = false ∨ malloc = false ∨ 2 ^ 59 ≤ size g))) as Hnew.
  { intros map' Hm' Hn. destruct (models_insert_new map' g k v malloc Hm' Hn Hk) as (r & map'' & -> & Hi).
    do 2 eexists. split; [done|]. destruct malloc; destruct Hi as [-> Hi]; [by left|right; by auto]. }
  destruct (hashmap_needs_to_grow map) eqn:Hn; [|by apply Hnew].
  destruct (grow_spec hash_fn map calloc (proj1 Hm) Hn) as [[-> Hno]|(map' & -> & Hgr)]; simpl.
  - do 2 eexists. split; [done|]. right. split; [done|]. split; [done|]. rewrite <- (models_size _ _ Hm). tauto.
  - apply Hnew; [by eapply models_grown|]. by destruct Hgr as (_ & ? & _).
Qed.

(** Every operation of a map without appended duplicates runs and does what the
    abstract map says. *)
Lemma do_op_refines map g o :
  models map g → no_append o →
  ∃ r map' g', do_op hash_fn equal_fn o map = Some (r, map') ∧ models map' g' ∧ spec_op class g o r g'.
Proof.
  intros Hm Ho. destruct o as [k v strategy calloc malloc|k|k| |]; simpl.
  - destruct (insert_refines map g k v strategy calloc malloc Hm Ho) as (r & map' & g' & -> & ? & ?).
    simpl. eauto 6.
  - unfold hashmap_find. destruct (find_entry_models map g k Hm) as (r & -> & Hg & _).
    pose proof (spec_find class g k) as Hspec. rewrite Hg in Hspec.
    destruct r as [[i e]|]; simpl in *; do 3 eexists; split_and!; done.
  - unfold hashmap_delete. destruct (find_entry_models map g k Hm) as (r & -> & Hg & Hr).
    pose proof (spec_delete class g k) as Hspec. rewrite Hg in Hspec.
    destruct r as [[i e]|]; simpl in *; do 3 eexists; (split_and!; [done| |exact Hspec]).
    + destruct (Hr i e eq_refl) as (bs & chain & ? & ? & ? & ?). by eapply models_delete.
    + by rewrite delete_id.
  - do 3 eexists. split_and!; [done|done|]. unfold hashmap__size. rewrite (models_size _ _ Hm). constructor.
  - do 3 eexists. split_and!; [done| |constructor]. split; [apply wf_init|]. split; [constructor|done].
Qed.

Lemma run_refines ops map g :
  models map g → Forall no_append ops →
  ∃ rs map' g', run hash_fn equal_fn ops map = Some (rs, map') ∧ models map' g' ∧
    spec_run class g ops rs g'.
Proof.
  intros Hm Hops. revert map g Hm. induction Hops as [|o ops Ho _ IH]; intros map g Hm; simpl.
  - do 3 eexists. split_and!; [done|done|constructor].
  - destruct (do_op_refines map g o Hm Ho) as (r & map1 & g1 & -> & Hm1 & Hs1). simpl.
    destruct (IH map1 g1 Hm1) as (rs & map2 & g2 & -> & Hm2 & Hs2). simpl.
    do 3 eexists. split_and!; [done|done|by econstructor].
Qed.
End refinement.

(** ** Several entries per key *)

Lemma filter_concat_none {A} (P : A → Prop) `{∀ x, Decision (P x)} (cs : list (list A)) :
  (∀ i c x, cs !! i = Some c → x ∈ c → ¬ P x) → filter P (concat cs) = [].
Proof.
  intros Hn. destruct (filter P (concat cs)) as [|x l] eqn:E; [done|].
  assert (x ∈ filter P (concat cs)) as [Hx Hin]%list_elem_of_filter by (rewrite E; by left).
  apply list_elem_of_In, in_concat in Hin as (c & Hc & Hxc).
  apply list_elem_of_In in Hxc. apply list_elem_of_In, list_elem_of_lookup in Hc as [i Hi].
  by destruct (Hn i c x).
Qed.

Section multimap.
Context {K : Type} `{Countable K} (hash_fn : Z → Z) (equal_fn : Z → Z → bool) (class : Z → K).
Context {KeyClass0 : KeyClass hash_fn equal_fn class}.
Implicit Types map : hashmap.t.

Abbreviation entries_of := (for_each_key_entry hash_fn equal_fn).

Lemma find_first map k :
  wf hash_fn map → hashmap_find hash_fn equal_fn map k = Some (value <$> head (entries_of map k)).
Proof.
  intros Hwf. unfold hashmap_find, hashmap_find_entry, for_each_key_entry, wf in *.
  destruct (buckets map) as [bs|]; [|done]. destruct Hwf as (Hb & Hcap & Hlen & _).
  destruct (chain_in_array hash_fn (cap_bits map) bs k) as [chain ->]; [lia..|]. simpl.
  induction chain as [|e chain IH]; [done|]. simpl. rewrite filter_cons.
  destruct (decide _); [done|]. rewrite <- IH. by destruct (list_find _ chain) as [[]|].
Qed.

(** The entries of a key are those of its chain alone. *)
Lemma filter_entries map k bs :
  wf hash_fn map → buckets map = Some bs →
  filter (λ e, equal_fn (key e) k = true) (concat bs) = entries_of map k.
Proof.
  intros Hwf Hbs. unfold for_each_key_entry, wf in *. rewrite Hbs in *.
  destruct Hwf as (Hb & Hcap & Hlen & Hp & _).
  destruct (chain_in_array hash_fn (cap_bits map) bs k) as [chain Hc]; [lia..|].
  rewrite Hc. simpl. set (h := Z.to_nat _) in *.
  assert (∀ i c e, bs !! i = Some c → e ∈ c → equal_fn (key e) k = true → i = h) as Hh.
  { intros i c e Hi He Heq. rewrite <- (Hp _ _ _ Hi He). subst h. do 2 f_equal.
    by apply (hash_cls hash_fn equal_fn class), (equal_cls hash_fn equal_fn class). }
  rewrite <- (take_drop_middle bs h chain Hc), concat_app. simpl. rewrite !filter_app.
  rewrite !filter_concat_none, (right_id_L [] (++)); [done|..]; intros i c e Hi He Heq.
  - rewrite lookup_drop in Hi. pose proof (Hh _ _ _ Hi He Heq). lia.
  - pose proof (lookup_lt_Some _ _ _ Hi) as Hlt. rewrite length_take in Hlt.
    rewrite lookup_take_lt in Hi by lia. pose proof (Hh _ _ _ Hi He Heq). lia.
Qed.

(** Growing the map turns the order of the entries of every key round. *)
Lemma grown_reverses map map' k :
  wf hash_fn map → grown hash_fn map map' → entries_of map' k = reverse (entries_of map k).
Proof.
  intros Hwf (_ & _ & _ & bs' & Hbs' & _ & Hc). unfold for_each_key_entry at 1.
  rewrite Hbs', Hc. simpl. rewrite filter_reverse. f_equal.
  rewrite list_filter_filter_l.
  - unfold for_each_entry. destruct (buckets map) as [bs|] eqn:Hbs; [by apply filter_entries|].
    unfold for_each_key_entry. by rewrite Hbs.
  - intros e Heq%(equal_cls hash_fn equal_fn class). do 2 f_equal.
    by apply (hash_cls hash_fn equal_fn class).
Qed.

Lemma append_chain map k v k' :
  wf hash_fn map → is_Some (buckets map) →
  entries_of (with_chain map (hash_bits (hash_fn k) (cap_bits map)) (cons (hashmap_entry.mk k v)) (sz map + 1)) k'
  = (if decide (class k = class k') then [hashmap_entry.mk k v] else []) ++ entries_of map k'.
Proof.
  intros Hwf [bs Hbs]. unfold for_each_key_entry, with_chain. rewrite Hbs. simpl.
  unfold wf in Hwf. rewrite Hbs in Hwf. destruct Hwf as (Hb & Hcap & Hlen & _).
  rewrite list_lookup_alter.
  destruct (chain_in_array hash_fn (cap_bits map) bs k) as [chain Hc]; [lia..|].
  destruct (chain_in_array hash_fn (cap_bits map) bs k') as [chain' Hc']; [lia..|].
  case_decide as Hh; case_decide as Hcl.
  - rewrite <- Hh in *. rewrite Hc. simpl. rewrite filter_cons_True; [done|].
    by apply (equal_class (KeyClass := KeyClass0)).
  - rewrite <- Hh in *. rewrite Hc. simpl. rewrite filter_cons_False; [done|].
    by intros ?%(equal_class (KeyClass := KeyClass0)).
  - apply (hash_class (KeyClass := KeyClass0)) in Hcl. by rewrite Hcl in Hh.
  - done.
Qed.
End multimap.

(** ** The claims *)

(** C16: Take call-backs that compare keys by a class and hash equal keys alike.
    Then any sequence of insertions that add, set or update, lookups, deletions,
    size queries and clearings of a new map runs without indexing outside the
    array, and returns what a finite map from classes to entries returns: an
    insertion that adds may fail with [-ENOMEM], leaving the map as it was, but
    only when an allocation failed or 2^59 entries are held.  At the end the
    array holds exactly the entries of the finite map, each in the chain of its
    hash, is at most three quarters full, and [sz] counts them. *)
Theorem hashmap_refines {K : Type} `{Countable K} (hash_fn : Z → Z) (equal_fn : Z → Z → bool)
    (class : Z → K) (Hkeys : KeyClass hash_fn equal_fn class) (ops : list op)
    (Hops : Forall no_append ops) :
  ∃ rs map g, run hash_fn equal_fn ops hashmap__init = Some (rs, map) ∧
    spec_run class ∅ ops rs g ∧ wf hash_fn map ∧ repr class (for_each_entry map) g.
Proof.
  destruct (run_refines hash_fn equal_fn class ops hashmap__init ∅) as (rs & map & g & Hr & [? ?] & Hs);
    [|done|by exists rs, map, g].
  split; [apply wf_init|]. split; [constructor|done].
Qed.

(** Integer keys, as most users of the map have them. *)
Definition int_hash (k : Z) : Z := u64 k.

#[export] Instance int_keys : KeyClass int_hash Z.eqb (λ k, k).
Proof. split; [apply Z.eqb_eq|by intros ?? ->]. Qed.

Definition sample_ops : list op :=
  [Insert 1 10 HASHMAP_ADD true true; Insert 2 20 HASHMAP_ADD true true;
   Insert 1 11 HASHMAP_ADD true true; Insert 2 21 HASHMAP_SET true true;
   Insert 3 30 HASHMAP_UPDATE true true; Insert 3 30 HASHMAP_SET true true;
   Insert 4 40 HASHMAP_ADD false true; Insert 5 50 HASHMAP_ADD true true;
   Find 2; Delete 1; Find 1; Size; Clear; Size].

Lemma hashmap_refines_witness :
  Forall no_append sample_ops ∧
  (∃ map, run int_hash Z.eqb sample_ops hashmap__init =
    Some ([RInsert (mk_insert_result 0 0 0); RInsert (mk_insert_result 0 0 0);
           RInsert (mk_insert_result (-17) 1 10); RInsert (mk_insert_result 0 2 20);
           RInsert (mk_insert_result (-2) 0 0); RInsert (mk_insert_result 0 0 0);
           RInsert (mk_insert_result (-12) 0 0); RInsert (mk_insert_result 0 0 0);
           RFind (Some 21); RDelete (Some (1, 10)); RFind None; RSize 3; RClear; RSize 0], map)) ∧
  ∃ rs map g, run int_hash Z.eqb sample_ops hashmap__init = Some (rs, map) ∧
    spec_run (λ k, k) ∅ sample_ops rs g ∧ wf int_hash map ∧ repr (λ k, k) (for_each_entry map) g.
Proof.
  assert (Forall no_append sample_ops) as Hops by (repeat constructor; done).
  split; [exact Hops|]. split; [eexists; vm_compute; reflexivity|].
  exact (hashmap_refines int_hash Z.eqb (λ k, k) int_keys sample_ops Hops).
Defined.

(** Appending to a map whose memory suffices always succeeds and puts the
    new entry first among those of its key, so that a lookup gives its value.
    The entries every key already had keep their order when the array has room,
    and are turned round when the array grows; a lookup after such an insertion
    under another key therefore gives the entry that was appended first. *)
Theorem append_order {K : Type} `{Countable K} (hash_fn : Z → Z) (equal_fn : Z → Z → bool)
    (class : Z → K) (Hkeys : KeyClass hash_fn equal_fn class) (map : hashmap.t) (k v : Z)
    (Hwf : wf hash_fn map) (Hsz : sz map < 2 ^ 59) :
  ∃ map', hashmap_insert hash_fn equal_fn map k v HASHMAP_APPEND true true =
            Some (mk_insert_result 0 0 0, map') ∧
    wf hash_fn map' ∧
    (∀ k', for_each_key_entry hash_fn equal_fn map' k' =
      (if decide (class k = class k') then [hashmap_entry.mk k v] else []) ++
      (if hashmap_needs_to_grow map then reverse (for_each_key_entry hash_fn equal_fn map k')
       else for_each_key_entry hash_fn equal_fn map k')) ∧
    (∀ k', hashmap_find hash_fn equal_fn map' k' =
      Some (value <$> head (for_each_key_entry hash_fn equal_fn map' k'))) ∧
    hashmap_find hash_fn equal_fn map' k = Some (Some v).
Proof.
  unfold hashmap_insert. rewrite decide_True by done. rewrite decide_False by done.
  assert (∃ map1, wf hash_fn map1 ∧ hashmap_needs_to_grow map1 = false ∧
    (∀ k', for_each_key_entry hash_fn equal_fn map1 k' =
      if hashmap_needs_to_grow map then reverse (for_each_key_entry hash_fn equal_fn map k')
      else for_each_key_entry hash_fn equal_fn map k') ∧
    (if hashmap_needs_to_grow map then hashmap_grow hash_fn map true = Some (0, map1) else map1 = map))
    as (map1 & Hwf1 & Hg1 & He1 & Hmap1).
  { destruct (hashmap_needs_to_grow map) eqn:Hg; [|by exists map].
    destruct (grow_spec hash_fn map true Hwf Hg) as [[_ [?|?]]|(map' & Hgr & Hgrown)]; [done|lia|].
    exists map'. split_and!; try done; [apply Hgrown..|].
    intros k'. by eapply grown_reverses. }
  destruct (insert_new_chain hash_fn map1 k v true Hwf1 Hg1) as (Hins & Hwf2 & _).
  destruct (needs_to_grow_false _ _ Hwf1 Hg1) as [Hbs _].
  eexists. split; [destruct (hashmap_needs_to_grow map); rewrite Hmap1 in *; exact Hins|].
  assert (∀ k', _) as Hent by exact (λ k', append_chain hash_fn equal_fn class map1 k v k' Hwf1 Hbs).
  split_and!; [done| | |].
  - intros k'. by rewrite Hent, He1.
  - intros k'. by apply find_first.
  - rewrite find_first, Hent, decide_True by done. done.
Qed.

(** Three values appended under key 1, and a fourth entry under key 2. *)
Definition appended : hashmap.t :=
  default hashmap__init (snd <$> run int_hash Z.eqb
    [Insert 1 10 HASHMAP_APPEND true true; Insert 1 20 HASHMAP_APPEND true true;
     Insert 1 30 HASHMAP_APPEND true true] hashmap__init).

Definition appended_buckets : list (list hashmap_entry.t) :=
  [[]; []; [hashmap_entry.mk 1 30; hashmap_entry.mk 1 20; hashmap_entry.mk 1 10]; []].

Lemma appended_eq : appended = hashmap.mk (Some appended_buckets) 4 2 3.
Proof. vm_compute. reflexivity. Qed.

Lemma appended_wf : wf int_hash appended.
Proof.
  rewrite appended_eq. unfold wf. simpl.
  split_and!; try done.
  intros [|[|[|[|i]]]] chain e Hi He; simplify_eq/=; try by apply not_elem_of_nil in He.
  repeat (apply elem_of_cons in He as [->|He]; [reflexivity|]). by apply not_elem_of_nil in He.
Qed.

(** The fourth append makes the array grow: a lookup of key 1 gave the value
    appended last, 30, before it, and gives the one appended first, 10, after. *)
Lemma append_order_witness :
  hashmap_needs_to_grow appended = true ∧
  hashmap_find int_hash Z.eqb appended 1 = Some (Some 30) ∧
  (wf int_hash appended ∧ sz appended < 2 ^ 59) ∧
  ∃ map', hashmap_insert int_hash Z.eqb appended 2 40 HASHMAP_APPEND true true =
            Some (mk_insert_result 0 0 0, map') ∧
    hashmap_find int_hash Z.eqb map' 2 = Some (Some 40) ∧
    hashmap_find int_hash Z.eqb map' 1 = Some (Some 10).
Proof.
  assert (sz appended < 2 ^ 59) as Hsz by (vm_compute; reflexivity).
  split; [vm_compute; reflexivity|]. split; [vm_compute; reflexivity|].
  split; [exact (conj appended_wf Hsz)|].
  destruct (append_order int_hash Z.eqb (λ k, k) int_keys appended 2 40 appended_wf Hsz)
    as (map' & Hins & _ & Hent & Hfind & H2).
  exists map'. split; [exact Hins|]. split; [exact H2|].
  rewrite Hfind, Hent. vm_compute. reflexivity.
Defined.
