(* ===== verification/Strset.v ===== *)
(** * The string set of libbpf ([strset.c], and [libbpf_add_mem] of [btf.c])

    A string set keeps NUL-terminated strings in one growing block of memory and
    a hash map from strings to their offsets.  The block is the list of bytes
    allocated, its first [strs_data_len] bytes the strings kept.  The keys of the
    map are offsets into the block, so the call-backs of the map read the block:
    [strset_hash_fn] and [strset_equal_fn] take it as an argument, and every
    operation of the map gets them for the block as it is then.

    The results of the allocator are arguments ([memory]); a request of more than
    [PTRDIFF_MAX] bytes fails, as the C library documents. *)

From S2P Require Import Prelude Errno Hashmap.
Import hashmap_entry.

(** ** Strings in a block *)

(** The characters from an offset up to the first NUL. *)
Fixpoint until_nul (l : list Z) : list Z :=
  match l with
  | [] => []
  | c :: l => if c =? 0 then [] else c :: until_nul l
  end.

Definition str_at (data : list Z) (off : Z) : list Z := until_nul (drop (Z.to_nat off) data).

Definition strset_hash_fn (data : list Z) (key : Z) : Z := str_hash (str_at data key).
Definition strset_equal_fn (data : list Z) (key1 key2 : Z) : bool :=
  bool_decide (str_at data key1 = str_at data key2).

#[export] Instance strset_keys data :
  KeyClass (strset_hash_fn data) (strset_equal_fn data) (str_at data).
Proof.
  split.
  - intros k1 k2. apply bool_decide_eq_true.
  - unfold strset_hash_fn. by intros k1 k2 ->.
Qed.

(** [strlen]: [None] when no NUL is found in the block, a read outside it. *)
Definition strlen_at (data : list Z) (off : Z) : option Z :=
  let s := str_at data off in
  if Z.to_nat off + length s <? length data then Some (Z.of_nat (length s)) else None.

(** ** The operations *)

Module strset.
Record t := mk {
  strs_data : list Z;
  strs_data_len : Z;
  strs_data_cap : Z;
  strs_data_max_len : Z;
  strs_hash : hashmap.t
}.
End strset.
Import strset.

(** What the allocator answers during one operation. *)
Record memory := mk_memory { realloc : bool; calloc : bool; malloc : bool }.

Definition PTRDIFF_MAX : Z := 2 ^ 63 - 1.
Definition alloc_ok (n : Z) (ok : bool) : bool := (n <=? PTRDIFF_MAX) && ok.

(** [libbpf_add_mem] on an array of elements of [elem_sz] bytes:
    [libbpf_reallocarray] keeps the old elements, the new ones are set to zero.
    The result is the array and its capacity, [None] for the null pointer; [ok]
    is what the allocator answers. *)
Definition libbpf_add_mem (data : list Z) (cap_cnt elem_sz cur_cnt max_cnt add_cnt : Z) (ok : bool)
    : option (list Z * Z) :=
  if u64 (cur_cnt + add_cnt) <=? cap_cnt then Some (data, cap_cnt)
  else if max_cnt <? u64 (cur_cnt + add_cnt) then None
  else
    let new_cnt := u64 (cap_cnt + cap_cnt / 4) in
    let new_cnt := if new_cnt <? 16 then 16 else new_cnt in
    let new_cnt := if max_cnt <? new_cnt then max_cnt else new_cnt in
    let new_cnt := if new_cnt <? u64 (cur_cnt + add_cnt) then u64 (cur_cnt + add_cnt) else new_cnt in
    if alloc_ok (new_cnt * elem_sz) ok
    then Some (data ++ replicate (Z.to_nat (new_cnt - cap_cnt)) 0, new_cnt)
    else None.

Definition with_hash (set : strset.t) (h : hashmap.t) : strset.t :=
  strset.mk (strs_data set) (strs_data_len set) (strs_data_cap set) (strs_data_max_len set) h.

Definition with_data (set : strset.t) (data : list Z) (cap : Z) : strset.t :=
  strset.mk data (strs_data_len set) cap (strs_data_max_len set) (strs_hash set).

Definition with_len (set : strset.t) (len : Z) : strset.t :=
  strset.mk (strs_data set) len (strs_data_cap set) (strs_data_max_len set) (strs_hash set).

Definition strset_add_str_mem (set : strset.t) (add_sz : Z) (mem : memory) : option strset.t :=
  match libbpf_add_mem (strs_data set) (strs_data_cap set) 1 (strs_data_len set)
          (strs_data_max_len set) add_sz (realloc mem) with
  | Some (data, cap) => Some (with_data set data cap)
  | None => None
  end.

(** [memcpy(p, s, len)] to the end of the strings kept; [None] outside the block. *)
Definition memcpy_end (set : strset.t) (bs : list Z) : option strset.t :=
  if strs_data_len set + length bs <=? length (strs_data set)
  then Some (with_data set (list_inserts (Z.to_nat (strs_data_len set)) bs (strs_data set)) (strs_data_cap set))
  else None.

Definition strset__data_size (set : strset.t) : Z := strs_data_len set.
Definition strset__data (set : strset.t) : list Z := strs_data set.

(** The two operations return an [int]; the outer [option] is a fault. *)
Definition strset__find_str (set : strset.t) (s : list Z) (mem : memory) : option (Z * strset.t) :=
  let len := length s + 1 in
  match strset_add_str_mem set len mem with
  | None => Some (- ENOMEM, set)
  | Some set =>
      let new_off := strs_data_len set in
      match memcpy_end set (s ++ [0]) with
      | None => None
      | Some set =>
          match hashmap_find (strset_hash_fn (strs_data set)) (strset_equal_fn (strs_data set))
                  (strs_hash set) new_off with
          | None => None
          | Some (Some old_off) => Some (s32 old_off, set)
          | Some None => Some (- ENOENT, set)
          end
      end
  end.

Definition strset__add_str (set : strset.t) (s : list Z) (mem : memory) : option (Z * strset.t) :=
  let len := length s + 1 in
  match strset_add_str_mem set len mem with
  | None => Some (- ENOMEM, set)
  | Some set =>
      let new_off := strs_data_len set in
      match memcpy_end set (s ++ [0]) with
      | None => None
      | Some set =>
          match hashmap_insert (strset_hash_fn (strs_data set)) (strset_equal_fn (strs_data set))
                  (strs_hash set) new_off new_off HASHMAP_ADD (calloc mem) (malloc mem) with
          | None => None
          | Some (r, h) =>
              let set := with_hash set h in
              if ret r =? - EEXIST then Some (s32 (old_key r), set)
              else if negb (ret r =? 0) then Some (ret r, set)
              else Some (s32 new_off, with_len set (u64 (strs_data_len set + len)))
          end
      end
  end.

(** The loop of [strset__new] over the strings of the initial data; [mem] gives
    the allocator's answers for the insertion at each offset.  The loop advances
    by at least one byte, so the size of the data bounds its rounds. *)
Fixpoint new_loop (fuel : nat) (set : strset.t) (off : Z) (mem : Z → memory) : option (Z * strset.t) :=
  if negb (off <? strs_data_len set) then Some (0, set)
  else
    match fuel with
    | O => None
    | S fuel =>
        match hashmap_insert (strset_hash_fn (strs_data set)) (strset_equal_fn (strs_data set))
                (strs_hash set) off off HASHMAP_ADD (calloc (mem off)) (malloc (mem off)) with
        | None => None
        | Some (r, h) =>
            let set := with_hash set h in
            if negb (ret r =? - EEXIST) && negb (ret r =? 0) then Some (ret r, set)
            else
              match strlen_at (strs_data set) off with
              | None => None
              | Some n => new_loop fuel set (off + n + 1) mem
              end
        end
    end.

(** [first] answers the allocations of the set, its map and the initial block. *)
Definition strset__new (max_data_sz : Z) (init_data : option (list Z))
    (first : memory) (mem : Z → memory) : option (ptr strset.t) :=
  if negb (calloc first) then Some (ErrPtr (- ENOMEM))
  else
    match hashmap__new (malloc first) with
    | Ptr hash =>
        let set := strset.mk [] 0 0 max_data_sz hash in
        match init_data with
        | None => Some (Ptr set)
        | Some d =>
            if negb (alloc_ok (length d) (realloc first)) then Some (ErrPtr (- ENOMEM))
            else
              match new_loop (length d) (strset.mk d (length d) (length d) max_data_sz hash) 0 mem with
              | None => None
              | Some (err, set) => Some (if err =? 0 then Ptr set else ErrPtr err)
              end
        end
    | _ => Some (ErrPtr (- ENOMEM))
    end.

(** The map entries and the block given back; nothing for an error or null pointer. *)
Definition strset__free (p : ptr strset.t) : list hashmap_entry.t * list Z :=
  match p with Ptr set => (hashmap__free (Ptr (strs_hash set)), strs_data set) | _ => ([], []) end.

(** ** Lemmas on strings in a block *)

Definition nul_free (s : list Z) : Prop := 0 ∉ s.

Lemma until_nul_app s l : nul_free s → until_nul (s ++ 0 :: l) = s.
Proof.
  unfold nul_free. induction s as [|c s IH]; intros Hs; simpl; [done|].
  apply not_elem_of_cons in Hs as [Hc Hs]. destruct (Z.eqb_spec c 0); [by subst|]. by rewrite IH.
Qed.

Lemma str_at_app pre s post :
  nul_free s → str_at (pre ++ s ++ 0 :: post) (length pre) = s.
Proof.
  intros. unfold str_at. rewrite Nat2Z.id, drop_app_length. by apply until_nul_app.
Qed.

(** ** The abstract string set

    The bytes kept and a finite map from strings to offsets.  [stored] says that
    every string of the map is where its offset says. *)

Definition stored (bytes : list Z) (g : gmap (list Z) Z) : Prop :=
  ∀ (s : list Z) (off : Z), g !! s = Some off →
    nul_free s ∧ ∃ pre post, bytes = pre ++ s ++ 0 :: post ∧ off = length pre.

Definition entry_of (off : Z) : hashmap_entry.t := hashmap_entry.mk off off.

Definition hash_models (data : list Z) (h : hashmap.t) (g : gmap (list Z) Z) : Prop :=
  models (strset_hash_fn data) (str_at data) h (entry_of <$> g).

Definition set_ok (max : Z) (set : strset.t) (bytes : list Z) (g : gmap (list Z) Z) : Prop :=
  strs_data_max_len set = max ∧ strs_data_len set = length bytes ∧
  Z.of_nat (length (strs_data set)) = strs_data_cap set ∧ strs_data_cap set ≤ PTRDIFF_MAX ∧
  (∃ tail, strs_data set = bytes ++ tail) ∧ stored bytes g ∧
  hash_models (strs_data set) (strs_hash set) g.

Lemma stored_str_at bytes g s off tail :
  stored bytes g → g !! s = Some off → str_at (bytes ++ tail) off = s.
Proof.
  intros Hst Hg. destruct (Hst s off Hg) as (Hs & pre & post & -> & ->).
  rewrite <- !(assoc_L (++)). simpl. by apply str_at_app.
Qed.

Lemma stored_app bytes g more : stored bytes g → stored (bytes ++ more) g.
Proof.
  intros Hst s off Hg. destruct (Hst s off Hg) as (? & pre & post & -> & ->).
  split; [done|]. exists pre, (post ++ more). by rewrite <- !(assoc_L (++)).
Qed.

Lemma stored_insert bytes g s :
  stored bytes g → nul_free s → stored (bytes ++ s ++ [0]) (<[s := length bytes : Z]> g).
Proof.
  intros Hst Hs s' off [[<- <-]|[Hne Hg]]%lookup_insert_Some.
  - split; [done|]. by exists bytes, [].
  - by apply (stored_app _ _ (s ++ [0]) Hst).
Qed.

(** Bytes behind the strings kept do not matter to the map. *)
Lemma hash_models_tail bytes t1 t2 h g :
  stored bytes g → hash_models (bytes ++ t1) h g → hash_models (bytes ++ t2) h g.
Proof.
  intros Hst [Hwf Hr].
  assert (∀ e, e ∈ for_each_entry h → str_at (bytes ++ t1) (key e) = str_at (bytes ++ t2) (key e)) as He.
  { intros e He. pose proof (repr_elem _ _ _ _ Hr He) as Hl.
    rewrite lookup_fmap in Hl. apply fmap_Some in Hl as (off & Hg & ->).
    simpl. by rewrite (stored_str_at _ _ _ _ t2 Hst Hg). }
  split.
  - eapply wf_ext; [|done]. intros e Hin. unfold strset_hash_fn. by rewrite He.
  - eapply repr_ext; [|done]. done.
Qed.

(** What [libbpf_add_mem] does: it fails when the allocator does or a limit is
    passed, or room for the new elements is there, zeros behind what was there. *)
Lemma add_mem_cases data cap elem_sz cur max add ok :
  cap = Z.of_nat (length data) → 0 ≤ cur ≤ cap ∧ 0 ≤ add ≤ PTRDIFF_MAX → 0 < elem_sz → cap ≤ PTRDIFF_MAX →
  (libbpf_add_mem data cap elem_sz cur max add ok = None ∧ (ok = false ∨ max < cur + add ∨ PTRDIFF_MAX < max * elem_sz)) ∨
  ∃ k : nat, libbpf_add_mem data cap elem_sz cur max add ok = Some (data ++ replicate k 0, cap + k) ∧ cur + add ≤ cap + k ∧ (k = 0%nat ∨ cap + k ≤ max).
Proof.
  unfold libbpf_add_mem, alloc_ok, PTRDIFF_MAX. intros -> [Hc Ha] He Hl.
  rewrite (wrap_small 64 (cur + add)) by (unfold is_word; lia).
  rewrite (wrap_small 64 (length data + length data / 4)) by (unfold is_word; dlia).
  destruct (Z.leb_spec (cur + add) (length data)).
  { right. exists 0%nat. cbn. rewrite app_nil_r, Z.add_0_r. split; [done|]. split; [lia|by left]. }
  destruct (Z.ltb_spec max (cur + add)); [left; by auto|].
  set (c1 := if _ <? 16 then _ else _). set (c2 := if max <? c1 then max else c1). set (c3 := if c2 <? _ then _ else c2).
  assert (cur + add ≤ c3 ≤ max) as Hc3.
  { subst c3. destruct (Z.ltb_spec c2 (cur + add)); [lia|]. subst c2. destruct (Z.ltb_spec max c1); lia. }
  destruct (Z.leb_spec (c3 * elem_sz) (2 ^ 63 - 1)); cbn [andb]; [|left; split; [done|nia]].
  destruct ok; [|by left; auto]. right. exists (Z.to_nat (c3 - length data)). split_and!; [do 2 f_equal; lia|lia|lia].
Qed.

(** The answers of the allocator that make [libbpf_add_mem] fail. *)
Lemma add_mem_spec max set bytes g n mem :
  set_ok max set bytes g → 0 < n ≤ PTRDIFF_MAX → max ≤ PTRDIFF_MAX →
  (strset_add_str_mem set n mem = None ∧ (realloc mem = false ∨ max < length bytes + n)) ∨
  (∃ set1, strset_add_str_mem set n mem = Some set1 ∧ set_ok max set1 bytes g ∧
     length bytes + n ≤ length (strs_data set1)).
Proof.
  intros (Hmax & Hlen & Hcap & Hlim & (tail & Hd) & Hst & Hh) Hn Hm.
  assert (length bytes ≤ length (strs_data set)) as Hle by (rewrite Hd, length_app; lia).
  unfold strset_add_str_mem. rewrite Hmax, Hlen. unfold PTRDIFF_MAX in *.
  destruct (add_mem_cases (strs_data set) (strs_data_cap set) 1 (length bytes) max n (realloc mem)) as [[-> Hw]|(k & -> & Hk & Hkm)].
  1-4: unfold PTRDIFF_MAX; lia.
  { left. split; [done|]. destruct Hw as [?|[?|Hw]]; [by left|by right|unfold PTRDIFF_MAX in Hw; lia]. }
  right. eexists. split; [done|]. unfold set_ok, with_data, PTRDIFF_MAX. simpl.
  rewrite length_app, length_replicate. split_and!; try first [done | lia].
  - exists (tail ++ replicate k 0). by rewrite Hd, (assoc_L (++)).
  - rewrite Hd in *. rewrite <- (assoc_L (++)). by eapply hash_models_tail.
Qed.

(** The block never grows past its limit. *)
Lemma add_mem_limit data cap elem_sz cur max add ok d c :
  libbpf_add_mem data cap elem_sz cur max add ok = Some (d, c) → cap ≤ max → c ≤ max.
Proof.
  unfold libbpf_add_mem. destruct (u64 (cur + add) <=? cap); [by intros [= <- <-]|]. destruct (Z.ltb_spec max (u64 (cur + add))); [done|].
  set (c1 := if _ <? 16 then _ else _). set (c2 := if max <? c1 then max else c1). set (c3 := if c2 <? _ then _ else c2).
  assert (c3 ≤ max). { subst c3. destruct (c2 <? u64 (cur + add)); [lia|]. subst c2. destruct (Z.ltb_spec max c1); lia. }
  destruct (alloc_ok _ _); [|done]. by intros [= _ <-].
Qed.
Lemma add_str_mem_limit set n mem set' : strset_add_str_mem set n mem = Some set' → strs_data_cap set ≤ strs_data_max_len set →
  strs_data_cap set' ≤ strs_data_max_len set.
Proof.
  unfold strset_add_str_mem. destruct (libbpf_add_mem _ _ _ _ _ _ _) as [[d c]|] eqn:E; [|done]. intros [= <-] Hc. simpl.
  by eapply add_mem_limit.
Qed.
Lemma memcpy_end_cap set bs set' : memcpy_end set bs = Some set' → strs_data_cap set' = strs_data_cap set.
Proof. unfold memcpy_end. destruct (_ <=? _); [|done]. by intros [= <-]. Qed.
Lemma add_str_limit set s mem r set' : strset__add_str set s mem = Some (r, set') → strs_data_cap set ≤ strs_data_max_len set →
  strs_data_cap set' ≤ strs_data_max_len set.
Proof.
  unfold strset__add_str. intros E Hc. destruct (strset_add_str_mem set _ mem) as [set1|] eqn:E1; [|by simplify_eq].
  apply add_str_mem_limit in E1; [|done]. destruct (memcpy_end set1 _) as [set2|] eqn:E2; [|done]. apply memcpy_end_cap in E2.
  destruct (hashmap_insert _ _ _ _ _ _ _ _) as [[q hm]|]; [|done]. simpl in E.
  destruct (ret q =? - EEXIST), (negb (ret q =? 0)); simplify_eq; simpl; lia.
Qed.
Lemma find_str_limit set s mem r set' : strset__find_str set s mem = Some (r, set') → strs_data_cap set ≤ strs_data_max_len set →
  strs_data_cap set' ≤ strs_data_max_len set.
Proof.
  unfold strset__find_str. intros E Hc. destruct (strset_add_str_mem set _ mem) as [set1|] eqn:E1; [|by simplify_eq].
  apply add_str_mem_limit in E1; [|done]. destruct (memcpy_end set1 _) as [set2|] eqn:E2; [|done]. apply memcpy_end_cap in E2.
  destruct (hashmap_find _ _ _ _) as [[q|]|]; simplify_eq; lia.
Qed.

(** Copying a string behind the strings kept leaves the set as it is. *)
Lemma memcpy_end_spec max set bytes g s :
  set_ok max set bytes g → length bytes + (length s + 1) ≤ length (strs_data set) →
  ∃ set', memcpy_end set (s ++ [0]) = Some set' ∧ set_ok max set' bytes g ∧
    strs_data_len set' = length bytes ∧
    ∃ tail, strs_data set' = bytes ++ s ++ 0 :: tail.
Proof.
  intros (Hmax & Hlen & Hcap & Hlim & (tail & Hd) & Hst & Hh) Hroom.
  unfold memcpy_end. rewrite Hlen, (proj2 (Z.leb_le _ _)) by (rewrite length_app; simpl; lia).
  eexists. split; [done|]. rewrite Hd, Nat2Z.id, inserts_app_at. rewrite Hd, length_app in Hroom.
  assert (list_inserts 0 (s ++ [0]) tail = s ++ 0 :: drop (length s + 1) tail) as E.
  { replace (s ++ 0 :: drop (length s + 1) tail) with ((s ++ [0]) ++ drop (length s + 1) tail)
      by by rewrite <- (assoc_L (++)).
    rewrite <- (take_drop (length s + 1) tail) at 1. apply list_inserts_0_r.
    rewrite length_take, length_app. simpl. lia. }
  rewrite E. unfold set_ok, with_data. simpl. split_and!; try done; try (by eexists).
  - rewrite <- Hcap, Hd, <- E, !length_app, length_inserts. done.
  - rewrite Hd in Hh. by eapply hash_models_tail.
Qed.

(** ** The two operations of the map on strings *)

Lemma hash_add_spec data h g off c m :
  hash_models data h g →
  let s := str_at data off in
  ∃ r h', hashmap_insert (strset_hash_fn data) (strset_equal_fn data) h off off HASHMAP_ADD c m = Some (r, h') ∧
    ((∃ o, g !! s = Some o ∧ r = mk_insert_result (- EEXIST) o o ∧ hash_models data h' g) ∨
     (g !! s = None ∧ r = mk_insert_result 0 0 0 ∧ hash_models data h' (<[s := off]> g)) ∨
     (g !! s = None ∧ r = mk_insert_result (- ENOMEM) 0 0 ∧ hash_models data h' g ∧
        (c = false ∨ m = false ∨ 2 ^ 59 ≤ size g))).
Proof.
  intros Hh s. subst s.
  destruct (insert_refines (strset_hash_fn data) (strset_equal_fn data) (str_at data)
              h (entry_of <$> g) off off HASHMAP_ADD c m Hh) as (r & h' & g' & -> & Hm & Hs); [done|].
  do 2 eexists. split; [done|]. inversion Hs; subst; clear Hs.
  - unfold spec_insert in *. rewrite lookup_fmap in *.
    destruct (g !! str_at data off) as [o|] eqn:Hg; simpl in *; rewrite ?decide_True, ?decide_False in * by done;
      simpl in *; [left; by exists o|].
    right; left. split_and!; try done. unfold hash_models. by rewrite fmap_insert.
  - right; right. rewrite lookup_fmap in *. rewrite map_size_fmap in *.
    destruct (g !! str_at data off); simpl in *; [done|]. by split_and!.
Qed.

Lemma hash_find_spec data h g off :
  hash_models data h g →
  hashmap_find (strset_hash_fn data) (strset_equal_fn data) h off = Some (g !! str_at data off).
Proof.
  intros Hh.
  destruct (do_op_refines (strset_hash_fn data) (strset_equal_fn data) (str_at data)
              h (entry_of <$> g) (Find off) Hh I) as (r & h' & g' & Hr & _ & Hs).
  simpl in Hr. destruct (hashmap_find _ _ h off) as [v|]; simplify_eq/=.
  inversion Hs; subst. rewrite lookup_fmap. by destruct (g !! _).
Qed.

(** ** Operations on a set and on the abstract set *)

Inductive str_op :=
  | AddStr (s : list Z) (mem : memory)
  | FindStr (s : list Z) (mem : memory).

Definition do_str_op (o : str_op) (set : strset.t) : option (Z * strset.t) :=
  match o with
  | AddStr s mem => strset__add_str set s mem
  | FindStr s mem => strset__find_str set s mem
  end.

Fixpoint run_strs (ops : list str_op) (set : strset.t) : option (list Z * strset.t) :=
  match ops with
  | [] => Some ([], set)
  | o :: ops => '(r, set) ← do_str_op o set; '(rs, set) ← run_strs ops set; Some (r :: rs, set)
  end.

Abbreviation abs_set := (list Z * gmap (list Z) Z)%type.

(** The block has no room for [s] and cannot be made larger. *)
Definition block_full (max : Z) (bytes s : list Z) (mem : memory) : Prop :=
  realloc mem = false ∨ max < length bytes + (length s + 1).

Inductive spec_str (max : Z) : abs_set → str_op → Z → abs_set → Prop :=
  | add_old bytes g s off mem :
      g !! s = Some off → spec_str max (bytes, g) (AddStr s mem) (s32 off) (bytes, g)
  | add_new bytes g s mem :
      g !! s = None →
      spec_str max (bytes, g) (AddStr s mem) (s32 (length bytes))
        (bytes ++ s ++ [0], <[s := length bytes : Z]> g)
  | add_full bytes g s mem :
      block_full max bytes s mem → spec_str max (bytes, g) (AddStr s mem) (- ENOMEM) (bytes, g)
  | add_nomem bytes g s mem :
      g !! s = None → calloc mem = false ∨ malloc mem = false ∨ 2 ^ 59 ≤ size g →
      spec_str max (bytes, g) (AddStr s mem) (- ENOMEM) (bytes, g)
  | find_old bytes g s off mem :
      g !! s = Some off → spec_str max (bytes, g) (FindStr s mem) (s32 off) (bytes, g)
  | find_none bytes g s mem :
      g !! s = None → spec_str max (bytes, g) (FindStr s mem) (- ENOENT) (bytes, g)
  | find_full bytes g s mem :
      block_full max bytes s mem → spec_str max (bytes, g) (FindStr s mem) (- ENOMEM) (bytes, g).

Inductive spec_strs (max : Z) : abs_set → list str_op → list Z → abs_set → Prop :=
  | strs_nil a : spec_strs max a [] [] a
  | strs_cons a o r a1 ops rs a2 :
      spec_str max a o r a1 → spec_strs max a1 ops rs a2 → spec_strs max a (o :: ops) (r :: rs) a2.

(** A C string that fits in memory. *)
Definition str_ok (s : list Z) : Prop := nul_free s ∧ length s < PTRDIFF_MAX.
Definition op_ok (o : str_op) : Prop :=
  match o with AddStr s _ | FindStr s _ => str_ok s end.

Section refinement.
Context (max : Z) (Hmax : max ≤ PTRDIFF_MAX).

(** Both operations first copy the string behind those kept. *)
Lemma copy_spec set bytes g s mem :
  set_ok max set bytes g → str_ok s →
  (strset_add_str_mem set (length s + 1) mem = None ∧ block_full max bytes s mem) ∨
  (∃ set1 set2, strset_add_str_mem set (length s + 1) mem = Some set1 ∧
     memcpy_end set1 (s ++ [0]) = Some set2 ∧ set_ok max set2 bytes g ∧
     strs_data_len set1 = length bytes ∧
     str_at (strs_data set2) (length bytes) = s ∧ ∃ tail, strs_data set2 = bytes ++ s ++ 0 :: tail).
Proof.
  intros Hok [Hs Hlen].
  destruct (add_mem_spec max set bytes g (length s + 1) mem Hok) as [[-> ?]|(set1 & -> & Hok1 & Hroom)];
    [lia|done|by left|].
  right. destruct (memcpy_end_spec max set1 bytes g s Hok1 Hroom) as (set2 & Hcp & Hok2 & _ & tail & Hd).
  exists set1, set2. split_and!; try done; [by destruct Hok1 as (_ & ? & _)| |by exists tail].
  rewrite Hd. by apply str_at_app.
Qed.

Lemma add_str_refines set bytes g s mem :
  set_ok max set bytes g → str_ok s →
  ∃ r set' bytes' g', strset__add_str set s mem = Some (r, set') ∧ set_ok max set' bytes' g' ∧
    spec_str max (bytes, g) (AddStr s mem) r (bytes', g').
Proof.
  intros Hok Hs. unfold strset__add_str.
  destruct (copy_spec set bytes g s mem Hok Hs) as [[-> Hfull]|(set1 & set2 & -> & -> & Hok2 & -> & Hat & tail & Hd)].
  { do 4 eexists. split_and!; [done..|]. by apply add_full. }
  destruct Hok2 as (Hm2 & Hlen & Hcap & Hlim & Htail & Hst & Hh).
  destruct (hash_add_spec _ _ _ (length bytes) (calloc mem) (malloc mem) Hh) as (r & h' & -> & Hr).
  rewrite Hat in Hr.
  destruct Hr as [(o & Hg & -> & Hh')|[(Hg & -> & Hh')|(Hg & -> & Hh' & Hno)]]; simpl.
  - do 4 eexists. split_and!; [done| |by apply add_old]. by unfold set_ok.
  - do 4 eexists. split_and!; [done| |by apply add_new].
    unfold set_ok, with_len, with_hash. simpl. rewrite Hlen.
    assert (length bytes + (length s + 1) ≤ length (strs_data set2)).
    { rewrite Hd, !length_app. simpl. lia. }
    rewrite (wrap_small 64) by (unfold is_word, PTRDIFF_MAX in *; lia).
    split_and!; try done.
    + rewrite !length_app. simpl. lia.
    + exists tail. by rewrite Hd, <- !(assoc_L (++)).
    + destruct Hs. by apply stored_insert.
  - do 4 eexists. split_and!; [done| |by apply add_nomem]. by unfold set_ok.
Qed.

Lemma find_str_refines set bytes g s mem :
  set_ok max set bytes g → str_ok s →
  ∃ r set', strset__find_str set s mem = Some (r, set') ∧ set_ok max set' bytes g ∧
    spec_str max (bytes, g) (FindStr s mem) r (bytes, g).
Proof.
  intros Hok Hs. unfold strset__find_str.
  destruct (copy_spec set bytes g s mem Hok Hs) as [[-> Hfull]|(set1 & set2 & -> & -> & Hok2 & -> & Hat & _)].
  { do 2 eexists. split_and!; [done..|]. by apply find_full. }
  rewrite (hash_find_spec _ _ g) by apply Hok2. rewrite Hat.
  destruct (g !! s) eqn:Hg; do 2 eexists; (split_and!; [done..|]); by constructor.
Qed.

Lemma run_strs_refines ops set bytes g :
  set_ok max set bytes g → Forall op_ok ops →
  ∃ rs set' bytes' g', run_strs ops set = Some (rs, set') ∧ set_ok max set' bytes' g' ∧
    spec_strs max (bytes, g) ops rs (bytes', g').
Proof.
  intros Hok Hops. revert set bytes g Hok.
  induction Hops as [|o ops Ho _ IH]; intros set bytes g Hok; simpl.
  { do 4 eexists. split_and!; [done..|constructor]. }
  assert (∃ r set1 bytes1 g1, do_str_op o set = Some (r, set1) ∧ set_ok max set1 bytes1 g1 ∧
    spec_str max (bytes, g) o r (bytes1, g1)) as (r & set1 & bytes1 & g1 & -> & Hok1 & Hs1).
  { destruct o as [s mem|s mem]; simpl in *; [by apply add_str_refines|].
    destruct (find_str_refines set bytes g s mem Hok Ho) as (r & set' & ? & ? & ?). eauto 7. }
  simpl. destruct (IH set1 bytes1 g1 Hok1) as (rs & set2 & bytes2 & g2 & -> & Hok2 & Hs2). simpl.
  do 4 eexists. split_and!; [done..|]. by econstructor.
Qed.
End refinement.

(** ** A set with initial data *)

Definition flat (strs : list (list Z)) : list Z := concat ((λ s, s ++ [0]) <$> strs).

(** Every string is found at its first occurrence. *)
Fixpoint offsets (off : Z) (strs : list (list Z)) (g : gmap (list Z) Z) : gmap (list Z) Z :=
  match strs with
  | [] => g
  | s :: strs =>
      offsets (off + length s + 1) strs (match g !! s with Some _ => g | None => <[s := off]> g end)
  end.

Lemma flat_cons s strs : flat (s :: strs) = s ++ 0 :: flat strs.
Proof. unfold flat. simpl. by rewrite <- (assoc_L (++)). Qed.

Lemma strlen_at_spec pre s post :
  nul_free s → strlen_at (pre ++ s ++ 0 :: post) (length pre) = Some (Z.of_nat (length s)).
Proof.
  intros Hs. unfold strlen_at. rewrite str_at_app, Nat2Z.id by done.
  rewrite (proj2 (Z.ltb_lt _ _)); [done|]. rewrite !length_app. simpl. lia.
Qed.

Lemma stored_here pre s post g :
  stored (pre ++ s ++ 0 :: post) g → nul_free s → stored (pre ++ s ++ 0 :: post) (<[s := length pre : Z]> g).
Proof.
  intros Hst Hs s' off [[<- <-]|[_ Hg]]%lookup_insert_Some; [|by apply Hst].
  split; [done|]. by exists pre, post.
Qed.

(** No memory for the entry of a string. *)
Definition no_entry (mem : Z → memory) (n : nat) : Prop :=
  (∃ o, calloc (mem o) = false ∨ malloc (mem o) = false) ∨ 2 ^ 59 ≤ n.

(** One round of the loop, at the string [s]. *)
Lemma new_loop_round fuel set pre s todo g mem :
  strs_data set = pre ++ s ++ 0 :: flat todo → strs_data_len set = length (strs_data set) →
  nul_free s → stored (strs_data set) g → hash_models (strs_data set) (strs_hash set) g → size g ≤ length pre →
  (∃ h, new_loop (S fuel) set (length pre) mem = Some (- ENOMEM, with_hash set h) ∧ no_entry mem (length (strs_data set))) ∨
  (∃ h g1, size g1 ≤ length (pre ++ s ++ [0]) ∧ new_loop (S fuel) set (length pre) mem =
             new_loop fuel (with_hash set h) (length (pre ++ s ++ [0])) mem ∧
     offsets (length pre) (s :: todo) g = offsets (length (pre ++ s ++ [0])) todo g1 ∧
     stored (strs_data set) g1 ∧ hash_models (strs_data set) h g1).
Proof.
  intros Hd Hlen Hs Hst Hh Hsz. cbn [new_loop offsets].
  rewrite (proj2 (Z.ltb_lt _ _)) by (rewrite Hlen, Hd, !length_app; simpl; lia). cbn [negb].
  assert (str_at (strs_data set) (length pre) = s) as Hat by (rewrite Hd; by apply str_at_app).
  assert (strlen_at (strs_data set) (length pre) = Some (Z.of_nat (length s))) as Hsl.
  { rewrite Hd. by apply strlen_at_spec. }
  assert (Z.of_nat (length (pre ++ s ++ [0])) = length pre + length s + 1) as ->.
  { rewrite !length_app. simpl. lia. }
  destruct (hash_add_spec _ _ _ (length pre) (calloc (mem (length pre))) (malloc (mem (length pre))) Hh)
    as (r & h & -> & Hr). rewrite Hat in Hr.
  destruct Hr as [(o & Hg & -> & Hh')|[(Hg & -> & Hh')|(Hg & -> & Hh' & Hno)]]; simpl; rewrite ?Hsl, ?Hg.
  - right. exists h, g. split_and!; try done. lia.
  - right. exists h, (<[s := length pre : Z]> g). split_and!; try done; [rewrite map_size_insert_None by done; lia|].
    rewrite Hd in *. by apply stored_here.
  - left. exists h. split; [done|]. destruct Hno as [?|[?|?]]; [left; eauto|left; eauto|right]. rewrite Hd, length_app. lia.
Qed.

Lemma new_loop_spec fuel set pre todo g mem :
  strs_data set = pre ++ flat todo → strs_data_len set = length (strs_data set) →
  (length (flat todo) ≤ fuel)%nat → Forall nul_free todo →
  stored (strs_data set) g → hash_models (strs_data set) (strs_hash set) g → size g ≤ length pre →
  ∃ err h, new_loop fuel set (length pre) mem = Some (err, with_hash set h) ∧
    (err = - ENOMEM ∧ no_entry mem (length (strs_data set)) ∨
     err = 0 ∧ size (offsets (length pre) todo g) ≤ length (strs_data set) ∧ stored (strs_data set) (offsets (length pre) todo g) ∧
       hash_models (strs_data set) h (offsets (length pre) todo g)).
Proof.
  intros Hd Hlen Hfuel Htodo. revert fuel set pre g Hd Hlen Hfuel.
  induction Htodo as [|s todo Hs _ IH]; intros fuel set pre g Hd Hlen Hfuel Hst Hh Hsz.
  - exists 0, (strs_hash set). split; [|right; split_and!; try done; simpl; rewrite Hd, length_app; lia].
    assert (length (strs_data set) = length pre) as E by (rewrite Hd, length_app; simpl; lia).
    destruct fuel; simpl; rewrite Hlen, E, Z.ltb_irrefl; simpl; by destruct set.
  - rewrite flat_cons in *. rewrite length_app in Hfuel. simpl in Hfuel. destruct fuel as [|fuel]; [lia|].
    destruct (new_loop_round fuel set pre s todo g mem Hd Hlen Hs Hst Hh Hsz)
      as [(h & -> & Hno)|(h & g1 & Hsz1 & -> & -> & Hst1 & Hh1)]; [exists (- ENOMEM), h; by auto|].
    destruct (IH fuel (with_hash set h) (pre ++ s ++ [0]) g1) as (err & h' & -> & Hres); try done.
    + simpl. by rewrite Hd, <- !(assoc_L (++)).
    + lia.
    + by exists err, h'.
Qed.

(** No memory for a new set. *)
Definition no_set (first : memory) (mem : Z → memory) (n : nat) : Prop :=
  calloc first = false ∨ malloc first = false ∨ realloc first = false ∨ no_entry mem n.

Lemma new_spec max strs first mem :
  Forall nul_free strs →
  ∃ p, strset__new max (Some (flat strs)) first mem = Some p ∧
    (p = ErrPtr (- ENOMEM) ∧ no_set first mem (length (flat strs)) ∨
     ∃ set, p = Ptr set ∧ set_ok max set (flat strs) (offsets 0 strs ∅) ∧ strs_data_cap set = length (flat strs) ∧
       size (offsets 0 strs ∅) ≤ length (flat strs)).
Proof.
  intros Hs. unfold strset__new, no_set. destruct (calloc first); simpl; [|eexists; split; [done|]; left; by auto].
  destruct (malloc first); simpl; [|eexists; split; [done|]; left; by auto].
  destruct (alloc_ok (length (flat strs)) (realloc first)) eqn:Ha; simpl; [|eexists; split; [done|]; left; split; [done|]].
  2:{ unfold alloc_ok in Ha. destruct (realloc first); [|by auto]. rewrite andb_true_r in Ha. apply Z.leb_gt in Ha. unfold PTRDIFF_MAX in Ha.
      right. right. right. right. lia. }
  destruct (new_loop_spec (length (flat strs)) (strset.mk (flat strs) (length (flat strs)) (length (flat strs)) max
      hashmap__init) [] strs ∅ mem) as (err & h & E & Hres); try done.
  { split; [apply wf_init|]. split; [constructor|]. by rewrite fmap_empty. }
  change (Z.of_nat (length [])) with 0 in *. rewrite E. eexists. split; [done|].
  destruct Hres as [(-> & Hno)|(-> & Hsz & Hst & Hh)]; [left; by auto|right]. eexists. split; [done|].
  unfold set_ok. simpl. split_and!; try done.
  - by apply andb_prop in Ha as [?%Z.leb_le _].
  - exists []. by rewrite (right_id_L [] (++)).
Qed.

(** C17: A string set made from initial data, itself a sequence of terminated
    strings, is made or refused with [-ENOMEM].  Once made, every sequence of
    [strset__add_str] and [strset__find_str] runs without an access outside the
    block and returns what a dictionary from strings to offsets returns: a known
    string gives the offset it was given first, a new one is appended to the
    bytes and gets the old size as offset, an unknown one is not found, and
    [-ENOMEM] leaves the dictionary as it was and comes only from a failing
    allocation, the limit on the size, or 2^59 strings.  At the end the data
    starts with exactly the bytes of the dictionary, and every string of it is
    at its offset. *)
Theorem strset_interns (max : Z) (strs : list (list Z)) (first : memory) (mem : Z → memory) (ops : list str_op)
    (Hmax : max ≤ PTRDIFF_MAX) (Hstrs : Forall nul_free strs) (Hops : Forall op_ok ops) :
  ∃ p, strset__new max (Some (flat strs)) first mem = Some p ∧
    (p = ErrPtr (- ENOMEM) ∨
     ∃ set, p = Ptr set ∧
       ∃ rs set' bytes g, run_strs ops set = Some (rs, set') ∧
         spec_strs max (flat strs, offsets 0 strs ∅) ops rs (bytes, g) ∧
         take (Z.to_nat (strset__data_size set')) (strset__data set') = bytes ∧
         ∀ s off, g !! s = Some off → str_at (strset__data set') off = s).
Proof.
  destruct (new_spec max strs first mem Hstrs) as (p & Hp & Hres). exists p. split; [done|].
  destruct Hres as [[-> _]|(set & -> & Hok & _)]; [by left|right]. exists set. split; [done|].
  destruct (run_strs_refines max Hmax ops set _ _ Hok Hops) as (rs & set' & bytes & g & Hr & Hok' & Hspec).
  exists rs, set', bytes, g. destruct Hok' as (_ & Hlen & _ & _ & [tail Hd] & Hst & _).
  unfold strset__data_size, strset__data. rewrite Hlen, Hd, Nat2Z.id. split_and!; try done.
  - apply take_app_length.
  - intros s off Hg. by eapply stored_str_at.
Qed.

Definition all_mem : memory := mk_memory true true true.

(** The strings [""], ["ab"], ["ab"] at the start; then ["ab"] is known, ["c"] is
    new, found and known, and ["d"] is not found. *)
Definition sample_strs : list (list Z) := [[]; [97; 98]; [97; 98]].
Definition sample_str_ops : list str_op :=
  [AddStr [97; 98] all_mem; AddStr [99] all_mem; FindStr [99] all_mem; AddStr [99] all_mem;
   FindStr [100] all_mem].

Lemma strset_interns_witness :
  (100 ≤ PTRDIFF_MAX ∧ Forall nul_free sample_strs ∧ Forall op_ok sample_str_ops) ∧
  match strset__new 100 (Some (flat sample_strs)) all_mem (λ _, all_mem) with
  | Some (Ptr set) => fst <$> run_strs sample_str_ops set
  | _ => None
  end = Some [1; 7; 7; 7; -2] ∧
  ∃ p, strset__new 100 (Some (flat sample_strs)) all_mem (λ _, all_mem) = Some p ∧
    (p = ErrPtr (- ENOMEM) ∨
     ∃ set, p = Ptr set ∧
       ∃ rs set' bytes g, run_strs sample_str_ops set = Some (rs, set') ∧
         spec_strs 100 (flat sample_strs, offsets 0 sample_strs ∅) sample_str_ops rs (bytes, g) ∧
         take (Z.to_nat (strset__data_size set')) (strset__data set') = bytes ∧
         ∀ s off, g !! s = Some off → str_at (strset__data set') off = s).
Proof.
  assert (100 ≤ PTRDIFF_MAX) as Hmax by (vm_compute; discriminate).
  assert (Forall nul_free sample_strs) as Hstrs.
  { repeat constructor; apply (bool_decide_unpack _); vm_compute; exact I. }
  assert (Forall op_ok sample_str_ops) as Hops.
  { repeat constructor; apply (bool_decide_unpack _); vm_compute; exact I. }
  split; [exact (conj Hmax (conj Hstrs Hops))|].
  split; [vm_compute; reflexivity|].
  exact (strset_interns 100 sample_strs all_mem (λ _, all_mem) sample_str_ops Hmax Hstrs Hops).
Defined.
