(* ===== verification/Btf.v ===== *)
(** * libbpf: type information as bytes

    [btf.c]: reading the binary format of type information (BTF), in the byte
    order of the host or the other one, looking up types and strings, and the sizes
    and alignments computed from them.

    The memory block that the data was copied to is a list of bytes; the header,
    the types and the strings are places in it, or blocks of their own once the
    object was modified.  A pointer to a type is the block with an offset.  Every
    access is checked; [None] is a fault.  Functions that return a null pointer
    and set [errno] return the error number.  The host is little-endian, with
    pointers of 8 bytes. *)

From S2P Require Import Prelude Errno Bytes Hashmap Strset Heap.
Local Open Scope Z_scope.

Definition BTF_MAGIC : Z := 0xeB9F.
Definition BTF_MAX_NR_TYPES : Z := 0x7fffffff.
Definition BTF_MAX_STR_OFFSET : Z := 0x7fffffff.
Definition ENOTSUP : Z := 95.

(** [bswap_16] and [bswap_32]. *)
Definition bswap (n : nat) (z : Z) : Z := le_val (reverse (le_bytes n z)).

(** ** Layouts *)

Record btf_header := mk_hdr {
  magic : Z; version : Z; flags : Z; hdr_len : Z; type_off : Z; type_len : Z; str_off : Z; str_len : Z }.
Definition sizeof_header : Z := 24.

Definition load_hdr (o : Z) (m : list Z) : option btf_header :=
  magic ← load 2 o m; version ← load 1 (o + 2) m; flags ← load 1 (o + 3) m; hdr_len ← load 4 (o + 4) m;
  type_off ← load 4 (o + 8) m; type_len ← load 4 (o + 12) m; str_off ← load 4 (o + 16) m; str_len ← load 4 (o + 20) m;
  Some (mk_hdr magic version flags hdr_len type_off type_len str_off str_len).
Definition hdr_fields (h : btf_header) : list (nat * Z) :=
  [(2%nat, magic h); (1%nat, version h); (1%nat, flags h); (4%nat, hdr_len h); (4%nat, type_off h); (4%nat, type_len h); (4%nat, str_off h); (4%nat, str_len h)].
Definition hdr_bytes (h : btf_header) : list Z := enc (hdr_fields h).
Definition btf_bswap_hdr (h : btf_header) : btf_header :=
  mk_hdr (bswap 2 (magic h)) (version h) (flags h) (bswap 4 (hdr_len h)) (bswap 4 (type_off h)) (bswap 4 (type_len h))
    (bswap 4 (str_off h)) (bswap 4 (str_len h)).

(** [size_type] is the union of [size] and [type]. *)
Record btf_type := mk_type { name_off : Z; info : Z; size_type : Z }.
Definition sizeof_type : Z := 12.
Definition load_type (o : Z) (m : list Z) : option btf_type :=
  name_off ← load 4 o m; info ← load 4 (o + 4) m; size_type ← load 4 (o + 8) m; Some (mk_type name_off info size_type).

Inductive kind :=
  | BTF_KIND_UNKN | BTF_KIND_INT | BTF_KIND_PTR | BTF_KIND_ARRAY | BTF_KIND_STRUCT | BTF_KIND_UNION | BTF_KIND_ENUM
  | BTF_KIND_FWD | BTF_KIND_TYPEDEF | BTF_KIND_VOLATILE | BTF_KIND_CONST | BTF_KIND_RESTRICT | BTF_KIND_FUNC
  | BTF_KIND_FUNC_PROTO | BTF_KIND_VAR | BTF_KIND_DATASEC | BTF_KIND_FLOAT | BTF_KIND_DECL_TAG | BTF_KIND_TYPE_TAG
  | BTF_KIND_ENUM64.
Definition kinds : list kind :=
  [BTF_KIND_UNKN; BTF_KIND_INT; BTF_KIND_PTR; BTF_KIND_ARRAY; BTF_KIND_STRUCT; BTF_KIND_UNION; BTF_KIND_ENUM;
   BTF_KIND_FWD; BTF_KIND_TYPEDEF; BTF_KIND_VOLATILE; BTF_KIND_CONST; BTF_KIND_RESTRICT; BTF_KIND_FUNC;
   BTF_KIND_FUNC_PROTO; BTF_KIND_VAR; BTF_KIND_DATASEC; BTF_KIND_FLOAT; BTF_KIND_DECL_TAG; BTF_KIND_TYPE_TAG;
   BTF_KIND_ENUM64].
#[export] Instance kind_eq_dec : EqDecision kind.
Proof. solve_decision. Defined.

(** The number in the type; [None] for one that no kind has. *)
Definition kind_no (t : btf_type) : Z := Z.land (Z.shiftr (info t) 24) 0x1f.
Definition btf_kind (t : btf_type) : option kind := kinds !! Z.to_nat (kind_no t).
Definition btf_vlen (t : btf_type) : Z := Z.land (info t) 0xffff.
Definition btf_kflag (t : btf_type) : bool := negb (Z.shiftr (info t) 31 =? 0).

Definition btf_is_int (t : btf_type) : bool := bool_decide (btf_kind t = Some BTF_KIND_INT).
Definition btf_is_fwd (t : btf_type) : bool := bool_decide (btf_kind t = Some BTF_KIND_FWD).
Definition btf_is_typedef (t : btf_type) : bool := bool_decide (btf_kind t = Some BTF_KIND_TYPEDEF).
Definition btf_is_var (t : btf_type) : bool := bool_decide (btf_kind t = Some BTF_KIND_VAR).
Definition btf_is_mod (t : btf_type) : bool :=
  match btf_kind t with
  | Some (BTF_KIND_VOLATILE | BTF_KIND_CONST | BTF_KIND_RESTRICT | BTF_KIND_TYPE_TAG) => true
  | _ => false
  end.

(** ** Sizes and byte order of a type *)

(** The size of a type with what follows it, or an error. *)
Definition btf_type_size (t : btf_type) : Z :=
  let vlen := btf_vlen t in
  match btf_kind t with
  | Some (BTF_KIND_FWD | BTF_KIND_CONST | BTF_KIND_VOLATILE | BTF_KIND_RESTRICT | BTF_KIND_PTR | BTF_KIND_TYPEDEF
         | BTF_KIND_FUNC | BTF_KIND_FLOAT | BTF_KIND_TYPE_TAG) => sizeof_type
  | Some BTF_KIND_INT => sizeof_type + 4
  | Some BTF_KIND_ENUM => sizeof_type + vlen * 8
  | Some BTF_KIND_ENUM64 => sizeof_type + vlen * 12
  | Some BTF_KIND_ARRAY => sizeof_type + 12
  | Some (BTF_KIND_STRUCT | BTF_KIND_UNION) => sizeof_type + vlen * 12
  | Some BTF_KIND_FUNC_PROTO => sizeof_type + vlen * 8
  | Some BTF_KIND_VAR => sizeof_type + 4
  | Some BTF_KIND_DATASEC => sizeof_type + vlen * 12
  | Some BTF_KIND_DECL_TAG => sizeof_type + 4
  | Some BTF_KIND_UNKN | None => - EINVAL
  end.

(** [f = bswap_32(f)] for [n] fields one after the other. *)
Fixpoint bswap_fields (n : nat) (o : Z) (m : list Z) : option (list Z) :=
  match n with
  | O => Some m
  | S n => w ← load 4 o m; m ← store o (le_bytes 4 (bswap 4 w)) m; bswap_fields n (o + 4) m
  end.
(** The same for each of [n] elements with [k] fields. *)
Fixpoint bswap_each (n k : nat) (o : Z) (m : list Z) : option (list Z) :=
  match n with
  | O => Some m
  | S n => m ← bswap_fields k o m; bswap_each n k (o + 4 * k) m
  end.

Definition btf_bswap_type_base (o : Z) (m : list Z) : option (list Z) := bswap_fields 3 o m.

Definition btf_bswap_type_rest (o : Z) (m : list Z) : option (Z * list Z) :=
  t ← load_type o m;
  let vlen := Z.to_nat (btf_vlen t) in
  let rest := o + sizeof_type in
  match btf_kind t with
  | Some (BTF_KIND_FWD | BTF_KIND_CONST | BTF_KIND_VOLATILE | BTF_KIND_RESTRICT | BTF_KIND_PTR | BTF_KIND_TYPEDEF
         | BTF_KIND_FUNC | BTF_KIND_FLOAT | BTF_KIND_TYPE_TAG) => Some (0, m)
  | Some BTF_KIND_INT => pair 0 <$> bswap_fields 1 rest m
  | Some BTF_KIND_ENUM => pair 0 <$> bswap_each vlen 2 rest m
  | Some BTF_KIND_ENUM64 => pair 0 <$> bswap_each vlen 3 rest m
  | Some BTF_KIND_ARRAY => pair 0 <$> bswap_fields 3 rest m
  | Some (BTF_KIND_STRUCT | BTF_KIND_UNION) => pair 0 <$> bswap_each vlen 3 rest m
  | Some BTF_KIND_FUNC_PROTO => pair 0 <$> bswap_each vlen 2 rest m
  | Some BTF_KIND_VAR => pair 0 <$> bswap_fields 1 rest m
  | Some BTF_KIND_DATASEC => pair 0 <$> bswap_each vlen 3 rest m
  | Some BTF_KIND_DECL_TAG => pair 0 <$> bswap_fields 1 rest m
  | Some BTF_KIND_UNKN | None => Some (- EINVAL, m)
  end.

(** ** Objects *)

(** Where a part of the data is: behind the pointer [raw_data], or in a block of its own. *)
Inductive place := InRaw (o : Z) | Own (d : list Z).
Inductive strings := StrsRaw (o : Z) | StrsSet (set : strset.t).

Inductive btf := mk_btf {
  base_btf : option btf;
  raw_data : option (list Z); raw_data_swapped : option (list Z); raw_size : Z; swapped_endian : bool;
  hdr : place; types_data : place; types_data_cap : Z;
  type_offs : option (list Z); type_offs_cap : Z; nr_types : Z;
  start_id : Z; start_str_off : Z; strs : strings; strs_deduped : bool; btf_fd : Z; ptr_sz : Z }.

Definition with_raw (raw : option (list Z)) (b : btf) : btf :=
  mk_btf (base_btf b) raw (raw_data_swapped b) (raw_size b) (swapped_endian b) (hdr b) (types_data b) (types_data_cap b)
    (type_offs b) (type_offs_cap b) (nr_types b) (start_id b) (start_str_off b) (strs b) (strs_deduped b) (btf_fd b) (ptr_sz b).
Definition with_raw_size (n : Z) (b : btf) : btf :=
  mk_btf (base_btf b) (raw_data b) (raw_data_swapped b) n (swapped_endian b) (hdr b) (types_data b) (types_data_cap b)
    (type_offs b) (type_offs_cap b) (nr_types b) (start_id b) (start_str_off b) (strs b) (strs_deduped b) (btf_fd b) (ptr_sz b).
Definition with_raw_swapped (raw : option (list Z)) (b : btf) : btf :=
  mk_btf (base_btf b) (raw_data b) raw (raw_size b) (swapped_endian b) (hdr b) (types_data b) (types_data_cap b)
    (type_offs b) (type_offs_cap b) (nr_types b) (start_id b) (start_str_off b) (strs b) (strs_deduped b) (btf_fd b) (ptr_sz b).
Definition with_swapped (s : bool) (b : btf) : btf :=
  mk_btf (base_btf b) (raw_data b) (raw_data_swapped b) (raw_size b) s (hdr b) (types_data b) (types_data_cap b)
    (type_offs b) (type_offs_cap b) (nr_types b) (start_id b) (start_str_off b) (strs b) (strs_deduped b) (btf_fd b) (ptr_sz b).
Definition with_sections (types : place) (strings : strings) (b : btf) : btf :=
  mk_btf (base_btf b) (raw_data b) (raw_data_swapped b) (raw_size b) (swapped_endian b) (hdr b) types (types_data_cap b)
    (type_offs b) (type_offs_cap b) (nr_types b) (start_id b) (start_str_off b) strings (strs_deduped b) (btf_fd b) (ptr_sz b).
Definition with_offs (offs : option (list Z)) (cap nr : Z) (b : btf) : btf :=
  mk_btf (base_btf b) (raw_data b) (raw_data_swapped b) (raw_size b) (swapped_endian b) (hdr b) (types_data b) (types_data_cap b)
    offs cap nr (start_id b) (start_str_off b) (strs b) (strs_deduped b) (btf_fd b) (ptr_sz b).
Definition with_ptr_sz (n : Z) (b : btf) : btf :=
  mk_btf (base_btf b) (raw_data b) (raw_data_swapped b) (raw_size b) (swapped_endian b) (hdr b) (types_data b) (types_data_cap b)
    (type_offs b) (type_offs_cap b) (nr_types b) (start_id b) (start_str_off b) (strs b) (strs_deduped b) (btf_fd b) n.

(** The block and the offset of a part. *)
Definition at_place (b : btf) (p : place) : option (list Z * Z) :=
  match p with InRaw o => raw ← raw_data b; Some (raw, o) | Own d => Some (d, 0) end.
Definition btf_strs_data (b : btf) : option (list Z * Z) :=
  match strs b with StrsRaw o => raw ← raw_data b; Some (raw, o) | StrsSet set => Some (strset__data set, 0) end.
Definition hdr_of (b : btf) : option btf_header := '(m, o) ← at_place b (hdr b); load_hdr o m.

Definition btf_is_modifiable (b : btf) : bool := match hdr b with InRaw o => negb (o =? 0) | Own _ => true end.
Definition btf__type_cnt (b : btf) : Z := u32 (start_id b + nr_types b).

(** ** Reading the format *)

Definition check_layout (b : btf) : option Z :=
  h ← hdr_of b;
  if raw_size b <? hdr_len h then Some (- EINVAL)
  else if u32 (raw_size b - hdr_len h) <? str_off h + str_len h then Some (- EINVAL)
  else if str_off h <? type_off h + type_len h then Some (- EINVAL)
  else if negb (type_off h mod 4 =? 0) then Some (- EINVAL)
  else Some 0.

Definition btf_parse_hdr (b : btf) : option (Z * btf) :=
  raw ← raw_data b;
  if raw_size b <? sizeof_header then Some (- EINVAL, b)
  else
    h ← hdr_of b;
    if magic h =? bswap 2 BTF_MAGIC then
      let b := with_swapped true b in
      if negb (bswap 4 (hdr_len h) =? sizeof_header) then Some (- ENOTSUP, b)
      else
        raw ← store 0 (hdr_bytes (btf_bswap_hdr h)) raw;
        let b := with_raw (Some raw) b in
        err ← check_layout b; Some (err, b)
    else if negb (magic h =? BTF_MAGIC) then Some (- EINVAL, b)
    else err ← check_layout b; Some (err, b).

Definition btf_parse_str_sec (b : btf) : option Z :=
  h ← hdr_of b;
  '(m, start) ← btf_strs_data b;
  let split := bool_decide (is_Some (base_btf b)) in
  if split && (str_len h =? 0) then Some 0
  else if (str_len h =? 0) || (BTF_MAX_STR_OFFSET <? str_len h - 1) then Some (- EINVAL)
  else
    last ← load 1 (start + str_len h - 1) m;
    if negb (last =? 0) then Some (- EINVAL)
    else if split then Some 0
    else first ← load 1 start m; Some (if negb (first =? 0) then - EINVAL else 0).

(** A step that does not allocate. *)
Definition lift {A} (a : option A) : prog heap A := λ h, a ← a; Some (a, h).

Section memory.
Context (malloc_ok : nat → bool).

(** Writing the next entry of the index; the array may have to grow first. *)
Definition btf_add_type_idx_entry (b : btf) (off : Z) : prog heap (Z * btf) := λ h,
  match libbpf_add_mem (default [] (type_offs b)) (type_offs_cap b) 4 (nr_types b) BTF_MAX_NR_TYPES 1 (malloc_ok (asked h)) with
  | None => Some ((- ENOMEM, b), mk_heap (S (asked h)) (live h) (l_errno h))
  | Some (offs, cap) =>
    if nr_types b <? length offs
    then Some ((0, with_offs (Some (<[Z.to_nat (nr_types b) := off]> offs)) cap (nr_types b) b),
               mk_heap (S (asked h)) (live h + 1 - one (type_offs b)) (l_errno h))
    else None
  end.

(** The loop of [btf_parse_type_sec]; [first] is [types_data], and each round takes 12 bytes at least. *)
Fixpoint parse_types (fuel : nat) (b : btf) (first next end_type : Z) : prog heap (Z * btf) :=
  match fuel with
  | O => pfault
  | S fuel =>
    if negb (next + sizeof_type <=? end_type) then pret (if negb (next =? end_type) then - EINVAL else 0, b)
    else
      let! raw := lift (raw_data b) in
      let! raw := lift (if swapped_endian b then btf_bswap_type_base next raw else Some raw) in
      let! t := lift (load_type next raw) in
      let type_size := btf_type_size t in
      if type_size <? 0 then pret (type_size, with_raw (Some raw) b)
      else if end_type <? next + type_size then pret (- EINVAL, with_raw (Some raw) b)
      else
        let! (err, raw) := lift (if swapped_endian b then btf_bswap_type_rest next raw else Some (0, raw)) in
        let b := with_raw (Some raw) b in
        if negb (err =? 0) then pret (- EINVAL, b)
        else
          let! (err, b) := btf_add_type_idx_entry b (u32 (next - first)) in
          if negb (err =? 0) then pret (err, b)
          else parse_types fuel (with_offs (type_offs b) (type_offs_cap b) (nr_types b + 1) b) first (next + type_size) end_type
  end.

Definition btf_parse_type_sec (b : btf) : prog heap (Z * btf) :=
  let! h := lift (hdr_of b) in
  let! (m, first) := lift (at_place b (types_data b)) in
  parse_types (S (length m)) b first first (first + type_len h).

(** The descriptor that is closed; a string set counts as one block. *)
Definition btf__free (b : option btf) : prog heap (option Z) :=
  match b with
  | None => pret None
  | Some b =>
    (if btf_is_modifiable b then
       free (match hdr b with Own d => Some d | InRaw _ => None end) ;;;
       free (match types_data b with Own d => Some d | InRaw _ => None end) ;;;
       free (match strs b with StrsSet s => Some s | StrsRaw _ => None end)
     else pret ()) ;;;
    free (raw_data b) ;;; free (raw_data_swapped b) ;;; free (type_offs b) ;;; free (Some b) ;;;
    pret (if 0 <=? btf_fd b then Some (btf_fd b) else None)
  end.

(** A new object, [calloc] and the first assignments. *)
Definition new_btf (base : option btf) : option btf :=
  match base with
  | None => Some (mk_btf None None None 0 false (InRaw 0) (InRaw 0) 0 None 0 0 1 0 (StrsRaw 0) false (-1) 0)
  | Some base =>
    h ← hdr_of base;
    Some (mk_btf (Some base) None None 0 false (InRaw 0) (InRaw 0) 0 None 0 0 (btf__type_cnt base) (str_len h) (StrsRaw 0) false (-1) 0)
  end.

Definition btf_new (data : list Z) (base : option btf) : prog heap (ptr btf) :=
  let fail_with (err : Z) (b : btf) : prog heap (ptr btf) := btf__free (Some b) ;;; pret (ErrPtr err) in
  let! ok := malloc malloc_ok in
  if negb ok then pret (ErrPtr (- ENOMEM))
  else
  let! b := lift (new_btf base) in
  let! ok := malloc malloc_ok in
  if negb ok then fail_with (- ENOMEM) b
  else
  let b := with_raw_size (Z.of_nat (length data)) (with_raw (Some data) b) in
  let! (err, b) := lift (btf_parse_hdr b) in
  if negb (err =? 0) then fail_with err b
  else
  let! h := lift (hdr_of b) in
  let b := with_sections (InRaw (hdr_len h + type_off h)) (StrsRaw (hdr_len h + str_off h)) b in
  let! err := lift (btf_parse_str_sec b) in
  if negb (err =? 0) then fail_with err b
  else
  let! (err, b) := btf_parse_type_sec b in
  if negb (err =? 0) then fail_with err b else pret (Ptr b).

(** The answer to [bpf_btf_get_info_by_fd] for a buffer of a size, at the first and at
    the second call: an error number, or what is in the buffer then and the size of
    the object. *)
Definition btf_info : Type := nat → Z → Z + list Z * Z.

(** [realloc] of a block that is held. *)
Definition realloc_block : prog heap bool := λ h, Some (malloc_ok (asked h), mk_heap (S (asked h)) (live h) (l_errno h)).

Definition btf_get_from_fd (info : btf_info) (base : option btf) : prog heap (ptr btf) :=
  let exit_free (p : ptr btf) : prog heap (ptr btf) := free (Some ()) ;;; pret p in
  let finish (last_size : Z) (answer : Z + list Z * Z) : prog heap (ptr btf) :=
    match answer with
    | inl e => exit_free (ErrPtr (- e))
    | inr (buf, size) =>
      if last_size <? size then exit_free (ErrPtr (- E2BIG))
      else let! data := lift (range 0 size buf) in let! p := btf_new data base in exit_free p
    end in
  let! ok := malloc malloc_ok in
  if negb ok then pret (ErrPtr (- ENOMEM))
  else
    match info 0%nat 4096 with
    | inr (buf, size) =>
      if 4096 <? size then
        let! ok := realloc_block in
        if negb ok then exit_free (ErrPtr (- ENOMEM)) else finish size (info 1%nat size)
      else finish 4096 (inr (buf, size))
    | inl e => finish 4096 (inl e)
    end.

Definition libbpf_ptr {A} (p : ptr A) : prog heap (option A) :=
  match p with ErrPtr e => fail (- e) | Null => pret None | Ptr a => pret (Some a) end.
Definition btf__new (data : list Z) : prog heap (option btf) := let! p := btf_new data None in libbpf_ptr p.

(** [get_fd] is the answer to [bpf_btf_get_fd_by_id]; the result comes with the descriptors that were closed. *)
Definition btf__load_from_kernel_by_id_split (get_fd : Z + Z) (info : Z → btf_info) (base : option btf) : prog heap (option btf * list Z) :=
  match get_fd with
  | inl e => let! r := fail e in pret (r, [])
  | inr fd => let! p := btf_get_from_fd (info fd) base in let! r := libbpf_ptr p in pret (r, [fd])
  end.
Definition btf__load_from_kernel_by_id (get_fd : Z + Z) (info : Z → btf_info) : prog heap (option btf * list Z) :=
  btf__load_from_kernel_by_id_split get_fd info None.
End memory.

(** ** Looking up *)

(** A pointer to a type: the static [btf_void], or a place in a block. *)
Inductive type_ptr := VoidPtr | TypeAt (m : list Z) (o : Z).
Definition deref_type (p : type_ptr) : option btf_type :=
  match p with VoidPtr => Some (mk_type 0 0 0) | TypeAt m o => load_type o m end.
(** A field that follows the type. *)
Definition rest_field (p : type_ptr) (i : Z) : option Z :=
  match p with VoidPtr => None | TypeAt m o => load 4 (o + sizeof_type + i) m end.

Fixpoint btf_type_by_id (b : btf) (type_id : Z) : option type_ptr :=
  if type_id =? 0 then Some VoidPtr
  else if type_id <? start_id b then match base_btf b with Some base => btf_type_by_id base type_id | None => None end
  else
    '(m, o) ← at_place b (types_data b);
    offs ← type_offs b;
    off ← offs !! Z.to_nat (type_id - start_id b);
    Some (TypeAt m (o + off)).

Definition btf__type_by_id (b : btf) (type_id : Z) : option (Z + type_ptr) :=
  if btf__type_cnt b <=? type_id then Some (inl EINVAL) else inr <$> btf_type_by_id b type_id.

Fixpoint btf__str_by_offset (b : btf) (offset : Z) : option (Z + list Z * Z) :=
  if offset <? start_str_off b then match base_btf b with Some base => btf__str_by_offset base offset | None => None end
  else
    h ← hdr_of b;
    if offset - start_str_off b <? str_len h then
      '(m, o) ← btf_strs_data b; Some (inr (m, o + (offset - start_str_off b)))
    else Some (inl EINVAL).
Definition btf__name_by_offset (b : btf) (offset : Z) : option (Z + list Z * Z) := btf__str_by_offset b offset.

(** The name that the code compares, [None] for a null pointer. *)
Definition name_at (b : btf) (offset : Z) : option (option (list Z)) :=
  p ← btf__name_by_offset b offset;
  match p with inl _ => Some None | inr (m, o) => Some <$> read_str o m end.

Definition long_aliases : list (list Z) :=
  bytes_of <$> ["long"; "long int"; "int long"; "unsigned long"; "long unsigned"; "unsigned long int"; "unsigned int long";
    "long unsigned int"; "long int unsigned"; "int unsigned long"; "int long unsigned"]%string.

(** The loop of [determine_ptr_size], [n] more types from [i]. *)
Fixpoint find_long (n : nat) (b : btf) (i : Z) : option Z :=
  match n with
  | O => Some (-1)
  | S n =>
    p ← btf__type_by_id b i;
    match p with
    | inl _ => None
    | inr p =>
      t ← deref_type p;
      if negb (btf_is_int t) then find_long n b (i + 1)
      else if negb (size_type t =? 4) && negb (size_type t =? 8) then find_long n b (i + 1)
      else
        name ← name_at b (name_off t);
        match name with
        | None => find_long n b (i + 1)
        | Some name => if bool_decide (name ∈ long_aliases) then Some (size_type t) else find_long n b (i + 1)
        end
    end
  end.
Definition determine_ptr_size (b : btf) : option Z :=
  match base_btf b with
  | Some base => if 0 <? ptr_sz base then Some (ptr_sz base) else find_long (Z.to_nat (s32 (btf__type_cnt b) - 1)) b 1
  | None => find_long (Z.to_nat (s32 (btf__type_cnt b) - 1)) b 1
  end.

(** The pointer size is guessed once and kept in the object. *)
Definition guess_ptr_sz : prog btf () := λ b,
  if ptr_sz b =? 0 then n ← determine_ptr_size b; Some ((), with_ptr_sz n b) else Some ((), b).
Definition btf_ptr_sz : prog btf Z := guess_ptr_sz ;;; λ b, Some (if ptr_sz b <? 0 then 8 else ptr_sz b, b).
Definition btf__pointer_size : prog btf Z := guess_ptr_sz ;;; λ b, Some (if ptr_sz b <? 0 then 0 else ptr_sz b, b).
Definition btf__set_pointer_size (n : Z) : prog btf Z := λ b,
  if negb (n =? 4) && negb (n =? 8) then Some (- EINVAL, b) else Some (0, with_ptr_sz n b).

(** A step that only reads the object. *)
Definition look {A} (f : btf → option A) : prog btf A := λ b, a ← f b; Some (a, b).

(** [btf_type_is_void_or_null], for the result of [btf__type_by_id]. *)
Definition type_is_void_or_null (p : Z + type_ptr) : option bool :=
  match p with
  | inl _ | inr VoidPtr => Some true
  | inr p => btf_is_fwd <$> deref_type p
  end.

Definition MAX_RESOLVE_DEPTH : nat := 32.
Definition UINT32_MAX : Z := 2 ^ 32 - 1.

(** The end of [btf__resolve_size], after its loop. *)
Definition resolved (nelems size : Z) : Z :=
  if size <? 0 then - EINVAL
  else if negb (nelems =? 0) && (UINT32_MAX / nelems <? size) then - E2BIG
  else nelems * size.

Fixpoint resolve_loop (n : nat) (p : Z + type_ptr) (nelems : Z) : prog btf Z :=
  match n with
  | O => pret (resolved nelems (-1))
  | S n =>
    let! stop := look (λ _, type_is_void_or_null p) in
    if stop then pret (resolved nelems (-1))
    else
      match p with
      | inl _ => pfault
      | inr p =>
        let! t := look (λ _, deref_type p) in
        match btf_kind t with
        | Some (BTF_KIND_INT | BTF_KIND_STRUCT | BTF_KIND_UNION | BTF_KIND_ENUM | BTF_KIND_ENUM64 | BTF_KIND_DATASEC | BTF_KIND_FLOAT) =>
            pret (resolved nelems (size_type t))
        | Some BTF_KIND_PTR => let! sz := btf_ptr_sz in pret (resolved nelems sz)
        | Some (BTF_KIND_TYPEDEF | BTF_KIND_VOLATILE | BTF_KIND_CONST | BTF_KIND_RESTRICT | BTF_KIND_VAR | BTF_KIND_DECL_TAG | BTF_KIND_TYPE_TAG) =>
            let! p := look (λ b, btf__type_by_id b (size_type t)) in resolve_loop n p nelems
        | Some BTF_KIND_ARRAY =>
            let! array_type := look (λ _, rest_field p 0) in
            let! array_nelems := look (λ _, rest_field p 8) in
            if negb (nelems =? 0) && (UINT32_MAX / nelems <? array_nelems) then pret (- E2BIG)
            else
              let! p := look (λ b, btf__type_by_id b array_type) in resolve_loop n p (u32 (nelems * array_nelems))
        | _ => pret (- EINVAL)
        end
      end
  end.

Definition btf__resolve_size (type_id : Z) : prog btf Z :=
  let! p := look (λ b, btf__type_by_id b type_id) in resolve_loop MAX_RESOLVE_DEPTH p 1.

(** The loop over the members of a structure in [btf__align_of], [n] more from
    [i] on; [align] is the recursive call. *)
Fixpoint align_members (align : Z → prog btf (option Z)) (t : btf_type) (p : type_ptr) (n : nat) (i max_align : Z) : prog btf (option Z) :=
  match n with
  | O => pret (Some (if negb (size_type t mod max_align =? 0) then 1 else max_align))
  | S n =>
    let! type := look (λ _, rest_field p (12 * i + 4)) in
    let! a := align type in
    match a with
    | None => pret None
    | Some a =>
      if a <=? 0 then pret (Some a)
      else
        let! offset := look (λ _, rest_field p (12 * i + 8)) in
        let bitfield_size := if btf_kflag t then Z.shiftr offset 24 else 0 in
        if (bitfield_size =? 0) && negb (offset mod (8 * a) =? 0) then pret (Some 1)
        else align_members align t p n (i + 1) (Z.max max_align a)
    end
  end.

(** Recursive calls are counted by [fuel], and [None] says that it is used up:
    nothing in the code bounds the depth. *)
Fixpoint align_of (fuel : nat) (id : Z) : prog btf (option Z) :=
  match fuel with
  | O => pret None
  | S fuel =>
    let! p := look (λ b, btf__type_by_id b id) in
    match p with
    | inl _ => pfault
    | inr p =>
      let! t := look (λ _, deref_type p) in
      match btf_kind t with
      | Some (BTF_KIND_INT | BTF_KIND_ENUM | BTF_KIND_ENUM64 | BTF_KIND_FLOAT) =>
          let! sz := btf_ptr_sz in pret (Some (s32 (Z.min sz (size_type t))))
      | Some BTF_KIND_PTR => let! sz := btf_ptr_sz in pret (Some sz)
      | Some (BTF_KIND_TYPEDEF | BTF_KIND_VOLATILE | BTF_KIND_CONST | BTF_KIND_RESTRICT | BTF_KIND_TYPE_TAG) => align_of fuel (size_type t)
      | Some BTF_KIND_ARRAY => let! elem := look (λ _, rest_field p 0) in align_of fuel elem
      | Some (BTF_KIND_STRUCT | BTF_KIND_UNION) =>
          align_members (align_of fuel) t p (Z.to_nat (btf_vlen t)) 0 1
      | _ => pret (Some 0)
      end
    end
  end.
(** As many calls as the call stack allows. *)
Definition btf__align_of (depth : nat) (id : Z) : prog btf (option Z) := align_of depth id.

Fixpoint resolve_type_loop (n : nat) (b : btf) (type_id : Z) (p : Z + type_ptr) : option Z :=
  match n with
  | O => Some (- EINVAL)
  | S n =>
    match type_is_void_or_null p, p with
    | None, _ => None
    | Some true, _ => Some (- EINVAL)
    | Some false, inl _ => None
    | Some false, inr p =>
      t ← deref_type p;
      if btf_is_mod t || btf_is_typedef t || btf_is_var t then
        p ← btf__type_by_id b (size_type t); resolve_type_loop n b (size_type t) p
      else Some type_id
    end
  end.
Definition btf__resolve_type (b : btf) (type_id : Z) : option Z :=
  p ← btf__type_by_id b type_id; resolve_type_loop MAX_RESOLVE_DEPTH b type_id p.

Definition void_name : list Z := bytes_of "void".

(** The types from [i], [n] of them; [want] is the test on the kind, if there is one. *)
Fixpoint find_name (n : nat) (b : btf) (i : Z) (want : option Z) (type_name : list Z) : option Z :=
  match n with
  | O => Some (- ENOENT)
  | S n =>
    p ← btf__type_by_id b i;
    match p with
    | inl _ => None
    | inr p =>
      t ← deref_type p;
      if bool_decide (want = None ∨ want = Some (kind_no t)) then
        name ← name_at b (name_off t);
        if bool_decide (name = Some type_name) then Some i else find_name n b (i + 1) want type_name
      else find_name n b (i + 1) want type_name
    end
  end.
Definition btf__find_by_name (b : btf) (type_name : list Z) : option Z :=
  if bool_decide (type_name = void_name) then Some 0
  else find_name (Z.to_nat (btf__type_cnt b - 1)) b 1 None type_name.
Definition btf_find_by_name_kind (b : btf) (start_id : Z) (type_name : list Z) (kind : Z) : option Z :=
  if (kind =? 0) || bool_decide (type_name = void_name) then Some 0
  else find_name (Z.to_nat (btf__type_cnt b - start_id)) b start_id (Some kind) type_name.
Definition btf__find_by_name_kind_own (b : btf) (type_name : list Z) (kind : Z) : option Z :=
  btf_find_by_name_kind b (start_id b) type_name kind.
Definition btf__find_by_name_kind (b : btf) (type_name : list Z) (kind : Z) : option Z :=
  btf_find_by_name_kind b 1 type_name kind.

(** ** Writing the format *)

Definition BTF_LITTLE_ENDIAN : Z := 0.
Definition BTF_BIG_ENDIAN : Z := 1.
Definition btf__endianness (b : btf) : Z := if swapped_endian b then BTF_BIG_ENDIAN else BTF_LITTLE_ENDIAN.
Definition btf__set_endianness (b : btf) (endian : Z) : prog heap (Z * btf) :=
  if negb (endian =? BTF_LITTLE_ENDIAN) && negb (endian =? BTF_BIG_ENDIAN) then pret (- EINVAL, b)
  else
    let b := with_swapped (endian =? BTF_BIG_ENDIAN) b in
    if swapped_endian b then pret (0, b) else free (raw_data_swapped b) ;;; pret (0, with_raw_swapped None b).

(** [memcpy] of [n] bytes to offset [p] of a block. *)
Definition memcpy (p : Z) (src : list Z * Z) (n : Z) (d : list Z) : option (list Z) :=
  s ← range (src.2) n (src.1); store p s d.

(** The types at [p] put into the other byte order; [None] inside for an error. *)
Fixpoint swap_types (p : Z) (offs : list Z) (d : list Z) : option (option (list Z)) :=
  match offs with
  | [] => Some (Some d)
  | off :: offs =>
    '(err, d) ← btf_bswap_type_rest (p + off) d;
    if negb (err =? 0) then Some None
    else d ← btf_bswap_type_base (p + off) d; swap_types p offs d
  end.

(** Header, types and strings one after the other, in a new block of [n] bytes. *)
Definition serialize (b : btf) (n : Z) (swap_endian : bool) : option (option (list Z)) :=
  h ← hdr_of b;
  hdr_at ← at_place b (hdr b);
  d ← memcpy 0 hdr_at (hdr_len h) (replicate (Z.to_nat n) 0);
  d ← (if swap_endian then h ← load_hdr 0 d; store 0 (hdr_bytes (btf_bswap_hdr h)) d else Some d);
  types_at ← at_place b (types_data b);
  d ← memcpy (hdr_len h) types_at (type_len h) d;
  r ← (if swap_endian then swap_types (hdr_len h) (take (Z.to_nat (nr_types b)) (default [] (type_offs b))) d else Some (Some d));
  match r with
  | None => Some None
  | Some d => strs_at ← btf_strs_data b; Some <$> memcpy (hdr_len h + type_len h) strs_at (str_len h) d
  end.

Section raw_data.
Context (malloc_ok : nat → bool).

Definition btf_get_raw_data (b : btf) (swap_endian : bool) : prog heap (option (list Z * Z)) :=
  match if swap_endian then raw_data_swapped b else raw_data b with
  | Some d => pret (Some (d, raw_size b))
  | None =>
    let! h := lift (hdr_of b) in
    let data_sz := u32 (hdr_len h + type_len h + str_len h) in
    let! ok := malloc malloc_ok in
    if negb ok then pret None
    else
      let! r := lift (serialize b data_sz swap_endian) in
      match r with
      | None => free (Some ()) ;;; pret None
      | Some d => pret (Some (d, data_sz))
      end
  end.

(** The data and its size, and the object, which keeps them. *)
Definition btf__raw_data (b : btf) : prog heap (option (list Z * Z) * btf) :=
  let! r := btf_get_raw_data b (swapped_endian b) in
  match r with
  | None => let! _ := fail (A := ()) ENOMEM in pret (None, b)
  | Some (d, sz) =>
    let b := with_raw_size sz b in
    pret (Some (d, sz), if swapped_endian b then with_raw_swapped (Some d) b else with_raw (Some d) b)
  end.
End raw_data.
