(* ===== verification/BtfSpec.v ===== *)
(** * libbpf: what type information means

    Type information is a list of types, each a list of 32-bit words: three for
    [struct btf_type] and those that follow it for its kind.  The functions of
    [Btf] accept exactly the encodings of such lists, in either byte order, and
    look-ups, sizes and alignments are described on the list. *)

From S2P Require Import Prelude Errno Bytes Hashmap Strset Heap Btf.
Local Open Scope Z_scope.

(** ** Words in either byte order *)

Definition word_bytes (e : bool) (w : Z) : list Z := if e then reverse (le_bytes 4 w) else le_bytes 4 w.
Fixpoint words_bytes (e : bool) (ws : list Z) : list Z :=
  match ws with [] => [] | w :: ws => word_bytes e w ++ words_bytes e ws end.

Lemma length_word_list e w : length (word_bytes e w) = 4%nat.
Proof. destruct e; cbn [word_bytes]; rewrite ?length_reverse; apply length_le_bytes. Qed.
Lemma word_bytes_ok e w : bytes_ok (word_bytes e w).
Proof. destruct e; cbn [word_bytes]; [apply Forall_reverse|]; apply le_bytes_ok. Qed.
Lemma length_words_bytes e ws : length (words_bytes e ws) = (4 * length ws)%nat.
Proof. induction ws as [|w ws IH]; cbn; [done|]. rewrite length_app, length_word_list, IH. lia. Qed.
Lemma words_bytes_ok e ws : bytes_ok (words_bytes e ws).
Proof. induction ws; cbn; [done|]. apply Forall_app. split; [apply word_bytes_ok|done]. Qed.
Lemma words_bytes_app e ws1 ws2 : words_bytes e (ws1 ++ ws2) = words_bytes e ws1 ++ words_bytes e ws2.
Proof. induction ws1 as [|w ws1 IH]; [done|]. cbn. by rewrite IH, (assoc_L (++)). Qed.

Lemma reverse_word_bytes e w : reverse (word_bytes e w) = word_bytes (negb e) w.
Proof. unfold word_bytes. destruct e; cbn [negb]; [|done]. apply reverse_involutive. Qed.
Lemma le_bytes_bswap n z : le_bytes n (bswap n z) = reverse (le_bytes n z).
Proof.
  unfold bswap. assert (length (reverse (le_bytes n z)) = n) as E by (rewrite length_reverse; apply length_le_bytes).
  rewrite <- E at 1. apply le_bytes_le_val, Forall_reverse, le_bytes_ok.
Qed.
Lemma bswap_word (n : nat) z : is_word (8 * n) (bswap n z).
Proof.
  unfold bswap. pose proof (le_val_range (reverse (le_bytes n z)) ltac:(apply Forall_reverse, le_bytes_ok)) as H.
  by rewrite length_reverse, length_le_bytes in H.
Qed.
Lemma bswap_bswap (n : nat) z : is_word (8 * n) z → bswap n (bswap n z) = z.
Proof.
  intros Hz. unfold bswap at 1. rewrite le_bytes_bswap, reverse_involutive, le_val_le_bytes. by apply wrap_small.
Qed.
Lemma bswap_inj (n : nat) a b : is_word (8 * n) a → is_word (8 * n) b → bswap n a = bswap n b → a = b.
Proof. intros Ha Hb E. by rewrite <- (bswap_bswap n a), E, bswap_bswap. Qed.
Lemma le_val_word_bytes (e : bool) w : is_word 32 w → le_val (word_bytes e w) = if e then bswap 4 w else w.
Proof. intros Hw. destruct e; cbn [word_bytes]; [done|]. rewrite le_val_le_bytes. by apply wrap_small. Qed.
Lemma word_bytes_inj e a b : is_word 32 a → is_word 32 b → word_bytes e a = word_bytes e b → a = b.
Proof.
  intros Ha Hb E. assert (le_bytes 4 a = le_bytes 4 b) as E' by (destruct e; [by apply (inj reverse)|done]).
  apply (f_equal le_val) in E'. rewrite !le_val_le_bytes in E'. by rewrite !(wrap_small (8 * 4%nat)) in E'.
Qed.
Lemma words_bytes_inj e a b r r' : Forall (is_word 32) a → Forall (is_word 32) b → length a = length b →
  words_bytes e a ++ r = words_bytes e b ++ r' → a = b ∧ r = r'.
Proof.
  revert b. induction a as [|x a IH]; intros [|y b] Ha Hb Hl E; try done. cbn in E. rewrite <- !(assoc_L (++)) in E.
  apply app_inj_1 in E as [E1 E2]; [|by rewrite !length_word_list]. rewrite Forall_cons in Ha, Hb. destruct Ha as [? Ha], Hb as [? Hb].
  apply word_bytes_inj in E1 as ->; [|done..]. destruct (IH b Ha Hb) as [-> ->]; [by injection Hl|done|done].
Qed.

(** Any four bytes are a word. *)
Lemma bytes_word e l : bytes_ok l → length l = 4%nat → ∃ w, is_word 32 w ∧ l = word_bytes e w.
Proof.
  intros Hl Hn. destruct e.
  - exists (le_val (reverse l)). split.
    + pose proof (le_val_range (reverse l) ltac:(by apply Forall_reverse)) as H. by rewrite length_reverse, Hn in H.
    + unfold word_bytes. rewrite <- Hn, <- (length_reverse l), le_bytes_le_val by (by apply Forall_reverse). by rewrite reverse_involutive.
  - exists (le_val l). split; [pose proof (le_val_range l Hl) as H; by rewrite Hn in H|]. unfold word_bytes. rewrite <- Hn. by rewrite le_bytes_le_val.
Qed.
Lemma bytes_words e n l : bytes_ok l → (4 * n ≤ length l)%nat →
  ∃ ws, length ws = n ∧ Forall (is_word 32) ws ∧ l = words_bytes e ws ++ drop (4 * n) l.
Proof.
  revert l. induction n as [|n IH]; intros l Hl Hn; [by exists []|].
  destruct (bytes_word e (take 4 l)) as (w & Hw & Ew); [by apply Forall_take|rewrite length_take; lia|].
  destruct (IH (drop 4 l)) as (ws & Hlen & Hws & Ews); [by apply Forall_drop|rewrite length_drop; lia|].
  exists (w :: ws). cbn [length words_bytes]. split; [lia|]. split; [by constructor|].
  rewrite <- (assoc_L (++)), <- Ew. rewrite drop_drop in Ews. replace (4 * S n)%nat with (4 + 4 * n)%nat by lia.
  by rewrite <- Ews, take_drop.
Qed.

Lemma load_at n (pre v post : list Z) o : o = Z.of_nat (length pre) → n = Z.of_nat (length v) → load n o (pre ++ v ++ post) = Some (le_val v).
Proof.
  intros -> ->. unfold load. rewrite range_Some by (rewrite ?length_app; lia). cbn. do 2 f_equal.
  replace (Z.of_nat (length pre)) with (length pre + 0) by lia. rewrite sub_app_at by lia. unfold sub. rewrite Nat2Z.id. apply take_app_length.
Qed.

(** Swapping the fields changes the byte order. *)
Lemma bswap_fields_ok e ws pre post o : o = Z.of_nat (length pre) →
  bswap_fields (length ws) o (pre ++ words_bytes e ws ++ post) = Some (pre ++ words_bytes (negb e) ws ++ post).
Proof.
  revert pre o. induction ws as [|w ws IH]; intros pre o ->; [done|]. cbn [bswap_fields length words_bytes].
  rewrite <- !(assoc_L (++)). rewrite load_at by (rewrite ?length_word_list; done). cbn [mbind option_bind].
  rewrite le_bytes_bswap. assert (le_bytes 4 (le_val (word_bytes e w)) = word_bytes e w) as ->.
  { rewrite <- (length_word_list e w) at 1. apply le_bytes_le_val, word_bytes_ok. }
  rewrite reverse_word_bytes, store_at by (rewrite ?length_word_list; done). cbn [mbind option_bind].
  rewrite (assoc_L (++)). rewrite (IH (pre ++ word_bytes (negb e) w)) by (rewrite length_app, length_word_list; lia).
  by rewrite <- (assoc_L (++)).
Qed.
Lemma bswap_fields_add a b o m : bswap_fields (a + b) o m = m ← bswap_fields a o m; bswap_fields b (o + 4 * a) m.
Proof.
  revert o m. induction a as [|a IH]; intros o m; cbn [bswap_fields Nat.add mbind option_bind]; [by rewrite Z.mul_0_r, Z.add_0_r|].
  destruct (load 4 o m) as [w|]; [|done]. cbn [mbind option_bind]. destruct (store _ _ m) as [m'|]; [|done]. cbn [mbind option_bind].
  rewrite IH. destruct (bswap_fields a (o + 4) m'); [|done]. cbn [mbind option_bind]. f_equal. lia.
Qed.
Lemma bswap_each_fields n k o m : bswap_each n k o m = bswap_fields (n * k) o m.
Proof.
  revert o m. induction n as [|n IH]; intros o m; [done|]. cbn [bswap_each Nat.mul]. rewrite bswap_fields_add.
  destruct (bswap_fields k o m); [|done]. cbn [mbind option_bind]. apply IH.
Qed.

(** ** Types as words *)

Abbreviation ty := (list Z).
Definition ty_head (w : ty) : option btf_type := match w with n :: i :: s :: _ => Some (mk_type n i s) | _ => None end.
(** The format: how many words follow a type, by the number of its kind (bits 24
    to 28 of [info]) and of its elements (bits 0 to 15).  An integer, a variable
    and a declaration tag have one more word, an array three, an enumeration and
    a prototype two for each element, a structure, a union, a data section and an
    enumeration of 64-bit values three; no other number is a kind. *)
Definition words_after (info : Z) : option nat :=
  let n := Z.to_nat (info mod 2 ^ 16) in
  match (info / 2 ^ 24) mod 32 with
  | 2 | 7 | 8 | 9 | 10 | 11 | 12 | 16 | 18 => Some 0%nat
  | 1 | 14 | 17 => Some 1%nat
  | 3 => Some 3%nat
  | 6 | 13 => Some (2 * n)%nat
  | 4 | 5 | 15 | 19 => Some (3 * n)%nat
  | _ => None
  end.
Definition ty_ok (w : ty) : Prop :=
  Forall (is_word 32) w ∧ ∃ t rest, w = name_off t :: info t :: size_type t :: rest ∧ words_after (info t) = Some (length rest).
(** The same number from the size that the code computes. *)
Definition rest_words (t : btf_type) : nat := Z.to_nat ((btf_type_size t - sizeof_type) / 4).
(** The types one after the other, and where each one starts. *)
Definition section_bytes (e : bool) (ts : list ty) : list Z := words_bytes e (mjoin ts).
Definition start_of (ts : list ty) (i : nat) : Z := 4 * length (mjoin (take i ts) : list Z).

Lemma vlen_nonneg t : 0 ≤ btf_vlen t.
Proof. unfold btf_vlen. apply Z.land_nonneg. by right. Qed.
Lemma vlen_le t : btf_vlen t ≤ 65535.
Proof.
  unfold btf_vlen. change 65535 with (Z.ones 16). rewrite Z.land_ones by lia. change (Z.ones 16) with (2 ^ 16 - 1).
  pose proof (Z.mod_pos_bound (info t) (2 ^ 16)). lia.
Qed.
Lemma size_negative t : btf_type_size t < 0 → btf_type_size t = - EINVAL.
Proof. pose proof (vlen_nonneg t). unfold btf_type_size, sizeof_type. destruct (btf_kind t) as [[]|]; intros; lia. Qed.
Lemma size_rest t : 0 ≤ btf_type_size t → btf_type_size t = sizeof_type + 4 * rest_words t.
Proof.
  unfold rest_words. intros Hs. pose proof (vlen_nonneg t).
  assert ((btf_type_size t - sizeof_type) mod 4 = 0 ∧ sizeof_type ≤ btf_type_size t) as [Hm Hg].
  { unfold btf_type_size, sizeof_type, EINVAL in *. destruct (btf_kind t) as [[]|]; try lia; split; try lia; try done; dlia. }
  rewrite Z2Nat.id by (apply Z.div_pos; lia). unfold sizeof_type in *. dlia.
Qed.
Lemma size_bound t : btf_type_size t ≤ 12 + 12 * 65535.
Proof. pose proof (vlen_nonneg t). pose proof (vlen_le t). unfold btf_type_size, sizeof_type, EINVAL. destruct (btf_kind t) as [[]|]; lia. Qed.

(** The code's sizes are those of the format. *)
Lemma words_sized t n : words_after (info t) = Some n ↔ 0 ≤ btf_type_size t ∧ n = rest_words t.
Proof.
  assert (kind_no t = (info t / 2 ^ 24) mod 32) as Ek.
  { unfold kind_no. change 0x1f with (Z.ones 5). rewrite Z.land_ones, Z.shiftr_div_pow2 by lia. done. }
  assert (btf_vlen t = info t mod 2 ^ 16) as Ev.
  { unfold btf_vlen. change 0xffff with (Z.ones 16). by rewrite Z.land_ones. }
  unfold words_after, rest_words, btf_type_size, btf_kind. rewrite Ek, Ev. unfold sizeof_type, EINVAL.
  pose proof (Z.mod_pos_bound (info t / 2 ^ 24) 32 ltac:(lia)) as Hk. pose proof (Z.mod_pos_bound (info t) (2 ^ 16) ltac:(lia)) as Hv.
  revert Hk Hv. generalize ((info t / 2 ^ 24) mod 32) (info t mod 2 ^ 16). intros k v Hk Hv.
  assert (∀ m z : Z, 0 ≤ m → z = 12 + 4 * m → Some (Z.to_nat m) = Some n ↔ 0 ≤ z ∧ n = Z.to_nat ((z - 12) / 4)) as Hn.
  { intros m z Hm ->. replace ((12 + 4 * m - 12) / 4) with m by dlia. split; [intros [= <-]; lia|intros [_ ->]; done]. }
  assert (None = Some n ↔ 0 ≤ -22 ∧ n = Z.to_nat ((-22 - 12) / 4)) as H0 by (split; [done|lia]).
  assert (Z.to_nat k ∈ seq 0 32) as Hin by (apply elem_of_seq; lia). rewrite <- (Z2Nat.id k), Nat2Z.id by lia.
  replace (2 * Z.to_nat v)%nat with (Z.to_nat (2 * v)) by lia. replace (3 * Z.to_nat v)%nat with (Z.to_nat (3 * v)) by lia.
  change (Some 0%nat) with (Some (Z.to_nat 0)). change (Some 1%nat) with (Some (Z.to_nat 1)). change (Some 3%nat) with (Some (Z.to_nat 3)).
  revert Hin. generalize (Z.to_nat k). intros i Hin.
  repeat (apply elem_of_cons in Hin as [->|Hin]; [cbn -[Z.to_nat Z.mul Z.add Z.div Z.sub]; first [exact H0|simple refine (Hn _ _ _ _); lia]|]).
  by apply elem_of_nil in Hin.
Qed.

Lemma swap_rest_fields o m t : load_type o m = Some t → 0 ≤ btf_type_size t →
  btf_bswap_type_rest o m = pair 0 <$> bswap_fields (rest_words t) (o + sizeof_type) m.
Proof.
  intros Hl Hs. unfold btf_bswap_type_rest, rest_words. rewrite Hl. cbn [mbind option_bind]. rewrite !bswap_each_fields.
  pose proof (vlen_nonneg t). unfold btf_type_size, sizeof_type, EINVAL in *.
  destruct (btf_kind t) as [[]|]; try lia; try done; do 2 f_equal; dlia.
Qed.

Lemma ty_ok_head w : ty_ok w → ∃ t rest, w = name_off t :: info t :: size_type t :: rest ∧ ty_head w = Some t ∧
  btf_type_size t = 4 * length w ∧ length rest = rest_words t ∧ 0 ≤ btf_type_size t.
Proof.
  intros (_ & t & rest & -> & [Hs Hr]%words_sized). exists t, rest. split; [done|]. split; [by destruct t|]. split; [|done].
  rewrite (size_rest t Hs), <- Hr. unfold sizeof_type. cbn. lia.
Qed.
Lemma ty_ok_inv t rest : ty_ok (name_off t :: info t :: size_type t :: rest) → 0 ≤ btf_type_size t ∧ length rest = rest_words t.
Proof. intros (_ & [a i c] & rest' & [= E1 E2 E3 <-] & [Hs Hr]%words_sized). cbn in E1, E2, E3. subst. by destruct t. Qed.
Lemma ty_ok_length w : ty_ok w → (3 ≤ length w)%nat.
Proof. intros (_ & t & rest & -> & _). cbn. lia. Qed.

(** The three words of a type in a block. *)
Lemma load_type_at pre t rest post o : o = Z.of_nat (length pre) → Forall (is_word 32) [name_off t; info t; size_type t] →
  load_type o (pre ++ words_bytes false (name_off t :: info t :: size_type t :: rest) ++ post) = Some t.
Proof.
  intros -> Hw. rewrite !Forall_cons in Hw. destruct Hw as (H1 & H2 & H3 & _). cbn [words_bytes]. rewrite <- !(assoc_L (++)).
  unfold load_type. rewrite (load_at 4 pre (word_bytes false (name_off t)) _ (length pre)) by (rewrite ?length_word_list; done). cbn [mbind option_bind].
  rewrite (assoc_L (++) pre). rewrite (load_at 4 (pre ++ _) (word_bytes false (info t)) _ (length pre + 4)) by (rewrite ?length_app, ?length_word_list; lia). cbn [mbind option_bind].
  rewrite (assoc_L (++) (pre ++ _)). rewrite (load_at 4 _ (word_bytes false (size_type t)) _ (length pre + 8)) by (rewrite ?length_app, ?length_word_list; lia). cbn [mbind option_bind].
  rewrite !le_val_word_bytes by done. by destruct t.
Qed.

(** ** Reading the types *)

Lemma section_cons e w ts : section_bytes e (w :: ts) = words_bytes e w ++ section_bytes e ts.
Proof. unfold section_bytes. cbn. apply words_bytes_app. Qed.
Lemma section_snoc e w ts : section_bytes e (ts ++ [w]) = section_bytes e ts ++ words_bytes e w.
Proof. unfold section_bytes. rewrite join_app, words_bytes_app. cbn. by rewrite app_nil_r. Qed.
Lemma length_section e ts : length (section_bytes e ts) = (4 * length (mjoin ts : list Z))%nat.
Proof. apply length_words_bytes. Qed.
Lemma start_of_end ts us : start_of (ts ++ us) (length ts) = length (section_bytes false ts).
Proof. unfold start_of. rewrite take_app_length, length_section. lia. Qed.
Lemma start_of_app ts us i : (i ≤ length ts)%nat → start_of (ts ++ us) i = start_of ts i.
Proof. intros. unfold start_of. by rewrite take_app_le by done. Qed.

(** A section that starts with three words starts with a type that has them. *)
Lemma section_head e ts t rem : Forall ty_ok ts → Forall (is_word 32) [name_off t; info t; size_type t] →
  section_bytes e ts = words_bytes e [name_off t; info t; size_type t] ++ rem →
  ∃ rest ts', ts = (name_off t :: info t :: size_type t :: rest) :: ts' ∧ rem = words_bytes e rest ++ section_bytes e ts'.
Proof.
  intros Hts Ht E. destruct ts as [|w ts].
  { apply (f_equal length) in E. rewrite length_app, length_words_bytes in E. cbn in E. lia. }
  apply Forall_cons in Hts as [(Hw & t' & rest & -> & _) _]. rewrite section_cons in E.
  change (name_off t' :: info t' :: size_type t' :: rest) with ([name_off t'; info t'; size_type t'] ++ rest) in E, Hw.
  rewrite words_bytes_app, <- (assoc_L (++)) in E. apply Forall_app in Hw as [Hw _].
  apply words_bytes_inj in E as [E <-]; [|done..]. injection E as -> -> ->. eauto.
Qed.

Record index_ok (b : btf) (ts : list ty) : Prop := {
  ix_nr : nr_types b = Z.of_nat (length ts);
  ix_cap : type_offs_cap b = Z.of_nat (length (default [] (type_offs b)));
  ix_max : type_offs_cap b ≤ BTF_MAX_NR_TYPES;
  ix_offs : ∀ i, (i < length ts)%nat → default [] (type_offs b) !! i = Some (start_of ts i) }.

Section parse.
Context (malloc_ok : nat → bool).

Lemma add_idx_ok b ts w off h : index_ok b ts → off = Z.of_nat (length (section_bytes false ts)) → length ts < BTF_MAX_NR_TYPES →
  wp (btf_add_type_idx_entry malloc_ok b off) h (λ r h',
    r = (- ENOMEM, b) ∧ live h' = live h ∧ (∃ n, malloc_ok n = false) ∨
    ∃ offs cap, r = (0, with_offs (Some offs) cap (nr_types b) b) ∧ live h' = live h + 1 - one (type_offs b) ∧
      index_ok (with_offs (Some offs) cap (nr_types b + 1) b) (ts ++ [w])).
Proof.
  intros [Hn Hc Hm Ho] -> Hl. unfold wp, btf_add_type_idx_entry, BTF_MAX_NR_TYPES in *.
  assert (length ts ≤ length (default [] (type_offs b))) as Hle.
  { destruct (decide (length ts = 0%nat)); [lia|]. pose proof (lookup_lt_Some _ _ _ (Ho (length ts - 1)%nat ltac:(lia))). lia. }
  destruct (add_mem_cases (default [] (type_offs b)) (type_offs_cap b) 4 (nr_types b) 0x7fffffff 1 (malloc_ok (asked h)))
    as [[-> Hw]|(k & -> & Hk & Hkm)]; unfold PTRDIFF_MAX in *; try lia.
  { left. split; [done|]. split; [done|]. destruct Hw as [?|[?|?]]; [eauto|lia|lia]. }
  rewrite (proj2 (Z.ltb_lt _ _)) by (rewrite length_app, length_replicate; lia). right. eexists _, _. split; [done|]. split; [done|].
  split; cbn.
  - rewrite length_app. cbn. lia.
  - rewrite length_insert, length_app, length_replicate. lia.
  - unfold BTF_MAX_NR_TYPES. lia.
  - intros i Hi. rewrite length_app in Hi. cbn in Hi. rewrite Hn, Nat2Z.id. destruct (decide (i = length ts)) as [->|Hne].
    + rewrite list_lookup_insert_eq by (rewrite length_app, length_replicate; lia). f_equal. symmetry. apply start_of_end.
    + rewrite list_lookup_insert_ne by done. rewrite lookup_app_l by lia. rewrite start_of_app by lia. apply Ho. lia.
Qed.

(** What the loop leaves: other types and offsets, and as many blocks more. *)
Definition parsed (e : bool) (pre rem post : list Z) (ts : list ty) (b : btf) (h : heap) (r : Z * btf) (h' : heap) : Prop :=
  ∃ raw offs cap nr, r.2 = with_offs offs cap nr (with_raw (Some raw) b) ∧ live h' = live h + one offs - one (type_offs b) ∧
    ((r.1 < 0 ∧ ((∃ n, malloc_ok n = false) ∨ ∀ us, Forall ty_ok us → rem ≠ section_bytes e us)) ∨
     (r.1 = 0 ∧ ∃ us, Forall ty_ok us ∧ rem = section_bytes e us ∧ raw = pre ++ section_bytes false (ts ++ us) ++ post ∧ index_ok r.2 (ts ++ us))).

Lemma parsed_fail e pre rem post ts b h raw offs cap nr err h' : err < 0 →
  (∃ n, malloc_ok n = false) ∨ (∀ us, Forall ty_ok us → rem ≠ section_bytes e us) → live h' = live h + one offs - one (type_offs b) →
  parsed e pre rem post ts b h (err, with_offs offs cap nr (with_raw (Some raw) b)) h'.
Proof. intros He Hw Hl. exists raw, offs, cap, nr. split; [done|]. split; [done|]. by left. Qed.

Lemma with_raw_eq raw b : with_raw raw b = with_offs (type_offs b) (type_offs_cap b) (nr_types b) (with_raw raw b).
Proof. by destruct b. Qed.

Lemma with_same raw b : raw_data b = Some raw → b = with_offs (type_offs b) (type_offs_cap b) (nr_types b) (with_raw (Some raw) b).
Proof. intros E. destruct b. cbn in E |- *. by rewrite E. Qed.

Lemma wp_lift {A} (a : option A) v h (Q : A → heap → Prop) : a = Some v → Q v h → wp (lift a) h Q.
Proof. intros -> HQ. exact HQ. Qed.

(** After the swap, if there is one, the words are in the order of the host. *)
Lemma base_native (e : bool) ws pre post o : length ws = 3%nat → o = Z.of_nat (length pre) →
  (if e then btf_bswap_type_base o (pre ++ words_bytes e ws ++ post) else Some (pre ++ words_bytes e ws ++ post)) = Some (pre ++ words_bytes false ws ++ post).
Proof. intros Hl ->. destruct e; [|done]. unfold btf_bswap_type_base. rewrite <- Hl. by apply (bswap_fields_ok true). Qed.
Lemma rest_native (e : bool) t rest pre post o : o = Z.of_nat (length pre) → Forall (is_word 32) [name_off t; info t; size_type t] →
  0 ≤ btf_type_size t → length rest = rest_words t →
  let w := words_bytes false [name_off t; info t; size_type t] in
  (if e then btf_bswap_type_rest o (pre ++ w ++ words_bytes e rest ++ post) else Some (0, pre ++ w ++ words_bytes e rest ++ post)) =
  Some (0, pre ++ words_bytes false (name_off t :: info t :: size_type t :: rest) ++ post).
Proof.
  intros -> Hw Hs Hr w. assert (pre ++ words_bytes false (name_off t :: info t :: size_type t :: rest) ++ post = pre ++ w ++ words_bytes false rest ++ post) as ->.
  { unfold w. change (name_off t :: _ :: _ :: rest) with ([name_off t; info t; size_type t] ++ rest). by rewrite words_bytes_app, <- (assoc_L (++)). }
  destruct e; [|done]. rewrite (swap_rest_fields _ _ t); [|by apply load_type_at|done]. rewrite <- Hr. rewrite (assoc_L (++) pre).
  rewrite bswap_fields_ok; [by rewrite <- (assoc_L (++))|]. rewrite length_app. unfold w, sizeof_type. rewrite length_words_bytes. cbn [length]. lia.
Qed.

Lemma section_types e ts : Forall ty_ok ts → (12 * length ts ≤ length (section_bytes e ts))%nat.
Proof.
  induction 1 as [|w ts Hw _ IH]; [cbn; lia|]. rewrite section_cons, length_app, length_words_bytes. apply ty_ok_length in Hw. cbn. lia.
Qed.

Lemma section_split w us e rem : ty_ok w → Forall ty_ok us → section_bytes e us = words_bytes e w ++ rem → ∃ us', us = w :: us' ∧ rem = section_bytes e us'.
Proof.
  intros (Hw & t & rest & -> & [_ Hr]%words_sized) Hus E. change (name_off t :: _ :: _ :: rest) with ([name_off t; info t; size_type t] ++ rest) in E, Hw.
  apply Forall_app in Hw as [Hw Hrw]. rewrite words_bytes_app, <- (assoc_L (++)) in E. apply section_head in E as (rest' & us' & -> & E); [|done..].
  apply Forall_cons in Hus as [Hw' _]. pose proof (ty_ok_inv _ _ Hw') as [_ Hr']. destruct Hw' as [Hw' _]. rewrite !Forall_cons in Hw'.
  apply words_bytes_inj in E as [<- ->]; [by eauto|done|by destruct Hw' as (_ & _ & _ & ?)|by rewrite Hr].
Qed.

(** One more type at the front. *)
Lemma parsed_more w e pre rem post ts b b1 h1 h r h2 : ty_ok w → (∃ offs cap nr raw, b1 = with_offs (Some offs) cap nr (with_raw (Some raw) b)) →
  live h1 = live h + 1 - one (type_offs b) →
  parsed e pre rem post (ts ++ [w]) b1 h1 r h2 → parsed e pre (words_bytes e w ++ rem) post ts b h r h2.
Proof.
  intros Hw (offs1 & cap1 & nr1 & raw1 & ->) Hl (raw & offs & cap & nr & Er & Hl2 & Hres). exists raw, offs, cap, nr. split; [exact Er|].
  split; [cbn in Hl2; lia|]. destruct Hres as [[He [Hn|Hne]]|[He (us & Hus & -> & -> & Hix)]].
  - left. split; [done|by left].
  - left. split; [done|]. right. intros us Hus E. destruct (section_split w us e rem Hw Hus (eq_sym E)) as (us' & -> & Er'). apply (Hne us'); [|done].
    by apply Forall_cons in Hus as [_ ?].
  - right. split; [done|]. exists (w :: us). split; [by constructor|]. split; [by rewrite section_cons|]. by rewrite <- (assoc_L (++)) in *.
Qed.

(** A type at the front of a section has a size and fits. *)
Lemma head_fits e t rem us : Forall (is_word 32) [name_off t; info t; size_type t] → Forall ty_ok us →
  words_bytes e [name_off t; info t; size_type t] ++ rem = section_bytes e us → 0 ≤ btf_type_size t ∧ (4 * rest_words t ≤ length rem)%nat.
Proof.
  intros Hw Hus E. destruct (section_head e us t rem Hus Hw (eq_sym E)) as (rest & us' & -> & ->). apply Forall_cons in Hus as [[Hs Hr]%ty_ok_inv _].
  split; [done|]. rewrite length_app, length_words_bytes. lia.
Qed.

(** The end of the loop, when less than a type is left. *)
Lemma parse_types_end e pre post fuel rem ts b h : raw_data b = Some (pre ++ section_bytes false ts ++ rem ++ post) → index_ok b ts → length rem < 12 →
  let next := length pre + length (section_bytes false ts) in
  wp (parse_types malloc_ok (S fuel) b (length pre) next (next + length rem)) h (parsed e pre rem post ts b h).
Proof.
  intros Hraw Hix Hlt next. cbn [parse_types]. rewrite (proj2 (Z.leb_gt _ _)) by (unfold sizeof_type; lia). cbn [negb]. apply wp_ret.
  destruct (Z.eqb_spec next (next + length rem)) as [E|E]; cbn [negb].
  - destruct rem; [|cbn in E; lia]. eexists _, _, _, _. split; [by apply with_same|]. split; [lia|]. right. split; [done|]. exists [].
    rewrite app_nil_r. by split_and!.
  - rewrite (with_same _ _ Hraw) at 2. apply parsed_fail; [done| |lia]. right. intros [|w us] Hus ->; [cbn in E; lia|].
    apply Forall_cons in Hus as [Hw%ty_ok_length _]. rewrite section_cons, length_app, length_words_bytes in Hlt. lia.
Qed.

Lemma parse_types_ok e pre post fuel rem ts b h :
  swapped_endian b = e → raw_data b = Some (pre ++ section_bytes false ts ++ rem ++ post) → bytes_ok rem → index_ok b ts → Forall ty_ok ts →
  (length rem < fuel)%nat → length (section_bytes false ts) + length rem < 2 ^ 32 →
  let next := length pre + length (section_bytes false ts) in
  wp (parse_types malloc_ok fuel b (length pre) next (next + length rem)) h (parsed e pre rem post ts b h).
Proof.
  revert rem ts b h. induction fuel as [|fuel IH]; intros rem ts b h He Hraw Hb Hix Hts Hf Hsz; [lia|]. cbn zeta.
  destruct (decide (length rem < 12)) as [Hlt|Hge]; [by apply parse_types_end|]. cbn [parse_types].
  set (next := length pre + length (section_bytes false ts)).
  rewrite (proj2 (Z.leb_le _ _)) by (unfold sizeof_type; lia). cbn [negb]. unfold sizeof_type in *.
  destruct (bytes_words e 3 rem Hb ltac:(lia)) as (ws & Hws & Hw & Er).
  assert (bytes_ok (drop (4 * 3) rem)) as Hb1 by (by apply Forall_drop). revert Er Hb1. generalize (drop (4 * 3) rem). intros rem1 Er Hb1.
  destruct ws as [|a [|i [|c [|? ?]]]]; try done. set (t := mk_type a i c). change [a; i; c] with [name_off t; info t; size_type t] in *.
  assert (length rem = (12 + length rem1)%nat) as El by (rewrite Er, length_app, length_words_bytes; cbn; lia).
  apply wp_bind, (wp_lift _ _ _ _ Hraw), wp_bind. rewrite He.
  rewrite Er, <- (assoc_L (++) (words_bytes _ _)), (assoc_L (++) pre).
  eapply wp_lift; [by apply base_native; [done|rewrite length_app; lia]|].
  apply wp_bind. eapply wp_lift; [by apply (load_type_at _ t []); [rewrite length_app; lia|]|].
  rewrite with_raw_eq. rewrite <- Er.
  assert (∀ us, Forall ty_ok us → rem = section_bytes e us → 0 ≤ btf_type_size t ∧ (4 * rest_words t ≤ length rem1)%nat) as Hhd.
  { intros us Hus E. apply (head_fits e t rem1 us Hw Hus). by rewrite <- E. }
  destruct (Z.ltb_spec (btf_type_size t) 0) as [Hneg|Hpos].
  { apply wp_ret, parsed_fail; [done| |lia]. right. intros us Hus E. destruct (Hhd us Hus E). lia. }
  pose proof (size_rest t Hpos) as Hsize. unfold sizeof_type in Hsize.
  destruct (Z.ltb_spec (next + length rem) (next + btf_type_size t)) as [Hshort|Hfit].
  { apply wp_ret, parsed_fail; [done| |lia]. right. intros us Hus E. destruct (Hhd us Hus E). lia. }
  destruct (bytes_words e (rest_words t) rem1 Hb1 ltac:(lia)) as (rest & Hr & Hrw & Er1).
  assert (bytes_ok (drop (4 * rest_words t) rem1)) as Hb2 by (by apply Forall_drop). revert Er1 Hb2. generalize (drop (4 * rest_words t) rem1). intros rem2 Er1 Hb2.
  set (w := name_off t :: info t :: size_type t :: rest). assert (ty_ok w) as Hwok.
  { split; [|exists t, rest; split; [done|by apply words_sized]]. unfold w. change (Forall (is_word 32) ([name_off t; info t; size_type t] ++ rest)). by apply Forall_app. }
  apply wp_bind. rewrite Er1, <- (assoc_L (++) (words_bytes e rest)).
  eapply wp_lift; [by apply rest_native; [rewrite length_app; lia|..]|]. cbn [negb Z.eqb]. fold w. set (raw2 := (pre ++ _) ++ _ ++ rem2 ++ post).
  assert (index_ok (with_raw (Some raw2) b) ts) as Hix2 by (by destruct Hix).
  apply wp_bind. eapply wp_mono; [apply (add_idx_ok _ ts w); [done| |]|].
  { unfold next. replace (length pre + length (section_bytes false ts) - length pre) with (Z.of_nat (length (section_bytes false ts))) by lia.
    apply wrap_small. unfold is_word. lia. }
  { pose proof (section_types false ts Hts). unfold BTF_MAX_NR_TYPES. lia. }
  intros r h1 [(-> & Hl & Hn)|(offs & cap & -> & Hl & Hix1)]; cbn [negb Z.eqb ENOMEM].
  { rewrite with_raw_eq. apply wp_ret, parsed_fail; [done|by left|lia]. }
  assert (rem = words_bytes e w ++ rem2) as Erw.
  { rewrite Er, Er1. unfold w. change (name_off t :: _ :: _ :: rest) with ([name_off t; info t; size_type t] ++ rest). by rewrite words_bytes_app, <- (assoc_L (++)). }
  assert (length rem = (4 * length w + length rem2)%nat) as El2 by (by rewrite Erw, length_app, length_words_bytes).
  set (b1 := with_offs (Some offs) cap (nr_types b + 1) (with_raw (Some raw2) b)).
  eapply wp_mono; [|intros r h2 Hp; rewrite Erw; eapply (parsed_more w _ _ _ _ _ _ b1 h1); [done|by eexists _, _, _, _|exact Hl|exact Hp]].
  change (with_offs _ _ _ _) with b1. assert (length (section_bytes false (ts ++ [w])) = (length (section_bytes false ts) + 4 * length w)%nat) as Els
    by (by rewrite section_snoc, length_app, length_words_bytes).
  destruct (ty_ok_head w Hwok) as (t' & rest' & [= E1 E2 E3 _] & _ & Hsw & _). assert (t' = t) as -> by (destruct t' as [a' i' c']; cbn in E1, E2, E3; unfold t; congruence).
  replace (next + btf_type_size t) with (length pre + length (section_bytes false (ts ++ [w]))) by (unfold next; lia).
  replace (next + length rem) with (length pre + length (section_bytes false (ts ++ [w])) + length rem2) by (unfold next; lia).
  apply IH; try done; [|by apply Forall_app; auto|lia|lia].
  cbn. unfold raw2. by rewrite section_snoc, <- !(assoc_L (++)).
Qed.

(** ** The header *)

Definition hdr_wf (h : btf_header) : Prop := Forall (λ f : nat * Z, is_word (8 * Z.of_nat f.1) f.2) (hdr_fields h).

Lemma hdr_word h n v : hdr_wf h → (n, v) ∈ hdr_fields h → is_word (8 * Z.of_nat n) v.
Proof. intros Hw Hin. exact (proj1 (Forall_forall _ _) Hw (n, v) Hin). Qed.
Lemma length_hdr_bytes h : length (hdr_bytes h) = 24%nat.
Proof. done. Qed.
Lemma load_hdr_at o m h : hdr_wf h → has o (hdr_bytes h) m → load_hdr o m = Some h.
Proof.
  intros Hw Hh. pose proof (fields_at _ _ _ Hh Hw) as F. unfold load_hdr.
  rewrite <- (Z.add_0_r o) at 1.
  rewrite (F 0%nat 2%nat 2 (magic h) 0 eq_refl eq_refl eq_refl), (F 1%nat 1%nat 1 (version h) 2 eq_refl eq_refl eq_refl),
    (F 2%nat 1%nat 1 (flags h) 3 eq_refl eq_refl eq_refl), (F 3%nat 4%nat 4 (hdr_len h) 4 eq_refl eq_refl eq_refl),
    (F 4%nat 4%nat 4 (type_off h) 8 eq_refl eq_refl eq_refl), (F 5%nat 4%nat 4 (type_len h) 12 eq_refl eq_refl eq_refl),
    (F 6%nat 4%nat 4 (str_off h) 16 eq_refl eq_refl eq_refl), (F 7%nat 4%nat 4 (str_len h) 20 eq_refl eq_refl eq_refl).
  by destruct h.
Qed.
Lemma load_hdr_total m : bytes_ok m → 24 ≤ length m → ∃ h, load_hdr 0 m = Some h ∧ hdr_wf h.
Proof.
  intros Hb Hl. unfold load_hdr.
  repeat match goal with |- context [load ?n ?o m] =>
    let v := fresh "v" in let E := fresh "E" in let W := fresh "W" in destruct (load_word n o m) as (v & E & W); [done|lia|lia|lia|]; rewrite E; cbn [mbind option_bind]; clear E end.
  eexists. split; [done|]. unfold hdr_wf, hdr_fields. cbn. repeat (apply Forall_cons; split; [done|]). done.
Qed.
Lemma store_hdr h m : 24 ≤ length m → store 0 (hdr_bytes h) m = Some (hdr_bytes h ++ drop 24 m).
Proof. intros Hl. rewrite <- (take_drop 24 m) at 1. apply store_head. rewrite length_hdr_bytes, length_take. lia. Qed.
Lemma bswap_hdr_wf h : hdr_wf h → hdr_wf (btf_bswap_hdr h).
Proof.
  intros Hw. unfold hdr_wf, hdr_fields, btf_bswap_hdr. cbn [magic version flags hdr_len type_off type_len str_off str_len].
  repeat (apply Forall_cons; split; [first [apply bswap_word|apply (hdr_word h); [done|set_solver]]|]). done.
Qed.
Lemma bswap_hdr_twice h : hdr_wf h → btf_bswap_hdr (btf_bswap_hdr h) = h.
Proof.
  intros Hw. unfold btf_bswap_hdr. cbn [magic version flags hdr_len type_off type_len str_off str_len]. rewrite !bswap_bswap by (apply (hdr_word h); [done|set_solver]). by destruct h.
Qed.

(** ** Images *)

(** The header as it reads in a byte order. *)
Definition hdr_as (e : bool) (data : list Z) : option btf_header := h ← load_hdr 0 data; Some (if e then btf_bswap_hdr h else h).

(** A header, types and strings, in this order; the header of the other byte order has a fixed size. *)
Record layout (data : list Z) (e : bool) (h : btf_header) : Prop := {
  la_size : 24 ≤ length data;
  la_hdr : hdr_as e data = Some h;
  la_magic : magic h = BTF_MAGIC;
  la_len : e = true → hdr_len h = 24;
  la_end : hdr_len h + str_off h + str_len h ≤ length data;
  la_order : type_off h + type_len h ≤ str_off h;
  la_align : type_off h mod 4 = 0 }.

(** Bytes that are type information, in the byte order of the host or the other
    one.  [split] is for type information that builds on another one. *)
Record is_image (split : bool) (data : list Z) (e : bool) (h : btf_header) (ts : list ty) : Prop := {
  im_layout : layout data e h;
  im_ok : Forall ty_ok ts;
  im_types : sub (hdr_len h + type_off h) (type_len h) data = section_bytes e ts;
  im_strs : (split = true ∧ str_len h = 0) ∨
    (0 < str_len h ≤ 2 ^ 31 ∧ load 1 (hdr_len h + str_off h + str_len h - 1) data = Some 0 ∧ (split = true ∨ load 1 (hdr_len h + str_off h) data = Some 0)) }.

Lemma check_layout_ok b h : hdr_of b = Some h → hdr_wf h → is_word 32 (raw_size b) →
  (check_layout b = Some 0 ∧ hdr_len h + str_off h + str_len h ≤ raw_size b ∧ type_off h + type_len h ≤ str_off h ∧ type_off h mod 4 = 0) ∨
  (check_layout b = Some (- EINVAL) ∧ ¬ (hdr_len h + str_off h + str_len h ≤ raw_size b ∧ type_off h + type_len h ≤ str_off h ∧ type_off h mod 4 = 0)).
Proof.
  intros Eh Hw Hs. unfold check_layout. rewrite Eh. cbn [mbind option_bind].
  pose proof (hdr_word h 4 (hdr_len h) Hw ltac:(set_solver)) as W1. pose proof (hdr_word h 4 (str_off h) Hw ltac:(set_solver)) as W2.
  pose proof (hdr_word h 4 (str_len h) Hw ltac:(set_solver)) as W3. unfold is_word in *.
  destruct (Z.ltb_spec (raw_size b) (hdr_len h)); [right; split; [done|lia]|]. rewrite wrap_small by (unfold is_word; lia).
  destruct (Z.ltb_spec (raw_size b - hdr_len h) (str_off h + str_len h)); [right; split; [done|lia]|].
  destruct (Z.ltb_spec (str_off h) (type_off h + type_len h)); [right; split; [done|lia]|].
  destruct (Z.eqb_spec (type_off h mod 4) 0); cbn [negb]; [left; split_and!; try done; lia|right; split; [done|lia]].
Qed.

(** The byte order is that of the magic number. *)
Lemma layout_order data e h h0 : bytes_ok data → layout data e h → load_hdr 0 data = Some h0 → h = (if e then btf_bswap_hdr h0 else h0) ∧
  magic h0 = (if e then bswap 2 BTF_MAGIC else BTF_MAGIC).
Proof.
  intros Hb L E. pose proof (la_hdr _ _ _ L) as Eh. unfold hdr_as in Eh. rewrite E in Eh. injection Eh as <-. split; [done|].
  destruct (load_hdr_total data Hb (la_size _ _ _ L)) as (h1 & E1 & Hw). rewrite E in E1. injection E1 as <-.
  pose proof (la_magic _ _ _ L) as Em. destruct e; [|done]. change (bswap 2 (magic h0) = BTF_MAGIC) in Em.
  rewrite <- Em. symmetry. apply bswap_bswap, (hdr_word h0); [done|set_solver].
Qed.

Lemma layout_unique data e1 e2 h1 h2 : bytes_ok data → layout data e1 h1 → layout data e2 h2 → e1 = e2 ∧ h1 = h2.
Proof.
  intros Hb L1 L2. destruct (load_hdr_total data Hb (la_size _ _ _ L1)) as (h0 & E0 & _).
  destruct (layout_order _ _ _ _ Hb L1 E0) as [-> M1], (layout_order _ _ _ _ Hb L2 E0) as [-> M2]. rewrite M1 in M2. by destruct e1, e2.
Qed.

(** What the header check does, and that a success reads the header. *)
Definition native (e : bool) (h : btf_header) (data : list Z) : list Z := if e then hdr_bytes h ++ drop 24 data else data.
Lemma parse_hdr_ok b data : raw_data b = Some data → raw_size b = Z.of_nat (length data) → hdr b = InRaw 0 → swapped_endian b = false →
  bytes_ok data → length data < 2 ^ 32 →
  ∃ err raw e, btf_parse_hdr b = Some (err, with_raw (Some raw) (with_swapped e b)) ∧
    ((err < 0 ∧ ∀ e h, ¬ layout data e h) ∨
     (err = 0 ∧ ∃ h, layout data e h ∧ hdr_wf h ∧ raw = native e h data ∧ load_hdr 0 raw = Some h)).
Proof.
  intros Er Es Eh Ee Hb Hl. unfold btf_parse_hdr. rewrite Er. cbn [mbind option_bind]. rewrite Es. unfold sizeof_header.
  assert (with_raw (Some data) (with_swapped false b) = b) as Eb by (destruct b; cbn in *; by subst).
  destruct (Z.ltb_spec (length data) 24).
  { exists (- EINVAL), data, false. rewrite Eb. split; [done|]. left. split; [done|]. intros e h L. pose proof (la_size _ _ _ L). lia. }
  destruct (load_hdr_total data Hb ltac:(lia)) as (h0 & E0 & Hw). unfold hdr_of at 1. rewrite Eh. unfold at_place. rewrite Er. cbn [mbind option_bind].
  rewrite E0. cbn [mbind option_bind]. assert (is_word 32 (length data)) as Hlw by (unfold is_word; lia).
  assert (∀ e h, layout data e h → h = (if e then btf_bswap_hdr h0 else h0) ∧ magic h0 = (if e then bswap 2 BTF_MAGIC else BTF_MAGIC)) as Ho
    by (intros; by apply (layout_order data)).
  destruct (Z.eqb_spec (magic h0) (bswap 2 BTF_MAGIC)) as [Em|Em].
  - set (h := btf_bswap_hdr h0). assert (hdr_wf h) as Hwh by (by apply bswap_hdr_wf).
    destruct (Z.eqb_spec (bswap 4 (hdr_len h0)) 24) as [El|El]; cbn [negb].
    2:{ exists (- ENOTSUP), data, true. split; [by rewrite <- Eb|]. left. split; [done|]. intros e h' L. destruct (Ho _ _ L) as [-> Em']. rewrite Em in Em'.
        destruct e; [|done]. by pose proof (la_len _ _ _ L eq_refl). }
    rewrite store_hdr by lia. cbn [mbind option_bind]. fold h. set (raw := hdr_bytes h ++ drop 24 data).
    assert (load_hdr 0 raw = Some h) as Ehr by (apply load_hdr_at; [done|]; by exists [], (drop 24 data)).
    destruct (check_layout_ok (with_raw (Some raw) (with_swapped true b)) h) as [(-> & C)|(-> & C)]; [unfold hdr_of; cbn; by rewrite Eh|done|cbn; by rewrite Es|..];
      cbn [mbind option_bind]; cbn [raw_size with_raw with_swapped] in C; rewrite Es in C.
    + exists 0, raw, true. split; [done|]. right. split; [done|]. exists h. split; [|by split_and!]. destruct C as (C1 & C2 & C3). split; try done.
      * unfold hdr_as. by rewrite E0.
      * change (bswap 2 (magic h0) = BTF_MAGIC). rewrite Em. apply bswap_bswap. by split.
    + exists (- EINVAL), raw, true. split; [done|]. left. split; [done|]. intros e h' L. destruct (Ho _ _ L) as [-> Em']. rewrite Em in Em'.
      destruct e; [|done]. destruct L. fold h in la_end0, la_order0, la_align0. by apply C.
  - destruct (Z.eqb_spec (magic h0) BTF_MAGIC) as [Em2|Em2]; cbn [negb].
    2:{ exists (- EINVAL), data, false. rewrite Eb. split; [done|]. left. split; [done|]. intros e h' L. destruct (Ho _ _ L) as [_ Em']. by destruct e. }
    destruct (check_layout_ok b h0) as [(-> & C)|(-> & C)]; [unfold hdr_of; rewrite Eh; unfold at_place; by rewrite Er|done|by rewrite Es|..];
      cbn [mbind option_bind]; rewrite Es in C.
    + exists 0, data, false. rewrite Eb. split; [done|]. right. split; [done|]. exists h0. split; [|done]. destruct C as (C1 & C2 & C3). split; try done.
      unfold hdr_as. by rewrite E0.
    + exists (- EINVAL), data, false. rewrite Eb. split; [done|]. left. split; [done|]. intros e h' L. destruct (Ho _ _ L) as [-> Em'].
      destruct e; [done|]. destruct L. by apply C.
Qed.

(** Behind the header the two orders have the same bytes. *)
Lemma length_native e h data : layout data e h → length (native e h data) = length data.
Proof. intros L. pose proof (la_size _ _ _ L). destruct e; [|done]. unfold native. rewrite length_app, length_drop, length_hdr_bytes. lia. Qed.
Lemma native_ok e h data : bytes_ok data → bytes_ok (native e h data).
Proof. intros. destruct e; [|done]. apply Forall_app. split; [apply enc_bytes|by apply Forall_drop]. Qed.
Lemma native_range e h data o n : layout data e h → hdr_wf h → hdr_len h ≤ o → range o n (native e h data) = range o n data.
Proof.
  intros L Hw Ho. destruct e; [|done]. pose proof (la_len _ _ _ L eq_refl) as E. pose proof (la_size _ _ _ L). unfold native.
  rewrite <- (take_drop 24 data) at 2. replace o with (24%nat + (o - 24)) by lia.
  pose proof (range_app_r (o - 24) n (hdr_bytes h) (drop 24 data) ltac:(lia)) as E1. rewrite length_hdr_bytes in E1.
  pose proof (range_app_r (o - 24) n (take 24 data) (drop 24 data) ltac:(lia)) as E2. rewrite length_take in E2.
  replace (24 `min` length data)%nat with 24%nat in E2 by lia. by rewrite E1, E2.
Qed.
Lemma native_load e h data o n : layout data e h → hdr_wf h → hdr_len h ≤ o → load n o (native e h data) = load n o data.
Proof. intros. unfold load. by rewrite native_range. Qed.

Lemma str_sec_ok b h raw start (split := bool_decide (is_Some (base_btf b))) : hdr_of b = Some h → hdr_wf h → btf_strs_data b = Some (raw, start) →
  bytes_ok raw → 0 ≤ start → start + str_len h ≤ length raw →
  let good := (split = true ∧ str_len h = 0) ∨
    (0 < str_len h ≤ 2 ^ 31 ∧ load 1 (start + str_len h - 1) raw = Some 0 ∧ (split = true ∨ load 1 start raw = Some 0)) in
  (btf_parse_str_sec b = Some 0 ∧ good) ∨ (btf_parse_str_sec b = Some (- EINVAL) ∧ ¬ good).
Proof.
  intros Eh Hw Es Hb H0 Hl good. unfold btf_parse_str_sec. rewrite Eh. cbn [mbind option_bind]. rewrite Es. cbn [mbind option_bind]. fold split.
  pose proof (hdr_word h 4 (str_len h) Hw ltac:(set_solver)) as W. unfold is_word in W. unfold BTF_MAX_STR_OFFSET, good.
  destruct (Z.eqb_spec (str_len h) 0) as [E0|E0]; cbn [orb].
  { destruct split; cbn [andb]; [left; auto|]. right. split; [done|]. intros [[? _]|[? _]]; [done|lia]. }
  rewrite andb_false_r. destruct (Z.ltb_spec 0x7fffffff (str_len h - 1)).
  { right. split; [done|]. intros [[_ ?]|[? _]]; [done|lia]. }
  destruct (load_word 1 (start + str_len h - 1) raw) as (v & -> & _); [done|lia..|]. cbn [mbind option_bind].
  destruct (Z.eqb_spec v 0) as [->|Hv]; cbn [negb].
  2:{ right. split; [done|]. intros [[_ ?]|(_ & [= ?] & _)]; done. }
  destruct split; [left; split; [done|]; right; split_and!; [lia|lia|done|by left]|].
  destruct (load_word 1 start raw) as (u & -> & _); [done|lia..|]. cbn [mbind option_bind]. destruct (Z.eqb_spec u 0) as [->|Hu]; cbn [negb].
  - left. split; [done|]. right. split_and!; [lia|lia|done|by right].
  - right. split; [done|]. intros [[? _]|(_ & _ & [?|[= ?]])]; done.
Qed.

Definition blocks (b : btf) : Z :=
  1 + one (raw_data b) + one (raw_data_swapped b) + one (type_offs b) +
  (if btf_is_modifiable b then
     one (match hdr b with Own d => Some d | InRaw _ => None end) + one (match types_data b with Own d => Some d | InRaw _ => None end) +
     one (match strs b with StrsSet s => Some s | StrsRaw _ => None end) else 0).
Lemma btf_free_ok b h (Q : option Z → heap → Prop) : blocks b ≤ live h →
  (∀ h', live h' = live h - blocks b → Q (if 0 <=? btf_fd b then Some (btf_fd b) else None) h') → wp (btf__free (Some b)) h Q.
Proof.
  unfold blocks, btf__free. intros Hl Hq. pose proof (one_range (raw_data b)). pose proof (one_range (raw_data_swapped b)). pose proof (one_range (type_offs b)).
  destruct (btf_is_modifiable b).
  - match type of Hl with context [1 + _ + _ + _ + (one ?x + one ?y + one ?z)] => pose proof (one_range x); pose proof (one_range y); pose proof (one_range z) end.
    apply wp_bind. do 2 (apply wp_bind, wp_free; [lia|]; intros ? ?). apply wp_free; [lia|]. intros ? ?.
    do 4 (apply wp_bind, wp_free; [lia|]; intros ? ?). apply wp_ret, Hq. cbn in *. lia.
  - apply wp_bind, wp_ret. do 4 (apply wp_bind, wp_free; [lia|]; intros ? ?). apply wp_ret, Hq. cbn in *. lia.
Qed.

(** The object that stands for an image: the types in the order of the host, the
    rest of the data as it was. *)
Definition is_split (base : option btf) : bool := bool_decide (is_Some base).
Definition base_ok (base : option btf) : Prop := match base with None => True | Some base => is_Some (hdr_of base) end.
Definition types_at (h : btf_header) : Z := hdr_len h + type_off h.
Record reads_as (base : option btf) (data : list Z) (e : bool) (h : btf_header) (ts : list ty) (b : btf) : Prop := {
  ra_base : base_btf b = base;
  ra_start : start_id b = match base with None => 1 | Some base => btf__type_cnt base end;
  ra_strs : Some (start_str_off b) = match base with None => Some 0 | Some base => str_len <$> hdr_of base end;
  ra_raw : raw_data b = Some (take (Z.to_nat (types_at h)) (native e h data) ++ section_bytes false ts ++
                              drop (Z.to_nat (types_at h + type_len h)) (native e h data));
  ra_size : raw_size b = Z.of_nat (length data);
  ra_swapped : swapped_endian b = e;
  ra_hdr : hdr_of b = Some h;
  ra_index : index_ok b ts;
  ra_places : hdr b = InRaw 0 ∧ types_data b = InRaw (types_at h) ∧ strs b = StrsRaw (hdr_len h + str_off h);
  ra_rest : raw_data_swapped b = None ∧ btf_fd b = -1 ∧ ptr_sz b = 0 }.

(** What making an object gives. *)
Definition accepted (base : option btf) (data : list Z) (h : heap) (r : ptr btf) (h' : heap) : Prop :=
  match r with
  | Ptr b => ∃ e hd ts, is_image (is_split base) data e hd ts ∧ reads_as base data e hd ts b ∧ live h' = live h + blocks b
  | ErrPtr err => err < 0 ∧ live h' = live h ∧ ((∃ n, malloc_ok n = false) ∨ ∀ e hd ts, ¬ is_image (is_split base) data e hd ts)
  | Null => False
  end.

Lemma accepted_fail base data h b h1 err : err < 0 → live h1 = live h + blocks b → 0 ≤ live h →
  (∃ n, malloc_ok n = false) ∨ (∀ e hd ts, ¬ is_image (is_split base) data e hd ts) →
  wp (btf__free (Some b) ;;; pret (ErrPtr err)) h1 (accepted base data h).
Proof. intros He Hl H0 Hw. apply wp_bind, btf_free_ok; [lia|]. intros h2 Hl2. apply wp_ret. split; [done|]. split; [lia|done]. Qed.

Lemma take_sub_drop (raw : list Z) o n : 0 ≤ o → 0 ≤ n → raw = take (Z.to_nat o) raw ++ sub o n raw ++ drop (Z.to_nat (o + n)) raw.
Proof. intros. unfold sub. rewrite <- (take_drop (Z.to_nat o) raw) at 1. f_equal. replace (Z.to_nat (o + n)) with (Z.to_nat o + Z.to_nat n)%nat by lia. by rewrite <- drop_drop, take_drop. Qed.

(** Reading the types of an image whose header is fine. *)
Lemma type_sec_ok b data e hd h : let raw := native e hd data in bytes_ok data → length data < 2 ^ 32 → layout data e hd → hdr_wf hd →
  raw_data b = Some raw → hdr_of b = Some hd → types_data b = InRaw (types_at hd) → swapped_endian b = e → index_ok b [] →
  wp (btf_parse_type_sec malloc_ok b) h (λ r h', ∃ raw3 offs cap nr, r.2 = with_offs offs cap nr (with_raw (Some raw3) b) ∧
    live h' = live h + one offs - one (type_offs b) ∧
    ((r.1 < 0 ∧ ((∃ n, malloc_ok n = false) ∨ ∀ us, Forall ty_ok us → sub (types_at hd) (type_len hd) data ≠ section_bytes e us)) ∨
     (r.1 = 0 ∧ ∃ ts, Forall ty_ok ts ∧ sub (types_at hd) (type_len hd) data = section_bytes e ts ∧
       raw3 = take (Z.to_nat (types_at hd)) raw ++ section_bytes false ts ++ drop (Z.to_nat (types_at hd + type_len hd)) raw ∧ (e = false → raw3 = raw) ∧ index_ok r.2 ts))).
Proof.
  intros raw Hb Hl L Hw Eraw Ehd Et He Hix.
  pose proof (hdr_word hd 4 (hdr_len hd) Hw ltac:(set_solver)) as W1. pose proof (hdr_word hd 4 (type_off hd) Hw ltac:(set_solver)) as W3.
  pose proof (hdr_word hd 4 (type_len hd) Hw ltac:(set_solver)) as W4. pose proof (hdr_word hd 4 (str_len hd) Hw ltac:(set_solver)) as W5.
  pose proof (la_end _ _ _ L) as Hend. pose proof (la_order _ _ _ L) as Hord. pose proof (length_native _ _ _ L) as Elen. fold raw in Elen. unfold is_word in *.
  set (rem := sub (types_at hd) (type_len hd) raw). set (pre := take (Z.to_nat (types_at hd)) raw). set (post := drop (Z.to_nat (types_at hd + type_len hd)) raw).
  assert (raw = pre ++ rem ++ post) as Esplit by (apply take_sub_drop; unfold types_at; lia).
  assert (rem = sub (types_at hd) (type_len hd) data) as Erem.
  { pose proof (native_range e hd data (types_at hd) (type_len hd) L Hw ltac:(unfold types_at; lia)) as E.
    fold raw in E. rewrite !range_Some in E by (unfold types_at; lia). by injection E. }
  assert (length rem = Z.to_nat (type_len hd)) as Elr by (apply length_sub; unfold types_at; lia).
  assert (types_at hd = Z.of_nat (length pre)) as Epre by (unfold pre; rewrite length_take; unfold types_at; lia).
  unfold btf_parse_type_sec. apply wp_bind, (wp_lift _ hd); [done|]. apply wp_bind, (wp_lift _ (raw, types_at hd)); [unfold at_place; by rewrite Et, Eraw|].
  rewrite Epre at 1 2 3. replace (length pre + type_len hd) with (length pre + 0 + length rem) by lia. replace (Z.of_nat (length pre)) with (length pre + 0) at 2 by lia.
  eapply wp_mono; [apply (parse_types_ok e pre post _ rem [] b)|]; [done|rewrite Eraw; exact (f_equal Some Esplit)|apply sub_bytes_ok; by apply native_ok|done|done| |cbn; lia|].
  { rewrite Elen. lia. }
  intros [err b3] h3 (raw3 & offs & cap & nr & Eb3 & L3 & Hres). exists raw3, offs, cap, nr. split; [done|]. split; [done|]. rewrite <- Erem.
  destruct Hres as [?|[E0 (ts & Hts & Ers & Er3 & Hix3)]]; [by left|right]. split; [done|]. exists ts. split; [done|]. split; [done|]. split; [done|]. split; [|done].
  intros ->. rewrite Er3, Esplit. cbn [app]. by rewrite Ers.
Qed.

Lemma btf_new_ok data base h : bytes_ok data → length data < 2 ^ 32 → base_ok base → 0 ≤ live h →
  wp (btf_new malloc_ok data base) h (accepted base data h).
Proof.
  intros Hb Hl Hbase H0. unfold btf_new.
  apply wp_bind, wp_malloc_no; [intros h1 L1 Hn; cbn [negb]; apply wp_ret; split; [done|]; split; [lia|by left]|]. intros h1 L1. cbn [negb].
  assert (∃ sid sso, new_btf base = Some (mk_btf base None None 0 false (InRaw 0) (InRaw 0) 0 None 0 0 sid sso (StrsRaw 0) false (-1) 0) ∧
    sid = match base with None => 1 | Some base => btf__type_cnt base end ∧ Some sso = match base with None => Some 0 | Some base => str_len <$> hdr_of base end)
    as (sid & sso & Enew & Esid & Esso).
  { destruct base as [b0|]; [|by eexists _, _]. destruct Hbase as [hb Ehb]. unfold new_btf. rewrite Ehb. by eexists _, _. }
  apply wp_bind, (wp_lift _ _ _ _ Enew). apply wp_bind, wp_malloc_no.
  { intros h2 L2 Hn. cbn [negb]. apply accepted_fail; [done|unfold blocks; cbn; lia|done|by left]. }
  intros h2 L2. cbn [negb]. apply wp_bind. unfold with_raw at 1, with_raw_size at 1.
  cbn [base_btf raw_data raw_data_swapped raw_size swapped_endian hdr types_data types_data_cap type_offs type_offs_cap nr_types start_id start_str_off strs strs_deduped btf_fd ptr_sz].
  set (b := mk_btf base (Some data) _ _ _ _ _ _ _ _ _ _ _ _ _ _ _).
  destruct (parse_hdr_ok b data) as (err & raw & e & Ep & Hp); [done..|]. apply (wp_lift _ _ _ _ Ep). clear Ep.
  destruct Hp as [[He Hno]|(-> & hd & L & Hw & -> & Ehd)].
  { rewrite (proj2 (Z.eqb_neq err 0)) by lia. cbn [negb]. apply accepted_fail; [done|unfold blocks; cbn; lia|done|]. right. intros e' hd ts I. by apply (Hno e' hd), I. }
  cbn [Z.eqb negb]. set (raw := native e hd data) in *.
  assert (hdr_of (with_raw (Some raw) (with_swapped e b)) = Some hd) as Eh by exact Ehd.
  apply wp_bind, (wp_lift _ _ _ _ Eh). set (b2 := with_sections _ _ _).
  pose proof (hdr_word hd 4 (hdr_len hd) Hw ltac:(set_solver)) as W1. pose proof (hdr_word hd 4 (str_off hd) Hw ltac:(set_solver)) as W2.
  pose proof (hdr_word hd 4 (type_off hd) Hw ltac:(set_solver)) as W3. pose proof (hdr_word hd 4 (type_len hd) Hw ltac:(set_solver)) as W4.
  pose proof (hdr_word hd 4 (str_len hd) Hw ltac:(set_solver)) as W5.
  pose proof (la_end _ _ _ L) as Hend. pose proof (la_order _ _ _ L) as Hord. pose proof (length_native _ _ _ L) as Elen. fold raw in Elen.
  unfold is_word in *. apply wp_bind.
  destruct (str_sec_ok b2 hd raw (hdr_len hd + str_off hd)) as [[Es Hs]|[Es Hs]]; [done|done|done|by apply native_ok|lia|lia|..];
    apply (wp_lift _ _ _ _ Es); cbn [Z.eqb Z.opp EINVAL negb].
  2:{ apply accepted_fail; [done|unfold blocks; cbn; lia|done|]. right. intros e' hd' ts I. destruct (layout_unique data e e' hd hd' Hb L (im_layout _ _ _ _ _ I)) as [<- <-].
      apply Hs. destruct (im_strs _ _ _ _ _ I) as [?|(? & E1 & E2)]; [by left|]. right. unfold raw. rewrite !(native_load _ _ data) by (try done; lia). done. }
  apply wp_bind. eapply wp_mono; [apply (type_sec_ok b2 data e hd); try done|].
  { split; [done|done|done|intros i Hi; cbn in Hi; lia]. }
  intros [err b3] h3 (raw3 & offs & cap & nr & Eb3 & L3 & Hres). cbn [fst snd] in Eb3, Hres. cbn in L3.
  destruct Hres as [[He Hno]|[-> (ts & Hts & Ers & -> & Eraw & Hix)]].
  { rewrite (proj2 (Z.eqb_neq err 0)) by lia. cbn [negb]. apply accepted_fail; [done|rewrite Eb3; unfold blocks; cbn; lia|done|].
    destruct Hno as [?|Hno]; [by left|right]. intros e' hd' ts I. destruct (layout_unique data e e' hd hd' Hb L (im_layout _ _ _ _ _ I)) as [<- <-].
    apply (Hno ts); apply I. }
  cbn [negb Z.eqb]. apply wp_ret. exists e, hd, ts. split; [|split].
  - split; [done|done|done|]. destruct Hs as [?|(? & E1 & E2)]; [by left|]. right. unfold raw in E1, E2. rewrite !(native_load _ _ data) in E1, E2 by (try done; lia). done.
  - rewrite Eb3 in *. split; try done. unfold hdr_of. cbn [at_place hdr raw_data with_offs with_raw mbind option_bind].
    match goal with |- mbind _ ?x = _ => change x with (Some (take (Z.to_nat (types_at hd)) raw ++ section_bytes false ts ++ drop (Z.to_nat (types_at hd + type_len hd)) raw, 0)) end. cbn [mbind option_bind].
    destruct e; [|specialize (Eraw eq_refl); fold raw in Eraw; rewrite Eraw; exact Ehd]. pose proof (la_len _ _ _ L eq_refl). apply load_hdr_at; [done|]. eexists [], _. split; [|done]. unfold raw at 1, native.
    rewrite take_app_ge by (rewrite length_hdr_bytes; unfold types_at; lia). rewrite <- (assoc_L (++)). done.
  - rewrite Eb3. unfold blocks. cbn. lia.
Qed.
End parse.

(** Reading type information from the kernel is reading its data, whether it fits
    the first buffer or not; the buffer is given back. *)
Theorem get_from_fd_reads malloc_ok info data base h : (∀ n sz, info n sz = inr (take (Z.to_nat sz) data, Z.of_nat (length data))) →
  bytes_ok data → length data < 2 ^ 32 → base_ok base → 0 ≤ live h →
  wp (btf_get_from_fd malloc_ok info base) h (accepted malloc_ok base data h).
Proof.
  intros Hi Hb Hl Hbase H0. assert (∀ h1 err, err < 0 → live h1 = live h + 1 → (∃ n, malloc_ok n = false) →
    wp (free (Some ()) ;;; pret (ErrPtr err)) h1 (accepted malloc_ok base data h)) as Hfail.
  { intros h1 err He L1 Hn. apply wp_bind, wp_free; [lia|]. intros h2 L2. apply wp_ret. cbn in L2. split; [done|]. split; [lia|by left]. }
  assert (∀ n h1, length data ≤ n → live h1 = live h + 1 →
    wp (let! d := lift (range 0 (length data) (take (Z.to_nat n) data)) in let! p := btf_new malloc_ok d base in free (Some ()) ;;; pret p) h1 (accepted malloc_ok base data h)) as Hread.
  { intros n h1 Hn L1. rewrite take_ge by lia. apply wp_bind. eapply wp_lift; [apply (has_range 0 data data); exists [], []; by rewrite app_nil_r|].
    apply wp_bind. eapply wp_mono; [apply btf_new_ok; [done|done|done|lia]|]. intros p h2 Hp. destruct p as [|err|b]; [done| |].
    - destruct Hp as (He & L2 & Hw). apply wp_bind, wp_free; [lia|]. intros h3 L3. cbn in L3. apply wp_ret. split; [done|]. split; [lia|done].
    - destruct Hp as (e & hd & ts & I & R & L2). assert (0 ≤ blocks b) as Hbl.
      { unfold blocks. pose proof (one_range (raw_data b)). pose proof (one_range (raw_data_swapped b)). pose proof (one_range (type_offs b)).
        destruct (ra_places _ _ _ _ _ _ R) as (Eh & _). unfold btf_is_modifiable. rewrite Eh. cbn. lia. }
      apply wp_bind, wp_free; [lia|]. intros h3 L3. cbn in L3. apply wp_ret. exists e, hd, ts. split; [done|]. split; [done|lia]. }
  unfold btf_get_from_fd. apply wp_bind, wp_malloc_no.
  { intros h1 L1 Hn. apply wp_ret. split; [done|]. split; [lia|by left]. }
  intros h1 L1. cbn [negb]. rewrite Hi. destruct (Z.ltb_spec 4096 (length data)).
  - apply wp_bind. unfold realloc_block, wp at 1. destruct (malloc_ok (asked h1)) eqn:En; cbn [negb]; [|apply Hfail; [done|done|by eexists]].
    rewrite Hi, Z.ltb_irrefl. by apply Hread.
  - by apply Hread.
Qed.

(** C26: reading type information: [btf_new] accepts exactly the bytes that are an
    image: a header, types that are as long as the format says for their kind, and
    strings, in either byte order.  It never leaves the bytes, ends, and the object it returns stands for the types of the
    image, with an index that leads to each of them; a failure gives all memory
    back and is for lack of memory or because the bytes are no image. *)
Theorem btf_new_accepts malloc_ok data base h : bytes_ok data → length data < 2 ^ 32 → base_ok base → 0 ≤ live h →
  wp (btf_new malloc_ok data base) h (λ r h',
    match r with
    | Ptr b => ∃ e hd ts, is_image (is_split base) data e hd ts ∧ reads_as base data e hd ts b ∧ live h' = live h + blocks b
    | ErrPtr err => err < 0 ∧ live h' = live h ∧ ((∃ n, malloc_ok n = false) ∨ ∀ e hd ts, ¬ is_image (is_split base) data e hd ts)
    | Null => False
    end).
Proof. exact (btf_new_ok malloc_ok data base h). Qed.

(** An integer of 8 bytes named [long], an array of ten of them, a structure of
    both, and another name for it. *)
Definition demo_types : list ty :=
  [[1; 0x01000000; 8; 64]; [0; 0x03000000; 0; 1; 1; 10]; [6; 0x04000002; 88; 1; 1; 0; 6; 2; 64]; [6; 0x08000000; 3]].
Definition demo_strs : list Z := [0] ++ bytes_of "long" ++ [0] ++ bytes_of "s" ++ [0].
Definition demo_data : list Z :=
  reverse (le_bytes 2 BTF_MAGIC) ++ [1; 0] ++ words_bytes true [24; 0; 88; 88; 8] ++ section_bytes true demo_types ++ demo_strs.
(** The same with an enumeration of two 64-bit values, in the byte order of the host. *)
Definition enum_data : list Z :=
  le_bytes 2 BTF_MAGIC ++ [1; 0] ++ words_bytes false [24; 0; 36; 36; 8] ++ section_bytes false [[0; 0x13000002; 8; 1; 7; 0; 6; 9; 1]] ++ demo_strs.
Definition made (data : list Z) : option (ptr btf * heap) := btf_new (λ _, true) data None (mk_heap 0 0 0).

Definition taken (d : list Z) (n : Z) : Prop :=
  ∃ b h' e hd ts, made d = Some (Ptr b, h') ∧ nr_types b = n ∧ is_image false d e hd ts ∧ reads_as None d e hd ts b ∧ live h' = blocks b.

(** Both are accepted, with four types and with one. *)
Lemma btf_new_accepts_witness : taken demo_data 4 ∧ taken enum_data 1.
Proof.
  assert (∀ d n, bytes_ok d → length d < 2 ^ 32 → match made d with Some (Ptr b, _) => nr_types b = n | _ => False end → taken d n) as Ht.
  { intros d n Hb Hl Hn. pose proof (btf_new_accepts (λ _, true) d None (mk_heap 0 0 0) Hb Hl I (Z.le_refl 0)) as H.
    unfold wp in H. fold (made d) in H. unfold taken. destruct (made d) as [[[|err|b] h']|]; try done.
    destruct H as (e & hd & ts & I & R & L). exists b, h', e, hd, ts. split; [done|]. split; [exact Hn|]. split; [exact I|]. split; [exact R|exact L]. }
  split; (apply Ht; [apply (bool_decide_unpack _); vm_compute; exact I|vm_compute; reflexivity|vm_compute; reflexivity]).
Defined.

(** Deciding that words are a type. *)
Definition ty_okb (w : ty) : bool :=
  match w with
  | n :: i :: s :: rest =>
      forallb (λ v, (0 <=? v) && (v <? 2 ^ 32)) w && bool_decide (words_after i = Some (length rest))
  | _ => false
  end.
Lemma ty_okb_ok w : ty_okb w = true → ty_ok w.
Proof.
  destruct w as [|n [|i [|s rest]]]; try done. unfold ty_okb. intros [H1 H2%bool_decide_eq_true]%andb_true_iff. split.
  - apply Forall_forall. intros v Hv. apply list_elem_of_In in Hv. apply (proj1 (forallb_forall _ _) H1) in Hv. cbv beta in Hv. unfold is_word. lia.
  - by exists (mk_type n i s), rest.
Qed.
Lemma tys_okb_ok ts : forallb ty_okb ts = true → Forall ty_ok ts.
Proof. intros H. apply Forall_forall. intros w Hw. apply ty_okb_ok. apply list_elem_of_In in Hw. exact (proj1 (forallb_forall _ _) H w Hw). Qed.
