(* ===== verification/BtfTypes.v ===== *)
(** * libbpf: looking up types, and their sizes

    For an object of [Btf] that stands for a list of types ([models]): what a type
    identifier refers to, that names are read inside the strings, and the sizes
    and alignments that [btf__resolve_size] and [btf__align_of] compute. *)

From S2P Require Import Prelude Errno Bytes Hashmap Strset Heap Btf BtfSpec.
Local Open Scope Z_scope.

(** Membership in short lists of numbers, by arithmetic. *)
Ltac members := rewrite ?elem_of_cons, ?elem_of_nil in *; lia.

(** ** Objects and the types they hold *)

Record own_types (b : btf) (ts : list ty) : Prop := {
  ow_index : index_ok b ts;
  ow_ok : Forall ty_ok ts;
  ow_types : ∃ m o, at_place b (types_data b) = Some (m, o) ∧ has o (section_bytes false ts) m;
  ow_strs : ∃ h m o, hdr_of b = Some h ∧ btf_strs_data b = Some (m, o) ∧ 0 ≤ o ∧
    (0 < str_len h → load 1 (o + str_len h - 1) m = Some 0);
  ow_ptr : ptr_sz b ∈ [-1; 0; 4; 8] }.

(** An object on its own, or on top of another one: the types of the base come first. *)
Inductive models : btf → list ty → Prop :=
  | models_own b ts : base_btf b = None → start_id b = 1 → start_str_off b = 0 → own_types b ts → models b ts
  | models_split b base ts0 ts : base_btf b = Some base → models base ts0 → start_id b = 1 + length ts0 → 0 ≤ start_str_off b →
      own_types b ts → models b (ts0 ++ ts).

Lemma models_cnt b ts : models b ts → 1 + length ts < 2 ^ 32 → btf__type_cnt b = 1 + length ts ∧ 0 ≤ start_str_off b ∧ 1 ≤ start_id b.
Proof.
  intros Hm Hl. unfold btf__type_cnt. destruct Hm as [b ts _ -> -> Ho|b base ts0 ts _ _ -> Hs Ho]; rewrite (ix_nr _ _ (ow_index _ _ Ho)).
  - split; [apply wrap_small; unfold is_word; lia|lia].
  - rewrite length_app in *. split; [rewrite wrap_small; unfold is_word; lia|lia].
Qed.
Lemma models_ok b ts : models b ts → Forall ty_ok ts.
Proof. induction 1; [apply H2|]. apply Forall_app. split; [done|]. by eapply ow_ok. Qed.

(** What [btf_new] makes holds the types of the image. *)
Lemma range_behind (l s : list Z) a o n : (a + length s ≤ length l)%nat → a + length s ≤ o →
  range o n (take a l ++ s ++ drop (a + length s) l) = range o n l.
Proof.
  intros Hl Ho. assert (∀ pre : list Z, length pre = (a + length s)%nat → range o n (pre ++ drop (a + length s) l) = range (o - (a + length s)%nat) n (drop (a + length s) l)) as H.
  { intros pre Hp. replace o with (length pre + (o - (a + length s)%nat)) at 1 by lia. apply range_app_r. lia. }
  rewrite (assoc_L (++)), H by (rewrite length_app, length_take; lia). rewrite <- (take_drop (a + length s) l) at 2.
  by rewrite H by (rewrite length_take; lia).
Qed.

Lemma reads_own base data e hd ts b : bytes_ok data → is_image (is_split base) data e hd ts → hdr_wf hd → reads_as base data e hd ts b → own_types b ts.
Proof.
  intros Hb I Hw R. destruct (ra_places _ _ _ _ _ _ R) as (Eh & Et & Es). pose proof (im_layout _ _ _ _ _ I) as L.
  pose proof (hdr_word hd 4 (hdr_len hd) Hw ltac:(set_solver)) as W1. pose proof (hdr_word hd 4 (str_off hd) Hw ltac:(set_solver)) as W2.
  pose proof (hdr_word hd 4 (type_off hd) Hw ltac:(set_solver)) as W3. pose proof (hdr_word hd 4 (type_len hd) Hw ltac:(set_solver)) as W4.
  pose proof (hdr_word hd 4 (str_len hd) Hw ltac:(set_solver)) as W5.
  pose proof (la_end _ _ _ L) as Hend. pose proof (la_order _ _ _ L) as Hord. pose proof (length_native _ _ _ L) as El. unfold is_word, types_at in *.
  assert (length (section_bytes false ts) = Z.to_nat (type_len hd)) as Els.
  { rewrite length_section, <- (length_section e), <- (im_types _ _ _ _ _ I). apply length_sub; lia. }
  split; [apply R|apply I| | |destruct (ra_rest _ _ _ _ _ _ R) as (_ & _ & ->); members].
  - eexists _, _. unfold at_place. rewrite Et, (ra_raw _ _ _ _ _ _ R). split; [done|]. eexists _, _. split; [done|]. rewrite length_take. unfold types_at. lia.
  - exists hd. unfold btf_strs_data. rewrite Es, (ra_raw _ _ _ _ _ _ R), (ra_hdr _ _ _ _ _ _ R). eexists _, _. split; [done|]. split; [done|]. split; [lia|]. intros Hs.
    unfold types_at. replace (Z.to_nat (hdr_len hd + type_off hd + type_len hd)) with (Z.to_nat (hdr_len hd + type_off hd) + length (section_bytes false ts))%nat by lia.
    unfold load. rewrite range_behind by lia. rewrite native_range by (try done; lia). destruct (im_strs _ _ _ _ _ I) as [[_ ?]|(_ & E & _)]; [lia|exact E].
Qed.
Lemma reads_models base data e hd ts b : bytes_ok data → is_image (is_split base) data e hd ts → reads_as base data e hd ts b →
  match base with None => models b ts | Some base => ∀ ts0, models base ts0 → 1 + length ts0 < 2 ^ 32 → (∀ h, hdr_of base = Some h → 0 ≤ str_len h) → models b (ts0 ++ ts) end.
Proof.
  intros Hb I R. assert (hdr_wf hd) as Hw.
  { pose proof (im_layout _ _ _ _ _ I) as L. destruct (load_hdr_total data Hb (la_size _ _ _ L)) as (h0 & E0 & Hw).
    destruct (layout_order _ _ _ _ Hb L E0) as [-> _]. destruct e; [by apply bswap_hdr_wf|done]. }
  pose proof (reads_own _ _ _ _ _ _ Hb I Hw R) as Ho. pose proof (ra_start _ _ _ _ _ _ R) as Es. pose proof (ra_strs _ _ _ _ _ _ R) as Er. pose proof (ra_base _ _ _ _ _ _ R) as Eb.
  destruct base as [base|]; [|apply models_own; [done|done|congruence|done]]. intros ts0 Hm Hl Hh. apply (models_split b base); try done.
  - rewrite Es. by destruct (models_cnt base ts0 Hm Hl).
  - destruct (hdr_of base) as [h|]; [|done]. injection Er as ->. by apply Hh.
Qed.

(** What a pointer to a type points to. *)
Definition points (p : type_ptr) (w : ty) : Prop := match p with VoidPtr => False | TypeAt m o => has o (words_bytes false w) m end.

Lemma type_in_section ts i w : ts !! i = Some w → ∃ tail, section_bytes false ts = section_bytes false (take i ts) ++ words_bytes false w ++ tail.
Proof.
  intros Hi. exists (section_bytes false (drop (S i) ts)). rewrite <- (take_drop_middle _ _ _ Hi) at 1. unfold section_bytes.
  rewrite join_app, words_bytes_app. f_equal. cbn. by rewrite words_bytes_app.
Qed.
Lemma type_by_id_eq b id : btf_type_by_id b id =
  if id =? 0 then Some VoidPtr
  else if id <? start_id b then match base_btf b with Some base => btf_type_by_id base id | None => None end
  else '(m, o) ← at_place b (types_data b); offs ← type_offs b; off ← offs !! Z.to_nat (id - start_id b); Some (TypeAt m (o + off)).
Proof. by destruct b. Qed.
Lemma own_type_at b ts (i : nat) w : own_types b ts → ts !! i = Some w → 1 ≤ start_id b →
  ∃ p, btf_type_by_id b (start_id b + i) = Some p ∧ points p w.
Proof.
  intros Ho Hi Hs. destruct (ow_types _ _ Ho) as (m & o & Em & Hh). pose proof (lookup_lt_Some _ _ _ Hi) as Hlt.
  pose proof (ix_offs _ _ (ow_index _ _ Ho) i Hlt) as Hoff. exists (TypeAt m (o + start_of ts i)). split.
  - rewrite type_by_id_eq, (proj2 (Z.eqb_neq _ 0)), (proj2 (Z.ltb_ge _ _)) by lia.
    rewrite Em. cbn [mbind option_bind]. replace (Z.to_nat (start_id b + i - start_id b)) with i by lia.
    destruct (type_offs b) as [offs|]; [|done]. cbn in Hoff. cbn [mbind option_bind]. by rewrite Hoff.
  - destruct (type_in_section ts i w Hi) as [tail Et]. rewrite Et in Hh. apply has_app in Hh as [_ Hh]. apply has_app in Hh as [Hh _].
    unfold points. rewrite length_section in Hh. unfold start_of. by replace (4 * length (mjoin (take i ts) : list Z)) with (Z.of_nat (4 * length (mjoin (take i ts) : list Z))) by lia.
Qed.
Lemma own_type_base b base id : base_btf b = Some base → 0 < id < start_id b → btf_type_by_id b id = btf_type_by_id base id.
Proof. intros Eb Hi. by rewrite type_by_id_eq, (proj2 (Z.eqb_neq _ 0)), (proj2 (Z.ltb_lt _ _)), Eb by lia. Qed.

Lemma models_type b ts (i : nat) w : models b ts → ts !! i = Some w → ∃ p, btf_type_by_id b (1 + i) = Some p ∧ points p w.
Proof.
  intros Hm. revert i w. induction Hm as [b ts Eb Es _ Ho|b base ts0 ts Eb Hm IH Es _ Ho]; intros i w Hi.
  - rewrite <- Es. apply (own_type_at b ts); [done|done|lia].
  - pose proof (lookup_lt_Some _ _ _ Hi) as Hlt. destruct (decide (i < length ts0)%nat).
    + rewrite (own_type_base b base) by (try done; lia). apply IH. by rewrite <- (lookup_app_l ts0 ts).
    + destruct (own_type_at b ts (i - length ts0) w) as (p & Ep & Hp); [done|by rewrite <- lookup_app_r by lia|lia|]. exists p.
      replace (1 + i) with (start_id b + (i - length ts0)%nat) by lia. done.
Qed.

(** What an identifier refers to: nothing for 0, a type, or no type. *)
Definition at_id (ts : list ty) (id : Z) : option ty := if id <=? 0 then None else ts !! Z.to_nat (id - 1).
Lemma type_by_id_cases b ts id : models b ts → 1 + length ts < 2 ^ 32 → 0 ≤ id →
  (id = 0 ∧ btf__type_by_id b id = Some (inr VoidPtr)) ∨
  (∃ w p, at_id ts id = Some w ∧ ty_ok w ∧ btf__type_by_id b id = Some (inr p) ∧ points p w) ∨
  (at_id ts id = None ∧ id ≠ 0 ∧ btf__type_by_id b id = Some (inl EINVAL)).
Proof.
  intros Hm Hl Hid. destruct (models_cnt b ts Hm Hl) as (Ec & _). unfold btf__type_by_id, at_id. rewrite Ec.
  destruct (Z.leb_spec (1 + length ts) id).
  { right. right. rewrite (proj2 (Z.leb_gt _ _)) by lia. split; [apply lookup_ge_None; lia|]. split; [lia|done]. }
  destruct (decide (id = 0)) as [->|Hne]; [left; split; [done|by destruct b]|]. right. left.
  destruct (lookup_lt_is_Some_2 ts (Z.to_nat (id - 1))) as [w Hw]; [lia|]. destruct (models_type b ts _ w Hm Hw) as (p & Ep & Hp). exists w, p.
  rewrite (proj2 (Z.leb_gt _ _)) by lia. split; [done|]. split; [exact (Forall_lookup_1 _ _ _ _ (models_ok b ts Hm) Hw)|].
  replace (1 + Z.to_nat (id - 1)) with id in Ep by lia. by rewrite Ep.
Qed.

Lemma deref_points p w : points p w → ty_ok w → deref_type p = ty_head w.
Proof.
  intros Hp (Hw & t & rest & -> & _). destruct p as [|m o]; [done|]. destruct Hp as (pre & post & -> & <-). cbn [deref_type].
  rewrite load_type_at; [by destruct t|done|]. rewrite !Forall_cons in Hw. destruct Hw as (? & ? & ? & _). do 3 (apply Forall_cons; split; [done|]). by apply Forall_nil.
Qed.
Lemma rest_points p w (i : nat) j v : points p w → ty_ok w → j = 4 * i → w !! (3 + i)%nat = Some v → rest_field p j = Some v.
Proof.
  intros Hp [Hw _] -> Hv. destruct p as [|m o]; [done|]. destruct Hp as (pre & post & -> & <-). unfold rest_field, sizeof_type.
  rewrite <- (take_drop_middle _ _ _ Hv). rewrite words_bytes_app. cbn [words_bytes]. rewrite <- !(assoc_L (++)), (assoc_L (++) pre).
  assert (is_word 32 v) as Hvw by exact (Forall_lookup_1 _ _ _ _ Hw Hv). pose proof (lookup_lt_Some _ _ _ Hv).
  rewrite load_at by (rewrite ?length_app, ?length_words_bytes, ?length_word_list, ?length_take; lia). by rewrite le_val_word_bytes.
Qed.

(** ** Names and the size of a pointer *)

Lemma str_by_offset_eq b offset : btf__str_by_offset b offset =
  if offset <? start_str_off b then match base_btf b with Some base => btf__str_by_offset base offset | None => None end
  else
    h ← hdr_of b;
    if offset - start_str_off b <? str_len h then '(m, o) ← btf_strs_data b; Some (inr (m, o + (offset - start_str_off b)))
    else Some (inl EINVAL).
Proof. by destruct b. Qed.

(** Every name is there up to its end, or there is none. *)
Lemma name_at_total b ts offset : models b ts → 0 ≤ offset → is_Some (name_at b offset).
Proof.
  unfold name_at, btf__name_by_offset. intros Hm Ho. revert offset Ho.
  assert (∀ b ts offset, own_types b ts → 0 ≤ start_str_off b ≤ offset → is_Some (name_at b offset)) as Hown.
  { clear. intros b ts offset Hw Ho. unfold name_at, btf__name_by_offset. rewrite str_by_offset_eq, (proj2 (Z.ltb_ge _ _)) by lia.
    destruct (ow_strs _ _ Hw) as (h & m & o & -> & -> & H0 & Hend). cbn [mbind option_bind].
    destruct (Z.ltb_spec (offset - start_str_off b) (str_len h)); cbn [mbind option_bind]; [|by eexists].
    destruct (read_str_at m (o + (offset - start_str_off b)) (o + str_len h - 1)) as [s ->]; [lia|apply Hend; lia|by eexists]. }
  induction Hm as [b ts _ _ Es Hw|b base ts0 ts Eb Hm IH _ Hs Hw]; intros offset Ho.
  - apply (Hown b ts); [done|lia].
  - destruct (Z.ltb_spec offset (start_str_off b)) as [Hlt|Hge]; [|apply (Hown b ts); [done|lia]].
    rewrite str_by_offset_eq, (proj2 (Z.ltb_lt _ _) Hlt), Eb. by apply IH.
Qed.

(** The types of a list from identifier [i] on are found one after the other. *)
Lemma type_in b ts (i : Z) : models b ts → 1 + length ts < 2 ^ 32 → 1 ≤ i ≤ length ts →
  ∃ w p t rest, at_id ts i = Some w ∧ btf__type_by_id b i = Some (inr p) ∧ points p w ∧ ty_ok w ∧ w = name_off t :: info t :: size_type t :: rest ∧
    deref_type p = Some t ∧ is_word 32 (name_off t) ∧ is_word 32 (size_type t).
Proof.
  intros Hm Hl Hi. destruct (type_by_id_cases b ts i Hm Hl ltac:(lia)) as [[? _]|[(w & p & Ew & Hw & Ep & Hp)|(E & _)]]; [lia| |].
  - destruct (ty_ok_head w Hw) as (t & rest & E & Et & _). exists w, p, t, rest. split_and!; try done; [by rewrite (deref_points p w)|..].
    all: destruct Hw as [Hw _]; rewrite E in Hw; rewrite !Forall_cons in Hw; apply Hw.
  - unfold at_id in E. rewrite (proj2 (Z.leb_gt _ _)) in E by lia. apply lookup_ge_None in E. lia.
Qed.

Lemma find_long_total b ts (n : nat) i : models b ts → 1 + length ts < 2 ^ 32 → 1 ≤ i → i + n ≤ 1 + length ts →
  ∃ r, find_long n b i = Some r ∧ r ∈ [-1; 4; 8].
Proof.
  intros Hm Hl. revert i. induction n as [|n IH]; intros i Hi Hn; [exists (-1); split; [done|members]|].
  destruct (type_in b ts i Hm Hl ltac:(lia)) as (w & p & t & rest & _ & Ep & _ & _ & _ & Et & Wn & Ws). cbn [find_long]. rewrite Ep. cbn [mbind option_bind].
  rewrite Et. cbn [mbind option_bind]. destruct (IH (i + 1) ltac:(lia) ltac:(lia)) as (r & Er & Hr).
  destruct (btf_is_int t); cbn [negb]; [|by eauto]. destruct (Z.eqb_spec (size_type t) 4), (Z.eqb_spec (size_type t) 8); cbn [negb andb]; try lia; [| |by eauto].
  all: destruct (name_at_total b ts (name_off t) Hm) as [name ->]; [unfold is_word in *; lia|]; cbn [mbind option_bind].
  all: destruct name as [name|]; [|by eauto]; case_bool_decide; [|by eauto]; eexists; split; [done|]; members.
Qed.

Lemma s32_le z : 0 ≤ z < 2 ^ 32 → s32 z ≤ z.
Proof. intros. unfold sint. rewrite wrap_small by (unfold is_word; lia). destruct (_ <? _); lia. Qed.

(** The size that is used for pointers, and that it stays the same. *)
Definition psz (b : btf) : Z := match btf_ptr_sz b with Some (n, _) => n | None => 0 end.
Lemma ptr_size_ok b ts : models b ts → 1 + length ts < 2 ^ 32 →
  ∃ n, n ∈ [-1; 4; 8] ∧ btf_ptr_sz b = Some (psz b, if ptr_sz b =? 0 then with_ptr_sz n b else b) ∧ psz b ∈ [4; 8].
Proof.
  intros Hm Hl. assert (∃ n, n ∈ [-1; 4; 8] ∧ guess_ptr_sz b = Some ((), if ptr_sz b =? 0 then with_ptr_sz n b else b) ∧
    (ptr_sz b ≠ 0 → ptr_sz b ∈ [-1; 4; 8])) as (n & Hn & E & Hp).
  { destruct (models_cnt b ts Hm Hl) as (Ec & _).
    assert (ptr_sz b ∈ [-1; 0; 4; 8] ∧ ∀ base, base_btf b = Some base → ptr_sz base ∈ [-1; 0; 4; 8]) as [Hp Hpb].
    { destruct Hm as [b ts Eb _ _ Ho|b base ts0 ts Eb Hm _ _ Ho]; (split; [apply Ho|]); [by rewrite Eb|]. rewrite Eb. intros ? [= <-]. by destruct Hm as [??? _ _ Ho'|????? _ _ _ Ho']; apply Ho'. }
    assert (∃ n, determine_ptr_size b = Some n ∧ n ∈ [-1; 4; 8]) as (n & En & Hn).
    { unfold determine_ptr_size. rewrite Ec. pose proof (s32_le (1 + length ts) ltac:(lia)).
      destruct (find_long_total b ts (Z.to_nat (s32 (1 + length ts) - 1)) 1 Hm Hl) as (r & -> & Hr); [lia|lia|].
      destruct (base_btf b) as [base|]; [|by eauto]. destruct (Z.ltb_spec 0 (ptr_sz base)); [|by eauto]. eexists. split; [done|].
      specialize (Hpb _ eq_refl). members. }
    exists n. split; [done|]. unfold guess_ptr_sz. rewrite En. split; [by destruct (ptr_sz b =? 0)|]. intros. members. }
  exists n. split; [done|]. unfold psz, btf_ptr_sz, pbind. rewrite E. cbn. destruct (Z.eqb_spec (ptr_sz b) 0) as [E0|E0]; cbn [with_ptr_sz ptr_sz].
  - split; [done|]. destruct (Z.ltb_spec n 0); members.
  - split; [done|]. specialize (Hp E0). destruct (Z.ltb_spec (ptr_sz b) 0); members.
Qed.

(** ** The size of a type *)

Definition sized (k : kind) : bool :=
  match k with
  | BTF_KIND_INT | BTF_KIND_STRUCT | BTF_KIND_UNION | BTF_KIND_ENUM | BTF_KIND_ENUM64 | BTF_KIND_DATASEC | BTF_KIND_FLOAT => true
  | _ => false
  end.
Definition through (k : kind) : bool :=
  match k with
  | BTF_KIND_TYPEDEF | BTF_KIND_VOLATILE | BTF_KIND_CONST | BTF_KIND_RESTRICT | BTF_KIND_VAR | BTF_KIND_DECL_TAG | BTF_KIND_TYPE_TAG => true
  | _ => false
  end.

(** [has_size ts ptr n id dims s]: [n] types from [id] on lead to one of size [s],
    through arrays of the dimensions [dims]. *)
Inductive has_size (ts : list ty) (ptr : Z) : nat → Z → list Z → Z → Prop :=
  | size_leaf id w t k : at_id ts id = Some w → ty_head w = Some t → btf_kind t = Some k → sized k = true → has_size ts ptr 1 id [] (size_type t)
  | size_ptr id w t : at_id ts id = Some w → ty_head w = Some t → btf_kind t = Some BTF_KIND_PTR → has_size ts ptr 1 id [] ptr
  | size_through id w t k n dims s : at_id ts id = Some w → ty_head w = Some t → btf_kind t = Some k → through k = true →
      has_size ts ptr n (size_type t) dims s → has_size ts ptr (S n) id dims s
  | size_array id w t elem nelems n dims s : at_id ts id = Some w → ty_head w = Some t → btf_kind t = Some BTF_KIND_ARRAY →
      w !! 3%nat = Some elem → w !! 5%nat = Some nelems → has_size ts ptr n elem dims s → has_size ts ptr (S n) id (nelems :: dims) s.

(** The product, and that no product on the way to it is too large. *)
Fixpoint total (n : Z) (dims : list Z) (s : Z) : Z := match dims with [] => n * s | d :: dims => total (n * d) dims s end.
Fixpoint fits (n : Z) (dims : list Z) (s : Z) : bool :=
  match dims with [] => n * s <? 2 ^ 32 | d :: dims => (n * d <? 2 ^ 32) && fits (n * d) dims s end.

Lemma overflow_test n a : 0 ≤ n → 0 ≤ a → negb (n =? 0) && (UINT32_MAX / n <? a) = negb (n * a <? 2 ^ 32).
Proof.
  intros Hn Ha. destruct (Z.eqb_spec n 0) as [->|H0]; [done|]. cbn [negb andb]. unfold UINT32_MAX.
  destruct (Z.ltb_spec (n * a) (2 ^ 32)); cbn [negb].
  - apply Z.ltb_ge. apply Z.div_le_lower_bound; lia.
  - apply Z.ltb_lt. apply Z.div_lt_upper_bound; lia.
Qed.

Section resolve.
Context (b : btf) (ts : list ty) (Hm : models b ts) (Hl : 1 + length ts < 2 ^ 32).

(** The pointer that an identifier stands for. *)
Definition refers (p : Z + type_ptr) (id : Z) : Prop := is_word 32 id ∧ btf__type_by_id b id = Some p.
Definition size_result (n : nat) (id nelems r : Z) : Prop :=
  (0 ≤ r → ∃ k dims s, (k ≤ n)%nat ∧ has_size ts (psz b) k id dims s) ∧
  (∀ k dims s, (k ≤ n)%nat → has_size ts (psz b) k id dims s → r = if fits nelems dims s then total nelems dims s else - E2BIG).

Lemma no_size id k dims s : at_id ts id = None → ¬ has_size ts (psz b) k id dims s.
Proof. intros E Hs. destruct Hs; congruence. Qed.
Lemma refers_total id : is_word 32 id → ∃ p, refers p id.
Proof.
  intros Hid. unfold refers. destruct (type_by_id_cases b ts id Hm Hl ltac:(unfold is_word in Hid; lia)) as [[_ ?]|[(? & ? & _ & _ & ? & _)|(_ & _ & ?)]]; eauto.
Qed.

Lemma size_word w t : ty_ok w → ty_head w = Some t → is_word 32 (size_type t).
Proof. intros (Hw & t' & rest & -> & _) [= <-]. rewrite !Forall_cons in Hw. cbn. apply Hw. Qed.

Lemma has_size_inv k id dims s w t : at_id ts id = Some w → ty_head w = Some t → has_size ts (psz b) k id dims s →
  ∃ kd, btf_kind t = Some kd ∧
    ((sized kd = true ∧ dims = [] ∧ s = size_type t) ∨ (kd = BTF_KIND_PTR ∧ dims = [] ∧ s = psz b) ∨
     (through kd = true ∧ ∃ n, k = S n ∧ has_size ts (psz b) n (size_type t) dims s) ∨
     (kd = BTF_KIND_ARRAY ∧ ∃ elem ne n dims', w !! 3%nat = Some elem ∧ w !! 5%nat = Some ne ∧ k = S n ∧ dims = ne :: dims' ∧ has_size ts (psz b) n elem dims' s)).
Proof. intros Ew Et Hs. destruct Hs; simplify_eq; eexists; (split; [done|]); [by left|by right; left|right; right; left; eauto|do 3 right; split; [done|]; eauto 10]. Qed.

(** A result that is an error, when there is no size. *)
Lemma no_result n id nelems r : r < 0 → (∀ k dims s, (k ≤ n)%nat → ¬ has_size ts (psz b) k id dims s) → size_result n id nelems r.
Proof. intros Hr Hno. split; [lia|]. intros k dims s Hk Hs. by destruct (Hno k dims s Hk). Qed.

Section at_type.
Context (id : Z) (w : ty) (t : btf_type) (Ew : at_id ts id = Some w) (Et : ty_head w = Some t).

Lemma leaf_result n nelems s kd : 0 ≤ nelems → 0 ≤ s → btf_kind t = Some kd →
  (sized kd = true ∧ s = size_type t) ∨ (kd = BTF_KIND_PTR ∧ s = psz b) → size_result (S n) id nelems (resolved nelems s).
Proof.
  intros Hne Hs Ek Hkd. unfold resolved. rewrite (proj2 (Z.ltb_ge _ _)), overflow_test by lia. split.
  - intros _. exists 1%nat, [], s. split; [lia|]. destruct Hkd as [[? ->]|[-> ->]]; [by eapply size_leaf|by eapply size_ptr].
  - intros k dims s' _ Hk. destruct (has_size_inv _ _ _ _ _ _ Ew Et Hk) as (kd' & Ek' & Hc). rewrite Ek in Ek'. injection Ek' as <-.
    assert (dims = [] ∧ s' = s) as [-> ->].
    { destruct Hkd as [[? ->]|[-> ->]], Hc as [(? & -> & ->)|[(? & -> & ->)|[(? & _)|(? & _)]]]; subst; try done; by destruct kd. }
    cbn [fits total]. by destruct (nelems * s <? 2 ^ 32).
Qed.
Lemma through_result n nelems r kd : btf_kind t = Some kd → through kd = true → size_result n (size_type t) nelems r → size_result (S n) id nelems r.
Proof.
  intros Ek Hkd [H1 H2]. split.
  - intros (k & dims & s & Hk & Hs)%H1. exists (S k), dims, s. split; [lia|]. by eapply size_through.
  - intros k dims s Hk Hs. destruct (has_size_inv _ _ _ _ _ _ Ew Et Hs) as (kd' & Ek' & Hc). rewrite Ek in Ek'. injection Ek' as <-.
    destruct Hc as [(? & _)|[(-> & _)|[(_ & m & -> & Hm')|(-> & _)]]]; [by destruct kd|done| |done]. apply (H2 m); [lia|done].
Qed.
Lemma array_result n nelems elem ne r : btf_kind t = Some BTF_KIND_ARRAY → w !! 3%nat = Some elem → w !! 5%nat = Some ne →
  (if nelems * ne <? 2 ^ 32 then size_result n elem (nelems * ne) r else r = - E2BIG) → size_result (S n) id nelems r.
Proof.
  intros Ek E3 E5 Hr. assert (∀ k dims s, (k ≤ S n)%nat → has_size ts (psz b) k id dims s →
    ∃ m dims', dims = ne :: dims' ∧ (m ≤ n)%nat ∧ has_size ts (psz b) m elem dims' s) as Hinv.
  { intros k dims s Hk Hs. destruct (has_size_inv _ _ _ _ _ _ Ew Et Hs) as (kd' & Ek' & Hc). rewrite Ek in Ek'. injection Ek' as <-.
    destruct Hc as [(? & _)|[(? & _)|[(? & _)|(_ & elem' & ne' & m & dims' & E3' & E5' & -> & -> & Hm')]]]; try done.
    rewrite E3 in E3'. rewrite E5 in E5'. injection E3' as <-. injection E5' as <-. exists m, dims'. split_and!; [done|lia|done]. }
  destruct (nelems * ne <? 2 ^ 32) eqn:Ef; [destruct Hr as [H1 H2]|subst r]; split.
  - intros (k & dims & s & Hk & Hs)%H1. exists (S k), (ne :: dims), s. split; [lia|]. by eapply size_array.
  - intros k dims s Hk Hs. destruct (Hinv k dims s Hk Hs) as (m & dims' & -> & Hm' & Hs'). cbn [fits total]. rewrite Ef. cbn [andb]. by apply (H2 m).
  - done.
  - intros k dims s Hk Hs. destruct (Hinv k dims s Hk Hs) as (m & dims' & -> & _). cbn [fits]. by rewrite Ef.
Qed.
End at_type.

(** The fields of an array, and the step through it. *)
Lemma array_fields w t q : ty_ok w → ty_head w = Some t → points q w → btf_kind t = Some BTF_KIND_ARRAY →
  ∃ elem ne, w !! 3%nat = Some elem ∧ w !! 5%nat = Some ne ∧ rest_field q 0 = Some elem ∧ rest_field q 8 = Some ne ∧ is_word 32 elem ∧ is_word 32 ne.
Proof.
  intros Hw Et Hp Ek. destruct (ty_ok_head w Hw) as (t' & rest & Ewt & Et' & _ & Hr & _). rewrite Et in Et'. injection Et' as <-.
  unfold rest_words, btf_type_size in Hr. rewrite Ek in Hr. change (length rest = 3%nat) in Hr. destruct rest as [|elem [|idx [|ne [|]]]]; try done.
  assert (w !! 3%nat = Some elem ∧ w !! 5%nat = Some ne) as [E3 E5] by (by rewrite Ewt). exists elem, ne. split; [done|]. split; [done|].
  split; [by apply (rest_points q w 0)|]. split; [by apply (rest_points q w 2)|]. destruct Hw as [Hw _]. split; by eapply Forall_lookup_1.
Qed.

Lemma resolve_loop_ok n p id nelems : refers p id → is_word 32 nelems → ∃ r b', resolve_loop n p nelems b = Some (r, b') ∧ size_result n id nelems r.
Proof.
  revert p id nelems. induction n as [|n IH]; intros p id nelems [Hid Ep] Hn; cbn [resolve_loop].
  { eexists _, _. split; [done|]. apply no_result; [done|]. intros k dims s Hk Hs. destruct Hs; lia. }
  destruct (type_by_id_cases b ts id Hm Hl ltac:(unfold is_word in *; lia)) as [[-> Ep']|[(w & q & Ew & Hw & Ep' & Hp)|(En & _ & Ep')]];
    rewrite Ep in Ep'; injection Ep' as ->.
  1,3: unfold pbind at 1, look at 1; cbn; eexists _, _; split; [done|]; apply no_result; [done|]; intros k dims s _; by apply no_size.
  destruct (ty_ok_head w Hw) as (t & rest & Ewt & Et & Hsz & Hr & _). pose proof (size_word w t Hw Et) as Wt.
  assert (deref_type q = Some t) as Ed by (by rewrite (deref_points q w)).
  assert (type_is_void_or_null (inr q) = Some (btf_is_fwd t)) as Ev by (destruct q; [done|]; cbn [type_is_void_or_null]; by rewrite Ed).
  unfold pbind at 1, look at 1. rewrite Ev. cbn [mbind option_bind].
  destruct (btf_is_fwd t) eqn:Ef.
  { eexists _, _. split; [done|]. apply no_result; [done|]. intros k dims s _ Hs. apply bool_decide_eq_true in Ef.
    destruct (has_size_inv _ _ _ _ _ _ Ew Et Hs) as (kd & Ek & Hc). rewrite Ef in Ek. injection Ek as <-. destruct Hc as [(? & _)|[(? & _)|[(? & _)|(? & _)]]]; done. }
  unfold pbind at 1, look at 1. rewrite Ed. cbn [mbind option_bind].
  assert (∀ kd, btf_kind t = Some kd → sized kd = false → through kd = false → kd ≠ BTF_KIND_PTR → kd ≠ BTF_KIND_ARRAY →
    ∃ r b', pret (- EINVAL) b = Some (r, b') ∧ size_result (S n) id nelems r) as Hdef.
  { intros kd Ek H1 H2 H3 H4. eexists _, _. split; [done|]. apply no_result; [done|]. intros k dims s _ Hs.
    destruct (has_size_inv _ _ _ _ _ _ Ew Et Hs) as (kd' & Ek' & Hc). rewrite Ek in Ek'. injection Ek' as <-. destruct Hc as [(? & _)|[(? & _)|[(? & _)|(? & _)]]]; congruence. }
  assert (∀ kd, btf_kind t = Some kd → sized kd = true → ∃ r b', pret (resolved nelems (size_type t)) b = Some (r, b') ∧ size_result (S n) id nelems r) as Hleaf.
  { intros kd Ek Hk. eexists _, _. split; [done|]. unfold is_word in *. by eapply (leaf_result id w t Ew Et); [lia|lia|exact Ek|left]. }
  assert (∀ kd, btf_kind t = Some kd → through kd = true →
    ∃ r b', (let! p := look (λ b, btf__type_by_id b (size_type t)) in resolve_loop n p nelems) b = Some (r, b') ∧ size_result (S n) id nelems r) as Hthrough.
  { intros kd Ek Hk. destruct (refers_total (size_type t) Wt) as [p' Hp']. unfold pbind, look. rewrite (proj2 Hp'). cbn [mbind option_bind].
    destruct (IH p' (size_type t) nelems Hp' Hn) as (r & b' & -> & Hres). eexists _, _. split; [done|]. by eapply (through_result id w t Ew Et). }
  destruct (btf_kind t) as [kd|] eqn:Ek.
  2:{ eexists _, _. split; [done|]. apply no_result; [done|]. intros k dims s _ Hs. destruct (has_size_inv _ _ _ _ _ _ Ew Et Hs) as (kd' & Ek' & _). congruence. }
  destruct kd; try (by eapply Hdef); try (by eapply Hleaf); try (by eapply Hthrough).
  - destruct (ptr_size_ok b ts Hm Hl) as (m & _ & Ep' & Hps). unfold pbind. rewrite Ep'. eexists _, _. split; [done|].
    unfold is_word in *. eapply (leaf_result id w t Ew Et); [lia|members|exact Ek|by right].
  - destruct (array_fields w t q Hw Et Hp Ek) as (elem & ne & E3 & E5 & R0 & R8 & We & Wn). unfold pbind at 1 2, look at 1 2. rewrite R0, R8. cbn [mbind option_bind].
    unfold is_word in *. rewrite overflow_test by lia. destruct (nelems * ne <? 2 ^ 32) eqn:Eov; cbn [negb].
    + destruct (refers_total elem We) as [p' Hp']. unfold pbind, look. rewrite (proj2 Hp'). cbn [mbind option_bind].
      apply Z.ltb_lt in Eov. rewrite wrap_small by (unfold is_word; lia).
      destruct (IH p' elem (nelems * ne) Hp' ltac:(lia)) as (r & b' & -> & Hres). eexists _, _. split; [done|]. eapply (array_result id w t Ew Et); try done.
      by rewrite (proj2 (Z.ltb_lt _ _) Eov).
    + eexists _, _. split; [done|]. eapply (array_result id w t Ew Et); try done. by rewrite Eov.
Qed.
End resolve.

(** The size of a type: [btf__resolve_size] always returns.  A result that is
    not negative is the product of the dimensions and the size at the end of a chain
    of at most 32 types, and every such chain gives its product, or [-E2BIG] when a
    product on the way does not fit 32 bits. *)
Theorem resolve_size_exact b ts id : models b ts → 1 + length ts < 2 ^ 32 → is_word 32 id →
  ∃ r b', btf__resolve_size id b = Some (r, b') ∧
    (0 ≤ r → ∃ n dims s, (n ≤ 32)%nat ∧ has_size ts (psz b) n id dims s ∧ fits 1 dims s = true ∧ r = total 1 dims s) ∧
    (∀ n dims s, (n ≤ 32)%nat → has_size ts (psz b) n id dims s → r = if fits 1 dims s then total 1 dims s else - E2BIG).
Proof.
  intros Hm Hl Hid. unfold btf__resolve_size, pbind, look. destruct (refers_total b ts Hm Hl id Hid) as [p Hp]. rewrite (proj2 Hp). cbn [mbind option_bind].
  destruct (resolve_loop_ok b ts Hm Hl MAX_RESOLVE_DEPTH p id 1 Hp) as (r & b' & -> & H1 & H2); [done|]. exists r, b'. split; [done|]. split; [|exact H2].
  intros Hr. destruct (H1 Hr) as (n & dims & s & Hn & Hs). exists n, dims, s. pose proof (H2 n dims s Hn Hs) as E.
  destruct (fits 1 dims s); [done|]. rewrite E in Hr. unfold E2BIG in Hr. lia.
Qed.

(** ** The alignment of a type *)

(** The identifiers that [btf__align_of] is called on for a type. *)
Definition uses (w : ty) (id : Z) : Prop :=
  ∃ t k, ty_head w = Some t ∧ btf_kind t = Some k ∧
    match k with
    | BTF_KIND_TYPEDEF | BTF_KIND_VOLATILE | BTF_KIND_CONST | BTF_KIND_RESTRICT | BTF_KIND_TYPE_TAG => id = size_type t
    | BTF_KIND_ARRAY => w !! 3%nat = Some id
    | BTF_KIND_STRUCT | BTF_KIND_UNION => ∃ i, Z.of_nat i < btf_vlen t ∧ w !! (3 + 3 * i + 1)%nat = Some id
    | _ => False
    end.
(** [depth] bounds how far the references of a type go, all of them to types that exist. *)
Inductive alignable (ts : list ty) : nat → Z → Prop :=
  | alignable_void n : alignable ts (S n) 0
  | alignable_type n id w : at_id ts id = Some w → (∀ id', uses w id' → alignable ts n id') → alignable ts (S n) id.

Lemma models_ptr b ts n : models b ts → n ∈ [-1; 4; 8] → models (with_ptr_sz n b) ts.
Proof.
  intros Hm Hn. assert (∀ ts, own_types b ts → own_types (with_ptr_sz n b) ts) as H.
  { clear -Hn. intros ts [Hi Ho Ht Hs Hp]. split; [by destruct Hi|done|exact Ht|exact Hs|cbn; members]. }
  destruct Hm as [b ts ? ? ? ?|b base ts0 ts ? ? ? ? ?]; [apply models_own; auto|by eapply models_split; auto].
Qed.

Section align.
Context (ts : list ty) (Hl : 1 + length ts < 2 ^ 32).

(** What holds of a call: it returns with an alignment of at most 8, and the object
    stands for the same types. *)
Definition aligned (m : prog btf (option Z)) : Prop :=
  ∀ b, models b ts → wp m b (λ r b', models b' ts ∧ ∃ a, r = Some a ∧ 0 ≤ a ≤ 8).

Lemma wp_look {A} (f : btf → option A) a b (Q : A → btf → Prop) : f b = Some a → Q a b → wp (look f) b Q.
Proof. intros E HQ. unfold wp, look. by rewrite E. Qed.
Lemma wp_ptr_sz b (Q : Z → btf → Prop) : models b ts → (∀ n b', n = 4 ∨ n = 8 → models b' ts → Q n b') → wp btf_ptr_sz b Q.
Proof.
  intros Hm HQ. destruct (ptr_size_ok b ts Hm Hl) as (n & Hn & E & Hp). unfold wp. rewrite E. apply HQ; [members|]. destruct (ptr_sz b =? 0); [by apply models_ptr|done].
Qed.

Lemma struct_words w t (i : nat) (k : nat) : ty_ok w → ty_head w = Some t →
  btf_kind t = Some BTF_KIND_STRUCT ∨ btf_kind t = Some BTF_KIND_UNION → Z.of_nat i < btf_vlen t → (k < 3)%nat → ∃ v, w !! (3 + 3 * i + k)%nat = Some v ∧ is_word 32 v.
Proof.
  intros Hw Et Hk Hi Hk3. destruct (ty_ok_head w Hw) as (t' & rest & E & Et' & Hsz & _). rewrite Et in Et'. injection Et' as <-.
  destruct (lookup_lt_is_Some_2 w (3 + 3 * i + k)) as [v Hv].
  { unfold btf_type_size, sizeof_type in Hsz. destruct Hk as [Ek|Ek]; rewrite Ek in Hsz; lia. }
  exists v. split; [done|]. destruct Hw as [Hw _]. exact (Forall_lookup_1 _ _ _ _ Hw Hv).
Qed.

Lemma align_members_ok align w t p n (i : nat) m : ty_ok w → ty_head w = Some t → points p w →
  btf_kind t = Some BTF_KIND_STRUCT ∨ btf_kind t = Some BTF_KIND_UNION → (i + n = Z.to_nat (btf_vlen t))%nat → 1 ≤ m ≤ 8 →
  (∀ id, uses w id → aligned (align id)) → aligned (align_members align t p n i m).
Proof.
  intros Hw Et Hp Hk Hn Hm Ha. revert i m Hn Hm. induction n as [|n IH]; intros i m Hn Hm b Hb; cbn [align_members].
  { apply wp_ret. split; [done|]. eexists. split; [done|]. destruct (negb _); lia. }
  destruct (struct_words w t i 1 Hw Et Hk) as (type & E1 & _); [lia|lia|]. destruct (struct_words w t i 2 Hw Et Hk) as (off & E2 & _); [lia|lia|].
  apply wp_bind. eapply wp_look; [apply (rest_points p w (3 * i + 1)); [done|done|lia|]|]; [by rewrite Nat.add_assoc|].
  assert (uses w type) as Hu by (exists t; destruct Hk as [Ek|Ek]; (eexists; split; [done|]; split; [exact Ek|]; exists i; split; [lia|done])).
  apply wp_bind. eapply wp_mono; [exact (Ha type Hu b Hb)|]. intros r b' (Hb' & a & -> & Ha'). destruct (Z.leb_spec a 0); [by apply wp_ret; eauto|].
  apply wp_bind. eapply wp_look; [apply (rest_points p w (3 * i + 2)); [done|done|lia|]|]; [by rewrite Nat.add_assoc|].
  destruct (_ && _); [apply wp_ret; split; [done|]; exists 1; split; [done|lia]|]. replace (Z.of_nat i + 1) with (Z.of_nat (S i)) by lia. apply IH; [lia|lia|done].
Qed.

Lemma align_of_ok n id : alignable ts n id → 0 ≤ id → aligned (align_of n id).
Proof.
  revert id. induction n as [|n IH]; intros id Ha Hid b Hb; [inversion Ha|]. cbn [align_of].
  destruct (type_by_id_cases b ts id Hb Hl Hid) as [[-> Ep]|[(w & p & Ew & Hw & Ep & Hp)|(E & ? & _)]].
  - apply wp_bind. eapply wp_look; [exact Ep|]. apply wp_bind. eapply wp_look; [done|]. cbn. apply wp_ret. split; [done|]. exists 0. split; [done|lia].
  - apply wp_bind. eapply wp_look; [exact Ep|].
    assert (∀ id', uses w id' → alignable ts n id') as Hu.
    { inversion Ha as [|? ? w' Ew' Hu']; subst; [done|]. rewrite Ew in Ew'. by injection Ew' as <-. }
    destruct (ty_ok_head w Hw) as (t & rest & Ewt & Et & _). assert (deref_type p = Some t) as Ed by (by rewrite (deref_points p w)).
    apply wp_bind. eapply wp_look; [exact Ed|].
    assert (∀ id', uses w id' → aligned (align_of n id')) as Hrec.
    { intros id' Hu'. apply IH; [by apply Hu|]. destruct Hw as [Hw _]. destruct Hu' as (t' & k & Et' & Ek & Hid'). assert (is_word 32 id') as Wid; [|unfold is_word in Wid; lia].
      rewrite Et in Et'. injection Et' as <-. destruct k; try done;
        try (rewrite Hid'; rewrite Ewt, !Forall_cons in Hw; by apply Hw); try (by eapply Forall_lookup_1); destruct Hid' as (i & _ & Hi); by eapply Forall_lookup_1. }
    assert (∀ k, btf_kind t = Some k → (k = BTF_KIND_INT ∨ k = BTF_KIND_ENUM ∨ k = BTF_KIND_ENUM64 ∨ k = BTF_KIND_FLOAT) →
      wp (let! sz := btf_ptr_sz in pret (Some (s32 (Z.min sz (size_type t))))) b (λ r b', models b' ts ∧ ∃ a, r = Some a ∧ 0 ≤ a ≤ 8)) as Hscalar.
    { intros k _ _. apply wp_bind, wp_ptr_sz; [done|]. intros sz b' Hsz Hb'. apply wp_ret. split; [done|]. eexists. split; [done|]. pose proof (size_word w t Hw Et) as Ws. unfold is_word in Ws.
      rewrite sint_small by lia. lia. }
    destruct (btf_kind t) as [k|] eqn:Ek; [|apply wp_ret; split; [done|]; exists 0; split; [done|lia]].
    destruct k; try (by eapply Hscalar; [done|auto]); try (by apply wp_ret; split; [done|]; exists 0; split; [done|lia]);
      try (by apply Hrec; [eexists t, _; split_and!; [done|exact Ek|done]|done]).
    + apply wp_bind, wp_ptr_sz; [done|]. intros sz b' Hsz Hb'. apply wp_ret. split; [done|]. eexists. split; [done|lia].
    + destruct (array_fields w t p Hw Et Hp Ek) as (elem & _ & E3 & _ & R0 & _). apply wp_bind. eapply wp_look; [exact R0|].
      apply Hrec; [|done]. exists t, BTF_KIND_ARRAY. by split_and!.
    + apply (align_members_ok _ w t p _ 0 1); auto; lia.
    + apply (align_members_ok _ w t p _ 0 1); auto; lia.
  - inversion Ha as [|? ? w' Ew' _]; congruence.
Qed.
End align.

(** The alignment of a type whose references go [n] deep at most, and to types
    that exist, is found with [n] calls, without a fault; it is between 0, for a
    type without one, and 8. *)
Theorem align_of_returns b ts n id : models b ts → 1 + length ts < 2 ^ 32 → 0 ≤ id → alignable ts n id →
  ∃ a b', btf__align_of n id b = Some (Some a, b') ∧ 0 ≤ a ≤ 8 ∧ models b' ts.
Proof.
  intros Hm Hl Hid Ha. pose proof (align_of_ok ts Hl n id Ha Hid b Hm) as H. apply wp_run in H as (r & b' & E & Hb' & a & -> & Hr). by exists a, b'.
Qed.

(** ** An example *)

Definition demo_raw : list Z := hdr_bytes (mk_hdr BTF_MAGIC 1 0 24 0 88 88 8) ++ section_bytes false demo_types ++ demo_strs.
Definition demo_btf : btf :=
  mk_btf None (Some demo_raw) None 120 false (InRaw 0) (InRaw 24) 0 (Some [0; 16; 40; 76]) 4 4 1 0 (StrsRaw 112) false (-1) 0.

Lemma demo_models : models demo_btf demo_types.
Proof.
  apply models_own; try done. split.
  - split; try done. intros i Hi. do 4 (destruct i as [|i]; [done|]). cbn in Hi. lia.
  - by apply tys_okb_ok.
  - eexists _, _. split; [done|]. by exists (hdr_bytes (mk_hdr BTF_MAGIC 1 0 24 0 88 88 8)), demo_strs.
  - eexists _, _, _. split; [done|]. split; [done|]. split; [lia|]. done.
  - cbn. members.
Qed.
Lemma resolve_size_exact_witness : is_word 32 2 ∧
  ∃ r b', btf__resolve_size 2 demo_btf = Some (r, b') ∧
    (0 ≤ r → ∃ n dims s, (n ≤ 32)%nat ∧ has_size demo_types (psz demo_btf) n 2 dims s ∧ fits 1 dims s = true ∧ r = total 1 dims s) ∧
    (∀ n dims s, (n ≤ 32)%nat → has_size demo_types (psz demo_btf) n 2 dims s → r = if fits 1 dims s then total 1 dims s else - E2BIG).
Proof.
  split; [by split|]. apply (resolve_size_exact demo_btf demo_types 2).
  - exact demo_models.
  - vm_compute. reflexivity.
  - by split.
Defined.
(** Ten integers of 8 bytes, and the structure by its other name. *)
Example demo_sizes : (fst <$> btf__resolve_size 2 demo_btf, fst <$> btf__resolve_size 4 demo_btf) = (Some 80, Some 88).
Proof. vm_compute. reflexivity. Qed.

Lemma demo_alignable : alignable demo_types 4 4.
Proof.
  assert (alignable demo_types 1 1) as A1.
  { apply (alignable_type _ 0 1 [1; 0x01000000; 8; 64]); [done|]. intros id (t & k & [= <-] & [= <-] & []). }
  assert (∀ n m id, alignable demo_types n id → (n ≤ m)%nat → alignable demo_types m id) as Hmono.
  { intros n m id Ha. revert m. induction Ha as [n|n id w E _ IH]; intros [|m] Hm; try lia; [apply alignable_void|]. apply (alignable_type _ m id w E). intros id' Hu. apply (IH id' Hu). lia. }
  assert (alignable demo_types 2 2) as A2.
  { apply (alignable_type _ 1 2 [0; 0x03000000; 0; 1; 1; 10]); [done|]. intros id (t & k & [= <-] & [= <-] & [= <-]). exact A1. }
  assert (alignable demo_types 3 3) as A3.
  { apply (alignable_type _ 2 3 [6; 0x04000002; 88; 1; 1; 0; 6; 2; 64]); [done|]. intros id (t & k & [= <-] & [= <-] & i & Hi & E).
    change (Z.of_nat i < 2) in Hi. assert (i = 0%nat ∨ i = 1%nat) as [-> | ->] by lia; injection E as <-; [apply (Hmono 1%nat 2%nat 1 A1); lia|exact A2]. }
  apply (alignable_type _ 3 4 [6; 0x08000000; 3]); [done|]. intros id (t & k & [= <-] & [= <-] & ->). exact A3.
Qed.
Lemma align_of_returns_witness : ∃ a b', btf__align_of 4 4 demo_btf = Some (Some a, b') ∧ 0 ≤ a ≤ 8 ∧ models b' demo_types.
Proof.
  apply (align_of_returns demo_btf demo_types 4 4).
  - exact demo_models.
  - vm_compute. reflexivity.
  - lia.
  - exact demo_alignable.
Defined.
