(* ===== verification/BtfRaw.v ===== *)
(** * libbpf: writing type information

    [btf__raw_data] for objects of [Btf] that were read and not modified: the data
    in the byte order that was chosen.  Reading and writing back is the identity,
    and with [btf__set_endianness] in between it changes the byte order. *)

From S2P Require Import Prelude Errno Bytes Hashmap Strset Heap Btf BtfSpec BtfTypes.
Local Open Scope Z_scope.

(** Type information without gaps, in a byte order. *)
Definition hdr_in (e : bool) (h : btf_header) : list Z := hdr_bytes (if e then btf_bswap_hdr h else h).
Definition hdr_for (version flags : Z) (ts : list ty) (strs : list Z) : btf_header :=
  let n := Z.of_nat (length (section_bytes false ts)) in mk_hdr BTF_MAGIC version flags 24 0 n n (length strs).
Definition image (e : bool) (version flags : Z) (ts : list ty) (strs : list Z) : list Z :=
  hdr_in e (hdr_for version flags ts strs) ++ section_bytes e ts ++ strs.

Lemma section_inj e ts us : Forall ty_ok ts → Forall ty_ok us → section_bytes e ts = section_bytes e us → ts = us.
Proof.
  revert us. induction ts as [|w ts IH]; intros us Ht Hu E.
  - destruct us as [|w us]; [done|]. apply Forall_cons in Hu as [Hw _]. apply ty_ok_length in Hw. apply (f_equal length) in E.
    rewrite section_cons, length_app, length_words_bytes in E. cbn in E. lia.
  - apply Forall_cons in Ht as [Hw Ht]. rewrite section_cons in E. destruct (section_split w us e (section_bytes e ts) Hw Hu (eq_sym E)) as (us' & -> & E').
    f_equal. apply Forall_cons in Hu as [_ Hu]. by apply IH.
Qed.

(** Copying to a place in a block. *)
Lemma memcpy_at p src n v pre mid post d : range src.2 n src.1 = Some v → p = Z.of_nat (length pre) → length mid = length v → d = pre ++ mid ++ post →
  memcpy p src n d = Some (pre ++ v ++ post).
Proof. intros Er -> Hl ->. unfold memcpy. rewrite Er. cbn [mbind option_bind]. by apply store_at. Qed.

(** The types from the one after [ts] on, put into the other order. *)
Lemma swap_types_ok ts us pre post : Forall ty_ok us →
  swap_types (length pre) (start_of (ts ++ us) <$> seq (length ts) (length us)) (pre ++ section_bytes true ts ++ section_bytes false us ++ post) =
  Some (Some (pre ++ section_bytes true (ts ++ us) ++ post)).
Proof.
  revert ts. induction us as [|w us IH]; intros ts Hu; [cbn; by rewrite app_nil_r|].
  apply Forall_cons in Hu as [Hw Hu]. cbn [length seq fmap list_fmap swap_types]. rewrite start_of_end, section_cons.
  destruct (ty_ok_head w Hw) as (t & rest & -> & _ & _ & Hr & Hs). destruct Hw as [Hw _]. rewrite !Forall_cons in Hw. destruct Hw as (W1 & W2 & W3 & _).
  assert (Forall (is_word 32) [name_off t; info t; size_type t]) as W by (do 3 (apply Forall_cons; split; [done|]); by apply Forall_nil).
  set (w := name_off t :: info t :: size_type t :: rest). set (hd := [name_off t; info t; size_type t]).
  assert (∀ e, words_bytes e w = words_bytes e hd ++ words_bytes e rest) as Ew by (intros; apply (words_bytes_app _ hd)).
  rewrite <- (assoc_L (++) (words_bytes false w)), (assoc_L (++) pre).
  assert (length pre + length (section_bytes false ts) = Z.of_nat (length (pre ++ section_bytes true ts))) as Eo by (rewrite length_app, !length_section; lia).
  rewrite Eo. rewrite (swap_rest_fields _ _ t); [|by apply load_type_at|done]. rewrite Ew, <- Hr, <- (assoc_L (++) (words_bytes false hd)), (assoc_L (++) _ (words_bytes false hd)).
  rewrite bswap_fields_ok by (rewrite !length_app, length_words_bytes; unfold sizeof_type; cbn; lia). cbn [fmap option_fmap option_map mbind option_bind negb Z.eqb].
  rewrite <- (assoc_L (++) _ (words_bytes false hd)). unfold btf_bswap_type_base. change 3%nat with (length hd). rewrite bswap_fields_ok by done. cbn [mbind option_bind negb].
  specialize (IH (ts ++ [w]) Hu). rewrite <- (assoc_L (++) ts) in IH. cbn [app] in IH. rewrite section_snoc, length_app, Ew, <- !(assoc_L (++)) in IH. cbn [length] in IH.
  rewrite Nat.add_1_r in IH. rewrite <- !(assoc_L (++)). exact IH.
Qed.

(** The first and the last byte of a part. *)
Lemma load_first (l : list Z) pre post o c : head l = Some c → o = Z.of_nat (length pre) → load 1 o (pre ++ l ++ post) = Some c.
Proof.
  intros Hh ->. destruct l as [|c' l]; [done|]. injection Hh as ->. change ((c :: l) ++ post) with ([c] ++ (l ++ post)). rewrite load_at by done. cbn. f_equal. lia.
Qed.
Lemma load_last (l : list Z) pre post o c : last l = Some c → o = length pre + length l - 1 → load 1 o (pre ++ l ++ post) = Some c.
Proof.
  intros Hh ->. destruct (exists_last (l := l)) as (l' & c' & ->); [by intros ->|]. rewrite last_snoc in Hh. injection Hh as ->.
  rewrite <- (assoc_L (++)), (assoc_L (++) pre). apply load_first; [done|]. rewrite !length_app. cbn. lia.
Qed.

Section convert.
Context (version flags : Z) (ts : list ty) (strs : list Z) (Hv : is_byte version) (Hf : is_byte flags) (Hts : Forall ty_ok ts) (Hb : bytes_ok strs)
  (Hfirst : head strs = Some 0) (Hlast : last strs = Some 0) (Hmax : length strs ≤ 2 ^ 31) (Hsize : 24 + length (section_bytes false ts) + length strs < 2 ^ 32).
Let h := hdr_for version flags ts strs.

Lemma hdr_for_wf : hdr_wf h.
Proof.
  unfold hdr_wf, h, hdr_for, hdr_fields. cbn [magic Btf.version Btf.flags hdr_len type_off type_len str_off str_len].
  repeat (apply Forall_cons; split; [cbv beta; cbn [fst snd]|]); try (by apply Forall_nil); try exact Hv; try exact Hf; unfold is_word; try (by split);
    change (8 * Z.of_nat 4) with 32; lia.
Qed.
Lemma length_hdr_in e : length (hdr_in e h) = 24%nat.
Proof. done. Qed.
Lemma length_section_e e : length (section_bytes e ts) = length (section_bytes false ts).
Proof. by rewrite !length_section. Qed.
Lemma length_image e : length (image e version flags ts strs) = (24 + length (section_bytes false ts) + length strs)%nat.
Proof. unfold image. rewrite !length_app. fold h. rewrite length_hdr_in, length_section_e. lia. Qed.
Lemma image_ok e : bytes_ok (image e version flags ts strs).
Proof. unfold image, hdr_in. rewrite !Forall_app. split; [apply enc_bytes|]. split; [apply words_bytes_ok|done]. Qed.

Lemma image_is e split : is_image split (image e version flags ts strs) e h ts.
Proof.
  pose proof hdr_for_wf as Hw. assert (hdr_as e (image e version flags ts strs) = Some h) as Eh.
  { unfold hdr_as, image, hdr_in. fold h. rewrite (load_hdr_at 0 _ (if e then btf_bswap_hdr h else h)).
    - cbn. destruct e; [|done]. by rewrite bswap_hdr_twice.
    - destruct e; [by apply bswap_hdr_wf|done].
    - by eexists [], _. }
  assert (length strs ≠ 0%nat) as Hne by (by destruct strs). split.
  - split; try done; unfold h, hdr_for; cbn [hdr_len type_off type_len str_off str_len]; rewrite ?length_image; try lia.
  - done.
  - change (sub (24 + 0) (length (section_bytes false ts)) (image e version flags ts strs) = section_bytes e ts). unfold image, sub. fold h.
    rewrite Nat2Z.id. change (Z.to_nat (24 + 0)) with (length (hdr_in e h)). by rewrite drop_app_length, <- (length_section_e e), take_app_length.
  - right. unfold h, hdr_for. cbn [hdr_len type_off type_len str_off str_len]. split; [lia|]. unfold image. rewrite (assoc_L (++)). fold h. set (pre := hdr_in e h ++ _).
    assert (length pre = (24 + length (section_bytes false ts))%nat) as El by (unfold pre; by rewrite length_app, length_hdr_in, length_section_e).
    split; [|right].
    + pose proof (load_last strs pre [] _ 0 Hlast eq_refl) as E. rewrite app_nil_r in E. rewrite <- E. f_equal. lia.
    + pose proof (load_first strs pre [] _ 0 Hfirst eq_refl) as E. rewrite app_nil_r in E. rewrite <- E. f_equal. lia.
Qed.

(** What was read from an image, and what is kept of it. *)
Lemma read_image malloc_ok e hp : (∀ n, malloc_ok n = true) → 0 ≤ live hp →
  wp (btf_new malloc_ok (image e version flags ts strs) None) hp (λ r hp', ∃ b, r = Ptr b ∧ live hp' = live hp + blocks b ∧
    reads_as None (image e version flags ts strs) e h ts b ∧ raw_data b = Some (image false version flags ts strs)).
Proof.
  intros Hok Hlive. eapply wp_mono; [apply (btf_new_ok malloc_ok _ None); [apply image_ok|rewrite length_image; lia|done|done]|].
  pose proof (image_is e false) as I. intros [|err|b] hp'; [done| |].
  { intros (_ & _ & [[n E]|Hno]); [by rewrite Hok in E|]. by destruct (Hno e h ts). }
  intros (e' & h' & ts' & I' & R & L). exists b. split; [done|]. split; [done|].
  destruct (layout_unique _ _ _ _ _ (image_ok e) (im_layout _ _ _ _ _ I) (im_layout _ _ _ _ _ I')) as [<- <-].
  assert (ts' = ts) as -> by (eapply section_inj; [apply I'|done|]; by rewrite <- (im_types _ _ _ _ _ I'), (im_types _ _ _ _ _ I)).
  split; [done|]. rewrite (ra_raw _ _ _ _ _ _ R). f_equal.
  assert (native e h (image e version flags ts strs) = hdr_bytes h ++ section_bytes e ts ++ strs) as ->.
  { by destruct e. }
  change (Z.to_nat (types_at h)) with (length (hdr_bytes h)). rewrite take_app_length. change (image false version flags ts strs) with (hdr_bytes h ++ section_bytes false ts ++ strs).
  do 2 f_equal. rewrite (assoc_L (++)). apply drop_app_length'. rewrite length_app, length_section_e. change (length (hdr_bytes h)) with 24%nat.
  change (Z.to_nat (24 + 0 + length (section_bytes false ts)) = (24 + length (section_bytes false ts))%nat). lia.
Qed.

(** Header, types and strings, wherever the object keeps them, are written as the image. *)
Lemma serialize_parts b (swap : bool) (hdr_at types_at strs_at : list Z * Z) (n := length (section_bytes false ts)) : hdr_of b = Some h → index_ok b ts →
  at_place b (hdr b) = Some hdr_at → range hdr_at.2 24 hdr_at.1 = Some (hdr_bytes h) →
  at_place b (types_data b) = Some types_at → range types_at.2 n types_at.1 = Some (section_bytes false ts) →
  btf_strs_data b = Some strs_at → range strs_at.2 (length strs) strs_at.1 = Some strs →
  serialize b (24 + n + length strs) swap = Some (Some (image swap version flags ts strs)).
Proof.
  intros Eh Hix P1 R1 P2 R2 P3 R3. assert (hdr_len h = 24 ∧ type_len h = Z.of_nat n ∧ str_len h = Z.of_nat (length strs)) as (E1 & E2 & E3) by done.
  unfold serialize. rewrite Eh. cbn [mbind option_bind]. rewrite P1, P2, P3. cbn [mbind option_bind]. rewrite E1, E2, E3.
  rewrite (memcpy_at 0 hdr_at 24 _ [] (replicate 24 0) (replicate (n + length strs) 0) _ R1);
    [|done|by rewrite length_replicate|cbn [app]; rewrite <- replicate_add; f_equal; lia]. cbn [mbind option_bind app].
  assert ((if swap then h0 ← load_hdr 0 (hdr_bytes h ++ replicate (n + length strs) 0); store 0 (hdr_bytes (btf_bswap_hdr h0)) (hdr_bytes h ++ replicate (n + length strs) 0)
           else Some (hdr_bytes h ++ replicate (n + length strs) 0)) = Some (hdr_in swap h ++ replicate (n + length strs) 0)) as ->.
  { destruct swap; [|done]. rewrite (load_hdr_at 0 _ h hdr_for_wf) by (by eexists [], _). cbn [mbind option_bind]. by rewrite store_head. }
  cbn [mbind option_bind]. rewrite (memcpy_at 24 types_at n _ (hdr_in swap h) (replicate n 0) (replicate (length strs) 0) _ R2);
    [|done|by rewrite length_replicate|by rewrite replicate_add]. cbn [mbind option_bind].
  assert (take (Z.to_nat (nr_types b)) (default [] (type_offs b)) = start_of ts <$> seq 0 (length ts)) as ->.
  { destruct Hix as [I1 I2 _ I4]. rewrite I1, Nat2Z.id. apply list_eq. intros i. rewrite list_lookup_fmap. destruct (decide (i < length ts)%nat).
    - rewrite lookup_take_lt, I4, lookup_seq_lt by done. done.
    - rewrite lookup_take_ge, lookup_seq_ge by lia. done. }
  assert ((if swap then swap_types 24 (start_of ts <$> seq 0 (length ts)) (hdr_in swap h ++ section_bytes false ts ++ replicate (length strs) 0)
           else Some (Some (hdr_in swap h ++ section_bytes false ts ++ replicate (length strs) 0))) =
    Some (Some (hdr_in swap h ++ section_bytes swap ts ++ replicate (length strs) 0))) as ->.
  { destruct swap; [|done]. exact (swap_types_ok [] ts (hdr_in true h) _ Hts). }
  cbn [mbind option_bind].
  rewrite (memcpy_at (24 + n) strs_at (length strs) _ (hdr_in swap h ++ section_bytes swap ts) (replicate (length strs) 0) [] _ R3).
  - unfold image. fold h. by rewrite app_nil_r, <- (assoc_L (++)).
  - rewrite length_app, length_section_e. change (length (hdr_in swap h)) with 24%nat. fold n. lia.
  - by rewrite length_replicate.
  - by rewrite app_nil_r, <- (assoc_L (++)).
Qed.

(** The three parts of an image. *)
Lemma image_ranges (raw := image false version flags ts strs) (n := length (section_bytes false ts)) :
  range 0 24 raw = Some (hdr_bytes h) ∧ range 24 n raw = Some (section_bytes false ts) ∧ range (24 + n) (length strs) raw = Some strs.
Proof.
  assert (raw = hdr_bytes h ++ section_bytes false ts ++ strs) as Er by done. split_and!.
  - apply (has_range 0 (hdr_bytes h)). by eexists [], _.
  - apply (has_range 24 (section_bytes false ts)). by eexists (hdr_bytes h), _.
  - apply (has_range (24 + n) strs). exists (hdr_bytes h ++ section_bytes false ts), []. rewrite app_nil_r, <- (assoc_L (++)). split; [done|]. rewrite length_app. change (length (hdr_bytes h)) with 24%nat. lia.
Qed.

Lemma serialize_image b (swap : bool) : hdr_of b = Some h → index_ok b ts → hdr b = InRaw 0 → types_data b = InRaw (types_at h) → Btf.strs b = StrsRaw (hdr_len h + str_off h) →
  raw_data b = Some (image false version flags ts strs) →
  serialize b (24 + length (section_bytes false ts) + length strs) swap = Some (Some (image swap version flags ts strs)).
Proof.
  intros Eh Hix P1 P2 P3 Eraw. destruct image_ranges as (R1 & R2 & R3).
  eapply serialize_parts; [done|done|unfold at_place; by rewrite P1, Eraw|done|unfold at_place; by rewrite P2, Eraw|done|unfold btf_strs_data; by rewrite P3, Eraw|done].
Qed.
End convert.

Lemma blocks_raw b : hdr b = InRaw 0 → blocks b = 1 + one (raw_data b) + one (raw_data_swapped b) + one (type_offs b).
Proof. intros E. unfold blocks, btf_is_modifiable. rewrite E. cbn [negb Z.eqb]. lia. Qed.

(** Type information without gaps that is read in one byte order and written in
    another, or the same, comes out as the same header, types and strings in that
    order; and all memory is given back. *)
Theorem raw_data_converts malloc_ok version flags ts strs (e e' : bool) hp :
  is_byte version → is_byte flags → Forall ty_ok ts → bytes_ok strs → head strs = Some 0 → last strs = Some 0 → length strs ≤ 2 ^ 31 →
  24 + length (section_bytes false ts) + length strs < 2 ^ 32 → (∀ n, malloc_ok n = true) → 0 ≤ live hp →
  wp (let! p := btf_new malloc_ok (image e version flags ts strs) None in
      match p with
      | Ptr b =>
        let! (_, b) := btf__set_endianness b (if e' then BTF_BIG_ENDIAN else BTF_LITTLE_ENDIAN) in
        let! (r, b) := btf__raw_data malloc_ok b in
        btf__free (Some b) ;;; pret r
      | _ => pret None
      end) hp (λ r hp', r = Some (image e' version flags ts strs, Z.of_nat (length (image e' version flags ts strs))) ∧ live hp' = live hp).
Proof.
  intros Hv Hf Hts Hb H1 H2 H3 H4 Hok Hl. apply wp_bind. eapply wp_mono; [by apply read_image|]. intros r hp1 (b & -> & L1 & R & Eraw).
  destruct (ra_rest _ _ _ _ _ _ R) as (Esw & Efd & _). destruct (ra_places _ _ _ _ _ _ R) as (Eh & _).
  rewrite (blocks_raw b Eh), Eraw, Esw in L1. cbn [one] in L1. pose proof (one_range (type_offs b)).
  assert (∀ e1 e2, length (image e1 version flags ts strs) = length (image e2 version flags ts strs)) as Elen by (intros; by rewrite !length_image).
  set (b1 := with_raw_swapped None (with_swapped e' b)).
  assert (b1 = with_swapped e' b) as Eb1 by (unfold b1; destruct b; cbn in Esw |- *; by rewrite Esw).
  apply wp_bind. eapply (wp_mono _ _ (λ (r : Z * btf) hp', r.2 = b1 ∧ live hp' = live hp1)).
  { destruct e'; unfold btf__set_endianness; cbn; [by apply wp_ret|]. rewrite Esw. by split. }
  intros [x b1'] hp2 [E L2]. cbn [snd] in E. subst b1'. clear x. apply wp_bind. unfold btf__raw_data. apply wp_bind. destruct e'; cbn [swapped_endian with_raw_swapped with_swapped b1].
  - unfold btf_get_raw_data. cbn [raw_data_swapped with_raw_swapped b1]. apply wp_bind. eapply wp_lift; [exact (ra_hdr _ _ _ _ _ _ R)|].
    apply wp_bind, wp_malloc_no; [intros ? _ [n E]; by rewrite Hok in E|]. intros hp3 L3. cbn [negb]. apply wp_bind.
    change (u32 (hdr_len _ + _ + _)) with (u32 (24 + length (section_bytes false ts) + length strs)). rewrite wrap_small by (unfold is_word; lia).
    destruct (ra_places _ _ _ _ _ _ R) as (_ & Et & Es).
    eapply wp_lift; [exact (serialize_image version flags ts strs Hv Hf Hts H3 H4 b true (ra_hdr _ _ _ _ _ _ R) (ra_index _ _ _ _ _ _ R) Eh Et Es Eraw)|]. do 2 apply wp_ret.
    apply wp_bind. match goal with |- wp (btf__free (Some ?x)) _ _ => assert (blocks x = 3 + one (type_offs b)) as Ebf by (rewrite (blocks_raw x Eh); cbn; rewrite Eraw; cbn [one]; lia) end.
    apply btf_free_ok; rewrite Ebf; [lia|].
    intros hp4 L4. apply wp_ret. split; [|lia]. do 2 f_equal. rewrite length_image. lia.
  - unfold btf_get_raw_data. cbn [raw_data with_raw_swapped with_swapped b1]. rewrite Eraw. do 2 apply wp_ret.
    apply wp_bind. match goal with |- wp (btf__free (Some ?x)) _ _ => assert (blocks x = 2 + one (type_offs b)) as Ebf by (rewrite (blocks_raw x Eh); cbn; lia) end.
    apply btf_free_ok; rewrite Ebf; [lia|].
    intros hp4 L4. apply wp_ret. split; [|lia]. unfold b1. cbn [raw_size with_raw_swapped with_swapped]. rewrite (ra_size _ _ _ _ _ _ R). by rewrite (Elen e false).
Qed.

Lemma raw_data_converts_witness :
  wp (let! p := btf_new (λ _, true) (image true 1 0 demo_types demo_strs) None in
      match p with
      | Ptr b =>
        let! (_, b) := btf__set_endianness b (if false then BTF_BIG_ENDIAN else BTF_LITTLE_ENDIAN) in
        let! (r, b) := btf__raw_data (λ _, true) b in
        btf__free (Some b) ;;; pret r
      | _ => pret None
      end) (mk_heap 0 0 0) (λ r hp', r = Some (image false 1 0 demo_types demo_strs, Z.of_nat (length (image false 1 0 demo_types demo_strs))) ∧ live hp' = 0).
Proof.
  apply (raw_data_converts (λ _, true) 1 0 demo_types demo_strs true false (mk_heap 0 0 0)).
  1-2: by split.
  - by apply tys_okb_ok.
  - apply (bool_decide_unpack _). vm_compute. exact I.
  - reflexivity.
  - reflexivity.
  - vm_compute. congruence.
  - vm_compute. reflexivity.
  - reflexivity.
  - cbn. lia.
Defined.

(** ** Where the code goes wrong *)

Definition reading (data : list Z) : option (btf * heap) :=
  r ← btf__new (λ _, true) data (mk_heap 0 0 0); match r with (Some b, h) => Some (b, h) | _ => None end.

(** A type that is defined as itself is accepted; its size is an error, but asking for
    its alignment calls the function without end. *)
Definition cycle_data : list Z := image false 1 0 [[0; 0x08000000; 1]] [0].
Theorem align_of_cycle : ∃ b h, reading cycle_data = Some (b, h) ∧ fst <$> btf__resolve_size 1 b = Some (- EINVAL) ∧
  ∀ depth, btf__align_of depth 1 b = Some (None, b).
Proof.
  destruct (reading cycle_data) as [[b h]|] eqn:E; [|vm_compute in E; discriminate E]. exists b, h. split; [done|].
  vm_compute in E. injection E as <- <-. split; [vm_compute; reflexivity|]. intros depth. unfold btf__align_of. induction depth as [|depth IH]; [done|].
  cbn [align_of]. unfold pbind at 1. match goal with |- context [look ?f ?b] => let r := eval vm_compute in (look f b) in change (look f b) with r end.
  cbv beta iota. unfold pbind at 1. match goal with |- context [look ?f ?b] => let r := eval vm_compute in (look f b) in change (look f b) with r end.
  exact IH.
Qed.

(** A reference to a type that does not exist is accepted, too; asking for the alignment then reads through a null pointer. *)
Theorem align_of_missing : ∃ b h, reading (image false 1 0 [[0; 0x08000000; 7]] [0]) = Some (b, h) ∧ btf__align_of 2 1 b = None.
Proof.
  destruct (reading (image false 1 0 [[0; 0x08000000; 7]] [0])) as [[b h]|] eqn:E; [|vm_compute in E; discriminate E]. exists b, h. split; [done|].
  vm_compute in E. injection E as <- <-. vm_compute. reflexivity.
Qed.

(** A header that claims to have no length is accepted in the order of the host.
    Written in the other order, its 24 bytes are swapped in a block of one byte. *)
Definition short_data : list Z := hdr_bytes (mk_hdr BTF_MAGIC 1 0 0 0 0 3 1).
Theorem raw_data_short_header : ∃ b h, reading short_data = Some (b, h) ∧
  (let! (_, b) := btf__set_endianness b BTF_BIG_ENDIAN in btf__raw_data (λ _, true) b) h = None.
Proof.
  destruct (reading short_data) as [[b h]|] eqn:E; [|vm_compute in E; discriminate E]. exists b, h. split; [done|].
  vm_compute in E. injection E as <- <-. vm_compute. reflexivity.
Qed.

(** A gap between header and types is accepted.  When the data is written in the
    other order, the gap is left out and the header still has the old offsets: what
    is written cannot be read. *)
Definition gap_data : list Z := hdr_bytes (mk_hdr BTF_MAGIC 1 0 24 4 12 16 1) ++ [0; 0; 0; 0] ++ section_bytes false [[0; 0x02000000; 0]] ++ [0].
Theorem raw_data_gap : ∃ b h d, reading gap_data = Some (b, h) ∧
  (fst <$> (let! (_, b) := btf__set_endianness b BTF_BIG_ENDIAN in let! (r, _) := btf__raw_data (λ _, true) b in pret r) h) = Some (Some (d, 37)) ∧ reading d = None.
Proof.
  destruct (reading gap_data) as [[b h]|] eqn:E; [|vm_compute in E; discriminate E]. exists b, h. vm_compute in E. injection E as <- <-.
  eexists. split; [vm_compute; reflexivity|]. split; [vm_compute; reflexivity|]. vm_compute. reflexivity.
Qed.

(** Type information that builds on one that builds on another: its strings start
    where those of the second one end, counted from the beginning of the second. *)
Definition stack (data : list Z) (base : btf) : option btf :=
  r ← btf_new (λ _, true) data (Some base) (mk_heap 0 0 0); match r with (Ptr b, _) => Some b | _ => None end.
Theorem nested_strings : ∃ b1 b2 b3, reading (image false 1 0 [] (0 :: bytes_of "abcdef" ++ [0])) = Some b1 ∧
  stack (image false 1 0 [] (bytes_of "xy" ++ [0])) b1.1 = Some b2 ∧ stack (image false 1 0 [] (bytes_of "zz" ++ [0])) b2 = Some b3 ∧
  name_at b2 8 = Some (Some (bytes_of "xy")) ∧ name_at b3 8 = Some None.
Proof.
  destruct (reading (image false 1 0 [] (0 :: bytes_of "abcdef" ++ [0]))) as [b1|] eqn:E1; [|vm_compute in E1; discriminate E1]. exists b1.
  destruct (stack (image false 1 0 [] (bytes_of "xy" ++ [0])) b1.1) as [b2|] eqn:E2; [|vm_compute in E1; injection E1 as <-; vm_compute in E2; discriminate E2].
  destruct (stack (image false 1 0 [] (bytes_of "zz" ++ [0])) b2) as [b3|] eqn:E3;
    vm_compute in E1; injection E1 as <-; vm_compute in E2; injection E2 as <-; vm_compute in E3; [injection E3 as <-|discriminate E3].
  eexists _, _. split_and!; [vm_compute; reflexivity..].
Qed.
