(* ===== verification/BtfAdd.v ===== *)
(** * libbpf: adding to type information

    [btf.c]: new objects, and the strings and types that are appended to them.  An
    object that is to be modified is taken apart into three blocks first: header, types
    and a string set.

    A pointer into the types is an offset in their block.  What the allocator
    answers during an operation of the string set are the next answers of the heap;
    the set counts as one block.  A name is [None] for the null pointer, and the
    characters without the terminator otherwise. *)

From S2P Require Import Prelude Errno Bytes Hashmap Strset Heap Btf.
Local Open Scope Z_scope.

Definition UINT_MAX : Z := 2 ^ 32 - 1.
Definition INT_MIN : Z := - 2 ^ 31.
Definition BTF_VERSION : Z := 1.

(** [btf_type_info] takes numbers; the result has 32 bits. *)
Definition kind_code (k : kind) : Z :=
  match k with
  | BTF_KIND_UNKN => 0 | BTF_KIND_INT => 1 | BTF_KIND_PTR => 2 | BTF_KIND_ARRAY => 3 | BTF_KIND_STRUCT => 4 | BTF_KIND_UNION => 5
  | BTF_KIND_ENUM => 6 | BTF_KIND_FWD => 7 | BTF_KIND_TYPEDEF => 8 | BTF_KIND_VOLATILE => 9 | BTF_KIND_CONST => 10
  | BTF_KIND_RESTRICT => 11 | BTF_KIND_FUNC => 12 | BTF_KIND_FUNC_PROTO => 13 | BTF_KIND_VAR => 14 | BTF_KIND_DATASEC => 15
  | BTF_KIND_FLOAT => 16 | BTF_KIND_DECL_TAG => 17 | BTF_KIND_TYPE_TAG => 18 | BTF_KIND_ENUM64 => 19
  end.
Definition btf_type_info (kind vlen : Z) (kflag : bool) : Z :=
  u32 (Z.lor (Z.lor (Z.shiftl (Z.b2z kflag) 31) (Z.shiftl kind 24)) vlen).

(** ** Fields of an object *)

Definition with_base (base : option btf) (b : btf) : btf :=
  mk_btf base (raw_data b) (raw_data_swapped b) (raw_size b) (swapped_endian b) (hdr b) (types_data b) (types_data_cap b)
    (type_offs b) (type_offs_cap b) (nr_types b) (start_id b) (start_str_off b) (strs b) (strs_deduped b) (btf_fd b) (ptr_sz b).
Definition with_hdr (p : place) (b : btf) : btf :=
  mk_btf (base_btf b) (raw_data b) (raw_data_swapped b) (raw_size b) (swapped_endian b) p (types_data b) (types_data_cap b)
    (type_offs b) (type_offs_cap b) (nr_types b) (start_id b) (start_str_off b) (strs b) (strs_deduped b) (btf_fd b) (ptr_sz b).
Definition with_types (p : place) (cap : Z) (b : btf) : btf :=
  mk_btf (base_btf b) (raw_data b) (raw_data_swapped b) (raw_size b) (swapped_endian b) (hdr b) p cap
    (type_offs b) (type_offs_cap b) (nr_types b) (start_id b) (start_str_off b) (strs b) (strs_deduped b) (btf_fd b) (ptr_sz b).
Definition with_strs (s : strings) (b : btf) : btf :=
  mk_btf (base_btf b) (raw_data b) (raw_data_swapped b) (raw_size b) (swapped_endian b) (hdr b) (types_data b) (types_data_cap b)
    (type_offs b) (type_offs_cap b) (nr_types b) (start_id b) (start_str_off b) s (strs_deduped b) (btf_fd b) (ptr_sz b).
Definition with_deduped (d : bool) (b : btf) : btf :=
  mk_btf (base_btf b) (raw_data b) (raw_data_swapped b) (raw_size b) (swapped_endian b) (hdr b) (types_data b) (types_data_cap b)
    (type_offs b) (type_offs_cap b) (nr_types b) (start_id b) (start_str_off b) (strs b) d (btf_fd b) (ptr_sz b).

(** Writing at an offset of the block that a part is in. *)
Definition put_bytes (p : place) (o : Z) (v : list Z) (raw : option (list Z)) : option (place * option (list Z)) :=
  match p with
  | InRaw _ => m ← raw; m ← store o v m; Some (p, Some m)
  | Own d => d ← store o v d; Some (Own d, raw)
  end.

(** The header with some of its fields changed. *)
Definition put_hdr (f : btf_header → btf_header) (b : btf) : option btf :=
  h ← hdr_of b;
  '(p, raw) ← put_bytes (hdr b) (match hdr b with InRaw o => o | Own _ => 0 end) (hdr_bytes (f h)) (raw_data b);
  Some (with_raw raw (with_hdr p b)).
Definition set_type_len (n : Z) (h : btf_header) : btf_header :=
  mk_hdr (magic h) (version h) (flags h) (hdr_len h) (type_off h) n (str_off h) (str_len h).
Definition set_str_off (n : Z) (h : btf_header) : btf_header :=
  mk_hdr (magic h) (version h) (flags h) (hdr_len h) (type_off h) (type_len h) n (str_len h).
Definition set_str_len (n : Z) (h : btf_header) : btf_header :=
  mk_hdr (magic h) (version h) (flags h) (hdr_len h) (type_off h) (type_len h) (str_off h) n.

(** 32-bit fields one after the other, at an offset of the block of the types. *)
Definition words32 (ws : list Z) : list Z := enc ((λ w, (4%nat, w)) <$> ws).
Definition put_words (o : Z) (ws : list Z) (b : btf) : option btf :=
  '(p, raw) ← put_bytes (types_data b) o (words32 ws) (raw_data b);
  Some (with_raw raw (with_types p (types_data_cap b) b)).
Definition types_block (b : btf) : option (list Z) := fst <$> at_place b (types_data b).

Definition libbpf_err (ret : Z) : prog heap Z := λ h,
  Some (ret, if ret <? 0 then mk_heap (asked h) (live h) (- ret) else h).
Definition failing (ret : Z) (b : btf) : prog heap (Z * btf) := let! r := libbpf_err ret in pret (r, b).

Section memory.
Context (malloc_ok : nat → bool).

(** ** New objects *)

Definition btf_new_empty (base : option btf) : prog heap (ptr btf) :=
  let! ok := malloc malloc_ok in
  if negb ok then pret (ErrPtr (- ENOMEM))
  else
  let! (sid, sso) := lift (match base with
                           | None => Some (1, 0)
                           | Some base => h ← hdr_of base; Some (btf__type_cnt base, str_len h)
                           end) in
  let str_len := if bool_decide (is_Some base) then 0 else 1 in
  let! ok := malloc malloc_ok in
  if negb ok then free (Some ()) ;;; pret (ErrPtr (- ENOMEM))
  else
  let! raw := lift (store 0 (hdr_bytes (mk_hdr BTF_MAGIC BTF_VERSION 0 sizeof_header 0 0 0 str_len))
                      (replicate (Z.to_nat (sizeof_header + str_len)) 0)) in
  pret (Ptr (mk_btf base (Some raw) None (sizeof_header + str_len) false (InRaw 0) (InRaw sizeof_header) 0 None 0 0 sid sso
               (StrsRaw sizeof_header) false (-1) 8)).
Definition btf__new_empty : prog heap (option btf) := let! p := btf_new_empty None in libbpf_ptr p.
Definition btf__new_empty_split (base : btf) : prog heap (option btf) := let! p := btf_new_empty (Some base) in libbpf_ptr p.

(** ** Taking an object apart *)

Definition btf_invalidate_raw_data (b : btf) : prog heap btf :=
  free (raw_data b) ;;; free (raw_data_swapped b) ;;; pret (with_raw_swapped None (with_raw None b)).

(** The answers that an operation of a string set gets, and [strset__new]. *)
Definition answers (n : nat) : memory := mk_memory (malloc_ok n) (malloc_ok (S n)) (malloc_ok (S (S n))).
Definition new_strset (max : Z) (d : list Z) : prog heap (ptr strset.t) := λ h,
  p ← strset__new max (Some d) (answers (asked h)) (λ off, answers (asked h + 3 + 3 * Z.to_nat off));
  Some (p, mk_heap (asked h + 3 + 3 * length d) (match p with Ptr _ => live h + 1 | _ => live h end) (l_errno h)).

Definition btf_ensure_modifiable (b : btf) : prog heap (Z * btf) :=
  if btf_is_modifiable b then let! b := btf_invalidate_raw_data b in pret (0, b)
  else
  let! h := lift (hdr_of b) in
  let! hdr_ok := malloc malloc_ok in
  let! types_ok := malloc malloc_ok in
  let err_out (err : Z) : prog heap (Z * btf) :=
    free (if hdr_ok then Some () else None) ;;; free (if types_ok then Some () else None) ;;; pret (err, b) in
  if negb hdr_ok || negb types_ok then err_out (- ENOMEM)
  else
  let! (hm, ho) := lift (at_place b (hdr b)) in
  let! hdr := lift (range ho (hdr_len h) hm) in
  let! (tm, to) := lift (at_place b (types_data b)) in
  let! types := lift (range to (type_len h) tm) in
  let! (sm, so) := lift (btf_strs_data b) in
  let! d := lift (range so (str_len h) sm) in
  let! set := new_strset BTF_MAX_STR_OFFSET d in
  match set with
  | Ptr set =>
    let b := with_strs (StrsSet set) (with_types (Own types) (type_len h) (with_hdr (Own hdr) b)) in
    let deduped := (str_len h =? 0) || (negb (bool_decide (is_Some (base_btf b))) && (str_len h =? 1)) in
    let b := if deduped then with_deduped true b else b in
    let! b := btf_invalidate_raw_data b in
    pret (0, b)
  | ErrPtr err => err_out err
  | Null => pfault
  end.

(** ** Strings *)

(** An operation of the string set of an object. *)
Definition on_set (op : strset.t → list Z → memory → option (Z * strset.t)) (s : list Z) (b : btf) : prog heap (Z * btf) := λ h,
  match strs b with
  | StrsRaw _ => None
  | StrsSet set => '(r, set) ← op set s (answers (asked h)); Some ((r, with_strs (StrsSet set) b), mk_heap (asked h + 3) (live h) (l_errno h))
  end.

(** The part of [btf__find_str] after the search in the base. *)
Definition find_own_str (s : list Z) (b : btf) : prog heap (Z * btf) :=
  let! (err, b) := btf_ensure_modifiable b in
  if negb (err =? 0) then failing (- ENOMEM) b
  else
  let! (off, b) := on_set strset__find_str s b in
  if off <? 0 then failing off b else pret (s32 (start_str_off b + off), b).

(** The base is searched first, and taken apart for that. *)
Fixpoint btf__find_str (b : btf) (s : list Z) : prog heap (Z * btf) :=
  match base_btf b with
  | Some base =>
    let! (off, base) := btf__find_str base s in
    let b := with_base (Some base) b in
    if negb (off =? - ENOENT) then pret (off, b) else find_own_str s b
  | None => find_own_str s b
  end.

Definition add_own_str (s : list Z) (b : btf) : prog heap (Z * btf) :=
  let! (err, b) := btf_ensure_modifiable b in
  if negb (err =? 0) then failing (- ENOMEM) b
  else
  let! (off, b) := on_set strset__add_str s b in
  if off <? 0 then failing off b
  else
  let! n := lift (match strs b with StrsSet set => Some (strset__data_size set) | StrsRaw _ => None end) in
  let! b := lift (put_hdr (set_str_len (u32 n)) b) in
  pret (s32 (start_str_off b + off), b).

Definition btf__add_str (b : btf) (s : list Z) : prog heap (Z * btf) :=
  match base_btf b with
  | Some base =>
    let! (off, base) := btf__find_str base s in
    let b := with_base (Some base) b in
    if negb (off =? - ENOENT) then pret (off, b) else add_own_str s b
  | None => add_own_str s b
  end.

(** ** Types *)

(** Room for [add_sz] more bytes behind the types; the pointer to it, or null. *)
Definition btf_add_type_mem (b : btf) (add_sz : Z) : prog heap (option Z * btf) :=
  let! h := lift (hdr_of b) in
  λ hp,
    match types_data b with
    | InRaw _ => None
    | Own d =>
      match libbpf_add_mem d (types_data_cap b) 1 (type_len h) UINT_MAX add_sz (malloc_ok (asked hp)) with
      | None => Some ((None, b), mk_heap (S (asked hp)) (live hp) (l_errno hp))
      | Some (d, cap) => Some ((Some (type_len h), with_types (Own d) cap b), mk_heap (S (asked hp)) (live hp) (l_errno hp))
      end
    end.

(** [hdr->type_len += sz; hdr->str_off += sz] *)
Definition grow_types (sz : Z) (b : btf) : option btf :=
  b ← put_hdr (λ h, set_type_len (u32 (type_len h + sz)) h) b; put_hdr (λ h, set_str_off (u32 (str_off h + sz)) h) b.

Definition btf_commit_type (b : btf) (data_sz : Z) : prog heap (Z * btf) :=
  let! h := lift (hdr_of b) in
  let! (err, b) := btf_add_type_idx_entry malloc_ok b (type_len h) in
  if negb (err =? 0) then failing err b
  else
  let! b := lift (grow_types data_sz b) in
  let b := with_offs (type_offs b) (type_offs_cap b) (nr_types b + 1) b in
  pret (s32 (start_id b + nr_types b - 1), b).

(** [!name || !name[0]], and the string that is added otherwise. *)
Definition no_name (name : option (list Z)) : bool := match name with None | Some [] => true | Some (_ :: _) => false end.
Definition name_or_empty (name : option (list Z)) : list Z := default [] name.

(** Most functions go on like this once their arguments are checked: the object is
    taken apart, room is made for [sz] bytes, and the name is added, if there is one;
    then [k] is run with the pointer and the offset of the name. *)
Definition with_room (b : btf) (sz : Z) (name : option (list Z)) (k : Z → Z → btf → prog heap (Z * btf)) : prog heap (Z * btf) :=
  let! (err, b) := btf_ensure_modifiable b in
  if negb (err =? 0) then failing (- ENOMEM) b
  else
  let! (t, b) := btf_add_type_mem b sz in
  match t with
  | None => failing (- ENOMEM) b
  | Some t =>
    if no_name name then k t 0 b
    else
    let! (name_off, b) := btf__add_str b (name_or_empty name) in
    if name_off <? 0 then pret (name_off, b) else k t name_off b
  end.
(** The new type is written, with what follows it, and becomes visible. *)
Definition append_type (b : btf) (name : option (list Z)) (info size_type : Z) (rest : list Z) : prog heap (Z * btf) :=
  let sz := sizeof_type + 4 * length rest in
  with_room b sz name (λ t name_off b,
    let! b := lift (put_words t (name_off :: info :: size_type :: rest) b) in btf_commit_type b sz).

Definition btf_last_type (b : btf) : option type_ptr := btf_type_by_id b (u32 (btf__type_cnt b - 1)).
(** [t->info = info] *)
Definition put_info (p : type_ptr) (info : Z) (b : btf) : option btf :=
  match p with VoidPtr => None | TypeAt _ o => put_words (o + 4) [info] b end.
Definition btf_type_inc_vlen (t : btf_type) : btf_type :=
  mk_type (name_off t) (btf_type_info (kind_no t) (btf_vlen t + 1) (btf_kflag t)) (size_type t).

(** One more element of the last type: [words] are its fields, from the offset of its
    name, and [new_info] is what the field [info] of the type becomes. *)
Definition append_member (b : btf) (name : option (list Z)) (words : Z → list Z) (new_info : btf_type → Z) : prog heap (Z * btf) :=
  let sz := 4 * length (words 0) in
  with_room b sz name (λ m name_off b,
    let! b := lift (put_words m (words name_off) b) in
    let! p := lift (btf_last_type b) in
    let! t := lift (deref_type p) in
    let! b := lift (put_info p (new_info t) b) in
    let! b := lift (grow_types sz b) in
    pret (0, b)).
(** The checks on the last type that come before. *)
Definition with_last (b : btf) (test : btf_type → bool) (k : btf_type → prog heap (Z * btf)) : prog heap (Z * btf) :=
  if nr_types b =? 0 then failing (- EINVAL) b
  else
  let! p := lift (btf_last_type b) in
  let! t := lift (deref_type p) in
  if negb (test t) then failing (- EINVAL) b else k t.

(** ** The kinds of types *)

Definition is_kind (k : kind) (t : btf_type) : bool := bool_decide (btf_kind t = Some k).
Definition btf_is_union (t : btf_type) : bool := is_kind BTF_KIND_UNION t.
Definition btf_is_composite (t : btf_type) : bool := is_kind BTF_KIND_STRUCT t || is_kind BTF_KIND_UNION t.
Definition btf_is_enum (t : btf_type) : bool := is_kind BTF_KIND_ENUM t.
Definition btf_is_enum64 (t : btf_type) : bool := is_kind BTF_KIND_ENUM64 t.
Definition btf_is_func_proto (t : btf_type) : bool := is_kind BTF_KIND_FUNC_PROTO t.
Definition btf_is_datasec (t : btf_type) : bool := is_kind BTF_KIND_DATASEC t.

Definition info_of (k : kind) : Z := btf_type_info (kind_code k) 0 false.
Definition not_pow2 (n : Z) : bool := (n =? 0) || negb (Z.land n (n - 1) =? 0).

Definition btf__add_int (b : btf) (name : option (list Z)) (byte_sz encoding : Z) : prog heap (Z * btf) :=
  if no_name name then failing (- EINVAL) b
  else if not_pow2 byte_sz || (16 <? byte_sz) then failing (- EINVAL) b
  else if negb (Z.land encoding (Z.lnot 7) =? 0) then failing (- EINVAL) b
  else append_type b name (info_of BTF_KIND_INT) byte_sz [Z.lor (Z.shiftl encoding 24) (byte_sz * 8)].

Definition btf__add_float (b : btf) (name : option (list Z)) (byte_sz : Z) : prog heap (Z * btf) :=
  if no_name name then failing (- EINVAL) b
  else if negb (byte_sz =? 2) && negb (byte_sz =? 4) && negb (byte_sz =? 8) && negb (byte_sz =? 12) && negb (byte_sz =? 16)
  then failing (- EINVAL) b
  else append_type b name (info_of BTF_KIND_FLOAT) byte_sz [].

Definition validate_type_id (id : Z) : Z := if (id <? 0) || (BTF_MAX_NR_TYPES <? id) then - EINVAL else 0.
Definition bad_id (id : Z) : bool := negb (validate_type_id id =? 0).

Definition btf_add_ref_kind (b : btf) (k : kind) (name : option (list Z)) (ref_type_id : Z) : prog heap (Z * btf) :=
  if bad_id ref_type_id then failing (- EINVAL) b else append_type b name (info_of k) ref_type_id [].
Definition btf__add_ptr (b : btf) (ref_type_id : Z) : prog heap (Z * btf) := btf_add_ref_kind b BTF_KIND_PTR None ref_type_id.

Definition btf__add_array (b : btf) (index_type_id elem_type_id nr_elems : Z) : prog heap (Z * btf) :=
  if bad_id index_type_id || bad_id elem_type_id then failing (- EINVAL) b
  else append_type b None (info_of BTF_KIND_ARRAY) 0 [elem_type_id; index_type_id; nr_elems].

Definition btf_add_composite (b : btf) (k : kind) (name : option (list Z)) (bytes_sz : Z) : prog heap (Z * btf) :=
  append_type b name (info_of k) bytes_sz [].
Definition btf__add_struct (b : btf) (name : option (list Z)) (byte_sz : Z) : prog heap (Z * btf) := btf_add_composite b BTF_KIND_STRUCT name byte_sz.
Definition btf__add_union (b : btf) (name : option (list Z)) (byte_sz : Z) : prog heap (Z * btf) := btf_add_composite b BTF_KIND_UNION name byte_sz.

Definition btf__add_field (b : btf) (name : option (list Z)) (type_id bit_offset bit_size : Z) : prog heap (Z * btf) :=
  with_last b btf_is_composite (λ t,
    let is_bitfield := negb (bit_size =? 0) || negb (bit_offset mod 8 =? 0) in
    if bad_id type_id then failing (- EINVAL) b
    else if is_bitfield && ((bit_size =? 0) || (255 <? bit_size) || (0xffffff <? bit_offset)) then failing (- EINVAL) b
    else if btf_is_union t && negb (bit_offset =? 0) then failing (- EINVAL) b
    else append_member b name (λ name_off, [name_off; type_id; Z.lor bit_offset (Z.shiftl bit_size 24)])
           (λ t, btf_type_info (kind_no t) (btf_vlen t + 1) (is_bitfield || btf_kflag t))).

Definition btf_add_enum_common (b : btf) (name : option (list Z)) (byte_sz : Z) (is_signed : bool) (k : kind) : prog heap (Z * btf) :=
  if not_pow2 byte_sz || (8 <? byte_sz) then failing (- EINVAL) b
  else append_type b name (btf_type_info (kind_code k) 0 is_signed) byte_sz [].
Definition btf__add_enum (b : btf) (name : option (list Z)) (byte_sz : Z) : prog heap (Z * btf) :=
  btf_add_enum_common b name byte_sz false BTF_KIND_ENUM.
Definition btf__add_enum64 (b : btf) (name : option (list Z)) (byte_sz : Z) (is_signed : bool) : prog heap (Z * btf) :=
  btf_add_enum_common b name byte_sz is_signed BTF_KIND_ENUM64.

Definition btf__add_enum_value (b : btf) (name : option (list Z)) (value : Z) : prog heap (Z * btf) :=
  with_last b btf_is_enum (λ _,
    if no_name name then failing (- EINVAL) b
    else if (value <? INT_MIN) || (UINT_MAX <? value) then failing (- E2BIG) b
    else append_member b name (λ name_off, [name_off; value])
           (λ t, let t := btf_type_inc_vlen t in if value <? 0 then btf_type_info (kind_no t) (btf_vlen t) true else info t)).
Definition btf__add_enum64_value (b : btf) (name : option (list Z)) (value : Z) : prog heap (Z * btf) :=
  with_last b btf_is_enum64 (λ _,
    if no_name name then failing (- EINVAL) b
    else append_member b name (λ name_off, [name_off; value; Z.shiftr value 32]) (λ t, info (btf_type_inc_vlen t))).

(** [btf_type_by_id(btf, id)->info = info] *)
Definition put_info_of (id info : Z) (b : btf) : prog heap btf :=
  let! p := lift (btf_type_by_id b id) in lift (put_info p info b).

Definition btf__add_fwd (b : btf) (name : option (list Z)) (fwd_kind : Z) : prog heap (Z * btf) :=
  if no_name name then failing (- EINVAL) b
  else if (fwd_kind =? 0) || (fwd_kind =? 1) then
    let! (id, b) := btf_add_ref_kind b BTF_KIND_FWD name 0 in
    if id <=? 0 then pret (id, b)
    else let! b := put_info_of id (btf_type_info (kind_code BTF_KIND_FWD) 0 (fwd_kind =? 1)) b in pret (id, b)
  else if fwd_kind =? 2 then btf__add_enum b name 4
  else failing (- EINVAL) b.

Definition btf__add_typedef (b : btf) (name : option (list Z)) (ref_type_id : Z) : prog heap (Z * btf) :=
  if no_name name then failing (- EINVAL) b else btf_add_ref_kind b BTF_KIND_TYPEDEF name ref_type_id.
Definition btf__add_volatile (b : btf) (ref_type_id : Z) : prog heap (Z * btf) := btf_add_ref_kind b BTF_KIND_VOLATILE None ref_type_id.
Definition btf__add_const (b : btf) (ref_type_id : Z) : prog heap (Z * btf) := btf_add_ref_kind b BTF_KIND_CONST None ref_type_id.
Definition btf__add_restrict (b : btf) (ref_type_id : Z) : prog heap (Z * btf) := btf_add_ref_kind b BTF_KIND_RESTRICT None ref_type_id.
Definition btf__add_type_tag (b : btf) (value : option (list Z)) (ref_type_id : Z) : prog heap (Z * btf) :=
  if no_name value then failing (- EINVAL) b else btf_add_ref_kind b BTF_KIND_TYPE_TAG value ref_type_id.

Definition btf__add_func (b : btf) (name : option (list Z)) (linkage proto_type_id : Z) : prog heap (Z * btf) :=
  if no_name name then failing (- EINVAL) b
  else if negb (linkage =? 0) && negb (linkage =? 1) && negb (linkage =? 2) then failing (- EINVAL) b
  else
    let! (id, b) := btf_add_ref_kind b BTF_KIND_FUNC name proto_type_id in
    let! b := (if 0 <? id then put_info_of id (btf_type_info (kind_code BTF_KIND_FUNC) linkage false) b else pret b) in
    failing id b.
Definition btf__add_func_proto (b : btf) (ret_type_id : Z) : prog heap (Z * btf) :=
  if bad_id ret_type_id then failing (- EINVAL) b else append_type b None (info_of BTF_KIND_FUNC_PROTO) ret_type_id [].
Definition btf__add_func_param (b : btf) (name : option (list Z)) (type_id : Z) : prog heap (Z * btf) :=
  if bad_id type_id then failing (- EINVAL) b
  else with_last b btf_is_func_proto (λ _,
    append_member b name (λ name_off, [name_off; type_id]) (λ t, info (btf_type_inc_vlen t))).

Definition btf__add_var (b : btf) (name : option (list Z)) (linkage type_id : Z) : prog heap (Z * btf) :=
  if no_name name then failing (- EINVAL) b
  else if negb (linkage =? 0) && negb (linkage =? 1) && negb (linkage =? 2) then failing (- EINVAL) b
  else if bad_id type_id then failing (- EINVAL) b
  else append_type b name (info_of BTF_KIND_VAR) type_id [linkage].
Definition btf__add_datasec (b : btf) (name : option (list Z)) (byte_sz : Z) : prog heap (Z * btf) :=
  if no_name name then failing (- EINVAL) b else append_type b name (info_of BTF_KIND_DATASEC) byte_sz [].
Definition btf__add_datasec_var_info (b : btf) (var_type_id offset byte_sz : Z) : prog heap (Z * btf) :=
  with_last b btf_is_datasec (λ _,
    if bad_id var_type_id then failing (- EINVAL) b
    else append_member b None (λ _, [var_type_id; offset; byte_sz]) (λ t, info (btf_type_inc_vlen t))).
Definition btf__add_decl_tag (b : btf) (value : option (list Z)) (ref_type_id component_idx : Z) : prog heap (Z * btf) :=
  if no_name value || (component_idx <? -1) then failing (- EINVAL) b
  else if bad_id ref_type_id then failing (- EINVAL) b
  else append_type b value (info_of BTF_KIND_DECL_TAG) ref_type_id [component_idx].
End memory.
