(* ===== verification/BtfBuild.v ===== *)
(** * libbpf: what adding to type information does

    An object of [Btf] stands for a list of types and a dictionary of strings, both
    while it is one block of data and once it was taken apart ([stands]).  Every
    function of [BtfAdd] that adds something follows a plan on these ([plan_of]):
    arguments are refused, a type is appended, or the last type gets one more
    element; names are interned.  What [btf__raw_data] writes in between is the
    image of the types and strings at that time. *)

From S2P Require Import Prelude Errno Bytes Hashmap Strset Heap Btf BtfSpec BtfTypes BtfRaw BtfAdd.
Local Open Scope Z_scope.

(** ** Objects and what they stand for *)

(** The types, the bytes of the strings, the offsets of the strings, and whether the
    data is to be written in the other byte order. *)
Record tinfo := mk_tinfo { a_types : list ty; a_bytes : list Z; a_strs : gmap (list Z) Z; a_swapped : bool }.

(** Fields of an object after some of them were changed. *)
Ltac fields := cbn [base_btf raw_data raw_data_swapped raw_size swapped_endian hdr types_data types_data_cap type_offs type_offs_cap nr_types start_id
  start_str_off strs strs_deduped btf_fd ptr_sz with_raw with_raw_size with_raw_swapped with_swapped with_offs with_hdr with_types with_strs with_deduped
  fst snd one a_types a_bytes a_strs a_swapped].

Lemma le_bytes_wrap n z : le_bytes n (wrap (8 * n) z) = le_bytes n z.
Proof. rewrite <- le_val_le_bytes. pose proof (le_bytes_le_val (le_bytes n z) (le_bytes_ok n z)) as E. by rewrite length_le_bytes in E. Qed.
Lemma words32_bytes ws : words32 ws = words_bytes false ((λ w, u32 w) <$> ws).
Proof. induction ws as [|w ws IH]; [done|]. cbn [fmap list_fmap words_bytes word_bytes]. rewrite <- IH. by rewrite (le_bytes_wrap 4 w : le_bytes 4 (u32 w) = _). Qed.
Lemma length_words32 ws : length (words32 ws) = (4 * length ws)%nat.
Proof. by rewrite words32_bytes, length_words_bytes, length_fmap. Qed.

(** Strings one after the other, from bytes that end with a terminator. *)
Lemma split_strs l : last l = Some 0 → ∃ strs, Forall nul_free strs ∧ l = flat strs.
Proof.
  induction l as [|c l IH]; [done|]. destruct (decide (l = [])) as [->|Hne].
  { intros [= ->]. exists [[]]. split; [|done]. apply Forall_singleton. apply not_elem_of_nil. }
  intros Hl. destruct IH as (strs & Hs & ->). { by destruct l. }
  destruct (decide (c = 0)) as [->|Hc].
  { exists ([] :: strs). split; [apply Forall_cons; split; [apply not_elem_of_nil|done]|]. by rewrite flat_cons. }
  destruct strs as [|s strs]; [done|]. exists ((c :: s) :: strs). rewrite !flat_cons. split; [|done].
  apply Forall_cons in Hs as [? ?]. apply Forall_cons. split; [|done]. unfold nul_free in *. rewrite not_elem_of_cons. by split.
Qed.

(** ** The field [info] *)

Lemma type_info_eq k n fl : 0 ≤ k < 32 → 0 ≤ n < 65536 → btf_type_info k n fl = Z.b2z fl * 2 ^ 31 + k * 2 ^ 24 + n.
Proof.
  intros Hk Hn. unfold btf_type_info. rewrite (Z.shiftl_mul_pow2 k) by lia. rewrite (lor_add_disjoint (Z.b2z fl)) by lia.
  replace (Z.b2z fl * 2 ^ 31 + k * 2 ^ 24) with (Z.shiftl (Z.b2z fl * 2 ^ 7 + k) 24) by (rewrite Z.shiftl_mul_pow2 by lia; lia).
  rewrite lor_add_disjoint, Z.shiftl_mul_pow2 by lia. rewrite wrap_small; [done|]. unfold is_word. destruct fl; cbn [Z.b2z]; lia.
Qed.
Lemma type_info_fields k n fl a s (t := mk_type a (btf_type_info k n fl) s) : 0 ≤ k < 32 → 0 ≤ n < 65536 →
  kind_no t = k ∧ btf_vlen t = n ∧ btf_kflag t = fl ∧ is_word 32 (btf_type_info k n fl).
Proof.
  intros Hk Hn. unfold kind_no, btf_vlen, btf_kflag, t. cbn [info]. rewrite (type_info_eq k n fl Hk Hn).
  assert (∀ z, Z.land z 0x1f = z mod 32 ∧ Z.land z 0xffff = z mod 65536) as Hl by (intros z; split; [exact (Z.land_ones z 5 ltac:(lia))|exact (Z.land_ones z 16 ltac:(lia))]).
  rewrite !(proj1 (Hl _)), !(proj2 (Hl _)), !Z.shiftr_div_pow2 by lia. unfold is_word. clear Hl. destruct fl; cbn [Z.b2z]; split_and!; try dlia.
Qed.
Lemma kind_no_range t : 0 ≤ kind_no t < 32.
Proof. unfold kind_no. change 0x1f with (Z.ones 5). rewrite Z.land_ones by lia. apply Z.mod_pos_bound. lia. Qed.

Section object.
Context (v f : Z).

(** Data in one block. *)
Record whole (b : btf) (a : tinfo) : Prop := {
  wh_raw : raw_data b = Some (image false v f (a_types a) (a_bytes a));
  wh_places : hdr b = InRaw 0 ∧ types_data b = InRaw 24 ∧ strs b = StrsRaw (24 + length (section_bytes false (a_types a)));
  wh_strs : ∃ l, Forall nul_free l ∧ a_bytes a = flat l ∧ a_strs a = offsets 0 l ∅;
  wh_size : 24 + length (section_bytes false (a_types a)) + length (a_bytes a) < 2 ^ 32 }.
(** Three blocks; [more] is the room behind the types. *)
Record apart (b : btf) (a : tinfo) (more : list Z) : Prop := {
  ap_hdr : hdr b = Own (hdr_bytes (hdr_for v f (a_types a) (a_bytes a)));
  ap_types : types_data b = Own (section_bytes false (a_types a) ++ more);
  ap_cap : types_data_cap b = Z.of_nat (length (section_bytes false (a_types a) ++ more)) ∧ types_data_cap b ≤ UINT_MAX;
  ap_strs : ∃ set, strs b = StrsSet set ∧ set_ok BTF_MAX_STR_OFFSET set (a_bytes a) (a_strs a) ∧ strset.strs_data_cap set ≤ BTF_MAX_STR_OFFSET }.
(** What does not depend on that. *)
Record sound (b : btf) (a : tinfo) : Prop := {
  so_ids : base_btf b = None ∧ start_id b = 1 ∧ start_str_off b = 0;
  so_index : index_ok b (a_types a);
  so_types : Forall ty_ok (a_types a);
  so_bytes : bytes_ok (a_bytes a) ∧ head (a_bytes a) = Some 0 ∧ last (a_bytes a) = Some 0;
  so_limit : length (a_bytes a) ≤ BTF_MAX_STR_OFFSET;
  so_count : size (a_strs a) ≤ length (a_bytes a);
  so_ptr : ptr_sz b ∈ [-1; 0; 4; 8];
  so_order : swapped_endian b = a_swapped a }.
(** The data that is kept is never stale. *)
Definition cached (b : btf) (a : tinfo) : Prop :=
  (∀ d, raw_data b = Some d → d = image false v f (a_types a) (a_bytes a) ∧ raw_size b = Z.of_nat (length d)) ∧
  (∀ d, raw_data_swapped b = Some d → d = image true v f (a_types a) (a_bytes a) ∧ raw_size b = Z.of_nat (length d)).
Definition stands (b : btf) (a : tinfo) : Prop := sound b a ∧ cached b a ∧ (whole b a ∨ ∃ more, apart b a more).
(** An object that is being modified. *)
Definition open (b : btf) (a : tinfo) (more : list Z) : Prop :=
  sound b a ∧ apart b a more ∧ raw_data b = None ∧ raw_data_swapped b = None.

Context (Hv : is_byte v) (Hf : is_byte f).

Lemma hdr_for_fields ts bytes : length (section_bytes false ts) < 2 ^ 32 → length bytes < 2 ^ 32 → hdr_wf (hdr_for v f ts bytes).
Proof.
  intros H1 H2. unfold hdr_wf, hdr_for, hdr_fields. cbn [magic version flags hdr_len type_off type_len str_off str_len].
  repeat (apply Forall_cons; split; [cbv beta; cbn [fst snd]|]); try (by apply Forall_nil); try exact Hv; try exact Hf; unfold is_word; try (by split);
    change (8 * Z.of_nat 4) with 32; lia.
Qed.

Lemma apart_sizes b a more : sound b a → apart b a more →
  length (section_bytes false (a_types a)) + length more ≤ UINT_MAX ∧ length (a_bytes a) ≤ BTF_MAX_STR_OFFSET ∧ hdr_wf (hdr_for v f (a_types a) (a_bytes a)).
Proof.
  intros S A. destruct (ap_cap _ _ _ A) as [E Hc]. rewrite length_app in E. pose proof (so_limit _ _ S). unfold UINT_MAX, BTF_MAX_STR_OFFSET in *. split; [lia|]. split; [done|].
  apply hdr_for_fields; lia.
Qed.
Lemma apart_hdr b a more : sound b a → apart b a more → hdr_of b = Some (hdr_for v f (a_types a) (a_bytes a)).
Proof.
  intros S A. destruct (apart_sizes _ _ _ S A) as (_ & _ & Hw). unfold hdr_of, at_place. rewrite (ap_hdr _ _ _ A). cbn.
  apply load_hdr_at; [done|]. exists [], []. split; [by rewrite app_nil_r|done].
Qed.
Lemma whole_hdr b a : sound b a → whole b a → hdr_of b = Some (hdr_for v f (a_types a) (a_bytes a)).
Proof.
  intros S W. unfold hdr_of, at_place. destruct (wh_places _ _ W) as (-> & _). rewrite (wh_raw _ _ W). cbn. pose proof (wh_size _ _ W). apply load_hdr_at.
  - apply hdr_for_fields; lia.
  - by eexists [], _.
Qed.
Lemma stands_hdr b a : stands b a → hdr_of b = Some (hdr_for v f (a_types a) (a_bytes a)).
Proof. intros (S & _ & [W|[more A]]); [by apply whole_hdr|by eapply apart_hdr]. Qed.
Lemma open_stands b a more : open b a more → stands b a.
Proof. intros (S & A & E1 & E2). split; [done|]. split; [|eauto]. split; intros d E; congruence. Qed.

(** The types that an object stands for are those it is searched for. *)
Lemma stands_models b a : stands b a → models b (a_types a).
Proof.
  intros H. pose proof (stands_hdr b a H) as Eh. destruct H as (S & _ & P). destruct (so_ids _ _ S) as (? & ? & ?). apply models_own; [done..|].
  assert (0 < length (a_bytes a)) as Hne by (destruct (so_bytes _ _ S) as (_ & ? & _); by destruct (a_bytes a)).
  split; [apply S|apply S| | |apply S].
  - destruct P as [W|[more A]].
    + destruct (wh_places _ _ W) as (_ & Et & _). eexists _, _. unfold at_place. rewrite Et, (wh_raw _ _ W). split; [done|].
      exists (hdr_bytes (hdr_for v f (a_types a) (a_bytes a))), (a_bytes a). by split.
    + eexists _, _. unfold at_place. rewrite (ap_types _ _ _ A). split; [done|]. by exists [], more.
  - destruct (so_bytes _ _ S) as (_ & _ & Hl). destruct P as [W|[more A]].
    + destruct (wh_places _ _ W) as (_ & _ & Es). eexists _, _, _. unfold btf_strs_data. rewrite Es, (wh_raw _ _ W). split; [done|]. split; [done|]. split; [lia|]. intros _.
      pose proof (load_last (a_bytes a) (hdr_bytes (hdr_for v f (a_types a) (a_bytes a)) ++ section_bytes false (a_types a)) [] _ 0 Hl eq_refl) as E.
      rewrite app_nil_r, <- (assoc_L (++)) in E. rewrite <- E. f_equal. rewrite length_app. change (length (hdr_bytes _)) with 24%nat. cbn. lia.
    + destruct (ap_strs _ _ _ A) as (set & Es & Hok & _). destruct Hok as (_ & _ & _ & _ & (tail & Hd) & _). eexists _, _, _. unfold btf_strs_data, strset__data.
      rewrite Es, Hd. split; [done|]. split; [done|]. split; [lia|]. intros _. exact (load_last (a_bytes a) [] tail _ 0 Hl eq_refl).
Qed.

(** Only some of the fields matter. *)
Lemma sound_ext b b' a : sound b a → base_btf b' = base_btf b → start_id b' = start_id b → start_str_off b' = start_str_off b →
  type_offs b' = type_offs b → type_offs_cap b' = type_offs_cap b → nr_types b' = nr_types b → ptr_sz b' = ptr_sz b → swapped_endian b' = swapped_endian b → sound b' a.
Proof. intros [S1 [] S3 S4 S5 S6 S7 S8] E1 E2 E3 Eo Ec En E4 E5. split; rewrite ?E1, ?E2, ?E3, ?E4, ?E5; try done. split; by rewrite ?Eo, ?Ec, ?En. Qed.
Lemma apart_ext b b' a more : apart b a more → hdr b' = hdr b → types_data b' = types_data b → types_data_cap b' = types_data_cap b → strs b' = strs b → apart b' a more.
Proof. intros [A1 A2 A3 A4] E1 E2 E3 E4. split; rewrite ?E1, ?E2, ?E3, ?E4; done. Qed.

Lemma blocks_own b d t set : hdr b = Own d → types_data b = Own t → strs b = StrsSet set → blocks b = 4 + one (raw_data b) + one (raw_data_swapped b) + one (type_offs b).
Proof. intros E1 E2 E3. unfold blocks, btf_is_modifiable. rewrite E1, E2, E3. cbn [one]. lia. Qed.
Lemma blocks_apart b a more : apart b a more → blocks b = 4 + one (raw_data b) + one (raw_data_swapped b) + one (type_offs b).
Proof. intros A. destruct (ap_strs _ _ _ A) as (set & Es & _). exact (blocks_own b _ _ set (ap_hdr _ _ _ A) (ap_types _ _ _ A) Es). Qed.

(** ** The steps that all functions share *)

Context (malloc_ok : nat → bool).
Definition short : Prop := ∃ n, malloc_ok n = false.

(** The blocks of the object are accounted for. *)
Definition keeps (b : btf) (h : heap) (b' : btf) (h' : heap) : Prop := live h' = live h + blocks b' - blocks b.
Lemma keeps_trans b h b1 h1 b2 h2 : keeps b h b1 h1 → keeps b1 h1 b2 h2 → keeps b h b2 h2.
Proof. unfold keeps. lia. Qed.

Lemma wp_failing ret b h (Q : Z * btf → heap → Prop) : (∀ h', live h' = live h → Q (ret, b) h') → wp (failing ret b) h Q.
Proof. intros H. unfold failing, libbpf_err. apply wp_bind. unfold wp. destruct (ret <? 0); apply H; done. Qed.

Lemma invalidate_ok b h (Q : btf → heap → Prop) : one (raw_data b) + one (raw_data_swapped b) < live h →
  (∀ h', live h' = live h - one (raw_data b) - one (raw_data_swapped b) → Q (with_raw_swapped None (with_raw None b)) h') → wp (btf_invalidate_raw_data b) h Q.
Proof.
  intros Hl Hq. unfold btf_invalidate_raw_data. pose proof (one_range (raw_data b)). pose proof (one_range (raw_data_swapped b)).
  do 2 (apply wp_bind, wp_free; [lia|]; intros ? ?). apply wp_ret, Hq. lia.
Qed.

Lemma answers_short n : Strset.calloc (answers malloc_ok n) = false ∨ Strset.malloc (answers malloc_ok n) = false ∨ realloc (answers malloc_ok n) = false → short.
Proof. intros [H|[H|H]]; eexists; exact H. Qed.

Lemma new_strset_ok l h (Q : ptr strset.t → heap → Prop) : Forall nul_free l → length (flat l) < 2 ^ 59 →
  (∀ h', live h' = live h → short → Q (ErrPtr (- ENOMEM)) h') →
  (∀ set h', live h' = live h + 1 → set_ok BTF_MAX_STR_OFFSET set (flat l) (offsets 0 l ∅) → strset.strs_data_cap set = length (flat l) → Q (Ptr set) h') →
  wp (new_strset malloc_ok BTF_MAX_STR_OFFSET (flat l)) h Q.
Proof.
  intros Hl Hn H1 H2. unfold wp, new_strset.
  destruct (new_spec BTF_MAX_STR_OFFSET l (answers malloc_ok (asked h)) (λ off, answers malloc_ok (asked h + 3 + 3 * Z.to_nat off)) Hl) as (p & -> & Hp).
  cbn [mbind option_bind]. destruct Hp as [[-> Hno]|(set & -> & Hok & Hc & _)]; [|by apply H2].
  apply H1; [done|]. destruct Hno as [H|[H|[H|[[o [H|H]]|H]]]]; try lia; eexists; exact H.
Qed.

(** The object after it was taken apart. *)
Lemma taken_apart b a set (d : bool) (h := hdr_for v f (a_types a) (a_bytes a))
    (b1 := with_strs (StrsSet set) (with_types (Own (section_bytes false (a_types a))) (type_len h) (with_hdr (Own (hdr_bytes h)) b)))
    (b2 := if d then with_deduped true b1 else b1) : sound b a → whole b a → set_ok BTF_MAX_STR_OFFSET set (a_bytes a) (a_strs a) →
  strset.strs_data_cap set = length (a_bytes a) →
  raw_data b2 = raw_data b ∧ raw_data_swapped b2 = raw_data_swapped b ∧ type_offs b2 = type_offs b ∧ open (with_raw_swapped None (with_raw None b2)) a [].
Proof.
  intros S W Hset Hcap. split_and!; [by destruct d..|]. pose proof (so_limit _ _ S). pose proof (wh_size _ _ W). split; [|split; [|by destruct d]].
  - by destruct d; apply (sound_ext b).
  - split; [by destruct d|destruct d; by rewrite app_nil_r| |].
    + rewrite app_nil_r. split; [by destruct d|]. unfold UINT_MAX. destruct d; cbn; lia.
    + exists set. split; [by destruct d|]. split; [done|]. by rewrite Hcap.
Qed.

(** Taking an object apart. *)
Lemma ensure_ok b a h : stands b a → blocks b ≤ live h →
  wp (btf_ensure_modifiable malloc_ok b) h (λ r h', keeps b h r.2 h' ∧
    (r.1 = 0 ∧ (∃ more, open r.2 a more) ∨ r.1 = - ENOMEM ∧ r.2 = b ∧ short)).
Proof.
  intros St Hl. pose proof (stands_hdr b a St) as Eh. destruct St as (S & C & P). unfold btf_ensure_modifiable. destruct P as [W|[more A]].
  - destruct (wh_places _ _ W) as (E1 & E2 & E3). pose proof (wh_size _ _ W) as Hsz. destruct (wh_strs _ _ W) as (l & Hnul & Eb & Eg).
    pose proof (blocks_raw b E1) as Ebl. rewrite (wh_raw _ _ W) in Ebl. cbn [one] in Ebl. pose proof (one_range (raw_data_swapped b)). pose proof (one_range (type_offs b)).
    unfold btf_is_modifiable. rewrite E1. cbn [Z.eqb negb]. apply wp_bind, (wp_lift _ _ _ _ Eh).
    apply wp_bind, wp_malloc_no; [intros h1 L1 Hn1|intros h1 L1]; (apply wp_bind, wp_malloc_no; [intros h2 L2 Hn2|intros h2 L2]); cbn [negb orb];
      try (do 2 (apply wp_bind, wp_free; [cbn [one] in *; lia|]; intros ? ?); apply wp_ret; split; [unfold keeps; cbn [one snd] in *; lia|right; split_and!; [done|done|assumption]]).
    destruct (image_ranges v f (a_types a) (a_bytes a)) as (R1 & R2 & R3).
    assert (at_place b (InRaw 0) = Some (image false v f (a_types a) (a_bytes a), 0)) as P1 by (unfold at_place; by rewrite (wh_raw _ _ W)).
    assert (at_place b (types_data b) = Some (image false v f (a_types a) (a_bytes a), 24)) as P2 by (unfold at_place; by rewrite E2, (wh_raw _ _ W)).
    assert (btf_strs_data b = Some (image false v f (a_types a) (a_bytes a), 24 + length (section_bytes false (a_types a)))) as P3 by (unfold btf_strs_data; by rewrite E3, (wh_raw _ _ W)).
    do 2 (apply wp_bind; eapply wp_lift; [first [exact P1|exact R1]|]). do 2 (apply wp_bind; eapply wp_lift; [first [exact P2|exact R2]|]).
    do 2 (apply wp_bind; eapply wp_lift; [first [exact P3|exact R3]|]). rewrite Eb at 1. apply wp_bind, new_strset_ok; [done|rewrite <- Eb; lia|..].
    { intros h3 L3 Hn. do 2 (apply wp_bind, wp_free; [cbn [one] in *; lia|]; intros ? ?). apply wp_ret. split; [unfold keeps; cbn [one snd] in *; lia|right; split_and!; [done|done|assumption]]. }
    intros set h3 L3 Hset Hcap.
    match goal with |- context [btf_invalidate_raw_data (if ?c then _ else _)] => destruct (taken_apart b a set c S W) as (F1 & F2 & F3 & Ho) end;
      [by rewrite Eb, Eg|by rewrite Hcap, Eb|]. apply wp_bind, invalidate_ok; rewrite F1, F2, (wh_raw _ _ W); cbn [one]; [lia|]. intros h4 L4. apply wp_ret. split; [|left; eauto].
    unfold keeps. cbn [snd]. destruct Ho as (_ & A & _). rewrite (blocks_apart _ _ _ A). cbn [raw_data raw_data_swapped type_offs with_raw_swapped with_raw one]. rewrite F3. lia.
  - unfold btf_is_modifiable. rewrite (ap_hdr _ _ _ A). pose proof (blocks_apart _ _ _ A) as Ebl.
    pose proof (one_range (raw_data b)). pose proof (one_range (raw_data_swapped b)). pose proof (one_range (type_offs b)).
    apply wp_bind, invalidate_ok; [lia|]. intros h1 L1. apply wp_ret.
    assert (open (with_raw_swapped None (with_raw None b)) a more) as Ho.
    { split; [|split; [|done]]; [by apply (sound_ext b)|by apply (apart_ext b)]. }
    split; [|left; eauto]. destruct Ho as (_ & A' & _). unfold keeps. cbn [snd]. rewrite (blocks_apart _ _ _ A'). cbn [raw_data raw_data_swapped type_offs with_raw_swapped with_raw one]. lia.
Qed.

Lemma ensure_open b a more h : open b a more → 0 < live h →
  wp (btf_ensure_modifiable malloc_ok b) h (λ r h', keeps b h r.2 h' ∧ r.1 = 0 ∧ open r.2 a more).
Proof.
  intros (S & A & E1 & E2) Hl. unfold btf_ensure_modifiable, btf_is_modifiable. rewrite (ap_hdr _ _ _ A).
  apply wp_bind, invalidate_ok; rewrite E1, E2; cbn [one]; [lia|]. intros h' L. apply wp_ret. cbn [fst snd].
  assert (open (with_raw_swapped None (with_raw None b)) a more) as Ho by (split; [by apply (sound_ext b)|split; [by apply (apart_ext b)|done]]).
  split; [|done]. unfold keeps. rewrite (blocks_apart _ _ _ A). destruct Ho as (_ & A' & _). rewrite (blocks_apart _ _ _ A'). cbn. rewrite E1, E2. cbn. lia.
Qed.

(** Room behind the types. *)
Lemma add_type_mem_ok b a more (sz : Z) h : open b a more → 0 ≤ sz < 2 ^ 32 →
  wp (btf_add_type_mem malloc_ok b sz) h (λ r h', keeps b h r.2 h' ∧
    (r.1 = None ∧ r.2 = b ∧ (short ∨ UINT_MAX < length (section_bytes false (a_types a)) + sz) ∨
     r.1 = Some (Z.of_nat (length (section_bytes false (a_types a)))) ∧ ∃ more', open r.2 a more' ∧ sz ≤ length more')).
Proof.
  intros (S & A & E1 & E2) Hsz. unfold btf_add_type_mem. apply wp_bind, (wp_lift _ _ _ _ (apart_hdr b a more S A)). unfold wp. rewrite (ap_types _ _ _ A).
  change (type_len _) with (Z.of_nat (length (section_bytes false (a_types a)))). destruct (ap_cap _ _ _ A) as [Hc Hm]. set (n := length (section_bytes false (a_types a))) in *.
  rewrite length_app in Hc. fold n in Hc. unfold UINT_MAX in *.
  destruct (add_mem_cases (section_bytes false (a_types a) ++ more) (types_data_cap b) 1 n (2 ^ 32 - 1) sz (malloc_ok (asked h)))
    as [[-> Hw]|(k & -> & Hk & Hkm)]; rewrite ?length_app; fold n; unfold PTRDIFF_MAX in *; try lia; cbn [fst snd].
  { split; [unfold keeps; cbn [live]; lia|]. left. split; [done|]. split; [done|]. destruct Hw as [?|[?|?]]; [left; by eexists|by right|lia]. }
  assert (open (with_types (Own ((section_bytes false (a_types a) ++ more) ++ replicate k 0)) (types_data_cap b + k) b) a (more ++ replicate k 0)) as Ho.
  { split; [by apply (sound_ext b)|]. split; [|done]. destruct A as [A1 A2 A3 A4]. split; [done|cbn; by rewrite (assoc_L (++))| |done].
    cbn. rewrite !length_app, length_replicate. fold n. unfold UINT_MAX. lia. }
  split; [|right; split; [done|]; eexists; split; [exact Ho|rewrite length_app, length_replicate; lia]].
  unfold keeps. rewrite (blocks_apart _ _ _ A). destruct Ho as (_ & A' & _). rewrite (blocks_apart _ _ _ A'). cbn. lia.
Qed.

(** ** Strings *)

Definition intern (s : list Z) (a : tinfo) : Z * tinfo :=
  match a_strs a !! s with
  | Some off => (off, a)
  | None => (Z.of_nat (length (a_bytes a)), mk_tinfo (a_types a) (a_bytes a ++ s ++ [0]) (<[s := length (a_bytes a) : Z]> (a_strs a)) (a_swapped a))
  end.

Lemma put_hdr_ok b h F : hdr b = Own (hdr_bytes h) → hdr_wf h → put_hdr F b = Some (with_raw (raw_data b) (with_hdr (Own (hdr_bytes (F h))) b)).
Proof.
  intros E Hw. unfold put_hdr, hdr_of, at_place. rewrite E. cbn [mbind option_bind]. rewrite (load_hdr_at 0 (hdr_bytes h) h Hw) by (exists [], []; split; [by rewrite app_nil_r|done]). done.
Qed.

Lemma hdr_str_len ts bytes bytes' n : n = Z.of_nat (length bytes') → length bytes' ≤ BTF_MAX_STR_OFFSET → set_str_len (u32 n) (hdr_for v f ts bytes) = hdr_for v f ts bytes'.
Proof. intros -> Hl. unfold set_str_len, hdr_for. cbn. by rewrite wrap_small by (unfold is_word, BTF_MAX_STR_OFFSET in *; lia). Qed.

Lemma stored_range a set s off : set_ok BTF_MAX_STR_OFFSET set (a_bytes a) (a_strs a) → a_strs a !! s = Some off → 0 ≤ off < length (a_bytes a).
Proof. intros (_ & _ & _ & _ & _ & Hst & _) Hg. destruct (Hst s off Hg) as (_ & pre & post & E & ->). rewrite E, !length_app. cbn. lia. Qed.

(** What the string set answers, with offsets that fit. *)
Lemma set_add_ok a set s mem : set_ok BTF_MAX_STR_OFFSET set (a_bytes a) (a_strs a) → strset.strs_data_cap set ≤ BTF_MAX_STR_OFFSET →
  str_ok s → size (a_strs a) ≤ length (a_bytes a) → length (a_bytes a) ≤ BTF_MAX_STR_OFFSET →
  ∃ r set', strset__add_str set s mem = Some (r, set') ∧ strset.strs_data_cap set' ≤ BTF_MAX_STR_OFFSET ∧
    ((let '(off, a') := intern s a in r = off ∧ 0 ≤ off < 2 ^ 31 ∧ set_ok BTF_MAX_STR_OFFSET set' (a_bytes a') (a_strs a') ∧ length (a_bytes a') ≤ BTF_MAX_STR_OFFSET) ∨
    r = - ENOMEM ∧ set_ok BTF_MAX_STR_OFFSET set' (a_bytes a) (a_strs a) ∧
      (Strset.calloc mem = false ∨ Strset.malloc mem = false ∨ realloc mem = false ∨ BTF_MAX_STR_OFFSET < length (a_bytes a) + length s + 1)).
Proof.
  intros Hok Hc Hs Hsz Hlim. destruct (add_str_refines BTF_MAX_STR_OFFSET ltac:(done) set _ _ s mem Hok Hs) as (r & set' & bytes' & g' & E & Hok' & Hsp).
  exists r, set'. pose proof Hok as (Em & _). assert (strset.strs_data_cap set' ≤ BTF_MAX_STR_OFFSET) as Hc'.
  { rewrite <- Em. eapply add_str_limit; [done|by rewrite Em]. }
  split; [done|]. split; [done|]. unfold intern.
  assert (length bytes' ≤ BTF_MAX_STR_OFFSET) as Hl'.
  { destruct Hok' as (_ & _ & E1 & _ & (tail & E2) & _). rewrite E2, length_app in E1. lia. }
  unfold BTF_MAX_STR_OFFSET in *. inversion Hsp; subst; clear Hsp.
  - match goal with H : _ !! s = Some _ |- _ => rewrite H; pose proof (stored_range _ _ _ _ Hok H) end. left. split; [apply sint_small; lia|]. split; [lia|done].
  - match goal with H : _ !! s = None |- _ => rewrite H end. left. rewrite !length_app in Hl'. split; [apply sint_small; lia|]. split; [lia|]. split; [done|]. cbn. rewrite !length_app. lia.
  - right. split; [done|]. split; [done|]. match goal with H : block_full _ _ _ _ |- _ => destruct H as [?|?] end; [by auto|right; right; right; lia].
  - right. split; [done|]. split; [done|]. match goal with H : _ ∨ _ |- _ => destruct H as [?|[?|?]] end; [by auto|by auto|lia].
Qed.

(** A name that was interned keeps everything else. *)
Lemma intern_types s a : a_types (intern s a).2 = a_types a.
Proof. unfold intern. by destruct (a_strs a !! s). Qed.
Lemma intern_sound b s a : sound b a → bytes_ok s → length (a_bytes (intern s a).2) ≤ BTF_MAX_STR_OFFSET → sound b (intern s a).2.
Proof.
  intros [S1 S2 S3 (Hb & Hh & Hl) S5 S6 S7 S8] Hs Hlim. unfold intern in *. destruct (a_strs a !! s) eqn:E; [by split|]. cbn in Hlim |- *. split; try done; cbn.
  - split; [rewrite !Forall_app; split; [done|]; split; [done|by apply Forall_singleton]|]. split; [by destruct (a_bytes a)|]. by rewrite (assoc_L (++)), last_snoc.
  - rewrite map_size_insert_None, !length_app by done. cbn. lia.
Qed.
Lemma intern_again s a (p := intern s a) : a_strs p.2 !! s = Some p.1.
Proof. subst p. unfold intern. destruct (a_strs a !! s) eqn:E; [done|]. cbn. apply lookup_insert_eq. Qed.

(** An operation of the set of an open object. *)
Lemma on_set_ok op b a more s h (Q : Z * btf → heap → Prop) : open b a more →
  (∀ set, set_ok BTF_MAX_STR_OFFSET set (a_bytes a) (a_strs a) → strset.strs_data_cap set ≤ BTF_MAX_STR_OFFSET →
    ∃ r set', op set s (answers malloc_ok (asked h)) = Some (r, set') ∧ ∀ h', live h' = live h → Q (r, with_strs (StrsSet set') b) h') →
  wp (on_set malloc_ok op s b) h Q.
Proof.
  intros (_ & A & _) H. destruct (ap_strs _ _ _ A) as (set & Es & Hok & Hc). destruct (H set Hok Hc) as (r & set' & E & Hq).
  unfold wp, on_set. rewrite Es, E. cbn. by apply Hq.
Qed.

(** [R] tells which room the types may have after the object was taken apart. *)
Lemma add_own_ok b a s h (R : list Z → Prop) : str_ok s → bytes_ok s →
  wp (btf_ensure_modifiable malloc_ok b) h (λ r h', keeps b h r.2 h' ∧ (r.1 = 0 ∧ (∃ more, R more ∧ open r.2 a more) ∨ r.1 = - ENOMEM ∧ stands r.2 a ∧ short)) →
  wp (add_own_str malloc_ok s b) h (λ r h', keeps b h r.2 h' ∧
    (r.1 = (intern s a).1 ∧ 0 ≤ r.1 < 2 ^ 31 ∧ (∃ more, R more ∧ open r.2 (intern s a).2 more) ∨
     r.1 = - ENOMEM ∧ stands r.2 a ∧ (short ∨ BTF_MAX_STR_OFFSET < length (a_bytes a) + length s + 1))).
Proof.
  intros Hs Hb He. unfold add_own_str. apply wp_bind. eapply wp_mono; [exact He|]. clear He. intros [err b1] h1 (K1 & [(E1 & more & HR & Ho1)|(E1 & Hst & Hn)]); cbn [fst snd] in *; subst err.
  2:{ cbn [negb Z.eqb]. apply wp_failing. intros h2 L2. split; [unfold keeps in *; cbn; lia|]. right. split; [done|]. split; [done|by left]. }
  cbn [Z.eqb negb].
  pose proof Ho1 as (S & A & R1 & R2). destruct (so_ids _ _ S) as (B1 & B2 & B3). apply wp_bind, (on_set_ok _ _ a more); [done|]. intros set Hok Hc.
  destruct (set_add_ok a set s (answers malloc_ok (asked h1)) Hok Hc Hs (so_count _ _ S) (so_limit _ _ S)) as (r & set' & E & Hc' & Hr). exists r, set'. split; [done|]. intros h2 L2.
  assert (∀ b2 d, hdr b2 = Own d → types_data b2 = types_data b1 → strs b2 = StrsSet set' → raw_data b2 = None → raw_data_swapped b2 = None →
    type_offs b2 = type_offs b1 → ∀ h3, live h3 = live h2 → keeps b h b2 h3) as Hk.
  { intros b2 d F1 F2 F4 F5 F6 F7 h3 L3. eapply keeps_trans; [done|]. unfold keeps. rewrite (ap_types _ _ _ A) in F2. rewrite (blocks_apart _ _ _ A), (blocks_own b2 _ _ _ F1 F2 F4), F5, F6, F7, R1, R2. lia. }
  destruct Hr as [Hr|(-> & Hset & Hw)].
  - pose proof (intern_types s a) as Et. destruct (intern s a) as [off a'] eqn:Ei. cbn [snd] in Et. destruct Hr as (-> & Hoff & Hset & Hlim).
    rewrite (proj2 (Z.ltb_ge off 0)) by lia. cbn [strs with_strs]. apply wp_bind. eapply wp_lift; [done|]. apply wp_bind. eapply wp_lift.
    { apply (put_hdr_ok _ (hdr_for v f (a_types a) (a_bytes a))); [apply A|by eapply apart_sizes]. }
    apply wp_ret. cbn [fst snd start_str_off with_raw with_hdr with_strs]. split; [by eapply Hk|]. left. rewrite B3. split; [apply sint_small; lia|].
    split; [rewrite sint_small; lia|]. exists more. split; [done|]. split; [|split; [|done]].
    + apply (sound_ext b1); try done. pose proof (intern_sound b1 s a S Hb) as Hi. rewrite Ei in Hi. by apply Hi.
    + destruct A as [A1 A2 A3 A4]. split; cbn [hdr types_data types_data_cap strs with_raw with_hdr with_strs]; rewrite ?Et; try done; [|by exists set']. do 2 f_equal.
      apply hdr_str_len; [apply Hset|done].
  - cbn [Z.ltb Z.compare]. change (- ENOMEM <? 0) with true. cbn iota. apply wp_failing. intros h3 L3. cbn [fst snd]. split; [eapply Hk; [apply A|done..]|]. right. split; [done|].
    split; [|destruct Hw as [Hw|[Hw|[Hw|Hw]]]; [left; eexists; exact Hw..|by right]].
    apply (open_stands _ _ more). split; [by apply (sound_ext b1)|]. split; [|done]. destruct A as [A1 A2 A3 A4]. split; try done. by exists set'.
Qed.
Lemma add_str_ok b a more s h : open b a more → str_ok s → bytes_ok s → 0 < live h →
  wp (btf__add_str malloc_ok b s) h (λ r h', keeps b h r.2 h' ∧
    (r.1 = (intern s a).1 ∧ 0 ≤ r.1 < 2 ^ 31 ∧ open r.2 (intern s a).2 more ∨
     r.1 = - ENOMEM ∧ stands r.2 a ∧ (short ∨ BTF_MAX_STR_OFFSET < length (a_bytes a) + length s + 1))).
Proof.
  intros Ho Hs Hb Hl. unfold btf__add_str. destruct (so_ids _ _ (proj1 Ho)) as (-> & _). eapply wp_mono; [apply (add_own_ok b a s h (eq more)); [done..|]|].
  - eapply wp_mono; [by apply (ensure_open b a more)|]. intros r h' (K & E & Ho'). split; [done|left; by eauto].
  - intros r h' (K & [(E & Hr & more' & <- & Ho')|Hr]); (split; [done|]); [by left|by right].
Qed.

(** ** Names, and room for what has them *)

Definition intern_name (name : option (list Z)) (a : tinfo) : Z * tinfo := if no_name name then (0, a) else intern (name_or_empty name) a.
Definition name_fine (name : option (list Z)) : Prop := str_ok (name_or_empty name) ∧ bytes_ok (name_or_empty name).
(** Why a function fails for lack of memory. *)
Definition no_room (a : tinfo) (sz : Z) (name : option (list Z)) : Prop :=
  short ∨ UINT_MAX < length (section_bytes false (a_types a)) + sz ∨ BTF_MAX_STR_OFFSET < length (a_bytes a) + length (name_or_empty name) + 1.

Lemma intern_name_types name a : a_types (intern_name name a).2 = a_types a.
Proof. unfold intern_name. destruct (no_name name); [done|apply intern_types]. Qed.
Lemma blocks_pos b : 0 < blocks b.
Proof.
  unfold blocks. pose proof (one_range (raw_data b)). pose proof (one_range (raw_data_swapped b)). pose proof (one_range (type_offs b)). destruct (btf_is_modifiable b); [|lia].
  match goal with |- context [one ?x + one ?y + one ?z] => pose proof (one_range x); pose proof (one_range y); pose proof (one_range z) end. lia.
Qed.
Lemma keeps_live b h b' h' : keeps b h b' h' → blocks b ≤ live h → blocks b' ≤ live h' ∧ 0 < live h'.
Proof. unfold keeps. pose proof (blocks_pos b'). lia. Qed.

Lemma with_room_ok b a sz name k h (Q : Z * btf → heap → Prop) : stands b a → blocks b ≤ live h → name_fine name → 0 ≤ sz < 2 ^ 32 →
  (∀ b' h', keeps b h b' h' → stands b' a → no_room a sz name → Q (- ENOMEM, b') h') →
  (∀ b' more h', keeps b h b' h' → open b' (intern_name name a).2 more → sz ≤ length more → 0 ≤ (intern_name name a).1 < 2 ^ 31 →
    wp (k (Z.of_nat (length (section_bytes false (a_types a)))) (intern_name name a).1 b') h' Q) →
  wp (with_room malloc_ok b sz name k) h Q.
Proof.
  intros St Hl [Hn Hb] Hsz Hfail Hk. unfold with_room. apply wp_bind. eapply wp_mono; [by apply ensure_ok|]. intros [err b1] h1 (K1 & [[E1 [more Ho]]|(E1 & E2 & Hs)]); cbn [fst snd] in *; subst.
  2:{ cbn [negb Z.eqb]. apply wp_failing. intros h2 L2. apply Hfail; [unfold keeps in *; lia|done|by left]. }
  cbn [Z.eqb negb]. apply wp_bind. eapply wp_mono; [by apply (add_type_mem_ok b1 a more)|]. intros [t b2] h2 (K2 & Hr); cbn [fst snd] in *.
  pose proof (keeps_trans _ _ _ _ _ _ K1 K2) as K. destruct Hr as [(-> & -> & Hw)|(-> & more2 & Ho2 & Hm)].
  { apply wp_failing. intros h3 L3. apply Hfail; [unfold keeps in *; lia|by eapply open_stands|]. destruct Hw; [by left|right; by left]. }
  unfold intern_name in *. destruct (no_name name) eqn:En; [by eapply Hk|].
  apply wp_bind. eapply wp_mono; [apply (add_str_ok b2 a more2); [done..|by eapply keeps_live]|]. intros [off b3] h3 (K3 & Hr); cbn [fst snd] in *.
  pose proof (keeps_trans _ _ _ _ _ _ K K3) as K'. destruct Hr as [(-> & Hoff & Ho3)|(-> & Ho3 & Hw)].
  - rewrite (proj2 (Z.ltb_ge _ 0)) by lia. by eapply Hk.
  - change (- ENOMEM <? 0) with true. cbn iota. apply wp_ret, Hfail; [done|done|]. destruct Hw; [by left|right; by right].
Qed.

(** Writing into the room. *)
Lemma put_words_ok b a more ws : open b a more → 4 * length ws ≤ length more →
  ∃ b' more', put_words (length (section_bytes false (a_types a))) ws b = Some b' ∧ open b' a (words32 ws ++ more') ∧ type_offs b' = type_offs b.
Proof.
  intros (S & A & E1 & E2) Hl. unfold put_words, put_bytes. rewrite (ap_types _ _ _ A).
  rewrite <- (take_drop (4 * length ws) more). rewrite (store_at _ (take (4 * length ws) more)) by (rewrite ?length_words32, ?length_take; lia). cbn [mbind option_bind].
  eexists _, (drop (4 * length ws) more). split; [done|]. split; [|done]. split; [by apply (sound_ext b)|]. split; [|done].
  destruct A as [A1 A2 [A3 A3'] A4]. split; try done. split; [|done]. cbn. rewrite A3, !length_app, length_words32, length_drop. lia.
Qed.
Lemma grow_ok b ts ts' bytes sz : hdr b = Own (hdr_bytes (hdr_for v f ts bytes)) → Z.of_nat (length (section_bytes false ts')) = length (section_bytes false ts) + sz →
  0 ≤ sz → length (section_bytes false ts') ≤ UINT_MAX → length bytes ≤ BTF_MAX_STR_OFFSET →
  grow_types sz b = Some (with_raw (raw_data b) (with_hdr (Own (hdr_bytes (hdr_for v f ts' bytes))) b)).
Proof.
  intros E Hs Hz Hl Hb. unfold UINT_MAX, BTF_MAX_STR_OFFSET in *. unfold grow_types. rewrite (put_hdr_ok b _ _ E) by (apply hdr_for_fields; lia). cbn [mbind option_bind].
  assert (hdr_wf (set_type_len (u32 (type_len (hdr_for v f ts bytes) + sz)) (hdr_for v f ts bytes))) as Hw.
  { pose proof (hdr_for_fields ts bytes) as Hw. unfold hdr_wf, hdr_fields in *. rewrite !Forall_cons in *. destruct Hw as (H1 & H2 & H3 & H4 & H5 & _ & H7 & H8 & _); [lia..|].
    split_and!; try done. apply wrap_range. done. }
  assert (set_str_off (u32 (str_off (hdr_for v f ts bytes) + sz)) (set_type_len (u32 (type_len (hdr_for v f ts bytes) + sz)) (hdr_for v f ts bytes)) = hdr_for v f ts' bytes) as Eh.
  { unfold set_str_off, set_type_len, hdr_for. cbn. by rewrite !wrap_small, <- Hs by (unfold is_word; lia). }
  rewrite <- Eh. by erewrite put_hdr_ok by (reflexivity || exact Hw).
Qed.

(** ** A new type *)

Definition add_ty (w : ty) (a : tinfo) : tinfo := mk_tinfo (a_types a ++ [w]) (a_bytes a) (a_strs a) (a_swapped a).
Abbreviation u32s ws := ((λ w, u32 w) <$> ws).

Lemma types_few ts : Forall ty_ok ts → length (section_bytes false ts) ≤ UINT_MAX → length ts < 2 ^ 29.
Proof. intros Ht Hl. pose proof (section_types false ts Ht). unfold UINT_MAX in *. lia. Qed.
Lemma open_few b a more : open b a more → length (a_types a) < 2 ^ 29.
Proof. intros (S & A & _). destruct (apart_sizes _ _ _ S A) as (H & _). apply types_few; [apply S|unfold UINT_MAX in *; lia]. Qed.
Lemma stands_few b a : stands b a → length (a_types a) < 2 ^ 29.
Proof. intros (S & _ & [W|[more A]]); (apply types_few; [apply S|]); [pose proof (wh_size _ _ W)|destruct (apart_sizes _ _ _ S A) as (H & _)]; unfold UINT_MAX in *; lia. Qed.

Lemma commit_type_ok b a more ws h : open b a (words32 ws ++ more) → ty_ok (u32s ws) → blocks b ≤ live h →
  wp (btf_commit_type malloc_ok b (4 * length ws)) h (λ r h', keeps b h r.2 h' ∧
    (r.1 = 1 + length (a_types a) ∧ open r.2 (add_ty (u32s ws) a) more ∨ r.1 = - ENOMEM ∧ r.2 = b ∧ short)).
Proof.
  intros Ho Hw Hl. pose proof (open_few _ _ _ Ho) as Hfew. pose proof Ho as (S & A & R1 & R2). destruct (so_ids _ _ S) as (B1 & B2 & B3). pose proof (apart_sizes _ _ _ S A) as (Hsz & Hlim & _).
  rewrite length_app, length_words32 in Hsz. unfold btf_commit_type. apply wp_bind, (wp_lift _ _ _ _ (apart_hdr _ _ _ S A)). apply wp_bind.
  eapply wp_mono; [apply (add_idx_ok malloc_ok b (a_types a) (u32s ws)); [apply S|done|unfold BTF_MAX_NR_TYPES; lia]|].
  intros [err b1] h1 [([= -> ->] & L1 & Hs)|(offs & cap & [= -> ->] & L1 & Hix)].
  { cbn [negb Z.eqb]. change (- ENOMEM =? 0) with false. cbn [negb]. apply wp_failing. intros h2 L2. split; [unfold keeps; cbn; lia|]. right. by split_and!. }
  cbn [Z.eqb negb]. apply wp_bind. assert (section_bytes false (a_types a ++ [u32s ws]) = section_bytes false (a_types a) ++ words32 ws) as Es by (rewrite section_snoc; by rewrite words32_bytes).
  eapply wp_lift; [apply (grow_ok _ (a_types a) (a_types a ++ [u32s ws]) (a_bytes a)); [apply A|rewrite Es, length_app, length_words32; lia|lia|rewrite Es, length_app, length_words32; lia|done]|].
  apply wp_ret. cbn [fst snd start_id nr_types with_offs with_raw with_hdr type_offs type_offs_cap]. split.
  { unfold keeps. rewrite (blocks_apart _ _ _ A). destruct (ap_strs _ _ _ A) as (set & Est & _). erewrite blocks_own; [|done|exact (ap_types _ _ _ A)|exact Est]. cbn. rewrite R1, R2. cbn. lia. }
  left. rewrite B2, (ix_nr _ _ (so_index _ _ S)). split; [rewrite sint_small; lia|]. split; [|split; [|done]].
  - destruct S as [S1 S2 S3 S4 S5 S6 S7 S8]. split; try done; [|by apply Forall_app; split; [|apply Forall_singleton]]. destruct Hix as [I1 I2 I3 I4]. rewrite (ix_nr _ _ S2) in I1. by split.
  - destruct A as [A1 A2 [A3 A3'] A4]. unfold add_ty. split; try done; fields; rewrite Es, <- (assoc_L (++)); [done|by split].
Qed.

Definition new_ty (name : option (list Z)) (info size : Z) (rest : list Z) (a : tinfo) : tinfo :=
  let '(off, a) := intern_name name a in add_ty (off :: info :: u32 size :: u32s rest) a.
Definition sized_info (info : Z) (rest : list Z) : Prop := is_word 32 info ∧ ∀ n s, btf_type_size (mk_type n info s) = sizeof_type + 4 * length rest.
(** An object after a failure: nothing was added but perhaps the name. *)
Definition failed (a : tinfo) (sz : Z) (name : option (list Z)) (r : Z * btf) : Prop :=
  r.1 = - ENOMEM ∧ (stands r.2 a ∨ stands r.2 (intern_name name a).2) ∧ no_room a sz name.

Lemma new_ty_ok n info size rest : is_word 32 n → sized_info info rest → ty_ok (n :: info :: u32 size :: u32s rest).
Proof.
  intros Hn [Hi Hs]. split.
  - do 2 (apply Forall_cons; split; [done|]). apply Forall_cons. split; [by apply wrap_range|]. apply Forall_fmap, Forall_true. intros. by apply wrap_range.
  - exists (mk_type n info (u32 size)), (u32s rest). split; [done|]. apply words_sized. unfold rest_words. rewrite Hs, length_fmap. unfold sizeof_type. split; [lia|].
    replace (12 + 4 * length rest - 12) with (length rest * 4) by lia. rewrite Z.div_mul by done. lia.
Qed.

Lemma append_type_ok b a name info size rest h : stands b a → blocks b ≤ live h → name_fine name → sized_info info rest → length rest < 2 ^ 20 →
  wp (append_type malloc_ok b name info size rest) h (λ r h', keeps b h r.2 h' ∧
    (r.1 = 1 + length (a_types a) ∧ (∃ more, open r.2 (new_ty name info size rest a) more) ∨ failed a (sizeof_type + 4 * length rest) name r)).
Proof.
  intros St Hl Hn Hi Hr. unfold append_type, new_ty. pose proof (intern_name_types name a) as Et. unfold failed. destruct (intern_name name a) as [off a1] eqn:Ei. cbn [snd] in *.
  apply (with_room_ok b a); try done; [unfold sizeof_type; lia|..]; rewrite ?Ei; cbn [fst snd].
  { intros b' h' K St' Hw. split; [done|]. right. split_and!; [done|by left|done]. }
  intros b1 more h1 K1 Ho Hm Hoff. rewrite <- Et.
  destruct (put_words_ok b1 a1 more (off :: info :: size :: rest) Ho) as (b2 & more2 & E2 & Ho2 & Eo); [unfold sizeof_type in *; cbn; lia|].
  apply wp_bind, (wp_lift _ _ _ _ E2). assert (keeps b h b2 h1) as K2.
  { unfold keeps in *. rewrite K1. destruct Ho as (_ & A & R1 & R2), Ho2 as (_ & A2 & R1' & R2'). rewrite (blocks_apart _ _ _ A), (blocks_apart _ _ _ A2), R1, R2, R1', R2', Eo. done. }
  replace (sizeof_type + 4 * length rest) with (4 * length (off :: info :: size :: rest)) by (unfold sizeof_type; cbn; lia).
  assert (u32s (off :: info :: size :: rest) = off :: info :: u32 size :: u32s rest) as Ew.
  { cbn [fmap list_fmap]. rewrite (wrap_small 32 off), (wrap_small 32 info); [done|by apply Hi|unfold is_word; lia]. }
  eapply wp_mono; [apply (commit_type_ok b2 a1 more2); [done|rewrite Ew; apply new_ty_ok; [unfold is_word; lia|done]|by eapply keeps_live]|]. rewrite Ew.
  intros [r b3] h3 (K3 & [[E Ho3]|(E & E3 & Hs)]); cbn [fst snd] in *; subst; (split; [exact (keeps_trans _ _ _ _ _ _ K2 K3)|]); [left; eauto|right].
  split_and!; [done|right; by eapply open_stands|by left].
Qed.

(** ** One more element of the last type *)

Definition grown (w : ty) (i : Z) (ws : list Z) : ty := match w with n :: _ :: s :: rest => n :: i :: s :: rest ++ ws | _ => w end.
Definition set_last (w : ty) (a : tinfo) : tinfo := mk_tinfo (take (pred (length (a_types a))) (a_types a) ++ [w]) (a_bytes a) (a_strs a) (a_swapped a).

Lemma set_last_app a pre w0 w : a_types a = pre ++ [w0] → set_last w a = mk_tinfo (pre ++ [w]) (a_bytes a) (a_strs a) (a_swapped a).
Proof. intros E. unfold set_last. rewrite E, length_app. cbn. rewrite Nat.add_1_r. cbn. by rewrite take_app_length. Qed.

(** The last type, in the block of the types. *)
Lemma last_type_ok b a more pre w : open b a more → a_types a = pre ++ [w] →
  btf_last_type b = Some (TypeAt (section_bytes false (a_types a) ++ more) (length (section_bytes false pre))).
Proof.
  intros Ho Ea. pose proof (open_few _ _ _ Ho) as Hf'. destruct Ho as (S & A & _). destruct (so_ids _ _ S) as (B1 & B2 & B3). unfold btf_last_type, btf__type_cnt. destruct (so_index _ _ S) as [I1 I2 I3 I4].
  rewrite B2, I1. assert (length (a_types a) = length pre + 1)%nat as El by (rewrite Ea, length_app; done).
  rewrite (wrap_small 32 (1 + length (a_types a))), wrap_small by (unfold is_word; lia). rewrite type_by_id_eq, B2.
  rewrite (proj2 (Z.eqb_neq _ 0)), (proj2 (Z.ltb_ge _ _)) by lia. unfold at_place. rewrite (ap_types _ _ _ A). cbn [mbind option_bind].
  specialize (I4 (length pre) ltac:(lia)). destruct (type_offs b) as [offs|]; [|done]. change (offs !! length pre = Some (start_of (a_types a) (length pre))) in I4. cbn [mbind option_bind].
  replace (Z.to_nat (1 + length (a_types a) - 1 - 1)) with (length pre) by lia. rewrite I4. cbn [mbind option_bind]. do 2 f_equal. rewrite Ea. by rewrite start_of_end.
Qed.
(** Its field [info] is changed in place. *)
Lemma put_info_ok b a more pre n i0 s rest i : open b a more → a_types a = pre ++ [n :: i0 :: s :: rest] →
  ∃ b', put_info (TypeAt (section_bytes false (a_types a) ++ more) (length (section_bytes false pre))) i b = Some b' ∧
    types_data b' = Own (section_bytes false (pre ++ [n :: u32 i :: s :: rest]) ++ more) ∧
    b' = with_raw None (with_types (types_data b') (types_data_cap b) b).
Proof.
  intros (S & A & R1 & R2) Ea. unfold put_info, put_words, put_bytes. rewrite (ap_types _ _ _ A), Ea, !section_snoc.
  change (n :: i0 :: s :: rest) with ([n] ++ [i0] ++ s :: rest). rewrite !words_bytes_app, <- !(assoc_L (++)), (assoc_L (++) (section_bytes false pre)).
  rewrite (store_at _ (words_bytes false [i0])) by (rewrite ?length_app, ?length_words32, ?length_words_bytes; cbn; lia). cbn [mbind option_bind].
  eexists. split; [done|]. split; [|fields; by rewrite R1]. fields. rewrite words32_bytes. f_equal.
  change (n :: u32 i :: s :: rest) with ([n] ++ [u32 i] ++ s :: rest). rewrite !words_bytes_app, <- !(assoc_L (++)). done.
Qed.

Lemma index_last b b' pre w w' : index_ok b (pre ++ [w]) → type_offs b' = type_offs b → type_offs_cap b' = type_offs_cap b → nr_types b' = nr_types b → index_ok b' (pre ++ [w']).
Proof.
  intros [I1 I2 I3 I4] E1 E2 E3. split; rewrite ?E1, ?E2, ?E3, ?I1; try done; [by rewrite !length_app|].
  intros i Hi. rewrite length_app in Hi. cbn in Hi. rewrite I4 by (rewrite length_app; cbn; lia). by rewrite !start_of_app by lia.
Qed.
Lemma grown_ok t n i s rest ws : ty_ok (n :: i :: s :: rest) → ty_head (n :: i :: s :: rest) = Some t → ∀ i', is_word 32 i' → Forall (is_word 32) ws →
  btf_type_size (mk_type n i' s) = btf_type_size t + 4 * length ws → ty_ok (n :: i' :: s :: rest ++ ws).
Proof.
  intros Hw [= <-] i' Hi Hws Hs. destruct Hw as (Hw & [a0 i0 s0] & r0 & [= <- <- <- <-] & [H0 Hr]%words_sized). cbn [name_off info size_type] in *. unfold ty_ok.
  rewrite !Forall_cons, Forall_app in *. destruct Hw as (? & ? & ? & ?). split; [done|]. exists (mk_type n i' s), (rest ++ ws). split; [done|]. apply words_sized. split; [lia|].
  rewrite length_app, Hr. unfold rest_words. rewrite Hs. replace (btf_type_size _ + 4 * length ws - sizeof_type) with (btf_type_size (mk_type n i s) - sizeof_type + length ws * 4) by lia.
  rewrite Z.div_add by done. pose proof (size_rest (mk_type n i s) H0) as E. rewrite E. unfold sizeof_type. replace (12 + 4 * rest_words (mk_type n i s) - 12) with (rest_words (mk_type n i s) * 4) by lia. rewrite Z.div_mul by done. lia.
Qed.

Definition member_fine (t : btf_type) (words : Z → list Z) (new_info : btf_type → Z) : Prop :=
  (∀ n, length (words n) = length (words 0)) ∧ length (words 0) < 2 ^ 20 ∧ is_word 32 (new_info t) ∧
  ∀ n s, btf_type_size (mk_type n (new_info t) s) = btf_type_size t + 4 * length (words 0).
Definition more_ty (name : option (list Z)) (words : Z → list Z) (i : Z) (w : ty) (a : tinfo) : tinfo :=
  let '(off, a) := intern_name name a in set_last (grown w i (u32s (words off))) a.

(** The last steps: the count of elements and the length of the section. *)
Lemma extend_ok b a more pre w t ws i : open b a (words32 ws ++ more) → a_types a = pre ++ [w] → ty_head w = Some t → is_word 32 i →
  (∀ n s, btf_type_size (mk_type n i s) = btf_type_size t + 4 * length ws) →
  ∃ p b1 b2, btf_last_type b = Some p ∧ deref_type p = Some t ∧ put_info p i b = Some b1 ∧ grow_types (4 * length ws) b1 = Some b2 ∧
    open b2 (set_last (grown w i (u32s ws)) a) more ∧ type_offs b2 = type_offs b.
Proof.
  intros Ho Ea Et Hi Hs. pose proof (last_type_ok b a _ pre w Ho Ea) as El. pose proof Ho as (S & A & R1 & R2). destruct (apart_sizes _ _ _ S A) as (Hsz & Hlim & _).
  assert (ty_ok w) as Hw. { pose proof (so_types _ _ S) as H. rewrite Ea, Forall_app, Forall_singleton in H. apply H. }
  destruct (ty_ok_head w Hw) as (t' & rest & Ew & Et' & _). rewrite Et in Et'. injection Et' as <-. rewrite Ew in *. clear Ew w.
  destruct (put_info_ok b a _ pre _ _ _ _ i Ho Ea) as (b1 & Ep & Ety & Eb1). rewrite (wrap_small 32 i Hi) in Ety.
  set (w' := name_off t :: i :: size_type t :: rest) in *. set (w2 := grown (name_off t :: info t :: size_type t :: rest) i (u32s ws)).
  assert (section_bytes false (pre ++ [w2]) = section_bytes false (pre ++ [w']) ++ words32 ws) as Esec.
  { rewrite !section_snoc, <- (assoc_L (++)). f_equal. rewrite words32_bytes. apply (words_bytes_app false w'). }
  assert (length (section_bytes false (pre ++ [w'])) = length (section_bytes false (a_types a))) as Elen by (rewrite Ea, !section_snoc, !length_app, !length_words_bytes; done).
  rewrite length_app, length_words32 in Hsz.
  eexists _, b1, _. split; [exact El|]. split.
  { rewrite <- Et. apply deref_points; [|done]. exists (section_bytes false pre), (words32 ws ++ more). split; [|done]. by rewrite Ea, section_snoc, <- (assoc_L (++)). }
  split; [done|]. split.
  { apply (grow_ok _ (a_types a) (pre ++ [w2]) (a_bytes a)); [rewrite Eb1; apply A|rewrite Esec, length_app, length_words32; lia|lia|rewrite Esec, length_app, length_words32; lia|done]. }
  split; [|by rewrite Eb1]. rewrite (set_last_app a pre _ w2 Ea). split; [|split; [|by rewrite Eb1]].
  - destruct S as [S1 S2 S3 S4 S5 S6 S7 S8]. rewrite Eb1. split; fields; try done.
    + rewrite Ea in S2. by eapply index_last.
    + rewrite Ea, Forall_app in S3. apply Forall_app. split; [apply S3|]. apply Forall_singleton. eapply grown_ok; [exact Hw|done|done| |by rewrite length_fmap].
      apply Forall_fmap, Forall_true. intros. by apply wrap_range.
  - destruct A as [A1 A2 [A3 A3'] A4]. rewrite Eb1. split; fields; try done; rewrite ?Ety, Esec, <- ?(assoc_L (++)); [done|]. split; [|done].
    rewrite A3, !length_app, Elen. lia.
Qed.

Lemma keeps_open b h b1 a1 more1 b2 a2 more2 h1 : keeps b h b1 h1 → open b1 a1 more1 → open b2 a2 more2 → type_offs b2 = type_offs b1 → keeps b h b2 h1.
Proof.
  intros K (_ & A & R1 & R2) (_ & A2 & R1' & R2') Eo. unfold keeps in *. rewrite K, (blocks_apart _ _ _ A), (blocks_apart _ _ _ A2), R1, R2, R1', R2', Eo. done.
Qed.

Lemma append_member_ok b a name words new_info pre w t h : stands b a → blocks b ≤ live h → name_fine name → a_types a = pre ++ [w] → ty_head w = Some t →
  member_fine t words new_info →
  wp (append_member malloc_ok b name words new_info) h (λ r h', keeps b h r.2 h' ∧
    (r.1 = 0 ∧ stands r.2 (more_ty name words (new_info t) w a) ∨ failed a (4 * length (words 0)) name r)).
Proof.
  intros St Hl Hn Ea Et (Hlen & Hsm & Hi & Hs). unfold append_member, more_ty, failed. pose proof (intern_name_types name a) as Ety. destruct (intern_name name a) as [off a1] eqn:Ei. cbn [snd] in *.
  apply (with_room_ok b a); try done; [lia|..]; rewrite ?Ei; cbn [fst snd].
  { intros b' h' K St' Hw. split; [done|]. right. split_and!; [done|by left|done]. }
  intros b1 more h1 K1 Ho Hm Hoff. rewrite <- Ety.
  destruct (put_words_ok b1 a1 more (words off) Ho) as (b2 & more2 & E2 & Ho2 & Eo); [rewrite Hlen; lia|].
  destruct (extend_ok b2 a1 more2 pre w t (words off) (new_info t) Ho2) as (p & b3 & b4 & F1 & F2 & F3 & F4 & Ho4 & Eo4); [congruence|done|done|by rewrite Hlen|].
  rewrite Hlen in F4. apply wp_bind, (wp_lift _ _ _ _ E2), wp_bind, (wp_lift _ _ _ _ F1), wp_bind, (wp_lift _ _ _ _ F2), wp_bind, (wp_lift _ _ _ _ F3), wp_bind, (wp_lift _ _ _ _ F4), wp_ret.
  cbn [fst snd]. split; [eapply keeps_open; [exact K1|exact Ho|exact Ho4|congruence]|]. left. split; [done|]. by eapply open_stands.
Qed.

(** ** The plan of a function *)

Inductive plan :=
  | Refuse (err : Z)
  | NewType (name : option (list Z)) (info size : Z) (rest : list Z)
  | Member (name : option (list Z)) (words : Z → list Z) (new_info : btf_type → Z).

(** The last type of a list, and what is known of it. *)
Definition last_head (ts : list ty) : option btf_type := last ts ≫= ty_head.

Inductive planned (a : tinfo) : plan → Z → tinfo → Prop :=
  | planned_refuse err : planned a (Refuse err) err a
  | planned_new name info size rest : planned a (NewType name info size rest) (1 + length (a_types a)) (new_ty name info size rest a)
  | planned_member name words new_info w t : last (a_types a) = Some w → ty_head w = Some t →
      planned a (Member name words new_info) 0 (more_ty name words (new_info t) w a)
  | planned_fail_new name info size rest a' : no_room a (sizeof_type + 4 * length rest) name → a' ∈ [a; (intern_name name a).2] →
      planned a (NewType name info size rest) (- ENOMEM) a'
  | planned_fail_member name words new_info a' : no_room a (4 * length (words 0)) name → a' ∈ [a; (intern_name name a).2] →
      planned a (Member name words new_info) (- ENOMEM) a'.

(** What a plan needs of the types. *)
Definition plan_fine (ts : list ty) (p : plan) : Prop :=
  match p with
  | Refuse _ => True
  | NewType name info _ rest => name_fine name ∧ sized_info info rest ∧ length rest < 2 ^ 20
  | Member name words new_info => name_fine name ∧ ∃ t, last_head ts = Some t ∧ member_fine t words new_info
  end.
(** A function follows a plan. *)
Definition follows (m : prog heap (Z * btf)) (b : btf) (a : tinfo) (p : plan) (h : heap) : Prop :=
  wp m h (λ r h', keeps b h r.2 h' ∧ ∃ a', stands r.2 a' ∧ planned a p r.1 a').

Lemma follows_refuse b a err h : stands b a → follows (failing err b) b a (Refuse err) h.
Proof. intros St. apply wp_failing. intros h' L. split; [unfold keeps; cbn; lia|]. exists a. split; [done|constructor]. Qed.
Lemma failed_planned a sz name r (P : tinfo → Prop) : failed a sz name r → (∀ a', no_room a sz name → a' ∈ [a; (intern_name name a).2] → P a') → r.1 = - ENOMEM ∧ ∃ a', stands r.2 a' ∧ P a'.
Proof. intros (E & [St|St] & Hn) HP; (split; [done|]); eexists; (split; [exact St|]); apply HP; try done; set_solver. Qed.
Lemma follows_new b a name info size rest h : stands b a → blocks b ≤ live h → plan_fine (a_types a) (NewType name info size rest) →
  follows (append_type malloc_ok b name info size rest) b a (NewType name info size rest) h.
Proof.
  intros St Hl (Hn & Hi & Hr). eapply wp_mono; [by apply append_type_ok|]. intros r h' (K & Hres). split; [done|]. destruct Hres as [[-> [more Ho]]|Hf'].
  - eexists. split; [by eapply open_stands|constructor].
  - destruct (failed_planned _ _ _ _ (planned a (NewType name info size rest) (- ENOMEM)) Hf') as (-> & a' & ? & ?); [intros; by constructor|eauto].
Qed.
Lemma follows_member b a name words new_info h : stands b a → blocks b ≤ live h → plan_fine (a_types a) (Member name words new_info) →
  follows (append_member malloc_ok b name words new_info) b a (Member name words new_info) h.
Proof.
  intros St Hl (Hn & t & Ht & Hm). unfold last_head in Ht. destruct (last (a_types a)) as [w|] eqn:Ew; [|done]. cbn in Ht. pose proof Ew as Epre. apply last_Some in Epre as [pre Ea].
  eapply wp_mono; [by apply (append_member_ok b a name words new_info pre w t)|]. intros r h' (K & Hres). split; [done|]. destruct Hres as [[-> Hs]|Hf'].
  - eexists. split; [done|]. by constructor.
  - destruct (failed_planned _ _ _ _ (planned a (Member name words new_info) (- ENOMEM)) Hf') as (-> & a' & ? & ?); [intros; by constructor|eauto].
Qed.
End object.
