(* ===== verification/BtfOps.v ===== *)
(** * libbpf: the functions that build type information

    Every function of [BtfAdd] that adds a type or an element of a type follows its
    plan, for objects in one block and for objects that were taken apart.  Sequences
    of calls, with strings added and data written in between, refine the same
    sequence on a list of types and a dictionary of strings; and what is written is
    read back as these types, with their names. *)

From S2P Require Import Prelude Errno Bytes Hashmap Strset Heap Btf BtfSpec BtfTypes BtfRaw BtfAdd BtfBuild.
Local Open Scope Z_scope.

(** ** The functions and their plans *)

Inductive add_op :=
  | AddInt (name : option (list Z)) (byte_sz encoding : Z)
  | AddFloat (name : option (list Z)) (byte_sz : Z)
  | AddPtr (ref : Z)
  | AddArray (index elem nelems : Z)
  | AddStruct (name : option (list Z)) (byte_sz : Z)
  | AddUnion (name : option (list Z)) (byte_sz : Z)
  | AddField (name : option (list Z)) (type_id bit_offset bit_size : Z)
  | AddEnum (name : option (list Z)) (byte_sz : Z)
  | AddEnumValue (name : option (list Z)) (value : Z)
  | AddEnum64 (name : option (list Z)) (byte_sz : Z) (is_signed : bool)
  | AddEnum64Value (name : option (list Z)) (value : Z)
  | AddFwd (name : option (list Z)) (fwd_kind : Z)
  | AddTypedef (name : option (list Z)) (ref : Z)
  | AddVolatile (ref : Z)
  | AddConst (ref : Z)
  | AddRestrict (ref : Z)
  | AddTypeTag (value : option (list Z)) (ref : Z)
  | AddFunc (name : option (list Z)) (linkage proto : Z)
  | AddFuncProto (ret : Z)
  | AddFuncParam (name : option (list Z)) (type_id : Z)
  | AddVar (name : option (list Z)) (linkage type_id : Z)
  | AddDatasec (name : option (list Z)) (byte_sz : Z)
  | AddDatasecVarInfo (var_type_id offset byte_sz : Z)
  | AddDeclTag (value : option (list Z)) (ref component_idx : Z).

Definition do_add (malloc_ok : nat → bool) (o : add_op) (b : btf) : prog heap (Z * btf) :=
  match o with
  | AddInt name sz enc => btf__add_int malloc_ok b name sz enc
  | AddFloat name sz => btf__add_float malloc_ok b name sz
  | AddPtr ref => btf__add_ptr malloc_ok b ref
  | AddArray i e n => btf__add_array malloc_ok b i e n
  | AddStruct name sz => btf__add_struct malloc_ok b name sz
  | AddUnion name sz => btf__add_union malloc_ok b name sz
  | AddField name id off sz => btf__add_field malloc_ok b name id off sz
  | AddEnum name sz => btf__add_enum malloc_ok b name sz
  | AddEnumValue name x => btf__add_enum_value malloc_ok b name x
  | AddEnum64 name sz sg => btf__add_enum64 malloc_ok b name sz sg
  | AddEnum64Value name x => btf__add_enum64_value malloc_ok b name x
  | AddFwd name k => btf__add_fwd malloc_ok b name k
  | AddTypedef name ref => btf__add_typedef malloc_ok b name ref
  | AddVolatile ref => btf__add_volatile malloc_ok b ref
  | AddConst ref => btf__add_const malloc_ok b ref
  | AddRestrict ref => btf__add_restrict malloc_ok b ref
  | AddTypeTag value ref => btf__add_type_tag malloc_ok b value ref
  | AddFunc name l id => btf__add_func malloc_ok b name l id
  | AddFuncProto ret => btf__add_func_proto malloc_ok b ret
  | AddFuncParam name id => btf__add_func_param malloc_ok b name id
  | AddVar name l id => btf__add_var malloc_ok b name l id
  | AddDatasec name sz => btf__add_datasec malloc_ok b name sz
  | AddDatasecVarInfo id off sz => btf__add_datasec_var_info malloc_ok b id off sz
  | AddDeclTag value ref idx => btf__add_decl_tag malloc_ok b value ref idx
  end.

(** Arguments that are accepted, in terms of numbers. *)
Definition guard (ok : bool) (p : plan) : plan := if ok then p else Refuse (- EINVAL).
Definition named (name : option (list Z)) : bool := negb (no_name name).
Definition id_ok (id : Z) : bool := (0 <=? id) && (id <=? BTF_MAX_NR_TYPES).
Definition linkage_ok (l : Z) : bool := bool_decide (l ∈ [0; 1; 2]).
Definition on_last (ts : list ty) (test : btf_type → bool) (p : btf_type → plan) : plan :=
  match last_head ts with Some t => guard (test t) (p t) | None => Refuse (- EINVAL) end.
(** One more element, the flag kept or set. *)
Definition one_more (flag : bool) (t : btf_type) : Z := btf_type_info (kind_no t) (btf_vlen t + 1) (flag || btf_kflag t).

Definition plan_of (o : add_op) (ts : list ty) : plan :=
  match o with
  | AddInt name sz enc =>
      guard (named name && bool_decide (sz ∈ [1; 2; 4; 8; 16]) && (0 <=? enc) && (enc <? 8))
        (NewType name (info_of BTF_KIND_INT) sz [Z.lor (Z.shiftl enc 24) (sz * 8)])
  | AddFloat name sz => guard (named name && bool_decide (sz ∈ [2; 4; 8; 12; 16])) (NewType name (info_of BTF_KIND_FLOAT) sz [])
  | AddPtr ref => guard (id_ok ref) (NewType None (info_of BTF_KIND_PTR) ref [])
  | AddArray i e n => guard (id_ok i && id_ok e) (NewType None (info_of BTF_KIND_ARRAY) 0 [e; i; n])
  | AddStruct name sz => NewType name (info_of BTF_KIND_STRUCT) sz []
  | AddUnion name sz => NewType name (info_of BTF_KIND_UNION) sz []
  | AddField name id off sz =>
      on_last ts btf_is_composite (λ t,
        guard (id_ok id && ((sz =? 0) && (off mod 8 =? 0) || (0 <? sz) && (sz <=? 255) && (off <=? 0xffffff)) && (negb (btf_is_union t) || (off =? 0)))
          (Member name (λ n, [n; id; Z.lor off (Z.shiftl sz 24)]) (one_more (negb (sz =? 0)))))
  | AddEnum name sz => guard (bool_decide (sz ∈ [1; 2; 4; 8])) (NewType name (info_of BTF_KIND_ENUM) sz [])
  | AddEnumValue name x =>
      on_last ts btf_is_enum (λ _, guard (named name)
        (if (INT_MIN <=? x) && (x <=? UINT_MAX) then Member name (λ n, [n; x]) (one_more (x <? 0)) else Refuse (- E2BIG)))
  | AddEnum64 name sz sg => guard (bool_decide (sz ∈ [1; 2; 4; 8])) (NewType name (btf_type_info 19 0 sg) sz [])
  | AddEnum64Value name x => on_last ts btf_is_enum64 (λ _, guard (named name) (Member name (λ n, [n; x; Z.shiftr x 32]) (one_more false)))
  | AddFwd name k =>
      guard (named name && bool_decide (k ∈ [0; 1; 2]))
        (if k =? 2 then NewType name (info_of BTF_KIND_ENUM) 4 [] else NewType name (btf_type_info 7 0 (k =? 1)) 0 [])
  | AddTypedef name ref => guard (named name && id_ok ref) (NewType name (info_of BTF_KIND_TYPEDEF) ref [])
  | AddVolatile ref => guard (id_ok ref) (NewType None (info_of BTF_KIND_VOLATILE) ref [])
  | AddConst ref => guard (id_ok ref) (NewType None (info_of BTF_KIND_CONST) ref [])
  | AddRestrict ref => guard (id_ok ref) (NewType None (info_of BTF_KIND_RESTRICT) ref [])
  | AddTypeTag value ref => guard (named value && id_ok ref) (NewType value (info_of BTF_KIND_TYPE_TAG) ref [])
  | AddFunc name l id => guard (named name && linkage_ok l && id_ok id) (NewType name (btf_type_info 12 l false) id [])
  | AddFuncProto ret => guard (id_ok ret) (NewType None (info_of BTF_KIND_FUNC_PROTO) ret [])
  | AddFuncParam name id => on_last ts btf_is_func_proto (λ _, guard (id_ok id) (Member name (λ n, [n; id]) (one_more false)))
  | AddVar name l id => guard (named name && linkage_ok l && id_ok id) (NewType name (info_of BTF_KIND_VAR) id [l])
  | AddDatasec name sz => guard (named name) (NewType name (info_of BTF_KIND_DATASEC) sz [])
  | AddDatasecVarInfo id off sz => on_last ts btf_is_datasec (λ _, guard (id_ok id) (Member None (λ _, [id; off; sz]) (one_more false)))
  | AddDeclTag value ref idx => guard (named value && (-1 <=? idx) && id_ok ref) (NewType value (info_of BTF_KIND_DECL_TAG) ref [idx])
  end.

(** The tests of the code are those of the plans. *)
Lemma pow2_test n : 0 ≤ n → not_pow2 n || (16 <? n) = negb (bool_decide (n ∈ [1; 2; 4; 8; 16])) ∧ not_pow2 n || (8 <? n) = negb (bool_decide (n ∈ [1; 2; 4; 8])).
Proof.
  intros Hn. destruct (decide (n ≤ 16)) as [Hl|Hl].
  - assert (n ∈ [0; 1; 2; 3; 4; 5; 6; 7; 8; 9; 10; 11; 12; 13; 14; 15; 16]) as H by members.
    repeat (apply elem_of_cons in H as [->|H]; [by vm_compute|]). by apply elem_of_nil in H.
  - rewrite (proj2 (Z.ltb_lt 16 n)), (proj2 (Z.ltb_lt 8 n)), !orb_true_r by lia. rewrite !bool_decide_false by (intros H; members). done.
Qed.
Lemma encoding_test e : negb (Z.land e (Z.lnot 7) =? 0) = negb ((0 <=? e) && (e <? 8)).
Proof.
  f_equal. change 7 with (Z.ones 3). rewrite <- Z.ldiff_land, Z.ldiff_ones_r, Z.shiftl_mul_pow2, Z.shiftr_div_pow2 by lia. change (2 ^ 3) with 8.
  destruct (Z.leb_spec 0 e), (Z.ltb_spec e 8); cbn [andb]; [apply Z.eqb_eq|apply Z.eqb_neq..]; dlia.
Qed.
Lemma id_test id : bad_id id = negb (id_ok id).
Proof. unfold bad_id, validate_type_id, id_ok. destruct (Z.ltb_spec id 0), (Z.ltb_spec BTF_MAX_NR_TYPES id), (Z.leb_spec 0 id), (Z.leb_spec id BTF_MAX_NR_TYPES); try done; lia. Qed.
Lemma linkage_test l : negb (l =? 0) && negb (l =? 1) && negb (l =? 2) = negb (linkage_ok l).
Proof. unfold linkage_ok. case_bool_decide as H; destruct (Z.eqb_spec l 0), (Z.eqb_spec l 1), (Z.eqb_spec l 2); try done; members. Qed.
Lemma float_test n : negb (n =? 2) && negb (n =? 4) && negb (n =? 8) && negb (n =? 12) && negb (n =? 16) = negb (bool_decide (n ∈ [2; 4; 8; 12; 16])).
Proof. case_bool_decide as H; destruct (Z.eqb_spec n 2), (Z.eqb_spec n 4), (Z.eqb_spec n 8), (Z.eqb_spec n 12), (Z.eqb_spec n 16); try done; members. Qed.
Lemma bitfield_test off sz : 0 ≤ off → 0 ≤ sz →
  (negb (sz =? 0) || negb (off mod 8 =? 0)) && ((sz =? 0) || (255 <? sz) || (0xffffff <? off)) =
  negb ((sz =? 0) && (off mod 8 =? 0) || (0 <? sz) && (sz <=? 255) && (off <=? 0xffffff)).
Proof.
  intros Ho Hs. destruct (Z.eqb_spec sz 0), (off mod 8 =? 0), (Z.ltb_spec 255 sz), (Z.ltb_spec 0xffffff off), (Z.ltb_spec 0 sz), (Z.leb_spec sz 255), (Z.leb_spec off 0xffffff); try done; lia.
Qed.

(** ** Each function follows its plan *)

Lemma last_Some_or_nil {A} (l : list A) : l = [] ∨ ∃ pre x, l = pre ++ [x].
Proof. destruct l as [|x pre _] using rev_ind; [by left|right; eauto]. Qed.

Definition args_fine (o : add_op) : Prop :=
  match o with
  | AddInt name sz _ => name_fine name ∧ 0 ≤ sz
  | AddFloat name _ | AddStruct name _ | AddUnion name _ | AddEnumValue name _ | AddEnum64Value name _ | AddFwd name _ | AddTypedef name _
  | AddTypeTag name _ | AddFunc name _ _ | AddFuncParam name _ | AddVar name _ _ | AddDatasec name _ | AddDeclTag name _ _ => name_fine name
  | AddEnum name sz | AddEnum64 name sz _ => name_fine name ∧ 0 ≤ sz
  | AddField name _ off sz => name_fine name ∧ 0 ≤ off ∧ 0 ≤ sz
  | AddPtr _ | AddArray _ _ _ | AddVolatile _ | AddConst _ | AddRestrict _ | AddFuncProto _ | AddDatasecVarInfo _ _ _ => True
  end.
Definition is_member (o : add_op) : bool :=
  match o with AddField _ _ _ _ | AddEnumValue _ _ | AddEnum64Value _ _ | AddFuncParam _ _ | AddDatasecVarInfo _ _ _ => true | _ => false end.
(** The last type can have one more element. *)
Definition countable (ts : list ty) : Prop := ∀ t, last_head ts = Some t → btf_kind t ≠ Some BTF_KIND_FUNC → btf_vlen t < 65535.

Lemma no_name_fine : name_fine None.
Proof. split; [split; [apply not_elem_of_nil|done]|constructor]. Qed.

Lemma kind_code_range k : 0 ≤ kind_code k < 32.
Proof. by destruct k. Qed.
Lemma kind_code_kinds k : kinds !! Z.to_nat (kind_code k) = Some k.
Proof. by destruct k. Qed.
Lemma info_kind k n fl a s : 0 ≤ n < 65536 → btf_kind (mk_type a (btf_type_info (kind_code k) n fl) s) = Some k.
Proof. intros Hn. unfold btf_kind. destruct (type_info_fields (kind_code k) n fl a s (kind_code_range k) Hn) as (-> & _). apply kind_code_kinds. Qed.

(** Kinds without elements, and kinds that start without. *)
Definition fixed_words (k : kind) : option nat :=
  match k with
  | BTF_KIND_UNKN => None
  | BTF_KIND_INT | BTF_KIND_VAR | BTF_KIND_DECL_TAG => Some 1%nat
  | BTF_KIND_ARRAY => Some 3%nat
  | _ => Some 0%nat
  end.
Lemma sized_new k n fl (rest : list Z) : 0 ≤ n < 65536 → (k = BTF_KIND_FUNC ∨ n = 0) → fixed_words k = Some (length rest) → sized_info (btf_type_info (kind_code k) n fl) rest.
Proof.
  intros Hn Hk Hr. split; [by apply (type_info_fields (kind_code k) n fl 0 0 (kind_code_range k))|]. intros a s. unfold btf_type_size. rewrite (info_kind k n fl a s Hn).
  destruct (type_info_fields (kind_code k) n fl a s (kind_code_range k) Hn) as (_ & -> & _). unfold sizeof_type. destruct Hk as [->| ->]; [|destruct k]; cbn in Hr; try done; injection Hr as <-; lia.
Qed.

(** The words of an element, for the kinds that have elements. *)
Definition elem_words (k : kind) : option nat :=
  match k with
  | BTF_KIND_STRUCT | BTF_KIND_UNION | BTF_KIND_ENUM64 | BTF_KIND_DATASEC => Some 3%nat
  | BTF_KIND_ENUM | BTF_KIND_FUNC_PROTO => Some 2%nat
  | _ => None
  end.
Lemma member_new t k words fl : btf_kind t = Some k → elem_words k = Some (length (words 0)) → (∀ n, length (words n) = length (words 0)) → btf_vlen t < 65535 →
  member_fine t words (one_more fl).
Proof.
  intros Hk He Hw Hv. pose proof (vlen_nonneg t). split; [done|]. assert (length (words 0) ≤ 3) by (destruct k; cbn in He; try done; injection He as <-; lia). split; [lia|].
  destruct (type_info_fields (kind_no t) (btf_vlen t + 1) (fl || btf_kflag t) 0 0 (kind_no_range t) ltac:(lia)) as (_ & _ & _ & Hi). split; [done|]. intros a s.
  destruct (type_info_fields (kind_no t) (btf_vlen t + 1) (fl || btf_kflag t) a s (kind_no_range t) ltac:(lia)) as (E1 & E2 & _).
  assert (btf_kind (mk_type a (one_more fl t) s) = Some k) as Ek by (rewrite <- Hk; unfold btf_kind, one_more; by rewrite E1).
  unfold btf_type_size. rewrite Ek, Hk. unfold one_more. rewrite E2. unfold sizeof_type. destruct k; cbn in He; try done; injection He as <-; lia.
Qed.

Section follow.
Context (v f : Z) (Hv : is_byte v) (Hf : is_byte f) (malloc_ok : nat → bool).
Abbreviation stands := (stands v f).
Abbreviation follows := (follows v f malloc_ok).

(** The last type is the one that is tested. *)
Lemma with_last_ok b a h test k p : stands b a → (∀ t, last_head (a_types a) = Some t → test t = true → follows (k t) b a (p t) h) →
  follows (with_last b test k) b a (on_last (a_types a) test p) h.
Proof.
  intros St Hk. pose proof (stands_models v f Hv Hf b a St) as Hm. pose proof (stands_few v f Hv Hf b a St) as Hfew. pose proof St as (S & _). unfold with_last, on_last.
  rewrite (ix_nr _ _ (so_index _ _ S)). destruct (last_Some_or_nil (a_types a)) as [E|(pre & w & E)].
  { rewrite E. cbn. by apply follows_refuse. }
  assert (length (a_types a) = length pre + 1)%nat as El by (rewrite E, length_app; done).
  rewrite (proj2 (Z.eqb_neq _ 0)) by lia. destruct (models_type b (a_types a) (length pre) w Hm) as (q & Eq & Hp); [rewrite E; by apply list_lookup_middle|].
  assert (btf_last_type b = Some q) as Elast.
  { unfold btf_last_type. destruct (models_cnt b (a_types a) Hm ltac:(lia)) as (-> & _). rewrite wrap_small by (unfold is_word; lia). rewrite <- Eq. f_equal. lia. }
  assert (ty_ok w) as Hw by (pose proof (so_types _ _ S) as H; rewrite E, Forall_app, Forall_singleton in H; apply H).
  destruct (ty_ok_head w Hw) as (t & rest & Ew & Et & _). assert (last_head (a_types a) = Some t) as Elh by (unfold last_head; by rewrite E, last_snoc).
  unfold BtfBuild.follows. apply wp_bind, (wp_lift _ _ _ _ Elast), wp_bind. eapply wp_lift; [rewrite (deref_points q w Hp Hw); exact Et|].
  rewrite Elh. destruct (test t) eqn:Etest; cbn [negb guard]; [by apply Hk|by apply follows_refuse].
Qed.

(** Following a plan is a matter of what is run when the arguments are accepted. *)
Ltac decide_tests :=
  repeat match goal with
  | |- context [negb ?c] => lazymatch c with true => fail | false => fail | _ => destruct c eqn:? end; cbn [negb andb orb guard]
  end.
Ltac start_plan := unfold do_add, plan_of; rewrite ?id_test, ?linkage_test, ?float_test, ?encoding_test.

Lemma ref_kind_ok b a h k name ref : stands b a → blocks b ≤ live h → name_fine name → fixed_words k = Some 0%nat →
  follows (btf_add_ref_kind malloc_ok b k name ref) b a (guard (id_ok ref) (NewType name (info_of k) ref [])) h.
Proof.
  intros St Hl Hn Hk. unfold btf_add_ref_kind. rewrite id_test. destruct (id_ok ref); cbn [negb guard]; [|by apply follows_refuse].
  apply follows_new; [done..|]. split; [done|]. split; [|done]. apply sized_new; [done|by right|done].
Qed.
Lemma new_plan_ok b a h k name size rest fl n : stands b a → blocks b ≤ live h → name_fine name → fixed_words k = Some (length rest) → 0 ≤ n < 65536 → (k = BTF_KIND_FUNC ∨ n = 0) →
  follows (append_type malloc_ok b name (btf_type_info (kind_code k) n fl) size rest) b a (NewType name (btf_type_info (kind_code k) n fl) size rest) h.
Proof.
  intros St Hl Hn Hk Hn' Hz. apply follows_new; [done..|]. split; [done|]. split; [by apply sized_new|]. assert (length rest ≤ 3) by (destruct k; cbn in Hk; try done; injection Hk as <-; lia). lia.
Qed.
Lemma member_plan_ok b a h name words new_info fl t k : stands b a → blocks b ≤ live h → name_fine name → countable (a_types a) → last_head (a_types a) = Some t →
  btf_kind t = Some k → elem_words k = Some (length (words 0)) → (∀ n, length (words n) = length (words 0)) → (∀ t, btf_vlen t < 65535 → new_info t = one_more fl t) →
  follows (append_member malloc_ok b name words new_info) b a (Member name words (one_more fl)) h.
Proof.
  intros St Hl Hn Hc Ht Hk He Hw Hi. assert (btf_vlen t < 65535) as Hvl by (apply Hc; [done|]; intros E; rewrite Hk in E; injection E as ->; done).
  pose proof (member_new t k words fl Hk He Hw Hvl) as Hm.
  assert (follows (append_member malloc_ok b name words new_info) b a (Member name words new_info) h) as Hfo.
  { apply follows_member; [done..|]. split; [done|]. exists t. split; [done|]. destruct Hm as (? & ? & ? & ?). unfold member_fine. rewrite (Hi t Hvl). done. }
  eapply wp_mono; [exact Hfo|]. intros r h' (K & a' & St' & Hp). split; [done|]. exists a'. split; [done|]. inversion Hp; subst.
  - match goal with H1 : last (a_types a) = Some _, H2 : ty_head _ = Some ?t0 |- _ => assert (t0 = t) as -> by (unfold last_head in Ht; rewrite H1 in Ht; cbn in Ht; congruence) end.
    rewrite (Hi t Hvl). by constructor.
  - by constructor.
Qed.

(** Two functions add a type and then change its field [info]. *)
Lemma retag_ok b a more name i0 i ref h : open v f b (new_ty name i0 ref [] a) more → sized_info i [] →
  wp (put_info_of (1 + length (a_types a)) i b) h (λ b' h', h' = h ∧ open v f b' (new_ty name i ref [] a) more ∧ type_offs b' = type_offs b).
Proof.
  intros Ho Hi. unfold new_ty in *. pose proof (intern_name_types name a) as Et. destruct (intern_name name a) as [off a1]. cbn [snd] in Et. cbn [fmap list_fmap] in *.
  pose proof (open_few _ _ Hv Hf _ _ _ Ho) as Hfew. pose proof (last_type_ok v f Hv Hf b _ more (a_types a1) _ Ho eq_refl) as El. pose proof Ho as (S & A & R1 & R2).
  destruct (put_info_ok v f b _ more (a_types a1) off i0 (u32 ref) [] i Ho eq_refl) as (b' & Ep & Ety & Eb'). rewrite (wrap_small 32 i) in Ety by apply Hi.
  unfold put_info_of. apply wp_bind. eapply wp_lift.
  { rewrite <- El. unfold btf_last_type, btf__type_cnt. destruct (so_ids _ _ S) as (_ & -> & _). rewrite (ix_nr _ _ (so_index _ _ S)). cbn [a_types add_ty] in *. rewrite length_app, Et in *. cbn [length] in *.
    f_equal. rewrite (wrap_small 32 (1 + _)), wrap_small by (unfold is_word; lia). lia. }
  apply (wp_lift _ _ _ _ Ep). split; [done|]. split; [|by rewrite Eb']. split; [|split; [|rewrite Eb'; done]].
  - assert (ty_ok [off; i; u32 ref]) as Hw.
    { apply (new_ty_ok off i ref []); [|done]. pose proof (so_types _ _ S) as H. cbn [a_types add_ty] in H. rewrite Forall_app, Forall_singleton in H. destruct H as (_ & H & _). by apply Forall_cons in H as [? _]. }
    destruct S as [S1 S2 S3 S4 S5 S6 S7 S8]. rewrite Eb'. split; fields; try done; cbn [a_types add_ty] in *.
    + by eapply index_last.
    + rewrite Forall_app in S3. apply Forall_app. split; [apply S3|by apply Forall_singleton].
  - destruct A as [A1 A2 [A3 A3'] A4]. rewrite Eb'. cbn [a_types a_bytes a_strs add_ty] in *.
    assert (∀ j, length (section_bytes false (a_types a1 ++ [[off; j; u32 ref]])) = length (section_bytes false (a_types a1 ++ [[off; i0; u32 ref]]))) as Elen by (intros; by rewrite !section_snoc, !length_app, !length_words_bytes).
    split; fields; cbn [a_types a_bytes a_strs add_ty]; [|done| |done].
    + rewrite A1. unfold hdr_for. by rewrite (Elen i).
    + split; [by rewrite A3, !length_app, (Elen i)|done].
Qed.

Lemma ref_then_info b a h k name ref i : stands b a → blocks b ≤ live h → name_fine name → fixed_words k = Some 0%nat → sized_info i [] →
  wp (btf_add_ref_kind malloc_ok b k name ref) h (λ r h', keeps b h r.2 h' ∧
    (r.1 = 1 + length (a_types a) ∧ id_ok ref = true ∧ (∃ more, open v f r.2 (new_ty name (info_of k) ref [] a) more) ∨
     r.1 < 0 ∧ ∃ a', stands r.2 a' ∧ planned malloc_ok a (guard (id_ok ref) (NewType name i ref [])) r.1 a')).
Proof.
  intros St Hl Hn Hk Hi. unfold btf_add_ref_kind. rewrite id_test. destruct (id_ok ref); cbn [negb guard].
  2:{ apply wp_failing. intros h' L. split; [unfold keeps; cbn; lia|]. right. split; [done|]. exists a. split; [done|constructor]. }
  eapply wp_mono; [apply (append_type_ok v f Hv Hf malloc_ok b a); [done..| |done]; apply sized_new; [done|by right|done]|].
  intros r h' (K & [[E Ho]|Hf']); (split; [done|]); [by left|right].
  destruct (failed_planned v f Hv Hf malloc_ok _ _ _ _ (planned malloc_ok a (NewType name i ref []) (- ENOMEM)) Hf') as (-> & a' & ? & ?); [intros; by constructor|]. split; [done|eauto].
Qed.
Lemma fwd_ok b a h name k : stands b a → blocks b ≤ live h → name_fine name → (k = 0 ∨ k = 1) →
  follows (let! (id, b) := btf_add_ref_kind malloc_ok b BTF_KIND_FWD name 0 in
    if id <=? 0 then pret (id, b) else let! b := put_info_of id (btf_type_info (kind_code BTF_KIND_FWD) 0 (k =? 1)) b in pret (id, b))
    b a (NewType name (btf_type_info 7 0 (k =? 1)) 0 []) h.
Proof.
  intros St Hl Hn Hk. assert (sized_info (btf_type_info 7 0 (k =? 1)) []) as Hi by (apply (sized_new BTF_KIND_FWD); [done|by right|done]).
  apply wp_bind. eapply wp_mono; [by apply (ref_then_info b a h BTF_KIND_FWD name 0 _ St Hl Hn eq_refl Hi)|]. intros [id b1] h1 (K & [(E & _ & more & Ho)|(Hneg & Hp)]); cbn [fst snd] in *.
  - rewrite (proj2 (Z.leb_gt id 0)) by lia. apply wp_bind. subst id. eapply wp_mono; [by eapply retag_ok|]. intros b' h' (-> & Ho' & Eo). apply wp_ret. cbn [fst snd].
    split; [eapply keeps_open; [exact K|exact Ho|exact Ho'|done]|]. eexists. split; [by eapply open_stands|constructor].
  - rewrite (proj2 (Z.leb_le id 0)) by lia. by apply wp_ret.
Qed.
Lemma func_ok b a h name l id : stands b a → blocks b ≤ live h → name_fine name → linkage_ok l = true →
  follows (let! (id, b) := btf_add_ref_kind malloc_ok b BTF_KIND_FUNC name id in
    let! b := (if 0 <? id then put_info_of id (btf_type_info (kind_code BTF_KIND_FUNC) l false) b else pret b) in failing id b)
    b a (guard (id_ok id) (NewType name (btf_type_info 12 l false) id [])) h.
Proof.
  intros St Hl Hn Hlk. apply bool_decide_eq_true in Hlk. assert (sized_info (btf_type_info 12 l false) []) as Hi by (apply (sized_new BTF_KIND_FUNC); [members|by left|done]).
  apply wp_bind. eapply wp_mono; [by apply (ref_then_info b a h BTF_KIND_FUNC name id _ St Hl Hn eq_refl Hi)|]. intros [r b1] h1 (K & [(E & Eid & more & Ho)|(Hneg & Hp)]); cbn [fst snd] in *.
  - rewrite (proj2 (Z.ltb_lt 0 r)) by lia. apply wp_bind. subst r. eapply wp_mono; [by eapply retag_ok|]. intros b' h' (-> & Ho' & Eo). apply wp_failing. intros h2 L2. cbn [fst snd].
    assert (keeps b h b' h1) as K' by (eapply keeps_open; [exact K|exact Ho|exact Ho'|done]). split; [unfold keeps in *; lia|]. rewrite Eid. eexists. split; [by eapply open_stands|constructor].
  - rewrite (proj2 (Z.ltb_ge 0 r)) by lia. apply wp_bind, wp_ret, wp_failing. intros h2 L2. split; [unfold keeps in *; cbn; lia|done].
Qed.

(** New types. *)
Lemma add_fwd_follows b a h name k : stands b a → blocks b ≤ live h → name_fine name → follows (btf__add_fwd malloc_ok b name k) b a (plan_of (AddFwd name k) (a_types a)) h.
Proof.
  intros St Hl Hn. unfold btf__add_fwd, plan_of, named. destruct (no_name name); cbn [negb andb guard]; [by apply follows_refuse|].
  destruct (decide (k = 0 ∨ k = 1)) as [Hk|Hk]; [|destruct (decide (k = 2)) as [->|Hk2]].
  - rewrite (bool_decide_true (k ∈ [0; 1; 2])), (proj2 (Z.eqb_neq k 2)) by members. replace ((k =? 0) || (k =? 1)) with true by (symmetry; apply orb_true_iff; lia). by apply fwd_ok.
  - by apply (new_plan_ok b a h BTF_KIND_ENUM); auto.
  - rewrite (bool_decide_false (k ∈ [0; 1; 2])), !(proj2 (Z.eqb_neq k _)) by members. by apply follows_refuse.
Qed.
Lemma add_type_follows o b a h : is_member o = false → stands b a → blocks b ≤ live h → args_fine o → follows (do_add malloc_ok o b) b a (plan_of o (a_types a)) h.
Proof.
  intros Hm St Hl Ha. pose proof no_name_fine as Hnn. destruct o; try done; cbn [args_fine] in Ha; start_plan; unfold named.
  - destruct Ha as [Hn Hsz]. unfold btf__add_int. rewrite encoding_test, (proj1 (pow2_test _ Hsz)). destruct (no_name name); cbn [negb andb guard]; [by apply follows_refuse|].
    decide_tests; destruct (bool_decide _), (0 <=? encoding), (encoding <? 8); cbn [negb andb guard] in *; try done; try (by apply follows_refuse). by apply (new_plan_ok b a h BTF_KIND_INT); auto.
  - unfold btf__add_float. rewrite float_test. destruct (no_name name), (bool_decide _); cbn [negb andb guard]; try (by apply follows_refuse). by apply (new_plan_ok b a h BTF_KIND_FLOAT); auto.
  - by apply ref_kind_ok.
  - unfold btf__add_array. rewrite !id_test. destruct (id_ok index), (id_ok elem); cbn [negb andb orb guard]; try (by apply follows_refuse). by apply (new_plan_ok b a h BTF_KIND_ARRAY); auto.
  - by apply (new_plan_ok b a h BTF_KIND_STRUCT); auto.
  - by apply (new_plan_ok b a h BTF_KIND_UNION); auto.
  - destruct Ha as [Hn Hsz]. unfold btf__add_enum, btf_add_enum_common. rewrite (proj2 (pow2_test _ Hsz)). destruct (bool_decide _); cbn [negb guard]; [|by apply follows_refuse]. by apply (new_plan_ok b a h BTF_KIND_ENUM); auto.
  - destruct Ha as [Hn Hsz]. unfold btf__add_enum64, btf_add_enum_common. rewrite (proj2 (pow2_test _ Hsz)). destruct (bool_decide _); cbn [negb guard]; [|by apply follows_refuse].
    by apply (new_plan_ok b a h BTF_KIND_ENUM64); auto.
  - by apply add_fwd_follows.
  - unfold btf__add_typedef. destruct (no_name name); cbn [negb andb guard]; [by apply follows_refuse|]. by apply ref_kind_ok.
  - by apply ref_kind_ok.
  - by apply ref_kind_ok.
  - by apply ref_kind_ok.
  - unfold btf__add_type_tag. destruct (no_name value); cbn [negb andb guard]; [by apply follows_refuse|]. by apply ref_kind_ok.
  - unfold btf__add_func. rewrite linkage_test. destruct (no_name name); cbn [negb andb guard]; [by apply follows_refuse|]. destruct (linkage_ok linkage) eqn:El; cbn [negb andb guard]; [|by apply follows_refuse]. by apply func_ok.
  - unfold btf__add_func_proto. rewrite id_test. destruct (id_ok ret); cbn [negb guard]; [|by apply follows_refuse]. by apply (new_plan_ok b a h BTF_KIND_FUNC_PROTO); auto.
  - unfold btf__add_var. rewrite linkage_test, id_test. destruct (no_name name), (linkage_ok linkage), (id_ok type_id); cbn [negb andb guard]; try (by apply follows_refuse). by apply (new_plan_ok b a h BTF_KIND_VAR); auto.
  - unfold btf__add_datasec. destruct (no_name name); cbn [negb andb guard]; [by apply follows_refuse|]. by apply (new_plan_ok b a h BTF_KIND_DATASEC); auto.
  - unfold btf__add_decl_tag. rewrite id_test, Z.leb_antisym. destruct (no_name value), (component_idx <? -1), (id_ok ref); cbn [negb andb orb guard]; try (by apply follows_refuse).
    by apply (new_plan_ok b a h BTF_KIND_DECL_TAG); auto.
Qed.

(** Elements of the last type. *)
Lemma is_kind_true k t : is_kind k t = true → btf_kind t = Some k.
Proof. apply bool_decide_eq_true. Qed.
Lemma enum_info x t : btf_vlen t < 65535 →
  (let t := btf_type_inc_vlen t in if x <? 0 then btf_type_info (kind_no t) (btf_vlen t) true else info t) = one_more (x <? 0) t.
Proof.
  intros Hvl. pose proof (vlen_nonneg t). cbv zeta. unfold one_more. destruct (x <? 0); [|done]. cbn [orb]. unfold btf_type_inc_vlen.
  by destruct (type_info_fields (kind_no t) (btf_vlen t + 1) (btf_kflag t) (name_off t) (size_type t) (kind_no_range t) ltac:(lia)) as (-> & -> & _).
Qed.
Lemma add_member_follows o b a h : is_member o = true → stands b a → blocks b ≤ live h → args_fine o → countable (a_types a) →
  follows (do_add malloc_ok o b) b a (plan_of o (a_types a)) h.
Proof.
  intros Hm St Hl Ha Hc. destruct o; try done; cbn [args_fine] in Ha; unfold do_add, plan_of.
  - destruct Ha as (Hn & H1 & H2). apply with_last_ok; [done|]. intros t Ht Htest. cbv zeta. rewrite id_test, bitfield_test by done.
    destruct (id_ok type_id); cbn [negb andb guard]; [|by apply follows_refuse].
    destruct ((bit_size =? 0) && (bit_offset mod 8 =? 0) || (0 <? bit_size) && (bit_size <=? 255) && (bit_offset <=? 0xffffff)) eqn:Eb; cbn [negb andb guard]; [|by apply follows_refuse].
    destruct (btf_is_union t), (bit_offset =? 0) eqn:E0; cbn [negb andb orb guard]; try (by apply follows_refuse).
    all: assert (∃ k, btf_kind t = Some k ∧ elem_words k = Some 3%nat) as (k & Hk & He)
      by (apply orb_true_iff in Htest as [E|E]; apply is_kind_true in E; eauto).
    all: apply (member_plan_ok b a h _ _ _ _ t k); try done; intros u _; unfold one_more; do 2 f_equal.
    all: destruct (Z.eqb_spec bit_size 0); cbn [negb andb orb] in *; [|done]; destruct (Z.ltb_spec 0 bit_size), (bit_offset mod 8 =? 0); try done; lia.
  - apply with_last_ok; [done|]. intros t Ht Htest. unfold named. destruct (no_name name); cbn [negb guard]; [by apply follows_refuse|].
    rewrite !Z.leb_antisym. destruct (value <? INT_MIN), (UINT_MAX <? value); cbn [negb andb orb]; try (by apply follows_refuse).
    apply (member_plan_ok b a h _ _ _ _ t BTF_KIND_ENUM); try done; [by apply is_kind_true|]. intros u Hu. by apply enum_info.
  - apply with_last_ok; [done|]. intros t Ht Htest. unfold named. destruct (no_name name); cbn [negb guard]; [by apply follows_refuse|].
    apply (member_plan_ok b a h _ _ _ _ t BTF_KIND_ENUM64); try done. by apply is_kind_true.
  - unfold btf__add_func_param. rewrite id_test. destruct (id_ok type_id); cbn [negb guard].
    + apply with_last_ok; [done|]. intros t Ht Htest. apply (member_plan_ok b a h _ _ _ _ t BTF_KIND_FUNC_PROTO); try done. by apply is_kind_true.
    + unfold on_last, guard. destruct (last_head _) as [t|]; [destruct (btf_is_func_proto t)|]; by apply follows_refuse.
  - apply with_last_ok; [done|]. intros t Ht Htest. rewrite id_test. destruct (id_ok var_type_id); cbn [negb guard]; [|by apply follows_refuse].
    apply (member_plan_ok b a h _ _ _ _ t BTF_KIND_DATASEC); try done; [apply no_name_fine|by apply is_kind_true].
Qed.
End follow.
