(* ===== verification/BtfRun.v ===== *)
(** * libbpf: sequences of calls that build type information

    Types and strings are added, strings are looked up, the byte order is chosen and
    the data is written, in any order.  The results are those of the same sequence
    on a list of types and a dictionary of strings ([spec_op]); the data is the image
    of the types and strings at the time, and reading it gives them back. *)

From S2P Require Import Prelude Errno Bytes Hashmap Strset Heap Btf BtfSpec BtfTypes BtfRaw BtfAdd BtfBuild BtfOps.
Local Open Scope Z_scope.

Inductive btf_op := Add (o : add_op) | StrAdd (s : list Z) | StrFind (s : list Z) | Write | Order (swapped : bool).
Inductive btf_res := Num (r : Z) | Data (d : option (list Z * Z)).

Section run.
Context (malloc_ok : nat → bool).
Definition number (m : prog heap (Z * btf)) : prog heap (btf_res * btf) := let! (r, b) := m in pret (Num r, b).
Definition do_op (o : btf_op) (b : btf) : prog heap (btf_res * btf) :=
  match o with
  | Add o => number (do_add malloc_ok o b)
  | StrAdd s => number (btf__add_str malloc_ok b s)
  | StrFind s => number (btf__find_str malloc_ok b s)
  | Write => let! (d, b) := btf__raw_data malloc_ok b in pret (Data d, b)
  | Order s => number (btf__set_endianness b (if s then BTF_BIG_ENDIAN else BTF_LITTLE_ENDIAN))
  end.
Fixpoint run (ops : list btf_op) (b : btf) : prog heap (list btf_res * btf) :=
  match ops with
  | [] => pret ([], b)
  | o :: ops => let! (r, b) := do_op o b in let! (rs, b) := run ops b in pret (r :: rs, b)
  end.
End run.

(** ** The same on types and strings *)

Definition order (s : bool) (a : tinfo) : tinfo := mk_tinfo (a_types a) (a_bytes a) (a_strs a) s.
Definition image_of (v f : Z) (a : tinfo) : list Z := image (a_swapped a) v f (a_types a) (a_bytes a).

Section spec.
Context (v f : Z) (malloc_ok : nat → bool).
Abbreviation short := (short malloc_ok).
Inductive spec_op (a : tinfo) : btf_op → btf_res → tinfo → Prop :=
  | spec_add o r a' : planned malloc_ok a (plan_of o (a_types a)) r a' → spec_op a (Add o) (Num r) a'
  | spec_str s : spec_op a (StrAdd s) (Num (intern s a).1) (intern s a).2
  | spec_str_fail s : short ∨ BTF_MAX_STR_OFFSET < length (a_bytes a) + length s + 1 → spec_op a (StrAdd s) (Num (- ENOMEM)) a
  | spec_find s off : a_strs a !! s = Some off → spec_op a (StrFind s) (Num off) a
  | spec_find_none s : a_strs a !! s = None → spec_op a (StrFind s) (Num (- ENOENT)) a
  | spec_find_fail s : short ∨ BTF_MAX_STR_OFFSET < length (a_bytes a) + length s + 1 → spec_op a (StrFind s) (Num (- ENOMEM)) a
  | spec_write : spec_op a Write (Data (Some (image_of v f a, Z.of_nat (length (image_of v f a))))) a
  | spec_write_fail : short → spec_op a Write (Data None) a
  | spec_order s : spec_op a (Order s) (Num 0) (order s a).
Inductive spec_run : tinfo → list btf_op → list btf_res → tinfo → Prop :=
  | spec_nil a : spec_run a [] [] a
  | spec_cons a o r a1 ops rs a2 : spec_op a o r a1 → spec_run a1 ops rs a2 → spec_run a (o :: ops) (r :: rs) a2.
End spec.

(** ** How much a sequence adds *)

Definition name_of (o : add_op) : option (list Z) :=
  match o with
  | AddInt name _ _ | AddFloat name _ | AddStruct name _ | AddUnion name _ | AddField name _ _ _ | AddEnum name _ | AddEnumValue name _ | AddEnum64 name _ _
  | AddEnum64Value name _ | AddFwd name _ | AddTypedef name _ | AddTypeTag name _ | AddFunc name _ _ | AddFuncParam name _ | AddVar name _ _ | AddDatasec name _
  | AddDeclTag name _ _ => name
  | AddPtr _ | AddArray _ _ _ | AddVolatile _ | AddConst _ | AddRestrict _ | AddFuncProto _ | AddDatasecVarInfo _ _ _ => None
  end.
(** Bytes at most, and elements of types. *)
Definition cost (o : btf_op) : Z :=
  match o with Add o => 24 + length (name_or_empty (name_of o)) + 1 | StrAdd s => length s + 1 | _ => 0 end.
Definition members_in (o : btf_op) : Z := match o with Add o => if is_member o then 1 else 0 | _ => 0 end.
Definition total_of (g : btf_op → Z) (ops : list btf_op) : Z := foldr (λ o n, g o + n) 0 ops.
Definition data_size (a : tinfo) : Z := length (section_bytes false (a_types a)) + length (a_bytes a).
Definition vroom (a : tinfo) (n : Z) : Prop := ∀ t, last_head (a_types a) = Some t → btf_kind t ≠ Some BTF_KIND_FUNC → btf_vlen t + n ≤ 65535.
Definition op_fine (o : btf_op) : Prop :=
  match o with Add o => args_fine o | StrAdd s | StrFind s => str_ok s ∧ bytes_ok s | Write | Order _ => True end.

Lemma plan_new o ts name i size rest : plan_of o ts = NewType name i size rest →
  name = name_of o ∧ length rest ≤ 3 ∧ ∀ n s, btf_kind (mk_type n i s) = Some BTF_KIND_FUNC ∨ btf_vlen (mk_type n i s) = 0.
Proof.
  assert (∀ k fl n s, btf_vlen (mk_type n (btf_type_info (kind_code k) 0 fl) s) = 0) as H0.
  { intros k fl n s. by destruct (type_info_fields (kind_code k) 0 fl n s (kind_code_range k) ltac:(done)) as (_ & -> & _). }
  intros E. destruct o; cbn [plan_of] in E; unfold on_last, guard, info_of in E; repeat case_match; simplify_eq; (split; [done|]); (split; [cbn; lia|]); intros n s; auto.
  all: try (right; first [exact (H0 BTF_KIND_ENUM64 _ n s)|exact (H0 BTF_KIND_FWD _ n s)]).
  left. apply (info_kind BTF_KIND_FUNC). match goal with H : _ && _ && _ = true |- _ => apply andb_true_iff in H as [H _]; apply andb_true_iff in H as [_ H]; apply bool_decide_eq_true in H end. members.
Qed.
Lemma plan_member o ts name words ni : plan_of o ts = Member name words ni →
  name = name_of o ∧ (∀ n, length (words n) = length (words 0)) ∧ length (words 0) ≤ 3 ∧ is_member o = true ∧ (∃ fl, ni = one_more fl) ∧
  ∀ t, last_head ts = Some t → btf_kind t ≠ Some BTF_KIND_FUNC.
Proof.
  assert (∀ test k, on_last ts test k = Member name words ni → (∀ t, test t = true → btf_kind t ≠ Some BTF_KIND_FUNC) → ∀ t, last_head ts = Some t → btf_kind t ≠ Some BTF_KIND_FUNC) as Hk.
  { intros test k E Ht t Hl. unfold on_last, guard in E. rewrite Hl in E. apply Ht. by destruct (test t). }
  assert (∀ k t, is_kind k t = true → k ≠ BTF_KIND_FUNC → btf_kind t ≠ Some BTF_KIND_FUNC) as Hi by (intros k t E%is_kind_true; rewrite E; congruence).
  intros E. destruct o; cbn [plan_of] in E; try (unfold guard in E; repeat case_match; done).
  all: pose proof (Hk _ _ E) as Hl; unfold on_last, guard in E; repeat case_match; simplify_eq; (split; [done|]); (split; [done|]); (split; [cbn; lia|]); (split; [done|]); (split; [by eexists|]).
  all: apply Hl; intros u Hu; first [by eapply Hi|apply orb_true_iff in Hu as [Hu|Hu]; by eapply Hi].
Qed.

Lemma intern_size s a : length (a_bytes (intern s a).2) ≤ length (a_bytes a) + length s + 1.
Proof. unfold intern. destruct (a_strs a !! s); cbn; [lia|]. rewrite !length_app. cbn. lia. Qed.
Lemma intern_name_size name a : data_size (intern_name name a).2 ≤ data_size a + length (name_or_empty name) + 1.
Proof.
  unfold data_size. rewrite intern_name_types. unfold intern_name. destruct (no_name name); cbn [snd]; [lia|]. pose proof (intern_size (name_or_empty name) a). lia.
Qed.
Lemma new_ty_size name i size rest a : data_size (new_ty name i size rest a) = data_size (intern_name name a).2 + 12 + 4 * length rest.
Proof. unfold new_ty. destruct (intern_name name a) as [off a1]. unfold data_size. cbn [snd a_types a_bytes add_ty]. rewrite section_snoc, length_app, length_words_bytes. cbn. rewrite length_fmap. lia. Qed.
Lemma more_ty_size name words i w a pre : a_types a = pre ++ [w] → ty_ok w → data_size (more_ty name words i w a) = data_size (intern_name name a).2 + 4 * length (words (intern_name name a).1).
Proof.
  intros E Hw. unfold more_ty. pose proof (intern_name_types name a) as Et. destruct (intern_name name a) as [off a1]. cbn [fst snd] in *. rewrite E in Et. rewrite (set_last_app a1 pre w _ Et).
  unfold data_size. cbn [a_types a_bytes]. rewrite Et, !section_snoc, !length_app, !length_words_bytes. destruct (ty_ok_head w Hw) as (t & rest & -> & _). cbn. rewrite length_app, length_fmap. lia.
Qed.

(** The size of the data, and the room for elements, after a function followed its plan. *)
Lemma planned_size malloc_ok o a r a' : Forall ty_ok (a_types a) → planned malloc_ok a (plan_of o (a_types a)) r a' → data_size a' ≤ data_size a + cost (Add o).
Proof.
  intros Hts Hp. cbn [cost]. remember (plan_of o (a_types a)) as p eqn:Ep. symmetry in Ep.
  assert (∀ name, name = name_of o → ∀ a', a' ∈ [a; (intern_name name a).2] → data_size a' ≤ data_size a + (24 + length (name_or_empty (name_of o)) + 1)) as Hfail.
  { intros name -> a0 H0. pose proof (intern_name_size (name_of o) a). rewrite !elem_of_cons, elem_of_nil in H0. destruct H0 as [->|[->|[]]]; lia. }
  destruct Hp.
  - lia.
  - destruct (plan_new _ _ _ _ _ _ Ep) as (-> & Hr & _). rewrite new_ty_size. pose proof (intern_name_size (name_of o) a). lia.
  - destruct (plan_member _ _ _ _ _ Ep) as (-> & Hw & Hl & _). apply last_Some in H as [pre E]. rewrite (more_ty_size _ _ _ _ _ pre E), Hw; [pose proof (intern_name_size (name_of o) a); lia|].
    rewrite E, Forall_app, Forall_singleton in Hts. apply Hts.
  - by apply (Hfail name); [apply (plan_new _ _ _ _ _ _ Ep)|].
  - by apply (Hfail name); [apply (plan_member _ _ _ _ _ Ep)|].
Qed.
Lemma planned_vroom malloc_ok o a r a' n : planned malloc_ok a (plan_of o (a_types a)) r a' → 0 ≤ n ≤ 65535 → vroom a (n + (if is_member o then 1 else 0)) → vroom a' n.
Proof.
  intros Hp Hn Hvr. assert (∀ a0 name, a0 ∈ [a; (intern_name name a).2] → vroom a0 n) as Hfail.
  { intros a0 name H0 t Ht Hk. assert (a_types a0 = a_types a) as E by (rewrite !elem_of_cons, elem_of_nil in H0; destruct H0 as [->|[->|[]]]; [done|apply intern_name_types]).
    rewrite E in Ht. specialize (Hvr t Ht Hk). destruct (is_member o); lia. }
  remember (plan_of o (a_types a)) as p eqn:Ep. symmetry in Ep. destruct Hp; [apply (Hfail a None); left| | |by eapply Hfail..].
  - destruct (plan_new _ _ _ _ _ _ Ep) as (_ & _ & Hf). intros t Ht Hk. unfold new_ty in Ht. destruct (intern_name name a) as [off a1]. unfold last_head in Ht. cbn [a_types add_ty] in Ht.
    rewrite last_snoc in Ht. injection Ht as <-. destruct (Hf off (u32 size)) as [?|E]; [done|]. rewrite E. lia.
  - destruct (plan_member _ _ _ _ _ Ep) as (_ & _ & _ & Hm & (fl & ->) & Hnf). rewrite Hm in Hvr. apply last_Some in H as [pre E]. intros t' Ht Hk.
    assert (last_head (a_types a) = Some t) as El by (unfold last_head; by rewrite E, last_snoc).
    assert (t' = mk_type (name_off t) (one_more fl t) (size_type t)) as ->.
    { unfold more_ty in Ht. pose proof (intern_name_types name a) as Et. destruct (intern_name name a) as [off a1]. cbn [snd] in Et. rewrite E in Et. rewrite (set_last_app a1 pre w _ Et) in Ht.
      unfold last_head in Ht. cbn [a_types] in Ht. rewrite last_snoc in Ht. destruct w as [|x [|y [|z rest]]]; try done. injection H0 as <-. by injection Ht as <-. }
    pose proof (vlen_nonneg t). specialize (Hvr t El (Hnf t El)). unfold one_more.
    destruct (type_info_fields (kind_no t) (btf_vlen t + 1) (fl || btf_kflag t) (name_off t) (size_type t) (kind_no_range t) ltac:(lia)) as (_ & -> & _). lia.
Qed.

(** ** Each call *)

Section calls.
Context (v f : Z) (Hv : is_byte v) (Hf : is_byte f) (malloc_ok : nat → bool).
Abbreviation stands := (stands v f).
Definition does (m : prog heap (btf_res * btf)) (b : btf) (a : tinfo) (o : btf_op) (h : heap) : Prop :=
  wp m h (λ r h', keeps b h r.2 h' ∧ ∃ a', stands r.2 a' ∧ spec_op v f malloc_ok a o r.1 a').

Lemma add_does o b a h : stands b a → blocks b ≤ live h → args_fine o → vroom a (if is_member o then 1 else 0) → does (number (do_add malloc_ok o b)) b a (Add o) h.
Proof.
  intros St Hl Ha Hvr. unfold does, number. apply wp_bind.
  assert (follows v f malloc_ok (do_add malloc_ok o b) b a (plan_of o (a_types a)) h) as Hfo.
  { destruct (is_member o) eqn:Em; [|by apply add_type_follows]. apply add_member_follows; try done. intros t Ht Hk. specialize (Hvr t Ht Hk). lia. }
  eapply wp_mono; [exact Hfo|]. intros [r b'] h' (K & a' & St' & Hp). apply wp_ret. cbn [fst snd] in *. split; [done|]. exists a'. split; [done|by constructor].
Qed.

Lemma str_add_does s b a h : stands b a → blocks b ≤ live h → str_ok s → bytes_ok s → does (number (btf__add_str malloc_ok b s)) b a (StrAdd s) h.
Proof.
  intros St Hl Hs Hb. unfold does, number. apply wp_bind. pose proof St as (S & _). unfold btf__add_str. destruct (so_ids _ _ S) as (-> & _).
  eapply wp_mono; [apply (add_own_ok v f Hv Hf malloc_ok b a s h (λ _, True)); [done..|]|].
  { eapply wp_mono; [by apply (ensure_ok v f Hv Hf malloc_ok b a)|]. intros [r b'] h' (K & [[E [more Ho]]|(E & E2 & Hn)]); cbn [fst snd] in *; subst; (split; [done|]); [left; by eauto|right; by split_and!]. }
  intros [r b'] h' (K & Hr). apply wp_ret. cbn [fst snd] in *. split; [done|]. destruct Hr as [(-> & _ & more & _ & Ho)|(-> & St' & Hw)].
  - eexists. split; [by eapply open_stands|constructor].
  - exists a. split; [done|by apply spec_str_fail].
Qed.

Lemma str_find_does s b a h : stands b a → blocks b ≤ live h → str_ok s → does (number (btf__find_str malloc_ok b s)) b a (StrFind s) h.
Proof.
  intros St Hl Hs. unfold does, number. apply wp_bind. pose proof St as (S & _).
  assert (btf__find_str malloc_ok b s = find_own_str malloc_ok s b) as -> by (destruct (so_ids _ _ S) as (E & _); destruct b; cbn in E |- *; by rewrite E).
  unfold find_own_str. apply wp_bind. eapply wp_mono; [by apply (ensure_ok v f Hv Hf malloc_ok b a)|]. intros [err b1] h1 (K1 & [[E1 [more Ho]]|(E1 & E2 & Hn)]); cbn [fst snd] in *; subst.
  2:{ cbn [negb Z.eqb]. apply wp_failing. intros h2 L2. apply wp_ret. split; [unfold keeps in *; cbn; lia|]. exists a. split; [done|]. apply spec_find_fail. by left. }
  cbn [Z.eqb negb]. pose proof Ho as (S1 & A & R1 & R2). apply wp_bind, (on_set_ok v f malloc_ok _ _ a more); [done|]. intros set Hok Hc.
  destruct (find_str_refines BTF_MAX_STR_OFFSET ltac:(done) set _ _ s (answers malloc_ok (asked h1)) Hok Hs) as (r & set' & E & Hok' & Hsp).
  pose proof Hok as (Em & _). assert (strset.strs_data_cap set' ≤ BTF_MAX_STR_OFFSET) as Hc' by (rewrite <- Em; eapply find_str_limit; [done|by rewrite Em]).
  exists r, set'. split; [done|]. intros h2 L2. assert (open v f (with_strs (StrsSet set') b1) a more) as Ho2.
  { split; [by apply (sound_ext b1)|]. split; [|done]. destruct A as [A1 A2 A3 A4]. split; try done. by exists set'. }
  assert (∀ h3, live h3 = live h2 → keeps b h (with_strs (StrsSet set') b1) h3) as K2.
  { intros h3 L3. pose proof (keeps_open v f b h b1 a more (with_strs (StrsSet set') b1) a more h1 K1 Ho Ho2 eq_refl) as K. unfold keeps in *. lia. }
  pose proof (open_stands v f _ _ _ Ho2) as St2. assert (start_str_off b1 = 0) as B3 by apply S1. pose proof (so_limit _ _ S1) as Hlim. unfold BTF_MAX_STR_OFFSET in Hlim. inversion Hsp; subst; clear Hsp.
  - match goal with H : _ !! s = Some _ |- _ => pose proof (stored_range a set s _ Hok H) as Hr; rename H into Hg end.
    assert (s32 off = off) as Eo by (apply sint_small; lia). rewrite Eo, (proj2 (Z.ltb_ge off 0)) by lia. apply wp_ret, wp_ret. fields. split; [by apply K2|]. exists a. split; [done|]. rewrite B3, Z.add_0_l, Eo. by constructor.
  - change (- ENOENT <? 0) with true. cbn iota. apply wp_failing. intros h3 L3. apply wp_ret. split; [by apply K2|]. exists a. split; [done|by apply spec_find_none].
  - change (- ENOMEM <? 0) with true. cbn iota. apply wp_failing. intros h3 L3. apply wp_ret. split; [by apply K2|]. exists a. split; [done|]. apply spec_find_fail.
    match goal with H : block_full _ _ _ _ |- _ => destruct H as [Hno|Hno] end; [left; eexists; exact Hno|right; lia].
Qed.

Lemma order_does (s : bool) b a h : stands b a → blocks b ≤ live h → does (number (btf__set_endianness b (if s then BTF_BIG_ENDIAN else BTF_LITTLE_ENDIAN))) b a (Order s) h.
Proof.
  intros (S & C & P) Hl. unfold does, number. apply wp_bind.
  assert (∀ b', base_btf b' = base_btf b → start_id b' = start_id b → start_str_off b' = start_str_off b → type_offs b' = type_offs b → type_offs_cap b' = type_offs_cap b →
    nr_types b' = nr_types b → ptr_sz b' = ptr_sz b → swapped_endian b' = s → sound b' (order s a)) as Hs.
  { intros b' E1 E2 E3 E4 E5 E6 E7 E8. destruct S as [S1 [] S3 S4 S5 S6 S7 S8]. split; rewrite ?E1, ?E2, ?E3, ?E7, ?E8; try done. split; by rewrite ?E4, ?E5, ?E6. }
  assert (∀ b', raw_data b' = raw_data b → hdr b' = hdr b → types_data b' = types_data b → types_data_cap b' = types_data_cap b → strs b' = strs b →
    whole v f b' (order s a) ∨ ∃ more, apart v f b' (order s a) more) as Hp.
  { intros b' E1 E2 E3 E4 E5. destruct P as [[W1 W2 W3 W4]|[more [A1 A2 A3 A4]]]; [left|right; exists more]; split; rewrite ?E1, ?E2, ?E3, ?E4, ?E5; done. }
  unfold btf__set_endianness. destruct s; cbn [Z.eqb negb andb BTF_BIG_ENDIAN BTF_LITTLE_ENDIAN]; fields.
  - apply wp_ret, wp_ret. split; [unfold keeps, blocks, btf_is_modifiable; fields; lia|]. exists (order true a). split; [|constructor]. split; [by apply Hs|]. split; [done|by apply Hp].
  - apply wp_bind, wp_free; [pose proof (blocks_pos b); lia|]. intros h' L. apply wp_ret, wp_ret. split.
    + unfold keeps, blocks. fields. cbn [one]. unfold btf_is_modifiable. fields. lia.
    + exists (order false a). split; [|constructor]. split; [by apply Hs|]. split; [|by apply Hp]. split; [apply C|done].
Qed.

(** Writing the data: what is kept is returned, and what is not is put together. *)
Definition kept (e : bool) (b : btf) : option (list Z) := if e then raw_data_swapped b else raw_data b.
Lemma length_img e a : Z.of_nat (length (image e v f (a_types a) (a_bytes a))) = 24 + data_size a.
Proof. unfold image, hdr_in, data_size. rewrite !length_app, !length_section, length_hdr_bytes. lia. Qed.

Lemma get_raw_ok b a e h : stands b a → 24 + data_size a < 2 ^ 32 →
  wp (btf_get_raw_data malloc_ok b e) h (λ r h',
    r = None ∧ live h' = live h ∧ short malloc_ok ∨
    r = Some (image e v f (a_types a) (a_bytes a), 24 + data_size a) ∧ live h' = live h + 1 - one (kept e b)).
Proof.
  intros St Hsz. pose proof (stands_hdr v f Hv Hf b a St) as Eh. pose proof St as (S & [C1 C2] & P). unfold btf_get_raw_data. fold (kept e b). destruct (kept e b) as [d|] eqn:Ek.
  - apply wp_ret. right. cbn [one]. split; [|lia]. destruct e; cbn [kept] in Ek; [destruct (C2 d Ek) as [-> ->]|destruct (C1 d Ek) as [-> ->]]; by rewrite length_img.
  - apply wp_bind, (wp_lift _ _ _ _ Eh), wp_bind, wp_malloc_no; [intros h1 L1 Hn; apply wp_ret; left; by split_and!|]. intros h1 L1. cbn [negb].
    change (u32 (hdr_len _ + _ + _)) with (u32 (24 + length (section_bytes false (a_types a)) + length (a_bytes a))). unfold data_size in *. rewrite wrap_small by (unfold is_word; lia).
    pose proof (so_limit _ _ S) as Hlim. unfold BTF_MAX_STR_OFFSET in Hlim.
    assert (serialize b (24 + length (section_bytes false (a_types a)) + length (a_bytes a)) e = Some (Some (image e v f (a_types a) (a_bytes a)))) as Es.
    { destruct P as [W|[more A]].
      - destruct (wh_places _ _ _ _ W) as (E1 & E2 & E3). apply serialize_image; try done; [apply S|lia|lia|apply S|by apply W].
      - destruct (ap_strs _ _ _ _ _ A) as (set & Est & Hok & _). pose proof Hok as (_ & _ & _ & _ & (tail & Ed) & _).
        eapply (serialize_parts v f (a_types a) (a_bytes a) Hv Hf); [apply S|lia|lia|done|apply S|..].
        + unfold at_place. by rewrite (ap_hdr _ _ _ _ _ A).
        + cbn [fst snd]. apply (has_range 0 (hdr_bytes _)). exists [], []. by rewrite app_nil_r.
        + unfold at_place. by rewrite (ap_types _ _ _ _ _ A).
        + cbn [fst snd]. apply (has_range 0). by exists [], more.
        + unfold btf_strs_data, strset__data. by rewrite Est, Ed.
        + cbn [fst snd]. apply (has_range 0). by exists [], tail. }
    apply wp_bind, (wp_lift _ _ _ _ Es), wp_ret. right. split; [do 2 f_equal; lia|cbn; lia].
Qed.
Lemma raw_data_ok b a h : stands b a → blocks b ≤ live h → 24 + data_size a < 2 ^ 32 →
  wp (btf__raw_data malloc_ok b) h (λ r h', keeps b h r.2 h' ∧ stands r.2 a ∧
    (r.1 = None ∧ short malloc_ok ∨ r.1 = Some (image_of v f a, Z.of_nat (length (image_of v f a))))).
Proof.
  intros St Hl Hsz. pose proof St as (S & [C1 C2] & P). unfold btf__raw_data. apply wp_bind. rewrite (so_order _ _ S).
  eapply wp_mono; [by apply (get_raw_ok b a)|]. intros r h1 [(-> & L & Hn)|(-> & L)].
  { apply wp_bind. unfold fail, wp. split; [unfold keeps; cbn; lia|]. split; [done|by left]. }
  apply wp_ret. fields. rewrite (so_order _ _ S). split; [|split; [|right; unfold image_of; by rewrite length_img]].
  - unfold keeps, blocks. unfold kept in L. destruct (a_swapped a); fields; unfold btf_is_modifiable; fields; lia.
  - assert (∀ e d, d = image e v f (a_types a) (a_bytes a) → 24 + data_size a = Z.of_nat (length d)) as El by (intros e d ->; by rewrite length_img).
    split; [destruct (a_swapped a) eqn:Ea; apply (sound_ext b); try done; by rewrite (so_order _ _ S)|]. split.
    + destruct (a_swapped a); split; fields; intros d Ed; [destruct (C1 d Ed) as [-> _]|injection Ed as <-|injection Ed as <-|destruct (C2 d Ed) as [-> _]]; (split; [done|by eapply El]).
    + destruct P as [[W1 W2 W3 W4]|[more [A1 A2 A3 A4]]]; [left; destruct (a_swapped a); by split|right; exists more; destruct (a_swapped a); by split].
Qed.
Lemma write_does b a h : stands b a → blocks b ≤ live h → 24 + data_size a < 2 ^ 32 → does (let! (d, b) := btf__raw_data malloc_ok b in pret (Data d, b)) b a Write h.
Proof.
  intros St Hl Hsz. unfold does. apply wp_bind. eapply wp_mono; [by apply (raw_data_ok b a)|]. intros [d b'] h' (K & St' & Hd). apply wp_ret. split; [done|]. exists a. split; [done|].
  cbn [fst snd] in *. destruct Hd as [[-> Hn]| ->]; by constructor.
Qed.

Lemma do_op_ok o b a h : stands b a → blocks b ≤ live h → op_fine o → 24 + data_size a < 2 ^ 32 → vroom a (members_in o) → does (do_op malloc_ok o b) b a o h.
Proof.
  intros St Hl Ho Hsz Hvr. destruct o; cbn [do_op op_fine members_in] in *.
  - by apply add_does.
  - destruct Ho. by apply str_add_does.
  - destruct Ho. by apply str_find_does.
  - by apply write_does.
  - by apply order_does.
Qed.
End calls.

(** ** Sequences *)

Lemma spec_op_grows v f malloc_ok o a r a' n : Forall ty_ok (a_types a) → spec_op v f malloc_ok a o r a' → 0 ≤ n ≤ 65535 → vroom a (n + members_in o) →
  data_size a' ≤ data_size a + cost o ∧ vroom a' n.
Proof.
  intros Hts Hs Hn Hvr. destruct Hs; cbn [cost members_in] in *; rewrite ?Z.add_0_r in Hvr; try (split; [lia|done]).
  - split; [by eapply planned_size|by eapply planned_vroom].
  - pose proof (intern_size s a). unfold data_size, vroom. rewrite intern_types. split; [lia|done].
  - change (data_size (order s a)) with (data_size a). split; [lia|done].
Qed.
Lemma total_nonneg g ops : (∀ o, 0 ≤ g o) → 0 ≤ total_of g ops.
Proof. intros Hg. induction ops as [|o ops IH]; cbn; [lia|]. specialize (Hg o). unfold total_of in IH. lia. Qed.
Lemma cost_nonneg o : 0 ≤ cost o.
Proof. destruct o; cbn [cost]; lia. Qed.
Lemma members_nonneg o : 0 ≤ members_in o.
Proof. destruct o as [o| | | |]; cbn; try lia. destruct (is_member o); lia. Qed.

Lemma run_ok v f malloc_ok ops b a h : is_byte v → is_byte f → stands v f b a → blocks b ≤ live h → Forall op_fine ops →
  24 + data_size a + total_of cost ops < 2 ^ 32 → total_of members_in ops ≤ 65535 → vroom a (total_of members_in ops) →
  wp (run malloc_ok ops b) h (λ r h', keeps b h r.2 h' ∧ ∃ a', spec_run v f malloc_ok a ops r.1 a' ∧ stands v f r.2 a' ∧ data_size a' ≤ data_size a + total_of cost ops).
Proof.
  intros Hv Hf. revert b a h. induction ops as [|o ops IH]; intros b a h St Hl Hops Hsz Hm Hvr; cbn [run].
  { apply wp_ret. split; [unfold keeps; cbn; lia|]. exists a. split; [constructor|]. split; [done|cbn; lia]. }
  apply Forall_cons in Hops as [Ho Hops]. change (total_of cost (o :: ops)) with (cost o + total_of cost ops) in Hsz. change (total_of members_in (o :: ops)) with (members_in o + total_of members_in ops) in *.
  pose proof (total_nonneg cost ops cost_nonneg). pose proof (total_nonneg members_in ops members_nonneg). pose proof (cost_nonneg o). pose proof (members_nonneg o).
  apply wp_bind. eapply wp_mono; [apply (do_op_ok v f Hv Hf malloc_ok o b a); [done..|lia|]|].
  { intros t Ht Hk. specialize (Hvr t Ht Hk). lia. }
  intros [r b1] h1 (K & a1 & St1 & Hs). cbn [fst snd] in *.
  destruct (spec_op_grows v f malloc_ok o a r a1 (total_of members_in ops)) as [Hd Hvr1]; [apply St|done|lia|by rewrite Z.add_comm|].
  apply wp_bind. eapply wp_mono; [apply (IH b1 a1); [done|by eapply keeps_live|done|lia|lia|done]|]. intros [rs b2] h2 (K2 & a2 & Hs2 & St2 & Hd2). cbn [fst snd] in *.
  apply wp_ret. cbn [fst snd]. split; [by eapply keeps_trans|]. exists a2. split; [by econstructor|]. split; [done|]. change (total_of cost (o :: ops)) with (cost o + total_of cost ops). lia.
Qed.

(** Where sequences start: a new object, or one that was read. *)
Definition empty_info : tinfo := mk_tinfo [] [0] {[ [] := 0 ]} false.

Lemma new_empty_ok malloc_ok h : 0 ≤ live h →
  wp (btf__new_empty malloc_ok) h (λ r h', r = None ∧ live h' = live h ∧ short malloc_ok ∨
    ∃ b, r = Some b ∧ live h' = live h + blocks b ∧ stands 1 0 b empty_info).
Proof.
  intros Hl. unfold btf__new_empty, btf_new_empty. apply wp_bind, wp_bind, wp_malloc_no.
  { intros h1 L1 Hn. apply wp_ret. left. by split_and!. }
  intros h1 L1. apply wp_bind. eapply wp_lift; [done|]. apply wp_bind, wp_malloc_no.
  { intros h2 L2 Hn. apply wp_bind, wp_free; [lia|]. intros h3 L3. apply wp_ret. left. change (one (Some ())) with 1 in L3. split_and!; [done|cbn [live]; lia|done]. }
  intros h2 L2. apply wp_bind. eapply wp_lift; [done|]. apply wp_ret, wp_ret. right. eexists. split; [done|]. split; [match goal with |- _ = _ + ?n => change n with 2 end; lia|].
  split; [split|split; [split|left; split]]; try done.
  - split; try done. intros i Hi. cbn in Hi. lia.
  - split; [by apply Forall_singleton|done].
  - cbn. members.
  - intros d [= <-]. done.
  - exists [[]]. split; [|done]. apply Forall_singleton, not_elem_of_nil.
Qed.

Lemma offsets_stored l pre g : Forall nul_free l → stored pre g → stored (pre ++ flat l) (offsets (length pre) l g).
Proof.
  revert pre g. induction l as [|s l IH]; intros pre g Hl Hg; cbn [offsets]; [by rewrite app_nil_r|]. apply Forall_cons in Hl as [Hs Hl].
  replace (pre ++ flat (s :: l)) with ((pre ++ s ++ [0]) ++ flat l) by (rewrite flat_cons, <- !(assoc_L (++)); done).
  replace (length pre + length s + 1) with (Z.of_nat (length (pre ++ s ++ [0]))) by (rewrite !length_app; cbn; lia).
  apply IH; [done|]. destruct (g !! s); [by apply stored_app|by apply stored_insert].
Qed.
Lemma offsets_size off l g : size (offsets off l g) ≤ size g + length (flat l).
Proof.
  revert off g. induction l as [|s l IH]; intros off g; cbn [offsets]; [lia|]. rewrite flat_cons, length_app. cbn [length].
  specialize (IH (off + length s + 1) (match g !! s with Some _ => g | None => <[s := off]> g end)).
  assert (size (match g !! s with Some _ => g | None => <[s := off]> g end) ≤ size g + 1) as H1 by (destruct (g !! s) eqn:E; [lia|rewrite map_size_insert_None by done; lia]). lia.
Qed.
Lemma stands_stored v f b a : stands v f b a → stored (a_bytes a) (a_strs a).
Proof.
  intros (_ & _ & [W|[more A]]).
  - destruct (wh_strs _ _ _ _ W) as (l & Hl & -> & ->). apply (offsets_stored l [] ∅ Hl). intros s off E. by rewrite lookup_empty in E.
  - destruct (ap_strs _ _ _ _ _ A) as (set & _ & Hok & _). apply Hok.
Qed.

(** Every string is found at its offset, wherever the strings are kept. *)
Lemma cstr_nul_free s post : nul_free s → cstr (s ++ 0 :: post) = Some s.
Proof.
  induction s as [|c s IH]; intros Hs; [done|]. unfold nul_free in *. rewrite not_elem_of_cons in Hs. destruct Hs as [Hc Hs]. cbn.
  rewrite (proj2 (Z.eqb_neq c 0)) by congruence. by rewrite (IH Hs).
Qed.
Lemma stands_name v f b a g s off : is_byte v → is_byte f → stands v f b a → stored (a_bytes a) g → g !! s = Some off → name_at b off = Some (Some s).
Proof.
  intros Hv Hf St Hg E. pose proof (stands_hdr v f Hv Hf b a St) as Eh. destruct (Hg s off E) as (Hs & pre & post & Eb & ->). destruct St as (S & _ & P). destruct (so_ids _ _ S) as (_ & _ & E0).
  unfold name_at, btf__name_by_offset. rewrite str_by_offset_eq, E0, (proj2 (Z.ltb_ge _ _)), Eh, Z.sub_0_r by lia. cbn [mbind option_bind].
  change (str_len (hdr_for _ _ _ _)) with (Z.of_nat (length (a_bytes a))). rewrite (proj2 (Z.ltb_lt _ _)) by (rewrite Eb, !length_app; cbn; lia).
  assert (∃ before behind, btf_strs_data b = Some (before ++ a_bytes a ++ behind, Z.of_nat (length before))) as (before & behind & ->).
  { unfold btf_strs_data. destruct P as [W|[more A]].
    - destruct (wh_places _ _ _ _ W) as (_ & _ & ->). rewrite (wh_raw _ _ _ _ W). exists (hdr_bytes (hdr_for v f (a_types a) (a_bytes a)) ++ section_bytes false (a_types a)), [].
      cbn [mbind option_bind]. rewrite app_nil_r, <- (assoc_L (++)), length_app. change (length (hdr_bytes _)) with 24%nat. do 2 f_equal. lia.
    - destruct (ap_strs _ _ _ _ _ A) as (set & -> & Hok & _). destruct Hok as (_ & _ & _ & _ & (tail & Hd) & _). exists [], tail. unfold strset__data. by rewrite Hd. }
  cbn [mbind option_bind]. unfold read_str. rewrite (proj2 (Z.leb_le _ _)) by lia. rewrite Eb.
  replace (Z.to_nat (length before + length pre)) with (length (before ++ pre)) by (rewrite length_app; lia).
  replace (before ++ (pre ++ s ++ 0 :: post) ++ behind) with ((before ++ pre) ++ s ++ 0 :: post ++ behind) by (by rewrite <- !(assoc_L (++))).
  rewrite drop_app_length. by rewrite cstr_nul_free.
Qed.

(** An object that was read can be modified like one that was built. *)
Lemma read_stands v f ts strs e b : bytes_ok strs → head strs = Some 0 → last strs = Some 0 → length strs ≤ BTF_MAX_STR_OFFSET →
  24 + length (section_bytes false ts) + length strs < 2 ^ 32 → Forall ty_ok ts →
  reads_as None (image e v f ts strs) e (hdr_for v f ts strs) ts b → raw_data b = Some (image false v f ts strs) → ∃ g, stands v f b (mk_tinfo ts strs g e).
Proof.
  intros Hb Hh Hla Hlim Hsz Hts R Er. destruct (split_strs strs Hla) as (l & Hnul & El). exists (offsets 0 l ∅).
  destruct (ra_rest _ _ _ _ _ _ R) as (E1 & _ & E2). destruct (ra_places _ _ _ _ _ _ R) as (P1 & P2 & P3). pose proof (ra_strs _ _ _ _ _ _ R) as [= Es].
  split; [split|split; [split|left; split]]; cbn [a_types a_bytes a_strs a_swapped]; try done.
  - split_and!; [apply R|apply R|done].
  - apply R.
  - pose proof (offsets_size 0 l ∅) as H0. rewrite map_size_empty, <- El in H0. lia.
  - rewrite E2. members.
  - apply R.
  - rewrite Er. intros d [= <-]. split; [done|]. rewrite (ra_size _ _ _ _ _ _ R). unfold image, hdr_in. rewrite !length_app, !length_section, !length_hdr_bytes. done.
  - rewrite E1. done.
  - by exists l.
Qed.

(** ** What is built *)

(** A new object, and calls on it: their results and the object at the end. *)
Definition build (malloc_ok : nat → bool) (ops : list btf_op) : prog heap (option (list btf_res * btf)) :=
  let! p := btf__new_empty malloc_ok in
  match p with None => pret None | Some b => let! (rs, b) := run malloc_ok ops b in pret (Some (rs, b)) end.
(** The data of an object is written, and read into a second one. *)
Definition copy_of (malloc_ok : nat → bool) (b : btf) : prog heap (btf * option btf) :=
  let! (d, b) := btf__raw_data malloc_ok b in
  match d with
  | None => pret (b, None)
  | Some (d, _) => let! b' := btf__new malloc_ok d in pret (b, b')
  end.

Lemma build_ok malloc_ok ops h : 0 ≤ live h → Forall op_fine ops → 25 + total_of cost ops < 2 ^ 32 → total_of members_in ops ≤ 65535 →
  wp (build malloc_ok ops) h (λ r h',
    match r with
    | None => short malloc_ok ∧ live h' = live h
    | Some (rs, b) => ∃ a, spec_run 1 0 malloc_ok empty_info ops rs a ∧ stands 1 0 b a ∧ live h' = live h + blocks b ∧ 24 + data_size a < 2 ^ 32
    end).
Proof.
  intros Hl Hops Hsz Hm. unfold build. apply wp_bind. eapply wp_mono; [by apply new_empty_ok|]. intros r h1 [(-> & L & Hn)|(b & -> & L & St)]; [by apply wp_ret|].
  apply wp_bind. eapply wp_mono; [apply (run_ok 1 0 malloc_ok ops b empty_info h1); try done; lia|].
  intros [rs b'] h2 (K & a & Hs & St' & Hd). apply wp_ret. exists a. change (data_size empty_info) with 1 in Hd. unfold keeps in K. cbn [fst snd] in *.
  split_and!; [done|done|lia|lia].
Qed.

Lemma copy_ok v f malloc_ok b a h : (∀ n, malloc_ok n = true) → is_byte v → is_byte f → stands v f b a → blocks b ≤ live h → 24 + data_size a < 2 ^ 32 →
  wp (copy_of malloc_ok b) h (λ r _, ∃ b', r.2 = Some b' ∧ models b' (a_types a) ∧
    (∀ s off, a_strs a !! s = Some off → name_at b' off = Some (Some s)) ∧ ∃ g, stands v f b' (mk_tinfo (a_types a) (a_bytes a) g (a_swapped a))).
Proof.
  intros Hok Hv Hf St Hl Hd. unfold copy_of. apply wp_bind. eapply wp_mono; [by apply (raw_data_ok v f Hv Hf malloc_ok b a)|].
  intros [d b1] h1 (K & St1 & [[_ [n E]]|E]); cbn [fst snd] in *; [by rewrite Hok in E|]. subst d. apply wp_bind. unfold btf__new. apply wp_bind.
  destruct St as (S & _). destruct (so_bytes _ _ S) as (Hb & Hh & Hla). pose proof (so_limit _ _ S) as Hlim. pose proof (so_types _ _ S) as Hts. unfold data_size in Hd.
  eapply wp_mono; [apply (read_image v f (a_types a) (a_bytes a)); try done; unfold BTF_MAX_STR_OFFSET in Hlim; [lia|lia|]|].
  { unfold keeps in K. pose proof (blocks_pos b). pose proof (blocks_pos b1). lia. }
  intros r h2 (b' & -> & L & R & Er). apply wp_ret, wp_ret. exists b'. split; [done|].
  destruct (read_stands v f (a_types a) (a_bytes a) (a_swapped a) b') as [g St']; try done; [lia|].
  split; [by apply (stands_models v f Hv Hf b' _ St')|]. split; [|by exists g].
  intros s off Es. eapply (stands_name v f b' _ (a_strs a)); [done..| |done]. exact (stands_stored v f b1 a St1).
Qed.

(** C28: type information that is built from nothing by any calls of the functions that
    add types, elements of types and strings, look strings up, choose the byte order
    and write the data is what the same calls make of a list of types and a
    dictionary of strings: every call returns the same number or data, a call that
    fails for lack of memory leaves the types as they were, what is written is the
    image of the types and strings at the time, and every block is accounted for.
    Names are C strings, arguments are in the range of their C types, and there are
    fewer than 2^32 bytes and at most 65535 elements. *)
Theorem building_refines malloc_ok ops h : 0 ≤ live h → Forall op_fine ops → 25 + total_of cost ops < 2 ^ 32 → total_of members_in ops ≤ 65535 →
  wp (build malloc_ok ops) h (λ r h',
    match r with
    | None => short malloc_ok ∧ live h' = live h
    | Some (rs, b) => ∃ a, spec_run 1 0 malloc_ok empty_info ops rs a ∧ stands 1 0 b a ∧ live h' = live h + blocks b
    end).
Proof.
  intros Hl Hops Hsz Hm. eapply wp_mono; [by apply build_ok|]. intros [[rs b]|] h'; [|done]. intros (a & ? & ? & ? & _). by exists a.
Qed.

(** C29: what was built is read back: when memory does not run out, the data of an
    object that was built by any calls is accepted, and the object that is read from it has the
    types of the first one under the same identifiers, gives every string that
    was added at its offset, and can be modified in turn. *)
Theorem built_reads_back malloc_ok ops h : (∀ n, malloc_ok n = true) → 0 ≤ live h → Forall op_fine ops → 25 + total_of cost ops < 2 ^ 32 → total_of members_in ops ≤ 65535 →
  wp (let! r := build malloc_ok ops in match r with None => pret None | Some (rs, b) => let! r := copy_of malloc_ok b in pret (Some (rs, r.2)) end) h (λ r _,
    ∃ rs a b, r = Some (rs, Some b) ∧ spec_run 1 0 malloc_ok empty_info ops rs a ∧ models b (a_types a) ∧
      (∀ s off, a_strs a !! s = Some off → name_at b off = Some (Some s)) ∧ ∃ g, stands 1 0 b (mk_tinfo (a_types a) (a_bytes a) g (a_swapped a))).
Proof.
  intros Hok Hl Hops Hsz Hm. assert (¬ short malloc_ok) as Hns by (intros [n E]; by rewrite Hok in E).
  apply wp_bind. eapply wp_mono; [by apply build_ok|]. intros [[rs b]|] h1; [|by intros []]. intros (a & Hs & St & L & Hd).
  apply wp_bind. eapply wp_mono; [by apply (copy_ok 1 0 malloc_ok b a); try done; lia|]. intros [b1 r] h2 (b' & E & Hm' & Hn & Hg). cbn [snd] in E. subst r.
  apply wp_ret. by exists rs, a, b'.
Qed.

(** ** Examples *)

Definition nm (s : string) : option (list Z) := Some (bytes_of s).
(** A number and a structure of two of them; the last field is refused, since the
    pointer is the last type by then. *)
Definition demo_ops : list btf_op :=
  [Add (AddInt (nm "int") 4 1); Add (AddStruct (nm "pair") 8); Add (AddField (nm "a") 1 0 0); Add (AddField (nm "b") 1 32 0); Write;
   Add (AddPtr 2); StrAdd (bytes_of "a"); StrFind (bytes_of "c"); Add (AddField (nm "c") 1 0 0); Order true; Write].
Definition demo_built (swapped : bool) (ptr : list ty) : list Z :=
  image swapped 1 0 ([[1; 0x01000000; 4; 0x01000020]; [5; 0x04000002; 8; 10; 1; 0; 12; 1; 32]] ++ ptr) (0 :: bytes_of "int" ++ 0 :: bytes_of "pair" ++ 0 :: bytes_of "a" ++ 0 :: bytes_of "b" ++ [0]).
Example demo_results : (r ← build (λ _, true) demo_ops (mk_heap 0 0 0); fst <$> r.1) =
  Some [Num 1; Num 2; Num 0; Num 0; Data (Some (demo_built false [], 90)); Num 3; Num 10; Num (- ENOENT); Num (- EINVAL); Num 0;
        Data (Some (demo_built true [[0; 0x02000000; 2]], 102))].
Proof. vm_compute. reflexivity. Qed.
Lemma demo_fine : Forall op_fine demo_ops.
Proof.
  assert (∀ s, bool_decide (0 ∉ s) && bool_decide (bytes_ok s) && (length s <? 100) = true → str_ok s ∧ bytes_ok s) as Hs.
  { intros s E. apply andb_true_iff in E as [E E3]. apply andb_true_iff in E as [E1%bool_decide_eq_true E2%bool_decide_eq_true]. apply Z.ltb_lt in E3.
    split; [split; [done|unfold PTRDIFF_MAX; lia]|done]. }
  repeat (apply Forall_cons; split; [|]); [..|apply Forall_nil, I]; cbn [op_fine args_fine]; unfold name_fine; split_and?; try lia; try exact I; apply Hs; vm_compute; reflexivity.
Qed.

Lemma building_refines_witness :
  wp (build (λ n, Nat.ltb n 40) demo_ops) (mk_heap 0 0 0) (λ r h',
    match r with
    | None => short (λ n, Nat.ltb n 40) ∧ live h' = 0
    | Some (rs, b) => ∃ a, spec_run 1 0 (λ n, Nat.ltb n 40) empty_info demo_ops rs a ∧ stands 1 0 b a ∧ live h' = 0 + blocks b
    end).
Proof. apply (building_refines (λ n, Nat.ltb n 40) demo_ops (mk_heap 0 0 0)); [done|exact demo_fine|vm_compute; reflexivity|vm_compute; discriminate]. Defined.
Lemma built_reads_back_witness :
  wp (let! r := build (λ _, true) demo_ops in match r with None => pret None | Some (rs, b) => let! r := copy_of (λ _, true) b in pret (Some (rs, r.2)) end) (mk_heap 0 0 0) (λ r _,
    ∃ rs a b, r = Some (rs, Some b) ∧ spec_run 1 0 (λ _, true) empty_info demo_ops rs a ∧ models b (a_types a) ∧
      (∀ s off, a_strs a !! s = Some off → name_at b off = Some (Some s)) ∧ ∃ g, stands 1 0 b (mk_tinfo (a_types a) (a_bytes a) g (a_swapped a))).
Proof. apply (built_reads_back (λ _, true) demo_ops (mk_heap 0 0 0)); [done|done|exact demo_fine|vm_compute; reflexivity|vm_compute; discriminate]. Defined.

(** ** Where the code goes wrong *)

(** The count of elements has 16 bits and is not checked: with one more than 65535, it
    is nought again. *)
Theorem inc_vlen_wraps t : btf_vlen t = 65535 → btf_vlen (btf_type_inc_vlen t) = 0.
Proof.
  intros E. unfold btf_vlen at 1, btf_type_inc_vlen, btf_type_info. rewrite E. cbn [info]. pose proof (kind_no_range t).
  rewrite (Z.shiftl_mul_pow2 (kind_no t)), (lor_add_disjoint (Z.b2z (btf_kflag t))) by lia.
  replace (Z.b2z (btf_kflag t) * 2 ^ 31 + kind_no t * 2 ^ 24) with (Z.shiftl (Z.b2z (btf_kflag t) * 2 ^ 7 + kind_no t) 24) by (rewrite Z.shiftl_mul_pow2 by lia; lia).
  rewrite lor_add_disjoint by lia. change 0xffff with (Z.ones 16). rewrite Z.land_ones by lia. unfold wrap. change (Z.ones 16 + 1) with 65536. destruct (btf_kflag t); cbn [Z.b2z]; dlia.
Qed.
