(* ===== verification/BtfCopy.v ===== *)
(** * libbpf: copying types from other type information

    [btf.c]: the functions that visit the string offsets and the type identifiers of a
    type, and those that append one type, or all types, of another object.

    A pointer to a type of the destination is an offset in the block of its types.
    The object that types are copied from is not the one they are copied to.  The map
    of string offsets counts as one block. *)

From S2P Require Import Prelude Errno Bytes Hashmap Strset Heap Btf BtfAdd.
Local Open Scope Z_scope.

Definition btf_dedup_identity_hash_fn (key : Z) : Z := u64 key.
Definition btf_dedup_equal_fn (k1 k2 : Z) : bool := k1 =? k2.

(** ** Visiting the fields of a type *)

Section visit.
Context {S : Type} (block : S → option (list Z)) (visit : Z → S → prog heap (Z * S)).

(** Fields at some addresses, up to the first error. *)
Fixpoint visit_each (fields : list Z) (s : S) : prog heap (Z * S) :=
  match fields with
  | [] => pret (0, s)
  | o :: fields => let! (err, s) := visit o s in if negb (err =? 0) then pret (err, s) else visit_each fields s
  end.
(** The same field of [n] elements of [size] bytes, the first one at [o]. *)
Definition elements (o size : Z) (n : Z) : list Z := (λ i : nat, o + i * size) <$> seq 0 (Z.to_nat n).

Definition btf_type_visit_type_ids (o : Z) (s : S) : prog heap (Z * S) :=
  let! t := lift (m ← block s; load_type o m) in
  match btf_kind t with
  | Some (BTF_KIND_INT | BTF_KIND_FLOAT | BTF_KIND_ENUM | BTF_KIND_ENUM64) => pret (0, s)
  | Some (BTF_KIND_FWD | BTF_KIND_CONST | BTF_KIND_VOLATILE | BTF_KIND_RESTRICT | BTF_KIND_PTR | BTF_KIND_TYPEDEF
         | BTF_KIND_FUNC | BTF_KIND_VAR | BTF_KIND_DECL_TAG | BTF_KIND_TYPE_TAG) => visit (o + 8) s
  | Some BTF_KIND_ARRAY => visit_each [o + sizeof_type; o + sizeof_type + 4] s
  | Some (BTF_KIND_STRUCT | BTF_KIND_UNION) => visit_each (elements (o + sizeof_type + 4) 12 (btf_vlen t)) s
  | Some BTF_KIND_FUNC_PROTO => visit_each (o + 8 :: elements (o + sizeof_type + 4) 8 (btf_vlen t)) s
  | Some BTF_KIND_DATASEC => visit_each (elements (o + sizeof_type) 12 (btf_vlen t)) s
  | Some BTF_KIND_UNKN | None => pret (- EINVAL, s)
  end.

Definition btf_type_visit_str_offs (o : Z) (s : S) : prog heap (Z * S) :=
  let! (err, s) := visit o s in
  if negb (err =? 0) then pret (err, s)
  else
  let! t := lift (m ← block s; load_type o m) in
  match btf_kind t with
  | Some (BTF_KIND_STRUCT | BTF_KIND_UNION) => visit_each (elements (o + sizeof_type) 12 (btf_vlen t)) s
  | Some BTF_KIND_ENUM => visit_each (elements (o + sizeof_type) 8 (btf_vlen t)) s
  | Some BTF_KIND_ENUM64 => visit_each (elements (o + sizeof_type) 12 (btf_vlen t)) s
  | Some BTF_KIND_FUNC_PROTO => visit_each (elements (o + sizeof_type) 8 (btf_vlen t)) s
  | _ => pret (0, s)
  end.
End visit.

(** ** Rewriting what is visited *)

Record btf_pipe := mk_pipe { p_src : btf; p_dst : btf; str_off_map : option hashmap.t }.
Definition with_dst (b : btf) (p : btf_pipe) : btf_pipe := mk_pipe (p_src p) b (str_off_map p).
Definition with_map (m : hashmap.t) (p : btf_pipe) : btf_pipe := mk_pipe (p_src p) (p_dst p) (Some m).

(** [memcpy] to an offset of the block of the types. *)
Definition put_types (o : Z) (d : list Z) (b : btf) : option btf :=
  '(p, raw) ← put_bytes (types_data b) o d (raw_data b);
  Some (with_raw raw (with_types p (types_data_cap b) b)).

Section memory.
Context (malloc_ok : nat → bool).

Definition map_append (k v : Z) (m : hashmap.t) : prog heap (Z * hashmap.t) := λ h,
  '(r, m) ← hashmap_insert btf_dedup_identity_hash_fn btf_dedup_equal_fn m k v HASHMAP_APPEND (malloc_ok (asked h)) (malloc_ok (S (asked h)));
  Some ((ret r, m), mk_heap (2 + asked h) (live h) (l_errno h)).

(** [btf__str_by_offset] gives a null pointer for an offset behind the strings, which
    [btf__add_str] reads through. *)
Definition btf_rewrite_str (o : Z) (p : btf_pipe) : prog heap (Z * btf_pipe) :=
  let! str_off := lift (m ← types_block (p_dst p); load 4 o m) in
  if str_off =? 0 then pret (0, p)
  else
  let! mapped := lift (match str_off_map p with
                       | None => Some None
                       | Some m => hashmap_find btf_dedup_identity_hash_fn btf_dedup_equal_fn m str_off
                       end) in
  match mapped with
  | Some mapped_off => let! b := lift (put_words o [mapped_off] (p_dst p)) in pret (0, with_dst b p)
  | None =>
    let! s := lift (name_at (p_src p) str_off ≫= id) in
    let! (off, b) := btf__add_str malloc_ok (p_dst p) s in
    let p := with_dst b p in
    if off <? 0 then pret (off, p)
    else
    let! (err, p) := (match str_off_map p with
                      | None => pret (0, p)
                      | Some m => let! (err, m) := map_append str_off off m in pret (err, with_map m p)
                      end) in
    if negb (err =? 0) then pret (err, p)
    else let! b := lift (put_words o [off] (p_dst p)) in pret (0, with_dst b p)
  end.

Definition btf_rewrite_type_ids (o : Z) (b : btf) : prog heap (Z * btf) :=
  let! type_id := lift (m ← types_block b; load 4 o m) in
  if type_id =? 0 then pret (0, b)
  else let! b := lift (put_words o [u32 (type_id + (start_id b + nr_types b - 1))] b) in pret (0, b).

Definition pipe_block (p : btf_pipe) : option (list Z) := types_block (p_dst p).
(** The identifiers of the destination are visited in the object of the pipe. *)
Definition ids_of_pipe (o : Z) (p : btf_pipe) : prog heap (Z * btf_pipe) :=
  let! (err, b) := btf_type_visit_type_ids types_block btf_rewrite_type_ids o (p_dst p) in pret (err, with_dst b p).

(** ** One type *)

Definition btf__add_type (b src_btf : btf) (src_type : type_ptr) : prog heap (Z * btf) :=
  let! t := lift (deref_type src_type) in
  let sz := btf_type_size t in
  if sz <? 0 then failing sz b
  else
  let! (err, b) := btf_ensure_modifiable malloc_ok b in
  if negb (err =? 0) then failing (- ENOMEM) b
  else
  let! (t, b) := btf_add_type_mem malloc_ok b sz in
  match t with
  | None => failing (- ENOMEM) b
  | Some t =>
    let! d := lift (match src_type with VoidPtr => None | TypeAt m o => range o sz m end) in
    let! b := lift (put_types t d b) in
    let! (err, p) := btf_type_visit_str_offs pipe_block btf_rewrite_str t (mk_pipe src_btf b None) in
    if negb (err =? 0) then failing err (p_dst p) else btf_commit_type malloc_ok (p_dst p) sz
  end.

(** ** All types *)

(** Room for [add_cnt] more entries of the index: [false] for a null pointer. *)
Definition btf_add_type_offs_mem (b : btf) (add_cnt : Z) : prog heap (bool * btf) := λ h,
  match libbpf_add_mem (default [] (type_offs b)) (type_offs_cap b) 4 (nr_types b) BTF_MAX_NR_TYPES add_cnt (malloc_ok (asked h)) with
  | None => Some ((false, b), mk_heap (S (asked h)) (live h) (l_errno h))
  | Some (offs, cap) =>
    if bool_decide (type_offs b = None) && (cap =? 0) then Some ((false, b), mk_heap (S (asked h)) (live h) (l_errno h))
    else Some ((true, with_offs (Some offs) cap (nr_types b) b), mk_heap (S (asked h)) (live h + 1 - one (type_offs b)) (l_errno h))
  end.
(** [*off = v], the entry at [i]. *)
Definition put_off (i v : Z) (b : btf) : option btf :=
  offs ← type_offs b;
  if (0 <=? i) && (i <? length offs) then Some (with_offs (Some (<[Z.to_nat i := v]> offs)) (type_offs_cap b) (nr_types b) b) else None.

(** The loop over the copied types: [cnt] more, at [t], with the entry [off] of the index. *)
Fixpoint copy_loop (cnt : nat) (t off : Z) (p : btf_pipe) : prog heap (Z * btf_pipe) :=
  match cnt with
  | O => pret (0, p)
  | S cnt =>
    let! ty := lift (m ← pipe_block p; load_type t m) in
    let sz := btf_type_size ty in
    if sz <? 0 then pret (sz, p)
    else
    let! b := lift (put_off off (u32 t) (p_dst p)) in
    let! (err, p) := btf_type_visit_str_offs pipe_block btf_rewrite_str t (with_dst b p) in
    if negb (err =? 0) then pret (err, p)
    else
    let! (err, p) := ids_of_pipe t p in
    if negb (err =? 0) then pret (err, p) else copy_loop cnt (t + sz) (off + 1) p
  end.

(** The way out after an error.  The strings are in a set by now and [strs_data] is a null
    pointer: clearing any bytes behind it is a fault. *)
Definition copy_undo (err data_sz old_strs_len : Z) (b : btf) : prog heap (Z * btf) :=
  let! h := lift (hdr_of b) in
  let! b := lift (put_types (type_len h) (replicate (Z.to_nat data_sz) 0) b) in
  let! b := lift (match strs b with
                  | StrsSet _ => if str_len h =? old_strs_len then Some b else None
                  | StrsRaw _ => None
                  end) in
  let! b := lift (put_hdr (set_str_len (u32 old_strs_len)) b) in
  free (Some ()) ;;; failing err b.

Definition btf__add_btf (b src_btf : btf) : prog heap (Z * btf) :=
  if bool_decide (is_Some (base_btf src_btf)) then failing (- ENOTSUP) b
  else
  let! (err, b) := btf_ensure_modifiable malloc_ok b in
  if negb (err =? 0) then failing (- ENOMEM) b
  else
  let! h := lift (hdr_of b) in
  let! src := lift (hdr_of src_btf) in
  let old_strs_len := s32 (str_len h) in
  let data_sz := s32 (type_len src) in
  let cnt := s32 (btf__type_cnt src_btf - 1) in
  let! (t, b) := btf_add_type_mem malloc_ok b (u64 data_sz) in
  match t with
  | None => failing (- ENOMEM) b
  | Some t =>
    let! (off, b) := btf_add_type_offs_mem b (u64 cnt) in
    if negb off then failing (- ENOMEM) b
    else
    let! ok := malloc malloc_ok in
    match hashmap__new ok with
    | Ptr map =>
      let! (m, o) := lift (at_place src_btf (types_data src_btf)) in
      let! d := lift (range o (u64 data_sz) m) in
      let! b := lift (put_types t d b) in
      let! (err, p) := copy_loop (Z.to_nat cnt) t (nr_types b) (mk_pipe src_btf b (Some map)) in
      let b := p_dst p in
      if negb (err =? 0) then copy_undo err data_sz old_strs_len b
      else
      let! b := lift (grow_types data_sz b) in
      let b := with_offs (type_offs b) (type_offs_cap b) (nr_types b + cnt) b in
      free (Some ()) ;;; pret (s32 (start_id b + nr_types b - cnt), b)
    | _ => failing (- ENOMEM) b
    end
  end.
End memory.
