(* ===== verification/BtfCopied.v ===== *)
(** * libbpf: what copying types does

    Every type that is copied from another object is the same type over there, up to
    the offsets of its names, which lead to the same strings, and the identifiers it
    refers to, which are moved behind the types that were there before. *)

From S2P Require Import Prelude Errno Bytes Hashmap Strset Heap Btf BtfSpec BtfTypes BtfRaw BtfAdd BtfBuild BtfOps BtfRun BtfCopy.
Local Open Scope Z_scope.

#[export] Instance dedup_keys : KeyClass btf_dedup_identity_hash_fn btf_dedup_equal_fn (λ k, k).
Proof. split; [|by intros ? ? ->]. intros k1 k2. unfold btf_dedup_equal_fn. apply Z.eqb_eq. Qed.

(** ** Which words of a type are names and identifiers *)

Definition members (first step : nat) (t : btf_type) : list nat := (λ i, first + step * i)%nat <$> seq 0 (Z.to_nat (btf_vlen t)).
Definition member_names (t : btf_type) : list nat :=
  match btf_kind t with
  | Some (BTF_KIND_STRUCT | BTF_KIND_UNION | BTF_KIND_ENUM64) => members 3 3 t
  | Some (BTF_KIND_ENUM | BTF_KIND_FUNC_PROTO) => members 3 2 t
  | _ => []
  end.
Definition names_of (t : btf_type) : list nat := 0%nat :: member_names t.
Definition ids_of (t : btf_type) : list nat :=
  match btf_kind t with
  | Some (BTF_KIND_FWD | BTF_KIND_CONST | BTF_KIND_VOLATILE | BTF_KIND_RESTRICT | BTF_KIND_PTR | BTF_KIND_TYPEDEF
         | BTF_KIND_FUNC | BTF_KIND_VAR | BTF_KIND_DECL_TAG | BTF_KIND_TYPE_TAG) => [2%nat]
  | Some BTF_KIND_ARRAY => [3%nat; 4%nat]
  | Some (BTF_KIND_STRUCT | BTF_KIND_UNION) => members 4 3 t
  | Some BTF_KIND_FUNC_PROTO => 2%nat :: members 4 2 t
  | Some BTF_KIND_DATASEC => members 3 3 t
  | _ => []
  end.

Lemma elem_of_members j first step t : j ∈ members first step t ↔ ∃ i : nat, j = (first + step * i)%nat ∧ (i < Z.to_nat (btf_vlen t))%nat.
Proof. unfold members. rewrite list_elem_of_fmap. setoid_rewrite elem_of_seq. split; intros (i & -> & H); exists i; (split; [done|lia]). Qed.
Lemma NoDup_members first step t : (0 < step)%nat → NoDup (members first step t).
Proof. intros Hs. apply NoDup_fmap_2, NoDup_seq. intros x y E. nia. Qed.
Lemma elements_members o (first k : nat) at_ size t : at_ = o + 4 * first → size = 4 * Z.of_nat k → elements at_ size (btf_vlen t) = (λ j : nat, o + 4 * j) <$> members first k t.
Proof. intros -> ->. unfold elements, members. rewrite <- list_fmap_compose. apply list_fmap_ext. intros i x _. cbn. lia. Qed.

Ltac indices := repeat match goal with
  | H : _ ∈ members _ _ _ |- _ => apply elem_of_members in H as (? & ? & ?)
  | H : _ ∈ _ :: _ |- _ => apply elem_of_cons in H as [?|H]
  | H : _ ∈ [] |- _ => by apply elem_of_nil in H
  end.
Lemma names_NoDup t : NoDup (names_of t).
Proof.
  unfold names_of, member_names. apply NoDup_cons. split.
  - intros H. destruct (btf_kind t) as [[]|]; indices; lia.
  - destruct (btf_kind t) as [[]|]; try apply NoDup_nil_2; apply NoDup_members; lia.
Qed.
Lemma ids_NoDup t : NoDup (ids_of t).
Proof.
  unfold ids_of. destruct (btf_kind t) as [[]|]; try apply NoDup_nil_2; try apply NoDup_singleton; try (apply NoDup_members; lia).
  - apply NoDup_cons. split; [by intros ?%list_elem_of_singleton|apply NoDup_singleton].
  - apply NoDup_cons. split; [intros H; indices; lia|apply NoDup_members; lia].
Qed.
Lemma names_ids j t : j ∈ names_of t → j ∉ ids_of t.
Proof. unfold names_of, member_names, ids_of. intros H1 H2. destruct (btf_kind t) as [[]|]; indices; lia. Qed.
Lemma not_info t : (1%nat ∉ names_of t) ∧ (1%nat ∉ ids_of t).
Proof. unfold names_of, member_names, ids_of. split; intros H; destruct (btf_kind t) as [[]|]; indices; lia. Qed.
Lemma index_in_type w t j : ty_ok w → ty_head w = Some t → j ∈ names_of t ∨ j ∈ ids_of t → (j < length w)%nat.
Proof.
  intros Hw Ht Hj. destruct (ty_ok_head w Hw) as (t' & rest & _ & Ht' & Hs & _). rewrite Ht in Ht'. injection Ht' as <-. pose proof (ty_ok_length w Hw). pose proof (vlen_nonneg t).
  unfold names_of, member_names, ids_of, btf_type_size, sizeof_type in *. destruct Hj as [Hj|Hj]; destruct (btf_kind t) as [[]|]; indices; lia.
Qed.
(** What a type is does not depend on its other words. *)
Lemma ty_ok_change w w' : ty_ok w → length w' = length w → w' !! 1%nat = w !! 1%nat → Forall (is_word 32) w' → ty_ok w' ∧
  ∀ t t', ty_head w = Some t → ty_head w' = Some t' → btf_kind t' = btf_kind t ∧ btf_vlen t' = btf_vlen t.
Proof.
  intros Hw Hl Hi Hw'. destruct (ty_ok_head w Hw) as (t & rest & -> & _ & _ & Hr & Hs). destruct w' as [|n [|i [|s rest']]]; try done. cbn in Hi. injection Hi as ->.
  assert (btf_type_size (mk_type n (info t) s) = btf_type_size t) as Es by done. split.
  - split; [done|]. exists (mk_type n (info t) s), rest'. split; [done|]. apply words_sized. unfold rest_words in *. rewrite Es. split; [done|]. injection Hl as ->. done.
  - intros t1 t2 [= <-] [= <-]. done.
Qed.

(** ** Fields in the room behind the types *)

Section object.
Context (v f : Z) (Hv : is_byte v) (Hf : is_byte f) (malloc_ok : nat → bool).
Abbreviation open := (open v f).
Abbreviation stands := (stands v f).
Abbreviation short := (short malloc_ok).
Abbreviation types_len a := (Z.of_nat (length (section_bytes false (a_types a)))).

Lemma block_open b a more : open b a more → types_block b = Some (section_bytes false (a_types a) ++ more).
Proof. intros (_ & A & _). unfold types_block, at_place. by rewrite (ap_types _ _ _ _ _ A). Qed.
Lemma word_split (w : list Z) j x : w !! j = Some x → words_bytes false w = words_bytes false (take j w) ++ word_bytes false x ++ words_bytes false (drop (S j) w).
Proof. intros E. rewrite <- (take_drop_middle w j x E) at 1. by rewrite words_bytes_app. Qed.

Lemma head_load b a pre w post t : open b a (pre ++ words_bytes false w ++ post) → ty_head w = Some t → Forall (is_word 32) w →
  (m ← types_block b; load_type (types_len a + length pre) m) = Some t.
Proof.
  intros Ho Ht Hw. rewrite (block_open _ _ _ Ho). cbn [mbind option_bind]. destruct w as [|n [|i [|s rest]]]; try done. injection Ht as <-. rewrite (assoc_L (++)).
  apply (load_type_at _ (mk_type n i s)); [rewrite length_app; lia|]. rewrite !Forall_cons in Hw. cbn [name_off info size_type]. rewrite !Forall_cons. by destruct Hw as (? & ? & ? & _).
Qed.
Lemma field_load b a pre w post (j : nat) x : open b a (pre ++ words_bytes false w ++ post) → w !! j = Some x → Forall (is_word 32) w →
  (m ← types_block b; load 4 (types_len a + length pre + 4 * j) m) = Some x.
Proof.
  intros Ho Hj Hw. rewrite (block_open _ _ _ Ho). cbn [mbind option_bind]. pose proof (Forall_lookup_1 _ _ _ _ Hw Hj) as Hx. pose proof (lookup_lt_Some _ _ _ Hj) as Hlt.
  rewrite (word_split w j x Hj), <- !(assoc_L (++)). rewrite !(assoc_L (++) (section_bytes _ _)), (assoc_L (++) (section_bytes false (a_types a) ++ pre)).
  rewrite load_at; [|rewrite !length_app, length_words_bytes, length_take; lia|by rewrite length_word_list]. f_equal. by apply (le_val_word_bytes false).
Qed.
Lemma field_store b a pre w post (j : nat) y : open b a (pre ++ words_bytes false w ++ post) → (j < length w)%nat →
  ∃ b', put_words (types_len a + length pre + 4 * j) [y] b = Some b' ∧ open b' a (pre ++ words_bytes false (<[j := u32 y]> w) ++ post) ∧ type_offs b' = type_offs b.
Proof.
  intros (S & A & E1 & E2) Hj. destruct (lookup_lt_is_Some_2 w j Hj) as [x Hx]. unfold put_words, put_bytes. rewrite (ap_types _ _ _ _ _ A).
  assert (∀ z, section_bytes false (a_types a) ++ pre ++ words_bytes false (<[j := z]> w) ++ post =
    (section_bytes false (a_types a) ++ pre ++ words_bytes false (take j w)) ++ word_bytes false z ++ words_bytes false (drop (Datatypes.S j) w) ++ post) as Hsp.
  { intros z. rewrite (word_split (<[j := z]> w) j z) by (by rewrite list_lookup_insert_eq). rewrite take_insert_ge, drop_insert_lt by lia. by rewrite <- !(assoc_L (++)). }
  pose proof (Hsp x) as Hsx. rewrite (list_insert_id w j x Hx) in Hsx. rewrite Hsx, (store_at _ (word_bytes false x)).
  2:{ rewrite !length_app, length_words_bytes, length_take. lia. }
  2:{ by rewrite length_words32, length_word_list. }
  cbn [mbind option_bind]. eexists. split; [done|]. split; [|done]. assert (words32 [y] = word_bytes false (u32 y)) as Ew by (rewrite words32_bytes; cbn [fmap list_fmap words_bytes]; apply app_nil_r).
  split; [by apply (sound_ext b)|]. split; [|done]. destruct A as [A1 A2 [A3 A3'] A4]. split; try done; fields.
  - f_equal. rewrite Ew. symmetry. apply Hsp.
  - split; [|done]. rewrite A3, !length_app, !length_words_bytes, length_insert. done.
Qed.

(** Adding a string does not move the index. *)
Lemma ensure_offs b h r h' : btf_ensure_modifiable malloc_ok b h = Some (r, h') → type_offs r.2 = type_offs b.
Proof.
  unfold btf_ensure_modifiable, btf_invalidate_raw_data, pbind, pret, lift, pfault, mbind, option_bind. intros E.
  repeat (case_match; simplify_eq); try done; cbn [snd]; fields; repeat case_match; done.
Qed.
Lemma put_hdr_offs F b b' : put_hdr F b = Some b' → type_offs b' = type_offs b.
Proof. unfold put_hdr, mbind, option_bind. intros E. repeat (case_match; simplify_eq); done. Qed.
Lemma add_str_offs b s h r h' : base_btf b = None → btf__add_str malloc_ok b s h = Some (r, h') → type_offs r.2 = type_offs b.
Proof.
  intros Eb. unfold btf__add_str. rewrite Eb. unfold add_own_str, on_set, failing, libbpf_err, pbind, pret, lift. intros E.
  destruct (btf_ensure_modifiable malloc_ok b h) as [[[err b1] h1]|] eqn:E1; [|done]. apply ensure_offs in E1. cbn [snd] in E1. rewrite <- E1.
  destruct (negb (err =? 0)); [by simplify_eq|]. unfold mbind, option_bind in E. repeat (case_match; simplify_eq); try done.
  match goal with H : put_hdr _ _ = Some _ |- _ => apply put_hdr_offs in H end. done.
Qed.
End object.

(** ** The names of the source *)

Definition src_name (src : btf) (x : Z) : list Z := default [] (name_at src x ≫= id).

Lemma first_nul l : last l = Some 0 → ∃ s post, l = s ++ 0 :: post ∧ nul_free s.
Proof.
  intros Hl. destruct (split_strs l Hl) as ([|s strs] & Hs & ->); [done|]. apply Forall_cons in Hs as [Hs _]. exists s, (flat strs). by rewrite flat_cons.
Qed.
Lemma src_name_ok v f src s x : is_byte v → is_byte f → stands v f src s → 0 ≤ x < length (a_bytes s) →
  name_at src x = Some (Some (src_name src x)) ∧ str_ok (src_name src x) ∧ bytes_ok (src_name src x).
Proof.
  intros Hv Hf St Hx. destruct St as (S & HS). destruct (so_bytes _ _ S) as (Hb & _ & Hl).
  assert (a_bytes s = take (Z.to_nat x) (a_bytes s) ++ drop (Z.to_nat x) (a_bytes s)) as E by (by rewrite take_drop).
  assert (last (drop (Z.to_nat x) (a_bytes s)) = Some 0) as Hl'.
  { rewrite E, last_app in Hl. destruct (last (drop (Z.to_nat x) (a_bytes s))) eqn:El; [done|]. apply last_None in El. apply (f_equal length) in El. rewrite length_drop in El. cbn in El. lia. }
  destruct (first_nul _ Hl') as (str & post & Ed & Hs). rewrite Ed in E. assert (name_at src x = Some (Some str)) as En.
  { apply (stands_name v f src s {[ str := x ]} str x); [done..| |by rewrite lookup_singleton_eq]. intros s' off [<- <-]%lookup_singleton_Some. split; [done|].
    exists (take (Z.to_nat x) (a_bytes s)), post. split; [done|]. rewrite length_take. lia. }
  unfold src_name. rewrite En. cbn. split; [done|]. rewrite E, !Forall_app in Hb. split; [|apply Hb]. split; [done|].
  pose proof (so_limit _ _ S) as Hlim. apply (f_equal length) in E. rewrite !length_app in E. cbn in E. unfold BTF_MAX_STR_OFFSET, PTRDIFF_MAX in *. lia.
Qed.

(** ** Rewriting names *)

Section names.
Context (v f : Z) (Hv : is_byte v) (Hf : is_byte f) (malloc_ok : nat → bool).
Abbreviation open := (open v f).
Abbreviation stands := (stands v f).
Abbreviation short := (short malloc_ok).
Abbreviation types_len a := (Z.of_nat (length (section_bytes false (a_types a)))).
(** The source, and up to where its names are. *)
Context (src : btf) (limit : Z) (Hlimit : limit ≤ 2 ^ 32)
  (Hsrc : ∀ x, 0 ≤ x < limit → name_at src x = Some (Some (src_name src x)) ∧ str_ok (src_name src x) ∧ bytes_ok (src_name src x)).

Definition renamed (g : gmap (list Z) Z) (x y : Z) : Prop := if x =? 0 then y = 0 else g !! src_name src x = Some y.
Definition name_cost (x : Z) : Z := if x =? 0 then 0 else length (src_name src x) + 1.
(** Strings were added, at most some bytes of them. *)
Definition grows (a a' : tinfo) (n : Z) : Prop :=
  a_types a' = a_types a ∧ a_swapped a' = a_swapped a ∧ a_strs a ⊆ a_strs a' ∧ length (a_bytes a') ≤ length (a_bytes a) + n.
Lemma grows_refl a n : 0 ≤ n → grows a a n.
Proof. intros Hn. split_and!; [done..|lia]. Qed.
Lemma grows_trans a a1 a2 n1 n2 : grows a a1 n1 → grows a1 a2 n2 → grows a a2 (n1 + n2).
Proof. intros (E1 & E2 & H1 & L1) (E3 & E4 & H2 & L2). split_and!; [congruence|congruence|by etrans|lia]. Qed.
Lemma intern_grows s a : grows a (intern s a).2 (length s + 1).
Proof.
  pose proof (intern_size s a). split_and!; [apply intern_types|unfold intern; by destruct (a_strs a !! s)| |lia]. unfold intern. destruct (a_strs a !! s) eqn:E; [done|]. cbn. by apply insert_subseteq.
Qed.
Lemma renamed_mono g g' x y : g ⊆ g' → renamed g x y → renamed g' x y.
Proof. unfold renamed. intros Hg. destruct (x =? 0); [done|]. intros E. by eapply lookup_weaken. Qed.

(** The map from offsets to offsets remembers names that were added. *)
Definition remembers (a : tinfo) (m : hashmap.t) : Prop :=
  ∃ g : gmap Z hashmap_entry.t, Hashmap.models btf_dedup_identity_hash_fn (λ k, k) m g ∧
    ∀ x e, g !! x = Some e → 0 < x < limit ∧ a_strs a !! src_name src x = Some (hashmap_entry.value e).
Record piped (a : tinfo) (more : list Z) (offs : option (list Z)) (p : btf_pipe) : Prop := {
  pi_src : p_src p = src;
  pi_dst : open (p_dst p) a more;
  pi_offs : type_offs (p_dst p) = offs;
  pi_map : ∀ m, str_off_map p = Some m → remembers a m }.

Lemma remembers_grows a a' m n : grows a a' n → remembers a m → remembers a' m.
Proof. intros (_ & _ & Hs & _) (g & Hm & Hg). exists g. split; [done|]. intros x e E. destruct (Hg x e E) as [? ?]. split; [done|]. by eapply lookup_weaken. Qed.
Lemma few_keys (g : gmap Z hashmap_entry.t) : (∀ x e, g !! x = Some e → 0 < x < limit) → size g < 2 ^ 59.
Proof.
  intros Hg. assert (dom g ⊆ (list_to_set (seqZ 0 (2 ^ 32)) : gset Z)) as Hd.
  { intros x [e E]%elem_of_dom. apply elem_of_list_to_set, elem_of_seqZ. specialize (Hg x e E). lia. }
  apply subseteq_size in Hd. rewrite size_dom, size_list_to_set, length_seqZ in Hd by apply NoDup_seqZ. lia.
Qed.
Lemma offset_range b a more s off : open b a more → a_strs a !! s = Some off → 0 ≤ off < 2 ^ 31.
Proof.
  intros (S & A & _) E. destruct (ap_strs _ _ _ _ _ A) as (set & _ & Hok & _). pose proof (stored_range a set s off Hok E). pose proof (so_limit _ _ S). unfold BTF_MAX_STR_OFFSET in *. lia.
Qed.

(** Remembering one more. *)
Lemma map_append_ok a m x off h : remembers a m → 0 < x < limit → a_strs a !! src_name src x = Some off →
  hashmap_find btf_dedup_identity_hash_fn btf_dedup_equal_fn m x = Some None →
  wp (map_append malloc_ok x off m) h (λ r h', live h' = live h ∧ (r.1 = 0 ∧ remembers a r.2 ∨ r.1 = - ENOMEM ∧ short)).
Proof.
  intros (g & Hm & Hg) Hx Ho Hfd. unfold hashmap_find in Hfd. destruct (find_entry_models btf_dedup_identity_hash_fn btf_dedup_equal_fn (λ k, k) m g x Hm) as (r & Er & Egx & _). rewrite Er in Hfd. destruct r as [[]|]; [done|].
  destruct (append_refines btf_dedup_identity_hash_fn btf_dedup_equal_fn (λ k, k) m g x off (malloc_ok (asked h)) (malloc_ok (S (asked h))) Hm Egx) as (r & m' & E & Hr).
  unfold wp, map_append. rewrite E. cbn [mbind option_bind fst snd live]. split; [done|]. destruct Hr as [[-> Hm']|(-> & _ & Hno)]; [left|right]; (split; [done|]).
  - exists (<[x := hashmap_entry.mk x off]> g). split; [done|]. intros y e [[<- <-]|[Hne Ey]]%lookup_insert_Some; [done|by apply Hg].
  - destruct Hno as [?|[?|?]]; [by eexists|by eexists|]. pose proof (few_keys g (λ x e E, proj1 (Hg x e E))). lia.
Qed.
Lemma map_find_ok a p x : (∀ m, str_off_map p = Some m → remembers a m) →
  ∃ r, (match str_off_map p with None => Some None | Some m => hashmap_find btf_dedup_identity_hash_fn btf_dedup_equal_fn m x end) = Some r ∧
    ∀ off, r = Some off → a_strs a !! src_name src x = Some off.
Proof.
  intros Hm. destruct (str_off_map p) as [m|]; [|by exists None]. destruct (Hm m eq_refl) as (g & Hg & Hs). unfold hashmap_find.
  destruct (find_entry_models btf_dedup_identity_hash_fn btf_dedup_equal_fn (λ k, k) m g x Hg) as (r & -> & Egx & _). destruct r as [[i e]|]; eexists; (split; [done|]); [|done]. intros off [= <-]. by apply (Hs x e).
Qed.

Definition fails (a : tinfo) (n : Z) (r : Z * btf_pipe) : Prop :=
  r.1 = - ENOMEM ∧ (∃ a', stands (p_dst r.2) a' ∧ grows a a' n) ∧ (short ∨ BTF_MAX_STR_OFFSET < length (a_bytes a) + n).
Lemma fails_more a n n' r : fails a n r → n ≤ n' → fails a n' r.
Proof. intros (E & (a' & St & G1 & G2 & G3 & G4) & Hw) Hn. split; [done|]. split; [|destruct Hw; [by left|right; lia]]. exists a'. split; [done|]. split_and!; [done..|lia]. Qed.
Lemma fails_after a a1 n n1 r : grows a a1 n → fails a1 n1 r → fails a (n + n1) r.
Proof.
  intros G (E & (a' & St & G') & Hw). split; [done|]. split; [|destruct Hw; [by left|right; destruct G as (_ & _ & _ & ?); lia]]. exists a'. split; [done|by eapply grows_trans].
Qed.

(** Storing the new offset of a name. *)
Lemma store_name p a pre w post offs (j : nat) off b h h1 : piped a (pre ++ words_bytes false w ++ post) offs p → keeps b h (p_dst p) h1 → (j < length w)%nat → 0 ≤ off < 2 ^ 31 →
  ∃ b', put_words (types_len a + length pre + 4 * j) [off] (p_dst p) = Some b' ∧ keeps b h b' h1 ∧ piped a (pre ++ words_bytes false (<[j := off]> w) ++ post) offs (with_dst b' p).
Proof.
  intros [P1 P2 P3 P4] K Hj Hoff. destruct (field_store v f (p_dst p) a pre w post j off P2 Hj) as (b' & E & Ho & Eo). rewrite (wrap_small 32 off) in Ho by (unfold is_word; lia).
  exists b'. split; [done|]. split; [by eapply keeps_open|]. split; [done|done|cbn; congruence|done].
Qed.
Lemma rewrite_str_ok p a pre w post offs (j : nat) x h : piped a (pre ++ words_bytes false w ++ post) offs p → Forall (is_word 32) w → w !! j = Some x → (x ≠ 0 → x < limit) → 0 < live h →
  wp (btf_rewrite_str malloc_ok (types_len a + length pre + 4 * j) p) h (λ r h', keeps (p_dst p) h (p_dst r.2) h' ∧
    (r.1 = 0 ∧ (∃ a' y, piped a' (pre ++ words_bytes false (<[j := y]> w) ++ post) offs r.2 ∧ is_word 32 y ∧ grows a a' (name_cost x) ∧ renamed (a_strs a') x y) ∨
     fails a (name_cost x) r)).
Proof.
  intros P Hw Hj Hx Hl. pose proof P as [P1 P2 P3 P4]. pose proof (Forall_lookup_1 _ _ _ _ Hw Hj) as Hxw. pose proof (lookup_lt_Some _ _ _ Hj) as Hlt. unfold is_word in Hxw.
  unfold btf_rewrite_str, renamed, name_cost. apply wp_bind, (wp_lift _ _ _ _ (field_load v f _ a pre w post j x P2 Hj Hw)). destruct (Z.eqb_spec x 0) as [->|Hx0].
  { apply wp_ret. split; [unfold keeps; cbn; lia|]. left. split; [done|]. exists a, 0. rewrite list_insert_id by done. split; [done|]. split; [done|]. split; [by apply grows_refl|done]. }
  specialize (Hx Hx0). destruct (map_find_ok a p x P4) as (r & Er & Hr). apply wp_bind, (wp_lift _ _ _ _ Er). destruct r as [off|].
  { specialize (Hr off eq_refl). pose proof (offset_range _ _ _ _ _ P2 Hr) as Hoff. destruct (store_name p a pre w post offs j off (p_dst p) h h P) as (b' & Eb & K & P'); [unfold keeps; lia|done|done|].
    apply wp_bind, (wp_lift _ _ _ _ Eb), wp_ret. split; [done|]. left. split; [done|]. exists a, off. split; [done|]. split; [unfold is_word; lia|]. split; [apply grows_refl; lia|done]. }
  destruct (Hsrc x) as (En & Hs & Hb); [lia|]. rewrite P1, En. apply wp_bind, (wp_lift _ (src_name src x)); [done|]. apply wp_bind. unfold wp.
  pose proof (add_str_ok v f Hv Hf malloc_ok (p_dst p) a _ (src_name src x) h P2 Hs Hb Hl) as Ha. unfold wp in Ha.
  destruct (btf__add_str malloc_ok (p_dst p) (src_name src x) h) as [[[off b1] h1]|] eqn:Ead; [|done]. apply add_str_offs in Ead; [|by apply (so_ids _ _ (proj1 P2))]. cbn [fst snd] in *.
  destruct Ha as (K & [(-> & Hoff & Ho)|(-> & St & Hw')]).
  2:{ change (- ENOMEM <? 0) with true. cbn iota. apply wp_ret. split; [done|]. right. split; [done|]. split; [exists a; split; [done|apply grows_refl; lia]|]. destruct Hw'; [by left|right; lia]. }
  rewrite (proj2 (Z.ltb_ge _ 0)) by lia. pose proof (intern_grows (src_name src x) a) as G. pose proof (intern_again (src_name src x) a) as Ei.
  assert (∀ h2 p', live h2 = live h1 → p' = with_dst b1 p ∨ (∃ m, p' = with_map m (with_dst b1 p)) → (∀ m, str_off_map p' = Some m → remembers (intern (src_name src x) a).2 m) →
    wp (let! b := lift (put_words (types_len a + length pre + 4 * j) [(intern (src_name src x) a).1] (p_dst p')) in pret (0, with_dst b p')) h2 (λ r h',
      keeps (p_dst p) h (p_dst r.2) h' ∧ (r.1 = 0 ∧ (∃ a' y, piped a' (pre ++ words_bytes false (<[j := y]> w) ++ post) offs r.2 ∧ is_word 32 y ∧
        grows a a' (length (src_name src x) + 1) ∧ a_strs a' !! src_name src x = Some y) ∨ fails a (length (src_name src x) + 1) r))) as Hput.
  { intros h2 p' L Ep Hm. assert (piped (intern (src_name src x) a).2 (pre ++ words_bytes false w ++ post) offs p' ∧ p_dst p' = b1) as [P' Ed].
    { destruct Ep as [-> |[m ->]]; (split; [|done]); split; try done; cbn [p_dst with_dst with_map]; congruence. }
    destruct (store_name p' _ pre w post offs j (intern (src_name src x) a).1 (p_dst p) h h2 P') as (b' & Eb & K' & P''); [rewrite Ed; unfold keeps in *; lia|done|done|].
    rewrite intern_types in Eb. apply wp_bind, (wp_lift _ _ _ _ Eb), wp_ret. split; [done|]. left. split; [done|]. eexists _, _. split; [exact P''|]. split; [unfold is_word; lia|done]. }
  apply wp_bind. destruct (str_off_map p) as [m|] eqn:Em; cbn [str_off_map with_dst]; rewrite Em.
  - apply wp_bind. eapply wp_mono; [apply (map_append_ok (intern (src_name src x) a).2 m x _ h1); [eapply remembers_grows; [exact G|by apply P4]|lia|done|done]|].
    intros [err m'] h2 (L & [[E Hm]|[E Hn]]); cbn [fst snd] in *; subst err; apply wp_ret.
    + cbn [Z.eqb negb]. apply Hput; [done|right; by eexists|]. by intros ? [= <-].
    + change (negb (- ENOMEM =? 0)) with true. cbn iota. apply wp_ret. cbn [fst snd p_dst with_map with_dst]. split; [unfold keeps in *; lia|]. right. split; [done|].
      split; [|by left]. eexists. split; [by eapply open_stands|exact G].
  - apply wp_ret. cbn [Z.eqb negb]. apply Hput; [done|by left|]. cbn. by rewrite Em.
Qed.

(** Several names of a type. *)
Definition costs (w : list Z) (js : list nat) : Z := foldr (λ j n, name_cost (default 0 (w !! j)) + n) 0 js.
Definition named (g : gmap (list Z) Z) (js : list nat) (w w' : list Z) : Prop :=
  length w' = length w ∧ Forall (is_word 32) w' ∧ (∀ j, j ∉ js → w' !! j = w !! j) ∧ ∀ j x, j ∈ js → w !! j = Some x → ∃ y, w' !! j = Some y ∧ renamed g x y.
Definition names_in (w : list Z) (js : list nat) : Prop := ∀ j, j ∈ js → ∃ x, w !! j = Some x ∧ (x ≠ 0 → x < limit).

Lemma name_cost_nonneg x : 0 ≤ name_cost x.
Proof. unfold name_cost. destruct (x =? 0); lia. Qed.
Lemma costs_nonneg w js : 0 ≤ costs w js.
Proof. induction js as [|j js IH]; cbn; [lia|]. pose proof (name_cost_nonneg (default 0 (w !! j))). unfold costs in IH. lia. Qed.
Lemma costs_change w w' js : (∀ j, j ∈ js → w' !! j = w !! j) → costs w' js = costs w js.
Proof. induction js as [|j js IH]; intros H; [done|]. cbn. rewrite (H j) by left. f_equal. apply IH. intros i Hi. apply H. by right. Qed.
Lemma named_cons g g' j js w x y w' : j ∉ js → w !! j = Some x → renamed g x y → g ⊆ g' → named g' js (<[j := y]> w) w' → named g' (j :: js) w w'.
Proof.
  intros Hj Hx Hr Hg (Hl & Hw & Ho & Hi). pose proof (lookup_lt_Some _ _ _ Hx). split; [by rewrite Hl, length_insert|]. split; [done|]. split.
  - intros i Hni. apply not_elem_of_cons in Hni as [Hij Hni]. rewrite Ho by done. by rewrite list_lookup_insert_ne by congruence.
  - intros i z [->|Hi']%elem_of_cons Hz.
    + rewrite Hx in Hz. injection Hz as <-. exists y. rewrite Ho by done. rewrite list_lookup_insert_eq by done. split; [done|by eapply renamed_mono].
    + apply Hi; [done|]. rewrite list_lookup_insert_ne; [done|]. by intros ->.
Qed.

Lemma visit_names_ok pre post offs js p a w h : NoDup js → names_in w js → piped a (pre ++ words_bytes false w ++ post) offs p → Forall (is_word 32) w → blocks (p_dst p) ≤ live h →
  wp (visit_each (btf_rewrite_str malloc_ok) ((λ j : nat, types_len a + length pre + 4 * j) <$> js) p) h (λ r h', keeps (p_dst p) h (p_dst r.2) h' ∧
    (r.1 = 0 ∧ (∃ a' w', piped a' (pre ++ words_bytes false w' ++ post) offs r.2 ∧ named (a_strs a') js w w' ∧ grows a a' (costs w js)) ∨ fails a (costs w js) r)).
Proof.
  revert p a w h. induction js as [|j js IH]; intros p a w h Hnd Hin P Hw Hl; cbn [fmap list_fmap visit_each].
  { apply wp_ret. split; [unfold keeps; cbn; lia|]. left. split; [done|]. exists a, w. split; [done|]. split; [|by apply grows_refl]. split_and!; [done..|]. intros j x Hj. by apply elem_of_nil in Hj. }
  apply NoDup_cons in Hnd as [Hnj Hnd]. destruct (Hin j ltac:(left)) as (x & Hx & Hlim).
  assert (costs w (j :: js) = name_cost x + costs w js) as Ec by (cbn; by rewrite Hx). pose proof (costs_nonneg w js). pose proof (blocks_pos (p_dst p)).
  apply wp_bind. eapply wp_mono; [apply (rewrite_str_ok p a pre w post offs j x); [done..|lia]|]. intros [err p1] h1 (K1 & [(E & a1 & y & P1 & Hy & G1 & R1)|Hf1]); cbn [fst snd] in *.
  2:{ destruct Hf1 as [E Hf1]. cbn [fst] in E. subst err. change (negb (- ENOMEM =? 0)) with true. cbn iota. apply wp_ret. split; [done|]. right. eapply fails_more; [by split|]. lia. }
  subst err. cbn [Z.eqb negb]. assert (costs (<[j := y]> w) js = costs w js) as Ecw by (apply costs_change; intros i Hi; apply list_lookup_insert_ne; by intros ->).
  assert (a_types a1 = a_types a) as <- by apply G1. eapply wp_mono; [apply (IH p1 a1 (<[j := y]> w)); [done| |done|by apply Forall_insert|by eapply keeps_live]|].
  { intros i Hi. destruct (Hin i ltac:(by right)) as (z & Hz & ?). exists z. rewrite list_lookup_insert_ne by (by intros ->). done. }
  intros [err p2] h2 (K2 & Hr). cbn [fst snd] in *. split; [by eapply keeps_trans|]. rewrite Ecw in Hr. rewrite Ec. destruct Hr as [(-> & a2 & w' & P2 & N2 & G2)|Hf2].
  - left. split; [done|]. exists a2, w'. split; [done|]. split; [|by eapply grows_trans]. eapply named_cons; [done|done|done|apply G2|done].
  - right. by eapply fails_after.
Qed.

(** All names of a type. *)
Lemma member_visits {S} (visit : Z → S → prog heap (Z * S)) o t s :
  match btf_kind t with
  | Some (BTF_KIND_STRUCT | BTF_KIND_UNION) => visit_each visit (elements (o + sizeof_type) 12 (btf_vlen t)) s
  | Some BTF_KIND_ENUM => visit_each visit (elements (o + sizeof_type) 8 (btf_vlen t)) s
  | Some BTF_KIND_ENUM64 => visit_each visit (elements (o + sizeof_type) 12 (btf_vlen t)) s
  | Some BTF_KIND_FUNC_PROTO => visit_each visit (elements (o + sizeof_type) 8 (btf_vlen t)) s
  | _ => pret (0, s)
  end = visit_each visit ((λ j : nat, o + 4 * j) <$> member_names t) s.
Proof.
  unfold member_names. rewrite (elements_members o 3 3 (o + sizeof_type) 12), (elements_members o 3 2 (o + sizeof_type) 8) by (unfold sizeof_type; lia). by destruct (btf_kind t) as [[]|].
Qed.
Lemma visit_strs_ok pre post offs p a w t h : ty_ok w → ty_head w = Some t → names_in w (names_of t) → piped a (pre ++ words_bytes false w ++ post) offs p → blocks (p_dst p) ≤ live h →
  wp (btf_type_visit_str_offs pipe_block (btf_rewrite_str malloc_ok) (types_len a + length pre) p) h (λ r h', keeps (p_dst p) h (p_dst r.2) h' ∧
    (r.1 = 0 ∧ (∃ a' w', piped a' (pre ++ words_bytes false w' ++ post) offs r.2 ∧ named (a_strs a') (names_of t) w w' ∧ grows a a' (costs w (names_of t))) ∨ fails a (costs w (names_of t)) r)).
Proof.
  intros Hty Ht Hin P Hl. pose proof Hty as [Hw _]. destruct (Hin 0%nat ltac:(left)) as (x & Hx & Hlim). pose proof (blocks_pos (p_dst p)). pose proof (names_NoDup t) as Hnd. apply NoDup_cons in Hnd as [Hn0 Hnd].
  unfold btf_type_visit_str_offs. apply wp_bind. pose proof (rewrite_str_ok p a pre w post offs 0 x h P Hw Hx Hlim ltac:(lia)) as Hr. rewrite Z.mul_0_r, Z.add_0_r in Hr.
  assert (costs w (names_of t) = name_cost x + costs w (member_names t)) as Ec by (cbn; by rewrite Hx). pose proof (costs_nonneg w (member_names t)).
  eapply wp_mono; [exact Hr|]. intros [err p1] h1 (K1 & [(E & a1 & y & P1 & Hy & G1 & R1)|Hf1]); cbn [fst snd] in *.
  2:{ destruct Hf1 as [E Hf1]. cbn [fst] in E. subst err. change (negb (- ENOMEM =? 0)) with true. cbn iota. apply wp_ret. split; [done|]. right. eapply fails_more; [by split|]. lia. }
  subst err. cbn [Z.eqb negb]. assert (a_types a1 = a_types a) as <- by apply G1. set (w1 := <[0%nat := y]> w) in *.
  assert (Forall (is_word 32) w1) as Hw1 by (by apply Forall_insert). assert (∃ t1, ty_head w1 = Some t1 ∧ btf_kind t1 = btf_kind t ∧ btf_vlen t1 = btf_vlen t) as (t1 & Ht1 & Ek & Ev).
  { subst w1. destruct w as [|n [|i [|z rest]]]; try done. injection Ht as <-. by exists (mk_type y i z). }
  apply wp_bind. eapply wp_lift; [exact (head_load v f _ a1 pre w1 post t1 (pi_dst _ _ _ _ P1) Ht1 Hw1)|]. rewrite member_visits.
  assert (member_names t1 = member_names t) as -> by (unfold member_names, members; by rewrite Ek, Ev).
  assert (costs w1 (member_names t) = costs w (member_names t)) as Ecw by (apply costs_change; intros i Hi; apply list_lookup_insert_ne; by intros <-).
  eapply wp_mono; [apply (visit_names_ok pre post offs (member_names t) p1 a1 w1 h1); [done| |done|done|by eapply keeps_live]|].
  { intros i Hi. destruct (Hin i ltac:(by right)) as (z & Hz & ?). exists z. subst w1. rewrite list_lookup_insert_ne by (by intros <-). done. }
  intros [err p2] h2 (K2 & Hr2). cbn [fst snd] in *. split; [by eapply keeps_trans|]. rewrite Ecw in Hr2. rewrite Ec. destruct Hr2 as [(-> & a2 & w' & P2 & N2 & G2)|Hf2].
  - left. split; [done|]. exists a2, w'. split; [done|]. split; [|by eapply grows_trans]. eapply named_cons; [done|done|done|apply G2|done].
  - right. by eapply fails_after.
Qed.
End names.

(** ** Moving identifiers *)

Definition moved (n x : Z) : Z := if x =? 0 then 0 else u32 (x + n).
Definition shifted (n : Z) (js : list nat) (w w' : list Z) : Prop :=
  length w' = length w ∧ Forall (is_word 32) w' ∧ (∀ j, j ∉ js → w' !! j = w !! j) ∧ ∀ j x, j ∈ js → w !! j = Some x → w' !! j = Some (moved n x).
Lemma shifted_nil n w : Forall (is_word 32) w → shifted n [] w w.
Proof. intros Hw. split_and!; [done..|]. intros j x Hj. by apply elem_of_nil in Hj. Qed.
Lemma shifted_cons n j js w x w' : j ∉ js → w !! j = Some x → shifted n js (<[j := moved n x]> w) w' → shifted n (j :: js) w w'.
Proof.
  intros Hj Hx (Hl & Hw & Ho & Hi). pose proof (lookup_lt_Some _ _ _ Hx). split; [by rewrite Hl, length_insert|]. split; [done|]. split.
  - intros i [Hij Hni]%not_elem_of_cons. rewrite Ho by done. by rewrite list_lookup_insert_ne by congruence.
  - intros i z [->|Hi']%elem_of_cons Hz.
    + rewrite Hx in Hz. injection Hz as <-. rewrite Ho by done. by rewrite list_lookup_insert_eq by done.
    + apply Hi; [done|]. rewrite list_lookup_insert_ne; [done|]. by intros ->.
Qed.

Section ids.
Context (v f : Z) (Hv : is_byte v) (Hf : is_byte f).
Abbreviation open := (open v f).
Abbreviation types_len a := (Z.of_nat (length (section_bytes false (a_types a)))).
Abbreviation count a := (Z.of_nat (length (a_types a))).
Definition shifts (a : tinfo) (pre w post : list Z) (b : btf) (js : list nat) (h : heap) (r : Z * btf) (h' : heap) : Prop :=
  h' = h ∧ r.1 = 0 ∧ type_offs r.2 = type_offs b ∧ ∃ w', open r.2 a (pre ++ words_bytes false w' ++ post) ∧ shifted (count a) js w w'.

Lemma rewrite_id_ok b a pre w post (j : nat) x h : open b a (pre ++ words_bytes false w ++ post) → Forall (is_word 32) w → w !! j = Some x →
  wp (btf_rewrite_type_ids (types_len a + length pre + 4 * j) b) h (λ r h',
    h' = h ∧ r.1 = 0 ∧ type_offs r.2 = type_offs b ∧ open r.2 a (pre ++ words_bytes false (<[j := moved (count a) x]> w) ++ post)).
Proof.
  intros Ho Hw Hj. unfold btf_rewrite_type_ids, moved. apply wp_bind, (wp_lift _ _ _ _ (field_load v f _ a pre w post j x Ho Hj Hw)).
  destruct (Z.eqb_spec x 0) as [->|Hx]; [apply wp_ret; by rewrite list_insert_id|].
  assert (start_id b + nr_types b - 1 = count a) as En by (destruct Ho as (S & _); destruct (so_ids _ _ S) as (_ & -> & _); rewrite (ix_nr _ _ (so_index _ _ S)); lia).
  destruct (field_store v f b a pre w post j (u32 (x + (start_id b + nr_types b - 1))) Ho (lookup_lt_Some _ _ _ Hj)) as (b' & E & Ho' & Eo).
  apply wp_bind, (wp_lift _ _ _ _ E), wp_ret. split_and!; [done..|]. cbn [snd]. rewrite En in Ho'. by rewrite wrap_wrap in Ho'.
Qed.
Lemma visit_ids_ok pre post a js b w h : NoDup js → (∀ j, j ∈ js → (j < length w)%nat) → open b a (pre ++ words_bytes false w ++ post) → Forall (is_word 32) w →
  wp (visit_each btf_rewrite_type_ids ((λ j : nat, types_len a + length pre + 4 * j) <$> js) b) h (shifts a pre w post b js h).
Proof.
  revert b w. induction js as [|j js IH]; intros b w Hnd Hin Ho Hw; cbn [fmap list_fmap visit_each].
  { apply wp_ret. split_and!; [done..|]. exists w. split; [done|by apply shifted_nil]. }
  apply NoDup_cons in Hnd as [Hnj Hnd]. destruct (lookup_lt_is_Some_2 w j (Hin j ltac:(left))) as [x Hx].
  apply wp_bind. eapply wp_mono; [by apply (rewrite_id_ok b a pre w post j x)|]. intros [err b1] h1 (-> & E & Eo & Ho1). cbn [fst snd] in *. subst err. cbn [Z.eqb negb].
  eapply wp_mono; [apply (IH b1 (<[j := moved (count a) x]> w)); [done|intros i Hi; rewrite length_insert; apply Hin; by right|done|]|].
  { apply Forall_insert; [done|]. unfold moved. destruct (x =? 0); [done|by apply wrap_range]. }
  intros [err b2] h2 (-> & E2 & Eo2 & w' & Ho2 & Hs). cbn [fst snd] in *. split_and!; [done|done|cbn; congruence|]. exists w'. split; [done|by eapply shifted_cons].
Qed.

Lemma visit_type_ids_ok pre post a b w t h : ty_ok w → ty_head w = Some t → open b a (pre ++ words_bytes false w ++ post) →
  wp (btf_type_visit_type_ids types_block btf_rewrite_type_ids (types_len a + length pre) b) h (shifts a pre w post b (ids_of t) h).
Proof.
  intros Hty Ht Ho. pose proof Hty as [Hw _]. destruct (ty_ok_head w Hty) as (t' & rest & _ & Ht' & _ & _ & Hs). rewrite Ht in Ht'. injection Ht' as <-.
  unfold btf_type_visit_type_ids. apply wp_bind. eapply wp_lift; [by apply (head_load v f _ a pre w post t)|]. set (o := types_len a + length pre).
  assert (∀ js, js = ids_of t → wp (visit_each btf_rewrite_type_ids ((λ j : nat, o + 4 * j) <$> js) b) h (shifts a pre w post b (ids_of t) h)) as Hall.
  { intros js ->. apply visit_ids_ok; [apply ids_NoDup| |done|done]. intros j Hj. eapply index_in_type; [done|done|by right]. }
  assert (ids_of t = [2%nat] → wp (btf_rewrite_type_ids (o + 8) b) h (shifts a pre w post b (ids_of t) h)) as Hone.
  { intros E. destruct (lookup_lt_is_Some_2 w 2) as [x Hx]; [pose proof (ty_ok_length w Hty); lia|]. eapply wp_mono; [by apply (rewrite_id_ok b a pre w post 2 x)|].
    intros [err b1] h1 (-> & E1 & Eo & Ho1). cbn [fst snd] in *. split_and!; [done..|]. rewrite E. eexists. split; [exact Ho1|]. eapply shifted_cons; [apply not_elem_of_nil|exact Hx|apply shifted_nil].
    apply Forall_insert; [done|]. unfold moved. destruct (x =? 0); [done|by apply wrap_range]. }
  unfold ids_of in *. unfold btf_type_size in Hs. rewrite ?(elements_members o 4 3 (o + sizeof_type + 4) 12), ?(elements_members o 4 2 (o + sizeof_type + 4) 8), ?(elements_members o 3 3 (o + sizeof_type) 12) by (unfold sizeof_type; lia).
  destruct (btf_kind t) as [[]|]; try (by apply Hone); try (exfalso; unfold EINVAL in *; lia).
  all: try (exact (Hall _ eq_refl)).
  rewrite <- (Z.add_assoc o sizeof_type 4). exact (Hall _ eq_refl).
Qed.
End ids.

(** ** Types that were copied *)

Section types.
Context (v f : Z) (Hv : is_byte v) (Hf : is_byte f) (malloc_ok : nat → bool).
Abbreviation open := (open v f).
Abbreviation stands := (stands v f).
Abbreviation short := (short malloc_ok).
Abbreviation types_len a := (Z.of_nat (length (section_bytes false (a_types a)))).
Abbreviation count a := (Z.of_nat (length (a_types a))).
Context (src : btf) (limit : Z) (Hlimit : limit ≤ 2 ^ 32)
  (Hsrc : ∀ x, 0 ≤ x < limit → name_at src x = Some (Some (src_name src x)) ∧ str_ok (src_name src x) ∧ bytes_ok (src_name src x)).
Abbreviation piped := (piped v f src limit).

(** The same type: names lead to the same strings, identifiers are moved by [n], and
    everything else is equal. *)
Definition copies (n : Z) (g : gmap (list Z) Z) (w w' : ty) : Prop :=
  length w' = length w ∧ ∀ t j x, ty_head w = Some t → w !! j = Some x → ∃ y, w' !! j = Some y ∧
    (j ∈ names_of t → renamed src g x y) ∧ (j ∈ ids_of t → y = moved n x) ∧ (j ∉ names_of t → j ∉ ids_of t → y = x).
Lemma copies_mono n g g' w w' : g ⊆ g' → copies n g w w' → copies n g' w w'.
Proof.
  intros Hg [Hl H]. split; [done|]. intros t j x Ht Hx. destruct (H t j x Ht Hx) as (y & Hy & H1 & H2 & H3). exists y. split_and!; [done| |done|done]. intros Hj. by eapply renamed_mono; [|apply H1].
Qed.
Lemma named_shifted n g t w w1 w2 : ty_head w = Some t → named src g (names_of t) w w1 → shifted n (ids_of t) w1 w2 → copies n g w w2.
Proof.
  intros Ht (L1 & _ & N1 & N2) (L2 & _ & S1 & S2). split; [congruence|]. intros t' j x Ht' Hx. rewrite Ht in Ht'. injection Ht' as <-.
  destruct (decide (j ∈ names_of t)) as [Hj|Hj].
  - destruct (N2 j x Hj Hx) as (y & Hy & Hr). pose proof (names_ids j t Hj) as Hni. exists y. rewrite S1 by done. split_and!; [done|done|by intros ?|by intros ?].
  - assert (w1 !! j = Some x) as Hx1 by (by rewrite N1). destruct (decide (j ∈ ids_of t)) as [Hi|Hi].
    + exists (moved n x). split_and!; [by apply S2|by intros ?|done|by intros ? ?].
    + exists x. rewrite S1 by done. split_and!; [done|by intros ?|by intros ?|done].
Qed.
Lemma named_ty g t w w1 : ty_ok w → ty_head w = Some t → named src g (names_of t) w w1 → ty_ok w1 ∧ ∃ t1, ty_head w1 = Some t1 ∧ btf_kind t1 = btf_kind t ∧ btf_vlen t1 = btf_vlen t.
Proof.
  intros Hw Ht (L & Hw1 & N & _). destruct (ty_ok_change w w1 Hw L (N 1%nat (proj1 (not_info t))) Hw1) as [Hok Hk]. split; [done|].
  destruct (ty_ok_head w1 Hok) as (t1 & _ & _ & Ht1 & _). exists t1. split; [done|]. by apply Hk.
Qed.
Lemma shifted_ty n t w w1 : ty_ok w → shifted n (ids_of t) w w1 → ty_ok w1.
Proof. intros Hw (L & Hw1 & N & _). by apply (ty_ok_change w w1 Hw L (N 1%nat (proj2 (not_info t))) Hw1). Qed.

Definition type_cost (w : ty) : Z := match ty_head w with Some t => costs src w (names_of t) | None => 0 end.
Definition types_cost (ts : list ty) : Z := foldr (λ w n, type_cost w + n) 0 ts.
Definition type_names (w : ty) : Prop := ∀ t, ty_head w = Some t → names_in limit w (names_of t).
Lemma type_cost_nonneg w : 0 ≤ type_cost w.
Proof. unfold type_cost. destruct (ty_head w); [apply costs_nonneg|done]. Qed.
Lemma types_cost_nonneg ts : 0 ≤ types_cost ts.
Proof. induction ts as [|w ts IH]; cbn; [done|]. pose proof (type_cost_nonneg w). unfold types_cost in IH. lia. Qed.

(** An entry of the index behind those that are used. *)
Lemma put_off_ok b a more offs i x : open b a more → type_offs b = Some offs → count a ≤ i < length offs →
  ∃ b', put_off i x b = Some b' ∧ open b' a more ∧ type_offs b' = Some (<[Z.to_nat i := x]> offs) ∧ blocks b' = blocks b.
Proof.
  intros (S & A & R1 & R2) Eo Hi. unfold put_off. rewrite Eo. cbn [mbind option_bind]. rewrite (proj2 (Z.leb_le 0 i)), (proj2 (Z.ltb_lt i _)) by lia. cbn [andb].
  eexists. split; [done|]. split; [|split; [done|unfold blocks, btf_is_modifiable; cbn; by rewrite Eo]]. split; [|split; [by apply (apart_ext v f b)|done]].
  destruct S as [S1 [I1 I2 I3 I4] S3 S4 S5 S6 S7 S8]. split; try done. rewrite Eo in I2, I4. cbn in I2, I4. split; cbn; [done|by rewrite length_insert|done|].
  intros k Hk. rewrite list_lookup_insert_ne by lia. by apply I4.
Qed.
Lemma ids_pipe_ok p a pre w post offs t h b h0 : ty_ok w → ty_head w = Some t → piped a (pre ++ words_bytes false w ++ post) offs p → keeps b h0 (p_dst p) h →
  wp (ids_of_pipe (types_len a + length pre) p) h (λ r h', keeps b h0 (p_dst r.2) h' ∧ r.1 = 0 ∧
    ∃ w', piped a (pre ++ words_bytes false w' ++ post) offs r.2 ∧ shifted (count a) (ids_of t) w w').
Proof.
  intros Hw Ht [P1 P2 P3 P4] K. unfold ids_of_pipe. apply wp_bind. eapply wp_mono; [by apply (visit_type_ids_ok v f pre post a (p_dst p) w t)|].
  intros [err b'] h' (-> & E & Eo & w' & Ho & Hs). apply wp_ret. cbn [fst snd p_dst with_dst] in *. split; [by eapply keeps_open|]. split; [done|]. exists w'. split; [|done]. split; [done|done|cbn; congruence|done].
Qed.

(** What the loop does, when memory does not run out. *)
Definition loops (a : tinfo) (us rest : list ty) (tail offs : list Z) (p : btf_pipe) (h : heap) (r : Z * btf_pipe) (h' : heap) : Prop :=
  keeps (p_dst p) h (p_dst r.2) h' ∧ r.1 = 0 ∧ ∃ a' us' offs', piped a' (section_bytes false (us ++ us') ++ tail) (Some offs') r.2 ∧ grows a a' (types_cost rest) ∧
    Forall ty_ok us' ∧ Forall2 (copies (count a) (a_strs a')) rest us' ∧ length offs' = length offs ∧
    (∀ i : nat, i < count a + length us → offs' !! i = offs !! i) ∧
    ∀ i : nat, (i < length us')%nat → offs' !! Z.to_nat (count a + length us + i) = Some (types_len a + start_of (us ++ us') (length us + i)).

Lemma copy_loop_ok tail rest us a p offs h : ¬ short → Forall ty_ok rest → Forall type_names rest →
  piped a (section_bytes false us ++ section_bytes false rest ++ tail) (Some offs) p → blocks (p_dst p) ≤ live h →
  length (a_bytes a) + types_cost rest ≤ BTF_MAX_STR_OFFSET → count a + length us + length rest ≤ length offs →
  types_len a + length (section_bytes false us) + length (section_bytes false rest) < 2 ^ 32 →
  wp (copy_loop malloc_ok (length rest) (types_len a + length (section_bytes false us)) (count a + length us) p) h (loops a us rest tail offs p h).
Proof.
  intros Hns. revert us a p offs h. induction rest as [|w rest IH]; intros us a p offs h Hok Hnm P Hl Hlim Hoffs Hsz; cbn [length copy_loop].
  { apply wp_ret. split; [unfold keeps; cbn; lia|]. split; [done|]. exists a, [], offs. rewrite app_nil_r. split_and!; [done|by apply grows_refl|done|done|done|done|]. cbn. lia. }
  apply Forall_cons in Hok as [Hw Hok]. apply Forall_cons in Hnm as [Hn Hnm]. rewrite section_cons, <- (assoc_L (++)) in P. destruct (ty_ok_head w Hw) as (t & tl & _ & Ht & Hs & _ & Hs0).
  assert (types_cost (w :: rest) = costs src w (names_of t) + types_cost rest) as Ec by (cbn; unfold type_cost; by rewrite Ht). pose proof (types_cost_nonneg rest).
  rewrite section_cons, length_app, length_words_bytes in Hsz. cbn [length] in Hoffs. set (o := types_len a + length (section_bytes false us)) in *.
  apply wp_bind. eapply wp_lift; [apply (head_load v f _ a _ w _ t (pi_dst _ _ _ _ _ _ _ _ P) Ht (proj1 Hw))|]. fold o. rewrite (proj2 (Z.ltb_ge _ 0)) by lia.
  destruct (put_off_ok (p_dst p) a _ offs (count a + length us) (u32 o) (pi_dst _ _ _ _ _ _ _ _ P) (pi_offs _ _ _ _ _ _ _ _ P)) as (b1 & E1 & Ho1 & Eo1 & Eb1); [lia|].
  rewrite (wrap_small 32 o) in Eo1 by (unfold is_word; lia). apply wp_bind, (wp_lift _ _ _ _ E1).
  assert (piped a (section_bytes false us ++ words_bytes false w ++ section_bytes false rest ++ tail) (type_offs b1) (with_dst b1 p)) as P1 by (destruct P as [P1 P2 P3 P4]; by split).
  apply wp_bind. eapply wp_mono; [apply (visit_strs_ok v f Hv Hf malloc_ok src limit Hlimit Hsrc (section_bytes false us) (section_bytes false rest ++ tail) _ _ a w t h Hw Ht (Hn t Ht) P1); cbn [p_dst with_dst]; lia|].
  intros [err p2] h2 (K2 & [(E & a2 & w2 & P2 & N2 & G2)|(_ & _ & [?|?])]); cbn [fst snd p_dst with_dst] in *; [|done|lia]. subst err. cbn [Z.eqb negb].
  destruct (named_ty _ t w w2 Hw Ht N2) as (Hw2 & t2 & Ht2 & Ek & Ev). assert (ids_of t2 = ids_of t) as Eids by (unfold ids_of, members; by rewrite Ek, Ev).
  assert (a_types a2 = a_types a) as Et by apply G2. assert (keeps (p_dst p) h (p_dst p2) h2) as K by (unfold keeps in *; lia).
  apply wp_bind. eapply wp_mono; [unfold o; rewrite <- Et; by apply (ids_pipe_ok p2 a2 (section_bytes false us) w2 (section_bytes false rest ++ tail) (type_offs b1) t2 h2 (p_dst p) h)|].
  intros [err p3] h3 (K3 & E & w3 & P3 & S3); cbn [fst snd] in *; subst err. cbn [Z.eqb negb]. rewrite Eids, Et in S3.
  assert (length w3 = length w) as El by (destruct N2 as (? & _), S3 as (? & _); congruence). rewrite Eo1, (assoc_L (++)), <- section_snoc in P3.
  assert (Z.of_nat (length (section_bytes false (us ++ [w3]))) = length (section_bytes false us) + btf_type_size t) as Els by (rewrite section_snoc, length_app, length_words_bytes, El; lia).
  replace (o + btf_type_size t) with (types_len a2 + length (section_bytes false (us ++ [w3]))) by (rewrite Et, Els; unfold o; lia).
  replace (count a + length us + 1) with (count a2 + length (us ++ [w3])) by (rewrite Et, length_app; cbn; lia).
  assert (length (a_bytes a2) ≤ length (a_bytes a) + costs src w (names_of t)) as Hb2 by apply G2.
  eapply wp_mono; [apply (IH (us ++ [w3]) a2 p3 _ h3 Hok Hnm P3)|]; rewrite ?length_app, ?length_insert, ?Et, ?Els; cbn [length]; try lia; [by eapply keeps_live|].
  intros [err p4] h4 (K4 & E & a4 & us4 & offs4 & P4 & G4 & F1 & F2 & L4 & I1 & I2). unfold loops. cbn [fst snd] in *. split; [by eapply keeps_trans|]. split; [done|].
  exists a4, (w3 :: us4), offs4. rewrite <- (assoc_L (++)) in P4, I2. rewrite Et in F2, I1, I2. rewrite length_insert in L4. rewrite length_app in I1, I2. cbn [length] in I1, I2.
  split; [done|]. split; [rewrite Ec; by eapply grows_trans|]. split; [apply Forall_cons; split; [eapply shifted_ty; [exact Hw2|exact S3]|done]|].
  split; [apply Forall2_cons; split; [|done]; eapply copies_mono; [apply G4|by eapply named_shifted]|]. split; [done|]. split.
  - intros i Hi. rewrite I1 by lia. rewrite list_lookup_insert_ne by lia. done.
  - intros [|i] Hi.
    2:{ replace (length us + S i)%nat with (length us + 1 + i)%nat by lia. replace (Z.to_nat (count a + length us + S i)) with (Z.to_nat (count a + (length us + 1)%nat + i)) by lia. apply I2. cbn in Hi. lia. }
    rewrite Z.add_0_r, Nat.add_0_r, I1 by lia. rewrite list_lookup_insert_eq by lia. by rewrite start_of_end.
Qed.

(** ** The steps around the loop *)

Lemma offs_mem_ok b a more n h : ¬ short → open b a more → 0 < n → count a + n ≤ BTF_MAX_NR_TYPES →
  wp (btf_add_type_offs_mem malloc_ok b n) h (λ r h', keeps b h r.2 h' ∧ r.1 = true ∧ open r.2 a more ∧ ∃ offs, type_offs r.2 = Some offs ∧ count a + n ≤ length offs).
Proof.
  intros Hns (S & A & R1 & R2) Hn Hmax. pose proof (so_index _ _ S) as [I1 I2 I3 I4]. unfold wp, btf_add_type_offs_mem. unfold BTF_MAX_NR_TYPES in *.
  assert (count a ≤ length (default [] (type_offs b))) as Hlen.
  { destruct (a_types a) as [|w ts] eqn:Ea; [cbn; lia|]. rewrite <- Ea in *. assert (is_Some (default [] (type_offs b) !! pred (length (a_types a)))) as H%lookup_lt_is_Some_1.
    { rewrite I4; [done|]. rewrite Ea. cbn. lia. } rewrite Ea in *. cbn in *. lia. }
  destruct (add_mem_cases (default [] (type_offs b)) (type_offs_cap b) 4 (nr_types b) 0x7fffffff n (malloc_ok (asked h))) as [[_ Hw]|(k & -> & Hk & Hkm)]; unfold PTRDIFF_MAX in *; try lia.
  { rewrite I1 in Hw. destruct Hw as [Hw|[Hw|Hw]]; [destruct Hns; by eexists|lia|lia]. }
  rewrite (proj2 (Z.eqb_neq (type_offs_cap b + k) 0)), andb_false_r by lia. cbn [fst snd].
  assert (open (with_offs (Some (default [] (type_offs b) ++ replicate k 0)) (type_offs_cap b + k) (nr_types b) b) a more) as Ho.
  { split; [|split; [by apply (apart_ext v f b)|done]]. destruct S as [S1 _ S3 S4 S5 S6 S7 S8]. split; try done. split; cbn; [done|rewrite length_app, length_replicate; lia|unfold BTF_MAX_NR_TYPES; lia|].
    intros i Hi. rewrite lookup_app_l by lia. by apply I4. }
  split; [|split; [done|split; [done|]]].
  - unfold keeps. rewrite (blocks_apart v f b a more A). destruct Ho as (_ & A' & _). rewrite (blocks_apart v f _ a more A'). cbn. lia.
  - eexists. split; [done|]. rewrite length_app, length_replicate. lia.
Qed.
Lemma put_types_ok b a more d : open b a more → length d ≤ length more →
  ∃ b' tail, put_types (types_len a) d b = Some b' ∧ open b' a (d ++ tail) ∧ type_offs b' = type_offs b ∧ nr_types b' = nr_types b.
Proof.
  intros (S & A & E1 & E2) Hl. unfold put_types, put_bytes. rewrite (ap_types _ _ _ _ _ A). rewrite <- (take_drop (length d) more).
  rewrite (store_at _ (take (length d) more)) by (rewrite ?length_take; lia). cbn [mbind option_bind]. eexists _, (drop (length d) more). split; [done|]. split; [|done].
  split; [by apply (sound_ext b)|]. split; [|done]. destruct A as [A1 A2 [A3 A3'] A4]. split; try done. split; [|done]. cbn. rewrite A3, !length_app, length_drop. lia.
Qed.
Definition add_tys (us : list ty) (a : tinfo) : tinfo := mk_tinfo (a_types a ++ us) (a_bytes a) (a_strs a) (a_swapped a).
Lemma section_app e us us' : section_bytes e (us ++ us') = section_bytes e us ++ section_bytes e us'.
Proof. unfold section_bytes. by rewrite join_app, words_bytes_app. Qed.
Lemma commit_all b a us tail offs : open b a (section_bytes false us ++ tail) → type_offs b = Some offs → Forall ty_ok us →
  (∀ i : nat, (i < length us)%nat → offs !! (length (a_types a) + i)%nat = Some (types_len a + start_of us i)) →
  ∃ b', grow_types (length (section_bytes false us)) b = Some b' ∧ nr_types b' = nr_types b ∧ start_id b' = 1 ∧ blocks b' = blocks b ∧
    open (with_offs (type_offs b') (type_offs_cap b') (nr_types b' + length us) b') (add_tys us a) tail.
Proof.
  intros (S & A & R1 & R2) Eo Hus Hoffs. destruct (apart_sizes v f Hv Hf b a _ S A) as (Hsz & Hlim & _). rewrite length_app in Hsz. destruct (so_ids _ _ S) as (B1 & B2 & B3).
  eexists. split; [apply (grow_ok v f Hv Hf b (a_types a) (a_types a ++ us) (a_bytes a)); [apply A|rewrite section_app, length_app; lia|lia|rewrite section_app, length_app; lia|done]|].
  split; [done|]. split; [done|]. split; [unfold blocks, btf_is_modifiable; cbn; by rewrite (ap_hdr _ _ _ _ _ A), R1|].
  split; [|split; [|by split]].
  - destruct S as [S1 [I1 I2 I3 I4] S3 S4 S5 S6 S7 S8]. split; try done; [|apply (Forall_app_2 _ (a_types a)); done]. split; cbn; [rewrite I1, length_app; lia|done|done|].
    intros i Hi. rewrite length_app in Hi. destruct (decide (i < length (a_types a))%nat) as [Hlt|Hge]; [rewrite I4 by done; by rewrite start_of_app by lia|].
    replace i with (length (a_types a) + (i - length (a_types a)))%nat by lia. rewrite Eo. cbn. rewrite Hoffs by lia. f_equal. unfold start_of. rewrite take_app_add, join_app, length_app, length_section. lia.
  - destruct A as [A1 A2 [A3 A3'] A4]. unfold add_tys. split; try done; fields; rewrite ?section_app, <- ?(assoc_L (++)); [done|by split].
Qed.
End types.

(** ** All types of another object *)

Lemma source_ok v f src s : is_byte v → is_byte f → stands v f src s →
  base_btf src = None ∧ hdr_of src = Some (hdr_for v f (a_types s) (a_bytes s)) ∧ btf__type_cnt src = 1 + length (a_types s) ∧
  ∃ m o, at_place src (types_data src) = Some (m, o) ∧ range o (length (section_bytes false (a_types s))) m = Some (section_bytes false (a_types s)).
Proof.
  intros Hv Hf St. pose proof (stands_few v f Hv Hf src s St). pose proof (stands_hdr v f Hv Hf src s St) as Eh. destruct St as (S & _ & P). destruct (so_ids _ _ S) as (B1 & B2 & B3).
  split; [done|]. split; [done|]. split; [unfold btf__type_cnt; rewrite B2, (ix_nr _ _ (so_index _ _ S)), wrap_small by (unfold is_word; lia); done|]. destruct P as [W|[more A]].
  - destruct (wh_places _ _ _ _ W) as (_ & Et & _). eexists _, _. unfold at_place. rewrite Et, (wh_raw _ _ _ _ W). split; [done|]. apply image_ranges.
  - eexists _, _. unfold at_place. rewrite (ap_types _ _ _ _ _ A). split; [done|]. apply (has_range 0). by exists [], more.
Qed.
Lemma copies_section src n g ts us : Forall2 (copies src n g) ts us → length (section_bytes false us) = length (section_bytes false ts).
Proof. induction 1 as [|w w' ts us [Hl _] _ IH]; [done|]. by rewrite !section_cons, !length_app, !length_words_bytes, IH, Hl. Qed.

(** C30: appending all types of another object, when memory does not run out and its
    names are inside its strings: the call returns the identifier after the last type,
    and the types from there on are those of the other object in order, with names
    that lead to the same strings, identifiers moved behind the old types, and all other
    words as they were; old types and strings stay.  The map from offsets to offsets
    that the code keeps does not change this. *)
Theorem add_btf_copies v f vs fs malloc_ok b a src s h : (∀ n, malloc_ok n = true) → is_byte v ∧ is_byte f ∧ is_byte vs ∧ is_byte fs →
  stands v f b a → stands vs fs src s → blocks b ≤ live h → a_types s ≠ [] → Forall (type_names (length (a_bytes s))) (a_types s) →
  length (a_bytes a) + types_cost src (a_types s) ≤ BTF_MAX_STR_OFFSET → length (section_bytes false (a_types a)) + length (section_bytes false (a_types s)) < 2 ^ 31 →
  wp (btf__add_btf malloc_ok b src) h (λ r h', r.1 = 1 + length (a_types a) ∧ keeps b h r.2 h' ∧ ∃ a' us, stands v f r.2 a' ∧ a_types a' = a_types a ++ us ∧
    Forall2 (copies src (length (a_types a)) (a_strs a')) (a_types s) us ∧ a_strs a ⊆ a_strs a' ∧ a_swapped a' = a_swapped a).
Proof.
  intros Hmem (Hv & Hf & Hvs & Hfs) St Ss Hl Hne Hnm Hlim Hsz. assert (¬ short malloc_ok) as Hns by (intros [n E]; by rewrite Hmem in E).
  destruct (source_ok vs fs src s Hvs Hfs Ss) as (Eb & Eh & Ecnt & m & o & Em & Er). pose proof (stands_few v f Hv Hf b a St) as Hfa. pose proof (stands_few vs fs Hvs Hfs src s Ss) as Hfs'.
  pose proof (so_limit _ _ (proj1 Ss)) as Hls. pose proof (so_types _ _ (proj1 Ss)) as Hts. unfold BTF_MAX_STR_OFFSET in *.
  unfold btf__add_btf. rewrite Eb. cbn [bool_decide]. rewrite bool_decide_eq_false_2 by (by intros [? ?]).
  apply wp_bind. eapply wp_mono; [by apply (ensure_ok v f Hv Hf malloc_ok b a)|]. intros [err b1] h1 (K1 & [[E [more1 Ho1]]|(_ & _ & ?)]); cbn [fst snd] in *; [|done]. subst err. cbn [Z.eqb negb].
  apply wp_bind. eapply wp_lift; [exact (apart_hdr v f Hv Hf b1 a more1 (proj1 Ho1) (proj1 (proj2 Ho1)))|]. apply wp_bind, (wp_lift _ _ _ _ Eh).
  change (type_len (hdr_for vs fs (a_types s) (a_bytes s))) with (Z.of_nat (length (section_bytes false (a_types s)))). set (n := length (section_bytes false (a_types s))) in *.
  rewrite Ecnt. replace (1 + length (a_types s) - 1) with (Z.of_nat (length (a_types s))) by lia. rewrite !(sint_small 32 n), !(sint_small 32 (length (a_types s))), !wrap_small by (unfold is_word; lia).
  apply wp_bind. eapply wp_mono; [apply (add_type_mem_ok v f Hv Hf malloc_ok b1 a more1 n); [done|lia]|].
  intros [t b2] h2 (K2 & [(_ & _ & [?|?])|(E & more2 & Ho2 & Hm2)]); cbn [fst snd] in *; [done|unfold UINT_MAX in *; lia|]. subst t.
  apply wp_bind. eapply wp_mono; [apply (offs_mem_ok v f malloc_ok b2 a more2 (length (a_types s)) h2 Hns Ho2)|]; [destruct (a_types s); [done|cbn; lia]|unfold BTF_MAX_NR_TYPES; lia|].
  intros [ok b3] h3 (K3 & E & Ho3 & offs & Eo3 & Hlen); cbn [fst snd] in *. subst ok. cbn [negb]. apply wp_bind, wp_malloc_no; [by intros|]. intros h4 L4. cbn [hashmap__new].
  apply wp_bind, (wp_lift _ _ _ _ Em), wp_bind, (wp_lift _ _ _ _ Er). destruct (put_types_ok v f b3 a more2 (section_bytes false (a_types s)) Ho3) as (b4 & tail & E4 & Ho4 & Eo4 & En4); [lia|].
  apply wp_bind, (wp_lift _ _ _ _ E4), wp_bind. pose proof (keeps_trans _ _ _ _ _ _ (keeps_trans _ _ _ _ _ _ K1 K2) K3) as K.
  assert (keeps b h b4 h3) as Kb by (eapply keeps_open; [exact K|exact Ho3|exact Ho4|congruence]).
  assert (piped v f src (length (a_bytes s)) a (section_bytes false [] ++ section_bytes false (a_types s) ++ tail) (Some offs) (mk_pipe src b4 (Some hashmap__init))) as P.
  { split; [done|done|cbn; congruence|]. intros map [= <-]. exists ∅. split; [split; [apply wf_init|split; [constructor|done]]|]. intros x e Hx. by rewrite lookup_empty in Hx. }
  pose proof (copy_loop_ok v f Hv Hf malloc_ok src (length (a_bytes s)) ltac:(lia) (λ x, src_name_ok vs fs src s x Hvs Hfs Ss) tail (a_types s) [] a _ offs h4 Hns Hts Hnm P) as Hloop. cbn [p_dst] in Hloop.
  rewrite Nat2Z.id. rewrite En4. assert (nr_types b3 = Z.of_nat (length (a_types a))) as -> by (apply (ix_nr _ _ (so_index _ _ (proj1 Ho3)))). rewrite !Z.add_0_r in Hloop.
  unfold BTF_MAX_STR_OFFSET in Hloop. eapply wp_mono; [apply Hloop; try done; [unfold keeps in *; lia|lia]|]. clear Hloop.
  intros [err p] h5 (K5 & E5 & a5 & us & offs5 & P5 & G5 & F1 & F2 & _ & _ & I5). cbn [fst snd p_dst app length] in *. subst err. cbn [Z.eqb negb]. rewrite !Z.add_0_r in I5.
  assert (a_types a5 = a_types a) as Et by apply G5. pose proof (copies_section _ _ _ _ _ F2) as Els. pose proof (Forall2_length _ _ _ F2) as Elu.
  destruct (commit_all v f Hv Hf (p_dst p) a5 us tail offs5 (pi_dst _ _ _ _ _ _ _ _ P5) (pi_offs _ _ _ _ _ _ _ _ P5) F1) as (b6 & E6 & En6 & Es6 & Eb6 & Ho6).
  { intros i Hi. rewrite Et. etrans; [|exact (I5 i Hi)]. f_equal. lia. }
  rewrite Els in E6. apply wp_bind, (wp_lift _ _ _ _ E6). pose proof (blocks_pos b). unfold keeps in *. apply wp_bind, wp_free; [pose proof (blocks_pos (p_dst p)); lia|]. intros h6 L6. apply wp_ret. fields.
  assert (nr_types (p_dst p) = Z.of_nat (length (a_types a))) as En by (rewrite (ix_nr _ _ (so_index _ _ (proj1 (pi_dst _ _ _ _ _ _ _ _ P5)))), Et; done).
  split; [rewrite Es6, En6, En, sint_small; lia|]. rewrite Elu. split; [change (blocks (with_offs _ _ _ _)) with (blocks b6); change (one (Some ())) with 1 in L6; lia|].
  exists (add_tys us a5), us. split; [by eapply open_stands|]. split; [by cbn; rewrite Et|]. split; [done|]. split; [apply G5|apply G5].
Qed.

(** ** One type of another object *)

Lemma points_range p w : points p w → match p with VoidPtr => None | TypeAt m o => range o (4 * length w) m end = Some (words_bytes false w).
Proof.
  destruct p as [|m o]; [done|]. intros H. pose proof (has_range o (words_bytes false w) m H) as E. rewrite length_words_bytes in E. rewrite <- E. f_equal. lia.
Qed.
Lemma words32_id w : Forall (is_word 32) w → words32 w = words_bytes false w ∧ (λ x, u32 x) <$> w = w.
Proof.
  intros Hw. assert ((λ x, u32 x) <$> w = w) as E by (induction Hw as [|x w Hx _ IH]; [done|]; cbn; by rewrite IH, (wrap_small 32 x Hx)). split; [|done]. by rewrite words32_bytes, E.
Qed.

(** A single type is copied with its names, whichever allocations fail; its identifiers
    stay as they are. *)
Theorem add_type_copies v f vs fs malloc_ok b a src s p w t h : is_byte v ∧ is_byte f ∧ is_byte vs ∧ is_byte fs →
  stands v f b a → stands vs fs src s → blocks b ≤ live h → points p w → ty_ok w → ty_head w = Some t → type_names (length (a_bytes s)) w →
  wp (btf__add_type malloc_ok b src p) h (λ r h', keeps b h r.2 h' ∧ ∃ a', stands v f r.2 a' ∧ a_strs a ⊆ a_strs a' ∧
    ((∃ w', r.1 = 1 + length (a_types a) ∧ a_types a' = a_types a ++ [w'] ∧ named src (a_strs a') (names_of t) w w') ∨ r.1 = - ENOMEM ∧ a_types a' = a_types a)).
Proof.
  intros (Hv & Hf & Hvs & Hfs) St Ss Hl Hp Hw Ht Hn. destruct (ty_ok_head w Hw) as (t' & rest & _ & Ht' & Hs & _ & Hs0). rewrite Ht in Ht'. injection Ht' as <-.
  pose proof (so_limit _ _ (proj1 Ss)) as Hls. unfold BTF_MAX_STR_OFFSET in Hls. pose proof (size_bound t) as Hsb. unfold btf__add_type.
  apply wp_bind. eapply wp_lift; [rewrite <- Ht; by apply deref_points|]. rewrite (proj2 (Z.ltb_ge _ 0)) by lia.
  assert (∀ b1 h1, keeps b h b1 h1 → ∀ a1, stands v f b1 a1 → a_types a1 = a_types a → a_strs a ⊆ a_strs a1 → wp (failing (- ENOMEM) b1) h1 (λ r h', keeps b h r.2 h' ∧ ∃ a', stands v f r.2 a' ∧ a_strs a ⊆ a_strs a' ∧
    ((∃ w', r.1 = 1 + length (a_types a) ∧ a_types a' = a_types a ++ [w'] ∧ named src (a_strs a') (names_of t) w w') ∨ r.1 = - ENOMEM ∧ a_types a' = a_types a))) as Hfail.
  { intros b1 h1 K a1 St1 E Hg. apply wp_failing. intros h2 L. split; [unfold keeps in *; cbn; lia|]. exists a1. split; [done|]. split; [done|by right]. }
  apply wp_bind. eapply wp_mono; [by apply (ensure_ok v f Hv Hf malloc_ok b a)|]. intros [err b1] h1 (K1 & [[E [more1 Ho1]]|(E & E2 & _)]); cbn [fst snd] in *; subst; [|by eapply Hfail].
  cbn [Z.eqb negb]. apply wp_bind. eapply wp_mono; [apply (add_type_mem_ok v f Hv Hf malloc_ok b1 a more1 (btf_type_size t)); [done|lia]|].
  intros [o b2] h2 (K2 & [(E & E2 & _)|(E & more2 & Ho2 & Hm2)]); cbn [fst snd] in *; subst; [eapply Hfail; [by eapply keeps_trans|by eapply open_stands|done|done]|].
  apply wp_bind. eapply wp_lift; [rewrite Hs; by apply points_range|]. destruct (put_types_ok v f b2 a more2 (words_bytes false w) Ho2) as (b3 & tail & E3 & Ho3 & Eo3 & _); [rewrite length_words_bytes; lia|].
  apply wp_bind, (wp_lift _ _ _ _ E3). assert (keeps b h b3 h2) as K3 by (eapply keeps_open; [by eapply keeps_trans|exact Ho2|exact Ho3|done]).
  assert (piped v f src (length (a_bytes s)) a ([] ++ words_bytes false w ++ tail) (type_offs b3) (mk_pipe src b3 None)) as P by (by split).
  pose proof (visit_strs_ok v f Hv Hf malloc_ok src (length (a_bytes s)) ltac:(lia) (λ x, src_name_ok vs fs src s x Hvs Hfs Ss) [] tail _ _ a w t h2 Hw Ht (Hn t Ht) P) as Hvis.
  rewrite Z.add_0_r in Hvis. cbn [p_dst] in Hvis. apply wp_bind. eapply wp_mono; [apply Hvis; by eapply keeps_live|].
  intros [err p4] h4 (K4 & [(E & a4 & w4 & P4 & N4 & G4)|(E & (a4 & St4 & G4) & _)]); cbn [fst snd] in *; subst err; pose proof (keeps_trans _ _ _ _ _ _ K3 K4) as K.
  2:{ change (negb (- ENOMEM =? 0)) with true. cbn iota. eapply Hfail; [done|done|apply G4|apply G4]. }
  cbn [Z.eqb negb]. destruct (named_ty src _ t w w4 Hw Ht N4) as [Hw4 _]. assert (length w4 = length w) as El by apply N4. destruct (words32_id w4 (proj1 Hw4)) as [E32 Eu].
  pose proof (commit_type_ok v f Hv Hf malloc_ok (p_dst p4) a4 tail w4 h4) as Hc. rewrite E32, Eu, El, <- Hs in Hc. assert (a_types a4 = a_types a) as Et by apply G4.
  eapply wp_mono; [apply Hc; [exact (pi_dst _ _ _ _ _ _ _ _ P4)|done|by eapply keeps_live]|]. intros [r b5] h5 (K5 & Hr). cbn [fst snd] in *. split; [by eapply keeps_trans|]. rewrite Et in Hr.
  destruct Hr as [[-> Ho5]|(-> & -> & _)].
  - exists (add_ty w4 a4). split; [by eapply open_stands|]. split; [apply G4|]. left. exists w4. split; [done|]. split; [by cbn; rewrite Et|done].
  - exists a4. split; [exact (open_stands v f _ _ _ (pi_dst _ _ _ _ _ _ _ _ P4))|]. split; [apply G4|by right].
Qed.

(** ** An example *)

(** An object with its data in one block. *)
Definition plain (ts : list ty) (strs : list Z) : btf :=
  mk_btf None (Some (image false 1 0 ts strs)) None (24 + length (section_bytes false ts) + length strs) false (InRaw 0) (InRaw 24) 0
    (Some ((λ i, start_of ts i) <$> seq 0 (length ts))) (length ts) (length ts) 1 0 (StrsRaw (24 + length (section_bytes false ts))) false (-1) 8.
Definition plain_info (ts : list ty) (l : list (list Z)) : tinfo := mk_tinfo ts (flat l) (offsets 0 l ∅) false.
Lemma plain_stands ts l : Forall ty_ok ts → Forall nul_free l → bytes_ok (flat l) → head (flat l) = Some 0 → last (flat l) = Some 0 → length (flat l) ≤ BTF_MAX_STR_OFFSET →
  length ts ≤ BTF_MAX_NR_TYPES → 24 + length (section_bytes false ts) + length (flat l) < 2 ^ 32 → stands 1 0 (plain ts (flat l)) (plain_info ts l).
Proof.
  intros Hts Hl Hb Hh Hla Hlim Hnr Hsz. assert (raw_size (plain ts (flat l)) = Z.of_nat (length (image false 1 0 ts (flat l)))) as Er.
  { unfold image, hdr_in. rewrite !length_app, length_hdr_bytes. cbn [raw_size plain]. lia. }
  split; [split|split; [split|left; split]]; try done.
  - split; cbn; [done|by rewrite length_fmap, length_seq|done|]. intros i Hi. by rewrite list_lookup_fmap, lookup_seq_lt.
  - pose proof (offsets_size 0 l ∅) as H0. rewrite map_size_empty in H0. cbn [plain_info a_strs a_bytes]. lia.
  - cbn. BtfTypes.members.
  - intros d [= <-]. by split.
  - by exists l.
Qed.

(** Whether all names of a type are below a limit. *)
Definition type_namesb (limit : Z) (w : ty) : bool :=
  match ty_head w with Some t => forallb (λ j, match w !! j with Some x => (x =? 0) || (x <? limit) | None => false end) (names_of t) | None => true end.
Lemma type_namesb_ok limit w : type_namesb limit w = true → type_names limit w.
Proof.
  unfold type_namesb. intros H t Ht. rewrite Ht in H. rewrite forallb_forall in H. intros j Hj. specialize (H j ltac:(by apply list_elem_of_In)).
  destruct (w !! j) as [x|]; [|done]. exists x. split; [done|]. intros Hx. apply orb_true_iff in H as [?%Z.eqb_eq|?%Z.ltb_lt]; [done|done].
Qed.

Definition demo_names (l : list string) : list (list Z) := [] :: (bytes_of <$> l).
Definition demo_src : list ty := [[1; 0x01000000; 4; 0x01000020]; [5; 0x04000001; 4; 7; 1; 0]; [0; 0x02000000; 2]].
Definition demo_dst : list ty := [[1; 0x01000000; 1; 0x01000008]].
Lemma demo_src_stands : stands 1 0 (plain demo_src (flat (demo_names ["int"; "s"; "a"]%string))) (plain_info demo_src (demo_names ["int"; "s"; "a"]%string)).
Proof. apply plain_stands; try (apply (bool_decide_unpack _); vm_compute; exact I); [by apply tys_okb_ok|..]; vm_compute; congruence. Qed.
Lemma demo_dst_stands : stands 1 0 (plain demo_dst (flat (demo_names ["char"]%string))) (plain_info demo_dst (demo_names ["char"]%string)).
Proof. apply plain_stands; try (apply (bool_decide_unpack _); vm_compute; exact I); [by apply tys_okb_ok|..]; vm_compute; congruence. Qed.

Lemma add_btf_copies_witness (dst := plain demo_dst (flat (demo_names ["char"]%string))) (src := plain demo_src (flat (demo_names ["int"; "s"; "a"]%string)))
    (a := plain_info demo_dst (demo_names ["char"]%string)) :
  wp (btf__add_btf (λ _, true) dst src) (mk_heap 0 6 0) (λ r h', r.1 = 1 + length (a_types a) ∧ keeps dst (mk_heap 0 6 0) r.2 h' ∧ ∃ a' us, stands 1 0 r.2 a' ∧ a_types a' = a_types a ++ us ∧
    Forall2 (copies src (length (a_types a)) (a_strs a')) demo_src us ∧ a_strs a ⊆ a_strs a' ∧ a_swapped a' = a_swapped a).
Proof.
  apply (add_btf_copies 1 0 1 0 (λ _, true) dst a src (plain_info demo_src (demo_names ["int"; "s"; "a"]%string)) (mk_heap 0 6 0)).
  - done.
  - by split_and!.
  - exact demo_dst_stands.
  - exact demo_src_stands.
  - vm_compute. congruence.
  - done.
  - repeat (apply Forall_cons; split; [apply type_namesb_ok; vm_compute; reflexivity|]). by apply Forall_nil.
  - vm_compute. congruence.
  - vm_compute. reflexivity.
Defined.

(** ** Where the code goes wrong *)

(** Both objects are built, and the types of one are appended to the other. *)
Definition copying (malloc_ok : nat → bool) (dst src : list btf_op) : option (Z * heap) :=
  s ← build (λ _, true) src (mk_heap 0 0 0); s ← s.1;
  '(d, h) ← build (λ _, true) dst (mk_heap 0 0 0); d ← d;
  r ← btf__add_btf malloc_ok d.2 s.2 h;
  Some (r.1.1, r.2).
Example copying_demo : copying (λ _, true) demo_ops demo_ops = Some (4, mk_heap 61 5 EINVAL).
Proof. vm_compute. reflexivity. Qed.

(** Appending nothing to an object without types fails for lack of memory, of which there is
    enough. *)
Theorem copy_nothing : fst <$> copying (λ _, true) [] [] = Some (- ENOMEM).
Proof. vm_compute. reflexivity. Qed.
(** When memory runs out after a string was added, the function clears the added bytes behind a
    null pointer. *)
Theorem copy_undo_faults : copying (λ n, negb (Nat.eqb n 18)) [Add (AddPtr 0)] demo_ops = None ∧ copying (λ n, negb (Nat.eqb n 17)) [Add (AddPtr 0)] demo_ops = Some (- ENOMEM, mk_heap 18 5 ENOMEM).
Proof. split; vm_compute; reflexivity. Qed.
