(* ===== verification/BtfExt.v ===== *)
(** * libbpf: function, line and relocation records

    [btf.c]: the section [.BTF.ext] that goes with type information: reading it, and
    visiting the type identifiers and string offsets in its records.

    The data is one block of bytes and a pointer into it is an offset.  A segment that
    is not there has no length, so that its pointer is not used.  The indices of ELF
    sections that other parts of the library attach to a segment are a block that is
    only released here. *)

From S2P Require Import Prelude Errno Bytes Heap Btf BtfAdd.
Local Open Scope Z_scope.

Record btf_ext_info := mk_info { ei_info : Z; ei_rec_size : Z; ei_len : Z; sec_idxs : option (list Z); sec_cnt : Z }.
Record btf_ext := mk_ext { ext_data : list Z; func_info : btf_ext_info; line_info : btf_ext_info; core_relo_info : btf_ext_info; data_size : Z }.
Definition no_info : btf_ext_info := mk_info 0 0 0 None 0.
Definition sizeof_info_sec : Z := 8.

(** ** Reading *)

Definition btf_ext_parse_hdr (data : list Z) (size : Z) : option Z :=
  if size <? 8 then Some (- EINVAL)
  else
    hdr_len ← load 4 4 data;
    if size <? hdr_len then Some (- EINVAL)
    else
      magic ← load 2 0 data;
      if magic =? bswap 2 BTF_MAGIC then Some (- ENOTSUP)
      else if negb (magic =? BTF_MAGIC) then Some (- EINVAL)
      else
        version ← load 1 2 data;
        if negb (version =? BTF_VERSION) then Some (- ENOTSUP)
        else
          flags ← load 1 3 data;
          if negb (flags =? 0) then Some (- ENOTSUP)
          else if size =? hdr_len then Some (- EINVAL)
          else Some 0.

(** The loop over the sections of a segment: an error, or their number.  A round takes eight
    bytes at least. *)
Fixpoint setup_secs (fuel : nat) (data : list Z) (record_size sinfo info_left cnt : Z) : option (Z + Z) :=
  match fuel with
  | O => None
  | S fuel =>
    if info_left =? 0 then Some (inr cnt)
    else if info_left <? sizeof_info_sec then Some (inl (- EINVAL))
    else
      num_records ← load 4 (sinfo + 4) data;
      if num_records =? 0 then Some (inl (- EINVAL))
      else
        let total_record_size := u64 (sizeof_info_sec + num_records * record_size) in
        if info_left <? total_record_size then Some (inl (- EINVAL))
        else setup_secs fuel data record_size (sinfo + total_record_size) (u32 (info_left - total_record_size)) (cnt + 1)
  end.

(** The segment of [len] bytes at [off] behind the header; [inl] is an error. *)
Definition btf_ext_setup_info (data : list Z) (size hdr_len off len min_rec_size : Z) (old : btf_ext_info) : option (Z + btf_ext_info) :=
  if len =? 0 then Some (inr old)
  else if negb (Z.land off 3 =? 0) then Some (inl (- EINVAL))
  else
    let info := hdr_len + off in
    if size <? info + len then Some (inl (- EINVAL))
    else if len <? 4 then Some (inl (- EINVAL))
    else
      record_size ← load 4 info data;
      if (record_size <? min_rec_size) || negb (Z.land record_size 3 =? 0) then Some (inl (- EINVAL))
      else if len - 4 =? 0 then Some (inl (- EINVAL))
      else
        r ← setup_secs (S (length data)) data record_size (info + 4) (len - 4) 0;
        Some (match r with inl err => inl err | inr cnt => inr (mk_info (info + 4) record_size (len - 4) (sec_idxs old) (s32 cnt)) end).

(** The three segments; offset and length of each are read from the header. *)
Definition setup_from (data : list Z) (size at_ min_rec_size : Z) (old : btf_ext_info) : option (Z + btf_ext_info) :=
  hdr_len ← load 4 4 data; off ← load 4 at_ data; len ← load 4 (at_ + 4) data;
  btf_ext_setup_info data size hdr_len off len min_rec_size old.
Definition btf_ext_setup_func_info (data : list Z) (size : Z) := setup_from data size 8 8.
Definition btf_ext_setup_line_info (data : list Z) (size : Z) := setup_from data size 16 16.
Definition btf_ext_setup_core_relos (data : list Z) (size : Z) := setup_from data size 24 16.

(** What [btf_ext__new] does once the data is copied. *)
Definition ext_parse (data : list Z) : option (Z + btf_ext) :=
  let size := Z.of_nat (length data) in
  err ← btf_ext_parse_hdr data size;
  if negb (err =? 0) then Some (inl err)
  else
    hdr_len ← load 4 4 data;
    if hdr_len <? 24 then Some (inl (- EINVAL))
    else
      f ← btf_ext_setup_func_info data size no_info;
      match f with
      | inl err => Some (inl err)
      | inr f =>
        l ← btf_ext_setup_line_info data size no_info;
        match l with
        | inl err => Some (inl err)
        | inr l =>
          if hdr_len <? 32 then Some (inr (mk_ext data f l no_info size))
          else
            c ← btf_ext_setup_core_relos data size no_info;
            Some (match c with inl err => inl err | inr c => inr (mk_ext data f l c size) end)
        end
      end.

Section memory.
Context (malloc_ok : nat → bool).

Definition btf_ext__free (e : option btf_ext) : prog heap () :=
  match e with
  | None => pret ()
  | Some e => free (sec_idxs (func_info e)) ;;; free (sec_idxs (line_info e)) ;;; free (sec_idxs (core_relo_info e)) ;;; free (Some (ext_data e)) ;;; free (Some e)
  end.

Definition btf_ext__new (data : list Z) : prog heap (option btf_ext) :=
  let! ok := malloc malloc_ok in
  if negb ok then libbpf_ptr (ErrPtr (- ENOMEM))
  else
  let! ok := malloc malloc_ok in
  if negb ok then free (Some ()) ;;; libbpf_ptr (ErrPtr (- ENOMEM))
  else
  let! r := lift (ext_parse data) in
  match r with
  | inr e => pret (Some e)
  | inl err => btf_ext__free (Some (mk_ext data no_info no_info no_info (length data))) ;;; libbpf_ptr (ErrPtr err)
  end.
End memory.

Definition btf_ext__get_raw_data (e : btf_ext) : list Z * Z := (ext_data e, data_size e).

(** ** Visiting *)

Section visit.
Context {S : Type} (block : S → list Z) (visit : Z → S → prog heap (Z * S)) (stop : Z → bool).

(** Fields of a record at some distances, up to the first error. *)
Fixpoint visit_fields (rec : Z) (fields : list Z) (s : S) : prog heap (Z * S) :=
  match fields with
  | [] => pret (0, s)
  | o :: fields => let! (err, s) := visit (rec + o) s in if stop err then pret (err, s) else visit_fields rec fields s
  end.
(** [for_each_btf_ext_rec]; the number of records is read in every round.  Records have
    eight bytes at least, so that more rounds than there are bytes have left the data. *)
Fixpoint visit_recs (fuel : nat) (seg : btf_ext_info) (sec : Z) (fields : list Z) (i rec : Z) (s : S) : prog heap (Z * S) :=
  match fuel with
  | O => pfault
  | Datatypes.S fuel =>
    let! num_info := lift (load 4 (sec + 4) (block s)) in
    if negb (i <? num_info) then pret (0, s)
    else
    let! (err, s) := visit_fields rec fields s in
    if stop err then pret (err, s) else visit_recs fuel seg sec fields (i + 1) (rec + ei_rec_size seg) s
  end.
(** [for_each_btf_ext_sec], with the name of each section if [named], and its records. *)
Fixpoint visit_secs (fuel : nat) (seg : btf_ext_info) (named : bool) (fields : list Z) (sec : Z) (s : S) : prog heap (Z * S) :=
  match fuel with
  | O => pfault
  | Datatypes.S fuel =>
    if negb (sec <? ei_info seg + ei_len seg) then pret (0, s)
    else
    let! (err, s) := (if named then visit sec s else pret (0, s)) in
    if stop err then pret (err, s)
    else
    let! (err, s) := (match fields with
                      | [] => pret (0, s)
                      | _ => visit_recs (1 + length (block s)) seg sec fields 0 (sec + sizeof_info_sec) s
                      end) in
    if stop err then pret (err, s)
    else
    let! num_info := lift (load 4 (sec + 4) (block s)) in
    visit_secs fuel seg named fields (sec + sizeof_info_sec + u32 (ei_rec_size seg * num_info)) s
  end.
Definition visit_seg (seg : btf_ext_info) (named : bool) (fields : list Z) (s : S) : prog heap (Z * S) :=
  visit_secs (1 + length (block s)) seg named fields (ei_info seg) s.
End visit.

Section visits.
Context {S : Type} (ext : S → btf_ext) (visit : Z → S → prog heap (Z * S)).

Definition btf_ext_visit_type_ids (s : S) : prog heap (Z * S) :=
  let visit_seg := visit_seg (λ s, ext_data (ext s)) visit (λ err, err <? 0) in
  let! (err, s) := visit_seg (func_info (ext s)) false [4] s in
  if err <? 0 then pret (err, s)
  else
  let! (err, s) := visit_seg (core_relo_info (ext s)) false [4] s in
  if err <? 0 then pret (err, s) else pret (0, s).

Definition btf_ext_visit_str_offs (s : S) : prog heap (Z * S) :=
  let visit_seg := visit_seg (λ s, ext_data (ext s)) visit (λ err, negb (err =? 0)) in
  let! (err, s) := visit_seg (func_info (ext s)) true [] s in
  if negb (err =? 0) then pret (err, s)
  else
  let! (err, s) := visit_seg (line_info (ext s)) true [4; 8] s in
  if negb (err =? 0) then pret (err, s)
  else
  let! (err, s) := visit_seg (core_relo_info (ext s)) true [8] s in
  if negb (err =? 0) then pret (err, s) else pret (0, s).
End visits.
