(* ===== verification/BtfExtSpec.v ===== *)
(** * libbpf: what the records mean

    A segment is a list of sections, each a name with records of one size.  The data is
    accepted exactly when it consists of such segments, and the visits then find
    every record and nothing else. *)

From S2P Require Import Prelude Errno Bytes Heap Btf BtfSpec BtfAdd BtfExt.
Local Open Scope Z_scope.

(** ** Sections as lists of records *)

Record sec := mk_sec { s_name : Z; s_recs : list (list Z) }.
Definition rec_ok (rec_size : Z) (r : list Z) : Prop := Z.of_nat (length r) = rec_size ∧ bytes_ok r.
Definition sec_ok (rec_size : Z) (s : sec) : Prop := is_word 32 (s_name s) ∧ 0 < length (s_recs s) < 2 ^ 32 ∧ Forall (rec_ok rec_size) (s_recs s).
Definition sec_bytes (s : sec) : list Z := le_bytes 4 (s_name s) ++ le_bytes 4 (length (s_recs s)) ++ mjoin (s_recs s).
Definition secs_bytes (ss : list sec) : list Z := mjoin (sec_bytes <$> ss).

Lemma length_recs rec rs : Forall (rec_ok rec) rs → Z.of_nat (length (mjoin rs : list Z)) = length rs * rec.
Proof. induction 1 as [|r rs [Hr _] _ IH]; [done|]. change (mjoin (r :: rs)) with (r ++ mjoin rs). rewrite length_app, Nat2Z.inj_add, IH, Hr. cbn [length]. lia. Qed.
Lemma length_sec rec s : sec_ok rec s → Z.of_nat (length (sec_bytes s)) = 8 + length (s_recs s) * rec.
Proof. intros (_ & _ & Hr). unfold sec_bytes. rewrite !length_app, !length_le_bytes. pose proof (length_recs _ _ Hr). lia. Qed.
Lemma sec_count rec s post : sec_ok rec s → load 4 4 (sec_bytes s ++ post) = Some (Z.of_nat (length (s_recs s))).
Proof.
  intros (_ & Hn & _). unfold sec_bytes. rewrite <- !(assoc_L (++)). change 4 with (Z.of_nat (length (le_bytes 4 (s_name s))) + 0) at 2. rewrite load_app_r by lia.
  rewrite (load_le_bytes 4). by rewrite wrap_small by (unfold is_word; lia).
Qed.
Lemma split_recs (n : nat) rec l : bytes_ok l → 0 ≤ rec → Z.of_nat (length l) = n * rec → ∃ rs, length rs = n ∧ Forall (rec_ok rec) rs ∧ l = mjoin rs.
Proof.
  revert l. induction n as [|n IH]; intros l Hl Hr E; [exists []; by destruct l|].
  destruct (IH (drop (Z.to_nat rec) l)) as (rs & E1 & F & E2); [by apply Forall_drop|done|rewrite length_drop; lia|].
  exists (take (Z.to_nat rec) l :: rs). split; [by cbn; rewrite E1|]. split; [apply Forall_cons; split; [split; [rewrite length_take; lia|by apply Forall_take]|done]|].
  change (l = take (Z.to_nat rec) l ++ mjoin rs). by rewrite <- E2, take_drop.
Qed.
Lemma le_bytes_four l : bytes_ok l → length l = 4%nat → le_bytes 4 (le_val l) = l.
Proof. intros Hl <-. by apply le_bytes_le_val. Qed.
(** Bytes that start with a count of records that fit. *)
Lemma split_sec (n : nat) rec l : bytes_ok l → 0 ≤ rec → 0 < n < 2 ^ 32 → load 4 4 l = Some (Z.of_nat n) → 8 + n * rec ≤ length l →
  ∃ s l', sec_ok rec s ∧ l = sec_bytes s ++ l' ∧ length (s_recs s) = n.
Proof.
  intros Hl Hr Hn E Hlen. destruct (split_recs n rec (take (Z.to_nat (n * rec)) (drop 8 l))) as (rs & E1 & F & E2); [by apply Forall_take, Forall_drop|done|rewrite length_take, length_drop; lia|].
  exists (mk_sec (le_val (take 4 l)) rs), (drop (Z.to_nat (8 + n * rec)) l). cbn [s_recs]. split; [|split; [|done]].
  - split; [|split; [cbn [s_recs]; lia|done]]. cbn [s_name]. pose proof (le_val_range (take 4 l) ltac:(by apply Forall_take)) as H. rewrite length_take in H. replace (4 `min` length l)%nat with 4%nat in H by lia. done.
  - unfold sec_bytes. cbn [s_name s_recs]. rewrite E1, <- E2. assert (le_bytes 4 (le_val (take 4 l)) = take 4 l) as ->.
    { apply le_bytes_four; [by apply Forall_take|rewrite length_take; lia]. }
    assert (le_bytes 4 n = take 4 (drop 4 l)) as ->.
    { rewrite load_Some in E by lia. injection E as E. rewrite <- E. apply le_bytes_four; [by apply Forall_take, Forall_drop|unfold sub; rewrite length_take, length_drop; lia]. }
    rewrite <- (take_drop 4 l) at 1. rewrite <- !(assoc_L (++)). f_equal. rewrite <- (take_drop 4 (drop 4 l)) at 1. f_equal. rewrite drop_drop.
    rewrite <- (take_drop (Z.to_nat (n * rec)) (drop (4 + 4) l)) at 1. f_equal. rewrite drop_drop. f_equal. lia.
Qed.
Lemma secs_nonempty rec ss : secs_bytes ss = [] → Forall (sec_ok rec) ss → ss = [].
Proof. destruct ss as [|s ss]; [done|]. intros E [Hs _]%Forall_cons. pose proof (length_sec rec s Hs) as Hl. apply (f_equal length) in E. cbn in E. rewrite length_app in E. pose proof Hs as (_ & Hn & _). exfalso. unfold sec_bytes in *. rewrite !length_app, !length_le_bytes in *. lia. Qed.

(** ** The loop over the sections *)

Definition cannot (rec : Z) (l : list Z) : Prop := ∀ ss, Forall (sec_ok rec) ss → l ≠ secs_bytes ss.
Lemma setup_secs_ok fuel pre l post rec cnt : bytes_ok l → 0 ≤ rec < 2 ^ 32 → length l < 2 ^ 32 → (length l < fuel)%nat →
  (∃ ss, Forall (sec_ok rec) ss ∧ l = secs_bytes ss ∧ setup_secs fuel (pre ++ l ++ post) rec (length pre) (length l) cnt = Some (inr (cnt + length ss))) ∨
  cannot rec l ∧ setup_secs fuel (pre ++ l ++ post) rec (length pre) (length l) cnt = Some (inl (- EINVAL)).
Proof.
  revert pre l cnt. induction fuel as [|fuel IH]; intros pre l cnt Hl Hrec Hlen Hfuel; [lia|]. cbn [setup_secs]. unfold sizeof_info_sec.
  destruct (Z.eqb_spec (length l) 0) as [E0|E0]; [left; exists []; destruct l; [split_and!; [done|done|f_equal; f_equal; cbn; lia]|done]|].
  assert (∀ ss, Forall (sec_ok rec) ss → l = secs_bytes ss → ∃ s ss', sec_ok rec s ∧ l = sec_bytes s ++ secs_bytes ss' ∧ Forall (sec_ok rec) ss') as Hcons.
  { intros [|s ss] Hss El; [by subst l|]. apply Forall_cons in Hss as [? ?]. by exists s, ss. }
  destruct (Z.ltb_spec (length l) 8) as [H8|H8].
  { right. split; [|done]. intros ss Hss El. destruct (Hcons ss Hss El) as (s & ss' & Hs & -> & _). pose proof (length_sec rec s Hs). rewrite length_app in H8. lia. }
  rewrite load_app_r by lia. destruct (load_word 4 4 l Hl) as (n & En & Hn); [lia..|]. rewrite load_app_l, En by lia. cbn [mbind option_bind].
  assert (∀ s ss', sec_ok rec s → l = sec_bytes s ++ ss' → n = Z.of_nat (length (s_recs s))) as Hcnt.
  { intros s ss' Hs El. rewrite El, (sec_count rec s ss' Hs) in En. by injection En. }
  destruct (Z.eqb_spec n 0) as [->|Hn0].
  { right. split; [|done]. intros ss Hss El. destruct (Hcons ss Hss El) as (s & ss' & Hs & El' & _). pose proof (Hcnt s _ Hs El'). destruct Hs as (_ & ? & _). lia. }
  unfold is_word in Hn. change (8 * 4) with 32 in Hn. rewrite (wrap_small 64) by (unfold is_word; nia). destruct (Z.ltb_spec (length l) (8 + n * rec)) as [Hshort|Hfits].
  { right. split; [|done]. intros ss Hss El. destruct (Hcons ss Hss El) as (s & ss' & Hs & El' & _). pose proof (Hcnt s _ Hs El'). pose proof (length_sec rec s Hs). rewrite El', length_app in Hshort. lia. }
  destruct (split_sec (Z.to_nat n) rec l) as (s & l' & Hs & El & Hsn); [done|lia|lia|rewrite Z2Nat.id by lia; done|rewrite Z2Nat.id by lia; done|].
  pose proof (length_sec rec s Hs) as Hsl. rewrite Hsn, Z2Nat.id in Hsl by lia. rewrite El in *. rewrite length_app in *. rewrite <- (assoc_L (++)), (assoc_L (++) pre).
  replace (length pre + (8 + n * rec)) with (Z.of_nat (length (pre ++ sec_bytes s))) by (rewrite length_app; lia).
  replace (u32 ((length (sec_bytes s) + length l')%nat - (8 + n * rec))) with (Z.of_nat (length l')) by (rewrite wrap_small by (unfold is_word; lia); lia).
  apply Forall_app in Hl as [_ Hl']. destruct (IH (pre ++ sec_bytes s) l' (cnt + 1)) as [(ss & F & -> & E)|[Hc E]]; [done|done|lia|lia|left|right].
  - exists (s :: ss). split; [by apply Forall_cons|]. split; [done|]. rewrite E. do 2 f_equal. cbn. lia.
  - split; [|done]. intros ss Hss El2. destruct (Hcons ss Hss El2) as (s0 & ss' & Hs0 & El3 & Hss'). pose proof (length_sec rec s0 Hs0) as Hl0. rewrite <- (Hcnt s0 _ Hs0 El3) in Hl0.
    apply app_inj_1 in El3 as [_ El4]; [by apply (Hc ss')|lia].
Qed.

(** ** Segments *)

(** Where the records of a segment start, their size, and its sections. *)
Abbreviation segment := (option (Z * Z * list sec)).
Definition seg_info (o : segment) : btf_ext_info :=
  match o with None => no_info | Some (pos, rec, ss) => mk_info pos rec (length (secs_bytes ss)) None (length ss) end.
(** The segment whose offset and length are at [at_] in the header. *)
Definition seg_in (d : list Z) (hdr_len at_ min : Z) (o : segment) : Prop :=
  match o with
  | None => load 4 (at_ + 4) d = Some 0
  | Some (pos, rec, ss) => load 4 at_ d = Some (pos - 4 - hdr_len) ∧ (pos - 4 - hdr_len) mod 4 = 0 ∧ load 4 (at_ + 4) d = Some (4 + length (secs_bytes ss)) ∧
      min ≤ rec < 2 ^ 32 ∧ rec mod 4 = 0 ∧ ss ≠ [] ∧ Forall (sec_ok rec) ss ∧ has (pos - 4) (le_bytes 4 rec ++ secs_bytes ss) d
  end.

Lemma land3 z : Z.land z 3 = z mod 4.
Proof. exact (Z.land_ones z 2 ltac:(lia)). Qed.
Lemma segment_cut d N len rec : bytes_ok d → 0 ≤ N → 4 ≤ len → N + len ≤ length d → load 4 N d = Some rec →
  ∃ pre l post, d = pre ++ le_bytes 4 rec ++ l ++ post ∧ Z.of_nat (length pre) = N ∧ Z.of_nat (length l) = len - 4 ∧ bytes_ok l.
Proof.
  intros Hd HN Hlen Hin E. rewrite load_Some in E by lia. injection E as <-. exists (take (Z.to_nat N) d), (sub (N + 4) (len - 4) d), (drop (Z.to_nat (N + len)) d). split_and!.
  - rewrite le_bytes_four; [|by apply Forall_take, Forall_drop|unfold sub; rewrite length_take, length_drop; lia]. rewrite (take_sub_drop d N 4) at 1 by lia. do 2 f_equal.
    rewrite <- (take_drop (Z.to_nat (len - 4)) (drop (Z.to_nat (N + 4)) d)) at 1. unfold sub. f_equal. rewrite drop_drop. f_equal. lia.
  - rewrite length_take. lia.
  - unfold sub. rewrite length_take, length_drop. lia.
  - by apply Forall_take, Forall_drop.
Qed.
Lemma secs_few rec ss : Forall (sec_ok rec) ss → 8 * length ss ≤ length (secs_bytes ss).
Proof.
  induction 1 as [|s ss (_ & _ & _) _ IH]; [done|]. change (secs_bytes (s :: ss)) with (sec_bytes s ++ secs_bytes ss). unfold sec_bytes. rewrite !length_app, !length_le_bytes. cbn [length]. lia.
Qed.
Lemma setup_from_ok d hdr_len at_ min : bytes_ok d → length d < 2 ^ 32 → load 4 4 d = Some hdr_len → 0 ≤ hdr_len → 0 ≤ at_ → at_ + 8 ≤ length d → 0 ≤ min →
  (∃ o, seg_in d hdr_len at_ min o ∧ setup_from d (length d) at_ min no_info = Some (inr (seg_info o))) ∨
  (∀ o, ¬ seg_in d hdr_len at_ min o) ∧ setup_from d (length d) at_ min no_info = Some (inl (- EINVAL)).
Proof.
  intros Hd Hlen Eh Hh Ha Hal Hmin. unfold setup_from. rewrite Eh. cbn [mbind option_bind]. destruct (load_word 4 at_ d Hd) as (off & Eo & Ho); [lia..|]. destruct (load_word 4 (at_ + 4) d Hd) as (len & El & Hl); [lia..|].
  rewrite Eo, El. cbn [mbind option_bind]. unfold is_word in Ho, Hl. change (8 * 4) with 32 in *. unfold btf_ext_setup_info. destruct (Z.eqb_spec len 0) as [->|Hl0]; [left; by exists None|].
  assert (∀ P : Prop, (∀ rec ss, off mod 4 = 0 → len = 4 + length (secs_bytes ss) → min ≤ rec < 2 ^ 32 → rec mod 4 = 0 → ss ≠ [] → Forall (sec_ok rec) ss →
    has (hdr_len + off) (le_bytes 4 rec ++ secs_bytes ss) d → ¬ P) → P → ∀ o, ¬ seg_in d hdr_len at_ min o) as Hno.
  { intros P HP Hp [[[pos rec] ss]|] Hs; cbn in Hs; [|rewrite El in Hs; congruence]. destruct Hs as (E1 & E2 & E3 & Hr & E4 & Hne & Hss & Hh'). rewrite Eo in E1. injection E1 as E1. rewrite El in E3. injection E3 as E3.
    apply (HP rec ss); try done; [by rewrite E1|]. by replace (hdr_len + off) with (pos - 4) by lia. }
  rewrite (land3 off). destruct (Z.eqb_spec (off mod 4) 0) as [Hoff|Hoff]; cbn [negb]; [|right; split; [by eapply (Hno (off mod 4 ≠ 0)); [intros|]|done]].
  destruct (Z.ltb_spec (length d) (hdr_len + off + len)) as [Hout|Hin].
  { right. split; [|done]. apply (Hno (length d < hdr_len + off + len)); [|done]. intros rec ss _ -> _ _ _ _ [_ Hb]%has_bound. rewrite length_app, length_le_bytes in Hb. lia. }
  assert (∀ rec ss, len = 4 + length (secs_bytes ss) → has (hdr_len + off) (le_bytes 4 rec ++ secs_bytes ss) d → 4 ≤ len ∧ load 4 (hdr_len + off) d = Some (u32 rec)) as Hrec.
  { intros rec ss -> (pre & post & -> & <-). split; [lia|]. rewrite <- !(assoc_L (++)). replace (Z.of_nat (length pre)) with (length pre + 0) by lia. rewrite load_app_r by lia. apply (load_le_bytes 4). }
  destruct (Z.ltb_spec len 4) as [H4|H4]; [right; split; [|done]; apply (Hno (len < 4)); [|done]; intros rec ss _ E _ _ _ _ Hh'; destruct (Hrec rec ss E Hh'); lia|].
  destruct (load_word 4 (hdr_len + off) d Hd) as (rec & Er & Hrw); [lia..|]. unfold is_word in Hrw. change (8 * 4) with 32 in Hrw. rewrite Er. cbn [mbind option_bind]. rewrite (land3 rec).
  assert (∀ rec' ss, len = 4 + length (secs_bytes ss) → min ≤ rec' < 2 ^ 32 → has (hdr_len + off) (le_bytes 4 rec' ++ secs_bytes ss) d → rec' = rec) as Hsame.
  { intros rec' ss E Hr Hh'. destruct (Hrec rec' ss E Hh') as [_ E']. rewrite Er in E'. injection E' as ->. by rewrite wrap_small by (unfold is_word; lia). }
  destruct ((rec <? min) || negb (rec mod 4 =? 0)) eqn:Ebad.
  { right. split; [|done]. apply (Hno True); [|done]. intros rec' ss _ E Hr Hm _ _ Hh' _. pose proof (Hsame rec' ss E Hr Hh') as ->. apply orb_true_iff in Ebad as [?%Z.ltb_lt|Eb]; [lia|]. by rewrite Hm in Eb. }
  apply orb_false_iff in Ebad as [Hge%Z.ltb_ge Hm]. apply negb_false_iff, Z.eqb_eq in Hm.
  destruct (Z.eqb_spec (len - 4) 0) as [Hz|Hz].
  { right. split; [|done]. apply (Hno True); [|done]. intros rec' ss _ E _ _ Hne Hss _ _. apply Hne, (secs_nonempty rec'); [|done]. destruct (secs_bytes ss); [done|cbn in E; lia]. }
  destruct (segment_cut d (hdr_len + off) len rec Hd) as (pre & l & post & Ed & Ep & Ell & Hbl); [lia..|done|].
  assert (has (hdr_len + off) (le_bytes 4 rec ++ l) d) as Hhl by (exists pre, post; by rewrite <- (assoc_L (++))).
  destruct (setup_secs_ok (S (length d)) (pre ++ le_bytes 4 rec) l post rec 0) as [(ss & F & -> & E)|[Hc E]]; [done|lia|lia|apply has_bound in Hhl; rewrite length_app in Hhl; lia|left|right];
    rewrite length_app, length_le_bytes, Ell in E; replace (Z.of_nat (length pre + 4)%nat) with (hdr_len + off + 4) in E by lia; rewrite <- (assoc_L (++)), <- Ed in E; rewrite E; cbn [mbind option_bind].
  - exists (Some (hdr_len + off + 4, rec, ss)). pose proof (secs_few rec ss F). split.
    + cbn. replace (hdr_len + off + 4 - 4 - hdr_len) with off by lia. replace (hdr_len + off + 4 - 4) with (hdr_len + off) by lia. split_and!; try done; try lia; [rewrite El; f_equal; lia|]. intros ->. cbn in Ell. lia.
    + cbn. rewrite sint_small by lia. do 3 f_equal. lia.
  - split; [|done]. apply (Hno True); [|done]. intros rec' ss _ E' Hr _ _ Hss Hh' _. pose proof (Hsame rec' ss E' Hr Hh') as ->. apply (Hc ss Hss).
    pose proof (has_range _ _ _ Hhl) as R1. pose proof (has_range _ _ _ Hh') as R2. rewrite !length_app, !length_le_bytes in R1, R2. replace (4 + length (secs_bytes ss))%nat with (4 + length l)%nat in R2 by lia.
    rewrite R1 in R2. by injection R2.
Qed.

(** ** The whole section *)

Record ext_image (d : list Z) (f l c : segment) : Prop := {
  xi_magic : load 2 0 d = Some BTF_MAGIC;
  xi_version : load 1 2 d = Some BTF_VERSION ∧ load 1 3 d = Some 0;
  xi_hdr : ∃ hdr_len, load 4 4 d = Some hdr_len ∧ 24 ≤ hdr_len < length d ∧ seg_in d hdr_len 8 8 f ∧ seg_in d hdr_len 16 16 l ∧
    if hdr_len <? 32 then c = None else seg_in d hdr_len 24 16 c }.
Definition ext_of (d : list Z) (f l c : segment) : btf_ext := mk_ext d (seg_info f) (seg_info l) (seg_info c) (length d).

Lemma ext_hdr_ok d : bytes_ok d →
  (∃ hdr_len, load 4 4 d = Some hdr_len ∧ 0 ≤ hdr_len < length d ∧ load 2 0 d = Some BTF_MAGIC ∧ load 1 2 d = Some BTF_VERSION ∧ load 1 3 d = Some 0 ∧ btf_ext_parse_hdr d (length d) = Some 0) ∨
  ∃ err, btf_ext_parse_hdr d (length d) = Some err ∧ err < 0 ∧ ∀ f l c, ¬ ext_image d f l c.
Proof.
  intros Hd. unfold btf_ext_parse_hdr. destruct (Z.ltb_spec (length d) 8) as [H8|H8].
  { right. eexists. split; [done|]. split; [done|]. intros f l c [_ _ (hl & _ & ? & _)]. lia. }
  destruct (load_word 4 4 d Hd) as (hl & Eh & Hh); [lia..|]. destruct (load_word 2 0 d Hd) as (mg & Em & _); [lia..|]. destruct (load_word 1 2 d Hd) as (vs & Ev & _); [lia..|]. destruct (load_word 1 3 d Hd) as (fl & Efl & _); [lia..|].
  rewrite Eh, Em, Ev, Efl. cbn [mbind option_bind]. unfold is_word in Hh.
  assert (∀ P : Prop, (mg = BTF_MAGIC → vs = BTF_VERSION → fl = 0 → hl < length d → ¬ P) → P → ∀ err, err < 0 → ∃ err', Some err = Some err' ∧ err' < 0 ∧ ∀ f l c, ¬ ext_image d f l c) as Hno.
  { intros P HP Hp err Herr. exists err. split; [done|]. split; [done|]. intros f l c [X1 [X2 X3] (hl' & X4 & X5 & _)]. rewrite Em in X1. rewrite Ev in X2. rewrite Efl in X3. rewrite Eh in X4. injection X4 as <-. apply HP; [congruence..|lia|done]. }
  destruct (Z.ltb_spec (length d) hl); [right; apply (Hno (length d < hl)); [lia|done|done]|].
  destruct (Z.eqb_spec mg (bswap 2 BTF_MAGIC)) as [->|_]; [right; apply (Hno True); [by vm_compute|done|done]|].
  destruct (Z.eqb_spec mg BTF_MAGIC) as [->|Hmg]; cbn [negb]; [|right; by apply (Hno (mg ≠ BTF_MAGIC)); [intros ->|..]].
  destruct (Z.eqb_spec vs BTF_VERSION) as [->|Hvs]; cbn [negb]; [|right; by apply (Hno (vs ≠ BTF_VERSION)); [intros _ ->|..]].
  destruct (Z.eqb_spec fl 0) as [->|Hfl]; cbn [negb]; [|right; by apply (Hno (fl ≠ 0)); [intros _ _ ->|..]].
  destruct (Z.eqb_spec (length d) hl) as [He|He]; [right; apply (Hno (Z.of_nat (length d) = hl)); [lia|done|done]|]. left. exists hl. split_and!; try done; lia.
Qed.

Lemma ext_parse_ok d : bytes_ok d → length d < 2 ^ 32 →
  (∃ f l c, ext_image d f l c ∧ ext_parse d = Some (inr (ext_of d f l c))) ∨ ∃ err, err < 0 ∧ ext_parse d = Some (inl err) ∧ ∀ f l c, ¬ ext_image d f l c.
Proof.
  intros Hd Hlen. unfold ext_parse. destruct (ext_hdr_ok d Hd) as [(hl & Eh & Hh & Em & Ev & Efl & ->)|(err & -> & Herr & Hno)]; cbn [mbind option_bind].
  2:{ rewrite (proj2 (Z.eqb_neq err 0)) by lia. right. by exists err. }
  cbn [Z.eqb negb]. rewrite Eh. cbn [mbind option_bind].
  assert (∀ P : Prop, (∀ f l c, 24 ≤ hl → seg_in d hl 8 8 f → seg_in d hl 16 16 l → (if hl <? 32 then c = None else seg_in d hl 24 16 c) → ¬ P) → P → ∃ err, err < 0 ∧ Some (inl (- EINVAL)) = Some (inl err : Z + btf_ext) ∧ ∀ f l c, ¬ ext_image d f l c) as Hno.
  { intros P HP Hp. exists (- EINVAL). split; [done|]. split; [done|]. intros f l c [_ _ (hl' & X4 & X5 & Xf & Xl & Xc)]. rewrite Eh in X4. injection X4 as <-. apply (HP f l c); [lia|done..]. }
  destruct (Z.ltb_spec hl 24) as [H24|H24]; [right; apply (Hno (hl < 24)); [intros; lia|done]|].
  unfold btf_ext_setup_func_info, btf_ext_setup_line_info, btf_ext_setup_core_relos.
  destruct (setup_from_ok d hl 8 8 Hd Hlen Eh) as [(f & Hf & ->)|[Hn ->]]; [lia..| |right; apply (Hno True); [by intros f l c _ Hf%Hn|done]]. cbn [mbind option_bind].
  destruct (setup_from_ok d hl 16 16 Hd Hlen Eh) as [(l & Hl & ->)|[Hn ->]]; [lia..| |right; apply (Hno True); [by intros ? l c _ _ Hl%Hn|done]]. cbn [mbind option_bind].
  destruct (hl <? 32) eqn:E32.
  { left. exists f, l, None. split; [|done]. split; [done|done|]. exists hl. rewrite E32. split_and!; try done; lia. }
  apply Z.ltb_ge in E32 as H32. destruct (setup_from_ok d hl 24 16 Hd Hlen Eh) as [(c & Hc & ->)|[Hn ->]]; [lia..| |right; cbn [mbind option_bind]; apply (Hno True); [by intros ? ? c _ _ _ Hc%Hn|done]].
  left. exists f, l, c. split; [|done]. split; [done|done|]. exists hl. rewrite E32. split_and!; try done; lia.
Qed.

(** C31: the section [.BTF.ext] is accepted exactly when it has a header of this version and
    segments that consist of named sections of records, each of at least the size
    that is needed; reading stays inside the data, and gives memory back on failure. *)
Theorem btf_ext_accepts malloc_ok d h : bytes_ok d → length d < 2 ^ 32 → 0 ≤ live h →
  wp (btf_ext__new malloc_ok d) h (λ r h',
    match r with
    | Some e => ∃ f l c, ext_image d f l c ∧ e = ext_of d f l c ∧ live h' = live h + 2
    | None => live h' = live h ∧ 0 < l_errno h' ∧ ((∃ n, malloc_ok n = false) ∨ ∀ f l c, ¬ ext_image d f l c)
    end).
Proof.
  intros Hd Hlen Hl. unfold btf_ext__new. apply wp_bind, wp_malloc_no; [intros h1 L1 Hn; split; [done|]; split; [done|by left]|]. intros h1 L1. cbn [negb]. apply wp_bind, wp_malloc_no.
  { intros h2 L2 Hn. apply wp_bind, wp_free; [lia|]. intros h3 L3. change (one (Some ())) with 1 in L3. split; [cbn [live]; lia|]. split; [done|by left]. }
  intros h2 L2. cbn [negb]. destruct (ext_parse_ok d Hd Hlen) as [(f & l & c & I & E)|(err & Herr & E & Hno)]; apply wp_bind, (wp_lift _ _ _ _ E).
  - apply wp_ret. exists f, l, c. split_and!; [done|done|lia].
  - apply wp_bind. unfold btf_ext__free. cbn [sec_idxs func_info line_info core_relo_info no_info ext_data]. do 4 (apply wp_bind, wp_free; [cbn [one] in *; lia|]; intros ? ?). apply wp_free; [cbn [one] in *; lia|].
    intros h3 L3. cbn [one] in *. split; [cbn [live]; lia|]. split; [cbn [l_errno]; lia|by right].
Qed.

(** ** Visiting records *)

(** A visitor that replaces every field by a function of it, and what that makes of
    records, sections and segments. *)
Definition with_data (d : list Z) (e : btf_ext) : btf_ext := mk_ext d (func_info e) (line_info e) (core_relo_info e) (data_size e).
Definition map_field (g : Z → Z) (o : Z) (e : btf_ext) : prog heap (Z * btf_ext) :=
  let! x := lift (load 4 o (ext_data e)) in
  let! d := lift (store o (le_bytes 4 (g x)) (ext_data e)) in pret (0, with_data d e).

Definition put_field (g : Z → Z) (r : list Z) (o : nat) : list Z := take o r ++ le_bytes 4 (g (le_val (take 4 (drop o r)))) ++ drop (o + 4) r.
Definition map_rec (g : Z → Z) (fields : list nat) (r : list Z) : list Z := foldl (put_field g) r fields.
Definition map_sec (g : Z → Z) (named : bool) (fields : list nat) (s : sec) : sec := mk_sec (if named then g (s_name s) else s_name s) (map_rec g fields <$> s_recs s).
Definition map_seg (g : Z → Z) (named : bool) (fields : list nat) (o : segment) : segment :=
  match o with None => None | Some (pos, rec, ss) => Some (pos, rec, map_sec g named fields <$> ss) end.

Definition inside (rec : Z) (fields : list nat) : Prop := Forall (λ o : nat, o + 4 ≤ rec) fields.
Lemma length_put g r (o : nat) : o + 4 ≤ length r → length (put_field g r o) = length r.
Proof. intros H. unfold put_field. rewrite !length_app, length_take, length_le_bytes, length_drop. lia. Qed.
Lemma length_map_rec g fields r : inside (length r) fields → length (map_rec g fields r) = length r.
Proof.
  unfold map_rec. revert r. induction fields as [|o fields IH]; intros r H; [done|]. apply Forall_cons in H as [Ho H]. cbn. rewrite IH; [by apply length_put|]. unfold inside. by rewrite length_put.
Qed.
Lemma length_map_recs g fields rec rs : Forall (rec_ok rec) rs → inside rec fields → length (mjoin (map_rec g fields <$> rs) : list Z) = length (mjoin rs : list Z).
Proof.
  intros H Hin. induction H as [|r rs [Hr _] _ IH]; [done|]. rewrite fmap_cons. change (length (map_rec g fields r ++ mjoin (map_rec g fields <$> rs)) = length (r ++ mjoin rs)).
  rewrite !length_app, IH, length_map_rec by (by rewrite Hr). done.
Qed.
Lemma length_map_sec g named fields rec s : sec_ok rec s → inside rec fields → length (sec_bytes (map_sec g named fields s)) = length (sec_bytes s).
Proof. intros (_ & _ & H) Hin. unfold sec_bytes. cbn [map_sec s_name s_recs]. rewrite !length_app, !length_le_bytes. by rewrite (length_map_recs g fields rec). Qed.
Lemma length_map_secs g named fields rec ss : Forall (sec_ok rec) ss → inside rec fields → length (secs_bytes (map_sec g named fields <$> ss)) = length (secs_bytes ss).
Proof.
  intros H Hin. induction H as [|s ss Hs _ IH]; [done|]. rewrite fmap_cons. change (length (sec_bytes (map_sec g named fields s) ++ secs_bytes (map_sec g named fields <$> ss)) = length (sec_bytes s ++ secs_bytes ss)).
  rewrite !length_app, IH. by rewrite (length_map_sec g named fields rec).
Qed.

Section visiting.
Context (g : Z → Z) (stop : Z → bool) (Hstop : stop 0 = false).
Abbreviation visit := (map_field g).
Abbreviation block := (λ e : btf_ext, ext_data e).

Lemma map_field_ok pre r post (o : nat) e h : ext_data e = pre ++ r ++ post → o + 4 ≤ length r → map_field g (length pre + o) e h = Some ((0, with_data (pre ++ put_field g r o ++ post) e), h).
Proof.
  intros E Ho. unfold map_field, pbind, lift. rewrite E. unfold put_field.
  assert (pre ++ r ++ post = (pre ++ take o r) ++ take 4 (drop o r) ++ drop (o + 4) r ++ post) as Ed.
  { rewrite <- (take_drop o r) at 1. rewrite <- (take_drop 4 (drop o r)) at 1. by rewrite drop_drop, <- !(assoc_L (++)). }
  rewrite Ed. rewrite load_at; [|rewrite length_app, length_take; lia|rewrite length_take, length_drop; lia]. cbn [mbind option_bind].
  rewrite store_at; [|rewrite length_app, length_take; lia|rewrite length_le_bytes, length_take, length_drop; lia]. cbn [mbind option_bind]. unfold pret. by rewrite <- !(assoc_L (++)).
Qed.
Lemma visit_fields_ok pre r post fields e h : ext_data e = pre ++ r ++ post → inside (length r) fields →
  visit_fields visit stop (length pre) (Z.of_nat <$> fields) e h = Some ((0, with_data (pre ++ map_rec g fields r ++ post) e), h).
Proof.
  unfold map_rec. revert r e. induction fields as [|o fields IH]; intros r e E Hin; cbn [fmap list_fmap visit_fields foldl].
  - unfold pret. rewrite <- E. by destruct e.
  - apply Forall_cons in Hin as [Ho Hin]. unfold pbind. rewrite (map_field_ok pre r post o e h E Ho), Hstop. rewrite (IH (put_field g r o)); [done|done|]. unfold inside. by rewrite length_put.
Qed.
Lemma visit_recs_ok fuel seg P sec fields dn rest post e h : (length rest < fuel)%nat → ext_data e = P ++ mjoin dn ++ mjoin rest ++ post → load 4 (sec + 4) P = Some (Z.of_nat (length dn + length rest)) →
  0 ≤ sec → sec + 8 ≤ length P → Forall (rec_ok (ei_rec_size seg)) rest → inside (ei_rec_size seg) fields →
  visit_recs block visit stop fuel seg sec (Z.of_nat <$> fields) (length dn) (length P + length (mjoin dn : list Z)) e h =
    Some ((0, with_data (P ++ mjoin dn ++ mjoin (map_rec g fields <$> rest) ++ post) e), h).
Proof.
  revert fuel dn e. induction rest as [|r rest IH]; intros [|fuel] dn e Hf E El Hs0 Hs Hr Hin; try (cbn in Hf; lia); cbn [visit_recs]; unfold pbind, lift; rewrite E, load_app_l, El by lia; cbn [mbind option_bind].
  - rewrite (proj2 (Z.ltb_ge _ _)) by (cbn; lia). cbn [negb]. unfold pret. change (mjoin (map_rec g fields <$> [])) with (@nil Z). change (mjoin []) with (@nil Z) in E. rewrite <- E. by destruct e.
  - rewrite (proj2 (Z.ltb_lt _ _)) by (cbn; lia). cbn [negb]. apply Forall_cons in Hr as [[Hr Hrb] Hrest].
    replace (length P + length (mjoin dn : list Z)) with (Z.of_nat (length (P ++ mjoin dn))) by (rewrite length_app; lia).
    rewrite (visit_fields_ok (P ++ mjoin dn) r (mjoin rest ++ post)); [|rewrite E; change (mjoin (r :: rest)) with (r ++ mjoin rest); by rewrite <- !(assoc_L (++))|by rewrite Hr]. rewrite Hstop.
    replace (length dn + 1) with (Z.of_nat (length (dn ++ [map_rec g fields r]))) by (rewrite length_app; cbn; lia).
    assert (mjoin (dn ++ [map_rec g fields r]) = mjoin dn ++ map_rec g fields r) as Ej by (rewrite join_app; f_equal; apply app_nil_r).
    replace (length (P ++ mjoin dn) + ei_rec_size seg) with (length P + length (mjoin (dn ++ [map_rec g fields r]) : list Z)) by (rewrite Ej, !length_app, length_map_rec by (by rewrite Hr); lia).
    rewrite (IH fuel (dn ++ [map_rec g fields r])); try done; cbn [length] in *; [|lia|rewrite Ej; cbn [with_data ext_data]; by rewrite <- !(assoc_L (++))|rewrite El, length_app; do 2 f_equal; cbn; lia].
    rewrite Ej. change (mjoin (map_rec g fields <$> r :: rest)) with (map_rec g fields r ++ mjoin (map_rec g fields <$> rest)). by rewrite <- !(assoc_L (++)).
Qed.

(** One section: its name, then its records. *)
Definition head_bytes (s : sec) : list Z := le_bytes 4 (s_name s) ++ le_bytes 4 (length (s_recs s)).
Lemma visit_name_ok (named : bool) pre s fields post e h : is_word 32 (s_name s) → ext_data e = pre ++ sec_bytes s ++ post →
  (if named then visit (length pre) e else pret (0, e)) h = Some ((0, with_data ((pre ++ head_bytes (map_sec g named fields s)) ++ mjoin (s_recs s) ++ post) e), h).
Proof.
  intros Hn E. unfold head_bytes, sec_bytes in *. cbn [map_sec s_name s_recs]. rewrite length_fmap. destruct named.
  - pose proof (map_field_ok pre (le_bytes 4 (s_name s)) (le_bytes 4 (length (s_recs s)) ++ mjoin (s_recs s) ++ post) 0 e h) as H. rewrite Z.add_0_r in H. rewrite H; [|by rewrite E, <- !(assoc_L (++))|by rewrite length_le_bytes].
    unfold put_field. rewrite take_0, drop_0, Nat.add_0_l, (drop_ge _ 4), (take_ge _ 4) by (by rewrite length_le_bytes). rewrite le_val_le_bytes. change (8 * 4%nat) with 32. rewrite wrap_small by done. by rewrite <- !(assoc_L (++)).
  - unfold pret. rewrite <- !(assoc_L (++)) in *. rewrite <- E. by destruct e.
Qed.
Lemma visit_sec_recs seg P post rs fields sec e h : (length rs < Datatypes.S (length (ext_data e)))%nat → ext_data e = P ++ mjoin rs ++ post → load 4 (sec + 4) P = Some (Z.of_nat (length rs)) → 0 ≤ sec →
  sec + 8 = length P → Forall (rec_ok (ei_rec_size seg)) rs → inside (ei_rec_size seg) fields →
  (match Z.of_nat <$> fields with [] => pret (0, e) | _ => visit_recs block visit stop (1 + length (ext_data e)) seg sec (Z.of_nat <$> fields) 0 (sec + sizeof_info_sec) e end) h =
    Some ((0, with_data (P ++ mjoin (map_rec g fields <$> rs) ++ post) e), h).
Proof.
  intros Hf E El Hs0 Hs Hr Hin. pose proof (visit_recs_ok (1 + length (ext_data e)) seg P sec fields [] rs post e h Hf E El Hs0 ltac:(lia) Hr Hin) as H. cbn [length mjoin list_join app] in H. rewrite Z.add_0_r, <- Hs in H.
  destruct fields as [|o fields]; [|exact H]. cbn [fmap list_fmap]. unfold pret, map_rec. cbn [foldl]. rewrite list_fmap_id, <- E. by destruct e.
Qed.
Lemma head_count P s fields named : 0 < length (s_recs s) < 2 ^ 32 → load 4 (length P + 4) (P ++ head_bytes (map_sec g named fields s)) = Some (Z.of_nat (length (s_recs s))).
Proof.
  intros Hn. rewrite load_app_r by lia. unfold head_bytes. cbn [map_sec s_recs]. rewrite length_fmap. change 4 with (Z.of_nat (length (le_bytes 4 (s_name (map_sec g named fields s)))) + 0) at 2. rewrite load_app_r by lia.
  rewrite <- (app_nil_r (le_bytes 4 (length (s_recs s)))), (load_le_bytes 4). by rewrite wrap_small by (unfold is_word; lia).
Qed.

Lemma visit_secs_ok fuel seg named fields pre ss post e h : (length ss < fuel)%nat → ext_data e = pre ++ secs_bytes ss ++ post → ei_info seg + ei_len seg = length pre + length (secs_bytes ss) →
  length (secs_bytes ss) < 2 ^ 32 → Forall (sec_ok (ei_rec_size seg)) ss → 0 < ei_rec_size seg → inside (ei_rec_size seg) fields →
  visit_secs block visit stop fuel seg named (Z.of_nat <$> fields) (length pre) e h = Some ((0, with_data (pre ++ secs_bytes (map_sec g named fields <$> ss) ++ post) e), h).
Proof.
  revert fuel pre e. induction ss as [|s ss IH]; intros [|fuel] pre e Hf E Hend Hlen Hok Hrec Hin; try (cbn in Hf; lia); cbn [visit_secs].
  { rewrite (proj2 (Z.ltb_ge _ _)) by (cbn in Hend; lia). cbn [negb]. unfold pret. change (secs_bytes (map_sec g named fields <$> [])) with (@nil Z). change (secs_bytes []) with (@nil Z) in E. rewrite <- E. by destruct e. }
  apply Forall_cons in Hok as [Hs Hok]. change (secs_bytes (s :: ss)) with (sec_bytes s ++ secs_bytes ss) in *. rewrite length_app in *. pose proof (length_sec _ _ Hs) as Hsl. pose proof Hs as (Hn & Hc & Hr).
  rewrite <- (assoc_L (++)) in E. rewrite (proj2 (Z.ltb_lt _ _)) by lia. cbn [negb]. unfold pbind. rewrite (visit_name_ok named pre s fields (secs_bytes ss ++ post) e h Hn E), Hstop.
  pose proof (length_recs _ _ Hr) as Hlr. set (s' := map_sec g named fields s). assert (length (head_bytes s') = 8%nat) as Hh by (unfold head_bytes; by rewrite length_app, !length_le_bytes).
  rewrite (visit_sec_recs seg (pre ++ head_bytes s') (secs_bytes ss ++ post) (s_recs s) fields (length pre)); cbn [ext_data with_data]; try done; try lia;
    [|rewrite !length_app; nia|by apply head_count|rewrite length_app, Hh; lia]. rewrite Hstop.
  unfold lift. cbn [with_data ext_data]. pose proof (head_count pre s fields named Hc) as Hcnt. fold s' in Hcnt. rewrite load_app_l, Hcnt by (rewrite ?length_app, ?Hh; lia). cbn [mbind option_bind]. rewrite wrap_small by (unfold is_word; nia). unfold sizeof_info_sec.
  assert (sec_bytes s' = head_bytes s' ++ mjoin (map_rec g fields <$> s_recs s)) as Es' by (unfold sec_bytes, head_bytes; by rewrite <- (assoc_L (++))).
  pose proof (length_map_sec g named fields _ s Hs Hin) as Hls'. fold s' in Hls'.
  replace (length pre + 8 + ei_rec_size seg * length (s_recs s)) with (Z.of_nat (length (pre ++ sec_bytes s'))) by (rewrite length_app; lia).
  rewrite (IH fuel (pre ++ sec_bytes s')); cbn [ext_data with_data]; try done; [| |rewrite Es', <- !(assoc_L (++)); done|rewrite length_app; lia|lia]; [|cbn in Hf; lia].
  rewrite fmap_cons. change (secs_bytes (map_sec g named fields s :: (map_sec g named fields <$> ss))) with (sec_bytes s' ++ secs_bytes (map_sec g named fields <$> ss)). by rewrite <- !(assoc_L (++)).
Qed.
End visiting.

(** ** Visiting segments *)

Definition away (x n : Z) (o : segment) : Prop := match o with None => True | Some (pos, _, ss) => x + n ≤ pos ∨ pos + length (secs_bytes ss) ≤ x end.
(** Two segments that do not overlap. *)
Definition seg_apart (o1 o2 : segment) : Prop := match o1 with None => True | Some (pos, _, ss) => away pos (length (secs_bytes ss)) o2 end.
(** The data holds a segment whose records have at least [min] bytes. *)
Definition holds (d : list Z) (min : Z) (o : segment) : Prop := match o with None => True | Some (pos, rec, ss) => min ≤ rec ∧ Forall (sec_ok rec) ss ∧ has pos (secs_bytes ss) d end.
Definition shows (d : list Z) (o : segment) : Prop := match o with None => True | Some (pos, _, ss) => has pos (secs_bytes ss) d end.

Lemma seg_in_holds d hdr_len at_ min o : seg_in d hdr_len at_ min o → holds d min o.
Proof.
  destruct o as [[[pos rec] ss]|]; [|done]. intros (_ & _ & _ & Hr & _ & _ & Hss & (pre & post & -> & Hp)). split; [lia|]. split; [done|].
  exists (pre ++ le_bytes 4 rec), post. rewrite <- !(assoc_L (++)). split; [done|]. rewrite length_app, length_le_bytes. lia.
Qed.
Lemma range_has x n (d l : list Z) : range x n d = Some l → has x l d.
Proof.
  intros (H0 & Hn & Hl & ->)%range_inv. exists (take (Z.to_nat x) d), (drop (Z.to_nat (x + n)) d). split; [by apply take_sub_drop|]. rewrite length_take. lia.
Qed.
Lemma has_elsewhere (pre y y' post : list Z) x l : length y' = length y → has x l (pre ++ y ++ post) → x + length l ≤ length pre ∨ length pre + length y ≤ x → has x l (pre ++ y' ++ post).
Proof.
  intros Hl Hh Hx. pose proof (has_bound _ _ _ Hh) as [Hb1 Hb2]. apply has_range in Hh. apply (range_has x (length l)). rewrite <- Hh. destruct Hx as [Hx|Hx]; [by rewrite !range_app_l by lia|].
  replace x with (length pre + (length y + (x - length pre - length y))) by lia. rewrite !range_app_r by lia. replace (length y) with (length y') at 1 by done. by rewrite !range_app_r by lia.
Qed.

Section segments.
Context (g : Z → Z) (stop : Z → bool) (Hstop : stop 0 = false).

Lemma visit_seg_ok named fields min o e h : holds (ext_data e) min o → 0 < min → Forall (λ x : nat, x + 4 ≤ min) fields → length (ext_data e) < 2 ^ 32 →
  ∃ d', visit_seg (λ e : btf_ext, ext_data e) (map_field g) stop (seg_info o) named (Z.of_nat <$> fields) e h = Some ((0, with_data d' e), h) ∧ length d' = length (ext_data e) ∧
    shows d' (map_seg g named fields o) ∧ ∀ x l, has x l (ext_data e) → away x (length l) o → has x l d'.
Proof.
  intros Ho Hmin Hin Hlen. unfold visit_seg. destruct o as [[[pos rec] ss]|].
  - destruct Ho as (Hr & Hss & (pre & post & E & Hp)). pose proof (secs_few rec ss Hss) as Hfew. assert (inside rec fields) as Hin' by (eapply Forall_impl; [exact Hin|]; cbn; lia).
    assert (length pre + length (secs_bytes ss) ≤ length (ext_data e)) as Hb by (rewrite E, !length_app; lia). pose proof (length_map_secs g named fields rec ss Hss Hin') as Hml.
    exists (pre ++ secs_bytes (map_sec g named fields <$> ss) ++ post). rewrite <- Hp. cbn [seg_info ei_info]. rewrite (visit_secs_ok g stop Hstop _ _ named fields pre ss post); cbn [ei_info ei_len ei_rec_size]; try done; try lia.
    split; [done|]. split; [rewrite E, !length_app, Hml; done|]. split; [by exists pre, post|]. intros x l Hx Ha. rewrite E in Hx. eapply has_elsewhere; [exact Hml|exact Hx|]. cbn in Ha. lia.
  - exists (ext_data e). split; [by destruct e|]. split; [done|]. split; [done|]. by intros.
Qed.
Lemma holds_kept d d' min o o' : holds d min o → seg_apart o o' → (∀ x l, has x l d → away x (length l) o' → has x l d') → holds d' min o.
Proof. destruct o as [[[pos rec] ss]|]; [|done]. intros (H1 & H2 & H3) Ha Hk. split_and!; [done..|]. by apply Hk. Qed.
Lemma shows_kept named fields min d d' o o' : holds d min o → Forall (λ x : nat, x + 4 ≤ min) fields → shows d' (map_seg g named fields o) → seg_apart o o' → ∀ d2, (∀ x l, has x l d' → away x (length l) o' → has x l d2) →
  shows d2 (map_seg g named fields o).
Proof.
  destruct o as [[[pos rec] ss]|]; [|done]. intros (H1 & H2 & _) Hin Hs Ha d2 Hk. apply Hk; [done|]. rewrite (length_map_secs g named fields rec); [done|done|]. eapply Forall_impl; [exact Hin|]. cbn. lia.
Qed.
End segments.

Lemma apart_sym o1 o2 : seg_apart o1 o2 → seg_apart o2 o1.
Proof. destruct o1 as [[[p1 r1] s1]|], o2 as [[[p2 r2] s2]|]; cbn; try done. lia. Qed.

(** Visiting the type identifiers of data that was accepted finds those of all function and
    relocation records, provided that the two segments do not overlap, and changes
    nothing else. *)
Theorem visit_type_ids_maps g d f l c h : ext_image d f l c → length d < 2 ^ 32 → seg_apart f c →
  ∃ d', btf_ext_visit_type_ids id (map_field g) (ext_of d f l c) h = Some ((0, with_data d' (ext_of d f l c)), h) ∧ length d' = length d ∧
    shows d' (map_seg g false [4%nat] f) ∧ shows d' (map_seg g false [4%nat] c) ∧ ∀ x l, has x l d → away x (length l) f → away x (length l) c → has x l d'.
Proof.
  intros [_ _ (hl & _ & _ & Hf & _ & Hc)] Hlen Ha. apply seg_in_holds in Hf. assert (holds d 16 c) as Hc' by (destruct (hl <? 32); [by subst c|by eapply seg_in_holds]). clear Hc.
  unfold btf_ext_visit_type_ids, pbind, id. destruct (visit_seg_ok g (λ err, err <? 0) eq_refl false [4%nat] 8 f (ext_of d f l c) h) as (d1 & E1 & L1 & S1 & K1); [done|lia|by apply Forall_singleton|done|].
  change [4] with (Z.of_nat <$> [4%nat]). change (func_info (ext_of d f l c)) with (seg_info f). rewrite E1. cbn [Z.ltb Z.compare ext_data ext_of] in *.
  destruct (visit_seg_ok g (λ err, err <? 0) eq_refl false [4%nat] 16 c (with_data d1 (ext_of d f l c)) h) as (d2 & E2 & L2 & S2 & K2); cbn [ext_data with_data] in *;
    [eapply holds_kept; [exact Hc'|by apply apart_sym|exact K1]|lia|by apply Forall_singleton|lia|].
  change (core_relo_info (with_data d1 (ext_of d f l c))) with (seg_info c). rewrite E2. exists d2. split; [done|]. split; [congruence|]. split; [|split; [done|]].
  - eapply (shows_kept g false [4%nat] 8 d d1 f c); [done|by apply Forall_singleton|done|done|exact K2].
  - intros x y Hx H1 H2. by apply K2, H2; apply K1.
Qed.
(** The same for string offsets: section names everywhere, file names and lines, and the
    access strings of relocations. *)
Theorem visit_str_offs_maps g d f l c h : ext_image d f l c → length d < 2 ^ 32 → seg_apart f l → seg_apart f c → seg_apart l c →
  ∃ d', btf_ext_visit_str_offs id (map_field g) (ext_of d f l c) h = Some ((0, with_data d' (ext_of d f l c)), h) ∧ length d' = length d ∧
    shows d' (map_seg g true [] f) ∧ shows d' (map_seg g true [4%nat; 8%nat] l) ∧ shows d' (map_seg g true [8%nat] c).
Proof.
  intros [_ _ (hl & _ & _ & Hf & Hl & Hc)] Hlen A1 A2 A3. apply seg_in_holds in Hf, Hl. assert (holds d 16 c) as Hc' by (destruct (hl <? 32); [by subst c|by eapply seg_in_holds]). clear Hc.
  assert (Forall (λ x : nat, x + 4 ≤ 16) [4%nat; 8%nat] ∧ Forall (λ x : nat, x + 4 ≤ 16) [8%nat]) as [F1 F2].
  { split; rewrite !Forall_cons; split_and!; first [apply Forall_nil_2|lia]. }
  unfold btf_ext_visit_str_offs, pbind, id. destruct (visit_seg_ok g (λ err, negb (err =? 0)) eq_refl true [] 8 f (ext_of d f l c) h) as (d1 & E1 & L1 & S1 & K1); [done|lia|done|done|].
  change (visit_seg _ _ _ (func_info (ext_of d f l c)) true [] (ext_of d f l c) h) with
    (visit_seg (λ e : btf_ext, ext_data e) (map_field g) (λ err, negb (err =? 0)) (seg_info f) true (Z.of_nat <$> []) (ext_of d f l c) h). rewrite E1. cbn [Z.eqb negb ext_data ext_of] in *.
  destruct (visit_seg_ok g (λ err, negb (err =? 0)) eq_refl true [4%nat; 8%nat] 16 l (with_data d1 (ext_of d f l c)) h) as (d2 & E2 & L2 & S2 & K2); cbn [ext_data with_data] in *;
    [eapply holds_kept; [exact Hl|by apply apart_sym|exact K1]|lia|done|lia|].
  change [4; 8] with (Z.of_nat <$> [4%nat; 8%nat]). change (line_info (with_data d1 (ext_of d f l c))) with (seg_info l). rewrite E2. cbn [Z.eqb negb].
  destruct (visit_seg_ok g (λ err, negb (err =? 0)) eq_refl true [8%nat] 16 c (with_data d2 (with_data d1 (ext_of d f l c))) h) as (d3 & E3 & L3 & S3 & K3); cbn [ext_data with_data] in *;
    [eapply holds_kept; [eapply holds_kept; [exact Hc'|apply apart_sym, A2|exact K1]|by apply apart_sym|exact K2]|lia|done|lia|].
  change [8] with (Z.of_nat <$> [8%nat]). change (core_relo_info (with_data d2 (with_data d1 (ext_of d f l c)))) with (seg_info c). rewrite E3. exists d3. split; [done|]. split; [congruence|].
  split; [|split; [|done]]; [eapply (shows_kept g true [] 8 d d2 f c); try done; by eapply (shows_kept g true [] 8 d d1 f l)|].
  eapply (shows_kept g true [4%nat; 8%nat] 16 d d2 l c); try done.
Qed.

(** ** Examples, and where the code goes wrong *)

Definition ext_hdr (fo fl lo ll co cl : Z) : list Z := enc [(2%nat, BTF_MAGIC); (1%nat, BTF_VERSION); (1%nat, 0); (4%nat, 32); (4%nat, fo); (4%nat, fl); (4%nat, lo); (4%nat, ll); (4%nat, co); (4%nat, cl)].
Definition demo_seg (rec name : Z) (recs : list (list Z)) : list Z := words_bytes false (rec :: name :: Z.of_nat (length recs) :: mjoin recs).
(** Two functions, a line and a relocation. *)
Definition demo_ext : list Z :=
  ext_hdr 0 28 28 28 56 28 ++ demo_seg 8 1 [[0; 5]; [8; 6]] ++ demo_seg 16 1 [[0; 10; 20; 7]] ++ demo_seg 16 1 [[0; 5; 30; 0]].
Example demo_ext_visits : (r ← ext_parse demo_ext;
  match r with inr e => r ← btf_ext_visit_type_ids id (map_field (λ x, x + 100)) e (mk_heap 0 0 0); Some (ext_data r.1.2) | inl _ => None end) =
  Some (ext_hdr 0 28 28 28 56 28 ++ demo_seg 8 1 [[0; 105]; [8; 106]] ++ demo_seg 16 1 [[0; 10; 20; 7]] ++ demo_seg 16 1 [[0; 105; 30; 0]]).
Proof. vm_compute. reflexivity. Qed.

(** Segments that overlap are accepted.  When the type identifiers of one are
    changed, the number of records of the other changes with them, and visiting it
    leaves the data. *)
Definition overlapping : list Z := ext_hdr 0 140 0 0 8 28 ++ demo_seg 8 0 (replicate 16 [0; 1]).
Theorem visit_overlap : ∃ e, ext_parse overlapping = Some (inr e) ∧ btf_ext_visit_type_ids id (map_field (λ x, x + 1000)) e (mk_heap 0 0 0) = None.
Proof.
  destruct (ext_parse overlapping) as [[err|e]|] eqn:E; vm_compute in E; [discriminate E| |discriminate E]. exists e. split; [done|]. injection E as <-. vm_compute. reflexivity.
Qed.

(** Data of three segments is read, and its records are found again. *)
Lemma btf_ext_accepts_witness :
  wp (btf_ext__new (λ _, true) demo_ext) (mk_heap 0 0 0) (λ r h',
    match r with
    | Some e => ∃ f l c, ext_image demo_ext f l c ∧ e = ext_of demo_ext f l c ∧ live h' = 2
    | None => live h' = 0 ∧ 0 < l_errno h' ∧ ((∃ n : nat, true = false) ∨ ∀ f l c, ¬ ext_image demo_ext f l c)
    end).
Proof.
  apply (btf_ext_accepts (λ _, true) demo_ext (mk_heap 0 0 0)).
  - apply (bool_decide_unpack _). vm_compute. exact I.
  - vm_compute. reflexivity.
  - cbn. lia.
Defined.
