(* ===== verification/Ring.v ===== *)
(** * The descriptor rings of AF_XDP ([headers/xdp/xsk.h])

    A ring is shared memory between user space and the kernel: an array of a
    power-of-two number of slots and two free-running 32-bit counters, the
    producer and the consumer index.  Each side keeps a private copy of the other
    side's counter in its [struct xsk_ring_prod] or [struct xsk_ring_cons], which
    it refreshes only when it has to.  The functions of [xsk.h] are translated
    one by one; they take the value an atomic load gives as an argument and
    return the value an atomic store writes.

    The two halves are then run against each other, a client of the producer
    functions and a client of the consumer functions, in any interleaving of
    their calls and slot accesses.  A ring is shared with the kernel, which plays
    the part of the other half.  The state also records what was submitted and
    what was released, so that the specification is a queue. *)

From S2P Require Import Prelude.

(** ** The functions of [xsk.h] *)

(** [DEFINE_XSK_RING]: the private part; producer, consumer and slots are
    shared. *)
Record xsk_ring := mk_ring { cached_prod : Z; cached_cons : Z; mask : Z; size : Z }.

Definition with_prod (r : xsk_ring) (v : Z) : xsk_ring := mk_ring v (cached_cons r) (mask r) (size r).
Definition with_cons (r : xsk_ring) (v : Z) : xsk_ring := mk_ring (cached_prod r) v (mask r) (size r).

(** [xsk_ring_prod__fill_addr], [xsk_ring_cons__comp_addr],
    [xsk_ring_prod__tx_desc] and [xsk_ring_cons__rx_desc]: the slot of an index. *)
Definition slot_of (r : xsk_ring) (idx : Z) : nat := Z.to_nat (Z.land idx (mask r)).

Definition XDP_RING_NEED_WAKEUP : Z := 1.
Definition xsk_ring_prod__needs_wakeup (flags : Z) : Z := Z.land flags XDP_RING_NEED_WAKEUP.

Definition xsk_prod_nb_free (r : xsk_ring) (consumer nb : Z) : Z * xsk_ring :=
  let free_entries := u32 (cached_cons r - cached_prod r) in
  if nb <=? free_entries then (free_entries, r)
  else
    let r := with_cons r consumer in
    let r := with_cons r (u32 (cached_cons r + size r)) in
    (u32 (cached_cons r - cached_prod r), r).

Definition xsk_cons_nb_avail (r : xsk_ring) (producer nb : Z) : Z * xsk_ring :=
  let entries := u32 (cached_prod r - cached_cons r) in
  let '(entries, r) :=
    if entries =? 0 then
      let r := with_prod r producer in (u32 (cached_prod r - cached_cons r), r)
    else (entries, r) in
  (if nb <? entries then nb else entries, r).

(** The number reserved, the first index (when there are any) and the ring. *)
Definition xsk_ring_prod__reserve (r : xsk_ring) (consumer nb : Z) : Z * option Z * xsk_ring :=
  let '(free, r) := xsk_prod_nb_free r consumer nb in
  if free <? nb then (0, None, r)
  else (nb, Some (cached_prod r), with_prod r (u32 (cached_prod r + nb))).

(** The new producer index. *)
Definition xsk_ring_prod__submit (producer nb : Z) : Z := u32 (producer + nb).

Definition xsk_ring_cons__peek (r : xsk_ring) (producer nb : Z) : Z * option Z * xsk_ring :=
  let '(entries, r) := xsk_cons_nb_avail r producer nb in
  if 0 <? entries then (entries, Some (cached_cons r), with_cons r (u32 (cached_cons r + entries)))
  else (entries, None, r).

Definition xsk_ring_cons__cancel (r : xsk_ring) (nb : Z) : xsk_ring :=
  with_cons r (u32 (cached_cons r - nb)).

(** The new consumer index. *)
Definition xsk_ring_cons__release (consumer nb : Z) : Z := u32 (consumer + nb).

(** Addresses in a user-memory area. *)
Definition XSK_UNALIGNED_BUF_OFFSET_SHIFT : Z := 48.
Definition XSK_UNALIGNED_BUF_ADDR_MASK : Z := Z.shiftl 1 XSK_UNALIGNED_BUF_OFFSET_SHIFT - 1.

Definition xsk_umem__extract_addr (addr : Z) : Z := Z.land addr XSK_UNALIGNED_BUF_ADDR_MASK.
Definition xsk_umem__extract_offset (addr : Z) : Z := Z.shiftr addr XSK_UNALIGNED_BUF_OFFSET_SHIFT.
Definition xsk_umem__add_offset_to_addr (addr : Z) : Z :=
  u64 (xsk_umem__extract_addr addr + xsk_umem__extract_offset addr).

(** ** Two clients on one ring *)

Section clients.
Context {V : Type}.

(** A client knows the entries it holds by the index that reserving or peeking
    gave it: [p_held] are those reserved and not yet submitted, [c_held] those
    peeked at and neither cancelled nor released, oldest first. *)
Record state := mk_state {
  r_prod : xsk_ring;
  r_cons : xsk_ring;
  producer : Z;
  consumer : Z;
  slots : list V;
  p_held : list Z;
  c_held : list Z;
  sent : list V;
  received : list V
}.
Definition reserved (s : state) : Z := length (p_held s).
Definition peeked (s : state) : Z := length (c_held s).

(** What a client may do: reserve and peek at will, write to entries it
    reserved, submit, cancel and release at most what it holds. *)
Inductive action :=
  | Reserve (nb : Z)
  | WriteSlot (i : Z) (v : V)
  | Submit (nb : Z)
  | Peek (nb : Z)
  | ReadSlot (i : Z)
  | Cancel (nb : Z)
  | Release (nb : Z).

(** The indices from [idx] on. *)
Definition idx_range (idx : Z) (n : nat) : list Z := (λ i : nat, u32 (idx + i)) <$> seq 0 n.

(** The entries a call that answered [n] gives to its caller: those from the
    index it stored; an index that was not stored cannot be used. *)
Definition given (n : Z) (idx : option Z) : option (list Z) :=
  match idx with
  | Some idx => Some (idx_range idx (Z.to_nat n))
  | None => if n =? 0 then Some [] else None
  end.

(** The entries with these indices; [None] is an access outside the array. *)
Definition load_slots (r : xsk_ring) (slots : list V) (ids : list Z) : option (list V) :=
  mapM (λ i, slots !! slot_of r i) ids.

Definition allowed (a : action) (s : state) : bool :=
  match a with
  | Reserve nb | Peek nb => (0 <=? nb) && (nb <? 2 ^ 32)
  | WriteSlot i _ => (0 <=? i) && (i <? reserved s)
  | Submit nb => (0 <=? nb) && (nb <=? reserved s)
  | ReadSlot i => (0 <=? i) && (i <? peeked s)
  | Cancel nb | Release nb => (0 <=? nb) && (nb <=? peeked s)
  end.

(** One action; [None] is an access outside the array, or the use of an index
    that was not stored.  A client reaches the slots through the indices it was
    given.  What is submitted and released is recorded with the values that the
    client finds there at that moment. *)
Definition act (a : action) (s : state) : option state :=
  let 'mk_state p c pi ci sl hp hc snt rcv := s in
  match a with
  | Reserve nb =>
      let '(n, idx, p) := xsk_ring_prod__reserve p ci nb in
      ids ← given n idx; Some (mk_state p c pi ci sl (hp ++ ids) hc snt rcv)
  | WriteSlot i v =>
      idx ← hp !! Z.to_nat i;
      let k := slot_of p idx in
      if decide (k < length sl)%nat then Some (mk_state p c pi ci (<[k := v]> sl) hp hc snt rcv) else None
  | Submit nb =>
      vs ← load_slots p sl (take (Z.to_nat nb) hp);
      Some (mk_state p c (xsk_ring_prod__submit pi nb) ci sl (drop (Z.to_nat nb) hp) hc (snt ++ vs) rcv)
  | Peek nb =>
      let '(n, idx, c) := xsk_ring_cons__peek c pi nb in
      ids ← given n idx; Some (mk_state p c pi ci sl hp (hc ++ ids) snt rcv)
  | ReadSlot i => idx ← hc !! Z.to_nat i; _ ← sl !! slot_of c idx; Some s
  | Cancel nb =>
      Some (mk_state p (xsk_ring_cons__cancel c nb) pi ci sl hp (take (length hc - Z.to_nat nb) hc) snt rcv)
  | Release nb =>
      vs ← load_slots c sl (take (Z.to_nat nb) hc);
      Some (mk_state p c pi (xsk_ring_cons__release ci nb) sl hp (drop (Z.to_nat nb) hc) snt (rcv ++ vs))
  end.

(** A ring with both counters at [b], as [xsk_create_umem_rings] and
    [xsk_socket__create_shared] set it up: the producer's copy of the consumer
    index is ahead by the size. *)
Definition ring_start (b size : Z) (slots : list V) : state :=
  mk_state (mk_ring b (u32 (b + size)) (size - 1) size) (mk_ring b b (size - 1) size)
    b b slots [] [] [] [].

(** Any sequence of allowed actions of the two clients. *)
Inductive reachable (s0 : state) : state → Prop :=
  | reach_start : reachable s0 s0
  | reach_act s a s' : reachable s0 s → allowed a s = true → act a s = Some s' → reachable s0 s'.
End clients.
Arguments action : clear implicits.
Arguments state : clear implicits.

(** ** Counters and slots *)

Lemma u32_sub a b : 0 ≤ a - b < 2 ^ 32 → u32 (u32 a - u32 b) = a - b.
Proof.
  intros H. unfold wrap. rewrite <- Zminus_mod. by apply Z.mod_small.
Qed.

Lemma u32_sub_l a b : u32 (u32 a - b) = u32 (a - b).
Proof. unfold wrap. apply Zminus_mod_idemp_l. Qed.

Lemma slot_of_u32 r k x :
  0 ≤ k ≤ 32 → mask r = 2 ^ k - 1 → slot_of r (u32 x) = Z.to_nat (x mod 2 ^ k).
Proof.
  intros Hk Hm. unfold slot_of. rewrite Hm. replace (2 ^ k - 1) with (Z.ones k) by (rewrite Z.ones_equiv; lia).
  rewrite Z.land_ones by lia.
  f_equal. unfold wrap. apply Z.mod_mod_divide.
  exists (2 ^ (32 - k)). rewrite <- Z.pow_add_r by lia. f_equal. lia.
Qed.

Lemma mod_window_inj m x y : 0 < m → x mod m = y mod m → - m < x - y < m → x = y.
Proof.
  intros Hm He Hw. pose proof (Z.div_mod x m ltac:(lia)) as Hx. pose proof (Z.div_mod y m ltac:(lia)) as Hy.
  assert (x / m = y / m) as Hq; [|congruence].
  assert (x - y = m * (x / m - y / m)) as E by lia. rewrite E in Hw.
  assert (-1 < x / m - y / m < 1); [|lia]. split; apply (Z.mul_lt_mono_pos_l m); lia.
Qed.

Section fifo.
Context {V : Type}.
Implicit Types s : state V.

Abbreviation slot k x := (Z.to_nat (x mod 2 ^ k)).

Lemma length_idx_range x n : length (idx_range x n) = n.
Proof. unfold idx_range. by rewrite length_fmap, length_seq. Qed.
Lemma idx_range_u32 x n : idx_range (u32 x) n = idx_range x n.
Proof. apply list_fmap_ext. intros i j _. by rewrite wrap_add_l. Qed.
Lemma lookup_idx_range x n i : (i < n)%nat → idx_range x n !! i = Some (u32 (x + i)).
Proof. intros Hi. unfold idx_range. rewrite list_lookup_fmap, lookup_seq_lt by done. done. Qed.
Lemma idx_range_app x n m : idx_range x (n + m) = idx_range x n ++ idx_range (x + n) m.
Proof.
  unfold idx_range. rewrite seq_app, fmap_app. f_equal.
  replace (seq (0 + n) m) with (Nat.add n <$> seq 0 m) by (rewrite fmap_add_seq; f_equal; lia). rewrite <- list_fmap_compose.
  apply list_fmap_ext. intros i j _. unfold compose. f_equal. lia.
Qed.
Lemma take_idx_range x n m : (m ≤ n)%nat → take m (idx_range x n) = idx_range x m.
Proof.
  intros Hm. replace n with (m + (n - m))%nat by lia. rewrite idx_range_app. apply take_app_length'.
  by rewrite length_idx_range.
Qed.
Lemma drop_idx_range x n m : (m ≤ n)%nat → drop m (idx_range x n) = idx_range (x + m) (n - m).
Proof.
  intros Hm. replace n with (m + (n - m))%nat at 1 by lia. rewrite idx_range_app. apply drop_app_length'.
  by rewrite length_idx_range.
Qed.

Lemma load_slots_spec r k (sl : list V) x n :
  0 ≤ k ≤ 32 → mask r = 2 ^ k - 1 → Z.of_nat (length sl) = 2 ^ k →
  ∃ vs, load_slots r sl (idx_range x n) = Some vs ∧ length vs = n ∧
    ∀ t : nat, (t < n)%nat → vs !! t = sl !! slot k (x + t).
Proof.
  intros Hk Hm Hl. unfold load_slots.
  assert (0 < 2 ^ k) as Hp by (apply Z.pow_pos_nonneg; lia).
  assert (is_Some (mapM (λ i, sl !! slot_of r i) (idx_range x n))) as [vs Hvs].
  { apply mapM_is_Some, Forall_forall. intros i (t & -> & _)%list_elem_of_fmap. unfold compose.
    rewrite (slot_of_u32 r k) by done. apply lookup_lt_is_Some.
    pose proof (Z.mod_pos_bound (x + t) (2 ^ k) Hp). lia. }
  exists vs. split; [done|]. apply mapM_Some in Hvs. pose proof (Forall2_length _ _ _ Hvs) as Hlen.
  rewrite length_idx_range in Hlen. split; [done|]. intros t Ht.
  assert (is_Some (vs !! t)) as [v Hv] by (apply lookup_lt_is_Some; lia).
  rewrite Hv. symmetry. rewrite <- (slot_of_u32 r k) by done.
  eapply (Forall2_lookup_lr _ _ _ t) in Hvs; [exact Hvs| |exact Hv]. by apply lookup_idx_range.
Qed.

(** ** The invariant

    [b] is where the counters started, [2 ^ k] the number of slots.  The indices
    the clients hold follow the counters.  The private
    copies lag behind: [c0] and [p0] are older values of the counters.  Slots
    between the consumer and the producer hold what was submitted. *)
Record inv (b k : Z) (s : state V) : Prop := {
  i_k : 0 ≤ k ≤ 31;
  i_masks : mask (r_prod s) = 2 ^ k - 1 ∧ mask (r_cons s) = 2 ^ k - 1;
  i_size : size (r_prod s) = 2 ^ k;
  i_slots : Z.of_nat (length (slots s)) = 2 ^ k;
  i_producer : producer s = u32 (b + length (sent s));
  i_consumer : consumer s = u32 (b + length (received s));
  i_reserved : p_held s = idx_range (b + length (sent s)) (length (p_held s)) ∧
                 cached_prod (r_prod s) = u32 (b + length (sent s) + reserved s);
  i_peeked : c_held s = idx_range (b + length (received s)) (length (c_held s)) ∧
               cached_cons (r_cons s) = u32 (b + length (received s) + peeked s);
  i_free : ∃ c0, cached_cons (r_prod s) = u32 (b + c0 + 2 ^ k) ∧
             c0 ≤ length (received s) ∧ length (sent s) + reserved s ≤ c0 + 2 ^ k;
  i_avail : ∃ p0, cached_prod (r_cons s) = u32 (b + p0) ∧
              length (received s) + peeked s ≤ p0 ≤ length (sent s);
  i_prefix : received s = take (length (received s)) (sent s);
  i_values : ∀ i : nat, length (received s) ≤ i < length (sent s) →
               slots s !! slot k (b + i) = sent s !! i
}.

Lemma inv_start b k (sl : list V) :
  0 ≤ k ≤ 31 → is_word 32 b → Z.of_nat (length sl) = 2 ^ k → inv b k (ring_start b (2 ^ k) sl).
Proof.
  intros Hk Hb Hl. assert (0 < 2 ^ k) by (apply Z.pow_pos_nonneg; lia).
  assert (u32 b = b) by by apply wrap_small.
  split; unfold reserved, peeked; simpl; rewrite ?Z.add_0_r; try done; try lia.
  - exists 0. rewrite Z.add_0_r. split_and!; [done|lia|lia].
  - exists 0. rewrite Z.add_0_r. split_and!; [done|lia|lia].
Qed.

(** Dissolves a state and its invariant. *)
Ltac open_inv Hi :=
  destruct Hi as [Hk [Hmp Hmc] Hsize Hsl Hpi Hci [Hhp Hcp] [Hhc Hcc] (c0 & Hfc & Hc0 & Hroom) (p0 & Hac & Hp) Hpre Hval];
  unfold reserved, peeked in *; simpl in *.

(** Reserving succeeds exactly when the entries between what is reserved and what
    is released leave room. *)
Lemma reserve_spec b k s nb :
  inv b k s → 0 ≤ nb < 2 ^ 32 →
  let free := 2 ^ k - (length (sent s) + reserved s - length (received s)) in
  ∃ r, xsk_ring_prod__reserve (r_prod s) (consumer s) nb =
         (if nb <=? free then (nb, Some (cached_prod (r_prod s)), with_prod r (u32 (cached_prod r + nb)))
          else (0, None, r)) ∧
    mask r = mask (r_prod s) ∧ size r = size (r_prod s) ∧ cached_prod r = cached_prod (r_prod s) ∧
    ∃ c0, cached_cons r = u32 (b + c0 + 2 ^ k) ∧ c0 ≤ length (received s) ∧
      length (sent s) + reserved s + (if nb <=? free then nb else 0) ≤ c0 + 2 ^ k.
Proof.
  intros Hi Hnb free. destruct s as [p c pi ci sl hp hc snt rcv]. open_inv Hi.
  assert (2 ^ k ≤ 2 ^ 31) by (apply Z.pow_le_mono_r; lia).
  assert (u32 (cached_cons p - cached_prod p) = c0 + 2 ^ k - (length snt + length hp)) as Ef.
  { rewrite Hfc, Hcp, u32_sub by lia. lia. }
  unfold xsk_ring_prod__reserve, xsk_prod_nb_free. rewrite Ef.
  destruct (Z.leb_spec nb (c0 + 2 ^ k - (length snt + length hp))).
  - exists p. rewrite (proj2 (Z.ltb_ge _ _)) by lia. rewrite (proj2 (Z.leb_le nb free)) by lia.
    split_and!; try done. exists c0. split_and!; [done|lia|lia].
  - simpl. exists (with_cons p (u32 (ci + size p))). simpl.
    assert (u32 (ci + size p) = u32 (b + length rcv + 2 ^ k)) as Ec.
    { by rewrite Hci, Hsize, wrap_add_l. }
    rewrite Ec, Hcp, u32_sub by lia.
    replace (b + length rcv + 2 ^ k - (b + length snt + length hp)) with free by lia.
    destruct (Z.leb_spec nb free); [rewrite (proj2 (Z.ltb_ge _ _)) by lia|rewrite (proj2 (Z.ltb_lt _ _)) by lia];
      (split_and!; try done); exists (Z.of_nat (length rcv)); (split_and!; [done|lia|lia]).
Qed.

(** Peeking gives entries exactly when there are some that were submitted and are
    not held. *)
Lemma peek_spec b k s nb :
  inv b k s → 0 ≤ nb < 2 ^ 32 →
  ∃ n r p0, xsk_ring_cons__peek (r_cons s) (producer s) nb =
         (n, (if 0 <? n then Some (cached_cons (r_cons s)) else None),
          if 0 <? n then with_cons r (u32 (cached_cons r + n)) else r) ∧
    mask r = mask (r_cons s) ∧ cached_cons r = cached_cons (r_cons s) ∧
    cached_prod r = u32 (b + p0) ∧ length (received s) + peeked s + n ≤ p0 ≤ length (sent s) ∧
    0 ≤ n ≤ nb ∧ (n = 0 → nb = 0 ∨ length (received s) + peeked s = length (sent s)).
Proof.
  intros Hi Hnb. destruct s as [p c pi ci sl hp hc snt rcv]. open_inv Hi.
  assert (2 ^ k ≤ 2 ^ 31) by (apply Z.pow_le_mono_r; lia).
  assert (u32 (cached_prod c - cached_cons c) = p0 - (length rcv + length hc)) as Ea.
  { rewrite Hac, Hcc, u32_sub by lia. lia. }
  unfold xsk_ring_cons__peek, xsk_cons_nb_avail. rewrite Ea.
  destruct (Z.eqb_spec (p0 - (length rcv + length hc)) 0) as [E0|E0]; simpl.
  - rewrite Hpi, Hcc. rewrite u32_sub by lia.
    replace (b + length snt - (b + length rcv + length hc)) with (length snt - (length rcv + length hc)) by lia.
    set (n := if nb <? _ then _ else _).
    assert (0 ≤ n ≤ nb ∧ n ≤ length snt - (length rcv + length hc) ∧
      (n = 0 → nb = 0 ∨ length rcv + length hc = length snt)) as (Hn1 & Hn2 & Hn3).
    { unfold n. destruct (Z.ltb_spec nb (length snt - (length rcv + length hc))); lia. }
    exists n, (with_prod c pi), (Z.of_nat (length snt)). simpl. rewrite <- Hcc, Hpi.
    split_and!; try done; try lia. by destruct (0 <? n).
  - set (n := if nb <? _ then _ else _).
    assert (0 ≤ n ≤ nb ∧ n ≤ p0 - (length rcv + length hc) ∧ (n = 0 → nb = 0)) as (Hn1 & Hn2 & Hn3).
    { unfold n. destruct (Z.ltb_spec nb (p0 - (length rcv + length hc))); lia. }
    exists n, c, p0. split_and!; try done; try lia. by destruct (0 <? n).
Qed.

(** What a call gives extends what is held by the next indices. *)
Lemma held_more x n m (h : list Z) :
  h = idx_range x (length h) → m = Z.to_nat n →
  h ++ idx_range (u32 (x + length h)) m = idx_range x (length (h ++ idx_range (u32 (x + length h)) m)).
Proof.
  intros Hh ->. rewrite length_app, length_idx_range, idx_range_u32, idx_range_app, <- Hh. done.
Qed.

Lemma inv_reserve b k s nb :
  inv b k s → 0 ≤ nb < 2 ^ 32 → ∃ s', act (Reserve nb) s = Some s' ∧ inv b k s'.
Proof.
  intros Hi Hnb. destruct (reserve_spec b k s nb Hi Hnb) as (r & E & Hm & Hs & Hcp' & c1 & Hc1 & Hc1' & Hroom1).
  destruct s as [p c pi ci sl hp hc snt rcv]. simpl in *. rewrite E. clear E. open_inv Hi.
  destruct (nb <=? _); (eexists; split; [done|]); split; unfold reserved, peeked; simpl; rewrite ?Hm, ?Hs, ?app_nil_r, ?Z.add_0_r;
    try done; try by eauto.
  - rewrite Hcp. split; [by eapply held_more|].
    rewrite length_app, length_idx_range, Hcp', Hcp, wrap_add_l. f_equal. lia.
  - exists c1. rewrite length_app, length_idx_range. split_and!; [done|lia|lia].
  - split; [done|]. by rewrite Hcp', Hcp.
  - exists c1. split_and!; [done|lia|lia].
Qed.

Lemma inv_peek b k s nb :
  inv b k s → 0 ≤ nb < 2 ^ 32 → ∃ s', act (Peek nb) s = Some s' ∧ inv b k s'.
Proof.
  intros Hi Hnb. destruct (peek_spec b k s nb Hi Hnb) as (n & r & p1 & E & Hm & Hcc' & Hp1 & Hle & Hn & _).
  destruct s as [p c pi ci sl hp hc snt rcv]. simpl in *. rewrite E. clear E. open_inv Hi.
  destruct (Z.ltb_spec 0 n).
  - eexists. split; [done|]. split; unfold reserved, peeked; simpl; rewrite ?Hm; try done; try by eauto.
    + rewrite Hcc. split; [by eapply held_more|].
      rewrite length_app, length_idx_range, Hcc', Hcc, wrap_add_l. f_equal. lia.
    + exists p1. rewrite length_app, length_idx_range. split_and!; [done|lia|lia].
  - assert (n = 0) as -> by lia.
    eexists. split; [done|]. rewrite app_nil_r. split; unfold reserved, peeked; simpl; rewrite ?Hm; try done; try by eauto.
    + split; [done|]. by rewrite Hcc', Hcc.
    + exists p1. split_and!; [done|lia|lia].
Qed.

(** A reserved entry does not share its slot with one in flight. *)
Lemma inv_write b k s i v :
  inv b k s → 0 ≤ i < reserved s → ∃ s', act (WriteSlot i v) s = Some s' ∧ inv b k s'.
Proof.
  intros Hi Hir. destruct s as [p c pi ci sl hp hc snt rcv]. open_inv Hi.
  assert (0 < 2 ^ k) as Hpos by (apply Z.pow_pos_nonneg; lia).
  assert (hp !! Z.to_nat i = Some (u32 (b + (length snt + i)))) as ->.
  { rewrite Hhp, lookup_idx_range by lia. do 2 f_equal. lia. }
  simpl. rewrite (slot_of_u32 p k), decide_True by (done || lia || (pose proof (Z.mod_pos_bound (b + (length snt + i)) (2 ^ k) Hpos); lia)).
  eexists. split; [done|]. split; simpl; rewrite ?length_insert; try done; try by eauto.
  intros j Hj. rewrite list_lookup_insert_ne; [by apply Hval|]. intros E.
  pose proof (Z.mod_pos_bound (b + (length snt + i)) (2 ^ k) Hpos).
  pose proof (Z.mod_pos_bound (b + j) (2 ^ k) Hpos).
  apply Z2Nat.inj in E; [|lia..]. apply mod_window_inj in E; lia.
Qed.

(** Dropping the oldest held entries. *)
Lemma held_rest x (h : list Z) m : h = idx_range x (length h) → (m ≤ length h)%nat →
  drop m h = idx_range (x + m) (length (drop m h)).
Proof. intros Hh Hm. rewrite Hh at 1. by rewrite drop_idx_range, length_drop. Qed.

Lemma inv_submit b k s nb :
  inv b k s → 0 ≤ nb ≤ reserved s → ∃ s', act (Submit nb) s = Some s' ∧ inv b k s'.
Proof.
  intros Hi Hnb. destruct s as [p c pi ci sl hp hc snt rcv]. open_inv Hi.
  rewrite Hhp, take_idx_range by lia. rewrite <- Hhp.
  destruct (load_slots_spec p k sl (b + length snt) (Z.to_nat nb)) as (vs & -> & Hlen & Hvs); [lia|done..|].
  simpl. eexists. split; [done|].
  split; unfold reserved, peeked; simpl; rewrite ?length_app; try done.
  - unfold xsk_ring_prod__submit. rewrite Hpi, wrap_add_l. f_equal. lia.
  - split; [|rewrite Hcp, length_drop; f_equal; lia].
    rewrite (held_rest (b + length snt)) at 1 by (done || lia). f_equal. lia.
  - exists c0. rewrite length_drop. split_and!; [done|lia|lia].
  - exists p0. split_and!; [done|lia|lia].
  - by rewrite take_app_le by lia.
  - intros j Hj. destruct (decide (j < length snt)).
    + rewrite lookup_app_l by lia. apply Hval. lia.
    + rewrite lookup_app_r by lia. rewrite Hvs by lia. do 3 f_equal. lia.
Qed.

(** The entries the consumer holds are the oldest ones not yet released. *)
Lemma held_values b k s (i : nat) idx :
  inv b k s → c_held s !! i = Some idx →
  idx = u32 (consumer s + i) ∧ slots s !! slot_of (r_cons s) idx = sent s !! (length (received s) + i)%nat.
Proof.
  intros Hi Hip. destruct s as [p c pi ci sl hp hc snt rcv]. open_inv Hi.
  pose proof (lookup_lt_Some _ _ _ Hip) as Hlt.
  rewrite Hhc, lookup_idx_range in Hip by done. injection Hip as <-. split; [by rewrite Hci, wrap_add_l|].
  rewrite (slot_of_u32 c k) by (done || lia). rewrite <- Hval by lia. do 3 f_equal. lia.
Qed.

(** The entries the producer holds come next. *)
Lemma reserved_indices b k s (i : nat) idx : inv b k s → p_held s !! i = Some idx → idx = u32 (producer s + i).
Proof.
  intros Hi Hip. destruct s as [p c pi ci sl hp hc snt rcv]. open_inv Hi.
  pose proof (lookup_lt_Some _ _ _ Hip) as Hlt. rewrite Hhp, lookup_idx_range in Hip by done. injection Hip as <-. by rewrite Hpi, wrap_add_l.
Qed.

Lemma inv_cancel b k s nb :
  inv b k s → 0 ≤ nb ≤ peeked s → ∃ s', act (Cancel nb) s = Some s' ∧ inv b k s'.
Proof.
  intros Hi Hnb. destruct s as [p c pi ci sl hp hc snt rcv]. open_inv Hi.
  eexists. split; [done|]. split; unfold reserved, peeked; simpl; try done; try by eauto.
  - split; [rewrite Hhc at 2; rewrite take_idx_range by lia; by rewrite length_take, Nat.min_l by lia|].
    rewrite Hcc, u32_sub_l, length_take. f_equal. lia.
  - exists p0. rewrite length_take. split_and!; [done|lia|lia].
Qed.

Lemma inv_release b k s nb :
  inv b k s → 0 ≤ nb ≤ peeked s →
  ∃ s', act (Release nb) s = Some s' ∧ inv b k s' ∧
    received s' = take (Z.to_nat (length (received s) + nb)) (sent s) ∧ sent s' = sent s.
Proof.
  intros Hi Hnb. destruct s as [p c pi ci sl hp hc snt rcv]. open_inv Hi.
  rewrite Hhc, take_idx_range by lia. rewrite <- Hhc.
  destruct (load_slots_spec c k sl (b + length rcv) (Z.to_nat nb)) as (vs & -> & Hlen & Hvs); [lia|done..|].
  simpl. eexists. split; [done|].
  assert (rcv ++ vs = take (Z.to_nat (length rcv + nb)) snt) as Hrcv.
  { replace (Z.to_nat (length rcv + nb)) with (length rcv + Z.to_nat nb)%nat by lia.
    rewrite take_plus, <- Hpre. f_equal. apply list_eq. intros t. destruct (decide (t < Z.to_nat nb)%nat).
    - rewrite lookup_take_lt, lookup_drop by lia. rewrite Hvs by lia. rewrite <- Hval by lia. do 3 f_equal. lia.
    - rewrite lookup_take_ge by lia. apply lookup_ge_None. lia. }
  split; [|done]. split; unfold reserved, peeked; simpl; rewrite ?length_app; try done.
  - unfold xsk_ring_cons__release. rewrite Hci, wrap_add_l. f_equal. lia.
  - split; [|rewrite Hcc, length_drop; f_equal; lia].
    rewrite (held_rest (b + length rcv)) at 1 by (done || lia). f_equal. lia.
  - exists c0. split_and!; [done|lia|lia].
  - exists p0. rewrite length_drop. split_and!; [done|lia|lia].
  - rewrite Hrcv at 1. f_equal. lia.
  - intros j Hj. apply Hval. lia.
Qed.

(** No allowed action goes outside the array, and each keeps the invariant. *)
Lemma inv_act b k s a :
  inv b k s → allowed a s = true → ∃ s', act a s = Some s' ∧ inv b k s'.
Proof.
  intros Hi Ha. destruct a as [nb|i v|nb|nb|i|nb|nb]; simpl in Ha; apply andb_prop in Ha as [H1 H2];
    apply Z.leb_le in H1; first [apply Z.ltb_lt in H2|apply Z.leb_le in H2].
  - by apply inv_reserve.
  - by apply inv_write.
  - by apply inv_submit.
  - by apply inv_peek.
  - exists s. split; [|done]. unfold peeked in H2.
    destruct (lookup_lt_is_Some_2 (c_held s) (Z.to_nat i)) as [idx E]; [lia|].
    destruct (held_values b k s _ _ Hi E) as [_ Hv].
    assert (is_Some (sent s !! (length (received s) + Z.to_nat i)%nat)) as [v Hs].
    { apply lookup_lt_is_Some. destruct Hi as [_ _ _ _ _ _ _ _ _ (p0 & _ & ?) _ _]. unfold peeked in *. lia. }
    destruct s. simpl in *. by rewrite E; simpl; rewrite Hv, Hs.
  - by apply inv_cancel.
  - destruct (inv_release b k s nb Hi (conj H1 H2)) as (s' & ? & ? & _). by exists s'.
Qed.

Lemma inv_reachable b k s0 s : inv b k s0 → reachable s0 s → inv b k s.
Proof.
  intros H0. induction 1 as [|s a s' _ IH Ha Hs]; [done|].
  destruct (inv_act b k s a IH Ha) as (s1 & E & ?). congruence.
Qed.
End fifo.

(** ** Progress

    [progress n s s']: from [s] to [s'] the consumer completes [n] rounds of
    peeking at one or more entries and releasing all it holds, while the producer
    does whatever it is allowed to, before, within and after the rounds. *)

Section progress.
Context {V : Type}.
Implicit Types s : state V.

Definition is_producer (a : action V) : bool :=
  match a with Reserve _ | WriteSlot _ _ | Submit _ => true | _ => false end.

Inductive prods : state V → state V → Prop :=
  | prods_refl s : prods s s
  | prods_step s a s1 s2 :
      is_producer a = true → allowed a s = true → act a s = Some s1 → prods s1 s2 → prods s s2.

Inductive progress : nat → state V → state V → Prop :=
  | progress_done s : progress 0 s s
  | progress_prods n s s1 s2 : prods s s1 → progress n s1 s2 → progress n s s2
  | progress_round n s nb s1 s2 s3 s4 :
      1 ≤ nb < 2 ^ 32 → act (Peek nb) s = Some s1 → prods s1 s2 →
      act (Release (peeked s2)) s2 = Some s3 → progress n s3 s4 → progress (S n) s s4.

(** The producer leaves what was received and is held, and only adds to what was
    sent. *)
Lemma prods_effect b k s s' :
  inv b k s → prods s s' →
  inv b k s' ∧ received s' = received s ∧ peeked s' = peeked s ∧ length (sent s) ≤ length (sent s').
Proof.
  intros Hi Hp. induction Hp as [s|s a s1 s2 Hpa Ha Hs Hp IH]; [split_and!; [done..|lia]|].
  destruct (inv_act b k s a Hi Ha) as (s1' & E & Hi1). rewrite Hs in E. injection E as <-.
  destruct (IH Hi1) as (Hi2 & E1 & E2 & Hle). rewrite E1, E2. split; [done|].
  destruct s as [p c pi ci sl hp hc snt rcv].
  destruct a as [nb|i v|nb|nb|i|nb|nb]; try done; simpl in Hs.
  - destruct (xsk_ring_prod__reserve p ci nb) as [[n o] r], (given n o); simplify_eq/=. by split_and!.
  - destruct (hp !! _); simplify_eq/=. case_decide; simplify_eq/=. by split_and!.
  - destruct (load_slots _ _ _) as [vs|]; simplify_eq/=. rewrite length_app in Hle. split_and!; [done..|lia].
Qed.

Lemma peek_effect b k s nb s1 :
  inv b k s → 1 ≤ nb < 2 ^ 32 → act (Peek nb) s = Some s1 →
  inv b k s1 ∧ received s1 = received s ∧ sent s1 = sent s ∧
  Z.min (length (sent s)) (length (received s) + 1) ≤ length (received s) + peeked s1.
Proof.
  intros Hi Hnb Hs. destruct (inv_peek b k s nb Hi) as (s1' & E & Hi1); [lia|].
  rewrite Hs in E. injection E as <-. split; [done|].
  destruct (peek_spec b k s nb Hi) as (n & r & p0 & E & _ & _ & _ & Hle & Hn & Hz); [lia|].
  destruct s as [p c pi ci sl hp hc snt rcv]. simpl in *. rewrite E in Hs. unfold peeked in *. simpl in *.
  destruct (Z.ltb_spec 0 n); simpl in Hs.
  - injection Hs as <-. simpl. rewrite length_app, length_idx_range. split_and!; [done..|lia].
  - assert (n = 0) as -> by lia. injection Hs as <-. simpl. rewrite app_nil_r. split_and!; [done..|].
    destruct (Hz eq_refl); lia.
Qed.

Lemma progress_bound b k n s s' :
  inv b k s → progress n s s' →
  Z.min (length (sent s)) (length (received s) + n) ≤ length (received s').
Proof.
  intros Hi Hp. revert Hi. induction Hp as [s|n s s1 s2 Hp _ IH|n s nb s1 s2 s3 s4 Hnb H1 Hp H3 _ IH]; intros Hi.
  - lia.
  - destruct (prods_effect b k s s1 Hi Hp) as (Hi1 & E & _ & Hle). specialize (IH Hi1). rewrite E in IH. lia.
  - destruct (peek_effect b k s nb s1 Hi Hnb H1) as (Hi1 & E1 & E1' & Hmin).
    destruct (prods_effect b k s1 s2 Hi1 Hp) as (Hi2 & E2 & E2' & Hle2).
    assert (0 ≤ peeked s2) as Hpk by (unfold peeked; lia). pose proof (i_avail _ _ _ Hi2) as (p0 & _ & Hp0).
    destruct (inv_release b k s2 (peeked s2) Hi2) as (s3' & E & Hi3 & Hr3 & Hs3); [lia|].
    rewrite H3 in E. injection E as <-. specialize (IH Hi3).
    assert (length (received s3) = Z.to_nat (length (received s2) + peeked s2)) as Hl.
    { rewrite Hr3, length_take. lia. }
    rewrite Hl, Hs3 in IH. rewrite E1' in Hle2. rewrite E2, E1, E2' in IH. lia.
Qed.
End progress.

(** ** The claims *)

(** C19: Two clients use a ring of [2 ^ k] slots whose counters start anywhere, in
    any interleaving of allowed calls, and reach its slots through the indices
    that reserving and peeking gave them.  What was received is always a prefix
    of what was sent, the rest is in flight, and the entries in flight together
    with the reserved ones never exceed the ring: no entry is lost, duplicated,
    reordered or overwritten, across any wrap-around of the 32-bit counters.  No
    allowed call leaves the array.  The indices a client holds count on from its
    shared counter, the entry with number [i] in flight is in the slot that the
    counter [b + i] selects, where the kernel looks for it, and an index the
    consumer holds reads as the value that was submitted. *)
Theorem ring_fifo {V : Type} (b k : Z) (sl : list V) (s : state V)
    (Hk : 0 ≤ k ≤ 31) (Hb : is_word 32 b) (Hsl : Z.of_nat (length sl) = 2 ^ k)
    (Hs : reachable (ring_start b (2 ^ k) sl) s) :
  (∃ flight, sent s = received s ++ flight ∧ length flight + reserved s ≤ 2 ^ k ∧ peeked s ≤ length flight) ∧
  (∀ a, allowed a s = true → is_Some (act a s)) ∧
  (∀ i : nat, length (received s) ≤ i < length (sent s) →
     slots s !! Z.to_nat ((b + i) mod 2 ^ k) = sent s !! i) ∧
  (∀ (i : nat) idx, p_held s !! i = Some idx → idx = u32 (producer s + i)) ∧
  (∀ (i : nat) idx, c_held s !! i = Some idx → idx = u32 (consumer s + i) ∧
     slots s !! slot_of (r_cons s) idx = sent s !! (length (received s) + i)%nat).
Proof.
  pose proof (inv_reachable b k _ _ (inv_start b k sl Hk Hb Hsl) Hs) as Hi. split_and!.
  - exists (drop (length (received s)) (sent s)).
    pose proof (i_free _ _ _ Hi) as (c0 & _ & ? & ?). pose proof (i_avail _ _ _ Hi) as (p0 & _ & ?).
    unfold peeked in *. rewrite length_drop. split_and!; [|lia|lia].
    rewrite <- (take_drop (length (received s)) (sent s)) at 1. f_equal. symmetry. apply (i_prefix _ _ _ Hi).
  - intros a Ha. destruct (inv_act b k s a Hi Ha) as (s' & ? & _). by exists s'.
  - apply (i_values _ _ _ Hi).
  - intros i idx. by apply (reserved_indices b k).
  - intros i idx. by apply (held_values b k).
Qed.

(** C20: On such a ring both sides make progress.  In any reachable state the
    consumer can complete a round of peeking and releasing; after [n] rounds,
    whatever the producer does meanwhile, at least [n] more entries, or all that
    were in flight at the start, have been received.  A reservation succeeds
    exactly when that many slots are free, counting what the consumer has
    released so far, so that a producer whose entries were all received can
    reserve the whole ring. *)
Theorem ring_progress {V : Type} (b k : Z) (sl : list V) (s : state V)
    (Hk : 0 ≤ k ≤ 31) (Hb : is_word 32 b) (Hsl : Z.of_nat (length sl) = 2 ^ k)
    (Hs : reachable (ring_start b (2 ^ k) sl) s) :
  (∃ s', progress 1 s s') ∧
  (∀ n s', progress n s s' → Z.min (length (sent s)) (length (received s) + n) ≤ length (received s')) ∧
  (∀ nb, 0 ≤ nb < 2 ^ 32 →
     (xsk_ring_prod__reserve (r_prod s) (consumer s) nb).1.1 =
       if nb <=? 2 ^ k - (length (sent s) - length (received s) + reserved s) then nb else 0).
Proof.
  pose proof (inv_reachable b k _ _ (inv_start b k sl Hk Hb Hsl) Hs) as Hi. split_and!.
  - destruct (inv_peek b k s 1 Hi) as (s1 & E1 & Hi1); [lia|].
    destruct (inv_release b k s1 (peeked s1) Hi1) as (s2 & E2 & _ & _).
    { unfold peeked. lia. }
    exists s2. eapply (progress_round _ _ 1); [lia|done|apply prods_refl|done|apply progress_done].
  - intros n s'. by apply (progress_bound b k).
  - intros nb Hnb. destruct (reserve_spec b k s nb Hi Hnb) as (r & -> & _).
    replace (length (sent s) + reserved s - length (received s))
      with (length (sent s) - length (received s) + reserved s) by lia.
    by destruct (nb <=? _).
Qed.

(** A ring of two slots whose counters are about to wrap: three entries pass
    through it. *)
Definition run_actions {V} (acts : list (action V)) (s : state V) : option (state V) :=
  foldl (λ o a, s ← o; if allowed a s then act a s else None) (Some s) acts.

Lemma run_reachable {V} acts (s0 s s' : state V) :
  reachable s0 s → run_actions acts s = Some s' → reachable s0 s'.
Proof.
  unfold run_actions. revert s. induction acts as [|a acts IH]; intros s Hr; simpl.
  { by intros [= <-]. }
  assert (∀ l, foldl (λ (o : option (state V)) a, s ← o; if allowed a s then act a s else None) None l = None) as Hn.
  { intros l. induction l; done. }
  destruct (allowed a s) eqn:Ha; [|by rewrite Hn].
  destruct (act a s) as [s1|] eqn:E; [|by rewrite Hn]. apply IH. by eapply reach_act.
Qed.

Definition wrap_start : state Z := ring_start (2 ^ 32 - 1) (2 ^ 1) [0; 0].
Definition wrap_acts : list (action Z) :=
  [Reserve 2; WriteSlot 0 10; WriteSlot 1 11; Submit 2; Reserve 1; Peek 5; ReadSlot 0; Release 1;
   Reserve 1; WriteSlot 0 12; Submit 1].
Definition wrap_end : state Z := default wrap_start (run_actions wrap_acts wrap_start).

Lemma wrap_reachable : reachable wrap_start wrap_end.
Proof. apply (run_reachable wrap_acts wrap_start wrap_start); [constructor|vm_compute; reflexivity]. Qed.

Lemma ring_fifo_witness :
  (sent wrap_end = [10; 11; 12] ∧ received wrap_end = [10] ∧ producer wrap_end = 2 ∧ c_held wrap_end = [0]) ∧
  (∃ flight, [10; 11; 12] = [10] ++ flight ∧ length flight + 0 ≤ 2 ^ 1) ∧
  slots wrap_end !! slot_of (r_cons wrap_end) 0 = Some 11.
Proof.
  split; [vm_compute; auto|].
  destruct (ring_fifo (2 ^ 32 - 1) 1 [0; 0] wrap_end) as ((flight & E & Hl & _) & _ & _ & _ & Hc).
  - split; discriminate.
  - split; [discriminate|reflexivity].
  - reflexivity.
  - exact wrap_reachable.
  - split; [exists flight; split; [exact E|exact Hl]|]. apply (Hc 0%nat 0). vm_compute. reflexivity.
Defined.

Lemma ring_progress_witness :
  length (received wrap_end) = 1%nat ∧
  ∀ s', progress 2 wrap_end s' → 3 ≤ length (received s').
Proof.
  split; [vm_compute; reflexivity|]. intros s' Hp.
  destruct (ring_progress (2 ^ 32 - 1) 1 [0; 0] wrap_end) as (_ & Hb & _).
  - split; discriminate.
  - split; [discriminate|reflexivity].
  - reflexivity.
  - exact wrap_reachable.
  - exact (Hb 2%nat s' Hp).
Defined.
