(* ===== verification/Ringbuf.v ===== *)
(** * libbpf: BPF ring buffers

    The two loops of [ringbuf.c] over memory that is shared with the kernel: the
    consumer [ringbuf_process_ring], and the producer of a user ring buffer
    ([user_ring_buffer__reserve], [user_ringbuf_commit]).  A ring is a
    power-of-two number of bytes, mapped twice in a row so that a record that
    passes the end can be read in one piece, and two 64-bit positions; a record
    is a header of 8 bytes, with its length and two flags, and its bytes.

    Both follow the same protocol, each against the kernel on the other side.
    Here they are run against each other, in any interleaving of their accesses to
    the shared memory, which shows what either relies on and guarantees.  A
    reservation is one step after its load of the consumer's position: what it
    writes lies beyond the producer's position, which it stores last. *)

From S2P Require Import Prelude Errno.
Local Open Scope Z_scope.

Definition BPF_RINGBUF_BUSY_BIT : Z := 2 ^ 31.
Definition BPF_RINGBUF_DISCARD_BIT : Z := 2 ^ 30.
Definition BPF_RINGBUF_HDR_SZ : Z := 8.

(** ** Memory that is mapped twice *)

Definition cell (d : list Z) (p : Z) : Z := d !!! Z.to_nat (p mod length d).
Fixpoint wr (d : list Z) (o : Z) (bs : list Z) : list Z :=
  match bs with [] => d | b :: bs => wr (<[Z.to_nat (o mod length d) := b]> d) (o + 1) bs end.

Definition inside (d : list Z) (o n : Z) : bool := (0 <=? o) && (0 <=? n) && (o + n <=? 2 * length d).
Definition mread (o n : Z) (d : list Z) : option (list Z) :=
  if inside d o n then Some ((λ i, cell d (o + Z.of_nat i)) <$> seq 0 (Z.to_nat n)) else None.
Definition mwrite (o : Z) (bs d : list Z) : option (list Z) :=
  if inside d o (length bs) then Some (wr d o bs) else None.
Definition mread32 (o : Z) (d : list Z) : option Z := le_val <$> mread o 4 d.
Definition mwrite32 (o v : Z) (d : list Z) : option (list Z) := mwrite o (le_bytes 4 v) d.

(** ** The functions of [ringbuf.c] *)

Definition roundup_len (len : Z) : Z :=
  let len := Z.shiftr (u32 (Z.shiftl (u32 len) 2)) 2 in
  let len := u32 (len + BPF_RINGBUF_HDR_SZ) in
  s32 (u32 (len + 7) / 8 * 8).

(** [user_ring_buffer__reserve]: [cons_pos] and [prod_pos] are the values that
    were loaded.  The result is an error number, or the offset of the sample, the
    new position of the producer, and the memory. *)
Definition user_ring_buffer__reserve (mask cons_pos prod_pos size : Z) (d : list Z) : option (Z + Z * Z * list Z) :=
  if negb (Z.land size (Z.lor BPF_RINGBUF_BUSY_BIT BPF_RINGBUF_DISCARD_BIT) =? 0) then Some (inl E2BIG)
  else
    let max_size := u32 (mask + 1) in
    let avail_size := u32 (max_size - u64 (prod_pos - cons_pos)) in
    let total_size := u32 (size + BPF_RINGBUF_HDR_SZ + 7) / 8 * 8 in
    if max_size <? total_size then Some (inl E2BIG)
    else if avail_size <? total_size then Some (inl ENOSPC)
    else
      let hdr := Z.land prod_pos mask in
      d ← mwrite32 hdr (Z.lor size BPF_RINGBUF_BUSY_BIT) d;
      d ← mwrite32 (hdr + 4) 0 d;
      Some (inr (Z.land (u64 (prod_pos + BPF_RINGBUF_HDR_SZ)) mask, u64 (prod_pos + total_size), d)).

Definition user_ringbuf_commit (mask sample : Z) (discard : bool) (d : list Z) : option (list Z) :=
  let hdr_offset := u64 (mask + 1 + sample - BPF_RINGBUF_HDR_SZ) in
  let hdr := Z.land hdr_offset mask in
  len ← mread32 hdr d;
  let new_len := Z.land len (u32 (Z.lnot BPF_RINGBUF_BUSY_BIT)) in
  let new_len := if discard then Z.lor new_len BPF_RINGBUF_DISCARD_BIT else new_len in
  mwrite32 hdr new_len d.
Definition user_ring_buffer__discard (mask sample : Z) (d : list Z) : option (list Z) := user_ringbuf_commit mask sample true d.
Definition user_ring_buffer__submit (mask sample : Z) (d : list Z) : option (list Z) := user_ringbuf_commit mask sample false d.

(** [ringbuf_process_ring], from one access to shared memory to the next: before
    the load of the producer's position, at the head of the inner loop, with the
    length of a record that is ready, and before the consumer's position is
    stored. *)
Inductive pc :=
  | Idle
  | Outer (cons_pos cnt : Z)
  | Inner (cons_pos prod_pos cnt : Z) (got_new_data : bool)
  | Loaded (cons_pos prod_pos cnt len : Z)
  | Store (cons_pos prod_pos : Z) (next : Z + Z)   (* the error of the call-back, or the count *)
  | Finished (ret : Z).

(** What the consumer sees and changes: the two positions, the memory, and the
    samples given to the call-back so far. *)
Record ring := mk_ring { cons_at : Z; prod_at : Z; data : list Z; delivered : list (list Z) }.

Definition process_step (mask : Z) (sample_cb : list (list Z) → list Z → Z) (q : pc) (r : ring) : option (pc * ring) :=
  match q with
  | Idle | Finished _ => Some (Outer (cons_at r) 0, r)
  | Outer c cnt => Some (Inner c (prod_at r) cnt false, r)
  | Inner c p cnt got =>
    if c <? p then
      len ← mread32 (Z.land c mask) (data r);
      Some (if negb (Z.land len BPF_RINGBUF_BUSY_BIT =? 0) then Finished cnt else Loaded c p cnt len, r)
    else Some (if got : bool then Outer c cnt else Finished cnt, r)
  | Loaded c p cnt len =>
    let c' := u64 (c + roundup_len len) in
    if Z.land len BPF_RINGBUF_DISCARD_BIT =? 0 then
      sample ← mread (Z.land c mask + BPF_RINGBUF_HDR_SZ) len (data r);
      let err := sample_cb (delivered r) sample in
      Some (Store c' p (if err <? 0 then inl err else inr (cnt + 1)),
            mk_ring (cons_at r) (prod_at r) (data r) (delivered r ++ [sample]))
    else Some (Store c' p (inr cnt), r)
  | Store c p next =>
    Some (match next with inl err => Finished err | inr cnt => Inner c p cnt true end,
          mk_ring c (prod_at r) (data r) (delivered r))
  end.

(** The whole call, with nobody else at work.  A record has 8 bytes at least, and
    takes three steps. *)
Fixpoint process_from (fuel : nat) (mask : Z) (sample_cb : list (list Z) → list Z → Z) (q : pc) (r : ring) : option (Z * ring) :=
  '(q, r) ← process_step mask sample_cb q r;
  match q, fuel with
  | Finished ret, _ => Some (ret, r)
  | _, S fuel => process_from fuel mask sample_cb q r
  | _, O => None
  end.
Definition ringbuf_process_ring (mask : Z) (sample_cb : list (list Z) → list Z → Z) (r : ring) : option (Z * ring) :=
  process_from (3 * length (data r) + 5) mask sample_cb Idle r.

(** ** The two sides together *)

Inductive status := Busy | Submitted (sample : list Z) | Discarded.
(** [r_ptr] is the pointer that reserving the record gave to its owner. *)
Record record := mk_rec { r_len : Z; r_ptr : Z; r_status : status }.

(** [seen] is the consumer's position as the producer last loaded it; [recs] are
    the records reserved so far. *)
Record state := mk_state { shared : ring; at_ : pc; seen : Z; recs : list record }.

(** What the producer may do: load the consumer's position, reserve, write into a
    sample that it holds, and submit or discard it, through the pointer that it
    was given. *)
Inductive action :=
  | PLoad
  | PReserve (size : Z)
  | PWrite (i : nat) (off : Z) (bs : list Z)
  | PCommit (i : nat) (discard : bool)
  | Consume.

Definition rnd (len : Z) : Z := (len + 15) / 8 * 8.
Definition total (rs : list record) : Z := foldr (λ r n, rnd (r_len r) + n) 0 rs.
#[global] Arguments total : simpl never.
(** Where record [i] is. *)
Definition start (rs : list record) (i : nat) : Z := total (take i rs).

Section run.
Context (mask : Z) (sample_cb : list (list Z) → list Z → Z).

(** Positions do not come near the end of 64 bits. *)
Definition allowed (a : action) (s : state) : bool :=
  match a with
  | PReserve size => (0 <=? size) && (size <? 2 ^ 32) && (prod_at (shared s) <? 2 ^ 63)
  | PWrite i off bs =>
    match recs s !! i with
    | Some (mk_rec len _ Busy) => (0 <=? off) && (off + length bs <=? len) && bool_decide (bytes_ok bs)
    | _ => false
    end
  | PCommit i _ => match recs s !! i with Some (mk_rec _ _ Busy) => true | _ => false end
  | PLoad | Consume => true
  end.

Definition set_data (r : ring) (d : list Z) : ring := mk_ring (cons_at r) (prod_at r) d (delivered r).

Definition act (a : action) (s : state) : option state :=
  let 'mk_state r q sn rs := s in
  match a with
  | PLoad => Some (mk_state r q (cons_at r) rs)
  | PReserve size =>
    res ← user_ring_buffer__reserve mask sn (prod_at r) size (data r);
    Some (match res with
          | inl _ => s
          | inr (ptr, p, d) => mk_state (mk_ring (cons_at r) p d (delivered r)) q sn (rs ++ [mk_rec size ptr Busy])
          end)
  | PWrite i off bs =>
    rc ← rs !! i;
    d ← mwrite (r_ptr rc + off) bs (data r); Some (mk_state (set_data r d) q sn rs)
  | PCommit i discard =>
    rc ← rs !! i;
    d ← user_ringbuf_commit mask (r_ptr rc) discard (data r);
    sample ← mread (r_ptr rc) (r_len rc) (data r);
    Some (mk_state (set_data r d) q sn (<[i := mk_rec (r_len rc) (r_ptr rc) (if discard then Discarded else Submitted sample)]> rs))
  | Consume => '(q, r) ← process_step mask sample_cb q r; Some (mk_state r q sn rs)
  end.

Fixpoint exec (as_ : list action) (s : state) : option state :=
  match as_ with
  | [] => Some s
  | a :: as_ => if allowed a s then s ← act a s; exec as_ s else exec as_ s
  end.
End run.

Definition init (k : nat) : state := mk_state (mk_ring 0 0 (replicate (2 ^ k) 0) []) Idle 0 [].

(** ** Lemmas on the memory *)

Lemma length_wr d o bs : length (wr d o bs) = length d.
Proof. revert d o. induction bs as [|b bs IH]; intros d o; [done|]. cbn. by rewrite IH, length_insert. Qed.

Lemma mod_window n p q : 0 < n → p mod n = q mod n → - n < p - q < n → p = q.
Proof.
  intros Hn E Hw. pose proof (Z.div_mod p n ltac:(lia)) as Hp. pose proof (Z.div_mod q n ltac:(lia)) as Hq. rewrite E in Hp.
  set (a := p / n) in *. set (b := q / n) in *. assert (- n < n * (a - b) < n) by lia.
  assert (-1 < a - b < 1) by (split; apply (Zmult_lt_reg_r _ _ n); lia). assert (a = b) by lia. congruence.
Qed.

Lemma cell_cong d p q : p mod length d = q mod length d → cell d p = cell d q.
Proof. unfold cell. by intros ->. Qed.

Lemma wr_cong bs : ∀ d o o', o mod length d = o' mod length d → wr d o bs = wr d o' bs.
Proof.
  induction bs as [|b bs IH]; intros d o o' E; [done|]. cbn. rewrite E. apply IH. rewrite length_insert.
  rewrite <- (Zplus_mod_idemp_l o 1), E, Zplus_mod_idemp_l. done.
Qed.

Lemma cell_insert d o b p : 0 < length d →
  cell (<[Z.to_nat (o mod length d) := b]> d) p = if decide (o mod length d = p mod length d) then b else cell d p.
Proof.
  intros Hd. unfold cell. rewrite length_insert. pose proof (Z.mod_pos_bound o (length d) Hd). pose proof (Z.mod_pos_bound p (length d) Hd).
  destruct (decide _) as [->|Hne]; [apply list_lookup_total_insert_eq; lia|]. apply list_lookup_total_insert_ne. lia.
Qed.

Lemma cell_wr_miss bs : ∀ d o p, 0 < length d → (∀ i : nat, (i < length bs)%nat → (o + i) mod length d ≠ p mod length d) →
  cell (wr d o bs) p = cell d p.
Proof.
  induction bs as [|b bs IH]; intros d o p Hd Hm; [done|]. cbn. rewrite IH; [|by rewrite length_insert|].
  - rewrite cell_insert by done. rewrite decide_False; [done|]. specialize (Hm 0%nat ltac:(cbn; lia)). by rewrite Z.add_0_r in Hm.
  - intros i Hi. rewrite length_insert. specialize (Hm (S i) ltac:(cbn; lia)). by replace (o + 1 + i) with (o + S i) by lia.
Qed.

(** The bytes at a position. *)
Definition hold (d : list Z) (p : Z) (bs : list Z) : Prop := ∀ i b, bs !! i = Some b → cell d (p + Z.of_nat i) = b.

Lemma hold_wr_same d o bs : Z.of_nat (length bs) ≤ length d → 0 < length d → hold (wr d o bs) o bs.
Proof.
  intros Hl Hd. revert d o Hl Hd. induction bs as [|b bs IH]; intros d o Hl Hd i x Hx; [done|]. cbn [length wr] in Hl |- *.
  destruct i as [|i]; cbn in Hx.
  - injection Hx as <-. rewrite Z.add_0_r. rewrite cell_wr_miss; [|by rewrite length_insert|].
    + rewrite cell_insert by done. by rewrite decide_True.
    + intros i Hi E. rewrite length_insert in E. apply mod_window in E; lia.
  - replace (o + Z.of_nat (S i)) with (o + 1 + Z.of_nat i) by lia. apply (IH (<[_ := b]> d) (o + 1)); [rewrite length_insert; lia..|done].
Qed.

(** Two ranges that lie apart in one turn of the ring. *)
Definition apart (n p1 n1 p2 n2 : Z) : Prop :=
  (p1 + n1 ≤ p2 ∧ p2 + n2 ≤ p1 + n ∨ p2 + n2 ≤ p1 ∧ p1 + n1 ≤ p2 + n).

Lemma hold_wr_other d o ws p bs : 0 < length d → apart (length d) o (length ws) p (length bs) → hold d p bs → hold (wr d o ws) p bs.
Proof.
  intros Hd Ha Hh i b Hi. rewrite cell_wr_miss; [by apply Hh|done|]. intros j Hj E. apply lookup_lt_Some in Hi.
  unfold apart in Ha. apply mod_window in E; lia.
Qed.

Lemma hold_cong d p q bs : p mod length d = q mod length d → hold d p bs → hold d q bs.
Proof.
  intros E Hh i b Hi. rewrite <- (Hh i b Hi). apply cell_cong. by rewrite <- Zplus_mod_idemp_l, <- E, Zplus_mod_idemp_l.
Qed.

Lemma mread_hold d o bs : hold d o bs → 0 ≤ o → o + length bs ≤ 2 * length d → mread o (length bs) d = Some bs.
Proof.
  intros Hh Ho Hi. unfold mread, inside. rewrite (proj2 (Z.leb_le 0 o)), (proj2 (Z.leb_le 0 _)), (proj2 (Z.leb_le (o + _) _)) by lia.
  cbn [andb]. f_equal. rewrite Nat2Z.id. apply list_eq. intros i. rewrite list_lookup_fmap.
  destruct (decide (i < length bs)%nat) as [Hl|Hl].
  - rewrite lookup_seq_lt by done. destruct (lookup_lt_is_Some_2 bs i Hl) as [b Hb]. rewrite Hb. cbn. f_equal. by apply Hh.
  - rewrite lookup_seq_ge, lookup_ge_None_2 by lia. done.
Qed.

Section pow.
Context (k : nat) (Hk : (3 ≤ k ≤ 31)%nat).
Abbreviation sz := (2 ^ Z.of_nat k).
Abbreviation mask := (sz - 1).

Lemma sz_bounds : 8 ≤ sz ≤ 2 ^ 31 ∧ sz mod 8 = 0.
Proof.
  replace (Z.of_nat k) with (3 + Z.of_nat (k - 3)) by lia. rewrite Z.pow_add_r by lia. change (2 ^ 3) with 8.
  pose proof (Z.pow_pos_nonneg 2 (Z.of_nat (k - 3)) ltac:(lia) ltac:(lia)).
  assert (2 ^ Z.of_nat (k - 3) ≤ 2 ^ 28) by (apply Z.pow_le_mono_r; lia). change (2 ^ 31) with (8 * 2 ^ 28).
  split; [lia|]. rewrite Z.mul_comm. by apply Z.mod_mul.
Qed.
Lemma land_mask p : Z.land p mask = p mod sz.
Proof. rewrite <- Z.land_ones by lia. f_equal. rewrite Z.ones_equiv. lia. Qed.
Lemma mod_sz p : 0 ≤ p mod sz < sz.
Proof. apply Z.mod_pos_bound. pose proof sz_bounds. lia. Qed.

(** Reading and writing through the mask. *)
Lemma at_cong p off : (p mod sz + off) mod sz = (p + off) mod sz.
Proof. apply Zplus_mod_idemp_l. Qed.
Lemma read_at d p off bs : Z.of_nat (length d) = sz → hold d (p + off) bs → 0 ≤ off → off + Z.of_nat (length bs) ≤ sz →
  mread (Z.land p mask + off) (length bs) d = Some bs.
Proof.
  intros Hd Hh Ho Hl. rewrite land_mask. pose proof (mod_sz p). apply mread_hold; [|lia|rewrite Hd; lia].
  eapply hold_cong; [|exact Hh]. rewrite Hd. symmetry. apply at_cong.
Qed.
Lemma write_at d p off bs : Z.of_nat (length d) = sz → 0 ≤ off → off + Z.of_nat (length bs) ≤ sz →
  mwrite (Z.land p mask + off) bs d = Some (wr d (p + off) bs).
Proof.
  intros Hd Ho Hl. rewrite land_mask. pose proof (mod_sz p). unfold mwrite, inside.
  rewrite (proj2 (Z.leb_le 0 _)), (proj2 (Z.leb_le 0 _)), (proj2 (Z.leb_le (_ + _) _)) by lia.
  cbn [andb]. f_equal. apply wr_cong. rewrite Hd. apply at_cong.
Qed.
Lemma read32_at d p w : Z.of_nat (length d) = sz → hold d p (le_bytes 4 w) → 0 ≤ w < 2 ^ 32 → mread32 (Z.land p mask) d = Some w.
Proof.
  intros Hd Hh Hw. pose proof sz_bounds. rewrite <- (Z.add_0_r p) in Hh.
  pose proof (read_at d p 0 (le_bytes 4 w) Hd Hh ltac:(lia) ltac:(rewrite length_le_bytes; lia)) as E.
  rewrite length_le_bytes, Z.add_0_r in E. unfold mread32. change 4 with (Z.of_nat 4). rewrite E.
  cbn [fmap option_fmap option_map]. f_equal. rewrite le_val_le_bytes. by apply wrap_small.
Qed.
Lemma read_some d p n : Z.of_nat (length d) = sz → 0 ≤ n ≤ sz →
  ∃ bs, mread (Z.land p mask) n d = Some bs ∧ Z.of_nat (length bs) = n ∧ hold d p bs.
Proof.
  intros Hd Hn. rewrite land_mask. pose proof (mod_sz p). unfold mread, inside.
  rewrite (proj2 (Z.leb_le 0 _)), (proj2 (Z.leb_le 0 _)), (proj2 (Z.leb_le (_ + _) _)) by lia. cbn [andb].
  eexists. split; [done|]. rewrite length_fmap, length_seq. split; [lia|]. intros i b Hi.
  rewrite list_lookup_fmap in Hi. destruct (seq _ _ !! i) as [x|] eqn:E; [|done]. apply lookup_seq in E as [-> _].
  injection Hi as <-. apply cell_cong. rewrite Hd. symmetry. apply at_cong.
Qed.
End pow.

(** ** Lengths and flags *)

Definition hdr_word (r : record) : Z :=
  match r_status r with
  | Busy => 2 ^ 31 + r_len r
  | Submitted _ => r_len r
  | Discarded => 2 ^ 30 + r_len r
  end.
Definition len_ok (len : Z) : Prop := 0 ≤ len < 2 ^ 30.

Lemma land_bit w n : 0 ≤ n → Z.land w (2 ^ n) = if Z.testbit w n then 2 ^ n else 0.
Proof.
  intros Hn. apply Z.bits_inj'. intros i Hi. rewrite Z.land_spec, Z.pow2_bits_eqb by done.
  destruct (Z.eqb_spec n i) as [->|Hne]; [|rewrite andb_false_r; destruct (Z.testbit w n); by rewrite ?Z.pow2_bits_false, ?Z.bits_0].
  rewrite andb_true_r. destruct (Z.testbit w i) eqn:E; [by rewrite Z.pow2_bits_true|by rewrite Z.bits_0].
Qed.
Lemma bit_of w n : 0 ≤ n → 0 ≤ w < 2 ^ (n + 1) → Z.testbit w n = (2 ^ n <=? w).
Proof.
  intros Hn Hw. pose proof (Z.pow_pos_nonneg 2 n ltac:(lia) Hn). rewrite Z.pow_add_r in Hw by lia. change (2 ^ 1) with 2 in Hw.
  destruct (Z.leb_spec (2 ^ n) w).
  - apply Z.testbit_true; [done|]. assert (w / 2 ^ n = 1) as -> by (symmetry; apply (Z.div_unique_pos w (2 ^ n) 1 (w - 2 ^ n)); lia). done.
  - apply Z.testbit_false; [done|]. rewrite Z.div_small by lia. done.
Qed.
Lemma or_bit n w : 0 ≤ n → 0 ≤ w < 2 ^ n → Z.lor w (2 ^ n) = 2 ^ n + w.
Proof.
  intros Hn Hw. rewrite Z.lor_comm, <- (Z.shiftl_1_l n). rewrite lor_add_disjoint by done. rewrite Z.shiftl_1_l. lia.
Qed.

Lemma small_size size : 0 ≤ size < 2 ^ 32 →
  (Z.land size (Z.lor BPF_RINGBUF_BUSY_BIT BPF_RINGBUF_DISCARD_BIT) =? 0) = (size <? 2 ^ 30).
Proof.
  intros Hs. change (Z.lor BPF_RINGBUF_BUSY_BIT BPF_RINGBUF_DISCARD_BIT) with (Z.shiftl 3 30).
  destruct (Z.ltb_spec size (2 ^ 30)) as [Hl|Hl].
  - apply Z.eqb_eq. apply Z.bits_inj'. intros i Hi. rewrite Z.land_spec, Z.bits_0, Z.shiftl_spec by done.
    destruct (Z.lt_ge_cases i 30); [by rewrite (Z.testbit_neg_r 3), andb_false_r by lia|].
    rewrite (Z.bits_above_log2 size i); [done|lia|]. destruct (Z.eq_dec size 0) as [->|]; [cbn; lia|].
    apply Z.log2_lt_pow2; [lia|]. eapply Z.lt_le_trans; [exact Hl|]. apply Z.pow_le_mono_r; lia.
  - apply Z.eqb_neq. intros E. apply (f_equal (λ z, Z.shiftr z 30)) in E. rewrite Z.shiftr_land, Z.shiftr_shiftl_l in E by lia.
    change (Z.shiftl 3 (30 - 30)) with (Z.ones 2) in E. rewrite Z.land_ones, Z.shiftr_div_pow2 in E by lia.
    change (2 ^ 32) with 4294967296 in Hs. change (2 ^ 30) with 1073741824 in *. change (2 ^ 2) with 4 in E. rewrite Z.shiftr_0_l in E. dlia.
Qed.

Lemma roundup_rnd w len : len_ok len → w = len ∨ w = 2 ^ 30 + len → roundup_len w = rnd len.
Proof.
  unfold len_ok, roundup_len, rnd, BPF_RINGBUF_HDR_SZ. intros Hl Hw. change (2 ^ 30) with 1073741824 in *.
  assert (Z.shiftr (u32 (Z.shiftl (u32 w) 2)) 2 = len) as ->.
  { rewrite Z.shiftl_mul_pow2, Z.shiftr_div_pow2 by lia. unfold wrap. change (2 ^ 32) with 4294967296. change (2 ^ 2) with 4.
    destruct Hw as [-> | ->]; dlia. }
  rewrite (wrap_small 32 (len + 8)) by (unfold is_word; change (2 ^ 32) with 4294967296; lia).
  rewrite (wrap_small 32) by (unfold is_word; change (2 ^ 32) with 4294967296; lia).
  rewrite sint_small; [f_equal; f_equal; lia|lia|]. change (2 ^ (32 - 1)) with 2147483648. dlia.
Qed.
Lemma rnd_bounds len : len_ok len → len + 8 ≤ rnd len < len + 16 ∧ rnd len mod 8 = 0.
Proof. unfold rnd, len_ok. intros Hl. split; [dlia|]. by apply Z.mod_mul. Qed.

(** ** Where the records are *)

Lemma total_app a b : total (a ++ b) = total a + total b.
Proof. unfold total. induction a as [|r a IH]; [done|]. cbn. lia. Qed.
Lemma total_one r : total [r] = rnd (r_len r).
Proof. unfold total. cbn. lia. Qed.
Lemma start_0 rs : start rs 0 = 0.
Proof. unfold start. by rewrite take_0. Qed.
Lemma start_S rs i r : rs !! i = Some r → start rs (S i) = start rs i + rnd (r_len r).
Proof. intros Hi. unfold start. by rewrite (take_S_r _ _ r Hi), total_app, total_one. Qed.
Lemma start_end rs : start rs (length rs) = total rs.
Proof. unfold start. by rewrite firstn_all. Qed.
Lemma start_app rs r i : (i ≤ length rs)%nat → start (rs ++ [r]) i = start rs i.
Proof. intros. unfold start. by rewrite take_app_le. Qed.
Lemma total_same rs rs' : r_len <$> rs = r_len <$> rs' → total rs = total rs'.
Proof.
  unfold total. revert rs'. induction rs as [|r rs IH]; intros [|r' rs'] E; try done. injection E as E1 E2. cbn. rewrite E1. f_equal. by apply IH.
Qed.
Lemma start_insert rs i r r' j : rs !! i = Some r → r_len r' = r_len r → start (<[i := r']> rs) j = start rs j.
Proof.
  intros Hi E. apply total_same. rewrite !fmap_take, list_fmap_insert, E. f_equal. apply list_insert_id. by rewrite list_lookup_fmap, Hi.
Qed.
Lemma total_insert rs i r r' : rs !! i = Some r → r_len r' = r_len r → total (<[i := r']> rs) = total rs.
Proof. intros Hi E. apply total_same. rewrite list_fmap_insert, E. apply list_insert_id. by rewrite list_lookup_fmap, Hi. Qed.

Lemma start_mono rs i j : Forall (λ r, len_ok (r_len r)) rs → (i ≤ j)%nat → start rs i ≤ start rs j.
Proof.
  intros Hf Hij. induction Hij as [|j Hij IH]; [lia|]. destruct (rs !! j) as [r|] eqn:E.
  - rewrite (start_S _ _ _ E). pose proof (Forall_lookup_1 _ _ _ _ Hf E) as Hr. cbn beta in Hr. pose proof (rnd_bounds _ Hr). unfold len_ok in *. lia.
  - apply lookup_ge_None in E. unfold start in *. rewrite (take_ge rs (S j)) by lia. by rewrite (take_ge rs j) in IH by lia.
Qed.
(** ** The invariant *)

Definition settled (r : record) : Prop := r_status r ≠ Busy.
(** The samples that were submitted, in the order of their reservation. *)
Definition submitted (rs : list record) : list (list Z) :=
  omap (λ r, match r_status r with Submitted bs => Some bs | _ => None end) rs.

(** The header of a record, and the bytes of a submitted one, are in the ring. *)
Definition held (d : list Z) (p : Z) (r : record) : Prop :=
  hold d p (le_bytes 4 (hdr_word r)) ∧
  match r_status r with Submitted bs => Z.of_nat (length bs) = r_len r ∧ hold d (p + 8) bs | _ => True end.

(** Where the consumer stands, when its position in memory is that of record
    [j]. *)
Definition pc_inv (rs : list record) (j : nat) (out : list (list Z)) (q : pc) : Prop :=
  match q with
  | Idle | Finished _ => out = submitted (take j rs)
  | Outer c _ => c = start rs j ∧ out = submitted (take j rs)
  | Inner c p _ _ => c = start rs j ∧ p ≤ total rs ∧ out = submitted (take j rs)
  | Loaded c p _ len =>
    c = start rs j ∧ p ≤ total rs ∧ out = submitted (take j rs) ∧ ∃ r, rs !! j = Some r ∧ settled r ∧ len = hdr_word r
  | Store c p _ =>
    c = start rs (S j) ∧ p ≤ total rs ∧ out = submitted (take (S j) rs) ∧ ∃ r, rs !! j = Some r ∧ settled r
  end.

Abbreviation lens_ok := (Forall (λ r, len_ok (r_len r))).

Record inv (sz : Z) (s : state) (j : nat) : Prop := {
  inv_sz : Z.of_nat (length (data (shared s))) = sz;
  inv_j : (j ≤ length (recs s))%nat;
  inv_cons : cons_at (shared s) = start (recs s) j;
  inv_prod : prod_at (shared s) = total (recs s);
  inv_seen : 0 ≤ seen s ≤ start (recs s) j ∧ total (recs s) - seen s ≤ sz;
  inv_top : total (recs s) ≤ 2 ^ 63 + sz;
  inv_lens : lens_ok (recs s);
  inv_settled : Forall settled (take j (recs s));
  inv_held : ∀ i r, (j ≤ i)%nat → recs s !! i = Some r → held (data (shared s)) (start (recs s) i) r;
  inv_pc : pc_inv (recs s) j (delivered (shared s)) (at_ s);
  inv_ptr : ∀ i r, recs s !! i = Some r → r_ptr r = Z.land (start (recs s) i + BPF_RINGBUF_HDR_SZ) (sz - 1)
}.

(** The producer changes the records it holds, and adds to them. *)
Definition extends (rs rs' : list record) : Prop :=
  total rs ≤ total rs' ∧ ∀ m, (m ≤ length rs)%nat → Forall settled (take m rs) → take m rs' = take m rs.

Lemma settled_S rs j r : Forall settled (take j rs) → rs !! j = Some r → settled r → Forall settled (take (S j) rs).
Proof. intros Hf Hj Hr. rewrite (take_S_r _ _ _ Hj). apply Forall_app_2; [done|by apply Forall_singleton]. Qed.

Lemma pc_inv_extends rs rs' j out q : extends rs rs' → (j ≤ length rs)%nat → Forall settled (take j rs) →
  pc_inv rs j out q → pc_inv rs' j out q.
Proof.
  intros [Ht He] Hj Hf. pose proof (He j Hj Hf) as E.
  assert (start rs' j = start rs j) as Es by (unfold start; by rewrite E).
  assert (∀ r, rs !! j = Some r → settled r → take (S j) rs' = take (S j) rs) as E'.
  { intros r Hr Hs. apply He; [by apply lookup_lt_Some in Hr|by eapply settled_S]. }
  assert (∀ r, rs !! j = Some r → settled r → rs' !! j = Some r) as El.
  { intros r Hr Hs. rewrite <- (lookup_take_lt rs' (S j)), (E' r Hr Hs), lookup_take_lt by lia. done. }
  destruct q; cbn; rewrite ?Es, ?E; intros Hq; try done.
  - destruct Hq as (? & ? & ?). split; [done|]. split; [lia|done].
  - destruct Hq as (? & ? & ? & r & ? & ? & ?). split; [done|]. split; [lia|]. split; [done|]. exists r. naive_solver.
  - destruct Hq as (Hc & ? & Ho & r & Hr & Hs). unfold start in *. rewrite (E' r Hr Hs). split; [done|]. split; [lia|]. split; [done|].
    exists r. naive_solver.
Qed.

Lemma extends_app rs r : len_ok (r_len r) → extends rs (rs ++ [r]).
Proof.
  intros Hl. split; [|intros m Hm _; by apply take_app_le]. rewrite total_app, total_one. pose proof (rnd_bounds _ Hl). unfold len_ok in Hl. lia.
Qed.
(** A busy record has not been passed. *)
Lemma busy_ahead rs j i r : Forall settled (take j rs) → rs !! i = Some r → ¬ settled r → (j ≤ i)%nat.
Proof.
  intros Hf Hi Hb. destruct (decide (j ≤ i)%nat); [done|]. exfalso. apply Hb.
  apply (Forall_lookup_1 _ _ i r Hf). by rewrite lookup_take_lt by lia.
Qed.
Lemma extends_insert rs i r r' : rs !! i = Some r → ¬ settled r → r_len r' = r_len r → extends rs (<[i := r']> rs).
Proof.
  intros Hi Hb El. split; [by rewrite (total_insert _ _ _ _ Hi El)|]. intros m Hm Hf. apply take_insert_ge. by eapply busy_ahead.
Qed.
Lemma extends_refl rs : extends rs rs.
Proof. by split. Qed.

(** ** Every step keeps the invariant *)

Section steps.
Context (k : nat) (Hk : (3 ≤ k ≤ 31)%nat) (sample_cb : list (list Z) → list Z → Z).
Abbreviation sz := (2 ^ Z.of_nat k).
Abbreviation mask := (sz - 1).

Lemma start_next rs i r : lens_ok rs → rs !! i = Some r → start rs i + rnd (r_len r) ≤ total rs.
Proof.
  intros Hf Hi. rewrite <- (start_S _ _ _ Hi), <- start_end. apply start_mono; [done|]. by apply lookup_lt_Some in Hi.
Qed.
Lemma len_at rs i r : lens_ok rs → rs !! i = Some r → len_ok (r_len r).
Proof. intros Hf Hi. exact (Forall_lookup_1 _ _ _ _ Hf Hi). Qed.

(** A record of the window fits in the ring. *)
Lemma fits rs j i r : lens_ok rs → (j ≤ i)%nat → total rs - start rs j ≤ sz → rs !! i = Some r → rnd (r_len r) ≤ sz.
Proof. intros Hf Hj Hw Hi. pose proof (start_next _ _ _ Hf Hi). pose proof (start_mono rs j i Hf Hj). lia. Qed.

(** Writing inside one record leaves the others. *)
Lemma held_other rs j i i' r r' o ws d : lens_ok rs → total rs - start rs j ≤ sz → Z.of_nat (length d) = sz →
  (j ≤ i)%nat → (j ≤ i')%nat → i ≠ i' → rs !! i = Some r → rs !! i' = Some r' →
  start rs i ≤ o → o + length ws ≤ start rs i + rnd (r_len r) →
  held d (start rs i') r' → held (wr d o ws) (start rs i') r'.
Proof.
  intros Hf Hw Hd Hj Hj' Hne Hi Hi' Ho1 Ho2 Hh. pose proof (sz_bounds k Hk) as [Hsz _].
  pose proof (start_next _ _ _ Hf Hi). pose proof (start_next _ _ _ Hf Hi'). pose proof (start_mono rs _ _ Hf Hj).
  pose proof (start_mono rs _ _ Hf Hj'). pose proof (len_at _ _ _ Hf Hi'). pose proof (rnd_bounds _ (len_at _ _ _ Hf Hi')) as [? _].
  assert (∀ p n, start rs i' ≤ p → p + n ≤ start rs i' + rnd (r_len r') → 0 ≤ n → apart (length d) o (length ws) p n) as Ha.
  { intros p n Hp1 Hp2 Hn. unfold apart. rewrite Hd. destruct (decide (i < i')%nat) as [Hl|Hl].
    - pose proof (start_mono rs (S i) i' Hf ltac:(lia)) as Hm. rewrite (start_S _ _ _ Hi) in Hm. left. lia.
    - pose proof (start_mono rs (S i') i Hf ltac:(lia)) as Hm. rewrite (start_S _ _ _ Hi') in Hm. right. lia. }
  unfold len_ok in *. destruct Hh as [Hh Hs]. split.
  - apply hold_wr_other; [lia| |done]. rewrite length_le_bytes. apply Ha; lia.
  - destruct (r_status r'); [done| |done]. destruct Hs as [El Hs]. split; [done|]. apply hold_wr_other; [lia| |done]. apply Ha; lia.
Qed.

Lemma hdr_range r : len_ok (r_len r) → 0 ≤ hdr_word r < 2 ^ 32.
Proof. unfold len_ok, hdr_word. change (2 ^ 32) with (4 * 2 ^ 30). change (2 ^ 31) with (2 * 2 ^ 30). destruct (r_status r); lia. Qed.
Lemma busy_flag r : len_ok (r_len r) → (Z.land (hdr_word r) BPF_RINGBUF_BUSY_BIT =? 0) = true ↔ settled r.
Proof.
  intros Hl. unfold BPF_RINGBUF_BUSY_BIT. rewrite land_bit, bit_of by (try lia; by apply hdr_range).
  unfold len_ok, hdr_word, settled in *. change (2 ^ 31) with 2147483648 in *. change (2 ^ 30) with 1073741824 in *.
  destruct (r_status r); case Z.leb_spec; intros; try lia; split; done.
Qed.
Lemma discard_flag r : len_ok (r_len r) → settled r →
  (Z.land (hdr_word r) BPF_RINGBUF_DISCARD_BIT =? 0) = match r_status r with Discarded => false | _ => true end.
Proof.
  intros Hl Hs. unfold BPF_RINGBUF_DISCARD_BIT. rewrite land_bit by lia. unfold settled in Hs. unfold len_ok, hdr_word in *.
  destruct (r_status r); [done| |]; (rewrite bit_of; [|lia|change (2 ^ (30 + 1)) with (2 * 2 ^ 30); lia]);
    case Z.leb_spec; intros; try lia; done.
Qed.

Definition with_header (d : list Z) (p size : Z) : list Z := wr (wr d p (le_bytes 4 (2 ^ 31 + size))) (p + 4) (le_bytes 4 0).

Lemma reserve_eq d sn p size : Z.of_nat (length d) = sz → 0 ≤ size < 2 ^ 32 → 0 ≤ sn ≤ p → p - sn ≤ sz → p < 2 ^ 63 →
  user_ring_buffer__reserve mask sn p size d = Some (
    if (2 ^ 30 <=? size) || (sz <? rnd size) then inl E2BIG
    else if sz - (p - sn) <? rnd size then inl ENOSPC
    else inr (Z.land (p + 8) mask, p + rnd size, with_header d p size)).
Proof.
  intros Hd Hs Hn Hw Hp. pose proof (sz_bounds k Hk) as [Hsz _]. change (2 ^ 31) with 2147483648 in Hsz.
  unfold user_ring_buffer__reserve. rewrite small_size by done. rewrite Z.leb_antisym.
  destruct (Z.ltb_spec size (2 ^ 30)) as [Hl|Hl]; [|done]. cbn [negb orb]. pose proof (rnd_bounds size ltac:(unfold len_ok; lia)) as [Hr _].
  assert (u32 (mask + 1) = sz) as -> by (replace (mask + 1) with sz by lia; apply wrap_small; unfold is_word; change (2 ^ 32) with 4294967296; lia).
  assert (u64 (p - sn) = p - sn) as -> by (apply wrap_small; unfold is_word; change (2 ^ 64) with (2 * 2 ^ 63); lia).
  assert (u32 (sz - (p - sn)) = sz - (p - sn)) as -> by (apply wrap_small; unfold is_word; change (2 ^ 32) with 4294967296; lia).
  assert (u32 (size + BPF_RINGBUF_HDR_SZ + 7) / 8 * 8 = rnd size) as ->.
  { unfold BPF_RINGBUF_HDR_SZ. rewrite wrap_small; [unfold rnd; do 2 f_equal; lia|]. unfold is_word. change (2 ^ 32) with (4 * 2 ^ 30). lia. }
  destruct (Z.ltb_spec sz (rnd size)); [done|]. destruct (Z.ltb_spec (sz - (p - sn)) (rnd size)); [done|].
  unfold mwrite32. pose proof (write_at k Hk d p 0 (le_bytes 4 (Z.lor size BPF_RINGBUF_BUSY_BIT)) Hd ltac:(lia) ltac:(rewrite length_le_bytes; lia)) as E.
  rewrite !Z.add_0_r in E. rewrite E. cbn [mbind option_bind].
  rewrite (write_at k Hk) by (rewrite ?length_wr, ?length_le_bytes; lia). cbn [mbind option_bind]. unfold BPF_RINGBUF_BUSY_BIT, BPF_RINGBUF_HDR_SZ.
  rewrite or_bit by (change (2 ^ 31) with (2 * 2 ^ 30); lia).
  rewrite (wrap_small 64 (p + 8)), (wrap_small 64 (p + rnd size)) by (unfold is_word; change (2 ^ 64) with (2 * 2 ^ 63); lia). done.
Qed.

(** The header of a record is found from its sample. *)
Lemma hdr_of_sample p : Z.land (u64 (mask + 1 + Z.land (p + 8) mask - 8)) mask = Z.land p mask.
Proof.
  pose proof (sz_bounds k Hk) as [Hsz _]. rewrite !(land_mask k Hk). pose proof (mod_sz k Hk (p + 8)). change (2 ^ 31) with 2147483648 in Hsz.
  rewrite wrap_small by (unfold is_word; change (2 ^ 64) with 18446744073709551616; lia).
  replace (mask + 1 + (p + 8) mod sz - 8) with ((p + 8) mod sz + - 8 + 1 * sz) by lia. rewrite Z.mod_add by lia.
  rewrite Zplus_mod_idemp_l. by replace (p + 8 + -8) with p by lia.
Qed.

Definition done_word (len : Z) (discard : bool) : Z := if discard then 2 ^ 30 + len else len.
Lemma commit_eq d p len discard : Z.of_nat (length d) = sz → len_ok len → hold d p (le_bytes 4 (2 ^ 31 + len)) →
  user_ringbuf_commit mask (Z.land (p + BPF_RINGBUF_HDR_SZ) mask) discard d = Some (wr d p (le_bytes 4 (done_word len discard))).
Proof.
  intros Hd Hl Hh. pose proof (sz_bounds k Hk) as [Hsz _]. unfold user_ringbuf_commit, BPF_RINGBUF_HDR_SZ. rewrite hdr_of_sample.
  unfold len_ok in Hl. rewrite (read32_at k Hk d p _ Hd Hh) by (change (2 ^ 32) with (4 * 2 ^ 30); change (2 ^ 31) with (2 * 2 ^ 30); lia).
  cbn [mbind option_bind]. change (u32 (Z.lnot BPF_RINGBUF_BUSY_BIT)) with (Z.ones 31). rewrite Z.land_ones by lia.
  replace ((2 ^ 31 + len) mod 2 ^ 31) with len.
  2: { replace (2 ^ 31 + len) with (len + 1 * 2 ^ 31) by lia. rewrite Z.mod_add by lia. rewrite Z.mod_small; [done|].
       change (2 ^ 31) with (2 * 2 ^ 30). lia. }
  unfold mwrite32, BPF_RINGBUF_DISCARD_BIT. rewrite (or_bit 30) by lia. unfold done_word.
  destruct discard; [set (w := 2 ^ 30 + len)|set (w := len)];
    (pose proof (write_at k Hk d p 0 (le_bytes 4 w) Hd ltac:(lia) ltac:(rewrite length_le_bytes; lia)) as E; rewrite !Z.add_0_r in E; exact E).
Qed.

Abbreviation inv := (inv sz).
Abbreviation act := (act mask sample_cb).

Lemma window s j : inv s j → 0 ≤ start (recs s) j ∧ total (recs s) - start (recs s) j ≤ sz ∧ 0 ≤ prod_at (shared s) - seen s ≤ sz.
Proof.
  intros H. pose proof (inv_seen _ _ _ H) as Hs. pose proof (start_mono _ 0 j (inv_lens _ _ _ H) ltac:(lia)) as H0. rewrite start_0 in H0.
  pose proof (start_mono _ j (length (recs s)) (inv_lens _ _ _ H) (inv_j _ _ _ H)) as H1. rewrite start_end in H1.
  rewrite (inv_prod _ _ _ H). lia.
Qed.

(** Changing the memory and the records, as the producer does. *)
Lemma inv_produce r q sn rs j d p rs' : inv (mk_state r q sn rs) j → Z.of_nat (length d) = sz → p = total rs' →
  total rs' - sn ≤ sz → total rs' ≤ 2 ^ 63 + sz → lens_ok rs' → extends rs rs' → (length rs ≤ length rs')%nat →
  (∀ i rc, (j ≤ i)%nat → rs' !! i = Some rc → held d (start rs' i) rc) →
  (∀ i rc, rs' !! i = Some rc → r_ptr rc = Z.land (start rs' i + BPF_RINGBUF_HDR_SZ) mask) →
  inv (mk_state (mk_ring (cons_at r) p d (delivered r)) q sn rs') j.
Proof.
  intros H Hd Hp Hw Ht Hl He Hlen Hh Hptr. destruct H as [_ Hj Hc _ Hs _ _ Hf _ Hq _]. cbn in *. pose proof (proj2 He j Hj Hf) as Et.
  assert (start rs' j = start rs j) as Es by (unfold start; by rewrite Et).
  constructor; cbn; try done; [lia|congruence|split; [|done]; rewrite Es; lia|by rewrite Et|by eapply pc_inv_extends].
Qed.

Lemma load_ok s j : inv s j → ∃ s', act PLoad s = Some s' ∧ inv s' j.
Proof.
  intros H. pose proof (window s j H). destruct s as [r q sn rs]. eexists. split; [done|]. destruct H. constructor; cbn in *; try done.
  rewrite inv_cons0. lia.
Qed.

Lemma reserve_ok s j size : inv s j → allowed (PReserve size) s = true → ∃ s', act (PReserve size) s = Some s' ∧ inv s' j.
Proof.
  intros H Ha. pose proof (window s j H) as (Hw0 & Hw1 & Hw2). pose proof (sz_bounds k Hk) as [Hsz _]. destruct s as [r q sn rs]. cbn in *.
  apply andb_true_iff in Ha as [Ha Hp]. apply andb_true_iff in Ha as [Ha1 Ha2].
  pose proof H as [Hd Hj _ Ep [Hs1 Hs2] _ Hl _ _ _ Hptr]. cbn in *.
  rewrite (reserve_eq (data r) sn (prod_at r) size Hd) by lia. cbn [mbind option_bind].
  destruct (_ || _) eqn:E1; [eexists; by split|]. destruct (Z.ltb_spec (sz - (prod_at r - sn)) (rnd size)) as [|Hr]; [eexists; by split|].
  apply orb_false_iff in E1 as [E1 E2]. eexists. split; [done|]. set (n := mk_rec size _ Busy).
  assert (len_ok size) as Hlen by (unfold len_ok; lia). pose proof (rnd_bounds _ Hlen) as [Hrb _]. unfold len_ok in Hlen.
  assert (lens_ok (rs ++ [n])) as Hl' by (apply Forall_app_2; [done|by apply Forall_singleton]).
  assert (total (rs ++ [n]) = total rs + rnd size) as Et by (rewrite total_app, total_one; done).
  eapply (inv_produce _ _ _ _ _ _ _ _ H); [unfold with_header; by rewrite !length_wr|lia..|done|by apply extends_app|rewrite length_app; lia| |].
  2: { intros i rc [[Hi Hrc]|[-> <-]]%lookup_snoc_Some; [rewrite start_app by lia; by apply Hptr|].
       by rewrite start_app, start_end, <- Ep by lia. }
  assert ((rs ++ [n]) !! length rs = Some n) as Hn by (by rewrite lookup_app_r, Nat.sub_diag by lia).
  assert (start (rs ++ [n]) (length rs) = total rs) as Esn by (rewrite start_app, start_end by lia; done).
  intros i rc Hi Hrc. unfold with_header. rewrite Ep in *. destruct (decide (i = length rs)) as [->|Hne].
  - rewrite Hn in Hrc. injection Hrc as <-. rewrite Esn. split; [|done]. change (hdr_word n) with (2 ^ 31 + size). apply hold_wr_other; rewrite ?length_wr.
    + lia.
    + unfold apart. rewrite !length_le_bytes. lia.
    + apply hold_wr_same; rewrite ?length_le_bytes; lia.
  - pose proof (lookup_lt_Some _ _ _ Hrc) as Hlt. rewrite length_app in Hlt. cbn in Hlt. assert (i < length rs)%nat as Hlt' by lia.
    pose proof Hrc as Hrc'. rewrite lookup_app_l in Hrc' by done. pose proof (inv_held _ _ _ H i rc Hi Hrc') as Hh. cbn in Hh.
    rewrite <- (start_app rs n i) in Hh by lia.
    assert (∀ o (ws d : list Z), Z.of_nat (length d) = sz → total rs ≤ o → o + length ws ≤ total rs + rnd size →
      held d (start (rs ++ [n]) i) rc → held (wr d o ws) (start (rs ++ [n]) i) rc) as Hk1.
    { intros o ws d Hdd Ho1 Ho2. apply (held_other (rs ++ [n]) j (length rs) i n rc); try done; [|by rewrite Esn..].
      rewrite start_app by lia. lia. }
    apply Hk1; [by rewrite length_wr|lia|rewrite length_le_bytes; lia|]. apply Hk1; [done|lia|rewrite length_le_bytes; lia|done].
Qed.

(** What holds of a record that the producer still has. *)
Lemma busy_facts s j i len ptr : inv s j → recs s !! i = Some (mk_rec len ptr Busy) →
  (j ≤ i)%nat ∧ len_ok len ∧ len + 8 ≤ rnd len ≤ sz ∧ hold (data (shared s)) (start (recs s) i) (le_bytes 4 (2 ^ 31 + len)).
Proof.
  intros H Hi. pose proof (window s j H) as (_ & Hw & _). assert (¬ settled (mk_rec len ptr Busy)) as Hb by (intros Hb; by apply Hb).
  pose proof (busy_ahead _ _ _ _ (inv_settled _ _ _ H) Hi Hb) as Hj. pose proof (len_at _ _ _ (inv_lens _ _ _ H) Hi) as Hl. cbn in Hl.
  pose proof (rnd_bounds _ Hl) as [Hr _]. pose proof (fits _ _ _ _ (inv_lens _ _ _ H) Hj Hw Hi) as Hf. cbn [r_len] in Hf.
  pose proof (inv_held _ _ _ H i _ Hj Hi) as [Hh _]. split; [done|]. split; [done|]. split; [lia|exact Hh].
Qed.

Lemma pwrite_ok s j i off bs : inv s j → allowed (PWrite i off bs) s = true → ∃ s', act (PWrite i off bs) s = Some s' ∧ inv s' j.
Proof.
  intros H Ha. cbn [allowed] in Ha. destruct (recs s !! i) as [[len ptr []]|] eqn:Ei; try done.
  apply andb_true_iff in Ha as [Ha _]. apply andb_true_iff in Ha as [Ha1 Ha2].
  destruct (busy_facts _ _ _ _ _ H Ei) as (Hj & Hl & Hr & Hh). pose proof (window s j H) as (_ & Hw & _).
  pose proof H as [Hd _ _ Ep [_ Hseen] Htop Hlens _ Hheld _ Hptr]. destruct s as [r q sn rs]. cbn [shared recs seen] in *. cbn [act Ringbuf.act].
  rewrite Ei. cbn [mbind option_bind]. rewrite (Hptr _ _ Ei). unfold BPF_RINGBUF_HDR_SZ. rewrite (write_at k Hk) by lia. cbn [mbind option_bind]. eexists. split; [done|].
  apply (inv_produce r q sn rs j _ (prod_at r) rs H); try done; [by rewrite length_wr|]. intros i' rc Hi' Hrc.
  destruct (decide (i' = i)) as [->|Hne].
  - rewrite Ei in Hrc. injection Hrc as <-. split; [|done]. apply hold_wr_other; [lia| |exact Hh]. unfold apart. rewrite length_le_bytes. lia.
  - apply (held_other rs j i i' (mk_rec len ptr Busy) rc); try done; [lia|cbn [r_len]; lia|by apply Hheld].
Qed.

Lemma commit_ok s j i b : inv s j → allowed (PCommit i b) s = true → ∃ s', act (PCommit i b) s = Some s' ∧ inv s' j.
Proof.
  intros H Ha. cbn [allowed] in Ha. destruct (recs s !! i) as [[len ptr []]|] eqn:Ei; try done.
  destruct (busy_facts _ _ _ _ _ H Ei) as (Hj & Hl & Hr & Hh). pose proof (window s j H) as (_ & Hw & _). 
  pose proof H as [Hd _ _ Ep [_ Hseen] Htop Hlens _ Hheld _ Hptr]. destruct s as [r q sn rs]. cbn [shared recs seen] in *. cbn [act Ringbuf.act].
  rewrite Ei. cbn [mbind option_bind r_len]. rewrite (Hptr _ _ Ei), (commit_eq (data r) (start rs i) len b Hd Hl Hh). cbn [mbind option_bind].
  unfold len_ok in Hl. destruct (read_some k Hk (data r) (start rs i + BPF_RINGBUF_HDR_SZ) len Hd ltac:(lia)) as (bs & E & Hbs & Hhb).
  rewrite E. cbn [mbind option_bind]. eexists. split; [done|]. set (n := mk_rec len _ _). assert (r_len n = r_len (mk_rec len ptr Busy)) as El by done.
  assert (¬ settled (mk_rec len ptr Busy)) as Hb by (intros Hb; by apply Hb).
  apply (inv_produce r q sn rs j _ (prod_at r) _ H); rewrite ?(total_insert _ _ _ _ Ei El), ?length_insert, ?length_wr; try done.
  { by apply Forall_insert. } { by eapply extends_insert. }
  2: { intros i' rc Hrc. rewrite (start_insert _ _ _ _ _ Ei El). destruct (decide (i' = i)) as [->|Hne]; [|rewrite list_lookup_insert_ne in Hrc by done; by apply Hptr].
       rewrite list_lookup_insert_eq in Hrc by (by apply lookup_lt_Some in Ei). by injection Hrc as <-. }
  intros i' rc Hi' Hrc. rewrite (start_insert _ _ _ _ _ Ei El). destruct (decide (i' = i)) as [->|Hne].
  - rewrite list_lookup_insert_eq in Hrc by (by apply lookup_lt_Some in Ei). injection Hrc as <-. split.
    + replace (hdr_word n) with (done_word len b) by (by destruct b). apply hold_wr_same; rewrite ?length_le_bytes; lia.
    + destruct b; [done|]. split; [done|]. apply hold_wr_other; [lia| |exact Hhb]. unfold apart. rewrite length_le_bytes. lia.
  - rewrite list_lookup_insert_ne in Hrc by done. apply (held_other rs j i i' (mk_rec len ptr Busy) rc); try done; [cbn [r_len]; rewrite length_le_bytes; lia|by apply Hheld].
Qed.

Lemma submitted_S rs j r : rs !! j = Some r →
  submitted (take (S j) rs) = submitted (take j rs) ++ match r_status r with Submitted bs => [bs] | _ => [] end.
Proof.
  intros Hj. unfold submitted. rewrite (take_S_r _ _ _ Hj), omap_app. f_equal. cbn. by destruct (r_status r).
Qed.

(** The consumer: only the store of its position moves it past a record. *)
Definition passed (q : pc) (j : nat) : nat := match q with Store _ _ _ => S j | _ => j end.

(** Where the consumer goes next; [n] samples were delivered by the step. *)
Definition moves (rs : list record) (j : nat) (n : Z) (q q' : pc) : Prop :=
  match q with
  | Idle | Finished _ => q' = Outer (start rs j) 0 ∧ n = 0
  | Outer c cnt => q' = Inner c (total rs) cnt false ∧ n = 0
  | Inner c p cnt got =>
    (p ≤ c ∧ q' = (if got then Outer c cnt else Finished cnt) ∨
     c < p ∧ ∃ r, rs !! j = Some r ∧ (settled r ∧ q' = Loaded c p cnt (hdr_word r) ∨ ¬ settled r ∧ q' = Finished cnt)) ∧ n = 0
  | Loaded _ p cnt _ => (∃ out x, q' = Store (start rs (S j)) p (inl (sample_cb out x)) ∧ sample_cb out x < 0) ∨ q' = Store (start rs (S j)) p (inr (cnt + n))
  | Store c p next => q' = match next with inl err => Finished err | inr cnt => Inner c p cnt true end ∧ n = 0
  end.

Lemma next_pos s j rc : inv s j → recs s !! j = Some rc → settled rc →
  u64 (start (recs s) j + roundup_len (hdr_word rc)) = start (recs s) (S j).
Proof.
  intros H Ej Hs. pose proof (window s j H) as (Hw0 & _ & _). pose proof (sz_bounds k Hk) as [Hsz _]. pose proof (inv_lens _ _ _ H) as Hl.
  pose proof (inv_top _ _ _ H) as Htop. pose proof (len_at _ _ _ Hl Ej) as Hlen. pose proof (start_next _ _ _ Hl Ej) as Hn.
  pose proof (rnd_bounds _ Hlen) as [Hr _]. rewrite (roundup_rnd _ (r_len rc)), (start_S _ _ _ Ej); [|done|].
  - apply wrap_small. unfold is_word, len_ok in *. change (2 ^ 64) with (2 * 2 ^ 63). change (2 ^ 31) with 2147483648 in Hsz. lia.
  - unfold hdr_word, settled in *. destruct (r_status rc); [done|by left|by right].
Qed.

(** The step that delivers a sample. *)
Lemma deliver_ok r sn rs j c p cnt len : inv (mk_state r (Loaded c p cnt len) sn rs) j →
  ∃ next out, process_step mask sample_cb (Loaded c p cnt len) r =
    Some (Store (start rs (S j)) p next, mk_ring (cons_at r) (prod_at r) (data r) out) ∧ out = submitted (take (S j) rs) ∧
    ((∃ o x, next = inl (sample_cb o x) ∧ sample_cb o x < 0) ∨ next = inr (cnt + (length out - length (delivered r)))).
Proof.
  intros H. pose proof (window _ j H) as (_ & Hw & _). pose proof H as [Hd _ _ _ _ _ Hl _ Hh Hq _]. cbn [shared recs seen at_ pc_inv] in *.
  destruct Hq as (-> & Hp & Ho & rc & Ej & Hs & ->). pose proof (len_at _ _ _ Hl Ej) as Hlen. pose proof (next_pos _ j rc H Ej Hs) as En. cbn [recs] in En.
  cbn [process_step]. rewrite En, discard_flag by done. pose proof (Hh j rc ltac:(lia) Ej) as [_ Hsm]. pose proof (submitted_S _ _ _ Ej) as Esub.
  pose proof (rnd_bounds _ Hlen) as [Hr _]. pose proof (fits _ j j _ Hl ltac:(lia) Hw Ej). unfold settled, hdr_word, len_ok in *.
  destruct (r_status rc) as [|bs|] eqn:Est; [done| |].
  - destruct Hsm as [Hbl Hsm]. unfold BPF_RINGBUF_HDR_SZ. rewrite <- Hbl. rewrite (read_at k Hk) by (try done; lia). cbn [mbind option_bind].
    eexists _, _. split; [done|]. rewrite Esub, Ho. split; [done|]. rewrite length_app. cbn [length].
    destruct (Z.ltb_spec (sample_cb (submitted (take j rs)) bs) 0); [left; by eexists _, _|right; f_equal; lia].
  - exists (inr cnt), (delivered r). rewrite Esub, app_nil_r, Ho. split; [|split; [done|right; f_equal; lia]]. rewrite <- Ho. by destruct r.
Qed.

Lemma consume_ok s j : inv s j → ∃ s', act Consume s = Some s' ∧ inv s' (passed (at_ s) j) ∧ recs s' = recs s ∧
  moves (recs s) j (length (delivered (shared s')) - length (delivered (shared s))) (at_ s) (at_ s').
Proof.
  intros H. pose proof H as [Hd Hj Ec Ep Hseen Htop Hl Hf Hh Hq Hptr]. destruct s as [r q sn rs]. cbn [shared recs seen at_] in *.
  assert (∀ q' out, pc_inv rs j out q' → inv (mk_state (mk_ring (cons_at r) (prod_at r) (data r) out) q' sn rs) j) as Hkeep by (intros; by constructor).
  assert (∀ q', pc_inv rs j (delivered r) q' → inv (mk_state r q' sn rs) j) as Hsame by (intros q' ?; destruct r; by apply Hkeep).
  cbn [act Ringbuf.act]. destruct q as [|c cnt|c p cnt got|c p cnt len|c p next|ret]; cbn [passed pc_inv] in *.
  1, 6: (eexists; split; [done|]; split; [apply Hsame; by split|]; split; [done|]; cbn; rewrite Ec; split; [done|lia]).
  - destruct Hq as [-> Ho]. eexists. split; [done|]. split; [apply Hsame; cbn; by rewrite Ep|]. split; [done|]. cbn. rewrite Ep. split; [done|lia].
  - destruct Hq as (-> & Hp & Ho). cbn [process_step]. destruct (Z.ltb_spec (start rs j) p) as [Hlt|Hge].
    + destruct (rs !! j) as [rc|] eqn:Ej.
      2: { apply lookup_ge_None in Ej. assert (j = length rs) as -> by lia. rewrite start_end in Hlt. lia. }
      pose proof (Hh j rc ltac:(lia) Ej) as [Hhd _]. pose proof (len_at _ _ _ Hl Ej) as Hlen.
      rewrite (read32_at k Hk _ _ _ Hd Hhd (hdr_range _ Hlen)). cbn [mbind option_bind]. pose proof (busy_flag rc Hlen) as Hb.
      eexists. split; [done|]. split; [apply Hsame; destruct (Z.land _ _ =? 0); [|done]; cbn; naive_solver|]. split; [done|].
      cbn. split; [right|lia]. split; [done|]. exists rc. split; [done|]. destruct (Z.land _ _ =? 0); [left; naive_solver|right; naive_solver].
    + eexists. split; [done|]. split; [apply Hsame; by destruct got|]. split; [done|]. cbn. split; [by left|lia].
  - destruct (deliver_ok r sn rs j c p cnt len H) as (next & out & E & Eo & Hn). rewrite E. cbn [mbind option_bind].
    destruct Hq as (_ & Hp & _ & rc & Ej & Hs & _). eexists. split; [done|]. split; [apply Hkeep; cbn; naive_solver|]. split; [done|].
    cbn. destruct Hn as [(o & x & -> & Hx)| ->]; [left; by exists o, x|by right].
  - destruct Hq as (-> & Hp & Ho & rc & Ej & Hs). eexists. split; [done|]. pose proof (start_mono rs j (S j) Hl ltac:(lia)).
    split; [|split; [done|cbn; split; [by destruct next|lia]]].
    constructor; cbn; try done; [by apply lookup_lt_Some in Ej|lia|by eapply settled_S|intros i ? ?; apply Hh; lia|]. by destruct next.
Qed.

Lemma act_ok a s j : inv s j → allowed a s = true → ∃ s' j', act a s = Some s' ∧ inv s' j'.
Proof.
  intros H Ha. destruct a.
  - destruct (load_ok s j H) as (s' & ? & ?). by exists s', j.
  - destruct (reserve_ok s j _ H Ha) as (s' & ? & ?). by exists s', j.
  - destruct (pwrite_ok s j _ _ _ H Ha) as (s' & ? & ?). by exists s', j.
  - destruct (commit_ok s j _ _ H Ha) as (s' & ? & ?). by exists s', j.
  - destruct (consume_ok s j H) as (s' & ? & ? & _). by eexists s', _.
Qed.

Lemma exec_ok as_ : ∀ s j, inv s j → ∃ s' j', exec mask sample_cb as_ s = Some s' ∧ inv s' j'.
Proof.
  induction as_ as [|a as_ IH]; intros s j H; [by exists s, j|]. cbn [exec]. destruct (allowed a s) eqn:Ea; [|by eapply IH].
  destruct (act_ok a s j H Ea) as (s' & j' & E & H'). rewrite E. by apply (IH s' j').
Qed.

Lemma init_inv : inv (init k) 0.
Proof.
  pose proof (sz_bounds k Hk). constructor; cbn [init shared data recs cons_at prod_at seen at_ delivered]; try done; try (unfold start, total; cbn; lia).
  rewrite length_replicate. by rewrite Nat2Z.inj_pow.
Qed.

(** ** The consumer alone *)

(** The records up to the first that the producer still holds. *)
Fixpoint ready (rs : list record) : list record :=
  match rs with
  | [] => []
  | r :: rs => match r_status r with Busy => [] | _ => r :: ready rs end
  end.

Lemma ready_take rs : ∀ j, Forall settled (take j rs) → (∀ r, rs !! j = Some r → ¬ settled r) → (j ≤ length rs)%nat → ready rs = take j rs.
Proof.
  unfold settled. induction rs as [|r rs IH]; intros [|j] Hf Hb Hj; try done.
  - cbn. destruct (r_status r) eqn:E; [done|exfalso; apply (Hb r eq_refl); by rewrite E..].
  - cbn in *. apply Forall_cons in Hf as [Hr Hf]. destruct (r_status r); [done|f_equal; apply IH; [done..|lia]|f_equal; apply IH; [done..|lia]].
Qed.

Abbreviation from n s := (process_from n mask sample_cb (at_ s) (shared s)).
Definition going (q : pc) : Prop := match q with Finished _ => False | _ => True end.

Lemma consume_step s s' : act Consume s = Some s' → process_step mask sample_cb (at_ s) (shared s) = Some (at_ s', shared s').
Proof.
  destruct s as [r q sn rs]. cbn [act Ringbuf.act at_ shared]. destruct (process_step _ _ _ _) as [[q' r']|]; [|done]. intros E. by injection E as <-.
Qed.
Lemma from_S n s s' : act Consume s = Some s' → going (at_ s') → from (S n) s = from n s'.
Proof. intros E Hg. cbn [process_from]. rewrite (consume_step _ _ E). cbn [mbind option_bind]. by destruct (at_ s'). Qed.
Lemma from_end n s s' ret : act Consume s = Some s' → at_ s' = Finished ret → from n s = Some (ret, shared s').
Proof. intros E Ef. destruct n; cbn [process_from]; rewrite (consume_step _ _ E); cbn [mbind option_bind]; by rewrite Ef. Qed.

(** The consumer has returned: everything that was ready has been delivered, and
    the result counts what came after the first [base] samples. *)
Definition ended (rs : list record) (base : Z) (o : option (Z * ring)) : Prop :=
  ∃ r, o = Some (length (delivered r) - base, r) ∧ delivered r = submitted (ready rs) ∧ prod_at r = total rs ∧
    cons_at r = total (ready rs).

Lemma ended_at n rs base s s' j cnt : act Consume s = Some s' → inv s' j → recs s' = rs → (∀ r, rs !! j = Some r → ¬ settled r) →
  at_ s' = Finished cnt → cnt = length (delivered (shared s')) - base → ended rs base (from n s).
Proof.
  intros E H Er Hb Ea ->. pose proof H as [_ Hj Ec Ep _ _ _ Hf _ Hq _]. rewrite Er, Ea in *. cbn in Hq.
  exists (shared s'). rewrite (from_end _ _ _ _ E Ea), (ready_take rs j) by done. done.
Qed.

Context (Hcb : ∀ out x, 0 ≤ sample_cb out x).

Lemma start_lt rs j r : lens_ok rs → rs !! j = Some r → start rs j < total rs.
Proof. intros Hl Hj. pose proof (start_next _ _ _ Hl Hj). pose proof (len_at _ _ _ Hl Hj) as Hlen. pose proof (rnd_bounds _ Hlen) as [? _]. unfold len_ok in Hlen. lia. Qed.

(** One record that is ready takes three steps. *)
Lemma take_one s j r cnt got : inv s j → recs s !! j = Some r → settled r →
  at_ s = Inner (start (recs s) j) (total (recs s)) cnt got →
  ∃ s', inv s' (S j) ∧ recs s' = recs s ∧ (∀ n, from (3 + n) s = from n s') ∧
    at_ s' = Inner (start (recs s) (S j)) (total (recs s)) (cnt + (length (delivered (shared s')) - length (delivered (shared s)))) true.
Proof.
  intros H Ej Hs Ea. pose proof (start_lt _ _ _ (inv_lens _ _ _ H) Ej) as Hlt.
  destruct (consume_ok s j H) as (s1 & E1 & H1 & R1 & M1). rewrite Ea in M1, H1. destruct M1 as [[[? _]|(_ & r' & Ej' & Hc)] N1]; [lia|].
  rewrite Ej in Ej'. injection Ej' as <-. destruct Hc as [[_ M1]|[? _]]; [|done].
  destruct (consume_ok s1 _ H1) as (s2 & E2 & H2 & R2 & M2). rewrite M1 in M2, H2. rewrite R1 in M2, R2. cbn [passed moves] in *.
  destruct M2 as [(o & x & _ & Hx)|M2]; [specialize (Hcb o x); lia|].
  destruct (consume_ok s2 _ H2) as (s3 & E3 & H3 & R3 & M3). rewrite M2 in M3, H3. rewrite R2 in M3, R3. cbn [passed moves] in *. destruct M3 as [M3 N3].
  exists s3. split; [done|]. split; [done|]. split; [intros n; change (3 + n)%nat with (S (S (S n))); rewrite (from_S _ _ _ E1), (from_S _ _ _ E2), (from_S _ _ _ E3); [done|by rewrite ?M1, ?M2, ?M3..]|]. rewrite M3. f_equal. lia.
Qed.

(** With nothing new, the consumer returns. *)
Lemma last_step n rs base s : inv s (length rs) → recs s = rs →
  at_ s = Inner (total rs) (total rs) (length (delivered (shared s)) - base) false → ended rs base (from n s).
Proof.
  intros H Er Ea. destruct (consume_ok s _ H) as (s1 & E1 & H1 & R1 & M1). rewrite Ea in M1, H1. rewrite Er in M1, R1.
  destruct M1 as [[[_ M1]|[? _]] N1]; [|lia]. eapply ended_at; [exact E1|exact H1|done| |exact M1|lia].
  intros r E. cbn [passed] in E. apply lookup_lt_Some in E. lia.
Qed.

Lemma busy_or_settled r : r_status r = Busy ∨ settled r.
Proof. unfold settled. destruct (r_status r); [by left|by right..]. Qed.

Lemma inner_run rs base m : ∀ s j got n, inv s j → recs s = rs → (length rs - j = m)%nat → (3 * m + 3 ≤ n)%nat →
  at_ s = Inner (start rs j) (total rs) (length (delivered (shared s)) - base) got → ended rs base (from n s).
Proof.
  induction m as [m IH] using lt_wf_ind. intros s j got n H Er Em Hn Ea. pose proof (inv_j _ _ _ H) as Hj. pose proof (inv_lens _ _ _ H) as Hl.
  destruct (consume_ok s j H) as (s1 & E1 & H1 & R1 & M1). rewrite Ea in M1, H1. rewrite Er in *. destruct (rs !! j) as [r|] eqn:Ej.
  - pose proof (start_lt _ _ _ Hl Ej). destruct (busy_or_settled r) as [Hb|Hs].
    + destruct M1 as [[[? _]|(_ & r' & Ej' & Hc)] N1]; [lia|]. rewrite Ej in Ej'. injection Ej' as <-. destruct Hc as [[Hc _]|[Hc M1]]; [by apply Hc in Hb|].
      eapply ended_at; [exact E1|exact H1|done| |exact M1|lia]. intros r' E. cbn [passed] in E. rewrite Ej in E. by injection E as <-.
    + rewrite <- Er in Ej, Ea. destruct (take_one s j r _ _ H Ej Hs Ea) as (s' & H' & R' & E' & A'). rewrite Er in *.
      pose proof (lookup_lt_Some _ _ _ Ej). replace n with (3 + (n - 3))%nat by lia. rewrite E'.
      apply (IH (m - 1)%nat ltac:(lia) s' (S j) true); [done|done|lia|lia|]. rewrite A'. f_equal. lia.
  - pose proof (lookup_ge_None_1 _ _ Ej) as Hge. assert (j = length rs) as -> by lia. rewrite start_end in Ea, M1.
    destruct got; [|by apply last_step]. destruct M1 as [[[_ M1]|[? _]] N1]; [|lia].
    destruct (consume_ok s1 _ H1) as (s2 & E2 & H2 & R2 & M2). rewrite M1 in M2, H2. rewrite R1 in M2, R2. destruct M2 as [M2 N2].
    replace n with (S (S (n - 2))) by lia. rewrite (from_S _ _ _ E1), (from_S _ _ _ E2) by (by rewrite ?M1, ?M2).
    apply last_step; [done|done|]. rewrite M2. f_equal. lia.
Qed.

(** The ring bounds the number of records in it. *)
Lemma records_bound rs : lens_ok rs → ∀ j, (j ≤ length rs)%nat → 8 * Z.of_nat (length rs - j) ≤ total rs - start rs j.
Proof.
  intros Hl j Hj. remember (length rs - j)%nat as m eqn:Em. revert j Hj Em. induction m as [|m IH]; intros j Hj Em.
  - assert (j = length rs) as -> by lia. rewrite start_end. lia.
  - destruct (lookup_lt_is_Some_2 rs j ltac:(lia)) as [r Hr]. specialize (IH (S j) ltac:(lia) ltac:(lia)). rewrite (start_S _ _ _ Hr) in IH.
    pose proof (len_at _ _ _ Hl Hr) as Hlen. pose proof (rnd_bounds _ Hlen) as [? _]. unfold len_ok in Hlen. lia.
Qed.

Definition at_rest (q : pc) : Prop := match q with Idle | Finished _ => True | _ => False end.

(** A call while the consumer is at rest. *)
Lemma process_ok s j : inv s j → at_rest (at_ s) → ended (recs s) (length (delivered (shared s))) (ringbuf_process_ring mask sample_cb (shared s)).
Proof.
  intros H0 Ha. assert (inv (mk_state (shared s) Idle (seen s) (recs s)) j) as H.
  { destruct H0. constructor; cbn; try done. destruct (at_ s); try done. }
  set (si := mk_state (shared s) Idle (seen s) (recs s)) in *. destruct (window si j H) as (_ & Hw & _). pose proof (inv_sz _ _ _ H) as Hd.
  pose proof (records_bound _ (inv_lens _ _ _ H) j (inv_j _ _ _ H)) as Hb. cbn [si recs shared] in Hw, Hd, Hb.
  destruct (consume_ok si j H) as (s1 & E1 & H1 & R1 & M1). destruct M1 as [M1 N1]. cbn [si at_ passed recs shared] in *.
  destruct (consume_ok s1 j H1) as (s2 & E2 & H2 & R2 & M2). rewrite M1 in M2, H2. rewrite R1 in M2, R2. cbn [passed moves] in *. destruct M2 as [M2 N2].
  unfold ringbuf_process_ring. change (shared s) with (shared si). change Idle with (at_ si).
  replace (3 * length (data (shared si)) + 5)%nat with (S (S (3 * length (data (shared si)) + 3))) by lia.
  rewrite (from_S _ _ _ E1), (from_S _ _ _ E2) by (by rewrite ?M1, ?M2).
  eapply (inner_run _ _ _ s2 j false); [done|done|reflexivity|cbn [si shared]; lia|]. rewrite M2. f_equal. cbn. lia.
Qed.
End steps.

(** ** The protocol *)

(** C36: however the producer and the consumer of a ring interleave, no access
    leaves the memory of the ring, and the samples given to the call-back are
    exactly those submitted, byte for byte as they were when they were submitted,
    in the order of their reservation, without the discarded ones, up to the record
    the consumer has reached; none of the records it has passed is one the producer
    still holds, and the producer is never more than one turn ahead.  The producer
    reaches a record through the pointer that reserving it gave, which is to the
    byte behind the header. *)
Theorem ringbuf_fifo (k : nat) (Hk : (3 ≤ k ≤ 31)%nat) sample_cb as_ :
  ∃ s j, exec (2 ^ Z.of_nat k - 1) sample_cb as_ (init k) = Some s ∧ (j ≤ length (recs s))%nat ∧
    Forall settled (take j (recs s)) ∧ delivered (shared s) = submitted (take j (recs s)) ∧
    prod_at (shared s) - cons_at (shared s) ≤ 2 ^ Z.of_nat k ∧
    (∀ i r, recs s !! i = Some r → r_ptr r = (start (recs s) i + 8) mod 2 ^ Z.of_nat k).
Proof.
  destruct (exec_ok k Hk sample_cb as_ (init k) 0 (init_inv k Hk)) as (s & j & E & H).
  destruct (window k Hk s j H) as (_ & Hw & _). pose proof H as [_ Hj Ec Ep _ _ _ Hf _ Hq _].
  assert (prod_at (shared s) - cons_at (shared s) ≤ 2 ^ Z.of_nat k) as Hle by (rewrite Ec, Ep; done).
  assert (∀ i r, recs s !! i = Some r → r_ptr r = (start (recs s) i + 8) mod 2 ^ Z.of_nat k) as Hptr.
  { intros i r Hr. by rewrite (inv_ptr _ _ _ H i r Hr), (land_mask k Hk). }
  destruct (at_ s) eqn:Ea; cbn in Hq; try by (exists s, j; split_and!; first [done|apply Hq]).
  destruct Hq as (_ & _ & Ho & r & Hr & Hs). exists s, (S j). split; [done|]. split; [by apply lookup_lt_Some in Hr|].
  split; [by eapply settled_S|done].
Qed.

Definition demo_acts : list action :=
  [PReserve 9; PWrite 0 0 [1; 2; 3; 4; 5; 6; 7; 8; 9]; Consume; PCommit 0 false; PReserve 9] ++ replicate 8 Consume ++
  [PLoad; PReserve 9; PWrite 1 0 [10; 20; 30; 40; 50; 60; 70; 80; 90]; Consume; PCommit 1 false] ++ replicate 6 Consume.
Definition demo_cb (_ : list (list Z)) (_ : list Z) : Z := 0.

(** The second record passes the end of a ring of 32 bytes; it had to wait for the
    first to be consumed. *)
Example wraps_around :
  (λ s, (prod_at (shared s), delivered (shared s))) <$> exec 31 demo_cb demo_acts (init 5) =
    Some (48, [[1; 2; 3; 4; 5; 6; 7; 8; 9]; [10; 20; 30; 40; 50; 60; 70; 80; 90]]).
Proof. vm_compute. reflexivity. Qed.

Lemma ringbuf_fifo_witness :
  ∃ s j, exec (2 ^ Z.of_nat 5 - 1) demo_cb demo_acts (init 5) = Some s ∧ (j ≤ length (recs s))%nat ∧
    Forall settled (take j (recs s)) ∧ delivered (shared s) = submitted (take j (recs s)) ∧
    prod_at (shared s) - cons_at (shared s) ≤ 2 ^ Z.of_nat 5 ∧
    (∀ i r, recs s !! i = Some r → r_ptr r = (start (recs s) i + 8) mod 2 ^ Z.of_nat 5).
Proof. apply (ringbuf_fifo 5). lia. Defined.

(** C37: called on a ring in any state the protocol reaches, while the producer is
    still and the call-back does not fail, the consumer returns; it has then
    delivered every submitted sample up to the first record that is still held and
    stored its position there, and its result is the number of samples of this
    call. *)
Theorem process_ring_drains (k : nat) (Hk : (3 ≤ k ≤ 31)%nat) sample_cb as_ s :
  (∀ out x, 0 ≤ sample_cb out x) → exec (2 ^ Z.of_nat k - 1) sample_cb as_ (init k) = Some s → at_rest (at_ s) →
  ∃ r, ringbuf_process_ring (2 ^ Z.of_nat k - 1) sample_cb (shared s) = Some (length (delivered r) - length (delivered (shared s)), r) ∧
    delivered r = submitted (ready (recs s)) ∧ cons_at r = total (ready (recs s)) ∧ prod_at r = prod_at (shared s).
Proof.
  intros Hcb Es Ha. destruct (exec_ok k Hk sample_cb as_ (init k) 0 (init_inv k Hk)) as (s0 & j & E & H).
  rewrite Es in E. injection E as <-. destruct (process_ok k Hk sample_cb Hcb s j H Ha) as (r & E & Ed & Ep & Ec).
  exists r. rewrite (inv_prod _ _ _ H). done.
Qed.

(** One sample was taken; the next is ready, and another is still held. *)
Definition demo_again : list action := take 12 demo_acts ++ [PLoad; PReserve 2; PReserve 1; PCommit 1 false].
Definition demo_state : state := default (init 5) (exec 31 demo_cb demo_again (init 5)).
Lemma process_ring_drains_witness :
  ∃ r, ringbuf_process_ring (2 ^ Z.of_nat 5 - 1) demo_cb (shared demo_state) = Some (length (delivered r) - length (delivered (shared demo_state)), r) ∧
    delivered r = submitted (ready (recs demo_state)) ∧ cons_at r = total (ready (recs demo_state)) ∧ prod_at r = prod_at (shared demo_state).
Proof.
  apply (process_ring_drains 5 ltac:(lia) demo_cb demo_again).
  - intros. apply Z.le_refl.
  - vm_compute. reflexivity.
  - vm_compute. exact I.
Defined.

(** What is documented of a reservation, in every state of the protocol: a sample
    that the ring can never hold is refused with [E2BIG], one for which there is no
    room now with [ENOSPC]; otherwise the sample is aligned to 8 bytes and lies
    behind its header. *)
Lemma total_mod rs : lens_ok rs → total rs mod 8 = 0.
Proof.
  induction 1 as [|r l Hr _ IH]; [done|]. pose proof (rnd_bounds _ Hr) as [_ E]. change (r :: l) with ([r] ++ l). rewrite total_app, total_one. dlia.
Qed.
Theorem reserve_documented (k : nat) (Hk : (3 ≤ k ≤ 31)%nat) sample_cb as_ s size :
  exec (2 ^ Z.of_nat k - 1) sample_cb as_ (init k) = Some s → 0 ≤ size < 2 ^ 32 → prod_at (shared s) < 2 ^ 63 →
  let room := 2 ^ Z.of_nat k - (prod_at (shared s) - seen s) in
  match user_ring_buffer__reserve (2 ^ Z.of_nat k - 1) (seen s) (prod_at (shared s)) size (data (shared s)) with
  | Some (inl e) => e = E2BIG ∧ (2 ^ 30 ≤ size ∨ 2 ^ Z.of_nat k < rnd size) ∨ e = ENOSPC ∧ room < rnd size ≤ 2 ^ Z.of_nat k
  | Some (inr (sample, p, _)) => size < 2 ^ 30 ∧ rnd size ≤ room ∧ sample mod 8 = 0 ∧ 0 ≤ sample < 2 ^ Z.of_nat k ∧ p = prod_at (shared s) + rnd size
  | None => False
  end.
Proof.
  intros Es Hsz Hp room. destruct (exec_ok k Hk sample_cb as_ (init k) 0 (init_inv k Hk)) as (s0 & j & E & H). rewrite Es in E. injection E as <-.
  destruct (window k Hk s j H) as (_ & _ & Hw). pose proof (inv_seen _ _ _ H) as [[Hs _] _]. pose proof (inv_prod _ _ _ H) as Ep.
  rewrite (reserve_eq k Hk _ _ _ _ (inv_sz _ _ _ H)) by lia. destruct (_ || _) eqn:E1.
  { apply orb_true_iff in E1. left. split; [done|]. destruct E1; [left|right]; lia. }
  apply orb_false_iff in E1 as [E1 E2]. destruct (Z.ltb_spec (2 ^ Z.of_nat k - (prod_at (shared s) - seen s)) (rnd size)) as [E3|E3].
  { right. split; [done|]. unfold room. lia. }
  split; [lia|]. split; [done|]. rewrite (land_mask k Hk). pose proof (mod_sz k Hk (prod_at (shared s) + 8)). split; [|done].
  pose proof (total_mod _ (inv_lens _ _ _ H)) as Em. rewrite Ep. pose proof (sz_bounds k Hk) as [_ E8].
  rewrite (Z.div_mod (total (recs s)) 8), Em, Z.add_0_r by lia. rewrite (Z.div_mod (2 ^ Z.of_nat k) 8), E8, Z.add_0_r by lia.
  replace (8 * (total (recs s) / 8) + 8) with (8 * (total (recs s) / 8 + 1)) by lia. rewrite Zmult_mod_distr_l, Z.mul_comm. apply Z.mod_mul. lia.
Qed.
