(* ===== verification/RingbufSetup.v ===== *)
(** * libbpf: setting up ring buffers

    The rest of [ringbuf.c]: the object over several ring buffers
    ([ring_buffer__new], [ring_buffer__add], [ring_buffer__free],
    [ring_buffer__consume], [ring_buffer__poll]) and the one over a user ring
    buffer ([user_ring_buffer__new], [user_ring_buffer__free],
    [user_ring_buffer__reserve_blocking]).  The state is what the process holds:
    mappings with their lengths, epoll descriptors with what is watched through
    them, and blocks of memory.  Unmapping or closing what is not held, or a
    mapping with another length than it was made with, is a fault. *)

From S2P Require Import Prelude Errno Ringbuf.
Local Open Scope Z_scope.

Definition BPF_MAP_TYPE_RINGBUF : Z := 27.
Definition BPF_MAP_TYPE_USER_RINGBUF : Z := 31.
Definition INT_MAX : Z := 2 ^ 31 - 1.

(** ** The system *)

(** What the calls answer: the error number or the type and size of a map, and the
    error number, if any, of the other calls. *)
Class RingOs := {
  page_size : Z;
  size_bits : Z;
  map_info : nat → Z → Z + Z * Z;
  alloc_ok : nat → bool;
  mmap_err : nat → option Z;
  epoll_create_err : nat → option Z;
  epoll_ctl_err : nat → option Z }.

Record res := mk_res {
  tick : nat; maps : gmap nat Z; epolls : gmap nat (list (Z * Z)); blocks : Z; r_errno : Z }.

Section setup.
Context `{RingOs}.
Abbreviation M := (prog res).

Definition call {A} (f : nat → A) : M A := λ s,
  Some (f (tick s), mk_res (S (tick s)) (maps s) (epolls s) (blocks s) (r_errno s)).
Definition set_errno (e : Z) : M () := λ s, Some ((), mk_res (tick s) (maps s) (epolls s) (blocks s) e).
Definition add_blocks (n : Z) : M () := λ s, Some ((), mk_res (tick s) (maps s) (epolls s) (blocks s + n) (r_errno s)).
Definition libbpf_err (ret : Z) : M Z := (if ret <? 0 then set_errno (- ret) else pret ()) ;;; pret ret.

Definition mmap (len : Z) : M (Z + nat) :=
  let! e := call mmap_err in
  match e with
  | Some e => pret (inl e)
  | None => λ s, let a := fresh (dom (maps s)) in
      Some (inr a, mk_res (tick s) (<[a := len]> (maps s)) (epolls s) (blocks s) (r_errno s))
  end.
Definition munmap (a : nat) (len : Z) : M () := λ s,
  l ← maps s !! a;
  if l =? len then Some ((), mk_res (tick s) (delete a (maps s)) (epolls s) (blocks s) (r_errno s)) else None.
Definition epoll_create1 : M (Z + nat) :=
  let! e := call epoll_create_err in
  match e with
  | Some e => pret (inl e)
  | None => λ s, let fd := fresh (dom (epolls s)) in
      Some (inr fd, mk_res (tick s) (maps s) (<[fd := []]> (epolls s)) (blocks s) (r_errno s))
  end.
(** Adds a descriptor with the data of its events. *)
Definition epoll_ctl_add (fd map_fd dat : Z) : M (option Z) :=
  let! e := call epoll_ctl_err in
  match e with
  | Some e => pret (Some e)
  | None => λ s, w ← epolls s !! Z.to_nat fd;
      Some (None, mk_res (tick s) (maps s) (<[Z.to_nat fd := w ++ [(map_fd, dat)]]> (epolls s)) (blocks s) (r_errno s))
  end.
Definition close (fd : Z) : M () := λ s,
  _ ← epolls s !! Z.to_nat fd;
  Some ((), mk_res (tick s) (maps s) (delete (Z.to_nat fd) (epolls s)) (blocks s) (r_errno s)).

(** [realloc], in terms of whether there was a block before. *)
Definition reallocarray (before : bool) : M bool :=
  let! ok := call alloc_ok in
  (if ok && negb before then add_blocks 1 else pret ()) ;;; pret ok.

(** ** Ring buffers *)

Record ring_t := mk_ring_t { consumer_pos : option nat; producer_pos : option nat; mask : Z; map_fd : Z; sample_cb : Z }.
Definition zero_ring : ring_t := mk_ring_t None None 0 0 0.

(** Pointers to arrays are [None] when null; [events] keeps the data of the
    events. *)
Record ring_buffer := mk_rb { events : option (list Z); rings : option (list ring_t); epoll_fd : Z; ring_cnt : nat }.
Definition rings_of (rb : ring_buffer) : list ring_t := default [] (rings rb).

(** The body of [ringbuf_unmap_ring] and of [user_ringbuf_unmap_ring]. *)
Definition unmap_pages (c p : option nat) (mask : Z) : M () :=
  match c with Some a => munmap a page_size | None => pret () end ;;;
  match p with Some a => munmap a (page_size + 2 * (mask + 1)) | None => pret () end.
Definition ringbuf_unmap_ring (r : ring_t) : M ring_t :=
  unmap_pages (consumer_pos r) (producer_pos r) (mask r) ;;; pret (mk_ring_t None None (mask r) (map_fd r) (sample_cb r)).

Definition grow {A} (cnt : nat) (old : option (list A)) (new : A) : option (list A) := Some (take cnt (default [] old) ++ [new]).
(** The ring is written in its place in the array. *)
Definition store_ring (rb : ring_buffer) (r : ring_t) : ring_buffer :=
  mk_rb (events rb) (Some (<[ring_cnt rb := r]> (rings_of rb))) (epoll_fd rb) (ring_cnt rb).

Definition ring_buffer__add (fd cb : Z) (rb : ring_buffer) : M (Z * ring_buffer) :=
  let! info := call (λ t, map_info t fd) in
  match info with
  | inl e => let! err := libbpf_err (- e) in pret (err, rb)
  | inr (type, max_entries) =>
    if negb (type =? BPF_MAP_TYPE_RINGBUF) then let! err := libbpf_err (- EINVAL) in pret (err, rb)
    else
    let! ok := reallocarray (bool_decide (is_Some (rings rb))) in
    if negb ok then let! err := libbpf_err (- ENOMEM) in pret (err, rb)
    else
    let rb := mk_rb (events rb) (grow (ring_cnt rb) (rings rb) zero_ring) (epoll_fd rb) (ring_cnt rb) in
    let! ok := reallocarray (bool_decide (is_Some (events rb))) in
    if negb ok then let! err := libbpf_err (- ENOMEM) in pret (err, rb)
    else
    let rb := mk_rb (grow (ring_cnt rb) (events rb) 0) (rings rb) (epoll_fd rb) (ring_cnt rb) in
    let r := mk_ring_t None None (u32 (max_entries - 1)) fd cb in
    let! m := mmap page_size in
    match m with
    | inl e => let! err := libbpf_err (- e) in pret (err, store_ring rb r)
    | inr c =>
      let r := mk_ring_t (Some c) None (mask r) fd cb in
      let mmap_sz := u64 (page_size + 2 * max_entries) in
      if negb (mmap_sz =? wrap size_bits mmap_sz) then let! err := libbpf_err (- E2BIG) in pret (err, store_ring rb r)
      else
      let! m := mmap mmap_sz in
      match m with
      | inl e => let! r := ringbuf_unmap_ring r in let! err := libbpf_err (- e) in pret (err, store_ring rb r)
      | inr p =>
        let r := mk_ring_t (Some c) (Some p) (mask r) fd cb in
        let rb := mk_rb (Some (<[ring_cnt rb := Z.of_nat (ring_cnt rb)]> (default [] (events rb)))) (rings rb) (epoll_fd rb) (ring_cnt rb) in
        let! e := epoll_ctl_add (epoll_fd rb) fd (Z.of_nat (ring_cnt rb)) in
        match e with
        | Some e => let! r := ringbuf_unmap_ring r in let! err := libbpf_err (- e) in pret (err, store_ring rb r)
        | None => let rb := store_ring rb r in pret (0, mk_rb (events rb) (rings rb) (epoll_fd rb) (S (ring_cnt rb)))
        end
      end
    end
  end.

Fixpoint unmap_rings (rs : list ring_t) : M () :=
  match rs with [] => pret () | r :: rs => ringbuf_unmap_ring r ;;; unmap_rings rs end.

Definition free_block {A} (p : option A) : M () := match p with Some _ => add_blocks (-1) | None => pret () end.
Definition ring_buffer__free (rb : option ring_buffer) : M () :=
  match rb with
  | None => pret ()
  | Some rb =>
    unmap_rings (take (ring_cnt rb) (rings_of rb)) ;;;
    (if 0 <=? epoll_fd rb then close (epoll_fd rb) else pret ()) ;;;
    free_block (events rb) ;;; free_block (rings rb) ;;; add_blocks (-1)
  end.

(** [opts_ok] is [OPTS_VALID]. *)
Definition ring_buffer__new (fd cb : Z) (opts_ok : bool) : M (option ring_buffer) :=
  if negb opts_ok then set_errno EINVAL ;;; pret None
  else
  let! ok := call alloc_ok in
  if negb ok then set_errno ENOMEM ;;; pret None
  else
  add_blocks 1 ;;;
  let! e := epoll_create1 in
  let rb := mk_rb None None (match e with inl _ => -1 | inr efd => Z.of_nat efd end) 0 in
  let! (err, rb) := match e with inl e => pret (- e, rb) | inr _ => ring_buffer__add fd cb rb end in
  if negb (err =? 0) then ring_buffer__free (Some rb) ;;; set_errno (- err) ;;; pret None
  else pret (Some rb).

(** ** User ring buffers *)

Record user_ring_buffer := mk_urb { u_consumer_pos : option nat; u_producer_pos : option nat; u_mask : Z; u_epoll_fd : Z }.

Definition user_ringbuf_unmap_ring (rb : user_ring_buffer) : M () :=
  unmap_pages (u_consumer_pos rb) (u_producer_pos rb) (u_mask rb).

Definition user_ring_buffer__free (rb : option user_ring_buffer) : M () :=
  match rb with
  | None => pret ()
  | Some rb =>
    user_ringbuf_unmap_ring rb ;;;
    (if 0 <=? u_epoll_fd rb then close (u_epoll_fd rb) else pret ()) ;;;
    add_blocks (-1)
  end.

Definition user_ringbuf_map (fd : Z) (rb : user_ring_buffer) : M (Z * user_ring_buffer) :=
  let! info := call (λ t, map_info t fd) in
  match info with
  | inl e => pret (- e, rb)
  | inr (type, max_entries) =>
    if negb (type =? BPF_MAP_TYPE_USER_RINGBUF) then pret (- EINVAL, rb)
    else
    let rb := mk_urb None None (u32 (max_entries - 1)) (u_epoll_fd rb) in
    let! m := mmap page_size in
    match m with
    | inl e => pret (- e, rb)
    | inr c =>
      let rb := mk_urb (Some c) None (u_mask rb) (u_epoll_fd rb) in
      let mmap_sz := u64 (page_size + 2 * max_entries) in
      if negb (mmap_sz =? wrap size_bits mmap_sz) then pret (- E2BIG, rb)
      else
      let! m := mmap mmap_sz in
      match m with
      | inl e => pret (- e, rb)
      | inr p =>
        let rb := mk_urb (Some c) (Some p) (u_mask rb) (u_epoll_fd rb) in
        let! e := epoll_ctl_add (u_epoll_fd rb) fd 0 in
        pret (match e with Some e => - e | None => 0 end, rb)
      end
    end
  end.

Definition user_ring_buffer__new (fd : Z) (opts_ok : bool) : M (option user_ring_buffer) :=
  if negb opts_ok then set_errno EINVAL ;;; pret None
  else
  let! ok := call alloc_ok in
  if negb ok then set_errno ENOMEM ;;; pret None
  else
  add_blocks 1 ;;;
  let! e := epoll_create1 in
  let rb := mk_urb None None 0 (match e with inl _ => -1 | inr efd => Z.of_nat efd end) in
  let! (err, rb) := match e with inl e => pret (- e, rb) | inr _ => user_ringbuf_map fd rb end in
  if negb (err =? 0) then user_ring_buffer__free (Some rb) ;;; set_errno (- err) ;;; pret None
  else pret (Some rb).
End setup.

(** ** What is held *)

(** The mappings [m] are those of [m0] and, apart from them, those of [l]. *)
Definition owns (l : list (nat * Z)) (m0 m : gmap nat Z) : Prop :=
  NoDup l.*1 ∧ (∀ a, a ∈ l.*1 → m0 !! a = None) ∧ m = list_to_map l ∪ m0.

Lemma owns_nil m : owns [] m m.
Proof. split; [constructor|]. split; [intros a Ha; by apply not_elem_of_nil in Ha|]. by rewrite left_id_L by apply _. Qed.
Lemma owns_add l m0 m a n : owns l m0 m → a ∉ dom m → owns (l ++ [(a, n)]) m0 (<[a := n]> m).
Proof.
  intros (Hn & Hd & ->) Ha. rewrite dom_union_L, not_elem_of_union in Ha. destruct Ha as [Ha1 Ha2]. apply not_elem_of_dom in Ha1, Ha2.
  apply not_elem_of_list_to_map_2 in Ha1. assert (NoDup (l ++ [(a, n)]).*1) as Hn'.
  { rewrite fmap_app, NoDup_app. split; [done|]. split; [|apply NoDup_singleton]. intros x Hx Hx'. apply list_elem_of_singleton in Hx'. by subst x. }
  split; [done|]. split.
  - intros x Hx. rewrite fmap_app, elem_of_app in Hx. destruct Hx as [Hx|Hx]; [by apply Hd|]. apply list_elem_of_singleton in Hx. by subst x.
  - rewrite (list_to_map_proper (l ++ [(a, n)]) ((a, n) :: l)); [|done|symmetry; apply Permutation_cons_append]. cbn. by rewrite insert_union_l.
Qed.
Lemma owns_remove l1 l2 m0 m a n : owns (l1 ++ (a, n) :: l2) m0 m → m !! a = Some n ∧ owns (l1 ++ l2) m0 (delete a m).
Proof.
  intros (Hn & Hd & ->). pose proof (Permutation_middle l1 l2 (a, n)) as Hp.
  rewrite (list_to_map_proper (l1 ++ (a, n) :: l2) ((a, n) :: l1 ++ l2)) by done.
  assert (NoDup ((a, n) :: l1 ++ l2).*1) as Hn' by (by rewrite Hp). cbn in Hn'. apply NoDup_cons in Hn' as [Hx Hn'].
  cbn [list_to_map fst snd foldr]. split; [by apply lookup_union_Some_l, lookup_insert_eq|]. split; [done|]. split.
  - intros x Hx'. apply Hd. rewrite fmap_app, elem_of_app. rewrite fmap_app, elem_of_app in Hx'. cbn. rewrite elem_of_cons. tauto.
  - rewrite delete_union, delete_insert_id by (by apply not_elem_of_list_to_map_1). f_equal. apply delete_id, Hd.
    rewrite fmap_app, elem_of_app. cbn. rewrite elem_of_cons. tauto.
Qed.

(** Answers of the system: error numbers are positive, a map of a ring buffer has a
    size, and its two images fit into the address space. *)
Class RingOsOk `{RingOs} := {
  page_ok : 0 < page_size;
  bits_ok : 0 ≤ size_bits ≤ 64;
  info_err_ok t fd e : map_info t fd = inl e → 0 < e;
  info_size_ok t fd ty n : map_info t fd = inr (ty, n) → 0 < n < 2 ^ 32 ∧ page_size + 2 * n < 2 ^ size_bits;
  mmap_err_ok t e : mmap_err t = Some e → 0 < e;
  create_err_ok t e : epoll_create_err t = Some e → 0 < e;
  ctl_err_ok t e : epoll_ctl_err t = Some e → 0 < e }.

Section lifecycle.
Context `{HO : RingOs} `{!RingOsOk} (m0 : gmap nat Z).

(** The mappings, the epoll descriptors and the number of blocks. *)
Definition holds (l : list (nat * Z)) (w : gmap nat (list (Z * Z))) (b : Z) (s : res) : Prop :=
  owns l m0 (maps s) ∧ epolls s = w ∧ blocks s = b.

Lemma wp_call {A} (f : nat → A) l w b s Q : holds l w b s → (∀ t s', holds l w b s' → Q (f t) s') → wp (call f) s Q.
Proof. intros Hh Hq. apply Hq. exact Hh. Qed.
Lemma wp_errno e l w b s (Q : () → res → Prop) : holds l w b s → (∀ s', holds l w b s' → r_errno s' = e → Q () s') → wp (set_errno e) s Q.
Proof. intros Hh Hq. by apply Hq. Qed.
Lemma wp_blocks n l w b s (Q : () → res → Prop) : holds l w b s → (∀ s', holds l w (b + n) s' → Q () s') → wp (add_blocks n) s Q.
Proof. intros (H1 & H2 & H3) Hq. apply Hq. repeat split; try done; try apply H1. cbn. by rewrite H3. Qed.
Lemma wp_err ret l w b s (Q : Z → res → Prop) : ret < 0 → holds l w b s →
  (∀ s', holds l w b s' → r_errno s' = - ret → Q ret s') → wp (libbpf_err ret) s Q.
Proof.
  intros Hr Hh Hq. unfold libbpf_err. apply wp_bind. rewrite (proj2 (Z.ltb_lt ret 0)) by done. eapply wp_errno; [exact Hh|].
  intros s' Hs' He. apply wp_ret. by apply Hq.
Qed.
Lemma wp_mmap n l w b s (Q : Z + nat → res → Prop) : holds l w b s → (∀ e s', 0 < e → holds l w b s' → Q (inl e) s') →
  (∀ a s', holds (l ++ [(a, n)]) w b s' → Q (inr a) s') → wp (mmap n) s Q.
Proof.
  intros Hh Hq1 Hq2. unfold mmap. apply wp_bind. destruct (mmap_err (tick s)) as [e|] eqn:E; unfold call, wp at 1; rewrite E.
  - apply wp_ret, Hq1; [by eapply mmap_err_ok|exact Hh].
  - apply Hq2. destruct Hh as (H1 & H2 & H3). split; [|by split]. cbn. apply owns_add; [done|apply is_fresh].
Qed.
Lemma wp_munmap a n l1 l2 w b s (Q : () → res → Prop) : holds (l1 ++ (a, n) :: l2) w b s → (∀ s', holds (l1 ++ l2) w b s' → Q () s') → wp (munmap a n) s Q.
Proof.
  intros (H1 & H2 & H3) Hq. apply owns_remove in H1 as [El H1]. unfold wp, munmap. rewrite El. cbn [mbind option_bind].
  rewrite Z.eqb_refl. apply Hq. by repeat split; try apply H1.
Qed.
Lemma wp_create l w b s (Q : Z + nat → res → Prop) : holds l w b s → (∀ e s', 0 < e → holds l w b s' → Q (inl e) s') →
  (∀ fd s', w !! fd = None → holds l (<[fd := []]> w) b s' → Q (inr fd) s') → wp epoll_create1 s Q.
Proof.
  intros Hh Hq1 Hq2. unfold epoll_create1. apply wp_bind. destruct (epoll_create_err (tick s)) as [e|] eqn:E; unfold call, wp at 1; rewrite E.
  - apply wp_ret, Hq1; [by eapply create_err_ok|exact Hh].
  - destruct Hh as (H1 & H2 & H3). apply Hq2; cbn [epolls]; rewrite H2; [apply not_elem_of_dom, is_fresh|]. by repeat split; try apply H1.
Qed.
Lemma wp_ctl fd mfd dat es l w b s (Q : option Z → res → Prop) : holds l w b s → w !! fd = Some es →
  (∀ e s', 0 < e → holds l w b s' → Q (Some e) s') → (∀ s', holds l (<[fd := es ++ [(mfd, dat)]]> w) b s' → Q None s') →
  wp (epoll_ctl_add (Z.of_nat fd) mfd dat) s Q.
Proof.
  intros Hh Hw Hq1 Hq2. unfold epoll_ctl_add. apply wp_bind. destruct (epoll_ctl_err (tick s)) as [e|] eqn:E; unfold call, wp at 1; rewrite E.
  - apply wp_ret, Hq1; [by eapply ctl_err_ok|exact Hh].
  - destruct Hh as (H1 & H2 & H3). unfold wp. rewrite Nat2Z.id. cbn [epolls]. rewrite H2, Hw. cbn [mbind option_bind]. apply Hq2.
    repeat split; try done; try apply H1.
Qed.
Lemma wp_close fd es l w b s (Q : () → res → Prop) : holds l w b s → w !! fd = Some es → (∀ s', holds l (delete fd w) b s' → Q () s') →
  wp (close (Z.of_nat fd)) s Q.
Proof.
  intros (H1 & H2 & H3) Hw Hq. unfold wp, close. rewrite Nat2Z.id, H2, Hw. cbn [mbind option_bind]. apply Hq.
  repeat split; try done; try apply H1.
Qed.
Lemma wp_realloc (before : bool) l w b s (Q : bool → res → Prop) : holds l w b s → (∀ s', holds l w b s' → Q false s') →
  (∀ s', holds l w (if before then b else b + 1) s' → Q true s') → wp (reallocarray before) s Q.
Proof.
  intros Hh Hq1 Hq2. unfold reallocarray. apply wp_bind. eapply wp_call; [exact Hh|]. intros t s1 Hs1. apply wp_bind.
  destruct (alloc_ok t); cbn [andb].
  - destruct before; cbn [negb]; [apply wp_ret, wp_ret, Hq2, Hs1|]. eapply wp_blocks; [exact Hs1|]. intros s2 Hs2. by apply wp_ret, Hq2.
  - apply wp_ret, wp_ret, Hq1, Hs1.
Qed.

Lemma holds_eq l w b b' s : holds l w b s → b = b' → holds l w b' s.
Proof. by intros Hh <-. Qed.

(** ** One ring *)

Definition pages (c p : option nat) (mask : Z) : list (nat * Z) :=
  match c with Some a => [(a, page_size)] | None => [] end ++
  match p with Some a => [(a, page_size + 2 * (mask + 1))] | None => [] end.
Definition maps_of (r : ring_t) : list (nat * Z) := pages (consumer_pos r) (producer_pos r) (mask r).

Lemma wp_unmap_pages c p msk l1 l2 w b s (Q : () → res → Prop) : holds (l1 ++ pages c p msk ++ l2) w b s →
  (∀ s', holds (l1 ++ l2) w b s' → Q () s') → wp (unmap_pages c p msk) s Q.
Proof.
  intros Hh Hq. unfold unmap_pages. apply wp_bind.
  assert (∀ s', holds (l1 ++ match p with Some a => [(a, page_size + 2 * (msk + 1))] | None => [] end ++ l2) w b s' →
    wp (match p with Some a => munmap a (page_size + 2 * (msk + 1)) | None => pret () end) s' Q) as Hp.
  { intros s' Hs'. destruct p as [a|]; [|apply wp_ret, Hq, Hs']. eapply wp_munmap; [exact Hs'|]. exact Hq. }
  destruct c as [a|]; [|by apply wp_ret, Hp]. eapply wp_munmap; [exact Hh|]. exact Hp.
Qed.
Lemma wp_unmap r l1 l2 w b s (Q : ring_t → res → Prop) : holds (l1 ++ maps_of r ++ l2) w b s →
  (∀ s', holds (l1 ++ l2) w b s' → Q (mk_ring_t None None (mask r) (map_fd r) (sample_cb r)) s') → wp (ringbuf_unmap_ring r) s Q.
Proof.
  intros Hh Hq. unfold ringbuf_unmap_ring. apply wp_bind. eapply wp_unmap_pages; [exact Hh|]. intros s' Hs'. by apply wp_ret, Hq.
Qed.

Lemma wp_unmap_rings rs l w b s (Q : () → res → Prop) : holds (concat (maps_of <$> rs) ++ l) w b s →
  (∀ s', holds l w b s' → Q () s') → wp (unmap_rings rs) s Q.
Proof.
  revert s. induction rs as [|r rs IH]; intros s Hh Hq; [by apply wp_ret, Hq|]. cbn [unmap_rings]. apply wp_bind.
  apply (wp_unmap r [] (concat (maps_of <$> rs) ++ l) w b); [cbn in *; by rewrite app_assoc|]. intros s' Hs'. by apply IH.
Qed.

(** ** The object *)

Definition whole (r : ring_t) : Prop := is_Some (consumer_pos r) ∧ is_Some (producer_pos r).
Definition watch (rs : list ring_t) : list (Z * Z) := imap (λ i r, (map_fd r, Z.of_nat i)) rs.
Definition block {A} (p : option A) : Z := match p with Some _ => 1 | None => 0 end.
Definition used (rb : ring_buffer) : list ring_t := take (ring_cnt rb) (rings_of rb).

(** The object holds two mappings for each of its rings, its epoll descriptor, which
    watches them under their index, and its blocks; [w0] and [b0] are those of
    others. *)
Definition rb_ok (w0 : gmap nat (list (Z * Z))) (b0 : Z) (rb : ring_buffer) (s : res) : Prop :=
  ∃ fd, epoll_fd rb = Z.of_nat fd ∧ w0 !! fd = None ∧ (ring_cnt rb ≤ length (rings_of rb))%nat ∧ Forall whole (used rb) ∧
    holds (concat (maps_of <$> used rb)) (<[fd := watch (used rb)]> w0) (b0 + 1 + block (rings rb) + block (events rb)) s.

Lemma wp_grow {A} (p : option A) b l w s (Q : bool → res → Prop) : holds l w (b + block p) s → (∀ s', holds l w (b + block p) s' → Q false s') →
  (∀ s', holds l w (b + 1) s' → Q true s') → wp (reallocarray (bool_decide (is_Some p))) s Q.
Proof.
  intros Hh Hq1 Hq2. eapply wp_realloc; [exact Hh|done|]. intros s' Hs'. apply Hq2. destruct p; cbn in *; [exact Hs'|].
  eapply holds_eq; [exact Hs'|lia].
Qed.

Lemma free_ok w0 b0 rb s : rb_ok w0 b0 rb s → wp (ring_buffer__free (Some rb)) s (λ _ s', holds [] w0 b0 s').
Proof.
  intros (fd & Ef & Hw & Hc & Hf & Hh). unfold ring_buffer__free. apply wp_bind. rewrite <- (app_nil_r (concat _)) in Hh.
  eapply wp_unmap_rings; [exact Hh|]. intros s1 H1. apply wp_bind. rewrite Ef, (proj2 (Z.leb_le 0 _)) by lia.
  eapply wp_close; [exact H1|apply lookup_insert_eq|]. intros s2 H2. rewrite delete_insert_id in H2 by done.
  assert (∀ A (p : option A) b s (Q : () → res → Prop), holds [] w0 (b + block p) s → (∀ s', holds [] w0 b s' → Q () s') → wp (free_block p) s Q) as Hfree.
  { intros A p b s' Q Hs' Hq. destruct p; cbn [free_block block] in *; [|apply wp_ret, Hq; by rewrite Z.add_0_r in Hs'].
    eapply wp_blocks; [exact Hs'|]. intros s'' Hs''. apply Hq. by replace (b + 1 + -1) with b in Hs'' by lia. }
  apply wp_bind. eapply Hfree; [exact H2|]. intros s3 H3. apply wp_bind. eapply Hfree; [exact H3|]. intros s4 H4.
  eapply wp_blocks; [exact H4|]. intros s5 H5. by replace (b0 + 1 + -1) with b0 in H5 by lia.
Qed.

(** What adding a ring gives: the ring at the end, or an error and the same
    rings. *)
Definition added (w0 : gmap nat (list (Z * Z))) (b0 : Z) (rb : ring_buffer) (fd cb err : Z) (rb' : ring_buffer) (s' : res) : Prop :=
  rb_ok w0 b0 rb' s' ∧
  (err = 0 ∧ (∃ r, used rb' = used rb ++ [r] ∧ map_fd r = fd ∧ sample_cb r = cb) ∨ err < 0 ∧ used rb' = used rb ∧ r_errno s' = - err).

(** An error leaves the rings as they were; the arrays may have grown. *)
Lemma not_added w0 b0 rb fd cb e efd rb' l w s s' : 0 < e → rb_ok w0 b0 rb s →
  epoll_fd rb = Z.of_nat efd → w0 !! efd = None → epoll_fd rb' = epoll_fd rb → ring_cnt rb' = ring_cnt rb → used rb' = used rb →
  l = concat (maps_of <$> used rb) → w = <[efd := watch (used rb)]> w0 →
  holds l w (b0 + 1 + block (rings rb') + block (events rb')) s' → r_errno s' = e → added w0 b0 rb fd cb (- e) rb' s'.
Proof.
  intros He (efd' & Ef & Hw & Hc & Hf & _) Ef0 Hw0 Ee Ec Eu -> -> Hh Er. split; [|right; split; [lia|]; split; [done|lia]].
  exists efd. split; [congruence|]. split; [done|]. split; [|rewrite Eu; by split].
  apply (f_equal length) in Eu. unfold used in Eu. rewrite !length_take in Eu. lia.
Qed.

Lemma grown {A} (rs : list A) (n : nat) (r x : A) : (n ≤ length rs)%nat → <[n := r]> (take n rs ++ [x]) = take n rs ++ [r] ∧ take n (take n rs ++ [x]) = take n rs.
Proof.
  intros Hn. assert (length (take n rs) = n) as El by (rewrite length_take; lia). split; [|by rewrite take_app_length'].
  rewrite insert_app_r_alt by lia. by rewrite El, Nat.sub_diag.
Qed.

Lemma add_fails w0 b0 rb fd cb s efd : rb_ok w0 b0 rb s → epoll_fd rb = Z.of_nat efd → w0 !! efd = None →
  ∀ e rb' (b : Z) s1, 0 < e → epoll_fd rb' = epoll_fd rb → ring_cnt rb' = ring_cnt rb → used rb' = used rb →
    b = b0 + 1 + block (rings rb') + block (events rb') → holds (concat (maps_of <$> used rb)) (<[efd := watch (used rb)]> w0) b s1 →
    wp (let! err := libbpf_err (- e) in pret (err, rb')) s1 (λ o s', added w0 b0 rb fd cb o.1 o.2 s').
Proof.
  intros Hrb Ef Hw e rb' b s1 He E1 E2 E3 -> H1. apply wp_bind. eapply wp_err; [lia|exact H1|]. intros s2 H2 Er. apply wp_ret.
  by eapply (not_added _ _ _ _ _ e efd rb' _ _ s s2); try done; lia.
Qed.

Lemma add_ok w0 b0 rb fd cb s : rb_ok w0 b0 rb s → wp (ring_buffer__add fd cb rb) s (λ o s', added w0 b0 rb fd cb o.1 o.2 s').
Proof.
  intros Hrb. pose proof Hrb as (efd & Ef & Hw & Hc & Hf & Hh). set (w := <[efd := watch (used rb)]> w0) in *. set (l := concat (maps_of <$> used rb)) in *.
  pose proof (add_fails w0 b0 rb fd cb s efd Hrb Ef Hw) as Herr. fold l w in Herr.
  unfold ring_buffer__add. apply wp_bind. destruct (map_info (tick s) fd) as [e|[ty n]] eqn:Ei; unfold call at 1, wp at 1; rewrite Ei;
    (assert (holds l w (b0 + 1 + block (rings rb) + block (events rb)) (mk_res (S (tick s)) (maps s) (epolls s) (blocks s) (r_errno s))) as H0 by exact Hh).
  { eapply Herr; [by eapply info_err_ok|done..|exact H0]. }
  destruct (info_size_ok _ _ _ _ Ei) as [Hn Hfit]. pose proof page_ok as Hpg. pose proof bits_ok as Hbits.
  destruct (negb (ty =? _)); [eapply Herr; [done..|exact H0]|]. pose proof (grown (default [] (rings rb)) (ring_cnt rb)) as Hg.
  apply wp_bind. eapply (wp_grow (rings rb) (b0 + 1 + block (events rb))); [eapply holds_eq; [exact H0|lia]|intros s1 H1; eapply Herr; [done..| |exact H1]; lia|].
  intros s1 H1. cbn [negb ring_cnt]. apply wp_bind.
  eapply (wp_grow (events rb) (b0 + 2)); [eapply holds_eq; [exact H1|lia]|intros s2 H2; eapply Herr; [done..|by apply (Hg zero_ring)| |exact H2]; cbn; lia|].
  intros s2 H2. cbn [negb ring_cnt epoll_fd rings events mask]. apply wp_bind.
  assert (∀ r ev, used (store_ring (mk_rb (Some ev) (grow (ring_cnt rb) (rings rb) zero_ring) (epoll_fd rb) (ring_cnt rb)) r) = used rb) as Hput.
  { intros r ev. unfold store_ring, used, rings_of, grow. cbn. rewrite (proj1 (Hg r zero_ring Hc)). by apply (Hg r r). }
  assert (u32 (n - 1) = n - 1) as Em by (apply wrap_small; unfold is_word; lia). rewrite Em.
  eapply wp_mmap; [exact H2|intros e s3 He H3; eapply Herr; [done..|apply Hput| |exact H3]; cbn; lia|]. intros c s3 H3.
  assert (2 ^ size_bits ≤ 2 ^ 64) as Hp by (apply Z.pow_le_mono_r; lia).
  assert (u64 (page_size + 2 * n) = page_size + 2 * n) as Es by (apply wrap_small; unfold is_word; lia). rewrite Es.
  rewrite (wrap_small size_bits), Z.eqb_refl by (unfold is_word; lia). cbn [negb]. apply wp_bind.
  eapply wp_mmap; [exact H3| |].
  { intros e s4 He H4. apply wp_bind. eapply (wp_unmap _ l []); [rewrite app_nil_r; exact H4|]. intros s5 H5. rewrite app_nil_r in H5.
    eapply Herr; [done..|apply Hput| |exact H5]; cbn; lia. }
  intros p s4 H4. rewrite <- app_assoc in H4. cbn [app] in H4. apply wp_bind. rewrite Ef.
  eapply wp_ctl; [exact H4|apply lookup_insert_eq| |].
  { intros e s5 He H5. apply wp_bind. eapply (wp_unmap _ l []); [rewrite app_nil_r; cbn; replace (n - 1 + 1) with n by lia; exact H5|]. intros s6 H6. rewrite app_nil_r in H6.
    rewrite <- Ef. eapply Herr; [done..|apply Hput| |exact H6]; cbn; lia. }
  intros s5 H5. apply wp_ret. cbn [fst snd]. set (r := mk_ring_t (Some c) (Some p) (n - 1) fd cb) in *.
  set (rb' := mk_rb _ _ _ _). assert (used rb' = used rb ++ [r]) as Eu.
  { unfold rb', store_ring, used at 1, rings_of, grow. cbn. rewrite (proj1 (Hg r zero_ring Hc)). rewrite take_ge; [done|]. rewrite length_app, length_take. cbn. lia. }
  split; [|left; split; [done|]; by exists r]. exists efd. rewrite Eu. split; [done|]. split; [done|].
  split; [unfold rb', store_ring, rings_of, grow; cbn; rewrite length_insert, length_app, length_take; cbn; unfold rings_of in Hc; lia|].
  split; [apply Forall_app_2; [done|]; apply Forall_singleton; split; by eexists|].
  unfold watch. rewrite imap_app. rewrite fmap_app, concat_app. cbn. replace (n - 1 + 1) with n by lia.
  unfold w in H5. rewrite insert_insert_eq in H5. apply (holds_eq _ _ (b0 + 2 + 1)); [|cbn; lia].
  replace (length (used rb) + 0)%nat with (ring_cnt rb) by (unfold used; rewrite length_take; lia). exact H5.
Qed.

Lemma new_ok w0 b0 fd cb ok s : holds [] w0 b0 s → wp (ring_buffer__new fd cb ok) s (λ o s',
  match o with
  | None => holds [] w0 b0 s' ∧ 0 < r_errno s'
  | Some rb => rb_ok w0 b0 rb s' ∧ ∃ r, used rb = [r] ∧ map_fd r = fd ∧ sample_cb r = cb
  end).
Proof.
  intros Hh. unfold ring_buffer__new.
  assert (∀ e s1, 0 < e → holds [] w0 b0 s1 → wp (set_errno e ;;; pret (None : option ring_buffer)) s1 (λ o s',
    match o with None => holds [] w0 b0 s' ∧ 0 < r_errno s' | Some rb => rb_ok w0 b0 rb s' ∧ ∃ r, used rb = [r] ∧ map_fd r = fd ∧ sample_cb r = cb end)) as Hnone.
  { intros e s1 He H1. apply wp_bind. eapply wp_errno; [exact H1|]. intros s2 H2 Er. apply wp_ret. by rewrite Er. }
  destruct ok; [|by apply Hnone]. cbn [negb]. apply wp_bind. eapply wp_call; [exact Hh|]. intros t s1 H1.
  destruct (alloc_ok t); [|by apply Hnone]. cbn [negb]. apply wp_bind. eapply wp_blocks; [exact H1|]. intros s2 H2. apply wp_bind.
  eapply wp_create; [exact H2| |].
  - intros e s3 He H3. apply wp_bind, wp_ret. rewrite (proj2 (Z.eqb_neq (- e) 0)) by lia. cbn [negb].
    apply wp_bind. eapply (wp_mono _ _ (λ _ s', holds [] w0 b0 s')); [|intros _ s4 H4; apply Hnone; [lia|done]].
    destruct H3 as (H3 & Hw3 & Hb3). unfold wp. cbn. split; [done|]. split; [done|]. cbn. lia.
  - intros efd s3 Hfd H3. apply wp_bind. set (rb := mk_rb None None (Z.of_nat efd) 0). eapply wp_mono.
    { apply (add_ok w0 b0 rb). exists efd. split; [done|]. split; [done|]. split; [cbn; lia|]. split; [constructor|]. eapply holds_eq; [exact H3|cbn; lia]. }
    intros [err rb'] s4 [Hok Hr]. cbn [fst snd] in *. destruct Hr as [(-> & r & Eu & Em & Ec)|(He & _ & _)].
    + apply wp_ret. split; [done|]. by exists r.
    + rewrite (proj2 (Z.eqb_neq err 0)) by lia. cbn [negb]. apply wp_bind. eapply wp_mono; [by eapply free_ok|]. intros u s5 H5. apply Hnone; [lia|done].
Qed.

(** ** The user ring buffer *)

Definition u_maps (rb : user_ring_buffer) : list (nat * Z) := pages (u_consumer_pos rb) (u_producer_pos rb) (u_mask rb).
Definition urb_ok (w0 : gmap nat (list (Z * Z))) (b0 : Z) (rb : user_ring_buffer) (s : res) : Prop :=
  ∃ fd es, u_epoll_fd rb = Z.of_nat fd ∧ w0 !! fd = None ∧ holds (u_maps rb) (<[fd := es]> w0) (b0 + 1) s.

Lemma user_free_ok w0 b0 rb s : urb_ok w0 b0 rb s → wp (user_ring_buffer__free (Some rb)) s (λ _ s', holds [] w0 b0 s').
Proof.
  intros (fd & es & Ef & Hw & Hh). unfold user_ring_buffer__free. apply wp_bind.
  rewrite <- (app_nil_r (u_maps rb)) in Hh. eapply (wp_unmap_pages _ _ _ [] []); [exact Hh|]. intros s1 H1. apply wp_bind.
  rewrite Ef, (proj2 (Z.leb_le 0 _)) by lia.
  eapply wp_close; [exact H1|apply lookup_insert_eq|]. intros s2 H2. rewrite delete_insert_id in H2 by done.
  eapply wp_blocks; [exact H2|]. intros s3 H3. eapply holds_eq; [exact H3|lia].
Qed.

Lemma user_map_ok w0 b0 efd fd s : w0 !! efd = None → holds [] (<[efd := []]> w0) (b0 + 1) s →
  wp (user_ringbuf_map fd (mk_urb None None 0 (Z.of_nat efd))) s (λ o s', urb_ok w0 b0 o.2 s' ∧ o.1 ≤ 0 ∧
    (o.1 = 0 → is_Some (u_consumer_pos o.2) ∧ is_Some (u_producer_pos o.2))).
Proof.
  intros Hw Hh. unfold user_ringbuf_map. apply wp_bind.
  assert (∀ e rb es s1, 0 < e → u_epoll_fd rb = Z.of_nat efd → holds (u_maps rb) (<[efd := es]> w0) (b0 + 1) s1 →
    wp (pret (- e, rb)) s1 (λ o s', urb_ok w0 b0 o.2 s' ∧ o.1 ≤ 0 ∧ (o.1 = 0 → is_Some (u_consumer_pos o.2) ∧ is_Some (u_producer_pos o.2)))) as Herr.
  { intros e rb es s1 He Ef H1. apply wp_ret. cbn. split; [by exists efd, es|]. split; lia. }
  destruct (map_info (tick s) fd) as [e|[ty n]] eqn:Ei; unfold call at 1, wp at 1; rewrite Ei;
    (assert (holds [] (<[efd := []]> w0) (b0 + 1) (mk_res (S (tick s)) (maps s) (epolls s) (blocks s) (r_errno s))) as H0 by exact Hh).
  { eapply Herr; [by eapply info_err_ok|done|exact H0]. }
  destruct (info_size_ok _ _ _ _ Ei) as [Hn Hfit]. pose proof page_ok as Hpg. pose proof bits_ok as Hbits.
  destruct (negb (ty =? _)); [eapply Herr; [done|done|exact H0]|].
  assert (u32 (n - 1) = n - 1) as Em by (apply wrap_small; unfold is_word; lia). rewrite Em. cbn [u_mask u_epoll_fd].
  apply wp_bind. eapply wp_mmap; [exact H0|intros e s1 He H1; eapply Herr; [done|done|exact H1]|]. intros c s1 H1. cbn [app] in H1.
  assert (2 ^ size_bits ≤ 2 ^ 64) as Hp by (apply Z.pow_le_mono_r; lia).
  assert (u64 (page_size + 2 * n) = page_size + 2 * n) as Es by (apply wrap_small; unfold is_word; lia). rewrite Es.
  rewrite (wrap_small size_bits), Z.eqb_refl by (unfold is_word; lia). cbn [negb]. apply wp_bind.
  eapply wp_mmap; [exact H1|intros e s2 He H2; eapply Herr; [done|done|exact H2]|]. intros p s2 H2. cbn [app] in H2. apply wp_bind.
  eapply wp_ctl; [exact H2|apply lookup_insert_eq|intros e s3 He H3; eapply Herr; [done|done|]|].
  - cbn. replace (n - 1 + 1) with n by lia. exact H3.
  - intros s3 H3. rewrite insert_insert_eq in H3. apply wp_ret. cbn [fst snd]. split; [|split; [done|intros _; split; by eexists]].
    exists efd, [(fd, 0)]. split; [done|]. split; [done|]. cbn. replace (n - 1 + 1) with n by lia. exact H3.
Qed.

Lemma user_new_ok w0 b0 fd ok s : holds [] w0 b0 s → wp (user_ring_buffer__new fd ok) s (λ o s',
  match o with
  | None => holds [] w0 b0 s' ∧ 0 < r_errno s'
  | Some rb => urb_ok w0 b0 rb s' ∧ is_Some (u_consumer_pos rb) ∧ is_Some (u_producer_pos rb)
  end).
Proof.
  intros Hh. unfold user_ring_buffer__new.
  assert (∀ e s1, 0 < e → holds [] w0 b0 s1 → wp (set_errno e ;;; pret (None : option user_ring_buffer)) s1 (λ o s',
    match o with None => holds [] w0 b0 s' ∧ 0 < r_errno s'
    | Some rb => urb_ok w0 b0 rb s' ∧ is_Some (u_consumer_pos rb) ∧ is_Some (u_producer_pos rb) end)) as Hnone.
  { intros e s1 He H1. apply wp_bind. eapply wp_errno; [exact H1|]. intros s2 H2 Er. apply wp_ret. by rewrite Er. }
  destruct ok; [|by apply Hnone]. cbn [negb]. apply wp_bind. eapply wp_call; [exact Hh|]. intros t s1 H1.
  destruct (alloc_ok t); [|by apply Hnone]. cbn [negb]. apply wp_bind. eapply wp_blocks; [exact H1|]. intros s2 H2. apply wp_bind.
  eapply wp_create; [exact H2| |].
  - intros e s3 He H3. apply wp_bind, wp_ret. rewrite (proj2 (Z.eqb_neq (- e) 0)) by lia. cbn [negb].
    apply wp_bind. eapply (wp_mono _ _ (λ _ s', holds [] w0 b0 s')); [|intros _ s4 H4; apply Hnone; [lia|done]].
    destruct H3 as (H3 & Hw3 & Hb3). unfold wp. cbn. split; [done|]. split; [done|]. cbn. lia.
  - intros efd s3 Hfd H3. apply wp_bind. eapply wp_mono; [by apply (user_map_ok w0 b0 efd)|].
    intros [err rb'] s4 (Hok & He & Hr). cbn [fst snd] in *. destruct (Z.eqb_spec err 0) as [->|Hne]; cbn [negb].
    + apply wp_ret. by split; [|apply Hr].
    + apply wp_bind. eapply wp_mono; [by eapply user_free_ok|]. intros u s5 H5. apply Hnone; [lia|done].
Qed.
End lifecycle.

Section sessions.
Context `{HO : RingOs} `{!RingOsOk}.

(** A process that makes an object over one map and adds further ones, whatever
    comes of each. *)
Fixpoint add_all (l : list (Z * Z)) (rb : ring_buffer) : prog res ring_buffer :=
  match l with
  | [] => pret rb
  | (fd, cb) :: l => let! o := ring_buffer__add fd cb rb in add_all l o.2
  end.
Definition session (fd cb : Z) (opts_ok : bool) (l : list (Z * Z)) : prog res (option ring_buffer) :=
  let! o := ring_buffer__new fd cb opts_ok in
  match o with
  | None => pret None
  | Some rb => let! rb := add_all l rb in pret (Some rb)
  end.

(** The process holds what it held before. *)
Definition restored (s s' : res) : Prop := maps s' = maps s ∧ epolls s' = epolls s ∧ blocks s' = blocks s.

Lemma holds_start s : holds (maps s) [] (epolls s) (blocks s) s.
Proof. split; [apply owns_nil|done]. Qed.
Lemma holds_restored s s' : holds (maps s) [] (epolls s) (blocks s) s' → restored s s'.
Proof. intros ((_ & _ & Em) & Ew & Eb). split; [|done]. rewrite Em. by rewrite left_id_L by apply _. Qed.

Lemma add_all_ok m0 w0 b0 l : ∀ rb s, rb_ok m0 w0 b0 rb s →
  wp (add_all l rb) s (λ rb' s', rb_ok m0 w0 b0 rb' s' ∧ ∃ l', l' `sublist_of` l ∧ (λ r, (map_fd r, sample_cb r)) <$> used rb' = ((λ r, (map_fd r, sample_cb r)) <$> used rb) ++ l').
Proof.
  induction l as [|[fd cb] l IH]; intros rb s Hok; [apply wp_ret; split; [done|]; exists []; by rewrite app_nil_r|].
  cbn [add_all]. apply wp_bind. eapply wp_mono; [by apply add_ok|]. intros [err rb'] s' [Hok' Hr]. cbn [fst snd] in *.
  eapply wp_mono; [by apply IH|]. intros rb'' s'' (Hok'' & l' & Hl' & E). split; [done|].
  destruct Hr as [(_ & r & Eu & <- & <-)|(_ & Eu & _)]; rewrite Eu in E.
  - exists ((map_fd r, sample_cb r) :: l'). split; [by apply sublist_skip|]. by rewrite E, fmap_app, <- app_assoc.
  - exists l'. split; [by apply sublist_cons|done].
Qed.
End sessions.

(** Making a ring buffer object and adding rings to it, whatever the system
    answers, never unmaps or closes anything twice or with a wrong length.  The
    object then holds two mappings for each ring that was added, in the order of
    the calls, and its epoll descriptor watches each under its index; releasing it
    gives back exactly that.  When it cannot be made, nothing stays behind and
    [errno] is set.  The same holds of a user ring buffer. *)
Theorem ring_buffer_lifecycle `{HO : RingOs} `{!RingOsOk} fd cb opts_ok l s :
  wp (session fd cb opts_ok l) s (λ o s',
    match o with
    | None => restored s s' ∧ 0 < r_errno s'
    | Some rb => rb_ok (maps s) (epolls s) (blocks s) rb s' ∧
        (∃ l', l' `sublist_of` l ∧ (λ r, (map_fd r, sample_cb r)) <$> used rb = (fd, cb) :: l') ∧
        wp (ring_buffer__free (Some rb)) s' (λ _ s'', restored s s'')
    end) ∧
  wp (user_ring_buffer__new fd opts_ok) s (λ o s',
    match o with
    | None => restored s s' ∧ 0 < r_errno s'
    | Some rb => urb_ok (maps s) (epolls s) (blocks s) rb s' ∧ wp (user_ring_buffer__free (Some rb)) s' (λ _ s'', restored s s'')
    end).
Proof.
  pose proof (holds_start s) as Hs. split.
  - unfold session. apply wp_bind. eapply wp_mono; [by apply new_ok|]. intros [rb|] s1.
    + intros (Hok & r & Eu & Em & Ec). apply wp_bind. eapply wp_mono; [by apply add_all_ok|]. intros rb' s2 (Hok' & l' & Hl & E).
      apply wp_ret. split; [done|]. split; [exists l'; split; [done|]; rewrite E, Eu; cbn; by rewrite Em, Ec|].
      eapply wp_mono; [by eapply free_ok|]. intros u s3 H3. by apply holds_restored.
    + intros [H1 He]. apply wp_ret. split; [by apply holds_restored|done].
  - eapply wp_mono; [by apply user_new_ok|]. intros [rb|] s1.
    + intros (Hok & _). split; [done|]. eapply wp_mono; [by eapply user_free_ok|]. intros u s3 H3. by apply holds_restored.
    + intros [H1 He]. split; [by apply holds_restored|done].
Qed.

(** A system on which the data of the second ring cannot be mapped. *)
Definition demo_os : RingOs := {|
  page_size := 4096; size_bits := 64; map_info _ _ := inr (BPF_MAP_TYPE_RINGBUF, 8192); alloc_ok _ := true;
  mmap_err t := if (t =? 12)%nat then Some ENOMEM else None; epoll_create_err _ := None; epoll_ctl_err _ := None |}.
Lemma demo_os_ok : @RingOsOk demo_os.
Proof.
  split; cbn; try lia; try done.
  - intros t fd ty n E. injection E as <- <-. change (2 ^ 64) with 18446744073709551616. lia.
  - intros t e. by destruct (t =? 12)%nat; [intros E; injection E as <-|].
Qed.
Definition demo_res : res := mk_res 0 {[ 7%nat := 4096 ]} ∅ 0 0.

Lemma ring_buffer_lifecycle_witness : @RingOsOk demo_os ∧
  @wp res _ (@session demo_os 5 0 true [(6, 1); (7, 2)]) demo_res (λ o s',
    match o with
    | None => restored demo_res s' ∧ 0 < r_errno s'
    | Some rb => @rb_ok demo_os (maps demo_res) (epolls demo_res) (blocks demo_res) rb s' ∧
        (∃ l', l' `sublist_of` [(6, 1); (7, 2)] ∧ (λ r, (map_fd r, sample_cb r)) <$> used rb = (5, 0) :: l') ∧
        wp (@ring_buffer__free demo_os (Some rb)) s' (λ _ s'', restored demo_res s'')
    end).
Proof. split; [exact demo_os_ok|]. exact (proj1 (@ring_buffer_lifecycle demo_os demo_os_ok 5 0 true [(6, 1); (7, 2)] demo_res)). Defined.

(** The ring that could not be mapped is missing; the others were added. *)
Example demo_session :
  (λ p : option ring_buffer * res, (λ rb, (map_fd <$> used rb, watch (used rb))) <$> p.1) <$> @session demo_os 5 0 true [(6, 1); (7, 2)] demo_res =
    Some (Some ([5; 7], [(5, 0); (7, 1)])).
Proof. vm_compute. reflexivity. Qed.

(** ** Consuming *)

(** A ring as the consumer sees it: the mask, the call-back, the shared memory. *)
Abbreviation consumer := (Z * (list (list Z) → list Z → Z) * ring)%type.

(** The loop of [ring_buffer__consume] and of [ring_buffer__poll], over the indices
    of the rings: the error of a call-back, or the number of samples, which stays
    far below the range of its 64 bits. *)
Fixpoint process_each (ids : list Z) (cs : list consumer) (acc : Z) : option ((Z + Z) * list consumer) :=
  match ids with
  | [] => Some (inr acc, cs)
  | i :: ids =>
    '(m, cb, r) ← cs !! Z.to_nat i;
    '(err, r) ← ringbuf_process_ring m cb r;
    let cs := <[Z.to_nat i := (m, cb, r)]> cs in
    if err <? 0 then Some (inl err, cs) else process_each ids cs (acc + err)
  end.
Definition consumed (o : option ((Z + Z) * list consumer)) : prog res (Z * list consumer) :=
  match o with
  | None => pfault
  | Some (inl err, cs) => let! err := libbpf_err err in pret (err, cs)
  | Some (inr n, cs) => pret (if INT_MAX <? n then INT_MAX else n, cs)
  end.

Definition ring_buffer__consume (cs : list consumer) : prog res (Z * list consumer) :=
  consumed (process_each (Z.of_nat <$> seq 0 (length cs)) cs 0).
(** [wait] is what [epoll_wait] gives: an error number, or the data of the events. *)
Definition ring_buffer__poll (wait : Z + list Z) (cs : list consumer) : prog res (Z * list consumer) :=
  match wait with
  | inl e => let! err := libbpf_err (- e) in pret (err, cs)
  | inr ids => consumed (process_each ids cs 0)
  end.

(** A ring in a state that the protocol reaches, with nobody consuming from it, and
    a call-back that does not fail. *)
Definition quiet (s : state) (c : consumer) : Prop :=
  ∃ (k : nat) as_ cb, (3 ≤ k ≤ 31)%nat ∧ (∀ out x, 0 ≤ cb out x) ∧ exec (2 ^ Z.of_nat k - 1) cb as_ (init k) = Some s ∧ at_rest (at_ s) ∧
    c = (2 ^ Z.of_nat k - 1, cb, shared s).
Definition emptied (s : state) (c : consumer) : Prop := delivered c.2 = submitted (ready (recs s)).
(** How many samples are ready in a ring. *)
Definition waiting (s : state) : Z := length (submitted (ready (recs s))) - length (delivered (shared s)).

Lemma quiet_process s m cb r : quiet s (m, cb, r) → ∃ r', ringbuf_process_ring m cb r = Some (waiting s, r') ∧ emptied s (m, cb, r') ∧ 0 ≤ waiting s.
Proof.
  intros (k & as_ & cb' & Hk & Hcb & Es & Ha & E). injection E as -> -> ->.
  destruct (exec_ok k Hk cb' as_ (init k) 0 (init_inv k Hk)) as (s0 & j & E & H). rewrite Es in E. injection E as <-.
  destruct (process_ok k Hk cb' Hcb s j H Ha) as (r' & E & Ed & _). exists r'. unfold waiting. rewrite <- Ed. split; [done|]. split; [done|].
  pose proof H as [_ Hj _ _ _ _ _ Hf _ Hq]. assert (delivered (shared s) = submitted (take j (recs s))) as -> by (by destruct (at_ s)).
  rewrite Ed. assert (take j (recs s) `prefix_of` ready (recs s)) as [l El].
  { clear - Hf. generalize (recs s), Hf. clear. intros rs. revert j. induction rs as [|r rs IH]; intros [|j] Hf; try apply prefix_nil.
    cbn in *. apply Forall_cons in Hf as [Hr Hf]. unfold settled in Hr. destruct (r_status r); [done|by apply prefix_cons, IH|by apply prefix_cons, IH]. }
  rewrite El. unfold submitted. rewrite omap_app, length_app. lia.
Qed.

Definition total_waiting (ss : list state) (ids : list Z) : Z := foldr (λ i n, from_option waiting 0 (ss !! Z.to_nat i) + n) 0 ids.

Lemma process_each_ok ids : ∀ ss cs acc, NoDup ids → Forall (λ i, 0 ≤ i < length cs) ids → length ss = length cs →
  (∀ i s c, Z.of_nat i ∈ ids → ss !! i = Some s → cs !! i = Some c → quiet s c) →
  ∃ cs', process_each ids cs acc = Some (inr (acc + total_waiting ss ids), cs') ∧ length cs' = length cs ∧
    ∀ i, (Z.of_nat i ∉ ids → cs' !! i = cs !! i) ∧ (∀ s c, Z.of_nat i ∈ ids → ss !! i = Some s → cs' !! i = Some c → emptied s c).
Proof.
  induction ids as [|i ids IH]; intros ss cs acc Hn Hr Hl Hq.
  - exists cs. cbn. split; [by rewrite Z.add_0_r|]. split; [done|]. intros i. split; [done|]. intros s c Hi. by apply not_elem_of_nil in Hi.
  - apply NoDup_cons in Hn as [Hi Hn]. apply Forall_cons in Hr as [Hri Hr]. cbn [process_each total_waiting foldr].
    destruct (lookup_lt_is_Some_2 cs (Z.to_nat i) ltac:(lia)) as [[[m cb] r] Ec]. destruct (lookup_lt_is_Some_2 ss (Z.to_nat i) ltac:(lia)) as [s Es].
    rewrite Ec. cbn [mbind option_bind]. assert (Z.of_nat (Z.to_nat i) = i) as Ei by lia.
    destruct (quiet_process s m cb r) as (r' & E & He & Hw); [by apply (Hq (Z.to_nat i)); [rewrite Ei; apply elem_of_cons; left|..]|].
    rewrite E. cbn [mbind option_bind]. rewrite (proj2 (Z.ltb_ge (waiting s) 0)) by done. rewrite Es. cbn [from_option].
    destruct (IH ss (<[Z.to_nat i := (m, cb, r')]> cs) (acc + waiting s) Hn) as (cs' & E' & Hl' & Hall).
    + by rewrite length_insert.
    + by rewrite length_insert.
    + intros i' s' c' Hi' Hs' Hc'. assert (i' ≠ Z.to_nat i) by (intros ->; by rewrite Ei in Hi').
      rewrite list_lookup_insert_ne in Hc' by done. apply (Hq i'); [apply elem_of_cons; by right|done..].
    + exists cs'. rewrite length_insert in Hl'. split; [rewrite E'; do 3 f_equal; unfold total_waiting; lia|]. split; [done|]. intros i'. destruct (Hall i') as [H1 H2]. split.
      * intros Hni. apply not_elem_of_cons in Hni as [Hne Hni]. rewrite H1 by done. rewrite list_lookup_insert_ne; [done|]. intros <-. lia.
      * intros s' c' Hin Hs' Hc'. destruct (decide (Z.of_nat i' ∈ ids)) as [Hd|Hd]; [by eapply H2|]. apply elem_of_cons in Hin as [Hin|Hin]; [|done].
        rewrite H1 in Hc' by done. assert (Z.to_nat i = i') as <- by lia. rewrite list_lookup_insert_eq in Hc' by lia. injection Hc' as <-.
        rewrite Es in Hs'. by injection Hs' as <-.
Qed.

Lemma consumed_run n cs s : consumed (Some (inr n, cs)) s = Some ((Z.min INT_MAX n, cs), s).
Proof. cbn. unfold pret. do 3 f_equal. destruct (Z.ltb_spec INT_MAX n); lia. Qed.

(** Consuming from all rings, or polling for those that have events, with
    call-backs that do not fail, delivers every sample that is ready in these rings
    and leaves the others alone; the result is the number of samples, or the
    largest [int] if that is less. *)
Theorem consume_drains ss cs ids s : Forall2 quiet ss cs → NoDup ids → Forall (λ i, 0 ≤ i < length cs) ids →
  (∃ cs', ring_buffer__consume cs s = Some ((Z.min INT_MAX (total_waiting ss (Z.of_nat <$> seq 0 (length cs))), cs'), s) ∧ Forall2 emptied ss cs') ∧
  (∃ cs', ring_buffer__poll (inr ids) cs s = Some ((Z.min INT_MAX (total_waiting ss ids), cs'), s) ∧
    ∀ i, (Z.of_nat i ∉ ids → cs' !! i = cs !! i) ∧ (∀ st c, Z.of_nat i ∈ ids → ss !! i = Some st → cs' !! i = Some c → emptied st c)).
Proof.
  intros Hq Hn Hr. pose proof (Forall2_length _ _ _ Hq) as Hl.
  assert (∀ i st c, ss !! i = Some st → cs !! i = Some c → quiet st c) as Hq' by (intros i st c; by apply (Forall2_lookup_lr _ _ _ i _ _ Hq)).
  split.
  - destruct (process_each_ok (Z.of_nat <$> seq 0 (length cs)) ss cs 0) as (cs' & E & Hl' & Hall); [|by apply Forall_fmap, Forall_seq; cbn; lia|done|by intros; eapply Hq'|].
    { apply NoDup_fmap_2; [apply _|apply NoDup_seq]. }
    exists cs'. unfold ring_buffer__consume. rewrite E, consumed_run. split; [done|]. apply Forall2_same_length_lookup_2; [by rewrite Hl'|].
    intros i st c Hs Hc. apply (proj2 (Hall i)); [|done|done]. apply list_elem_of_fmap. exists i. split; [done|]. apply elem_of_seq. apply lookup_lt_Some in Hs. lia.
  - destruct (process_each_ok ids ss cs 0 Hn Hr Hl) as (cs' & E & Hl' & Hall); [by intros; eapply Hq'|].
    exists cs'. unfold ring_buffer__poll. rewrite E, consumed_run. done.
Qed.

Definition demo_consumer : consumer := (31, demo_cb, shared demo_state).
Lemma demo_quiet : quiet demo_state demo_consumer.
Proof.
  exists 5%nat, demo_again, demo_cb. split; [lia|]. split; [intros; apply Z.le_refl|]. split; [vm_compute; reflexivity|].
  split; [vm_compute; exact I|reflexivity].
Qed.
Lemma consume_drains_witness : Forall2 quiet [demo_state; demo_state] [demo_consumer; demo_consumer] ∧
  ∃ cs', ring_buffer__poll (inr [1]) [demo_consumer; demo_consumer] demo_res = Some ((Z.min INT_MAX (total_waiting [demo_state; demo_state] [1]), cs'), demo_res) ∧
    ∀ i, (Z.of_nat i ∉ [1] → cs' !! i = [demo_consumer; demo_consumer] !! i) ∧
      (∀ st c, Z.of_nat i ∈ [1] → [demo_state; demo_state] !! i = Some st → cs' !! i = Some c → emptied st c).
Proof.
  assert (Forall2 quiet [demo_state; demo_state] [demo_consumer; demo_consumer]) as Hq by (repeat constructor; exact demo_quiet).
  split; [exact Hq|]. refine (proj2 (consume_drains [demo_state; demo_state] [demo_consumer; demo_consumer] [1] demo_res Hq _ _)).
  - apply NoDup_singleton.
  - apply Forall_singleton. cbn. lia.
Defined.

(** ** Blocking reservation *)

Definition ns_elapsed_timespec (start end_ : Z * Z) : Z :=
  let ns (ts : Z * Z) := u64 (u64 ts.1 * 1000000000 + ts.2) in u64 (ns end_ - ns start).

Section blocking.
(** The position of the consumer when it is loaded for the [t]-th time; what the
    clock and [epoll_wait] give in a round. *)
Context (msk size : Z) (cons : nat → Z) (prod : Z) (d : list Z).
Context (clock_gettime : nat → Z + Z * Z) (epoll_wait : nat → Z → Z + Z).

Definition attempt (t : nat) : option (Z + Z * Z * list Z) := user_ring_buffer__reserve msk (cons t) prod size d.

(** The loop; [continue] goes to the test at its end.  An overflow of [int] is a
    fault. *)
Fixpoint reserve_rounds (fuel t : nat) (timeout_ms ms_remaining : Z) (start : Z * Z) : option (Z + Z * Z * list Z) :=
  r ← attempt t;
  match r with
  | inr sample => Some (inr sample)
  | inl e =>
    if negb (e =? ENOSPC) then Some (inl e)
    else
      match epoll_wait t ms_remaining with
      | inl e => Some (inl e)
      | inr _ =>
        let test ms_remaining :=
          if 0 <? ms_remaining then
            match fuel with O => None | S fuel => reserve_rounds fuel (S t) timeout_ms ms_remaining start end
          else attempt (S t) in
        if timeout_ms =? -1 then test ms_remaining
        else
          match clock_gettime (S t) with
          | inl e => Some (inl e)
          | inr curr =>
            let ms_elapsed := s32 (ns_elapsed_timespec start curr / 1000000) in
            let ms_remaining := timeout_ms - ms_elapsed in
            if (- 2 ^ 31 <=? ms_remaining) && (ms_remaining <? 2 ^ 31) then test ms_remaining else None
          end
      end
  end.

Definition user_ring_buffer__reserve_blocking (fuel : nat) (timeout_ms : Z) : option (Z + Z * Z * list Z) :=
  if (timeout_ms <? 0) && negb (timeout_ms =? -1) then Some (inl EINVAL)
  else if negb (timeout_ms =? -1) then
    match clock_gettime 0 with
    | inl e => Some (inl e)
    | inr start => reserve_rounds fuel 0 timeout_ms timeout_ms start
    end
  else reserve_rounds fuel 0 timeout_ms timeout_ms (0, 0).

(** What a call may come back with: the outcome of an attempt, or the error of
    another call. *)
Definition outcome (n : nat) (r : Z + Z * Z * list Z) : Prop :=
  (∃ t, (t ≤ n)%nat ∧ attempt t = Some r) ∨ (∃ t ms e, r = inl e ∧ (epoll_wait t ms = inl e ∨ clock_gettime t = inl e)).

(** The clock runs on from [start], by less than the range of an [int] in
    milliseconds, and has passed the time limit in round [n]. *)
Definition runs_out (timeout_ms : Z) (start : Z * Z) (n : nat) : Prop :=
  (∀ t now, (t ≤ n)%nat → clock_gettime t = inr now → ns_elapsed_timespec start now < 2 ^ 31 * 1000000) ∧
  (∀ now, clock_gettime n = inr now → timeout_ms * 1000000 ≤ ns_elapsed_timespec start now).

Lemma elapsed_ms start now : ns_elapsed_timespec start now < 2 ^ 31 * 1000000 →
  0 ≤ ns_elapsed_timespec start now / 1000000 < 2 ^ 31 ∧ s32 (ns_elapsed_timespec start now / 1000000) = ns_elapsed_timespec start now / 1000000.
Proof.
  intros Hb. assert (0 ≤ ns_elapsed_timespec start now) as H0 by (unfold ns_elapsed_timespec; apply wrap_range; lia).
  assert (0 ≤ ns_elapsed_timespec start now / 1000000 < 2 ^ 31) as Hd by (split; [apply Z.div_pos; lia|apply Z.div_lt_upper_bound; lia]).
  split; [done|]. rewrite sint_small; [done|lia|]. change (2 ^ (32 - 1)) with (2 ^ 31). lia.
Qed.

Context (ok : ∀ t, is_Some (attempt t)).

Lemma rounds_return timeout_ms start n : 0 ≤ timeout_ms < 2 ^ 31 → runs_out timeout_ms start n →
  ∀ fuel t ms, (n ≤ S t + fuel)%nat → (t < n)%nat → ∃ r, reserve_rounds fuel t timeout_ms ms start = Some r ∧ outcome n r.
Proof.
  intros Ht [Hb Hn]. assert (∀ t r, (t ≤ n)%nat → attempt t = Some r → ∃ r', Some r = Some r' ∧ outcome n r') as Hatt.
  { intros t r Hle E. exists r. split; [done|]. left. by exists t. }
  induction fuel as [|fuel IH]; intros t ms Hf Htn; cbn [reserve_rounds].
  all: destruct (ok t) as [r Er]; rewrite Er; cbn [mbind option_bind]; destruct r as [e|x]; [|by apply (Hatt t); [lia|]].
  all: destruct (Z.eqb_spec e ENOSPC) as [->|]; cbn [negb]; [|by apply (Hatt t); [lia|]].
  all: destruct (epoll_wait t ms) as [e|c] eqn:Ew; [eexists; split; [done|]; right; exists t, ms, e; split; [done|by left]|].
  all: rewrite (proj2 (Z.eqb_neq timeout_ms (-1))) by lia.
  all: destruct (clock_gettime (S t)) as [e|now] eqn:Ec; [eexists; split; [done|]; right; exists (S t), ms, e; split; [done|by right]|].
  all: destruct (elapsed_ms start now (Hb (S t) now ltac:(lia) Ec)) as [Hd Es]; rewrite Es.
  all: rewrite (proj2 (Z.leb_le (- 2 ^ 31) _)), (proj2 (Z.ltb_lt _ (2 ^ 31))) by lia; cbn [andb].
  all: destruct (Z.ltb_spec 0 (timeout_ms - ns_elapsed_timespec start now / 1000000)); [|destruct (ok (S t)) as [r E]; rewrite E; by apply (Hatt (S t)); [lia|]].
  - exfalso. assert (S t = n) as <- by lia. specialize (Hn now Ec).
    pose proof (Z.div_le_mono _ _ 1000000 ltac:(lia) Hn) as Hm. rewrite Z.div_mul in Hm by lia. lia.
  - destruct (decide (S t = n)) as [<-|Hne]; [|by apply IH; lia]. exfalso. specialize (Hn now Ec).
    pose proof (Z.div_le_mono _ _ 1000000 ltac:(lia) Hn) as Hm. rewrite Z.div_mul in Hm by lia. lia.
Qed.
End blocking.

(** A blocking reservation with a time limit returns: when the clock has passed
    the limit after [n] rounds, so has the function, with what one of its attempts
    gave or the error of the clock or of the wait. *)
Theorem reserve_blocking_returns msk size cons prod d clock_gettime epoll_wait timeout_ms start n :
  (∀ t, is_Some (attempt msk size cons prod d t)) → 0 ≤ timeout_ms < 2 ^ 31 → (0 < n)%nat → clock_gettime 0%nat = inr start →
  runs_out clock_gettime timeout_ms start n →
  ∃ r, user_ring_buffer__reserve_blocking msk size cons prod d clock_gettime epoll_wait n timeout_ms = Some r ∧
    outcome msk size cons prod d clock_gettime epoll_wait n r.
Proof.
  intros Hok Ht Hn E Hr. unfold user_ring_buffer__reserve_blocking. rewrite (proj2 (Z.ltb_ge timeout_ms 0)), (proj2 (Z.eqb_neq timeout_ms (-1))) by lia.
  cbn [andb negb]. rewrite E. apply (rounds_return _ _ _ _ _ _ _ Hok timeout_ms start n Ht Hr); lia.
Qed.

(** A ring of 32 bytes that is full until the third attempt, with a clock that
    takes three milliseconds for a round. *)
Definition full_ring : list Z := replicate 32 0.
Definition slow_cons (t : nat) : Z := if (t <? 2)%nat then 0 else 32.
Definition slow_clock (t : nat) : Z + Z * Z := inr (100, 3000000 * Z.of_nat t).
Definition slow_wait (_ : nat) (_ : Z) : Z + Z := inr 1.

Lemma slow_attempt t : is_Some (attempt 31 5 slow_cons 32 full_ring t).
Proof. unfold attempt, slow_cons. destruct (t <? 2)%nat; vm_compute; eauto. Qed.
Lemma slow_runs_out : runs_out slow_clock 5 (100, 0) 2.
Proof.
  split.
  - intros t now Ht E. injection E as <-. destruct t as [|[|[|t]]]; [vm_compute; reflexivity..|lia].
  - intros now E. injection E as <-. vm_compute. discriminate.
Qed.
Lemma reserve_blocking_returns_witness :
  ∃ r, user_ring_buffer__reserve_blocking 31 5 slow_cons 32 full_ring slow_clock slow_wait 2 5 = Some r ∧
    outcome 31 5 slow_cons 32 full_ring slow_clock slow_wait 2 r.
Proof.
  apply (reserve_blocking_returns 31 5 slow_cons 32 full_ring slow_clock slow_wait 5 (100, 0) 2).
  - exact slow_attempt.
  - lia.
  - lia.
  - reflexivity.
  - exact slow_runs_out.
Defined.

(** A reservation without a time limit does not wait until there is room.  The
    loop ends after its first wait, whatever happened, and the second attempt is the
    last: the caller is told that the ring is full, although the third attempt
    would have found room. *)
Theorem reserve_blocking_gives_up :
  (∀ msk size cons prod d clock_gettime epoll_wait fuel fuel',
    user_ring_buffer__reserve_blocking msk size cons prod d clock_gettime epoll_wait fuel (-1) =
    user_ring_buffer__reserve_blocking msk size (λ t, if (t <? 2)%nat then cons t else 0) prod d clock_gettime epoll_wait fuel' (-1)) ∧
  user_ring_buffer__reserve_blocking 31 5 slow_cons 32 full_ring slow_clock slow_wait 7 (-1) = Some (inl ENOSPC) ∧
  (∃ x, attempt 31 5 slow_cons 32 full_ring 2 = Some (inr x)) ∧
  ∃ x, user_ring_buffer__reserve_blocking 31 5 slow_cons 32 full_ring slow_clock slow_wait 7 5 = Some (inr x).
Proof.
  split; [|vm_compute; eauto]. intros. unfold user_ring_buffer__reserve_blocking. cbn [Z.ltb Z.compare Z.eqb andb negb Pos.eqb]. by destruct fuel, fuel'.
Qed.
