(* ===== verification/Libxdp.v ===== *)
(** * libxdp: program objects

    The objects of [lib/libxdp/libxdp.c] that the loader works with: the
    program object with its run configuration (priority and the bitmap of
    actions that continue the chain of programs), its accessors, the text form
    of the bitmap, and the comparison that decides the order in which a
    dispatcher runs its programs. *)

From S2P Require Import Prelude CString Errno Packet Params.

Definition XDP_DEFAULT_RUN_PRIO : Z := 50.
Definition XDP_DEFAULT_CHAIN_CALL_ACTIONS : Z := Z.shiftl 1 XDP_PASS.
Definition XDP_DISPATCHER_RETVAL : Z := 31.
Definition BPF_F_XDP_HAS_FRAGS : Z := 32.

(** What is used of a [struct bpf_program] of libbpf. *)
Module bpf_program.
Record t := mk { insn_cnt : Z; flags : Z }.
End bpf_program.

(** [struct xdp_program]; a null [bpf_prog] is [None].  The object and type
    information pointers are kept as whether they are set; the empty
    [prog_name] also stands for the null pointer of a new program. *)
Module xdp_program.
Record t := mk {
  bpf_prog : option bpf_program.t;
  has_obj : bool;
  has_btf : bool;
  prog_fd : Z;
  link_fd : Z;
  prog_name : string;
  prog_tag : list Z;
  prog_id : Z;
  load_time : Z;
  is_frags : bool;
  run_prio : Z;
  chain_call_actions : Z }.
End xdp_program.
Import xdp_program.

Definition set_run p prio acts := mk (bpf_prog p) (has_obj p) (has_btf p) (prog_fd p) (link_fd p)
  (prog_name p) (prog_tag p) (prog_id p) (load_time p) (is_frags p) prio acts.
Definition set_frags p bp fr := mk bp (has_obj p) (has_btf p) (prog_fd p) (link_fd p)
  (prog_name p) (prog_tag p) (prog_id p) (load_time p) fr (run_prio p) (chain_call_actions p).

Definition xdp_program__new : xdp_program.t :=
  mk None false false (-1) (-1) EmptyString [] 0 0 false XDP_DEFAULT_RUN_PRIO
    XDP_DEFAULT_CHAIN_CALL_ACTIONS.

(** ** Accessors and the run configuration *)

Definition xdp_program__set_chain_call_enabled (prog : ptr xdp_program.t) (action : Z)
    (enabled : bool) : Z * ptr xdp_program.t :=
  match prog with
  | Ptr p =>
    if (0 <=? prog_fd p) || (XDP_DISPATCHER_RETVAL <=? action) then (- EINVAL, prog)
    else
      let bit := u32 (Z.shiftl 1 action) in
      let acts := if enabled then Z.lor (chain_call_actions p) bit
                  else Z.land (chain_call_actions p) (u32 (Z.lnot bit)) in
      (0, Ptr (set_run p (run_prio p) acts))
  | _ => (- EINVAL, prog)
  end.

Definition xdp_program__chain_call_enabled (prog : ptr xdp_program.t) (action : Z) : bool :=
  match prog with
  | Ptr p =>
    if XDP_DISPATCHER_RETVAL <=? action then false
    else negb (Z.land (chain_call_actions p) (u32 (Z.shiftl 1 action)) =? 0)
  | _ => false
  end.

Definition xdp_program__run_prio (prog : ptr xdp_program.t) : Z :=
  match prog with Ptr p => run_prio p | _ => XDP_DEFAULT_RUN_PRIO end.

Definition xdp_program__set_run_prio (prog : ptr xdp_program.t) (prio : Z) : Z * ptr xdp_program.t :=
  match prog with
  | Ptr p =>
    if 0 <=? prog_fd p then (- EINVAL, prog)
    else (0, Ptr (set_run p (u32 prio) (chain_call_actions p)))
  | _ => (- EINVAL, prog)
  end.

Definition xdp_program__xdp_frags_support (prog : ptr xdp_program.t) : bool :=
  match prog with
  | Ptr p =>
    match bpf_prog p with
    | Some bp =>
      if 0 <=? prog_fd p then is_frags p
      else negb (Z.land (bpf_program.flags bp) BPF_F_XDP_HAS_FRAGS =? 0)
    | None => is_frags p
    end
  | _ => false
  end.

(** [set_flags] is libbpf's refusal to change the flags of a loaded object. *)
Definition xdp_program__set_xdp_frags_support (set_flags : Z) (prog : ptr xdp_program.t)
    (frags : bool) : Z * ptr xdp_program.t :=
  match prog with
  | Ptr p =>
    match bpf_prog p with
    | Some bp =>
      if 0 <=? prog_fd p then (- EINVAL, prog)
      else
        let fl := if frags then Z.lor (bpf_program.flags bp) BPF_F_XDP_HAS_FRAGS
                  else Z.land (bpf_program.flags bp) (u32 (Z.lnot BPF_F_XDP_HAS_FRAGS)) in
        if set_flags =? 0
        then (0, Ptr (set_frags p (Some (bpf_program.mk (bpf_program.insn_cnt bp) fl)) frags))
        else (set_flags, prog)
    | None => (- EINVAL, prog)
    end
  | _ => (- EINVAL, prog)
  end.

Definition xdp_program__name (prog : ptr xdp_program.t) : option string :=
  match prog with Ptr p => Some (prog_name p) | _ => None end.

Definition xdp_program__tag (prog : ptr xdp_program.t) : option (list Z) :=
  match prog with Ptr p => Some (prog_tag p) | _ => None end.

Definition xdp_program__id (prog : ptr xdp_program.t) : Z :=
  match prog with Ptr p => prog_id p | _ => 0 end.

Definition xdp_program__fd (prog : ptr xdp_program.t) : Z :=
  match prog with Ptr p => prog_fd p | _ => -1 end.

(** ** The text of the action bitmap *)

Definition xdp_action_names : list string :=
  ["XDP_ABORTED"; "XDP_DROP"; "XDP_PASS"; "XDP_TX"; "XDP_REDIRECT"].

Fixpoint get_xdp_action_from (act_name : string) (names : list string) (i : Z) : option Z :=
  match names with
  | [] => None
  | n :: names => if streq act_name n then Some i else get_xdp_action_from act_name names (i + 1)
  end.
Definition get_xdp_action (act_name : string) : option Z :=
  get_xdp_action_from act_name xdp_action_names 0.

(** Writes into the caller's buffer; one outside it is a fault. *)
Definition put (i : nat) (c : ascii) : prog (list ascii) () := λ b,
  if (i <? length b)%nat then Some ((), <[i := c]> b) else None.

Fixpoint put_all (i : nat) (cs : list ascii) : prog (list ascii) () :=
  match cs with
  | [] => pret ()
  | c :: cs => put i c ;;; put_all (S i) cs
  end.

(** [snprintf(pos, n, "%s", s)]. *)
Definition snprintf_s (pos : nat) (n : nat) (s : string) : prog (list ascii) Z :=
  match n with
  | O => pret (strlen s)
  | S n' => put_all pos (take n' (chars s) ++ [NUL]) ;;; pret (strlen s)
  end.

Fixpoint print_actions (prog : ptr xdp_program.t) (names : list string) (i : Z) (first : bool)
    (pos : nat) (buf_len : nat) : Prelude.prog (list ascii) Z :=
  match names with
  | [] => pret 0
  | name :: names =>
    if xdp_program__chain_call_enabled prog i then
      let go pos buf_len :=
        let! len := snprintf_s pos buf_len name in
        if Z.of_nat buf_len <=? len then put pos NUL ;;; pret (- ENOSPC)
        else print_actions prog names (i + 1) false (pos + Z.to_nat len) (buf_len - Z.to_nat len) in
      if first then go pos buf_len
      else if (buf_len =? 0)%nat then put pos NUL ;;; pret (- ENOSPC)
      else put pos ","%char ;;; go (pos + 1)%nat (buf_len - 1)%nat
    else print_actions prog names (i + 1) first pos buf_len
  end.

(** The state is the buffer, whose size is [buf_len]. *)
Definition xdp_program__print_chain_call_actions (prog : ptr xdp_program.t)
    : Prelude.prog (list ascii) Z :=
  let! buf := pget in
  if IS_ERR_OR_NULL prog || (length buf =? 0)%nat then pret (- EINVAL)
  else print_actions prog xdp_action_names 0 true 0 (length buf).

(** ** The bitmap *)

Lemma land_pow2 x a : 0 ≤ a < 31 → negb (Z.land x (u32 (Z.shiftl 1 a)) =? 0) = Z.testbit x a.
Proof.
  intros Ha. rewrite Z.shiftl_1_l, wrap_small; [|split; [lia|apply Z.pow_lt_mono_r; lia]].
  destruct (Z.testbit x a) eqn:E.
  - apply negb_true_iff, Z.eqb_neq. intros H.
    assert (Z.testbit (Z.land x (2 ^ a)) a = true) as Ht.
    { by rewrite Z.land_spec, E, Z.pow2_bits_true by lia. }
    by rewrite H, Z.bits_0 in Ht.
  - apply negb_false_iff, Z.eqb_eq. apply Z.bits_inj'. intros k Hk.
    rewrite Z.bits_0, Z.land_spec, Z.pow2_bits_eqb by lia.
    destruct (Z.eqb_spec a k) as [<-|]; [by rewrite E|apply andb_false_r].
Qed.

Lemma chain_call_enabled_bit p a :
  0 ≤ a < 31 → xdp_program__chain_call_enabled (Ptr p) a = Z.testbit (chain_call_actions p) a.
Proof.
  intros Ha. cbn. unfold XDP_DISPATCHER_RETVAL. rewrite (proj2 (Z.leb_gt _ _)) by lia.
  by apply land_pow2.
Qed.

Lemma set_chain_call_bits p a en k :
  0 ≤ a < 31 → 0 ≤ k < 32 → prog_fd p < 0 →
  ∃ p', xdp_program__set_chain_call_enabled (Ptr p) a en = (0, Ptr p') ∧
    prog_fd p' = prog_fd p ∧ run_prio p' = run_prio p ∧
    Z.testbit (chain_call_actions p') k =
      (if decide (k = a) then en else Z.testbit (chain_call_actions p) k).
Proof.
  intros Ha Hk Hfd. cbn. unfold XDP_DISPATCHER_RETVAL.
  rewrite (proj2 (Z.leb_gt 0 _)), (proj2 (Z.leb_gt 31 _)) by lia. cbn [orb].
  eexists. split; [reflexivity|]. split; [done|]. split; [done|]. cbn.
  assert (u32 (Z.shiftl 1 a) = 2 ^ a) as ->.
  { rewrite Z.shiftl_1_l, wrap_small; [done|split; [lia|apply Z.pow_lt_mono_r; lia]]. }
  destruct en.
  - rewrite Z.lor_spec, Z.pow2_bits_eqb by lia.
    destruct (decide (k = a)) as [->|]; [rewrite Z.eqb_refl; apply orb_true_r|].
    rewrite (proj2 (Z.eqb_neq a k)) by lia. apply orb_false_r.
  - unfold wrap. rewrite Z.land_spec, Z.mod_pow2_bits_low, Z.lnot_spec, Z.pow2_bits_eqb by lia.
    destruct (decide (k = a)) as [->|]; [rewrite Z.eqb_refl; apply andb_false_r|].
    rewrite (proj2 (Z.eqb_neq a k)) by lia. apply andb_true_r.
Qed.

(** ** Printing the bitmap *)

Fixpoint enabled_from (prog : ptr xdp_program.t) (names : list string) (i : Z) : list string :=
  match names with
  | [] => []
  | n :: names =>
    if xdp_program__chain_call_enabled prog i then n :: enabled_from prog names (i + 1)
    else enabled_from prog names (i + 1)
  end.
Definition enabled_names (prog : ptr xdp_program.t) : list string :=
  enabled_from prog xdp_action_names 0.

(** The text: names separated by commas. *)
Definition tail_text (ns : list string) : list ascii := ns ≫= λ n, ","%char :: chars n.
Definition text (ns : list string) : list ascii :=
  match ns with [] => [] | n :: ns => chars n ++ tail_text ns end.

(** The buffer is exactly filled by some, not all, of the names. *)
Definition tail_fills (ns : list string) (n : nat) : Prop :=
  ∃ k, (k < length ns)%nat ∧ (length (tail_text (take k ns)) + 1 = n)%nat.
Definition fills (ns : list string) (n : nat) : Prop :=
  ∃ k, (0 < k < length ns)%nat ∧ (length (text (take k ns)) + 1 = n)%nat.

#[export] Instance fills_dec ns n : Decision (fills ns n).
Proof.
  refine (cast_if (decide (Exists (λ k, (length (text (take k ns)) + 1)%nat = n) (seq 1 (length ns - 1))))).
  - abstract (apply Exists_exists in e as (k & Hk & E); apply elem_of_seq in Hk; exists k; lia).
  - abstract (intros (k & Hk & E); apply n0, Exists_exists; exists k; rewrite elem_of_seq; lia).
Defined.

Lemma put_ok i c b : (i < length b)%nat → put i c b = Some ((), <[i := c]> b).
Proof. intros. unfold put. by rewrite (proj2 (Nat.ltb_lt _ _)). Qed.

Lemma put_all_app cs T m r :
  length m = length cs → put_all (length T) cs (T ++ m ++ r) = Some ((), T ++ cs ++ r).
Proof.
  revert T m. induction cs as [|c cs IH]; intros T m Hl.
  - by destruct m.
  - destruct m as [|x m]; [done|]. cbn [put_all]. unfold pbind.
    rewrite put_ok by (rewrite length_app; cbn; lia).
    replace (<[length T := c]> (T ++ (x :: m) ++ r)) with ((T ++ [c]) ++ m ++ r).
    2:{ rewrite insert_app_r_alt, Nat.sub_diag by lia. by rewrite <- app_assoc. }
    replace (S (length T)) with (length (T ++ [c])) by (rewrite length_app; cbn; lia).
    rewrite IH by (cbn in Hl; lia). by rewrite <- app_assoc.
Qed.

(** A name that fits is written with its terminator; one that does not leaves
    the result cut off at the position it started at. *)
Lemma snprintf_fits T r name :
  (String.length name < length r)%nat →
  ∃ r', length r' = (length r - String.length name)%nat ∧ head r' = Some NUL ∧
    snprintf_s (length T) (length r) name (T ++ r) = Some (strlen name, T ++ chars name ++ r').
Proof.
  intros H. unfold snprintf_s. destruct (length r) as [|n'] eqn:Er; [lia|].
  exists (NUL :: drop (S (String.length name)) r). split; [cbn; rewrite length_drop; lia|].
  split; [done|]. rewrite take_ge by (rewrite length_chars; lia). unfold pbind.
  rewrite <- (take_drop (S (String.length name)) r) at 1. rewrite put_all_app.
  - by rewrite <- app_assoc.
  - rewrite length_take, length_app, length_chars. cbn [length]. lia.
Qed.

Lemma snprintf_long T r name :
  r ≠ [] → (length r ≤ String.length name)%nat →
  ∃ r', length r' = length r ∧
    snprintf_s (length T) (length r) name (T ++ r) = Some (strlen name, T ++ r').
Proof.
  intros Hr H. unfold snprintf_s. destruct (length r) as [|n'] eqn:Er; [by destruct r|].
  exists (take n' (chars name) ++ [NUL]). split.
  - rewrite length_app, length_take, length_chars. cbn [length]. lia.
  - unfold pbind. rewrite <- (app_nil_r r), put_all_app; [by rewrite !app_nil_r|].
    rewrite length_app, length_take, length_chars. cbn [length]. lia.
Qed.

Lemma put_end T r : r ≠ [] → ∃ r', length r' = length r ∧ put (length T) NUL (T ++ r) = Some ((), T ++ r').
Proof.
  intros Hr. destruct r as [|x r]; [done|]. exists (NUL :: r). split; [done|].
  rewrite put_ok by (rewrite length_app; cbn; lia).
  by rewrite insert_app_r_alt, Nat.sub_diag by lia.
Qed.

Lemma put_comma T x r c : put (length T) c (T ++ x :: r) = Some ((), (T ++ [c]) ++ r).
Proof.
  rewrite put_ok by (rewrite length_app; cbn; lia).
  rewrite insert_app_r_alt, Nat.sub_diag by lia. by rewrite <- app_assoc.
Qed.

Lemma put_past b : put (length b) NUL b = None.
Proof. unfold put. by rewrite Nat.ltb_irrefl. Qed.

Lemma length_tail_text n ns : length (tail_text (n :: ns)) = S (String.length n + length (tail_text ns)).
Proof. cbn. by rewrite length_app, length_chars. Qed.

Lemma tail_fills_cons n ns len :
  tail_fills (n :: ns) len ↔
  len = 1%nat ∨ (String.length n + 1 < len)%nat ∧ tail_fills ns (len - 1 - String.length n).
Proof.
  split.
  - intros ([|k] & Hk & E); [left; cbn in E; lia|]. right.
    cbn [take] in E. rewrite length_tail_text in E. split; [lia|].
    exists k. cbn in Hk. lia.
  - intros [->|(H & k & Hk & E)]; [exists 0%nat; cbn; lia|].
    exists (S k). cbn [take]. rewrite length_tail_text. cbn. lia.
Qed.

Lemma tail_fills_eq ns a b : a = b → tail_fills ns a → tail_fills ns b.
Proof. by intros ->. Qed.

(** What [print_actions] does once the text [T] has been written and [r] is
    what remains of the buffer. *)
Lemma print_actions_tail prog names i T r run :
  head r = Some NUL →
  run = print_actions prog names i false (length T) (length r) (T ++ r) →
  let ns := enabled_from prog names i in
  (tail_fills ns (length r) → run = None) ∧
  (¬ tail_fills ns (length r) → (length (tail_text ns) < length r)%nat →
   ∃ r', head r' = Some NUL ∧ length r' = (length r - length (tail_text ns))%nat ∧
     run = Some (0, T ++ tail_text ns ++ r')) ∧
  (¬ tail_fills ns (length r) → (length r ≤ length (tail_text ns))%nat →
   ∃ b', length b' = length (T ++ r) ∧ run = Some (- ENOSPC, b')).
Proof.
  revert i T r run. induction names as [|n names IH]; intros i T r run Hr;
    cbn [print_actions enabled_from]; intros Hrun.
  - assert (0 < length r)%nat by (destruct r; cbn; [done|lia]).
    repeat split.
    + by intros (k & Hk & _); cbn in Hk; lia.
    + intros _ _. exists r. cbn. repeat split; [done|lia|done].
    + cbn; lia.
  - destruct (xdp_program__chain_call_enabled prog i); [|by apply IH].
    destruct r as [|x r]; [done|]. cbv zeta in Hrun |- *. rewrite tail_fills_cons, length_tail_text.
    cbn [length] in Hrun |- *. rewrite (proj2 (Nat.eqb_neq _ 0)) in Hrun by lia.
    unfold pbind at 1 in Hrun. rewrite put_comma in Hrun. unfold pbind at 1 in Hrun.
    replace (length T + 1)%nat with (length (T ++ [","%char])) in Hrun by (rewrite length_app; done).
    replace (S (length r) - 1)%nat with (length r) in Hrun by lia.
    set (T1 := T ++ [","%char]) in Hrun.
    assert (length T1 = S (length T)) as HT1 by (unfold T1; rewrite length_app; cbn; lia).
    destruct (decide (String.length n < length r)%nat) as [Hfit|Hlong].
    + destruct (snprintf_fits T1 r n Hfit) as (r1 & Hl1 & Hh1 & E). rewrite E in Hrun. clear E.
      rewrite (proj2 (Z.leb_gt _ _)) in Hrun by (unfold strlen; lia).
      unfold strlen in Hrun.
      rewrite Nat2Z.id, <- Hl1, app_assoc, <- length_chars, <- length_app in Hrun.
      apply IH in Hrun as (IH1 & IH2 & IH3); [|done]. repeat split.
      * intros [?|[? H]]; [lia|]. apply IH1. by eapply tail_fills_eq; [|exact H]; lia.
      * intros Hn Hlt. destruct IH2 as (r' & Hr' & Hl' & ->); [|lia|].
        { intros H. apply Hn. right. split; [|eapply tail_fills_eq; [|exact H]]; lia. }
        exists r'. repeat split; [done|lia|]. unfold T1, tail_text. cbn. by rewrite <- !app_assoc.
      * intros Hn Hle. destruct IH3 as (b' & Hl' & ->); [|lia|].
        { intros H. apply Hn. right. split; [|eapply tail_fills_eq; [|exact H]]; lia. }
        exists b'. split; [|done]. rewrite Hl', !length_app, length_chars. cbn. lia.
    + subst run. repeat split.
      * intros [H|[]]; [|lia]. assert (r = []) as -> by (destruct r; [done|cbn in H; lia]).
        cbn [length snprintf_s]. unfold pret at 1. rewrite (proj2 (Z.leb_le _ _)) by (unfold strlen; lia).
        rewrite app_nil_r. unfold pbind. by rewrite put_past.
      * lia.
      * intros Hn _. assert (r ≠ []) as Hne by (intros ->; apply Hn; by left).
        destruct (snprintf_long T1 r n Hne) as (r1 & Hl1 & ->); [lia|].
        rewrite (proj2 (Z.leb_le _ _)) by (unfold strlen; lia). unfold pbind.
        destruct (put_end T1 r1) as (r2 & Hl2 & ->); [by intros ->; destruct r|].
        exists (T1 ++ r2). split; [|done]. rewrite !length_app. cbn. lia.
Qed.

Lemma fills_cons n ns len :
  fills (n :: ns) len ↔ (String.length n < len)%nat ∧ tail_fills ns (len - String.length n).
Proof.
  split.
  - intros ([|k] & Hk & E); [lia|]. cbn [take text length] in *.
    rewrite length_app, length_chars in E. split; [lia|]. exists k. lia.
  - intros (H & k & Hk & E). exists (S k). cbn [take text length].
    rewrite length_app, length_chars. lia.
Qed.

Lemma print_actions_first prog names i b run :
  b ≠ [] → run = print_actions prog names i true 0 (length b) b →
  let ns := enabled_from prog names i in
  (fills ns (length b) → run = None) ∧
  (¬ fills ns (length b) → (length (text ns) < length b)%nat →
   ∃ r', length r' = (length b - length (text ns))%nat ∧
     run = Some (0, text ns ++ r') ∧ (if ns is [] then r' = b else head r' = Some NUL)) ∧
  (¬ fills ns (length b) → (length b ≤ length (text ns))%nat →
   ∃ b', length b' = length b ∧ run = Some (- ENOSPC, b')).
Proof.
  revert i run. induction names as [|n names IH]; intros i run Hb;
    cbn [print_actions enabled_from]; intros Hrun.
  - assert (0 < length b)%nat by (destruct b; cbn; [done|lia]). repeat split.
    + by intros (k & Hk & _); cbn in Hk; lia.
    + intros _ _. exists b. cbn. repeat split; [lia|done].
    + cbn; lia.
  - destruct (xdp_program__chain_call_enabled prog i); [|by apply IH].
    cbv zeta in Hrun |- *. rewrite fills_cons. cbn [text]. rewrite length_app, length_chars.
    unfold pbind at 1 in Hrun. change (snprintf_s 0 (length b) n b) with (snprintf_s (length (A := ascii) []) (length b) n ([] ++ b)) in Hrun.
    destruct (decide (String.length n < length b)%nat) as [Hfit|Hlong].
    + destruct (snprintf_fits [] b n Hfit) as (r1 & Hl1 & Hh1 & E). rewrite E in Hrun. clear E.
      rewrite (proj2 (Z.leb_gt _ _)) in Hrun by (unfold strlen; lia). unfold strlen in Hrun.
      rewrite Nat2Z.id, <- Hl1, <- length_chars in Hrun. cbn [app Nat.add] in Hrun.
      apply print_actions_tail in Hrun as (H1 & H2 & H3); [|done]. rewrite Hl1 in *. repeat split.
      * by intros [_ H]; apply H1.
      * intros Hn Hlt. destruct H2 as (r' & Hr' & Hl' & ->); [tauto|lia|].
        exists r'. rewrite <- app_assoc. repeat split; [lia|done].
      * intros Hn Hle. destruct H3 as (b' & Hl' & ->); [tauto|lia|].
        exists b'. rewrite Hl', length_app, length_chars. split; [lia|done].
    + subst run. repeat split; [lia|lia|]. intros _ _.
      destruct (snprintf_long [] b n Hb) as (r1 & Hl1 & ->); [lia|].
      rewrite (proj2 (Z.leb_le _ _)) by (unfold strlen; lia). unfold pbind.
      destruct (put_end [] r1) as (r2 & Hl2 & E); [by intros ->; destruct b|].
      cbn [length app] in E |- *. rewrite E. exists r2. split; [lia|done].
Qed.

Lemma buf_str_text ns r : head r = Some NUL → NUL ∉ text ns → buf_str (text ns ++ r) = Some (String.string_of_list_ascii (text ns)).
Proof.
  intros Hr. generalize (text ns). intros l. induction l as [|c l IH]; intros Hin.
  - destruct r as [|x r]; [done|]. injection Hr as ->. cbn. by destruct (decide _).
  - apply not_elem_of_cons in Hin as [Hc Hin]. cbn. destruct (decide (c = NUL)); [by subst|].
    by rewrite IH.
Qed.

Lemma enabled_from_sub prog names i n : n ∈ enabled_from prog names i → n ∈ names.
Proof.
  revert i. induction names as [|m names IH]; intros i; cbn; [done|].
  destruct (xdp_program__chain_call_enabled prog i); rewrite ?elem_of_cons; [|by eauto].
  intros [->|]; eauto.
Qed.

Lemma text_no_nul prog : NUL ∉ text (enabled_names prog).
Proof.
  assert (∀ n, n ∈ enabled_names prog → NUL ∉ chars n) as H.
  { intros n Hn. apply enabled_from_sub in Hn. revert n Hn. apply Forall_forall.
    repeat constructor; by apply (bool_decide_unpack _). }
  revert H. generalize (enabled_names prog). intros ns H.
  assert (∀ l, (∀ n, n ∈ l → NUL ∉ chars n) → NUL ∉ tail_text l) as Ht.
  { intros l Hl. unfold tail_text. rewrite list_elem_of_bind. intros (n & Hn & Hin).
    apply elem_of_cons in Hn as [?|Hn]; [done|]. by apply (Hl n). }
  destruct ns as [|n ns]; [by apply not_elem_of_nil|]. cbn. rewrite elem_of_app. intros [Hn|Hn].
  - apply (H n); [by left|done].
  - apply (Ht ns); [|done]. intros m Hm. apply H. by right.
Qed.

(** [xdp_program__print_chain_call_actions] writes outside the caller's
    buffer exactly when a proper, non-empty prefix of the enabled actions fills
    it to the last byte: the separating comma then takes the place of the
    terminator and the error path stores a NUL one past the end.  In all other
    cases it stays inside, and returns 0 with the whole text when that fits and
    [-ENOSPC] otherwise.  With no action enabled it returns 0 without writing
    anything. *)
Theorem print_chain_call_actions_safe p b :
  b ≠ [] →
  let ns := enabled_names (Ptr p) in
  let run := xdp_program__print_chain_call_actions (Ptr p) b in
  (run = None ↔ fills ns (length b)) ∧
  (¬ fills ns (length b) →
   ∃ b', length b' = length b ∧
     (run = Some (0, b') ∧ (length (text ns) < length b)%nat ∧
        (ns = [] → b' = b) ∧
        (ns ≠ [] → buf_str b' = Some (String.string_of_list_ascii (text ns))) ∨
      run = Some (- ENOSPC, b') ∧ (length b ≤ length (text ns))%nat)).
Proof.
  intros Hb ns run.
  assert (run = print_actions (Ptr p) xdp_action_names 0 true 0 (length b) b) as Hrun.
  { unfold run, xdp_program__print_chain_call_actions, pbind, pget. cbn [IS_ERR_OR_NULL].
    rewrite (proj2 (Nat.eqb_neq _ 0)); [done|]. by destruct b. }
  apply print_actions_first in Hrun as (H1 & H2 & H3); [|done].
  fold (enabled_names (Ptr p)) in *. fold ns in H1, H2, H3.
  match goal with |- _ ∧ ?G => assert G as Hok end.
  { intros Hf. destruct (decide (length (text ns) < length b)%nat) as [Hlt|Hge].
    - destruct (H2 Hf Hlt) as (r' & Hl & -> & Hr). exists (text ns ++ r').
      split; [rewrite length_app; lia|]. left. repeat split; [done| |].
      + intros E. by rewrite E in Hr |- *.
      + intros E. apply buf_str_text; [by destruct ns|apply text_no_nul].
    - destruct H3 as (b' & Hl & ->); [done|lia|]. exists b'. split; [done|]. right. split; [done|lia]. }
  split; [|exact Hok]. split; [|exact H1].
  intros Hn. destruct (decide (fills ns (length b))) as [|Hf]; [done|].
  destruct (Hok Hf) as (b' & _ & [[E _]|[E _]]); congruence.
Qed.

(** The default program prints into four bytes more than its text, and the
    program with the first two actions overruns a buffer of twelve bytes. *)
Definition two_actions : xdp_program.t := set_run xdp_program__new 50 3.

Lemma print_chain_call_actions_safe_witness :
  xdp_program__print_chain_call_actions (Ptr two_actions) (replicate 12 NUL) = None ∧
  ∃ b', xdp_program__print_chain_call_actions (Ptr two_actions) (replicate 21 NUL) = Some (0, b') ∧
    buf_str b' = Some "XDP_ABORTED,XDP_DROP"%string.
Proof.
  split.
  - apply print_chain_call_actions_safe; [done|]. exists 1%nat. vm_compute. lia.
  - exists (chars "XDP_ABORTED,XDP_DROP" ++ [NUL]). split; vm_compute; reflexivity.
Defined.

Lemma get_xdp_action_names i :
  0 ≤ i < 5 → ∃ n, xdp_action_names !! Z.to_nat i = Some n ∧ get_xdp_action n = Some i.
Proof.
  intros Hi. assert (i = 0 ∨ i = 1 ∨ i = 2 ∨ i = 3 ∨ i = 4) as Hc by lia.
  destruct Hc as [->|[->|[->|[->| ->]]]]; eexists; split; reflexivity.
Qed.

(** ** The run order *)

(** The sign [strcmp] and [memcmp] return. *)
Fixpoint strcmp (a b : string) : Z :=
  match a, b with
  | EmptyString, EmptyString => 0
  | EmptyString, String _ _ => -1
  | String _ _, EmptyString => 1
  | String x a, String y b =>
    let (x, y) := (ch x, ch y) in
    if x =? y then strcmp a b else if x <? y then -1 else 1
  end.
Fixpoint memcmp (a b : list Z) : Z :=
  match a, b with
  | x :: a, y :: b => if x =? y then memcmp a b else if x <? y then -1 else 1
  | _, _ => 0
  end.

Definition cmp_xdp_programs (a b : xdp_program.t) : Z :=
  if negb (run_prio a =? run_prio b) then if run_prio a <? run_prio b then -1 else 1
  else
    let cmp := strcmp (prog_name a) (prog_name b) in
    if negb (cmp =? 0) then cmp
    else if (0 <=? prog_fd a) && (prog_fd b <? 0) then -1
    else if (prog_fd a <? 0) && (0 <=? prog_fd b) then 1
    else
      let rest :=
        let cmp := memcmp (prog_tag a) (prog_tag b) in
        if negb (cmp =? 0) then cmp
        else if negb (load_time a =? load_time b)
             then if load_time a <? load_time b then -1 else 1
             else 0 in
      match bpf_prog a, bpf_prog b with
      | Some pa, Some pb =>
        let size_a := bpf_program.insn_cnt pa in
        let size_b := bpf_program.insn_cnt pb in
        if negb (size_a =? size_b) then if size_a <? size_b then -1 else 1 else rest
      | _, _ => rest
      end.

(** Comparison functions that are total preorders: the sign flips when the
    arguments are exchanged, and chains of [<=] compose. *)
Record is_cmp {A} (P : A → Prop) (c : A → A → Z) : Prop := {
  cmp_anti : ∀ x y, P x → P y → c y x = - c x y;
  cmp_trans : ∀ x y z, P x → P y → P z → c x y ≤ 0 → c y z ≤ 0 →
    c x z ≤ 0 ∧ (c x z = 0 → c x y = 0 ∧ c y z = 0) }.

Definition lex {A} (c d : A → A → Z) (x y : A) : Z := if negb (c x y =? 0) then c x y else d x y.
Definition zcmp {A} (f : A → Z) (x y : A) : Z :=
  if negb (f x =? f y) then if f x <? f y then -1 else 1 else 0.

Lemma lex_is_cmp {A} (P : A → Prop) c d : is_cmp P c → is_cmp P d → is_cmp P (lex c d).
Proof.
  intros [Hc Hct] [Hd Hdt]. unfold lex. split.
  - intros x y Hx Hy. rewrite (Hc x y), (Hd x y) by done.
    destruct (Z.eqb_spec (c x y) 0) as [E|E]; [by rewrite E|].
    by rewrite (proj2 (Z.eqb_neq (- c x y) 0)) by lia.
  - intros x y z Hx Hy Hz H1 H2. specialize (Hct x y z Hx Hy Hz). specialize (Hdt x y z Hx Hy Hz).
    destruct (Z.eqb_spec (c x y) 0), (Z.eqb_spec (c y z) 0), (Z.eqb_spec (c x z) 0); cbn in *; lia.
Qed.

Lemma zcmp_is_cmp {A} (P : A → Prop) (f : A → Z) : is_cmp P (zcmp f).
Proof.
  unfold zcmp. split.
  - intros x y _ _. destruct (Z.eqb_spec (f x) (f y)), (Z.eqb_spec (f y) (f x)); cbn; [lia..|].
    destruct (Z.ltb_spec (f x) (f y)), (Z.ltb_spec (f y) (f x)); lia.
  - intros x y z _ _ _.
    destruct (Z.eqb_spec (f x) (f y)), (Z.eqb_spec (f y) (f z)), (Z.eqb_spec (f x) (f z)); cbn;
      destruct (Z.ltb_spec (f x) (f y)), (Z.ltb_spec (f y) (f z)), (Z.ltb_spec (f x) (f z)); lia.
Qed.

Lemma memcmp_is_cmp n : is_cmp (λ l, length l = n) memcmp.
Proof.
  split.
  - induction n as [|n IH]; intros [|x l] [|y m] Hl Hm; try done. cbn in *.
    rewrite Z.eqb_sym. destruct (Z.eqb_spec x y); [apply IH; lia|].
    destruct (Z.ltb_spec x y), (Z.ltb_spec y x); lia.
  - induction n as [|n IH]; intros [|x l] [|y m] [|z k] Hl Hm Hk; try done; cbn in *.
    specialize (IH l m k). 
    destruct (Z.eqb_spec x y), (Z.eqb_spec y z), (Z.eqb_spec x z); try lia;
      destruct (Z.ltb_spec x y), (Z.ltb_spec y z), (Z.ltb_spec x z); lia.
Qed.

Lemma strcmp_is_cmp : is_cmp (λ _, True) strcmp.
Proof.
  split.
  - intros x y _ _. revert y. induction x as [|a x IH]; intros [|b y]; cbn; try lia.
    rewrite Z.eqb_sym. destruct (Z.eqb_spec (ch a) (ch b)); [apply IH|].
    destruct (Z.ltb_spec (ch a) (ch b)), (Z.ltb_spec (ch b) (ch a)); lia.
  - intros x y z _ _ _. revert y z. induction x as [|a x IH]; intros [|b y] [|c z]; cbn; try lia.
    specialize (IH y z).
    destruct (Z.eqb_spec (ch a) (ch b)), (Z.eqb_spec (ch b) (ch c)), (Z.eqb_spec (ch a) (ch c)); try lia;
      destruct (Z.ltb_spec (ch a) (ch b)), (Z.ltb_spec (ch b) (ch c)), (Z.ltb_spec (ch a) (ch c)); lia.
Qed.

Lemma is_cmp_map {A B} (P : A → Prop) (Q : B → Prop) (f : A → B) c :
  (∀ x, P x → Q (f x)) → is_cmp Q c → is_cmp P (λ x y, c (f x) (f y)).
Proof. intros H [Ha Ht]. split; intros; [apply Ha|apply Ht]; auto. Qed.

(** The comparison as a lexicographic order, for programs that agree on
    whether they have a libbpf program. *)
Definition same_kind (bp : bool) (p : xdp_program.t) : Prop :=
  length (prog_tag p) = 8%nat ∧ (if bp then is_Some (bpf_prog p) else bpf_prog p = None).

Definition size (p : xdp_program.t) : Z := from_option bpf_program.insn_cnt 0 (bpf_prog p).

Definition lex_order : xdp_program.t → xdp_program.t → Z :=
  lex (zcmp run_prio) (lex (λ a b, strcmp (prog_name a) (prog_name b))
    (lex (zcmp (λ p, if 0 <=? prog_fd p then 0 else 1)) (lex (zcmp size)
      (lex (λ a b, memcmp (prog_tag a) (prog_tag b)) (zcmp load_time))))).

Lemma lex_order_is_cmp bp : is_cmp (same_kind bp) lex_order.
Proof.
  unfold lex_order. repeat (apply lex_is_cmp || apply zcmp_is_cmp).
  - by apply (is_cmp_map _ (λ _, True) prog_name), strcmp_is_cmp.
  - eapply (is_cmp_map _ _ prog_tag), (memcmp_is_cmp 8). by intros x [H _].
Qed.

Lemma cmp_xdp_programs_lex a b :
  (is_Some (bpf_prog a) ↔ is_Some (bpf_prog b)) → cmp_xdp_programs a b = lex_order a b.
Proof.
  intros Hk. unfold cmp_xdp_programs, lex_order, lex at 1, zcmp at 1 2.
  destruct (negb (run_prio a =? run_prio b)); [by destruct (_ <? _)|]. cbn [negb Z.eqb].
  unfold lex at 1. destruct (negb (strcmp _ _ =? 0)); [done|].
  unfold lex at 1, zcmp at 1 2.
  destruct (Z.leb_spec 0 (prog_fd a)), (Z.leb_spec 0 (prog_fd b)); cbn [negb andb Z.eqb Z.ltb Z.compare];
    rewrite ?(proj2 (Z.ltb_lt _ 0)), ?(proj2 (Z.ltb_ge _ 0)) by lia; cbn; try done.
  all: unfold lex at 1, zcmp at 1 2, size; destruct (bpf_prog a), (bpf_prog b); cbn;
    try (by exfalso; eapply is_Some_None, Hk; eauto).
  all: try (destruct (negb (bpf_program.insn_cnt _ =? _)); [by destruct (_ <? _)|]).
  all: unfold lex; destruct (memcmp _ _ =? 0); done.
Qed.

(** The comparison that orders the programs of a dispatcher compares
    priorities first; exchanging its arguments flips its sign; and it is
    transitive on programs that agree on whether they were opened from an
    object file.  It is not transitive in general: of three loaded programs
    with equal name and priority, two compare by size and both of these with
    the third by tag, which can form a cycle. *)
Theorem cmp_xdp_programs_order :
  (∀ a b, run_prio a < run_prio b → cmp_xdp_programs a b = -1) ∧
  (∀ bp a b, same_kind bp a → same_kind bp b → cmp_xdp_programs b a = - cmp_xdp_programs a b) ∧
  (∀ bp a b c, same_kind bp a → same_kind bp b → same_kind bp c →
     cmp_xdp_programs a b ≤ 0 → cmp_xdp_programs b c ≤ 0 → cmp_xdp_programs a c ≤ 0) ∧
  (∃ a b c, cmp_xdp_programs a b = -1 ∧ cmp_xdp_programs b c = -1 ∧ cmp_xdp_programs c a = -1).
Proof.
  assert (∀ bp a b, same_kind bp a → same_kind bp b → cmp_xdp_programs a b = lex_order a b) as Hlex.
  { intros bp a b [_ Ha] [_ Hb]. apply cmp_xdp_programs_lex. destruct bp; [tauto|].
    rewrite Ha, Hb. done. }
  split; [|split; [|split]].
  - intros a b H. unfold cmp_xdp_programs. rewrite (proj2 (Z.eqb_neq _ _)) by lia. cbn.
    by rewrite (proj2 (Z.ltb_lt _ _)).
  - intros bp a b Ha Hb. rewrite !(Hlex bp) by done. by apply (cmp_anti _ _ (lex_order_is_cmp bp)).
  - intros bp a b c Ha Hb Hc. rewrite !(Hlex bp) by done. by apply (cmp_trans _ _ (lex_order_is_cmp bp)).
  - set (pr bp t := mk bp true true 5 (-1) "f"%string (t :: replicate 7 0) 7 0 false 50 4).
    exists (pr (Some (bpf_program.mk 9 0)) 1), (pr None 2), (pr (Some (bpf_program.mk 5 0)) 3).
    by repeat split.
Qed.
