(* ===== verification/RunConfig.v ===== *)
(** * libxdp: the run configuration of a program

    A program's priority and chain-call actions are declared in its source as a
    structure in the section [.xdp_run_config] and found again in its type
    information (BTF).  This file models the search of [lib/libxdp/libxdp.c]:
    [skip_mods_and_typedefs], [get_field_int], [btf_get_function],
    [btf_get_datasec], [btf_get_section_var] and [xdp_program__parse_btf].

    Type information is the list of its types, the type with identifier [i] at
    position [i - 1]; names are resolved, [None] for an offset outside the string
    table, where libbpf returns a null pointer.  [None] of the operations is a
    fault: the code reads through a null pointer, or follows a cycle of
    modifiers for ever. *)

From S2P Require Import Prelude CString Errno Packet Libxdp.

Inductive modifier := VOLATILE | CONST | RESTRICT | TYPE_TAG.

Record btf_member := mk_member { m_name : option string; m_type : Z }.

(** [struct btf_type] with its name and what follows it in memory.  [BTF_OTHER]
    stands for the kinds the search does not look into. *)
Inductive btf_type :=
  | BTF_VOID
  | BTF_PTR (name : option string) (type : Z)
  | BTF_ARRAY (name : option string) (type nelems : Z)
  | BTF_STRUCT (name : option string) (members : list btf_member)
  | BTF_TYPEDEF (name : option string) (type : Z)
  | BTF_MOD (m : modifier) (name : option string) (type : Z)
  | BTF_FUNC (name : option string) (type : Z)
  | BTF_VAR (name : option string) (type linkage : Z)
  | BTF_DATASEC (name : option string) (vars : list Z)
  | BTF_OTHER (kind : Z) (name : option string).

Definition BTF_KIND_STRUCT : Z := 4.
Definition BTF_KIND_FUNC : Z := 12.

Definition btf_kind (t : btf_type) : Z :=
  match t with
  | BTF_VOID => 0
  | BTF_PTR _ _ => 2
  | BTF_ARRAY _ _ _ => 3
  | BTF_STRUCT _ _ => BTF_KIND_STRUCT
  | BTF_TYPEDEF _ _ => 8
  | BTF_MOD VOLATILE _ _ => 9
  | BTF_MOD CONST _ _ => 10
  | BTF_MOD RESTRICT _ _ => 11
  | BTF_FUNC _ _ => 12
  | BTF_VAR _ _ _ => 14
  | BTF_DATASEC _ _ => 15
  | BTF_MOD TYPE_TAG _ _ => 18
  | BTF_OTHER kind _ => kind
  end.

(** [btf__name_by_offset(btf, t->name_off)]; a type without a name has the empty one. *)
Definition type_name (t : btf_type) : option string :=
  match t with
  | BTF_VOID => Some EmptyString
  | BTF_PTR n _ | BTF_ARRAY n _ _ | BTF_MOD _ n _ | BTF_STRUCT n _ | BTF_TYPEDEF n _ | BTF_FUNC n _ | BTF_VAR n _ _ | BTF_DATASEC n _ | BTF_OTHER _ n => n
  end.

Abbreviation btf := (list btf_type).

(** [None] is the null pointer. *)
Definition btf__type_by_id (b : btf) (id : Z) : option btf_type :=
  if id =? 0 then Some BTF_VOID else if id <? 0 then None else b !! Z.to_nat (id - 1).

(** The identifier of the first type of a kind with a name. *)
Fixpoint find_by_name_kind (types : btf) (i : Z) (name : string) (kind : Z) : Z :=
  match types with
  | [] => - ENOENT
  | t :: types =>
      if (btf_kind t =? kind) && bool_decide (type_name t = Some name) then i
      else find_by_name_kind types (i + 1) name kind
  end.
Definition btf__find_by_name_kind (b : btf) (name : string) (kind : Z) : Z :=
  if (kind =? 0) || streq name "void" then 0 else find_by_name_kind b 1 name kind.

(** A chain without a cycle has at most as many modifiers as there are types. *)
Fixpoint skip_from (fuel : nat) (b : btf) (t : btf_type) : option btf_type :=
  match t with
  | BTF_MOD _ _ ty | BTF_TYPEDEF _ ty =>
      match fuel with
      | O => None
      | S fuel => t ← btf__type_by_id b ty; skip_from fuel b t
      end
  | _ => Some t
  end.

Definition skip_mods_and_typedefs (b : btf) (id : Z) : option btf_type :=
  t ← btf__type_by_id b id; skip_from (length b) b t.

(** [None]: not a pointer to an array, the result is false. *)
Definition get_field_int (b : btf) (t : btf_type) : option Z :=
  match t with
  | BTF_PTR _ ty =>
      match btf__type_by_id b ty with
      | Some (BTF_ARRAY _ _ nelems) => Some nelems
      | _ => None
      end
  | _ => None
  end.

(** The functions of the type information whose name starts with [func_name]:
    the loop keeps the number of such names and the last of them, and stops at
    the name itself. *)
Fixpoint find_function (types : btf) (func_name : string) (matches : Z) (found : option string)
    : option (option string) :=
  match types with
  | [] => Some (if matches =? 1 then found else None)
  | BTF_FUNC name _ :: types =>
      match name with
      | None => None
      | Some name =>
          if String.prefix func_name name then
            if strlen name =? strlen func_name then Some (Some name)
            else find_function types func_name (matches + 1) (Some name)
          else find_function types func_name matches found
      end
  | _ :: types => find_function types func_name matches found
  end.

Definition btf_get_function (b : option btf) (func_name : string) : option (option string) :=
  match b with None => Some None | Some b => find_function b func_name 0 None end.

(** The variables of the section, if there is one. *)
Fixpoint find_datasec (types : btf) (sec_name : string) : option (option (list Z)) :=
  match types with
  | [] => Some None
  | BTF_DATASEC name vars :: types =>
      match name with
      | None => None
      | Some name => if streq name sec_name then Some (Some vars) else find_datasec types sec_name
      end
  | _ :: types => find_datasec types sec_name
  end.

Definition btf_get_datasec (b : option btf) (sec_name : string) : option (option (list Z)) :=
  match b with None => Some None | Some b => find_datasec b sec_name end.

Definition BTF_VAR_STATIC : Z := 0.
Definition BTF_VAR_GLOBAL_ALLOCATED : Z := 1.

Fixpoint btf_get_section_var (b : btf) (vars : list Z) (var_name : string) (kind : Z)
    : option (ptr btf_type) :=
  match vars with
  | [] => Some (ErrPtr (- ENOENT))
  | v :: vars =>
      var ← btf__type_by_id b v;
      name ← type_name var;
      if negb (streq name var_name) then btf_get_section_var b vars var_name kind
      else
        match var with
        | BTF_VAR _ ty linkage =>
            if negb (linkage =? BTF_VAR_GLOBAL_ALLOCATED) && negb (linkage =? BTF_VAR_STATIC)
            then Some (ErrPtr (- EOPNOTSUPP))
            else
              def ← skip_mods_and_typedefs b ty;
              Some (if negb (btf_kind def =? kind) then ErrPtr (- EINVAL) else Ptr def)
        | _ => Some (ErrPtr (- EINVAL))
        end
  end.

Definition BPF_OBJ_NAME_LEN : Z := 16.
Definition XDP_RUN_CONFIG_SEC : string := ".xdp_run_config".
Definition ENOTSUP : Z := EOPNOTSUPP.

Definition set_name (p : xdp_program.t) (n : string) : xdp_program.t :=
  xdp_program.mk (xdp_program.bpf_prog p) (xdp_program.has_obj p) (xdp_program.has_btf p)
    (xdp_program.prog_fd p) (xdp_program.link_fd p) n (xdp_program.prog_tag p) (xdp_program.prog_id p)
    (xdp_program.load_time p) (xdp_program.is_frags p) (xdp_program.run_prio p)
    (xdp_program.chain_call_actions p).

(** The loop over the members of the structure; settings made before an error
    stay. *)
Fixpoint parse_members (b : btf) (ms : list btf_member) (p : xdp_program.t) : option (Z * xdp_program.t) :=
  match ms with
  | [] => Some (0, p)
  | m :: ms =>
      match m_name m with
      | None => Some (- EINVAL, p)
      | Some mname =>
          m_t ← skip_mods_and_typedefs b (m_type m);
          if streq mname "priority" then
            match get_field_int b m_t with
            | None => Some (- EINVAL, p)
            | Some v => parse_members b ms (set_run p v (xdp_program.chain_call_actions p))
            end
          else
            match get_xdp_action mname with
            | Some act =>
                match get_field_int b m_t with
                | None => Some (- EINVAL, p)
                | Some val =>
                    match (xdp_program__set_chain_call_enabled (Ptr p) act (negb (val =? 0))).2 with
                    | Ptr p => parse_members b ms p
                    | _ => None
                    end
                end
            | None => Some (- ENOTSUP, p)
            end
      end
  end.

(** The part of [xdp_program__parse_btf] that completes a name the kernel may
    have cut; [strdup] is whether the copy could be made. *)
Definition expand_name (b : option btf) (strdup : bool) (p : xdp_program.t) : option (Z * xdp_program.t) :=
  if BPF_OBJ_NAME_LEN - 1 <=? strlen (xdp_program.prog_name p) then
    func ← btf_get_function b (xdp_program.prog_name p);
    Some match func with
         | Some name => if strdup then (0, set_name p name) else (- ENOMEM, p)
         | None => (0, p)
         end
  else Some (0, p).

(** [own] is the type information of the program itself, used when none is
    given.  The variable found is of kind [BTF_KIND_STRUCT]; the branch for other
    pointers is there for [BTF_OTHER], which never stands for that kind. *)
Definition xdp_program__parse_btf (own : option btf) (strdup : bool) (p : xdp_program.t) (b : option btf)
    : option (Z * xdp_program.t) :=
  let b := match b with Some _ => b | None => own end in
  '(err, p) ← expand_name b strdup p;
  if negb (err =? 0) then Some (err, p)
  else if 100 <=? 1 + strlen (xdp_program.prog_name p) then Some (- ENAMETOOLONG, p)
  else
    sec ← btf_get_datasec b XDP_RUN_CONFIG_SEC;
    match sec, b with
    | Some vars, Some types =>
        def ← btf_get_section_var types vars ("_" +:+ xdp_program.prog_name p) BTF_KIND_STRUCT;
        match def with
        | Ptr (BTF_STRUCT _ members) => parse_members types members p
        | Ptr _ => Some (0, p)
        | ErrPtr e => Some (e, p)
        | Null => None
        end
    | _, _ => Some (- ENOENT, p)
    end.

(** The version a program declares: the result of [check_xdp_prog_version] is an
    error or the value of the variable, whose type is a pointer to an array. *)
Definition XDP_METADATA_SECTION : string := "xdp_metadata".
Definition BTF_KIND_PTR : Z := 2.

Definition check_xdp_prog_version (b : btf) (name : string) : option (Z + Z) :=
  sec ← btf_get_datasec (Some b) XDP_METADATA_SECTION;
  match sec with
  | None => Some (inl (- ENOENT))
  | Some vars =>
      def ← btf_get_section_var b vars name BTF_KIND_PTR;
      match def with
      | ErrPtr e => Some (inl e)
      | Ptr def => Some (match get_field_int b def with Some v => inr v | None => inl (- ENOENT) end)
      | Null => None
      end
  end.

(** ** Modifiers and type definitions

    [resolves b id k t]: following [k] modifiers or type definitions from [id]
    leads to the type [t], which is neither.  The search finds it whenever there
    is one: the number of types bounds the length of a chain without a cycle. *)

Definition target (t : btf_type) : option Z :=
  match t with BTF_MOD _ _ ty | BTF_TYPEDEF _ ty => Some ty | _ => None end.

Inductive resolves (b : btf) : Z → nat → btf_type → Prop :=
  | resolves_here id t : btf__type_by_id b id = Some t → target t = None → resolves b id 0 t
  | resolves_step id t ty k r :
      btf__type_by_id b id = Some t → target t = Some ty → resolves b ty k r → resolves b id (S k) r.

Lemma resolves_det b id k r : resolves b id k r → ∀ k' r', resolves b id k' r' → k = k'.
Proof.
  induction 1 as [id t Ht Hm|id t ty k r Ht Hm Hr IH]; intros k' r' H'; inversion H'; simplify_eq; [done|].
  f_equal. by eapply IH.
Qed.

Lemma type_by_id_range b id t : btf__type_by_id b id = Some t → target t ≠ None → 1 ≤ id ≤ length b.
Proof.
  unfold btf__type_by_id. destruct (Z.eqb_spec id 0); [by intros [= <-]|].
  destruct (Z.ltb_spec id 0); [done|]. intros Hl%lookup_lt_Some _. lia.
Qed.

(** The identifiers passed on the way are distinct. *)
Lemma resolves_path b id k r :
  resolves b id k r →
  ∃ l : list nat, length l = k ∧ NoDup l ∧
    ∀ i, i ∈ l → (i < length b)%nat ∧ ∃ k' r', (k' ≤ k)%nat ∧ resolves b (i + 1) k' r'.
Proof.
  induction 1 as [id t Ht Hm|id t ty k r Ht Hm Hr IH].
  { exists []. split_and!; [done|constructor|]. intros i Hi. by apply not_elem_of_nil in Hi. }
  destruct IH as (l & Hl & Hn & Hin).
  assert (resolves b id (S k) r) as Hid by by econstructor.
  destruct (type_by_id_range b id t Ht) as [H1 H2]; [congruence|].
  assert (Z.of_nat (Z.to_nat (id - 1)) + 1 = id) as E by lia.
  exists (Z.to_nat (id - 1) :: l). split; [simpl; lia|]. split.
  - constructor; [|done]. intros (_ & k' & r' & Hk & H')%Hin. rewrite E in H'.
    pose proof (resolves_det _ _ _ _ Hid _ _ H'). lia.
  - intros i [->|Hi]%elem_of_cons.
    + split; [lia|]. exists (S k), r. by rewrite E.
    + destruct (Hin i Hi) as (? & k' & r' & ? & ?). split; [done|]. exists k', r'. split; [lia|done].
Qed.

Lemma resolves_short b id k r : resolves b id k r → (k ≤ length b)%nat.
Proof.
  intros (l & <- & Hn & Hin)%resolves_path. rewrite <- (length_seq (length b) 0).
  apply submseteq_length, NoDup_submseteq; [done|]. intros i Hi. apply elem_of_seq.
  destruct (Hin i Hi). lia.
Qed.

Lemma skip_mods_resolves b id k r : resolves b id k r → skip_mods_and_typedefs b id = Some r.
Proof.
  intros Hr. pose proof (resolves_short _ _ _ _ Hr) as Hk. unfold skip_mods_and_typedefs.
  revert Hk. generalize (length b) as fuel.
  induction Hr as [id t Ht Hm|id t ty k r Ht Hm Hr IH]; intros fuel Hk; rewrite Ht; cbn [mbind option_bind].
  - by destruct t, fuel.
  - destruct fuel as [|fuel]; [lia|].
    destruct t; simplify_eq/=; apply IH; lia.
Qed.

(** The search by name never gives the identifier 0 for a function that has a
    name of its own. *)
Lemma find_by_name_kind_cases types i name kind :
  find_by_name_kind types i name kind = - ENOENT ∨
  ∃ j : nat, find_by_name_kind types i name kind = i + j ∧
    ∃ t, types !! j = Some t ∧ btf_kind t = kind ∧ type_name t = Some name.
Proof.
  revert i. induction types as [|t types IH]; intros i; [by left|]. cbn.
  destruct (Z.eqb_spec (btf_kind t) kind) as [Hk|]; cbn [andb].
  - destruct (bool_decide_reflect (type_name t = Some name)) as [Hn|].
    + right. exists 0%nat. split; [lia|]. by exists t.
    + destruct (IH (i + 1)) as [->|(j & -> & Hj)]; [by left|right]. exists (S j). split; [lia|done].
  - destruct (IH (i + 1)) as [->|(j & -> & Hj)]; [by left|right]. exists (S j). split; [lia|done].
Qed.

(** ** Valid type information

    What the kernel checks when type information is loaded: every name is in
    the string table, and every type referred to exists and is not defined in
    terms of itself.  The searches then never fault. *)

Definition refs (t : btf_type) : list Z :=
  match t with
  | BTF_STRUCT _ members => m_type <$> members
  | BTF_VAR _ ty _ => [ty]
  | BTF_DATASEC _ vars => vars
  | _ => []
  end.

Definition btf_valid (b : btf) : Prop :=
  ∀ t, t ∈ b → is_Some (type_name t) ∧ ∀ id, id ∈ refs t → ∃ k r, resolves b id k r.

Lemma type_by_id_in b id t : btf__type_by_id b id = Some t → t = BTF_VOID ∨ t ∈ b.
Proof.
  unfold btf__type_by_id. destruct (id =? 0); [by intros [= <-]; left|]. destruct (id <? 0); [done|].
  intros ?%list_elem_of_lookup_2. by right.
Qed.

Lemma type_by_id_named b id t : btf_valid b → btf__type_by_id b id = Some t → is_Some (type_name t).
Proof. intros Hb [->|Ht]%type_by_id_in; [cbn; eauto|by apply Hb]. Qed.

Lemma resolves_in b id k r : resolves b id k r → r = BTF_VOID ∨ r ∈ b.
Proof. induction 1; [by eapply type_by_id_in|done]. Qed.

Lemma resolves_lookup b id k r : resolves b id k r → is_Some (btf__type_by_id b id).
Proof. destruct 1; eauto. Qed.

Section valid.
Context (b : btf) (Hb : btf_valid b).

Lemma find_function_total types n k found :
  (∀ t, t ∈ types → t ∈ b) → is_Some (find_function types n k found).
Proof.
  revert k found. induction types as [|t types IH]; intros k found Hin; [cbn; eauto|].
  assert (∀ t', t' ∈ types → t' ∈ b) as Hin' by (intros t' ?; apply Hin; by right).
  destruct t as [| | | | | |name ty| | |]; try by apply IH.
  destruct (Hb (BTF_FUNC name ty)) as [[name' E] _]; [apply Hin; by left|]. cbn in E. subst name. cbn.
  destruct (String.prefix n name'); [|by apply IH]. destruct (_ =? _); [eauto|by apply IH].
Qed.

Lemma find_datasec_total types n :
  (∀ t, t ∈ types → t ∈ b) →
  ∃ o, find_datasec types n = Some o ∧
    ∀ vars v, o = Some vars → v ∈ vars → ∃ k r, resolves b v k r.
Proof.
  induction types as [|t types IH]; intros Hin; [by exists None|].
  assert (∀ t', t' ∈ types → t' ∈ b) as Hin' by (intros t' ?; apply Hin; by right).
  destruct t as [| | | | | | | |name vars|]; try by apply IH.
  destruct (Hb (BTF_DATASEC name vars)) as [[name' E] Hv]; [apply Hin; by left|]. cbn in E. subst name. cbn.
  destruct (streq name' n); [|by apply IH]. eexists. split; [done|]. intros vars' v [= <-]. apply Hv.
Qed.

Lemma section_var_total vars name kind :
  (∀ v, v ∈ vars → ∃ k r, resolves b v k r) →
  ∃ d, btf_get_section_var b vars name kind = Some d ∧
    match d with Ptr t => t = BTF_VOID ∨ t ∈ b | Null => False | ErrPtr _ => True end.
Proof.
  induction vars as [|v vars IH]; intros Hv; [by eexists|].
  destruct (Hv v) as (k & r & Hr); [by left|]. apply resolves_lookup in Hr as [var Evar].
  cbn. rewrite Evar. cbn. destruct (type_by_id_named _ _ _ Hb Evar) as [n En]. rewrite En. cbn.
  destruct (streq n name); cbn; [|apply IH; intros v' ?; apply Hv; by right].
  destruct var as [| | | | | | |n' ty linkage| |]; try by eexists.
  destruct (_ && _); [by eexists|].
  apply type_by_id_in in Evar as [?|Hin]; [done|]. destruct (proj2 (Hb _ Hin) ty) as (k' & d & Hd); [by left|].
  rewrite (skip_mods_resolves _ _ _ _ Hd). cbn. destruct (_ =? _); cbn; [|by eexists].
  eexists. split; [done|]. by eapply resolves_in.
Qed.

Lemma parse_members_total ms p :
  (∀ m, m ∈ ms → ∃ k r, resolves b (m_type m) k r) → is_Some (parse_members b ms p).
Proof.
  revert p. induction ms as [|m ms IH]; intros p Hms; [cbn; eauto|].
  assert (∀ m', m' ∈ ms → ∃ k r, resolves b (m_type m') k r) as Hms' by (intros m' ?; apply Hms; by right).
  destruct (Hms m) as (k & r & Hr%skip_mods_resolves); [by left|].
  cbn [parse_members]. destruct (m_name m) as [n|]; [|eauto]. rewrite Hr. cbn [mbind option_bind].
  destruct (streq n "priority"); [destruct (get_field_int b r); [by apply IH|eauto]|].
  destruct (get_xdp_action n) as [act|]; [|eauto]. destruct (get_field_int b r) as [val|]; [|eauto].
  cbn [xdp_program__set_chain_call_enabled]. destruct (_ || _); cbn [snd]; by apply IH.
Qed.

Lemma check_xdp_prog_version_total name : is_Some (check_xdp_prog_version b name).
Proof.
  unfold check_xdp_prog_version. cbn [btf_get_datasec].
  destruct (find_datasec_total b XDP_METADATA_SECTION) as ([vars|] & -> & Hv); [done| |cbn; eauto].
  cbn [mbind option_bind]. destruct (section_var_total vars name BTF_KIND_PTR) as (d & -> & Hd); [by eauto|].
  cbn [mbind option_bind]. destruct d; [done|eauto..].
Qed.
End valid.

(** Its errors are not 0. *)
Lemma section_var_err b vars name kind e : btf_get_section_var b vars name kind = Some (ErrPtr e) → e ≠ 0.
Proof.
  induction vars as [|v vars IH]; cbn; [by intros [= <-]|].
  destruct (btf__type_by_id b v) as [var|]; [|done]. cbn. destruct (type_name var) as [n|]; [|done]. cbn.
  destruct (streq n name); cbn; [|done]. destruct var as [| | | | | | |n' ty linkage| |]; try by intros [= <-].
  destruct (_ && _); [by intros [= <-]|]. destruct (skip_mods_and_typedefs b ty) as [d|]; [|done]. cbn.
  destruct (negb _); [by intros [= <-]|done].
Qed.
Lemma check_xdp_prog_version_err b name e : check_xdp_prog_version b name = Some (inl e) → e ≠ 0.
Proof.
  unfold check_xdp_prog_version. destruct (btf_get_datasec _ _) as [[vars|]|]; [|by intros [= <-]|done]. cbn.
  destruct (btf_get_section_var _ _ _ _) as [d|] eqn:E; [|done]. cbn. destruct d as [|e'|d]; [done| |].
  - intros [= <-]. by eapply section_var_err.
  - destruct (get_field_int _ _); [done|by intros [= <-]].
Qed.

(** Reading the run configuration from valid type information always ends. *)
Lemma parse_btf_total own strdup p b :
  (∀ b', own = Some b' ∨ b = Some b' → btf_valid b') → is_Some (xdp_program__parse_btf own strdup p b).
Proof.
  intros Hv. unfold xdp_program__parse_btf.
  set (b0 := match b with Some _ => b | None => own end).
  assert (∀ b', b0 = Some b' → btf_valid b') as Hb0 by (intros b' E; apply Hv; unfold b0 in E; destruct b; auto).
  assert (is_Some (expand_name b0 strdup p)) as [[e p'] ->].
  { unfold expand_name. destruct (_ <=? _); [|eauto]. destruct b0 as [b'|]; [|cbn; eauto].
    destruct (find_function_total b' (Hb0 _ eq_refl) b' (xdp_program.prog_name p) 0 None) as [o Ho]; [done|].
    cbn. rewrite Ho. cbn. eauto. }
  cbn [mbind option_bind]. destruct (negb _); [eauto|]. destruct (_ <=? _); [eauto|].
  destruct b0 as [b'|]; [|cbn; eauto]. specialize (Hb0 _ eq_refl).
  cbn [btf_get_datasec]. destruct (find_datasec_total b' Hb0 b' XDP_RUN_CONFIG_SEC) as ([vars|] & -> & Hvars); [done| |cbn; eauto].
  cbn [mbind option_bind].
  destruct (section_var_total b' Hb0 vars ("_" +:+ xdp_program.prog_name p') BTF_KIND_STRUCT) as (d & -> & Hd); [by eauto|].
  cbn [mbind option_bind]. destruct d as [|e'|t]; [done|eauto|]. destruct t as [| | |sn members| | | | | |]; eauto.
  destruct Hd as [?|Hin]; [done|]. apply (parse_members_total b'). intros m Hm.
  apply (proj2 (Hb0 _ Hin)). cbn. by apply list_elem_of_fmap_2.
Qed.

(** ** What type information declares *)

(** The names of the functions, and the full name of a program whose name the
    kernel may have cut: the name itself when it is short or a function has it,
    the only function that starts with it, or the name as it is. *)
Definition func_name (t : btf_type) : option (option string) :=
  match t with BTF_FUNC n _ => Some n | _ => None end.
Definition func_names (b : btf) : list string := omap (λ t, func_name t ≫= id) b.
Definition funcs_named (b : btf) : Prop := Forall (λ t, func_name t ≠ Some None) b.

Definition completions (b : btf) (n : string) : list string :=
  filter (λ f, String.prefix n f = true) (func_names b).
Definition full_name (b : btf) (n : string) : string :=
  if strlen n <? 15 then n
  else if decide (n ∈ func_names b) then n
  else match completions b n with [f] => f | _ => n end.

(** The member [m] declares the field [f]: a pointer, behind modifiers and type
    definitions, to an array of as many elements as the value. *)
Definition field_at (b : btf) (m : btf_member) (f : string * Z) : Prop :=
  m_name m = Some f.1 ∧ ∃ k n ty n' aty, resolves b (m_type m) k (BTF_PTR n ty) ∧
    btf__type_by_id b ty = Some (BTF_ARRAY n' aty f.2).

Definition other_section (t : btf_type) : Prop :=
  match t with BTF_DATASEC n _ => ∃ s, n = Some s ∧ s ≠ XDP_RUN_CONFIG_SEC | _ => True end.
Definition other_var (b : btf) (name : string) (v : Z) : Prop :=
  ∃ t n, btf__type_by_id b v = Some t ∧ type_name t = Some n ∧ n ≠ name.

(** The first run-configuration section holds a variable with the program's name
    after an underscore, of a structure type with the given fields. *)
Definition declares (b : btf) (name : string) (fields : list (string * Z)) : Prop :=
  ∃ types1 types2 before v after ty linkage sn members,
    b = types1 ++ BTF_DATASEC (Some XDP_RUN_CONFIG_SEC) (before ++ v :: after) :: types2 ∧
    Forall other_section types1 ∧ Forall (other_var b ("_" +:+ name)) before ∧
    btf__type_by_id b v = Some (BTF_VAR (Some ("_" +:+ name)) ty linkage) ∧
    (linkage = BTF_VAR_STATIC ∨ linkage = BTF_VAR_GLOBAL_ALLOCATED) ∧
    (∃ k, resolves b ty k (BTF_STRUCT sn members)) ∧
    Forall2 (field_at b) members fields.

(** The value given last to a name. *)
Fixpoint last_value (name : string) (fields : list (string * Z)) : option Z :=
  match fields with
  | [] => None
  | f :: fields =>
      match last_value name fields with
      | Some v => Some v
      | None => if streq f.1 name then Some f.2 else None
      end
  end.

Definition known_field (f : string * Z) : Prop :=
  f.1 = "priority"%string ∨ f.1 ∈ xdp_action_names.

(** ** The search finds what is declared *)

Lemma streq_refl s : streq s s = true.
Proof. by apply bool_decide_eq_true. Qed.

Lemma streq_ne s t : s ≠ t → streq s t = false.
Proof. by intros; apply bool_decide_eq_false. Qed.

Lemma prefix_same_length n m : String.prefix n m = true → strlen m = strlen n → m = n.
Proof.
  unfold strlen. revert m. induction n as [|c n IH]; intros [|d m]; simpl; try done; [lia..|].
  destruct (ascii_dec c d) as [->|]; [|done]. intros Hp Hl. f_equal. apply IH; [done|]. lia.
Qed.

Lemma prefix_refl n : String.prefix n n = true.
Proof. induction n as [|c n IH]; simpl; [done|]. by destruct (ascii_dec c c). Qed.

Lemma elem_of_other {A} (x y : A) l : y ≠ x → x ∈ y :: l ↔ x ∈ l.
Proof. intros Hne. rewrite elem_of_cons. split; [intros [->|?]; done|by right]. Qed.

Lemma find_function_spec types n k found :
  funcs_named types →
  find_function types n k found =
    Some (if decide (n ∈ func_names types) then Some n
          else if k + length (completions types n) =? 1 then
            match completions types n with [] => found | l => last l end
          else None).
Proof.
  unfold completions. intros Hn. revert k found.
  induction Hn as [|t types Ht Hn IH]; intros k found; simpl.
  { by rewrite Z.add_0_r. }
  destruct t as [| | | | | |name ty| | |]; simpl in *; try apply IH.
  destruct name as [name|]; [|done]. simpl. rewrite filter_cons.
  destruct (String.prefix n name) eqn:Hp.
  - rewrite (decide_True _ _ eq_refl). destruct (Z.eqb_spec (strlen name) (strlen n)) as [Hl|Hl].
    { apply prefix_same_length in Hp as ->; [|done]. by rewrite decide_True by left. }
    assert (name ≠ n) by congruence. rewrite IH. simpl length.
    rewrite (decide_ext (n ∈ name :: _) (n ∈ func_names types)) by by apply elem_of_other.
    replace (k + S (length (filter (λ f, String.prefix n f = true) (func_names types))))
      with (k + 1 + length (filter (λ f, String.prefix n f = true) (func_names types))) by lia.
    by destruct (filter _ (func_names types)).
  - rewrite (decide_False (P := false = true)) by done. rewrite IH. assert (name ≠ n).
    { intros ->. by rewrite prefix_refl in Hp. }
    by rewrite (decide_ext (n ∈ name :: _) (n ∈ func_names types)) by by apply elem_of_other.
Qed.

Lemma set_name_id p : set_name p (xdp_program.prog_name p) = p.
Proof. by destruct p. Qed.

Lemma expand_name_spec b p :
  funcs_named b → expand_name (Some b) true p = Some (0, set_name p (full_name b (xdp_program.prog_name p))).
Proof.
  intros Hn. unfold expand_name, full_name, BPF_OBJ_NAME_LEN. change (16 - 1) with 15.
  rewrite Z.leb_antisym. destruct (strlen _ <? 15); cbn [negb]; [by rewrite set_name_id|].
  cbn [btf_get_function]. rewrite find_function_spec by done. cbn [mbind option_bind]. case_decide; [done|].
  destruct (completions b _) as [|f [|f' l]]; cbn [length last]; rewrite ?set_name_id; try done.
  destruct (Z.eqb_spec (0 + S (S (length l))) 1); [lia|done].
Qed.

Lemma find_datasec_spec types1 types2 vars :
  Forall other_section types1 →
  find_datasec (types1 ++ BTF_DATASEC (Some XDP_RUN_CONFIG_SEC) vars :: types2) XDP_RUN_CONFIG_SEC =
    Some (Some vars).
Proof.
  induction 1 as [|t types1 Ht _ IH]; [done|]. destruct t as [| | | | | | | |name vs|]; simpl in *; try apply IH.
  destruct Ht as (s & -> & Hs). by rewrite streq_ne.
Qed.

Lemma section_var_spec b before v after name ty linkage sn members :
  Forall (other_var b name) before →
  btf__type_by_id b v = Some (BTF_VAR (Some name) ty linkage) →
  linkage = BTF_VAR_STATIC ∨ linkage = BTF_VAR_GLOBAL_ALLOCATED →
  skip_mods_and_typedefs b ty = Some (BTF_STRUCT sn members) →
  btf_get_section_var b (before ++ v :: after) name BTF_KIND_STRUCT = Some (Ptr (BTF_STRUCT sn members)).
Proof.
  intros Hb Hv Hl Hs. induction Hb as [|v' before (t & n & Ht & Hn & Hne) _ IH]; cbn [app btf_get_section_var].
  - rewrite Hv. simpl. rewrite streq_refl. simpl. rewrite Hs. by destruct Hl as [-> | ->].
  - rewrite Ht. simpl. rewrite Hn. simpl. by rewrite streq_ne.
Qed.

(** Setting an action takes effect on a program that is not loaded. *)
Lemma set_action p act val :
  0 ≤ act < 31 → ∃ acts, (xdp_program__set_chain_call_enabled (Ptr p) act val).2 =
      Ptr (set_run p (xdp_program.run_prio p) acts) ∧
    ∀ k, 0 ≤ k < 31 → Z.testbit acts k =
      if (xdp_program.prog_fd p <? 0) && (k =? act) then val
      else Z.testbit (xdp_program.chain_call_actions p) k.
Proof.
  intros Ha. destruct (Z.ltb_spec (xdp_program.prog_fd p) 0) as [Hfd|Hfd].
  - pose proof (λ k Hk, set_chain_call_bits p act val k Ha Hk Hfd) as Hbits. simpl in *.
    unfold XDP_DISPATCHER_RETVAL in *. rewrite (proj2 (Z.leb_gt 0 _)), (proj2 (Z.leb_gt 31 _)) in * by lia.
    simpl in *. eexists. split; [done|]. intros k Hk.
    destruct (Hbits k) as (p' & [= <-] & _ & _ & E); [lia|]. simpl in E. rewrite E.
    destruct (Z.eqb_spec k act); by case_decide.
  - exists (xdp_program.chain_call_actions p). simpl.
    rewrite (proj2 (Z.leb_le 0 _)) by lia. simpl. split; [by destruct p|done].
Qed.

(** The names of the actions are distinct, none is [priority]. *)
Lemma action_name_spec n :
  n ∈ xdp_action_names →
  streq n "priority" = false ∧
  ∃ act, 0 ≤ act < 5 ∧ get_xdp_action n = Some act ∧
    ∀ a n', xdp_action_names !! Z.to_nat a = Some n' → 0 ≤ a → (a =? act) = streq n n'.
Proof.
  intros Hn. unfold xdp_action_names in *. rewrite !elem_of_cons in Hn.
  assert (∀ act, 0 ≤ act < 5 → xdp_action_names !! Z.to_nat act = Some n →
    ∀ a n', xdp_action_names !! Z.to_nat a = Some n' → 0 ≤ a → (a =? act) = streq n n') as Hu.
  { intros act Hact Hi a n' Hj Ha. destruct (Z.eqb_spec a act) as [->|Hne].
    - rewrite Hi in Hj. injection Hj as ->. by rewrite streq_refl.
    - rewrite streq_ne; [done|]. intros ->.
      assert (NoDup xdp_action_names) as Hd by (apply (bool_decide_unpack _); vm_compute; exact I).
      pose proof (NoDup_lookup _ _ _ _ Hd Hi Hj). lia. }
  destruct Hn as [->|[->|[->|[->|[->|[]%not_elem_of_nil]]]]];
    (split; [done|]); eexists; (split; [|split; [reflexivity|by apply Hu]]); done.
Qed.

Definition field_or {A} (o : option Z) (f : Z → A) (d : A) : A :=
  match o with Some v => f v | None => d end.

(** An action of a program after its fields were parsed. *)
Definition enabled_after (p : xdp_program.t) (fields : list (string * Z)) (a : Z) : bool :=
  let old := xdp_program__chain_call_enabled (Ptr p) a in
  match xdp_action_names !! Z.to_nat a with
  | Some n => if xdp_program.prog_fd p <? 0 then field_or (last_value n fields) (λ v, negb (v =? 0)) old else old
  | None => old
  end.

(** One field: the priority leaves the actions, an action sets its bit. *)
Lemma enabled_after_priority p f fields prio a :
  f.1 = "priority"%string →
  enabled_after (set_run p prio (xdp_program.chain_call_actions p)) fields a = enabled_after p (f :: fields) a.
Proof.
  intros Hf. unfold enabled_after. cbn [last_value]. rewrite Hf.
  change (xdp_program.prog_fd (set_run p prio _)) with (xdp_program.prog_fd p).
  change (xdp_program__chain_call_enabled (Ptr (set_run p prio _)) a)
    with (xdp_program__chain_call_enabled (Ptr p) a).
  destruct (xdp_action_names !! Z.to_nat a) as [n|] eqn:Hn; [|done].
  destruct (action_name_spec n (list_elem_of_lookup_2 _ _ _ Hn)) as [Hp%bool_decide_eq_false _].
  rewrite (streq_ne "priority" n) by congruence. by destruct (last_value n fields).
Qed.

Lemma enabled_after_action p f fields prio act acts a :
  0 ≤ a < 31 → 0 ≤ act < 5 →
  (∀ a n', xdp_action_names !! Z.to_nat a = Some n' → 0 ≤ a → (a =? act) = streq f.1 n') →
  (∀ k, 0 ≤ k < 31 → Z.testbit acts k =
      if (xdp_program.prog_fd p <? 0) && (k =? act) then negb (f.2 =? 0)
      else Z.testbit (xdp_program.chain_call_actions p) k) →
  enabled_after (set_run p prio acts) fields a = enabled_after p (f :: fields) a.
Proof.
  intros Ha Hact Hname Hbits. unfold enabled_after. cbn [last_value].
  change (xdp_program.prog_fd (set_run p prio _)) with (xdp_program.prog_fd p).
  rewrite !chain_call_enabled_bit by done.
  change (xdp_program.chain_call_actions (set_run p prio acts)) with acts. rewrite Hbits by done.
  destruct (xdp_action_names !! Z.to_nat a) as [n|] eqn:Hn.
  - rewrite (Hname a n) by (done || lia). destruct (xdp_program.prog_fd p <? 0); [|done].
    destruct (last_value n fields); [done|]. by destruct (streq f.1 n).
  - apply lookup_ge_None in Hn. change (length xdp_action_names) with 5%nat in Hn.
    destruct (Z.eqb_spec a act); [lia|]. by rewrite andb_false_r.
Qed.

Lemma parse_members_spec b members fields p :
  Forall2 (field_at b) members fields → Forall known_field fields →
  ∃ prio acts, parse_members b members p = Some (0, set_run p prio acts) ∧
    prio = field_or (last_value "priority" fields) (λ v, v) (xdp_program.run_prio p) ∧
    ∀ a, 0 ≤ a < 31 →
      xdp_program__chain_call_enabled (Ptr (set_run p prio acts)) a = enabled_after p fields a.
Proof.
  intros Hf Hk. revert p.
  induction Hf as [|m f members fields (Hn & k & nm & ty & nm' & aty & Hs%skip_mods_resolves & Ht) Hf IH]; intros p.
  { exists (xdp_program.run_prio p), (xdp_program.chain_call_actions p). cbn [parse_members].
    replace (set_run p _ _) with p by by destruct p. split_and!; [done|done|].
    intros a _. unfold enabled_after. destruct (xdp_action_names !! _); [|done].
    by destruct (xdp_program.prog_fd p <? 0). }
  apply Forall_cons in Hk as [Hk Hks]. cbn [parse_members]. rewrite Hn, Hs. cbn [mbind option_bind get_field_int].
  rewrite Ht. cbn [last_value]. destruct Hk as [Hk|Hk].
  - rewrite Hk, streq_refl.
    destruct (IH Hks (set_run p f.2 (xdp_program.chain_call_actions p))) as (prio & acts & -> & -> & He).
    do 2 eexists. split; [done|]. split; [by destruct (last_value _ fields)|].
    intros a Ha. rewrite <- enabled_after_priority with (prio := f.2) by done. by rewrite <- He.
  - destruct (action_name_spec _ Hk) as (Hp & act & Hact & -> & Hname). rewrite Hp.
    destruct (set_action p act (negb (f.2 =? 0))) as (acts1 & -> & Hbits); [lia|].
    destruct (IH Hks (set_run p (xdp_program.run_prio p) acts1)) as (prio & acts & -> & -> & He).
    do 2 eexists. split; [done|]. split; [by destruct (last_value _ fields)|].
    intros a Ha. by rewrite <- (enabled_after_action p f fields (xdp_program.run_prio p) act acts1 a), <- He.
Qed.

(** C18: Type information that declares a run configuration for the (completed)
    name of a program is read back: the priority is the last one given, and for
    a program that is not loaded every named action is enabled as its last value
    says and the others stay.  The actions of a program that is already loaded
    all stay as they were, whatever its type information says.  Nothing else of
    the program changes but its name. *)
Theorem parse_btf_reads_config (b : btf) (p : xdp_program.t) (own : option btf) (fields : list (string * Z))
    (Hnamed : funcs_named b)
    (Hlen : strlen (full_name b (xdp_program.prog_name p)) < 99)
    (Hdecl : declares b (full_name b (xdp_program.prog_name p)) fields)
    (Hknown : Forall known_field fields) :
  ∃ prio acts,
    xdp_program__parse_btf own true p (Some b) =
      Some (0, set_run (set_name p (full_name b (xdp_program.prog_name p))) prio acts) ∧
    prio = field_or (last_value "priority" fields) (λ v, v) (xdp_program.run_prio p) ∧
    ∀ a, 0 ≤ a < 31 →
      xdp_program__chain_call_enabled (Ptr (set_run p prio acts)) a =
      match xdp_action_names !! Z.to_nat a with
      | Some n =>
          if xdp_program.prog_fd p <? 0
          then field_or (last_value n fields) (λ v, negb (v =? 0)) (xdp_program__chain_call_enabled (Ptr p) a)
          else xdp_program__chain_call_enabled (Ptr p) a
      | None => xdp_program__chain_call_enabled (Ptr p) a
      end.
Proof.
  unfold xdp_program__parse_btf. rewrite expand_name_spec by done.
  set (n := full_name b (xdp_program.prog_name p)) in *. cbn [mbind option_bind negb Z.eqb].
  change (xdp_program.prog_name (set_name p n)) with n.
  rewrite (proj2 (Z.leb_gt _ _)) by lia.
  destruct Hdecl as (t1 & t2 & before & v & after & ty & linkage & sn & members & Hb & H1 & H2 & H3 & H4 & (k & H5%skip_mods_resolves) & H6).
  assert (btf_get_datasec (Some b) XDP_RUN_CONFIG_SEC = Some (Some (before ++ v :: after))) as ->.
  { rewrite Hb. by apply find_datasec_spec. }
  cbn [mbind option_bind].
  rewrite (section_var_spec b before v after _ ty linkage sn members) by done. cbn [mbind option_bind].
  destruct (parse_members_spec b members fields (set_name p n) H6 Hknown) as (prio & acts & -> & Hprio & Hacts).
  exists prio, acts. split; [done|]. split; [exact Hprio|]. intros a Ha. exact (Hacts a Ha).
Qed.

(** The name of a type without one. *)
Definition no_name : option string := Some EmptyString.
(** Two programs in one section, the first with a name cut by the kernel.  The
    function [xdp_filter_packets_v4] was loaded as [xdp_filter_pack]. *)
Definition sample_btf : btf :=
  [BTF_OTHER 1 (Some "int"%string);
   BTF_ARRAY no_name 1 10; BTF_PTR no_name 2;
   BTF_ARRAY no_name 1 1; BTF_PTR no_name 4;
   BTF_ARRAY no_name 1 0; BTF_MOD CONST no_name 8; BTF_PTR no_name 6;
   BTF_STRUCT (Some ""%string) [mk_member (Some "priority"%string) 3; mk_member (Some "XDP_DROP"%string) 5;
                                mk_member (Some "XDP_PASS"%string) 7];
   BTF_VAR (Some "_xdp_other"%string) 9 1;
   BTF_TYPEDEF (Some "config_t"%string) 9;
   BTF_VAR (Some "_xdp_filter_packets_v4"%string) 11 0;
   BTF_FUNC (Some "xdp_filter_packets_v4"%string) 1; BTF_FUNC (Some "xdp_other"%string) 1;
   BTF_DATASEC (Some ".maps"%string) [];
   BTF_DATASEC (Some ".xdp_run_config"%string) [10; 12]].
Definition sample_fields : list (string * Z) :=
  [("priority", 10); ("XDP_DROP", 1); ("XDP_PASS", 0)]%string.
Definition sample_prog (fd : Z) : xdp_program.t :=
  xdp_program.mk None false true fd (-1) "xdp_filter_pack" [] 7 0 false 50 4.

Lemma sample_declares : declares sample_btf "xdp_filter_packets_v4" sample_fields.
Proof.
  exists (take 15 sample_btf), [], [10], 12, [], 11, 0. do 2 eexists.
  split; [reflexivity|]. split; [repeat constructor|]; [by eexists|].
  split; [repeat constructor; by do 2 eexists|].
  split; [reflexivity|]. split; [by left|].
  split; [eexists; eapply resolves_step; [reflexivity..|]; by apply resolves_here|].
  repeat (apply Forall2_cons; split; [split; [reflexivity|]; do 5 eexists; split;
    [first [by apply resolves_here | by eapply resolves_step; [..|apply resolves_here]]|reflexivity]|]).
  by apply Forall2_nil.
Qed.

(** The program not yet loaded gets priority 10 and continues on [XDP_DROP] only;
    the loaded one gets the priority and keeps the actions it had. *)
Lemma parse_btf_reads_config_witness :
  (funcs_named sample_btf ∧ strlen (full_name sample_btf "xdp_filter_pack") < 99 ∧
   declares sample_btf (full_name sample_btf "xdp_filter_pack") sample_fields ∧
   Forall known_field sample_fields) ∧
  xdp_program__parse_btf None true (sample_prog (-1)) (Some sample_btf) =
    Some (0, set_run (set_name (sample_prog (-1)) "xdp_filter_packets_v4") 10 2) ∧
  xdp_program__parse_btf None true (sample_prog 5) (Some sample_btf) =
    Some (0, set_run (set_name (sample_prog 5) "xdp_filter_packets_v4") 10 4) ∧
  ∃ acts, xdp_program__parse_btf None true (sample_prog (-1)) (Some sample_btf) =
      Some (0, set_run (set_name (sample_prog (-1)) "xdp_filter_packets_v4") 10 acts) ∧
    xdp_program__chain_call_enabled (Ptr (set_run (sample_prog (-1)) 10 acts)) 1 = true ∧
    xdp_program__chain_call_enabled (Ptr (set_run (sample_prog (-1)) 10 acts)) 2 = false.
Proof.
  assert (funcs_named sample_btf) as Hn by (repeat constructor; discriminate).
  assert (strlen (full_name sample_btf "xdp_filter_pack") < 99) as Hl by (vm_compute; reflexivity).
  assert (declares sample_btf (full_name sample_btf "xdp_filter_pack") sample_fields) as Hd
    by exact sample_declares.
  assert (Forall known_field sample_fields) as Hk.
  { repeat (apply Forall_cons; split;
      [first [by left | right; apply (bool_decide_unpack _); vm_compute; exact I]|]). by apply Forall_nil. }
  split; [exact (conj Hn (conj Hl (conj Hd Hk)))|].
  split; [vm_compute; reflexivity|]. split; [vm_compute; reflexivity|].
  destruct (parse_btf_reads_config sample_btf (sample_prog (-1)) None sample_fields Hn Hl Hd Hk)
    as (prio & acts & E & Hprio & Hacts).
  vm_compute in Hprio. subst prio. exists acts. split; [exact E|]. split.
  - rewrite Hacts by lia. vm_compute. reflexivity.
  - rewrite Hacts by lia. vm_compute. reflexivity.
Defined.
