(* ===== verification/BtfView.v ===== *)
(** * Type information: from bytes to the list that libxdp searches

    [RunConfig] and [Multiprog] search a list of types with resolved names.  Here
    is that list for an object of [Btf], which holds bytes; looking up a type by
    its identifier or by name and kind gives the same for both. *)

From S2P Require Import RunConfig.
From S2P Require Import Prelude CString Errno Bytes Hashmap Strset Heap Btf BtfSpec BtfTypes.
Local Open Scope Z_scope.

(** Bytes as a string. *)
Definition string_of (l : list Z) : string := String.string_of_list_ascii ((λ c, ascii_of_nat (Z.to_nat c)) <$> l).

Lemma string_of_inj l l' : bytes_ok l → bytes_ok l' → string_of l = string_of l' → l = l'.
Proof.
  unfold string_of. intros Hl Hl' E. apply (f_equal String.list_ascii_of_string) in E. rewrite !String.list_ascii_of_string_of_list_ascii in E.
  revert l' Hl' E. induction Hl as [|c l Hc _ IH]; intros [|c' l'] Hl' E; try done. injection E as E1 E2. apply Forall_cons in Hl' as [Hc' Hl'].
  f_equal; [|by apply IH]. apply (f_equal nat_of_ascii) in E1. unfold is_word in *. change (2 ^ 8) with 256 in *. rewrite !nat_ascii_embedding in E1 by lia. lia.
Qed.
Lemma string_of_bytes s : string_of (bytes_of s) = s.
Proof.
  unfold string_of, bytes_of. rewrite <- list_fmap_compose. rewrite <- (String.string_of_list_ascii_of_string s) at 2. f_equal.
  rewrite <- (list_fmap_id (String.list_ascii_of_string s)) at 2. apply list_fmap_ext. intros _ c _. cbn. by rewrite Nat2Z.id, ascii_nat_embedding.
Qed.

Section view.
Context (b : btf).

Definition name_of (off : Z) : option string := match name_at b off with Some (Some s) => Some (string_of s) | _ => None end.
Definition word (w : ty) (i : nat) : Z := default 0 (w !! i).

(** The type that some words describe. *)
Definition view_of (t : btf_type) (w : ty) : RunConfig.btf_type :=
  let name := name_of (name_off t) in
  let each {A} (f : nat → A) : list A := f <$> seq 0 (Z.to_nat (btf_vlen t)) in
  match btf_kind t with
  | Some BTF_KIND_PTR => RunConfig.BTF_PTR name (size_type t)
  | Some BTF_KIND_ARRAY => RunConfig.BTF_ARRAY name (word w 3) (word w 5)
  | Some BTF_KIND_STRUCT => RunConfig.BTF_STRUCT name (each (λ i, RunConfig.mk_member (name_of (word w (3 + 3 * i))) (word w (3 + 3 * i + 1))))
  | Some BTF_KIND_TYPEDEF => RunConfig.BTF_TYPEDEF name (size_type t)
  | Some BTF_KIND_VOLATILE => RunConfig.BTF_MOD RunConfig.VOLATILE name (size_type t)
  | Some BTF_KIND_CONST => RunConfig.BTF_MOD RunConfig.CONST name (size_type t)
  | Some BTF_KIND_RESTRICT => RunConfig.BTF_MOD RunConfig.RESTRICT name (size_type t)
  | Some BTF_KIND_TYPE_TAG => RunConfig.BTF_MOD RunConfig.TYPE_TAG name (size_type t)
  | Some BTF_KIND_FUNC => RunConfig.BTF_FUNC name (size_type t)
  | Some BTF_KIND_VAR => RunConfig.BTF_VAR name (size_type t) (word w 3)
  | Some BTF_KIND_DATASEC => RunConfig.BTF_DATASEC name (each (λ i, word w (3 + 3 * i)))
  | _ => RunConfig.BTF_OTHER (kind_no t) name
  end.
Definition view_type (w : ty) : RunConfig.btf_type := view_of (mk_type (word w 0) (word w 1) (word w 2)) w.
Definition view (ts : list ty) : list RunConfig.btf_type := view_type <$> ts.

Lemma view_head w t rest : w = name_off t :: info t :: size_type t :: rest → 0 ≤ btf_type_size t →
  RunConfig.btf_kind (view_type w) = kind_no t ∧ RunConfig.type_name (view_type w) = name_of (name_off t).
Proof.
  intros -> Hs. assert (view_type (name_off t :: info t :: size_type t :: rest) = view_of t (name_off t :: info t :: size_type t :: rest)) as -> by (by destruct t).
  generalize (name_off t :: info t :: size_type t :: rest). intros w. unfold btf_type_size in Hs. unfold view_of. unfold btf_kind in *.
  assert (0 ≤ kind_no t) as Hk by (unfold kind_no; apply Z.land_nonneg; by right). revert Hs Hk. generalize (kind_no t). intros k0 Hs Hk.
  rewrite <- (Z2Nat.id k0 Hk). revert Hs. rewrite Nat2Z.id. generalize (Z.to_nat k0). clear k0 Hk. intros k Hs.
  do 20 (destruct k as [|k]; [cbn in Hs |- *; try lia; by split|]). assert (0 ≤ -22) by exact Hs. lia.
Qed.
End view.

(** Names that are read are bytes. *)
Definition strs_bytes (b : btf) : Prop := ∀ off s, name_at b off = Some (Some s) → bytes_ok s.

Section agree.
Context (b : btf) (ts : list ty) (Hm : models b ts) (Hl : 1 + length ts < 2 ^ 32) (Hs : strs_bytes b).

Lemma find_name_agrees n (i : nat) name k : (i + n = length ts)%nat →
  find_name n b (1 + i) (Some k) (bytes_of name) = Some (RunConfig.find_by_name_kind (view b (drop i ts)) (1 + i) name k).
Proof.
  revert i. induction n as [|n IH]; intros i Hi.
  { by rewrite drop_ge by lia. }
  destruct (type_in b ts (1 + i) Hm Hl ltac:(lia)) as (w & p & t & rest & Ew & Ep & Hp & Hw & E & Et & Wn & _).
  unfold at_id in Ew. rewrite (proj2 (Z.leb_gt _ _)) in Ew by lia. replace (Z.to_nat (1 + i - 1)) with i in Ew by lia.
  rewrite (drop_S _ _ _ Ew). cbn [find_name RunConfig.find_by_name_kind view fmap list_fmap]. rewrite Ep. cbn [mbind option_bind]. rewrite Et. cbn [mbind option_bind].
  pose proof Hw as Hw'. rewrite E in Hw'. apply ty_ok_inv in Hw' as [Hsz _]. destruct (view_head b w t rest E Hsz) as [Ek En]. rewrite Ek.
  replace (1 + i + 1) with (1 + S i) by lia. specialize (IH (S i) ltac:(lia)). destruct (Z.eqb_spec (kind_no t) k) as [Ekk|Hne].
  - rewrite bool_decide_eq_true_2 by (right; congruence). destruct (name_at_total b ts (name_off t) Hm) as [nm Enm]; [unfold is_word in Wn; lia|].
    rewrite Enm. cbn [mbind option_bind andb]. rewrite En. unfold name_of. rewrite Enm.
    assert ((match nm with Some s => Some (string_of s) | None => None end = Some name) ↔ nm = Some (bytes_of name)) as Hiff.
    { destruct nm as [s|]; [|split; done]. split; [intros [= Es]|intros [= ->]; by rewrite string_of_bytes].
      f_equal. apply string_of_inj; [by eapply Hs|apply bytes_of_ok|by rewrite string_of_bytes]. }
    rewrite (bool_decide_ext _ _ Hiff). case_bool_decide; [done|exact IH].
  - rewrite bool_decide_eq_false_2 by (intros [?|[= ?]]; congruence). exact IH.
Qed.

(** C27: looking up a name and a kind, whichever it is, in type information that is
    given as bytes finds the same type as the search in the list of types that
    libxdp's functions are described on; and so does looking up an identifier. *)
Theorem find_by_name_kind_agrees name k id : is_word 32 id →
  btf__find_by_name_kind b (bytes_of name) k = Some (RunConfig.btf__find_by_name_kind (view b ts) name k) ∧
  match RunConfig.btf__type_by_id (view b ts) id with
  | None => btf__type_by_id b id = Some (inl EINVAL)
  | Some t => ∃ p, btf__type_by_id b id = Some (inr p) ∧ (p = VoidPtr ∧ t = RunConfig.BTF_VOID ∨ ∃ w, points p w ∧ t = view_type b w)
  end.
Proof.
  intros Hid. split.
  - unfold btf__find_by_name_kind, btf_find_by_name_kind, RunConfig.btf__find_by_name_kind. destruct (models_cnt b ts Hm Hl) as (-> & _).
    destruct (k =? 0); [done|]. cbn [orb]. unfold streq.
    assert (bytes_of name = void_name ↔ name = "void"%string) as Hiff.
    { split; [|by intros ->]. intros E. by rewrite <- (string_of_bytes name), E. }
    rewrite (bool_decide_ext _ _ Hiff). case_bool_decide; [done|]. replace (Z.to_nat (1 + length ts - 1)) with (length ts) by lia. exact (find_name_agrees (length ts) 0 name k eq_refl).
  - unfold RunConfig.btf__type_by_id. destruct (type_by_id_cases b ts id Hm Hl ltac:(unfold is_word in Hid; lia)) as [[-> E]|[(w & p & Ew & Hw & E & Hp)|(Ew & H0 & E)]].
    + cbn. exists VoidPtr. split; [done|by left].
    + unfold at_id in Ew. destruct (Z.leb_spec id 0); [done|]. rewrite (proj2 (Z.eqb_neq _ _)), (proj2 (Z.ltb_ge _ _)) by lia. unfold view. rewrite list_lookup_fmap, Ew.
      cbn. exists p. split; [done|]. right. by exists w.
    + unfold at_id in Ew. unfold is_word in Hid. rewrite (proj2 (Z.leb_gt _ _)) in Ew by lia. rewrite (proj2 (Z.eqb_neq _ _)), (proj2 (Z.ltb_ge _ _)) by lia. unfold view. by rewrite list_lookup_fmap, Ew.
Qed.
End agree.

Lemma cstr_bytes l s : bytes_ok l → cstr l = Some s → bytes_ok s.
Proof.
  intros Hl. revert s. induction Hl as [|c l Hc _ IH]; intros s; [done|]. cbn. destruct (c =? 0); [by intros [= <-]|].
  destruct (cstr l) as [s'|]; [|done]. intros [= <-]. apply Forall_cons. split; [done|by apply IH].
Qed.
(** Names are bytes when the data is, of an object and of the one below it. *)
Lemma strs_bytes_data b : (∀ base, base_btf b = Some base → strs_bytes base) → (∀ m o, btf_strs_data b = Some (m, o) → bytes_ok m) → strs_bytes b.
Proof.
  intros Hbase Hown off s. unfold name_at, btf__name_by_offset. rewrite str_by_offset_eq. destruct (off <? start_str_off b).
  { destruct (base_btf b) as [base|] eqn:Eb; [|done]. exact (Hbase base eq_refl off s). }
  destruct (hdr_of b) as [h|]; [|done]. cbn [mbind option_bind]. destruct (_ <? _); [|done]. destruct (btf_strs_data b) as [[m o]|] eqn:Em; [|done]. cbn [mbind option_bind].
  unfold read_str. destruct (0 <=? _); [|done]. destruct (cstr _) as [s'|] eqn:Ec; [|done]. intros [= <-]. eapply cstr_bytes; [|exact Ec]. apply Forall_drop. by eapply Hown.
Qed.

Lemma find_by_name_kind_agrees_witness : is_word 32 3 ∧
  btf__find_by_name_kind demo_btf (bytes_of "s") 4 = Some (RunConfig.btf__find_by_name_kind (view demo_btf demo_types) "s" 4) ∧
  match RunConfig.btf__type_by_id (view demo_btf demo_types) 3 with
  | None => btf__type_by_id demo_btf 3 = Some (inl EINVAL)
  | Some t => ∃ p, btf__type_by_id demo_btf 3 = Some (inr p) ∧ (p = VoidPtr ∧ t = RunConfig.BTF_VOID ∨ ∃ w, points p w ∧ t = view_type demo_btf w)
  end.
Proof.
  split; [by split|]. apply (find_by_name_kind_agrees demo_btf demo_types).
  - exact demo_models.
  - vm_compute. reflexivity.
  - apply strs_bytes_data; [done|]. intros m o [= <- _]. apply (bool_decide_unpack _). vm_compute. exact I.
  - by split.
Defined.
Example demo_found : RunConfig.btf__find_by_name_kind (view demo_btf demo_types) "s" 4 = 3.
Proof. vm_compute. reflexivity. Qed.
