(* ===== verification/Open.v ===== *)
(** * libxdp: opening programs

    The ways of [lib/libxdp/libxdp.c] to get a program object from an object
    file: [xdp_program__create_from_obj], [xdp_program__from_bpf_obj],
    [xdp_program__open_file], the search for object files of
    [xdp_program__find_file], [xdp_program__close], and the choice between all
    sources in [xdp_program__create].

    The state is the objects that libbpf has open; reading an object file is an
    argument, as are the answers of the file system and of [malloc].  Closing an
    object that is not open is a fault. *)

From S2P Require Import Prelude CString Errno Params Libxdp RunConfig Pin.
Local Open Scope Z_scope.

(** What is used of [struct bpf_program] and [struct bpf_object] of libbpf. *)
Record program := mk_program {
  p_name : string; p_section : string; p_subprog : bool; p_bpf : bpf_program.t }.
Record bpf_object := mk_object { programs : list program; object_btf : option btf }.

(** The first entry point with a property: [bpf_object__for_each_program] passes
    over the functions that only other programs call. *)
Fixpoint first_program (f : program → bool) (ps : list program) : option program :=
  match ps with
  | [] => None
  | p :: ps => if negb (p_subprog p) && f p then Some p else first_program f ps
  end.

Definition bpf_program_by_section_name (o : bpf_object) (section_name : string) : option program :=
  first_program (λ p, streq (p_section p) section_name) (programs o).
Definition bpf_object__find_program_by_name (o : bpf_object) (name : string) : option program :=
  first_program (λ p, streq (p_name p) name) (programs o).
Definition bpf_object__next_program (o : bpf_object) : option program :=
  first_program (λ _, true) (programs o).

(** A program object with the object it was taken from, and whether that belongs
    to the caller. *)
Record opened := mk_opened { base : xdp_program.t; bpf_obj : option nat; from_external_obj : bool }.

Record world := mk_world { objects : gmap nat bpf_object; allocs : nat }.
Definition M (A : Type) : Type := Prelude.prog world A.

Section open.
Context (malloc_ok : nat → bool) (bpf_object__open_file : string → Z + bpf_object)
  (embedded : string → option (Z + bpf_object)) (stat_ok : string → bool)
  (secure_getenv : option string) (bpf_obj_paths : list string).

Definition alloc : M bool := λ w, Some (malloc_ok (allocs w), mk_world (objects w) (S (allocs w))).
Definition obj_deref (a : nat) : M bpf_object := λ w,
  match objects w !! a with Some o => Some (o, w) | None => None end.
Definition obj_open (o : bpf_object) : M nat := λ w,
  let a := fresh (dom (objects w)) in Some (a, mk_world (<[a := o]> (objects w)) (allocs w)).
Definition bpf_object__close (a : nat) : M () := λ w,
  match objects w !! a with
  | Some _ => Some ((), mk_world (delete a (objects w)) (allocs w))
  | None => None
  end.

(** The program is released, and its object unless it is the caller's. *)
Definition xdp_program__close (p : opened) : M () :=
  if from_external_obj p then pret ()
  else match bpf_obj p with Some a => bpf_object__close a | None => pret () end.

Definition xdp_program__create_from_obj (obj : option nat) (section_name prog_name : option string)
    (external : bool) : M (Z + opened) :=
  match obj with
  | None => pret (inl (- EINVAL))
  | Some a =>
    if bool_decide (is_Some section_name) && bool_decide (is_Some prog_name) then pret (inl (- EINVAL))
    else
      let! o := obj_deref a in
      let found := match section_name, prog_name with
                   | Some s, _ => bpf_program_by_section_name o s
                   | None, Some n => bpf_object__find_program_by_name o n
                   | None, None => bpf_object__next_program o
                   end in
      match found with
      | None => pret (inl (- ENOENT))
      | Some bp =>
        let! ok := alloc in
        if negb ok then pret (inl (- ENOMEM))
        else
          let! ok := alloc in
          if negb ok then xdp_program__close (mk_opened xdp_program__new None false) ;;; pret (inl (- ENOMEM))
          else
            let p := set_name xdp_program__new (p_name bp) in
            let! strdup := (if BPF_OBJ_NAME_LEN - 1 <=? strlen (p_name bp) then alloc else pret true) in
            match xdp_program__parse_btf None strdup p (object_btf o) with
            | None => pfault
            | Some (err, p) =>
              if negb (err =? 0) && negb (err =? - ENOENT)
              then xdp_program__close (mk_opened p None false) ;;; pret (inl err)
              else
                pret (inr (mk_opened
                  (xdp_program.mk (Some (p_bpf bp)) true (bool_decide (is_Some (object_btf o)))
                     (xdp_program.prog_fd p) (xdp_program.link_fd p) (xdp_program.prog_name p)
                     (xdp_program.prog_tag p) (xdp_program.prog_id p) (xdp_program.load_time p)
                     (xdp_program.is_frags p) (xdp_program.run_prio p) (xdp_program.chain_call_actions p))
                  (Some a) external))
            end
      end
  end.

Definition xdp_program__from_bpf_obj (obj : option nat) (section_name : option string) : M (Z + opened) :=
  xdp_program__create_from_obj obj section_name None true.

(** [__xdp_program__open_file] *)
Definition open_file (filename : option string) (section_name prog_name : option string) : M (Z + opened) :=
  match filename with
  | None => pret (inl (- EINVAL))
  | Some f =>
    match bpf_object__open_file f with
    | inl err => pret (inl err)
    | inr o =>
      let! a := obj_open o in
      let! p := xdp_program__create_from_obj (Some a) section_name prog_name false in
      match p with
      | inl err => bpf_object__close a ;;; pret (inl err)
      | inr p => pret (inr p)
      end
    end
  end.

(** [xdp_program__find_embedded]: [None] when there is no such embedded object.
    The object that was opened is kept when no program object can be made. *)
Definition xdp_program__find_embedded (filename : string) (section_name prog_name : option string)
    : M (option (Z + opened)) :=
  match embedded filename with
  | None => pret None
  | Some (inl err) => pret (Some (inl err))
  | Some (inr o) =>
    let! a := obj_open o in
    let! p := xdp_program__create_from_obj (Some a) section_name prog_name false in
    pret (Some p)
  end.

Definition try_bpf_file (path progname : string) : option string :=
  let buf := path_join path progname in
  if negb (try_path buf =? 0) then None else if stat_ok buf then Some buf else None.

Fixpoint try_paths (paths : list string) (progname : string) : option string :=
  match paths with
  | [] => None
  | path :: paths =>
    match try_bpf_file path progname with Some buf => Some buf | None => try_paths paths progname end
  end.

(** A directory in the environment replaces the built-in ones. *)
Definition find_bpf_file (progname : string) : Z + string :=
  match match secure_getenv with
        | Some path => try_bpf_file path progname
        | None => try_paths bpf_obj_paths progname
        end with
  | Some buf => inr buf
  | None => inl (- ENOENT)
  end.

(** [__xdp_program__find_file] *)
Definition find_file (filename : string) (section_name prog_name : option string) : M (Z + opened) :=
  let! p := xdp_program__find_embedded filename section_name prog_name in
  match p with
  | Some p => pret p
  | None =>
    match find_bpf_file filename with
    | inl err => pret (inl err)
    | inr buf => open_file (Some buf) section_name prog_name
    end
  end.

(** ** The generic constructor *)

(** [struct xdp_program_opts]; only whether the options for libbpf are given is
    looked at. *)
Record xdp_program_opts := mk_opts {
  opt_obj : option nat; opt_opts : bool; opt_prog_name : option string;
  opt_find_filename : option string; opt_open_filename : option string;
  opt_pin_path : option string; opt_id : Z; opt_fd : Z }.

Inductive source :=
  | FromObj (a : nat) (prog_name : option string)
  | FindFile (f : string) (prog_name : option string)
  | OpenFile (f : string) (prog_name : option string)
  | FromPin (path : string)
  | FromId (id : Z)
  | FromFd (fd : Z).

Definition given {A} (o : option A) : bool := match o with Some _ => true | None => false end.

(** The chain of conditions of [xdp_program__create]; [None] is its [err] label. *)
Definition choose (o : xdp_program_opts) : option source :=
  let obj := given (opt_obj o) in
  let obj_opts := opt_opts o in
  let name := given (opt_prog_name o) in
  let find := given (opt_find_filename o) in
  let open := given (opt_open_filename o) in
  let pin := given (opt_pin_path o) in
  let id := negb (opt_id o =? 0) in
  let fd := negb (opt_fd o =? 0) in
  match opt_obj o, opt_find_filename o, opt_open_filename o, opt_pin_path o with
  | Some a, _, _, _ =>
    if obj_opts || find || open || pin || id || fd then None else Some (FromObj a (opt_prog_name o))
  | None, Some f, _, _ =>
    if obj || open || pin || id || fd then None else Some (FindFile f (opt_prog_name o))
  | None, None, Some f, _ =>
    if obj || find || pin || id || fd then None else Some (OpenFile f (opt_prog_name o))
  | None, None, None, Some p =>
    if obj || obj_opts || name || find || open || id || fd then None else Some (FromPin p)
  | None, None, None, None =>
    if id then
      if obj || obj_opts || name || find || open || pin || fd then None else Some (FromId (opt_id o))
    else if fd then
      if obj || obj_opts || name || find || open || pin || id then None else Some (FromFd (opt_fd o))
    else None
  end.

(** The result [inl err] is a null pointer with the error in [errno].  The
    sources that read the kernel are arguments here: [Multiprog] models them. *)
Definition xdp_program__create (from_kernel : source → M (Z + opened)) (opts : option xdp_program_opts)
    : M (Z + opened) :=
  match opts with
  | None => pret (inl (- EINVAL))
  | Some o =>
    match choose o with
    | None => pret (inl (- EINVAL))
    | Some (FromObj a n) => xdp_program__create_from_obj (Some a) None n true
    | Some (FindFile f n) => find_file f None n
    | Some (OpenFile f n) => open_file (Some f) None n
    | Some s => from_kernel s
    end
  end.

(** ** Properties *)

(** The program that is looked for: an entry point of the object, with the
    section or the name that is given, and no earlier one has it. *)
Definition wanted (section_name prog_name : option string) (p : program) : bool :=
  match section_name, prog_name with
  | Some s, _ => streq (p_section p) s
  | None, Some n => streq (p_name p) n
  | None, None => true
  end.
Definition chosen (section_name prog_name : option string) (o : bpf_object) (bp : program) : Prop :=
  ∃ before after, programs o = before ++ bp :: after ∧ p_subprog bp = false ∧
    wanted section_name prog_name bp = true ∧
    Forall (λ p, p_subprog p = true ∨ wanted section_name prog_name p = false) before.

Lemma first_program_some f ps bp :
  first_program f ps = Some bp →
  ∃ before after, ps = before ++ bp :: after ∧ p_subprog bp = false ∧ f bp = true ∧
    Forall (λ p, p_subprog p = true ∨ f p = false) before.
Proof.
  induction ps as [|p ps IH]; [done|]. cbn. destruct (p_subprog p) eqn:Es, (f p) eqn:Ef; cbn.
  1,2,4: intros (before & after & -> & H1 & H2 & H3)%IH; exists (p :: before), after;
    (split; [done|]); split; [done|]; split; [done|]; by constructor; [auto|].
  intros [= <-]. exists [], ps. by repeat split; [..|constructor].
Qed.

(** Objects with valid type information. *)
Definition obj_valid (o : bpf_object) : Prop := ∀ b, object_btf o = Some b → btf_valid b.

Lemma create_from_obj_spec a o s n ext w :
  objects w !! a = Some o → obj_valid o →
  ∃ r w', xdp_program__create_from_obj (Some a) s n ext w = Some (r, w') ∧ objects w' = objects w ∧
    match r with
    | inl e => e ≠ 0
    | inr p => bpf_obj p = Some a ∧ from_external_obj p = ext ∧
        ∃ bp, chosen s n o bp ∧ xdp_program.bpf_prog (base p) = Some (p_bpf bp)
    end.
Proof.
  intros Ha Hv. unfold xdp_program__create_from_obj. destruct (_ && _); [by eexists _, _|].
  unfold pbind at 1, obj_deref. rewrite Ha.
  assert (match s, n with
    | Some s, _ => bpf_program_by_section_name o s
    | None, Some n => bpf_object__find_program_by_name o n
    | None, None => bpf_object__next_program o end = first_program (wanted s n) (programs o)) as ->
    by by destruct s, n.
  destruct (first_program _ _) as [bp|] eqn:Ef; [|by eexists _, _].
  apply first_program_some in Ef. unfold pbind, alloc at 1 2. cbn [objects].
  destruct (malloc_ok _); cbn [negb]; [|by eexists _, _].
  destruct (malloc_ok _); cbn [negb]; [|by eexists _, _].
  assert (∀ w, ∃ b w', (if BPF_OBJ_NAME_LEN - 1 <=? strlen (p_name bp) then alloc else pret true) w = Some (b, w') ∧
    objects w' = objects w) as Hdup by (intros w0; destruct (_ <=? _); by eexists _, _).
  edestruct Hdup as (b & w' & -> & Hw'). cbn [objects] in Hw'.
  destruct (parse_btf_total None b (set_name xdp_program__new (p_name bp)) (object_btf o)) as [[e p] ->].
  { intros b' [|Hb']; [done|]. by apply Hv. }
  destruct (Z.eqb_spec e 0); cbn [negb andb]; [|destruct (Z.eqb_spec e (- ENOENT)); cbn [negb]].
  1,2: eexists _, _; (split; [done|]); (split; [done|]); (split; [done|]); (split; [done|]); by exists bp.
  by eexists _, _.
Qed.

Definition files_valid : Prop :=
  (∀ f o, bpf_object__open_file f = inr o → obj_valid o) ∧
  (∀ f o, embedded f = Some (inr o) → obj_valid o).

(** What opening leads to: an error, or a program that owns an object that was
    opened for it, and closing it closes that object. *)
Definition owns (s n : option string) (w : world) (r : Z + opened) (w' : world) : Prop :=
  match r with
  | inl _ => objects w' = objects w
  | inr p => ∃ a o bp, objects w !! a = None ∧ objects w' = <[a := o]> (objects w) ∧
      chosen s n o bp ∧ xdp_program.bpf_prog (base p) = Some (p_bpf bp) ∧
      ∃ w'', xdp_program__close p w' = Some ((), w'') ∧ objects w'' = objects w
  end.

(** The common part of the two ways to open an object. *)
Lemma open_then_create o s n w :
  obj_valid o →
  ∃ a r w', objects w !! a = None ∧ pbind (obj_open o) (λ a, pbind (xdp_program__create_from_obj (Some a) s n false)
      (λ p, pret (a, p))) w = Some ((a, r), w') ∧ objects w' = <[a := o]> (objects w) ∧
    ∀ p, r = inr p → owns s n w r w'.
Proof.
  intros Hv. set (a := fresh (dom (objects w))).
  assert (objects w !! a = None) as Ha by apply not_elem_of_dom, is_fresh.
  destruct (create_from_obj_spec a o s n false (mk_world (<[a := o]> (objects w)) (allocs w))) as (r & w' & E & Hw' & Hr);
    [apply lookup_insert_eq|done|].
  exists a, r, w'. split; [done|]. unfold pbind, obj_open. fold a. rewrite E. split; [done|]. split; [done|].
  intros p ->. destruct Hr as (Hobj & Hext & bp & Hc & Hb). exists a, o, bp. split; [done|]. split; [done|].
  split; [done|]. split; [done|]. unfold xdp_program__close, bpf_object__close. rewrite Hext, Hobj, Hw'. cbn.
  rewrite lookup_insert_eq. eexists. split; [done|]. cbn. by rewrite delete_insert_id.
Qed.

Lemma open_file_run f s n w :
  files_valid → ∃ r w', open_file f s n w = Some (r, w') ∧ owns s n w r w'.
Proof.
  intros [Hv _]. unfold open_file. destruct f as [f|]; [|by eexists _, _].
  destruct (bpf_object__open_file f) as [e|o] eqn:Eo; [by eexists _, _|].
  destruct (open_then_create o s n w (Hv _ _ Eo)) as (a & r & w' & Ha & E & Hw' & Hr).
  unfold pbind in *. destruct (obj_open o w) as [[a' w1]|] eqn:E1; [|done].
  destruct (xdp_program__create_from_obj (Some a') s n false w1) as [[r' w2]|] eqn:E2; [|done].
  injection E as <- <- <-. destruct r' as [e|p]; [|eexists _, _; split; [done|by apply (Hr p)]].
  unfold bpf_object__close. rewrite Hw', lookup_insert_eq. eexists _, _. split; [done|]. cbn.
  by rewrite delete_insert_id.
Qed.

(** Opening a program file always returns.  On success the program is the
    first entry point with the given section or name (or the first at all), it
    owns the one object that was opened, and closing it closes that object; on
    failure no object stays open -- except that a failure after an embedded
    object was opened leaves that one open. *)
Theorem find_file_owns f s n w :
  files_valid →
  (∃ r w', open_file (Some f) s n w = Some (r, w') ∧ owns s n w r w') ∧
  ∃ r w', find_file f s n w = Some (r, w') ∧
    (owns s n w r w' ∨
     ∃ e a o, r = inl e ∧ embedded f = Some (inr o) ∧ objects w !! a = None ∧ objects w' = <[a := o]> (objects w)).
Proof.
  intros Hv. split; [by apply open_file_run|]. unfold find_file, xdp_program__find_embedded.
  destruct (embedded f) as [[e|o]|] eqn:Ee.
  - eexists _, _. split; [done|]. by left.
  - destruct (open_then_create o s n w (proj2 Hv _ _ Ee)) as (a & r & w' & Ha & E & Hw' & Hr).
    unfold pbind in *. destruct (obj_open o w) as [[a' w1]|] eqn:E1; [|done].
    destruct (xdp_program__create_from_obj (Some a') s n false w1) as [[r' w2]|] eqn:E2; [|done].
    injection E as <- <- <-. exists r', w2. split; [done|].
    destruct r' as [e|p]; [right; by exists e, a', o|left; by apply (Hr p)].
  - unfold pbind. cbn. destruct (find_bpf_file f) as [e|buf]; [eexists _, _; split; [done|by left]|].
    destruct (open_file_run (Some buf) s n w Hv) as (r & w' & E & Ho). exists r, w'. split; [done|by left].
Qed.

(** The sources that are given. *)
Definition sources (o : xdp_program_opts) : list bool :=
  [given (opt_obj o); given (opt_find_filename o); given (opt_open_filename o); given (opt_pin_path o);
   negb (opt_id o =? 0); negb (opt_fd o =? 0)].
Definition file_source (s : source) : bool :=
  match s with FindFile _ _ | OpenFile _ _ => true | _ => false end.
Definition named_source (s : source) : bool :=
  match s with FromObj _ _ => true | _ => file_source s end.

(** [xdp_program__create] accepts its options exactly when one source is
    given, options for libbpf only with a file, and a program name only with a
    file or an object. *)
Theorem create_one_source o :
  (∃ s, choose o = Some s ∧ length (filter Is_true (sources o)) = 1%nat ∧
        (opt_opts o = true → file_source s = true) ∧ (given (opt_prog_name o) = true → named_source s = true)) ∨
  choose o = None ∧
    (length (filter Is_true (sources o)) ≠ 1%nat ∨
     opt_opts o = true ∧ opt_find_filename o = None ∧ opt_open_filename o = None ∨
     given (opt_prog_name o) = true ∧ opt_obj o = None ∧ opt_find_filename o = None ∧ opt_open_filename o = None).
Proof.
  unfold choose, sources. destruct o as [obj opts name find open pin id fd]. cbn.
  destruct obj, find, open, pin, (id =? 0), (fd =? 0), opts, name; cbn;
    first [left; eexists; split; [reflexivity|]; by repeat split | right; split; [done|]; auto 6].
Qed.
End open.

(** ** A witness *)

Definition sample_object : bpf_object :=
  mk_object [mk_program "helper" ".text" true (bpf_program.mk 4 0);
             mk_program "xdp_udp_echo" "xdp" false (bpf_program.mk 60 0)] None.

Lemma find_file_owns_witness :
  let open f : Z + bpf_object := if streq f "/lib/echo.o" then inr sample_object else inl (- ENOENT) in
  let emb f := if streq f "xdp-dispatcher.o" then Some (inr sample_object) else None in
  let run f := find_file (λ _, true) open emb (λ _, true) None ["/lib"%string] f None (Some "xdp_udp_echo"%string) in
  (∃ r w', run "echo.o"%string (mk_world ∅ 0) = Some (r, w') ∧ owns None (Some "xdp_udp_echo"%string) (mk_world ∅ 0) r w') ∧
  (∃ e w', find_file (λ _, true) open emb (λ _, true) None ["/lib"%string] "xdp-dispatcher.o" None (Some "none"%string)
     (mk_world ∅ 0) = Some (inl e, w') ∧ length (map_to_list (objects w')) = 1%nat).
Proof.
  cbn zeta. split; [|eexists _, _; split; vm_compute; reflexivity].
  destruct (find_file_owns (λ _, true) (λ f, if streq f "/lib/echo.o" then inr sample_object else inl (- ENOENT))
    (λ f, if streq f "xdp-dispatcher.o" then Some (inr sample_object) else None) (λ _, true) None ["/lib"%string]
    "echo.o" None (Some "xdp_udp_echo"%string) (mk_world ∅ 0)) as [_ (r & w' & E & Ho)].
  - split; intros f o; destruct (streq _ _); by intros [= <-] b [=].
  - exists r, w'. split; [exact E|]. destruct Ho as [Ho|(e & a & o & _ & Hemb & _)]; [exact Ho|].
    vm_compute in Hemb. discriminate.
Defined.
