(* ===== verification/Multiprog.v ===== *)
(** * libxdp: dispatchers and attaching

    The part of [lib/libxdp/libxdp.c] that changes what runs on an interface:
    loading a program, building a dispatcher for a set of programs, replacing
    the program on an interface, and the retry loops around it.

    The kernel, libbpf and the file system are the class [Kernel]: a state type
    and one operation per call, with the parts of the library that are modelled
    elsewhere ([StateDirs], [Pin], [Probe], [Open]) among them; [Linked] puts the
    first three in.  The definitions
    assume nothing of them; what the theorems assume is [kernel_ok]
    of [MultiprogSpec].  A [world] adds what the library itself
    keeps: [errno], the caller's program objects, the dispatcher objects that are
    allocated, and the log of attach requests.  Using or freeing an object that
    is not allocated, or following a null pointer, is a fault. *)

From S2P Require Import Prelude CString Errno Params Libxdp RunConfig Pin.
From stdpp Require Import pretty.
Local Open Scope Z_scope.
Import xdp_program.

Definition MAX_RETRY : nat := 10.
Definition MAX_DISPATCHER_ACTIONS : Z := 10.
Definition XDP_DISPATCHER_VERSION : Z := 2.
Definition XDP_FLAGS_UPDATE_IF_NOEXIST : Z := 1.
Definition XDP_FLAGS_SKB_MODE : Z := 2.
Definition XDP_FLAGS_DRV_MODE : Z := 4.
Definition XDP_FLAGS_HW_MODE : Z := 8.

(** [struct xdp_dispatcher_config]; the arrays hold the enabled slots. *)
Module dispatcher_config.
Record t := mk {
  num_progs_enabled : Z;
  is_xdp_frags : bool;
  chain_call_actions : list Z;
  run_prios : list Z;
  program_flags : list Z }.
Definition empty : t := mk 0 false [] [] [].
End dispatcher_config.

(** The structure in memory: four bytes, and three arrays of ten 32-bit words.
    Version 1 has one byte, with padding, and the first two arrays. *)
Definition XDP_DISPATCHER_MAGIC : Z := 236.
Definition XDP_DISPATCHER_VERSION_V1 : Z := 1.
Definition sizeof_config : Z := 124.
Definition sizeof_config_v1 : Z := 84.
Definition num_slots : nat := Z.to_nat MAX_DISPATCHER_ACTIONS.

Definition words (b : list Z) (off : Z) : list Z :=
  (λ i : nat, le_val (sub (off + 4 * i) 4 b)) <$> seq 0 num_slots.
Definition word_bytes (ws : list Z) : list Z := resize num_slots 0 ws ≫= le_bytes 4.

Definition config_of_bytes (b : list Z) : dispatcher_config.t :=
  dispatcher_config.mk (nth 2 b 0) (negb (nth 3 b 0 =? 0)) (words b 4) (words b 44) (words b 84).
Definition config_of_bytes_v1 (b : list Z) : dispatcher_config.t :=
  dispatcher_config.mk (nth 0 b 0) false (words b 4) (words b 44) [].
Definition config_bytes (version : Z) (c : dispatcher_config.t) : list Z :=
  [XDP_DISPATCHER_MAGIC; u8 version; u8 (dispatcher_config.num_progs_enabled c);
   Z.b2z (dispatcher_config.is_xdp_frags c)] ++
  word_bytes (dispatcher_config.chain_call_actions c) ++ word_bytes (dispatcher_config.run_prios c) ++
  word_bytes (dispatcher_config.program_flags c).

(** [struct xdp_multiprog]; the list linked through [next] is [first_prog]. *)
Module xdp_multiprog.
Record t := mk {
  config : dispatcher_config.t;
  main_prog : option xdp_program.t;
  first_prog : list xdp_program.t;
  hw_prog : option xdp_program.t;
  version : Z;
  num_links : Z;
  is_loaded : bool;
  is_legacy : bool;
  attach_mode : xdp_attach_mode;
  ifindex : Z }.
End xdp_multiprog.
Abbreviation mp_t := xdp_multiprog.t.

Definition set_mode m (v : mp_t) := xdp_multiprog.mk (xdp_multiprog.config v) (xdp_multiprog.main_prog v)
  (xdp_multiprog.first_prog v) (xdp_multiprog.hw_prog v) (xdp_multiprog.version v)
  (xdp_multiprog.num_links v) (xdp_multiprog.is_loaded v) (xdp_multiprog.is_legacy v) m
  (xdp_multiprog.ifindex v).
Definition set_main cfg main loaded (v : mp_t) := xdp_multiprog.mk cfg main
  (xdp_multiprog.first_prog v) (xdp_multiprog.hw_prog v) (xdp_multiprog.version v)
  (xdp_multiprog.num_links v) loaded (xdp_multiprog.is_legacy v) (xdp_multiprog.attach_mode v)
  (xdp_multiprog.ifindex v).
Definition set_flags version cfg legacy main hw loaded (v : mp_t) := xdp_multiprog.mk cfg main
  (xdp_multiprog.first_prog v) hw version (xdp_multiprog.num_links v) loaded legacy
  (xdp_multiprog.attach_mode v) (xdp_multiprog.ifindex v).
Definition drop_links (v : mp_t) := xdp_multiprog.mk (xdp_multiprog.config v) (xdp_multiprog.main_prog v)
  [] (xdp_multiprog.hw_prog v) (xdp_multiprog.version v)
  (xdp_multiprog.num_links v) (xdp_multiprog.is_loaded v) (xdp_multiprog.is_legacy v)
  (xdp_multiprog.attach_mode v) (xdp_multiprog.ifindex v).
Definition add_link p (v : mp_t) := xdp_multiprog.mk (xdp_multiprog.config v) (xdp_multiprog.main_prog v)
  (xdp_multiprog.first_prog v ++ [p]) (xdp_multiprog.hw_prog v) (xdp_multiprog.version v)
  (xdp_multiprog.num_links v + 1) (xdp_multiprog.is_loaded v) (xdp_multiprog.is_legacy v)
  (xdp_multiprog.attach_mode v) (xdp_multiprog.ifindex v).

(** The function of the dispatcher that a program replaces: the stub of its
    slot, or the whole dispatcher when there is only one program. *)
Definition prog_func (i : Z) : string := "prog" +:+ pretty (Z.to_N i).
Definition attach_func (enabled num_links : Z) : string :=
  if enabled =? 1 then "xdp_dispatcher" else prog_func num_links.

(** What the kernel reports of a loaded program, with the first of its maps, of
    a map, of the programs on an interface, and of a link. *)
Record prog_info := mk_info {
  info_name : string; info_btf_id : Z; info_tag : list Z; info_load_time : Z; info_id : Z;
  info_nr_maps : Z; info_map_id : Z }.
Record map_desc := mk_desc {
  desc_key_size : Z; desc_value_size : Z; desc_max_entries : Z; desc_flags : Z }.
Inductive attached := XDP_ATTACHED_NONE | XDP_ATTACHED_DRV | XDP_ATTACHED_SKB
  | XDP_ATTACHED_HW | XDP_ATTACHED_MULTI.
Record xdp_query := mk_query {
  drv_prog_id : Z; skb_prog_id : Z; hw_prog_id : Z; attach_kind : attached }.
Record link_info := mk_link { li_id : Z; li_is_xdp : bool; li_ifindex : Z; li_prog_id : Z }.

(** The environment.  A result [inl e] is a failure with error number [e]. *)
Class Kernel (K : Type) := {
  k_alloc : K → bool * K;
  k_close : Z → K → K;
  k_dupfd : Z → K → (Z + Z) * K;
  k_prog_info : Z → K → Z + prog_info;
  k_btf_load : Z → K → option btf;
  k_obj_loaded : xdp_program.t → K → bool;
  k_obj_load : xdp_program.t → K → Z * K;
  k_bpf_fd : xdp_program.t → K → Z;
  k_create_from_obj : xdp_program.t → K → (Z + xdp_program.t) * K;
  k_find_dispatcher : string → K → (Z + xdp_program.t) * K;
  k_dispatcher_map : K → bool;
  k_set_rodata : list Z → K → Z * K;
  k_kern_compat : K → Z * K;
  k_set_attach_target : xdp_program.t → Z → K → Z;
  k_link_create : Z → Z → Z → K → (Z + Z) * K;
  k_raw_tp_open : Z → K → (Z + Z) * K;
  k_pin : mp_t → K → Z * K;
  k_unpin : mp_t → K → Z * K;
  k_query : Z → K → Z + xdp_query;
  k_prog_fd_by_id : Z → K → (Z + Z) * K;
  k_map_fd_by_id : Z → K → (Z + Z) * K;
  k_map_info : Z → K → Z + map_desc;
  k_map_lookup : Z → K → Z + list Z;
  k_bpffs_dir : K → (Z + string) * K;
  k_lock : K → Z * K;
  k_unlock : Z → K → K;
  k_stat : string → K → Z;
  k_obj_get : string → K → (Z + Z) * K;
  k_xdp_attach : Z → Z → Z → Z → K → Z * K;
  k_links : K → list link_info;
  k_link_fd : Z → K → (Z + Z) * K;
  k_link_info_ok : Z → K → Z;
  k_link_detach : Z → K → Z * K;
  k_skip_dispatcher : K → bool }.

(** One request to replace the program of an interface. *)
Record attach_req := mk_req { rq_ifindex : Z; rq_fd : Z; rq_old : Z; rq_flags : Z }.

Section libxdp.
Context {K : Type} `{Kernel K}.

Record world := mk_world {
  kern : K;
  errno : Z;
  heap : gmap nat xdp_program.t;
  mps : gmap nat mp_t;
  calls : list attach_req }.

Definition M (A : Type) : Type := Prelude.prog world A.

Definition modify (f : world → world) : M () := λ w, Some ((), f w).
Definition kop {A} (f : K → A * K) : M A := λ w,
  let (a, k) := f (kern w) in Some (a, mk_world k (errno w) (heap w) (mps w) (calls w)).
Definition kread {A} (f : K → A) : M A := λ w, Some (f (kern w), w).
Definition set_errno (e : Z) : M () :=
  modify (λ w, mk_world (kern w) e (heap w) (mps w) (calls w)).

Definition deref (a : nat) : M xdp_program.t := λ w,
  match heap w !! a with Some p => Some (p, w) | None => None end.
Definition assign (a : nat) (p : xdp_program.t) : M () := λ w,
  match heap w !! a with
  | Some _ => Some ((), mk_world (kern w) (errno w) (<[a := p]> (heap w)) (mps w) (calls w))
  | None => None
  end.
Definition mp_deref (a : nat) : M mp_t := λ w,
  match mps w !! a with Some m => Some (m, w) | None => None end.
Definition mp_alloc (m : mp_t) : M nat := λ w,
  let a := fresh (dom (mps w)) in
  Some (a, mk_world (kern w) (errno w) (heap w) (<[a := m]> (mps w)) (calls w)).
Definition mp_assign (a : nat) (m : mp_t) : M () := λ w,
  match mps w !! a with
  | Some _ => Some ((), mk_world (kern w) (errno w) (heap w) (<[a := m]> (mps w)) (calls w))
  | None => None
  end.
Definition mp_free (a : nat) : M () := λ w,
  match mps w !! a with
  | Some _ => Some ((), mk_world (kern w) (errno w) (heap w) (delete a (mps w)) (calls w))
  | None => None
  end.

(** [libxdp_err] and [libxdp_err_ptr]. *)
Definition libxdp_err (ret : Z) : M Z :=
  if ret <? 0 then set_errno (- ret) ;;; pret ret else pret ret.
Definition libxdp_err_ptr {A} (err : Z) (ret_null : bool) : M (ptr A) :=
  set_errno (- err) ;;; pret (if ret_null then Null else ErrPtr err).

(** ** Attaching a descriptor *)

Definition do_xdp_attach (ifindex prog_fd old_fd xdp_flags : Z) : M Z :=
  modify (λ w, mk_world (kern w) (errno w) (heap w) (mps w)
                 (calls w ++ [mk_req ifindex prog_fd old_fd xdp_flags])) ;;;
  let! err := kop (k_xdp_attach ifindex prog_fd old_fd xdp_flags) in
  if err <? 0 then set_errno (- err) ;;; pret err else pret err.

(** The [again] label; the second round has no old descriptor. *)
Fixpoint attach_again (fuel : nat) (ifindex prog_fd old_fd xdp_flags : Z) : M Z :=
  match fuel with
  | O => pfault
  | S fuel =>
    let! err := do_xdp_attach ifindex prog_fd old_fd xdp_flags in
    if err <? 0 then
      if (err =? - EINVAL) && negb (old_fd =? 0) then attach_again fuel ifindex prog_fd 0 xdp_flags
      else if (err =? - EEXIST) && negb (old_fd =? 0) then pret (- EAGAIN)
      else pret err
    else pret err
  end.

Definition mode_flags (mode : xdp_attach_mode) : Z :=
  match mode with
  | XDP_MODE_SKB => XDP_FLAGS_SKB_MODE
  | XDP_MODE_NATIVE => XDP_FLAGS_DRV_MODE
  | XDP_MODE_HW => XDP_FLAGS_HW_MODE
  | XDP_MODE_UNSPEC => 0
  end.

Definition xdp_attach_fd (prog_fd old_fd ifindex : Z) (mode : xdp_attach_mode) : M Z :=
  let (xdp_flags, old_fd) :=
    if old_fd =? -1 then (XDP_FLAGS_UPDATE_IF_NOEXIST, 0) else (0, old_fd) in
  attach_again 2 ifindex prog_fd old_fd (Z.lor xdp_flags (mode_flags mode)).

(** ** Program objects *)

Definition fclose (fd : Z) : M () := kop (λ k, ((), k_close fd k)).

Definition xdp_program__close (prog : option xdp_program.t) : M () :=
  match prog with
  | None => pret ()
  | Some p =>
    (if 0 <=? link_fd p then fclose (link_fd p) else pret ()) ;;;
    (if 0 <=? prog_fd p then fclose (prog_fd p) else pret ())
  end.

(** [xdp_program__fill_from_fd]: the result, the program afterwards, and the
    type information if it was loaded.  When that fails the code leaves through
    its error path with [err] still 0. *)
Definition fill_from_fd (p : xdp_program.t) (fd : Z) : M (Z * xdp_program.t * option btf) :=
  let! d := kop (k_dupfd fd) in
  match d with
  | inl e => pret (- e, p, None)
  | inr fd' =>
    let! i := kread (k_prog_info fd') in
    match i with
    | inl e => fclose fd' ;;; pret (- e, p, None)
    | inr info =>
      let! ok := (if streq (prog_name p) "" then kop k_alloc else pret true) in
      if negb ok then fclose fd' ;;; pret (- ENOMEM, p, None)
      else
        let name := if streq (prog_name p) "" then info_name info else prog_name p in
        let! btf :=
          (if negb (info_btf_id info =? 0) && negb (has_btf p)
           then let! b := kread (k_btf_load (info_btf_id info)) in pret (Some b) else pret None) in
        match btf with
        | Some None => fclose fd' ;;; pret (0, set_name p name, None)
        | _ =>
          let btf_set := has_btf p || negb (info_btf_id info =? 0) in
          pret (0, mk (bpf_prog p) (has_obj p) btf_set fd' (link_fd p) name (info_tag info)
                     (info_id info) (info_load_time info) (is_frags p) (run_prio p)
                     (chain_call_actions p), mjoin btf)
        end
    end
  end.

Definition xdp_program__fill_from_fd (p : xdp_program.t) (fd : Z) : M (Z * xdp_program.t) :=
  let! (r, _) := fill_from_fd p fd in pret r.

(** The run configuration of a program whose type information is [b]; the copy
    of a name that is completed may fail. *)
Definition parse_btf (p : xdp_program.t) (b : option btf) : M (Z * xdp_program.t) :=
  let! strdup := (if BPF_OBJ_NAME_LEN - 1 <=? strlen (prog_name p) then kop k_alloc else pret true) in
  match xdp_program__parse_btf b strdup p None with
  | Some r => pret r
  | None => pfault
  end.

Definition xdp_program__from_fd (fd : Z) : M (Z + xdp_program.t) :=
  let! ok := kop k_alloc in
  if negb ok then set_errno ENOMEM ;;; pret (inl (- ENOMEM))
  else
    let! (r, b) := fill_from_fd xdp_program__new fd in
    let (err, p) := r : Z * xdp_program.t in
    if negb (err =? 0) then xdp_program__close (Some p) ;;; set_errno (- err) ;;; pret (inl err)
    else
      let! (err, p) := parse_btf p b in
      if negb (err =? 0) && negb (err =? - ENOENT)
      then xdp_program__close (Some p) ;;; set_errno (- err) ;;; pret (inl err)
      else pret (inr p).

Definition xdp_program__from_id (id : Z) : M (Z + xdp_program.t) :=
  let! fd := kop (k_prog_fd_by_id id) in
  match fd with
  | inl e => set_errno e ;;; pret (inl (- e))
  | inr fd => let! r := xdp_program__from_fd fd in fclose fd ;;; pret r
  end.

Definition xdp_program__from_pin (pin_path : string) : M (Z + xdp_program.t) :=
  let! fd := kop (k_obj_get pin_path) in
  match fd with
  | inl e => set_errno e ;;; pret (inl (- e))
  | inr fd => let! r := xdp_program__from_fd fd in fclose fd ;;; pret r
  end.

(** [bpf_program__flags] of the program, and clearing the flag when it is
    loaded as an extension. *)
Definition has_frags_flag (p : xdp_program.t) : bool :=
  match bpf_prog p with
  | Some bp => negb (Z.land (bpf_program.flags bp) BPF_F_XDP_HAS_FRAGS =? 0)
  | None => false
  end.
Definition clear_frags_flag (p : xdp_program.t) : option bpf_program.t :=
  (λ bp, bpf_program.mk (bpf_program.insn_cnt bp)
           (Z.land (bpf_program.flags bp) (u32 (Z.lnot BPF_F_XDP_HAS_FRAGS)))) <$> bpf_prog p.

(** [xdp_program__load]; [ext] is whether the type was set to
    [BPF_PROG_TYPE_EXT]. *)
Definition xdp_program__load (ext : bool) (p : xdp_program.t) : M (Z * xdp_program.t) :=
  if 0 <=? prog_fd p then pret (- EEXIST, p)
  else if negb (has_obj p) || bool_decide (bpf_prog p = None) then pret (- EINVAL, p)
  else
    let! loaded := kread (k_obj_loaded p) in
    if loaded then
      let p := set_frags p (bpf_prog p) (has_frags_flag p) in
      let! fd := kread (k_bpf_fd p) in
      xdp_program__fill_from_fd p fd
    else
      let frags := xdp_program__xdp_frags_support (Ptr p) in
      let p := set_frags p (if ext then clear_frags_flag p else bpf_prog p) frags in
      let! err := kop (k_obj_load p) in
      if negb (err =? 0) then pret (err, p)
      else let! fd := kread (k_bpf_fd p) in xdp_program__fill_from_fd p fd.

(** [xdp_program__clone] of a program that is loaded; one that is not loaded
    is created again from its object. *)
Definition xdp_program__clone (p : xdp_program.t) : M (Z + xdp_program.t) :=
  if (prog_fd p <? 0) && negb (has_obj p) then set_errno EINVAL ;;; pret (inl (- EINVAL))
  else if 0 <=? prog_fd p then xdp_program__from_fd (prog_fd p)
  else kop (k_create_from_obj p).

Definition kernel_has_frags_support : M bool :=
  let! t := kop (k_find_dispatcher "xdp_pass") in
  match t with
  | inl _ => pret false
  | inr p =>
    let flagged := (λ bp, bpf_program.mk (bpf_program.insn_cnt bp) BPF_F_XDP_HAS_FRAGS) <$> bpf_prog p in
    let! (err, p) := xdp_program__load false (set_frags p flagged (is_frags p)) in
    xdp_program__close (Some p) ;;; pret (err =? 0)
  end.

(** ** Dispatcher objects *)

Definition xdp_multiprog__is_legacy (mp : ptr nat) : M bool :=
  match mp with Ptr a => let! m := mp_deref a in pret (xdp_multiprog.is_legacy m) | _ => pret false end.

Definition to_ptr {A} (o : option A) : ptr A := match o with Some a => Ptr a | None => Null end.

Definition xdp_multiprog__hw_prog (mp : ptr nat) : M (ptr xdp_program.t) :=
  match mp with
  | Ptr a => let! m := mp_deref a in pret (to_ptr (xdp_multiprog.hw_prog m))
  | _ => libxdp_err_ptr 0 true
  end.
Definition xdp_multiprog__main_prog (mp : ptr nat) : M (ptr xdp_program.t) :=
  match mp with
  | Ptr a => let! m := mp_deref a in pret (to_ptr (xdp_multiprog.main_prog m))
  | _ => libxdp_err_ptr 0 true
  end.
Definition xdp_multiprog__attach_mode (mp : ptr nat) : M xdp_attach_mode :=
  match mp with
  | Ptr a => let! m := mp_deref a in pret (xdp_multiprog.attach_mode m)
  | _ => pret XDP_MODE_UNSPEC
  end.

(** The program after the one at position [prog] of the list. *)
Definition xdp_multiprog__next_prog (prog : option nat) (mp : ptr nat)
    : M (option (nat * xdp_program.t)) :=
  let! legacy := xdp_multiprog__is_legacy mp in
  match mp with
  | Ptr a =>
    if legacy then set_errno 0 ;;; pret None
    else
      let! m := mp_deref a in
      let i := match prog with Some i => S i | None => O end in
      pret ((λ p, (i, p)) <$> xdp_multiprog.first_prog m !! i)
  | _ => set_errno 0 ;;; pret None
  end.

Fixpoint close_all (ps : list xdp_program.t) : M () :=
  match ps with
  | [] => pret ()
  | p :: ps => xdp_program__close (Some p) ;;; close_all ps
  end.

Definition xdp_multiprog__close (mp : ptr nat) : M () :=
  match mp with
  | Ptr a =>
    let! m := mp_deref a in
    xdp_program__close (xdp_multiprog.main_prog m) ;;;
    close_all (xdp_multiprog.first_prog m) ;;;
    xdp_program__close (xdp_multiprog.hw_prog m) ;;;
    mp_free a
  | _ => pret ()
  end.

Definition xdp_multiprog__main_fd (mp : ptr nat) : M Z :=
  match mp with
  | Ptr a => let! m := mp_deref a in pret (from_option prog_fd (- ENOENT) (xdp_multiprog.main_prog m))
  | _ => pret (- EINVAL)
  end.
Definition xdp_multiprog__main_id (mp : ptr nat) : M Z :=
  match mp with
  | Ptr a => let! m := mp_deref a in pret (from_option prog_id 0 (xdp_multiprog.main_prog m))
  | _ => pret 0
  end.
Definition xdp_multiprog__hw_fd (mp : ptr nat) : M Z :=
  match mp with
  | Ptr a => let! m := mp_deref a in pret (from_option prog_fd (- ENOENT) (xdp_multiprog.hw_prog m))
  | _ => pret (- EINVAL)
  end.
Definition xdp_multiprog__hw_id (mp : ptr nat) : M Z :=
  match mp with
  | Ptr a => let! m := mp_deref a in pret (from_option prog_id 0 (xdp_multiprog.hw_prog m))
  | _ => pret 0
  end.

(** ** What is on an interface *)

(** [xdp_get_ifindex_prog_id] updates the identifiers and the mode from what the
    kernel answers. *)
Definition ids_of_query (q : Z + xdp_query) (st : Z * Z * xdp_attach_mode) : Z * (Z * Z * xdp_attach_mode) :=
  let '(prog_id, hw_id, mode) := st in
  match q with
  | inl e => (- e, st)
  | inr q =>
    (0, match attach_kind q with
        | XDP_ATTACHED_SKB => (skb_prog_id q, hw_id, XDP_MODE_SKB)
        | XDP_ATTACHED_DRV => (drv_prog_id q, hw_id, XDP_MODE_NATIVE)
        | XDP_ATTACHED_MULTI =>
          if negb (drv_prog_id q =? 0) then (drv_prog_id q, hw_prog_id q, XDP_MODE_NATIVE)
          else if negb (skb_prog_id q =? 0) then (skb_prog_id q, hw_prog_id q, XDP_MODE_SKB)
          else (prog_id, hw_prog_id q, mode)
        | XDP_ATTACHED_HW => (prog_id, hw_prog_id q, XDP_MODE_UNSPEC)
        | XDP_ATTACHED_NONE => (prog_id, hw_id, XDP_MODE_UNSPEC)
        end)
  end.
Definition xdp_get_ifindex_prog_id (ifindex : Z) (st : Z * Z * xdp_attach_mode)
    : M (Z * (Z * Z * xdp_attach_mode)) :=
  let! q := kread (k_query ifindex) in pret (ids_of_query q st).

Definition BPF_F_RDONLY_PROG : Z := 128.

(** The version and the configuration in the map of a dispatcher.  A
    version 1 configuration is read without comparing the size of the map with
    that of the structure; reading past the buffer is a fault. *)
Definition read_dispatcher_map (fd : Z) (b : btf) : M (Z + Z * dispatcher_config.t) :=
  let! i := kread (k_map_info fd) in
  match i with
  | inl e => pret (inl (- e))
  | inr info =>
    if negb (desc_key_size info =? 4) || (desc_value_size info <? 2) ||
       negb (desc_max_entries info =? 1) || (Z.land (desc_flags info) BPF_F_RDONLY_PROG =? 0)
    then pret (inl (- EINVAL))
    else
      let! ok := kop k_alloc in
      if negb ok then pret (inl (- ENOMEM))
      else
        let! v := kread (k_map_lookup fd) in
        match v with
        | inl e => pret (inl (- e))
        | inr buf =>
          let! version :=
            (if nth 0 buf 0 =? XDP_DISPATCHER_MAGIC then pret (inr (nth 1 buf 0))
             else match check_xdp_prog_version b "dispatcher_version" with
                  | Some (inl e) => let! e := libxdp_err e in pret (inl e)
                  | Some (inr v) => pret (inr v)
                  | None => pfault
                  end) in
          match version with
          | inl e => pret (inl e)
          | inr version =>
            if version =? XDP_DISPATCHER_VERSION_V1 then
              if desc_value_size info <? sizeof_config_v1 then pfault
              else pret (inr (version, config_of_bytes_v1 buf))
            else if version =? XDP_DISPATCHER_VERSION then
              if negb (desc_value_size info =? sizeof_config) then pret (inl (- EINVAL))
              else pret (inr (version, config_of_bytes buf))
            else pret (inl (- EOPNOTSUPP))
          end
        end
  end.

Definition check_dispatcher_version (name : string) (b : btf) (nr_maps map_id : Z)
    : M (Z + Z * dispatcher_config.t) :=
  if negb (streq name "xdp_dispatcher") then pret (inl (- ENOENT))
  else if negb (nr_maps =? 1) then pret (inl (- ENOENT))
  else
    let! fd := kop (k_map_fd_by_id map_id) in
    match fd with
    | inl e => pret (inl (- e))
    | inr fd =>
      let! r := read_dispatcher_map fd b in
      fclose fd ;;; pret r
    end.

(** The file a program of the dispatcher is pinned as. *)
Definition pinned_prog (dir : string) (i : Z) : string := prog_path dir (mk_linked (prog_func i) 0 0).

(** A program read from its pin, with the settings of its slot. *)
Definition slot_prog (c : dispatcher_config.t) (i : Z) (p : xdp_program.t) : xdp_program.t :=
  let at_slot l := nth (Z.to_nat i) l 0 in
  let acts := Z.land (at_slot (dispatcher_config.chain_call_actions c))
                (u32 (Z.lnot (2 ^ XDP_DISPATCHER_RETVAL))) in
  let frags := negb (Z.land (at_slot (dispatcher_config.program_flags c)) BPF_F_XDP_HAS_FRAGS =? 0) in
  set_run (set_frags p (bpf_prog p) frags) (at_slot (dispatcher_config.run_prios c)) acts.

(** The loop of [xdp_multiprog__link_pinned_progs], [n] slots from [i] on.  A
    slot outside the arrays of the configuration is a fault. *)
Fixpoint link_pinned (dir : string) (n : nat) (i : Z) (m : mp_t) : M (Z * mp_t) :=
  match n with
  | O => pret (0, m)
  | S n =>
    let path := pinned_prog dir i in
    if negb (try_path path =? 0) then pret (try_path path, m)
    else
      let! r := xdp_program__from_pin path in
      match r with
      | inl err => pret (err, m)
      | inr prog =>
        let! ok := kop k_alloc in
        if negb ok then pret (- ENOMEM, m)
        else if MAX_DISPATCHER_ACTIONS <=? i then pfault
        else link_pinned dir n (i + 1) (add_link (slot_prog (xdp_multiprog.config m) i prog) m)
      end
  end.

(** On failure the programs found so far are closed and dropped from the list;
    their count is kept. *)
Definition xdp_multiprog__link_pinned_progs (m : mp_t) : M (Z * mp_t) :=
  if bool_decide (xdp_multiprog.first_prog m ≠ []) then pret (- EINVAL, m)
  else
    let! d := kop k_bpffs_dir in
    match d with
    | inl err => pret (err, m)
    | inr bpffs =>
      match xdp_multiprog.main_prog m with
      | None => pfault
      | Some main =>
        let dir := pin_path bpffs (xdp_multiprog.ifindex m) (prog_id main) in
        if negb (try_path dir =? 0) then pret (try_path dir, m)
        else
          let! lock := kop k_lock in
          if lock <? 0 then pret (lock, m)
          else
            let! e := kread (k_stat dir) in
            let! (err, m) :=
              (if negb (e =? 0) then pret (- e, m)
               else
                 let n := Z.to_nat (dispatcher_config.num_progs_enabled (xdp_multiprog.config m)) in
                 let! (err, m) := link_pinned dir n 0 m in
                 if negb (err =? 0) then close_all (xdp_multiprog.first_prog m) ;;; pret (err, drop_links m)
                 else pret (0, m)) in
            kop (λ k, ((), k_unlock lock k)) ;;; pret (err, m)
      end
    end.

(** Whether the program is a dispatcher, and its configuration: [inl] is an
    error or the early exit with [err] 0 when the type information cannot be
    loaded; [inr None] is a program that is no dispatcher. *)
Definition dispatcher_of (info : prog_info) : M (Z + option (Z * dispatcher_config.t)) :=
  if info_btf_id info =? 0 then pret (inr None)
  else
    let! b := kread (k_btf_load (info_btf_id info)) in
    match b with
    | None => pret (inl 0)
    | Some b =>
      let! r := check_dispatcher_version (info_name info) b (info_nr_maps info) (info_map_id info) in
      pret match r with
           | inr vc => inr (Some vc)
           | inl err => if err =? - ENOENT then inr None else inl err
           end
    end.

(** The main program of the object. *)
Definition fill_main (m : mp_t) (prog_fd : Z) (disp : option (Z * dispatcher_config.t)) : M (Z * mp_t) :=
  let legacy := bool_decide (disp = None) in
  let '(version, cfg) := default (xdp_multiprog.version m, xdp_multiprog.config m) disp in
  let m := set_flags version cfg legacy None None false m in
  let! p := xdp_program__from_fd prog_fd in
  match p with
  | inl err => pret (err, m)
  | inr p =>
    let m := set_flags version cfg legacy (Some p) None false m in
    if legacy then pret (0, m)
    else
      let! (err, m) := xdp_multiprog__link_pinned_progs m in
      pret (0, if err =? 0 then m else set_flags version cfg true (Some p) None false m)
  end.

(** The hardware program, and the end. *)
Definition fill_hw (m : mp_t) (hw_fd : Z) : M (Z * mp_t) :=
  let set legacy hw := set_flags (xdp_multiprog.version m) (xdp_multiprog.config m) legacy
                         (xdp_multiprog.main_prog m) hw true m in
  if 0 <? hw_fd then
    let! p := xdp_program__from_fd hw_fd in
    match p with
    | inl err => pret (err, m)
    | inr p =>
      let legacy := xdp_multiprog.is_legacy m || bool_decide (xdp_multiprog.first_prog m = []) in
      pret (0, set legacy (Some p))
    end
  else pret (0, set (xdp_multiprog.is_legacy m) None).

Definition xdp_multiprog__fill_from_fd (m : mp_t) (prog_fd hw_fd : Z) : M (Z * mp_t) :=
  if 0 <? prog_fd then
    let! i := kread (k_prog_info prog_fd) in
    match i with
    | inl _ => pret (- EINVAL, m)
    | inr info =>
      let! d := dispatcher_of info in
      match d with
      | inl err => pret (err, m)
      | inr disp =>
        let! (err, m) := fill_main m prog_fd disp in
        if negb (err =? 0) then pret (err, m) else fill_hw m hw_fd
      end
    end
  else fill_hw m hw_fd.

(** The object is local until it is returned: [xdp_multiprog__new] and, on
    failure, [xdp_multiprog__close] of it. *)
Definition new_mp (ifindex : Z) : mp_t :=
  xdp_multiprog.mk dispatcher_config.empty None [] None XDP_DISPATCHER_VERSION 0
    false false XDP_MODE_UNSPEC ifindex.

Definition xdp_multiprog__from_fd (fd hw_fd ifindex : Z) : M (Z + mp_t) :=
  let! ok := kop k_alloc in
  if negb ok then pret (inl (- ENOMEM))
  else
    let! (err, m) := xdp_multiprog__fill_from_fd (new_mp ifindex) fd hw_fd in
    if negb (err =? 0) then
      xdp_program__close (xdp_multiprog.main_prog m) ;;;
      close_all (xdp_multiprog.first_prog m) ;;;
      xdp_program__close (xdp_multiprog.hw_prog m) ;;;
      pret (inl err)
    else pret (inr m).

Definition close_pos (fd : Z) : M () := if 0 <? fd then fclose fd else pret ().

(** The descriptor of a program, 0 for the identifier 0. *)
Definition fd_of_id (id : Z) : M (Z + Z) :=
  if id =? 0 then pret (inr 0) else kop (k_prog_fd_by_id id).

Definition xdp_multiprog__from_id (id hw_id ifindex : Z) : M (Z + mp_t) :=
  let! fd := fd_of_id id in
  match fd with
  | inl e => pret (inl (- e))
  | inr fd =>
    let! hw := fd_of_id hw_id in
    match hw with
    | inl e => close_pos fd ;;; pret (inl (- e))
    | inr hw_fd =>
      let! r := xdp_multiprog__from_fd fd hw_fd ifindex in
      close_pos fd ;;; close_pos hw_fd ;;; pret r
    end
  end.

(** The [retry] loop of [xdp_multiprog__get_from_ifindex]; [tries] is how often
    it may still retry. *)
Fixpoint get_retry (tries : nat) (ifindex : Z) (st : Z * Z * xdp_attach_mode) : M (ptr nat) :=
  let! (err, st) := xdp_get_ifindex_prog_id ifindex st in
  let '(prog_id, hw_id, mode) := st in
  if negb (err =? 0) then libxdp_err_ptr err false
  else if (prog_id =? 0) && (hw_id =? 0) then libxdp_err_ptr (- ENOENT) false
  else
    let! r := xdp_multiprog__from_id prog_id hw_id ifindex in
    match r with
    | inr m => let! a := mp_alloc (set_mode mode m) in pret (Ptr a)
    | inl e =>
      if e =? - ENOENT then
        match tries with
        | O => libxdp_err_ptr (- EBUSY) false
        | S tries => get_retry tries ifindex st
        end
      else libxdp_err_ptr e false
    end.

Definition xdp_multiprog__get_from_ifindex (ifindex : Z) : M (ptr nat) :=
  get_retry MAX_RETRY ifindex (0, 0, XDP_MODE_UNSPEC).

(** ** Replacing the program of an interface *)

(** [xdp_detach_link] walks the links in the order of their identifiers, which
    is how [bpf_link_get_next_id] enumerates them, up to [ENOENT]. *)
Fixpoint detach_links (ls : list link_info) (ifindex prog_id : Z) : M Z :=
  match ls with
  | [] => pret (- ENOENT)
  | l :: ls =>
    let! fd := kop (k_link_fd (li_id l)) in
    match fd with
    | inl e => pret (- e)
    | inr fd =>
      let! err := kread (k_link_info_ok fd) in
      if negb (err =? 0) then fclose fd ;;; pret (- err)
      else if li_is_xdp l && (li_ifindex l =? ifindex) && (li_prog_id l =? prog_id) then
        let! err := kop (k_link_detach fd) in
        fclose fd ;;; pret (- err)
      else fclose fd ;;; detach_links ls ifindex prog_id
    end
  end.
Definition xdp_detach_link (ifindex prog_id : Z) : M Z :=
  let! ls := kread k_links in detach_links ls ifindex prog_id.

(** The descriptors and the interface a replacement uses; [inl] is an early
    return. *)
Definition attach_fds (old_mp mp : ptr nat) : M (Z + Z * Z * Z) :=
  let! r := match mp with
    | Null => pret (inr (-1, -1))
    | _ =>
      let! fd := xdp_multiprog__main_fd mp in
      if fd <? 0 then pret (inl (- EINVAL))
      else match mp with
           | Ptr a => let! m := mp_deref a in pret (inr (fd, xdp_multiprog.ifindex m))
           | _ => pfault
           end
    end in
  match r with
  | inl e => pret (inl e)
  | inr (prog_fd, ifindex) =>
    match old_mp with
    | Null => pret (inr (prog_fd, -1, ifindex))
    | _ =>
      let! old_fd := xdp_multiprog__main_fd old_mp in
      if old_fd <? 0 then pret (inl (- EINVAL))
      else match old_mp with
           | Ptr a =>
             let! m := mp_deref a in
             if (-1 <? ifindex) && negb (ifindex =? xdp_multiprog.ifindex m) then pret (inl (- EINVAL))
             else pret (inr (prog_fd, old_fd, xdp_multiprog.ifindex m))
           | _ => pfault
           end
    end
  end.

Definition is_null {A} (p : ptr A) : bool := match p with Null => true | _ => false end.

Definition xdp_multiprog__attach (old_mp mp : ptr nat) (mode : xdp_attach_mode) : M Z :=
  if IS_ERR_OR_NULL mp && is_null old_mp then pret (- EINVAL)
  else if bool_decide (mode = XDP_MODE_HW) then pret (- EINVAL)
  else
    let! r := attach_fds old_mp mp in
    match r with
    | inl e => pret e
    | inr (prog_fd, old_fd, ifindex) =>
      let! err := xdp_attach_fd prog_fd old_fd ifindex mode in
      if err <? 0 then
        let! w := pget in
        if (errno w =? EBUSY) && is_null mp then
          let! id := xdp_multiprog__main_id old_mp in xdp_detach_link ifindex id
        else pret err
      else pret 0
    end.

Definition xdp_multiprog__detach_hw (old_mp : ptr nat) : M Z :=
  match old_mp with
  | Ptr a =>
    let! m := mp_deref a in
    let! hw_fd := xdp_multiprog__hw_fd old_mp in
    if hw_fd <? 0 then pret (- EINVAL)
    else
      let! err := xdp_attach_fd (-1) hw_fd (xdp_multiprog.ifindex m) XDP_MODE_HW in
      if err <? 0 then pret err else pret 0
  | Null => pret (- EINVAL)
  | ErrPtr _ => pfault
  end.

(** [xdp_multiprog__pin] and [xdp_multiprog__unpin] write below the BPF file
    system; their effect there is the environment's. *)
Definition xdp_multiprog__pin (mp : ptr nat) : M Z :=
  match mp with
  | Ptr a =>
    let! m := mp_deref a in
    if xdp_multiprog.is_legacy m then pret (- EINVAL) else kop (k_pin m)
  | _ => pret (- EINVAL)
  end.
Definition xdp_multiprog__unpin (mp : ptr nat) : M Z :=
  match mp with
  | Ptr a =>
    let! m := mp_deref a in
    if xdp_multiprog.is_legacy m then pret (- EINVAL) else kop (k_unpin m)
  | _ => pret (- EINVAL)
  end.

Definition xdp_multiprog__detach (mp : ptr nat) : M Z :=
  match mp with
  | Ptr a =>
    let! m := mp_deref a in
    if negb (xdp_multiprog.is_loaded m) then libxdp_err (- EINVAL)
    else
      let! err := (if bool_decide (xdp_multiprog.hw_prog m = None) then pret 0
                   else xdp_multiprog__detach_hw mp) in
      if negb (err =? 0) then libxdp_err err
      else if bool_decide (xdp_multiprog.main_prog m = None) then libxdp_err err
      else
        let! err := xdp_multiprog__attach mp Null (xdp_multiprog.attach_mode m) in
        if negb (err =? 0) then libxdp_err err
        else
          let! legacy := xdp_multiprog__is_legacy mp in
          let! err := (if legacy then pret err else xdp_multiprog__unpin mp) in
          libxdp_err err
  | _ => libxdp_err (- EINVAL)
  end.

(** libbpf refuses to change the flags of an object that is loaded. *)
Definition set_frags_support (p : xdp_program.t) (frags : bool) : M xdp_program.t :=
  let! loaded := kread (k_obj_loaded p) in
  match xdp_program__set_xdp_frags_support (if loaded then - EBUSY else 0) (Ptr p) frags with
  | (_, Ptr p') => pret p'
  | _ => pret p
  end.

(** Attaching one program without a dispatcher.  [bpf_program__set_type] and
    [bpf_program__set_ifindex] follow the libbpf program pointer. *)
Definition xdp_program__attach_single (a : nat) (ifindex : Z) (mode : xdp_attach_mode) : M Z :=
  let! p := deref a in
  let! r :=
    (if prog_fd p <? 0 then
       let! fr := kernel_has_frags_support in
       let! p := (if fr then pret p else set_frags_support p false) in
       if bool_decide (bpf_prog p = None) then pfault
       else
         let! (err, p) := xdp_program__load false p in
         assign a p ;;; pret err
     else pret 0) in
  if negb (r =? 0) then pret r
  else
    let! p := deref a in
    if prog_fd p <? 0 then pret (- EINVAL)
    else xdp_attach_fd (xdp_program__fd (Ptr p)) (-1) ifindex mode.

Definition xdp_program__attach_hw (a : nat) (ifindex : Z) : M Z :=
  let! p := deref a in
  if bool_decide (bpf_prog p = None) then pfault
  else xdp_program__attach_single a ifindex XDP_MODE_HW.

(** ** Building a dispatcher *)

(** An entry of the array of programs to link: an object of the caller, or a
    program of the dispatcher that is replaced.  The latter were created from
    descriptors and have no libbpf program. *)
Inductive progref := Arg (a : nat) | Own (p : xdp_program.t).

Definition ref_deref (r : progref) : M xdp_program.t :=
  match r with Arg a => deref a | Own p => pret p end.
Definition ref_assign (r : progref) (p : xdp_program.t) : M () :=
  match r with Arg a => assign a p | Own _ => pret () end.

(** Loading the program to link as an extension of the dispatcher: the error,
    whether it was loaded now, and the program. *)
Definition link_load (r : progref) (p : xdp_program.t) (main_fd : Z)
    : M (Z * bool * xdp_program.t) :=
  if prog_fd p <? 0 then
    let! err := (if bool_decide (bpf_prog p = None) then pret (- EINVAL)
                 else kread (k_set_attach_target p main_fd)) in
    if negb (err =? 0) then pret (err, false, p)
    else
      let! (err, p) := xdp_program__load true p in
      ref_assign r p ;;;
      pret (if err =? 0 then 0 else if err =? - E2BIG then - EOPNOTSUPP else err, true, p)
  else pret (0, false, p).

(** Creating the link; the fall-back without a target is for kernels that do
    not know the target argument. *)
Definition link_attach (fd main_fd btf_id : Z) (was_loaded : bool) : M (Z + Z) :=
  let! l := kop (k_link_create fd main_fd btf_id) in
  match l with
  | inr lfd => pret (inr lfd)
  | inl e =>
    let! r :=
      (if e =? EINVAL then
         if negb was_loaded then pret (inl EOPNOTSUPP) else kop (k_raw_tp_open fd)
       else pret (inl e)) in
    match r with
    | inr lfd => pret (inr lfd)
    | inl e => pret (inl (if e =? EPERM then - EOPNOTSUPP else - e))
    end
  end.

(** The type of a function of a loaded program. *)
Definition find_prog_btf_id (name : string) (fd : Z) : M Z :=
  let! i := kread (k_prog_info fd) in
  match i with
  | inl e => pret (- e)
  | inr info =>
    if info_btf_id info =? 0 then pret (- EINVAL)
    else
      let! b := kread (k_btf_load (info_btf_id info)) in
      pret match b with
           | None => - EINVAL
           | Some b => btf__find_by_name_kind b name BTF_KIND_FUNC
           end
  end.

Definition xdp_multiprog__link_prog (mp : nat) (r : progref) : M Z :=
  let! m := mp_deref mp in
  let! p := ref_deref r in
  let enabled := dispatcher_config.num_progs_enabled (xdp_multiprog.config m) in
  if negb (xdp_multiprog.is_loaded m) || (enabled <=? xdp_multiprog.num_links m) then pret (- EINVAL)
  else
    let! err := kop k_kern_compat in
    if negb (err =? 0) then pret err
    else if negb (has_btf p) then pret (- EOPNOTSUPP)
    else
      match xdp_multiprog.main_prog m with
      | None => pfault
      | Some main =>
        let! btf_id := find_prog_btf_id (attach_func enabled (xdp_multiprog.num_links m)) (prog_fd main) in
        if btf_id <=? 0 then pret btf_id
        else
          let! (err, was_loaded, p) := link_load r p (prog_fd main) in
          if negb (err =? 0) then pret err
          else
            let! c := xdp_program__clone p in
            match c with
            | inl err => pret err
            | inr new_prog =>
              let! l := link_attach (prog_fd new_prog) (prog_fd main) btf_id was_loaded in
              match l with
              | inl err => xdp_program__close (Some new_prog) ;;; pret err
              | inr lfd =>
                let! ok := kop k_alloc in
                if negb ok then fclose lfd ;;; xdp_program__close (Some new_prog) ;;; pret (- ENOMEM)
                else
                  let linked := mk (bpf_prog new_prog) (has_obj new_prog) (has_btf new_prog)
                    (prog_fd new_prog) lfd (prog_name new_prog) (prog_tag new_prog) (prog_id new_prog)
                    (load_time new_prog) (is_frags new_prog) (run_prio new_prog)
                    (chain_call_actions new_prog) in
                  mp_assign mp (add_link linked m) ;;; pret 0
              end
            end
      end.

Fixpoint deref_all (rs : list progref) : M (list (progref * xdp_program.t)) :=
  match rs with
  | [] => pret []
  | r :: rs => let! p := ref_deref r in let! ps := deref_all rs in pret ((r, p) :: ps)
  end.

(** [qsort] with [cmp_xdp_programs]. *)
Fixpoint insert_by {A} (le : A → A → bool) (x : A) (l : list A) : list A :=
  match l with
  | [] => [x]
  | y :: l' => if le x y then x :: l else y :: insert_by le x l'
  end.
Definition qsort {A} (le : A → A → bool) (l : list A) : list A := foldr (insert_by le) [] l.
Definition cmp_le (x y : progref * xdp_program.t) : bool := cmp_xdp_programs x.2 y.2 <=? 0.

(** The programs of the new dispatcher before sorting: the kept programs of the
    old one, then the added ones.  The array has [n] entries; an entry outside
    it, or one left null, is a fault. *)
Fixpoint kept_progs (ps : list xdp_program.t) (ids : list Z) (remove : bool) (i n : Z)
    : option (Z + list progref) :=
  match ps with
  | [] => Some (inr [])
  | p :: ps =>
    if remove && bool_decide (prog_id p ∈ ids) then kept_progs ps ids remove i n
    else if n <=? i then if remove then Some (inl (- EINVAL)) else None
    else match kept_progs ps ids remove (i + 1) n with
         | Some (inr l) => Some (inr (Own p :: l))
         | r => r
         end
  end.

Definition new_prog_list (old : list xdp_program.t) (progs : list nat) (ids : list Z)
    (remove : bool) (n : Z) : option (Z + list progref) :=
  match kept_progs old ids remove 0 n with
  | Some (inr l) =>
    let added := if remove then [] else Arg <$> take (Z.to_nat (n - length l)) progs in
    if Z.of_nat (length (l ++ added)) =? n then Some (inr (l ++ added)) else None
  | r => r
  end.

Fixpoint deref_ids (progs : list nat) : M (list Z) :=
  match progs with
  | [] => pret []
  | a :: progs => let! p := deref a in let! ids := deref_ids progs in pret (prog_id p :: ids)
  end.

Definition make_config (frags : bool) (ps : list xdp_program.t) : dispatcher_config.t :=
  dispatcher_config.mk (length ps)
    (frags && forallb (λ p, xdp_program__xdp_frags_support (Ptr p)) ps)
    ((λ p, Z.lor (chain_call_actions p) (2 ^ XDP_DISPATCHER_RETVAL)) <$> ps)
    (run_prio <$> ps)
    ((λ p, if xdp_program__xdp_frags_support (Ptr p) then BPF_F_XDP_HAS_FRAGS else 0) <$> ps).

Definition xdp_multiprog__new (ifindex : Z) : M (Z + nat) :=
  let! ok := kop k_alloc in
  if negb ok then pret (inl (- ENOMEM)) else let! a := mp_alloc (new_mp ifindex) in pret (inr a).

Definition xdp_multiprog__load (mp : nat) : M Z :=
  let! m := mp_deref mp in
  match xdp_multiprog.main_prog m with
  | Some main =>
    if xdp_multiprog.is_loaded m || xdp_multiprog.is_legacy m then pret (- EINVAL)
    else
      let! main := (if dispatcher_config.is_xdp_frags (xdp_multiprog.config m)
                    then set_frags_support main true else pret main) in
      let! (err, main) := xdp_program__load false main in
      mp_assign mp (set_main (xdp_multiprog.config m) (Some main) (err =? 0) m) ;;;
      pret (if err =? 0 then 0 else - EOPNOTSUPP)
  | None => pret (- EINVAL)
  end.

Fixpoint link_all (mp : nat) (rs : list progref) : M Z :=
  match rs with
  | [] => pret 0
  | r :: rs =>
    let! err := xdp_multiprog__link_prog mp r in
    if negb (err =? 0) then pret err else link_all mp rs
  end.

(** The work of [xdp_multiprog__generate] once the object [mp] exists; any
    non-zero result leads to its [err] label. *)
Definition generate_body (mp : nat) (progs : list nat) (old_mp : ptr nat) (remove : bool) (n : Z) : M Z :=
  let! frags := kernel_has_frags_support in
  let! ids := deref_ids progs in
  let! l :=
    match old_mp with
    | Ptr a =>
      let! old := mp_deref a in
      let! m := mp_deref mp in
      if xdp_multiprog.is_legacy old then pret (inl (- EBUSY))
      else if xdp_multiprog.version old <? xdp_multiprog.version m then pret (inl (- EBUSY))
      else
        let! ok := kop k_alloc in
        if negb ok then pret (inl (- ENOMEM))
        else match new_prog_list (xdp_multiprog.first_prog old) progs ids remove n with
             | Some r => pret r
             | None => pfault
             end
    | _ => pret (inr (Arg <$> progs))
    end in
  match l with
  | inl err => pret err
  | inr rs =>
    let! ps := deref_all rs in
    let sorted := qsort cmp_le ps in
    let! d := kop (k_find_dispatcher "xdp_dispatcher") in
    match d with
    | inl e => pret e
    | inr dispatcher =>
      let! m := mp_deref mp in
      mp_assign mp (set_main (xdp_multiprog.config m) (Some dispatcher) false m) ;;;
      let! has_map := kread k_dispatcher_map in
      if negb has_map then pret (- ENOENT)
      else
        let cfg := make_config frags (sorted.*2) in
        let! m := mp_deref mp in
        mp_assign mp (set_main cfg (xdp_multiprog.main_prog m) false m) ;;;
        let! err := kop (k_set_rodata (config_bytes (xdp_multiprog.version m) cfg)) in
        if negb (err =? 0) then pret err
        else
          let! err := xdp_multiprog__load mp in
          if negb (err =? 0) then pret err else link_all mp (sorted.*1)
    end
  end.

Definition xdp_multiprog__generate (progs : list nat) (ifindex : Z) (old_mp : ptr nat)
    (remove : bool) : M (ptr nat) :=
  let num_progs := Z.of_nat (length progs) in
  if (num_progs =? 0) || (is_null old_mp && remove) then pret (ErrPtr (- EINVAL))
  else
    let! num_links := match old_mp with
      | Ptr a => let! old := mp_deref a in pret (xdp_multiprog.num_links old)
      | _ => pret 0
      end in
    let n := u64 (if remove then num_links - num_progs else num_links + num_progs) in
    if MAX_DISPATCHER_ACTIONS <? n then pret (ErrPtr (- E2BIG))
    else
      let! r := xdp_multiprog__new ifindex in
      match r with
      | inl e => pret (ErrPtr e)
      | inr mp =>
        let! err := generate_body mp progs old_mp remove n in
        if negb (err =? 0) then xdp_multiprog__close (Ptr mp) ;;; pret (ErrPtr err)
        else pret (Ptr mp)
      end.

(** ** Attaching and detaching *)

(** What one round of [xdp_program__attach_multi] leads to: a result, or the
    [retry] label. *)
Inductive round := Done (err : Z) | Retry.

Definition drop_err {A} (p : ptr A) : ptr A := if IS_ERR_OR_NULL p then Null else p.

(** The round of [xdp_program__attach_multi] from the point where the new
    dispatcher [mp] exists; [last] is whether a further retry is refused. *)
Definition attach_new (last : bool) (old_mp mp : ptr nat) (mode : xdp_attach_mode) : M round :=
  let finish err :=
    xdp_multiprog__close mp ;;; xdp_multiprog__close old_mp ;;;
    let! e := libxdp_err err in pret (Done e) in
  let! err := xdp_multiprog__pin mp in
  if negb (err =? 0) then finish err
  else
    let! err := xdp_multiprog__attach old_mp mp mode in
    if negb (err =? 0) then
      let! _ := xdp_multiprog__unpin mp in
      if err =? - EAGAIN then
        if last then finish (- EBUSY)
        else xdp_multiprog__close old_mp ;;; xdp_multiprog__close mp ;;; pret Retry
      else finish err
    else
      let! _ := (if is_null old_mp then pret 0 else xdp_multiprog__unpin old_mp) in
      finish 0.

Definition attach_round (last : bool) (progs : list nat) (ifindex : Z) (mode : xdp_attach_mode)
    : M round :=
  let! got := xdp_multiprog__get_from_ifindex ifindex in
  let old_mp := drop_err got in
  match progs with
  | [] => pfault
  | prog0 :: others =>
    let single :=
      let! err := xdp_program__attach_single prog0 ifindex mode in
      let! e := libxdp_err err in pret (Done e) in
    if bool_decide (mode = XDP_MODE_HW) then
      let! hw := xdp_multiprog__hw_prog old_mp in
      xdp_multiprog__close old_mp ;;;
      if negb (is_null hw) then let! e := libxdp_err (- EEXIST) in pret (Done e)
      else if bool_decide (others ≠ []) then let! e := libxdp_err (- EINVAL) in pret (Done e)
      else
        let! err := xdp_program__attach_hw prog0 ifindex in
        let! e := libxdp_err err in pret (Done e)
    else
      let! skip := kread k_skip_dispatcher in
      if bool_decide (others = []) && skip then single
      else
        let! mp := xdp_multiprog__generate progs ifindex old_mp false in
        match mp with
        | ErrPtr err =>
          if (err =? - EOPNOTSUPP) && bool_decide (others = []) then single
          else
            xdp_multiprog__close old_mp ;;;
            let! e := libxdp_err err in pret (Done e)
        | _ => attach_new last old_mp mp mode
        end
  end.

Fixpoint attach_retry (tries : nat) (progs : list nat) (ifindex : Z) (mode : xdp_attach_mode) : M Z :=
  let! r := attach_round (bool_decide (tries = O)) progs ifindex mode in
  match r, tries with
  | Done err, _ => pret err
  | Retry, S tries => attach_retry tries progs ifindex mode
  | Retry, O => pfault
  end.

Definition xdp_program__attach_multi (progs : list nat) (ifindex : Z) (mode : xdp_attach_mode)
    (flags : Z) : M Z :=
  if bool_decide (progs = []) || negb (flags =? 0) then libxdp_err (- EINVAL)
  else attach_retry MAX_RETRY progs ifindex mode.

Definition xdp_program__attach (prog : ptr nat) (ifindex : Z) (mode : xdp_attach_mode) (flags : Z) : M Z :=
  match prog with
  | Ptr a => let! err := xdp_program__attach_multi [a] ifindex mode flags in libxdp_err err
  | _ => libxdp_err (- EINVAL)
  end.

(** The checks of [xdp_program__detach_multi] in legacy or hardware mode. *)
Definition check_single (mp : ptr nat) (progs : list nat) (mode : xdp_attach_mode) : M Z :=
  let! id := (if bool_decide (mode = XDP_MODE_HW) then xdp_multiprog__hw_id mp
              else xdp_multiprog__main_id mp) in
  match progs with
  | [a] =>
    let! p := deref a in
    if xdp_program__id (Ptr p) =? 0 then pret (- EINVAL)
    else if negb (id =? xdp_program__id (Ptr p)) then pret (- ENOENT)
    else pret 0
  | _ => pret (- EINVAL)
  end.

(** The first pass: every program must be loaded and part of the dispatcher. *)
Fixpoint check_progs (mp : nat) (progs : list nat) : M Z :=
  match progs with
  | [] => pret 0
  | a :: progs =>
    let! p := deref a in
    if prog_id p =? 0 then pret (- EINVAL)
    else
      let! m := mp_deref mp in
      if bool_decide (prog_id p ∈ prog_id <$> xdp_multiprog.first_prog m) then check_progs mp progs
      else pret (- ENOENT)
  end.

(** The body of [xdp_program__detach_multi] up to its [out] label: the error
    and the new dispatcher, if one was built. *)
Definition detach_body (a : nat) (progs : list nat) (ifindex : Z) (mode : xdp_attach_mode)
    : M (Z * ptr nat) :=
  let mp := Ptr a in
  let ret err := pret (err, Null) in
  let! legacy := xdp_multiprog__is_legacy mp in
  let! err := (if bool_decide (mode = XDP_MODE_HW) || legacy then check_single mp progs mode
               else pret 0) in
  if negb (err =? 0) then ret err
  else if bool_decide (mode = XDP_MODE_HW) then
    let! err := xdp_multiprog__detach_hw mp in ret err
  else
    let! m := mp_deref a in
    if bool_decide (mode ≠ XDP_MODE_UNSPEC) && bool_decide (xdp_multiprog.attach_mode m ≠ mode)
    then ret (- ENOENT)
    else if legacy then let! err := xdp_multiprog__attach mp Null mode in ret err
    else
      let! err := check_progs a progs in
      if negb (err =? 0) then ret err
      else if Z.of_nat (length progs) =? xdp_multiprog.num_links m then
        let! err := xdp_multiprog__attach mp Null (xdp_multiprog.attach_mode m) in
        if negb (err =? 0) then ret err
        else let! err := xdp_multiprog__unpin mp in ret err
      else
        let! new_mp := xdp_multiprog__generate progs ifindex mp true in
        match new_mp with
        | ErrPtr err => pret (err, new_mp)
        | _ =>
          let! err := xdp_multiprog__pin new_mp in
          if negb (err =? 0) then pret (err, new_mp)
          else
            let! err := xdp_multiprog__attach mp new_mp mode in
            if negb (err =? 0) then
              let! _ := xdp_multiprog__unpin new_mp in pret (err, new_mp)
            else
              let! _ := xdp_multiprog__unpin mp in pret (0, new_mp)
        end.

Definition detach_round (last : bool) (progs : list nat) (ifindex : Z) (mode : xdp_attach_mode)
    : M round :=
  let! mp := xdp_multiprog__get_from_ifindex ifindex in
  match mp with
  | Ptr a =>
    let! (err, new_mp) := detach_body a progs ifindex mode in
    xdp_multiprog__close mp ;;; xdp_multiprog__close new_mp ;;;
    if err =? - EAGAIN then
      if last then let! e := libxdp_err (- EBUSY) in pret (Done e) else pret Retry
    else let! e := libxdp_err err in pret (Done e)
  | _ => let! e := libxdp_err (- ENOENT) in pret (Done e)
  end.

Fixpoint detach_retry (tries : nat) (progs : list nat) (ifindex : Z) (mode : xdp_attach_mode) : M Z :=
  let! r := detach_round (bool_decide (tries = O)) progs ifindex mode in
  match r, tries with
  | Done err, _ => pret err
  | Retry, S tries => detach_retry tries progs ifindex mode
  | Retry, O => pfault
  end.

Definition xdp_program__detach_multi (progs : list nat) (ifindex : Z) (mode : xdp_attach_mode)
    (flags : Z) : M Z :=
  if negb (flags =? 0) || bool_decide (progs = []) then libxdp_err (- EINVAL)
  else detach_retry MAX_RETRY progs ifindex mode.

Definition xdp_program__detach (prog : ptr nat) (ifindex : Z) (mode : xdp_attach_mode) (flags : Z) : M Z :=
  match prog with
  | Ptr a => let! err := xdp_program__detach_multi [a] ifindex mode flags in libxdp_err err
  | _ => pret (- EINVAL)
  end.

(** ** Is a program attached? *)

(** The [while] loop over [xdp_multiprog__next_prog], from position [prog]. *)
Fixpoint find_prog (fuel : nat) (prog : option nat) (mp : ptr nat) (id : Z) : M (option xdp_program.t) :=
  match fuel with
  | O => pfault
  | S fuel =>
    let! n := xdp_multiprog__next_prog prog mp in
    match n with
    | None => pret None
    | Some (i, p) => if xdp_program__id (Ptr p) =? id then pret (Some p) else find_prog fuel (Some i) mp id
    end
  end.

(** Enough rounds for the list of [mp] and the final null. *)
Definition next_fuel (mp : ptr nat) : M nat :=
  match mp with
  | Ptr a => let! m := mp_deref a in pret (S (length (xdp_multiprog.first_prog m)))
  | _ => pret 1%nat
  end.

(** The loop starts from the variable that held the hardware program, whose
    [next] is null, so with such a program on the interface it ends at once. *)
Definition xdp_program__is_attached (prog : ptr nat) (ifindex : Z) : M xdp_attach_mode :=
  match prog with
  | Ptr a =>
    let! p := deref a in
    let id := prog_id p in
    if id =? 0 then pret XDP_MODE_UNSPEC
    else
      let! mp := xdp_multiprog__get_from_ifindex ifindex in
      if IS_ERR_OR_NULL mp then pret XDP_MODE_UNSPEC
      else
        let! hw := xdp_multiprog__hw_prog mp in
        let! ret :=
          (if xdp_program__id hw =? id then pret XDP_MODE_HW
           else
             let! legacy := xdp_multiprog__is_legacy mp in
             if legacy then
               let! main := xdp_multiprog__main_prog mp in
               if xdp_program__id main =? id then xdp_multiprog__attach_mode mp
               else pret XDP_MODE_UNSPEC
             else if negb (is_null hw) then pret XDP_MODE_UNSPEC
             else
               let! fuel := next_fuel mp in
               let! f := find_prog fuel None mp id in
               match f with Some _ => xdp_multiprog__attach_mode mp | None => pret XDP_MODE_UNSPEC end) in
        xdp_multiprog__close mp ;;; pret ret
  | _ => pret XDP_MODE_UNSPEC
  end.

End libxdp.

Arguments world : clear implicits.
Arguments M : clear implicits.
