(* ===== verification/StateDirs.v ===== *)
(** * libxdp: state directories, the lock, and stale pins

    Where libxdp keeps its state and how it cleans it up ([lib/libxdp/libxdp.c]):
    finding or mounting the BPF file system, the directory [xdp] in it, the lock
    on that directory (or on one below [/run]), and [libxdp_clean_references],
    which removes the directories of dispatchers that are no longer on their
    interface.  Paths are nodes of the file system of [Pin]; the variables that
    the C functions keep between calls ([static]) are the record [statics].

    What the system refuses is decided by the oracles of the class [Os].  Waiting
    for a lock that the process itself holds is a fault: it never ends. *)

From S2P Require Import Prelude CString Errno Params Libxdp Pin Multiprog.
From stdpp Require Import pretty.
Local Open Scope Z_scope.

Definition ENOTDIR : Z := 20.
Definition XDP_BPFFS_ENVVAR : string := "LIBXDP_BPFFS".
Definition XDP_BPFFS_MOUNT_ENVVAR : string := "LIBXDP_BPFFS_AUTOMOUNT".
Definition BPF_DIR_MNT : string := "/sys/fs/bpf".
Definition RUNDIR : string := "/run".

(** ** Reading a directory name

    [sscanf(name, "dispatch-%d-%u", ...)] as the C library documents it: the
    conversions skip white space, take a sign, and need a digit; what follows the
    second number is not looked at. *)
Definition digit (c : ascii) : option Z :=
  let d := Z.of_nat (nat_of_ascii c) - 48 in if (0 <=? d) && (d <=? 9) then Some d else None.

Fixpoint scan_digits (acc : Z) (seen : bool) (s : string) : option (Z * string) :=
  match s with
  | EmptyString => if seen then Some (acc, s) else None
  | String c s' =>
    match digit c with
    | Some d => scan_digits (10 * acc + d) true s'
    | None => if seen then Some (acc, s) else None
    end
  end.

(** The sign, the digits as a number, and the rest. *)
Definition scan_number (s : string) : option (bool * Z * string) :=
  let '(neg, s) := match skip_space s with
                   | String "-" s => (true, s)
                   | String "+" s => (false, s)
                   | s => (false, s)
                   end in
  '(v, rest) ← scan_digits 0 false s; Some (neg, v, rest).
Definition scan_d (s : string) : option (Z * string) :=
  '(neg, v, rest) ← scan_number s; Some (s32 (clamp_long (if neg : bool then - v else v)), rest).
Definition scan_u (s : string) : option (Z * string) :=
  '(neg, v, rest) ← scan_number s;
  Some (u32 (if 2 ^ 64 <=? v then 2 ^ 64 - 1 else if neg : bool then - v else v), rest).

Fixpoint strip (p s : string) : option string :=
  match p, s with
  | EmptyString, _ => Some s
  | String a p, String b s => if ascii_dec a b then strip p s else None
  | _, _ => None
  end.

Definition scan_dispatch (name : string) : option (Z * Z) :=
  s ← strip "dispatch-" name; '(i, s) ← scan_d s; s ← strip "-" s; '(id, _) ← scan_u s; Some (i, id).

(** ** The system *)

Inductive mount_call := MakePrivate | Bind | MountBpf.

(** The error number with which the system refuses to create, to remove, to
    open and to lock a path and to mount at it, the environment variables, the
    order in which a directory is listed, and what the kernel reports of an
    interface. *)
Class Os := {
  refuse : string → option Z;
  keep : string → option Z;
  refuse_open : string → option Z;
  refuse_lock : string → option Z;
  refuse_unlock : string → option Z;
  refuse_mount : mount_call → string → option Z;
  getenv : string → option string;
  dir_order : list (string * bool) → list (string * bool);
  query : Z → Z + xdp_query }.

Record statics := mk_statics {
  bpf_mnt_cached : bool; mnt : option string; bpffs_dir : option string; lock_dir : option (Z + string) }.

Record host := mk_host {
  files : fs;
  bpf_at : gset string;        (* where a BPF file system is mounted *)
  mount_points : gset string;
  fds : gmap nat string;       (* directories that are open *)
  locks : gset nat;            (* those of them that hold the lock *)
  vars : statics }.

Definition H (A : Type) : Type := prog host A.

Section host.
Context `{Os}.

Definition set_files (f : fs) (s : host) := mk_host f (bpf_at s) (mount_points s) (fds s) (locks s) (vars s).
Definition set_vars (v : statics) (s : host) := mk_host (files s) (bpf_at s) (mount_points s) (fds s) (locks s) v.
Definition set_fds (f : gmap nat string) (l : gset nat) (s : host) :=
  mk_host (files s) (bpf_at s) (mount_points s) f l (vars s).

(** Operations on paths. *)
Definition on_files {A} (f : fs → A * fs) : H A := λ s, let (a, t) := f (files s) in Some (a, set_files t s).
Definition sys_mkdir (p : string) : H Z := on_files (mkdir refuse p).
Definition sys_unlink (p : string) : H Z :=
  on_files (unlink keep p).
Definition sys_rmdir (p : string) : H Z :=
  on_files (rmdir keep p).

(** The rest of a path below a directory. *)
Definition below (dir p : string) : option string := strip (dir +:+ "/") p.
Fixpoint has_slash (s : string) : bool :=
  match s with EmptyString => false | String c s => bool_decide (c = "/"%char) || has_slash s end.

(** A directory is listed with its entries and the two that every directory has;
    [true] marks a directory. *)
Definition child (dir : string) (kv : string * node) : option (string * bool) :=
  n ← below dir kv.1; if has_slash n then None else Some (n, bool_decide (kv.2 = Directory)).
Definition listing (dir : string) (t : fs) : list (string * bool) :=
  dir_order ([("."%string, true); (".."%string, true)] ++ omap (child dir) (map_to_list t)).
Definition opendir (p : string) : H (Z + list (string * bool)) := λ s,
  Some (match refuse_open p, files s !! p with
        | Some e, _ => inl e
        | None, Some Directory => inr (listing p (files s))
        | None, Some (Pinned _) => inl ENOTDIR
        | None, None => inl ENOENT
        end, s).

(** Descriptors and the lock. *)
Definition open_dir (p : string) : H (Z + nat) := λ s,
  match refuse_open p, files s !! p with
  | Some e, _ => Some (inl e, s)
  | None, Some Directory =>
    let fd := fresh (dom (fds s)) in Some (inr fd, set_fds (<[fd := p]> (fds s)) (locks s) s)
  | None, Some (Pinned _) => Some (inl ENOTDIR, s)
  | None, None => Some (inl ENOENT, s)
  end.
Definition close_dir (fd : nat) : H () := λ s,
  _ ← fds s !! fd; Some ((), set_fds (delete fd (fds s)) (locks s ∖ {[ fd ]}) s).
(** A second descriptor for the directory waits for the first. *)
Definition flock_ex (fd : nat) : H Z := λ s,
  p ← fds s !! fd;
  match refuse_lock p with
  | Some e => Some (e, s)
  | None =>
    if decide (Exists (λ l, fds s !! l = Some p ∧ l ≠ fd) (elements (locks s))) then None
    else Some (0, set_fds (fds s) ({[ fd ]} ∪ locks s) s)
  end.
Definition flock_un (fd : nat) : H Z := λ s,
  p ← fds s !! fd;
  match refuse_unlock p with
  | Some e => Some (e, s)
  | None => Some (0, set_fds (fds s) (locks s ∖ {[ fd ]}) s)
  end.

(** Mounting: a path must be a mount point to be made private, and binding it
    to itself makes it one. *)
Definition sys_mount (c : mount_call) (p : string) : H Z := λ s,
  match refuse_mount c p with
  | Some e => Some (e, s)
  | None =>
    match c with
    | MakePrivate => Some (if decide (p ∈ mount_points s) then 0 else EINVAL, s)
    | Bind => Some (0, mk_host (files s) (bpf_at s) ({[ p ]} ∪ mount_points s) (fds s) (locks s) (vars s))
    | MountBpf => Some (0, mk_host (files s) ({[ p ]} ∪ bpf_at s) ({[ p ]} ∪ mount_points s) (fds s) (locks s) (vars s))
    end
  end.

(** ** The BPF file system *)

Definition bpf_is_valid_mntpt (p : string) : H bool := λ s, Some (bool_decide (p ∈ bpf_at s), s).

(** The [retry] loop of [bpf_mnt_fs]; it is entered twice at most. *)
Fixpoint mnt_private (fuel : nat) (target : string) (bind_done : bool) : H Z :=
  match fuel with
  | O => pfault
  | S fuel =>
    let! e := sys_mount MakePrivate target in
    if e =? 0 then pret 0
    else if negb (e =? EINVAL) || bind_done then pret (- e)
    else
      let! e := sys_mount Bind target in
      if negb (e =? 0) then pret (- e) else mnt_private fuel target true
  end.
Definition bpf_mnt_fs (target : string) : H Z :=
  let! err := mnt_private 2 target false in
  if negb (err =? 0) then pret err else let! e := sys_mount MountBpf target in pret (- e).

(** The path is copied into a buffer of [len] bytes. *)
Definition bpf_find_mntpt_single (len : Z) (mntpt : string) (mount : bool) : H (option string) :=
  let copy := Some (String.substring 0 (Z.to_nat (len - 1)) mntpt) in
  let! valid := bpf_is_valid_mntpt mntpt in
  if valid then pret copy
  else if negb mount then pret None
  else let! err := bpf_mnt_fs mntpt in pret (if err =? 0 then copy else None).

Definition find_bpffs : H (option string) :=
  let! s := pget in
  let v := vars s in
  if bpf_mnt_cached v then pret (mnt v)
  else
    let mount := bool_decide (getenv XDP_BPFFS_MOUNT_ENVVAR = Some "1"%string) in
    let! m := bpf_find_mntpt_single PATH_MAX (default BPF_DIR_MNT (getenv XDP_BPFFS_ENVVAR)) mount in
    let! s := pget in
    let v := vars s in
    pput (set_vars (mk_statics (bool_decide (is_Some m)) m (bpffs_dir v) (lock_dir v)) s) ;;; pret m.

(** ** The state directories *)

Definition state_subdir (parent : string) : string := parent +:+ "/xdp".

Definition mk_state_subdir (parent : string) : H Z :=
  if negb (try_path (state_subdir parent) =? 0) then pret (try_path (state_subdir parent))
  else
    let! e := sys_mkdir (state_subdir parent) in
    pret (if negb (e =? 0) && negb (e =? EEXIST) then - e else 0).

Definition get_bpffs_dir : H (Z + string) :=
  let! s := pget in
  match bpffs_dir (vars s) with
  | Some dir => pret (inr dir)
  | None =>
    let! parent := find_bpffs in
    match parent with
    | None => pret (inl (- ENOENT))
    | Some parent =>
      let! err := mk_state_subdir parent in
      if negb (err =? 0) then pret (inl err)
      else
        let! s := pget in
        let v := vars s in
        pput (set_vars (mk_statics (bpf_mnt_cached v) (mnt v) (Some (state_subdir parent)) (lock_dir v)) s) ;;;
        pret (inr (state_subdir parent))
    end
  end.

(** The result of [get_bpffs_dir] is stored before it is looked at, an error
    pointer as well. *)
Definition set_lock_dir (d : Z + string) : H () :=
  let! s := pget in
  let v := vars s in pput (set_vars (mk_statics (bpf_mnt_cached v) (mnt v) (bpffs_dir v) (Some d)) s).
Definition get_lock_dir : H (Z + string) :=
  let! s := pget in
  match lock_dir (vars s) with
  | Some d => pret d
  | None =>
    let! d := get_bpffs_dir in
    set_lock_dir d ;;;
    match d with
    | inr _ => pret d
    | inl _ =>
      let! err := mk_state_subdir RUNDIR in
      if negb (err =? 0) then pret (inl err)
      else set_lock_dir (inr (state_subdir RUNDIR)) ;;; pret (inr (state_subdir RUNDIR))
    end
  end.

(** ** The lock *)

Definition xdp_lock_acquire : H (Z + nat) :=
  let! d := get_lock_dir in
  match d with
  | inl err => pret (inl err)
  | inr dir =>
    let! fd := open_dir dir in
    match fd with
    | inl e => pret (inl (- e))
    | inr fd =>
      let! e := flock_ex fd in
      if negb (e =? 0) then close_dir fd ;;; pret (inl (- e)) else pret (inr fd)
    end
  end.

Definition xdp_lock_release (lock_fd : nat) : H Z :=
  let! e := flock_un lock_fd in close_dir lock_fd ;;; pret (- e).

(** ** Cleaning up *)

(** The loop of [remove_pin_dir]: the error, or 0. *)
Fixpoint remove_files (dir : string) (l : list (string * bool)) : H Z :=
  match l with
  | [] => pret 0
  | (n, is_dir) :: l =>
    if is_dir : bool then remove_files dir l
    else
      let path := path_join dir n in
      if negb (try_path path =? 0) then pret (try_path path)
      else
        let! e := sys_unlink path in
        if negb (e =? 0) then pret (- e) else remove_files dir l
  end.

Definition remove_pin_dir (subdir : string) : H Z :=
  let! d := get_bpffs_dir in
  match d with
  | inl err => pret err
  | inr dir =>
    let pin_path := path_join dir subdir in
    if negb (try_path pin_path =? 0) then pret (try_path pin_path)
    else
      let! l := opendir pin_path in
      match l with
      | inl e => pret (- e)
      | inr l =>
        let! err := remove_files pin_path l in
        if negb (err =? 0) then pret err else let! e := sys_rmdir pin_path in pret (- e)
      end
  end.

(** The identifier that [xdp_get_ifindex_prog_id] leaves in a variable that held
    [prog_id]. *)
Definition queried_id (ifindex prog_id : Z) : Z :=
  (ids_of_query (query ifindex) (prog_id, 0, XDP_MODE_UNSPEC)).2.1.1.

(** The loop of [libxdp_clean_references].  [prog_id] is a variable of the
    function: a query that fails or finds no program leaves it as it was. *)
Fixpoint clean_dirs (ifindex prog_id : Z) (l : list (string * bool)) : H Z :=
  match l with
  | [] => pret 0
  | (n, is_dir) :: l =>
    if negb is_dir then clean_dirs ifindex prog_id l
    else
      match scan_dispatch n with
      | None => clean_dirs ifindex prog_id l
      | Some (path_ifindex, dir_prog_id) =>
        if negb (ifindex =? 0) && negb (path_ifindex =? ifindex) then clean_dirs ifindex prog_id l
        else
          let prog_id := queried_id path_ifindex prog_id in
          if (prog_id =? 0) || negb (prog_id =? dir_prog_id) then
            let! err := remove_pin_dir n in
            if negb (err =? 0) then pret err else clean_dirs ifindex prog_id l
          else clean_dirs ifindex prog_id l
      end
  end.

Definition libxdp_clean_references (ifindex : Z) : H Z :=
  let! d := get_bpffs_dir in
  match d with
  | inl err => pret err
  | inr dir =>
    let! lock := xdp_lock_acquire in
    match lock with
    | inl err => pret err
    | inr lock_fd =>
      let! l := opendir dir in
      let! err :=
        match l with
        | inl e => pret (- e)
        | inr l => clean_dirs ifindex 0 l
        end in
      xdp_lock_release lock_fd ;;; pret err
    end
  end.
End host.
