(* ===== verification/StateDirsSpec.v ===== *)
(** * libxdp: what cleaning up leaves behind

    Theorems on [StateDirs]: the name of a dispatcher's directory is read back,
    cleaning removes only directories of dispatchers that are not reported on their
    interface, the lock is given back on every path, and an error in finding the lock
    directory is never forgotten. *)

From S2P Require Import Prelude CString Errno Params Libxdp Pin Multiprog StateDirs.
From stdpp Require Import pretty.
Local Open Scope Z_scope.

(** ** Strings *)

Lemma strip_app p s : strip p (p +:+ s) = Some s.
Proof.
  induction p as [|c p IH]; [done|]. change (String c p +:+ s) with (String c (p +:+ s)). cbn.
  by destruct (ascii_dec c c).
Qed.
Lemma strip_inv p s r : strip p s = Some r → s = p +:+ r.
Proof.
  revert s. induction p as [|c p IH]; intros s; [by intros [= ->]|]. destruct s as [|d s]; [done|]. cbn.
  destruct (ascii_dec c d) as [->|]; [|done]. intros ->%IH. done.
Qed.
Lemma strip_prefix p s : String.prefix p s = true ↔ is_Some (strip p s).
Proof.
  split.
  - revert s. induction p as [|c p IH]; intros s; [by exists s|]. destruct s as [|d s]; [done|]. cbn.
    destruct (ascii_dec c d); [|done]. apply IH.
  - intros [r ->%strip_inv]. apply Pin.prefix_app.
Qed.

Lemma app_nil_string s : s +:+ "" = s.
Proof. induction s as [|c s IH]; [done|]. exact (f_equal (String c) IH). Qed.
Lemma path_join_assoc dir n : path_join dir n = (dir +:+ "/") +:+ n.
Proof. unfold path_join. by rewrite string_app_assoc. Qed.
Lemma below_join dir n : below dir (path_join dir n) = Some n.
Proof. unfold below. rewrite path_join_assoc. apply strip_app. Qed.
Lemma below_inv dir p n : below dir p = Some n → p = path_join dir n.
Proof. unfold below. intros ->%strip_inv. by rewrite path_join_assoc. Qed.
Lemma string_app_inj a b c : a +:+ b = a +:+ c → b = c.
Proof. induction a as [|x a IH]; [done|]. intros [= E]. by apply IH. Qed.
Lemma path_join_inj dir n m : path_join dir n = path_join dir m → n = m.
Proof. rewrite !path_join_assoc. apply string_app_inj. Qed.

Lemma has_slash_app a b : has_slash (a +:+ b) = has_slash a || has_slash b.
Proof.
  induction a as [|c a IH]; [done|]. change (String c a +:+ b) with (String c (a +:+ b)). cbn.
  rewrite IH. by destruct (bool_decide _).
Qed.

(** Two names without a slash have nothing in common. *)
Lemma join_split n m r q : has_slash n = false → has_slash m = false →
  n +:+ (String "/" r) = m +:+ (String "/" q) → n = m.
Proof.
  revert m. induction n as [|c n IH]; intros m Hn Hm E.
  - destruct m as [|d m]; [done|]. injection E as <- _. cbn in Hm. by rewrite bool_decide_eq_true_2 in Hm.
  - cbn in Hn. apply orb_false_iff in Hn as [Hc Hn]. destruct m as [|d m].
    + injection E as -> _. by rewrite bool_decide_eq_true_2 in Hc.
    + cbn in Hm. apply orb_false_iff in Hm as [_ Hm]. injection E as -> E. f_equal. by apply IH.
Qed.

Lemma path_join_last a b n m : has_slash n = false → has_slash m = false → path_join a n = path_join b m → n = m.
Proof.
  unfold path_join. revert b. induction a as [|c a IH]; intros [|d b] Hn Hm E.
  - by injection E.
  - injection E as <- E. change ("" +:+ n) with n in E. rewrite E in Hn. rewrite !has_slash_app in Hn. apply orb_false_iff in Hn as [_ Hn]. by cbn in Hn.
  - injection E as -> E. change ("" +:+ m) with m in E. rewrite <- E in Hm. rewrite !has_slash_app in Hm. apply orb_false_iff in Hm as [_ Hm]. by cbn in Hm.
  - injection E as _ E. by eapply IH.
Qed.

(** A path is in a directory when it is the directory or below it. *)
Definition within (dir p : string) : Prop := p = dir ∨ is_Some (below dir p).
#[global] Instance within_dec dir p : Decision (within dir p).
Proof. apply _. Defined.

Lemma within_join_ne dir n m p :
  has_slash n = false → has_slash m = false → within (path_join dir n) p → within (path_join dir m) p → n = m.
Proof.
  intros Hn Hm. rewrite !path_join_assoc. set (d := dir +:+ "/").
  assert (∀ a b r, has_slash a = false → has_slash b = false → d +:+ a = path_join (d +:+ b) r → False) as Hno.
  { intros a b r Ha Hb E. rewrite path_join_assoc, !string_app_assoc in E. apply string_app_inj in E.
    rewrite E in Ha. rewrite !has_slash_app in Ha. cbn in Ha. by rewrite orb_true_r in Ha. }
  intros [->|[r ->%below_inv]] [E|[q E%below_inv]].
  - by apply string_app_inj in E.
  - by apply Hno in E.
  - by apply eq_sym, Hno in E.
  - rewrite !path_join_assoc, !string_app_assoc in E. apply string_app_inj in E. by eapply join_split.
Qed.

(** ** Names of directories *)

(** A text that does not begin with a digit. *)
Definition no_digit (s : string) : Prop := match s with String c _ => digit c = None | EmptyString => True end.

Lemma scan_digits_stop acc s : no_digit s → scan_digits acc true s = Some (acc, s).
Proof. destruct s as [|c s]; [done|]. cbn. by intros ->. Qed.

Lemma digit_pretty x : (x < 10)%N → digit (pretty_N_char x) = Some (Z.of_N x).
Proof.
  intros Hx. assert (x = 0 ∨ x = 1 ∨ x = 2 ∨ x = 3 ∨ x = 4 ∨ x = 5 ∨ x = 6 ∨ x = 7 ∨ x = 8 ∨ x = 9)%N as Hc by lia.
  by repeat (destruct Hc as [->|Hc]; [done|]); subst x.
Qed.

(** The digits of a number before a text [s]. *)
Lemma scan_pretty_go x acc seen s : (0 < x)%N →
  ∃ k, 0 < k ∧ scan_digits acc seen (pretty_N_go x s) = scan_digits (acc * k + Z.of_N x) true s.
Proof.
  revert s acc seen. induction (N.lt_wf_0 x) as [x _ IH]. intros s acc seen Hx.
  rewrite pretty_N_go_step by done. set (c := pretty_N_char (x `mod` 10)).
  assert (digit c = Some (Z.of_N (x `mod` 10))) as Hc by (apply digit_pretty, N.mod_lt; lia).
  destruct (decide (x `div` 10 = 0)%N) as [E|E].
  - rewrite E, pretty_N_go_0. exists 10. split; [lia|]. cbn. rewrite Hc. f_equal. 
    rewrite (N.div_mod' x 10) at 2. rewrite E. lia.
  - destruct (IH (x `div` 10)%N ltac:(apply N.div_lt; lia) (String c s) acc seen) as (k & Hk & ->); [by apply N.neq_0_lt_0|].
    exists (10 * k). split; [lia|]. cbn. rewrite Hc. f_equal.
    pose proof (N.div_mod' x 10). lia.
Qed.

Lemma scan_pretty_N x s : no_digit s → scan_digits 0 false (pretty x +:+ s) = Some (Z.of_N x, s).
Proof.
  intros Hs. unfold pretty, pretty_N. case_decide as E.
  - subst x. change ("0" +:+ s) with (String "0" s). cbn. by apply scan_digits_stop.
  - assert (∀ y t, pretty_N_go y t +:+ s = pretty_N_go y (t +:+ s)) as Hgo.
    { intros y. induction (N.lt_wf_0 y) as [y _ IH]. intros t. destruct (decide (y = 0)%N) as [->|].
      - by rewrite !pretty_N_go_0.
      - rewrite !(pretty_N_go_step y) by lia. rewrite IH; [done|]. apply N.div_lt; lia. }
    rewrite Hgo. destruct (scan_pretty_go x 0 false ("" +:+ s)) as (k & _ & ->); [lia|].
    rewrite Z.mul_0_l. by apply scan_digits_stop.
Qed.

Lemma digit_head c s : is_Some (digit c) →
  skip_space (String c s) = String c s ∧ c ≠ "-"%char ∧ c ≠ "+"%char.
Proof.
  unfold digit. intros Hd. set (n := nat_of_ascii c) in *.
  assert (48 ≤ n ≤ 57)%nat as Hn.
  { destruct (Z.leb_spec 0 (Z.of_nat n - 48)); [|by destruct Hd]. destruct (Z.leb_spec (Z.of_nat n - 48) 9); [lia|by destruct Hd]. }
  split_and!.
  - cbn. unfold isspace. fold n. destruct (Nat.eqb_spec n 32); [lia|]. destruct (Nat.leb_spec n 13); [lia|].
    by rewrite andb_false_r.
  - intros ->. vm_compute in Hn. lia.
  - intros ->. vm_compute in Hn. lia.
Qed.

Lemma scan_number_digits s v rest :
  scan_digits 0 false s = Some (v, rest) → scan_number s = Some (false, v, rest).
Proof.
  intros Hs. unfold scan_number. destruct s as [|c s]; [done|].
  assert (is_Some (digit c)) as Hd by (cbn in Hs; destruct (digit c); [by eexists|done]).
  destruct (digit_head c s Hd) as (-> & H1 & H2).
  destruct c as [[] [] [] [] [] [] [] []]; first [by cbn [mbind option_bind]; rewrite Hs | exfalso; tauto].
Qed.
Lemma scan_number_neg s v rest :
  scan_digits 0 false s = Some (v, rest) → scan_number ("-" +:+ s) = Some (true, v, rest).
Proof. intros Hs. unfold scan_number. change (skip_space ("-" +:+ s)) with (String "-" s). cbn -[scan_digits]. by rewrite Hs. Qed.

Lemma scan_number_pretty (z : Z) s : no_digit s →
  scan_number (pretty z +:+ s) = Some (z <? 0, Z.abs z, s).
Proof.
  intros Hs. destruct z as [|x|x].
  - change (pretty 0) with "0"%string. apply scan_number_digits. cbn. by apply scan_digits_stop.
  - change (pretty (Z.pos x)) with (pretty (N.pos x)). by apply scan_number_digits, scan_pretty_N.
  - change (pretty (Z.neg x)) with ("-" +:+ pretty (N.pos x)). rewrite string_app_assoc.
    by apply scan_number_neg, scan_pretty_N.
Qed.

Lemma clamp_small z : - 2 ^ 63 ≤ z < 2 ^ 63 → clamp_long z = z.
Proof. unfold clamp_long. lia. Qed.
Lemma s32_int z : - 2 ^ 31 ≤ z < 2 ^ 31 → s32 z = z.
Proof. intros Hz. unfold sint, wrap. change (32 - 1) with 31. case_match; dlia. Qed.
Lemma u32_s32 z : is_word 32 z → u32 (s32 z) = z ∧ - 2 ^ 31 ≤ s32 z < 2 ^ 31.
Proof. intros [Hz1 Hz2]. unfold sint, wrap. change (32 - 1) with 31. split; case_match; dlia. Qed.

Lemma has_slash_go x s : has_slash (pretty_N_go x s) = has_slash s.
Proof.
  revert s. induction (N.lt_wf_0 x) as [x _ IH]. intros s. destruct (decide (x = 0)%N) as [->|].
  - by rewrite pretty_N_go_0.
  - rewrite pretty_N_go_step by lia. rewrite IH by (apply N.div_lt; lia). cbn.
    rewrite bool_decide_eq_false_2; [done|]. intros E.
    assert (is_Some (digit (pretty_N_char (x `mod` 10)))) as [d Hd] by (rewrite digit_pretty by (apply N.mod_lt; lia); eauto).
    by rewrite E in Hd.
Qed.
Lemma has_slash_pretty (z : Z) : has_slash (pretty z) = false.
Proof.
  assert (∀ x : N, has_slash (pretty x) = false) as Hn.
  { intros x. unfold pretty, pretty_N. case_decide; [done|]. by rewrite has_slash_go. }
  destruct z as [|x|x]; [done|apply (Hn (N.pos x))|].
  change (pretty (Z.neg x)) with ("-" +:+ pretty (N.pos x)). rewrite has_slash_app. by rewrite Hn.
Qed.

(** The name under which [xdp_multiprog__pin] makes the directory. *)
Definition dispatch_name (ifindex prog_id : Z) : string :=
  "dispatch-" +:+ (pretty ifindex +:+ ("-" +:+ pretty (s32 prog_id))).

(** The directory that pinning a dispatcher makes is an entry of the state
    directory whose name is read back as the interface and the program that it
    was made for, also for identifiers that are printed as negative numbers. *)
Theorem dispatch_name_roundtrip dir ifindex prog_id :
  - 2 ^ 31 ≤ ifindex < 2 ^ 31 → is_word 32 prog_id →
  pin_path dir ifindex prog_id = path_join dir (dispatch_name ifindex prog_id) ∧
  has_slash (dispatch_name ifindex prog_id) = false ∧
  scan_dispatch (dispatch_name ifindex prog_id) = Some (ifindex, prog_id).
Proof.
  intros Hi Hid. destruct (u32_s32 prog_id Hid) as [Hu Hs]. split_and!.
  - done.
  - unfold dispatch_name. rewrite !has_slash_app, !has_slash_pretty. done.
  - unfold scan_dispatch, dispatch_name. rewrite strip_app. cbn [mbind option_bind].
    unfold scan_d. rewrite scan_number_pretty by done. cbn [mbind option_bind].
    assert ((if ifindex <? 0 then - Z.abs ifindex else Z.abs ifindex) = ifindex) as -> by (case_match; lia).
    rewrite clamp_small, s32_int by lia. rewrite strip_app. cbn [mbind option_bind].
    unfold scan_u. rewrite <- (app_nil_string (pretty (s32 prog_id))), scan_number_pretty by done. cbn [mbind option_bind].
    assert ((if s32 prog_id <? 0 then - Z.abs (s32 prog_id) else Z.abs (s32 prog_id)) = s32 prog_id) as -> by (case_match; lia).
    destruct (Z.leb_spec (2 ^ 64) (Z.abs (s32 prog_id))); [lia|]. by rewrite Hu.
Qed.

(** ** Removing files *)

Section clean.
Context `{Os}.

(** How the kernel labels what is on an interface: nothing, a program in one of
    the modes, or programs in several. *)
Definition kind_of (drv skb hw : Z) : attached :=
  match decide (drv = 0), decide (skb = 0), decide (hw = 0) with
  | left _, left _, left _ => XDP_ATTACHED_NONE
  | right _, left _, left _ => XDP_ATTACHED_DRV
  | left _, right _, left _ => XDP_ATTACHED_SKB
  | left _, left _, right _ => XDP_ATTACHED_HW
  | _, _, _ => XDP_ATTACHED_MULTI
  end.

(** What the system promises: a refusal is an error, listing a directory
    leaves nothing out, and the label of an answer fits its programs. *)
Record os_ok : Prop := {
  ok_order : ∀ l, dir_order l ≡ₚ l;
  ok_refuse : ∀ p e, refuse p = Some e → e ≠ 0;
  ok_keep : ∀ p e, keep p = Some e → e ≠ 0;
  ok_open : ∀ p e, refuse_open p = Some e → e ≠ 0;
  ok_lock : ∀ p e, refuse_lock p = Some e → e ≠ 0;
  ok_mount : ∀ c p e, refuse_mount c p = Some e → e ≠ 0;
  ok_query : ∀ i q, query i = inr q → attach_kind q = kind_of (drv_prog_id q) (skb_prog_id q) (hw_prog_id q) }.
Context (ok : os_ok).

(** Everything but the files. *)
Definition rest (s : host) := (bpf_at s, mount_points s, fds s, locks s, vars s).

(** Only paths in [D] were removed, and nothing else happened. *)
Definition shrinks (D : string → Prop) (s s' : host) : Prop :=
  rest s' = rest s ∧ ∀ p, files s' !! p = files s !! p ∨ files s' !! p = None ∧ D p.

Lemma shrinks_refl D s : shrinks D s s.
Proof. split; [done|]. by left. Qed.
Lemma shrinks_trans D s1 s2 s3 : shrinks D s1 s2 → shrinks D s2 s3 → shrinks D s1 s3.
Proof.
  intros [E1 H1] [E2 H2]. split; [congruence|]. intros p. destruct (H2 p) as [->|?]; [apply H1|by right].
Qed.
Lemma shrinks_mono (D D' : string → Prop) s s' : (∀ p, D p → D' p) → shrinks D s s' → shrinks D' s s'.
Proof. intros HD [E Hf]. split; [done|]. intros p. destruct (Hf p) as [?|[? ?]]; [by left|right; auto]. Qed.
Lemma shrinks_none D s s' p : shrinks D s s' → files s !! p = None → files s' !! p = None.
Proof. intros [_ Hf] Hp. destruct (Hf p) as [->|[? _]]; done. Qed.
Lemma shrinks_keeps D s s' p : shrinks D s s' → ¬ D p → files s' !! p = files s !! p.
Proof. intros [_ Hf] Hp. destruct (Hf p) as [?|[_ ?]]; done. Qed.

Lemma wp_on_files {A} (f : fs → A * fs) s Q :
  Q (f (files s)).1 (set_files (f (files s)).2 s) → wp (on_files f) s Q.
Proof. unfold wp, on_files. by destruct (f (files s)). Qed.

Lemma shrinks_delete s p : shrinks (eq p) s (set_files (delete p (files s)) s).
Proof.
  split; [done|]. intros q. cbn. destruct (decide (q = p)) as [->|]; [right|left; by rewrite lookup_delete_ne].
  split; [apply lookup_delete_eq|done].
Qed.

Lemma set_files_same s : set_files (files s) s = s.
Proof. by destruct s. Qed.

Lemma wp_unlink p s :
  wp (sys_unlink p) s (λ e s', shrinks (eq p) s s' ∧ (e = 0 → files s' !! p = None) ∧
    (keep p = None → (∃ fd, files s !! p = Some (Pinned fd)) → e = 0)).
Proof.
  apply wp_on_files. unfold unlink. destruct (keep p) as [e|] eqn:Ek.
  { cbn. rewrite set_files_same. split; [apply shrinks_refl|]. split; [|done]. intros ->. by apply (ok_keep ok) in Ek. }
  destruct (files s !! p) as [[|fd]|] eqn:Ep; cbn.
  - rewrite set_files_same. split; [apply shrinks_refl|]. split; [done|]. by intros _ [fd [=]].
  - split; [apply shrinks_delete|]. split; [intros _; apply lookup_delete_eq|done].
  - rewrite set_files_same. split; [apply shrinks_refl|]. split; [done|]. by intros _ [fd [=]].
Qed.

Lemma wp_rmdir p s :
  wp (sys_rmdir p) s (λ e s', shrinks (eq p) s s' ∧ (e = 0 → ∀ q, within p q → files s' !! q = None) ∧
    (keep p = None → files s !! p = Some Directory → (∀ q, is_Some (below p q) → files s !! q = None) → e = 0)).
Proof.
  apply wp_on_files. unfold rmdir. destruct (keep p) as [e|] eqn:Ek.
  { cbn. rewrite set_files_same. split; [apply shrinks_refl|]. split; [|done]. intros ->. by apply (ok_keep ok) in Ek. }
  destruct (files s !! p) as [[|fd]|] eqn:Ep; [|cbn; rewrite set_files_same; by split; [apply shrinks_refl|]..].
  destruct (decide _) as [Hex|Hno]; cbn.
  - rewrite set_files_same. split; [apply shrinks_refl|]. split; [done|]. intros _ _ Hn. exfalso.
    apply Exists_exists in Hex as ((q & v) & Hin%elem_of_map_to_list & Hq%strip_prefix). cbn in *. by rewrite Hn in Hin.
  - split; [apply shrinks_delete|]. split; [|done]. intros _ q Hq. destruct (decide (q = p)) as [->|Hne]; [apply lookup_delete_eq|].
    rewrite lookup_delete_ne by done. destruct Hq as [?|Hq]; [done|]. destruct (files s !! q) as [v|] eqn:Ev; [|done].
    exfalso. apply Hno, Exists_exists. exists (q, v). split; [by apply elem_of_map_to_list|]. by apply strip_prefix.
Qed.

(** ** A directory of pins *)

Lemma elem_listing dir t n b :
  (n, b) ∈ listing dir t ↔ ((n = "." ∨ n = "..")%string ∧ b = true) ∨
    has_slash n = false ∧ ∃ v, t !! path_join dir n = Some v ∧ b = bool_decide (v = Directory).
Proof.
  unfold listing. rewrite (ok_order ok), elem_of_app, !elem_of_cons, elem_of_nil, list_elem_of_omap. split.
  - intros [[[= -> ->]|[[= -> ->]|[]]]|((p & v) & Hin%elem_of_map_to_list & Hc)]; [by left; auto|by left; auto|].
    right. unfold child in Hc. cbn in Hc. destruct (below dir p) as [m|] eqn:Eb; [|done]. cbn in Hc.
    destruct (has_slash m) eqn:Es; [done|]. injection Hc as -> <-. split; [done|]. exists v. apply below_inv in Eb. by subst p.
  - intros [[[-> | ->] ->]|(Hs & v & Hv & ->)]; [auto|auto|]. right. exists (path_join dir n, v).
    split; [by apply elem_of_map_to_list|]. unfold child. cbn. rewrite below_join. cbn. by rewrite Hs.
Qed.

Lemma wp_remove_files dir l s :
  wp (remove_files dir l) s (λ e s',
    shrinks (λ p, ∃ n, (n, false) ∈ l ∧ p = path_join dir n) s s' ∧
    (e = 0 → ∀ n, (n, false) ∈ l → files s' !! path_join dir n = None) ∧
    (NoDup (filter (λ e, e.2 = false) l) → (∀ n, (n, false) ∈ l → try_path (path_join dir n) = 0 ∧ keep (path_join dir n) = None ∧
       ∃ fd, files s !! path_join dir n = Some (Pinned fd)) → e = 0)).
Proof.
  revert s. induction l as [|[n b] l IH]; intros s; cbn [remove_files].
  { apply wp_ret. split; [apply shrinks_refl|]. split; [|done]. intros _ n Hn. by apply elem_of_nil in Hn. }
  destruct b.
  { eapply wp_mono; [apply IH|]. intros e s' (Hs & He & Hp). split_and!.
    - eapply shrinks_mono; [|exact Hs]. intros p (m & Hm & ->). exists m. split; [by right|done].
    - intros E m [[=]|Hm]%elem_of_cons. by apply He.
    - rewrite filter_cons_False by done. intros Hnd Hm. apply Hp; [done|]. intros m Hin. apply Hm. by right. }
  destruct (Z.eqb_spec (try_path (path_join dir n)) 0) as [Et|Et]; cbn [negb].
  2:{ apply wp_ret. split; [apply shrinks_refl|]. split; [done|]. intros _ Hm. destruct (Hm n) as [? _]; [left|]; done. }
  apply wp_bind. eapply wp_mono; [apply wp_unlink|]. intros e s1 (Hs1 & He1 & Hp1).
  assert (shrinks (λ p, ∃ m, (m, false) ∈ (n, false) :: l ∧ p = path_join dir m) s s1) as Hs1'.
  { eapply shrinks_mono; [|exact Hs1]. intros p <-. exists n. split; [left|]; done. }
  destruct (Z.eqb_spec e 0) as [->|Ee]; cbn [negb].
  2:{ apply wp_ret. split; [done|]. split; [lia|]. intros _ Hm. destruct (Hm n) as (_ & Hk & Hfd); [left; done|].
      exfalso. by apply Ee, Hp1. }
  eapply wp_mono; [apply IH|]. intros e s' (Hs & He & Hp). split_and!.
  - eapply shrinks_trans; [done|]. eapply shrinks_mono; [|exact Hs]. intros p (m & Hm & ->). exists m. split; [by right|done].
  - intros E m [[= ->]|Hm]%elem_of_cons; [|by apply He]. eapply shrinks_none; [exact Hs|]. by apply He1.
  - rewrite filter_cons_True by done. intros [Hn Hnd]%NoDup_cons Hm. apply Hp; [done|]. intros m Hin.
    destruct (Hm m) as (H1 & H2 & H3); [by right|]. split_and!; [done|done|].
    rewrite (shrinks_keeps _ _ _ _ Hs1); [done|]. intros <-%path_join_inj. apply Hn. by apply list_elem_of_filter.
Qed.

(** The files of a directory are listed once. *)
Lemma NoDup_omap_child dir (l : list (string * node)) :
  NoDup l.*1 → NoDup (omap (child dir) l).
Proof.
  induction l as [|[p v] l IH]; intros Hnd; [constructor|]. cbn in Hnd. apply NoDup_cons in Hnd as [Hp Hnd].
  cbn. destruct (child dir (p, v)) as [[n b]|] eqn:Ec; [|by apply IH]. constructor; [|by apply IH].
  intros ((q & w) & Hin & Hq)%list_elem_of_omap. apply Hp. apply list_elem_of_fmap. exists (q, w). split; [|done].
  unfold child in Ec, Hq. cbn in *. destruct (below dir p) as [m|] eqn:E1; [|done]. destruct (below dir q) as [m'|] eqn:E2; [|done].
  cbn in *. destruct (has_slash m); [done|]. destruct (has_slash m'); [done|].
  injection Ec as -> _. injection Hq as -> _. apply below_inv in E1, E2. congruence.
Qed.
Lemma NoDup_listing (P : string * bool → Prop) `{∀ x, Decision (P x)} dir t :
  ¬ P ("."%string, true) → ¬ P (".."%string, true) → NoDup (filter P (listing dir t)).
Proof.
  intros Hd1 Hd2. unfold listing. rewrite (ok_order ok), filter_app. do 2 (rewrite filter_cons_False by done). rewrite filter_nil, app_nil_l.
  apply NoDup_filter, NoDup_omap_child, NoDup_fst_map_to_list.
Qed.

(** What it takes to remove a directory: it holds nothing but pins, and the
    system refuses none of the calls. *)
Record removable (dir : string) (s : host) : Prop := {
  rm_dir : files s !! dir = Some Directory;
  rm_len : try_path dir = 0;
  rm_open : refuse_open dir = None;
  rm_keep : keep dir = None;
  rm_below : ∀ p v r, files s !! p = Some v → below dir p = Some r →
    has_slash r = false ∧ try_path p = 0 ∧ keep p = None ∧ ∃ fd, v = Pinned fd }.

Definition known (dir : string) (s : host) : Prop := bpffs_dir (vars s) = Some dir.

Lemma wp_get_known dir s Q : known dir s → Q (inr dir) s → wp get_bpffs_dir s Q.
Proof. intros Hk HQ. unfold get_bpffs_dir. apply wp_bind, wp_get. by rewrite Hk. Qed.

Lemma wp_remove_pin_dir dir n s : known dir s →
  wp (remove_pin_dir n) s (λ e s', shrinks (within (path_join dir n)) s s' ∧
    (e = 0 → ∀ p, within (path_join dir n) p → files s' !! p = None) ∧
    (removable (path_join dir n) s → e = 0)).
Proof.
  intros Hk. unfold remove_pin_dir. apply wp_bind, (wp_get_known dir); [done|]. set (d := path_join dir n).
  assert (∀ e, e ≠ 0 → (removable d s → e = 0) → wp (pret e) s (λ e s', shrinks (within d) s s' ∧
    (e = 0 → ∀ p, within d p → files s' !! p = None) ∧ (removable d s → e = 0))) as Hfail.
  { intros e He Hr. apply wp_ret. split; [apply shrinks_refl|]. by split. }
  destruct (Z.eqb_spec (try_path d) 0) as [Et|Et]; cbn [negb]; [|apply Hfail; [done|intros []; done]].
  apply wp_bind. unfold wp at 1, opendir.
  destruct (refuse_open d) as [e|] eqn:Eo.
  { apply Hfail; [|intros []; congruence]. apply (ok_open ok) in Eo. lia. }
  destruct (files s !! d) as [[|fd]|] eqn:Ed; [|apply Hfail; [done|intros []; congruence]..].
  apply wp_bind. eapply wp_mono; [apply wp_remove_files|]. intros e s1 (Hs1 & He1 & Hp1).
  assert (shrinks (λ q, is_Some (below d q)) s s1) as Hs1'.
  { eapply shrinks_mono; [|exact Hs1]. intros p (m & _ & ->). rewrite below_join. by eexists. }
  assert (removable d s → e = 0) as Hpe.
  { intros Hr. apply Hp1; [by apply NoDup_listing|]. intros m [[_ ?]|(Hm & v & Hv & Eb)]%elem_listing; [done|].
    destruct (rm_below _ _ Hr _ v m Hv (below_join d m)) as (_ & ? & ? & fd & ->). eauto. }
  destruct (Z.eqb_spec e 0) as [->|Ee]; cbn [negb].
  2:{ apply wp_ret. split; [|by split; [intros ->|]]. eapply shrinks_mono; [|exact Hs1']. by right. }
  apply wp_bind. eapply wp_mono; [apply wp_rmdir|]. intros e s2 (Hs2 & He2 & Hp2). apply wp_ret. split_and!.
  - eapply shrinks_trans; [eapply shrinks_mono; [|exact Hs1']; by right|]. eapply shrinks_mono; [|exact Hs2]. intros p <-. by left.
  - intros E. apply He2. lia.
  - intros Hr. cut (e = 0); [lia|]. apply Hp2; [apply (rm_keep _ _ Hr)| |].
    + rewrite (shrinks_keeps _ _ _ _ Hs1'); [done|]. intros [r Hb%below_inv].
      apply (f_equal String.length) in Hb. unfold path_join in Hb. rewrite !length_string_app in Hb. cbn in Hb. lia.
    + intros q [r Hq]. destruct (files s !! q) as [v|] eqn:Ev; [|by eapply shrinks_none].
      destruct (rm_below _ _ Hr _ _ _ Ev Hq) as (Hr1 & _ & _ & fd & ->). apply below_inv in Hq as ->.
      apply He1; [done|]. apply elem_listing. right. split; [done|]. exists (Pinned fd). split; [done|]. by rewrite bool_decide_eq_false_2.
Qed.

(** ** Which directories are stale *)

(** The program that the system reports on an interface: the one in the driver,
    else the one in the generic path.  There is none when the interface cannot be
    queried, and a program in the hardware does not count. *)
Definition attached_id (ifindex : Z) : option Z :=
  match query ifindex with
  | inl _ => None
  | inr q =>
    if decide (drv_prog_id q = 0) then if decide (skb_prog_id q = 0) then None else Some (skb_prog_id q)
    else Some (drv_prog_id q)
  end.

(** A directory is stale when its name is that of a dispatcher which is not
    reported on its interface; it is dead when no other interface is reported to
    have that dispatcher either. *)
Definition stale (ifindex : Z) (n : string) : bool :=
  match scan_dispatch n with
  | Some (i, id) => ((ifindex =? 0) || (i =? ifindex)) && bool_decide (attached_id i ≠ Some id)
  | None => false
  end.
Definition dead (ifindex : Z) (n : string) : Prop :=
  stale ifindex n = true ∧ ∀ i id j, scan_dispatch n = Some (i, id) → attached_id j ≠ Some id.

(** The variable is written with what is on the interface, or left. *)
Lemma queried_default i c : queried_id i c = default c (attached_id i).
Proof.
  unfold attached_id, queried_id, ids_of_query. destruct (query i) as [e|q] eqn:Eq; [done|].
  rewrite (ok_query ok i q Eq). unfold kind_of.
  destruct (decide (drv_prog_id q = 0)) as [Ed|Ed], (decide (skb_prog_id q = 0)) as [Es|Es], (decide (hw_prog_id q = 0)) as [Eh|Eh];
    try done; cbn; rewrite ?Ed, ?Es; cbn; try done.
  - by rewrite (proj2 (Z.eqb_neq _ _) Es).
  - by rewrite (proj2 (Z.eqb_neq _ _) Ed).
  - by rewrite (proj2 (Z.eqb_neq _ _) Ed).
  - by rewrite (proj2 (Z.eqb_neq _ _) Ed).
Qed.
Lemma attached_nonzero i id : attached_id i = Some id → id ≠ 0.
Proof. unfold attached_id. destruct (query i); [done|]. by repeat case_decide; intros [= <-]. Qed.

(** Only a stale directory is removed, and a dead one is. *)
Lemma stale_decided ifindex n i id c :
  scan_dispatch n = Some (i, id) → negb (ifindex =? 0) && negb (i =? ifindex) = false →
  (c = 0 ∨ ∃ j, attached_id j = Some c) →
  let q := queried_id i c in
  ((q =? 0) || negb (q =? id) = true → stale ifindex n = true) ∧
  (dead ifindex n → (q =? 0) || negb (q =? id) = true) ∧
  (q = 0 ∨ ∃ j, attached_id j = Some q).
Proof.
  intros Es Hi Hc. cbv zeta. unfold dead, stale. rewrite Es, queried_default.
  assert ((ifindex =? 0) || (i =? ifindex) = true) as -> by by destruct (ifindex =? 0), (i =? ifindex). cbn [andb].
  destruct (attached_id i) as [a|] eqn:Ea; cbn [from_option Datatypes.id]; split_and!.
  - rewrite (bool_decide_eq_true (Some a ≠ Some id)), (proj2 (Z.eqb_neq _ _) (attached_nonzero _ _ Ea)), orb_false_l, negb_true_iff, Z.eqb_neq. congruence.
  - intros [_ Hd]. specialize (Hd i id i eq_refl). rewrite orb_true_iff, negb_true_iff, Z.eqb_neq. right. congruence.
  - right. by exists i.
  - intros _. by apply bool_decide_eq_true.
  - intros [_ Hd]. rewrite orb_true_iff, negb_true_iff, Z.eqb_eq, Z.eqb_neq. destruct Hc as [->|[j Hj]]; [by left|right].
    intros ->. by apply (Hd i id j).
  - done.
Qed.

Lemma removable_other dir n m s s' :
  has_slash n = false → has_slash m = false → n ≠ m → shrinks (within (path_join dir m)) s s' →
  removable (path_join dir n) s → removable (path_join dir n) s'.
Proof.
  intros Hn Hm Hne Hs [H1 H2 H3 H4 H5]. split; [|done..|].
  - rewrite (shrinks_keeps _ _ _ _ Hs); [done|]. intros Hw. apply Hne. eapply within_join_ne; [done|done| |done]. by left.
  - intros p v r Hp. apply H5. destruct Hs as [_ Hs]. destruct (Hs p) as [<-|[? _]]; [done|congruence].
Qed.

Lemma known_shrinks D dir s s' : shrinks D s s' → known dir s → known dir s'.
Proof. intros [E _] Hk. unfold known. unfold rest in E. by injection E as _ _ _ _ ->. Qed.

Definition among (D : string → Prop) (dir : string) (l : list (string * bool)) (p : string) : Prop :=
  ∃ n, (n, true) ∈ l ∧ D n ∧ within (path_join dir n) p.
Notation stale_in i := (among (λ n, stale i n = true)).
Notation dead_in i := (among (dead i)).

Definition dirs_post (ifindex : Z) (dir : string) (l : list (string * bool)) (s : host) (e : Z) (s' : host) : Prop :=
  shrinks (stale_in ifindex dir l) s s' ∧
  (e = 0 → ∀ p, dead_in ifindex dir l p → files s' !! p = None) ∧
  (NoDup (filter (λ x, stale ifindex x.1 = true) l) →
   (∀ n, (n, true) ∈ l → stale ifindex n = true → has_slash n = false ∧ removable (path_join dir n) s) → e = 0).

Lemma among_cons D dir x l p : among D dir l p → among D dir (x :: l) p.
Proof. intros (m & Hm & ?). exists m. split; [by right|done]. Qed.

(** An entry that is left. *)
Lemma dirs_post_skip ifindex dir n b l s e s' :
  b = false ∨ ¬ dead ifindex n → dirs_post ifindex dir l s e s' → dirs_post ifindex dir ((n, b) :: l) s e s'.
Proof.
  intros Hb (Hs & He & Hp). split_and!.
  - eapply shrinks_mono; [|done]. intros p. apply among_cons.
  - intros E p (m & [[= -> <-]|Hm]%elem_of_cons & Hst & Hw); [by destruct Hb|]. apply (He E). by exists m.
  - intros Hnd Hm. apply Hp; [|intros m Hml; apply Hm; by right].
    rewrite filter_cons in Hnd. case_decide; [by apply NoDup_cons in Hnd as [_ ?]|done].
Qed.

Lemma wp_clean_dirs dir ifindex l c s :
  known dir s → (c = 0 ∨ ∃ j, attached_id j = Some c) →
  wp (clean_dirs ifindex c l) s (dirs_post ifindex dir l s).
Proof.
  revert c s. induction l as [|[n b] l IH]; intros c s Hk Hc; cbn [clean_dirs].
  { apply wp_ret. split; [apply shrinks_refl|]. split; [|done]. intros _ p (n & Hn & _). by apply elem_of_nil in Hn. }
  assert (∀ c, (c = 0 ∨ ∃ j, attached_id j = Some c) → b = false ∨ ¬ dead ifindex n →
    wp (clean_dirs ifindex c l) s (dirs_post ifindex dir ((n, b) :: l) s)) as Hskip.
  { intros c' Hc' Hb. eapply wp_mono; [by apply IH|]. intros e s'. by apply dirs_post_skip. }
  destruct b; cbn [negb]; [|by apply Hskip; [|left]].
  destruct (scan_dispatch n) as [[i id]|] eqn:Es; [|apply Hskip; [done|right; unfold dead, stale; rewrite Es; by intros []]].
  destruct (negb (ifindex =? 0) && negb (i =? ifindex)) eqn:Ei.
  { apply Hskip; [done|right]. unfold dead, stale. rewrite Es. by destruct (ifindex =? 0), (i =? ifindex); try intros []. }
  destruct (stale_decided ifindex n i id c Es Ei Hc) as (Hst & Hde & Hq).
  destruct ((_ =? 0) || _) eqn:Er; [|apply Hskip; [done|right; intros ?%Hde; congruence]].
  specialize (Hst eq_refl). clear Hskip Hde Er.
  apply wp_bind. eapply wp_mono; [by apply (wp_remove_pin_dir dir n s)|]. intros e s1 (Hs1 & He1 & Hp1).
  assert (shrinks (stale_in ifindex dir ((n, true) :: l)) s s1) as Hs1'.
  { eapply shrinks_mono; [|exact Hs1]. intros p Hw. exists n. split; [by left|done]. }
  destruct (Z.eqb_spec e 0) as [->|Ee]; cbn [negb].
  2:{ apply wp_ret. split; [done|]. split; [done|]. intros _ Hm. apply Hp1, Hm; [by left|done]. }
  eapply wp_mono; [apply IH; [by eapply known_shrinks|done]|].
  intros e s' (Hs & He & Hp). split_and!.
  - eapply shrinks_trans; [done|]. eapply shrinks_mono; [|done]. intros p. apply among_cons.
  - intros E p (m & [[= ->]|Hm]%elem_of_cons & Hd & Hw).
    + eapply shrinks_none; [exact Hs|]. by apply He1.
    + apply (He E). by exists m.
  - intros Hnd Hm. rewrite filter_cons_True in Hnd by done. apply NoDup_cons in Hnd as [Hn Hnd]. apply Hp; [done|].
    intros m Hml Hst'. destruct (Hm m) as [Hsl Hr]; [by right|done|]. split; [done|].
    destruct (Hm n) as [Hsn _]; [by left|done|]. eapply removable_other; [done|exact Hsn| |done|done].
    intros ->. apply Hn. by apply list_elem_of_filter.
Qed.

(** ** The state directories and the lock *)

(** A stored error is not 0. *)
Definition lock_ok (s : host) : Prop := ∀ e, lock_dir (vars s) = Some (inl e) → e ≠ 0.

(** What looking for the directories may do: mount, make a state directory that
    is not there, remember what was found. *)
Definition inits (s s' : host) : Prop :=
  fds s' = fds s ∧ locks s' = locks s ∧ ((∀ d, known d s → known d s') ∧ (lock_ok s → lock_ok s')) ∧
  ∀ p, files s' !! p = files s !! p ∨
    files s !! p = None ∧ files s' !! p = Some Directory ∧ ∃ d, p = state_subdir d.

Lemma inits_refl s : inits s s.
Proof. repeat split; auto. Qed.
Lemma inits_trans s1 s2 s3 : inits s1 s2 → inits s2 s3 → inits s1 s3.
Proof.
  intros (F1 & L1 & [K1 O1] & P1) (F2 & L2 & [K2 O2] & P2). split_and!; [congruence|congruence|auto|auto|].
  intros p. destruct (P2 p) as [->|(E2 & E3 & Hd)]; [apply P1|].
  destruct (P1 p) as [E|(_ & E & _)]; [|congruence]. right. split_and!; [congruence|done|done].
Qed.
Lemma inits_seq {A B} (m : H A) (k : A → H B) s (P : A → host → Prop) Q :
  wp m s (λ a s', inits s s' ∧ P a s') → (∀ a s', inits s s' → P a s' → wp (k a) s' Q) → wp (pbind m k) s Q.
Proof. intros Hm Hk. apply wp_bind. eapply wp_mono; [exact Hm|]. intros a s' [? ?]. auto. Qed.

Lemma wp_mount c p s : wp (sys_mount c p) s (λ e s', inits s s' ∧ (e = 0 → c = MountBpf → p ∈ bpf_at s')).
Proof.
  unfold wp, sys_mount. destruct (refuse_mount c p) as [e|] eqn:E.
  - split; [apply inits_refl|]. intros ->. by apply (ok_mount ok) in E.
  - destruct c; (split; [|intros _; try done; set_solver]); repeat split; auto.
Qed.

(** The loop ends after two rounds. *)
Lemma wp_mnt_private target s : wp (mnt_private 2 target false) s (λ _ s', inits s s').
Proof.
  cbn [mnt_private]. eapply inits_seq; [apply wp_mount|]. intros e s1 H1 _.
  destruct (e =? 0); [by apply wp_ret|]. destruct (_ || _); [by apply wp_ret|].
  eapply inits_seq; [apply wp_mount|]. intros e2 s2 H2 _. pose proof (inits_trans _ _ _ H1 H2) as H12.
  destruct (negb (e2 =? 0)); [by apply wp_ret|].
  eapply inits_seq; [apply wp_mount|]. intros e3 s3 H3 _. pose proof (inits_trans _ _ _ H12 H3).
  destruct (e3 =? 0); [by apply wp_ret|]. rewrite orb_true_r. by apply wp_ret.
Qed.
Lemma wp_mnt_fs target s : wp (bpf_mnt_fs target) s (λ e s', inits s s' ∧ (e = 0 → target ∈ bpf_at s')).
Proof.
  unfold bpf_mnt_fs. apply wp_bind. eapply wp_mono; [apply wp_mnt_private|]. intros e s1 H1.
  destruct (Z.eqb_spec e 0); cbn [negb]; [|by apply wp_ret].
  eapply inits_seq; [apply wp_mount|]. intros e2 s2 H2 Hm. apply wp_ret. split; [exact (inits_trans _ _ _ H1 H2)|].
  intros E. apply Hm; [lia|done].
Qed.

Lemma inits_vars s v : (∀ d, bpffs_dir (vars s) = Some d → bpffs_dir v = Some d) →
  (∀ e, lock_dir v = Some (inl e) → e ≠ 0 ∨ lock_dir (vars s) = Some (inl e)) → inits s (set_vars v s).
Proof. intros Hv Hl. repeat split; auto. intros Hok e He. destruct (Hl e He) as [?|?]; [done|by apply Hok]. Qed.

Lemma wp_find_bpffs s : wp find_bpffs s (λ _ s', inits s s').
Proof.
  unfold find_bpffs. apply wp_bind, wp_get. destruct (bpf_mnt_cached (vars s)); [apply wp_ret, inits_refl|].
  apply wp_bind. apply (wp_mono _ _ (λ _ s', inits s s')).
  - unfold bpf_find_mntpt_single, bpf_is_valid_mntpt. apply wp_bind. unfold wp at 1.
    destruct (bool_decide _); [apply wp_ret, inits_refl|]. destruct (negb _); [apply wp_ret, inits_refl|].
    eapply inits_seq; [apply wp_mnt_fs|]. intros e s1 H1 _. by apply wp_ret.
  - intros m s1 H1. apply wp_bind, wp_get. apply wp_bind, wp_put. apply wp_ret.
    eapply inits_trans; [done|]. apply inits_vars; auto.
Qed.

Lemma wp_mk_state_subdir d s : wp (mk_state_subdir d) s (λ _ s', inits s s').
Proof.
  unfold mk_state_subdir. destruct (negb _); [apply wp_ret, inits_refl|]. apply wp_bind, wp_on_files. apply wp_ret.
  unfold mkdir. destruct (refuse _) as [e|]; [cbn; rewrite set_files_same; apply inits_refl|].
  destruct (files s !! state_subdir d) as [v|] eqn:E; [cbn; rewrite set_files_same; apply inits_refl|].
  split_and!; [done|done|done|done|]. intros p. cbn. destruct (decide (p = state_subdir d)) as [->|].
  - right. split; [done|]. split; [apply lookup_insert_eq|eauto].
  - left. by apply lookup_insert_ne.
Qed.

Lemma wp_mk_state_vars d s : wp (mk_state_subdir d) s (λ _ s', vars s' = vars s).
Proof. unfold mk_state_subdir. destruct (negb _); [by apply wp_ret|]. by apply wp_bind, wp_on_files, wp_ret. Qed.

Lemma wp_get_bpffs_dir s : wp get_bpffs_dir s (λ r s', inits s s' ∧
  match r with inr d => known d s' | inl e => e ≠ 0 end ∧ ∀ d, known d s → r = inr d ∧ s' = s).
Proof.
  unfold get_bpffs_dir. apply wp_bind, wp_get. destruct (bpffs_dir (vars s)) as [d|] eqn:Ed.
  { apply wp_ret. split; [apply inits_refl|]. split; [done|]. intros d' Hd'. unfold known in Hd'. split; congruence. }
  assert (∀ d, known d s → False) as Hno by (unfold known; congruence).
  apply wp_bind. eapply wp_mono; [apply wp_find_bpffs|]. intros [parent|] s1 H1.
  2:{ apply wp_ret. split; [done|]. split; [done|]. intros d Hd. by apply Hno in Hd. }
  apply wp_bind. eapply wp_mono; [apply wp_mk_state_subdir|]. intros e s2 H2. pose proof (inits_trans _ _ _ H1 H2) as H12.
  destruct (Z.eqb_spec e 0) as [->|He]; cbn [negb].
  2:{ apply wp_ret. split; [done|]. split; [done|]. intros d Hd. by apply Hno in Hd. }
  apply wp_bind, wp_get. apply wp_bind, wp_put. apply wp_ret. split; [|split; [done|intros d Hd; by apply Hno in Hd]].
  destruct H12 as (? & ? & [_ ?] & ?). split_and!; [done|done|intros d Hd; by apply Hno in Hd|done|done].
Qed.

Lemma wp_get_lock_dir s : lock_ok s → wp get_lock_dir s (λ r s', inits s s' ∧
  (∀ e, r = inl e → e ≠ 0) ∧ ∀ d, lock_dir (vars s) = Some d → r = d ∧ s' = s).
Proof.
  intros Hl. unfold get_lock_dir. apply wp_bind, wp_get. destruct (lock_dir (vars s)) as [d|] eqn:Ed.
  { apply wp_ret. split; [apply inits_refl|]. split; [intros e ->; by apply Hl|]. by intros d' [= <-]. }
  assert (∀ d s', (∀ e, d = inl e → e ≠ 0) → inits s s' → inits s (set_vars (mk_statics (bpf_mnt_cached (vars s')) (mnt (vars s')) (bpffs_dir (vars s')) (Some d)) s')) as Hset.
  { intros d s' Hne Hs'. eapply inits_trans; [done|]. apply inits_vars; [done|]. intros e [= ->]. left. by apply Hne. }
  apply wp_bind. eapply wp_mono; [apply wp_get_bpffs_dir|]. intros d s1 (H1 & Hd & _).
  apply wp_bind. unfold set_lock_dir at 1. apply wp_bind, wp_get, wp_put. assert (∀ e, d = inl e → e ≠ 0) as Hne by by intros e ->.
  pose proof (Hset d s1 Hne H1) as H1'.
  destruct d as [e|d]; [|by apply wp_ret]. apply wp_bind. eapply wp_mono; [apply wp_mk_state_subdir|].
  intros e' s2 H2. pose proof (inits_trans _ _ _ H1' H2) as H12.
  destruct (Z.eqb_spec e' 0) as [->|He']; cbn [negb]; [|apply wp_ret; split; [done|]; split; [by intros ? [= <-]|done]].
  apply wp_bind. unfold set_lock_dir. apply wp_bind, wp_get, wp_put. apply wp_ret. split; [by apply Hset|]. done.
Qed.

(** The lock directory is known and can be locked. *)
Definition lock_ready (s : host) : Prop :=
  ∃ d, lock_dir (vars s) = Some (inr d) ∧ files s !! d = Some Directory ∧ refuse_open d = None ∧ refuse_lock d = None.

Lemma set_fds_undo s fd p : locks s = ∅ → fds s !! fd = None →
  set_fds (delete fd (<[fd := p]> (fds s))) (locks s ∖ {[ fd ]}) s = s.
Proof.
  intros El Ef. rewrite delete_insert_id, El by done. destruct s. cbn in *. subst. unfold set_fds. cbn. f_equal. set_solver.
Qed.

Lemma wp_acquire s : locks s = ∅ → lock_ok s → wp xdp_lock_acquire s (λ r s',
  match r with
  | inl e => e ≠ 0 ∧ inits s s' ∧ ¬ lock_ready s
  | inr fd => ∃ s1 p, inits s s1 ∧ fds s1 !! fd = None ∧ s' = set_fds (<[fd := p]> (fds s1)) {[ fd ]} s1 ∧
      (lock_ready s → s1 = s)
  end).
Proof.
  intros El Hl. unfold xdp_lock_acquire. apply wp_bind. eapply wp_mono; [by apply wp_get_lock_dir|].
  intros d s1 (H1 & He & Hd).
  assert (∀ ld, lock_dir (vars s) = Some (inr ld) → d = inr ld ∧ s1 = s) as Hd' by (intros; by apply Hd).
  destruct d as [e|dir].
  { apply wp_ret. split; [by apply He|]. split; [done|]. intros (ld & E & _). by destruct (Hd' ld E). }
  apply wp_bind. unfold wp at 1, open_dir.
  assert (∀ e, e ≠ 0 → ¬ lock_ready s → wp (pret (inl (- e))) s1 (λ r s', match r with
    | inl e => e ≠ 0 ∧ inits s s' ∧ ¬ lock_ready s
    | inr fd => ∃ s1 p, inits s s1 ∧ fds s1 !! fd = None ∧ s' = set_fds (<[fd := p]> (fds s1)) {[ fd ]} s1 ∧ (lock_ready s → s1 = s)
    end)) as Hfail by (intros e Hne Hnr; apply wp_ret; split; [lia|done]).
  assert (locks s1 = ∅) as El1 by (destruct H1 as (_ & -> & _); done).
  destruct (refuse_open dir) as [e|] eqn:Eo.
  { apply Hfail; [by apply (ok_open ok) in Eo|]. intros (ld & E & _ & E2 & _). destruct (Hd' ld E) as [[= ->] _]. congruence. }
  destruct (files s1 !! dir) as [[|x]|] eqn:Ef.
  2,3: apply Hfail; [done|]; intros (ld & E & E2 & _); destruct (Hd' ld E) as [[= ->] ->]; congruence.
  set (fd := fresh (dom (fds s1))). assert (fds s1 !! fd = None) as Hfd by apply not_elem_of_dom, is_fresh.
  apply wp_bind. unfold wp at 1, flock_ex. cbn [fds set_fds locks]. rewrite lookup_insert_eq. cbn [mbind option_bind].
  destruct (refuse_lock dir) as [e|] eqn:Ek.
  - pose proof (ok_lock ok _ _ Ek) as Hne. rewrite (proj2 (Z.eqb_neq _ _) Hne). cbn [negb].
    apply wp_bind. unfold wp at 1, close_dir. cbn [fds set_fds locks]. rewrite lookup_insert_eq. cbn [mbind option_bind].
    replace (set_fds _ _ _) with s1; [|symmetry; exact (set_fds_undo s1 fd dir El1 Hfd)].
    apply Hfail; [done|]. intros (ld & E & _ & _ & E2). destruct (Hd' ld E) as [[= ->] _]. congruence.
  - rewrite decide_False.
    2:{ intros (l & Hin & _)%Exists_exists. apply elem_of_elements in Hin. rewrite El1 in Hin. set_solver. }
    cbn [Z.eqb negb]. apply wp_ret. exists s1, dir. split; [done|]. split; [done|]. split.
    + unfold set_fds. cbn. f_equal. rewrite El1. set_solver.
    + intros (ld & E & _). by destruct (Hd' ld E).
Qed.

Lemma wp_release fd p s : fds s !! fd = Some p →
  wp (xdp_lock_release fd) s (λ _ s', s' = set_fds (delete fd (fds s)) (locks s ∖ {[ fd ]}) s).
Proof.
  intros Hf. unfold xdp_lock_release. apply wp_bind. unfold wp at 1, flock_un. rewrite Hf. cbn [mbind option_bind].
  destruct (refuse_unlock p); apply wp_bind; unfold wp at 1, close_dir; cbn [fds set_fds locks]; rewrite Hf; apply wp_ret.
  - done.
  - unfold set_fds. cbn. f_equal. set_solver.
Qed.

(** ** Cleaning up *)

(** The paths in the directories of the state directory whose names have [D]. *)
Definition gone (D : string → Prop) (dir : string) (s : host) (p : string) : Prop :=
  ∃ n, has_slash n = false ∧ files s !! path_join dir n = Some Directory ∧ D n ∧ within (path_join dir n) p.

(** Looking for the directories makes no directory that could be a dispatcher's. *)
Lemma listed_before s s1 dir n i id : inits s s1 → scan_dispatch n = Some (i, id) →
  (n, true) ∈ listing dir (files s1) ↔ has_slash n = false ∧ files s !! path_join dir n = Some Directory.
Proof.
  intros (_ & _ & _ & Hf) Es. rewrite elem_listing. split.
  - intros [[[-> | ->] _]|(Hs & v & Hv & Ev)]; [done|done|]. split; [done|]. symmetry in Ev. apply bool_decide_eq_true in Ev as ->.
    destruct (Hf (path_join dir n)) as [<-|(_ & _ & d & E)]; [done|]. exfalso.
    change (state_subdir d) with (path_join d "xdp") in E. apply path_join_last in E; [|done|done]. by subst n.
  - intros [Hs Hd]. right. split; [done|]. exists Directory. split; [|done]. destruct (Hf (path_join dir n)) as [->|(E & _)]; [done|congruence].
Qed.
Lemma stale_scans ifindex n : stale ifindex n = true → ∃ i id, scan_dispatch n = Some (i, id).
Proof. unfold stale. destruct (scan_dispatch n) as [[i id]|]; [eauto|done]. Qed.

Lemma among_gone (D : string → Prop) ifindex dir s s1 p : (∀ n, D n → stale ifindex n = true) →
  inits s s1 → among D dir (listing dir (files s1)) p ↔ gone D dir s p.
Proof.
  intros HD Hi. split.
  - intros (n & Hn & Hst & Hw). destruct (stale_scans _ _ (HD _ Hst)) as (i & id & Es).
    apply (listed_before s s1 dir n i id Hi Es) in Hn as [? ?]. exists n. done.
  - intros (n & Hs & Hd & Hst & Hw). destruct (stale_scans _ _ (HD _ Hst)) as (i & id & Es). exists n.
    split; [|done]. by apply (listed_before s s1 dir n i id Hi Es).
Qed.

(** What is known when the stale directories have been dealt with. *)
Definition cleaned (ifindex : Z) (s : host) (e : Z) (s' : host) : Prop :=
  (∀ p, files s' !! p = files s !! p ∨
     files s !! p = None ∧ files s' !! p = Some Directory ∧ (∃ d, p = state_subdir d) ∨
     files s' !! p = None ∧ ∃ dir, known dir s' ∧ gone (λ n, stale ifindex n = true) dir s p) ∧
  (e = 0 → ∃ dir, known dir s' ∧ ∀ p, gone (dead ifindex) dir s p → files s' !! p = None).

Lemma cleaned_inits ifindex s s1 e s' : inits s s1 → files s' = files s1 → e ≠ 0 → cleaned ifindex s e s'.
Proof. intros (_ & _ & _ & Hf) Ef He. split; [|done]. intros p. rewrite Ef. destruct (Hf p) as [?|?]; auto. Qed.

Lemma cleaned_shrinks ifindex dir s s1 s1' s2 e :
  inits s s1 → files s1' = files s1 → known dir s1' →
  shrinks (stale_in ifindex dir (listing dir (files s1))) s1' s2 →
  (e = 0 → ∀ p, dead_in ifindex dir (listing dir (files s1)) p → files s2 !! p = None) →
  cleaned ifindex s e s2.
Proof.
  intros Hi Ef Hk Hs He. pose proof (known_shrinks _ _ _ _ Hs Hk) as Hk2. split.
  - intros p. destruct Hs as [_ Hs]. destruct (Hs p) as [->|[E Hp]]; [rewrite Ef|].
    + destruct Hi as (_ & _ & _ & Hf). destruct (Hf p) as [?|?]; auto.
    + right. right. split; [done|]. exists dir. split; [done|]. by apply (among_gone _ ifindex dir s s1).
  - intros E. exists dir. split; [done|]. intros p Hp. apply He; [done|]. apply (among_gone _ ifindex dir s s1); [by intros n []|done..].
Qed.

(** What [libxdp_clean_references] ends with, and that its last steps, after the
    directories were gone through, establish it. *)
Definition clears_all (ifindex : Z) (s : host) (e : Z) : Prop :=
  ∀ dir, known dir s → lock_ready s → files s !! dir = Some Directory → refuse_open dir = None →
    (∀ n, files s !! path_join dir n = Some Directory → stale ifindex n = true → removable (path_join dir n) s) → e = 0.
Definition clean_post (ifindex : Z) (s : host) (e : Z) (s' : host) : Prop :=
  fds s' = fds s ∧ locks s' = ∅ ∧ (∀ dir, known dir s → known dir s') ∧ cleaned ifindex s e s' ∧ clears_all ifindex s e.
Lemma wp_clean_end ifindex s s3 p fd e s' : inits s s3 → fds s3 !! fd = None →
  cleaned ifindex s e s' → rest s' = rest (set_fds (<[fd:=p]> (fds s3)) {[fd]} s3) → clears_all ifindex s e →
  wp (xdp_lock_release fd ;;; pret e) s' (clean_post ifindex s).
Proof.
  intros H13 Hfd Hc Hrest Hp. injection Hrest as _ _ Ef Eloc Ev. apply wp_bind. eapply wp_mono; [eapply (wp_release fd p)|].
  { rewrite Ef. cbn. apply lookup_insert_eq. }
  intros _ s5 ->. apply wp_ret. cbn. rewrite Ef, Eloc. cbn. rewrite delete_insert_id by done.
  split; [by destruct H13|]. split; [set_solver|]. split; [|split; [exact Hc|exact Hp]].
  intros d Hk. unfold known. cbn. rewrite Ev. destruct H13 as (_ & _ & [Hkk _] & _). by apply (Hkk d).
Qed.

(** C25: cleaning up always returns and gives the lock and the descriptor back.
    Whatever happens, nothing is removed but the directories of dispatchers that
    are not reported on their interface (an interface that cannot be queried is
    taken to have none); on success all of these are gone whose dispatcher is not
    reported on any other interface, and it succeeds when nothing stands in the
    way of removing them. *)
Theorem clean_references_stale ifindex s : locks s = ∅ → lock_ok s →
  ∃ e s', libxdp_clean_references ifindex s = Some (e, s') ∧ fds s' = fds s ∧ locks s' = ∅ ∧
    (∀ dir, known dir s → known dir s') ∧ cleaned ifindex s e s' ∧
    (∀ dir, known dir s → lock_ready s → files s !! dir = Some Directory → refuse_open dir = None →
       (∀ n, files s !! path_join dir n = Some Directory → stale ifindex n = true → removable (path_join dir n) s) → e = 0).
Proof.
  intros El Hl. apply wp_run. unfold libxdp_clean_references. apply wp_bind. eapply wp_mono; [apply wp_get_bpffs_dir|].
  intros d s1 (H1 & Hd & Hkn). assert (locks s1 = ∅) as El1 by (destruct H1 as (_ & -> & _); done).
  assert (lock_ok s1) as Hl1 by (destruct H1 as (_ & _ & [_ ?] & _); auto).
  destruct d as [e|dir].
  { apply wp_ret. split; [by destruct H1|]. split; [done|]. split; [by destruct H1 as (_ & _ & [? _] & _)|].
    split; [by apply (cleaned_inits ifindex s s1)|].
    intros d Hk. by destruct (Hkn d Hk). }
  apply wp_bind. eapply wp_mono; [by apply wp_acquire|]. intros [e|fd] s2 Hacq.
  { destruct Hacq as (He & H2 & Hnr). pose proof (inits_trans _ _ _ H1 H2) as H12. apply wp_ret.
    split; [by destruct H12|]. split; [destruct H2 as (_ & -> & _); done|].
    split; [by destruct H12 as (_ & _ & [? _] & _)|]. split; [by apply (cleaned_inits ifindex s s2)|].
    intros d' Hk Hr. destruct (Hkn d' Hk) as [_ ->]. done. }
  destruct Hacq as (s3 & p & H3 & Hfd & -> & Hs3). pose proof (inits_trans _ _ _ H1 H3) as H13.
  set (s4 := set_fds _ _ s3). assert (known dir s4) as Hk4 by (destruct H3 as (_ & _ & [Hk _] & _); by apply Hk).
  assert (∀ e s', cleaned ifindex s e s' → rest s' = rest s4 → clears_all ifindex s e →
    wp (xdp_lock_release fd ;;; pret e) s' (clean_post ifindex s)) as Hend by (intros e s'; apply (wp_clean_end ifindex s s3 p fd); done).
  apply wp_bind. unfold wp at 1, opendir. change (files s4) with (files s3).
  assert (∀ d, known d s → lock_ready s → d = dir ∧ s3 = s) as Hsame.
  { intros d' Hk Hr. destruct (Hkn d' Hk) as [[= ->] ->]. auto. }
  destruct (refuse_open dir) as [e|] eqn:Eo.
  { apply wp_bind, wp_ret, Hend; [|done|intros d' Hk Hr _ Eo'; destruct (Hsame d' Hk Hr); congruence].
    apply (cleaned_inits ifindex s s3); [done|done|]. apply (ok_open ok) in Eo. lia. }
  destruct (files s3 !! dir) as [[|x]|] eqn:Ed.
  2,3: apply wp_bind, wp_ret, Hend; [by apply (cleaned_inits ifindex s s3)|done|];
    intros d' Hk Hr Ed'; destruct (Hsame d' Hk Hr) as [-> ->]; congruence.
  apply wp_bind. eapply wp_mono; [apply (wp_clean_dirs dir); [done|by left]|].
  intros e s5 (Hs5 & He5 & Hp5). apply Hend; [by apply (cleaned_shrinks ifindex dir s s3 s4)|by destruct Hs5|].
  intros d' Hk Hr _ _ Hrm. destruct (Hsame d' Hk Hr) as [-> E3]. apply Hp5; [by apply NoDup_listing|].
  intros n Hn Hst. destruct (stale_scans _ _ Hst) as (i & id & Es).
  apply (listed_before s s3 dir n i id H13 Es) in Hn as [Hs Hnd]. split; [done|].
  destruct (Hrm n Hnd Hst) as [R1 R2 R3 R4 R5]. rewrite <- E3 in R1, R5. by split.
Qed.

(** Once neither the BPF file system nor the directory below [/run] could
    be used, no lock is ever acquired again in the process, whatever becomes of
    the system: the error pointer stays in the variable. *)
Theorem lock_error_sticks s e s' :
  lock_ok s → get_lock_dir s = Some (inl e, s') →
  ∃ e', e' ≠ 0 ∧ ∀ t, vars t = vars s' → xdp_lock_acquire t = Some (inl e', t).
Proof.
  intros Hl E.
  assert (∃ e', e' ≠ 0 ∧ lock_dir (vars s') = Some (inl e')) as (e' & He & Hs').
  { cut (wp get_lock_dir s (λ r s', ∀ e, r = inl e → ∃ e', e' ≠ 0 ∧ lock_dir (vars s') = Some (inl e'))).
    { intros Hw. unfold wp in Hw. rewrite E in Hw. by apply (Hw e). }
    clear E. unfold get_lock_dir. apply wp_bind, wp_get. destruct (lock_dir (vars s)) as [d|] eqn:Ed.
    { apply wp_ret. intros e1 ->. exists e1. split; [by apply Hl|done]. }
    apply wp_bind. eapply wp_mono; [apply wp_get_bpffs_dir|]. intros d s1 (_ & Hd & _).
    apply wp_bind. unfold set_lock_dir at 1. apply wp_bind, wp_get, wp_put. destruct d as [e1|d]; [|by apply wp_ret].
    apply wp_bind. eapply wp_mono; [apply wp_mk_state_vars|]. intros e2 s2 Ev. destruct (negb _).
    - apply wp_ret. intros _ _. exists e1. split; [done|]. by rewrite Ev.
    - apply wp_bind. unfold set_lock_dir. apply wp_bind, wp_get, wp_put, wp_ret. done. }
  exists e'. split; [done|]. intros t Ht. unfold xdp_lock_acquire, get_lock_dir, pbind, pget. rewrite Ht, Hs'. done.
Qed.
End clean.

(** ** An instance

    Interface 3 has the dispatcher with identifier 7, no other has any. *)
Definition plain_os : Os := {|
  refuse _ := None; keep _ := None; refuse_open _ := None; refuse_lock _ := None; refuse_unlock _ := None;
  refuse_mount _ _ := None; getenv _ := None; dir_order l := l;
  query i := inr (if i =? 3 then mk_query 7 0 0 XDP_ATTACHED_DRV else mk_query 0 0 0 XDP_ATTACHED_NONE) |}.

Definition xdp_dir : string := "/sys/fs/bpf/xdp".
(** The dispatcher of interface 3, an older one, and one of interface 4. *)
Definition pinned_fs : fs :=
  let pin i id s := (Pin.xdp_multiprog__pin (λ _, None) (λ _, None) (inr xdp_dir) i id 0 false sample_ps s).2 in
  pin 4 9 (pin 3 5 (pin 3 7 {[ xdp_dir := Directory ]})).
Definition pinned_host : host :=
  mk_host pinned_fs {[ BPF_DIR_MNT ]} ∅ ∅ ∅ (mk_statics true (Some BPF_DIR_MNT) (Some xdp_dir) (Some (inr xdp_dir))).

Section instance.
#[local] Existing Instance plain_os.

Lemma plain_ok : os_ok.
Proof. split; try done. intros i q [= <-]. by destruct (i =? 3). Qed.

(** The directories of [pinned_host]. *)
Lemma pinned_dirs p : pinned_fs !! p = Some Directory →
  p = xdp_dir ∨ p = path_join xdp_dir "dispatch-3-7" ∨ p = path_join xdp_dir "dispatch-3-5" ∨
  p = path_join xdp_dir "dispatch-4-9".
Proof.
  intros Hp%elem_of_map_to_list. revert Hp.
  assert (Forall (λ kv : string * node, kv.2 = Directory → kv.1 = xdp_dir ∨ kv.1 = path_join xdp_dir "dispatch-3-7" ∨
    kv.1 = path_join xdp_dir "dispatch-3-5" ∨ kv.1 = path_join xdp_dir "dispatch-4-9") (map_to_list pinned_fs)) as Hf.
  { apply (bool_decide_unpack _). vm_compute. done. }
  intros Hp. by apply (proj1 (Forall_forall _ _) Hf _ Hp).
Qed.

Lemma pinned_removable n : n = "dispatch-3-5"%string ∨ n = "dispatch-4-9"%string →
  removable (path_join xdp_dir n) pinned_host.
Proof.
  intros Hn. split; [destruct Hn as [-> | ->]; vm_compute; reflexivity|destruct Hn as [-> | ->]; vm_compute; reflexivity|reflexivity|reflexivity|].
  intros p v r Hp%elem_of_map_to_list Hr.
  assert (Forall (λ kv : string * node, match below (path_join xdp_dir n) kv.1 with
    | Some r => negb (has_slash r) && (try_path kv.1 =? 0) && bool_decide (kv.2 ≠ Directory)
    | None => true end = true) (map_to_list pinned_fs)) as Hf.
  { destruct Hn as [-> | ->]; apply (bool_decide_unpack _); vm_compute; exact I. }
  pose proof (proj1 (Forall_forall _ _) Hf _ Hp) as Hv. cbn [fst snd] in Hv. rewrite Hr in Hv. clear Hf Hp.
  apply andb_prop in Hv as [[H1%negb_true_iff H2%Z.eqb_eq]%andb_prop Hv%bool_decide_eq_true].
  split_and!; [exact H1|exact H2|reflexivity|]. destruct v as [|fd]; [by destruct Hv|by exists fd].
Qed.

(** The two stale directories are removed, the third one is kept. *)
Lemma clean_references_stale_witness : ∃ s',
  libxdp_clean_references 0 pinned_host = Some (0, s') ∧
  files s' !! "/sys/fs/bpf/xdp/dispatch-4-9/prog0-link"%string = None ∧
  files s' !! "/sys/fs/bpf/xdp/dispatch-3-7/prog0-link"%string = Some (Pinned 11).
Proof.
  assert (∀ n, pinned_fs !! path_join xdp_dir n = Some Directory → stale 0 n = true →
    n = "dispatch-3-5"%string ∨ n = "dispatch-4-9"%string) as Hst.
  { intros n Hn Hst. destruct (pinned_dirs _ Hn) as [E|[E|[E|E]]]; [|apply path_join_inj in E..].
    - apply (f_equal String.length) in E. unfold path_join in E. rewrite !length_string_app in E. cbn in E. lia.
    - subst n. vm_compute in Hst. congruence.
    - by left.
    - by right. }
  destruct (clean_references_stale plain_ok 0 pinned_host) as (e & s' & E & _ & _ & Hkn & [Hkeep Hgone] & Hok);
    [reflexivity|intros e [=]|].
  assert (e = 0) as ->.
  { apply (Hok xdp_dir); [reflexivity| |vm_compute; reflexivity|reflexivity|].
    - exists xdp_dir. split; [reflexivity|]. split; [vm_compute; reflexivity|]. split; reflexivity.
    - intros n Hn H1. apply pinned_removable. by apply Hst. }
  exists s'. split; [exact E|]. clear E Hok. destruct (Hgone eq_refl) as (dir & Hk & Hg).
  pose proof (Hkn xdp_dir eq_refl) as Hk'. unfold known in Hk, Hk'. rewrite Hk in Hk'. injection Hk' as ->. split.
  - apply Hg. exists "dispatch-4-9"%string. split; [reflexivity|]. split; [vm_compute; reflexivity|].
    split; [|right; eexists; vm_compute; reflexivity]. split; [vm_compute; reflexivity|].
    intros i id j Es. vm_compute in Es. injection Es as <- <-. unfold attached_id. cbn.
    destruct (j =? 3); vm_compute; congruence.
  - destruct (Hkeep "/sys/fs/bpf/xdp/dispatch-3-7/prog0-link"%string) as [->|[(E & _)|(_ & dir & Hd' & n & Hn & Hd & Hs & Hw)]].
    + vm_compute. reflexivity.
    + exfalso. vm_compute in E. congruence.
    + exfalso. unfold known in Hd'. rewrite Hk in Hd'. injection Hd' as <-.
      destruct (Hst n Hd Hs) as [-> | ->]; vm_compute in Hw; destruct Hw as [?|[? ?]]; congruence.
Defined.

(** The name of a directory whose identifier is printed as a negative number. *)
Lemma dispatch_name_roundtrip_witness :
  dispatch_name 3 (2 ^ 32 - 5) = "dispatch-3--5"%string ∧ scan_dispatch "dispatch-3--5" = Some (3, 2 ^ 32 - 5).
Proof.
  assert (dispatch_name 3 (2 ^ 32 - 5) = "dispatch-3--5"%string) as E by (vm_compute; reflexivity).
  split; [exact E|]. rewrite <- E.
  apply (dispatch_name_roundtrip xdp_dir 3 (2 ^ 32 - 5)); [lia|]. split; lia.
Defined.
End instance.

(** Without a BPF file system, and with a directory below [/run] that cannot be
    made, there is no lock, also after the file system was mounted. *)
Definition no_run : Os := {|
  refuse p := if streq p "/run/xdp" then Some EPERM else None;
  keep _ := None; refuse_open _ := None; refuse_lock _ := None; refuse_unlock _ := None;
  refuse_mount _ _ := None; getenv _ := None; dir_order l := l; query _ := inl ENOENT |}.
Definition bare_host : host := mk_host ∅ ∅ ∅ ∅ ∅ (mk_statics false None None None).

Lemma no_run_ok : os_ok (H0 := no_run).
Proof. split; try done. intros p e. cbn. destruct (streq p "/run/xdp"); [by intros [= <-]|done]. Qed.

Lemma lock_error_sticks_witness : ∃ s' e',
  get_lock_dir (H0 := no_run) bare_host = Some (inl (- EPERM), s') ∧ e' ≠ 0 ∧
  let mounted := mk_host (files s') {[ BPF_DIR_MNT ]} (mount_points s') (fds s') (locks s') (vars s') in
  xdp_lock_acquire (H0 := no_run) mounted = Some (inl e', mounted).
Proof.
  assert (∃ s', get_lock_dir (H0 := no_run) bare_host = Some (inl (- EPERM), s')) as [s' E] by (eexists; vm_compute; reflexivity).
  destruct (lock_error_sticks (H0 := no_run) no_run_ok bare_host (- EPERM) s') as (e' & He & Ht); [by intros e [=]|exact E|].
  exists s', e'. split; [exact E|]. split; [exact He|]. apply Ht. reflexivity.
Defined.
