(* ===== verification/Dispatcher.v ===== *)
(** * libxdp: the dispatcher program

    The BPF program of [lib/libxdp/xdp-dispatcher.c.in], which runs in the
    kernel in place of the programs of an interface and calls them in turn.
    Its functions can be replaced one by one by other programs; the library
    does so for every program it links.  The theorems compare the dispatcher,
    with the configuration that the library writes for a list of programs, to
    a recursive definition of a chain of programs. *)

From S2P Require Import Prelude Packet Echo Libxdp Multiprog.
From stdpp Require Import pretty.
Local Open Scope Z_scope.

(** The shift [1U << ret]; one by 32 or more, or a negative one, is
    undefined. *)
Definition shl1 (ret : Z) : option Z :=
  if (0 <=? ret) && (ret <? 32) then Some (Z.shiftl 1 ret) else None.

Section dispatcher.
(** What a program can read and change: the packet and the maps. *)
Context {S : Type}.

(** A function of a BPF program, called with a context that is not null. *)
Local Abbreviation bpf_fn := (S → Z * S).

(** The functions [prog0] to [prog9] and [compat_test] as they are compiled. *)
Definition stub : bpf_fn := λ s, (XDP_DISPATCHER_RETVAL, s).

(** The dispatcher in the kernel: its configuration, and the functions that
    are replaced by programs. *)
Record image := mk_image {
  conf : dispatcher_config.t;
  replaced : gmap string bpf_fn }.

Definition call (d : image) (name : string) : bpf_fn := default stub (replaced d !! name).

(** The unrolled loop, from slot [i] on with [n] slots left. *)
Fixpoint dispatch (d : image) (n : nat) (i : Z) (s : S) : option (Z * S) :=
  let num_progs_enabled := dispatcher_config.num_progs_enabled (conf d) in
  if num_progs_enabled <? i + 1 then Some (XDP_PASS, s)
  else match n with
       | O => let (_, s) := call d "compat_test" s in Some (XDP_PASS, s)
       | Datatypes.S n =>
         let (ret, s) := call d (prog_func i) s in
         let actions := nth (Z.to_nat i) (dispatcher_config.chain_call_actions (conf d)) 0 in
         match shl1 ret with
         | Some bit => if Z.land bit actions =? 0 then Some (ret, s) else dispatch d n (i + 1) s
         | None => None
         end
       end.

Definition xdp_dispatcher (d : image) (s : S) : option (Z * S) :=
  dispatch d (Z.to_nat MAX_DISPATCHER_ACTIONS) 0 s.

Definition xdp_pass : bpf_fn := λ s, (XDP_PASS, s).

(** What the kernel runs on a packet: the entry function, unless it is itself
    replaced. *)
Definition run (d : image) (s : S) : option (Z * S) :=
  match replaced d !! "xdp_dispatcher" with
  | Some f => Some (f s)
  | None => xdp_dispatcher d s
  end.

(** Linking programs, as [xdp_multiprog__link_prog] chooses the function each
    one replaces. *)
Fixpoint link_from (d : image) (i : Z) (fs : list bpf_fn) : image :=
  match fs with
  | [] => d
  | f :: fs =>
    let name := attach_func (dispatcher_config.num_progs_enabled (conf d)) i in
    link_from (mk_image (conf d) (<[name := f]> (replaced d))) (i + 1) fs
  end.
Definition linked (cfg : dispatcher_config.t) (fs : list bpf_fn) : image :=
  link_from (mk_image cfg ∅) 0 fs.

(** ** The chain of programs

    A program with its metadata and what it computes.  The next one runs when
    the result is one of the actions that continue the chain; a program that
    was unloaded is passed over; at the end the packet is passed. *)
Definition link : Type := xdp_program.t * option bpf_fn.

Fixpoint chain (ls : list link) (s : S) : Z * S :=
  match ls with
  | [] => (XDP_PASS, s)
  | (p, None) :: ls => chain ls s
  | (p, Some f) :: ls =>
    let (ret, s) := f s in
    if (ret =? XDP_DISPATCHER_RETVAL) || Z.testbit (xdp_program.chain_call_actions p) ret
    then chain ls s else (ret, s)
  end.

(** ** Lemmas *)

Lemma shl1_testbit ret acts :
  0 ≤ ret < 32 → shl1 ret = Some (Z.shiftl 1 ret) ∧
  (Z.land (Z.shiftl 1 ret) acts =? 0) = negb (Z.testbit acts ret).
Proof.
  intros Hr. split.
  { unfold shl1. by rewrite (proj2 (Z.leb_le _ _)), (proj2 (Z.ltb_lt _ _)) by lia. }
  rewrite Z.shiftl_1_l. destruct (Z.testbit acts ret) eqn:E; cbn.
  - apply Z.eqb_neq. intros H0. apply (f_equal (λ z, Z.testbit z ret)) in H0.
    by rewrite Z.land_spec, Z.pow2_bits_true, E, Z.bits_0 in H0 by lia.
  - apply Z.eqb_eq, Z.bits_inj'. intros n Hn. rewrite Z.land_spec, Z.bits_0.
    destruct (decide (n = ret)) as [->|]; [by rewrite E, andb_false_r|].
    by rewrite Z.pow2_bits_false by lia.
Qed.

Lemma testbit_retval acts ret :
  0 ≤ ret →
  Z.testbit (Z.lor acts (2 ^ XDP_DISPATCHER_RETVAL)) ret = (ret =? XDP_DISPATCHER_RETVAL) || Z.testbit acts ret.
Proof.
  intros Hr. rewrite Z.lor_spec, Z.pow2_bits_eqb, orb_comm by (unfold XDP_DISPATCHER_RETVAL; lia).
  by rewrite Z.eqb_sym.
Qed.

Lemma prog_func_inj i j : 0 ≤ i → 0 ≤ j → prog_func i = prog_func j → i = j.
Proof. unfold prog_func. intros Hi Hj E. simplify_eq. lia. Qed.

(** Results that [1U << ret] is defined for. *)
Definition in_range (f : bpf_fn) : Prop := ∀ s, 0 ≤ (f s).1 < 32.

(** The programs of the slots of a dispatcher. *)
Definition slots (R : gmap string bpf_fn) (i : nat) (ps : list xdp_program.t) : list link :=
  imap (λ j p, (p, R !! prog_func (i + j)%nat)) ps.

Lemma slots_cons R i p ps : slots R i (p :: ps) = (p, R !! prog_func i) :: slots R (Datatypes.S i) ps.
Proof.
  unfold slots. cbn. rewrite Nat.add_0_r. f_equal. apply imap_ext. intros j q _. cbn. do 3 f_equal. lia.
Qed.

(** The dispatcher from a slot on runs the chain of the remaining programs. *)
Lemma dispatch_chain frags ps0 ps R n s :
  let cfg := make_config frags (ps0 ++ ps) in
  (length ps ≤ n)%nat → (∀ name f, R !! name = Some f → in_range f) →
  dispatch (mk_image cfg R) n (length ps0) s = Some (chain (slots R (length ps0) ps) s).
Proof.
  cbn zeta. intros Hn HR. revert ps0 n s Hn. induction ps as [|p ps IH]; intros ps0 n s Hn.
  { destruct n; cbn; rewrite length_app; cbn; by rewrite (proj2 (Z.ltb_lt _ _)) by lia. }
  destruct n as [|n]; [cbn in Hn; lia|]. cbn [dispatch]. rewrite slots_cons. cbn [chain].
  set (cfg := make_config _ _).
  cbn [conf]. assert ((dispatcher_config.num_progs_enabled cfg <? length ps0 + 1) = false) as ->.
  { apply Z.ltb_ge. cbn. rewrite length_app. cbn. lia. }
  assert (nth (Z.to_nat (length ps0)) (dispatcher_config.chain_call_actions cfg) 0 =
    Z.lor (xdp_program.chain_call_actions p) (2 ^ XDP_DISPATCHER_RETVAL)) as Hact.
  { rewrite Nat2Z.id. cbn. rewrite fmap_app, app_nth2; rewrite length_fmap; [|lia]. by rewrite Nat.sub_diag. }
  assert (∀ s, dispatch (mk_image cfg R) n (length ps0 + 1) s =
    Some (chain (slots R (Datatypes.S (length ps0)) ps) s)) as Hrec.
  { intros s'. specialize (IH (ps0 ++ [p]) n s'). rewrite <- app_assoc, length_app in IH. cbn in IH, Hn.
    replace (Z.of_nat (length ps0 + 1)) with (length ps0 + 1) in IH by lia.
    rewrite Nat.add_1_r in IH. apply IH. lia. }
  rewrite Hact. unfold call. cbn [replaced].
  destruct (R !! prog_func (length ps0)) as [f|] eqn:Ef; unfold id; cbn [default from_option].
  - specialize (HR _ _ Ef s). destruct (f s) as [ret s']. cbn in HR.
    destruct (shl1_testbit ret (Z.lor (xdp_program.chain_call_actions p) (2 ^ XDP_DISPATCHER_RETVAL)) HR) as [-> ->].
    rewrite testbit_retval by lia. destruct (_ || _); cbn [negb]; [apply Hrec|done].
  - unfold stub. destruct (shl1_testbit XDP_DISPATCHER_RETVAL (Z.lor (xdp_program.chain_call_actions p) (2 ^ XDP_DISPATCHER_RETVAL))) as [E1 E2].
    { unfold XDP_DISPATCHER_RETVAL. lia. }
    rewrite E1, E2, testbit_retval by (unfold XDP_DISPATCHER_RETVAL; lia). rewrite Z.eqb_refl. apply Hrec.
Qed.

(** C21: the dispatcher, configured for up to ten programs, computes the chain
    of the programs in its slots: each runs on what the previous ones left,
    the first result outside the actions of its program is the verdict, a slot
    whose program is gone is passed over, and the packet is passed when the
    chain ends. *)
Theorem run_chain frags ps (R : gmap string bpf_fn) s :
  (length ps ≤ 10)%nat → R !! "xdp_dispatcher" = None →
  (∀ name f, R !! name = Some f → in_range f) →
  run (mk_image (make_config frags ps) R) s = Some (chain (slots R 0 ps) s).
Proof.
  intros Hn Hd HR. unfold run. cbn [replaced]. rewrite Hd.
  by apply (dispatch_chain frags [] ps R).
Qed.

Lemma link_from_conf d i fs : conf (link_from d i fs) = conf d.
Proof. revert d i. induction fs as [|f fs IH]; intros d i; [done|]. cbn. by rewrite IH. Qed.

(** Where the programs of a dispatcher with more than one slot are. *)
Lemma link_from_lookup d i fs name :
  dispatcher_config.num_progs_enabled (conf d) ≠ 1 → 0 ≤ i →
  (∀ (j : nat) f, fs !! j = Some f → name = prog_func (i + j) → replaced (link_from d i fs) !! name = Some f) ∧
  ((∀ j : nat, (j < length fs)%nat → name ≠ prog_func (i + j)) →
   replaced (link_from d i fs) !! name = replaced d !! name).
Proof.
  intros Hn Hi. revert d i Hn Hi. induction fs as [|f fs IH]; intros d i Hn Hi; [done|].
  cbn [link_from]. unfold attach_func. rewrite (proj2 (Z.eqb_neq _ _)) by done.
  set (d' := mk_image _ _). destruct (IH d' (i + 1)) as [IH1 IH2]; [done|lia|]. split.
  - intros [|j] g Hg ->; cbn in Hg.
    + simplify_eq. rewrite Z.add_0_r in *. rewrite IH2; [apply lookup_insert_eq|].
      intros j Hj E. apply prog_func_inj in E; lia.
    + apply (IH1 j); [done|]. f_equal. lia.
  - intros Hne. rewrite IH2.
    + cbn. apply lookup_insert_ne. intros <-. apply (Hne 0%nat); cbn; [lia|]. f_equal. lia.
    + intros j Hj E. apply (Hne (Datatypes.S j)); [cbn; lia|]. rewrite E. f_equal. lia.
Qed.

Lemma prog_func_ne i : prog_func i ≠ "xdp_dispatcher"%string.
Proof. done. Qed.

Lemma link_from_range d i fs name f :
  (∀ name f, replaced d !! name = Some f → in_range f) → Forall in_range fs →
  replaced (link_from d i fs) !! name = Some f → in_range f.
Proof.
  intros Hd Hfs. revert d i Hd. induction Hfs as [|g fs Hg Hfs IH]; intros d i Hd; [apply Hd|].
  apply IH. cbn. intros name' f' [[_ <-]|[_ ?]]%lookup_insert_Some; eauto.
Qed.

(** Programs linked by the library are in the slots, in order. *)
Lemma linked_chain frags ps fs s :
  length fs = length ps → length ps ≠ 1%nat → (length ps ≤ 10)%nat → Forall in_range fs →
  run (linked (make_config frags ps) fs) s = Some (chain (zip ps (Some <$> fs)) s).
Proof.
  intros Hlen H1 Hn Hfs.
  assert (dispatcher_config.num_progs_enabled (make_config frags ps) ≠ 1) as Hne by (cbn; lia).
  pose proof (link_from_lookup (mk_image (make_config frags ps) ∅) 0 fs) as Hl.
  unfold linked. set (d := link_from _ _ _) in *.
  assert (d = mk_image (make_config frags ps) (replaced d)) as Ed.
  { pose proof (link_from_conf (mk_image (make_config frags ps) ∅) 0 fs) as E. fold d in E. by destruct d; cbn in *; subst. }
  unfold run. rewrite (proj2 (Hl "xdp_dispatcher" Hne ltac:(lia))) by (intros j _ E; by destruct (prog_func_ne (0 + j))).
  cbn [replaced]. rewrite lookup_empty, Ed.
  unfold xdp_dispatcher. rewrite (dispatch_chain frags [] ps (replaced d)) by
    (done || (intros name f; apply link_from_range; [cbn; by intros ? ? [=]|done])).
  do 2 f_equal. apply list_eq. intros j. unfold slots. rewrite list_lookup_imap, lookup_zip_with, list_lookup_fmap.
  destruct (ps !! j) as [p|] eqn:Ep; [|done]. cbn.
  destruct (lookup_lt_is_Some_2 fs j) as [f Ef]; [rewrite Hlen; by eapply lookup_lt_Some|].
  rewrite Ef. cbn. do 2 f_equal. by eapply (proj1 (Hl _ Hne ltac:(lia)) j).
Qed.

Lemma linked_chain_or frags ps fs s :
  length fs = length ps → (length ps ≤ 10)%nat → Forall in_range fs →
  run (linked (make_config frags ps) fs) s =
  Some (match fs with [f] => f s | _ => chain (zip ps (Some <$> fs)) s end).
Proof.
  intros Hlen Hn Hfs. destruct (decide (length ps = 1%nat)) as [H1|H1].
  - destruct fs as [|f [|]], ps as [|q [|]]; done.
  - rewrite linked_chain by done. destruct fs as [|f [|]]; [done| |done]. cbn in Hlen. lia.
Qed.

End dispatcher.

(** The actions that only let a packet that passes continue. *)
Lemma default_actions ret :
  0 ≤ ret → Z.testbit XDP_DEFAULT_CHAIN_CALL_ACTIONS ret = (ret =? XDP_PASS).
Proof.
  intros Hr. unfold XDP_DEFAULT_CHAIN_CALL_ACTIONS. rewrite Z.shiftl_1_l, Z.pow2_bits_eqb by done.
  apply Z.eqb_sym.
Qed.

Section echo.
(** The kernel's checksum helper, as in the model of the ICMP echo program. *)
Context (csum_diff : list Z → Z → list Z → Z → Z → Z).
Local Abbreviation icmp_echo := (IcmpEcho.icmp_echo_spec csum_diff).

Lemma icmp_echo_range : in_range icmp_echo.
Proof. intros l. unfold IcmpEcho.icmp_echo_spec. destruct (IcmpEcho.is_echo_request l); by cbn. Qed.
Lemma udp_echo_range : in_range UdpEcho.udp_echo_spec.
Proof.
  intros l. unfold UdpEcho.udp_echo_spec. destruct (_ <? _); [by cbn|]. by destruct (negb _).
Qed.

(** The two echo programs on one interface, linked in this order with the
    default actions: an ICMP echo request gets the reply of the first program,
    and everything else what the second one does with it. *)
Theorem echo_programs_chain frags pi pu l :
  xdp_program.chain_call_actions pi = XDP_DEFAULT_CHAIN_CALL_ACTIONS →
  xdp_program.chain_call_actions pu = XDP_DEFAULT_CHAIN_CALL_ACTIONS →
  run (linked (make_config frags [pi; pu]) [icmp_echo; UdpEcho.udp_echo_spec]) l =
  Some (if IcmpEcho.is_echo_request l then icmp_echo l else UdpEcho.udp_echo_spec l).
Proof.
  intros Hi Hu. rewrite linked_chain by
    (done || (cbn; lia) || (repeat constructor; apply icmp_echo_range || apply udp_echo_range)).
  f_equal. cbn [zip_with fmap list_fmap chain]. rewrite Hi, Hu.
  unfold IcmpEcho.icmp_echo_spec. destruct (IcmpEcho.is_echo_request l).
  - by rewrite default_actions.
  - rewrite default_actions, Z.eqb_refl, orb_true_r by done.
    pose proof (udp_echo_range l) as Hr. destruct (UdpEcho.udp_echo_spec l) as [ret l'] eqn:E.
    cbn in Hr. rewrite default_actions by lia.
    assert (ret ≠ XDP_DISPATCHER_RETVAL) as Hne.
    { revert E. unfold UdpEcho.udp_echo_spec. destruct (_ <? _); [by intros [= <- _]|].
      destruct (negb _); by intros [= <- _]. }
    rewrite (proj2 (Z.eqb_neq _ _)) by done. cbn. by destruct (Z.eqb_spec ret XDP_PASS) as [->|].
Qed.
End echo.

(** ** Witnesses *)

Definition sample_meta (acts : Z) : xdp_program.t := set_run xdp_program__new 50 acts.
Definition sample_fn (ret : Z) : list Z → Z * list Z := λ l, (ret, l ++ [ret]).

Lemma sample_fn_range ret : (0 <=? ret) && (ret <? 32) = true → in_range (sample_fn ret).
Proof. intros [H1 H2]%andb_true_iff s. cbn. lia. Qed.

(** Three slots, the second one empty: the first program lets the packet
    continue, the third one decides. *)
Lemma run_chain_witness :
  let R := <["prog0"%string := sample_fn XDP_PASS]> {[ "prog2"%string := sample_fn XDP_TX ]} in
  run (mk_image (make_config false (replicate 3 (sample_meta 4))) R) [] = Some (XDP_TX, [XDP_PASS; XDP_TX]).
Proof.
  cbn zeta. rewrite run_chain; [vm_compute; reflexivity|cbn; lia|vm_compute; reflexivity|].
  intros name f [[_ <-]|[_ Hf]]%lookup_insert_Some; [by apply sample_fn_range|].
  apply lookup_singleton_Some in Hf as [_ <-]. by apply sample_fn_range.
Defined.

(** With a drop among the actions that continue, two programs that drop pass
    the packet, and a single one drops it. *)
Example linked_single :
  let p := sample_meta 2 in
  run (linked (make_config false [p; p]) [sample_fn XDP_DROP; sample_fn XDP_DROP]) [] = Some (XDP_PASS, [XDP_DROP; XDP_DROP]) ∧
  run (linked (make_config false [p]) [sample_fn XDP_DROP]) [] = Some (XDP_DROP, [XDP_DROP]).
Proof. split; vm_compute; reflexivity. Qed.

Lemma echo_programs_chain_witness :
  let p := sample_meta XDP_DEFAULT_CHAIN_CALL_ACTIONS in
  run (linked (make_config false [p; p]) [IcmpEcho.icmp_echo_spec (λ _ _ _ _ s, s); UdpEcho.udp_echo_spec]) [] = Some (XDP_ABORTED, []).
Proof. cbn zeta. rewrite echo_programs_chain; vm_compute; reflexivity. Defined.

(** A single program in its place and in a chain of one agree exactly when its
    result ends the chain or passes the packet. *)
Lemma single_agrees {S} p (f : S → Z * S) s :
  chain [(p, Some f)] s = f s ↔
  (f s).1 = XDP_PASS ∨
  (f s).1 ≠ XDP_DISPATCHER_RETVAL ∧ Z.testbit (xdp_program.chain_call_actions p) (f s).1 = false.
Proof.
  cbn. destruct (f s) as [ret s']. cbn.
  destruct (Z.eqb_spec ret XDP_DISPATCHER_RETVAL) as [->|Hr]; cbn; [naive_solver|].
  destruct (Z.testbit _ _); naive_solver.
Qed.
