(* ===== verification/MultiprogSpec.v ===== *)
(** * libxdp: the attach and detach loops are safe

    Specifications of the operations of [Multiprog] for an arbitrary
    environment: they never use an object that is not allocated, the retry
    loops end, and the dispatcher objects they allocate are released. *)

From S2P Require Import Prelude CString Errno Packet Params Libxdp RunConfig Pin Multiprog Dispatcher.
From stdpp Require Import sorting.
Local Open Scope Z_scope.
Import xdp_program.

Create HintDb keeps.

(** The metadata of a program: its priority and the actions that continue. *)
Definition meta (p : xdp_program.t) : Z * Z := (run_prio p, chain_call_actions p).

(** Nothing is known of the caller's programs. *)
Definition any : nat → option bool := λ _, None.

Section libxdp.
Context {K : Type} `{Kernel K}.

(** ** Specifications

    [spec μ n m Q]: started with the dispatcher objects [μ], the operation [m]
    does not fault, makes at most [n] attach requests, leaves the caller's
    program objects allocated and well formed, and ends in a value and
    dispatcher objects satisfying [Q]. *)

Section specs.
(** The caller's objects have the addresses of [ρ] and the metadata it gives;
    [hw] says what else is known of each of them: nothing, or that it may be
    attached, also to hardware or not. *)
Context (ρ : gmap nat (Z * Z)) (hw : nat → option bool).
Local Abbreviation δ := (dom ρ).

Definition okp (a : nat) (p : xdp_program.t) : Prop :=
  match hw a with
  | None => True
  | Some hw => is_Some (bpf_prog p) ∨ hw = false ∧ 0 ≤ prog_fd p
  end.

Definition heap_ok (w : world K) : Prop := meta <$> heap w = ρ ∧ ∀ a p, heap w !! a = Some p → okp a p.

Definition spec {A} (μ : gmap nat mp_t) (n : nat) (m : M K A) (Q : A → gmap nat mp_t → Prop) : Prop :=
  ∀ w, mps w = μ → heap_ok w →
    wp m w (λ a w', Q a (mps w') ∧ heap_ok w' ∧ (length (calls w') ≤ length (calls w) + n)%nat).

(** An operation that leaves the dispatcher objects alone. *)
Definition keeps {A} (μ : gmap nat mp_t) (n : nat) (m : M K A) (P : A → Prop) : Prop :=
  spec μ n m (λ a μ', μ' = μ ∧ P a).

Lemma spec_ret {A} μ n (a : A) (Q : A → _ → Prop) : Q a μ → spec μ n (pret a) Q.
Proof. intros HQ w <- Hw. cbn. split; [done|]. split; [done|lia]. Qed.

Lemma spec_bind {A B} μ n1 n2 (m : M K A) (k : A → M K B) R Q :
  spec μ n1 m R → (∀ a μ', R a μ' → spec μ' n2 (k a) Q) → spec μ (n1 + n2) (pbind m k) Q.
Proof.
  intros Hm Hk w E Hw. apply wp_bind. eapply wp_mono; [by apply Hm|].
  intros a w' (HR & Hw' & Hc). eapply wp_mono; [by apply (Hk a (mps w'))|].
  intros b w'' (HQ & Hw'' & Hc'). split; [done|]. split; [done|lia].
Qed.

Lemma spec_weaken {A} μ n1 n2 (m : M K A) (Q R : A → _ → Prop) :
  spec μ n1 m Q → (n1 ≤ n2)%nat → (∀ a μ', Q a μ' → R a μ') → spec μ n2 m R.
Proof.
  intros Hm Hn HQ w E Hw. eapply wp_mono; [by apply Hm|].
  intros a w' (H1 & H2 & H3). split; [auto|]. split; [done|lia].
Qed.

Lemma keeps_bind {A B} μ n1 n2 n (m : M K A) (k : A → M K B) P Q :
  keeps μ n1 m P → (n1 + n2 = n)%nat → (∀ a, P a → spec μ n2 (k a) Q) → spec μ n (pbind m k) Q.
Proof. intros Hm <- Hk. eapply spec_bind; [apply Hm|]. by intros a μ' [-> HP]; apply Hk. Qed.

Lemma keeps_spec {A} μ n (m : M K A) P (Q : A → _ → Prop) :
  keeps μ n m P → (∀ a, P a → Q a μ) → spec μ n m Q.
Proof. intros Hm HQ. eapply spec_weaken; [apply Hm|done|]. intros a μ' [-> HP]. auto. Qed.

Lemma spec_if {A} μ n (b : bool) (m1 m2 : M K A) Q :
  (b = true → spec μ n m1 Q) → (b = false → spec μ n m2 Q) → spec μ n (if b then m1 else m2) Q.
Proof. destruct b; auto. Qed.

Lemma keeps_modify μ n f :
  (∀ w, mps (f w) = mps w ∧ heap (f w) = heap w ∧ (length (calls (f w)) ≤ length (calls w) + n)%nat) →
  keeps μ n (modify f) (λ _, True).
Proof.
  intros Hf w <- [H1 H2]. destruct (Hf w) as (E1 & E & Hc). cbn. split; [done|]. split; [|done].
  split; by rewrite E.
Qed.

Lemma keeps_set_errno μ e : keeps μ 0 (set_errno e) (λ _, True).
Proof. apply keeps_modify. intros w. cbn. split; [done|]. split; [done|lia]. Qed.

Lemma keeps_kop {A} μ (f : K → A * K) : keeps μ 0 (kop f) (λ _, True).
Proof.
  intros w <- Hw. unfold wp, kop. destruct (f (kern w)) as [a k]. cbn.
  split; [done|]. split; [done|lia].
Qed.

Lemma keeps_kread {A} μ (f : K → A) : keeps μ 0 (kread f) (λ _, True).
Proof. intros w <- Hw. cbn. split; [done|]. split; [done|lia]. Qed.

Lemma keeps_kop_post {A} μ (f : K → A * K) (P : A → Prop) :
  (∀ k a k', f k = (a, k') → P a) → keeps μ 0 (kop f) P.
Proof.
  intros Hf w <- Hw. unfold wp, kop. destruct (f (kern w)) as [a k] eqn:E. cbn.
  split; [split; [done|by eapply Hf]|]. split; [done|lia].
Qed.

Lemma keeps_kread_post {A} μ (f : K → A) (P : A → Prop) : (∀ k, P (f k)) → keeps μ 0 (kread f) P.
Proof. intros Hf w <- Hw. cbn. split; [by split|]. split; [done|lia]. Qed.

Lemma keeps_and {A} μ n (m : M K A) (P Q : A → Prop) :
  keeps μ n m P → keeps μ n m Q → keeps μ n m (λ a, P a ∧ Q a).
Proof.
  intros HP HQ w E Hw. pose proof (HP w E Hw) as H1. pose proof (HQ w E Hw) as H2. unfold wp in *.
  destruct (m w) as [[a w']|]; [|done]. destruct H1 as ((? & ?) & ? & ?), H2 as ((_ & ?) & _).
  split; [split; [done|by split]|by split].
Qed.

Lemma keeps_get μ : keeps μ 0 pget (λ _, True).
Proof. intros w <- Hw. cbn. split; [done|]. split; [done|lia]. Qed.

Lemma keeps_ret {A} μ (a : A) P : P a → keeps μ 0 (pret a) P.
Proof. intros HP. by apply spec_ret. Qed.

Lemma keeps_deref μ a : a ∈ δ → keeps μ 0 (deref a) (λ p, okp a p ∧ ρ !! a = Some (meta p)).
Proof.
  intros Ha w <- [Hd Hw]. unfold wp, deref.
  assert (a ∈ dom (heap w)) as Ha' by (by rewrite <- Hd, dom_fmap in Ha). apply elem_of_dom in Ha' as [p E].
  rewrite E. split; [|split; [done|lia]]. split; [done|]. split; [eauto|]. by rewrite <- Hd, lookup_fmap, E.
Qed.

Lemma keeps_assign μ a p : ρ !! a = Some (meta p) → okp a p → keeps μ 0 (assign a p) (λ _, True).
Proof.
  intros Ha Hp w <- [Hd Hw]. unfold wp, assign.
  assert (is_Some (heap w !! a)) as [q E] by (rewrite <- Hd, lookup_fmap in Ha; destruct (heap w !! a); [eauto|done]).
  rewrite E. cbn. split; [done|]. split; [|lia]. split; cbn.
  - rewrite fmap_insert, Hd. by apply insert_id.
  - intros b r Hr. apply lookup_insert_Some in Hr as [[<- <-]|[_ Hr]]; eauto.
Qed.

(** The four operations on dispatcher objects, as they stand before a
    continuation. *)
Lemma spec_mp_deref {B} μ n a m (k : mp_t → M K B) Q :
  μ !! a = Some m → spec μ n (k m) Q → spec μ n (pbind (mp_deref a) k) Q.
Proof.
  intros E Hk w <- Hw. apply wp_bind. unfold wp at 1, mp_deref. rewrite E. by apply Hk.
Qed.

Lemma spec_mp_assign {B} μ n a m m' (k : () → M K B) Q :
  μ !! a = Some m → spec (<[a := m']> μ) n (k ()) Q → spec μ n (pbind (mp_assign a m') k) Q.
Proof.
  intros E Hk w <- Hw. apply wp_bind. unfold wp at 1, mp_assign. rewrite E. by apply (Hk (mk_world _ _ _ _ _)).
Qed.

Lemma spec_mp_alloc {B} μ n m (k : nat → M K B) Q :
  (∀ a, μ !! a = None → spec (<[a := m]> μ) n (k a) Q) → spec μ n (pbind (mp_alloc m) k) Q.
Proof.
  intros Hk w <- Hw. apply wp_bind. unfold wp at 1, mp_alloc. apply (Hk _ (proj1 (not_elem_of_dom _ _) (is_fresh _)) (mk_world _ _ _ _ _)); [done|].
  done.
Qed.

Lemma spec_mp_free μ n a m (Q : () → _ → Prop) :
  μ !! a = Some m → Q () (delete a μ) → spec μ n (mp_free a) Q.
Proof.
  intros E HQ w <- Hw. unfold wp, mp_free. rewrite E. split; [done|]. split; [done|cbn; lia].
Qed.

(** A consistent dispatcher object: the number of links fits 8 bits and, unless
    the object is marked as legacy, is that of the list. *)
Definition wf_mp (m : mp_t) : Prop :=
  0 ≤ xdp_multiprog.num_links m ≤ 255 ∧
  (xdp_multiprog.is_legacy m = false →
   xdp_multiprog.num_links m = length (xdp_multiprog.first_prog m)).

(** No program sits in it twice. *)
Definition distinct (m : mp_t) : Prop := NoDup (prog_id <$> xdp_multiprog.first_prog m).
#[local] Instance distinct_dec m : Decision (distinct m).
Proof. unfold distinct. apply _. Defined.

(** The map of a dispatcher as the versions of the library write it: large
    enough for the first version, with at most ten programs enabled, and with
    the magic byte only in later versions. *)
Definition genuine (desc : map_desc) (buf : list Z) : Prop :=
  sizeof_config_v1 ≤ desc_value_size desc ∧ 0 ≤ nth 2 buf 0 ≤ MAX_DISPATCHER_ACTIONS ∧
  if nth 0 buf 0 =? XDP_DISPATCHER_MAGIC then nth 1 buf 0 ≠ XDP_DISPATCHER_VERSION_V1
  else 0 ≤ nth 0 buf 0 ≤ MAX_DISPATCHER_ACTIONS.

(** What is assumed of the environment: the type information of a loaded program
    is valid; the map of a program called [xdp_dispatcher] is that of a
    dispatcher; and opening a pin, finding the BPF file system or the
    dispatcher's object file, cloning an object, linking, and asking for the
    description of a program report a non-zero error when they fail. *)
Record kernel_ok : Prop := {
  btf_ok : ∀ id (k : K) b, k_btf_load id k = Some b → btf_valid b;
  maps_genuine : ∀ pfd info fd desc buf (k k1 k1' k2 k3 : K),
    k_prog_info pfd k = inr info → info_name info = "xdp_dispatcher"%string →
    k_map_fd_by_id (info_map_id info) k1 = (inr fd, k1') →
    k_map_info fd k2 = inr desc → k_map_lookup fd k3 = inr buf → genuine desc buf;
  obj_get_err : ∀ path e (k k' : K), k_obj_get path k = (inl e, k') → e ≠ 0;
  bpffs_err : ∀ e (k k' : K), k_bpffs_dir k = (inl e, k') → e ≠ 0;
  find_err : ∀ n e (k k' : K), k_find_dispatcher n k = (inl e, k') → e ≠ 0;
  create_err : ∀ p e (k k' : K), k_create_from_obj p k = (inl e, k') → e ≠ 0;
  link_err : ∀ fd mfd id e (k k' : K), k_link_create fd mfd id k = (inl e, k') → e ≠ 0;
  raw_tp_err : ∀ fd e (k k' : K), k_raw_tp_open fd k = (inl e, k') → e ≠ 0;
  prog_info_err : ∀ fd e (k : K), k_prog_info fd k = inl e → e ≠ 0 }.

Context (env : kernel_ok).

(** ** Operations that leave the dispatcher objects alone *)

Lemma keeps_seq {A B} μ n1 n2 (m : M K A) (k : A → M K B) P R :
  keeps μ n1 m P → (∀ a, P a → keeps μ n2 (k a) R) → keeps μ (n1 + n2) (pbind m k) R.
Proof. intros Hm Hk. eapply spec_bind; [apply Hm|]. intros a μ' [-> HP]. by apply Hk. Qed.

Lemma keeps_weaken {A} μ n1 n2 (m : M K A) (P Q : A → Prop) :
  keeps μ n1 m P → (n1 ≤ n2)%nat → (∀ a, P a → Q a) → keeps μ n2 m Q.
Proof. intros Hm Hn HQ. eapply spec_weaken; [apply Hm|done|]. intros a μ' [-> ?]. auto. Qed.

Lemma keeps_if {A} μ n (b : bool) (m1 m2 : M K A) P :
  keeps μ n m1 P → keeps μ n m2 P → keeps μ n (if b then m1 else m2) P.
Proof. by destruct b. Qed.

Lemma keeps_libxdp_err μ ret : keeps μ 0 (libxdp_err ret) (λ r, r = ret).
Proof.
  unfold libxdp_err. apply keeps_if; [|by apply keeps_ret].
  apply (keeps_seq _ 0 0 _ _ (λ _, True)); [apply keeps_set_errno|intros _ _; by apply keeps_ret].
Qed.

Lemma keeps_err_ptr {A} μ e b : keeps μ 0 (libxdp_err_ptr (A := A) e b) (λ p, p = if b then Null else ErrPtr e).
Proof.
  apply (keeps_seq _ 0 0 _ _ (λ _, True)); [apply keeps_set_errno|intros _ _; by apply keeps_ret].
Qed.

Lemma keeps_bind0 {A B} μ n (m : M K A) (k : A → M K B) P R :
  keeps μ 0 m P → (∀ a, P a → keeps μ n (k a) R) → keeps μ n (pbind m k) R.
Proof. apply keeps_seq. Qed.

Lemma keeps_true {A} μ n (m : M K A) P : keeps μ n m P → keeps μ n m (λ _, True).
Proof. intros. by eapply keeps_weaken. Qed.

Lemma keeps_pret {A} μ n (a : A) (P : A → Prop) : P a → keeps μ n (pret a) P.
Proof. intros HP. by apply spec_ret. Qed.

Lemma keeps_fclose μ fd : keeps μ 0 (fclose fd) (λ _, True).
Proof. apply keeps_kop. Qed.

Hint Resolve keeps_set_errno keeps_kop keeps_kread keeps_get keeps_libxdp_err keeps_err_ptr
  keeps_fclose : keeps.

(** Walks through a body: known operations by the hint base, conditionals and
    matches by cases. *)
Ltac keeps_step :=
  lazymatch goal with
  | |- keeps _ _ (pbind _ _) _ => eapply keeps_bind0; [keeps_prim|intros ? ?; cbn beta in *]
  | |- keeps _ _ (pret _) _ => apply keeps_pret; cbn; auto
  | |- keeps _ _ (if _ then _ else _) _ => apply keeps_if
  | |- keeps _ _ (match ?x with _ => _ end) _ => destruct x eqn:?
  | |- keeps _ _ (let _ := _ in _) _ => cbv zeta
  end
with keeps_prim :=
  first [solve [eauto with keeps] | apply (keeps_true _ _ _ (λ _, True)); repeat keeps_step].

Lemma keeps_close μ p : keeps μ 0 (xdp_program__close p) (λ _, True).
Proof. unfold xdp_program__close. repeat keeps_step; eauto with keeps. Qed.
Hint Resolve keeps_close : keeps.

(** Type information that was loaded is valid. *)
Definition opt_valid (b : option btf) : Prop := ∀ b', b = Some b' → btf_valid b'.
Lemma opt_valid_none : opt_valid None.
Proof. done. Qed.
Hint Resolve opt_valid_none : core.

Lemma keeps_fill_btf μ p fd :
  keeps μ 0 (fill_from_fd p fd) (λ r, (bpf_prog r.1.2 = bpf_prog p ∧ meta r.1.2 = meta p) ∧ opt_valid r.2).
Proof.
  unfold fill_from_fd. eapply keeps_bind0; [apply keeps_kop|]. intros [e|fd'] _; [by apply keeps_pret|].
  eapply keeps_bind0; [apply keeps_kread|]. intros [e|info] _; [repeat keeps_step|].
  eapply (keeps_bind0 _ _ _ _ (λ _, True)); [apply keeps_if; eauto with keeps; by apply keeps_pret|].
  intros ok _. apply keeps_if; [repeat keeps_step|]. cbv zeta.
  eapply (keeps_bind0 _ _ _ _ (λ b, opt_valid (mjoin b))).
  - apply keeps_if; [|by apply keeps_pret]. eapply keeps_bind0.
    + apply (keeps_kread_post _ _ opt_valid). intros k b E. by eapply (btf_ok env).
    + intros b Hb. by apply keeps_pret.
  - intros [[b|]|] Hb; repeat keeps_step.
Qed.

Lemma keeps_fill μ p fd :
  keeps μ 0 (xdp_program__fill_from_fd p fd) (λ r, bpf_prog r.2 = bpf_prog p ∧ meta r.2 = meta p).
Proof.
  unfold xdp_program__fill_from_fd. eapply keeps_bind0; [apply keeps_fill_btf|].
  intros [[e p'] b] [Hp _]. by apply keeps_pret.
Qed.
Hint Resolve keeps_fill : keeps.

Lemma keeps_parse_btf μ p b : opt_valid b → keeps μ 0 (parse_btf p b) (λ _, True).
Proof.
  intros Hb. unfold parse_btf. eapply (keeps_bind0 _ _ _ _ (λ _, True)); [apply keeps_if; eauto with keeps; by apply keeps_pret|].
  intros strdup _. destruct (parse_btf_total b strdup p None) as [r ->]; [|by apply keeps_pret].
  intros b' [->|?]; [by apply Hb|done].
Qed.

(** A result that, when it is an error, is not the error number 0. *)
Definition err_nz {A} (r : Z + A) : Prop := ∀ e, r = inl e → e ≠ 0.

Lemma err_nz_inr {A} (a : A) : err_nz (inr a).
Proof. by intros e [=]. Qed.
Lemma err_nz_inl {A} e : e ≠ 0 → err_nz (A := A) (inl e).
Proof. by intros He e' [= <-]. Qed.
Hint Resolve err_nz_inr err_nz_inl : keeps.

Lemma keeps_from_fd μ fd : keeps μ 0 (xdp_program__from_fd fd) err_nz.
Proof.
  unfold xdp_program__from_fd. eapply keeps_bind0; [apply keeps_kop|]. intros ok _.
  destruct ok; cbn [negb]; [|repeat keeps_step; by apply err_nz_inl].
  eapply keeps_bind0; [apply keeps_fill_btf|]. intros [[e p] b] [_ Hb]. cbn in Hb.
  destruct (Z.eqb_spec e 0); cbn [negb]; [|repeat keeps_step; eauto with keeps].
  eapply keeps_bind0; [by apply keeps_parse_btf|]. intros [e' p'] _. destruct (Z.eqb_spec e' 0); cbn [negb andb];
    [|destruct (e' =? - ENOENT)]; cbn [negb]; repeat keeps_step; eauto with keeps.
Qed.
Hint Resolve keeps_from_fd : keeps.

Lemma keeps_load μ ext p :
  keeps μ 0 (xdp_program__load ext p)
    (λ r, (is_Some (bpf_prog p) → is_Some (bpf_prog r.2)) ∧ meta r.2 = meta p).
Proof.
  assert (is_Some (bpf_prog p) → is_Some (if ext then clear_frags_flag p else bpf_prog p)) as Hc.
  { intros Hs. destruct ext; [|done]. unfold clear_frags_flag. by rewrite fmap_is_Some. }
  unfold xdp_program__load. repeat keeps_step; eauto with keeps.
  all: eapply keeps_weaken; [apply keeps_fill|done|]; cbn; intros r [-> ->]; by split.
Qed.
Hint Resolve keeps_load : keeps.

Lemma keeps_clone μ p : keeps μ 0 (xdp_program__clone p) err_nz.
Proof.
  unfold xdp_program__clone. repeat keeps_step; eauto with keeps.
  apply keeps_kop_post. intros k r k' E e ->. by eapply (create_err env).
Qed.
Hint Resolve keeps_clone : keeps.

Lemma keeps_frags μ : keeps μ 0 kernel_has_frags_support (λ _, True).
Proof. unfold kernel_has_frags_support. repeat keeps_step; eauto with keeps. Qed.
Hint Resolve keeps_frags : keeps.

Lemma keeps_close_all μ ps : keeps μ 0 (close_all ps) (λ _, True).
Proof. induction ps; cbn [close_all]; repeat keeps_step; eauto with keeps. Qed.
Hint Resolve keeps_close_all : keeps.

(** ** Attach requests *)

Lemma keeps_do_attach μ i fd old fl : keeps μ 1 (do_xdp_attach i fd old fl) (λ _, True).
Proof.
  unfold do_xdp_attach. apply (keeps_seq _ 1 0 _ _ (λ _, True)).
  - apply keeps_modify. intros w. cbn. rewrite length_app. cbn. split; [done|]. split; [done|lia].
  - intros _ _. repeat keeps_step; eauto with keeps.
Qed.

Lemma attach_again_unfold fuel i fd old fl :
  attach_again (S fuel) i fd old fl =
  (let! err := do_xdp_attach i fd old fl in
   if err <? 0 then
     if (err =? - EINVAL) && negb (old =? 0) then attach_again fuel i fd 0 fl
     else if (err =? - EEXIST) && negb (old =? 0) then pret (- EAGAIN)
     else pret err
   else pret err).
Proof. done. Qed.

Lemma keeps_attach_again μ fuel i fd fl : keeps μ 1 (attach_again (S fuel) i fd 0 fl) (λ _, True).
Proof.
  rewrite attach_again_unfold. apply (keeps_seq _ 1 0 _ _ (λ _, True)); [apply keeps_do_attach|].
  intros e _. rewrite Z.eqb_refl. cbn [negb]. rewrite !andb_false_r. repeat keeps_step.
Qed.

Lemma keeps_attach_fd μ fd old i mode : keeps μ 2 (xdp_attach_fd fd old i mode) (λ _, True).
Proof.
  unfold xdp_attach_fd. destruct (old =? -1).
  - eapply keeps_weaken; [apply keeps_attach_again|lia|done].
  - rewrite attach_again_unfold. apply (keeps_seq _ 1 1 _ _ (λ _, True)); [apply keeps_do_attach|]. intros e _.
    apply keeps_if; [|by apply keeps_pret]. apply keeps_if; [apply keeps_attach_again|].
    repeat keeps_step.
Qed.

(** ** Reading dispatcher objects *)

Definition live (μ : gmap nat mp_t) (p : ptr nat) : Prop :=
  match p with Ptr a => is_Some (μ !! a) | _ => True end.

Lemma keeps_mp_deref μ a m : μ !! a = Some m → keeps μ 0 (mp_deref a) (λ m', m' = m).
Proof. intros E w <- Hw. unfold wp, mp_deref. rewrite E. split; [done|]. split; [done|lia]. Qed.
Hint Resolve keeps_mp_deref : keeps.

Ltac live_tac mp := intros Hl; destruct mp as [|e|a]; cbn in Hl; [| |destruct Hl as [m Hm]];
  repeat keeps_step; eauto with keeps.

Lemma keeps_legacy μ mp : live μ mp → keeps μ 0 (xdp_multiprog__is_legacy mp)
  (λ b, ∀ a m, mp = Ptr a → μ !! a = Some m → b = xdp_multiprog.is_legacy m).
Proof. unfold xdp_multiprog__is_legacy. live_tac mp; naive_solver. Qed.

Lemma keeps_main_fd μ mp : live μ mp → keeps μ 0 (xdp_multiprog__main_fd mp)
  (λ fd, 0 ≤ fd → ∃ a, mp = Ptr a).
Proof. unfold xdp_multiprog__main_fd. live_tac mp; cbn; unfold EINVAL; eauto; lia. Qed.

Lemma keeps_main_id μ mp : live μ mp → keeps μ 0 (xdp_multiprog__main_id mp) (λ _, True).
Proof. unfold xdp_multiprog__main_id. live_tac mp. Qed.

Lemma keeps_hw_fd μ mp : live μ mp → keeps μ 0 (xdp_multiprog__hw_fd mp) (λ _, True).
Proof. unfold xdp_multiprog__hw_fd. live_tac mp. Qed.

Lemma keeps_hw_id μ mp : live μ mp → keeps μ 0 (xdp_multiprog__hw_id mp) (λ _, True).
Proof. unfold xdp_multiprog__hw_id. live_tac mp. Qed.

Lemma keeps_hw_prog μ mp : live μ mp → keeps μ 0 (xdp_multiprog__hw_prog mp) (λ _, True).
Proof. unfold xdp_multiprog__hw_prog. live_tac mp. Qed.

Lemma keeps_main_prog μ mp : live μ mp → keeps μ 0 (xdp_multiprog__main_prog mp) (λ _, True).
Proof. unfold xdp_multiprog__main_prog. live_tac mp. Qed.

Lemma keeps_mode μ mp : live μ mp → keeps μ 0 (xdp_multiprog__attach_mode mp) (λ _, True).
Proof. unfold xdp_multiprog__attach_mode. live_tac mp. Qed.

Lemma keeps_pin μ mp : live μ mp → keeps μ 0 (xdp_multiprog__pin mp) (λ _, True).
Proof. unfold xdp_multiprog__pin. live_tac mp. Qed.

Lemma keeps_unpin μ mp : live μ mp → keeps μ 0 (xdp_multiprog__unpin mp) (λ _, True).
Proof. unfold xdp_multiprog__unpin. live_tac mp. Qed.

Hint Resolve keeps_legacy keeps_main_fd keeps_main_id keeps_hw_fd keeps_hw_id keeps_hw_prog
  keeps_main_prog keeps_mode keeps_pin keeps_unpin : keeps.

Lemma keeps_detach_links μ ls i id : keeps μ 0 (detach_links ls i id) (λ _, True).
Proof. induction ls; cbn [detach_links]; repeat keeps_step; eauto with keeps. Qed.

Lemma keeps_detach_link μ i id : keeps μ 0 (xdp_detach_link i id) (λ _, True).
Proof. unfold xdp_detach_link. repeat keeps_step. apply keeps_detach_links. Qed.
Hint Resolve keeps_detach_link : keeps.

Lemma keeps_attach_fds μ old mp :
  live μ old → live μ mp → keeps μ 0 (attach_fds old mp) (λ _, True).
Proof.
  intros Ho Hm. unfold attach_fds.
  apply (keeps_seq _ 0 0 _ _ (λ _, True)).
  - destruct mp as [|e|a]; [by apply keeps_pret| |].
    + eapply keeps_bind0; [by apply keeps_main_fd|]. intros fd Hfd.
      destruct (Z.ltb_spec fd 0); [by apply keeps_pret|]. by destruct Hfd.
    + eapply keeps_bind0; [by apply keeps_main_fd|]. destruct Hm as [m Hm]. intros. repeat keeps_step.
  - intros r _. destruct r as [|[fd i]]; [by apply keeps_pret|].
    destruct old as [|e|a]; [by apply keeps_pret| |].
    + eapply keeps_bind0; [by apply keeps_main_fd|]. intros fd' Hfd.
      destruct (Z.ltb_spec fd' 0); [by apply keeps_pret|]. by destruct Hfd.
    + eapply keeps_bind0; [by apply keeps_main_fd|]. destruct Ho as [m Ho]. intros. repeat keeps_step.
Qed.
Hint Resolve keeps_attach_fds : keeps.

Lemma keeps_mp_attach μ old mp mode :
  live μ old → live μ mp → keeps μ 2 (xdp_multiprog__attach old mp mode) (λ _, True).
Proof.
  intros Ho Hm. unfold xdp_multiprog__attach.
  apply keeps_if; [by apply keeps_pret|]. apply keeps_if; [by apply keeps_pret|].
  eapply keeps_bind0; [by apply keeps_attach_fds|]. intros r _. destruct r as [|[[fd ofd] i]]; [by apply keeps_pret|].
  apply (keeps_seq _ 2 0 _ _ (λ _, True)); [apply keeps_attach_fd|]. intros e _.
  repeat keeps_step; eauto with keeps.
Qed.

Lemma keeps_detach_hw μ a :
  is_Some (μ !! a) → keeps μ 2 (xdp_multiprog__detach_hw (Ptr a)) (λ _, True).
Proof.
  intros Hl. unfold xdp_multiprog__detach_hw. pose proof Hl as [m Hm].
  eapply keeps_bind0; [by eauto with keeps|]. intros m' ->.
  eapply keeps_bind0; [by apply keeps_hw_fd|]. intros fd _. apply keeps_if; [by apply keeps_pret|].
  apply (keeps_seq _ 2 0 _ _ (λ _, True)); [apply keeps_attach_fd|]. intros. repeat keeps_step.
Qed.

(** ** Allocating and releasing dispatcher objects *)

Definition closed (μ : gmap nat mp_t) (mp : ptr nat) : gmap nat mp_t :=
  match mp with Ptr a => delete a μ | _ => μ end.

Lemma spec_close μ mp :
  live μ mp → spec μ 0 (xdp_multiprog__close mp) (λ _ μ', μ' = closed μ mp).
Proof.
  unfold xdp_multiprog__close. destruct mp as [|e|a]; [intros _; by apply spec_ret..|].
  intros [m Hm]. eapply spec_mp_deref; [done|].
  do 3 (eapply keeps_bind; [eauto with keeps|reflexivity|intros _ _]).
  by eapply spec_mp_free.
Qed.

Lemma spec_close_bind {B} μ n mp (k : M K B) Q :
  live μ mp → spec (closed μ mp) n k Q → spec μ n (xdp_multiprog__close mp ;;; k) Q.
Proof. intros Hl Hk. eapply (spec_bind _ 0); [by apply spec_close|]. by intros _ μ' ->. Qed.

(** The result of an operation that allocates one object, or fails. *)
Definition one_new (P : mp_t → Prop) (μ : gmap nat mp_t) (p : ptr nat) (μ' : gmap nat mp_t) : Prop :=
  match p with
  | Ptr a => ∃ m, μ !! a = None ∧ μ' = <[a := m]> μ ∧ P m
  | ErrPtr e => μ' = μ
  | Null => False
  end.

(** ** Reading the dispatcher of an interface *)

(** The metadata of [n] slots of a configuration, from slot [i] on. *)
Definition slot_metas (c : dispatcher_config.t) (i : Z) (n : nat) : list (Z * Z) :=
  (λ j : nat, meta (slot_prog c (i + j) xdp_program__new)) <$> seq 0 n.

Lemma slot_metas_S c i n :
  slot_metas c i (S n) = meta (slot_prog c i xdp_program__new) :: slot_metas c (i + 1) n.
Proof.
  unfold slot_metas. cbn [seq fmap list_fmap]. rewrite Z.add_0_r. f_equal.
  rewrite <- seq_shift, <- list_fmap_compose. apply list_fmap_ext. intros j x _. cbn. do 2 f_equal; lia.
Qed.

Definition add_links (ps : list xdp_program.t) (v : mp_t) : mp_t :=
  xdp_multiprog.mk (xdp_multiprog.config v) (xdp_multiprog.main_prog v)
    (xdp_multiprog.first_prog v ++ ps) (xdp_multiprog.hw_prog v) (xdp_multiprog.version v)
    (xdp_multiprog.num_links v + length ps) (xdp_multiprog.is_loaded v) (xdp_multiprog.is_legacy v)
    (xdp_multiprog.attach_mode v) (xdp_multiprog.ifindex v).

Lemma add_links_nil v : add_links [] v = v.
Proof. destruct v. unfold add_links. cbn. by rewrite app_nil_r, Z.add_0_r. Qed.
Lemma add_links_cons p ps v : add_links ps (add_link p v) = add_links (p :: ps) v.
Proof. unfold add_links, add_link. cbn. rewrite <- app_assoc. cbn. f_equal. lia. Qed.

Lemma keeps_map_read μ info fd0 k b k1 k1' fd :
  k_prog_info fd0 k = inr info → info_name info = "xdp_dispatcher"%string →
  k_map_fd_by_id (info_map_id info) k1 = (inr fd, k1') → btf_valid b →
  keeps μ 0 (read_dispatcher_map fd b)
    (λ r, ∀ v c, r = inr (v, c) → 0 ≤ dispatcher_config.num_progs_enabled c ≤ MAX_DISPATCHER_ACTIONS).
Proof.
  intros Hinfo Hname Hfd Hb. unfold read_dispatcher_map.
  eapply keeps_bind0; [apply (keeps_kread_post _ _ (λ r, ∃ k2, k_map_info fd k2 = r)); by eauto|].
  intros [e|desc] [k2 H2]; [by apply keeps_pret|]. apply keeps_if; [by apply keeps_pret|].
  eapply keeps_bind0; [apply keeps_kop|]. intros ok _. apply keeps_if; [by apply keeps_pret|].
  eapply keeps_bind0; [apply (keeps_kread_post _ _ (λ r, ∃ k3, k_map_lookup fd k3 = r)); by eauto|].
  intros [e|buf] [k3 H3]; [by apply keeps_pret|].
  destruct (maps_genuine env _ _ _ _ _ _ _ _ _ _ Hinfo Hname Hfd H2 H3) as (Hsz & Hn2 & Hn0).
  apply (keeps_bind0 _ _ _ _ (λ r, r = inr XDP_DISPATCHER_VERSION_V1 → nth 0 buf 0 ≠ XDP_DISPATCHER_MAGIC)).
  { destruct (Z.eqb_spec (nth 0 buf 0) XDP_DISPATCHER_MAGIC) as [E|E].
    - apply keeps_pret. intros [= Hv]. done.
    - destruct (check_xdp_prog_version_total b Hb "dispatcher_version") as [[e|v] ->]; [|by apply keeps_pret].
      eapply keeps_bind0; [apply keeps_libxdp_err|]. intros e' _. by apply keeps_pret. }
  intros [e|v] Hv; [by apply keeps_pret|].
  destruct (Z.eqb_spec v XDP_DISPATCHER_VERSION_V1) as [->|_].
  - rewrite (proj2 (Z.ltb_ge _ _)) by done. apply keeps_pret. intros v c [= _ <-]. cbn.
    by rewrite (proj2 (Z.eqb_neq _ _) (Hv eq_refl)) in Hn0.
  - apply keeps_if; [|by apply keeps_pret]. apply keeps_if; [by apply keeps_pret|].
    apply keeps_pret. by intros v' c [= _ <-].
Qed.

Lemma keeps_check_version μ fd k info b :
  k_prog_info fd k = inr info → btf_valid b →
  keeps μ 0 (check_dispatcher_version (info_name info) b (info_nr_maps info) (info_map_id info))
    (λ r, ∀ v c, r = inr (v, c) → 0 ≤ dispatcher_config.num_progs_enabled c ≤ MAX_DISPATCHER_ACTIONS).
Proof.
  intros Hinfo Hb. unfold check_dispatcher_version.
  destruct (streq (info_name info) "xdp_dispatcher") eqn:Hn; cbn [negb]; [|by apply keeps_pret].
  apply bool_decide_eq_true in Hn. apply keeps_if; [by apply keeps_pret|].
  eapply keeps_bind0; [apply (keeps_kop_post _ _ (λ r, ∃ k1 k1', k_map_fd_by_id (info_map_id info) k1 = (r, k1'))); by eauto|].
  intros [e|mfd] (k1 & k1' & H1); [by apply keeps_pret|].
  eapply keeps_bind0; [by eapply keeps_map_read|]. intros r Hr.
  eapply keeps_bind0; [apply keeps_fclose|]. intros _ _. by apply keeps_pret.
Qed.

Section read.
(** Properties of the program objects and of the configurations that are read. *)
Context (P : xdp_program.t → Prop) (C : dispatcher_config.t → Prop).
Context (P_slot : ∀ c i p, P p → P (slot_prog c i p)).
Context (P_from_fd : ∀ μ fd, keeps μ 0 (xdp_program__from_fd fd) (λ r, ∀ p, r = inr p → P p)).
Context (C_read : ∀ μ fd k info b, k_prog_info fd k = inr info → btf_valid b →
  keeps μ 0 (check_dispatcher_version (info_name info) b (info_nr_maps info) (info_map_id info))
    (λ r, ∀ v c, r = inr (v, c) → C c ∧ 0 ≤ dispatcher_config.num_progs_enabled c ≤ MAX_DISPATCHER_ACTIONS)).

Lemma keeps_from_pin μ path :
  keeps μ 0 (xdp_program__from_pin path) (λ r, (∀ p, r = inr p → P p) ∧ err_nz r).
Proof.
  unfold xdp_program__from_pin. eapply keeps_bind0.
  { apply (keeps_kop_post _ _ err_nz). intros k r k' E e ->. by eapply (obj_get_err env). }
  intros [e|fd] He.
  - eapply keeps_bind0; [apply keeps_set_errno|]. intros _ _. apply keeps_pret. split; [done|].
    apply err_nz_inl. specialize (He e eq_refl). lia.
  - eapply keeps_bind0; [apply keeps_and; [apply P_from_fd|apply keeps_from_fd]|]. intros r Hr.
    eapply keeps_bind0; [apply keeps_fclose|]. intros _ _. by apply keeps_pret.
Qed.

(** What the loop over the pins adds to the object [m]. *)
Definition pinned_more (n : nat) (i : Z) (m : mp_t) (r : Z * mp_t) : Prop :=
  ∃ ps, (length ps ≤ n)%nat ∧ (r.1 = 0 → length ps = n) ∧ r.2 = add_links ps m ∧ Forall P ps ∧
    meta <$> ps = slot_metas (xdp_multiprog.config m) i (length ps).

Lemma pinned_more_stop n i m e : e ≠ 0 ∨ n = 0%nat → pinned_more n i m (e, m).
Proof.
  intros He. exists []. cbn. rewrite add_links_nil. repeat split; [lia| |constructor]. by destruct He.
Qed.

Lemma keeps_link_pinned μ dir (n : nat) i m :
  0 ≤ i → i + n ≤ MAX_DISPATCHER_ACTIONS → keeps μ 0 (link_pinned dir n i m) (pinned_more n i m).
Proof.
  revert i m. induction n as [|n IH]; intros i m Hi Hn; cbn [link_pinned].
  { apply keeps_pret, pinned_more_stop. by right. }
  cbv zeta. destruct (Z.eqb_spec (try_path (pinned_prog dir i)) 0) as [_|Ht]; cbn [negb];
    [|apply keeps_pret, pinned_more_stop; by left].
  eapply keeps_bind0; [apply keeps_from_pin|]. intros [e|p] [Hp He].
  { apply keeps_pret, pinned_more_stop. left. by apply He. }
  eapply keeps_bind0; [apply keeps_kop|]. intros ok _. apply keeps_if; [apply keeps_pret, pinned_more_stop; by left|].
  rewrite (proj2 (Z.leb_gt _ _)) by lia. eapply keeps_weaken; [apply IH; lia|done|].
  intros r (ps & Hlen & Hz & Hr & HP & Hm). eexists (_ :: ps). split; [cbn; lia|].
  split; [intros E; cbn; by rewrite (Hz E)|]. split; [by rewrite Hr, add_links_cons|].
  split; [constructor; auto|]. cbn [length]. by rewrite slot_metas_S, fmap_cons, Hm.
Qed.

(** An object as it is read. *)
Definition links_read (m : mp_t) : Prop :=
  let c := xdp_multiprog.config m in
  let ps := xdp_multiprog.first_prog m in
  (is_Some (xdp_multiprog.main_prog m) → C c) ∧ (xdp_multiprog.main_prog m = None → ps = []) ∧
  xdp_multiprog.num_links m = length ps ∧
  xdp_multiprog.num_links m = dispatcher_config.num_progs_enabled c ∧
  meta <$> ps = slot_metas c 0 (length ps).
Definition read_ok (m : mp_t) : Prop :=
  0 ≤ xdp_multiprog.num_links m ≤ MAX_DISPATCHER_ACTIONS ∧
  (∀ p, xdp_multiprog.main_prog m = Some p ∨ xdp_multiprog.hw_prog m = Some p ∨
        p ∈ xdp_multiprog.first_prog m → P p) ∧
  (xdp_multiprog.is_legacy m = false → links_read m).

Lemma keeps_link_pinned_progs μ m :
  xdp_multiprog.first_prog m = [] → xdp_multiprog.num_links m = 0 → is_Some (xdp_multiprog.main_prog m) →
  0 ≤ dispatcher_config.num_progs_enabled (xdp_multiprog.config m) ≤ MAX_DISPATCHER_ACTIONS →
  keeps μ 0 (xdp_multiprog__link_pinned_progs m) (λ r,
    if r.1 =? 0 then pinned_more (Z.to_nat (dispatcher_config.num_progs_enabled (xdp_multiprog.config m))) 0 m r
    else 0 ≤ xdp_multiprog.num_links r.2 ≤ MAX_DISPATCHER_ACTIONS ∧ xdp_multiprog.first_prog r.2 = []).
Proof.
  intros Hf Hn [main Hmain] Hc. unfold xdp_multiprog__link_pinned_progs. set (n := Z.to_nat _).
  rewrite bool_decide_eq_false_2 by auto.
  set (Q r := if r.1 =? 0 then _ else _).
  assert (∀ e, e ≠ 0 → Q (e, m)) as Hstop.
  { intros e He. unfold Q. cbn. rewrite (proj2 (Z.eqb_neq _ _) He), Hn. by split; [|]. }
  eapply keeps_bind0.
  { apply (keeps_kop_post _ _ err_nz). intros k r k' E e ->. by eapply (bpffs_err env). }
  intros [e|bpffs] He; [apply keeps_pret, Hstop; by apply He|]. rewrite Hmain. cbv zeta.
  destruct (Z.eqb_spec (try_path (pin_path bpffs (xdp_multiprog.ifindex m) (prog_id main))) 0) as [_|Ht];
    cbn [negb]; [|by apply keeps_pret, Hstop].
  eapply keeps_bind0; [apply keeps_kop|]. intros lock _.
  destruct (Z.ltb_spec lock 0); [apply keeps_pret, Hstop; lia|].
  eapply keeps_bind0; [apply keeps_kread|]. intros e _. apply (keeps_bind0 _ _ _ _ Q).
  - destruct (Z.eqb_spec e 0) as [_|Hne]; cbn [negb]; [|apply keeps_pret, Hstop; lia].
    eapply keeps_bind0; [apply keeps_link_pinned; [lia|]; unfold n; lia|]. intros [err m'] Hm'.
    destruct (Z.eqb_spec err 0) as [->|Herr]; cbn [negb]; [by apply keeps_pret|].
    eapply keeps_bind0; [apply keeps_close_all|]. intros _ _. apply keeps_pret. unfold Q. cbn.
    rewrite (proj2 (Z.eqb_neq _ _) Herr). destruct Hm' as (ps & Hlen & _ & Er & _). cbn in Er. subst m'. cbn. rewrite Hn. unfold n in Hlen. split; [lia|done].
  - intros [err m'] HQ. eapply keeps_bind0; [apply keeps_kop|]. intros _ _. by apply keeps_pret.
Qed.

Lemma keeps_dispatcher_of μ fd k info :
  k_prog_info fd k = inr info →
  keeps μ 0 (dispatcher_of info) (λ r, ∀ v c, r = inr (Some (v, c)) →
    C c ∧ 0 ≤ dispatcher_config.num_progs_enabled c ≤ MAX_DISPATCHER_ACTIONS).
Proof.
  intros Hinfo. unfold dispatcher_of. apply keeps_if; [by apply keeps_pret|].
  eapply keeps_bind0.
  { apply (keeps_kread_post _ _ opt_valid). intros k' b E. by eapply (btf_ok env). }
  intros [b|] Hb; [|by apply keeps_pret]. eapply keeps_bind0; [eapply C_read; [done|by apply Hb]|].
  intros [e|vc] Hr; apply keeps_pret; [by destruct (_ =? _)|]. intros v c [= ->]. by apply (Hr v).
Qed.

Lemma keeps_fill_main μ i fd disp :
  (∀ v c, disp = Some (v, c) → C c ∧ 0 ≤ dispatcher_config.num_progs_enabled c ≤ MAX_DISPATCHER_ACTIONS) →
  keeps μ 0 (fill_main (new_mp i) fd disp) (λ r, r.1 = 0 → read_ok r.2 ∧ xdp_multiprog.hw_prog r.2 = None).
Proof.
  intros Hd. unfold fill_main. destruct disp as [[v c]|]; cbn [default from_option].
  - rewrite bool_decide_eq_false_2 by done. destruct (Hd v c eq_refl) as [HC Hc]. unfold id.
    eapply keeps_bind0; [apply keeps_and; [apply P_from_fd|apply keeps_from_fd]|].
    intros [e|p] [Hp He]; [apply keeps_pret; cbn; intros ->; by destruct (He 0)|].
    cbv zeta. eapply keeps_bind0; [by apply keeps_link_pinned_progs; cbn; eauto|]. intros [err m] Hm. apply keeps_pret.
    cbn [fst snd] in *. intros _. destruct (Z.eqb_spec err 0) as [->|_].
    + destruct Hm as (ps & Hlen & Hz & Hr & HP & Hmeta). cbn in Hr, Hlen, Hmeta. cbn [snd] in Hr. subst m.
      split; [|done]. unfold read_ok, links_read. cbn. specialize (Hz eq_refl). cbn in Hz. split; [lia|]. split.
      * intros q [[= <-]|[?|Hq]]; [by apply Hp|done|]. by eapply (proj1 (Forall_forall _ _) HP).
      * intros _. split; [done|]. split; [done|]. split; [done|]. split; [lia|done].
    + destruct Hm as [Hn Hf]. split; [|done]. split; [done|]. split; [|done]. cbn. rewrite Hf.
      intros q [[= <-]|[?|Hq]]; [by apply Hp|done|]. by apply not_elem_of_nil in Hq.
  - eapply keeps_bind0; [apply keeps_and; [apply P_from_fd|apply keeps_from_fd]|].
    intros [e|p] [Hp He]; [apply keeps_pret; cbn; intros ->; by destruct (He 0)|]. apply keeps_pret. intros _.
    split; [|done]. split; [done|]. split; [|done]. cbn.
    intros q [[= <-]|[?|Hq]]; [by apply Hp|done|]. by apply not_elem_of_nil in Hq.
Qed.

Lemma keeps_fill_hw μ m fd :
  read_ok m → xdp_multiprog.hw_prog m = None →
  keeps μ 0 (fill_hw m fd) (λ r, r.1 = 0 → read_ok r.2).
Proof.
  intros (Hn & HP & Hl) Hhw. unfold fill_hw. apply keeps_if.
  - eapply keeps_bind0; [apply keeps_and; [apply P_from_fd|apply keeps_from_fd]|].
    intros [e|p] [Hp He]; [apply keeps_pret; cbn; intros ->; by destruct (He 0)|]. apply keeps_pret. intros _.
    split; [done|]. split.
    + intros q [?|[[= <-]|?]]; [apply HP; auto|by apply Hp|apply HP; auto].
    + cbn. intros [Hleg _]%orb_false_iff. by apply Hl.
  - apply keeps_pret. intros _. split; [done|]. split; [|done]. intros q [?|[?|?]]; [apply HP; auto|done|apply HP; auto].
Qed.

Lemma read_ok_new i : read_ok (new_mp i).
Proof.
  split; [done|]. split; [|by intros _; split; [intros [? [=]]|]].
  intros q [?|[?|Hq]]; [done..|]. by apply not_elem_of_nil in Hq.
Qed.

Lemma keeps_mp_fill μ i fd hw_fd :
  keeps μ 0 (xdp_multiprog__fill_from_fd (new_mp i) fd hw_fd) (λ r, r.1 = 0 → read_ok r.2).
Proof.
  unfold xdp_multiprog__fill_from_fd. apply keeps_if; [|by apply keeps_fill_hw; [apply read_ok_new|]].
  eapply keeps_bind0; [apply (keeps_kread_post _ _ (λ r, ∃ k, k_prog_info fd k = r)); by eauto|].
  intros [e|info] [k Hk]; [by apply keeps_pret|].
  eapply keeps_bind0; [by eapply keeps_dispatcher_of|]. intros [err|disp] Hdisp.
  - apply keeps_pret. cbn. intros _. apply read_ok_new.
  - eapply keeps_bind0; [apply keeps_fill_main; intros v c ->; by apply (Hdisp v)|]. intros [err m] Hm.
    destruct (Z.eqb_spec err 0) as [->|Herr]; cbn [negb]; [|by apply keeps_pret].
    destruct (Hm eq_refl). by apply keeps_fill_hw.
Qed.

Lemma keeps_from_id_read μ id hid i :
  keeps μ 0 (xdp_multiprog__from_id id hid i) (λ r, ∀ m, r = inr m → read_ok m).
Proof.
  assert (∀ x, keeps μ 0 (fd_of_id x) (λ _, True)) as Hfd.
  { intros x. unfold fd_of_id. repeat keeps_step; eauto with keeps. }
  assert (∀ x, keeps μ 0 (close_pos x) (λ _, True)) as Hcl.
  { intros x. unfold close_pos. repeat keeps_step; eauto with keeps. }
  unfold xdp_multiprog__from_id. eapply keeps_bind0; [apply Hfd|]. intros [e|fd] _; [by apply keeps_pret|].
  eapply keeps_bind0; [apply Hfd|]. intros [e|hfd] _.
  { eapply keeps_bind0; [apply Hcl|]. intros _ _. by apply keeps_pret. }
  apply (keeps_bind0 _ _ _ _ (λ r, ∀ m, r = inr m → read_ok m)).
  - unfold xdp_multiprog__from_fd. eapply keeps_bind0; [apply keeps_kop|]. intros ok _.
    apply keeps_if; [by apply keeps_pret|]. eapply keeps_bind0; [apply keeps_mp_fill|].
    intros [err m] Hm. cbn in Hm. destruct (Z.eqb_spec err 0) as [->|Herr]; cbn [negb].
    + apply keeps_pret. intros m' [= <-]. by apply Hm.
    + do 3 (eapply keeps_bind0; [eauto using keeps_close_all with keeps|intros _ _]). by apply keeps_pret.
  - intros r Hr. do 2 (eapply keeps_bind0; [apply Hcl|intros _ _]). by apply keeps_pret.
Qed.
End read.

(** With no further property. *)
Lemma keeps_from_id_ok μ id hid i :
  keeps μ 0 (xdp_multiprog__from_id id hid i) (λ r, ∀ m, r = inr m → read_ok (λ _, True) (λ _, True) m).
Proof.
  apply keeps_from_id_read; [done| |].
  - intros. by eapply keeps_weaken; [apply keeps_from_fd|..].
  - intros. eapply keeps_weaken; [by eapply keeps_check_version|done|]. cbn. eauto.
Qed.

(** A property that the result of every run has. *)
Lemma keeps_from_id (P : mp_t → Prop) μ id hid i :
  (∀ w w' m, xdp_multiprog__from_id id hid i w = Some (inr m, w') → P m) →
  keeps μ 0 (xdp_multiprog__from_id id hid i) (λ r, ∀ m, r = inr m → P m).
Proof.
  intros HP w E Hw. pose proof (keeps_from_id_ok μ id hid i w E Hw) as Hr. unfold wp in *.
  destruct (xdp_multiprog__from_id id hid i w) as [[r w']|] eqn:Erun; [|done].
  destruct Hr as ((? & _) & ? & ?). split; [|done]. split; [done|]. intros m ->. by eapply HP.
Qed.

Lemma keeps_from_id_wf μ id hid i :
  keeps μ 0 (xdp_multiprog__from_id id hid i) (λ r, ∀ m, r = inr m → wf_mp m).
Proof.
  eapply keeps_weaken; [apply keeps_from_id_ok|done|].
  intros r H1 m ->. destruct (H1 m eq_refl) as (Hn & _ & Hl). split; [unfold MAX_DISPATCHER_ACTIONS in Hn; lia|].
  intros Hleg. by destruct (Hl Hleg) as (_ & _ & ? & _).
Qed.

Section get.
(** A property of the objects that are read. *)
Context (P : mp_t → Prop) (P_mode : ∀ mode m, P m → P (set_mode mode m)).
(** And one of the identifiers of hardware programs that the kernel reports. *)
Context (I : Z → Prop) (I_query : ∀ i k q, k_query i k = inr q → I (hw_prog_id q)).
Context (P_from_id : ∀ μ id hid i, I hid →
  keeps μ 0 (xdp_multiprog__from_id id hid i) (λ r, ∀ m, r = inr m → P m)).

Lemma keeps_query μ i st : I st.1.2 → keeps μ 0 (xdp_get_ifindex_prog_id i st) (λ r, I r.2.1.2).
Proof.
  intros Hst. unfold xdp_get_ifindex_prog_id. destruct st as [[id hid] mode]. cbn in Hst.
  eapply keeps_bind0; [apply (keeps_kread_post _ _ (λ r, ∀ q, r = inr q → I (hw_prog_id q)));
    intros k q Hq; by eapply I_query|]. intros [e|q] Hq; apply keeps_pret; [done|]. specialize (Hq q eq_refl).
  by destruct (attach_kind q); cbn; repeat case_match.
Qed.

Lemma spec_get_retry μ tries i st : I st.1.2 → spec μ 0 (get_retry tries i st) (one_new P μ).
Proof.
  revert st. induction tries as [|tries IH]; intros st Hst; cbn [get_retry];
  (eapply keeps_bind; [by apply keeps_query|reflexivity|]); intros [err [[id hid] mode]] Hhid; cbn in Hhid;
  (apply spec_if; intros _; [by eapply keeps_spec; [apply keeps_err_ptr|intros ? ->]|]);
  (apply spec_if; intros _; [by eapply keeps_spec; [apply keeps_err_ptr|intros ? ->]|]);
  (eapply keeps_bind; [by apply P_from_id|reflexivity|]); intros [e|m] Hm.
  2,4: apply spec_mp_alloc; intros a Ha; apply spec_ret; exists (set_mode mode m);
    split; [done|]; split; [done|]; by apply P_mode, Hm.
  all: apply spec_if; intros _; [|by eapply keeps_spec; [apply keeps_err_ptr|intros ? ->]].
  - by eapply keeps_spec; [apply keeps_err_ptr|intros ? ->].
  - by apply IH.
Qed.
End get.

Lemma spec_get μ i : spec μ 0 (xdp_multiprog__get_from_ifindex i) (one_new wf_mp μ).
Proof.
  apply (spec_get_retry wf_mp ltac:(done) (λ _, True)); cbn; auto using keeps_from_id_wf.
Qed.

Lemma keeps_mp_detach μ mp : live μ mp → keeps μ 4 (xdp_multiprog__detach mp) (λ _, True).
Proof.
  intros Hl. unfold xdp_multiprog__detach.
  assert (∀ μ n e, keeps μ n (libxdp_err e) (λ _, True)) as Herr.
  { intros. eapply keeps_weaken; [apply keeps_libxdp_err|lia|done]. }
  destruct mp as [|e|a]; [apply Herr..|]. pose proof Hl as [m Hm].
  eapply keeps_bind0; [by apply keeps_mp_deref|]. intros m' _. apply keeps_if; [apply Herr|].
  apply (keeps_seq _ 2 2 _ _ (λ _, True)).
  { apply keeps_if; [by apply keeps_pret|by apply keeps_detach_hw]. }
  intros e _. apply keeps_if; [apply Herr|]. apply keeps_if; [apply Herr|].
  apply (keeps_seq _ 2 0 _ _ (λ _, True)); [by apply keeps_mp_attach|]. intros e1 _.
  apply keeps_if; [apply Herr|]. eapply keeps_bind0; [by apply keeps_legacy|]. intros leg _.
  apply (keeps_bind0 _ _ _ _ (λ _, True)); [apply keeps_if; [by apply keeps_pret|by apply keeps_unpin]|].
  intros. apply Herr.
Qed.

(** ** Loading and attaching one program *)

Lemma keeps_set_frags μ p b :
  keeps μ 0 (set_frags_support p b) 
    (λ p', (is_Some (bpf_prog p) → is_Some (bpf_prog p')) ∧ meta p' = meta p).
Proof.
  unfold set_frags_support. eapply keeps_bind0; [eauto with keeps|]. intros ld _.
  unfold xdp_program__set_xdp_frags_support. destruct (bpf_prog p) eqn:E; [|by apply keeps_pret; rewrite E].
  destruct (0 <=? prog_fd p); [apply keeps_pret; by rewrite E|].
  destruct (_ =? 0); apply keeps_pret; [done|by rewrite E].
Qed.
Hint Resolve keeps_set_frags : keeps.

Lemma okp_loaded a p p' : okp a p → prog_fd p < 0 → (is_Some (bpf_prog p) → is_Some (bpf_prog p')) → okp a p'.
Proof. unfold okp. destruct (hw a); [|done]. intros [Hp|[_ ?]] Hfd Hi; [left; auto|lia]. Qed.

Lemma okp_some a p : is_Some (bpf_prog p) → okp a p.
Proof. unfold okp. destruct (hw a); [by left|done]. Qed.

Lemma keeps_attach_single μ a i mode :
  is_Some (hw a) → a ∈ δ → keeps μ 2 (xdp_program__attach_single a i mode) (λ _, True).
Proof.
  intros Hhw Ha. unfold xdp_program__attach_single. eapply keeps_bind0; [by apply keeps_deref|].
  intros p [Hp Hm]. eapply (keeps_bind0 _ _ _ _ (λ _, True)).
  - destruct (Z.ltb_spec (prog_fd p) 0) as [Hfd|]; [|by apply keeps_pret].
    assert (is_Some (bpf_prog p)) as Hs by (unfold okp in Hp; destruct (hw a); [destruct Hp as [|[_ ?]]; [done|lia]|by destruct Hhw]).
    eapply keeps_bind0; [apply keeps_frags|]. intros fr _.
    eapply (keeps_bind0 _ _ _ _ (λ p', is_Some (bpf_prog p') ∧ meta p' = meta p)).
    { destruct fr; [by apply keeps_pret|]. eapply keeps_weaken; [apply keeps_set_frags|done|]. intros p' [Hs' Hm']. by split; [apply Hs'|]. }
    intros p1 [[bp Hp1] Hm1]. rewrite bool_decide_eq_false_2 by congruence.
    eapply keeps_bind0; [apply keeps_load|]. intros [err p2] [Hp2 Hm2]. cbn in Hp2, Hm2.
    eapply keeps_bind0; [apply keeps_assign; [congruence|by eapply okp_some, Hp2; eauto]|]. intros _ _. by apply keeps_pret.
  - intros r _. apply keeps_if; [by apply keeps_pret|].
    eapply keeps_bind0; [by apply keeps_deref|]. intros p' _.
    apply keeps_if; [by apply keeps_pret|apply keeps_attach_fd].
Qed.

Lemma keeps_attach_hw μ a i :
  hw a = Some true → a ∈ δ → keeps μ 2 (xdp_program__attach_hw a i) (λ _, True).
Proof.
  intros Hhw Ha. unfold xdp_program__attach_hw. eapply keeps_bind0; [by apply keeps_deref|].
  unfold okp. rewrite Hhw. intros p [[[bp Hp]|[? _]] _]; [|congruence]. rewrite bool_decide_eq_false_2 by congruence.
  apply keeps_attach_single; [by rewrite Hhw|done].
Qed.

(** ** Building a dispatcher *)

Definition ref_ok (r : progref) : Prop := match r with Arg a => a ∈ δ | Own _ => True end.
Definition ref_meta (r : progref) : option (Z * Z) :=
  match r with Arg a => ρ !! a | Own p => Some (meta p) end.

Lemma keeps_ref_deref μ r : ref_ok r → keeps μ 0 (ref_deref r)
  (λ p, (∀ a, r = Arg a → okp a p) ∧ ref_meta r = Some (meta p)).
Proof.
  destruct r as [a|p]; cbn; intros Hr.
  - eapply keeps_weaken; [by apply keeps_deref|done|]. intros p [Hp Hm]. split; [by intros b [= <-]|done].
  - by apply keeps_pret.
Qed.

Lemma keeps_link_load μ r p fd :
  ref_ok r → (∀ a, r = Arg a → okp a p) → ref_meta r = Some (meta p) →
  keeps μ 0 (link_load r p fd) (λ _, True).
Proof.
  intros Hr Hp Hm. unfold link_load. destruct (Z.ltb_spec (prog_fd p) 0) as [Hfd|]; [|by apply keeps_pret].
  eapply keeps_bind0; [apply (keeps_true _ _ _ (λ _, True)); repeat keeps_step; eauto with keeps|].
  intros e _. apply keeps_if; [by apply keeps_pret|].
  eapply keeps_bind0; [apply keeps_load|]. intros [e' p'] [Hp' Hm']. cbn in Hp', Hm'.
  apply (keeps_bind0 _ _ _ _ (λ _, True)); [|intros _ _; by apply keeps_pret].
  destruct r as [a|q]; cbn in *; [|by apply keeps_pret].
  apply keeps_assign; [congruence|]. eapply okp_loaded; eauto.
Qed.

Lemma keeps_link_attach μ fd mfd id wl : keeps μ 0 (link_attach fd mfd id wl) err_nz.
Proof.
  unfold link_attach. apply (keeps_bind0 _ _ _ _ err_nz).
  { apply keeps_kop_post. intros k r k' E e ->. by eapply (link_err env). }
  intros [e|lfd] He; [|repeat keeps_step; eauto with keeps].
  apply (keeps_bind0 _ _ _ _ err_nz).
  { repeat keeps_step; eauto with keeps.
    apply keeps_kop_post. intros k r k' E e' ->. by eapply (raw_tp_err env). }
  intros [e'|lfd] He'; repeat keeps_step; eauto with keeps.
  apply err_nz_inl. specialize (He' e' eq_refl). destruct (_ =? _); [done|lia].
Qed.

Lemma keeps_find_btf_id μ name fd :
  name ≠ "void"%string → keeps μ 0 (find_prog_btf_id name fd) (λ id, id ≠ 0).
Proof.
  intros Hname. unfold find_prog_btf_id.
  eapply keeps_bind0; [apply (keeps_kread_post _ _ err_nz); intros k e; apply (prog_info_err env)|].
  intros [e|info] He; [apply keeps_pret; specialize (He e eq_refl); lia|]. apply keeps_if; [by apply keeps_pret|].
  eapply keeps_bind0; [apply keeps_kread|]. intros [b|] _; apply keeps_pret; [|done].
  unfold btf__find_by_name_kind, streq. rewrite bool_decide_eq_false_2 by done. cbn [orb Z.eqb BTF_KIND_FUNC].
  destruct (find_by_name_kind_cases b 1 name BTF_KIND_FUNC) as [E|(j & E & _)]; cbn in *; rewrite E; [done|lia].
Qed.

Lemma attach_func_name n i : attach_func n i ≠ "void"%string.
Proof. unfold attach_func, prog_func. by destruct (n =? 1). Qed.

(** What linking a program may change of the new dispatcher. *)
Definition links_more (k : nat) (m m' : mp_t) : Prop :=
  xdp_multiprog.config m' = xdp_multiprog.config m ∧
  is_Some (xdp_multiprog.main_prog m') ∧
  xdp_multiprog.num_links m' = xdp_multiprog.num_links m + k ∧
  length (xdp_multiprog.first_prog m') = (length (xdp_multiprog.first_prog m) + k)%nat.

Lemma links_more_0 m : is_Some (xdp_multiprog.main_prog m) → links_more 0 m m.
Proof. unfold links_more. intros. repeat split; [done|lia|lia]. Qed.

(** Up to [n] programs are linked, and all [n] on success. *)
Definition link_post (μ : gmap nat mp_t) (a : nat) (m : mp_t) (n : nat) (e : Z) (μ' : gmap nat mp_t) : Prop :=
  ∃ m' k, μ' = <[a := m']> μ ∧ links_more k m m' ∧ (k ≤ n)%nat ∧ (e = 0 → k = n).

Lemma link_post_stop μ a m n e :
  μ !! a = Some m → is_Some (xdp_multiprog.main_prog m) → e ≠ 0 ∨ n = 0%nat → link_post μ a m n e μ.
Proof.
  intros Hm Hs He. exists m, 0%nat. rewrite insert_id by done.
  split; [done|]. split; [by apply links_more_0|]. split; [lia|]. intros ->. by destruct He.
Qed.

Lemma spec_link_prog μ a m r :
  μ !! a = Some m → is_Some (xdp_multiprog.main_prog m) → ref_ok r →
  spec μ 0 (xdp_multiprog__link_prog a r) (link_post μ a m 1).
Proof.
  intros Hm Hs Hr.
  assert (∀ e, e ≠ 0 → spec μ 0 (pret e) (link_post μ a m 1)) as Hstop
    by (intros e He; by apply spec_ret, link_post_stop; [..|left]).
  assert (∀ e, negb (e =? 0) = true → e ≠ 0) as Hnz by (intros e He ->; done).
  unfold xdp_multiprog__link_prog. eapply spec_mp_deref; [done|].
  eapply keeps_bind; [by apply keeps_ref_deref|reflexivity|]. intros p [Hp Hmeta]. cbv zeta.
  apply spec_if; intros _; [by apply Hstop|].
  eapply keeps_bind; [apply keeps_kop|reflexivity|]. intros e _.
  apply spec_if; intros He; [by apply Hstop, Hnz|]. apply spec_if; intros _; [by apply Hstop|].
  destruct (xdp_multiprog.main_prog m) as [main|] eqn:Emain; [|by destruct Hs].
  eapply keeps_bind; [apply keeps_find_btf_id, attach_func_name|reflexivity|]. intros id Hid.
  apply spec_if; intros _; [by apply Hstop|].
  eapply keeps_bind; [by apply keeps_link_load|reflexivity|]. intros [[e1 wl] p1] _.
  apply spec_if; intros He1; [by apply Hstop, Hnz|].
  eapply keeps_bind; [apply keeps_clone|reflexivity|]. intros [e2|np] He2; [by apply Hstop, He2|].
  eapply keeps_bind; [apply keeps_link_attach|reflexivity|]. intros [e3|lfd] He3.
  { eapply keeps_bind; [apply keeps_close|reflexivity|]. intros _ _. by apply Hstop, He3. }
  eapply keeps_bind; [apply keeps_kop|reflexivity|]. intros ok _. apply spec_if; intros _.
  { do 2 (eapply keeps_bind; [eauto with keeps|reflexivity|intros _ _]). by apply Hstop. }
  eapply spec_mp_assign; [done|]. apply spec_ret. eexists _, 1%nat. split; [reflexivity|].
  unfold links_more. cbn. rewrite Emain, length_app. cbn. repeat split; [eauto|lia..].
Qed.

Lemma spec_link_all μ a m rs :
  μ !! a = Some m → is_Some (xdp_multiprog.main_prog m) → Forall ref_ok rs →
  spec μ 0 (link_all a rs) (link_post μ a m (length rs)).
Proof.
  intros Hm Hs Hrs. revert μ m Hm Hs. induction Hrs as [|r rs Hr Hrs IH]; intros μ m Hm Hs.
  { apply spec_ret. apply link_post_stop; auto. }
  cbn [link_all]. eapply (spec_bind _ 0 0); [by apply spec_link_prog|].
  intros e μ' (m1 & k1 & -> & Hk1 & Hle & Hz1). apply spec_if; intros He.
  { apply spec_ret. exists m1, k1. split; [done|]. split; [done|]. split; [cbn; lia|]. by intros ->. }
  apply negb_false_iff, Z.eqb_eq, Hz1 in He as ->.
  eapply spec_weaken; [apply (IH _ m1)|done|].
  - apply lookup_insert_eq.
  - apply Hk1.
  - intros e' μ' (m2 & k2 & -> & Hk2 & Hle2 & Hz2). exists m2, (1 + k2)%nat. rewrite insert_insert_eq.
    destruct Hk1 as (?&?&?&?), Hk2 as (?&?&?&?). unfold links_more. cbn.
    repeat split; [congruence|done|lia|lia|lia|]. intros E. by rewrite (Hz2 E).
Qed.

Lemma kept_progs_add ps ids i n :
  i + length ps ≤ n → kept_progs ps ids false i n = Some (inr (Own <$> ps)).
Proof.
  revert i. induction ps as [|p ps IH]; intros i Hn; [done|]. cbn [kept_progs andb length] in *.
  rewrite (proj2 (Z.leb_gt _ _)), IH by lia. done.
Qed.

Lemma kept_progs_remove ps ids i n :
  let kept := filter (λ p, prog_id p ∉ ids) ps in
  kept_progs ps ids true i n =
  if decide (kept = [] ∨ i + length kept ≤ n) then Some (inr (Own <$> kept)) else Some (inl (- EINVAL)).
Proof.
  cbn zeta. revert i. induction ps as [|p ps IH]; intros i; cbn [kept_progs].
  - by rewrite decide_True by (left; done).
  - rewrite filter_cons. destruct (decide (prog_id p ∉ ids)) as [Hp|Hp].
    + rewrite bool_decide_eq_false_2 by done. cbn [andb].
      destruct (Z.leb_spec n i).
      * rewrite decide_False; [done|]. cbn. intros [|]; [done|lia].
      * rewrite IH. clear IH. set (kept := filter _ ps).
        destruct (decide (kept = [] ∨ _)) as [Hd|Hd].
        { rewrite decide_True; [done|]. right. cbn. destruct Hd as [->|]; cbn; lia. }
        { rewrite decide_False; [done|]. intros [|Hx]; [done|]. cbn in Hx. apply Hd. right. lia. }
    + rewrite bool_decide_eq_true_2 by (by apply dec_stable). cbn [andb]. apply IH.
Qed.

(** At most as many programs are removed as identifiers are given. *)
Lemma kept_enough (ps : list xdp_program.t) ids :
  NoDup (prog_id <$> ps) →
  (length ps ≤ length (filter (λ p, prog_id p ∉ ids) ps) + length ids)%nat.
Proof.
  intros Hnd.
  assert (length (filter (λ p, prog_id p ∈ ids) ps) ≤ length ids)%nat as Hle.
  { rewrite <- (length_fmap prog_id). apply submseteq_length, NoDup_submseteq.
    - eapply sublist_NoDup; [done|]. apply fmap_sublist, sublist_filter.
    - intros x (p & -> & Hp)%list_elem_of_fmap. by apply list_elem_of_filter in Hp as [? _]. }
  assert (length ps = length (filter (λ p, prog_id p ∈ ids) ps) + length (filter (λ p, prog_id p ∉ ids) ps))%nat; [|lia].
  clear. induction ps as [|p ps IH]; [done|]. rewrite !filter_cons.
  destruct (decide (prog_id p ∈ ids)) as [H1|H1].
  - rewrite decide_False by tauto. cbn. lia.
  - rewrite decide_True by done. cbn. lia.
Qed.

(** The metadata of the programs of the new dispatcher, in some order: those of
    the old one and the given ones, or some of the old one. *)
Definition new_metas (old : list xdp_program.t) (progs : list nat) (remove : bool)
    (l : list (option (Z * Z))) : Prop :=
  if remove then ∃ kept, sublist kept old ∧ l ≡ₚ (λ p, Some (meta p)) <$> kept
  else l ≡ₚ ((λ p, Some (meta p)) <$> old) ++ ((ρ !!.) <$> progs).

Lemma new_metas_perm old progs remove l l' : new_metas old progs remove l → l' ≡ₚ l → new_metas old progs remove l'.
Proof.
  unfold new_metas. destruct remove; [intros (kept & Hs & Hl) E|intros Hl E].
  - exists kept. split; [done|]. by rewrite E.
  - by rewrite E.
Qed.

(** The list of programs to link never overruns nor leaves a null entry. *)
Lemma new_prog_list_ok old progs ids (remove : bool) n :
  wf_mp old → xdp_multiprog.is_legacy old = false → (remove = true → distinct old) → length ids = length progs → 0 ≤ n →
  n = (if remove then xdp_multiprog.num_links old - length progs
       else xdp_multiprog.num_links old + length progs) →
  Forall (.∈ δ) progs →
  ∃ r, new_prog_list (xdp_multiprog.first_prog old) progs ids remove n = Some r ∧
    (r = inl (- EINVAL) ∨ ∃ rs, r = inr rs ∧ Z.of_nat (length rs) = n ∧ Forall ref_ok rs ∧
       new_metas (xdp_multiprog.first_prog old) progs remove (ref_meta <$> rs)).
Proof.
  intros (_ & Hwf) Hleg Hnd Hids Hn En Hp. pose proof (Hwf Hleg) as Hl. unfold new_prog_list. destruct remove.
  - rewrite kept_progs_remove. pose proof (kept_enough _ ids (Hnd eq_refl)) as Hk.
    pose proof (sublist_filter (λ p, prog_id p ∉ ids) (xdp_multiprog.first_prog old)) as Hsub.
    set (kept := filter _ _) in *. destruct (decide _) as [Hd|_]; [|by eexists; split; [|left]].
    assert (Z.of_nat (length kept) = n) as Hlen.
    { destruct Hd as [E|]; [rewrite E in Hk |- *; cbn in *; lia|lia]. }
    rewrite app_nil_r, length_fmap, (proj2 (Z.eqb_eq _ _)) by done.
    eexists. split; [done|]. right. eexists. split; [done|]. rewrite length_fmap. split; [done|]. split.
    + apply Forall_fmap, Forall_true. by intros.
    + exists kept. by rewrite <- list_fmap_compose.
  - rewrite kept_progs_add by lia. rewrite length_fmap, take_ge by lia.
    rewrite (proj2 (Z.eqb_eq _ _)); [|rewrite length_app, !length_fmap; lia].
    eexists. split; [done|]. right. eexists. split; [done|]. rewrite length_app, !length_fmap. split; [lia|]. split.
    + apply Forall_app. split; apply Forall_fmap; [by apply Forall_true|exact Hp].
    + unfold new_metas. by rewrite fmap_app, <- !list_fmap_compose.
Qed.

Lemma insert_by_perm {A} (le : A → A → bool) x l : insert_by le x l ≡ₚ x :: l.
Proof.
  induction l as [|y l IH]; [done|]. cbn. destruct (le x y); [done|]. rewrite IH. constructor.
Qed.

Lemma qsort_perm {A} (le : A → A → bool) l : qsort le l ≡ₚ l.
Proof.
  induction l as [|x l IH]; [done|]. change (insert_by le x (qsort le l) ≡ₚ x :: l).
  rewrite insert_by_perm. by constructor.
Qed.

(** Sorting by the comparison orders the priorities, even where the comparison
    is not transitive. *)
Lemma qsort_prios (l : list (progref * xdp_program.t)) :
  Sorted Z.le (run_prio <$> (qsort cmp_le l).*2).
Proof.
  assert (∀ x y, cmp_le x y = true → run_prio x.2 ≤ run_prio y.2) as Hle.
  { intros x y. unfold cmp_le, cmp_xdp_programs. intros Hc%Z.leb_le.
    destruct (Z.eqb_spec (run_prio x.2) (run_prio y.2)); [lia|]. cbn in Hc.
    destruct (Z.ltb_spec (run_prio x.2) (run_prio y.2)); lia. }
  assert (∀ x y, cmp_le x y = false → run_prio y.2 ≤ run_prio x.2) as Hge.
  { intros x y. unfold cmp_le, cmp_xdp_programs. intros Hc%Z.leb_gt.
    destruct (Z.eqb_spec (run_prio x.2) (run_prio y.2)); [lia|]. cbn in Hc.
    destruct (Z.ltb_spec (run_prio x.2) (run_prio y.2)); lia. }
  induction l as [|x l IH]; [constructor|]. change (qsort cmp_le (x :: l)) with (insert_by cmp_le x (qsort cmp_le l)).
  revert IH. generalize (qsort cmp_le l). clear l. intros l. induction l as [|y l IHl]; intros Hs; cbn.
  { repeat constructor. }
  destruct (cmp_le x y) eqn:E; cbn.
  - constructor; [exact Hs|]. constructor. by apply Hle.
  - inversion_clear Hs as [|? ? Hs' Hh]. constructor; [by apply IHl|].
    destruct l as [|z l]; cbn; [constructor; by apply Hge|].
    inversion_clear Hh. destruct (cmp_le x z) eqn:E'; cbn; constructor; [by apply Hge|done].
Qed.

Lemma keeps_deref_all μ rs :
  Forall ref_ok rs →
  keeps μ 0 (deref_all rs) (λ ps, ps.*1 = rs ∧ (λ p, Some (meta p)) <$> ps.*2 = ref_meta <$> rs).
Proof.
  induction 1 as [|r rs Hr Hrs IH]; cbn [deref_all]; [by apply keeps_pret|].
  eapply keeps_bind0; [by apply keeps_ref_deref|]. intros p [_ Hm].
  eapply keeps_bind0; [apply IH|]. intros ps [Hps Hms]. apply keeps_pret. cbn. rewrite Hm. by split; f_equal.
Qed.

Lemma keeps_deref_ids μ progs :
  Forall (.∈ δ) progs → keeps μ 0 (deref_ids progs) (λ ids, length ids = length progs).
Proof.
  induction 1 as [|a progs Ha Hp IH]; cbn [deref_ids]; [by apply keeps_pret|].
  eapply keeps_bind0; [by apply keeps_deref|]. intros p _.
  eapply keeps_bind0; [apply IH|]. intros ids Hids. apply keeps_pret. cbn in Hids |- *. lia.
Qed.

(** A finished dispatcher: configured for [n] programs, at most the maximum,
    in the order of their priorities and with metadata as [L] says, and with a
    program linked to each slot. *)
Definition gen_ok (n : Z) (L : list (option (Z * Z)) → Prop) (m : mp_t) : Prop :=
  ∃ frags ps, xdp_multiprog.config m = make_config frags ps ∧ Z.of_nat (length ps) = n ∧
    Sorted Z.le (run_prio <$> ps) ∧ L ((λ p, Some (meta p)) <$> ps) ∧ is_Some (xdp_multiprog.main_prog m) ∧
    xdp_multiprog.num_links m = length (xdp_multiprog.first_prog m) ∧
    xdp_multiprog.num_links m = n.

Lemma spec_mp_load μ a m :
  μ !! a = Some m →
  spec μ 0 (xdp_multiprog__load a) (λ e μ', ∃ main ld, μ' = <[a := set_main (xdp_multiprog.config m) main ld m]> μ ∧
    (is_Some (xdp_multiprog.main_prog m) → is_Some main)).
Proof.
  intros Hm. unfold xdp_multiprog__load. eapply spec_mp_deref; [done|].
  assert (∃ main ld, μ = <[a := set_main (xdp_multiprog.config m) main ld m]> μ ∧
    (is_Some (xdp_multiprog.main_prog m) → is_Some main)) as Hstop.
  { exists (xdp_multiprog.main_prog m), (xdp_multiprog.is_loaded m). split; [|done].
    rewrite insert_id; [done|]. rewrite Hm. by destruct m. }
  destruct (xdp_multiprog.main_prog m) as [main|]; [|by apply spec_ret].
  apply spec_if; intros _; [by apply spec_ret|].
  apply (keeps_bind _ 0 0 0 _ _ (λ _, True)); [apply keeps_if; [eapply keeps_true; eauto with keeps|by apply keeps_pret]|done|].
  intros main1 _. eapply keeps_bind; [apply keeps_load|reflexivity|]. intros [e main2] _.
  eapply spec_mp_assign; [done|]. apply spec_ret. eexists _, _. split; [reflexivity|eauto].
Qed.

Definition body_post (μ : gmap nat mp_t) (a : nat) (n : Z) L (e : Z) (μ' : gmap nat mp_t) : Prop :=
  ∃ m', μ' = <[a := m']> μ ∧ (e = 0 → gen_ok n L m').

Lemma body_stop μ a n L m e : μ !! a = Some m → e ≠ 0 → body_post μ a n L e μ.
Proof. intros Hm He. exists m. by rewrite insert_id. Qed.

(** The part of the construction after the list of programs is known. *)
Lemma spec_generate_link μ a m n L frags ps :
  μ !! a = Some m → xdp_multiprog.first_prog m = [] → xdp_multiprog.num_links m = 0 →
  Z.of_nat (length ps) = n → Forall ref_ok (ps.*1) →
  (∀ l, l ≡ₚ (λ p, Some (meta p)) <$> ps.*2 → L l) →
  spec μ 0
    (let! d := kop (k_find_dispatcher "xdp_dispatcher") in
     match d with
     | inl e => pret e
     | inr dispatcher =>
       let! m := mp_deref a in
       mp_assign a (set_main (xdp_multiprog.config m) (Some dispatcher) false m) ;;;
       let! has_map := kread k_dispatcher_map in
       if negb has_map then pret (- ENOENT)
       else
         let cfg := make_config frags ((qsort cmp_le ps).*2) in
         let! m := mp_deref a in
         mp_assign a (set_main cfg (xdp_multiprog.main_prog m) false m) ;;;
         let! err := kop (k_set_rodata (config_bytes (xdp_multiprog.version m) cfg)) in
         if negb (err =? 0) then pret err
         else
           let! err := xdp_multiprog__load a in
           if negb (err =? 0) then pret err else link_all a ((qsort cmp_le ps).*1)
     end) (body_post μ a n L).
Proof.
  intros Hm Hf Hnl Hn Hok HL. apply (keeps_bind _ 0 0 0 _ _ (λ d, ∀ e, d = inl e → e ≠ 0)); [|done|].
  { intros w <- Hw. unfold wp, kop. destruct (k_find_dispatcher _ (kern w)) as [r k] eqn:E. cbn.
    split; [split; [done|]|split; [done|lia]]. intros e ->. by eapply (find_err env). }
  intros [e|d] Hd; [apply spec_ret; eapply body_stop; [done|by apply Hd]|].
  eapply spec_mp_deref; [done|]. eapply spec_mp_assign; [done|].
  eapply keeps_bind; [apply keeps_kread|reflexivity|]. intros hm _. apply spec_if; intros _.
  { apply spec_ret. eexists. by split. }
  cbv zeta. eapply spec_mp_deref; [apply lookup_insert_eq|]. eapply spec_mp_assign; [apply lookup_insert_eq|].
  rewrite insert_insert_eq. set (m1 := set_main _ _ _ _).
  eapply keeps_bind; [apply keeps_kop|reflexivity|]. intros e _. apply spec_if; intros He.
  { apply spec_ret. eexists. split; [done|]. intros ->. done. }
  eapply (spec_bind _ 0 0); [apply spec_mp_load, lookup_insert_eq|].
  intros e1 μ1 (main & ld & -> & Hmain). rewrite insert_insert_eq. apply spec_if; intros He1.
  { apply spec_ret. eexists. split; [done|]. intros ->. done. }
  eapply spec_weaken; [eapply spec_link_all|done|].
  - apply lookup_insert_eq.
  - apply Hmain. by cbn; eauto.
  - by rewrite qsort_perm.
  - intros e2 μ2 (m2 & k & -> & (Hc & Hm2 & Hl & Hlen) & _ & Hk). rewrite insert_insert_eq.
    exists m2. split; [done|]. intros ->. specialize (Hk eq_refl). exists frags, ((qsort cmp_le ps).*2).
    cbn in Hc, Hl, Hlen. rewrite Hf in Hlen. rewrite Hnl in Hl. rewrite length_fmap, qsort_perm in Hk.
    split; [done|]. split; [by rewrite length_fmap, qsort_perm|]. split; [apply qsort_prios|].
    split; [apply HL; by rewrite qsort_perm|]. split; [done|]. cbn in Hlen. lia.
Qed.

(** The previous dispatcher a construction starts from: none, or a consistent
    one. *)
Definition old_ok (μ : gmap nat mp_t) (old : ptr nat) : Prop :=
  match old with Ptr a => ∃ m, μ !! a = Some m ∧ wf_mp m | Null => True | ErrPtr _ => False end.

Definition links_of (μ : gmap nat mp_t) (old : ptr nat) : Z :=
  match old with Ptr a => from_option xdp_multiprog.num_links 0 (μ !! a) | _ => 0 end.

Definition old_distinct (μ : gmap nat mp_t) (old : ptr nat) : Prop :=
  ∀ a m, old = Ptr a → μ !! a = Some m → xdp_multiprog.is_legacy m = false → distinct m.

Definition progs_of (μ : gmap nat mp_t) (old : ptr nat) : list xdp_program.t :=
  match old with Ptr a => from_option xdp_multiprog.first_prog [] (μ !! a) | _ => [] end.

Lemma spec_generate_body μ a i progs old (remove : bool) n :
  μ !! a = Some (new_mp i) → old_ok μ old → Forall (.∈ δ) progs → 0 ≤ n →
  (remove = true → old ≠ Null ∧ old_distinct μ old) →
  n = (if remove then links_of μ old - length progs else links_of μ old + length progs) →
  spec μ 0 (generate_body a progs old remove n)
    (body_post μ a n (new_metas (progs_of μ old) progs remove)).
Proof.
  intros Ha Ho Hp Hn Hrem En. unfold generate_body.
  eapply keeps_bind; [apply keeps_frags|reflexivity|]. intros frags _.
  eapply keeps_bind; [by apply keeps_deref_ids|reflexivity|]. intros ids Hids. cbn in Hids.
  apply (keeps_bind _ 0 0 0 _ _ (λ l, (∃ e, l = inl e ∧ e ≠ 0) ∨
    ∃ rs, l = inr rs ∧ Z.of_nat (length rs) = n ∧ Forall ref_ok rs ∧
      new_metas (progs_of μ old) progs remove (ref_meta <$> rs))); [|done|].
  - destruct old as [|e|b]; [|done|].
    + apply keeps_pret. right. eexists. split; [done|]. rewrite length_fmap.
      destruct remove; [by destruct (Hrem eq_refl) as [? _]|]. cbn in En.
      split; [lia|]. split; [by apply Forall_fmap|]. cbn. by rewrite <- list_fmap_compose.
    + destruct Ho as (old & Hb & Hwf). cbn in En. cbn [progs_of]. rewrite Hb in En |- *. cbn in En |- *.
      eapply keeps_bind0; [by apply keeps_mp_deref|]. intros m ->.
      eapply keeps_bind0; [by apply keeps_mp_deref|]. intros m ->.
      destruct (xdp_multiprog.is_legacy old) eqn:Hleg; [by apply keeps_pret; left; eexists|].
      apply keeps_if; [by apply keeps_pret; left; eexists|].
      eapply keeps_bind0; [apply keeps_kop|]. intros ok _.
      apply keeps_if; [by apply keeps_pret; left; eexists|].
      destruct (new_prog_list_ok old progs ids remove n Hwf Hleg (λ e, proj2 (Hrem e) b old eq_refl Hb Hleg) Hids Hn En Hp) as (r & -> & Hr).
      apply keeps_pret. destruct Hr as [->|Hr]; [left; by eexists|by right].
  - intros l [(e & -> & He)|(rs & -> & Hl & Hrs & HL)]; [apply spec_ret; by eapply body_stop|].
    eapply keeps_bind; [by apply keeps_deref_all|reflexivity|]. intros ps [Hps Hms].
    eapply spec_generate_link; [done|done|done| |by rewrite Hps|].
    + by rewrite <- Hl, <- Hps, length_fmap.
    + intros l. rewrite Hms. by apply new_metas_perm.
Qed.

Lemma spec_generate μ progs i old remove :
  old_ok μ old → Forall (.∈ δ) progs → (remove = true → old ≠ Null ∧ old_distinct μ old) →
  Z.of_nat (length progs) < 2 ^ 63 →
  spec μ 0 (xdp_multiprog__generate progs i old remove)
    (one_new (λ m, ∃ n, 0 ≤ n ≤ MAX_DISPATCHER_ACTIONS ∧
       n = (if remove then links_of μ old - length progs else links_of μ old + length progs) ∧
       gen_ok n (new_metas (progs_of μ old) progs remove) m) μ).
Proof.
  intros Ho Hp Hrem Hlen. unfold xdp_multiprog__generate.
  apply spec_if; intros Hz; [by apply spec_ret|].
  apply (keeps_bind _ 0 0 0 _ _ (λ n, n = links_of μ old)); [|done|].
  { destruct old as [|e|b]; [by apply keeps_pret|done|]. destruct Ho as (m & Hb & _).
    eapply keeps_bind0; [by apply keeps_mp_deref|]. intros m' ->. apply keeps_pret. cbn. by rewrite Hb. }
  intros nl ->. apply spec_if; intros Hbig; [by apply spec_ret|]. apply Z.ltb_ge in Hbig.
  set (n := u64 _) in *.
  assert (0 ≤ n ∧ n = if remove then links_of μ old - length progs else links_of μ old + length progs) as [Hn En].
  { unfold n, wrap in *. clear n. assert (0 ≤ links_of μ old ≤ 255) as Hl.
    { destruct old as [|e|b]; cbn; [lia..|]. destruct Ho as (m & -> & Hm1 & _). cbn. lia. }
    unfold MAX_DISPATCHER_ACTIONS in Hbig.
    destruct remove; [|rewrite Z.mod_small in * by lia; lia].
    destruct (decide (links_of μ old - length progs < 0)) as [Hneg|];
      [|rewrite Z.mod_small in * by lia; lia].
    rewrite <- (Z.mod_add _ 1), Z.mod_small in Hbig by lia. lia. }
  unfold xdp_multiprog__new. apply (spec_bind _ 0 0 _ _ (λ r μ', match r with
    | inl e => μ' = μ | inr a => μ !! a = None ∧ μ' = <[a := new_mp i]> μ end)).
  { eapply keeps_bind; [apply keeps_kop|reflexivity|]. intros ok _.
    apply spec_if; intros _; [by apply spec_ret|]. apply spec_mp_alloc. intros a Ha. by apply spec_ret. }
  intros [e|a] μ'; [intros ->; by apply spec_ret|]. intros [Ha ->].
  assert (links_of (<[a := new_mp i]> μ) old = links_of μ old ∧ progs_of (<[a := new_mp i]> μ) old = progs_of μ old ∧
    old_ok (<[a := new_mp i]> μ) old ∧ (remove = true → old ≠ Null ∧ old_distinct (<[a := new_mp i]> μ) old)) as (El & Ep & Ho' & Hrem').
  { destruct old as [|e|b]; [by destruct remove; [destruct (Hrem eq_refl) as [? _]|]|done|]. destruct Ho as (m & Hb & Hm).
    unfold old_distinct in *. cbn. rewrite lookup_insert_ne by congruence. split_and!; eauto. intros E. destruct (Hrem E) as [? Hd].
    split; [done|]. intros c m' [= <-]. rewrite lookup_insert_ne by congruence. by apply Hd. }
  eapply (spec_bind _ 0 0); [eapply spec_generate_body; [apply lookup_insert_eq|done|done|done|done|by rewrite El]|].
  intros e μ' (m' & -> & Hm'). rewrite insert_insert_eq. apply spec_if; intros He.
  - apply spec_close_bind; [cbn; rewrite lookup_insert_eq; by eauto|]. apply spec_ret. cbn. by rewrite delete_insert_id.
  - apply spec_ret. exists m'. split; [done|]. split; [done|]. exists n. split; [lia|]. split; [done|].
    rewrite Ep in Hm'. apply Hm'. by apply negb_false_iff, Z.eqb_eq in He.
Qed.

(** ** One round of attaching and detaching *)

(** Two objects that can be released in either order, leaving [μ0]. *)
Definition releasable (μ μ0 : gmap nat mp_t) (p q : ptr nat) : Prop :=
  live μ p ∧ live μ q ∧ live (closed μ p) q ∧ live (closed μ q) p ∧
  closed (closed μ p) q = μ0 ∧ closed (closed μ q) p = μ0.

Lemma releasable_new μ0 μ1 P Q p q μ :
  one_new P μ0 p μ1 → one_new Q μ1 q μ → releasable μ μ0 (drop_err p) q.
Proof.
  destruct p as [|e|a]; [done| |]; intros Hp.
  - cbn in Hp. subst μ1. destruct q as [|e'|b]; [done|by intros ->|].
    intros (m & Hb & -> & _). unfold releasable. cbn.
    rewrite lookup_insert_eq, delete_insert_id by done. repeat split; eauto.
  - destruct Hp as (m1 & Ha & -> & _). destruct q as [|e'|b]; [done| |].
    + intros ->. unfold releasable. cbn. rewrite lookup_insert_eq, delete_insert_id by done.
      repeat split; eauto.
    + intros (m2 & Hb & -> & _). apply lookup_insert_None in Hb as [Hb Hab].
      unfold releasable. cbn.
      rewrite lookup_insert_eq, (lookup_insert_ne _ b a), lookup_insert_eq by congruence.
      rewrite (lookup_delete_ne _ a b), (lookup_delete_ne _ b a) by congruence.
      rewrite lookup_insert_eq, (lookup_insert_ne _ b a), lookup_insert_eq by congruence.
      rewrite delete_delete, delete_insert_id by (by apply lookup_insert_None).
      rewrite delete_insert_id by done. repeat split; eauto.
Qed.

Lemma spec_finish {B} μ μ0 n p q (k : M K B) Q :
  releasable μ μ0 p q → spec μ0 n k Q →
  spec μ n (xdp_multiprog__close p ;;; xdp_multiprog__close q ;;; k) Q.
Proof.
  intros (Hp & Hq & Hpq & _ & <- & _) Hk. apply spec_close_bind; [done|]. by apply spec_close_bind.
Qed.

Lemma releasable_sym μ μ0 p q : releasable μ μ0 p q → releasable μ μ0 q p.
Proof. unfold releasable. tauto. Qed.

Definition round_post (last : bool) (μ0 : gmap nat mp_t) (r : round) (μ' : gmap nat mp_t) : Prop :=
  μ' = μ0 ∧ (r = Retry → last = false).

Lemma spec_done μ n e (Q : round → gmap nat mp_t → Prop) :
  Q (Done e) μ → spec μ n (let! e' := libxdp_err e in pret (Done e')) Q.
Proof.
  intros HQ. eapply (keeps_bind _ 0 n); [apply keeps_libxdp_err|done|]. intros e' ->. by apply spec_ret.
Qed.

Lemma spec_attach_new last μ μ0 old mp mode :
  releasable μ μ0 old mp → spec μ 2 (attach_new last old mp mode) (round_post last μ0).
Proof.
  intros Hr. pose proof Hr as (Ho & Hm & _). pose proof (releasable_sym _ _ _ _ Hr) as Hr'. unfold attach_new.
  eapply (keeps_bind _ 0 2); [by apply keeps_pin|done|]. intros e _. apply spec_if; intros _.
  { eapply spec_finish; [done|]. by apply spec_done. }
  eapply (keeps_bind _ 2 0); [by apply keeps_mp_attach|done|]. intros e1 _. apply spec_if; intros _.
  - eapply (keeps_bind _ 0 0); [by apply keeps_unpin|done|]. intros _ _. apply spec_if; intros _.
    + apply spec_if; intros Hlast.
      * eapply spec_finish; [done|]. by apply spec_done.
      * eapply spec_finish; [done|]. by apply spec_ret.
    + eapply spec_finish; [done|]. by apply spec_done.
  - apply (keeps_bind _ 0 0 0 _ _ (λ _, True)); [apply keeps_if; [by apply keeps_pret|by apply keeps_unpin]|done|].
    intros _ _. eapply spec_finish; [done|]. by apply spec_done.
Qed.

(** The dispatcher object read from the interface is released, except on the
    two paths of a single program that go without a dispatcher. *)
Definition attach_post (last : bool) (progs : list nat) (mode : xdp_attach_mode)
    (μ : gmap nat mp_t) (r : round) (μ' : gmap nat mp_t) : Prop :=
  round_post last μ r μ' ∨
  r ≠ Retry ∧ length progs = 1%nat ∧ mode ≠ XDP_MODE_HW ∧
  ∃ a m, μ !! a = None ∧ μ' = <[a := m]> μ.

Lemma one_new_live P μ p μ' : one_new P μ p μ' → live μ' (drop_err p) ∧ closed μ' (drop_err p) = μ.
Proof.
  destruct p as [|e|a]; [done|by intros ->|]. intros (m & Ha & -> & _). cbn.
  rewrite lookup_insert_eq, delete_insert_id by done. eauto.
Qed.

Lemma spec_single last progs mode prog0 i μ P got μ1 :
  one_new P μ got μ1 → progs = [prog0] → is_Some (hw prog0) → prog0 ∈ δ → mode ≠ XDP_MODE_HW →
  spec μ1 2 (let! err := xdp_program__attach_single prog0 i mode in
             let! e := libxdp_err err in pret (Done e)) (attach_post last progs mode μ).
Proof.
  intros Hg -> Hhw Hin Hm. eapply (keeps_bind _ 2 0); [by apply keeps_attach_single|done|]. intros e _.
  apply spec_done. destruct got as [|e'|a]; [done|by left|].
  destruct Hg as (m & Ha & -> & _). right. repeat split; eauto.
Qed.

Lemma spec_attach_round last progs i mode μ :
  progs ≠ [] → Forall (.∈ δ) progs → Z.of_nat (length progs) < 2 ^ 63 →
  (∀ a, a ∈ progs → is_Some (hw a) ∧ (mode = XDP_MODE_HW → hw a = Some true)) →
  spec μ 2 (attach_round last progs i mode) (attach_post last progs mode μ).
Proof.
  intros Hne Hp Hlen Hhw. unfold attach_round. eapply (spec_bind _ 0 2); [apply spec_get|].
  intros got μ1 Hg. pose proof (one_new_live _ _ _ _ Hg) as [Hlive Hclosed].
  destruct progs as [|prog0 others]; [done|]. inversion_clear Hp as [|? ? Hp0 Hothers]. cbv zeta.
  destruct (Hhw prog0 ltac:(left)) as [His Hhw0].
  case_bool_decide as Hmode.
  - eapply (keeps_bind _ 0 2); [by apply keeps_hw_prog|done|]. intros hwp _.
    apply spec_close_bind; [done|]. rewrite Hclosed.
    apply spec_if; intros _; [by apply spec_done; left|].
    apply spec_if; intros _; [by apply spec_done; left|].
    eapply (keeps_bind _ 2 0); [apply keeps_attach_hw; auto|done|]. intros e _. by apply spec_done; left.
  - eapply (keeps_bind _ 0 2); [apply keeps_kread|done|]. intros skip _.
    apply spec_if; intros Hskip.
    { apply andb_true_iff in Hskip as [->%bool_decide_eq_true _]. by eapply spec_single. }
    eapply (spec_bind _ 0 2).
    { apply spec_generate; [|by constructor|done|done].
      destruct got as [|e|a]; [done..|]. destruct Hg as (m & Ha & -> & Hm).
      exists m. by rewrite lookup_insert_eq. }
    intros mp μ2 Hmp. destruct mp as [|e|b]; [done| |].
    + cbn in Hmp. subst μ2. apply spec_if; intros Hone.
      { apply andb_true_iff in Hone as [_ ->%bool_decide_eq_true]. by eapply spec_single. }
      apply spec_close_bind; [done|]. rewrite Hclosed. by apply spec_done; left.
    + eapply spec_weaken; [apply spec_attach_new; by eapply releasable_new|done|]. intros r μ' Hr. by left.
Qed.

Lemma keeps_check_single μ mp progs mode :
  live μ mp → Forall (.∈ δ) progs → keeps μ 0 (check_single mp progs mode) (λ _, True).
Proof.
  intros Hl Hp. unfold check_single. apply (keeps_bind0 _ _ _ _ (λ _, True)).
  - apply keeps_if; eauto with keeps.
  - intros id _. destruct progs as [|b [|c progs]]; [by apply keeps_pret| |by apply keeps_pret].
    inversion_clear Hp. eapply keeps_bind0; [by apply keeps_deref|]. intros p _. repeat keeps_step.
Qed.

Lemma keeps_check_progs μ a m progs :
  μ !! a = Some m → Forall (.∈ δ) progs → keeps μ 0 (check_progs a progs) (λ _, True).
Proof.
  intros Hm Hp. induction Hp as [|b progs Hb Hp IH]; cbn [check_progs]; [by apply keeps_pret|].
  eapply keeps_bind0; [by apply keeps_deref|]. intros p _. apply keeps_if; [by apply keeps_pret|].
  eapply keeps_bind0; [by apply keeps_mp_deref|]. intros m' _. apply keeps_if; [done|by apply keeps_pret].
Qed.

(** The dispatcher object [a] stays, and at most one more is allocated. *)
Definition body_new (μ : gmap nat mp_t) (r : Z * ptr nat) (μ' : gmap nat mp_t) : Prop :=
  match r.2 with Null => μ' = μ | p => one_new (λ _, True) μ p μ' end.

Lemma spec_detach_body μ a m progs i mode :
  μ !! a = Some m → wf_mp m → (xdp_multiprog.is_legacy m = false → distinct m) → progs ≠ [] → Forall (.∈ δ) progs → Z.of_nat (length progs) < 2 ^ 63 →
  spec μ 2 (detach_body a progs i mode) (body_new μ).
Proof.
  intros Hm Hwf Hnd Hne Hp Hlen. unfold detach_body. cbv zeta.
  assert (live μ (Ptr a)) as Hl by (cbn; eauto).
  eapply (keeps_bind _ 0 2); [by apply keeps_legacy|done|]. intros leg _.
  apply (keeps_bind _ 0 2 2 _ _ (λ _, True));
    [apply keeps_if; [by apply keeps_check_single|by apply keeps_pret]|done|].
  intros e _. apply spec_if; intros _; [by apply spec_ret|]. apply spec_if; intros _.
  { eapply (keeps_bind _ 2 0); [by apply keeps_detach_hw|done|]. intros e1 _. by apply spec_ret. }
  eapply spec_mp_deref; [done|]. apply spec_if; intros _; [by apply spec_ret|]. apply spec_if; intros _.
  { eapply (keeps_bind _ 2 0); [by apply keeps_mp_attach|done|]. intros e1 _. by apply spec_ret. }
  eapply (keeps_bind _ 0 2); [by eapply keeps_check_progs|done|]. intros e1 _.
  apply spec_if; intros _; [by apply spec_ret|]. apply spec_if; intros _.
  { eapply (keeps_bind _ 2 0); [by apply keeps_mp_attach|done|]. intros e2 _.
    apply spec_if; intros _; [by apply spec_ret|].
    eapply (keeps_bind _ 0 0); [by apply keeps_unpin|done|]. intros e3 _. by apply spec_ret. }
  eapply (spec_bind _ 0 2); [apply spec_generate; [cbn; by eauto|done|split; [done|]; intros ? ? [= <-]; by rewrite Hm; intros [= <-]|done]|].
  intros new μ1 Hnew. destruct new as [|e2|b]; [done|by apply spec_ret|].
  pose proof Hnew as (m2 & Hb & -> & _).
  assert (live (<[b := m2]> μ) (Ptr a)) as Hl1 by (cbn; rewrite lookup_insert_ne by congruence; eauto).
  assert (live (<[b := m2]> μ) (Ptr b)) as Hl2 by (cbn; rewrite lookup_insert_eq; eauto).
  assert (∀ e, body_new μ (e, Ptr b) (<[b := m2]> μ)) as Hpost by (intros; exists m2; eauto).
  eapply (keeps_bind _ 0 2); [by apply keeps_pin|done|]. intros e2 _. apply spec_if; intros _; [apply spec_ret, Hpost|].
  eapply (keeps_bind _ 2 0); [by apply keeps_mp_attach|done|]. intros e3 _. apply spec_if; intros _.
  all: eapply (keeps_bind _ 0 0); [by apply keeps_unpin|done|]; intros e4 _; apply spec_ret, Hpost.
Qed.

(** A round after the dispatcher [mp] was read. *)
Definition detach_rest (last : bool) (progs : list nat) (ifindex : Z) (mode : xdp_attach_mode) (mp : ptr nat) : M K round :=
  match mp with
  | Ptr a =>
    let! (err, new_mp) := detach_body a progs ifindex mode in
    xdp_multiprog__close mp ;;; xdp_multiprog__close new_mp ;;;
    if err =? - EAGAIN then
      if last then let! e := libxdp_err (- EBUSY) in pret (Done e) else pret Retry
    else let! e := libxdp_err err in pret (Done e)
  | _ => let! e := libxdp_err (- ENOENT) in pret (Done e)
  end.

Lemma spec_detach_rest last progs i mode μ got μ1 :
  one_new wf_mp μ got μ1 → old_distinct μ1 got →
  progs ≠ [] → Forall (.∈ δ) progs → Z.of_nat (length progs) < 2 ^ 63 →
  spec μ1 2 (detach_rest last progs i mode got) (round_post last μ).
Proof.
  intros Hg Hnd Hne Hp Hlen. unfold detach_rest. destruct got as [|e|a]; [done|cbn in Hg; subst; by apply spec_done|].
  pose proof Hg as (m & Ha & E & Hm).
  assert (μ1 !! a = Some m) as Hμ by by rewrite E, lookup_insert_eq.
  eapply (spec_bind _ 2 0); [eapply spec_detach_body; [done|done|by apply (Hnd a)|done..]|].
  intros [e new] μ2 Hnew.
  assert (releasable μ2 μ (Ptr a) new) as Hr.
  { unfold body_new in Hnew. cbn in Hnew. destruct new as [|e'|b].
    - subst μ2. eapply (releasable_new μ μ1 wf_mp (λ _, True) (Ptr a) (ErrPtr 0)); [done|done].
    - by eapply (releasable_new μ μ1 wf_mp (λ _, True) (Ptr a)).
    - by eapply (releasable_new μ μ1 wf_mp (λ _, True) (Ptr a)). }
  eapply spec_finish; [done|]. apply spec_if; intros _; [|by apply spec_done].
  apply spec_if; intros Hl; [by apply spec_done|by apply spec_ret].
Qed.

(** ** The retry loops *)

Lemma spec_attach_retry tries progs i mode μ :
  progs ≠ [] → Forall (.∈ δ) progs → Z.of_nat (length progs) < 2 ^ 63 →
  (∀ a, a ∈ progs → is_Some (hw a) ∧ (mode = XDP_MODE_HW → hw a = Some true)) →
  spec μ (2 * (tries + 1)) (attach_retry tries progs i mode) (λ _ μ',
    μ' = μ ∨ length progs = 1%nat ∧ mode ≠ XDP_MODE_HW ∧ ∃ a m, μ !! a = None ∧ μ' = <[a := m]> μ).
Proof.
  intros Hne Hp Hlen Hhw. induction tries as [|tries IH]; cbn [attach_retry].
  - eapply (spec_bind _ 2 0); [by apply spec_attach_round|]. intros [e|] μ' Hr.
    + apply spec_ret. destruct Hr as [[-> _]|(_ & ? & ? & ?)]; [by left|right; auto].
    + destruct Hr as [[_ Hr]|(? & _)]; [by specialize (Hr eq_refl)|done].
  - replace (2 * (S tries + 1))%nat with (2 + 2 * (tries + 1))%nat by lia.
    eapply spec_bind; [by apply spec_attach_round|]. intros [e|] μ' Hr.
    + apply spec_ret. destruct Hr as [[-> _]|(_ & ? & ? & ?)]; [by left|right; auto].
    + destruct Hr as [[-> _]|(? & _)]; [apply IH|done].
Qed.

End specs.

(** ** The theorems *)

(** A program object that may be attached in [mode]: opened from an object
    file, or already loaded and not for hardware. *)
Definition attachable (mode : xdp_attach_mode) (p : xdp_program.t) : Prop :=
  is_Some (bpf_prog p) ∨ mode ≠ XDP_MODE_HW ∧ 0 ≤ prog_fd p.

Lemma attachable_okp mode hw a p :
  hw a = Some (bool_decide (mode = XDP_MODE_HW)) → attachable mode p → okp hw a p.
Proof. unfold okp. intros ->. intros [?|[Hm ?]]; [by left|right]. by rewrite bool_decide_eq_false_2. Qed.

Lemma run_spec {A} hw n (m : M K A) Q w :
  spec (meta <$> heap w) hw (mps w) n m Q → (∀ a p, heap w !! a = Some p → okp hw a p) →
  ∃ a w', m w = Some (a, w') ∧ Q a (mps w') ∧ meta <$> heap w' = meta <$> heap w ∧
    (length (calls w') ≤ length (calls w) + n)%nat.
Proof.
  intros Hs Hw. pose proof (Hs w eq_refl (conj eq_refl Hw)) as Hwp.
  apply wp_run in Hwp as (a & w' & E & HQ & [Hw' _] & Hc). by exists a, w'.
Qed.

(** The programs among [progs] may be attached in [mode]. *)
Definition req (progs : list nat) (mode : xdp_attach_mode) (a : nat) : option bool :=
  if decide (a ∈ progs) then Some (bool_decide (mode = XDP_MODE_HW)) else None.

Lemma attach_multi_run (env : kernel_ok) progs i mode flags (w : world K) :
  (∀ a p, a ∈ progs → heap w !! a = Some p → attachable mode p) →
  Forall (.∈ dom (heap w)) progs → Z.of_nat (length progs) < 2 ^ 63 →
  ∃ err w', xdp_program__attach_multi progs i mode flags w = Some (err, w') ∧
    (mps w' = mps w ∨
     length progs = 1%nat ∧ mode ≠ XDP_MODE_HW ∧ ∃ a m, mps w !! a = None ∧ mps w' = <[a := m]> (mps w)) ∧
    meta <$> heap w' = meta <$> heap w ∧ (length (calls w') ≤ length (calls w) + 22)%nat.
Proof.
  intros Hok Hp Hlen. unfold xdp_program__attach_multi.
  destruct (decide (progs = [])) as [->|Hne].
  { rewrite bool_decide_eq_true_2 by done. eexists _, _. split; [done|]. cbn. split; [by left|]. split; [done|lia]. }
  rewrite bool_decide_eq_false_2 by done. cbn [orb]. destruct (flags =? 0); cbn [negb].
  2:{ eexists _, _. split; [done|]. cbn. split; [by left|]. split; [done|lia]. }
  apply (run_spec (req progs mode) 22 (attach_retry MAX_RETRY progs i mode) (λ _ μ', μ' = mps w ∨
    length progs = 1%nat ∧ mode ≠ XDP_MODE_HW ∧ ∃ a m, mps w !! a = None ∧ μ' = <[a := m]> (mps w)) w).
  - apply (spec_attach_retry _ _ env 10); [done|by rewrite dom_fmap_L|done|].
    intros a Ha. unfold req. rewrite decide_True by done. split; [by eauto|]. intros Em. f_equal. by apply bool_decide_eq_true_2.
  - intros a p Ea. destruct (decide (a ∈ progs)) as [Ha|Ha].
    + eapply attachable_okp; [unfold req; by rewrite decide_True|by eapply Hok].
    + unfold okp, req. by rewrite decide_False.
Qed.

(** Reading the interface gives a dispatcher in which a program sits twice. *)
Definition reads_twice (i : Z) (w : world K) : Prop :=
  ∃ a w' m, xdp_multiprog__get_from_ifindex i w = Some (Ptr a, w') ∧ mps w' !! a = Some m ∧
    xdp_multiprog.is_legacy m = false ∧ ¬ distinct m.

(** The states in which the rounds of [xdp_program__detach_multi] begin. *)
Inductive detach_rounds (progs : list nat) (i : Z) (mode : xdp_attach_mode) (w : world K) : world K → Prop :=
  | rounds_first : detach_rounds progs i mode w w
  | rounds_next w1 w2 : detach_rounds progs i mode w w1 →
      detach_round false progs i mode w1 = Some (Retry, w2) → detach_rounds progs i mode w w2.

(** Some round of the call reads such a dispatcher. *)
Definition meets_twice (progs : list nat) (i : Z) (mode : xdp_attach_mode) (w : world K) : Prop :=
  ∃ w1, detach_rounds progs i mode w w1 ∧ reads_twice i w1.

Lemma detach_round_run (env : kernel_ok) last progs i mode (w : world K) :
  progs ≠ [] → Forall (.∈ dom (heap w)) progs → Z.of_nat (length progs) < 2 ^ 63 →
  reads_twice i w ∨
  ∃ r w', detach_round last progs i mode w = Some (r, w') ∧ mps w' = mps w ∧ (r = Retry → last = false) ∧
    meta <$> heap w' = meta <$> heap w ∧ (length (calls w') ≤ length (calls w) + 2)%nat.
Proof.
  intros Hne Hp Hlen.
  destruct (run_spec any 0 _ _ w (spec_get (meta <$> heap w) any env (mps w) i)) as (got & w1 & E & Hg & Hh & Hc); [done|].
  assert (old_distinct (mps w1) got ∨ reads_twice i w) as [Hd|]; [| |by left].
  { destruct got as [|e|a]; [by left..|]. pose proof Hg as (m & Ha & Em & _).
    destruct (decide (xdp_multiprog.is_legacy m = false ∧ ¬ distinct m)) as [[? ?]|Hd]; [right; exists a, w1, m; by rewrite Em, lookup_insert_eq|left].
    intros b m' [= <-]. rewrite Em, lookup_insert_eq. intros [= <-] Hl. destruct (decide (distinct m)); [done|]. by destruct Hd. }
  right. destruct (run_spec any 2 _ _ w1 (spec_detach_rest (meta <$> heap w1) any env last progs i mode (mps w) got (mps w1)
    Hg Hd Hne ltac:(by rewrite Hh, dom_fmap_L) Hlen)) as (r & w2 & E2 & [Hm Hr] & Hh2 & Hc2); [done|].
  exists r, w2. split; [unfold detach_round, pbind at 1; by rewrite E|]. split; [done|]. split; [done|]. split; [congruence|lia].
Qed.

Lemma detach_retry_run (env : kernel_ok) tries progs i mode (w0 w : world K) :
  progs ≠ [] → Forall (.∈ dom (heap w)) progs → Z.of_nat (length progs) < 2 ^ 63 → detach_rounds progs i mode w0 w →
  meets_twice progs i mode w0 ∨
  ∃ err w', detach_retry tries progs i mode w = Some (err, w') ∧ mps w' = mps w ∧
    meta <$> heap w' = meta <$> heap w ∧ (length (calls w') ≤ length (calls w) + 2 * (tries + 1))%nat.
Proof.
  intros Hne Hp Hlen Hr. revert w Hp Hr. induction tries as [|tries IH]; intros w Hp Hr; cbn [detach_retry].
  - destruct (detach_round_run env (bool_decide (O = O)) progs i mode w Hne Hp Hlen) as [H1|([e|] & w' & E & Hm & Hl & Hh & Hc)]; [left; by exists w| |by specialize (Hl eq_refl)].
    right. exists e, w'. unfold pbind. rewrite E. repeat split; [done..|lia].
  - rewrite bool_decide_eq_false_2 by done.
    destruct (detach_round_run env false progs i mode w Hne Hp Hlen) as [H1|([e|] & w1 & E & Hm & _ & Hh & Hc)]; [left; by exists w| |].
    + right. exists e, w1. unfold pbind. rewrite E. repeat split; [done..|lia].
    + destruct (IH w1) as [?|(e & w2 & E2 & Hm2 & Hh2 & Hc2)]; [|by eapply rounds_next|by left|].
      { by rewrite <- (dom_fmap_L meta), Hh, dom_fmap_L. }
      right. exists e, w2. unfold pbind. rewrite E, E2. repeat split; [congruence..|lia].
Qed.

Lemma detach_multi_run (env : kernel_ok) progs i mode flags (w : world K) :
  Forall (.∈ dom (heap w)) progs → Z.of_nat (length progs) < 2 ^ 63 →
  meets_twice progs i mode w ∨
  ∃ err w', xdp_program__detach_multi progs i mode flags w = Some (err, w') ∧
    mps w' = mps w ∧ meta <$> heap w' = meta <$> heap w ∧
    (length (calls w') ≤ length (calls w) + 22)%nat.
Proof.
  intros Hp Hlen. unfold xdp_program__detach_multi.
  destruct (decide (progs = [])) as [->|Hne].
  { right. rewrite bool_decide_eq_true_2, orb_true_r by done. eexists _, _. split; [done|]. cbn. repeat split; lia. }
  rewrite bool_decide_eq_false_2, orb_false_r by done. destruct (flags =? 0); cbn [negb].
  2:{ right. eexists _, _. split; [done|]. cbn. repeat split; lia. }
  apply (detach_retry_run env 10); [done..|constructor].
Qed.

(** One program. *)
Lemma run_libxdp_err e (w : world K) :
  ∃ w', libxdp_err e w = Some (e, w') ∧ mps w' = mps w ∧ heap w' = heap w ∧ calls w' = calls w.
Proof. unfold libxdp_err. by destruct (e <? 0); eexists. Qed.

Lemma attach_run (env : kernel_ok) a p i mode (w : world K) :
  heap w !! a = Some p → attachable mode p →
  ∃ err w', xdp_program__attach (Ptr a) i mode 0 w = Some (err, w') ∧
    meta <$> heap w' = meta <$> heap w ∧ (length (calls w') ≤ length (calls w) + 22)%nat.
Proof.
  intros Ha Hp. cbn [xdp_program__attach].
  destruct (attach_multi_run env [a] i mode 0 w) as (e & w' & E & _ & Hh & Hc).
  - intros b q ->%list_elem_of_singleton. by rewrite Ha; intros [= <-].
  - apply Forall_singleton, elem_of_dom. eauto.
  - cbn. lia.
  - unfold pbind. rewrite E. destruct (run_libxdp_err e w') as (w2 & -> & _ & Eh & Ec).
    exists e, w2. by rewrite Eh, Ec.
Qed.

Lemma detach_run (env : kernel_ok) a i mode (w : world K) :
  a ∈ dom (heap w) →
  meets_twice [a] i mode w ∨
  ∃ err w', xdp_program__detach (Ptr a) i mode 0 w = Some (err, w') ∧ mps w' = mps w ∧
    meta <$> heap w' = meta <$> heap w ∧ (length (calls w') ≤ length (calls w) + 22)%nat.
Proof.
  intros Ha. cbn [xdp_program__detach].
  destruct (detach_multi_run env [a] i mode 0 w) as [?|(e & w' & E & Hm & Hh & Hc)].
  - by apply Forall_singleton.
  - cbn. lia.
  - by left.
  - right. unfold pbind. rewrite E. destruct (run_libxdp_err e w') as (w2 & -> & Em & Eh & Ec).
    exists e, w2. by rewrite Em, Eh, Ec.
Qed.

(** ** Which program is linked to which slot *)

(** What a run of an operation that keeps the objects tells. *)
Lemma keeps_inv {A} n (m : M K A) P (w w' : world K) x :
  keeps (meta <$> heap w) any (mps w) n m P → m w = Some (x, w') →
  P x ∧ mps w' = mps w ∧ meta <$> heap w' = meta <$> heap w.
Proof.
  intros Hk E. destruct (run_spec any n m _ w Hk) as (x' & w1 & E' & [Hm HP] & Hh & _); [done|].
  rewrite E in E'. by injection E' as <- <-.
Qed.

Definition as_link (lfd : Z) (p : xdp_program.t) : xdp_program.t :=
  mk (bpf_prog p) (has_obj p) (has_btf p) (prog_fd p) lfd (prog_name p) (prog_tag p) (prog_id p)
    (load_time p) (is_frags p) (run_prio p) (chain_call_actions p).

(** The step from [w] to [w1] links the program that [r] stands for in [w] to slot [j] of
    the dispatcher [a] for [n] programs: a clone of it, loaded if it was not, replaces the
    function of that slot. *)
Definition slot_linked (a : nat) (n j : Z) (r : progref) (w w1 : world K) : Prop :=
  ∃ m main p0 p q lfd btf_id,
    mps w !! a = Some m ∧ xdp_multiprog.main_prog m = Some main ∧ xdp_multiprog.num_links m = j ∧
    ref_deref r w = Some (p0, w) ∧
    (0 ≤ prog_fd p0 ∧ p = p0 ∨ prog_fd p0 < 0 ∧ ∃ u u', xdp_program__load true p0 u = Some ((0, p), u')) ∧
    (∃ u u', xdp_program__clone p u = Some (inr q, u')) ∧
    0 < btf_id ∧ (∃ u u', find_prog_btf_id (attach_func n j) (prog_fd main) u = Some (btf_id, u')) ∧
    (∃ wl u u', link_attach (prog_fd q) (prog_fd main) btf_id wl u = Some (inr lfd, u')) ∧
    mps w1 = <[a := add_link (as_link lfd q) m]> (mps w).

Inductive slots_linked (a : nat) (n : Z) : Z → list progref → world K → world K → Prop :=
  | slots_nil j w : slots_linked a n j [] w w
  | slots_cons j r rs w w1 w2 : slot_linked a n j r w w1 → slots_linked a n (j + 1) rs w1 w2 →
      slots_linked a n j (r :: rs) w w2.

Lemma pbind_inv {A B} (m : M K A) (k : A → M K B) (w : world K) r :
  pbind m k w = Some r → ∃ x w1, m w = Some (x, w1) ∧ k x w1 = Some r.
Proof. unfold pbind. destruct (m w) as [[x w1]|]; [|done]. eauto. Qed.

Lemma ref_deref_inv r (w : world K) x : ref_deref r w = Some x → ∃ p, x = (p, w).
Proof. destruct r as [b|p]; cbn; [|by intros [= <-]; eauto]. unfold deref. destruct (heap w !! b); [|done]. intros [= <-]. eauto. Qed.

Lemma link_load_inv (env : kernel_ok) r p0 fd p wl (w w' : world K) :
  ref_deref r w = Some (p0, w) → link_load r p0 fd w = Some ((0, wl, p), w') →
  (0 ≤ prog_fd p0 ∧ p = p0 ∨ prog_fd p0 < 0 ∧ ∃ u u', xdp_program__load true p0 u = Some ((0, p), u')) ∧
  mps w' = mps w ∧ meta <$> heap w' = meta <$> heap w.
Proof.
  intros Hr H'. split.
  - revert H'. unfold link_load. destruct (Z.ltb_spec (prog_fd p0) 0); [|intros [= _ <- _]; by left].
    intros (e & w1 & _ & H1)%pbind_inv. destruct (e =? 0) eqn:E; cbn [negb] in H1; [|injection H1 as -> _ _ _; done].
    apply pbind_inv in H1 as ([e2 p2] & w2 & Hl & H2). apply pbind_inv in H2 as ([] & w3 & _ & H3). injection H3 as He _ <- _.
    right. split; [done|]. destruct (Z.eqb_spec e2 0) as [-> |]; [by eauto|]. by destruct (e2 =? - E2BIG).
  - eapply (keeps_inv 0); [|exact H']. apply (keeps_link_load _ _ env).
    + destruct r as [b|]; [|done]. cbn in *. unfold deref in Hr. rewrite dom_fmap_L. apply elem_of_dom. destruct (heap w !! b); [eauto|done].
    + done.
    + destruct r as [b|]; [|cbn in *; by injection Hr as ->]. cbn in *. unfold deref in Hr. rewrite lookup_fmap.
      destruct (heap w !! b); [|done]. by injection Hr as ->.
Qed.

Lemma kop_inv {A} (f : K → A * K) (w w' : world K) x : kop f w = Some (x, w') → heap w' = heap w ∧ mps w' = mps w.
Proof. unfold kop. destruct (f (kern w)) as [y k]. by intros [= _ <-]. Qed.
Lemma find_btf_inv name fd (w w' : world K) x : find_prog_btf_id name fd w = Some (x, w') → w' = w.
Proof.
  unfold find_prog_btf_id. intros (r & w1 & E & H1)%pbind_inv. assert (w1 = w) as -> by by injection E. destruct r; [by injection H1|].
  destruct (_ =? 0); [by injection H1|]. apply pbind_inv in H1 as (b & w1 & E1 & H1). assert (w1 = w) as -> by by injection E1. by injection H1.
Qed.

Lemma link_prog_inv (env : kernel_ok) a r (w w' : world K) :
  xdp_multiprog__link_prog a r w = Some (0, w') →
  ∃ m q, mps w !! a = Some m ∧ mps w' = <[a := add_link q m]> (mps w) ∧
    slot_linked a (dispatcher_config.num_progs_enabled (xdp_multiprog.config m)) (xdp_multiprog.num_links m) r w w'.
Proof.
  unfold xdp_multiprog__link_prog. intros (m & w0 & Em & H1)%pbind_inv. unfold mp_deref in Em.
  destruct (mps w !! a) as [m'|] eqn:Ea; [|done]. injection Em as -> <-.
  apply pbind_inv in H1 as (p0 & w0 & Ep & H1). destruct (ref_deref_inv _ _ _ Ep) as [p0' [= <- ->]]. cbv zeta in H1.
  destruct (negb _ || _); [by injection H1|]. apply pbind_inv in H1 as (e & w1 & E1 & H1).
  destruct (Z.eqb_spec e 0) as [->|]; cbn [negb] in H1; [|by injection H1]. destruct (negb (has_btf p0)); [by injection H1|].
  destruct (xdp_multiprog.main_prog m) as [main|] eqn:Emain; [|done].
  destruct (kop_inv _ _ _ _ E1) as [Hh1 Hm1].
  apply pbind_inv in H1 as (id & w2 & E2 & H1). pose proof (find_btf_inv _ _ _ _ _ E2) as ->. destruct (Z.leb_spec id 0) as [|Hid].
  { injection H1 as ->. by destruct (keeps_inv 0 _ _ _ _ _ (keeps_find_btf_id _ _ env _ _ _ (attach_func_name _ _)) E2) as [? _]. }
  apply pbind_inv in H1 as ([[e1 wl] p] & w3 & E3 & H1). destruct (Z.eqb_spec e1 0) as [->|]; cbn [negb] in H1; [|by injection H1].
  assert (ref_deref r w1 = Some (p0, w1)) as Ep1.
  { destruct r as [b|q]; cbn in *; [|by injection Ep as ->]. unfold deref in *. rewrite Hh1. destruct (heap w !! b); [|done]. by injection Ep as ->. }
  destruct (link_load_inv env _ _ _ _ _ _ _ Ep1 E3) as (Hload & Hm3 & _).
  apply pbind_inv in H1 as ([e2|q] & w4 & E4 & H1); destruct (keeps_inv 0 _ _ _ _ _ (keeps_clone _ _ env _ _) E4) as (Hc & Hm4 & _).
  { injection H1 as -> _. by destruct (Hc 0). }
  apply pbind_inv in H1 as ([e3|lfd] & w5 & E5 & H1); destruct (keeps_inv 0 _ _ _ _ _ (keeps_link_attach _ _ env _ _ _ _ _) E5) as (Hl & Hm5 & _).
  { apply pbind_inv in H1 as (? & ? & _ & H1). injection H1 as -> _. by destruct (Hl 0). }
  apply pbind_inv in H1 as (ok & w6 & E6 & H1). destruct (kop_inv _ _ _ _ E6) as [_ Hm6]. destruct ok; cbn [negb] in H1.
  2:{ do 2 apply pbind_inv in H1 as (? & ? & _ & H1). by injection H1. }
  apply pbind_inv in H1 as ([] & w7 & E7 & H1). injection H1 as <-.
  assert (mps w6 = mps w) as Hm by congruence. unfold mp_assign in E7. rewrite Hm, Ea in E7. injection E7 as <-.
  exists m, (as_link lfd q). split; [done|]. split; [done|].
  exists m, main, p0, p, q, lfd, id. split_and!; eauto 10.
Qed.

Lemma link_all_inv (env : kernel_ok) a rs (w w' : world K) m :
  mps w !! a = Some m → link_all a rs w = Some (0, w') →
  slots_linked a (dispatcher_config.num_progs_enabled (xdp_multiprog.config m)) (xdp_multiprog.num_links m) rs w w' ∧
  ∃ qs, mps w' = <[a := add_links qs m]> (mps w) ∧ length qs = length rs.
Proof.
  revert w m. induction rs as [|r rs IH]; intros w m Hm; cbn [link_all].
  { intros [= <-]. split; [constructor|]. exists []. by rewrite add_links_nil, insert_id. }
  intros (e & w1 & E1 & H1)%pbind_inv. destruct (Z.eqb_spec e 0) as [->|]; cbn [negb] in H1; [|by injection H1].
  destruct (link_prog_inv env _ _ _ _ E1) as (m' & q & Hm' & Em & Hs). rewrite Hm in Hm'. injection Hm' as <-.
  destruct (IH w1 (add_link q m)) as (Hss & qs & Eq & Hlen); [by rewrite Em, lookup_insert_eq|done|].
  split; [by econstructor|]. exists (q :: qs). rewrite Eq, Em, insert_insert_eq, add_links_cons. split; [done|cbn; lia].
Qed.
Lemma spec_inv {A} n (m : M K A) Q (w w' : world K) x :
  spec (meta <$> heap w) any (mps w) n m Q → m w = Some (x, w') →
  Q x (mps w') ∧ meta <$> heap w' = meta <$> heap w.
Proof.
  intros Hk E. destruct (run_spec any n m _ w Hk) as (x' & w1 & E' & HQ & Hh & _); [done|].
  rewrite E in E'. by injection E' as <- <-.
Qed.

Lemma new_prog_list_add old progs ids n :
  n = length old + length progs →
  new_prog_list old progs ids false n = Some (inr ((Own <$> old) ++ (Arg <$> progs))).
Proof.
  intros ->. unfold new_prog_list. rewrite kept_progs_add by lia. rewrite length_fmap, take_ge by lia.
  by rewrite (proj2 (Z.eqb_eq _ _)) by (rewrite length_app, !length_fmap; lia).
Qed.

Lemma length_qsort {A} (le : A → A → bool) l : length (qsort le l) = length l.
Proof. by rewrite qsort_perm. Qed.

Lemma mp_deref_inv a (w w' : world K) m : mp_deref a w = Some (m, w') → mps w !! a = Some m ∧ w' = w.
Proof. unfold mp_deref. destruct (mps w !! a); [|done]. by intros [= -> ->]. Qed.
Lemma mp_assign_inv a m (w w' : world K) x : mp_assign a m w = Some (x, w') → mps w' = <[a := m]> (mps w) ∧ heap w' = heap w.
Proof. unfold mp_assign. destruct (mps w !! a); [|done]. by intros [= _ <-]. Qed.

(** The part of a construction after the programs [ps] are known. *)
Lemma generate_tail_inv (env : kernel_ok) a m0 frags ps (w w' : world K) :
  mps w !! a = Some m0 → xdp_multiprog.num_links m0 = 0 →
  (let! d := kop (k_find_dispatcher "xdp_dispatcher") in
   match d with
   | inl e => pret e
   | inr dispatcher =>
     let! m := mp_deref a in
     mp_assign a (set_main (xdp_multiprog.config m) (Some dispatcher) false m) ;;;
     let! has_map := kread k_dispatcher_map in
     if negb has_map then pret (- ENOENT)
     else
       let cfg := make_config frags ((qsort cmp_le ps).*2) in
       let! m := mp_deref a in
       mp_assign a (set_main cfg (xdp_multiprog.main_prog m) false m) ;;;
       let! err := kop (k_set_rodata (config_bytes (xdp_multiprog.version m) cfg)) in
       if negb (err =? 0) then pret err
       else
         let! err := xdp_multiprog__load a in
         if negb (err =? 0) then pret err else link_all a ((qsort cmp_le ps).*1)
   end) w = Some (0, w') →
  ∃ w2 m, xdp_multiprog.config m = make_config frags ((qsort cmp_le ps).*2) ∧
    slots_linked a (length ps) 0 ((qsort cmp_le ps).*1) w2 w' ∧ mps w' !! a = Some m.
Proof.
  intros Ha Hn. intros ([e|d] & w1 & E1 & H1)%pbind_inv.
  { injection H1 as -> _. unfold kop in E1. destruct (k_find_dispatcher _ (kern w)) as [r k] eqn:Ek. injection E1 as -> _.
    by destruct (find_err env _ _ _ _ Ek). }
  destruct (kop_inv _ _ _ _ E1) as [Hh1 Hm1]. apply pbind_inv in H1 as (m & w2 & [Hm ->]%mp_deref_inv & H1).
  rewrite Hm1, Ha in Hm. injection Hm as <-. apply pbind_inv in H1 as (? & w2 & [Hm2 Hh2]%mp_assign_inv & H1). rewrite Hm1 in Hm2.
  apply pbind_inv in H1 as (hm & w3 & E3 & H1). assert (w3 = w2) as -> by by injection E3. destruct hm; cbn [negb] in H1; [|by injection H1].
  cbv zeta in H1. apply pbind_inv in H1 as (m & w3 & [Hm ->]%mp_deref_inv & H1). rewrite Hm2, lookup_insert_eq in Hm. injection Hm as <-.
  apply pbind_inv in H1 as (? & w3 & [Hm3 Hh3]%mp_assign_inv & H1). rewrite Hm2, insert_insert_eq in Hm3.
  apply pbind_inv in H1 as (e & w4 & E4 & H1). destruct (kop_inv _ _ _ _ E4) as [Hh4 Hm4].
  destruct (Z.eqb_spec e 0) as [->|]; cbn [negb] in H1; [|by injection H1].
  apply pbind_inv in H1 as (e & w5 & E5 & H1). destruct (Z.eqb_spec e 0) as [->|]; cbn [negb] in H1; [|by injection H1].
  match type of Hm3 with _ = <[a := ?m]> _ => set (m1 := m) in * end.
  destruct (spec_inv 0 _ _ _ _ _ (spec_mp_load (meta <$> heap w4) any env (mps w4) a m1 ltac:(by rewrite Hm4, Hm3, lookup_insert_eq)) E5) as [(main & ld & Hm5 & _) _].
  match type of Hm5 with _ = <[a := ?m]> _ => set (m2 := m) in * end.
  destruct (link_all_inv env a _ w5 w' m2 ltac:(by rewrite Hm5, lookup_insert_eq) H1) as (Hs & qs & Hm6 & _).
  exists w5, (add_links qs m2). split; [done|]. split; [|by rewrite Hm6, lookup_insert_eq].
  cbn in Hs. rewrite Hn, length_fmap, length_qsort in Hs. exact Hs.
Qed.

(** A correspondence of pairs survives a permutation of them. *)
Lemma fmap_sorted_metas (l : list (progref * xdp_program.t)) (h : gmap nat xdp_program.t) :
  let f p := Some (meta p) in
  let g r := match r with Arg b => meta <$> h !! b | Own p => Some (meta p) end in
  f <$> l.*2 = g <$> l.*1 → f <$> (qsort cmp_le l).*2 = g <$> (qsort cmp_le l).*1.
Proof.
  cbv zeta. rewrite <- !list_fmap_compose. intros Hl.
  assert (Forall (λ x : progref * xdp_program.t, Some (meta x.2) = match x.1 with Arg b => meta <$> h !! b | Own p => Some (meta p) end) l) as HF.
  { induction l as [|x l IH]; [done|]. cbn in Hl. injection Hl as H1 H2. constructor; [done|by apply IH]. }
  rewrite <- (qsort_perm cmp_le l) in HF. induction HF as [|x k Hx _ IH]; [done|]. cbn. by rewrite IH, Hx.
Qed.

Lemma generate_inv (env : kernel_ok) progs i old (w w' : world K) a :
  old_ok (mps w) old → Forall (.∈ dom (heap w)) progs → Z.of_nat (length progs) < 2 ^ 63 →
  xdp_multiprog__generate progs i old false w = Some (Ptr a, w') →
  ∃ frags ps w2 m, ps.*1 = (Own <$> progs_of (mps w) old) ++ (Arg <$> progs) ∧
    links_of (mps w) old = length (progs_of (mps w) old) ∧
    (λ p, Some (meta p)) <$> ps.*2 = ref_meta (meta <$> heap w) <$> ps.*1 ∧
    xdp_multiprog.config m = make_config frags ((qsort cmp_le ps).*2) ∧
    slots_linked a (length ps) 0 ((qsort cmp_le ps).*1) w2 w' ∧ mps w' !! a = Some m.
Proof.
  intros Ho Hp Hlen. unfold xdp_multiprog__generate. destruct (_ || _); [by intros [= ]|]. intros (nl & w0 & E0 & H0)%pbind_inv.
  assert (w0 = w ∧ nl = links_of (mps w) old) as [-> ->].
  { destruct old as [|e|b]; [by injection E0|done|]. apply pbind_inv in E0 as (m & w1 & [Hm ->]%mp_deref_inv & E0). injection E0 as <- <-.
    cbn. by rewrite Hm. }
  destruct (_ <? _) eqn:Hbig; [by injection H0|]. apply Z.ltb_ge in Hbig.
  apply pbind_inv in H0 as ([e|mp] & w1 & E1 & H0); [by injection H0|]. apply pbind_inv in H0 as (e & w3 & E3 & H0).
  destruct (Z.eqb_spec e 0) as [->|]; cbn [negb] in H0; [|by apply pbind_inv in H0 as (? & ? & _ & H0)]. injection H0 as <- <-.
  unfold xdp_multiprog__new in E1. apply pbind_inv in E1 as (ok & wa & Ea & E1). destruct (kop_inv _ _ _ _ Ea) as [Hha Hma].
  destruct ok; cbn [negb] in E1; [|by injection E1]. apply pbind_inv in E1 as (c & wb & Eb & E1). injection E1 as <- <-.
  unfold mp_alloc in Eb. injection Eb as Hc Eb. assert (mps wb = <[c := new_mp i]> (mps w) ∧ heap wb = heap w ∧ mps w !! c = None) as (Hmb & Hhb & Hfr).
  { rewrite <- Eb, <- Hc. cbn. rewrite Hma, Hha. repeat split. apply not_elem_of_dom, is_fresh. }
  clear Ea Eb Hc Hma Hha. unfold generate_body in E3. apply pbind_inv in E3 as (frags & w1 & E1 & H1).
  destruct (keeps_inv 0 _ _ _ _ _ (keeps_frags _ _ env _) E1) as (_ & Hm1 & Hh1).
  apply pbind_inv in H1 as (ids & w2 & E2 & H1). destruct (keeps_inv 0 _ _ _ _ _ (keeps_deref_ids (meta <$> heap w1) any (mps w1) progs
    ltac:(by rewrite Hh1, Hhb, dom_fmap_L)) E2) as (_ & Hm2 & Hh2).
  apply pbind_inv in H1 as (l & w4 & E4 & H1).
  assert (mps w4 = mps wb ∧ meta <$> heap w4 = meta <$> heap w ∧ (l = inr ((Own <$> progs_of (mps w) old) ++ (Arg <$> progs)) ∧ links_of (mps w) old = length (progs_of (mps w) old) ∨ ∃ e, l = inl e ∧ e ≠ 0)) as (Hm4 & Hh4 & Hl).
  { destruct old as [|e|b]; [injection E4 as <- <-; split_and!; [congruence..|by left]|done|]. destruct Ho as (o & Hb & Hn & Hw).
    assert (b ≠ c) as Hbc by congruence.
    apply pbind_inv in E4 as (m & w5 & [Hm ->]%mp_deref_inv & E4). rewrite Hm2, Hm1, Hmb, lookup_insert_ne, Hb in Hm by done. injection Hm as <-.
    apply pbind_inv in E4 as (m & w5 & [Hm ->]%mp_deref_inv & E4).
    destruct (xdp_multiprog.is_legacy o) eqn:El; [injection E4 as <- <-; split_and!; [congruence..|right; eexists; split; [reflexivity|done]]|].
    destruct (_ <? _); [injection E4 as <- <-; split_and!; [congruence..|right; eexists; split; [reflexivity|done]]|].
    apply pbind_inv in E4 as (ok & w5 & E5 & E4). destruct (kop_inv _ _ _ _ E5) as [Hh5 Hm5].
    destruct ok; cbn [negb] in E4; [|injection E4 as <- <-; split_and!; [congruence..|right; eexists; split; [reflexivity|done]]].
    cbn [links_of progs_of] in *. rewrite Hb in Hbig, E4 |- *. cbn in Hbig, E4 |- *. rewrite (Hw eq_refl) in Hbig, E4, Hn |- *.
    rewrite new_prog_list_add in E4; [injection E4 as <- <-; split_and!; [congruence..|by left]|].
    unfold wrap, MAX_DISPATCHER_ACTIONS in *. rewrite Z.mod_small by lia. lia. }
  destruct Hl as [[-> Hlinks]|(e & -> & He)]; [|by injection H1].
  apply pbind_inv in H1 as (ps & w5 & E5 & H1). assert (Forall (ref_ok (meta <$> heap w4)) ((Own <$> progs_of (mps w) old) ++ (Arg <$> progs))) as Hok.
  { rewrite Hh4. apply Forall_app; split; apply Forall_fmap; [by apply Forall_true|]. eapply Forall_impl; [exact Hp|]. intros x Hx. cbn. by rewrite dom_fmap_L. }
  destruct (keeps_inv 0 _ _ _ _ _ (keeps_deref_all _ any (mps w4) _ Hok) E5) as ([Hps Hms] & Hm5 & Hh5).
  destruct (generate_tail_inv env c (new_mp i) frags ps w5 w3) as (w6 & m & Hc & Hs & Hm); [by rewrite Hm5, Hm4, Hmb, lookup_insert_eq|done|exact H1|].
  exists frags, ps, w6, m. split; [done|]. split; [done|]. split; [by rewrite Hms, Hps, Hh4|done].
Qed.

(** C9: attaching programs to an interface always returns, whatever the kernel
    answers and however often another process interferes, when the caller's
    programs can be attached in the mode ([attachable]: those for hardware have a libbpf program,
    others have one or are loaded) and the kernel is as [kernel_ok] says (type
    information and dispatcher maps are well formed, failures have error
    numbers).  The retry loop makes
    at most 22 attach requests, no object is used after it was released or
    released twice, the priorities and actions of the programs do not change,
    and the dispatcher objects read and built on the way are released -- except
    that the one read from the interface is kept on the paths where a single
    program is attached without a dispatcher. *)
Theorem attach_multi_safe (env : kernel_ok) progs i mode flags (w : world K) :
  (∀ a p, a ∈ progs → heap w !! a = Some p → attachable mode p) →
  Forall (.∈ dom (heap w)) progs → Z.of_nat (length progs) < 2 ^ 63 →
  ∃ err w', xdp_program__attach_multi progs i mode flags w = Some (err, w') ∧
    (mps w' = mps w ∨
     length progs = 1%nat ∧ mode ≠ XDP_MODE_HW ∧ ∃ a m, mps w !! a = None ∧ mps w' = <[a := m]> (mps w)) ∧
    meta <$> heap w' = meta <$> heap w ∧ (length (calls w') ≤ length (calls w) + 22)%nat.
Proof. by apply attach_multi_run. Qed.

(** C10: detaching programs returns, makes at most 22 attach requests,
    and releases every dispatcher object it read or built, on success and on
    every error path, unless one of its rounds reads a dispatcher in which some
    program sits more than once: then the array of the programs that stay can be left
    with null entries, which the code follows ([detach_twice_null]).  The kernel
    is as [kernel_ok] says. *)
Theorem detach_multi_safe (env : kernel_ok) progs i mode flags (w : world K) :
  Forall (.∈ dom (heap w)) progs → Z.of_nat (length progs) < 2 ^ 63 →
  meets_twice progs i mode w ∨
  ∃ err w', xdp_program__detach_multi progs i mode flags w = Some (err, w') ∧
    mps w' = mps w ∧ meta <$> heap w' = meta <$> heap w ∧
    (length (calls w') ≤ length (calls w) + 22)%nat.
Proof. by apply detach_multi_run. Qed.

(** C11: a dispatcher built to add programs to those of an interface (or for the
    given programs alone) is for exactly the old programs and the new ones
    ([rs]), at most ten: they are sorted by their priorities ([ps] are their objects), the
    configuration is made for them in this order, and they are linked in this order,
    each to the function of its slot; on a packet the dispatcher then runs the chain of the
    programs of the slots, or the only one.  On failure nothing of it stays allocated. *)
Theorem generate_sorted {S} (env : kernel_ok) progs i old (w : world K) :
  Forall (.∈ dom (heap w)) progs → Z.of_nat (length progs) < 2 ^ 63 →
  old_ok (mps w) old →
  ∃ r w', xdp_multiprog__generate progs i old false w = Some (r, w') ∧
    match r with
    | Ptr a => ∃ m rs ps w1, mps w !! a = None ∧ mps w' = <[a := m]> (mps w) ∧
        rs ≡ₚ (Own <$> progs_of (mps w) old) ++ (Arg <$> progs) ∧
        (λ p, Some (meta p)) <$> ps = (λ r, match r with Arg b => meta <$> heap w !! b | Own p => Some (meta p) end) <$> rs ∧
        Sorted Z.le (run_prio <$> ps) ∧ (length ps ≤ 10)%nat ∧
        slots_linked a (length ps) 0 rs w1 w' ∧ xdp_multiprog.num_links m = length ps ∧
        ∀ (fs : list (S → Z * S)) s, length fs = length ps → Forall in_range fs →
          run (linked (xdp_multiprog.config m) fs) s =
          Some (match fs with [f] => f s | _ => chain (zip ps (Some <$> fs)) s end)
    | ErrPtr _ => mps w' = mps w
    | Null => False
    end.
Proof.
  intros Hp Hlen Ho.
  assert (Forall (.∈ dom (meta <$> heap w)) progs) as Hp' by by rewrite dom_fmap_L.
  destruct (run_spec any 0 _ _ w (spec_generate _ _ env (mps w) progs i old false Ho Hp' ltac:(done) Hlen))
    as (r & w' & E & HQ & _ & _); [done|].
  exists r, w'. split; [done|]. destruct r as [|e|a]; [done..|].
  destruct HQ as (m & Ha & Em & n & Hn & En & _ & _ & _ & _ & _ & _ & _ & _ & Hl).
  destruct (generate_inv env progs i old w w' a Ho Hp Hlen E) as (frags & ps & w2 & m' & Hps & Hlk & Hms & Hc & Hs & Hm').
  rewrite Em, lookup_insert_eq in Hm'. injection Hm' as <-.
  assert (Z.of_nat (length ps) = n) as Hn' by (rewrite En, Hlk, <- (length_fmap fst), Hps, length_app, !length_fmap; lia).
  exists m, ((qsort cmp_le ps).*1), ((qsort cmp_le ps).*2), w2. unfold MAX_DISPATCHER_ACTIONS in Hn. rewrite length_fmap, length_qsort.
  split_and!; [done|done|by rewrite qsort_perm, Hps| |apply qsort_prios|lia|done|lia|].
  - apply (fmap_sorted_metas _ (heap w)). rewrite Hms. apply list_fmap_ext. intros _ [b|p] _; [apply lookup_fmap|done].
  - intros fs s Hfs Hr. rewrite Hc. apply linked_chain_or; [by rewrite length_fmap, length_qsort|rewrite length_fmap, length_qsort; lia|done].
Qed.

Lemma run_do_attach i fd old fl (w : world K) :
  ∃ w', do_xdp_attach i fd old fl w = Some ((k_xdp_attach i fd old fl (kern w)).1, w') ∧
    kern w' = (k_xdp_attach i fd old fl (kern w)).2 ∧ calls w' = calls w ++ [mk_req i fd old fl] ∧
    mps w' = mps w ∧ heap w' = heap w.
Proof.
  unfold do_xdp_attach, pbind, modify, kop. cbn. destruct (k_xdp_attach i fd old fl (kern w)) as [e k]. cbn.
  destruct (e <? 0); eexists; repeat split.
Qed.

(** One replacement request.  The flag for the mode is set, and the
    "only if none exists" flag exactly when there is no old descriptor.  There
    is one request, or two when the kernel refuses the old descriptor with
    [-EINVAL]; a conflict with another process is reported as [-EAGAIN]. *)
Theorem xdp_attach_fd_requests fd old i mode (w : world K) :
  let flags := Z.lor (if old =? -1 then XDP_FLAGS_UPDATE_IF_NOEXIST else 0) (mode_flags mode) in
  let old' := if old =? -1 then 0 else old in
  let (e1, k1) := k_xdp_attach i fd old' flags (kern w) in
  let retry := (e1 =? - EINVAL) && negb (old' =? 0) in
  ∃ w', xdp_attach_fd fd old i mode w =
      Some (if retry then (k_xdp_attach i fd 0 flags k1).1
            else if (e1 =? - EEXIST) && negb (old' =? 0) then - EAGAIN else e1, w') ∧
    calls w' = calls w ++ mk_req i fd old' flags ::
      (if retry then [mk_req i fd 0 flags] else []) ∧
    mps w' = mps w ∧ heap w' = heap w.
Proof.
  cbv zeta. set (old' := if old =? -1 then 0 else old).
  set (flags := Z.lor (if old =? -1 then _ else 0) (mode_flags mode)).
  assert (xdp_attach_fd fd old i mode = attach_again 2 i fd old' flags) as ->
    by (unfold xdp_attach_fd, old', flags; by destruct (old =? -1)).
  destruct (run_do_attach i fd old' flags w) as (w1 & E1 & Hk1 & Hc1 & Hm1 & Hh1).
  destruct (k_xdp_attach i fd old' flags (kern w)) as [e1 k1] eqn:Ek. cbn [fst snd] in *.
  rewrite attach_again_unfold. unfold pbind. rewrite E1.
  destruct (Z.ltb_spec e1 0) as [Hneg|Hpos].
  - destruct ((e1 =? - EINVAL) && negb (old' =? 0)).
    + destruct (run_do_attach i fd 0 flags w1) as (w2 & E2 & Hk2 & Hc2 & Hm2 & Hh2).
      rewrite attach_again_unfold. unfold pbind. rewrite E2, Hk1.
      rewrite Z.eqb_refl. cbn [negb]. rewrite !andb_false_r.
      exists w2. split; [by destruct (_ <? 0)|]. rewrite Hc2, Hc1, <- app_assoc. split; [done|]. split; congruence.
    + exists w1. rewrite Hc1. by destruct ((e1 =? - EEXIST) && _).
  - change (- EINVAL) with (-22). change (- EEXIST) with (-17).
    destruct (Z.eqb_spec e1 (-22)), (Z.eqb_spec e1 (-17)); [lia..|].
    cbn [andb]. exists w1. split; [done|]. by rewrite Hc1.
Qed.

End libxdp.

(** ** A concrete environment

    An interface with a dispatcher, the program 5, holding one program, 7; every
    request succeeds.  Descriptors are 20 more than the identifiers.  The state
    is whether the environment variable asks to skip the dispatcher. *)

Definition sample_prog (id prio : Z) : xdp_program.t :=
  mk None false true (id + 20) (-1) "xdp_pass"%string (replicate 8 1) id 0 false prio 4.
Definition sample_new : xdp_program.t :=
  mk (Some (bpf_program.mk 12 0)) true true (-1) (-1) "xdp_echo"%string [] 0 0 false 10 4.
Definition sample_mp : mp_t :=
  xdp_multiprog.mk (make_config false [sample_prog 7 50]) (Some (sample_prog 5 50))
    [sample_prog 7 50] None XDP_DISPATCHER_VERSION 1 true false XDP_MODE_NATIVE 3.

Definition sample_info (fd : Z) : prog_info :=
  if fd =? 25 then mk_info "xdp_dispatcher" 1 (replicate 8 2) 0 5 1 3
  else mk_info "xdp_pass" 1 (replicate 8 1) 0 (if fd =? 27 then 7 else if fd =? 28 then 8 else 99) 0 0.

Definition sample_btf : btf :=
  (λ name, BTF_FUNC (Some name) 0) <$> "xdp_dispatcher"%string :: (prog_func ∘ Z.of_nat <$> seq 0 10).

Definition sample_kernel_with (ps : list xdp_program.t) (hw : Z) : Kernel bool := {|
  k_alloc k := (true, k);
  k_close _ k := k;
  k_dupfd fd k := (inr fd, k);
  k_prog_info fd _ := inr (sample_info fd);
  k_btf_load _ _ := Some sample_btf;
  k_obj_loaded _ _ := false;
  k_obj_load _ k := (0, k);
  k_bpf_fd _ _ := 28;
  k_create_from_obj _ k := (inl (- EINVAL), k);
  k_find_dispatcher _ k := (inr sample_new, k);
  k_dispatcher_map _ := true;
  k_set_rodata _ k := (0, k);
  k_kern_compat k := (0, k);
  k_set_attach_target _ _ _ := 0;
  k_link_create _ _ _ k := (inr 11, k);
  k_raw_tp_open _ k := (inl EINVAL, k);
  k_pin _ k := (0, k);
  k_unpin _ k := (0, k);
  k_query _ _ := inr (mk_query 5 0 hw (if hw =? 0 then XDP_ATTACHED_DRV else XDP_ATTACHED_MULTI));
  k_prog_fd_by_id id k := (inr (id + 20), k);
  k_map_fd_by_id id k := (inr (id + 20), k);
  k_map_info _ _ := inr (mk_desc 4 sizeof_config 1 BPF_F_RDONLY_PROG);
  k_map_lookup _ _ := inr (config_bytes XDP_DISPATCHER_VERSION (make_config false ps));
  k_bpffs_dir k := (inr "/sys/fs/bpf/xdp"%string, k);
  k_lock k := (33, k);
  k_unlock _ k := k;
  k_stat _ _ := 0;
  k_obj_get _ k := (inr 27, k);
  k_xdp_attach _ _ _ _ k := (0, k);
  k_links _ := [];
  k_link_fd _ k := (inl ENOENT, k);
  k_link_info_ok _ _ := 0;
  k_link_detach _ k := (0, k);
  k_skip_dispatcher k := k |}.
Definition sample_kernel_of : Z → Kernel bool := sample_kernel_with [sample_prog 7 50].
Definition sample_kernel : Kernel bool := sample_kernel_of 0.

Lemma sample_mp_wf : wf_mp sample_mp.
Proof. split; [cbn; lia|done]. Qed.

Lemma sample_kernel_ok : kernel_ok (H := sample_kernel).
Proof.
  split.
  - intros id k b [= <-] t (name & -> & _)%list_elem_of_fmap. split; [by eexists|]. by intros id' ?%not_elem_of_nil.
  - intros pfd info fd desc buf k k1 k1' k2 k3 _ _ _ [= <-] [= <-]. repeat split; vm_compute; congruence.
  - by intros path e k k' [=].
  - by intros e k k' [=].
  - by intros n e k k' [=].
  - by intros p e k k' [= <-].
  - by intros fd mfd id e k k' [=].
  - by intros fd e k k' [= <-].
  - done.
Qed.

(** What is read from this environment: programs other than 42, and one slot. *)
Lemma sample_from_fd fd (w : world bool) :
  ∃ p, xdp_program__from_fd (H := sample_kernel) fd w = Some (inr p, w) ∧ prog_id p ≠ 42.
Proof.
  assert (sample_info fd = mk_info "xdp_dispatcher" 1 (replicate 8 2) 0 5 1 3 ∨
    ∃ id, id ≠ 42 ∧ sample_info fd = mk_info "xdp_pass" 1 (replicate 8 1) 0 id 0 0) as Hi.
  { unfold sample_info. destruct (fd =? 25); [by left|right]. eexists. split; [|reflexivity].
    by destruct (fd =? 27), (fd =? 28). }
  destruct w as [k e h ms cs]. unfold xdp_program__from_fd, fill_from_fd, pbind, kop, kread. cbn -[sample_info].
  destruct Hi as [->|(id & Hid & ->)]; eexists; (split; [vm_compute; reflexivity|done]).
Qed.

Lemma sample_check name b nr mid (w : world bool) :
  ∃ r, check_dispatcher_version (H := sample_kernel) name b nr mid w = Some (r, w) ∧
    ∀ v c, r = inr (v, c) → dispatcher_config.num_progs_enabled c ≤ 1.
Proof.
  destruct w as [k e h ms cs]. unfold check_dispatcher_version.
  destruct (streq name "xdp_dispatcher"), (nr =? 1); try (eexists; split; [reflexivity|done]).
  eexists. split; [vm_compute; reflexivity|]. by intros v c [= _ <-].
Qed.

Lemma sample_from_id id hid i (w w' : world bool) m :
  xdp_multiprog__from_id (H := sample_kernel) id hid i w = Some (inr m, w') →
  read_ok (λ p, prog_id p ≠ 42) (λ c, dispatcher_config.num_progs_enabled c ≤ 1) m.
Proof.
  intros E. assert (heap_ok (meta <$> heap w) any w) as Hw by done.
  assert (keeps (meta <$> heap w) any (mps w) 0
    (xdp_multiprog__from_id (H := sample_kernel) id hid i) (λ r, ∀ m, r = inr m →
      read_ok (λ p, prog_id p ≠ 42) (λ c, dispatcher_config.num_progs_enabled c ≤ 1) m)) as Hs.
  { apply keeps_from_id_read; [apply sample_kernel_ok|done| |].
    - intros μ fd v <- Hv. unfold wp. destruct (sample_from_fd fd v) as (p & -> & Hp).
      split; [|split; [done|lia]]. split; [done|]. by intros q [= <-].
    - intros μ fd k info b Hinfo Hb. eapply keeps_weaken; [eapply (keeps_and _ _ _ _ _ _ (λ r, ∀ v c, r = inr (v, c) → dispatcher_config.num_progs_enabled c ≤ 1));
        [by eapply (keeps_check_version _ _ sample_kernel_ok)|]|done|].
      + intros v <- Hv. unfold wp. destruct (sample_check (info_name info) b (info_nr_maps info) (info_map_id info) v)
          as (r & -> & Hr). split; [|split; [done|lia]]. split; [done|]. exact Hr.
      + cbn. intros r [H1 H2] v c E'. split; [by eapply H2|by eapply H1]. }
  specialize (Hs w eq_refl Hw). unfold wp in Hs. rewrite E in Hs. by apply Hs.
Qed.

Lemma sample_distinct id hid i (w w' : world bool) m :
  xdp_multiprog__from_id (H := sample_kernel) id hid i w = Some (inr m, w') →
  xdp_multiprog.is_legacy m = false → distinct m.
Proof.
  intros E Hl. destruct (sample_from_id _ _ _ _ _ _ E) as (_ & _ & Hr). unfold distinct.
  destruct (Hr Hl) as (Hc & He & Hn & Hn' & _). destruct (xdp_multiprog.first_prog m) as [|p [|q ps]].
  - constructor.
  - apply NoDup_singleton.
  - destruct (xdp_multiprog.main_prog m); [|by specialize (He eq_refl)].
    specialize (Hc ltac:(eauto)). cbn in Hn. lia.
Qed.

Definition sample_world (skip : bool) : world bool :=
  mk_world skip 0 {[ 1%nat := sample_new ]} ∅ [].

Lemma sample_attachable mode skip a p :
  heap (sample_world skip) !! a = Some p → attachable mode p.
Proof. cbn. intros [_ <-]%lookup_singleton_Some. left. cbn. eauto. Qed.

(** With the dispatcher nothing is left allocated; without it the object read
    from the interface is. *)
Lemma attach_multi_safe_witness :
  (∃ err w', xdp_program__attach_multi (H := sample_kernel) [1%nat] 3 XDP_MODE_NATIVE 0 (sample_world false)
     = Some (err, w') ∧ (length (calls w') ≤ 22)%nat) ∧
  (∃ w', xdp_program__attach_multi (H := sample_kernel) [1%nat] 3 XDP_MODE_NATIVE 0 (sample_world false)
     = Some (0, w') ∧ mps w' = ∅) ∧
  (∃ w', xdp_program__attach_multi (H := sample_kernel) [1%nat] 3 XDP_MODE_NATIVE 0 (sample_world true)
     = Some (0, w') ∧ size (mps w') = 1%nat).
Proof.
  split; [|split].
  - destruct (attach_multi_safe (H := sample_kernel) sample_kernel_ok [1%nat] 3 XDP_MODE_NATIVE 0
      (sample_world false)) as (e & w' & E & _ & _ & Hc).
    + intros a p _. apply sample_attachable.
    + apply Forall_singleton, elem_of_dom. eexists. reflexivity.
    + cbn. lia.
    + exists e, w'. split; [exact E|]. cbn in Hc. lia.
  - eexists. split; [vm_compute; reflexivity|reflexivity].
  - eexists. split; [vm_compute; reflexivity|reflexivity].
Defined.

Lemma sample_reads i (w : world bool) : ¬ reads_twice (H := sample_kernel) i w.
Proof.
  intros (a & w' & m & E & Ha & Hl & Hd). destruct (run_spec any 0 _ _ w
    (spec_get_retry (H := sample_kernel) _ _ (λ m, xdp_multiprog.is_legacy m = false → distinct m) ltac:(done) (λ _, True) ltac:(done)
      (λ μ id hid i _, keeps_from_id _ _ sample_kernel_ok _ μ id hid i (sample_distinct id hid i)) (mps w) MAX_RETRY i (0, 0, XDP_MODE_UNSPEC) Logic.I))
    as (r & w1 & E' & HQ & _); [done|]. fold (xdp_multiprog__get_from_ifindex (H := sample_kernel) i) in E'. rewrite E in E'.
  injection E' as <- <-. destruct HQ as (m' & _ & Em & Hm). rewrite Em, lookup_insert_eq in Ha. injection Ha as <-. by apply Hd, Hm.
Qed.

Lemma detach_multi_safe_witness :
  ∃ err w', xdp_program__detach_multi (H := sample_kernel) [1%nat] 3 XDP_MODE_NATIVE 0 (sample_world false)
     = Some (err, w') ∧ mps w' = ∅.
Proof.
  destruct (detach_multi_safe (H := sample_kernel) sample_kernel_ok [1%nat] 3 XDP_MODE_NATIVE 0
    (sample_world false)) as [(w1 & _ & Ht)|(e & w' & E & Hm & _)].
  - apply Forall_singleton, elem_of_dom. eexists. reflexivity.
  - cbn. lia.
  - destruct (sample_reads 3 w1 Ht).
  - exists e, w'. split; [exact E|exact Hm].
Defined.

(** A loaded program can be added to a dispatcher that already holds it; taking it
    off that dispatcher follows a null pointer. *)
Example attach_again_twice :
  let w := mk_world false 0 {[ 1%nat := sample_prog 7 50 ]} {[ 2%nat := sample_mp ]} [] in
  ∃ a w', xdp_multiprog__generate (H := sample_kernel) [1%nat] 3 (Ptr 2%nat) false w = Some (Ptr a, w') ∧
    (λ m, prog_id <$> xdp_multiprog.first_prog m) <$> mps w' !! a = Some [7; 7].
Proof. eexists _, _. split; vm_compute; reflexivity. Qed.
Example detach_twice_null :
  xdp_program__detach (H := sample_kernel_with [sample_prog 7 50; sample_prog 7 50] 0) (Ptr 1%nat) 3 XDP_MODE_NATIVE 0
    (mk_world false 0 {[ 1%nat := sample_prog 7 50 ]} ∅ []) = None.
Proof. vm_compute. reflexivity. Qed.

(** A program with priority 10 is added to the one with priority 50. *)
Lemma generate_sorted_witness :
  let w := mk_world false 0 {[ 1%nat := sample_new ]} {[ 2%nat := sample_mp ]} [] in
  ∃ a w', xdp_multiprog__generate (H := sample_kernel) [1%nat] 3 (Ptr 2%nat) false w = Some (Ptr a, w') ∧
    ∃ m, mps w' !! a = Some m ∧ xdp_multiprog.num_links m = 2 ∧
      dispatcher_config.run_prios (xdp_multiprog.config m) = [10; 50] ∧
      prog_id <$> xdp_multiprog.first_prog m = [8; 7] ∧
      run (linked (xdp_multiprog.config m) [λ s : Z, (XDP_PASS, s + 1); λ s, (XDP_DROP, s * 2)]) 1 = Some (XDP_DROP, 4).
Proof.
  cbn zeta. set (w := mk_world _ _ _ _ _).
  assert (∃ a w', xdp_multiprog__generate (H := sample_kernel) [1%nat] 3 (Ptr 2%nat) false w = Some (Ptr a, w') ∧
    (λ m, (dispatcher_config.run_prios (xdp_multiprog.config m), prog_id <$> xdp_multiprog.first_prog m)) <$> mps w' !! a = Some ([10; 50], [8; 7])) as (a & w' & E & Hp)
    by (eexists _, _; split; vm_compute; reflexivity).
  destruct (generate_sorted (S := Z) (H := sample_kernel) sample_kernel_ok [1%nat] 3 (Ptr 2%nat) w) as (r & w1 & E1 & Hr).
  - apply Forall_singleton, elem_of_dom. eexists. reflexivity.
  - cbn. lia.
  - exists sample_mp. split; [reflexivity|apply sample_mp_wf].
  - rewrite E in E1. injection E1 as <- <-. destruct Hr as (m & rs & ps & w1 & _ & Em & Hperm & Hms & Hs & _ & _ & Hl & Hrun).
    assert (∀ p, p ∈ ps → chain_call_actions p = 4) as Hact.
    { clear E. intros p Hin. pose proof (list_elem_of_fmap_2 (λ p, Some (meta p)) ps p Hin) as Hm.
      rewrite Hms in Hm. apply list_elem_of_fmap in Hm as (r & Hr & Hin'). rewrite Hperm in Hin'.
      cbn in Hin'. apply elem_of_cons in Hin' as [->|Hin']; [by injection Hr|].
      apply elem_of_cons in Hin' as [->|Hin']; [by injection Hr|]. by apply not_elem_of_nil in Hin'. }
    assert (length ps = 2%nat) as H2 by (apply (f_equal length) in Hms; apply Permutation_length in Hperm; rewrite !length_fmap in Hms; rewrite Hms; exact Hperm).
    exists a, w'. split; [exact E|]. clear E. rewrite Em, lookup_insert_eq in Hp |- *. exists m. split; [done|].
    split; [lia|]. split; [by simplify_eq/=|]. split; [by simplify_eq/=|]. destruct ps as [|p [|q [|]]]; try done.
    rewrite Hrun; [|done|apply Forall_cons; split; [|apply Forall_singleton]; intros s; by cbn].
    cbn. rewrite (Hact p), (Hact q) by set_solver. reflexivity.
Defined.


(** Attaching a loaded program without a libbpf program in hardware mode follows
    a null pointer. *)
Example attach_hw_null :
  xdp_program__attach (H := sample_kernel) (Ptr 1%nat) 3 XDP_MODE_HW 0
    (mk_world false 0 {[ 1%nat := sample_prog 7 50 ]} ∅ []) = None.
Proof. vm_compute. reflexivity. Qed.

(** A program linked into the dispatcher is found, but no longer once there is
    also a hardware program on the interface. *)
Example is_attached_hw :
  let run hw := fst <$> xdp_program__is_attached (H := sample_kernel_of hw) (Ptr 1%nat) 3
    (mk_world false 0 {[ 1%nat := sample_prog 7 50 ]} ∅ []) in
  run 0 = Some XDP_MODE_NATIVE ∧ run 99 = Some XDP_MODE_UNSPEC.
Proof. split; vm_compute; reflexivity. Qed.

(** When the type information of a loaded program cannot be read, filling in the
    program object reports success and leaves it without a descriptor. *)
Lemma fill_from_fd_no_btf {K} `{Kernel K} p fd fd' info (k k' : K) e h ms cs :
  k_dupfd fd k = (inr fd', k') → k_prog_info fd' k' = inr info → prog_name p ≠ ""%string →
  info_btf_id info ≠ 0 → has_btf p = false → k_btf_load (info_btf_id info) k' = None →
  ∃ w' p', xdp_program__fill_from_fd p fd (mk_world k e h ms cs) = Some ((0, p'), w') ∧
    prog_fd p' = prog_fd p.
Proof.
  intros H1 H2 Hn Hi Hb Hl. unfold xdp_program__fill_from_fd, fill_from_fd, pbind, kop at 1. cbn [kern]. rewrite H1.
  unfold kread at 1. cbn [kern]. rewrite H2. unfold streq. rewrite bool_decide_eq_false_2 by done. cbn.
  rewrite (proj2 (Z.eqb_neq _ _)), Hb by done. cbn. unfold kread. cbn. rewrite Hl. cbn.
  eexists _, _. split; reflexivity.
Qed.
