(* ===== verification/Probe.v ===== *)
(** * libxdp: the feature probe and test runs

    [libxdp_check_kern_compat], which tries out once per process whether the
    kernel can replace functions of a dispatcher, and [xdp_program__test_run],
    which runs a program through a dispatcher of its own, both of
    [lib/libxdp/libxdp.c] and on top of [Multiprog]; and two observers of
    dispatcher objects. *)

From S2P Require Import Prelude CString Errno Packet Params Libxdp RunConfig Pin Multiprog Dispatcher MultiprogSpec.
From stdpp Require Import pretty.
Local Open Scope Z_scope.
Import xdp_program.

Definition ENOEXEC : Z := 8.
Definition IFINDEX_LO : Z := 1.
Definition BPF_PROG_TYPE_XDP : Z := 6.
Definition BPF_PROG_TYPE_EXT : Z := 28.

(** The calls that only these functions make: the program [xdp_pass] of the
    dispatcher's object file, setting an attach target, pinning a descriptor,
    unlinking a file, the type of a loaded program, and running it. *)
Class ProbeKernel (K : Type) := {
  p_find_pass : K → (Z + xdp_program.t) * K;
  p_set_target : xdp_program.t → Z → K → Z * K;
  p_obj_pin : Z → string → K → Z * K;
  p_unlink : string → K → Z * K;
  p_prog_type : xdp_program.t → K → Z;
  p_test_run : Z → K → Z * K }.

(** The variable [kernel_compat]. *)
Inductive compat := COMPAT_UNKNOWN | COMPAT_SUPPORTED | COMPAT_UNSUPPORTED.
#[export] Instance compat_eq_dec : EqDecision compat.
Proof. solve_decision. Defined.

Section probe.
Context {K : Type} `{Kernel K, ProbeKernel K}.
Abbreviation M := (M K).

(** ** The probe *)

Definition with_link (p : xdp_program.t) (fd : Z) : xdp_program.t :=
  mk (bpf_prog p) (has_obj p) (has_btf p) (prog_fd p) fd (prog_name p) (prog_tag p) (prog_id p) (load_time p)
    (is_frags p) (run_prio p) (chain_call_actions p).

Definition probe_path (bpffs_dir : string) (p : xdp_program.t) : string :=
  bpffs_dir +:+ "/prog-test-link-" +:+ pretty IFINDEX_LO +:+ "-" +:+ pretty (s32 (prog_id p)).

(** Pinning the link and removing it again, under the lock. *)
Definition probe_pin (bpffs_dir : string) (test : xdp_program.t) : M Z :=
  let buf := probe_path bpffs_dir test in
  if negb (try_path buf =? 0) then pret (try_path buf)
  else
    let! lock_fd := kop k_lock in
    if lock_fd <? 0 then pret lock_fd
    else
      let! e := kop (p_obj_pin (link_fd test) buf) in
      let! err := (if negb (e =? 0) then pret (- e) else let! e := kop (p_unlink buf) in pret (- e)) in
      kop (λ k, ((), k_unlock lock_fd k)) ;;; pret err.

(** From loading the first program to the label [out]: the error and the two
    programs. *)
Definition probe (bpffs_dir : string) (tgt test : xdp_program.t) : M (Z * xdp_program.t * xdp_program.t) :=
  let! (err, tgt) := xdp_program__load false tgt in
  if negb (err =? 0) then pret (err, tgt, test)
  else
    let! err := kop (p_set_target test (prog_fd tgt)) in
    if negb (err =? 0) then pret (err, tgt, test)
    else
      let! (err, test) := xdp_program__load true test in
      if negb (err =? 0) then pret (err, tgt, test)
      else
        let! link := kop (k_raw_tp_open (prog_fd test)) in
        match link with
        | inl e => pret (- e, tgt, with_link test (-1))
        | inr fd => let! err := probe_pin bpffs_dir (with_link test fd) in pret (err, tgt, with_link test fd)
        end.

Definition answer (c : compat) : Z := if decide (c = COMPAT_SUPPORTED) then 0 else - EOPNOTSUPP.

(** The result and the variable afterwards. *)
Definition libxdp_check_kern_compat (kernel_compat : compat) : M (Z * compat) :=
  let! d := kop k_bpffs_dir in
  match d with
  | inl _ => pret (- EOPNOTSUPP, kernel_compat)
  | inr bpffs_dir =>
    if decide (kernel_compat ≠ COMPAT_UNKNOWN) then pret (answer kernel_compat, kernel_compat)
    else
      let! tgt := kop p_find_pass in
      match tgt with
      | inl err => pret (err, kernel_compat)
      | inr tgt =>
        let! test := kop p_find_pass in
        match test with
        | inl err => pret (err, kernel_compat)
        | inr test =>
          let! (err, tgt, test) := probe bpffs_dir tgt test in
          xdp_program__close (Some test) ;;; xdp_program__close (Some tgt) ;;;
          let c := if err =? 0 then COMPAT_SUPPORTED else COMPAT_UNSUPPORTED in
          pret (answer c, c)
        end
      end
  end.

(** ** Test runs *)

Definition run_prog (fd : Z) : M Z :=
  let! e := kop (p_test_run fd) in
  if e =? 0 then pret 0 else set_errno e ;;; pret (- e).

(** From the point where the program is loaded. *)
Definition test_run_loaded (a : nat) : M Z :=
  let! p := deref a in
  let! ty := kread (p_prog_type p) in
  if ty =? BPF_PROG_TYPE_EXT then
    let! mp := xdp_multiprog__generate [a] 0 Null false in
    match mp with
    | ErrPtr err => libxdp_err err
    | _ =>
      let! fd := xdp_multiprog__main_fd mp in
      let! err := run_prog fd in
      xdp_multiprog__close mp ;;; libxdp_err err
    end
  else if negb (ty =? BPF_PROG_TYPE_XDP) then libxdp_err (- ENOEXEC)
  else
    let! p := deref a in
    let! err := run_prog (prog_fd p) in libxdp_err err.

Definition xdp_program__test_run (prog : ptr nat) (flags : Z) : M Z :=
  match prog with
  | Ptr a =>
    if negb (flags =? 0) then libxdp_err (- EINVAL)
    else
      let! p := deref a in
      let! err := (if prog_fd p <? 0 then
                     let! (err, p) := xdp_program__load false p in assign a p ;;; pret err
                   else pret 0) in
      if negb (err =? 0) then libxdp_err err else test_run_loaded a
  | _ => libxdp_err (- EINVAL)
  end.

(** ** Observers *)

Definition xdp_multiprog__program_count (mp : ptr nat) : M Z :=
  match mp with
  | Ptr a => let! m := mp_deref a in pret (xdp_multiprog.num_links m)
  | _ => libxdp_err (- EINVAL)
  end.
(** A null pointer is no legacy object, and is followed. *)
Definition xdp_multiprog__xdp_frags_support (mp : ptr nat) : M bool :=
  let! legacy := xdp_multiprog__is_legacy mp in
  if legacy then pret false
  else match mp with
       | Ptr a => let! m := mp_deref a in pret (dispatcher_config.is_xdp_frags (xdp_multiprog.config m))
       | _ => pfault
       end.
End probe.

(** ** Theorems *)

Section safety.
Context {K : Type} `{Kernel K, ProbeKernel K}.
Context (env : kernel_ok).

Section specs.
Context (ρ : gmap nat (Z * Z)).
Local Abbreviation spec := (spec ρ any).
Local Abbreviation keeps := (keeps ρ any).

Lemma keeps_run_prog μ fd : keeps μ 0 (run_prog fd) (λ _, True).
Proof.
  unfold run_prog. eapply keeps_bind0; [apply keeps_kop|]. intros e _. apply keeps_if; [by apply keeps_pret|].
  eapply keeps_bind0; [apply keeps_set_errno|]. intros _ _. by apply keeps_pret.
Qed.

Lemma keeps_err μ e : keeps μ 0 (libxdp_err (K := K) e) (λ _, True).
Proof. eapply keeps_true, keeps_libxdp_err. Qed.

Lemma keeps_test_run_loaded μ a : a ∈ dom ρ → keeps μ 0 (test_run_loaded a) (λ _, True).
Proof.
  intros Ha. unfold test_run_loaded. eapply keeps_bind0; [by apply keeps_deref|]. intros p _.
  eapply keeps_bind0; [apply keeps_kread|]. intros ty _. destruct (ty =? BPF_PROG_TYPE_EXT).
  - eapply (spec_bind _ _ _ 0 0).
    { apply (spec_generate _ _ env μ [a] 0 Null false); [done|by apply Forall_singleton|done|cbn; lia]. }
    intros [|e|b] μ' Hmp; [done|cbn in Hmp; subst μ'; apply keeps_err|]. destruct Hmp as (m & Hb & -> & _).
    assert (live (<[b := m]> μ) (Ptr b)) as Hl by (cbn; rewrite lookup_insert_eq; eauto).
    eapply (keeps_bind _ _ _ 0 0); [by apply keeps_main_fd|done|]. intros fd _.
    eapply (keeps_bind _ _ _ 0 0); [apply keeps_run_prog|done|]. intros err _.
    apply spec_close_bind; [done|]. cbn. rewrite delete_insert_id by done. apply keeps_err.
  - destruct (negb _); [apply keeps_err|]. eapply keeps_bind0; [by apply keeps_deref|]. intros q _.
    eapply keeps_bind0; [apply keeps_run_prog|]. intros err _. apply keeps_err.
Qed.

Lemma keeps_test_run μ a flags : a ∈ dom ρ → keeps μ 0 (xdp_program__test_run (Ptr a) flags) (λ _, True).
Proof.
  intros Ha. cbn [xdp_program__test_run]. destruct (negb (flags =? 0)); [apply keeps_err|].
  eapply keeps_bind0; [by apply keeps_deref|]. intros p [_ Hp].
  eapply (keeps_bind0 _ _ _ _ _ _ (λ _, True)).
  - destruct (prog_fd p <? 0); [|by apply keeps_pret].
    eapply keeps_bind0; [apply (keeps_load _ _ env)|]. intros [err q] [_ Hm].
    eapply keeps_bind0; [apply keeps_assign; [by rewrite Hp, <- Hm|done]|]. intros _ _. by apply keeps_pret.
  - intros err _. destruct (negb (err =? 0)); [apply keeps_err|]. by apply keeps_test_run_loaded.
Qed.

(** ** The probe *)

Lemma keeps_probe μ d tgt test : keeps μ 0 (probe d tgt test) (λ _, True).
Proof.
  assert (∀ p, keeps μ 0 (probe_pin d p) (λ _, True)) as Hpin.
  { intros p. unfold probe_pin. apply keeps_if; [by apply keeps_pret|].
    eapply keeps_bind0; [apply keeps_kop|]. intros l _. apply keeps_if; [by apply keeps_pret|].
    eapply keeps_bind0; [apply keeps_kop|]. intros e _.
    eapply (keeps_bind0 _ _ _ _ _ _ (λ _, True)).
    - apply keeps_if; [by apply keeps_pret|]. eapply keeps_bind0; [apply keeps_kop|]. intros e' _. by apply keeps_pret.
    - intros err _. eapply keeps_bind0; [apply keeps_kop|]. intros _ _. by apply keeps_pret. }
  unfold probe. eapply keeps_bind0; [apply (keeps_load _ _ env)|]. intros [err t] _. apply keeps_if; [by apply keeps_pret|].
  eapply keeps_bind0; [apply keeps_kop|]. intros e _. apply keeps_if; [by apply keeps_pret|].
  eapply keeps_bind0; [apply (keeps_load _ _ env)|]. intros [err2 t2] _. apply keeps_if; [by apply keeps_pret|].
  eapply keeps_bind0; [apply keeps_kop|]. intros [e3|fd] _; [by apply keeps_pret|].
  eapply keeps_bind0; [apply Hpin|]. intros e4 _. by apply keeps_pret.
Qed.

(** The answer goes with the variable, except that without a state directory, or
    without the object file, there is another error and the variable stays. *)
Definition told (c : compat) (r : Z * compat) : Prop :=
  (r.1 = answer r.2 ∧ r.2 ≠ COMPAT_UNKNOWN ∧ (c ≠ COMPAT_UNKNOWN → r.2 = c)) ∨ r.2 = c.

Lemma keeps_compat μ c : keeps μ 0 (libxdp_check_kern_compat c) (told c).
Proof.
  unfold libxdp_check_kern_compat. eapply keeps_bind0; [apply keeps_kop|].
  intros [e|d] _; [apply keeps_pret; by right|]. destruct (decide _) as [Hc|Hc]; [apply keeps_pret; by left|].
  eapply keeps_bind0; [apply keeps_kop|]. intros [e|tgt] _; [apply keeps_pret; by right|].
  eapply keeps_bind0; [apply keeps_kop|]. intros [e|test] _; [apply keeps_pret; by right|].
  eapply keeps_bind0; [apply keeps_probe|]. intros [[err t1] t2] _.
  eapply keeps_bind0; [apply keeps_close|]. intros _ _. eapply keeps_bind0; [apply keeps_close|]. intros _ _.
  apply keeps_pret. left. cbn. split; [done|]. split; [by destruct (err =? 0)|]. intros Hn. by apply Hc in Hn.
Qed.
End specs.

(** A test run always returns, sends no request to an interface, leaves the
    priorities and actions of the programs as they are, and has released the
    dispatcher that it made for the run. *)
Theorem test_run_safe a flags (w : world K) : a ∈ dom (heap w) →
  ∃ err w', xdp_program__test_run (Ptr a) flags w = Some (err, w') ∧ mps w' = mps w ∧
    meta <$> heap w' = meta <$> heap w ∧ (length (calls w') ≤ length (calls w))%nat.
Proof.
  intros Ha. destruct (run_spec any 0 (xdp_program__test_run (Ptr a) flags) (λ _ μ, μ = mps w ∧ True) w)
    as (e & w' & E & [Em _] & Hh & Hc); [|done|].
  - apply keeps_test_run. by rewrite dom_fmap.
  - exists e, w'. split_and!; [done|done|done|lia].
Qed.

(** The probe always returns and leaves every object alone.  Once it has
    come to a result, every later call returns the same result and does not try
    again, as long as the state directory is there; without it the answer is
    [-EOPNOTSUPP] and the result is kept. *)
Theorem kern_compat_once c (w : world K) :
  ∃ r c' w', libxdp_check_kern_compat c w = Some (r, c', w') ∧ mps w' = mps w ∧ meta <$> heap w' = meta <$> heap w ∧
    (c' ≠ COMPAT_UNKNOWN → ∀ w1, ∃ r2 w2, libxdp_check_kern_compat c' w1 = Some (r2, c', w2) ∧
       (r2 = answer c' ∨ r2 = - EOPNOTSUPP) ∧
       ∀ d k, k_bpffs_dir (kern w1) = (inr d, k) → r2 = answer c' ∧ kern w2 = k) ∧
    (c = COMPAT_UNKNOWN → c' ≠ COMPAT_UNKNOWN → r = answer c').
Proof.
  destruct (run_spec any 0 (libxdp_check_kern_compat c) (λ r μ, μ = mps w ∧ told c r) w) as ([r c'] & w' & E & [Em Ht] & Hh & _);
    [apply keeps_compat|done|].
  exists r, c', w'. split_and!; [done|done|done| |].
  - intros Hc w1. unfold libxdp_check_kern_compat, pbind, kop. destruct (k_bpffs_dir (kern w1)) as [[e|d] k] eqn:Ek.
    + eexists _, _. split; [done|]. split; [by right|done].
    + rewrite decide_True by done. eexists _, _. split; [done|]. split; [by left|]. by intros d' k' [= _ <-].
  - intros -> Hc. destruct Ht as [[? _]|?]; done.
Qed.
End safety.
