(* ===== verification/Linked.v ===== *)
(** * libxdp: its parts put together

    [Multiprog] reaches the state directories, the lock, the pins and the feature
    probe through the class [Kernel].  Here is the instance of that class in
    which they are the library's own functions ([StateDirs], [Pin], [Probe]), on
    top of the system calls of a kernel [K].  A [site] is the host with its file
    system, the state of the kernel, and the variable of the probe.

    The instance satisfies what [MultiprogSpec] assumes, so the theorems on
    attaching and detaching hold for it; and what is pinned for a dispatcher is
    what is opened when the dispatcher is read. *)

From S2P Require Import Prelude CString Errno Packet Params Libxdp RunConfig Pin Multiprog StateDirs StateDirsSpec Dispatcher MultiprogSpec Probe.
From stdpp Require Import pretty.
Local Open Scope Z_scope.
Import xdp_program.

(** Opening what was pinned through a descriptor. *)
Class Reopen (K : Type) := { reopen : Z → K → (Z + Z) * K }.

Record site (K : Type) := mk_site { sys : host; low : K; kernel_compat : compat }.
Arguments mk_site {K}.
Arguments sys {K}.
Arguments low {K}.
Arguments kernel_compat {K}.

Section linked.
Context {K : Type} `{Os, base : Kernel K, ProbeKernel K, Reopen K}.

(** ** Pinning with the lock held *)

Definition linked_progs (m : mp_t) : list Pin.linked :=
  imap (λ i p, Pin.mk_linked (prog_func (Z.of_nat i)) (xdp_program.link_fd p) (xdp_program.prog_fd p)) (xdp_multiprog.first_prog m).

(** The guards, the directory and the lock of both functions, around what [f]
    does to the files. *)
Definition with_pins (m : mp_t) (f : string → Z → fs → Z * fs) : H Z :=
  if xdp_multiprog.is_legacy m then pret (- EINVAL) else
  let! d := get_bpffs_dir in
  match d with
  | inl err => pret err
  | inr dir =>
    match xdp_multiprog.main_prog m with
    | None => pfault
    | Some main =>
      let path := pin_path dir (xdp_multiprog.ifindex m) (prog_id main) in
      if negb (try_path path =? 0) then pret (try_path path)
      else
        let! lock := xdp_lock_acquire in
        match lock with
        | inl err => pret err
        | inr fd => let! err := on_files (f dir (prog_id main)) in xdp_lock_release fd ;;; pret err
        end
    end
  end.

Definition host_pin (m : mp_t) : H Z :=
  with_pins m (λ dir id, Pin.xdp_multiprog__pin refuse keep (inr dir) (xdp_multiprog.ifindex m) id 0
    (xdp_multiprog.is_legacy m) (linked_progs m)).
Definition host_unpin (m : mp_t) : H Z :=
  with_pins m (λ dir id, Pin.xdp_multiprog__unpin keep (inr dir) (xdp_multiprog.ifindex m) id 0
    (xdp_multiprog.is_legacy m) (linked_progs m)).

(** ** The instance *)

Definition on_low {A} (f : K → A * K) (s : site K) : A * site K :=
  let (a, k) := f (low s) in (a, mk_site (sys s) k (kernel_compat s)).
Definition see_low {A} (f : K → A) (s : site K) : A := f (low s).
(** A function of the host; a fault is reported as [dead]. *)
Definition on_host {A} (m : H A) (dead : A) (s : site K) : A * site K :=
  match m (sys s) with
  | Some (a, h) => (a, mk_site h (low s) (kernel_compat s))
  | None => (dead, s)
  end.

Definition lock_num (r : Z + nat) : Z := match r with inl err => err | inr fd => Z.of_nat fd end.

Definition open_pin (path : string) (s : site K) : (Z + Z) * site K :=
  match files (sys s) !! path with
  | Some (Pinned fd) => on_low (reopen fd) s
  | Some Directory => (inl EPERM, s)
  | None => (inl ENOENT, s)
  end.

(** Everything but the probe, which itself needs the rest. *)
Definition site_kernel_of (compat : site K → Z * site K) : Kernel (site K) := {|
  k_alloc := on_low k_alloc;
  k_close fd s := mk_site (sys s) (k_close fd (low s)) (kernel_compat s);
  k_dupfd fd := on_low (k_dupfd fd);
  k_prog_info fd := see_low (k_prog_info fd);
  k_btf_load id := see_low (k_btf_load id);
  k_obj_loaded p := see_low (k_obj_loaded p);
  k_obj_load p := on_low (k_obj_load p);
  k_bpf_fd p := see_low (k_bpf_fd p);
  k_create_from_obj p := on_low (k_create_from_obj p);
  k_find_dispatcher n := on_low (k_find_dispatcher n);
  k_dispatcher_map := see_low k_dispatcher_map;
  k_set_rodata b := on_low (k_set_rodata b);
  k_kern_compat := compat;
  k_set_attach_target p fd := see_low (k_set_attach_target p fd);
  k_link_create fd mfd id := on_low (k_link_create fd mfd id);
  k_raw_tp_open fd := on_low (k_raw_tp_open fd);
  k_pin m := on_host (host_pin m) (- EINVAL);
  k_unpin m := on_host (host_unpin m) (- EINVAL);
  k_query i := see_low (k_query i);
  k_prog_fd_by_id id := on_low (k_prog_fd_by_id id);
  k_map_fd_by_id id := on_low (k_map_fd_by_id id);
  k_map_info fd := see_low (k_map_info fd);
  k_map_lookup fd := see_low (k_map_lookup fd);
  k_bpffs_dir := on_host get_bpffs_dir (inl (- EINVAL));
  k_lock s := let (r, s) := on_host xdp_lock_acquire (inl (- EINVAL)) s in (lock_num r, s);
  k_unlock fd s := (on_host (xdp_lock_release (Z.to_nat fd)) 0 s).2;
  k_stat path s := match files (sys s) !! path with Some _ => 0 | None => ENOENT end;
  k_obj_get := open_pin;
  k_xdp_attach i fd old fl := on_low (k_xdp_attach i fd old fl);
  k_links := see_low k_links;
  k_link_fd id := on_low (k_link_fd id);
  k_link_info_ok fd := see_low (k_link_info_ok fd);
  k_link_detach fd := on_low (k_link_detach fd);
  k_skip_dispatcher := see_low k_skip_dispatcher |}.

Definition site_probe : ProbeKernel (site K) := {|
  p_find_pass := on_low p_find_pass;
  p_set_target p fd := on_low (p_set_target p fd);
  p_obj_pin fd path s := let (e, t) := bpf_obj_pin refuse fd path (files (sys s)) in
    (e, mk_site (set_files t (sys s)) (low s) (kernel_compat s));
  p_unlink path := on_host (sys_unlink path) EINVAL;
  p_prog_type p := see_low (p_prog_type p);
  p_test_run fd := on_low (p_test_run fd) |}.

(** The probe keeps no object, so it is run without any. *)
Definition site_compat (s : site K) : Z * site K :=
  match libxdp_check_kern_compat (H := site_kernel_of (λ s, (0, s))) (H0 := site_probe) (kernel_compat s)
          (mk_world s 0 ∅ ∅ []) with
  | Some (r, c, w) => (r, mk_site (sys (kern w)) (low (kern w)) c)
  | None => (- EINVAL, s)
  end.

Definition site_kernel : Kernel (site K) := site_kernel_of site_compat.

(** ** What the class promises *)

Lemma on_low_inv {A} (f : K → A * K) s a s' : on_low f s = (a, s') → f (low s) = (a, low s').
Proof. unfold on_low. destruct (f (low s)). by intros [= <- <-]. Qed.

(** The assumptions on the class, from those on the system calls alone. *)
Theorem site_kernel_ok (ok : os_ok) (env : kernel_ok (H := base))
    (Hre : ∀ fd e k k', reopen fd k = (inl e, k') → e ≠ 0) : kernel_ok (H := site_kernel).
Proof.
  split.
  - intros id s b. apply (btf_ok env).
  - intros pfd info fd desc buf s s1 s1' s2 s3 I1 I2 I3%on_low_inv I4 I5.
    eapply (maps_genuine env); [exact I1|exact I2|exact I3|exact I4|exact I5].
  - intros path e s s'. cbn. unfold open_pin. destruct (files (sys s) !! path) as [[|fd]|]; [by intros [= <-]| |by intros [= <-]].
    intros E%on_low_inv. by eapply Hre.
  - intros e s s'. cbn. unfold on_host. pose proof (wp_get_bpffs_dir ok (sys s)) as Hw. unfold wp in Hw.
    destruct (get_bpffs_dir (sys s)) as [[d h]|]; [|done]. intros [= -> _]. destruct Hw as (_ & Hw & _). exact Hw.
  - intros n e s s' E%on_low_inv. by eapply (find_err env).
  - intros p e s s' E%on_low_inv. by eapply (create_err env).
  - intros fd mfd id e s s' E%on_low_inv. by eapply (link_err env).
  - intros fd e s s' E%on_low_inv. by eapply (raw_tp_err env).
  - intros fd e s. apply (prog_info_err env).
Qed.

(** ** What is pinned is what is found *)

(** Under the lock: the calls in between never wait, give back what they took,
    and either stop early or run [f] on the files. *)
Lemma wp_with_pins (ok : os_ok) m main f s :
  locks s = ∅ → lock_ok s → xdp_multiprog.main_prog m = Some main →
  wp (with_pins m f) s (λ e s', (fds s' = fds s ∧ locks s' = ∅ ∧ lock_ok s') ∧
    (e ≠ 0 ∧ inits s s' ∨
     xdp_multiprog.is_legacy m = false ∧ ∃ dir s1, known dir s' ∧ inits s s1 ∧
       f dir (prog_id main) (files s1) = (e, files s'))).
Proof.
  intros Hl Hok Hm. unfold with_pins. rewrite Hm.
  assert (∀ e s', e ≠ 0 → inits s s' → wp (pret e) s' (λ e s', (fds s' = fds s ∧ locks s' = ∅ ∧ lock_ok s') ∧
    (e ≠ 0 ∧ inits s s' ∨ xdp_multiprog.is_legacy m = false ∧ ∃ dir s1, known dir s' ∧ inits s s1 ∧
       f dir (prog_id main) (files s1) = (e, files s')))) as Hstop.
  { intros e s' He Hi. apply wp_ret. split; [|by left]. destruct Hi as (-> & -> & [_ Ho] & _). auto. }
  destruct (xdp_multiprog.is_legacy m); [apply Hstop; [done|apply inits_refl]|].
  apply wp_bind. eapply wp_mono; [apply (wp_get_bpffs_dir ok)|]. intros [e|dir] s1 (I1 & Hd & _); [by apply Hstop|].
  set (path := pin_path _ _ _). destruct (Z.eqb_spec (try_path path) 0) as [_|Ht]; cbn [negb]; [|by apply Hstop].
  pose proof I1 as (F1 & L1 & [K1 O1] & _).
  apply wp_bind. eapply wp_mono; [apply (wp_acquire ok); [congruence|auto]|]. intros [e|fd] s2.
  { intros (He & I2 & _). apply Hstop; [done|by eapply inits_trans]. }
  intros (s3 & p & I3 & Hfd & -> & _). pose proof (inits_trans _ _ _ I1 I3) as I13.
  destruct I3 as (F3 & L3 & [K3 O3] & _).
  apply wp_bind, wp_on_files. destruct (f dir (prog_id main) _) as [e t] eqn:Ef. cbn [files set_fds] in Ef.
  apply wp_bind. eapply wp_mono; [apply (wp_release ok fd p); apply lookup_insert_eq|]. intros _ s4 ->.
  apply wp_ret. split.
  - split; [cbn; rewrite delete_insert_id by done; congruence|]. split; [cbn; set_solver|]. intros e' He'. apply (O3 (O1 Hok) e'). exact He'.
  - right. split; [done|]. exists dir, s3. split; [exact (K3 _ Hd)|]. split; [done|]. exact Ef.
Qed.

(** C32: pinning a dispatcher always returns (it does not wait for a lock that
    the process holds itself), holds no lock and leaves no descriptor open
    afterwards; and when it succeeds, the directory that is looked for when the
    dispatcher is read is there, and the file of each slot opens the program that
    was pinned for that slot. *)
Theorem pins_are_read (ok : os_ok) (Hex : ∀ p e, refuse p = Some e → 0 < e ∧ e ≠ EEXIST) m main s :
  locks (sys s) = ∅ → lock_ok (sys s) → xdp_multiprog.main_prog m = Some main →
  ∃ e h, host_pin m (sys s) = Some (e, h) ∧ locks h = ∅ ∧ fds h = fds (sys s) ∧
  let s' := mk_site h (low s) (kernel_compat s) in
  k_pin (Kernel := site_kernel) m s = (e, s') ∧
  (e = 0 → ∃ bpffs, k_bpffs_dir (Kernel := site_kernel) s' = (inr bpffs, s') ∧
    let dir := pin_path bpffs (xdp_multiprog.ifindex m) (prog_id main) in
    k_stat (Kernel := site_kernel) dir s' = 0 ∧
    ∀ (i : nat) p, xdp_multiprog.first_prog m !! i = Some p →
      k_obj_get (Kernel := site_kernel) (pinned_prog dir i) s' = on_low (reopen (xdp_program.prog_fd p)) s').
Proof.
  intros Hl Hok Hm.
  pose proof (wp_with_pins ok m main (λ dir id, Pin.xdp_multiprog__pin refuse keep (inr dir) (xdp_multiprog.ifindex m) id 0
    (xdp_multiprog.is_legacy m) (linked_progs m)) (sys s) Hl Hok Hm) as Hw.
  fold (host_pin m) in Hw. apply wp_run in Hw as (e & h & E & (F & L & _) & Hw).
  exists e, h. split_and!; [done|done|done|]. cbv zeta. split; [cbn; unfold on_host; by rewrite E|]. intros ->.
  destruct Hw as [[? _]|(Hleg & bpffs & s1 & Hk & _ & Hf)]; [done|]. exists bpffs. split.
  { cbn. unfold on_host. cbn [sys]. unfold known in Hk. unfold get_bpffs_dir, pbind, pget. by rewrite Hk. }
  destruct (pin_success refuse keep Hex _ _ _ _ _ _ _ Hf) as [[v Hdir] Hps]. cbn. split; [by rewrite Hdir|].
  intros i p Hi. unfold open_pin. cbn [sys].
  destruct (Hps i (Pin.mk_linked (prog_func i) (xdp_program.link_fd p) (xdp_program.prog_fd p))) as [_ Ep].
  { unfold linked_progs. by rewrite list_lookup_imap, Hi. }
  unfold pinned_prog. change (prog_path ?d (Pin.mk_linked ?n 0 0))
    with (prog_path d (Pin.mk_linked n (xdp_program.link_fd p) (xdp_program.prog_fd p))).
  by rewrite Ep.
Qed.

(** Attaching with these parts in place: what [attach_multi_run] says, from
    assumptions on the system calls only. *)
Corollary attach_linked_safe (ok : os_ok) (env : kernel_ok (H := base))
    (Hre : ∀ fd e k k', reopen fd k = (inl e, k') → e ≠ 0)
    progs i mode flags (w : world (site K)) :
  (∀ a p, a ∈ progs → heap w !! a = Some p → attachable mode p) →
  Forall (.∈ dom (heap w)) progs → Z.of_nat (length progs) < 2 ^ 63 →
  ∃ err w', xdp_program__attach_multi (H := site_kernel) progs i mode flags w = Some (err, w') ∧
    (mps w' = mps w ∨
     length progs = 1%nat ∧ mode ≠ XDP_MODE_HW ∧ ∃ a m, mps w !! a = None ∧ mps w' = <[a := m]> (mps w)) ∧
    meta <$> heap w' = meta <$> heap w ∧ (length (calls w') ≤ length (calls w) + 22)%nat.
Proof. apply attach_multi_run. by apply site_kernel_ok. Qed.
End linked.

(** ** An instance

    The host of [StateDirsSpec] with the kernel of [MultiprogSpec]. *)
Section instance.
#[local] Existing Instance plain_os.
#[local] Existing Instance sample_kernel.
#[local] Instance sample_probe : ProbeKernel bool := {|
  p_find_pass k := (inr sample_new, k); p_set_target _ _ k := (0, k); p_obj_pin _ _ k := (0, k);
  p_unlink _ k := (0, k); p_prog_type _ _ := BPF_PROG_TYPE_EXT; p_test_run _ k := (0, k) |}.
#[local] Instance sample_reopen : Reopen bool := {| reopen fd k := (inr fd, k) |}.

Definition sample_site : site bool := mk_site pinned_host false COMPAT_UNKNOWN.
(** The dispatcher 6 with the programs 7 and 8. *)
Definition sample_pair : mp_t :=
  let linked id := with_link (sample_prog id 50) (id + 40) in
  xdp_multiprog.mk (make_config false [linked 7; linked 8]) (Some (sample_prog 6 50))
    [linked 7; linked 8] None XDP_DISPATCHER_VERSION 2 true false XDP_MODE_NATIVE 3.

Lemma pins_are_read_witness : ∃ h,
  host_pin sample_pair pinned_host = Some (0, h) ∧
  k_obj_get (Kernel := site_kernel) "/sys/fs/bpf/xdp/dispatch-3-6/prog1-prog" (mk_site h false COMPAT_UNKNOWN) =
    (inr 28, mk_site h false COMPAT_UNKNOWN).
Proof.
  destruct (pins_are_read plain_ok (λ p e (E : None = Some e), False_ind _ ltac:(discriminate E)) sample_pair
    (sample_prog 6 50) sample_site) as (e & h & E & _ & _ & _ & Hr); [reflexivity|intros e [=]|reflexivity|].
  assert (e = 0) as ->.
  { assert (∃ h', host_pin sample_pair pinned_host = Some (0, h')) as [h' E'] by (eexists; vm_compute; reflexivity).
    cbn [sys sample_site] in E. rewrite E' in E. by injection E. }
  exists h. split; [exact E|]. destruct (Hr eq_refl) as (bpffs & Hb & _ & Hp).
  assert (bpffs = xdp_dir) as ->.
  { assert (match host_pin sample_pair pinned_host with Some (_, h) => bpffs_dir (vars h) | None => None end = Some xdp_dir) as Ev
      by (vm_compute; reflexivity).
    cbn [sys sample_site] in E. rewrite E in Ev. revert Hb. cbn. unfold on_host, get_bpffs_dir, pbind, pget. cbn [sys].
    rewrite Ev. cbn. congruence. }
  specialize (Hp 1%nat _ eq_refl). exact Hp.
Defined.

(** Pinned, and then read by another run: the programs of the two slots. *)
Example pinned_then_found :
  (s ← host_pin sample_pair pinned_host;
   r ← xdp_multiprog__link_pinned_progs (H := site_kernel) (drop_links sample_pair)
         (mk_world (mk_site s.2 false COMPAT_UNKNOWN) 0 ∅ ∅ []);
   Some (r.1.1, prog_id <$> xdp_multiprog.first_prog r.1.2, bool_decide (locks (sys (kern r.2)) = ∅))) = Some (0, [7; 8], true).
Proof. vm_compute. reflexivity. Qed.
End instance.
