(* ===== verification/Readback.v ===== *)
(** * libxdp: a dispatcher is read back as it was written

    The library keeps the priorities and actions of the programs of an
    interface nowhere but in the configuration of the dispatcher, in the memory
    of the kernel.  This file shows that reading them back gives what was
    written: for the bytes of the structure, and for the whole of
    [xdp_multiprog__from_id], where the programs are those of the pins; and that
    no dispatcher holds a program twice when no program is pinned twice. *)

From stdpp Require Import pretty.
From S2P Require Import Prelude CString Errno Params Libxdp RunConfig Pin Multiprog Dispatcher MultiprogSpec.
Local Open Scope Z_scope.
Import xdp_program.

(** ** The structure in memory *)

Lemma length_word_bytes ws : length (ws ≫= le_bytes 4) = (4 * length ws)%nat.
Proof.
  induction ws as [|w ws IH]; [done|]. rewrite bind_cons, length_app, length_le_bytes, IH. cbn. lia.
Qed.

Lemma sub_word pre ws rest (i : nat) w :
  ws !! i = Some w → sub (length pre + 4 * i) 4 (pre ++ (ws ≫= le_bytes 4) ++ rest) = le_bytes 4 w.
Proof.
  intros Hi. rewrite sub_app_at by lia. rewrite <- (take_drop_middle ws i w Hi), bind_app, bind_cons.
  pose proof (lookup_lt_Some _ _ _ Hi) as Hlt. rewrite <- !app_assoc.
  set (l1 := take i ws ≫= _). assert (length l1 = (4 * i)%nat) as Hl.
  { unfold l1. rewrite length_word_bytes, length_take. lia. }
  replace (4 * i) with (length l1 + 0) by lia. rewrite sub_app_at by lia. unfold sub.
  apply take_app_length'. by rewrite length_le_bytes.
Qed.

Lemma words_at pre ws rest :
  length ws = num_slots → words (pre ++ (ws ≫= le_bytes 4) ++ rest) (length pre) = (λ w, u32 w) <$> ws.
Proof.
  intros Hlen. apply list_eq. intros i. unfold words. rewrite !list_lookup_fmap.
  destruct (ws !! i) as [w|] eqn:Ew.
  - pose proof (lookup_lt_Some _ _ _ Ew) as Hlt. rewrite lookup_seq_lt by lia. cbn [fmap option_fmap option_map].
    rewrite Nat.add_0_l, (sub_word _ _ _ _ _ Ew), le_val_le_bytes. done.
  - apply lookup_ge_None in Ew. rewrite lookup_seq_ge by lia. done.
Qed.

(** A configuration as the library writes it: at most ten slots of 32-bit
    words, and the rest zero. *)
Definition config_ok (c : dispatcher_config.t) : Prop :=
  0 ≤ dispatcher_config.num_progs_enabled c ≤ MAX_DISPATCHER_ACTIONS ∧
  Forall (is_word 32) (dispatcher_config.chain_call_actions c) ∧
  Forall (is_word 32) (dispatcher_config.run_prios c) ∧
  Forall (is_word 32) (dispatcher_config.program_flags c).

Definition padded (c : dispatcher_config.t) : dispatcher_config.t :=
  let pad l := resize num_slots 0 l in
  dispatcher_config.mk (dispatcher_config.num_progs_enabled c) (dispatcher_config.is_xdp_frags c)
    (pad (dispatcher_config.chain_call_actions c)) (pad (dispatcher_config.run_prios c))
    (pad (dispatcher_config.program_flags c)).

Lemma wrap_words ws : Forall (is_word 32) ws → (λ w, u32 w) <$> resize num_slots 0 ws = resize num_slots 0 ws.
Proof.
  intros Hw. rewrite <- (list_fmap_id (resize _ _ _)) at 2. apply Forall_fmap_ext_1.
  apply Forall_resize; [by split|]. eapply Forall_impl; [exact Hw|]. intros w. apply wrap_small.
Qed.

(** The bytes of a configuration are decoded to it. *)
Lemma config_decode v c : config_ok c → config_of_bytes (config_bytes v c) = padded c.
Proof.
  intros (Hn & H1 & H2 & H3). unfold config_of_bytes, padded, config_bytes, word_bytes.
  set (h := [_; _; _; _]). set (a := resize num_slots 0 (dispatcher_config.chain_call_actions c)).
  set (b := resize num_slots 0 (dispatcher_config.run_prios c)).
  set (d := resize num_slots 0 (dispatcher_config.program_flags c)).
  assert (length a = num_slots ∧ length b = num_slots ∧ length d = num_slots) as (La & Lb & Ld)
    by (unfold a, b, d; by rewrite !length_resize).
  f_equal.
  - cbn. apply wrap_small. unfold is_word, MAX_DISPATCHER_ACTIONS in *. lia.
  - cbn. by destruct (dispatcher_config.is_xdp_frags c).
  - etrans; [by apply (words_at h a)|by apply wrap_words].
  - rewrite app_assoc. etrans; [|by apply (wrap_words (dispatcher_config.run_prios c))].
    replace 44 with (Z.of_nat (length (h ++ (a ≫= le_bytes 4)))) by (rewrite length_app, length_word_bytes, La; done).
    by apply words_at.
  - etrans; [|by apply (wrap_words (dispatcher_config.program_flags c))].
    replace 84 with (Z.of_nat (length ((h ++ (a ≫= le_bytes 4)) ++ (b ≫= le_bytes 4))))
      by (rewrite !length_app, !length_word_bytes, La, Lb; done).
    rewrite <- (app_nil_r (d ≫= le_bytes 4)), (app_assoc h), (app_assoc (h ++ _)). by apply words_at.
Qed.

(** Metadata as programs carry it: 32-bit words, without the action reserved
    for the dispatcher itself. *)
Definition meta_ok (p : xdp_program.t) : Prop :=
  is_word 32 (run_prio p) ∧ 0 ≤ chain_call_actions p < 2 ^ XDP_DISPATCHER_RETVAL.

Lemma make_config_ok frags ps :
  (length ps ≤ num_slots)%nat → Forall meta_ok ps → config_ok (make_config frags ps).
Proof.
  intros Hn Hps. split; [unfold num_slots, MAX_DISPATCHER_ACTIONS in *; cbn; lia|]. cbn.
  split_and!; apply Forall_fmap; (eapply Forall_impl; [exact Hps|]); intros p [H1 H2]; cbn.
  - unfold is_word, XDP_DISPATCHER_RETVAL in *. split; [apply Z.lor_nonneg; lia|].
    apply Z.log2_lt_cancel. rewrite Z.log2_lor, !Z.log2_pow2 by lia. apply Z.max_lub_lt; [|lia].
    destruct (decide (chain_call_actions p = 0)) as [->|]; [done|]. apply Z.log2_lt_pow2; [lia|].
    change (2 ^ 32) with (2 ^ 31 * 2). lia.
  - done.
  - by case_match.
Qed.

Lemma nth_padded {A} (f : xdp_program.t → A) d ps (i : nat) p :
  ps !! i = Some p → (length ps ≤ num_slots)%nat → nth i (resize num_slots d (f <$> ps)) d = f p.
Proof.
  intros Hi Hn. apply nth_lookup_Some. pose proof (lookup_lt_Some _ _ _ Hi) as Hlt.
  rewrite lookup_resize by (rewrite ?length_fmap; lia). by rewrite list_lookup_fmap, Hi.
Qed.

(** The action of the dispatcher is added when a configuration is written and
    removed when it is read. *)
Lemma drop_retval acts :
  0 ≤ acts < 2 ^ XDP_DISPATCHER_RETVAL →
  Z.land (Z.lor acts (2 ^ XDP_DISPATCHER_RETVAL)) (u32 (Z.lnot (2 ^ XDP_DISPATCHER_RETVAL))) = acts.
Proof.
  unfold XDP_DISPATCHER_RETVAL. intros Ha. change (u32 (Z.lnot (2 ^ 31))) with (Z.ones 31).
  rewrite <- (Z.mod_small acts (2 ^ 31)) at 2 by lia. rewrite <- (Z.land_ones acts) by lia.
  apply Z.bits_inj'. intros n Hn. rewrite !Z.land_spec, Z.lor_spec, Z.pow2_bits_eqb by lia.
  destruct (Z.eqb_spec 31 n) as [<-|]; [|by rewrite orb_false_r].
  by rewrite Z.ones_spec_high, !andb_false_r by lia.
Qed.

Lemma slot_readback frags v ps (i : nat) p q :
  (length ps ≤ 10)%nat → Forall meta_ok ps → ps !! i = Some p →
  slot_prog (config_of_bytes (config_bytes v (make_config frags ps))) i q =
    set_run (set_frags q (bpf_prog q) (xdp_program__xdp_frags_support (Ptr p))) (run_prio p) (chain_call_actions p).
Proof.
  intros Hn Hps Hi. rewrite config_decode by by apply make_config_ok.
  pose proof (proj1 (Forall_lookup _ _) Hps _ _ Hi) as [_ Ha].
  unfold slot_prog. rewrite Nat2Z.id. cbn [padded make_config dispatcher_config.chain_call_actions
    dispatcher_config.run_prios dispatcher_config.program_flags].
  rewrite !(nth_padded _ _ ps i p) by done. rewrite drop_retval by done.
  f_equal. f_equal. by destruct (xdp_program__xdp_frags_support (Ptr p)).
Qed.

(** What the library writes into the map of a dispatcher for a list of
    programs, it reads back: the number of programs and, for each slot, the
    priority, the actions and the support for fragments of its program. *)
Theorem config_readback frags v ps (i : nat) p q :
  (length ps ≤ 10)%nat → Forall meta_ok ps → ps !! i = Some p →
  let c := config_of_bytes (config_bytes v (make_config frags ps)) in
  dispatcher_config.num_progs_enabled c = length ps ∧
  slot_prog c i q =
    set_run (set_frags q (bpf_prog q) (xdp_program__xdp_frags_support (Ptr p))) (run_prio p) (chain_call_actions p).
Proof.
  intros Hn Hps Hi c. split; [|by apply slot_readback].
  unfold c. by rewrite config_decode by by apply make_config_ok.
Qed.

Lemma slot_metas_readback frags v ps :
  (length ps ≤ 10)%nat → Forall meta_ok ps →
  slot_metas (config_of_bytes (config_bytes v (make_config frags ps))) 0 (length ps) = meta <$> ps.
Proof.
  intros Hn Hps. apply list_eq. intros i. unfold slot_metas. rewrite !list_lookup_fmap.
  destruct (ps !! i) as [p|] eqn:Hi.
  - pose proof (lookup_lt_Some _ _ _ Hi) as Hlt. rewrite lookup_seq_lt by lia. cbn [fmap option_fmap option_map].
    rewrite Nat.add_0_l, Z.add_0_l. f_equal. by rewrite (slot_readback frags v ps i p) by done.
  - apply lookup_ge_None in Hi. by rewrite lookup_seq_ge by lia.
Qed.

(** ** The dispatcher of an interface *)

(** Reading the run configuration leaves the identity of a program. *)
Definition same_ident (p q : xdp_program.t) : Prop := prog_id q = prog_id p ∧ prog_tag q = prog_tag p.

Lemma parse_members_ident b ms p e q : parse_members b ms p = Some (e, q) → same_ident p q.
Proof.
  revert p. induction ms as [|m ms IH]; intros p; cbn [parse_members]; [by intros [= _ <-]|].
  destruct (m_name m) as [n|]; [|by intros [= _ <-]]. destruct (skip_mods_and_typedefs b (m_type m)) as [t|]; [|done]. cbn [mbind option_bind].
  destruct (streq n "priority").
  - destruct (get_field_int b t); [|by intros [= _ <-]]. intros E%IH. exact E.
  - destruct (get_xdp_action n) as [act|]; [|by intros [= _ <-]]. destruct (get_field_int b t); [|by intros [= _ <-]].
    unfold xdp_program__set_chain_call_enabled. destruct (_ || _); cbn [snd]; intros E%IH; exact E.
Qed.
Lemma parse_btf_ident own strdup p b e q : xdp_program__parse_btf own strdup p b = Some (e, q) → same_ident p q.
Proof.
  unfold xdp_program__parse_btf. set (b' := match b with Some _ => b | None => own end).
  assert (∀ e1 p1, expand_name b' strdup p = Some (e1, p1) → same_ident p p1) as Hx.
  { unfold expand_name. intros e1 p1. destruct (_ <=? _); [|by intros [= _ <-]]. destruct (btf_get_function _ _) as [[n|]|]; [|by intros [= _ <-]|done].
    cbn. destruct strdup; by intros [= _ <-]. }
  destruct (expand_name b' strdup p) as [[e1 p1]|]; [|done]. specialize (Hx e1 p1 eq_refl). cbn [mbind option_bind].
  destruct (negb _); [by intros [= _ <-]|]. destruct (_ <=? _); [by intros [= _ <-]|].
  destruct (btf_get_datasec _ _) as [[vars|]|]; [|by intros [= _ <-]|done]. cbn [mbind option_bind]. destruct b' as [types|]; [|by intros [= _ <-]].
  destruct (btf_get_section_var _ _ _ _) as [[| |t]|]; [done|by intros [= _ <-]| |done]. cbn [mbind option_bind].
  destruct t; try (by intros [= _ <-]). intros E%parse_members_ident. destruct Hx, E. split; congruence.
Qed.

(** Files of different slots of a dispatcher have different names. *)
Lemma append_inv_tail s t u : s +:+ u = t +:+ u → s = t.
Proof.
  assert (∀ s t, String.list_ascii_of_string (s +:+ t) = String.list_ascii_of_string s ++ String.list_ascii_of_string t) as Happ
    by (intros s'; induction s' as [|c s' IH]; intros t'; [done|exact (f_equal (cons c) (IH t'))]).
  intros E%(f_equal String.list_ascii_of_string). rewrite !Happ in E. apply app_inv_tail in E.
  rewrite <- (String.string_of_list_ascii_of_string s), E. apply String.string_of_list_ascii_of_string.
Qed.
Lemma append_inv_head s t u : u +:+ s = u +:+ t → s = t.
Proof. induction u as [|c u IH]; [done|]. intros [= E]. by apply IH. Qed.
Lemma pinned_prog_inj dir (j1 j2 : nat) : pinned_prog dir j1 = pinned_prog dir j2 → j1 = j2.
Proof.
  unfold pinned_prog, prog_path. cbn [attach_name]. intros E%append_inv_head%append_inv_head%append_inv_tail%append_inv_head.
  apply (inj pretty) in E. lia.
Qed.

Section readback.
Context {K : Type} `{Kernel K} (env : kernel_ok).
Implicit Types w : world K.
(** A failure has an error number. *)
Context (dup_err : ∀ fd e (k k' : K), k_dupfd fd k = (inl e, k') → e ≠ 0).

Lemma kop_eq {A} (f : K → A * K) w w' x : kop f w = Some (x, w') → f (kern w) = (x, kern w').
Proof. unfold kop. destruct (f (kern w)). by intros [= <- <-]. Qed.

(** What the kernel, in the state [k], reports of the program behind the
    descriptor [fd]. *)
Definition reports (fd : Z) (k : K) (info : prog_info) (k' : K) : Prop :=
  ∃ fd', k_dupfd fd (k_alloc k).2 = (inr fd', k') ∧ k_prog_info fd' k' = inr info.
(** The object [p] was made from the descriptor [fd] in the state [k]: it has the
    identifier and the tag that the kernel reports.  (When the type information
    cannot be loaded the code leaves the object empty and reports no error.) *)
Definition read_from (fd : Z) (k : K) (p : xdp_program.t) : Prop :=
  ∃ info k', reports fd k info k' ∧
    (prog_id p = info_id info ∧ prog_tag p = info_tag info ∨
     info_btf_id info ≠ 0 ∧ k_btf_load (info_btf_id info) (k_alloc k').2 = None).
(** It was made from the file at [path]. *)
Definition pinned_at (path : string) (p : xdp_program.t) : Prop :=
  ∃ k fd k', k_obj_get path k = (inr fd, k') ∧ read_from fd k' p.

Lemma read_from_ident fd k p q : same_ident p q → read_from fd k p → read_from fd k q.
Proof. intros [E1 E2]. unfold read_from. by rewrite E1, E2. Qed.

Lemma fill_from_fd_inv fd k w q b w' : kern w = (k_alloc k).2 →
  fill_from_fd xdp_program__new fd w = Some ((0, q, b), w') → read_from fd k q.
Proof.
  intros Ek. unfold fill_from_fd. cbn [prog_name xdp_program__new]. change (streq "" "") with true. cbv iota.
  intros ([e|fd'] & w1 & E1%kop_eq & E)%pbind_inv; [injection E as E _ _ _; apply dup_err in E1; lia|].
  apply pbind_inv in E as ([e|info] & w2 & E2 & E); injection E2 as E2 <-.
  { apply pbind_inv in E as (? & ? & _ & E). injection E as E _ _ _. apply (prog_info_err env) in E2. lia. }
  apply pbind_inv in E as (ok & w3 & E0%kop_eq & E). destruct ok; cbn [negb] in E; [|apply pbind_inv in E as (? & ? & _ & [=])].
  apply pbind_inv in E as (bt & w4 & E3 & E). exists info, (kern w1). rewrite Ek in E1. split; [by exists fd'|]. rewrite E0.
  destruct bt as [[b'|]|]; [left; by injection E as <-| |left; by injection E as <-]. right.
  destruct (Z.eqb_spec (info_btf_id info) 0); cbn [negb andb] in E3; [by injection E3|]. split; [done|].
  destruct (negb _); [|by injection E3]. apply pbind_inv in E3 as (b' & w5 & E4 & E3). injection E4 as E4 <-. by injection E3 as ->.
Qed.

Lemma from_fd_inv fd w r w' : xdp_program__from_fd fd w = Some (r, w') →
  match r with inl e => e ≠ 0 | inr p => read_from fd (kern w) p end.
Proof.
  unfold xdp_program__from_fd. intros (ok & w1 & E0%kop_eq & E)%pbind_inv.
  assert (kern w1 = (k_alloc (kern w)).2) as Ek by (by rewrite E0).
  destruct ok; cbn [negb] in E; [|apply pbind_inv in E as (? & ? & _ & E); by injection E as <- _].
  apply pbind_inv in E as ([[err q] b] & w2 & E1 & E). destruct (Z.eqb_spec err 0) as [->|He]; cbn [negb] in E.
  2: { apply pbind_inv in E as (? & ? & _ & E). apply pbind_inv in E as (? & ? & _ & E). by injection E as <- _. }
  apply pbind_inv in E as ([e2 q2] & w3 & E2 & E). unfold parse_btf in E2. apply pbind_inv in E2 as (sd & w4 & _ & E2).
  destruct (xdp_program__parse_btf _ _ _ _) as [[e3 q3]|] eqn:Ep; [|done]. injection E2 as -> -> _. apply parse_btf_ident in Ep.
  destruct (Z.eqb_spec e2 0) as [->|He]; cbn [negb andb] in E.
  { injection E as <- _. eapply read_from_ident; [exact Ep|by eapply (fill_from_fd_inv _ _ _ _ _ _ Ek)]. }
  destruct (_ =? _); cbn [negb] in E; [injection E as <- _; eapply read_from_ident; [exact Ep|by eapply (fill_from_fd_inv _ _ _ _ _ _ Ek)]|].
  apply pbind_inv in E as (? & ? & _ & E). apply pbind_inv in E as (? & ? & _ & E). by injection E as <- _.
Qed.
Lemma from_pin_inv path w r w' : xdp_program__from_pin path w = Some (r, w') →
  match r with inl e => e ≠ 0 | inr p => pinned_at path p end.
Proof.
  unfold xdp_program__from_pin. intros ([e|fd] & w1 & E1%kop_eq & E)%pbind_inv.
  { apply pbind_inv in E as (? & ? & _ & E). injection E as <- _. apply (obj_get_err env) in E1. lia. }
  apply pbind_inv in E as (r' & w2 & E2%from_fd_inv & E). apply pbind_inv in E as (? & ? & _ & E). injection E as <- _.
  destruct r' as [e|p]; [done|]. by exists (kern w), fd, (kern w1).
Qed.

(** The programs that the loop over the pins adds. *)
Lemma link_pinned_inv dir (n : nat) : ∀ i m w m' w', link_pinned dir n i m w = Some ((0, m'), w') →
  xdp_multiprog.main_prog m' = xdp_multiprog.main_prog m ∧
  ∃ qs, length qs = n ∧ xdp_multiprog.first_prog m' = xdp_multiprog.first_prog m ++ qs ∧ xdp_multiprog.num_links m' = xdp_multiprog.num_links m + n ∧
    ∀ (j : nat) q, qs !! j = Some q → ∃ p, pinned_at (pinned_prog dir (i + j)) p ∧ q = slot_prog (xdp_multiprog.config m) (i + j) p.
Proof.
  induction n as [|n IH]; intros i m w m' w'; cbn [link_pinned].
  { intros [= <- _]. split; [done|]. exists []. rewrite app_nil_r. split_and!; [done|done|lia|done]. }
  destruct (Z.eqb_spec (try_path (pinned_prog dir i)) 0) as [_|He]; cbn [negb]; [|by intros [= ? _ _]].
  intros (r & w1 & E1%from_pin_inv & E)%pbind_inv. destruct r as [e|p]; [by injection E|]. apply pbind_inv in E as (ok & w2 & _ & E).
  destruct ok; cbn [negb] in E; [|done]. destruct (_ <=? _); [done|]. apply IH in E as (Hma & qs & Hl & Ef & En & Hq). split; [done|].
  exists (slot_prog (xdp_multiprog.config m) i p :: qs). split; [by cbn; rewrite Hl|]. split; [rewrite Ef; cbn; by rewrite <- app_assoc|].
  split; [rewrite En; cbn; lia|]. intros [|j] q Hj.
  - injection Hj as <-. rewrite Z.add_0_r. by exists p.
  - destruct (Hq j q Hj) as (p' & Hp & ->). exists p'. replace (i + Z.of_nat (S j)) with (i + 1 + Z.of_nat j) by lia. done.
Qed.

(** What the object of an interface holds, when reading it found a dispatcher
    with the configuration [c] and the main program [main]. *)
Definition holds_slots (i : Z) (c : dispatcher_config.t) (main : xdp_program.t) (m : mp_t) : Prop :=
  xdp_multiprog.num_links m = Z.of_nat (Z.to_nat (dispatcher_config.num_progs_enabled c)) ∧
  length (xdp_multiprog.first_prog m) = Z.to_nat (dispatcher_config.num_progs_enabled c) ∧
  ∃ k bpffs k', k_bpffs_dir k = (inr bpffs, k') ∧
    ∀ (j : nat) q, xdp_multiprog.first_prog m !! j = Some q →
      ∃ p, pinned_at (pinned_prog (pin_path bpffs i (prog_id main)) j) p ∧ q = slot_prog c j p.

Lemma link_pinned_progs_inv m w m' w' main : xdp_multiprog.main_prog m = Some main → xdp_multiprog.num_links m = 0 →
  xdp_multiprog__link_pinned_progs m w = Some ((0, m'), w') → xdp_multiprog.main_prog m' = Some main ∧ holds_slots (xdp_multiprog.ifindex m) (xdp_multiprog.config m) main m'.
Proof.
  intros Hm Hn. unfold xdp_multiprog__link_pinned_progs. case_bool_decide as Hf; [by intros [= _]|].
  assert (xdp_multiprog.first_prog m = []) as Hnil by (destruct (xdp_multiprog.first_prog m); [done|by destruct Hf]).
  intros ([e|bpffs] & w1 & E1%kop_eq & E)%pbind_inv; [injection E as E _ _; apply (bpffs_err env) in E1; lia|].
  rewrite Hm in E. set (dir := pin_path _ _ _) in *. destruct (Z.eqb_spec (try_path dir) 0) as [_|He]; cbn [negb] in E; [|by injection E as ? _ _].
  apply pbind_inv in E as (lock & w2 & _ & E). destruct (Z.ltb_spec lock 0) as [Hl|_]; [injection E as E _ _; lia|].
  apply pbind_inv in E as (st & w3 & _ & E). apply pbind_inv in E as ([err m1] & w4 & E2 & E).
  apply pbind_inv in E as (? & w5 & _ & E). injection E as -> -> _.
  destruct (Z.eqb_spec st 0) as [->|Hst]; cbn [negb] in E2; [|injection E2 as E2 _ _; lia].
  apply pbind_inv in E2 as ([err m2] & w6 & E3 & E2). destruct (Z.eqb_spec err 0) as [->|He]; cbn [negb] in E2.
  2: { apply pbind_inv in E2 as (? & ? & _ & E2). by injection E2. }
  injection E2 as -> _. destruct (link_pinned_inv _ _ _ _ _ _ _ E3) as (Hma & qs & Hlen & Ef & En & Hq). rewrite Hnil in Ef. cbn in Ef.
  split; [by rewrite Hma|]. split; [lia|]. split; [by rewrite Ef|]. exists (kern w), bpffs, (kern w1). split; [done|]. intros j q Hj. rewrite Ef in Hj. exact (Hq j q Hj).
Qed.

(** The configuration that was found, as bytes. *)
Lemma read_map_inv fd b w v c w' : read_dispatcher_map fd b w = Some (inr (v, c), w') →
  ∃ k buf, k_map_lookup fd k = inr buf ∧ (nth 0 buf 0 = XDP_DISPATCHER_MAGIC → nth 1 buf 0 = XDP_DISPATCHER_VERSION → c = config_of_bytes buf).
Proof.
  unfold read_dispatcher_map. intros (d & w1 & _ & E)%pbind_inv. destruct d as [|d]; [done|]. destruct (_ || _); [done|].
  apply pbind_inv in E as (ok & w2 & _ & E). destruct ok; cbn [negb] in E; [|done]. apply pbind_inv in E as ([e|buf] & w3 & E3 & E); [done|].
  injection E3 as E3 <-. exists (kern w2), buf. split; [done|]. intros Hm Hv. rewrite Hm in E.
  apply pbind_inv in E as (ver & w4 & E4 & E). change (XDP_DISPATCHER_MAGIC =? XDP_DISPATCHER_MAGIC) with true in E4. injection E4 as <- <-. rewrite Hv in E.
  change (XDP_DISPATCHER_VERSION =? XDP_DISPATCHER_VERSION_V1) with false in E. change (XDP_DISPATCHER_VERSION =? XDP_DISPATCHER_VERSION) with true in E.
  cbv iota in E. destruct (negb _); [done|]. by injection E.
Qed.

(** The bytes in the map of the dispatcher with the identifier [id], whose
    object is [main]. *)
Definition config_in_map (id : Z) (k : K) (main : xdp_program.t) (buf : list Z) : Prop :=
  ∃ k0 fd k1 info k2 mfd k3 k4, k_prog_fd_by_id id k = (inr fd, k0) ∧ (∃ k', read_from fd k' main) ∧ k_prog_info fd k1 = inr info ∧
    info_name info = "xdp_dispatcher"%string ∧ k_map_fd_by_id (info_map_id info) k2 = (inr mfd, k3) ∧ k_map_lookup mfd k4 = inr buf.

Lemma fill_main_inv i fd v c w m w' : fill_main (new_mp i) fd (Some (v, c)) w = Some ((0, m), w') → xdp_multiprog.is_legacy m = false →
  ∃ main, (∃ k, read_from fd k main) ∧ xdp_multiprog.main_prog m = Some main ∧ holds_slots i c main m.
Proof.
  unfold fill_main. cbn [default from_option]. unfold id. rewrite bool_decide_eq_false_2 by done. intros (r & w1 & E1%from_fd_inv & E)%pbind_inv.
  destruct r as [e|p]; [injection E as E _ _; done|]. apply pbind_inv in E as ([err m1] & w2 & E2 & E). injection E as <- _. intros Hl.
  destruct (Z.eqb_spec err 0) as [->|]; [|done]. exists p. split; [by eexists|].
  by apply (link_pinned_progs_inv _ w1 m1 w2 p) in E2.
Qed.
Lemma fill_hw_inv m fd w m' w' : fill_hw m fd w = Some ((0, m'), w') →
  xdp_multiprog.main_prog m' = xdp_multiprog.main_prog m ∧ xdp_multiprog.first_prog m' = xdp_multiprog.first_prog m ∧
  xdp_multiprog.num_links m' = xdp_multiprog.num_links m ∧ (xdp_multiprog.is_legacy m' = false → xdp_multiprog.is_legacy m = false).
Proof.
  unfold fill_hw. destruct (0 <? fd); [|by intros [= <- _]]. intros (r & w1 & E1%from_fd_inv & E)%pbind_inv.
  destruct r as [e|p]; [by injection E|]. injection E as <- _. split; [done|]. split; [done|]. split; [done|]. cbn. by intros [? _]%orb_false_iff.
Qed.

Lemma dispatcher_of_inv info w v c w' : dispatcher_of info w = Some (inr (Some (v, c)), w') →
  info_name info = "xdp_dispatcher"%string ∧ ∃ k2 mfd k3 k4 buf, k_map_fd_by_id (info_map_id info) k2 = (inr mfd, k3) ∧ k_map_lookup mfd k4 = inr buf ∧
    (nth 0 buf 0 = XDP_DISPATCHER_MAGIC → nth 1 buf 0 = XDP_DISPATCHER_VERSION → c = config_of_bytes buf).
Proof.
  unfold dispatcher_of. destruct (_ =? 0); [done|]. intros (b & w1 & _ & E)%pbind_inv. destruct b as [b|]; [|done].
  apply pbind_inv in E as (r & w2 & E1 & E). destruct r as [e|vc]; [destruct (e =? _); by injection E|]. injection E as -> _.
  unfold check_dispatcher_version in E1. destruct (streq (info_name info) "xdp_dispatcher") eqn:En; cbn [negb] in E1; [|done].
  apply bool_decide_eq_true in En. split; [done|]. destruct (negb _); [done|].
  apply pbind_inv in E1 as ([e|mfd] & w3 & E2%kop_eq & E1); [done|]. apply pbind_inv in E1 as (r & w4 & E3 & E1).
  apply pbind_inv in E1 as (? & ? & _ & E1). injection E1 as -> _. apply read_map_inv in E3 as (k & buf & Hb & Hc). by exists (kern w1), mfd, (kern w3), k, buf.
Qed.

Lemma from_fds_inv fd hw i w m w' : xdp_multiprog__from_fd fd hw i w = Some (inr m, w') →
  xdp_multiprog.is_legacy m = false → xdp_multiprog.main_prog m ≠ None →
  ∃ main k1 info k2 mfd k3 k4 buf c, xdp_multiprog.main_prog m = Some main ∧ (∃ k, read_from fd k main) ∧ k_prog_info fd k1 = inr info ∧
    info_name info = "xdp_dispatcher"%string ∧ k_map_fd_by_id (info_map_id info) k2 = (inr mfd, k3) ∧ k_map_lookup mfd k4 = inr buf ∧ 0 < fd ∧
    (nth 0 buf 0 = XDP_DISPATCHER_MAGIC → nth 1 buf 0 = XDP_DISPATCHER_VERSION → c = config_of_bytes buf) ∧ holds_slots i c main m.
Proof.
  unfold xdp_multiprog__from_fd. intros (ok & w1 & _ & E)%pbind_inv Hl Hm. destruct ok; cbn [negb] in E; [|done].
  apply pbind_inv in E as ([err m1] & w2 & E1 & E). destruct (Z.eqb_spec err 0) as [->|]; cbn [negb] in E.
  2: { do 3 apply pbind_inv in E as (? & ? & _ & E). done. }
  injection E as -> _. unfold xdp_multiprog__fill_from_fd in E1. destruct (Z.ltb_spec 0 fd) as [Hfd|_].
  2: { apply fill_hw_inv in E1 as (E1 & _). by rewrite E1 in Hm. }
  apply pbind_inv in E1 as ([e|info] & w3 & E2 & E1); [done|]. injection E2 as E2 <-.
  apply pbind_inv in E1 as (d & w4 & E3 & E1). destruct d as [e|disp]; [injection E1 as -> <- _; by destruct Hm|].
  apply pbind_inv in E1 as ([err m2] & w5 & E4 & E1). destruct (Z.eqb_spec err 0) as [->|]; cbn [negb] in E1; [|by injection E1].
  apply fill_hw_inv in E1 as (Em & Ef & En & Hle). specialize (Hle Hl). destruct disp as [[v c]|].
  - apply dispatcher_of_inv in E3 as (Hname & k2 & mfd & k3 & k4 & buf & H1 & H2 & H3). destruct (fill_main_inv _ _ _ _ _ _ _ E4 Hle) as (main & Hr & Hma & Hs).
    exists main, (kern w1), info, k2, mfd, k3, k4, buf, c. rewrite Em. split_and!; try done.
    destruct Hs as (S1 & S2 & S3). unfold holds_slots. by rewrite En, Ef.
  - exfalso. unfold fill_main in E4. cbn [default from_option] in E4. rewrite bool_decide_eq_true_2 in E4 by done.
    apply pbind_inv in E4 as (r & w6 & _ & E4). destruct r as [e|p]; injection E4; intros; subst; done.
Qed.

(** C22: when reading the dispatcher of an interface finds one, with a main program
    and not a single old-style program, then its configuration was read from the map
    of the program with that identifier; and if this holds what the library writes
    for a list of programs, the object has as many programs as the list, in the slot
    [j] that with the priority and the actions of the list's, whose identifier and
    tag are those of the program pinned as [prog<j>-prog] in the directory of that
    dispatcher.  (The last is not known of a program whose type information cannot
    be loaded, which the code takes for an empty one.) *)
Theorem from_id_reads_back id hid i w w' m :
  xdp_multiprog__from_id id hid i w = Some (inr m, w') →
  xdp_multiprog.is_legacy m = false → xdp_multiprog.main_prog m ≠ None →
  ∃ main buf, xdp_multiprog.main_prog m = Some main ∧ config_in_map id (kern w) main buf ∧
    ∀ frags ps, (length ps ≤ 10)%nat → Forall meta_ok ps → buf = config_bytes XDP_DISPATCHER_VERSION (make_config frags ps) →
      meta <$> xdp_multiprog.first_prog m = meta <$> ps ∧ xdp_multiprog.num_links m = length ps ∧
      ∃ k bpffs k', k_bpffs_dir k = (inr bpffs, k') ∧ ∀ (j : nat) q, xdp_multiprog.first_prog m !! j = Some q →
        pinned_at (pinned_prog (pin_path bpffs i (prog_id main)) j) q.
Proof.
  unfold xdp_multiprog__from_id. intros (fr & w1 & E1 & E)%pbind_inv Hl Hm. destruct fr as [e|fd]; [done|].
  apply pbind_inv in E as (hr & w2 & _ & E). destruct hr as [e|hw]; [apply pbind_inv in E as (? & ? & _ & E); done|].
  apply pbind_inv in E as (r & w3 & E3 & E). do 2 apply pbind_inv in E as (? & ? & _ & E). injection E as -> _.
  destruct (from_fds_inv _ _ _ _ _ _ E3 Hl Hm) as (main & k1 & info & k2 & mfd & k3 & k4 & buf & c & Hma & Hr & Hi & Hn & Hmf & Hb & Hfd & Hc & S1 & S2 & k & bpffs & k' & Hbp & Hq).
  exists main, buf. split; [done|]. split.
  { unfold fd_of_id in E1. destruct (id =? 0); [injection E1 as <- _; lia|]. apply kop_eq in E1. by exists (kern w1), fd, k1, info, k2, mfd, k3, k4. }
  intros frags ps Hlen Hps ->. specialize (Hc eq_refl eq_refl). subst c.
  assert (dispatcher_config.num_progs_enabled (config_of_bytes (config_bytes XDP_DISPATCHER_VERSION (make_config frags ps))) = length ps) as En
    by (by rewrite config_decode by by apply make_config_ok).
  rewrite En, Nat2Z.id in *. split; [|split; [lia|]].
  - apply list_eq. intros j. rewrite !list_lookup_fmap. destruct (xdp_multiprog.first_prog m !! j) as [q|] eqn:Eq.
    + destruct (Hq j q Eq) as (p & _ & ->). destruct (lookup_lt_is_Some_2 ps j) as [p' Ep]; [apply lookup_lt_Some in Eq; lia|]. rewrite Ep.
      cbn [fmap option_fmap option_map]. by rewrite (slot_readback frags _ ps j p') by done.
    + apply lookup_ge_None in Eq. by rewrite (lookup_ge_None_2 ps) by lia.
  - exists k, bpffs, k'. split; [done|]. intros j q Eq. destruct (Hq j q Eq) as (p & (k5 & fd5 & k6 & Hg & Hrf) & ->). exists k5, fd5, k6. split; [done|].
    by apply (read_from_ident _ _ p).
Qed.

(** ** Dispatchers that hold no program twice

    What the kernel reports of the program behind the file at [path]. *)
Definition pin_reports (path : string) (info : prog_info) (k : K) : Prop :=
  ∃ k0 fd k1, k_obj_get path k0 = (inr fd, k1) ∧ reports fd k1 info k.

(** Different files hold different programs, whose type information can be
    loaded. *)
Record pinned_once : Prop := {
  once_id : ∀ path path' info info' k k', pin_reports path info k → pin_reports path' info' k' →
    path ≠ path' → info_id info ≠ info_id info';
  once_btf : ∀ path info k, pin_reports path info k → info_btf_id info ≠ 0 →
    k_btf_load (info_btf_id info) (k_alloc k).2 ≠ None }.
Context (once : pinned_once).

Lemma pinned_at_id path p : pinned_at path p → ∃ info k, pin_reports path info k ∧ prog_id p = info_id info.
Proof.
  intros (k & fd & k1 & E & info & k2 & Hr & [[Hid _]|[Hb Hn]]); exists info, k2;
    assert (pin_reports path info k2) as Hp by (by exists k, fd, k1); [done|].
  by destruct (once_btf once _ _ _ Hp Hb).
Qed.

Lemma pinned_once_distinct id hid i w w' m :
  xdp_multiprog__from_id id hid i w = Some (inr m, w') → xdp_multiprog.is_legacy m = false → distinct m.
Proof.
  intros E Hl. unfold distinct.
  pose proof (keeps_from_id_ok (meta <$> heap w) any env (mps w) id hid i w eq_refl (conj eq_refl (λ _ _ _, I))) as Hk.
  unfold wp in Hk. rewrite E in Hk. destruct Hk as ((_ & Hk) & _). destruct (Hk m eq_refl) as (_ & _ & Hr).
  destruct (Hr Hl) as (_ & He & _). destruct (xdp_multiprog.main_prog m) as [main|] eqn:Em; [clear Hk Hr He|rewrite He by done; constructor].
  assert (xdp_multiprog.main_prog m ≠ None) as Hm by (by rewrite Em). clear Em main.
  unfold xdp_multiprog__from_id in E. apply pbind_inv in E as ([e|fd] & w1 & _ & E); [done|].
  apply pbind_inv in E as (hr & w2 & _ & E). destruct hr as [e|hw]; [apply pbind_inv in E as (? & ? & _ & E); done|].
  apply pbind_inv in E as (r & w3 & E3 & E). do 2 apply pbind_inv in E as (? & ? & _ & E). injection E as -> _.
  destruct (from_fds_inv _ _ _ _ _ _ E3 Hl Hm) as (main & _ & _ & _ & _ & _ & _ & _ & c & _ & _ & _ & _ & _ & _ & _ & _ & _ & _ & k & bpffs & k' & _ & Hq).
  apply NoDup_alt. intros j1 j2 y. rewrite !list_lookup_fmap, !fmap_Some. intros (q1 & Hq1 & ->) (q2 & Hq2 & Hid).
  destruct (Hq j1 q1 Hq1) as (p1 & (info1 & k1 & Hr1 & Hi1)%pinned_at_id & ->), (Hq j2 q2 Hq2) as (p2 & (info2 & k2 & Hr2 & Hi2)%pinned_at_id & ->).
  cbn in Hid. destruct (decide (j1 = j2)) as [|Hne]; [done|]. exfalso.
  apply (once_id once _ _ _ _ _ _ Hr1 Hr2); [by intros ?%pinned_prog_inj|congruence].
Qed.

Lemma pinned_once_reads i w : ¬ reads_twice i w.
Proof.
  intros (a & w' & m & E & Ha & Hl & Hd). destruct (run_spec any 0 _ _ w
    (spec_get_retry _ _ (λ m, xdp_multiprog.is_legacy m = false → distinct m) ltac:(done) (λ _, True) ltac:(done)
      (λ μ id hid i _, keeps_from_id _ _ env _ μ id hid i (pinned_once_distinct id hid i)) (mps w) MAX_RETRY i (0, 0, XDP_MODE_UNSPEC) Logic.I))
    as (r & w1 & E' & HQ & _); [done|]. fold (xdp_multiprog__get_from_ifindex i) in E'. rewrite E in E'.
  injection E' as <- <-. destruct HQ as (m' & _ & Em & Hm). rewrite Em, lookup_insert_eq in Ha. injection Ha as <-. by apply Hd, Hm.
Qed.
End readback.

(** ** Witnesses *)

Lemma config_readback_witness :
  let ps := [sample_prog 7 50; sample_prog 8 60] in
  let c := config_of_bytes (config_bytes 2 (make_config true ps)) in
  dispatcher_config.num_progs_enabled c = 2 ∧ run_prio (slot_prog c 1 sample_new) = 60.
Proof.
  assert (Forall meta_ok [sample_prog 7 50; sample_prog 8 60]) as Hps by (repeat constructor; by cbn).
  destruct (config_readback true 2 [sample_prog 7 50; sample_prog 8 60] 1%nat (sample_prog 8 60) sample_new ltac:(cbn; lia) Hps eq_refl) as [H1 H2].
  split; [exact H1|]. exact (f_equal run_prio H2).
Defined.

(** The dispatcher 5 of interface 3 has one program, which is pinned with the
    identifier 7. *)
Lemma from_id_reads_back_witness :
  ∃ m w' main buf, xdp_multiprog__from_id (H := sample_kernel) 5 0 3 (sample_world false) = Some (inr m, w') ∧
    config_in_map (H := sample_kernel) 5 false main buf ∧ meta <$> xdp_multiprog.first_prog m = [(50, 4)] ∧
    ∃ q, xdp_multiprog.first_prog m !! 0%nat = Some q ∧ prog_id q = 7 ∧
      pinned_at (H := sample_kernel) "/sys/fs/bpf/xdp/dispatch-3-5/prog0-prog" q.
Proof.
  assert (∃ m w', xdp_multiprog__from_id (H := sample_kernel) 5 0 3 (sample_world false) = Some (inr m, w') ∧
    xdp_multiprog.is_legacy m = false ∧ xdp_multiprog.main_prog m ≠ None ∧ prog_id <$> xdp_multiprog.main_prog m = Some 5 ∧
    prog_id <$> xdp_multiprog.first_prog m = [7]) as (m & w' & E & Hl & Hm & Hi & Hid)
    by (eexists _, _; split; [vm_compute; reflexivity|done]).
  destruct (from_id_reads_back (H := sample_kernel) sample_kernel_ok ltac:(by intros fd e k k' [=]) 5 0 3 (sample_world false) w' m E Hl Hm)
    as (main & buf & Hma & Hc & Hp).
  exists m, w', main, buf. split; [exact E|]. split; [exact Hc|]. destruct Hc as (k0 & fd & k1 & info & k2 & mfd & k3 & k4 & _ & _ & _ & _ & _ & Hb).
  injection Hb as <-.
  destruct (Hp false [sample_prog 7 50] ltac:(cbn; lia) ltac:(repeat constructor; by cbn) eq_refl) as (Hmeta & _ & k & bpffs & k' & Hd & Hpins).
  split; [exact Hmeta|]. injection Hd as <- _. rewrite Hma in Hi. injection Hi as Hi.
  destruct (xdp_multiprog.first_prog m) as [|q l]; [discriminate Hid|]. injection Hid as Hq _. exists q. split; [reflexivity|]. split; [exact Hq|].
  specialize (Hpins 0%nat q eq_refl). rewrite Hi in Hpins. exact Hpins.
Defined.
