(* ===== verification/Loader.v ===== *)
(** * The loader of [src/src/common] and [src/src/xdp/xdp_pass_user.c]

    [Maps]: opening and checking pinned maps ([common_user_bpf_xdp.c]).
    [Unload]: taking programs off an interface, loading and attaching one, and
    the main function of [xdp_pass_user], on top of the model of libxdp. *)

From S2P Require Import Prelude CString Errno Packet Params Libxdp Multiprog MultiprogSpec.
Local Open Scope Z_scope.

Module Maps.

(** ** Names of verdicts *)
Definition XDP_UNKNOWN : Z := XDP_REDIRECT + 1.
Definition XDP_ACTION_MAX : Z := XDP_UNKNOWN + 1.
Definition xdp_action_names : list string :=
  ["XDP_ABORTED"; "XDP_DROP"; "XDP_PASS"; "XDP_TX"; "XDP_REDIRECT"; "XDP_UNKNOWN"].

(** An index outside the array would be [None] in [Some None]. *)
Definition action2str (action : Z) : option (option string) :=
  if action <? XDP_ACTION_MAX then Some (xdp_action_names !! Z.to_nat action) else None.

(** ** [struct bpf_map_info] as far as it is compared *)
Record bpf_map_info := mk_map_info { mtype : Z; key_size : Z; value_size : Z; max_entries : Z }.

Definition check_map_fd_info (info exp : bpf_map_info) : Z :=
  if negb (key_size exp =? 0) && negb (key_size exp =? key_size info) then EXIT_FAIL
  else if negb (value_size exp =? 0) && negb (value_size exp =? value_size info) then EXIT_FAIL
  else if negb (max_entries exp =? 0) && negb (max_entries exp =? max_entries info) then EXIT_FAIL
  else if negb (mtype exp =? 0) && negb (mtype exp =? mtype info) then EXIT_FAIL
  else 0.

Section pinned.
(** [bpf_obj_get] of a path, [bpf_map__reuse_fd] of a map and a descriptor, and
    [bpf_obj_get_info_by_fd]: a negative number or a non-zero one is an error. *)
Context (bpf_obj_get : string → Z) (bpf_map__reuse_fd : string → Z → Z)
        (bpf_obj_get_info_by_fd : Z → Z + bpf_map_info).

(** The text [snprintf] leaves in a buffer of [PATH_MAX] bytes. *)
Definition path_buf (dir name : string) : string :=
  String.substring 0 (Z.to_nat (PATH_MAX - 1)) (path_join dir name).

(** The loop over the maps of the object: the result, and the maps whose
    descriptor was replaced. *)
Fixpoint reuse_loop (maps : list string) (path : string) : Z * list (string * Z) :=
  match maps with
  | [] => (0, [])
  | name :: maps =>
    let len := strlen (path_join path name) in
    if PATH_MAX <=? len then (- ENAMETOOLONG, [])
    else
      let pinned_map_fd := bpf_obj_get (path_buf path name) in
      if pinned_map_fd <? 0 then (pinned_map_fd, [])
      else
        let err := bpf_map__reuse_fd name pinned_map_fd in
        if negb (err =? 0) then (err, [])
        else let (r, done) := reuse_loop maps path in (r, (name, pinned_map_fd) :: done)
  end.

Definition reuse_maps (obj : option (list string)) (path : option string) : Z * list (string * Z) :=
  match obj, path with
  | None, _ => (- ENOENT, [])
  | Some _, None => (- EINVAL, [])
  | Some maps, Some path => reuse_loop maps path
  end.

(** [open_bpf_map_file]; [info] is whether the caller wants the information.
    The path is not checked against the size of the buffer. *)
Definition open_bpf_map_file (pin_dir mapname : string) (info : bool) : Z * option bpf_map_info :=
  let fd := bpf_obj_get (path_buf pin_dir mapname) in
  if fd <? 0 then (fd, None)
  else if info then
    match bpf_obj_get_info_by_fd fd with
    | inl _ => (EXIT_FAIL_BPF, None)
    | inr i => (fd, Some i)
    end
  else (fd, None).

Lemma substring_all n s : (String.length s ≤ n)%nat → String.substring 0 n s = s.
Proof.
  revert n. induction s as [|c s IH]; intros [|n] Hn; cbn in *; try done; [lia|].
  f_equal. apply IH. lia.
Qed.

Lemma length_substring_0 n s : (n ≤ String.length s)%nat → String.length (String.substring 0 n s) = n.
Proof.
  revert n. induction s as [|c s IH]; intros [|n] Hn; cbn in *; try done; [lia|]. f_equal. apply IH. lia.
Qed.

Lemma path_buf_short dir name : strlen (path_join dir name) < PATH_MAX → path_buf dir name = path_join dir name.
Proof. intros H. apply substring_all. unfold strlen, PATH_MAX in *. lia. Qed.

(** [reuse_maps] returns 0 exactly when every map of the object has a path
    that fits, a pinned file that opens, and accepts its descriptor; then every
    map, in order, has the descriptor of its own pinned file.  Otherwise the
    maps before the first failing one have theirs. *)
Theorem reuse_maps_all maps path :
  let ok name := strlen (path_join path name) < PATH_MAX ∧
    0 ≤ bpf_obj_get (path_join path name) ∧
    bpf_map__reuse_fd name (bpf_obj_get (path_join path name)) = 0 in
  let entry name := (name, bpf_obj_get (path_join path name)) in
  ((reuse_maps (Some maps) (Some path)).1 = 0 ↔ Forall ok maps) ∧
  ∃ k, (reuse_maps (Some maps) (Some path)).2 = entry <$> take k maps ∧
    ((reuse_maps (Some maps) (Some path)).1 = 0 → (length maps ≤ k)%nat).
Proof.
  intros ok entry. cbn [reuse_maps]. induction maps as [|name maps (IH1 & k & IH2 & IH3)]; cbn [reuse_loop].
  { split; [by split|]. by exists 0%nat. }
  destruct (Z.leb_spec PATH_MAX (strlen (path_join path name))).
  { split; [|exists 0%nat; split; [done|]; intros [=]].
    split; [intros [=]|]. intros (? & _)%Forall_cons. unfold ok in *. lia. }
  rewrite path_buf_short by done.
  destruct (Z.ltb_spec (bpf_obj_get (path_join path name)) 0).
  { split; [|exists 0%nat; split; [done|]; cbn; lia].
    split; [cbn; lia|]. intros (? & _)%Forall_cons. unfold ok in *. lia. }
  destruct (Z.eqb_spec (bpf_map__reuse_fd name (bpf_obj_get (path_join path name))) 0); cbn [negb].
  2:{ split; [|exists 0%nat; split; [done|]; done]. split; [done|]. intros ((? & ? & ?) & _)%Forall_cons. done. }
  destruct (reuse_loop maps path) as [r l] eqn:E. cbn [fst snd] in *. split.
  - rewrite Forall_cons, <- IH1. unfold ok. split; [|tauto]. intros ->. split; [|done]. by repeat split.
  - exists (S k). cbn. rewrite IH2. split; [done|]. intros Hr. specialize (IH3 Hr). cbn. lia.
Qed.

(** [open_bpf_map_file] fails visibly only when the file does not open.
    A path that does not fit is cut off and the cut path is opened; and when
    the information cannot be read the result is the positive
    [EXIT_FAIL_BPF], which a caller testing for a negative number takes for a
    descriptor. *)
Theorem open_bpf_map_file_results dir name info :
  let fd := bpf_obj_get (path_buf dir name) in
  let r := open_bpf_map_file dir name info in
  (r.1 < 0 ↔ fd < 0) ∧
  (0 ≤ fd → info = true → ∀ e, bpf_obj_get_info_by_fd fd = inl e → r = (EXIT_FAIL_BPF, None)) ∧
  (0 ≤ fd → info = true → ∀ i, bpf_obj_get_info_by_fd fd = inr i → r = (fd, Some i)) ∧
  (strlen (path_join dir name) < PATH_MAX → path_buf dir name = path_join dir name) ∧
  (PATH_MAX ≤ strlen (path_join dir name) → strlen (path_buf dir name) = PATH_MAX - 1).
Proof.
  intros fd r. unfold r, open_bpf_map_file. fold fd. split; [|split; [|split; [|split]]].
  - destruct (Z.ltb_spec fd 0); [cbn; lia|]. destruct info; [|cbn; lia].
    destruct (bpf_obj_get_info_by_fd fd); cbn; unfold EXIT_FAIL_BPF; lia.
  - intros Hfd -> e He. rewrite (proj2 (Z.ltb_ge _ _)) by done. by rewrite He.
  - intros Hfd -> i Hi. rewrite (proj2 (Z.ltb_ge _ _)) by done. by rewrite Hi.
  - apply path_buf_short.
  - unfold path_buf, strlen. generalize (path_join dir name). intros s Hs.
    rewrite length_substring_0; unfold PATH_MAX in *; lia.
Qed.

End pinned.

(** The four fields are each compared unless the expected one is zero. *)
Lemma check_map_fd_info_ok info exp :
  check_map_fd_info info exp = 0 ↔
  (key_size exp = 0 ∨ key_size exp = key_size info) ∧
  (value_size exp = 0 ∨ value_size exp = value_size info) ∧
  (max_entries exp = 0 ∨ max_entries exp = max_entries info) ∧
  (mtype exp = 0 ∨ mtype exp = mtype info).
Proof.
  unfold check_map_fd_info, EXIT_FAIL.
  repeat match goal with |- context [?a =? ?b] => destruct (Z.eqb_spec a b) end; cbn; lia.
Qed.

Lemma action2str_total action : 0 ≤ action → action2str action ≠ Some None.
Proof.
  intros H. unfold action2str. destruct (Z.ltb_spec action XDP_ACTION_MAX) as [Hlt|]; [|done].
  intros [= E]. apply lookup_ge_None in E. cbn in E. unfold XDP_ACTION_MAX, XDP_UNKNOWN, XDP_REDIRECT in Hlt. lia.
Qed.

End Maps.

Module Unload.
Import xdp_program.

Definition EXIT_FAILURE : Z := 1.
Definition EXIT_SUCCESS : Z := 0.

Section loader.
Context {K : Type} `{Kernel K}.

(** [libxdp_get_error]. *)
Definition libxdp_get_error {A} (p : ptr A) : M K Z :=
  match p with
  | Ptr _ => pret 0
  | ErrPtr e => set_errno (- e) ;;; pret e
  | Null => let! w := pget in pret (- errno w)
  end.

(** A program object owned by a dispatcher has an address of its own; it is
    lent to the call. *)
Definition with_prog {A} (p : xdp_program.t) (k : nat → M K A) : M K A := λ w,
  let a := fresh (dom (heap w)) in
  match k a (mk_world (kern w) (errno w) (<[a := p]> (heap w)) (mps w) (calls w)) with
  | Some (r, w') => Some (r, mk_world (kern w') (errno w') (delete a (heap w')) (mps w') (calls w'))
  | None => None
  end.

(** The search of [do_unload]: the program to detach, possibly a null pointer,
    and the mode; [None] is the message that it is not loaded. *)
Definition find_unload (mp : ptr nat) (id : Z) : M K (option (ptr xdp_program.t * xdp_attach_mode)) :=
  let! fuel := next_fuel mp in
  let! found := find_prog fuel None mp id in
  match found with
  | Some p => let! mode := xdp_multiprog__attach_mode mp in pret (Some (Ptr p, mode))
  | None =>
    let! legacy := xdp_multiprog__is_legacy mp in
    let! main := (if legacy then xdp_multiprog__main_prog mp else pret Null) in
    if legacy && (xdp_program__id main =? id) then
      let! mode := xdp_multiprog__attach_mode mp in pret (Some (main, mode))
    else
      let! hw := xdp_multiprog__hw_prog mp in
      if xdp_program__id hw =? id then pret (Some (hw, XDP_MODE_HW)) else pret None
  end.

Definition detach_found (prog : ptr xdp_program.t) (ifindex : Z) (mode : xdp_attach_mode) : M K Z :=
  match prog with
  | Ptr p => with_prog p (λ a, xdp_program__detach (Ptr a) ifindex mode 0)
  | Null => xdp_program__detach Null ifindex mode 0
  | ErrPtr e => xdp_program__detach (ErrPtr e) ifindex mode 0
  end.

Definition do_unload (cfg : config) : M K Z :=
  let! mp := xdp_multiprog__get_from_ifindex (Params.ifindex cfg) in
  let! e := libxdp_get_error mp in
  let! err :=
    (if negb (e =? 0) then pret EXIT_FAILURE
     else if is_null mp then pret EXIT_FAILURE
     else if unload_all cfg then xdp_multiprog__detach mp
     else
       let! f := find_unload mp (Params.prog_id cfg) in
       match f with
       | Some (prog, mode) => detach_found prog (Params.ifindex cfg) mode
       | None => pret (- ENOENT)
       end) in
  xdp_multiprog__close mp ;;;
  pret (if negb (err =? 0) then EXIT_FAILURE else EXIT_SUCCESS).

(** ** Loading and attaching *)

(** How a call ends: it returns, or the process exits. *)
Inductive ends (A : Type) := Returned (a : A) | Exits (code : Z).
Arguments Returned {A}.
Arguments Exits {A}.

(** [xdp_program__create] from a file and a program name; the object file is
    the environment's. *)
Context (open_file : list ascii → list ascii → K → (Z + xdp_program.t) * K).

Definition create (file name : list ascii) : M K (ptr xdp_program.t) :=
  let! r := kop (open_file file name) in
  match r with inl e => libxdp_err_ptr e true | inr p => pret (Ptr p) end.

(** The program object lives until the process ends. *)
Definition keep_prog (p : xdp_program.t) : M K nat := λ w,
  let a := fresh (dom (heap w)) in
  Some (a, mk_world (kern w) (errno w) (<[a := p]> (heap w)) (mps w) (calls w)).

Definition keep_ptr (prog : ptr xdp_program.t) : M K (ptr nat) :=
  match prog with
  | Ptr p => let! a := keep_prog p in pret (Ptr a)
  | ErrPtr e => pret (ErrPtr e)
  | Null => pret Null
  end.
Definition prog_fd_of (prog : ptr nat) : M K Z :=
  match prog with
  | Ptr a => let! p := deref a in pret (xdp_program__fd (Ptr p))
  | _ => set_errno ENOENT ;;; pret (-1)
  end.

Definition load_bpf_and_xdp_attach (cfg : config) : M K (ends (ptr nat)) :=
  let! prog := create (filename cfg) (progname cfg) in
  let! err := libxdp_get_error prog in
  if negb (err =? 0) then pret (Exits EXIT_FAIL_BPF)
  else
    let! prog := keep_ptr prog in
    let! err := xdp_program__attach prog (Params.ifindex cfg) (Params.attach_mode cfg) 0 in
    if negb (err =? 0) then pret (Exits err)
    else
      let! fd := prog_fd_of prog in
      if fd <? 0 then pret (Exits EXIT_FAIL_BPF) else pret (Returned prog).

(** [main] of [xdp_pass_user]; [opts] are the options in the order [getopt_long]
    delivers them.  The result is the value returned to the C runtime. *)
Definition str_buf (s : string) : list ascii := chars s ++ [NUL].

Definition main_load (cfg : config) : M K Z :=
  let! prog := create (str_buf "xdp_pass_kern.o") (str_buf "xdp_prog_simple") in
  let! err := libxdp_get_error prog in
  if negb (err =? 0) then pret err
  else
    let! prog := keep_ptr prog in
    let! err := xdp_program__attach prog (Params.ifindex cfg) (Params.attach_mode cfg) 0 in
    if negb (err =? 0) then pret err
    else
      let! fd := prog_fd_of prog in
      let! info := kread (k_prog_info fd) in
      match info with
      | inl e => pret (- e)
      | inr _ => pret EXIT_OK
      end.

(** [bare] is whether there are no arguments at all, so that the full usage text is
    printed when the device is missing. *)
Definition main (if_nametoindex : string → Z) (argv0 : string) (malloc_ok bare : bool) (opts : list (Z * string)) : M K Z :=
  match parse_cmdline_args if_nametoindex argv0 pass_doc pass_long_options malloc_ok opts pass_config true with
  | None => pfault
  | Some (Exited code _) => pret code
  | Some (Configured cfg _) =>
    if Params.ifindex cfg =? -1 then
      match usage argv0 pass_doc pass_long_options bare with Some _ => pret EXIT_FAIL_OPTION | None => pfault end
    else if Params.do_unload cfg || unload_all cfg then
      let! err := do_unload cfg in
      if negb (err =? 0) then pret err else pret EXIT_OK
    else main_load cfg
  end.

(** ** Specifications *)

Section specs.
Context (ρ : gmap nat (Z * Z)).
Local Abbreviation spec := (MultiprogSpec.spec (K := K) ρ any).
Local Abbreviation keeps := (MultiprogSpec.keeps (K := K) ρ any).

Lemma keeps_get_error {A} μ (p : ptr A) :
  keeps μ 0 (libxdp_get_error p) (λ e, ∀ a, p = Ptr a → e = 0).
Proof.
  destruct p as [|e|a]; cbn [libxdp_get_error].
  - eapply keeps_bind0; [apply keeps_get|]. intros w _. by apply keeps_pret.
  - eapply keeps_bind0; [apply keeps_set_errno|]. intros _ _. by apply keeps_pret.
  - by apply keeps_pret.
Qed.

(** The programs of [mp] that the [while] loop visits. *)
Definition visited (m : mp_t) : list xdp_program.t :=
  if xdp_multiprog.is_legacy m then [] else xdp_multiprog.first_prog m.

Lemma keeps_next_prog μ a m prog :
  μ !! a = Some m →
  keeps μ 0 (xdp_multiprog__next_prog prog (Ptr a)) (λ r,
    let i := match prog with Some i => S i | None => O end in
    r = (λ p, (i, p)) <$> visited m !! i).
Proof.
  intros Hm. unfold xdp_multiprog__next_prog, visited.
  eapply keeps_bind0; [apply keeps_legacy; cbn; by eauto|]. intros leg Hleg.
  rewrite (Hleg a m eq_refl Hm). destruct (xdp_multiprog.is_legacy m).
  - eapply keeps_bind0; [apply keeps_set_errno|]. intros _ _. by apply keeps_pret.
  - eapply keeps_bind0; [by apply keeps_mp_deref|]. intros m' ->. by apply keeps_pret.
Qed.

Lemma keeps_find_prog μ a m id fuel prog :
  let i := match prog with Some i => S i | None => O end in
  μ !! a = Some m → (i ≤ length (visited m) < i + fuel)%nat →
  keeps μ 0 (find_prog fuel prog (Ptr a) id) (λ r,
    match r with
    | Some p => p ∈ visited m ∧ xdp_program.prog_id p = id
    | None => ∀ p, p ∈ drop i (visited m) → xdp_program.prog_id p ≠ id
    end).
Proof.
  cbv zeta. revert prog. induction fuel as [|fuel IH]; intros prog Hm Hlen; [lia|].
  cbn [find_prog]. eapply keeps_bind0; [by apply keeps_next_prog|].
  set (i := match prog with Some i => S i | None => O end) in *. intros r ->.
  destruct (visited m !! i) as [p|] eqn:E; cbn.
  - apply lookup_lt_Some in E as Hlt.
    destruct (Z.eqb_spec (xdp_program.prog_id p) id) as [Heq|Hne].
    + apply keeps_pret. split; [by eapply list_elem_of_lookup_2|done].
    + eapply keeps_weaken; [apply (IH (Some i)); [done|lia]|done|]. intros [q|]; [done|].
      intros Hq q. rewrite (drop_S _ _ _ E). intros [->|Hin]%elem_of_cons; auto.
  - apply keeps_pret. apply lookup_ge_None in E. rewrite drop_ge by done.
    intros p Hp. by apply not_elem_of_nil in Hp.
Qed.

(** No program of the interface carries the identifier: not a linked one, not
    the legacy one, not the hardware one, whose absence counts as 0. *)
Definition absent (id : Z) (m : mp_t) : Prop :=
  (∀ p, p ∈ visited m → xdp_program.prog_id p ≠ id) ∧
  (xdp_multiprog.is_legacy m = true → xdp_program__id (to_ptr (xdp_multiprog.main_prog m)) ≠ id) ∧
  xdp_program__id (to_ptr (xdp_multiprog.hw_prog m)) ≠ id.

Lemma keeps_hw_found μ a m id :
  μ !! a = Some m →
  keeps μ 0 (let! hw := xdp_multiprog__hw_prog (Ptr a) in
             if xdp_program__id hw =? id then pret (Some (hw, XDP_MODE_HW)) else pret None) (λ f,
    match f with
    | Some (p, mode) => xdp_program__id p = id ∧ (∀ e, p ≠ ErrPtr e) ∧ ¬ absent id m
    | None => True
    end).
Proof.
  intros Hm. apply (keeps_bind0 _ _ _ _ _ _ (λ q, q = to_ptr (xdp_multiprog.hw_prog m))).
  { cbn [xdp_multiprog__hw_prog]. eapply keeps_bind0; [by apply keeps_mp_deref|]. intros m' ->. by apply keeps_pret. }
  intros q ->. destruct (Z.eqb_spec (xdp_program__id (to_ptr (xdp_multiprog.hw_prog m))) id) as [E|_].
  - apply keeps_pret. split; [done|]. split; [by destruct (xdp_multiprog.hw_prog m)|]. by intros (_ & _ & Ha).
  - by apply keeps_pret.
Qed.

Lemma keeps_find_unload μ a m id :
  μ !! a = Some m →
  keeps μ 0 (find_unload (Ptr a) id) (λ f, match f with
    | Some (p, mode) => xdp_program__id p = id ∧ (∀ e, p ≠ ErrPtr e) ∧ ¬ absent id m
    | None => True
    end).
Proof.
  intros Hm. assert (live μ (Ptr a)) as Hl by (cbn; eauto). unfold find_unload.
  eapply (keeps_bind0 _ _ _ _ _ _ (λ f, f = S (length (xdp_multiprog.first_prog m)))).
  { cbn [next_fuel]. eapply keeps_bind0; [by apply keeps_mp_deref|]. intros m' ->. by apply keeps_pret. }
  intros fuel ->. eapply keeps_bind0.
  { apply (keeps_find_prog μ a m id _ None Hm). unfold visited. destruct (xdp_multiprog.is_legacy m); cbn; lia. }
  intros [p|] Hp.
  { eapply keeps_bind0; [by apply keeps_mode|]. intros mode _. apply keeps_pret.
    destruct Hp as [Hin Hid]. repeat split; [done..|]. intros [Ha _]. by apply (Ha p). }
  eapply keeps_bind0; [by apply keeps_legacy|]. intros leg Hleg. specialize (Hleg a m eq_refl Hm). subst leg.
  apply (keeps_bind0 _ _ _ _ _ _ (λ q, q = if xdp_multiprog.is_legacy m then to_ptr (xdp_multiprog.main_prog m) else Null)).
  { destruct (xdp_multiprog.is_legacy m); [|by apply keeps_pret]. cbn [xdp_multiprog__main_prog].
    eapply keeps_bind0; [by apply keeps_mp_deref|]. intros m' ->. by apply keeps_pret. }
  intros q ->. destruct (xdp_multiprog.is_legacy m) eqn:El; cbn [andb].
  - destruct (Z.eqb_spec (xdp_program__id (to_ptr (xdp_multiprog.main_prog m))) id) as [E|_].
    { eapply keeps_bind0; [by apply keeps_mode|]. intros mode _. apply keeps_pret.
      split; [done|]. split; [by destruct (xdp_multiprog.main_prog m)|]. intros (_ & Ha & _). by apply Ha. }
    eapply (keeps_hw_found μ a m id Hm).
  - eapply (keeps_hw_found μ a m id Hm).
Qed.

End specs.

Lemma spec_with_prog {A} ρ μ n p (k : nat → M K A) Q :
  (∀ a, spec (<[a := meta p]> ρ) any μ n (k a) Q) → spec ρ any μ n (with_prog p k) Q.
Proof.
  intros Hk w Hμ [Hd _]. unfold wp, with_prog. set (a := fresh (dom (heap w))).
  assert (heap w !! a = None) as Ha by apply not_elem_of_dom, is_fresh.
  assert (ρ !! a = None) as Hρ by (by rewrite <- Hd, lookup_fmap, Ha).
  set (w1 := mk_world _ _ _ _ _). specialize (Hk a w1 Hμ). unfold wp in Hk.
  assert (heap_ok (<[a := meta p]> ρ) any w1) as Hw1.
  { split; [|done]. cbn. by rewrite fmap_insert, Hd. }
  specialize (Hk Hw1). destruct (k a w1) as [[r w']|] eqn:E; [|done].
  destruct Hk as (HQ & [Hd' _] & Hc). split; [done|]. split; [|exact Hc]. split; [|done]. cbn.
  rewrite fmap_delete, Hd'. by apply delete_insert_id.
Qed.

Definition unload_post (μ : gmap nat mp_t) (P : Prop) (r : Z) (μ' : gmap nat mp_t) : Prop :=
  μ' = μ ∧ (r = EXIT_SUCCESS ∨ r = EXIT_FAILURE) ∧ (P → r = EXIT_FAILURE).

(** Closing and turning the error into a status. *)
Lemma spec_unload_out ρ μ μ0 n mp err P :
  live μ mp → closed μ mp = μ0 → (P → err ≠ 0) →
  spec ρ any μ n (xdp_multiprog__close mp ;;; pret (if negb (err =? 0) then EXIT_FAILURE else EXIT_SUCCESS))
    (unload_post μ0 P).
Proof.
  intros Hl <- HP. apply spec_close_bind; [done|]. apply spec_ret. split; [done|].
  destruct (Z.eqb_spec err 0) as [->|]; cbn [negb]; [|by split; [right|]]. split; [by left|]. intros H'. by destruct (HP H').
Qed.

(** An error pointer is never detached. *)
Lemma keeps_unload_err ρ μ (all : bool) e i id :
  keeps ρ any μ 0
    (if all then xdp_multiprog__detach (ErrPtr e)
     else let! f := find_unload (ErrPtr e) id in
          match f with Some (prog, mode) => detach_found prog i mode | None => pret (- ENOENT) end)
    (λ err, err ≠ 0).
Proof.
  destruct all; [eapply keeps_weaken; [apply keeps_libxdp_err|done|by intros ? ->]|].
  apply (keeps_bind0 _ _ _ _ _ _ (λ f, f = None ∨ f = Some (Null, XDP_MODE_HW))).
  - unfold find_unload. cbn [next_fuel]. eapply keeps_bind0; [by apply (keeps_pret _ _ _ _ _ (λ f, f = 1%nat))|].
    intros f ->. apply (keeps_bind0 _ _ _ _ _ _ (λ r, r = None)).
    { cbn [find_prog]. apply (keeps_bind0 _ _ _ _ _ _ (λ r, r = None)).
      - eapply keeps_bind0; [apply (keeps_pret _ _ _ _ _ (λ _, True)); done|]. intros _ _.
        eapply keeps_bind0; [apply keeps_set_errno|]. intros _ _. by apply keeps_pret.
      - intros r ->. by apply keeps_pret. }
    intros r ->. eapply keeps_bind0; [by apply (keeps_pret _ _ _ _ _ (λ b, b = false))|]. intros b ->.
    eapply keeps_bind0; [by apply (keeps_pret _ _ _ _ _ (λ p, p = Null))|]. intros p ->. cbn [andb].
    eapply keeps_bind0; [apply keeps_err_ptr|]. intros hw ->. cbn [xdp_program__id].
    apply keeps_if; apply keeps_pret; auto.
  - intros f [->| ->]; by apply keeps_pret.
Qed.

(** When nothing on the interface carries the identifier, nothing is requested. *)
Lemma spec_unload_absent ρ μ cfg a m :
  μ !! a = Some m → unload_all cfg = false → absent (Params.prog_id cfg) m →
  keeps ρ any μ 0
    (if unload_all cfg then xdp_multiprog__detach (Ptr a)
     else let! f := find_unload (Ptr a) (Params.prog_id cfg) in
          match f with
          | Some (prog, mode) => detach_found prog (Params.ifindex cfg) mode
          | None => pret (- ENOENT)
          end) (λ err, err ≠ 0).
Proof.
  intros Hm -> Ha. eapply keeps_bind0; [by apply keeps_find_unload|].
  intros [[p mode]|] Hf; [|by apply keeps_pret]. by destruct Hf as (_ & _ & ?).
Qed.

Lemma spec_do_unload ρ μ (env : kernel_ok) cfg :
  unload_all cfg = false →
  (∀ id hid i (v v' : world K) m, xdp_multiprog__from_id id hid i v = Some (inr m, v') → absent (Params.prog_id cfg) m) →
  spec ρ any μ 0 (do_unload cfg) (unload_post μ True).
Proof.
  intros Hall HP. unfold do_unload.
  eapply (spec_bind _ _ _ 0 0).
  { apply (spec_get_retry _ _ (absent (Params.prog_id cfg))) with (I := λ _, True); [by intros|by intros| |exact I].
    intros μ' id hid i _. apply (keeps_from_id _ _ env). intros v v' m E. by eapply HP. }
  intros mp μ1 Hmp. eapply (keeps_bind _ _ _ 0 0); [apply keeps_get_error|done|]. intros e He.
  destruct mp as [|e1|a]; [done| |].
  - cbn in Hmp. subst μ1. eapply (keeps_bind _ _ _ 0 0 _ _ _ (λ err, err ≠ 0)); [|done|].
    + apply keeps_if; [by apply keeps_pret|]. cbn [is_null]. apply keeps_unload_err.
    + intros err Herr. by apply spec_unload_out.
  - rewrite (He a eq_refl). cbn [Z.eqb negb is_null].
    destruct Hmp as (m & Ha & -> & HQ). eapply (keeps_bind _ _ _ 0 0); [by apply (spec_unload_absent _ _ _ _ m); [apply lookup_insert_eq|..]|done|].
    intros err Herr. apply spec_unload_out; [cbn; rewrite lookup_insert_eq; by eauto| |done].
    cbn. by rewrite delete_insert_id.
Qed.

(** The world in which a program of a dispatcher is lent to a call. *)
Definition lend (p : xdp_program.t) (w : world K) : world K :=
  mk_world (kern w) (errno w) (<[fresh (dom (heap w)) := p]> (heap w)) (mps w) (calls w).

(** [do_unload] finds the program and then, when it takes it off, reads a dispatcher in which
    a program sits twice. *)
Definition unload_meets_twice (cfg : config) (w : world K) : Prop :=
  unload_all cfg = false ∧ ∃ a w1 p mode w2,
    xdp_multiprog__get_from_ifindex (Params.ifindex cfg) w = Some (Ptr a, w1) ∧
    find_unload (Ptr a) (Params.prog_id cfg) w1 = Some (Some (Ptr p, mode), w2) ∧
    meets_twice [fresh (dom (heap w2))] (Params.ifindex cfg) mode (lend p w2).

Lemma with_prog_run (env : kernel_ok) p i mode (w : world K) :
  meets_twice [fresh (dom (heap w))] i mode (lend p w) ∨
  ∃ err w', detach_found (Ptr p) i mode w = Some (err, w') ∧ mps w' = mps w ∧
    meta <$> heap w' = meta <$> heap w ∧ (length (calls w') ≤ length (calls w) + 22)%nat.
Proof.
  set (a := fresh (dom (heap w))). assert (heap w !! a = None) as Ha by apply not_elem_of_dom, is_fresh.
  destruct (detach_run env a i mode (lend p w)) as [?|(e & w' & E & Hm & Hh & Hc)]; [cbn; rewrite dom_insert; set_solver|by left|].
  right. eexists e, _.
  change (detach_found (Ptr p) i mode w) with (match xdp_program__detach (Ptr a) i mode 0 (lend p w) with
    | Some (r, w') => Some (r, mk_world (kern w') (errno w') (delete a (heap w')) (mps w') (calls w')) | None => None end).
  rewrite E. split; [done|]. cbn. split; [done|]. split; [|exact Hc]. rewrite fmap_delete, Hh. cbn. fold a. rewrite fmap_insert. apply delete_insert_id. by rewrite lookup_fmap, Ha.
Qed.

(** What comes after the dispatcher was read. *)
Lemma unload_body_run (env : kernel_ok) cfg a m (w : world K) :
  mps w !! a = Some m →
  (unload_all cfg = false ∧ ∃ p mode w2, find_unload (Ptr a) (Params.prog_id cfg) w = Some (Some (Ptr p, mode), w2) ∧
     meets_twice [fresh (dom (heap w2))] (Params.ifindex cfg) mode (lend p w2)) ∨
  ∃ err w', (if unload_all cfg then xdp_multiprog__detach (Ptr a)
     else let! f := find_unload (Ptr a) (Params.prog_id cfg) in
          match f with
          | Some (prog, mode) => detach_found prog (Params.ifindex cfg) mode
          | None => pret (- ENOENT)
          end) w = Some (err, w') ∧ mps w' = mps w ∧
    meta <$> heap w' = meta <$> heap w ∧ (length (calls w') ≤ length (calls w) + 22)%nat.
Proof.
  intros Hm. destruct (unload_all cfg).
  { right. destruct (run_spec any 4 _ _ w (keeps_mp_detach _ _ (mps w) (Ptr a) ltac:(cbn; eauto))) as (e & w' & E & [Hm' _] & Hh & Hc); [done|].
    exists e, w'. repeat split; [done..|lia]. }
  destruct (run_spec any 0 _ _ w (keeps_find_unload _ (mps w) a m (Params.prog_id cfg) Hm)) as (f & w2 & E & [Hm2 Hf] & Hh & Hc); [done|].
  unfold pbind. rewrite E. destruct f as [[[|e|p] mode]|].
  - right. exists (- EINVAL), w2. repeat split; [done..|lia].
  - by destruct Hf as (_ & Hf & _); destruct (Hf e).
  - destruct (with_prog_run env p (Params.ifindex cfg) mode w2) as [?|(e & w' & E' & Hm' & Hh' & Hc')]; [left; split; [done|]; by exists p, mode, w2|].
    right. exists e, w'. repeat split; [done|congruence|congruence|lia].
  - right. exists (- ENOENT), w2. repeat split; [done..|lia].
Qed.

Lemma pbind_run {A B} (m : M K A) (k : A → M K B) (w w1 : world K) x : m w = Some (x, w1) → pbind m k w = k x w1.
Proof. unfold pbind. by intros ->. Qed.

Lemma do_unload_run (env : kernel_ok) cfg (w : world K) :
  unload_meets_twice cfg w ∨
  ∃ r w', do_unload cfg w = Some (r, w') ∧ (r = EXIT_SUCCESS ∨ r = EXIT_FAILURE) ∧
     mps w' = mps w ∧ meta <$> heap w' = meta <$> heap w ∧ (length (calls w') ≤ length (calls w) + 22)%nat.
Proof.
  destruct (run_spec any 0 _ _ w (spec_get _ _ env (mps w) (Params.ifindex cfg))) as (mp & w1 & E & Hmp & Hh & Hc); [done|].
  destruct mp as [|e1|a]; [done| |].
  - right. cbn in Hmp. destruct (run_spec any 0 (let! e := libxdp_get_error (ErrPtr e1 : ptr nat) in
      let! err := (if negb (e =? 0) then pret EXIT_FAILURE else if is_null (ErrPtr e1 : ptr nat) then pret EXIT_FAILURE
        else if unload_all cfg then xdp_multiprog__detach (ErrPtr e1) else
          let! f := find_unload (ErrPtr e1) (Params.prog_id cfg) in
          match f with Some (prog, mode) => detach_found prog (Params.ifindex cfg) mode | None => pret (- ENOENT) end) in
      xdp_multiprog__close (ErrPtr e1) ;;; pret (if negb (err =? 0) then EXIT_FAILURE else EXIT_SUCCESS)) (unload_post (mps w1) False) w1)
      as (r & w' & E' & (Hm & Hr & _) & Hh' & Hc'); [|done|].
    { eapply (keeps_bind _ _ _ 0 0); [apply keeps_get_error|done|]. intros e He.
      eapply (keeps_bind _ _ _ 0 0 _ _ _ (λ err, err ≠ 0)); [apply keeps_if; [by apply keeps_pret|]; cbn [is_null]; apply keeps_unload_err|done|].
      intros err Herr. by apply spec_unload_out. }
    exists r, w'. unfold do_unload, pbind at 1. rewrite E. split; [exact E'|]. repeat split; [done|congruence..|lia].
  - destruct Hmp as (m & Ha & Hm1 & _).
    destruct (unload_body_run env cfg a m w1 ltac:(by rewrite Hm1, lookup_insert_eq)) as [(Hall & p & mode & w2 & E2 & Ht)|(err & w2 & E2 & Hm2 & Hh2 & Hc2)].
    { left. split; [done|]. by exists a, w1, p, mode, w2. }
    right. destruct (run_spec any 0 _ _ w2 (spec_unload_out _ (mps w2) (mps w) 0 (Ptr a) err False ltac:(cbn; rewrite Hm2, Hm1, lookup_insert_eq; by eauto)
      ltac:(cbn; rewrite Hm2, Hm1; by rewrite delete_insert_id) ltac:(done))) as (r & w3 & E3 & (Hm3 & Hr & _) & Hh3 & Hc3); [done|].
    exists r, w3. split; [|repeat split; [done|done|congruence|lia]].
    unfold do_unload. rewrite (pbind_run _ _ _ _ _ E). cbn [libxdp_get_error]. rewrite (pbind_run _ _ w1 w1 0 eq_refl). cbn [Z.eqb negb is_null].
    by rewrite (pbind_run _ _ _ _ _ E2).
Qed.

(** [do_unload] returns a success or failure status, releases the
    dispatcher object it read, and makes at most 22 attach requests, unless it takes a
    program off a dispatcher in which a program sits twice.  If no program on
    the interface carries the given identifier, it fails and requests nothing,
    so that no other program is taken off. *)
Theorem do_unload_safe (env : kernel_ok) cfg (w : world K) :
  (unload_meets_twice cfg w ∨
   ∃ r w', do_unload cfg w = Some (r, w') ∧ (r = EXIT_SUCCESS ∨ r = EXIT_FAILURE) ∧
     mps w' = mps w ∧ meta <$> heap w' = meta <$> heap w ∧ (length (calls w') ≤ length (calls w) + 22)%nat) ∧
  (unload_all cfg = false →
   (∀ id hid i (v v' : world K) m, xdp_multiprog__from_id id hid i v = Some (inr m, v') → absent (Params.prog_id cfg) m) →
   ∃ w', do_unload cfg w = Some (EXIT_FAILURE, w') ∧ mps w' = mps w ∧
     (length (calls w') ≤ length (calls w))%nat).
Proof.
  split; [by apply do_unload_run|].
  intros Ha Habs. destruct (run_spec any 0 _ _ w (spec_do_unload (meta <$> heap w) (mps w) env cfg Ha Habs))
      as (r & w' & E & (Hm & _ & Hr) & Hd & Hc); [done|]. exists w'. rewrite (Hr I) in E. repeat split; [done..|lia].
Qed.

(** ** The main function *)

Section main.
(** A program opened from an object file has its libbpf program. *)
Context (env : kernel_ok)
  (open_file_prog : ∀ f n k p k', open_file f n k = (inr p, k') → is_Some (bpf_prog p)).

Lemma parse_pass n2i argv0 opts :
  parse_cmdline_args n2i argv0 pass_doc pass_long_options true opts pass_config true =
  parse_loop n2i argv0 pass_doc pass_long_options opts pass_config true.
Proof. reflexivity. Qed.

Lemma pass_usage argv0 full : is_Some (usage argv0 pass_doc pass_long_options full).
Proof. destruct full; cbn; eauto. Qed.

(** How the options of [xdp_pass_user] end, and what they cannot change. *)
Lemma parse_loop_pass n2i argv0 opts cfg v :
  match parse_loop n2i argv0 pass_doc pass_long_options opts cfg v with
  | Some (Configured cfg' _) => Forall (λ e, e.1 ≠ ch "d") opts → Params.ifindex cfg' = Params.ifindex cfg
  | Some (Exited code _) => code = EXIT_FAIL_OPTION
  | None => False
  end.
Proof.
  revert cfg v. induction opts as [|[o arg] opts IH]; intros cfg v; [done|]. cbn [parse_loop].
  assert (match parse_opt n2i o arg cfg v with inl (cfg', _) => o ≠ ch "d" → Params.ifindex cfg' = Params.ifindex cfg | inr _ => True end) as Ho.
  { unfold parse_opt. destruct (Z.eqb_spec o (ch "d")) as [->|_].
    - by destruct (lookup_dev n2i arg) as [[]|].
    - repeat match goal with |- context [if o =? ?x then _ else _] => destruct (o =? x); [try (by destruct (lookup_dev n2i arg) as [[]|]); done|] end. done. }
  destruct (parse_opt n2i o arg cfg v) as [[cfg1 v1]|full].
  - specialize (IH cfg1 v1). destruct (parse_loop _ _ _ _ opts cfg1 v1) as [[cfg' v'|]|]; [|done..].
    intros [Hd Hds]%Forall_cons. by rewrite (IH Hds), Ho.
  - by destruct (pass_usage argv0 full) as [text ->].
Qed.

Lemma run_attach a p i mode (w : world K) :
  heap w = {[ a := p ]} → is_Some (bpf_prog p) →
  ∃ e w', xdp_program__attach (Ptr a) i mode 0 w = Some (e, w') ∧
    dom (heap w') = {[ a ]} ∧ (length (calls w') ≤ length (calls w) + 22)%nat.
Proof.
  intros Hh Hp. destruct (attach_run env a p i mode w) as (e & w' & E & Hm & Hc).
  - rewrite Hh. apply lookup_singleton_eq.
  - by left.
  - exists e, w'. split; [done|]. split; [|done].
    by rewrite <- (dom_fmap_L meta), Hm, dom_fmap_L, Hh, dom_singleton_L.
Qed.

Lemma run_fd_of a (w : world K) :
  dom (heap w) = {[ a ]} → ∃ fd, prog_fd_of (Ptr a) w = Some (fd, w).
Proof.
  intros Hd. assert (a ∈ dom (heap w)) as Ha by (rewrite Hd; set_solver).
  apply elem_of_dom in Ha as [p Hp]. eexists. unfold prog_fd_of, pbind, deref. by rewrite Hp.
Qed.

Lemma main_load_run cfg (w : world K) :
  heap w = ∅ →
  ∃ r w', main_load cfg w = Some (r, w') ∧ (length (calls w') ≤ length (calls w) + 22)%nat.
Proof.
  intros Hh. unfold main_load, create, pbind, kop.
  destruct (open_file _ _ (kern w)) as [[e|p] k] eqn:Eo.
  - cbn. destruct (Z.eqb_spec (- - e) 0); cbn; eexists _, _; (split; [reflexivity|cbn; lia]).
  - set (a := fresh (dom (heap w))).
    set (w1 := mk_world k (errno w) (<[a := p]> (heap w)) (mps w) (calls w)).
    assert (keep_ptr (Ptr p) (mk_world k (errno w) (heap w) (mps w) (calls w)) = Some (Ptr a, w1)) as Hkeep by done.
    cbn [libxdp_get_error Z.eqb negb pret]. unfold pret at 1 2. cbn [negb Z.eqb]. rewrite Hkeep.
    destruct (run_attach a p (Params.ifindex cfg) (Params.attach_mode cfg) w1) as (e & w2 & -> & Hd & Hc).
    { unfold w1. cbn. by rewrite Hh. }
    { by eapply open_file_prog. }
    cbn in Hc. destruct (e =? 0); cbn [negb]; [|by exists e, w2].
    destruct (run_fd_of a w2 Hd) as [fd ->]. unfold kread.
    destruct (k_prog_info fd (kern w2)); by eexists _, w2.
Qed.

(** C12: [xdp_pass_user] ends with a status and makes at most 22
    attach requests, whatever the options, the kernel ([kernel_ok]) and the object file (which
    gives a program or an error), unless it unloads a program from a dispatcher in which a
    program sits twice, where the library follows a null pointer.  When the memory for the
    options cannot be had, and without the required device option, it asks nothing of the kernel
    and ends with [EXIT_FAIL_OPTION]. *)
Theorem main_ends n2i argv0 malloc_ok bare opts (w : world K) :
  heap w = ∅ →
  ((∃ cfg v, parse_cmdline_args n2i argv0 pass_doc pass_long_options malloc_ok opts pass_config true = Some (Configured cfg v) ∧
      Params.do_unload cfg = true ∧ unload_meets_twice cfg w) ∨
   ∃ r w', main n2i argv0 malloc_ok bare opts w = Some (r, w') ∧ (length (calls w') ≤ length (calls w) + 22)%nat) ∧
  (malloc_ok = false ∨ Forall (λ e, e.1 ≠ ch "d") opts →
   main n2i argv0 malloc_ok bare opts w = Some (EXIT_FAIL_OPTION, w)).
Proof.
  intros Hh. unfold main. destruct malloc_ok; [|split; [right; by exists EXIT_FAIL_OPTION, w; split; [|lia]|done]].
  rewrite parse_pass. pose proof (parse_loop_pass n2i argv0 opts pass_config true) as Hp.
  destruct (parse_loop _ _ _ _ opts pass_config true) as [[cfg v|code sh]|]; [| |done]; split.
  - destruct (_ =? -1); [right; by destruct (pass_usage argv0 bare) as [text ->]; eexists _, w; split; [|lia]|].
    destruct (Params.do_unload cfg || unload_all cfg) eqn:Eu; [|right; by apply main_load_run].
    destruct (do_unload_run env cfg w) as [Ht|(r & w' & E & _ & _ & _ & Hc)].
    { left. exists cfg, v. split; [done|]. split; [|done]. destruct Ht as [Hall _]. by rewrite Hall, orb_false_r in Eu. }
    right. unfold pbind. rewrite E. destruct (r =? 0); by eexists _, w'.
  - intros [?|Hd]; [done|]. rewrite (Hp Hd). by destruct (pass_usage argv0 bare) as [text ->].
  - right. by exists code, w; split; [|lia].
  - by rewrite Hp.
Qed.

End main.

End loader.
(** ** Examples *)

Definition unload_cfg (id : Z) : config :=
  set_unload id (set_dev 3 (strncpy 16 "veth0") pass_config).

(** The dispatcher of the example holds the program 7: asking for 42 fails
    without a request, asking for 7 takes it off. *)
Lemma do_unload_safe_witness :
  (∃ w', do_unload (H := sample_kernel) (unload_cfg 42) (sample_world false) = Some (EXIT_FAILURE, w') ∧
     (length (calls w') ≤ 0)%nat) ∧
  (∃ w', do_unload (H := sample_kernel) (unload_cfg 7) (sample_world false) = Some (EXIT_SUCCESS, w') ∧
     length (calls w') = 1%nat).
Proof.
  split.
  - destruct (do_unload_safe (H := sample_kernel) sample_kernel_ok (unload_cfg 42) (sample_world false))
      as [_ Hun]. destruct Hun as (w' & E & _ & Hc).
    + reflexivity.
    + intros id hid i v v' m E'. apply sample_from_id in E' as (_ & Hp & _). split_and!.
      * intros p Hp'. apply Hp. right. right. revert Hp'. unfold visited. destruct (xdp_multiprog.is_legacy m); [|done].
        by intros ?%not_elem_of_nil.
      * intros _. destruct (xdp_multiprog.main_prog m) as [p|]; [apply Hp; auto|done].
      * destruct (xdp_multiprog.hw_prog m) as [p|]; [apply Hp; auto|done].
    + exists w'. split; [exact E|exact Hc].
  - eexists. split; [vm_compute; reflexivity|reflexivity].
Defined.

Definition sample_open (f n : list ascii) (k : bool) : (Z + xdp_program.t) * bool := (inr sample_new, k).

Definition veth_index (name : string) : Z := if streq name "veth0" then 3 else 0.

(** Unloading the program 7, and a run without options. *)
Lemma main_ends_witness :
  let w := mk_world (K := bool) false 0 ∅ ∅ [] in
  let main opts := main (H := sample_kernel) sample_open veth_index "xdp_pass_user" true false opts w in
  (∃ r w', main [(ch "d", "veth0"%string); (ch "U", "7"%string)] = Some (r, w') ∧ (length (calls w') ≤ 22)%nat) ∧
  main [] = Some (EXIT_FAIL_OPTION, w) ∧
  fst <$> main [(ch "d", "veth0"%string)] = Some EXIT_OK.
Proof.
  assert (∀ f n k p k', sample_open f n k = (inr p, k') → is_Some (bpf_prog p)) as Hopen.
  { intros f n k p k' [= <- _]. cbn. eauto. }
  split; [|split].
  - destruct (main_ends (H := sample_kernel) sample_open sample_kernel_ok Hopen veth_index "xdp_pass_user" true false
      [(ch "d", "veth0"%string); (ch "U", "7"%string)] (mk_world false 0 ∅ ∅ []) eq_refl) as [[(cfg & v & _ & _ & _ & a & w1 & p & mode & w2 & _ & _ & w3 & _ & Ht)|Hr] _].
    + destruct (sample_reads _ w3 Ht).
    + exact Hr.
  - apply (main_ends (H := sample_kernel) sample_open sample_kernel_ok Hopen veth_index "xdp_pass_user" true false []
      (mk_world false 0 ∅ ∅ []) eq_refl). right. constructor.
  - vm_compute. reflexivity.
Defined.

End Unload.
