(* ===== verification/XskProg.v ===== *)
(** * libxdp: the program behind AF_XDP sockets

    A socket receives the packets of its queue only if a program on the
    interface redirects them to it.  This file has the two programs that the
    library brings along ([xsk_def_xdp_prog.c], [xsk_def_xdp_prog_5.3.c]) and
    the part of [lib/libxdp/xsk.c] that finds one of them on an interface or
    attaches it, counts its users in a map that all processes share, and takes
    it off the interface when the last user leaves.

    Programs are objects of the heap of [Multiprog]; the further calls to the
    kernel are the class [XskKernel]. *)

From S2P Require Import Prelude CString Errno Packet Params Libxdp RunConfig Pin Multiprog.
Local Open Scope Z_scope.
Import xdp_program.

(** ** The programs

    [has_socket q] is whether the map has a socket for queue [q].  The helper
    [redirect], given a queue and the low bits of its flags, is the kernel's. *)
Section default_programs.
Context (has_socket : Z → bool) (redirect : Z → Z → Z).

Definition xsk_def_prog (refcnt rx_queue_index : Z) : Z :=
  if refcnt =? 0 then XDP_PASS else redirect rx_queue_index XDP_PASS.

Definition xsk_def_prog_5_3 (refcnt rx_queue_index : Z) : Z :=
  if refcnt =? 0 then XDP_PASS
  else if has_socket (s32 rx_queue_index) then redirect (s32 rx_queue_index) 0
  else XDP_PASS.
End default_programs.

(** ** The environment *)

Definition XSK_PROG_VERSION : Z := 1.
Definition XDP_FLAGS_MASK : Z := 31.

(** What the kernel reports of a map; the counters of [struct ethtool_channels]. *)
Record xmap_info := mk_xmap { xm_name : string; xm_key_size : Z; xm_value_size : Z }.
Record channels := mk_channels { max_rx : Z; max_tx : Z; max_combined : Z }.

(** As in [Kernel], a result [inl e] or a non-zero [Z] is an error number. *)
Class XskKernel (K : Type) := {
  x_find_file : string → K → (Z + xdp_program.t) * K;
  x_prog_btf : xdp_program.t → K → option btf;
  x_map_ids : Z → K → Z + list Z;
  x_map_info : Z → K → Z + xmap_info;
  x_map_update : Z → Z → list Z → K → Z * K;
  x_map_delete : Z → Z → K → K;
  x_has_map : xdp_program.t → string → K → bool;
  x_set_max_entries : xdp_program.t → string → Z → K → Z * K;
  x_map_create : K → (Z + Z) * K;
  x_prog_create : Z → K → (Z + Z) * K;
  x_test_run : Z → K → Z + Z;
  x_local_socket : K → (Z + Z) * K;
  x_channels : Z → string → K → Z + channels;
  x_readdir : string → K → option (list string);
  x_indextoname : Z → K → Z + string }.

Section xsk_prog.
Context {K : Type} `{Kernel K, XskKernel K}.
Abbreviation M := (M K).

(** ** Program objects on the heap *)

Definition prog_alloc (p : xdp_program.t) : M nat := λ w,
  let a := fresh (dom (heap w)) in
  Some (a, mk_world (kern w) (errno w) (<[a := p]> (heap w)) (mps w) (calls w)).
Definition prog_free (a : nat) : M () := λ w,
  match heap w !! a with
  | Some _ => Some ((), mk_world (kern w) (errno w) (delete a (heap w)) (mps w) (calls w))
  | None => None
  end.

(** [xdp_program__close] of a pointer: an error pointer is not a null pointer,
    and following it is a fault. *)
Definition prog_close (p : ptr nat) : M () :=
  match p with
  | Null => pret ()
  | ErrPtr _ => pfault
  | Ptr a => let! p := deref a in xdp_program__close (Some p) ;;; prog_free a
  end.

(** ** Queues *)

Definition xsk_convert_xdp_flags (xdp_flags : Z) : xdp_attach_mode :=
  if negb (Z.land xdp_flags XDP_FLAGS_SKB_MODE =? 0) then XDP_MODE_SKB
  else if negb (Z.land xdp_flags XDP_FLAGS_DRV_MODE =? 0) then XDP_MODE_NATIVE
  else if negb (Z.land xdp_flags XDP_FLAGS_HW_MODE =? 0) then XDP_MODE_HW
  else XDP_MODE_NATIVE.

Definition MAX_DEV_QUEUE_PATH_LEN : Z := 64.

Definition queues_path (ifname : string) : string := "/sys/class/net/" +:+ ifname +:+ "/queues/".

(** One directory entry. *)
Definition count_queue (n : Z * Z) (entry : string) : Z * Z :=
  let '(rx, tx) := n in
  (if String.prefix "rx" entry then u32 (rx + 1) else rx,
   if String.prefix "tx" entry then u32 (tx + 1) else tx).

Definition xsk_get_queues_from_sysfs (ifname : string) : M (Z * Z) :=
  if MAX_DEV_QUEUE_PATH_LEN <=? strlen (queues_path ifname) then pret (0, 0)
  else
    let! dir := kread (x_readdir (queues_path ifname)) in
    pret match dir with Some entries => foldl count_queue (0, 0) entries | None => (0, 0) end.

Definition xsk_get_max_queues (ifname : string) : M Z :=
  let! fd := kop x_local_socket in
  match fd with
  | inl e => pret (- e)
  | inr fd =>
    let! c := kread (x_channels fd ifname) in
    let! ret :=
      match c with
      | inl e =>
        if e =? EOPNOTSUPP then
          let! (rx, tx) := xsk_get_queues_from_sysfs ifname in
          pret (s32 (Z.max (Z.max rx tx) 1))
        else pret (- e)
      | inr c => pret (Z.max (s32 (Z.max (max_rx c) (max_tx c))) (s32 (max_combined c)))
      end in
    fclose fd ;;; pret ret
  end.

Definition xsk_size_map (p : xdp_program.t) (ifname : string) : M Z :=
  let! max_queues := xsk_get_max_queues ifname in
  if max_queues <? 0 then pret max_queues
  else
    let! found := kread (x_has_map p "xsks_map") in
    if negb found then pret (- ENOENT)
    else let! e := kop (x_set_max_entries p "xsks_map" max_queues) in pret (- e).

Definition xsk_delete_map_entry (xsks_map_fd queue_id : Z) : M () :=
  kop (λ k, ((), x_map_delete xsks_map_fd queue_id k)) ;;; fclose xsks_map_fd.

(** ** The maps of a program *)

Definition xsk_map_is_socket_map (i : xmap_info) : bool :=
  streq (xm_name i) "xsks_map" && (xm_key_size i =? 4) && (xm_value_size i =? 4).
Definition xsk_map_is_refcnt_map (i : xmap_info) : bool :=
  streq (xm_name i) "xsk_def_.data" && (4 <=? xm_value_size i).

(** The loop of [xsk_lookup_map_by_filter]; the array has [n] more entries, and
    reading past it is a fault. *)
Fixpoint find_map (filter : xmap_info → bool) (n : nat) (ids : list Z) {struct ids} : M Z :=
  match ids with
  | [] => pret (- ENOENT)
  | id :: ids =>
    match n with
    | O => pfault
    | S n =>
      let! fd := kop (k_map_fd_by_id id) in
      match fd with
      | inl _ => find_map filter n ids
      | inr fd =>
        let! i := kread (x_map_info fd) in
        match i with
        | inl _ => fclose fd ;;; find_map filter n ids
        | inr i => if filter i then pret fd else fclose fd ;;; find_map filter n ids
        end
      end
    end
  end.

(** The program is asked twice: for the number of its maps, then for them. *)
Definition xsk_lookup_map_by_filter (prog_fd : Z) (filter : xmap_info → bool) : M Z :=
  let! i := kread (x_map_ids prog_fd) in
  match i with
  | inl e => pret (- e)
  | inr ids =>
    let num_maps := length ids in
    let! ok := kop k_alloc in
    if negb ok then pret (- ENOMEM)
    else
      let! i := kread (x_map_ids prog_fd) in
      match i with
      | inl e => pret (- e)
      | inr ids => find_map filter num_maps ids
      end
  end.

Definition xsk_lookup_bpf_map (prog_fd : Z) : M Z :=
  xsk_lookup_map_by_filter prog_fd xsk_map_is_socket_map.
Definition xsk_lookup_refcnt_map (prog_fd : Z) : M Z :=
  xsk_lookup_map_by_filter prog_fd xsk_map_is_refcnt_map.

(** ** Which of the two programs the kernel needs *)

Definition xsk_check_redirect_flags : M bool :=
  let! map_fd := kop x_map_create in
  match map_fd with
  | inl _ => pret false
  | inr map_fd =>
    let! prog_fd := kop (x_prog_create map_fd) in
    match prog_fd with
    | inl _ => fclose map_fd ;;; pret false
    | inr prog_fd =>
      let! r := kread (x_test_run prog_fd) in
      fclose prog_fd ;;; fclose map_fd ;;;
      pret match r with inr retval => retval =? XDP_PASS | inl _ => false end
    end
  end.

(** ** The program on an interface *)

(** The [while] loop over [xdp_multiprog__next_prog]. *)
Fixpoint find_by_name (fuel : nat) (prog : option nat) (mp : ptr nat) (name : string)
    : M (option xdp_program.t) :=
  match fuel with
  | O => pfault
  | S fuel =>
    let! n := xdp_multiprog__next_prog prog mp in
    match n with
    | None => pret None
    | Some (i, p) => if streq (prog_name p) name then pret (Some p) else find_by_name fuel (Some i) mp name
    end
  end.

(** The candidate: the main program if it has the name (comparing the name of a
    null program is a fault), or the first program of the dispatcher that has. *)
Definition xsk_candidate (mp : ptr nat) : M (option xdp_program.t) :=
  let! legacy := xdp_multiprog__is_legacy mp in
  if legacy then
    let! main := xdp_multiprog__main_prog mp in
    match main with
    | Ptr p => pret (if streq (prog_name p) "xsk_def_prog" then Some p else None)
    | _ => pfault
    end
  else
    let! fuel := next_fuel mp in
    find_by_name fuel None mp "xsk_def_prog".

(** The type information of a program object. *)
Definition prog_btf (p : xdp_program.t) : M (option btf) :=
  if has_btf p then kread (x_prog_btf p) else pret None.

Definition check_xsk_version (p : xdp_program.t) : M (Z + Z) :=
  let! b := prog_btf p in
  match b with
  | None => let! e := libxdp_err (- ENOENT) in pret (inl e)
  | Some b =>
    match check_xdp_prog_version b "xsk_prog_version" with
    | Some (inl e) => let! e := libxdp_err e in pret (inl e)
    | Some (inr v) => pret (inr v)
    | None => pfault
    end
  end.

(** The version is checked and the program cloned, as it belongs to the object
    that is closed next. *)
Definition xsk_lookup_program (ifindex : Z) : M (ptr xdp_program.t) :=
  let! mp := xdp_multiprog__get_from_ifindex ifindex in
  match mp with
  | ErrPtr _ => pret Null
  | _ =>
    let! prog := xsk_candidate mp in
    let! ret :=
      match prog with
      | None => pret Null
      | Some p =>
        let! v := check_xsk_version p in
        match v with
        | inl e => pret (ErrPtr e)
        | inr v =>
          if XSK_PROG_VERSION <? v then pret (ErrPtr (- EOPNOTSUPP))
          else
            let! c := xdp_program__clone p in
            pret match c with inl e => ErrPtr e | inr c => Ptr c end
        end
      end in
    xdp_multiprog__close mp ;;; pret ret
  end.

(** ** Counting the users *)

(** The first word of a map value as an [int], and the value with it replaced. *)
Definition refcnt_of (v : list Z) : Z := s32 (le_val (take 4 v)).
Definition set_refcnt (v : list Z) (n : Z) : list Z := le_bytes 4 n ++ drop 4 v.

(** What a process asks of the kernel while it updates the count, one request
    after the other.  Other processes run between two requests. *)
Inductive refcnt_steps :=
  | Ret (ret : Z)
  | Crash
  | Info (fd : Z) (next : Z + xmap_info → refcnt_steps)
  | Alloc (next : bool → refcnt_steps)
  | Lock (next : Z → refcnt_steps)
  | Lookup (fd : Z) (next : Z + list Z → refcnt_steps)
  | Update (fd : Z) (v : list Z) (next : Z → refcnt_steps)
  | Unlock (lock_fd : Z) (next : refcnt_steps).

(** [xsk_update_prog_refcnt] as these requests.  A count of 0 means that the
    program is about to be taken off, and stays. *)
Definition update_steps (refcnt_map_fd delta : Z) : refcnt_steps :=
  Info refcnt_map_fd (λ i,
    match i with
    | inl e => Ret (- e)
    | inr i =>
      Alloc (λ ok,
        if negb ok then Ret (- ENOMEM)
        else
          Lock (λ lock_fd,
            if lock_fd <? 0 then Ret lock_fd
            else
              Lookup refcnt_map_fd (λ v,
                match v with
                | inl e => Unlock lock_fd (Ret (- e))
                | inr v =>
                  if xm_value_size i <? 4 then Crash
                  else if refcnt_of v =? 0 then Unlock lock_fd (Ret 0)
                  else
                    let n := s32 (refcnt_of v + delta) in
                    Update refcnt_map_fd (set_refcnt v n) (λ e,
                      Unlock lock_fd (Ret (if e =? 0 then n else - e)))
                end)))
    end).

(** The requests made without interruption. *)
Fixpoint perform (t : refcnt_steps) : M Z :=
  match t with
  | Ret r => pret r
  | Crash => pfault
  | Info fd next => let! i := kread (x_map_info fd) in perform (next i)
  | Alloc next => let! ok := kop k_alloc in perform (next ok)
  | Lock next => let! l := kop k_lock in perform (next l)
  | Lookup fd next => let! v := kread (k_map_lookup fd) in perform (next v)
  | Update fd v next => let! e := kop (x_map_update fd 0 v) in perform (next e)
  | Unlock l next => kop (λ k, ((), k_unlock l k)) ;;; perform next
  end.
Definition xsk_update_prog_refcnt (refcnt_map_fd delta : Z) : M Z := perform (update_steps refcnt_map_fd delta).

Definition xsk_incr_prog_refcnt (refcnt_map_fd : Z) : M Z := xsk_update_prog_refcnt refcnt_map_fd 1.
Definition xsk_decr_prog_refcnt (refcnt_map_fd : Z) : M Z := xsk_update_prog_refcnt refcnt_map_fd (-1).

(** ** Setting up and taking down

    The fields of [struct xsk_ctx] for the program, and what the set-up reads
    of the context and the socket. *)
Record prog_slot := mk_slot { xdp_prog : ptr nat; xsks_map_fd : Z; refcnt_map_fd : Z }.
Record sock_view := mk_view {
  v_ifindex : Z; v_ifname : string; v_queue_id : Z; v_rx : bool; v_fd : Z; v_xdp_flags : Z }.

(** The labels [err_prog_load] and [err_lookup]. *)
Definition err_prog_load (s : prog_slot) (err : Z) : M (Z * prog_slot) :=
  (if 0 <=? refcnt_map_fd s then fclose (refcnt_map_fd s) else pret ()) ;;;
  prog_close (xdp_prog s) ;;; pret (err, mk_slot Null (xsks_map_fd s) (- ENOENT)).
Definition err_lookup (c : sock_view) (attached : bool) (s : prog_slot) (err : Z) : M (Z * prog_slot) :=
  (if attached then
     let! _ := xdp_program__detach (xdp_prog s) (v_ifindex c) (xsk_convert_xdp_flags (v_xdp_flags c)) 0 in
     pret ()
   else pret ()) ;;;
  err_prog_load s err.

(** From the label [map_lookup] on. *)
Definition map_lookup (c : sock_view) (attached : bool) (a : nat) (refcnt_fd : Z) : M (Z * prog_slot) :=
  let! p := deref a in
  let! fd := xsk_lookup_bpf_map (prog_fd p) in
  let s := mk_slot (Ptr a) fd refcnt_fd in
  if fd <? 0 then err_lookup c attached s fd
  else if v_rx c then
    let! e := kop (x_map_update fd (v_queue_id c) (le_bytes 4 (v_fd c))) in
    if negb (e =? 0) then err_lookup c attached s (- e) else pret (0, s)
  else pret (0, s).

(** No usable program on the interface: one is loaded and attached. *)
Definition setup_new (c : sock_view) (xsks_fd : Z) : M (Z * prog_slot) :=
  let! redirect := xsk_check_redirect_flags in
  let file_name := (if redirect then "xsk_def_xdp_prog.o" else "xsk_def_xdp_prog_5.3.o")%string in
  let! r := kop (x_find_file file_name) in
  match r with
  | inl e => set_errno (- e) ;;; pret (e, mk_slot (ErrPtr e) xsks_fd (- ENOENT))
  | inr p =>
    let! a := prog_alloc p in
    let s fd := mk_slot (Ptr a) xsks_fd fd in
    let! err := xsk_size_map p (v_ifname c) in
    if negb (err =? 0) then err_prog_load (s (- ENOENT)) err
    else
      let! err := xdp_program__attach (Ptr a) (v_ifindex c) (xsk_convert_xdp_flags (v_xdp_flags c)) 0 in
      if negb (err =? 0) then err_prog_load (s (- ENOENT)) err
      else
        let! p := deref a in
        let! fd := xsk_lookup_refcnt_map (prog_fd p) in
        if (fd <? 0) && negb (fd =? - ENOENT) then err_prog_load (s fd) fd
        else map_lookup c true a fd
  end.

(** [__xsk_setup_xdp_prog]: the result and the fields afterwards.  A program
    that is found is joined by raising its count. *)
Definition setup_xdp_prog (c : sock_view) (s : prog_slot) : M (Z * prog_slot) :=
  let! found := xsk_lookup_program (v_ifindex c) in
  match found with
  | ErrPtr e => pret (e, mk_slot (ErrPtr e) (xsks_map_fd s) (refcnt_map_fd s))
  | Null => setup_new c (xsks_map_fd s)
  | Ptr p =>
    let! a := prog_alloc p in
    let! fd := xsk_lookup_refcnt_map (prog_fd p) in
    if fd =? - ENOENT then map_lookup c false a fd
    else if fd <? 0 then err_prog_load (mk_slot (Ptr a) (xsks_map_fd s) fd) fd
    else
      let! refcnt := xsk_incr_prog_refcnt fd in
      if refcnt <? 0 then err_prog_load (mk_slot (Ptr a) (xsks_map_fd s) fd) refcnt
      else if refcnt =? 0 then
        fclose fd ;;; prog_close (Ptr a) ;;; setup_new c (xsks_map_fd s)
      else map_lookup c false a fd
  end.

(** The pointer to the closed program stays in the context, and the descriptor
    of the count stays open. *)
Definition xsk_release_xdp_prog (c : sock_view) (s : prog_slot) : M () :=
  (if refcnt_map_fd s <? 0 then pret ()
   else
     let! value := xsk_decr_prog_refcnt (refcnt_map_fd s) in
     if value =? 0 then
       let! _ := xdp_program__detach (xdp_prog s) (v_ifindex c) (xsk_convert_xdp_flags (v_xdp_flags c)) 0 in
       pret ()
     else pret ()) ;;;
  prog_close (xdp_prog s).

(** The socket and the context that [xsk_setup_xdp_prog] makes up, zeroed as
    they are by [calloc], and their end. *)
Definition xsk_init_xsk_struct (ifindex : Z) : M (Z + sock_view) :=
  let! ok := kop k_alloc in
  if negb ok then pret (inl (- ENOMEM))
  else
    let! name := kread (x_indextoname ifindex) in
    match name with
    | inl e => set_errno e ;;; pret (inl (- e))
    | inr ifname => pret (inr (mk_view ifindex ifname 0 false 0 0))
    end.
Definition xsk_destroy_xsk_struct (s : prog_slot) : M () := prog_close (xdp_prog s).

(** The descriptor of the map is handed on only on success. *)
Definition xsk_setup_xdp_prog (ifindex : Z) : M (Z * option Z) :=
  let! ok := kop k_alloc in
  if negb ok then pret (- ENOMEM, None)
  else
    let! r := xsk_init_xsk_struct ifindex in
    match r with
    | inl _ => pret (- EINVAL, None)
    | inr xsk =>
      let! (res, s) := setup_xdp_prog xsk (mk_slot Null 0 0) in
      xsk_destroy_xsk_struct s ;;; pret (res, if res =? 0 then Some (xsks_map_fd s) else None)
    end.
End xsk_prog.
