(* ===== verification/XskProgSpec.v ===== *)
(** * libxdp: the program behind AF_XDP sockets, specifications

    What the set-up and the release of the program promise to the sockets (the
    class [ProgramContract]), that the code keeps the promise, and the protocol
    by which several processes share one program: the requests of
    [update_steps], interleaved. *)

From stdpp Require Import functions.
From S2P Require Import Prelude CString Errno Packet Params Libxdp RunConfig Pin Multiprog Dispatcher MultiprogSpec Readback XskProg.
Local Open Scope Z_scope.
Import xdp_program.

(** Where the kernel lets the caller choose the verdict for an empty queue, both
    programs do the same. *)
Lemma default_programs_agree has_socket redirect refcnt q :
  (∀ q flags, redirect q flags = if has_socket q : bool then XDP_REDIRECT else Z.land flags 3) →
  0 ≤ q < 2 ^ 31 →
  xsk_def_prog_5_3 has_socket redirect refcnt q = xsk_def_prog redirect refcnt q.
Proof.
  intros Hr Hq. unfold xsk_def_prog, xsk_def_prog_5_3. rewrite (sint_small 32) by lia.
  destruct (refcnt =? 0); [done|]. rewrite !Hr. by destruct (has_socket q).
Qed.

Section libxdp.
Context {K : Type} `{Kernel K, XskKernel K}.

(** ** What is assumed of the environment

    The number of maps of a program and the size of the values of a map do not
    change while they are looked at; a program opened from one of the library's
    object files has its libbpf program; failing to open one, or to ask for the
    maps of a program, is reported with an error; type information is valid.  Two
    conditions are on the use of the system: no interface has a program in
    hardware, and no program is pinned twice.  Without them the library may follow
    a null pointer, as [lookup_hw_only] below and [detach_twice_null] show. *)
Record xsk_env : Prop := {
  xe_kernel : kernel_ok;
  xe_dup : ∀ fd e (k k' : K), k_dupfd fd k = (inl e, k') → e ≠ 0;
  xe_once : pinned_once;
  xe_maps : ∀ fd (k k' : K) ids ids',
    x_map_ids fd k = inr ids → x_map_ids fd k' = inr ids' → length ids = length ids';
  xe_maps_err : ∀ fd (k : K) e, x_map_ids fd k = inl e → 0 < e;
  xe_info : ∀ fd (k k' : K) i i',
    x_map_info fd k = inr i → x_map_info fd k' = inr i' → xm_value_size i = xm_value_size i';
  xe_file : ∀ f (k k' : K) p, x_find_file f k = (inr p, k') → is_Some (bpf_prog p);
  xe_file_err : ∀ f (k k' : K) e, x_find_file f k = (inl e, k') → e ≠ 0;
  xe_btf : ∀ p (k : K) b, x_prog_btf p k = Some b → btf_valid b;
  xe_no_hw : ∀ i (k : K) q, k_query i k = inr q → hw_prog_id q = 0 }.

(** ** Finding the program of an interface *)

(** A property of every result. *)
Definition yields {A} (m : M K A) (P : A → Prop) : Prop := ∀ w a w', m w = Some (a, w') → P a.

Lemma yields_ret {A} (a : A) (P : A → Prop) : P a → yields (pret a) P.
Proof. by intros HP w b w' [= <- _]. Qed.
Lemma yields_bind {A B} (m : M K A) (k : A → M K B) R P :
  yields m R → (∀ a, R a → yields (k a) P) → yields (pbind m k) P.
Proof.
  intros Hm Hk w b w'. unfold pbind. destruct (m w) as [[a w1]|] eqn:E; [|done]. intros E'.
  by eapply Hk; [eapply Hm|].
Qed.
Lemma yields_bind_any {A B} (m : M K A) (k : A → M K B) P :
  (∀ a, yields (k a) P) → yields (pbind m k) P.
Proof. intros Hk. by eapply (yields_bind _ _ (λ _, True)); [|auto]. Qed.
Lemma keeps_yields {A} n (m : M K A) P : (∀ ρ μ, keeps ρ any μ n m P) → yields m P.
Proof.
  intros Hm w a w' E. pose proof (Hm (meta <$> heap w) (mps w) w eq_refl) as Hw.
  unfold wp in Hw. rewrite E in Hw. by apply Hw.
Qed.
Lemma yields_fault {A} (P : A → Prop) : yields pfault P.
Proof. by intros w a w' [=]. Qed.

Ltac yields_step :=
  lazymatch goal with
  | |- yields (pbind _ _) _ => apply yields_bind_any; intros ?
  | |- yields (pret _) _ => apply yields_ret; try done
  | |- yields pfault _ => apply yields_fault
  | |- yields (match ?x with _ => _ end) _ => destruct x
  end.

Lemma link_pinned_main dir n i m :
  yields (link_pinned dir n i m) (λ r, xdp_multiprog.main_prog r.2 = xdp_multiprog.main_prog m).
Proof.
  revert i m. induction n as [|n IH]; intros i m; cbn [link_pinned]; cbv zeta; repeat yields_step.
  exact (IH (i + 1) (add_link _ m)).
Qed.

Lemma link_pinned_progs_main m :
  yields (xdp_multiprog__link_pinned_progs m) (λ r, xdp_multiprog.main_prog r.2 = xdp_multiprog.main_prog m).
Proof.
  unfold xdp_multiprog__link_pinned_progs. cbv zeta.
  destruct (bool_decide _); [by apply yields_ret|]. apply yields_bind_any. intros [e|bpffs]; [by apply yields_ret|].
  destruct (xdp_multiprog.main_prog m) as [main|] eqn:Emain; [|apply yields_fault]. rewrite <- Emain.
  destruct (negb _); [by apply yields_ret|]. apply yields_bind_any. intros lock.
  destruct (lock <? 0); [by apply yields_ret|]. apply yields_bind_any. intros st.
  eapply (yields_bind _ _ (λ r, xdp_multiprog.main_prog r.2 = xdp_multiprog.main_prog m));
    [|intros [e m'] Hm'; apply yields_bind_any; intros _; by apply yields_ret].
  destruct (negb _); [by apply yields_ret|]. eapply yields_bind; [apply link_pinned_main|].
  intros [e m'] Hm'. repeat yields_step.
Qed.

(** Without a program in hardware, an object that is not read as a dispatcher
    has its main program. *)
Definition main_present (m : mp_t) : Prop :=
  xdp_multiprog.is_legacy m = true → is_Some (xdp_multiprog.main_prog m).

Lemma fill_main_present (env : kernel_ok) m fd d : yields (fill_main m fd d) (λ r, r.1 = 0 → main_present r.2).
Proof.
  unfold fill_main. cbv zeta. destruct (default _ d) as [v c]. eapply yields_bind.
  { eapply keeps_yields. intros. by apply keeps_from_fd. }
  intros [e|p] He.
  - apply yields_ret. cbn. intros ->. by destruct (He 0).
  - destruct (bool_decide _); [apply yields_ret; by eexists|].
    eapply yields_bind; [apply link_pinned_progs_main|]. intros [e m'] Hm'. apply yields_ret. intros _.
    destruct (e =? 0); [|by eexists]. intros _. cbn in Hm' |- *. rewrite Hm'. by eexists.
Qed.

Lemma from_id_present (env : kernel_ok) id i (w w' : world K) m :
  xdp_multiprog__from_id id 0 i w = Some (inr m, w') → main_present m.
Proof.
  cut (yields (xdp_multiprog__from_id id 0 i) (λ r, ∀ m, r = inr m → main_present m)).
  { intros Hy E. by eapply Hy. }
  unfold xdp_multiprog__from_id. apply yields_bind_any. intros [e|fd]; [by apply yields_ret|].
  cbn [fd_of_id Z.eqb]. eapply (yields_bind _ _ (λ h, h = inr 0)); [by apply yields_ret|]. intros _ ->.
  eapply (yields_bind _ _ (λ r, ∀ m, r = inr m → main_present m)); [|intros r Hr; repeat yields_step; exact Hr].
  unfold xdp_multiprog__from_fd. apply yields_bind_any. intros ok. destruct (negb ok); [by apply yields_ret|].
  eapply (yields_bind _ _ (λ r, r.1 = 0 → main_present r.2)).
  - unfold xdp_multiprog__fill_from_fd. cbn [Z.ltb Z.compare fill_hw].
    destruct (0 <? fd); [|by apply yields_ret]. apply yields_bind_any. intros [e|info]; [by apply yields_ret|].
    apply yields_bind_any. intros [e|d]; [by apply yields_ret|].
    eapply yields_bind; [by apply fill_main_present|]. intros [e m'] Hm'. cbn in Hm'.
    destruct (Z.eqb_spec e 0); cbn [negb]; apply yields_ret; [|done]. cbn. intros _. by apply Hm'.
  - intros [e m'] Hm'. cbn in Hm'. destruct (Z.eqb_spec e 0) as [->|]; cbn [negb]; repeat yields_step.
    intros m1 [= <-]. by apply Hm'.
Qed.

Section lookup.
Context (env : xsk_env) (ρ : gmap nat (Z * Z)).
Local Abbreviation spec := (MultiprogSpec.spec (K := K) ρ any).
Local Abbreviation keeps := (MultiprogSpec.keeps (K := K) ρ any).

Lemma spec_get_present μ i : spec μ 0 (xdp_multiprog__get_from_ifindex i) (one_new main_present μ).
Proof.
  apply (spec_get_retry ρ any main_present ltac:(done) (λ h, h = 0)); [apply (xe_no_hw env)| |done].
  intros μ' id hid i' ->. apply keeps_from_id; [apply (xe_kernel env)|]. intros w w' m E.
  by eapply from_id_present; [apply (xe_kernel env)|].
Qed.

Lemma keeps_find_by_name μ a m name fuel prog :
  let i := match prog with Some i => S i | None => O end in
  μ !! a = Some m → xdp_multiprog.is_legacy m = false →
  (i ≤ length (xdp_multiprog.first_prog m) < i + fuel)%nat →
  keeps μ 0 (find_by_name fuel prog (Ptr a) name) (λ _, True).
Proof.
  intros i Hm Hl. subst i. revert prog. induction fuel as [|fuel IH]; intros prog Hi; [lia|]. cbn [find_by_name].
  apply (keeps_bind0 _ _ _ _ _ _ (λ r, r = (λ p, (match prog with Some i => S i | None => O end, p)) <$>
    xdp_multiprog.first_prog m !! match prog with Some i => S i | None => O end)).
  - unfold xdp_multiprog__next_prog. eapply keeps_bind0; [apply keeps_legacy; cbn; by eauto|].
    intros leg Hleg. rewrite (Hleg a m eq_refl Hm), Hl.
    eapply keeps_bind0; [by apply keeps_mp_deref|]. intros m' ->. by apply keeps_pret.
  - intros r ->. destruct (xdp_multiprog.first_prog m !! _) as [p|] eqn:E; cbn; [|by apply keeps_pret].
    apply lookup_lt_Some in E. apply keeps_if; [by apply keeps_pret|]. apply IH. lia.
Qed.

Lemma keeps_candidate μ a m :
  μ !! a = Some m → main_present m → keeps μ 0 (xsk_candidate (Ptr a)) (λ _, True).
Proof.
  intros Hm Hp. unfold xsk_candidate. eapply keeps_bind0; [apply keeps_legacy; cbn; by eauto|].
  intros leg Hleg. rewrite (Hleg a m eq_refl Hm). destruct (xdp_multiprog.is_legacy m) eqn:El.
  - unfold xdp_multiprog__main_prog. destruct (Hp El) as [p Ep].
    apply (keeps_bind0 _ _ _ _ _ _ (λ r, r = Ptr p)).
    + eapply keeps_bind0; [by apply keeps_mp_deref|]. intros m' ->. apply keeps_pret. by rewrite Ep.
    + intros _ ->. by apply keeps_pret.
  - apply (keeps_bind0 _ _ _ _ _ _ (λ f, f = S (length (xdp_multiprog.first_prog m)))).
    + cbn [next_fuel]. eapply keeps_bind0; [by apply keeps_mp_deref|]. intros m' ->. by apply keeps_pret.
    + intros _ ->. eapply keeps_find_by_name; [done..|cbn; lia].
Qed.

Lemma keeps_version μ p : keeps μ 0 (check_xsk_version p) err_nz.
Proof.
  unfold check_xsk_version. apply (keeps_bind0 _ _ _ _ _ _ opt_valid).
  - unfold prog_btf. apply keeps_if; [|by apply keeps_pret].
    apply keeps_kread_post. intros k b. apply (xe_btf env).
  - intros [b|] Hb.
    + specialize (Hb b eq_refl). destruct (check_xdp_prog_version_total b Hb "xsk_prog_version") as [r Er].
      rewrite Er. destruct r as [e|v]; [|by apply keeps_pret].
      eapply keeps_bind0; [apply keeps_libxdp_err|]. intros _ ->. apply keeps_pret.
      apply err_nz_inl. by eapply check_xdp_prog_version_err.
    + eapply keeps_bind0; [apply keeps_libxdp_err|]. intros _ ->. apply keeps_pret. by apply err_nz_inl.
Qed.

(** Looking up the program of an interface releases the objects it reads, and
    an error it reports is not 0. *)
Lemma keeps_lookup μ i : keeps μ 0 (xsk_lookup_program i) (λ r, ∀ e, r = ErrPtr e → e ≠ 0).
Proof.
  unfold xsk_lookup_program. eapply (spec_bind _ _ _ 0 0); [apply spec_get_present|].
  intros mp μ1 Hmp. destruct mp as [|e|a]; [done|cbn in Hmp; subst μ1; by apply keeps_pret|].
  destruct Hmp as (m & Ha & -> & Hm).
  assert (live (<[a := m]> μ) (Ptr a)) as Hl by (cbn; rewrite lookup_insert_eq; eauto).
  eapply (keeps_bind _ _ _ 0 0); [eapply keeps_candidate; [apply lookup_insert_eq|done]|done|]. intros prog _.
  eapply (keeps_bind _ _ _ 0 0 _ _ _ (λ r : ptr xdp_program.t, ∀ e, r = ErrPtr e → e ≠ 0)).
  - destruct prog as [p|]; [|by apply keeps_pret].
    eapply keeps_bind0; [apply keeps_version|]. intros [e|v] He; [apply keeps_pret; intros e' [= <-]; by apply He|].
    apply keeps_if; [by apply keeps_pret; intros e [= <-]|].
    eapply keeps_bind0; [apply (keeps_clone _ _ (xe_kernel env))|].
    intros [e|c] Hc; apply keeps_pret; [|done]. intros e' [= <-]. by apply Hc.
  - done.
  - intros r Hr. apply spec_close_bind; [done|]. cbn. rewrite delete_insert_id by done. by apply spec_ret.
Qed.
End lookup.

(** ** Calls that leave every object alone *)

Definition quiet {A} (m : M K A) (P : A → Prop) : Prop :=
  ∀ w, wp m w (λ a w', heap w' = heap w ∧ mps w' = mps w ∧ P a).

Lemma quiet_ret {A} (a : A) (P : A → Prop) : P a → quiet (pret a) P.
Proof. by intros HP w. Qed.
Lemma quiet_bind {A B} (m : M K A) (k : A → M K B) R P :
  quiet m R → (∀ a, R a → quiet (k a) P) → quiet (pbind m k) P.
Proof.
  intros Hm Hk w. apply wp_bind. eapply wp_mono; [apply Hm|]. intros a w1 (E1 & E2 & HR).
  eapply wp_mono; [by apply Hk|]. intros b w2 (E3 & E4 & HP). by rewrite E3, E4.
Qed.
Lemma quiet_bind_any {A B} (m : M K A) (k : A → M K B) P :
  quiet m (λ _, True) → (∀ a, quiet (k a) P) → quiet (pbind m k) P.
Proof. intros Hm Hk. eapply quiet_bind; eauto. Qed.
Lemma quiet_weaken {A} (m : M K A) (P Q : A → Prop) : quiet m P → (∀ a, P a → Q a) → quiet m Q.
Proof. intros Hm HQ w. eapply wp_mono; [apply Hm|]. intros a w' (? & ? & ?). auto. Qed.
Lemma quiet_kop {A} (f : K → A * K) : quiet (kop f) (λ _, True).
Proof. intros w. unfold wp, kop. by destruct (f (kern w)). Qed.
Lemma quiet_kop_post {A} (f : K → A * K) (P : A → Prop) :
  (∀ k a k', f k = (a, k') → P a) → quiet (kop f) P.
Proof. intros HP w. unfold wp, kop. destruct (f (kern w)) as [a k'] eqn:E. split; [done|]. split; [done|]. by eapply HP. Qed.
Lemma quiet_kread {A} (f : K → A) (P : A → Prop) : (∀ k, P (f k)) → quiet (kread f) P.
Proof. by intros HP w. Qed.
Lemma quiet_fclose fd : quiet (fclose fd) (λ _, True).
Proof. apply quiet_kop. Qed.
Lemma quiet_set_errno e : quiet (set_errno e) (λ _, True).
Proof. by intros w. Qed.

Ltac quiet_step :=
  lazymatch goal with
  | |- quiet (pbind _ _) _ => apply quiet_bind_any; [|intros ?]
  | |- quiet (pret _) _ => apply quiet_ret; try done
  | |- quiet (kop _) _ => apply quiet_kop
  | |- quiet (kread _) (λ _, True) => by apply quiet_kread
  | |- quiet (fclose _) _ => apply quiet_fclose
  | |- quiet (set_errno _) _ => apply quiet_set_errno
  | |- quiet (match ?x with _ => _ end) _ => destruct x
  end.

Lemma quiet_size_map p ifname : quiet (xsk_size_map p ifname) (λ _, True).
Proof.
  unfold xsk_size_map, xsk_get_max_queues, xsk_get_queues_from_sysfs. repeat quiet_step.
Qed.
Lemma quiet_redirect : quiet xsk_check_redirect_flags (λ _, True).
Proof. unfold xsk_check_redirect_flags. repeat quiet_step. Qed.
Lemma quiet_delete_entry fd q : quiet (xsk_delete_map_entry fd q) (λ _, True).
Proof. unfold xsk_delete_map_entry. repeat quiet_step. Qed.

(** A descriptor of a map that [filter] accepts. *)
Definition map_fd (filter : xmap_info → bool) (fd : Z) : Prop :=
  ∃ (k : K) i, x_map_info fd k = inr i ∧ filter i = true.

Lemma quiet_find_map filter n ids :
  (length ids ≤ n)%nat → quiet (find_map filter n ids) (λ fd, 0 ≤ fd → map_fd filter fd).
Proof.
  revert n. induction ids as [|id ids IH]; intros n Hn; cbn [find_map]; [apply quiet_ret; unfold ENOENT; intros ?; lia|].
  destruct n as [|n]; [cbn in Hn; lia|]. cbn in Hn.
  assert (quiet (find_map filter n ids) (λ fd, 0 ≤ fd → map_fd filter fd)) as Hrec by (apply IH; lia).
  apply quiet_bind_any; [apply quiet_kop|]. intros [e|fd]; [done|].
  eapply quiet_bind; [apply (quiet_kread _ (λ r, ∃ k, x_map_info fd k = r)); eauto|]. intros [e|i] [k Hk].
  - by repeat quiet_step.
  - destruct (filter i) eqn:Ef; [|by repeat quiet_step]. apply quiet_ret. intros _. by exists k, i.
Qed.

Section contract.
Context (env : xsk_env).

Lemma quiet_lookup_map fd filter :
  quiet (xsk_lookup_map_by_filter fd filter) (λ r, 0 ≤ r → map_fd filter r).
Proof.
  unfold xsk_lookup_map_by_filter.
  eapply quiet_bind; [apply (quiet_kread _ (λ r, ∃ k, x_map_ids fd k = r)); eauto|].
  intros [e|ids] [k Hk]; [apply quiet_ret; apply (xe_maps_err env) in Hk; intros ?; lia|].
  apply quiet_bind_any; [apply quiet_kop|]. intros ok. destruct (negb ok); [apply quiet_ret; unfold ENOMEM; intros ?; lia|].
  eapply quiet_bind; [apply (quiet_kread _ (λ r, ∃ k, x_map_ids fd k = r)); eauto|].
  intros [e|ids'] [k' Hk']; [apply quiet_ret; apply (xe_maps_err env) in Hk'; intros ?; lia|].
  apply quiet_find_map. by rewrite (xe_maps env _ _ _ _ _ Hk Hk').
Qed.

Lemma quiet_update fd delta :
  map_fd xsk_map_is_refcnt_map fd → quiet (xsk_update_prog_refcnt fd delta) (λ _, True).
Proof.
  intros (k0 & i0 & Hi0 & Hf). apply andb_true_iff in Hf as [_ Hf%Z.leb_le]. unfold xsk_update_prog_refcnt, update_steps. cbn [perform].
  eapply quiet_bind; [apply (quiet_kread _ (λ r, ∃ k, x_map_info fd k = r)); eauto|].
  intros [e|i] [k Hk]; [by apply quiet_ret|]. rewrite (xe_info env _ _ _ _ _ Hi0 Hk) in Hf.
  rewrite (proj2 (Z.ltb_ge _ _)) by done. cbn [perform]. apply quiet_bind_any; [apply quiet_kop|]. intros [|]; cbn [negb perform]; [|by repeat quiet_step].
  apply quiet_bind_any; [apply quiet_kop|]. intros l. destruct (l <? 0); cbn [perform]; [by repeat quiet_step|].
  apply quiet_bind_any; [by apply quiet_kread|]. intros [e|v]; [|destruct (refcnt_of v =? 0)]; cbn [perform]; cbv zeta; repeat quiet_step.
Qed.

(** ** The contract

    What the sockets rely on: setting up the program always returns; on success
    it leaves one new program object, which the context then owns, and on
    failure none; taking it down returns and releases that object. *)
Definition slot_ok (s : prog_slot) : Prop :=
  0 ≤ refcnt_map_fd s → map_fd xsk_map_is_refcnt_map (refcnt_map_fd s).

Definition set_up (h : gset nat) (r : Z * prog_slot) (h' : gset nat) : Prop :=
  (r.1 = 0 → ∃ a, xdp_prog r.2 = Ptr a ∧ (a ∉ h) ∧ h' = {[ a ]} ∪ h ∧ slot_ok r.2) ∧ (r.1 ≠ 0 → h' = h).

(** [runs h m Q]: with the program objects [h], [m] returns, and in the end [Q]
    holds of the result and the program objects there are then. *)
Definition runs {A} (h : gset nat) (m : M K A) (Q : A → gset nat → Prop) : Prop :=
  ∀ w, dom (heap w) = h → wp m w (λ a w', Q a (dom (heap w'))).

Lemma runs_bind {A B} h (m : M K A) (k : A → M K B) R Q :
  runs h m R → (∀ a h', R a h' → runs h' (k a) Q) → runs h (pbind m k) Q.
Proof.
  intros Hm Hk w E. apply wp_bind. eapply wp_mono; [by apply Hm|]. intros a w' HR. by apply (Hk a _ HR).
Qed.
Lemma runs_quiet {A B} h (m : M K A) (k : A → M K B) P Q :
  quiet m P → (∀ a, P a → runs h (k a) Q) → runs h (pbind m k) Q.
Proof.
  intros Hm Hk w E. apply wp_bind. eapply wp_mono; [apply Hm|]. intros a w' (Eh & _ & HP).
  apply (Hk a HP). by rewrite Eh.
Qed.
Lemma runs_ret {A} h (a : A) (Q : A → gset nat → Prop) : Q a h → runs h (pret a) Q.
Proof. by intros HQ w <-. Qed.
Lemma runs_deref {B} h a (k : xdp_program.t → M K B) Q :
  a ∈ h → (∀ p, runs h (k p) Q) → runs h (pbind (deref a) k) Q.
Proof.
  intros Ha Hk w <-. apply elem_of_dom in Ha as [p Ep]. apply wp_bind. unfold wp at 1, deref. rewrite Ep.
  by apply Hk.
Qed.
Lemma runs_detach h a i mode : a ∈ h → runs h (xdp_program__detach (Ptr a) i mode 0) (λ _ h', h' = h).
Proof.
  intros Ha w <-. destruct (detach_run (xe_kernel env) a i mode w Ha) as [(w1 & _ & Ht)|(e & w' & E & _ & Hh & _)].
  { by destruct (pinned_once_reads (xe_kernel env) (xe_dup env) (xe_once env) i w1). }
  unfold wp. rewrite E, <- (dom_fmap_L meta (heap w')), Hh. apply dom_fmap_L.
Qed.
Lemma runs_close h p : (∀ a, p = Ptr a → a ∈ h) → (∀ e, p ≠ ErrPtr e) →
  runs h (prog_close p) (λ _ h', h' = match p with Ptr a => h ∖ {[ a ]} | _ => h end).
Proof.
  intros Ha He. destruct p as [|e|a]; cbn [prog_close]; [by apply runs_ret|by destruct (He e)|].
  apply runs_deref; [by apply Ha|]. intros p. eapply runs_quiet; [|intros _ _ w <-].
  - unfold xdp_program__close. repeat quiet_step.
  - specialize (Ha a eq_refl). apply elem_of_dom in Ha as [q Eq]. unfold wp, prog_free. rewrite Eq. cbn.
    apply dom_delete_L.
Qed.

(** Giving up: the program object is released. *)
Lemma runs_err_prog_load h a x fd e :
  a ∈ h → runs h (err_prog_load (mk_slot (Ptr a) x fd) e) (λ r h', r.1 = e ∧ h' = h ∖ {[ a ]}).
Proof.
  intros Ha. unfold err_prog_load. cbn [refcnt_map_fd xdp_prog xsks_map_fd].
  eapply (runs_quiet _ _ _ (λ _, True)); [repeat quiet_step|]. intros _ _.
  eapply runs_bind; [by apply runs_close; [intros b [= <-]|]|]. intros _ h' ->. by apply runs_ret.
Qed.

Lemma runs_err_lookup h c att a x fd e :
  a ∈ h → runs h (err_lookup c att (mk_slot (Ptr a) x fd) e) (λ r h', r.1 = e ∧ h' = h ∖ {[ a ]}).
Proof.
  intros Ha. unfold err_lookup. eapply (runs_bind _ _ _ (λ _ h', h' = h)).
  - destruct att; [|by apply runs_ret]. eapply runs_bind; [by apply runs_detach|]. intros _ h' ->. by apply runs_ret.
  - intros _ h' ->. by apply runs_err_prog_load.
Qed.

(** [a] is the program object allocated since [h]. *)
Lemma set_up_fail h a e (r : Z * prog_slot) h' :
  a ∉ h → e ≠ 0 → r.1 = e → h' = ({[ a ]} ∪ h) ∖ {[ a ]} → set_up h r h'.
Proof. intros Ha He <- ->. split; [done|]. intros _. set_solver. Qed.

Lemma runs_map_lookup h c att a fd :
  a ∉ h → (0 ≤ fd → map_fd xsk_map_is_refcnt_map fd) →
  runs ({[ a ]} ∪ h) (map_lookup c att a fd) (set_up h).
Proof.
  intros Ha Hfd. assert (a ∈ {[ a ]} ∪ h) as Hin by set_solver. unfold map_lookup.
  apply runs_deref; [done|]. intros p. eapply runs_quiet; [apply quiet_lookup_map|]. intros xfd _. cbv zeta.
  assert (∀ e, e ≠ 0 → runs ({[ a ]} ∪ h) (err_lookup c att (mk_slot (Ptr a) xfd fd) e) (set_up h)) as Herr.
  { intros e He w Ew. eapply wp_mono; [by apply runs_err_lookup|]. intros r w' [Hr Hh]. by eapply set_up_fail. }
  assert (set_up h (0, mk_slot (Ptr a) xfd fd) ({[ a ]} ∪ h)) as Hok by (split; [|done]; intros _; by exists a).
  destruct (Z.ltb_spec xfd 0); [apply Herr; lia|]. destruct (v_rx c); [|by apply runs_ret].
  eapply runs_quiet; [apply quiet_kop|]. intros e _. destruct (Z.eqb_spec e 0); cbn [negb]; [by apply runs_ret|].
  apply Herr. lia.
Qed.

(** Allocating a program object; it may be attached if the program may. *)
Lemma runs_alloc {B} h p (k : nat → M K B) Q :
  (∀ a w, a ∉ h → dom (heap w) = {[ a ]} ∪ h → heap w !! a = Some p → wp (k a) w (λ b w', Q b (dom (heap w')))) →
  runs h (pbind (prog_alloc p) k) Q.
Proof.
  intros Hk w <-. apply wp_bind. unfold wp at 1, prog_alloc. apply Hk.
  - apply is_fresh.
  - cbn. apply dom_insert_L.
  - cbn. apply lookup_insert_eq.
Qed.

Lemma runs_attach h a p i mode (w : world K) :
  a ∈ h → dom (heap w) = h → heap w !! a = Some p → is_Some (bpf_prog p) →
  wp (xdp_program__attach (Ptr a) i mode 0) w (λ _ w', dom (heap w') = h).
Proof.
  intros Ha Hd Hp Hb. destruct (attach_run (xe_kernel env) a p i mode w Hp ltac:(by left))
    as (e & w' & E & Hh & _).
  unfold wp. rewrite E, <- Hd, <- (dom_fmap_L meta (heap w')), Hh. apply dom_fmap_L.
Qed.

Lemma runs_setup_new h c x : runs h (setup_new c x) (set_up h).
Proof.
  unfold setup_new. eapply runs_quiet; [apply quiet_redirect|]. intros red _. cbv zeta.
  set (f := if red : bool then _ else _).
  eapply runs_quiet.
  { apply (quiet_kop_post _ (λ r, match r with inr p => is_Some (bpf_prog p) | inl e => e ≠ 0 end)).
    intros k [e|p] k' E; [by eapply (xe_file_err env)|by eapply (xe_file env)]. }
  intros [e|p] Hf.
  { eapply runs_quiet; [apply quiet_set_errno|]. intros _ _. apply runs_ret. by split. }
  apply runs_alloc. intros a w Ha Hd Hp. assert (a ∈ {[ a ]} ∪ h) as Hin by set_solver.
  assert (∀ e fd, e ≠ 0 → runs ({[ a ]} ∪ h) (err_prog_load (mk_slot (Ptr a) x fd) e) (set_up h)) as Herr.
  { intros e fd He v Ev. eapply wp_mono; [by apply runs_err_prog_load|]. intros r w' [Hr Hh]. by eapply set_up_fail. }
  apply wp_bind. eapply wp_mono; [apply quiet_size_map|]. intros err w1 (Eh & _ & _).
  destruct (Z.eqb_spec err 0); cbn [negb]; [|apply Herr; [done|by rewrite Eh]].
  apply wp_bind. eapply wp_mono; [eapply (runs_attach _ a p); [done|by rewrite Eh|by rewrite Eh|done]|].
  intros err' w2 Hd2. revert w2 Hd2. change (runs ({[ a ]} ∪ h)
    (if negb (err' =? 0) then err_prog_load (mk_slot (Ptr a) x (- ENOENT)) err' else
       let! p := deref a in
       let! fd := xsk_lookup_refcnt_map (prog_fd p) in
       if (fd <? 0) && negb (fd =? - ENOENT) then err_prog_load (mk_slot (Ptr a) x fd) fd
       else map_lookup c true a fd) (set_up h)).
  destruct (Z.eqb_spec err' 0); cbn [negb]; [|by apply Herr].
  apply runs_deref; [done|]. intros q. eapply runs_quiet; [apply quiet_lookup_map|]. intros fd Hfd.
  destruct (Z.ltb_spec fd 0); cbn [andb]; [|by apply runs_map_lookup].
  destruct (negb _); [apply Herr; lia|by apply runs_map_lookup].
Qed.

Lemma runs_lookup h i : runs h (xsk_lookup_program i) (λ r h', h' = h ∧ ∀ e, r = ErrPtr e → e ≠ 0).
Proof.
  intros w <-. pose proof (keeps_lookup env (meta <$> heap w) (mps w) i w eq_refl (conj eq_refl (λ _ _ _, I))) as Hk.
  eapply wp_mono; [exact Hk|]. cbv beta. intros r w' ((_ & Hr) & [Hh _] & _). split; [|done].
  by rewrite <- (dom_fmap_L meta (heap w')), Hh, dom_fmap_L.
Qed.

Lemma runs_setup h c s : runs h (setup_xdp_prog c s) (set_up h).
Proof.
  unfold setup_xdp_prog. eapply runs_bind; [apply runs_lookup|]. intros found h' [-> He].
  destruct found as [|e|p]; [apply runs_setup_new|apply runs_ret; split; [|done]; cbn; intros ->; by destruct (He 0)|].
  apply runs_alloc. intros a w Ha Hd _. revert w Hd. assert (a ∈ {[ a ]} ∪ h) as Hin by set_solver.
  change (runs ({[ a ]} ∪ h)
    (let! fd := xsk_lookup_refcnt_map (prog_fd p) in
     if fd =? - ENOENT then map_lookup c false a fd
     else if fd <? 0 then err_prog_load (mk_slot (Ptr a) (xsks_map_fd s) fd) fd
     else
       let! refcnt := xsk_incr_prog_refcnt fd in
       if refcnt <? 0 then err_prog_load (mk_slot (Ptr a) (xsks_map_fd s) fd) refcnt
       else if refcnt =? 0 then fclose fd ;;; prog_close (Ptr a) ;;; setup_new c (xsks_map_fd s)
       else map_lookup c false a fd) (set_up h)).
  assert (∀ e fd, e ≠ 0 → runs ({[ a ]} ∪ h) (err_prog_load (mk_slot (Ptr a) (xsks_map_fd s) fd) e) (set_up h)) as Herr.
  { intros e fd Hnz v Ev. eapply wp_mono; [by apply runs_err_prog_load|]. intros r w' [Hr Hh]. by eapply set_up_fail. }
  eapply runs_quiet; [apply quiet_lookup_map|]. intros fd Hfd.
  destruct (fd =? - ENOENT); [by apply runs_map_lookup|]. destruct (Z.ltb_spec fd 0); [apply Herr; lia|].
  eapply runs_quiet; [apply quiet_update; auto|]. intros n _. destruct (Z.ltb_spec n 0); [apply Herr; lia|].
  destruct (n =? 0); [|by apply runs_map_lookup].
  eapply runs_quiet; [apply quiet_fclose|]. intros _ _.
  eapply runs_bind; [by apply runs_close; [intros b [= <-]|]|]. intros _ h' ->.
  replace (({[ a ]} ∪ h) ∖ {[ a ]}) with h by set_solver. apply runs_setup_new.
Qed.

Lemma runs_release h c s a :
  xdp_prog s = Ptr a → a ∈ h → slot_ok s →
  runs h (xsk_delete_map_entry (xsks_map_fd s) (v_queue_id c) ;;; xsk_release_xdp_prog c s)
    (λ _ h', h' = h ∖ {[ a ]}).
Proof.
  intros Hs Ha Hok. eapply runs_quiet; [apply quiet_delete_entry|]. intros _ _. unfold xsk_release_xdp_prog.
  eapply (runs_bind _ _ _ (λ _ h', h' = h)).
  - destruct (Z.ltb_spec (refcnt_map_fd s) 0); [by apply runs_ret|].
    eapply runs_quiet; [by apply quiet_update, Hok|]. intros v _. destruct (v =? 0); [|by apply runs_ret].
    rewrite Hs. eapply runs_bind; [by apply runs_detach|]. intros _ h' ->. by apply runs_ret.
  - intros _ h' ->. rewrite Hs. by apply runs_close; [intros b [= <-]|].
Qed.
End contract.

(** The interface between the two parts of [xsk.c]. *)
Class ProgramContract : Prop := {
  contract_setup : ∀ h c s, runs h (setup_xdp_prog c s) (set_up h);
  contract_release : ∀ h c s a, xdp_prog s = Ptr a → a ∈ h → slot_ok s →
    runs h (xsk_delete_map_entry (xsks_map_fd s) (v_queue_id c) ;;; xsk_release_xdp_prog c s)
      (λ _ h', h' = h ∖ {[ a ]}) }.

Lemma xsk_env_contract : xsk_env → ProgramContract.
Proof. intros env. split; [by apply runs_setup|by apply runs_release]. Qed.

(** Setting up the program of a socket always returns; on success the
    context owns exactly one program object more, and the count of users is
    reached through a map of the right shape; on failure every program object
    that was made on the way has been released. *)
Theorem setup_owns_one (env : xsk_env) c s (w : world K) :
  ∃ err s' w', setup_xdp_prog c s w = Some (err, s', w') ∧
    (err = 0 → ∃ a, xdp_prog s' = Ptr a ∧ (a ∉ dom (heap w)) ∧ dom (heap w') = {[ a ]} ∪ dom (heap w) ∧ slot_ok s') ∧
    (err ≠ 0 → dom (heap w') = dom (heap w)).
Proof.
  pose proof (runs_setup env _ c s w eq_refl) as Hw. apply wp_run in Hw as ([e s'] & w' & E & Hs). by exists e, s', w'.
Qed.

(** ** Sharing the program

    The processes that use the program count themselves in one map; process [i]
    has the descriptor [fd i] of it.  [value] is what the map holds: a lookup
    that succeeds returns it, and only a successful update changes it. *)
Section sharing.
Context (fd : nat → Z) (value : K → list Z).

Record shared_map : Prop := {
  sm_lookup : ∀ i k v, k_map_lookup (fd i) k = inr v → v = value k;
  sm_lookup_err : ∀ i k e, k_map_lookup (fd i) k = inl e → 0 < e;
  sm_info : ∀ i k m, x_map_info (fd i) k = inr m → 4 ≤ xm_value_size m;
  sm_info_err : ∀ i k e, x_map_info (fd i) k = inl e → 0 < e;
  sm_update : ∀ i v k e k', x_map_update (fd i) 0 v k = (e, k') →
    0 ≤ e ∧ value k' = if e =? 0 then v else value k;
  sm_alloc : ∀ k, value (k_alloc k).2 = value k;
  sm_lock : ∀ k, value (k_lock k).2 = value k;
  sm_unlock : ∀ l k, value (k_unlock l k) = value k }.

(** Who holds the lock of the library.  One request of process [i]: a lock that
    can be taken is waited for as long as another process holds it. *)
Definition act (i : nat) (t : refcnt_steps) (k : K) (holder : option nat) : option (refcnt_steps * K * option nat) :=
  match t with
  | Ret _ | Crash => None
  | Info fd next => Some (next (x_map_info fd k), k, holder)
  | Alloc next => let (ok, k') := k_alloc k in Some (next ok, k', holder)
  | Lock next =>
    let (l, k') := k_lock k in
    if l <? 0 then Some (next l, k', holder)
    else match holder with None => Some (next l, k', Some i) | Some _ => None end
  | Lookup fd next => Some (next (k_map_lookup fd k), k, holder)
  | Update fd v next => let (e, k') := x_map_update fd 0 v k in Some (next e, k', holder)
  | Unlock l next => Some (next, k_unlock l k, if decide (holder = Some i) then None else holder)
  end.

(** The requests of a process that is not disturbed are those of the code. *)
Lemma perform_act i t t' holder holder' (w : world K) k' : act i t (kern w) holder = Some (t', k', holder') →
  perform t w = perform t' (mk_world k' (errno w) (heap w) (mps w) (calls w)).
Proof.
  destruct w as [k er h ms cs]. cbn [kern]. destruct t as [r| |f n|n|n|f n|f v n|l n]; cbn [act perform]; unfold pbind, kread, kop; cbn [kern].
  - done.
  - done.
  - by intros [= <- <- _].
  - destruct (k_alloc k). by intros [= <- <- _].
  - destruct (k_lock k). destruct (_ <? _); [by intros [= <- <- _]|]. destruct holder; [done|]. by intros [= <- <- _].
  - by intros [= <- <- _].
  - destruct (x_map_update f 0 v k). by intros [= <- <- _].
  - by intros [= <- <- _].
Qed.

(** What a process does: it uses the program, or it is about to join ([up]) or to
    leave, with the requests [t] still to make.  Other processes have no business
    with the program. *)
Inductive process := User | Updating (up : bool) (t : refcnt_steps).
Definition delta (up : bool) : Z := if up then 1 else -1.

(** The kernel, the holder of the lock, the processes, the references that were
    taken and will not be given back, and whether somebody was told to take the
    program off. *)
Record sharing := mk_sharing {
  sh_kern : K; holder : option nat; procs : gmap nat process; lost : nat; taken_off : bool }.
Definition is_user (p : process) : bool := match p with User => true | Updating _ _ => false end.
Definition users (s : sharing) : gset nat := dom (filter (λ ip, is_user ip.2 = true) (procs s)).
Definition set_procs (s : sharing) (p : gmap nat process) : sharing :=
  mk_sharing (sh_kern s) (holder s) p (lost s) (taken_off s).

(** A step of process [i] that is joining or leaving: a request, or the return
    from the update.  The one that leaves and fails leaves its reference behind;
    the one that sees the count reach 0 takes the program off. *)
Inductive proceed (i : nat) (s : sharing) : sharing → Prop :=
  | proceed_act up t t' k' h' :
      procs s !! i = Some (Updating up t) → act i t (sh_kern s) (holder s) = Some (t', k', h') →
      proceed i s (mk_sharing k' h' (<[i := Updating up t']> (procs s)) (lost s) (taken_off s))
  | proceed_joined r :
      procs s !! i = Some (Updating true (Ret r)) →
      proceed i s (set_procs s (if 0 <? r then <[i := User]> (procs s) else delete i (procs s)))
  | proceed_left r :
      procs s !! i = Some (Updating false (Ret r)) →
      proceed i s (mk_sharing (sh_kern s) (holder s) (delete i (procs s))
                     (if r <? 0 then S (lost s) else lost s) (taken_off s || (r =? 0))).

(** The other steps: to begin to join, with less than 2^31 - 1 references around;
    to begin to leave; to end without leaving, as a set-up that fails after it
    joined does; and whatever else happens in the kernel. *)
Inductive share (s : sharing) : sharing → Prop :=
  | share_proceed i s' : proceed i s s' → share s s'
  | share_join i :
      procs s !! i = None → Z.of_nat (base.size (procs s) + lost s) < 2 ^ 31 - 1 →
      share s (set_procs s (<[i := Updating true (update_steps (fd i) 1)]> (procs s)))
  | share_leave i :
      procs s !! i = Some User →
      share s (set_procs s (<[i := Updating false (update_steps (fd i) (-1))]> (procs s)))
  | share_abandon i :
      procs s !! i = Some User →
      share s (mk_sharing (sh_kern s) (holder s) (delete i (procs s)) (S (lost s)) (taken_off s))
  | share_other k' :
      value k' = value (sh_kern s) → share s (mk_sharing k' (holder s) (procs s) (lost s) (taken_off s)).

(** The process that attached the program is its first user. *)
Definition share_start (s : sharing) : Prop :=
  holder s = None ∧ (∃ i, procs s = {[ i := User ]}) ∧ lost s = 0%nat ∧ taken_off s = false ∧
  refcnt_of (value (sh_kern s)) = 1.

(** Nobody is in the middle of an update. *)
Definition at_rest (s : sharing) : Prop := users s = dom (procs s).

Lemma refcnt_set v n : - 2 ^ 31 ≤ n < 2 ^ 31 → refcnt_of (set_refcnt v n) = n.
Proof.
  intros Hn. unfold refcnt_of, set_refcnt. rewrite take_app_length' by (by rewrite length_le_bytes).
  rewrite le_val_le_bytes. change (8 * 4%nat) with 32. unfold sint. rewrite wrap_wrap. unfold wrap.
  change (2 ^ (32 - 1)) with (2 ^ 31). destruct (Z.ltb_spec (n mod 2 ^ 32) (2 ^ 31)); dlia.
Qed.

(** ** How far an update is

    Without the lock and without effect; with the lock; with the lock and the
    value seen; with the lock and the count changed to [n]; the lock given back
    after a count of 0 was seen; given back after the change. *)
Inductive phase := Free | Held | Seen (v : list Z) | Changed (n : Z) | Gone | Over (n : Z).
Definition locked (ph : phase) : bool :=
  match ph with Held | Seen _ | Changed _ => true | _ => false end.

(** The requests [t] are right from the phase [ph] on. *)
Fixpoint safe (f d : Z) (t : refcnt_steps) (ph : phase) : Prop :=
  match t with
  | Ret r => match ph with Free => r < 0 | Gone => r = 0 | Over n => r = n | _ => False end
  | Crash => False
  | Info f' next => f' = f ∧ ∀ m, match m with inl e => 0 < e | inr m => 4 ≤ xm_value_size m end → safe f d (next m) ph
  | Alloc next => ∀ ok, safe f d (next ok) ph
  | Lock next => ph = Free ∧ ∀ l, safe f d (next l) (if l <? 0 then Free else Held)
  | Lookup f' next => f' = f ∧ ph = Held ∧ ∀ r, match r with inl e => 0 < e → safe f d (next r) Held | inr v => safe f d (next r) (Seen v) end
  | Update f' v' next =>
    f' = f ∧ ∃ v, ph = Seen v ∧ refcnt_of v ≠ 0 ∧ v' = set_refcnt v (s32 (refcnt_of v + d)) ∧
      ∀ e, 0 ≤ e → safe f d (next e) (if e =? 0 then Changed (s32 (refcnt_of v + d)) else Seen v)
  | Unlock l next =>
    match ph with
    | Held => safe f d next Free
    | Seen v => safe f d next (if refcnt_of v =? 0 then Gone else Free)
    | Changed n => safe f d next (Over n)
    | _ => False
    end
  end.

Lemma update_safe f d : safe f d (update_steps f d) Free.
Proof.
  unfold update_steps. cbn [safe]. split; [done|]. intros [e|m] Hm; cbn [safe]; [lia|]. intros [|]; cbn [negb safe]; [|done].
  split; [done|]. intros l. destruct (Z.ltb_spec l 0); cbn [safe]; [done|]. split; [done|]. split; [done|]. intros [e|v]; cbn [safe]; [lia|].
  destruct (Z.ltb_spec (xm_value_size m) 4); [lia|]. destruct (Z.eqb_spec (refcnt_of v) 0) as [E|E]; cbn [safe].
  { by rewrite (proj2 (Z.eqb_eq _ _) E). }
  split; [done|]. exists v. split_and!; [done..|]. intros e He. destruct (Z.eqb_spec e 0) as [->|]; cbn [safe]; [done|].
  rewrite (proj2 (Z.eqb_neq _ _)) by done. cbn [safe]. lia.
Qed.

(** What a request does to the phase of process [i], the value in the map and the
    holder of the lock. *)
Inductive moves (i : nat) (d : Z) (v : list Z) : phase → option nat → phase → list Z → option nat → Prop :=
  | mv_same ph h : moves i d v ph h ph v h
  | mv_seen h : moves i d v Held h (Seen v) v h
  | mv_lock : moves i d v Free None Held v (Some i)
  | mv_unlock_held : moves i d v Held (Some i) Free v None
  | mv_unlock_seen : moves i d v (Seen v) (Some i) (if refcnt_of v =? 0 then Gone else Free) v None
  | mv_unlock_changed n : moves i d v (Changed n) (Some i) (Over n) v None
  | mv_change n h : refcnt_of v ≠ 0 → n = s32 (refcnt_of v + d) →
      moves i d v (Seen v) h (Changed n) (set_refcnt v n) h.

Lemma act_moves (sm : shared_map) i d t ph k h t' k' h' :
  safe (fd i) d t ph → (locked ph = true ↔ h = Some i) → (∀ v, ph = Seen v → v = value k) →
  act i t k h = Some (t', k', h') →
  ∃ ph', safe (fd i) d t' ph' ∧ moves i d (value k) ph h ph' (value k') h'.
Proof.
  intros Hs Hl Hv. destruct t as [r| |f n|n|n|f n|f v n|l n]; cbn [act safe] in *.
  - done.
  - done.
  - destruct Hs as [-> Hs]. intros [= <- <- <-]. exists ph. split; [|constructor]. apply Hs.
    destruct (x_map_info _ _) eqn:E; [by eapply sm_info_err|by eapply sm_info].
  - pose proof (sm_alloc sm k) as Ha. destruct (k_alloc k) as [ok k1]. cbn in Ha. intros [= <- <- <-].
    exists ph. rewrite Ha. split; [done|constructor].
  - destruct Hs as [-> Hs]. pose proof (sm_lock sm k) as Ha. destruct (k_lock k) as [l k1]. cbn in Ha. specialize (Hs l).
    destruct (l <? 0); [|destruct h; [done|]]; intros [= <- <- <-]; rewrite Ha; eexists; (split; [exact Hs|constructor]).
  - destruct Hs as (-> & -> & Hs). intros [= <- <- <-]. destruct (k_map_lookup (fd i) k) as [e|v] eqn:E.
    + exists Held. split; [by apply (Hs (inl e)), (sm_lookup_err sm i k)|constructor].
    + apply (sm_lookup sm) in E as ->. exists (Seen (value k)). split; [apply (Hs (inr _))|constructor].
  - destruct Hs as (-> & v1 & -> & Hnz & -> & Hs). destruct (x_map_update _ _ _ k) as [e k1] eqn:E.
    apply (sm_update sm) in E as [He Hk1]. intros [= <- <- <-]. specialize (Hs e He). specialize (Hv v1 eq_refl). subst v1.
    rewrite Hk1. destruct (e =? 0); eexists; (split; [exact Hs|by constructor]).
  - intros [= <- <- <-]. rewrite (sm_unlock sm). destruct ph; try done.
    all: assert (h = Some i) as -> by (by apply Hl); rewrite decide_True by done.
    2: rewrite (Hv _ eq_refl) in Hs |- *.
    all: eexists; (split; [exact Hs|constructor]).
Qed.

(** ** The invariant

    Whether a process is counted, by its phase. *)
Definition outcome (up : bool) (ph : phase) (v : list Z) (counted : bool) : Prop :=
  match ph with
  | Changed n | Over n => counted = up ∧ if up then 0 < n else 0 ≤ n ∧ (n = 0 → refcnt_of v = 0)
  | Gone => up = true ∧ counted = false
  | _ => counted = negb up
  end.
Definition proc_ok (v : list Z) (h : option nat) (i : nat) (p : option process) (counted : bool) (ph : phase) : Prop :=
  match p with
  | None => counted = false ∧ h ≠ Some i
  | Some User => counted = true ∧ h ≠ Some i
  | Some (Updating up t) =>
    safe (fd i) (delta up) t ph ∧ (locked ph = true ↔ h = Some i) ∧ (∀ v', ph = Seen v' → v' = v) ∧ outcome up ph v counted
  end.
(** [i] is about to be told to take the program off. *)
Definition ending (Φ : nat → phase) (s : sharing) : Prop :=
  ∃ i t, procs s !! i = Some (Updating false t) ∧ (Φ i = Changed 0 ∨ Φ i = Over 0).

Notation val s := (value (sh_kern s)).
Definition procs_ok (Φ : nat → phase) (C : gset nat) (s : sharing) : Prop :=
  ∀ i, proc_ok (val s) (holder s) i (procs s !! i) (bool_decide (i ∈ C)) (Φ i).
Definition counts_ok (Φ : nat → phase) (C : gset nat) (s : sharing) : Prop :=
  refcnt_of (val s) = Z.of_nat (base.size C + lost s) ∧ Z.of_nat (base.size (procs s) + lost s) < 2 ^ 31 ∧
  (taken_off s = true → refcnt_of (val s) = 0) ∧ (refcnt_of (val s) = 0 → taken_off s = true ∨ ending Φ s).
Definition share_inv (s : sharing) : Prop := ∃ Φ C, procs_ok Φ C s ∧ counts_ok Φ C s.

Lemma counted_procs Φ C s : procs_ok Φ C s → C ⊆ dom (procs s).
Proof.
  intros Hp i Hi. specialize (Hp i). rewrite bool_decide_eq_true_2 in Hp by done. apply elem_of_dom.
  destruct (procs s !! i); [eauto|by destruct Hp].
Qed.

(** Only process [i] is concerned. *)
Lemma procs_ok_one Φ C s i ph' C' s' :
  procs_ok Φ C s → (∀ j, j ≠ i → procs s' !! j = procs s !! j) → (∀ j, j ≠ i → (j ∈ C' ↔ j ∈ C)) →
  (∀ j, j ≠ i → (holder s' = Some j ↔ holder s = Some j)) →
  (val s' = val s ∨ holder s = Some i ∧ refcnt_of (val s) ≠ 0) →
  proc_ok (val s') (holder s') i (procs s' !! i) (bool_decide (i ∈ C')) ph' →
  procs_ok (<[i := ph']> Φ) C' s'.
Proof.
  intros Hp Hj HC Hh Hv Hi j. destruct (decide (j = i)) as [->|Hne]; [by rewrite fn_lookup_insert|].
  rewrite fn_lookup_insert_ne by done. specialize (Hp j). rewrite Hj by done. rewrite (bool_decide_ext _ _ (HC j Hne)).
  specialize (Hh j Hne). unfold proc_ok in *. destruct (procs s !! j) as [[|up t]|]; [by rewrite Hh| |by rewrite Hh].
  destruct Hp as (Hs & Hl & Hsee & Ho). split; [done|]. split; [by rewrite Hh|].
  destruct Hv as [->|[Hold Hnz]]; [done|]. assert (locked (Φ j) = false) as Hlock by (destruct (locked (Φ j)); [|done]; destruct Hl as [Hl _]; specialize (Hl eq_refl); congruence).
  split; [intros v' E; by rewrite E in Hlock|]. unfold outcome in *. destruct (Φ j); try done; destruct Ho as [? Ho]; split; try done; destruct up; try done; destruct Ho as [? Ho]; split; try done; intros ?; by destruct Hnz, Ho.
Qed.

Lemma size_remove (X : gset nat) i : i ∈ X → S (base.size (X ∖ {[ i ]})) = base.size X.
Proof. intros Hi. rewrite size_difference, size_singleton by set_solver. assert (base.size X ≠ 0%nat); [|lia].
  intros E%size_empty_inv. set_solver.
Qed.

Lemma counted_size Φ C s i : procs_ok Φ C s → is_Some (procs s !! i) → (i ∉ C) → (base.size C < base.size (procs s))%nat.
Proof.
  intros Hp Hi%elem_of_dom Hn. rewrite <- (size_dom (D := gset nat)). apply (subset_size (C := gset nat)).
  pose proof (counted_procs _ _ _ Hp). set_solver.
Qed.

Lemma procs_remove s i p : procs s !! i = Some p → S (base.size (delete i (procs s))) = base.size (procs s).
Proof.
  intros Hi. rewrite map_size_delete, Hi. assert (base.size (procs s) ≠ 0%nat); [|lia].
  intros E%map_size_empty_inv. by rewrite E in Hi.
Qed.

(** A process that is about to take the program off stays so while another, or
    none, changes. *)
Lemma ending_insert Φ s s' i ph up t t' :
  procs s !! i = Some (Updating up t) → procs s' = <[i := Updating up t']> (procs s) →
  (Φ i = Changed 0 ∨ Φ i = Over 0 → ph = Changed 0 ∨ ph = Over 0) → ending Φ s → ending (<[i := ph]> Φ) s'.
Proof.
  intros Hi Hs Hph (j & u & Hj & HΦ). exists j. rewrite Hs. destruct (decide (j = i)) as [->|Hne].
  - exists t'. rewrite lookup_insert_eq, fn_lookup_insert. split; [congruence|auto].
  - exists u. rewrite lookup_insert_ne, fn_lookup_insert_ne by done. done.
Qed.
Lemma ending_other Φ s s' i ph :
  (∀ j, j ≠ i → procs s' !! j = procs s !! j) → (∀ t, procs s !! i = Some (Updating false t) → Φ i ≠ Changed 0 ∧ Φ i ≠ Over 0) →
  ending Φ s → ending (<[i := ph]> Φ) s'.
Proof.
  intros Hs Hi (j & u & Hj & HΦ). exists j, u. destruct (decide (j = i)) as [->|Hne].
  - destruct (Hi u Hj). by destruct HΦ.
  - by rewrite fn_lookup_insert_ne, Hs.
Qed.

(** The processes after a request of process [i]. *)
Lemma procs_after s k' h' i p p' : procs s !! i = Some p →
  let s' := mk_sharing k' h' (<[i := p']> (procs s)) (lost s) (taken_off s) in
  base.size (procs s') = base.size (procs s) ∧ procs s' !! i = Some p' ∧ ∀ j, j ≠ i → procs s' !! j = procs s !! j.
Proof.
  intros Hi. cbn. rewrite map_size_insert, Hi, lookup_insert_eq. split_and!; [done..|]. intros j ?. by rewrite lookup_insert_ne.
Qed.

(** One request that leaves the value alone. *)
Lemma moves_keep (Φ : nat → phase) C s i up t t' ph' k' h' :
  procs_ok Φ C s → counts_ok Φ C s → procs s !! i = Some (Updating up t) → safe (fd i) (delta up) t' ph' →
  value k' = val s → (∀ j, j ≠ i → (h' = Some j ↔ holder s = Some j)) → (locked ph' = true ↔ h' = Some i) →
  (∀ v', ph' = Seen v' → v' = val s) → outcome up ph' (val s) (bool_decide (i ∈ C)) →
  (Φ i = Changed 0 ∨ Φ i = Over 0 → ph' = Changed 0 ∨ ph' = Over 0) →
  share_inv (mk_sharing k' h' (<[i := Updating up t']> (procs s)) (lost s) (taken_off s)).
Proof.
  intros Hp (Hr & Hb & Ht & He) Hi Hs Ek Hh Hl' Hsee' Ho' He'.
  destruct (procs_after s k' h' i _ (Updating up t') Hi) as (Hsz & Hi' & Hj). exists (<[i := ph']> Φ), C. split.
  - eapply procs_ok_one; [exact Hp|exact Hj|done|exact Hh|by left|]. rewrite Hi'. cbn. by rewrite Ek.
  - unfold counts_ok. rewrite Hsz. cbn [sh_kern lost taken_off]. rewrite Ek. split_and!; [done..|]. intros [?|?]%He; [by left|right].
    by eapply (ending_insert Φ s _ i ph' up t t').
Qed.

(** The request that changes it. *)
Lemma moves_change (Φ : nat → phase) C s i up t t' k' :
  let n := s32 (refcnt_of (val s) + delta up) in
  procs_ok Φ C s → counts_ok Φ C s → procs s !! i = Some (Updating up t) → safe (fd i) (delta up) t' (Changed n) →
  Φ i = Seen (val s) → refcnt_of (val s) ≠ 0 → value k' = set_refcnt (val s) n →
  share_inv (mk_sharing k' (holder s) (<[i := Updating up t']> (procs s)) (lost s) (taken_off s)).
Proof.
  intros n Hp (Hr & Hb & Ht & He) Hi Hs Hph Hnz Hk. pose proof (Hp i) as Hpi. rewrite Hi in Hpi. destruct Hpi as (_ & Hl & _ & Ho).
  rewrite Hph in Hl, Ho. cbn in Ho. assert (holder s = Some i) as Hh by (by apply Hl).
  destruct (procs_after s k' (holder s) i _ (Updating up t') Hi) as (Hsz & Hi' & Hj).
  set (C' := if up then {[ i ]} ∪ C else C ∖ {[ i ]}).
  assert (n = Z.of_nat (base.size C' + lost s) ∧ 0 ≤ n < 2 ^ 31 ∧ (up = true → 0 < n)) as (Hn & Hnb & Hnu).
  { unfold n, C'. rewrite Hr. destruct up; cbn in Ho |- *.
    - apply bool_decide_eq_false in Ho. pose proof (counted_size _ _ _ _ Hp ltac:(eauto) Ho).
      rewrite size_union, size_singleton, (sint_small 32) by (lia || set_solver). lia.
    - apply bool_decide_eq_true in Ho. pose proof (subseteq_size _ _ (counted_procs _ _ _ Hp)) as Hcs. rewrite size_dom in Hcs.
      apply size_remove in Ho. rewrite (sint_small 32) by lia. lia. }
  assert (refcnt_of (value k') = n) as Hv' by (rewrite Hk; apply refcnt_set; lia).
  exists (<[i := Changed n]> Φ), C'. split.
  - eapply procs_ok_one; [exact Hp|exact Hj| |done|by right|].
    + intros j Hne. unfold C'. destruct up; set_solver.
    + rewrite Hi'. split; [done|]. split; [by cbn; rewrite Hh|]. split; [done|]. cbn. split.
      * unfold C'. destruct up; [apply bool_decide_eq_true|apply bool_decide_eq_false]; set_solver.
      * destruct up; [by apply Hnu|]. split; [lia|]. by rewrite Hv'.
  - unfold counts_ok. rewrite Hsz. cbn [sh_kern lost taken_off]. rewrite Hv'. split_and!; [done|done|by intros ?%Ht|]. intros E0. right.
    exists i, t'. rewrite Hi', fn_lookup_insert, E0. destruct up; [specialize (Hnu eq_refl); lia|auto].
Qed.

Lemma moves_inv (Φ : nat → phase) C s i up t t' ph' k' h' :
  procs_ok Φ C s → counts_ok Φ C s → procs s !! i = Some (Updating up t) →
  safe (fd i) (delta up) t' ph' → moves i (delta up) (val s) (Φ i) (holder s) ph' (value k') h' →
  share_inv (mk_sharing k' h' (<[i := Updating up t']> (procs s)) (lost s) (taken_off s)).
Proof.
  intros Hp Hc Hi Hs Hm. pose proof (Hp i) as Hpi. rewrite Hi in Hpi. destruct Hpi as (_ & Hl & Hsee & Ho).
  pose proof (λ C, moves_keep Φ C s i up t t' ph' k' h') as Hkeep.
  inversion Hm as [ph h E1 E2 E3 E4 E5|h E1 E2 E3 E4 E5|E1 E2 E3 E4 E5|E1 E2 E3 E4 E5|E1 E2 E3 E4 E5|n E1 E2 E3 E4 E5|n h Hnz Hn E1 E2 E3 E4 E5]; subst.
  - by apply (Hkeep C).
  - apply (Hkeep C); try done; rewrite <- E1 in *; try done; [|by intros [?|?]]. by intros v' [= <-].
  - apply (Hkeep C); try done; rewrite <- E1 in *; try done; [|by intros [?|?]]. intros j Hne. split; [intros [= ->]; done|by rewrite <- E2].
  - apply (Hkeep C); try done; rewrite <- E1 in *; try done; [|by intros [?|?]]. intros j Hne. split; [done|rewrite <- E2; by intros [= ->]].
  - assert (up = true ∨ refcnt_of (val s) ≠ 0) as Hup.
    { destruct up; [by left|right]. rewrite <- E1 in Ho. cbn in Ho. apply bool_decide_eq_true in Ho. apply size_remove in Ho.
      destruct Hc as (Hr & _). lia. }
    apply (Hkeep C); try done; rewrite <- E1 in *; cbn in Ho.
    + intros j Hne. split; [done|rewrite <- E2; by intros [= ->]].
    + by destruct (_ =? _).
    + by destruct (_ =? _).
    + destruct (Z.eqb_spec (refcnt_of (val s)) 0); [|done]. destruct Hup as [->|]; done.
    + by intros [?|?].
  - apply (Hkeep C); try done; rewrite <- E1 in *; try done; [|by intros [[= ->]|?]; auto]. intros j Hne. split; [done|rewrite <- E2; by intros [= ->]].
  - by eapply moves_change.
Qed.

(** A process that begins, ends or leaves: the others go on. *)
Lemma inv_change Φ (C : gset nat) s i ph' (C' : gset nat) s' :
  procs_ok Φ C s → counts_ok Φ C s → sh_kern s' = sh_kern s → holder s' = holder s →
  (∀ j, j ≠ i → procs s' !! j = procs s !! j) → (∀ j, j ≠ i → (j ∈ C' ↔ j ∈ C)) →
  proc_ok (val s) (holder s) i (procs s' !! i) (bool_decide (i ∈ C')) ph' →
  (base.size C' + lost s' = base.size C + lost s)%nat → Z.of_nat (base.size (procs s') + lost s') < 2 ^ 31 →
  (taken_off s' = true → taken_off s = true ∨ refcnt_of (val s) = 0) → (taken_off s = true → taken_off s' = true) →
  (∀ t, procs s !! i = Some (Updating false t) → (Φ i ≠ Changed 0 ∧ Φ i ≠ Over 0) ∨ taken_off s' = true) →
  share_inv s'.
Proof.
  intros Hp (Hr & Hb & Ht & He) Ek Eh Hj HC Hi Hsz Hb' Ht1 Ht2 Hend. exists (<[i := ph']> Φ), C'. split.
  - eapply procs_ok_one; [exact Hp|done|done|by rewrite Eh|left; by rewrite Ek|]. by rewrite Ek, Eh.
  - unfold counts_ok. rewrite Ek, Hsz. split_and!; [done|done| |].
    + intros [?|?]%Ht1; auto.
    + intros [?|He']%He; [by left; auto|]. destruct (decide (taken_off s' = true)); [by left|right].
      eapply ending_other; [exact Hj| |done]. intros t Et. by destruct (Hend t Et).
Qed.

Lemma proceed_inv (sm : shared_map) i s s' : share_inv s → proceed i s s' → share_inv s'.
Proof.
  intros (Φ & C & Hp & Hc) Hs. pose proof (Hp i) as Hpi. pose proof Hc as (Hr & Hb & _).
  pose proof (procs_remove s i) as Hsz.
  assert (∀ p j, j ≠ i → <[i := p]> (procs s) !! j = procs s !! j) as Hins by (intros; by apply lookup_insert_ne).
  assert (∀ j, j ≠ i → delete i (procs s) !! j = procs s !! j) as Hdel by (intros; by apply lookup_delete_ne).
  inversion Hs as [up t t' k' h' Hi Ha|r Hi|r Hi]; subst; rewrite Hi in Hpi; destruct Hpi as (Hsafe & Hl & Hsee & Ho).
  - destruct (act_moves sm _ _ _ _ _ _ _ _ _ Hsafe Hl Hsee Ha) as (ph' & Hsafe' & Hm). by eapply moves_inv.
  - assert (holder s ≠ Some i) as Hh by (intros E; apply Hl in E; cbn in Hsafe; by destruct (Φ i)).
    assert (if 0 <? r then i ∈ C else i ∉ C) as HC.
    { cbn in Hsafe, Ho. destruct (Φ i); try done.
      - rewrite (proj2 (Z.ltb_ge _ _)) by lia. by apply bool_decide_eq_false in Ho.
      - subst r. destruct Ho as [_ Ho]. by apply bool_decide_eq_false in Ho.
      - destruct Ho as [Ho ?]. subst r. rewrite (proj2 (Z.ltb_lt _ _)) by lia. by apply bool_decide_eq_true in Ho. }
    specialize (Hsz _ Hi). destruct (0 <? r); eapply (inv_change Φ C s i Free C); cbn [set_procs sh_kern holder procs lost taken_off]; eauto; try done.
    + rewrite lookup_insert_eq. split; [by apply bool_decide_eq_true|done].
    + by rewrite map_size_insert, Hi.
    + intros t. by rewrite Hi.
    + rewrite lookup_delete_eq. split; [by apply bool_decide_eq_false|done].
    + lia.
    + intros t. by rewrite Hi.
  - assert (holder s ≠ Some i) as Hh by (intros E; apply Hl in E; cbn in Hsafe; by destruct (Φ i)). specialize (Hsz _ Hi).
    cbn in Hsafe, Ho. destruct (Φ i) as [| | | | |n] eqn:HΦ; try done; [| by destruct Ho|].
    + apply bool_decide_eq_true in Ho. pose proof (size_remove _ _ Ho).
      eapply (inv_change Φ C s i Free (C ∖ {[ i ]})); cbn [sh_kern holder procs lost taken_off]; rewrite ?(proj2 (Z.ltb_lt _ _)), ?(proj2 (Z.eqb_neq r 0)), ?orb_false_r by lia; eauto; try done.
      * set_solver.
      * rewrite lookup_delete_eq. split; [apply bool_decide_eq_false; set_solver|done].
      * lia.
      * lia.
      * left. by rewrite HΦ.
    + destruct Ho as [Ho [Hn Hz]]. subst n. apply bool_decide_eq_false in Ho.
      eapply (inv_change Φ C s i Free C); cbn [sh_kern holder procs lost taken_off]; rewrite ?(proj2 (Z.ltb_ge _ _)) by lia; eauto; try done.
      * rewrite lookup_delete_eq. split; [by apply bool_decide_eq_false|done].
      * lia.
      * rewrite orb_true_iff, Z.eqb_eq. intros [?|?]; auto.
      * intros ->. done.
      * intros t _. rewrite HΦ. destruct (Z.eqb_spec r 0) as [_|]; [right; apply orb_true_r|]. left. split; [done|congruence].
Qed.

Lemma share_step (sm : shared_map) s s' : share_inv s → share s s' → share_inv s'.
Proof.
  intros Hinv Hs. inversion Hs as [i ? Hpr|i Hi Hlt|i Hi|i Hi|k' Hk]; subst; [by eapply proceed_inv|..];
    destruct Hinv as (Φ & C & Hp & Hc); pose proof Hc as (Hr & Hb & Ht & He).
  1-3: pose proof (Hp i) as Hpi; rewrite Hi in Hpi; destruct Hpi as [HC Hh].
  - eapply (inv_change Φ C s i Free C); cbn [set_procs sh_kern holder procs lost taken_off]; eauto; try done.
    + intros j ?. by rewrite lookup_insert_ne.
    + rewrite lookup_insert_eq. split; [apply update_safe|]. split; [by split|]. by rewrite HC.
    + rewrite map_size_insert, Hi. lia.
    + intros t. by rewrite Hi.
  - eapply (inv_change Φ C s i Free C); cbn [set_procs sh_kern holder procs lost taken_off]; eauto; try done.
    + intros j ?. by rewrite lookup_insert_ne.
    + rewrite lookup_insert_eq. split; [apply update_safe|]. split; [by split|]. by rewrite HC.
    + by rewrite map_size_insert, Hi.
    + intros t. by rewrite Hi.
  - apply bool_decide_eq_true in HC. pose proof (size_remove _ _ HC). pose proof (procs_remove _ _ _ Hi) as Hsz.
    eapply (inv_change Φ C s i Free (C ∖ {[ i ]})); cbn [sh_kern holder procs lost taken_off]; eauto; try done.
    + intros j ?. by rewrite lookup_delete_ne.
    + set_solver.
    + rewrite lookup_delete_eq. split; [apply bool_decide_eq_false; set_solver|done].
    + lia.
    + lia.
    + intros t. by rewrite Hi.
  - exists Φ, C. unfold procs_ok, counts_ok. cbn [sh_kern holder procs lost taken_off]. rewrite Hk. done.
Qed.

Lemma users_spec s i : i ∈ users s ↔ procs s !! i = Some User.
Proof.
  unfold users. rewrite elem_of_dom. split.
  - intros [p [Hi Hp]%map_lookup_filter_Some]. by destruct p.
  - intros Hi. exists User. by apply map_lookup_filter_Some.
Qed.

Lemma users_counted Φ C s : procs_ok Φ C s → users s ⊆ C.
Proof. intros Hp i Hi%users_spec. specialize (Hp i). rewrite Hi in Hp. destruct Hp as [HC _]. by apply bool_decide_eq_true in HC. Qed.

(** A process in the middle of an update can go on, unless it waits for one that
    can. *)
Lemma share_progress s : share_inv s → at_rest s ∨ ∃ i s', proceed i s s'.
Proof.
  intros (Φ & C & Hp & _).
  assert (∀ i up t, procs s !! i = Some (Updating up t) → (locked (Φ i) = true ∨ holder s = None) → ∃ s', proceed i s s') as Hgo.
  { intros i up t Hi Hl. pose proof (Hp i) as Hpi. rewrite Hi in Hpi. destruct Hpi as (Hs & _).
    destruct (act i t (sh_kern s) (holder s)) as [[[t' k'] h']|] eqn:Ea; [eexists; by eapply proceed_act|].
    destruct t as [r| |? ?|?|?|? ?|? ? ?|? ?]; cbn in Ea, Hs; try done.
    - destruct up; eexists; [by eapply proceed_joined|by eapply proceed_left].
    - by destruct (k_alloc _).
    - destruct Hs as [Hph _]. rewrite Hph in Hl. destruct Hl as [?|E]; [done|]. rewrite E in Ea. destruct (k_lock _). by destruct (_ <? _).
    - by destruct (x_map_update _ _ _ _). }
  destruct (holder s) as [j|] eqn:Eh.
  - right. pose proof (Hp j) as Hj. rewrite Eh in Hj. destruct (procs s !! j) as [[|up t]|] eqn:Ej; [by destruct Hj| |by destruct Hj].
    destruct Hj as (_ & Hl & _). exists j. eapply Hgo; [done|]. left. by apply Hl.
  - destruct (decide (at_rest s)) as [|Hn]; [by left|right].
    destruct (set_choose_L (dom (procs s) ∖ users s)) as [i Hi].
    { intros E. apply Hn, (anti_symm (⊆)); [|set_solver]. intros i Hi%users_spec. apply elem_of_dom. eauto. }
    apply elem_of_difference in Hi as [[p Hi]%elem_of_dom Hu]. rewrite users_spec in Hu. destruct p as [|up t]; [done|].
    exists i. eapply Hgo; [done|by right].
Qed.

(** C24: several processes share the program of an interface, and count themselves
    in its map; each reads the count, writes the new one, and takes and gives back
    the lock, in steps between which the others run.  However they join, leave and
    fail, the count is never below the number of users plus the references that
    failed set-ups and failed releases left behind, and equals it whenever nobody
    is in the middle of an update; then somebody was told to take the program off
    if and only if there are no users and no such references.  Once somebody was
    told so there are no users and never will be.  And processes that are in the
    middle of an update never wait for each other for good. *)
Theorem sharing_counts (sm : shared_map) s0 s :
  share_start s0 → rtc share s0 s →
  let n := refcnt_of (value (sh_kern s)) in
  Z.of_nat (base.size (users s) + lost s) ≤ n ∧
  (at_rest s → n = Z.of_nat (base.size (users s) + lost s) ∧
     (taken_off s = true ↔ users s = ∅ ∧ lost s = 0%nat)) ∧
  (taken_off s = true → ∀ s', rtc share s s' → users s' = ∅ ∧ refcnt_of (value (sh_kern s')) = 0) ∧
  (at_rest s ∨ ∃ i s', proceed i s s').
Proof.
  intros (Hh & [i Hu] & Hlo & Ht & Hr) Hs n.
  assert (∀ s1 s2, share_inv s1 → rtc share s1 s2 → share_inv s2) as Hstar.
  { intros s1 s2 H1 Hr'. induction Hr'; eauto using share_step. }
  assert (share_inv s0) as Hs0.
  { exists (λ _, Free), {[ i ]}. split.
    - intros j. rewrite Hu, Hh. destruct (decide (j = i)) as [->|Hne].
      + rewrite lookup_singleton_eq. split; [apply bool_decide_eq_true; set_solver|done].
      + rewrite lookup_singleton_ne by done. split; [apply bool_decide_eq_false; set_solver|done].
    - unfold counts_ok. rewrite Hr, Hu, Hlo, Ht, size_singleton, map_size_singleton. done. }
  pose proof (Hstar _ _ Hs0 Hs) as Hinv. split_and!.
  - destruct Hinv as (Φ & C & Hp & Hc & _). apply users_counted, subseteq_size in Hp. subst n. lia.
  - intros Hrest. destruct Hinv as (Φ & C & Hp & Hc & _ & Ht1 & Ht2).
    assert (C = users s) as -> by (apply (anti_symm (⊆)); [rewrite Hrest; by eapply counted_procs|by eapply users_counted]).
    split; [done|]. split.
    + intros E%Ht1. rewrite <- (leibniz_equiv_iff (users s)), <- size_empty_iff. lia.
    + intros [Hus Hl0]. rewrite Hus, Hl0 in Hc. destruct (Ht2 Hc) as [|(j & t & Hj & _)]; [done|].
      assert (j ∈ users s) as Hju by (rewrite Hrest; apply elem_of_dom; eauto). apply users_spec in Hju. congruence.
  - intros Hoff s' Hs'. assert (taken_off s' = true) as Hoff'.
    { clear -Hoff Hs'. induction Hs' as [|x y z Hxy _ IH]; [done|]. apply IH. destruct Hxy as [j ? Hpr| | | |]; [|done..].
      destruct Hpr; cbn; by rewrite ?Hoff. }
    destruct (Hstar _ _ Hinv Hs') as (Φ & C & Hp & Hc & _ & Ht1 & _). specialize (Ht1 Hoff'). split; [|done].
    apply users_counted, subseteq_size in Hp. apply leibniz_equiv, size_empty_iff. lia.
  - by apply share_progress.
Qed.

(** The step of process [i] as a function, and a schedule of such steps. *)
Definition next (i : nat) (s : sharing) : option sharing :=
  match procs s !! i with
  | Some (Updating true (Ret r)) => Some (set_procs s (if 0 <? r then <[i := User]> (procs s) else delete i (procs s)))
  | Some (Updating false (Ret r)) =>
    Some (mk_sharing (sh_kern s) (holder s) (delete i (procs s)) (if r <? 0 then S (lost s) else lost s) (taken_off s || (r =? 0)))
  | Some (Updating up t) =>
    match act i t (sh_kern s) (holder s) with
    | Some (t', k', h') => Some (mk_sharing k' h' (<[i := Updating up t']> (procs s)) (lost s) (taken_off s))
    | None => None
    end
  | _ => None
  end.
Fixpoint nexts (l : list nat) (s : sharing) : option sharing :=
  match l with
  | [] => Some s
  | i :: l => match next i s with Some s' => nexts l s' | None => None end
  end.

(** The state after a schedule that can be followed. *)
Definition after (l : list nat) (s : sharing) : sharing := default s (nexts l s).

Lemma nexts_share l s : bool_decide (is_Some (nexts l s)) = true → rtc share s (after l s).
Proof.
  intros [s' E]%bool_decide_eq_true. unfold after. rewrite E. cbn. revert s E.
  induction l as [|i l IH]; intros s; cbn; [by intros [= ->]|]. destruct (next i s) as [s1|] eqn:E; [|done].
  intros ?%IH. eapply rtc_l; [|done]. apply (share_proceed _ i). unfold next in E. destruct (procs s !! i) as [[|up t]|] eqn:Hi; [done| |done].
  assert ((∃ r, t = Ret r) ∨ ¬ ∃ r, t = Ret r) as [[r ->]|Hn] by (destruct t; [left; eauto|right; by intros [? ?]..]); [destruct up; injection E as <-; by constructor|].
  assert (match act i t (sh_kern s) (holder s) with
    | Some (t', k', h') => Some (mk_sharing k' h' (<[i := Updating up t']> (procs s)) (lost s) (taken_off s))
    | None => None end = Some s1) as E' by (destruct t, up; try done; by destruct Hn; eauto).
  destruct (act i t _ _) as [[[t' k'] h']|] eqn:Ea; [|done]. injection E' as <-. by econstructor.
Qed.
End sharing.
End libxdp.

(** ** A concrete environment

    An interface without a program, on a system that is asked to go without
    dispatchers.  The state is the value of the map that holds the count; the
    program's maps are 7 (sockets) and 8 (count), and descriptors are 20 more
    than the identifiers. *)

Definition idle_prog : xdp_program.t :=
  mk (Some (bpf_program.mk 9 0)) true false (-1) (-1) "xsk_def_prog"%string [] 0 0 false 20 4.
Definition idle_info : prog_info := mk_info "xsk_def_prog" 0 (replicate 8 3) 0 9 2 7.

Definition idle_kernel : Kernel (list Z) := {|
  k_alloc k := (true, k);
  k_close _ k := k;
  k_dupfd fd k := (inr fd, k);
  k_prog_info _ _ := inr idle_info;
  k_btf_load _ _ := None;
  k_obj_loaded _ _ := false;
  k_obj_load _ k := (0, k);
  k_bpf_fd _ _ := 29;
  k_create_from_obj _ k := (inl (- EINVAL), k);
  k_find_dispatcher _ k := (inl (- ENOENT), k);
  k_dispatcher_map _ := false;
  k_set_rodata _ k := (- EINVAL, k);
  k_kern_compat k := (- EOPNOTSUPP, k);
  k_set_attach_target _ _ _ := - EINVAL;
  k_link_create _ _ _ k := (inl EINVAL, k);
  k_raw_tp_open _ k := (inl EINVAL, k);
  k_pin _ k := (- EINVAL, k);
  k_unpin _ k := (- EINVAL, k);
  k_query _ _ := inr (mk_query 0 0 0 XDP_ATTACHED_NONE);
  k_prog_fd_by_id _ k := (inl ENOENT, k);
  k_map_fd_by_id id k := (inr (id + 20), k);
  k_map_info _ _ := inl EINVAL;
  k_map_lookup _ k := inr k;
  k_bpffs_dir k := (inl (- ENOENT), k);
  k_lock k := (33, k);
  k_unlock _ k := k;
  k_stat _ _ := ENOENT;
  k_obj_get _ k := (inl ENOENT, k);
  k_xdp_attach _ _ _ _ k := (0, k);
  k_links _ := [];
  k_link_fd _ k := (inl ENOENT, k);
  k_link_info_ok _ _ := 0;
  k_link_detach _ k := (0, k);
  k_skip_dispatcher _ := true |}.

Definition idle_xsk : XskKernel (list Z) := {|
  x_find_file _ k := (inr idle_prog, k);
  x_prog_btf _ _ := None;
  x_map_ids _ _ := inr [7; 8];
  x_map_info fd _ := inr (if fd =? 27 then mk_xmap "xsks_map" 4 4 else mk_xmap "xsk_def_.data" 4 4);
  x_map_update fd _ v k := (0, if fd =? 28 then v else k);
  x_map_delete _ _ k := k;
  x_has_map _ _ _ := true;
  x_set_max_entries _ _ _ k := (0, k);
  x_map_create k := (inr 40, k);
  x_prog_create _ k := (inr 41, k);
  x_test_run _ _ := inr XDP_PASS;
  x_local_socket k := (inr 42, k);
  x_channels _ _ _ := inl EOPNOTSUPP;
  x_readdir _ _ := Some ["rx-0"; "tx-0"; "rx-1"]%string;
  x_indextoname _ _ := inr "eth0"%string |}.

Lemma idle_kernel_ok : kernel_ok (H := idle_kernel).
Proof.
  split; by intros * [=]; subst.
Qed.

Lemma idle_env : xsk_env (H := idle_kernel) (H0 := idle_xsk).
Proof.
  split; [apply idle_kernel_ok|..].
  - by intros fd e k k' [=].
  - by split; intros path *; intros (k0 & fd & k1 & [=] & _).
  - by intros fd k k' ids ids' [= <-] [= <-].
  - by intros fd k e [=].
  - by intros fd k k' i i' [= <-] [= <-].
  - intros f k k' p [= <- _]. by eexists.
  - by intros f k k' e [=].
  - by intros p k b [=].
  - by intros i k q [= <-].
Qed.

Definition idle_world : world (list Z) := mk_world (le_bytes 4 1) 0 ∅ ∅ [].

(** The program is found in no file but the library's, attached, and owned. *)
Lemma setup_owns_one_witness :
  let c := mk_view 3 "eth0"%string 0 true 50 0 in
  ∃ s' w', setup_xdp_prog (H := idle_kernel) (H0 := idle_xsk) c (mk_slot Null 0 0) idle_world = Some (0, s', w') ∧
    refcnt_map_fd s' = 28 ∧ length (calls w') = 1%nat ∧ ∃ a, xdp_prog s' = Ptr a ∧ dom (heap w') = {[ a ]}.
Proof.
  cbn zeta. set (c := mk_view _ _ _ _ _ _).
  assert (∃ s' w', setup_xdp_prog (H := idle_kernel) (H0 := idle_xsk) c (mk_slot Null 0 0) idle_world = Some (0, s', w') ∧
    refcnt_map_fd s' = 28 ∧ length (calls w') = 1%nat) as (s' & w' & E & Hr & Hc)
    by (eexists _, _; split; [vm_compute; reflexivity|split; reflexivity]).
  destruct (setup_owns_one (H := idle_kernel) (H0 := idle_xsk) idle_env c (mk_slot Null 0 0) idle_world)
    as (err & s1 & w1 & E1 & H1 & _).
  rewrite E in E1. injection E1 as <- <- <-. exists s', w'. split; [exact E|]. clear E. split; [exact Hr|]. split; [exact Hc|].
  destruct (H1 eq_refl) as (a & Ea & _ & Ed & _). exists a. split; [exact Ea|]. rewrite Ed. cbn. apply union_empty_r_L.
Defined.

Lemma idle_shared : shared_map (H := idle_kernel) (H0 := idle_xsk) (λ _, 28) id.
Proof.
  split; try done.
  - by intros i k v [= <-].
  - by intros i k m [= <-].
  - intros i v k e k' [= <- <-]. done.
Qed.

(** Process 1 uses the program.  Process 2 begins to join and takes the lock;
    process 1 begins to leave, and cannot take the lock until process 2 has
    changed the count and given it back.  Both end; then process 2 leaves, and is
    told to take the program off. *)
Lemma sharing_counts_witness :
  let step := share (H := idle_kernel) (H0 := idle_xsk) (λ _, 28) id in
  let next := next (H := idle_kernel) (H0 := idle_xsk) in
  let s0 := mk_sharing (le_bytes 4 1) None {[ 1%nat := User ]} 0 false in
  ∃ s1 s2 s3, rtc step s0 s1 ∧ holder s1 = Some 2%nat ∧ next 1%nat s1 = None ∧
    rtc step s1 s2 ∧ users s2 = {[ 2%nat ]} ∧ refcnt_of (sh_kern s2) = 1 ∧
    rtc step s2 s3 ∧ taken_off s3 = true ∧ ∀ s', rtc step s3 s' → users s' = ∅.
Proof.
  cbn zeta. set (s0 := mk_sharing _ _ _ _ _).
  assert (share_start (λ k : list Z, k) s0) as Hs0 by (split_and!; [reflexivity|by exists 1%nat|reflexivity..]).
  set (start d i (s : @sharing (list Z)) := set_procs s (<[i := Updating (0 <? d) (update_steps 28 d)]> (procs s))).
  set (a := after (H := idle_kernel) (H0 := idle_xsk) [2; 2; 2; 1; 1]%nat (start (-1) 1%nat (start 1 2%nat s0))).
  set (b := after (H := idle_kernel) (H0 := idle_xsk) [2; 2; 2; 2; 1; 1; 1; 1; 1]%nat a).
  set (c := after (H := idle_kernel) (H0 := idle_xsk) [2; 2; 2; 2; 2; 2; 2]%nat (start (-1) 2%nat b)).
  assert (rtc (share (H := idle_kernel) (H0 := idle_xsk) (λ _, 28) id) s0 a) as Ha.
  { eapply rtc_l; [apply (share_join _ _ _ 2%nat); [vm_compute; reflexivity|done]|].
    eapply rtc_l; [apply (share_leave _ _ _ 1%nat); vm_compute; reflexivity|]. apply nexts_share. vm_compute. reflexivity. }
  assert (rtc (share (H := idle_kernel) (H0 := idle_xsk) (λ _, 28) id) a b) as Hb by (apply nexts_share; vm_compute; reflexivity).
  assert (rtc (share (H := idle_kernel) (H0 := idle_xsk) (λ _, 28) id) b c) as Hc.
  { eapply rtc_l; [apply (share_leave _ _ _ 2%nat); vm_compute; reflexivity|]. apply nexts_share. vm_compute. reflexivity. }
  exists a, b, c. split; [exact Ha|]. split; [vm_compute; reflexivity|]. split; [vm_compute; reflexivity|]. split; [exact Hb|].
  assert (users b = {[ 2%nat ]}) as Hub by (vm_compute; reflexivity). assert (taken_off c = true) as Hoff by (vm_compute; reflexivity).
  split; [exact Hub|]. split; [vm_compute; reflexivity|]. split; [exact Hc|]. split; [exact Hoff|].
  intros s' Hs'.
  destruct (sharing_counts (H := idle_kernel) (H0 := idle_xsk) (λ _, 28) id idle_shared s0 c Hs0) as (_ & _ & Hfin & _).
  - etrans; [exact Ha|]. etrans; [exact Hb|exact Hc].
  - by apply Hfin.
Defined.

(** ** What goes wrong

    An interface with a program in hardware only: its name is compared although
    there is no program object. *)
Definition hw_kernel : Kernel (list Z) := {|
  k_alloc := k_alloc (Kernel := idle_kernel); k_close := k_close (Kernel := idle_kernel);
  k_dupfd := k_dupfd (Kernel := idle_kernel); k_prog_info := k_prog_info (Kernel := idle_kernel);
  k_btf_load := k_btf_load (Kernel := idle_kernel); k_obj_loaded := k_obj_loaded (Kernel := idle_kernel);
  k_obj_load := k_obj_load (Kernel := idle_kernel); k_bpf_fd := k_bpf_fd (Kernel := idle_kernel);
  k_create_from_obj := k_create_from_obj (Kernel := idle_kernel);
  k_find_dispatcher := k_find_dispatcher (Kernel := idle_kernel);
  k_dispatcher_map := k_dispatcher_map (Kernel := idle_kernel); k_set_rodata := k_set_rodata (Kernel := idle_kernel);
  k_kern_compat := k_kern_compat (Kernel := idle_kernel);
  k_set_attach_target := k_set_attach_target (Kernel := idle_kernel);
  k_link_create := k_link_create (Kernel := idle_kernel); k_raw_tp_open := k_raw_tp_open (Kernel := idle_kernel);
  k_pin := k_pin (Kernel := idle_kernel); k_unpin := k_unpin (Kernel := idle_kernel);
  k_query _ _ := inr (mk_query 0 0 9 XDP_ATTACHED_HW);
  k_prog_fd_by_id id k := (inr (id + 20), k);
  k_map_fd_by_id := k_map_fd_by_id (Kernel := idle_kernel); k_map_info := k_map_info (Kernel := idle_kernel);
  k_map_lookup := k_map_lookup (Kernel := idle_kernel); k_bpffs_dir := k_bpffs_dir (Kernel := idle_kernel);
  k_lock := k_lock (Kernel := idle_kernel); k_unlock := k_unlock (Kernel := idle_kernel);
  k_stat := k_stat (Kernel := idle_kernel); k_obj_get := k_obj_get (Kernel := idle_kernel);
  k_xdp_attach := k_xdp_attach (Kernel := idle_kernel); k_links := k_links (Kernel := idle_kernel);
  k_link_fd := k_link_fd (Kernel := idle_kernel); k_link_info_ok := k_link_info_ok (Kernel := idle_kernel);
  k_link_detach := k_link_detach (Kernel := idle_kernel);
  k_skip_dispatcher := k_skip_dispatcher (Kernel := idle_kernel) |}.

Example lookup_hw_only : xsk_lookup_program (H := hw_kernel) (H0 := idle_xsk) 3 idle_world = None.
Proof. vm_compute. reflexivity. Qed.

(** When the program cannot be set up because the one on the interface is
    refused, [xsk_setup_xdp_prog] closes an error pointer. *)
Lemma setup_refused_crashes {K} `{Kernel K, XskKernel K} i e name (w w1 : world K) :
  (∀ k, k_alloc k = (true, k)) → (∀ k, x_indextoname i k = inr name) →
  xsk_lookup_program i w = Some (ErrPtr e, w1) → xsk_setup_xdp_prog i w = None.
Proof.
  intros Ha Hn Hl.
  assert (∀ n s, setup_xdp_prog (mk_view i n 0 false 0 0) s w =
    Some (e, mk_slot (ErrPtr e) (xsks_map_fd s) (refcnt_map_fd s), w1)) as Hs.
  { intros n s. unfold setup_xdp_prog, pbind. cbn [v_ifindex]. by rewrite Hl. }
  assert (kop (K := K) k_alloc w = Some (true, w)) as Hk by (unfold kop; rewrite Ha; by destruct w).
  assert (xsk_init_xsk_struct i w = Some (inr (mk_view i name 0 false 0 0), w)) as Hin.
  { unfold xsk_init_xsk_struct, pbind. rewrite Hk. cbn [negb]. unfold kread. by rewrite Hn. }
  unfold xsk_setup_xdp_prog. unfold pbind at 1. rewrite Hk. cbn [negb]. unfold pbind at 1. rewrite Hin.
  unfold pbind at 1. by rewrite Hs.
Qed.
