(* ===== verification/Xsk.v ===== *)
(** * libxdp: AF_XDP sockets

    The memory shared with the kernel and the sockets on top of it
    ([lib/libxdp/xsk.c]).  A umem counts its sockets and lists its contexts, one
    per interface and queue; a context counts the sockets on its queue and holds
    the program that serves it ([XskProg]).  The four rings are structures of the
    caller; they are pointed into memory mapped from the descriptor of a socket.

    Objects live in stores of their own; the caller's ring structures are the
    store [rings].  Using an object that is not allocated is a fault. *)

From S2P Require Import Prelude CString Errno Packet Params Libxdp RunConfig Pin Multiprog Ring XskProg.
Local Open Scope Z_scope.

Definition EFAULT : Z := 14.
Definition ENOPROTOOPT : Z := 92.
Definition INIT_NS : Z := 1.
Definition XDP_SHARED_UMEM : Z := 1.
Definition XSK_LIBBPF_FLAGS__INHIBIT_PROG_LOAD : Z := 1.
Definition XSK_RING_CONS__DEFAULT_NUM_DESCS : Z := 2048.
Definition XSK_RING_PROD__DEFAULT_NUM_DESCS : Z := 2048.
Definition XSK_UMEM__DEFAULT_FRAME_SIZE : Z := Z.shiftl 1 12.
Definition XSK_UMEM__DEFAULT_FRAME_HEADROOM : Z := 0.
Definition XSK_UMEM__DEFAULT_FLAGS : Z := 0.
Definition sizeof_u64 : Z := 8.
Definition sizeof_xdp_desc : Z := 16.
Definition IFNAMSIZ : Z := 16.

(** ** Configurations *)

Record xsk_umem_config := mk_umem_config {
  fill_size : Z; comp_size : Z; frame_size : Z; frame_headroom : Z; umem_flags : Z }.
Record xsk_socket_config := mk_socket_config {
  rx_size : Z; tx_size : Z; libbpf_flags : Z; xdp_flags : Z; bind_flags : Z }.

Definition xsk_set_umem_config (usr_cfg : option xsk_umem_config) : xsk_umem_config :=
  match usr_cfg with
  | None => mk_umem_config XSK_RING_PROD__DEFAULT_NUM_DESCS XSK_RING_CONS__DEFAULT_NUM_DESCS
              XSK_UMEM__DEFAULT_FRAME_SIZE XSK_UMEM__DEFAULT_FRAME_HEADROOM XSK_UMEM__DEFAULT_FLAGS
  | Some cfg => cfg
  end.

Definition xsk_set_xdp_socket_config (usr_cfg : option xsk_socket_config) : Z + xsk_socket_config :=
  match usr_cfg with
  | None => inr (mk_socket_config XSK_RING_CONS__DEFAULT_NUM_DESCS XSK_RING_PROD__DEFAULT_NUM_DESCS 0 0 0)
  | Some cfg =>
    if negb (Z.land (libbpf_flags cfg) (u32 (Z.lnot XSK_LIBBPF_FLAGS__INHIBIT_PROG_LOAD)) =? 0)
    then inl (- EINVAL) else inr cfg
  end.

(** ** The layout of the mapped rings

    [struct xdp_mmap_offsets]: for each of four rings the offsets of the
    producer and consumer index, of the descriptors and of the flags.  Kernels
    up to 5.3 have no flags; the option then holds twelve words instead of
    sixteen, which are moved to their places. *)
Record xdp_ring_offset := mk_off { o_producer : Z; o_consumer : Z; o_desc : Z; o_flags : Z }.
Record xdp_mmap_offsets := mk_offs {
  off_rx : xdp_ring_offset; off_tx : xdp_ring_offset; off_fr : xdp_ring_offset; off_cr : xdp_ring_offset }.

Definition off_at (ws : list Z) (i : nat) : xdp_ring_offset :=
  mk_off (nth i ws 0) (nth (i + 1) ws 0) (nth (i + 2) ws 0) (nth (i + 3) ws 0).
Definition mmap_offsets (ws : list Z) : xdp_mmap_offsets :=
  mk_offs (off_at ws 0) (off_at ws 4) (off_at ws 8) (off_at ws 12).

Definition off_v1_at (ws : list Z) (i : nat) : xdp_ring_offset :=
  mk_off (nth i ws 0) (nth (i + 1) ws 0) (nth (i + 2) ws 0) (u64 (nth (i + 1) ws 0 + 4)).
Definition xsk_mmap_offsets_v1 (ws : list Z) : xdp_mmap_offsets :=
  mk_offs (off_v1_at ws 0) (off_v1_at ws 3) (off_v1_at ws 6) (off_v1_at ws 9).

Definition sizeof_mmap_offsets : Z := 128.
Definition sizeof_mmap_offsets_v1 : Z := 96.

(** ** The environment *)

(** Socket options that are set, with their arguments. *)
Inductive sockopt :=
  | XDP_UMEM_REG (addr len chunk_size headroom flags : Z)
  | XDP_UMEM_FILL_RING (n : Z)
  | XDP_UMEM_COMPLETION_RING (n : Z)
  | XDP_RX_RING (n : Z)
  | XDP_TX_RING (n : Z).
Inductive pgoff := XDP_PGOFF_RX_RING | XDP_PGOFF_TX_RING
  | XDP_UMEM_PGOFF_FILL_RING | XDP_UMEM_PGOFF_COMPLETION_RING.
Record sockaddr_xdp := mk_sxdp { sxdp_ifindex : Z; sxdp_queue_id : Z; sxdp_flags : Z; sxdp_shared_umem_fd : Z }.

Class SockKernel (K : Type) := {
  s_socket : K → (Z + Z) * K;
  s_setsockopt : Z → sockopt → K → Z * K;
  s_offsets : Z → K → Z + Z * list Z;
  s_netns : Z → K → Z + Z;
  s_mmap : Z → Z → pgoff → K → (Z + Z) * K;
  s_munmap : Z → Z → K → K;
  s_bind : Z → sockaddr_xdp → K → Z * K;
  s_nametoindex : string → K → Z + Z;
  s_pagesize : Z;
  s_load : Z → K → Z }.

(** ** Objects *)

(** A ring structure of the caller: the fields the ring operations of [Ring]
    use, and its four pointers. *)
Record ring := mk_ringmem { r_cache : xsk_ring; r_producer : Z; r_consumer : Z; r_ring : Z; r_flags : Z }.

Module umem.
Record t := mk {
  fill_save : option nat; comp_save : option nat; umem_area : Z; config : xsk_umem_config;
  fd : Z; refcount : Z; ctx_list : list nat; rx_ring_setup_done : bool; tx_ring_setup_done : bool }.
Definition set_refcount (u : t) n := mk (fill_save u) (comp_save u) (umem_area u) (config u) (fd u) n
  (ctx_list u) (rx_ring_setup_done u) (tx_ring_setup_done u).
Definition set_list (u : t) l := mk (fill_save u) (comp_save u) (umem_area u) (config u) (fd u) (refcount u)
  l (rx_ring_setup_done u) (tx_ring_setup_done u).
Definition set_done (u : t) rx tx := mk (fill_save u) (comp_save u) (umem_area u) (config u) (fd u)
  (refcount u) (ctx_list u) rx tx.
Definition set_save (u : t) f c := mk f c (umem_area u) (config u) (fd u) (refcount u) (ctx_list u)
  (rx_ring_setup_done u) (tx_ring_setup_done u).
End umem.

Module ctx.
Record t := mk {
  fill : nat; comp : nat; umem : nat; queue_id : Z; refcount : Z; ifindex : Z; netns_cookie : Z;
  slot : prog_slot; ifname : string }.
Definition set_refcount (c : t) n := mk (fill c) (comp c) (umem c) (queue_id c) n (ifindex c)
  (netns_cookie c) (slot c) (ifname c).
Definition set_slot (c : t) s := mk (fill c) (comp c) (umem c) (queue_id c) (refcount c) (ifindex c)
  (netns_cookie c) s (ifname c).
End ctx.

Module sock.
Record t := mk { rx : option nat; tx : option nat; ctx : nat; config : xsk_socket_config; fd : Z }.
End sock.

Section xsk.
Context {K : Type} `{Kernel K, XskKernel K, SockKernel K}.

Record state := mk_st {
  base : world K;
  umems : gmap nat umem.t;
  ctxs : gmap nat ctx.t;
  socks : gmap nat sock.t;
  rings : gmap nat ring }.

Definition X (A : Type) : Type := prog state A.

(** An operation of the program side. *)
Definition lift {A} (m : M K A) : X A := λ s,
  match m (base s) with
  | Some (a, w) => Some (a, mk_st w (umems s) (ctxs s) (socks s) (rings s))
  | None => None
  end.

(** A system call: on failure [errno] is set. *)
Definition sys {A} (f : K → (Z + A) * K) : X (option A) :=
  let! r := lift (kop f) in
  match r with
  | inl e => lift (set_errno e) ;;; pret None
  | inr a => pret (Some a)
  end.
Definition sys_err (f : K → Z * K) : X bool :=
  let! e := lift (kop f) in
  if e =? 0 then pret false else lift (set_errno e) ;;; pret true.
Definition neg_errno : X Z := let! s := pget in pret (- errno (base s)).
Definition close (fd : Z) : X () := lift (fclose fd).
Definition munmap (addr len : Z) : X () := lift (kop (λ k, ((), s_munmap addr len k))).
Definition MAP_FAILED : Z := -1.
Definition mmap (len fd : Z) (off : pgoff) : X Z :=
  let! r := sys (s_mmap fd len off) in pret (default MAP_FAILED r).
Definition alloc_ok : X bool := lift (kop k_alloc).

Definition get_umem (a : nat) : X umem.t := λ s, u ← umems s !! a; Some (u, s).
Definition get_ctx (a : nat) : X ctx.t := λ s, c ← ctxs s !! a; Some (c, s).
Definition get_sock (a : nat) : X sock.t := λ s, x ← socks s !! a; Some (x, s).
Definition get_ring (a : nat) : X ring := λ s, r ← rings s !! a; Some (r, s).
Definition put_umem (a : nat) (u : umem.t) : X () := λ s,
  Some ((), mk_st (base s) (<[a := u]> (umems s)) (ctxs s) (socks s) (rings s)).
Definition put_ctx (a : nat) (c : ctx.t) : X () := λ s,
  Some ((), mk_st (base s) (umems s) (<[a := c]> (ctxs s)) (socks s) (rings s)).
Definition put_sock (a : nat) (x : sock.t) : X () := λ s,
  Some ((), mk_st (base s) (umems s) (ctxs s) (<[a := x]> (socks s)) (rings s)).
(** The caller's structures must be there when they are written. *)
Definition put_ring (a : nat) (r : ring) : X () :=
  let! _ := get_ring a in
  λ s, Some ((), mk_st (base s) (umems s) (ctxs s) (socks s) (<[a := r]> (rings s))).
Definition free_umem (a : nat) : X () :=
  let! _ := get_umem a in
  λ s, Some ((), mk_st (base s) (delete a (umems s)) (ctxs s) (socks s) (rings s)).
Definition free_ctx (a : nat) : X () :=
  let! _ := get_ctx a in
  λ s, Some ((), mk_st (base s) (umems s) (delete a (ctxs s)) (socks s) (rings s)).
Definition free_sock (a : nat) : X () :=
  let! _ := get_sock a in
  λ s, Some ((), mk_st (base s) (umems s) (ctxs s) (delete a (socks s)) (rings s)).
Definition mod_umem (a : nat) (f : umem.t → umem.t) : X () :=
  let! u := get_umem a in put_umem a (f u).

(** ** Rings *)

Definition xsk_get_mmap_offsets (fd : Z) : X (Z + xdp_mmap_offsets) :=
  let! r := lift (kread (s_offsets fd)) in
  match r with
  | inl e => lift (set_errno e) ;;; pret (inl (-1))
  | inr (optlen, ws) =>
    pret (if optlen =? sizeof_mmap_offsets then inr (mmap_offsets ws)
          else if optlen =? sizeof_mmap_offsets_v1 then inr (xsk_mmap_offsets_v1 ws)
          else inl (- EINVAL))
  end.

(** The pointers of a ring whose memory was mapped at [map]. *)
Definition map_ring (cache : xsk_ring) (map : Z) (off : xdp_ring_offset) : ring :=
  mk_ringmem cache (map + o_producer off) (map + o_consumer off) (map + o_desc off) (map + o_flags off).

(** [xsk_create_umem_rings].  When the second mapping fails it is the failed one
    that is unmapped. *)
Definition xsk_create_umem_rings (cfg : xsk_umem_config) (fd : Z) (fill comp : nat) : X Z :=
  let! err := sys_err (s_setsockopt fd (XDP_UMEM_FILL_RING (fill_size cfg))) in
  if err then neg_errno
  else
    let! err := sys_err (s_setsockopt fd (XDP_UMEM_COMPLETION_RING (comp_size cfg))) in
    if err then neg_errno
    else
      let! off := xsk_get_mmap_offsets fd in
      match off with
      | inl _ => neg_errno
      | inr off =>
        let fill_len := u64 (o_desc (off_fr off) + fill_size cfg * sizeof_u64) in
        let! map := mmap fill_len fd XDP_UMEM_PGOFF_FILL_RING in
        if map =? MAP_FAILED then neg_errno
        else
          let! f := get_ring fill in
          put_ring fill (map_ring (mk_ring (cached_prod (r_cache f)) (fill_size cfg)
            (u32 (fill_size cfg - 1)) (fill_size cfg)) map (off_fr off)) ;;;
          let! map := mmap (u64 (o_desc (off_cr off) + comp_size cfg * sizeof_u64)) fd
                        XDP_UMEM_PGOFF_COMPLETION_RING in
          if map =? MAP_FAILED then
            let! err := neg_errno in munmap map fill_len ;;; pret err
          else
            let! c := get_ring comp in
            put_ring comp (map_ring (mk_ring (cached_prod (r_cache c)) (cached_cons (r_cache c))
              (u32 (comp_size cfg - 1)) (comp_size cfg)) map (off_cr off)) ;;;
            pret 0
      end.

(** Unmapping a ring that is found through its descriptors. *)
Definition unmap_ring (r : nat) (off : xdp_ring_offset) (size unit : Z) : X () :=
  let! r := get_ring r in
  munmap (r_ring r - o_desc off) (u64 (o_desc off + size * unit)).

(** ** The shared memory *)

Definition xsk_page_aligned (addr : Z) : bool := Z.land addr (s_pagesize - 1) =? 0.

(** The object is local until it is returned. *)
Definition xsk_umem__create_with_fd (umem_ptr : bool) (fd umem_area size : Z) (fill comp : option nat)
    (usr_config : option xsk_umem_config) : X (Z * option nat) :=
  match fill, comp with
  | Some fill, Some comp =>
    if (umem_area =? 0) || negb umem_ptr then pret (- EFAULT, None)
    else if (size =? 0) && negb (xsk_page_aligned umem_area) then pret (- EINVAL, None)
    else
      let! ok := alloc_ok in
      if negb ok then pret (- ENOMEM, None)
      else
        let! fd := (if fd <? 0 then let! r := sys s_socket in pret (default (-1) r) else pret fd) in
        if fd <? 0 then let! err := neg_errno in pret (err, None)
        else
          let cfg := xsk_set_umem_config usr_config in
          let! err := sys_err (s_setsockopt fd
            (XDP_UMEM_REG umem_area size (frame_size cfg) (frame_headroom cfg) (umem_flags cfg))) in
          let! err := (if err then neg_errno else xsk_create_umem_rings cfg fd fill comp) in
          if negb (err =? 0) then close fd ;;; pret (err, None)
          else
            let! s := pget in
            let a := fresh (dom (umems s)) in
            put_umem a (umem.mk (Some fill) (Some comp) umem_area cfg fd 0 [] false false) ;;;
            pret (0, Some a)
  | _, _ => pret (- EFAULT, None)
  end.

Definition xsk_umem__create (umem_ptr : bool) (umem_area size : Z) (fill comp : option nat)
    (usr_config : option xsk_umem_config) : X (Z * option nat) :=
  xsk_umem__create_with_fd umem_ptr (-1) umem_area size fill comp usr_config.

Definition xsk_umem__delete (u : option nat) : X Z :=
  match u with
  | None => pret 0
  | Some a =>
    let! u := get_umem a in
    if negb (umem.refcount u =? 0) then pret (- EBUSY)
    else
      let! off := xsk_get_mmap_offsets (umem.fd u) in
      match off, umem.fill_save u, umem.comp_save u with
      | inr off, Some fill, Some comp =>
        unmap_ring fill (off_fr off) (fill_size (umem.config u)) sizeof_u64 ;;;
        unmap_ring comp (off_cr off) (comp_size (umem.config u)) sizeof_u64
      | _, _, _ => pret ()
      end ;;;
      close (umem.fd u) ;;; free_umem a ;;; pret 0
  end.

(** ** Contexts *)

(** The loop of [xsk_get_ctx]; a context that is found gets a reference. *)
Fixpoint find_ctx (l : list nat) (netns ifindex queue_id : Z) : X (option nat) :=
  match l with
  | [] => pret None
  | a :: l =>
    let! c := get_ctx a in
    if (ctx.netns_cookie c =? netns) && (ctx.ifindex c =? ifindex) && (ctx.queue_id c =? queue_id)
    then put_ctx a (ctx.set_refcount c (ctx.refcount c + 1)) ;;; pret (Some a)
    else find_ctx l netns ifindex queue_id
  end.
Definition xsk_get_ctx (u : nat) (netns ifindex queue_id : Z) : X (option nat) :=
  let! u := get_umem u in find_ctx (umem.ctx_list u) netns ifindex queue_id.

Definition xsk_put_ctx (a : nat) (unmap : bool) : X () :=
  let! c := get_ctx a in
  put_ctx a (ctx.set_refcount c (ctx.refcount c - 1)) ;;;
  if negb (ctx.refcount c - 1 =? 0) then pret ()
  else
    (if unmap then
       let! u := get_umem (ctx.umem c) in
       let! off := xsk_get_mmap_offsets (umem.fd u) in
       match off with
       | inl _ => pret ()
       | inr off =>
         unmap_ring (ctx.fill c) (off_fr off) (fill_size (umem.config u)) sizeof_u64 ;;;
         unmap_ring (ctx.comp c) (off_cr off) (comp_size (umem.config u)) sizeof_u64
       end
     else pret ()) ;;;
    mod_umem (ctx.umem c) (λ u, umem.set_list u (filter (λ b, b ≠ a) (umem.ctx_list u))) ;;;
    free_ctx a.

(** The rings of the first context are those the umem was created with, or
    copies of them; later ones are created on the socket's own descriptor. *)
Definition ctx_rings (a : nat) (fd : Z) (fill comp : nat) : X Z :=
  let! u := get_umem a in
  match umem.fill_save u, umem.comp_save u with
  | None, _ => xsk_create_umem_rings (umem.config u) fd fill comp
  | Some f, Some c =>
    if bool_decide (f ≠ fill) || bool_decide (c ≠ comp) then
      let! rf := get_ring f in put_ring fill rf ;;;
      let! rc := get_ring c in put_ring comp rc ;;; pret 0
    else pret 0
  | Some _, None => pfault
  end.

Definition xsk_create_ctx (a : nat) (fd netns ifindex : Z) (ifname : string) (queue_id : Z)
    (fill comp : nat) : X (option nat) :=
  let! ok := alloc_ok in
  if negb ok then pret None
  else
    let! err := ctx_rings a fd fill comp in
    if negb (err =? 0) then pret None
    else
      let! s := pget in
      let c := fresh (dom (ctxs s)) in
      put_ctx c (ctx.mk fill comp a queue_id 1 ifindex netns (mk_slot Null 0 0)
        (String.substring 0 (Z.to_nat (IFNAMSIZ - 1)) ifname)) ;;;
      mod_umem a (λ u, umem.set_list u (c :: umem.ctx_list u)) ;;;
      pret (Some c).

(** ** Sockets *)

Section create.
(** The arguments that stay the same. *)
Context (ifname : string) (queue_id : Z) (u : nat) (rx tx fill comp : option nat) (cfg : xsk_socket_config).

(** The error labels. *)
Definition out_socket (fd err : Z) : X (Z * option nat) :=
  let! um := get_umem u in
  put_umem u (umem.set_refcount um (umem.refcount um - 1)) ;;;
  (if negb (umem.refcount um - 1 =? 0) then close fd else pret ()) ;;; pret (err, None).
Definition out_put_ctx (c : nat) (fd err : Z) : X (Z * option nat) :=
  let! um := get_umem u in
  xsk_put_ctx c (bool_decide (umem.fill_save um ≠ fill)) ;;; out_socket fd err.
Definition unmap_if (r : option nat) (map : Z) (off : xdp_ring_offset) (n : Z) : X () :=
  match r with
  | Some _ => munmap map (u64 (o_desc off + n * sizeof_xdp_desc))
  | None => pret ()
  end.
Definition out_mmap_rx (off : xdp_mmap_offsets) (rx_map : Z) (c : nat) (fd err : Z) : X (Z * option nat) :=
  unmap_if rx rx_map (off_rx off) (rx_size cfg) ;;; out_put_ctx c fd err.
Definition out_mmap_tx (off : xdp_mmap_offsets) (rx_map tx_map : Z) (c : nat) (fd err : Z) : X (Z * option nat) :=
  unmap_if tx tx_map (off_tx off) (tx_size cfg) ;;; out_mmap_rx off rx_map c fd err.

(** The first socket uses the descriptor of the umem. *)
Definition sock_fd : X (Z + Z * bool * bool) :=
  let! um := get_umem u in
  put_umem u (umem.set_refcount um (umem.refcount um + 1)) ;;;
  if 0 <? umem.refcount um then
    let! r := sys s_socket in
    match r with
    | Some fd => pret (inr (fd, false, false))
    | None => let! err := neg_errno in pret (inl err)
    end
  else pret (inr (umem.fd um, umem.rx_ring_setup_done um, umem.tx_ring_setup_done um)).

(** The name space of the socket; kernels without the option have one. *)
Definition netns_cookie (fd : Z) : X (Z + Z) :=
  let! r := lift (kread (s_netns fd)) in
  match r with
  | inr cookie => pret (inr cookie)
  | inl e =>
    lift (set_errno e) ;;;
    if e =? ENOPROTOOPT then pret (inr INIT_NS) else pret (inl (- e))
  end.

(** The context of the queue, found or created. *)
Definition sock_ctx (fd netns ifindex : Z) : X (Z + nat) :=
  let! c := xsk_get_ctx u netns ifindex queue_id in
  match c with
  | Some c => pret (inr c)
  | None =>
    match fill, comp with
    | Some fill, Some comp =>
      let! c := xsk_create_ctx u fd netns ifindex ifname queue_id fill comp in
      pret match c with Some c => inr c | None => inl (- ENOMEM) end
    | _, _ => pret (inl (- EFAULT))
    end
  end.

(** Asking for a ring of the socket, unless that was done before. *)
Definition set_ring (fd : Z) (r : option nat) (done : bool) (opt : sockopt) (mark : umem.t → umem.t) : X bool :=
  match r, done with
  | Some _, false =>
    let! err := sys_err (s_setsockopt fd opt) in
    if err then pret true
    else
      let! um := get_umem u in
      (if fd =? umem.fd um then put_umem u (mark um) else pret ()) ;;; pret false
  | _, _ => pret false
  end.

(** Mapping a ring of the socket; [extra] is what the cached consumer index is
    ahead. *)
Definition map_sock_ring (fd : Z) (r : option nat) (n extra : Z) (off : xdp_ring_offset) (pg : pgoff)
    : X (option Z) :=
  match r with
  | None => pret (Some 0)
  | Some r =>
    let! map := mmap (u64 (o_desc off + n * sizeof_xdp_desc)) fd pg in
    if map =? MAP_FAILED then pret None
    else
      let! pr := lift (kread (s_load (map + o_producer off))) in
      let! co := lift (kread (s_load (map + o_consumer off))) in
      put_ring r (map_ring (mk_ring pr (u32 (co + extra)) (u32 (n - 1)) n) map off) ;;;
      pret (Some map)
  end.

Definition sock_view_of (c : ctx.t) (fd : Z) : sock_view :=
  mk_view (ctx.ifindex c) (ctx.ifname c) (ctx.queue_id c) (bool_decide (is_Some rx)) fd (xdp_flags cfg).

(** Binding the socket and setting up the program: 0 or an error. *)
Definition bind_and_setup (c : nat) (fd : Z) : X Z :=
  let! um := get_umem u in
  let! cx := get_ctx c in
  let sxdp := if 1 <? umem.refcount um
              then mk_sxdp (ctx.ifindex cx) (ctx.queue_id cx) XDP_SHARED_UMEM (umem.fd um)
              else mk_sxdp (ctx.ifindex cx) (ctx.queue_id cx) (bind_flags cfg) 0 in
  let! err := sys_err (s_bind fd sxdp) in
  if err then neg_errno
  else if negb (Z.land (libbpf_flags cfg) XSK_LIBBPF_FLAGS__INHIBIT_PROG_LOAD =? 0) then pret 0
  else
    let! (err, slot) := lift (setup_xdp_prog (sock_view_of cx fd) (ctx.slot cx)) in
    put_ctx c (ctx.set_slot cx slot) ;;; pret err.

(** From the point where the context is known. *)
Definition sock_rings (c : nat) (fd : Z) (rx_done tx_done : bool) : X (Z * option nat) :=
  let fail := let! err := neg_errno in out_put_ctx c fd err in
  let! err := set_ring fd rx rx_done (XDP_RX_RING (rx_size cfg)) (λ u, umem.set_done u true (umem.tx_ring_setup_done u)) in
  if err then fail
  else
    let! err := set_ring fd tx tx_done (XDP_TX_RING (tx_size cfg)) (λ u, umem.set_done u (umem.rx_ring_setup_done u) true) in
    if err then fail
    else
      let! off := xsk_get_mmap_offsets fd in
      match off with
      | inl _ => fail
      | inr off =>
        let! rx_map := map_sock_ring fd rx (rx_size cfg) 0 (off_rx off) XDP_PGOFF_RX_RING in
        match rx_map with
        | None => fail
        | Some rx_map =>
          let! tx_map := map_sock_ring fd tx (tx_size cfg) (tx_size cfg) (off_tx off) XDP_PGOFF_TX_RING in
          match tx_map with
          | None => let! err := neg_errno in out_mmap_rx off rx_map c fd err
          | Some tx_map =>
            let! err := bind_and_setup c fd in
            if negb (err =? 0) then out_mmap_tx off rx_map tx_map c fd err
            else
              let! s := pget in
              let a := fresh (dom (socks s)) in
              put_sock a (sock.mk rx tx c cfg fd) ;;;
              mod_umem u (λ u, umem.set_save u None None) ;;;
              pret (0, Some a)
          end
        end
      end.

Definition create_body : X (Z * option nat) :=
  let! i := lift (kread (s_nametoindex ifname)) in
  match i with
  | inl e => lift (set_errno e) ;;; pret (- e, None)
  | inr ifindex =>
    let! r := sock_fd in
    match r with
    | inl err => pret (err, None)
    | inr (fd, rx_done, tx_done) =>
      let! netns := netns_cookie fd in
      match netns with
      | inl err => out_socket fd err
      | inr netns =>
        let! c := sock_ctx fd netns ifindex in
        match c with
        | inl err => out_socket fd err
        | inr c => sock_rings c fd rx_done tx_done
        end
      end
    end
  end.
End create.

Definition xsk_socket__create_shared (xsk_ptr : bool) (ifname : string) (queue_id : Z) (u : option nat)
    (rx tx fill comp : option nat) (usr_config : option xsk_socket_config) : X (Z * option nat) :=
  match u with
  | None => pret (- EFAULT, None)
  | Some u =>
    if negb xsk_ptr || bool_decide (rx = None) && bool_decide (tx = None) then pret (- EFAULT, None)
    else
      let! ok := alloc_ok in
      if negb ok then pret (- ENOMEM, None)
      else match xsk_set_xdp_socket_config usr_config with
           | inl err => pret (err, None)
           | inr cfg => create_body ifname queue_id u rx tx fill comp cfg
           end
  end.

Definition xsk_socket__create (xsk_ptr : bool) (ifname : string) (queue_id : Z) (u : option nat)
    (rx tx : option nat) (usr_config : option xsk_socket_config) : X (Z * option nat) :=
  match u with
  | None => pret (- EFAULT, None)
  | Some a =>
    let! um := get_umem a in
    xsk_socket__create_shared xsk_ptr ifname queue_id u rx tx (umem.fill_save um) (umem.comp_save um) usr_config
  end.

Definition xsk_socket__delete (a : option nat) : X () :=
  match a with
  | None => pret ()
  | Some a =>
    let! x := get_sock a in
    let! c := get_ctx (sock.ctx x) in
    (if is_null (xdp_prog (ctx.slot c)) then pret ()
     else
       lift (xsk_delete_map_entry (xsks_map_fd (ctx.slot c)) (ctx.queue_id c)) ;;;
       lift (xsk_release_xdp_prog (sock_view_of (sock.rx x) (sock.config x) c (sock.fd x)) (ctx.slot c))) ;;;
    let! off := xsk_get_mmap_offsets (sock.fd x) in
    match off with
    | inl _ => pret ()
    | inr off =>
      (match sock.rx x with
       | Some r => unmap_ring r (off_rx off) (rx_size (sock.config x)) sizeof_xdp_desc
       | None => pret ()
       end) ;;;
      match sock.tx x with
      | Some r => unmap_ring r (off_tx off) (tx_size (sock.config x)) sizeof_xdp_desc
      | None => pret ()
      end
    end ;;;
    xsk_put_ctx (sock.ctx x) true ;;;
    let! um := get_umem (ctx.umem c) in
    put_umem (ctx.umem c) (umem.set_refcount um (umem.refcount um - 1)) ;;;
    (if negb (sock.fd x =? umem.fd um) then close (sock.fd x) else pret ()) ;;;
    free_sock a
  end.

(** Another map for the socket's queue, and the descriptors. *)
Definition xsk_socket__update_xskmap (a : nat) (fd : Z) : X Z :=
  let! x := get_sock a in
  let! c := get_ctx (sock.ctx x) in
  put_ctx (sock.ctx x) (ctx.set_slot c (mk_slot (xdp_prog (ctx.slot c)) fd (refcnt_map_fd (ctx.slot c)))) ;;;
  let! e := lift (kop (x_map_update fd (ctx.queue_id c) (le_bytes 4 (sock.fd x)))) in
  pret (- e).
Definition xsk_umem__fd (u : option nat) : X Z :=
  match u with Some a => let! u := get_umem a in pret (umem.fd u) | None => pret (- EINVAL) end.
Definition xsk_socket__fd (x : option nat) : X Z :=
  match x with Some a => let! x := get_sock a in pret (sock.fd x) | None => pret (- EINVAL) end.
End xsk.
Arguments state : clear implicits.
Arguments X : clear implicits.
