(* ===== verification/XskSpec.v ===== *)
(** * libxdp: the life of AF_XDP sockets

    An invariant of the objects of [Xsk] and that every call of the library
    keeps it: what the reference counts count, that nothing is used after it was
    freed, and who owns the program of a queue.  The program side enters only
    through its contract [ProgramContract]. *)

From S2P Require Import Prelude CString Errno Packet Params Libxdp RunConfig Pin Multiprog Dispatcher MultiprogSpec Ring XskProg XskProgSpec Xsk.
Local Open Scope Z_scope.

Create HintDb gentle.

Section xsk.
Context {K : Type} `{Kernel K, XskKernel K, SockKernel K}.

(** ** What the calls depend on

    The objects, the addresses of the caller's rings and those of the program
    objects. *)
Record view := mk_v {
  v_umems : gmap nat umem.t; v_ctxs : gmap nat ctx.t; v_socks : gmap nat sock.t;
  v_rings : gset nat; v_progs : gset nat }.
Definition view_of (s : state K) : view :=
  mk_v (umems s) (ctxs s) (socks s) (dom (rings s)) (dom (heap (base s))).

Definition does {A} (v : view) (m : X K A) (Q : A → view → Prop) : Prop :=
  ∀ s, view_of s = v → wp m s (λ a s', Q a (view_of s')).
(** An operation that leaves all of it as it is. *)
Definition gentle {A} (v : view) (m : X K A) (P : A → Prop) : Prop := does v m (λ a v', v' = v ∧ P a).

Lemma does_ret {A} v (a : A) (Q : A → view → Prop) : Q a v → does v (pret a) Q.
Proof. by intros HQ s <-. Qed.
Lemma does_bind {A B} v (m : X K A) (k : A → X K B) R Q :
  does v m R → (∀ a v', R a v' → does v' (k a) Q) → does v (pbind m k) Q.
Proof. intros Hm Hk s E. apply wp_bind. eapply wp_mono; [by apply Hm|]. intros a s' HR. by apply (Hk a _ HR). Qed.
Lemma does_mono {A} v (m : X K A) (Q R : A → view → Prop) : does v m Q → (∀ a v', Q a v' → R a v') → does v m R.
Proof. intros Hm HQ s E. eapply wp_mono; [by apply Hm|]. auto. Qed.
Lemma gentle_bind {A B} v (m : X K A) (k : A → X K B) P Q :
  gentle v m P → (∀ a, P a → does v (k a) Q) → does v (pbind m k) Q.
Proof. intros Hm Hk. eapply does_bind; [apply Hm|]. intros a v' [-> HP]. auto. Qed.
Lemma gentle_seq {A B} v (m : X K A) (k : A → X K B) P R :
  gentle v m P → (∀ a, P a → gentle v (k a) R) → gentle v (pbind m k) R.
Proof. apply gentle_bind. Qed.
Lemma gentle_any {A} v (m : X K A) P : gentle v m P → gentle v m (λ _, True).
Proof. intros Hm. eapply does_mono; [apply Hm|]. by intros a v' [-> _]. Qed.
Lemma gentle_ret {A} v (a : A) (P : A → Prop) : P a → gentle v (pret a) P.
Proof. intros. by apply does_ret. Qed.

Lemma gentle_lift {A} v (m : M K A) P : quiet m P → gentle v (lift m) P.
Proof.
  intros Hm s <-. specialize (Hm (base s)). unfold wp, lift in *. destruct (m (base s)) as [[a w]|]; [|done].
  destruct Hm as (Eh & _ & HP). split; [|done]. unfold view_of. cbn. by rewrite Eh.
Qed.
Lemma gentle_get v : gentle v (pget (S := state K)) (λ s, view_of s = v).
Proof. by intros s <-. Qed.
Lemma gentle_errno v : gentle v (neg_errno (K := K)) (λ _, True).
Proof. by intros s <-. Qed.

Hint Resolve gentle_errno : gentle.

Ltac gentle_step :=
  lazymatch goal with
  | |- gentle _ (pbind _ _) _ => eapply gentle_seq; [gentle_prim|intros ? ?]
  | |- gentle _ (pret _) _ => by apply gentle_ret
  | |- gentle _ (match ?x with _ => _ end) _ => destruct x
  | |- gentle _ _ _ => gentle_prim
  end
with gentle_prim :=
  first [solve [eauto with gentle] | apply (gentle_any _ _ (λ _, True)); repeat gentle_step].

Lemma gentle_kop {A} v (f : K → A * K) : gentle v (lift (kop f)) (λ _, True).
Proof. apply gentle_lift, quiet_kop. Qed.
Lemma gentle_kread {A} v (f : K → A) : gentle v (lift (kread f)) (λ _, True).
Proof. by apply gentle_lift, quiet_kread. Qed.
Lemma gentle_set_errno v e : gentle v (lift (set_errno e)) (λ _, True).
Proof. apply gentle_lift, quiet_set_errno. Qed.
Lemma gentle_close v fd : gentle v (close (K := K) fd) (λ _, True).
Proof. apply gentle_lift, quiet_fclose. Qed.
Lemma gentle_munmap v a n : gentle v (munmap (K := K) a n) (λ _, True).
Proof. apply gentle_kop. Qed.
Lemma gentle_alloc v : gentle v (alloc_ok (K := K)) (λ _, True).
Proof. apply gentle_kop. Qed.
Hint Resolve gentle_kop gentle_kread gentle_set_errno gentle_close gentle_munmap gentle_alloc : gentle.

Lemma gentle_sys {A} v (f : K → (Z + A) * K) : gentle v (sys f) (λ _, True).
Proof. unfold sys. repeat gentle_step. Qed.
Lemma gentle_sys_err v (f : K → Z * K) : gentle v (sys_err f) (λ _, True).
Proof. unfold sys_err. repeat gentle_step. Qed.
Hint Resolve gentle_sys gentle_sys_err : gentle.
Lemma gentle_mmap v n fd pg : gentle v (mmap n fd pg) (λ _, True).
Proof. unfold mmap. repeat gentle_step. Qed.
Lemma gentle_offsets v fd : gentle v (xsk_get_mmap_offsets fd) (λ _, True).
Proof. unfold xsk_get_mmap_offsets. repeat gentle_step. Qed.
Hint Resolve gentle_mmap gentle_offsets : gentle.

(** ** The caller's rings *)

Lemma gentle_get_ring v r : r ∈ v_rings v → gentle v (get_ring (K := K) r) (λ _, True).
Proof.
  intros Hr s <-. cbn in Hr. apply elem_of_dom in Hr as [x Ex]. unfold wp, get_ring. by rewrite Ex.
Qed.
Lemma gentle_put_ring v r x : r ∈ v_rings v → gentle v (put_ring (K := K) r x) (λ _, True).
Proof.
  intros Hr. eapply gentle_bind; [by apply gentle_get_ring|]. intros _ _ s <-. split; [|done].
  unfold view_of. cbn in *. f_equal. rewrite dom_insert_L. set_solver.
Qed.
Hint Resolve gentle_get_ring gentle_put_ring : gentle.
Lemma gentle_unmap_ring v r off n m : r ∈ v_rings v → gentle v (unmap_ring (K := K) r off n m) (λ _, True).
Proof. intros. unfold unmap_ring. repeat gentle_step. Qed.
Lemma gentle_umem_rings v cfg fd f c :
  f ∈ v_rings v → c ∈ v_rings v → gentle v (xsk_create_umem_rings (K := K) cfg fd f c) (λ _, True).
Proof. intros. unfold xsk_create_umem_rings. cbv zeta. repeat gentle_step. Qed.
Hint Resolve gentle_unmap_ring gentle_umem_rings : gentle.

(** ** Counting sockets *)

Definition cnt (P : nat * sock.t → Prop) `{∀ p, Decision (P p)} (S : gmap nat sock.t) : nat :=
  base.size (filter P S).

Lemma cnt_insert P `{∀ p, Decision (P p)} S a x :
  S !! a = None → cnt P (<[a := x]> S) = ((if decide (P (a, x)) then 1 else 0) + cnt P S)%nat.
Proof.
  intros Ha. unfold cnt. case_decide as HP.
  - rewrite map_filter_insert_True, map_size_insert_None; [done| |done]. rewrite map_lookup_filter_None. by left.
  - rewrite map_filter_insert_False, delete_id by done. done.
Qed.
Lemma cnt_delete P `{∀ p, Decision (P p)} S a x :
  S !! a = Some x → cnt P S = ((if decide (P (a, x)) then 1 else 0) + cnt P (delete a S))%nat.
Proof. intros Ha. rewrite <- (insert_delete_id S a x Ha) at 1. by rewrite cnt_insert by apply lookup_delete_eq. Qed.
Lemma cnt_ext P Q `{∀ p, Decision (P p), ∀ p, Decision (Q p)} S :
  (∀ a x, S !! a = Some x → P (a, x) ↔ Q (a, x)) → cnt P S = cnt Q S.
Proof. intros HPQ. unfold cnt. f_equal. apply map_filter_ext. intros a x Hx. by apply HPQ. Qed.
Lemma cnt_pos P `{∀ p, Decision (P p)} S a x : S !! a = Some x → P (a, x) → (0 < cnt P S)%nat.
Proof. intros Ha HP. rewrite (cnt_delete P S a x Ha), decide_True by done. lia. Qed.
Lemma cnt_none P `{∀ p, Decision (P p)} S : (∀ a x, S !! a = Some x → ¬ P (a, x)) → cnt P S = 0%nat.
Proof.
  intros HP. apply map_size_empty_iff, map_eq. intros a. rewrite lookup_empty, map_lookup_filter_None.
  destruct (S !! a) as [x|] eqn:E; [right|by left]. intros y [= <-]. by apply HP.
Qed.
Lemma cnt_some P `{∀ p, Decision (P p)} S : cnt P S ≠ 0%nat → ∃ a x, S !! a = Some x ∧ P (a, x).
Proof.
  intros Hn. unfold cnt in Hn. destruct (map_choose (filter P S)) as (a & x & Hx).
  { intros E. by rewrite E, map_size_empty in Hn. }
  apply map_lookup_filter_Some in Hx as [Hx HP]. eauto.
Qed.

(** The sockets on a context, and those of a umem. *)
Definition csocks (S : gmap nat sock.t) (c : nat) : nat := cnt (λ p, sock.ctx p.2 = c) S.
Definition nsocks (S : gmap nat sock.t) (C : gmap nat ctx.t) (u : nat) : nat :=
  cnt (λ p, ctx.umem <$> C !! sock.ctx p.2 = Some u) S.

(** ** The invariant

    [leak u] is how many references to the umem [u] belong to no socket, [pc] a
    context with a reference that belongs to no socket, [S] the sockets that
    count: those that are allocated, but for one that is being deleted. *)
Definition bump (leak : nat → nat) (u : nat) : nat → nat := λ u', if decide (u' = u) then S (leak u') else leak u'.
Definition opt_in (r : option nat) (R : gset nat) : Prop := ∀ a, r = Some a → a ∈ R.

(** A context has no program, or it owns one and is used by one socket. *)
Definition slot_inv (progs : gset nat) (C : ctx.t) : Prop :=
  xdp_prog (ctx.slot C) = Null ∨
  ∃ a, xdp_prog (ctx.slot C) = Ptr a ∧ a ∈ progs ∧ slot_ok (ctx.slot C) ∧ ctx.refcount C = 1.

Record inv (leak : nat → nat) (pc : option nat) (S : gmap nat sock.t) (v : view) : Prop := {
  i_sock : ∀ a x, S !! a = Some x →
    is_Some (v_ctxs v !! sock.ctx x) ∧ opt_in (sock.rx x) (v_rings v) ∧ opt_in (sock.tx x) (v_rings v);
  i_ctx : ∀ c C, v_ctxs v !! c = Some C →
    (∃ U, v_umems v !! ctx.umem C = Some U ∧ c ∈ umem.ctx_list U) ∧
    ctx.fill C ∈ v_rings v ∧ ctx.comp C ∈ v_rings v;
  i_count : ∀ c C, v_ctxs v !! c = Some C →
    ctx.refcount C = Z.of_nat (csocks S c) + (if decide (pc = Some c) then 1 else 0) ∧ 0 < ctx.refcount C;
  i_list : ∀ u U, v_umems v !! u = Some U → NoDup (umem.ctx_list U) ∧
    (∀ c, c ∈ umem.ctx_list U → ∃ C, v_ctxs v !! c = Some C ∧ ctx.umem C = u);
  i_umem : ∀ u U, v_umems v !! u = Some U →
    umem.refcount U = Z.of_nat (nsocks S (v_ctxs v) u + leak u) ∧
    opt_in (umem.fill_save U) (v_rings v) ∧ opt_in (umem.comp_save U) (v_rings v) ∧
    (is_Some (umem.fill_save U) ↔ is_Some (umem.comp_save U));
  i_dead : ∀ u, v_umems v !! u = None → leak u = 0%nat;
  i_slot : ∀ c C, v_ctxs v !! c = Some C → (pc = Some c ∧ ctx.refcount C = 1) ∨ slot_inv (v_progs v) C;
  i_uniq : ∀ c1 c2 C1 C2 a, pc ≠ Some c1 → pc ≠ Some c2 → v_ctxs v !! c1 = Some C1 → v_ctxs v !! c2 = Some C2 →
    xdp_prog (ctx.slot C1) = Ptr a → xdp_prog (ctx.slot C2) = Ptr a → c1 = c2 }.

Definition with_umems v um := mk_v um (v_ctxs v) (v_socks v) (v_rings v) (v_progs v).
Definition with_ctxs v cx := mk_v (v_umems v) cx (v_socks v) (v_rings v) (v_progs v).
Definition with_socks v so := mk_v (v_umems v) (v_ctxs v) so (v_rings v) (v_progs v).
Definition with_progs v pr := mk_v (v_umems v) (v_ctxs v) (v_socks v) (v_rings v) pr.

(** ** How the invariant changes *)

Definition saves_ok (v : view) (U : umem.t) : Prop :=
  opt_in (umem.fill_save U) (v_rings v) ∧ opt_in (umem.comp_save U) (v_rings v) ∧
  (is_Some (umem.fill_save U) ↔ is_Some (umem.comp_save U)).

Lemma inv_saves leak pc S v u U : inv leak pc S v → v_umems v !! u = Some U → saves_ok v U.
Proof. intros Hi Hu. by destruct (i_umem _ _ _ _ Hi _ _ Hu). Qed.

Lemma inv_put_umem leak leak' pc S v u U U' :
  inv leak pc S v → v_umems v !! u = Some U → umem.ctx_list U' = umem.ctx_list U →
  umem.refcount U' = Z.of_nat (nsocks S (v_ctxs v) u + leak' u) → (∀ u', u' ≠ u → leak' u' = leak u') →
  saves_ok v U' →
  inv leak' pc S (with_umems v (<[u := U']> (v_umems v))).
Proof.
  intros Hi Hu Hl Hr Hleak Hs. split; cbn.
  - apply (i_sock _ _ _ _ Hi).
  - intros c C HC. destruct (i_ctx _ _ _ _ Hi _ _ HC) as [(V & HV & Hc) Hrings]. split; [|done].
    destruct (decide (ctx.umem C = u)) as [E|]; [|by exists V; rewrite lookup_insert_ne by done].
    exists U'. rewrite E, lookup_insert_eq. split; [done|]. rewrite Hl. rewrite E, Hu in HV. by injection HV as ->.
  - apply (i_count _ _ _ _ Hi).
  - intros u' V [[<- <-]|[Hne HV]]%lookup_insert_Some; [rewrite Hl|]; by apply (i_list _ _ _ _ Hi).
  - intros u' V [[<- <-]|[Hne HV]]%lookup_insert_Some; [by split|].
    rewrite Hleak by done. by apply (i_umem _ _ _ _ Hi).
  - intros u' [HV Hne]%lookup_insert_None. rewrite Hleak by done. by apply (i_dead _ _ _ _ Hi).
  - apply (i_slot _ _ _ _ Hi).
  - apply (i_uniq _ _ _ _ Hi).
Qed.

Lemma bump_eq leak u : bump leak u u = S (leak u).
Proof. unfold bump. by rewrite decide_True. Qed.
Lemma bump_ne leak u u' : u' ≠ u → bump leak u u' = leak u'.
Proof. intros. unfold bump. by rewrite decide_False. Qed.

(** A reference to a umem is taken or given back. *)
Lemma inv_ref leak pc S v u U :
  inv leak pc S v → v_umems v !! u = Some U →
  inv (bump leak u) pc S (with_umems v (<[u := umem.set_refcount U (umem.refcount U + 1)]> (v_umems v))).
Proof.
  intros Hi Hu. destruct (i_umem _ _ _ _ Hi _ _ Hu) as [Hr Hs].
  eapply inv_put_umem; [done|done|done| |intros; by apply bump_ne|done]. cbn. rewrite bump_eq. lia.
Qed.
Lemma inv_unref leak pc S v u U :
  inv (bump leak u) pc S v → v_umems v !! u = Some U →
  inv leak pc S (with_umems v (<[u := umem.set_refcount U (umem.refcount U - 1)]> (v_umems v))).
Proof.
  intros Hi Hu. destruct (i_umem _ _ _ _ Hi _ _ Hu) as [Hr Hs]. rewrite bump_eq in Hr.
  eapply inv_put_umem; [done|done|done| |intros; by rewrite bump_ne|done]. cbn. lia.
Qed.
(** Other fields of a umem. *)
Lemma inv_umem_fields leak pc S v u U U' :
  inv leak pc S v → v_umems v !! u = Some U →
  umem.ctx_list U' = umem.ctx_list U → umem.refcount U' = umem.refcount U → saves_ok v U' →
  inv leak pc S (with_umems v (<[u := U']> (v_umems v))).
Proof.
  intros Hi Hu Hl Hr Hs. destruct (i_umem _ _ _ _ Hi _ _ Hu) as [Hr' _].
  eapply inv_put_umem; [done|done|done|by rewrite Hr|done|done].
Qed.

(** A context keeps its umem and its rings. *)
Definition same_ctx (C C' : ctx.t) : Prop :=
  ctx.umem C' = ctx.umem C ∧ ctx.fill C' = ctx.fill C ∧ ctx.comp C' = ctx.comp C.

Lemma nsocks_put S cx c C C' u :
  cx !! c = Some C → ctx.umem C' = ctx.umem C → nsocks S (<[c := C']> cx) u = nsocks S cx u.
Proof.
  intros HC E. apply cnt_ext. intros a x _. cbn. destruct (decide (sock.ctx x = c)) as [->|].
  - by rewrite lookup_insert_eq, HC; cbn; rewrite E.
  - by rewrite lookup_insert_ne.
Qed.

Lemma inv_put_ctx leak pc pc' S v progs c C C' :
  inv leak pc S v → v_ctxs v !! c = Some C → same_ctx C C' →
  (ctx.refcount C' = Z.of_nat (csocks S c) + (if decide (pc' = Some c) then 1 else 0) ∧ 0 < ctx.refcount C') →
  (∀ c', c' ≠ c → pc = Some c' ↔ pc' = Some c') →
  (∀ c' C1, c' ≠ c → v_ctxs v !! c' = Some C1 → slot_inv (v_progs v) C1 → slot_inv progs C1) →
  (pc' = Some c ∧ ctx.refcount C' = 1) ∨ slot_inv progs C' →
  (∀ c' C1 a, c' ≠ c → pc' ≠ Some c → v_ctxs v !! c' = Some C1 → slot_inv (v_progs v) C1 →
    xdp_prog (ctx.slot C1) = Ptr a → xdp_prog (ctx.slot C') ≠ Ptr a) →
  inv leak pc' S (with_progs (with_ctxs v (<[c := C']> (v_ctxs v))) progs).
Proof.
  intros Hi HC (Eu & Ef & Ec) Hcount Hpc Hprogs Hslot Huniq. split; cbn.
  - intros a x Hx. destruct (i_sock _ _ _ _ Hi _ _ Hx) as [Hsome Hr]. split; [|done].
    by apply lookup_insert_is_Some'; right.
  - intros c' D [[<- <-]|[Hne HD]]%lookup_insert_Some; [rewrite Eu, Ef, Ec|]; by apply (i_ctx _ _ _ _ Hi).
  - intros c' D [[<- <-]|[Hne HD]]%lookup_insert_Some; [done|]. destruct (i_count _ _ _ _ Hi _ _ HD) as [Hr Hp].
    split; [|done]. rewrite Hr. f_equal. apply decide_ext. by apply Hpc.
  - intros u U HU. destruct (i_list _ _ _ _ Hi _ _ HU) as [Hn Hl]. split; [done|]. intros c' Hc'.
    destruct (Hl _ Hc') as (D & HD & Eq). destruct (decide (c' = c)) as [->|].
    + rewrite lookup_insert_eq. exists C'. split; [done|]. rewrite HC in HD. injection HD as <-. congruence.
    + rewrite lookup_insert_ne by done. eauto.
  - intros u U HU. by rewrite (nsocks_put _ _ _ _ _ _ HC Eu); apply (i_umem _ _ _ _ Hi).
  - apply (i_dead _ _ _ _ Hi).
  - intros c' D [[<- <-]|[Hne HD]]%lookup_insert_Some; [done|].
    destruct (i_slot _ _ _ _ Hi _ _ HD) as [[Hp Hr]|Hs]; [left; by rewrite <- Hpc|right; eauto].
  - assert (∀ c' D, c' ≠ c → pc' ≠ Some c' → v_ctxs v !! c' = Some D → slot_inv (v_progs v) D) as Hinv.
    { intros c' D Hne Hp HD. destruct (i_slot _ _ _ _ Hi _ _ HD) as [[Hp' _]|]; [|done]. by apply Hpc in Hp'. }
    intros c1 c2 C1 C2 a Hp1 Hp2 [[<- <-]|[Hn1 HC1]]%lookup_insert_Some [[<- <-]|[Hn2 HC2]]%lookup_insert_Some E1 E2;
      [done| | |].
    + destruct (Huniq c2 C2 a); eauto.
    + destruct (Huniq c1 C1 a); eauto.
    + eapply (i_uniq _ _ _ _ Hi c1 c2 C1 C2 a); eauto; by rewrite Hpc.
Qed.

(** A further reference to a context without a program. *)
Lemma inv_hold leak S v c C :
  inv leak None S v → v_ctxs v !! c = Some C → xdp_prog (ctx.slot C) = Null →
  inv leak (Some c) S (with_ctxs v (<[c := ctx.set_refcount C (ctx.refcount C + 1)]> (v_ctxs v))).
Proof.
  intros Hi HC Hs. destruct (i_count _ _ _ _ Hi _ _ HC) as [Hr Hp]. rewrite decide_False in Hr by done.
  change (with_ctxs v ?x) with (with_progs (with_ctxs v x) (v_progs v)).
  eapply inv_put_ctx; [done|done|done| | |done|by right; left|].
  - rewrite decide_True by done. cbn. lia.
  - intros c' Hne. split; [done|congruence].
  - intros c' C1 a _ Hnp. by destruct Hnp.
Qed.

(** The pending reference is given back, others remain. *)
Lemma inv_unhold leak S v c C :
  inv leak (Some c) S v → v_ctxs v !! c = Some C → ctx.refcount C - 1 ≠ 0 →
  inv leak None S (with_ctxs v (<[c := ctx.set_refcount C (ctx.refcount C - 1)]> (v_ctxs v))).
Proof.
  intros Hi HC Hne. destruct (i_count _ _ _ _ Hi _ _ HC) as [Hr Hp]. rewrite decide_True in Hr by done.
  assert (xdp_prog (ctx.slot C) = Null) as Hnull.
  { destruct (i_slot _ _ _ _ Hi _ _ HC) as [[_ ?]|[?|(a & _ & _ & _ & ?)]]; [lia|done|lia]. }
  change (with_ctxs v ?x) with (with_progs (with_ctxs v x) (v_progs v)).
  eapply inv_put_ctx; [done|done|done| | |done|by right; left|].
  - rewrite decide_False by done. cbn. lia.
  - intros c' Hne'. split; [congruence|done].
  - intros c' C1 a _ _ _ _ _. cbn. congruence.
Qed.

(** The last reference is given back: the context goes. *)
Lemma inv_free_ctx leak S v c C U :
  inv leak (Some c) S v → v_ctxs v !! c = Some C → ctx.refcount C - 1 = 0 → v_umems v !! ctx.umem C = Some U →
  inv leak None S (mk_v (<[ctx.umem C := umem.set_list U (filter (λ b, b ≠ c) (umem.ctx_list U))]> (v_umems v))
    (delete c (v_ctxs v)) (v_socks v) (v_rings v) (v_progs v)).
Proof.
  intros Hi HC Hone HU. destruct (i_count _ _ _ _ Hi _ _ HC) as [Hr Hp]. rewrite decide_True in Hr by done.
  assert (∀ a x, S !! a = Some x → sock.ctx x ≠ c) as Hnone.
  { intros a x Hx E. assert (0 < csocks S c)%nat; [|lia]. by eapply cnt_pos. }
  split; cbn.
  - intros a x Hx. destruct (i_sock _ _ _ _ Hi _ _ Hx) as [Hsome Hrings]. split; [|done].
    rewrite lookup_delete_ne; [done|]. intros E. by eapply Hnone.
  - intros c' D [Hne HD]%lookup_delete_Some. destruct (i_ctx _ _ _ _ Hi _ _ HD) as [(V & HV & Hin) Hrings].
    split; [|done]. destruct (decide (ctx.umem D = ctx.umem C)) as [E|]; [|by exists V; rewrite lookup_insert_ne by done].
    rewrite E in HV |- *. rewrite lookup_insert_eq. eexists. split; [done|]. cbn. rewrite HU in HV. injection HV as <-.
    by apply list_elem_of_filter.
  - intros c' D [Hne HD]%lookup_delete_Some. destruct (i_count _ _ _ _ Hi _ _ HD) as [Hr' Hp'].
    rewrite decide_False in Hr' by congruence. by rewrite decide_False.
  - intros u V [[<- <-]|[Hne HV]]%lookup_insert_Some.
    + destruct (i_list _ _ _ _ Hi _ _ HU) as [Hn Hl]. cbn. split; [by apply NoDup_filter|].
      intros c' [Hne Hc']%list_elem_of_filter. rewrite lookup_delete_ne by done. by apply Hl.
    + destruct (i_list _ _ _ _ Hi _ _ HV) as [Hn Hl]. split; [done|]. intros c' Hc'.
      destruct (Hl _ Hc') as (D & HD & E). rewrite lookup_delete_ne; [by exists D|]. intros ->. congruence.
  - assert (∀ u, nsocks S (delete c (v_ctxs v)) u = nsocks S (v_ctxs v) u) as Hns.
    { intros u. apply cnt_ext. intros a x Hx. cbn. rewrite lookup_delete_ne; [done|]. intros E. by eapply Hnone. }
    intros u V [[<- <-]|[Hne HV]]%lookup_insert_Some; rewrite Hns;
      [exact (i_umem _ _ _ _ Hi _ _ HU)|by apply (i_umem _ _ _ _ Hi)].
  - intros u [HV _]%lookup_insert_None. by apply (i_dead _ _ _ _ Hi).
  - intros c' D [Hne HD]%lookup_delete_Some. right.
    destruct (i_slot _ _ _ _ Hi _ _ HD) as [[? _]|]; [congruence|done].
  - intros c1 c2 C1 C2 a _ _ [Hn1 HC1]%lookup_delete_Some [Hn2 HC2]%lookup_delete_Some.
    eapply (i_uniq _ _ _ _ Hi); by try congruence.
Qed.

(** A new context, with the reference of the caller. *)
Lemma inv_new_ctx leak S v c C U :
  inv leak None S v → v_ctxs v !! c = None → v_umems v !! ctx.umem C = Some U →
  ctx.fill C ∈ v_rings v → ctx.comp C ∈ v_rings v → ctx.refcount C = 1 → xdp_prog (ctx.slot C) = Null →
  inv leak (Some c) S (mk_v (<[ctx.umem C := umem.set_list U (c :: umem.ctx_list U)]> (v_umems v))
    (<[c := C]> (v_ctxs v)) (v_socks v) (v_rings v) (v_progs v)).
Proof.
  intros Hi Hc HU Hf Hcm Hr Hs.
  assert (∀ a x, S !! a = Some x → sock.ctx x ≠ c) as Hnone.
  { intros a x Hx E. destruct (i_sock _ _ _ _ Hi _ _ Hx) as [[D HD] _]. congruence. }
  split; cbn.
  - intros a x Hx. destruct (i_sock _ _ _ _ Hi _ _ Hx) as [Hsome Hrings]. split; [|done].
    by apply lookup_insert_is_Some'; right.
  - intros c' D [[<- <-]|[Hne HD]]%lookup_insert_Some.
    + split; [|done]. rewrite lookup_insert_eq. eexists. split; [done|]. by left.
    + destruct (i_ctx _ _ _ _ Hi _ _ HD) as [(V & HV & Hin) Hrings]. split; [|done].
      destruct (decide (ctx.umem D = ctx.umem C)) as [E|]; [|by exists V; rewrite lookup_insert_ne by done].
      rewrite E in HV |- *. rewrite lookup_insert_eq. eexists. split; [done|]. cbn. rewrite HU in HV.
      injection HV as <-. by right.
  - intros c' D [[<- <-]|[Hne HD]]%lookup_insert_Some.
    + rewrite decide_True, Hr by done. unfold csocks. rewrite cnt_none; [lia|]. intros a x Hx. by eapply Hnone.
    + destruct (i_count _ _ _ _ Hi _ _ HD) as [Hr' Hp']. rewrite decide_False in Hr' by done.
      by rewrite decide_False by congruence.
  - intros u V [[<- <-]|[Hne HV]]%lookup_insert_Some.
    + destruct (i_list _ _ _ _ Hi _ _ HU) as [Hn Hl]. cbn. split.
      * constructor; [|done]. intros (D & HD & _)%Hl. congruence.
      * intros c' [->|Hc']%elem_of_cons; [exists C; by rewrite lookup_insert_eq|].
        destruct (Hl _ Hc') as (D & HD & E). exists D. rewrite lookup_insert_ne by congruence. done.
    + destruct (i_list _ _ _ _ Hi _ _ HV) as [Hn Hl]. split; [done|]. intros c' Hc'.
      destruct (Hl _ Hc') as (D & HD & E). exists D. by rewrite lookup_insert_ne by congruence.
  - assert (∀ u, nsocks S (<[c := C]> (v_ctxs v)) u = nsocks S (v_ctxs v) u) as Hns.
    { intros u. apply cnt_ext. intros a x Hx. cbn. rewrite lookup_insert_ne; [done|]. intros E. by eapply Hnone. }
    intros u V [[<- <-]|[Hne HV]]%lookup_insert_Some; rewrite Hns;
      [exact (i_umem _ _ _ _ Hi _ _ HU)|by apply (i_umem _ _ _ _ Hi)].
  - intros u [HV _]%lookup_insert_None. by apply (i_dead _ _ _ _ Hi).
  - intros c' D [[<- <-]|[Hne HD]]%lookup_insert_Some; [by left|right].
    by destruct (i_slot _ _ _ _ Hi _ _ HD) as [[? _]|].
  - intros c1 c2 C1 C2 a Hp1 Hp2 [[<- <-]|[Hn1 HC1]]%lookup_insert_Some [[<- <-]|[Hn2 HC2]]%lookup_insert_Some; try done.
    by eapply (i_uniq _ _ _ _ Hi).
Qed.

(** The pending reference becomes that of a new socket. *)
Lemma inv_add_sock leak S v c C a x :
  inv (bump leak (ctx.umem C)) (Some c) S v → v_ctxs v !! c = Some C → S !! a = None → sock.ctx x = c →
  opt_in (sock.rx x) (v_rings v) → opt_in (sock.tx x) (v_rings v) → slot_inv (v_progs v) C →
  (∀ c' C1 b, c' ≠ c → v_ctxs v !! c' = Some C1 → xdp_prog (ctx.slot C1) = Ptr b → xdp_prog (ctx.slot C) ≠ Ptr b) →
  inv leak None (<[a := x]> S) v.
Proof.
  intros Hi HC Ha Hx Hrx Htx Hs Hu. split.
  - intros b y [[<- <-]|[Hne Hy]]%lookup_insert_Some; [rewrite Hx; by eauto|by apply (i_sock _ _ _ _ Hi b)].
  - apply (i_ctx _ _ _ _ Hi).
  - intros c' D HD. destruct (i_count _ _ _ _ Hi _ _ HD) as [Hr Hp]. split; [|done].
    unfold csocks. rewrite cnt_insert by done. cbn. rewrite Hr. rewrite Hx. rewrite (decide_False (P := None = Some c')) by done.
    destruct (decide (c = c')) as [->|]; [rewrite decide_True by done|rewrite decide_False by congruence];
      unfold csocks; lia.
  - apply (i_list _ _ _ _ Hi).
  - intros u U HU. destruct (i_umem _ _ _ _ Hi _ _ HU) as [Hr Hsave]. split; [|done]. rewrite Hr.
    unfold nsocks. rewrite cnt_insert by done. cbn. rewrite Hx, HC. cbn.
    destruct (decide (Some (ctx.umem C) = Some u)) as [[= <-]|]; [rewrite bump_eq|rewrite bump_ne by congruence]; lia.
  - intros u HU. pose proof (i_dead _ _ _ _ Hi _ HU) as Hd.
    destruct (decide (u = ctx.umem C)) as [->|]; [by rewrite bump_eq in Hd|by rewrite bump_ne in Hd].
  - intros c' D HD. right. destruct (i_slot _ _ _ _ Hi _ _ HD) as [[[= <-] _]|]; [|done]. rewrite HC in HD. by injection HD as <-.
  - intros c1 c2 C1 C2 b _ _ HC1 HC2 E1 E2. destruct (decide (c1 = c)) as [->|], (decide (c2 = c)) as [->|]; [done| | |].
    + rewrite HC in HC1. injection HC1 as <-. by destruct (Hu c2 C2 b).
    + rewrite HC in HC2. injection HC2 as <-. by destruct (Hu c1 C1 b).
    + by eapply (i_uniq _ _ _ _ Hi); try congruence.
Qed.

(** A socket is about to go; its references are pending, and so is its
    program. *)
Lemma inv_del_sock leak S v progs a x C :
  inv leak None S v → S !! a = Some x → v_ctxs v !! sock.ctx x = Some C →
  (ctx.refcount C = 1 ∨ slot_inv progs C) →
  (∀ c' C1, c' ≠ sock.ctx x → v_ctxs v !! c' = Some C1 → slot_inv (v_progs v) C1 → slot_inv progs C1) →
  inv (bump leak (ctx.umem C)) (Some (sock.ctx x)) (delete a S) (with_progs v progs).
Proof.
  intros Hi Ha HC Hs Ho. destruct (i_ctx _ _ _ _ Hi _ _ HC) as [(U & HU & _) _]. split; cbn.
  - intros b y [_ Hy]%lookup_delete_Some. by apply (i_sock _ _ _ _ Hi b).
  - apply (i_ctx _ _ _ _ Hi).
  - intros c' D HD. destruct (i_count _ _ _ _ Hi _ _ HD) as [Hr Hp]. split; [|done]. rewrite Hr. unfold csocks.
    rewrite (cnt_delete _ S a x Ha). cbn. rewrite (decide_False (P := None = Some c')) by done.
    destruct (decide (sock.ctx x = c')) as [->|]; [rewrite decide_True by done|rewrite decide_False by congruence]; lia.
  - apply (i_list _ _ _ _ Hi).
  - intros u V HV. destruct (i_umem _ _ _ _ Hi _ _ HV) as [Hr Hsave]. split; [|done]. rewrite Hr. unfold nsocks.
    rewrite (cnt_delete _ S a x Ha). cbn. rewrite HC. cbn.
    destruct (decide (Some (ctx.umem C) = Some u)) as [[= <-]|]; [rewrite bump_eq|rewrite bump_ne by congruence]; lia.
  - intros u HV. rewrite bump_ne by congruence. by apply (i_dead _ _ _ _ Hi).
  - intros c' D HD. destruct (decide (c' = sock.ctx x)) as [->|].
    + rewrite HC in HD. injection HD as <-. destruct Hs; [by left|by right].
    + right. destruct (i_slot _ _ _ _ Hi _ _ HD) as [[? _]|]; [done|eauto].
  - intros c1 c2 C1 C2 b _ _. by apply (i_uniq _ _ _ _ Hi).
Qed.

(** A umem without references goes; a new one has none. *)
Lemma inv_free_umem leak S v u U :
  inv leak None S v → v_umems v !! u = Some U → umem.refcount U = 0 →
  inv leak None S (with_umems v (delete u (v_umems v))).
Proof.
  intros Hi Hu Hz. destruct (i_umem _ _ _ _ Hi _ _ Hu) as [Hr _].
  assert (∀ c C, v_ctxs v !! c = Some C → ctx.umem C ≠ u) as Hno.
  { intros c C HC E. destruct (i_count _ _ _ _ Hi _ _ HC) as [Hrc Hp]. rewrite decide_False in Hrc by done.
    destruct (cnt_some (λ p, sock.ctx p.2 = c) S) as (a & x & Hx & Ex); [unfold csocks in Hrc; lia|]. cbn in Ex.
    assert (0 < nsocks S (v_ctxs v) u)%nat; [|lia]. eapply cnt_pos; [done|]. cbn. by rewrite Ex, HC, <- E. }
  split; cbn.
  - apply (i_sock _ _ _ _ Hi).
  - intros c C HC. destruct (i_ctx _ _ _ _ Hi _ _ HC) as [(V & HV & Hin) Hrings]. split; [|done].
    exists V. rewrite lookup_delete_ne; [done|]. intros E. by eapply Hno.
  - apply (i_count _ _ _ _ Hi).
  - intros u' V [_ HV]%lookup_delete_Some. by apply (i_list _ _ _ _ Hi).
  - intros u' V [_ HV]%lookup_delete_Some. by apply (i_umem _ _ _ _ Hi).
  - intros u' HV. destruct (decide (u' = u)) as [->|]; [lia|].
    rewrite lookup_delete_ne in HV by done. by apply (i_dead _ _ _ _ Hi).
  - apply (i_slot _ _ _ _ Hi).
  - apply (i_uniq _ _ _ _ Hi).
Qed.

Lemma inv_new_umem leak S v u U :
  inv leak None S v → v_umems v !! u = None → umem.refcount U = 0 → umem.ctx_list U = [] → saves_ok v U →
  inv leak None S (with_umems v (<[u := U]> (v_umems v))).
Proof.
  intros Hi Hu Hr Hl Hs.
  assert (∀ c C, v_ctxs v !! c = Some C → ctx.umem C ≠ u) as Hno.
  { intros c C HC E. destruct (i_ctx _ _ _ _ Hi _ _ HC) as [(V & HV & _) _]. congruence. }
  split; cbn.
  - apply (i_sock _ _ _ _ Hi).
  - intros c C HC. destruct (i_ctx _ _ _ _ Hi _ _ HC) as [(V & HV & Hin) Hrings]. split; [|done].
    exists V. rewrite lookup_insert_ne; [done|]. intros E. by eapply Hno.
  - apply (i_count _ _ _ _ Hi).
  - intros u' V [[<- <-]|[_ HV]]%lookup_insert_Some; [|by apply (i_list _ _ _ _ Hi)].
    rewrite Hl. split; [constructor|]. by intros c ?%not_elem_of_nil.
  - intros u' V [[<- <-]|[_ HV]]%lookup_insert_Some; [|by apply (i_umem _ _ _ _ Hi)]. split; [|done].
    rewrite Hr, (i_dead _ _ _ _ Hi u Hu). unfold nsocks. rewrite cnt_none; [done|]. intros a x Hx. cbn.
    destruct (v_ctxs v !! sock.ctx x) as [C|] eqn:E; [|done]. cbn. intros [= Eu]. by eapply Hno.
  - intros u' [HV _]%lookup_insert_None. by apply (i_dead _ _ _ _ Hi).
  - apply (i_slot _ _ _ _ Hi).
  - apply (i_uniq _ _ _ _ Hi).
Qed.

(** ** Steps on the objects *)

Lemma gentle_get_umem v u U : v_umems v !! u = Some U → gentle v (get_umem (K := K) u) (λ r, r = U).
Proof. intros Hu s <-. unfold wp, get_umem. cbn in Hu. by rewrite Hu. Qed.
Lemma gentle_get_ctx v c C : v_ctxs v !! c = Some C → gentle v (get_ctx (K := K) c) (λ r, r = C).
Proof. intros Hu s <-. unfold wp, get_ctx. cbn in Hu. by rewrite Hu. Qed.
Lemma gentle_get_sock v a x : v_socks v !! a = Some x → gentle v (get_sock (K := K) a) (λ r, r = x).
Proof. intros Hu s <-. unfold wp, get_sock. cbn in Hu. by rewrite Hu. Qed.
Lemma does_put_umem v u U : does v (put_umem (K := K) u U) (λ _ v', v' = with_umems v (<[u := U]> (v_umems v))).
Proof. by intros s <-. Qed.
Lemma does_put_ctx v c C : does v (put_ctx (K := K) c C) (λ _ v', v' = with_ctxs v (<[c := C]> (v_ctxs v))).
Proof. by intros s <-. Qed.
Lemma does_put_sock v a x : does v (put_sock (K := K) a x) (λ _ v', v' = with_socks v (<[a := x]> (v_socks v))).
Proof. by intros s <-. Qed.
Lemma does_mod_umem v u U f : v_umems v !! u = Some U →
  does v (mod_umem (K := K) u f) (λ _ v', v' = with_umems v (<[u := f U]> (v_umems v))).
Proof. intros Hu. eapply gentle_bind; [by apply gentle_get_umem|]. intros _ ->. apply does_put_umem. Qed.
Lemma does_free_ctx v c C : v_ctxs v !! c = Some C →
  does v (free_ctx (K := K) c) (λ _ v', v' = with_ctxs v (delete c (v_ctxs v))).
Proof. intros Hu. eapply gentle_bind; [by apply gentle_get_ctx|]. by intros _ _ s <-. Qed.
Lemma does_free_sock v a x : v_socks v !! a = Some x →
  does v (free_sock (K := K) a) (λ _ v', v' = with_socks v (delete a (v_socks v))).
Proof. intros Hu. eapply gentle_bind; [by apply gentle_get_sock|]. by intros _ _ s <-. Qed.
Lemma does_free_umem v u U : v_umems v !! u = Some U →
  does v (free_umem (K := K) u) (λ _ v', v' = with_umems v (delete u (v_umems v))).
Proof. intros Hu. eapply gentle_bind; [by apply gentle_get_umem|]. by intros _ _ s <-. Qed.

(** An operation of the program side. *)
Lemma does_lift {A} v (m : M K A) Q :
  runs (v_progs v) m Q → does v (lift m) (λ a v', ∃ h, v' = with_progs v h ∧ Q a h).
Proof.
  intros Hm s <-. specialize (Hm (base s) eq_refl). unfold wp, lift in *. destruct (m (base s)) as [[a w]|]; [|done].
  by exists (dom (heap w)).
Qed.

(** What the calls on one umem leave alone. *)
Definition frame (v v' : view) : Prop :=
  dom (v_umems v') = dom (v_umems v) ∧ v_socks v' = v_socks v ∧ v_rings v' = v_rings v.

Lemma frame_refl v : frame v v.
Proof. done. Qed.
Lemma frame_trans v1 v2 v3 : frame v1 v2 → frame v2 v3 → frame v1 v3.
Proof. intros (? & ? & ?) (? & ? & ?). repeat split; congruence. Qed.
Lemma frame_umem v v' u U : frame v v' → v_umems v !! u = Some U → ∃ U', v_umems v' !! u = Some U'.
Proof. intros (E & _) Hu. apply elem_of_dom. rewrite E. apply elem_of_dom. eauto. Qed.
Lemma frame_put_umem v u U U' : v_umems v !! u = Some U → frame v (with_umems v (<[u := U']> (v_umems v))).
Proof. intros Hu. split; [|done]. cbn. apply dom_insert_lookup_L. eauto. Qed.
Hint Resolve frame_refl frame_put_umem : core.

Lemma does_sock_put_ctx leak S v c C unmap :
  inv leak (Some c) S v → v_ctxs v !! c = Some C →
  does v (xsk_put_ctx c unmap) (λ _ v', inv leak None S v' ∧ frame v v').
Proof.
  intros Hi HC. destruct (i_ctx _ _ _ _ Hi _ _ HC) as [(U & HU & _) [Hf Hcm]]. unfold xsk_put_ctx.
  eapply gentle_bind; [by apply gentle_get_ctx|]. intros _ ->.
  eapply does_bind; [apply does_put_ctx|]. intros _ v1 ->.
  destruct (Z.eqb_spec (ctx.refcount C - 1) 0) as [Hz|Hz]; cbn [negb].
  2:{ apply does_ret. split; [by apply inv_unhold|done]. }
  eapply gentle_bind.
  { apply (gentle_any _ _ (λ _, True)). destruct unmap; [|by apply gentle_ret].
    eapply gentle_seq; [by apply gentle_get_umem|]. intros _ ->. repeat gentle_step. }
  intros _ _. eapply does_bind; [by apply does_mod_umem|]. intros _ v2 ->.
  eapply does_mono; [eapply does_free_ctx; cbn; apply lookup_insert_eq|]. intros _ v3 ->. cbn.
  rewrite delete_insert_eq. split; [exact (inv_free_ctx _ _ _ _ _ _ Hi HC Hz HU)|]. split; [|done]. cbn. apply dom_insert_lookup_L. eauto.
Qed.

(** The end of a call that fails: the reference to the umem is given back. *)
Definition failed (leak : nat → nat) (S : gmap nat sock.t) (v : view) (r : Z * option nat) (v' : view) : Prop :=
  r.2 = None ∧ inv leak None S v' ∧ frame v v'.

Lemma failed_frame leak S v v1 r v' : frame v v1 → failed leak S v1 r v' → failed leak S v r v'.
Proof. intros Hf (Hr & Hi & Hf'). split; [done|]. split; [done|by eapply frame_trans]. Qed.

Lemma does_out_socket leak S v u fd err :
  inv (bump leak u) None S v → u ∈ dom (v_umems v) → does v (out_socket u fd err) (failed leak S v).
Proof.
  intros Hi [U HU]%elem_of_dom. unfold out_socket. eapply gentle_bind; [by apply gentle_get_umem|]. intros _ ->.
  eapply does_bind; [apply does_put_umem|]. intros _ v1 ->.
  eapply gentle_bind; [apply (gentle_any _ _ (λ _, True)); repeat gentle_step|]. intros _ _.
  apply does_ret. split; [done|]. split; [by apply inv_unref|eauto].
Qed.

Lemma does_out_put_ctx leak S v u fill c C fd err :
  inv (bump leak u) (Some c) S v → v_ctxs v !! c = Some C → u ∈ dom (v_umems v) →
  does v (out_put_ctx u fill c fd err) (failed leak S v).
Proof.
  intros Hi HC Hu. pose proof Hu as [U HU]%elem_of_dom. unfold out_put_ctx.
  eapply gentle_bind; [by apply gentle_get_umem|]. intros _ ->.
  eapply does_bind; [by eapply does_sock_put_ctx|]. intros _ v1 [Hi1 Hf].
  eapply does_mono; [apply does_out_socket; [done|]|].
  - destruct Hf as [-> _]. done.
  - intros r v' Hr. by eapply failed_frame.
Qed.

(** ** Creating a socket *)

Definition inhibited (cfg : xsk_socket_config) : bool :=
  negb (Z.land (libbpf_flags cfg) XSK_LIBBPF_FLAGS__INHIBIT_PROG_LOAD =? 0).

(** What the caller of [xsk_socket__create_shared] must see to: the rings are
    there, and a queue is shared only by sockets without a program of their
    own. *)
Definition create_ok (ifname : string) (queue_id : Z) (u : nat) (rx tx fill comp : option nat)
    (cfg : xsk_socket_config) (v : view) : Prop :=
  u ∈ dom (v_umems v) ∧
  opt_in rx (v_rings v) ∧ opt_in tx (v_rings v) ∧ opt_in fill (v_rings v) ∧ opt_in comp (v_rings v) ∧
  ∀ c C, v_ctxs v !! c = Some C → ctx.umem C = u → ctx.queue_id C = queue_id →
    (∃ k, s_nametoindex ifname k = inr (ctx.ifindex C)) →
    xdp_prog (ctx.slot C) = Null ∧ inhibited cfg = true.

Section create.
Context (ifname : string) (queue_id : Z) (u : nat) (rx tx fill comp : option nat) (cfg : xsk_socket_config).

Lemma gentle_map_sock_ring v fd r n extra off pg :
  opt_in r (v_rings v) → gentle v (map_sock_ring (K := K) fd r n extra off pg) (λ _, True).
Proof.
  intros Hr. unfold map_sock_ring. destruct r as [r|]; [|by apply gentle_ret]. specialize (Hr r eq_refl).
  repeat gentle_step.
Qed.
Lemma gentle_unmap_if v r m off n : gentle v (unmap_if (K := K) r m off n) (λ _, True).
Proof. unfold unmap_if. repeat gentle_step. Qed.
Lemma gentle_netns v fd : gentle v (netns_cookie (K := K) fd) (λ _, True).
Proof. unfold netns_cookie. repeat gentle_step. Qed.
Hint Resolve gentle_unmap_if gentle_netns : gentle.

Lemma gentle_ctx_rings v U fd f c :
  v_umems v !! u = Some U → saves_ok v U → f ∈ v_rings v → c ∈ v_rings v →
  gentle v (ctx_rings (K := K) u fd f c) (λ _, True).
Proof.
  intros HU (Hf & Hc & Hb) Hfill Hcomp. unfold ctx_rings. eapply gentle_seq; [by apply gentle_get_umem|]. intros _ ->.
  destruct (umem.fill_save U) as [a|] eqn:Ea; [|eauto with gentle].
  destruct (umem.comp_save U) as [b|] eqn:Eb.
  - specialize (Hf a eq_refl). specialize (Hc b eq_refl). repeat gentle_step.
  - destruct Hb as [Hb _]. specialize (Hb ltac:(eauto)). by destruct Hb.
Qed.

(** The context with its pending reference. *)
Definition held (S : gmap nat sock.t) (leak : nat → nat) (c : nat) (v : view) : Prop :=
  ∃ C, v_ctxs v !! c = Some C ∧ ctx.umem C = u ∧ xdp_prog (ctx.slot C) = Null ∧
    (inhibited cfg = true ∨ ctx.refcount C = 1) ∧ inv leak (Some c) S v.

Lemma does_find_ctx leak S v l netns ifindex :
  inv leak None S v → (∀ c, c ∈ l → ∃ C, v_ctxs v !! c = Some C ∧ ctx.umem C = u) →
  (∀ c C, v_ctxs v !! c = Some C → ctx.umem C = u → ctx.queue_id C = queue_id → ctx.ifindex C = ifindex →
    xdp_prog (ctx.slot C) = Null ∧ inhibited cfg = true) →
  does v (find_ctx l netns ifindex queue_id) (λ r v', frame v v' ∧
    match r with Some c => held S leak c v' | None => v' = v end).
Proof.
  intros Hi Hl Hok. induction l as [|c l IH]; cbn [find_ctx]; [by apply does_ret|].
  destruct (Hl c) as (C & HC & Hu); [by left|]. eapply gentle_bind; [by apply gentle_get_ctx|]. intros _ ->.
  destruct (_ && _) eqn:E; [|apply IH; intros c' ?; apply Hl; by right].
  apply andb_true_iff in E as [[_ Ei%Z.eqb_eq]%andb_true_iff Eq%Z.eqb_eq]. destruct (Hok c C HC Hu Eq Ei) as [Hs Hin].
  eapply does_bind; [apply does_put_ctx|]. intros _ v' ->. apply does_ret. split; [done|].
  eexists. cbn. rewrite lookup_insert_eq. split; [done|]. cbn. split; [done|]. split; [done|]. split; [by left|].
  by apply inv_hold.
Qed.

Lemma does_create_ctx leak S v U fd netns ifindex f c :
  inv leak None S v → v_umems v !! u = Some U → f ∈ v_rings v → c ∈ v_rings v →
  does v (xsk_create_ctx u fd netns ifindex ifname queue_id f c) (λ r v', frame v v' ∧
    match r with Some c => held S leak c v' | None => v' = v end).
Proof.
  intros Hi HU Hf Hc. unfold xsk_create_ctx. eapply gentle_bind; [apply gentle_alloc|]. intros ok _.
  destruct ok; cbn [negb]; [|by apply does_ret].
  eapply gentle_bind; [eapply gentle_ctx_rings; [done|by eapply inv_saves|done|done]|]. intros err _.
  destruct (err =? 0); cbn [negb]; [|by apply does_ret].
  eapply gentle_bind; [apply gentle_get|]. intros s Es. cbv zeta.
  set (a := fresh (dom (ctxs s))).
  assert (v_ctxs v !! a = None) as Ha by (rewrite <- Es; cbn; apply not_elem_of_dom, is_fresh).
  eapply does_bind; [apply does_put_ctx|]. intros _ v1 ->.
  eapply does_bind; [by apply does_mod_umem|]. intros _ v2 ->. apply does_ret. split.
  - split; [|done]. cbn. apply dom_insert_lookup_L. eauto.
  - eexists. cbn. rewrite lookup_insert_eq. split; [done|]. cbn. split; [done|]. split; [done|]. split; [by right|].
    by eapply (inv_new_ctx leak S v a (ctx.mk _ _ u _ 1 _ _ (mk_slot Null 0 0) _) U).
Qed.

Lemma does_sock_ctx leak S v U fd netns ifindex :
  inv leak None S v → v_umems v !! u = Some U → opt_in fill (v_rings v) → opt_in comp (v_rings v) →
  (∀ c C, v_ctxs v !! c = Some C → ctx.umem C = u → ctx.queue_id C = queue_id → ctx.ifindex C = ifindex →
    xdp_prog (ctx.slot C) = Null ∧ inhibited cfg = true) →
  does v (sock_ctx ifname queue_id u fill comp fd netns ifindex) (λ r v', frame v v' ∧
    match r with inr c => held S leak c v' | inl _ => v' = v end).
Proof.
  intros Hi HU Hf Hc Hok. unfold sock_ctx, xsk_get_ctx.
  apply (does_bind _ _ _ (λ r v', frame v v' ∧ match r with Some c => held S leak c v' | None => v' = v end)).
  { eapply gentle_bind; [by apply gentle_get_umem|]. intros _ ->. apply does_find_ctx; [done| |done].
    apply (i_list _ _ _ _ Hi _ _ HU). }
  intros [c|] v1 [Hfr H1']; [by apply does_ret|]. subst v1.
  destruct fill as [f|], comp as [c|]; try by apply does_ret.
  eapply does_bind; [by eapply does_create_ctx; [..|apply Hf|apply Hc]|]. intros [a|] v1 Hv1; by apply does_ret.
Qed.

Lemma does_set_ring S leak v c fd r done opt mark :
  held S leak c v → u ∈ dom (v_umems v) →
  (∀ U, umem.ctx_list (mark U) = umem.ctx_list U ∧ umem.refcount (mark U) = umem.refcount U ∧
        umem.fill_save (mark U) = umem.fill_save U ∧ umem.comp_save (mark U) = umem.comp_save U) →
  does v (set_ring u fd r done opt mark) (λ _ v', frame v v' ∧ held S leak c v').
Proof.
  intros Hh [U HU]%elem_of_dom Hm. unfold set_ring. destruct r as [r|], done; try by apply does_ret.
  eapply gentle_bind; [apply gentle_sys_err|]. intros [|] _; [by apply does_ret|].
  eapply gentle_bind; [by apply gentle_get_umem|]. intros _ ->.
  apply (does_bind _ _ _ (λ _ v', frame v v' ∧ held S leak c v')); [|intros _ v' Hv'; by apply does_ret].
  destruct (_ =? _); [|by apply does_ret]. eapply does_mono; [apply does_put_umem|]. intros _ v' ->. split; [eauto|].
  destruct Hh as (C & HC & Eu & Hs & Hin & Hi). exists C. do 4 (split; [done|]).
  destruct (Hm U) as (El & Er & Ef & Ec). eapply inv_umem_fields; [done..|].
  pose proof (inv_saves _ _ _ _ _ _ Hi HU) as Hsv. unfold saves_ok in *. by rewrite Ef, Ec.
Qed.

(** Success leaves a context whose program, if any, is its own. *)
Definition ready (S : gmap nat sock.t) (leak : nat → nat) (c : nat) (v : view) : Prop :=
  ∃ C, v_ctxs v !! c = Some C ∧ ctx.umem C = u ∧ inv leak (Some c) S v ∧ slot_inv (v_progs v) C ∧
    ∀ c' C1 b, c' ≠ c → v_ctxs v !! c' = Some C1 → xdp_prog (ctx.slot C1) = Ptr b → xdp_prog (ctx.slot C) ≠ Ptr b.

Lemma does_bind_and_setup `{!ProgramContract} S leak v c fd :
  held S leak c v → u ∈ dom (v_umems v) →
  does v (bind_and_setup u rx cfg c fd) (λ err v', frame v v' ∧
    (∃ C, v_ctxs v' !! c = Some C ∧ inv leak (Some c) S v') ∧ (err = 0 → ready S leak c v')).
Proof.
  intros (C & HC & Eu & Hs & Hin & Hi) [U HU]%elem_of_dom. unfold bind_and_setup.
  eapply gentle_bind; [by apply gentle_get_umem|]. intros _ ->.
  eapply gentle_bind; [by apply gentle_get_ctx|]. intros _ ->. cbv zeta.
  assert (ready S leak c v) as Hready.
  { exists C. do 3 (split; [done|]). split; [by left|]. intros. congruence. }
  eapply gentle_bind; [apply gentle_sys_err|]. intros err _. destruct err.
  { eapply does_mono; [apply gentle_errno|]. intros e v' [-> _]. split; [done|]. by split; [exists C|]. }
  destruct (inhibited cfg) eqn:Einh; unfold inhibited in Einh; rewrite Einh.
  { apply does_ret. split; [done|]. by split; [exists C|]. }
  destruct Hin as [?|Hr]; [congruence|].
  eapply does_bind; [apply does_lift, contract_setup|]. intros [e sl] v1 (h & -> & Hset).
  eapply does_bind; [apply does_put_ctx|]. intros _ v2 ->. apply does_ret. cbn [v_umems with_progs with_ctxs].
  assert (v_progs v ⊆ h) as Hsub.
  { destruct Hset as [H0' Hne']. destruct (decide (e = 0)) as [->|Hne]; [|by rewrite (Hne' Hne)].
    destruct (H0' eq_refl) as (a & _ & _ & -> & _). set_solver. }
  assert (inv leak (Some c) S (with_progs (with_ctxs v (<[c := ctx.set_slot C sl]> (v_ctxs v))) h)) as Hi'.
  { pose proof (i_count _ _ _ _ Hi _ _ HC) as Hcount.
    eapply inv_put_ctx; [done|done|done|done|done| |by left|by intros ? ? ? ? []].
    intros c' C1 _ _ [?|(a & Ea & Ha & Hok & ?)]; [by left|right]. exists a. eauto. }
  split; [done|]. split; [eexists; split; [apply lookup_insert_eq|exact Hi']|]. intros ->.
  destruct Hset as [Hset _]. destruct (Hset eq_refl) as (a & Ea & Ha & Eh & Hok). cbn in Ea, Hok.
  eexists. split; [apply lookup_insert_eq|]. split; [done|]. split; [exact Hi'|]. split.
  - right. exists a. cbn. repeat split; [done|set_solver|done|done].
  - intros c' C1 b Hne HC1 Eb. cbn in HC1 |- *. rewrite lookup_insert_ne in HC1 by done.
    destruct (i_slot _ _ _ _ Hi _ _ HC1) as [[? _]|[?|(b' & Eb' & Hb' & _)]]; [congruence|congruence|].
    intros Eab. assert (a = b') as -> by congruence. done.
Qed.

Definition created (leak : nat → nat) (v : view) (r : Z * option nat) (v' : view) : Prop :=
  inv leak None (v_socks v') v' ∧ dom (v_umems v') = dom (v_umems v) ∧ v_rings v' = v_rings v ∧
  match r.2 with
  | Some a => r.1 = 0 ∧ v_socks v !! a = None ∧ ∃ x, v_socks v' = <[a := x]> (v_socks v) ∧
      ∃ C, v_ctxs v' !! sock.ctx x = Some C ∧ ctx.umem C = u
  | None => v_socks v' = v_socks v
  end.

Lemma failed_created leak v r v' : failed leak (v_socks v) v r v' → created leak v r v'.
Proof. intros (Hr & Hi & Hd & Hs & Hg). unfold created. rewrite Hr, Hs. done. Qed.
Lemma created_frame leak v v1 r v' : frame v v1 → created leak v1 r v' → created leak v r v'.
Proof. intros (Hd & Hs & Hg) (Hi & Hd' & Hg' & Hr). unfold created. rewrite <- Hs. split; [done|]. split; [congruence|]. split; [congruence|done]. Qed.

Lemma inv_socks leak pc S v so : inv leak pc S v → inv leak pc S (with_socks v so).
Proof. by intros []. Qed.

(** The new socket. *)
Lemma does_new_sock leak v v1 c fd :
  frame v v1 → ready (v_socks v) (bump leak u) c v1 → u ∈ dom (v_umems v1) →
  opt_in rx (v_rings v1) → opt_in tx (v_rings v1) →
  does v1 (let! s := pget in
           let a := fresh (dom (socks s)) in
           put_sock a (sock.mk rx tx c cfg fd) ;;;
           mod_umem u (λ u, umem.set_save u None None) ;;;
           pret (0, Some a)) (created leak v).
Proof.
  intros (Hd & Hso & Hg) (C & HC & Eu & Hi & Hs & Hq) [U HU]%elem_of_dom Hrx Htx.
  eapply gentle_bind; [apply gentle_get|]. intros s Es. cbv zeta. set (a := fresh (dom (socks s))).
  assert (v_socks v !! a = None) as Ha by (rewrite <- Hso, <- Es; cbn; apply not_elem_of_dom, is_fresh).
  eapply does_bind; [apply does_put_sock|]. intros _ v2 ->.
  eapply does_bind; [by apply does_mod_umem|]. intros _ v3 ->. apply does_ret. unfold created. cbn. rewrite Hso.
  split.
  - eapply (inv_umem_fields leak None (<[a := _]> (v_socks v)) (with_socks v1 _)); [|done|done|done|].
    + apply inv_socks. rewrite <- Eu in Hi. by eapply inv_add_sock.
    + split; [done|]. split; [done|]. by split; intros [? [=]].
  - split; [rewrite <- Hd; apply dom_insert_lookup_L; eauto|]. split; [done|]. split; [done|]. split; [done|].
    eexists. split; [done|]. by exists C.
Qed.

Lemma does_sock_rings `{!ProgramContract} leak v c fd rx_done tx_done :
  held (v_socks v) (bump leak u) c v → u ∈ dom (v_umems v) → opt_in rx (v_rings v) → opt_in tx (v_rings v) →
  does v (sock_rings u rx tx fill cfg c fd rx_done tx_done) (created leak v).
Proof.
  intros Hh Hu Hrx Htx. unfold sock_rings. cbv zeta.
  set (fail := let! err := neg_errno in out_put_ctx u fill c fd err).
  assert (∀ v1 m, frame v v1 → (∃ C, v_ctxs v1 !! c = Some C ∧ inv (bump leak u) (Some c) (v_socks v) v1) →
    (∀ v1, (∃ C, v_ctxs v1 !! c = Some C ∧ inv (bump leak u) (Some c) (v_socks v) v1) → u ∈ dom (v_umems v1) →
       does v1 m (failed leak (v_socks v) v1)) → does v1 m (created leak v)) as Hend.
  { intros v1 m Hf HC Hm. eapply does_mono; [apply Hm; [done|]|].
    - destruct Hf as [-> _]. done.
    - intros r v' Hr. apply failed_created. by eapply failed_frame. }
  assert (∀ v1, (∃ C, v_ctxs v1 !! c = Some C ∧ inv (bump leak u) (Some c) (v_socks v) v1) → u ∈ dom (v_umems v1) →
    does v1 fail (failed leak (v_socks v) v1)) as Hfail.
  { intros v1 (C & HC & Hi) Hu1. eapply gentle_bind; [apply gentle_errno|]. intros err _. by eapply does_out_put_ctx. }
  assert (∀ v1, held (v_socks v) (bump leak u) c v1 → ∃ C, v_ctxs v1 !! c = Some C ∧ inv (bump leak u) (Some c) (v_socks v) v1) as Hheld.
  { intros v1 (C & HC & _ & _ & _ & Hi). eauto. }
  eapply does_bind; [by apply does_set_ring|]. intros [|] v1 [Hf1 Hh1]; [by apply Hend; eauto|].
  eapply does_bind; [apply does_set_ring; [done|by destruct Hf1 as [-> _]|done]|].
  intros [|] v2 [Hf2 Hh2]; [apply Hend; eauto using frame_trans|].
  assert (frame v v2) as Hf by (by eapply frame_trans).
  assert (u ∈ dom (v_umems v2)) as Hu2 by (by destruct Hf as [-> _]).
  assert (v_rings v2 = v_rings v) as Hrings by (by destruct Hf as (_ & _ & ->)).
  eapply gentle_bind; [apply gentle_offsets|]. intros [|off] _; [by apply Hend; eauto|].
  eapply gentle_bind; [apply gentle_map_sock_ring; by rewrite Hrings|]. intros [rx_map|] _; [|by apply Hend; eauto].
  eapply gentle_bind; [apply gentle_map_sock_ring; by rewrite Hrings|]. intros [tx_map|] _.
  2:{ apply Hend; [done|by eauto|]. intros v3 (C & HC & Hi) Hu3. eapply gentle_bind; [apply gentle_errno|]. intros err _.
      unfold out_mmap_rx. eapply gentle_bind; [apply gentle_unmap_if|]. intros _ _. by eapply does_out_put_ctx. }
  eapply does_bind; [by apply does_bind_and_setup|]. intros err v3 (Hf3 & HC3 & Hrd).
  assert (frame v v3) as Hf' by (by eapply frame_trans).
  destruct (Z.eqb_spec err 0) as [->|]; cbn [negb].
  2:{ apply Hend; [done|done|]. intros v4 (C & HC & Hi) Hu4. unfold out_mmap_tx, out_mmap_rx.
      do 2 (eapply gentle_bind; [apply gentle_unmap_if|]; intros _ _). by eapply does_out_put_ctx. }
  specialize (Hrd eq_refl). destruct Hf' as (Hd3 & Hs3 & Hg3). apply does_new_sock; [done|done|by rewrite Hd3|by rewrite Hg3..].
Qed.

(** A reference is left behind when the descriptor of a further socket cannot be
    opened. *)
Definition create_post (leak : nat → nat) (v : view) (r : Z * option nat) (v' : view) : Prop :=
  created leak v r v' ∨
  created (bump leak u) v r v' ∧ r.2 = None ∧ ∀ U, v_umems v !! u = Some U → 0 < umem.refcount U.

Lemma does_sock_fd v U :
  v_umems v !! u = Some U →
  does v (sock_fd (K := K) u) (λ r v',
    v' = with_umems v (<[u := umem.set_refcount U (umem.refcount U + 1)]> (v_umems v)) ∧
    match r with inl _ => 0 < umem.refcount U | inr _ => True end).
Proof.
  intros HU. unfold sock_fd. eapply gentle_bind; [by apply gentle_get_umem|]. intros _ ->.
  eapply does_bind; [apply does_put_umem|]. intros _ v1 ->.
  destruct (Z.ltb_spec 0 (umem.refcount U)); [|by apply does_ret].
  eapply gentle_bind; [apply gentle_sys|]. intros [fd|] _; [by apply does_ret|].
  eapply gentle_bind; [apply gentle_errno|]. intros e _. by apply does_ret.
Qed.

Lemma does_create_body `{!ProgramContract} leak v :
  inv leak None (v_socks v) v → create_ok ifname queue_id u rx tx fill comp cfg v →
  does v (create_body ifname queue_id u rx tx fill comp cfg) (create_post leak v).
Proof.
  intros Hi ([U HU]%elem_of_dom & Hrx & Htx & Hf & Hc & Hok). unfold create_body.
  eapply gentle_bind; [apply gentle_lift; apply (quiet_kread _ (λ r, ∃ k, s_nametoindex ifname k = r)); eauto|].
  intros [e|ifindex] [k Hk].
  { eapply gentle_bind; [apply gentle_set_errno|]. intros _ _. apply does_ret. by left. }
  eapply does_bind; [by apply does_sock_fd|]. intros r v1 [-> Hr]. set (v1 := with_umems _ _).
  assert (inv (bump leak u) None (v_socks v) v1) as Hi1 by by apply inv_ref.
  assert (frame v v1) as Hf1 by by eapply frame_put_umem. assert (u ∈ dom (v_umems v1)) as Hu1.
  { destruct Hf1 as [-> _]. apply elem_of_dom. eauto. }
  pose proof Hu1 as [U1 HU1]%elem_of_dom.
  destruct r as [err|[[fd rxd] txd]].
  { apply does_ret. right. split; [|split; [done|intros V HV; congruence]].
    split; [exact Hi1|]. by destruct Hf1 as (? & ? & ?). }
  assert (∀ m, does v1 m (created leak v1) → does v1 m (create_post leak v)) as Hend.
  { intros m Hm. eapply does_mono; [apply Hm|]. intros r' v' Hr'. left. by eapply created_frame. }
  assert (∀ err, does v1 (out_socket u fd err) (create_post leak v)) as Hout.
  { intros err. apply Hend. eapply does_mono; [by apply does_out_socket|]. intros r' v' Hr'. by apply failed_created. }
  eapply gentle_bind; [apply gentle_netns|]. intros [e|netns] _; [apply Hout|].
  eapply does_bind.
  { eapply (does_sock_ctx (bump leak u) (v_socks v) v1); [done|done|done|done|].
    intros c C HC Eu Eq Ei. eapply Hok; [done..|]. exists k. by rewrite Ei. }
  intros [e|c] v2 [Hf2 Hh]; [subst v2; apply Hout|].
  eapply does_mono; [eapply (does_sock_rings leak)|].
  - destruct Hf2 as (_ & -> & _). exact Hh.
  - by destruct Hf2 as [-> _].
  - by destruct Hf2 as (_ & _ & ->).
  - by destruct Hf2 as (_ & _ & ->).
  - intros r' v' Hr'. left. eapply created_frame; [|done]. by eapply frame_trans.
Qed.
End create.

(** ** The other calls *)

Lemma does_umem_create leak v umem_ptr fd area size fill comp cfg :
  inv leak None (v_socks v) v → opt_in fill (v_rings v) → opt_in comp (v_rings v) →
  does v (xsk_umem__create_with_fd umem_ptr fd area size fill comp cfg) (λ r v',
    inv leak None (v_socks v') v' ∧ v_socks v' = v_socks v ∧
    match r.2 with
    | Some u => r.1 = 0 ∧ v_umems v !! u = None ∧ ∃ U, v_umems v' = <[u := U]> (v_umems v)
    | None => v_umems v' = v_umems v
    end).
Proof.
  intros Hi Hf Hc. unfold xsk_umem__create_with_fd. destruct fill as [f|], comp as [c|]; try by apply does_ret.
  specialize (Hf f eq_refl). specialize (Hc c eq_refl).
  destruct (_ || _); [by apply does_ret|]. destruct (_ && _); [by apply does_ret|].
  eapply gentle_bind; [apply gentle_alloc|]. intros ok _. destruct ok; cbn [negb]; [|by apply does_ret].
  eapply gentle_bind; [apply (gentle_any _ _ (λ _, True)); repeat gentle_step|]. intros fd' _.
  destruct (fd' <? 0). { eapply gentle_bind; [apply gentle_errno|]. intros e _. by apply does_ret. }
  cbv zeta. eapply gentle_bind; [apply gentle_sys_err|]. intros err _.
  eapply gentle_bind; [apply (gentle_any _ _ (λ _, True)); repeat gentle_step|]. intros e _.
  destruct (e =? 0); cbn [negb].
  2:{ eapply gentle_bind; [apply gentle_close|]. intros _ _. by apply does_ret. }
  eapply gentle_bind; [apply gentle_get|]. intros s Es. set (a := fresh (dom (umems s))).
  assert (v_umems v !! a = None) as Ha by (rewrite <- Es; cbn; apply not_elem_of_dom, is_fresh).
  eapply does_bind; [apply does_put_umem|]. intros _ v1 ->. apply does_ret. cbn. split; [|eauto].
  apply inv_new_umem; [done|done|done|done|]. split; [by intros ? [= <-]|]. split; [by intros ? [= <-]|].
  by split; eauto.
Qed.

Lemma does_umem_delete leak v u U :
  inv leak None (v_socks v) v → v_umems v !! u = Some U →
  does v (xsk_umem__delete (Some u)) (λ r v',
    if umem.refcount U =? 0 then r = 0 ∧ v' = with_umems v (delete u (v_umems v)) else r = - EBUSY ∧ v' = v).
Proof.
  intros Hi HU. cbn [xsk_umem__delete]. eapply gentle_bind; [by apply gentle_get_umem|]. intros _ ->.
  destruct (umem.refcount U =? 0); cbn [negb]; [|by apply does_ret].
  destruct (inv_saves _ _ _ _ _ _ Hi HU) as (Hf & Hc & _).
  eapply gentle_bind; [apply gentle_offsets|]. intros off _.
  eapply gentle_bind.
  { apply (gentle_any _ _ (λ _, True)). destruct off as [|off]; [by apply gentle_ret|].
    destruct (umem.fill_save U) as [f|]; [|by apply gentle_ret]. destruct (umem.comp_save U) as [c|]; [|by apply gentle_ret].
    specialize (Hf f eq_refl). specialize (Hc c eq_refl). repeat gentle_step. }
  intros _ _. eapply gentle_bind; [apply gentle_close|]. intros _ _.
  eapply does_bind; [by eapply does_free_umem|]. intros _ v' ->. by apply does_ret.
Qed.

Lemma does_lift_seq {A B} v (m1 : M K A) (m2 : M K B) Q :
  does v (lift (m1 ;;; m2)) Q → does v (lift m1 ;;; lift m2) Q.
Proof.
  intros Hm s E. specialize (Hm s E). unfold wp, lift, pbind in *. destruct (m1 (base s)) as [[a w]|]; [|done].
  cbn. by destruct (m2 w).
Qed.

(** The program is released; the references of the socket are pending. *)
Lemma does_release `{!ProgramContract} leak v a x C :
  inv leak None (v_socks v) v → v_socks v !! a = Some x → v_ctxs v !! sock.ctx x = Some C →
  does v (if is_null (xdp_prog (ctx.slot C)) then pret ()
          else lift (xsk_delete_map_entry (xsks_map_fd (ctx.slot C)) (ctx.queue_id C)) ;;;
               lift (xsk_release_xdp_prog (sock_view_of (sock.rx x) (sock.config x) C (sock.fd x)) (ctx.slot C)))
    (λ _ v', ∃ h, v' = with_progs v h ∧
       inv (bump leak (ctx.umem C)) (Some (sock.ctx x)) (delete a (v_socks v)) v').
Proof.
  intros Hi Ha HC. destruct (i_slot _ _ _ _ Hi _ _ HC) as [[? _]|[E|(b & Eb & Hb & Hok & Hr)]]; [done| |].
  - rewrite E. apply does_ret. exists (v_progs v).
    assert (v = with_progs v (v_progs v)) as Ev by by destruct v. split; [done|]. rewrite Ev at 2.
    apply inv_del_sock; [done|done|done| |done]. right. by left.
  - rewrite Eb. cbn [is_null]. apply does_lift_seq. eapply does_mono.
    + apply does_lift. eapply (contract_release _ (sock_view_of (sock.rx x) (sock.config x) C (sock.fd x))); done.
    + intros _ v' (h & -> & ->). eexists. split; [done|]. apply inv_del_sock; [done|done|done|by left|].
      intros c' C1 Hne HC1 [?|(d & Ed & Hd & Hokd & Hrd)]; [by left|right]. exists d. repeat split; [done| |done|done].
      assert (d ≠ b); [|set_solver]. intros ->. apply Hne. by eapply (i_uniq _ _ _ _ Hi).
Qed.

Lemma does_sock_delete `{!ProgramContract} leak v a x :
  inv leak None (v_socks v) v → v_socks v !! a = Some x →
  does v (xsk_socket__delete (Some a)) (λ _ v', inv leak None (v_socks v') v' ∧
    v_socks v' = delete a (v_socks v) ∧ dom (v_umems v') = dom (v_umems v) ∧ v_rings v' = v_rings v).
Proof.
  intros Hi Ha. destruct (i_sock _ _ _ _ Hi _ _ Ha) as ([C HC] & Hrx & Htx). cbn [xsk_socket__delete].
  eapply gentle_bind; [by apply gentle_get_sock|]. intros _ ->.
  eapply gentle_bind; [by apply gentle_get_ctx|]. intros _ ->.
  eapply does_bind; [by eapply does_release|]. intros _ v1 (h & -> & Hi1). set (v1 := with_progs v h) in *.
  eapply gentle_bind; [apply gentle_offsets|]. intros off _.
  eapply gentle_bind.
  { apply (gentle_any _ _ (λ _, True)). destruct off as [|off]; [by apply gentle_ret|].
    assert (∀ r m n k, opt_in r (v_rings v1) → gentle v1 (match r with Some r => unmap_ring (K := K) r m n k | None => pret () end) (λ _, True)) as Hun.
    { intros [r|] m n k Hr; [|by apply gentle_ret]. apply gentle_unmap_ring. by apply Hr. }
    eapply gentle_seq; [by apply Hun|]. intros _ _. by apply Hun. }
  intros _ _. eapply does_bind; [by eapply does_sock_put_ctx|]. intros _ v2 [Hi2 Hf2].
  destruct (i_ctx _ _ _ _ Hi _ _ HC) as [(U & HU & _) _].
  destruct (frame_umem v1 v2 (ctx.umem C) U Hf2 HU) as [U2 HU2]. destruct Hf2 as (Hd2 & Hs2 & Hg2).
  eapply gentle_bind; [by apply gentle_get_umem|]. intros _ ->.
  eapply does_bind; [apply does_put_umem|]. intros _ v3 ->.
  eapply gentle_bind; [apply (gentle_any _ _ (λ _, True)); repeat gentle_step|]. intros _ _.
  eapply does_mono; [eapply (does_free_sock _ a x); cbn; by rewrite Hs2|]. intros _ v4 ->. cbn. rewrite Hs2. cbn.
  split; [by apply inv_socks, inv_unref|]. split; [done|]. split; [|done].
  change (dom (v_umems v1)) with (dom (v_umems v)) in Hd2. rewrite <- Hd2. apply dom_insert_lookup_L. eauto.
Qed.

Lemma does_update_map leak v a x fd :
  inv leak None (v_socks v) v → v_socks v !! a = Some x →
  does v (xsk_socket__update_xskmap a fd) (λ _ v', inv leak None (v_socks v') v' ∧
    v_socks v' = v_socks v ∧ v_umems v' = v_umems v).
Proof.
  intros Hi Ha. destruct (i_sock _ _ _ _ Hi _ _ Ha) as ([C HC] & _). unfold xsk_socket__update_xskmap.
  eapply gentle_bind; [by apply gentle_get_sock|]. intros _ ->.
  eapply gentle_bind; [by apply gentle_get_ctx|]. intros _ ->.
  eapply does_bind; [apply does_put_ctx|]. intros _ v1 ->.
  eapply gentle_bind; [apply gentle_kop|]. intros e _. apply does_ret. cbn. split; [|done].
  pose proof (i_count _ _ _ _ Hi _ _ HC) as Hcount.
  change (with_ctxs v ?y) with (with_progs (with_ctxs v y) (v_progs v)).
  eapply inv_put_ctx; [done|done|done|done|done|done| |].
  - right. by destruct (i_slot _ _ _ _ Hi _ _ HC) as [[? _]|].
  - intros c' C1 b Hne _ HC1 _ E1 E2. apply Hne. cbn in E2. by eapply (i_uniq _ _ _ _ Hi).
Qed.

(** ** Any sequence of calls *)

Inductive call :=
  | UmemCreate (umem_ptr : bool) (fd umem_area size : Z) (fill comp : option nat) (cfg : option xsk_umem_config)
  | UmemDelete (u : nat)
  | SockCreate (xsk_ptr : bool) (ifname : string) (queue_id : Z) (u : nat) (rx tx : option nat)
      (cfg : option xsk_socket_config)
  | SockCreateShared (xsk_ptr : bool) (ifname : string) (queue_id : Z) (u : nat) (rx tx fill comp : option nat)
      (cfg : option xsk_socket_config)
  | SockDelete (a : nat)
  | UpdateMap (a : nat) (fd : Z).

Definition run_call (c : call) : X K (Z * option nat) :=
  match c with
  | UmemCreate p fd area size fill comp cfg => xsk_umem__create_with_fd p fd area size fill comp cfg
  | UmemDelete u => let! r := xsk_umem__delete (Some u) in pret (r, None)
  | SockCreate p n q u rx tx cfg => xsk_socket__create p n q (Some u) rx tx cfg
  | SockCreateShared p n q u rx tx fill comp cfg => xsk_socket__create_shared p n q (Some u) rx tx fill comp cfg
  | SockDelete a => xsk_socket__delete (Some a) ;;; pret (0, None)
  | UpdateMap a fd => let! r := xsk_socket__update_xskmap a fd in pret (r, None)
  end.

(** What the caller must see to: the objects it names exist, and see
    [create_ok]. *)
Definition call_ok (c : call) (v : view) : Prop :=
  match c with
  | UmemCreate _ _ _ _ fill comp _ => opt_in fill (v_rings v) ∧ opt_in comp (v_rings v)
  | UmemDelete u => u ∈ dom (v_umems v)
  | SockCreate _ n q u rx tx cfg => ∃ U, v_umems v !! u = Some U ∧ ∀ cfg', xsk_set_xdp_socket_config cfg = inr cfg' →
      create_ok n q u rx tx (umem.fill_save U) (umem.comp_save U) cfg' v
  | SockCreateShared _ n q u rx tx fill comp cfg => u ∈ dom (v_umems v) ∧
      ∀ cfg', xsk_set_xdp_socket_config cfg = inr cfg' → create_ok n q u rx tx fill comp cfg' v
  | SockDelete a | UpdateMap a _ => a ∈ dom (v_socks v)
  end.

(** The attempts to create a socket that failed while the umem was in use. *)
Definition failures (c : call) (r : Z * option nat) (s : state K) (f : nat → nat) : nat → nat :=
  match c, r.2 with
  | (SockCreate _ _ _ u _ _ _ | SockCreateShared _ _ _ u _ _ _ _ _), None =>
      match umems s !! u with
      | Some U => if 0 <? umem.refcount U then bump f u else f
      | None => f
      end
  | UmemCreate _ _ _ _ _ _ _, Some u => λ u', if decide (u' = u) then 0%nat else f u'
  | _, _ => f
  end.

Inductive life : (nat → nat) → state K → Prop :=
  | life_start s : umems s = ∅ → ctxs s = ∅ → socks s = ∅ → life (λ _, 0%nat) s
  | life_call f s c r s' :
      life f s → call_ok c (view_of s) → run_call c s = Some (r, s') → life (failures c r s f) s'.

Definition inv_state (f : nat → nat) (s : state K) : Prop :=
  ∃ leak, inv leak None (socks s) (view_of s) ∧ ∀ u, (leak u ≤ f u)%nat.

Lemma does_create_shared `{!ProgramContract} leak v p n q u rx tx fill comp cfg :
  inv leak None (v_socks v) v → u ∈ dom (v_umems v) →
  (∀ cfg', xsk_set_xdp_socket_config cfg = inr cfg' → create_ok n q u rx tx fill comp cfg' v) →
  does v (xsk_socket__create_shared p n q (Some u) rx tx fill comp cfg) (create_post u leak v).
Proof.
  intros Hi Hu Hok. assert (∀ e, create_post u leak v (e, None) v) as Hnone by (intros e; left; by split).
  cbn [xsk_socket__create_shared]. destruct (_ || _); [by apply does_ret|].
  eapply gentle_bind; [apply gentle_alloc|]. intros ok _. destruct ok; cbn [negb]; [|by apply does_ret].
  destruct (xsk_set_xdp_socket_config cfg) as [e|cfg'] eqn:E; [by apply does_ret|]. apply does_create_body; eauto.
Qed.

Lemma bump_le leak f u : (∀ u', (leak u' ≤ f u')%nat) → ∀ u', (bump leak u u' ≤ bump f u u')%nat.
Proof. intros Hle u'. specialize (Hle u'). unfold bump. case_decide; lia. Qed.
Lemma le_bump f u u' : (f u' ≤ bump f u u')%nat.
Proof. unfold bump. case_decide; lia. Qed.

(** What a creation leads to, seen from the counts. *)
Lemma create_post_inv u leak (f : nat → nat) (s : state K) r s' f' :
  (∀ u, (leak u ≤ f u)%nat) → u ∈ dom (umems s) → create_post u leak (view_of s) r (view_of s') →
  f' = match r.2 with
       | None => match umems s !! u with Some U => if 0 <? umem.refcount U then bump f u else f | None => f end
       | Some _ => f
       end → inv_state f' s'.
Proof.
  intros Hle [U HU]%elem_of_dom Hp ->. rewrite HU. destruct Hp as [(Hi & _)|((Hi & _) & Hr & Hpos)].
  - exists leak. split; [exact Hi|]. intros u'. specialize (Hle u'). pose proof (le_bump f u u').
    destruct r.2; [done|]. destruct (0 <? umem.refcount U); lia.
  - rewrite Hr, (proj2 (Z.ltb_lt _ _)) by (by apply Hpos). exists (bump leak u). split; [exact Hi|]. by apply bump_le.
Qed.

(** Every call that is allowed returns and keeps the invariant. *)
Lemma call_keeps `{!ProgramContract} f s c :
  inv_state f s → call_ok c (view_of s) → wp (run_call c) s (λ r s', inv_state (failures c r s f) s').
Proof.
  intros (leak & Hi & Hle) Hok.
  assert (∀ Q (m : X K (Z * option nat)), does (view_of s) m Q →
    (∀ r s', Q r (view_of s') → inv_state (failures c r s f) s') → wp m s (λ r s', inv_state (failures c r s f) s')) as Hfin.
  { intros Q m Hm HQ. eapply wp_mono; [by apply Hm|]. auto. }
  destruct c as [p fd area size fill comp cfg|u|p n q u rx tx cfg|p n q u rx tx fill comp cfg|a|a fd]; cbn [call_ok run_call] in *.
  - destruct Hok as [Hf Hc]. eapply Hfin; [by apply (does_umem_create leak)|]. intros r s' (Hi' & _ & Hr).
    exists leak. split; [exact Hi'|]. intros u'. cbn [failures]. destruct r.2 as [u|]; [|done]. case_decide as E; [|done].
    destruct Hr as (_ & Hnone & _). subst u'. by rewrite (i_dead _ _ _ _ Hi u Hnone).
  - pose proof Hok as [U HU]%elem_of_dom. apply (Hfin (λ _ v', inv leak None (v_socks v') v')).
    { eapply does_bind; [by eapply does_umem_delete|]. intros r v' Hr. apply does_ret.
      destruct (Z.eqb_spec (umem.refcount U) 0); destruct Hr as [-> ->]; [|done]. by eapply inv_free_umem. }
    intros r s' Hi'. by exists leak.
  - destruct Hok as (U & HU & Hok). assert (u ∈ dom (umems s)) as Hu by (apply elem_of_dom; eauto).
    eapply Hfin.
    { cbn [xsk_socket__create]. eapply gentle_bind; [by apply gentle_get_umem|]. intros _ ->.
      by apply (does_create_shared leak). }
    intros r s' Hp. by eapply create_post_inv.
  - destruct Hok as [Hu Hok]. change (u ∈ dom (umems s)) in Hu. eapply Hfin; [by apply (does_create_shared leak)|]. intros r s' Hp. by eapply create_post_inv.
  - pose proof Hok as [x Hx]%elem_of_dom. apply (Hfin (λ _ v', inv leak None (v_socks v') v')).
    { eapply does_bind; [by eapply does_sock_delete|]. intros [] v' [Hi' _]. by apply does_ret. }
    intros r s' Hi'. by exists leak.
  - pose proof Hok as [x Hx]%elem_of_dom. apply (Hfin (λ _ v', inv leak None (v_socks v') v')).
    { eapply does_bind; [by eapply (does_update_map leak)|]. intros r v' [Hi' _]. by apply does_ret. }
    intros r s' Hi'. by exists leak.
Qed.

Lemma inv_empty (s : state K) : umems s = ∅ → ctxs s = ∅ → socks s = ∅ → inv_state (λ _, 0%nat) s.
Proof.
  intros Hu Hc Hs. exists (λ _, 0%nat). split; [|done]. unfold view_of. rewrite Hu, Hc, Hs. split; cbn; try done.
  all: intros; exfalso; by simplify_map_eq.
Qed.

Lemma life_inv `{!ProgramContract} f s : life f s → inv_state f s.
Proof.
  induction 1 as [|f s c r s' _ IH Hok E]; [by apply inv_empty|].
  pose proof (call_keeps f s c IH Hok) as Hw. unfold wp in Hw. by rewrite E in Hw.
Qed.

(** ** The theorems *)


(** Deleting a umem always returns.  It is refused with [-EBUSY], and then
    nothing changes, whenever a socket still uses it; otherwise, when no creation
    of a socket on it has failed, it succeeds and only that umem is gone. *)
Theorem umem_delete_busy (env : xsk_env) f s u : life f s → u ∈ dom (umems s) →
  ∃ r s', xsk_umem__delete (Some u) s = Some (r, s') ∧
    (r = - EBUSY ∧ view_of s' = view_of s ∨
     r = 0 ∧ view_of s' = with_umems (view_of s) (delete u (umems s)) ∧ nsocks (socks s) (ctxs s) u = 0%nat) ∧
    (f u = 0%nat → nsocks (socks s) (ctxs s) u = 0%nat → r = 0).
Proof.
  intros Hl [U HU]%elem_of_dom. pose proof (xsk_env_contract env) as Hc.
  destruct (life_inv f s Hl) as (leak & Hi & Hle). specialize (Hle u).
  pose proof (does_umem_delete leak (view_of s) u U Hi HU s eq_refl) as (r & s' & E & Hr)%wp_run. exists r, s'. split; [done|].
  destruct (i_umem _ _ _ _ Hi u U HU) as [Eu _]. cbn in Eu.
  destruct (Z.eqb_spec (umem.refcount U) 0) as [E0|E0]; destruct Hr as [-> Hv].
  - split; [right|done]. split_and!; [done|done|lia].
  - split; [by left|]. lia.
Qed.
End xsk.

(** ** An instance

    A kernel with memory at fixed addresses beside [idle_kernel]. *)
Definition idle_sock : SockKernel (list Z) := {|
  s_socket k := (inr 51, k);
  s_setsockopt _ _ k := (0, k);
  s_offsets _ _ := inr (sizeof_mmap_offsets, [0; 64; 320; 128; 0; 64; 320; 128; 0; 64; 320; 128; 0; 64; 320; 128]);
  s_netns _ _ := inl ENOPROTOOPT;
  s_mmap _ _ pg k := (inr match pg with XDP_PGOFF_RX_RING => 4096 | XDP_PGOFF_TX_RING => 8192
    | XDP_UMEM_PGOFF_FILL_RING => 12288 | XDP_UMEM_PGOFF_COMPLETION_RING => 16384 end, k);
  s_munmap _ _ k := k;
  s_bind _ _ k := (0, k);
  s_nametoindex _ _ := inr 3;
  s_pagesize := 4096;
  s_load _ _ := 0 |}.

Definition zero_ring : ring := mk_ringmem (mk_ring 0 0 0 0) 0 0 0 0.
(** Four zeroed rings of the caller, and no object of the library. *)
Definition idle_state : state (list Z) :=
  mk_st idle_world ∅ ∅ ∅ (list_to_map (map (λ a, (a, zero_ring)) (seq 0 4))).

Section idle.
#[local] Existing Instances idle_kernel idle_xsk idle_sock.

(** A umem is made, and a socket with a program on it. *)
Definition idle_umem : call := UmemCreate true (-1) 65536 16384 (Some 0%nat) (Some 1%nat) None.
Definition idle_socket : call := SockCreate true "eth0" 0 0 (Some 2%nat) (Some 3%nat) None.
Fixpoint run_calls (l : list call) (s : state (list Z)) : option (state (list Z)) :=
  match l with
  | [] => Some s
  | c :: l => match run_call c s with Some (_, s') => run_calls l s' | None => None end
  end.
Definition state_after (l : list call) : state (list Z) := default idle_state (run_calls l idle_state).

Lemma idle_rings (s : state (list Z)) a r : dom (rings s) = dom (rings idle_state) →
  a = Some r → (r < 4)%nat → opt_in a (v_rings (view_of s)).
Proof.
  intros Ed -> Hr b [= <-]. cbn [view_of v_rings]. rewrite Ed.
  do 4 (destruct r as [|r]; [by apply elem_of_dom; vm_compute; eauto|]). lia.
Qed.

Lemma idle_life : ∃ f, life f (state_after [idle_umem; idle_socket]) ∧ f 0%nat = 0%nat.
Proof.
  eexists. split.
  - eapply (life_call _ (state_after [idle_umem]) idle_socket); [|  |vm_compute; reflexivity].
    + eapply (life_call _ idle_state idle_umem); [by apply life_start| |vm_compute; reflexivity].
      split; (eapply idle_rings; [reflexivity|reflexivity|lia]).
    + eexists. split; [vm_compute; reflexivity|]. intros cfg _. split_and!.
      * apply elem_of_dom. vm_compute. eauto.
      * eapply idle_rings; [vm_compute; reflexivity|reflexivity|lia].
      * eapply idle_rings; [vm_compute; reflexivity|reflexivity|lia].
      * eapply idle_rings; [vm_compute; reflexivity|reflexivity|lia].
      * eapply idle_rings; [vm_compute; reflexivity|reflexivity|lia].
      * intros c C HC. exfalso. change (v_ctxs (view_of (state_after [idle_umem]))) with (∅ : gmap nat ctx.t) in HC.
        by rewrite lookup_empty in HC.
  - reflexivity.
Qed.


(** A umem with a socket is busy. *)
Lemma umem_delete_busy_witness :
  let s := state_after [idle_umem; idle_socket] in
  ∃ s', xsk_umem__delete (Some 0%nat) s = Some (- EBUSY, s') ∧ view_of s' = view_of s.
Proof.
  cbn zeta. set (s := state_after _). destruct idle_life as (f & Hl & Hf).
  assert (0%nat ∈ dom (umems s)) as Hd by (apply elem_of_dom; vm_compute; eauto).
  destruct (umem_delete_busy idle_env f s 0 Hl Hd) as (r & s' & E & [[-> Hv]|(_ & _ & Hn)] & _).
  - exists s'. split; [exact E|exact Hv].
  - vm_compute in Hn. congruence.
Defined.

(** ** What goes wrong

    Two sockets with a program on the same queue: the second takes the place of
    the first in the context; the first deletion releases the program, the second
    uses it again. *)
Example second_delete_faults :
  is_Some (run_calls [idle_umem; idle_socket; idle_socket; SockDelete 0] idle_state) ∧
  run_calls [idle_umem; idle_socket; idle_socket; SockDelete 0; SockDelete 1] idle_state = None.
Proof. split; [vm_compute; eauto|vm_compute; reflexivity]. Qed.
End idle.

(** A creation that fails because there is no descriptor keeps its reference: the
    umem cannot be deleted although no socket is left. *)
Definition no_socket : SockKernel (list Z) := {|
  s_socket k := (inl 24, k);
  s_setsockopt := s_setsockopt (SockKernel := idle_sock); s_offsets := s_offsets (SockKernel := idle_sock);
  s_netns := s_netns (SockKernel := idle_sock); s_mmap := s_mmap (SockKernel := idle_sock);
  s_munmap := s_munmap (SockKernel := idle_sock); s_bind := s_bind (SockKernel := idle_sock);
  s_nametoindex := s_nametoindex (SockKernel := idle_sock);
  s_pagesize := s_pagesize (SockKernel := idle_sock); s_load := s_load (SockKernel := idle_sock) |}.

Example umem_never_deleted :
  let run := run_call (H := idle_kernel) (H0 := idle_xsk) (H1 := no_socket) in
  ∃ s1 s2 s3 s4 s5,
    run (UmemCreate true 50 65536 16384 (Some 0%nat) (Some 1%nat) None) idle_state = Some (0, Some 0%nat, s1) ∧
    run idle_socket s1 = Some (0, Some 0%nat, s2) ∧
    run (SockCreate true "eth0" 1 0 (Some 2%nat) (Some 3%nat) None) s2 = Some (-24, None, s3) ∧
    run (SockDelete 0) s3 = Some (0, None, s4) ∧ socks s4 = ∅ ∧
    run (UmemDelete 0) s4 = Some (- EBUSY, None, s5).
Proof.
  do 5 eexists. split; [vm_compute; reflexivity|]. split; [vm_compute; reflexivity|]. split; [vm_compute; reflexivity|].
  split; [vm_compute; reflexivity|]. split; [reflexivity|vm_compute; reflexivity].
Qed.
