(* ===== verification/XskRings.v ===== *)
(** * libxdp: the rings of AF_XDP sockets

    What the calls of [Xsk] leave in the caller's ring structures, and that the
    operations of [Ring] start from there.  [after m s Q] speaks of the ends of
    [m] only: that the calls return is shown in [XskSpec]. *)

From S2P Require Import Prelude CString Errno Packet Params Libxdp RunConfig Pin Multiprog Dispatcher MultiprogSpec Ring XskProg XskProgSpec Xsk XskSpec.
Local Open Scope Z_scope.

Create HintDb rings.

Section rings.
Context {K : Type} `{Kernel K, XskKernel K, SockKernel K}.

Definition after {A} (m : X K A) (s : Xsk.state K) (Q : A → Xsk.state K → Prop) : Prop :=
  ∀ a s', m s = Some (a, s') → Q a s'.

Lemma after_ret {A} (a : A) s (Q : A → Xsk.state K → Prop) : Q a s → after (pret a) s Q.
Proof. by intros HQ b s' [= <- <-]. Qed.
Lemma after_bind {A B} (m : X K A) (k : A → X K B) s Q :
  after m s (λ a s', after (k a) s' Q) → after (pbind m k) s Q.
Proof. intros Hm b s' E. unfold pbind in E. destruct (m s) as [[a s1]|] eqn:Em; [|done]. by apply (Hm a s1). Qed.
Lemma after_mono {A} (m : X K A) s (Q R : A → Xsk.state K → Prop) :
  after m s Q → (∀ a s', Q a s' → R a s') → after m s R.
Proof. intros Hm HQ a s' E. by apply HQ, Hm. Qed.
Lemma after_true {A} (m : X K A) s : after m s (λ _ _, True).
Proof. by intros a s'. Qed.

(** Operations that write no ring. *)
Definition still {A} (m : X K A) : Prop := ∀ s, after m s (λ _ s', rings s' = rings s).

Lemma still_bind {A B} (m : X K A) (k : A → X K B) : still m → (∀ a, still (k a)) → still (pbind m k).
Proof.
  intros Hm Hk s. apply after_bind. eapply after_mono; [apply Hm|]. intros a s1 E.
  eapply after_mono; [apply Hk|]. intros b s2 E2. congruence.
Qed.
Lemma still_seq {A B} (m : X K A) (k : A → X K B) s Q :
  still m → (∀ a s', rings s' = rings s → after (k a) s' Q) → after (pbind m k) s Q.
Proof. intros Hm Hk. apply after_bind. eapply after_mono; [apply Hm|]. auto. Qed.
Lemma still_ret {A} (a : A) : still (pret a).
Proof. intros s. by apply after_ret. Qed.
Lemma still_lift {A} (m : M K A) : still (lift m).
Proof. intros s a s' E. unfold lift in E. destruct (m (base s)) as [[b w]|]; [|done]. by injection E as <- <-. Qed.
Lemma still_get : still (pget (S := Xsk.state K)).
Proof. by intros s a s' [= <- <-]. Qed.
Lemma still_get_umem a : still (get_umem (K := K) a).
Proof. intros s b s' E. unfold get_umem in E. destruct (umems s !! a); [|done]. by injection E as <- <-. Qed.
Lemma still_get_ctx a : still (get_ctx (K := K) a).
Proof. intros s b s' E. unfold get_ctx in E. destruct (ctxs s !! a); [|done]. by injection E as <- <-. Qed.
Lemma still_get_ring a : still (get_ring (K := K) a).
Proof. intros s b s' E. unfold get_ring in E. destruct (rings s !! a); [|done]. by injection E as <- <-. Qed.
Lemma still_put_umem a u : still (put_umem (K := K) a u).
Proof. by intros s b s' [= <- <-]. Qed.
Lemma still_put_ctx a c : still (put_ctx (K := K) a c).
Proof. by intros s b s' [= <- <-]. Qed.
Lemma still_put_sock a x : still (put_sock (K := K) a x).
Proof. by intros s b s' [= <- <-]. Qed.
Hint Resolve still_lift still_get still_get_umem still_get_ctx still_get_ring still_put_umem still_put_ctx
  still_put_sock still_ret : rings.

Ltac still_tac :=
  repeat first
    [ solve [eauto with rings]
    | lazymatch goal with
      | |- still (pbind _ _) => apply still_bind; [|intros ?]
      | |- still (match ?x with _ => _ end) => destruct x
      end ].

Lemma still_sys {A} (f : K → (Z + A) * K) : still (sys f).
Proof. unfold sys. still_tac. Qed.
Lemma still_sys_err (f : K → Z * K) : still (sys_err f).
Proof. unfold sys_err. still_tac. Qed.
Lemma still_neg_errno : still (neg_errno (K := K)).
Proof. unfold neg_errno. still_tac. Qed.
Hint Resolve still_sys still_sys_err still_neg_errno : rings.
Lemma still_mmap n fd pg : still (mmap n fd pg).
Proof. unfold mmap. still_tac. Qed.
Lemma still_offsets fd : still (xsk_get_mmap_offsets fd).
Proof. unfold xsk_get_mmap_offsets. still_tac. Qed.
Lemma still_close fd : still (close (K := K) fd).
Proof. apply still_lift. Qed.
Lemma still_munmap a n : still (munmap (K := K) a n).
Proof. apply still_lift. Qed.
Lemma still_mod_umem a f : still (mod_umem (K := K) a f).
Proof. unfold mod_umem. still_tac. Qed.
Hint Resolve still_mmap still_offsets still_close still_munmap still_mod_umem : rings.
Lemma still_bind_and_setup u rx cfg c fd : still (bind_and_setup u rx cfg c fd).
Proof. unfold bind_and_setup. still_tac. Qed.

Lemma after_put_ring a r s : after (put_ring (K := K) a r) s (λ _ s', rings s' = <[a := r]> (rings s)).
Proof. apply still_seq; [apply still_get_ring|]. intros _ s1 E b s2 [= <- <-]. cbn. by rewrite E. Qed.
Lemma after_get_ring a s : after (get_ring (K := K) a) s (λ r s', s' = s ∧ rings s !! a = Some r).
Proof. intros r s' E. unfold get_ring in E. destruct (rings s !! a) eqn:Er; [|done]. by injection E as <- <-. Qed.

(** ** Errors are seen

    What the kernel documents of the two calls a ring is mapped with: an error is
    not zero, a mapping is not [MAP_FAILED], and the offsets have one of the two
    known sizes. *)
Record maps_ok : Prop := {
  mo_size : ∀ fd k n ws, s_offsets fd k = inr (n, ws) → n = sizeof_mmap_offsets ∨ n = sizeof_mmap_offsets_v1;
  mo_offsets : ∀ fd k e, s_offsets fd k = inl e → e ≠ 0;
  mo_mmap : ∀ fd n pg k k' a, s_mmap fd n pg k = (inr a, k') → a ≠ MAP_FAILED;
  mo_mmap_err : ∀ fd n pg k k' e, s_mmap fd n pg k = (inl e, k') → e ≠ 0 }.

(** [m] writes no ring, and [errno] tells when its result is an error. *)
Definition signals {A} (m : X K A) (bad : A → Prop) : Prop :=
  ∀ s, after m s (λ a s', rings s' = rings s ∧ (bad a → errno (base s') ≠ 0)).

Lemma signals_bind {A B} (m : X K A) (k : A → X K B) bad s Q :
  signals m bad →
  (∀ a s', rings s' = rings s → (bad a → errno (base s') ≠ 0) → after (k a) s' Q) → after (pbind m k) s Q.
Proof. intros Hm Hk. apply after_bind. eapply after_mono; [apply Hm|]. intros a s' [E1 E2]. auto. Qed.

Lemma after_set_errno e s : after (lift (set_errno e)) s (λ _ s', rings s' = rings s ∧ errno (base s') = e).
Proof. by intros a s' [= <- <-]. Qed.
Lemma after_kop {A} (f : K → A * K) s :
  after (lift (kop f)) s (λ a s', rings s' = rings s ∧ ∃ k k', f k = (a, k')).
Proof.
  intros a s' E. unfold lift, kop in E. destruct (f (kern (base s))) as [b k] eqn:Ef.
  injection E as <- <-. cbn. eauto.
Qed.
Lemma after_kread {A} (f : K → A) s :
  after (lift (kread f)) s (λ a s', rings s' = rings s ∧ kern (base s') = kern (base s) ∧ a = f (kern (base s))).
Proof. by intros a s' [= <- <-]. Qed.

Lemma signals_sys_err (f : K → Z * K) : signals (sys_err f) (λ b, b = true).
Proof.
  intros s. apply after_bind. eapply after_mono; [apply after_kop|]. intros e s1 [E1 _].
  destruct (Z.eqb_spec e 0); [by apply after_ret|]. apply after_bind.
  eapply after_mono; [apply after_set_errno|]. intros _ s2 [E2 Ee]. apply after_ret. split; congruence.
Qed.
Lemma signals_mmap (ok : maps_ok) n fd pg : signals (mmap n fd pg) (λ a, a = MAP_FAILED).
Proof.
  intros s. unfold mmap, sys. do 2 apply after_bind. eapply after_mono; [apply after_kop|].
  intros [e|a] s1 [E1 (k & k' & Ek)].
  - apply after_bind. eapply after_mono; [apply after_set_errno|]. intros _ s2 [E2 Ee]. do 2 apply after_ret.
    split; [congruence|]. intros _. rewrite Ee. by eapply (mo_mmap_err ok).
  - do 2 apply after_ret. split; [done|]. intros Ha. by apply (mo_mmap ok) in Ek.
Qed.
Lemma signals_offsets (ok : maps_ok) fd : signals (xsk_get_mmap_offsets fd) (λ r, ∃ e, r = inl e).
Proof.
  intros s. apply after_bind. eapply after_mono; [apply after_kread|]. intros r s1 (E1 & _ & Er).
  destruct r as [e|[n ws]]; symmetry in Er.
  - apply after_bind. eapply after_mono; [apply after_set_errno|]. intros _ s2 [E2 Ee]. apply after_ret.
    split; [congruence|]. intros _. rewrite Ee. by eapply (mo_offsets ok).
  - apply after_ret. split; [done|]. by destruct (mo_size ok _ _ _ _ Er) as [-> | ->]; intros [e He].
Qed.
Lemma after_neg_errno s Q : errno (base s) ≠ 0 → (∀ e, e ≠ 0 → Q e s) → after (neg_errno (K := K)) s Q.
Proof. intros He HQ a s' [= <- <-]. apply HQ. lia. Qed.

(** ** The rings of a umem *)

(** A ring as the producer and as the consumer of [Ring] find it at first. *)
Definition producer_start (b n : Z) (R : ring) : Prop := ∀ V (sl : list V), r_cache R = r_prod (ring_start b n sl).
Definition consumer_start (b n : Z) (R : ring) : Prop := ∀ V (sl : list V), r_cache R = r_cons (ring_start b n sl).
Definition is_size (n : Z) : Prop := 0 < n < 2 ^ 32.

Lemma after_umem_rings (ok : maps_ok) cfg fd f c s :
  f ≠ c → after (xsk_create_umem_rings cfg fd f c) s (λ e s', e = 0 → ∃ F0 C0 F C,
    rings s !! f = Some F0 ∧ rings s !! c = Some C0 ∧ rings s' !! f = Some F ∧ rings s' !! c = Some C ∧
    r_cache F = mk_ring (cached_prod (r_cache F0)) (fill_size cfg) (u32 (fill_size cfg - 1)) (fill_size cfg) ∧
    r_cache C = mk_ring (cached_prod (r_cache C0)) (cached_cons (r_cache C0)) (u32 (comp_size cfg - 1)) (comp_size cfg)).
Proof.
  intros Hfc. set (Q := λ e s', _).
  assert (∀ s', errno (base s') ≠ 0 → after (neg_errno (K := K)) s' Q) as Hno.
  { intros s' He. apply after_neg_errno; [done|]. by intros e ? ?. }
  unfold xsk_create_umem_rings.
  eapply signals_bind; [apply signals_sys_err|]. intros [] s1 E1 He; [by apply Hno, He|].
  eapply signals_bind; [apply signals_sys_err|]. intros [] s2 E2 He2; [by apply Hno, He2|].
  eapply signals_bind; [by apply signals_offsets|]. intros [e|off] s3 E3 He3; [apply Hno, He3; eauto|].
  eapply signals_bind; [by apply signals_mmap|]. intros fm s4 E4 He4.
  destruct (Z.eqb_spec fm MAP_FAILED); [by apply Hno, He4|].
  apply after_bind. eapply after_mono; [apply after_get_ring|]. intros F0 ? [-> HF0].
  apply after_bind. eapply after_mono; [apply after_put_ring|]. intros [] s5 E5.
  eapply signals_bind; [by apply signals_mmap|]. intros cm s6 E6 He6.
  destruct (Z.eqb_spec cm MAP_FAILED) as [Ecm|].
  { apply after_bind, after_neg_errno; [by apply He6|]. intros e Hne. apply still_seq; [apply still_munmap|].
    intros _ s7 _. apply after_ret. by intros ?. }
  apply after_bind. eapply after_mono; [apply after_get_ring|]. intros C0 ? [-> HC0].
  apply after_bind. eapply after_mono; [apply after_put_ring|]. intros [] s7 E7. apply after_ret. intros _.
  assert (rings s4 = rings s) as Es by congruence. rewrite Es in HF0.
  assert (rings s !! c = Some C0) as HC. { rewrite E6, E5, lookup_insert_ne, Es in HC0 by done. exact HC0. }
  eexists F0, C0, _, _. split; [done|]. split; [done|]. rewrite E7, E6, E5.
  split; [by rewrite lookup_insert_ne, lookup_insert_eq by done|]. split; [by rewrite lookup_insert_eq|]. done.
Qed.

Lemma size_mask n : is_size n → u32 (n - 1) = n - 1.
Proof. intros [? ?]. apply wrap_small. split; lia. Qed.

(** When a umem is created over zeroed ring structures, the fill ring is
    where the producer of [Ring] starts with the counters at zero, the completion
    ring where the consumer starts, both of the sizes of the configuration. *)
Theorem umem_rings_start (ok : maps_ok) p fd area len f c cfg s u s' :
  xsk_umem__create_with_fd p fd area len (Some f) (Some c) cfg s = Some (0, Some u, s') → f ≠ c →
  is_size (fill_size (xsk_set_umem_config cfg)) → is_size (comp_size (xsk_set_umem_config cfg)) →
  rings s !! f = Some zero_ring → rings s !! c = Some zero_ring →
  ∃ F C, rings s' !! f = Some F ∧ rings s' !! c = Some C ∧
    producer_start 0 (fill_size (xsk_set_umem_config cfg)) F ∧
    consumer_start 0 (comp_size (xsk_set_umem_config cfg)) C.
Proof.
  intros E Hfc Hf Hc HF HC. set (cf := xsk_set_umem_config cfg) in *.
  cut (after (xsk_umem__create_with_fd p fd area len (Some f) (Some c) cfg) s (λ r s', r.2 = Some u →
    ∃ F C, rings s' !! f = Some F ∧ rings s' !! c = Some C ∧
      producer_start 0 (fill_size cf) F ∧ consumer_start 0 (comp_size cf) C)); [intros Ha; by apply (Ha _ _ E)|].
  clear E. cbn [xsk_umem__create_with_fd]. destruct (_ || _); [by apply after_ret|].
  destruct (_ && _); [by apply after_ret|].
  apply still_seq; [apply still_lift|]. intros [] s1 E1; [|by apply after_ret]. cbn [negb].
  apply still_seq; [still_tac|]. intros fd' s2 E2. destruct (fd' <? 0).
  { apply still_seq; [still_tac|]. intros e s3 _. by apply after_ret. }
  fold cf. eapply signals_bind; [apply signals_sys_err|]. intros err s3 E3 He3.
  apply after_bind. eapply after_mono.
  - instantiate (1 := λ e s', e = 0 → ∃ F C, rings s' !! f = Some F ∧ rings s' !! c = Some C ∧
      producer_start 0 (fill_size cf) F ∧ consumer_start 0 (comp_size cf) C). destruct err.
    + apply after_neg_errno; [by apply He3|]. by intros e ? ?.
    + eapply after_mono; [by apply after_umem_rings|]. intros e s4 Hr H0'.
      destruct (Hr H0') as (F0 & C0 & F & C & HF0 & HC0 & HF' & HC' & EF & EC).
      assert (rings s3 = rings s) as Es by congruence. rewrite Es in HF0, HC0.
      rewrite HF in HF0. rewrite HC in HC0. injection HF0 as <-. injection HC0 as <-.
      exists F, C. split; [done|]. split; [done|]. split; intros V sl.
      * rewrite EF, size_mask by done. unfold ring_start. cbn. f_equal. symmetry. apply wrap_small.
        destruct Hf. split; lia.
      * rewrite EC, size_mask by done. done.
  - intros e s4 Hr. destruct (Z.eqb_spec e 0) as [->|]; cbn [negb].
    + apply still_seq; [apply still_get|]. intros s5 s6 E6. apply still_seq; [apply still_put_umem|].
      intros _ s7 E7. apply after_ret. intros _. rewrite E7, E6. by apply Hr.
    + apply still_seq; [apply still_close|]. intros _ s5 _. by apply after_ret.
Qed.

(** ** The rings of a socket *)

(** Sized [n], the counters loaded from the memory the ring points to. *)
Definition loaded (R : ring) (n extra : Z) (k : K) : Prop :=
  r_cache R = mk_ring (s_load (r_producer R) k) (u32 (s_load (r_consumer R) k + extra)) (u32 (n - 1)) n.

Definition ring_mapped (r : option nat) (n extra : Z) (s s' : Xsk.state K) : Prop :=
  match r with
  | None => rings s' = rings s
  | Some a => ∃ R k, rings s' = <[a := R]> (rings s) ∧ loaded R n extra k
  end.

Lemma after_map_sock_ring fd r n extra off pg s :
  after (map_sock_ring fd r n extra off pg) s (λ m s', is_Some m → ring_mapped r n extra s s').
Proof.
  unfold map_sock_ring, ring_mapped. destruct r as [r|]; [|by apply after_ret].
  apply still_seq; [apply still_mmap|]. intros map s1 E1. destruct (_ =? _); [by apply after_ret; intros []|].
  apply after_bind. eapply after_mono; [apply after_kread|]. intros pr s2 (E2 & Ek2 & ->).
  apply after_bind. eapply after_mono; [apply after_kread|]. intros co s3 (E3 & Ek3 & ->).
  apply after_bind. eapply after_mono; [apply after_put_ring|]. intros [] s4 E4. apply after_ret. intros _.
  eexists _, (kern (base s1)). rewrite E4, E3, E2, E1. split; [done|]. unfold loaded, map_ring. cbn. by rewrite Ek2.
Qed.

(** The error exits return no socket. *)
Definition no_sock (m : X K (Z * option nat)) : Prop := ∀ s, after m s (λ r _, r.2 = None).
Lemma no_sock_bind {A} (m : X K A) k : (∀ a, no_sock (k a)) → no_sock (pbind m k).
Proof. intros Hk s. apply after_bind. eapply after_mono; [apply after_true|]. intros a s' _. apply Hk. Qed.
Lemma no_sock_ret e : no_sock (pret (e, None)).
Proof. intros s. by apply after_ret. Qed.
Hint Resolve no_sock_ret : rings.
Lemma no_sock_out u fd err : no_sock (out_socket u fd err).
Proof. unfold out_socket. repeat (apply no_sock_bind; intros ?). apply no_sock_ret. Qed.
Lemma no_sock_put u fill c fd err : no_sock (out_put_ctx u fill c fd err).
Proof. unfold out_put_ctx. do 2 (apply no_sock_bind; intros ?). apply no_sock_out. Qed.
Lemma no_sock_rx u rx fill cfg off m c fd err : no_sock (out_mmap_rx u rx fill cfg off m c fd err).
Proof. apply no_sock_bind. intros ?. apply no_sock_put. Qed.
Lemma no_sock_tx u rx tx fill cfg off m m' c fd err : no_sock (out_mmap_tx u rx tx fill cfg off m m' c fd err).
Proof. apply no_sock_bind. intros ?. apply no_sock_rx. Qed.

Section socket.
Context (ifname : string) (queue_id : Z) (u : nat) (rx tx fill comp : option nat) (cfg : xsk_socket_config).

Definition both_mapped (s : Xsk.state K) : Prop :=
  ∃ s0 s1 s2, ring_mapped rx (rx_size cfg) 0 s0 s1 ∧ ring_mapped tx (tx_size cfg) (tx_size cfg) s1 s2 ∧
    rings s = rings s2.
Definition sock_mapped (r : Z * option nat) (s : Xsk.state K) : Prop := is_Some r.2 → both_mapped s.

Lemma no_sock_mapped m s : no_sock m → after m s sock_mapped.
Proof. intros Hm. eapply after_mono; [apply Hm|]. unfold sock_mapped. by intros r s' -> []. Qed.

Lemma after_sock_rings c fd rxd txd s : after (sock_rings u rx tx fill cfg c fd rxd txd) s sock_mapped.
Proof.
  assert (∀ s, after (let! err := neg_errno in out_put_ctx (K := K) u fill c fd err) s sock_mapped) as Hfail.
  { intros s1. apply no_sock_mapped, no_sock_bind. intros e. apply no_sock_put. }
  unfold sock_rings. cbv zeta.
  apply after_bind. eapply after_mono; [apply after_true|]. intros [] s1 _; [apply Hfail|].
  apply after_bind. eapply after_mono; [apply after_true|]. intros [] s2 _; [apply Hfail|].
  apply after_bind. eapply after_mono; [apply after_true|]. intros [e|off] s3 _; [apply Hfail|].
  apply after_bind. eapply after_mono; [apply after_map_sock_ring|]. intros [m|] s4 Hm; [|apply Hfail].
  apply after_bind. eapply after_mono; [apply after_map_sock_ring|]. intros [m'|] s5 Hm'.
  2:{ apply no_sock_mapped, no_sock_bind. intros e. apply no_sock_rx. }
  apply still_seq; [apply still_bind_and_setup|]. intros err s6 E6.
  destruct (err =? 0); cbn [negb]; [|apply no_sock_mapped, no_sock_tx].
  apply still_seq; [apply still_get|]. intros x s7 E7.
  apply still_seq; [apply still_put_sock|]. intros [] s8 E8.
  apply still_seq; [apply still_mod_umem|]. intros [] s9 E9. apply after_ret. intros _.
  exists s3, s4, s5. split; [apply Hm; eauto|]. split; [apply Hm'; eauto|congruence].
Qed.

Lemma after_create_body s : after (create_body ifname queue_id u rx tx fill comp cfg) s sock_mapped.
Proof.
  unfold create_body. apply after_bind. eapply after_mono; [apply after_true|]. intros [e|i] s1 _.
  { apply no_sock_mapped, no_sock_bind. intros ?. apply no_sock_ret. }
  apply after_bind. eapply after_mono; [apply after_true|]. intros [e|[[fd rxd] txd]] s2 _.
  { apply no_sock_mapped, no_sock_ret. }
  apply after_bind. eapply after_mono; [apply after_true|]. intros [e|ns] s3 _; [apply no_sock_mapped, no_sock_out|].
  apply after_bind. eapply after_mono; [apply after_true|]. intros [e|c] s4 _; [apply no_sock_mapped, no_sock_out|].
  apply after_sock_rings.
Qed.
End socket.

(** The counters a ring points to, both at [b]. *)
Definition counters_at (b : Z) (R : ring) (k : K) : Prop :=
  is_word 32 b ∧ s_load (r_producer R) k = b ∧ s_load (r_consumer R) k = b.

Lemma loaded_consumer R n k b : is_size n → counters_at b R k → loaded R n 0 k → consumer_start b n R.
Proof.
  intros Hn (Hb & Hp & Hc) HR V sl. rewrite HR, Hp, Hc, size_mask, Z.add_0_r by done. unfold ring_start. cbn.
  f_equal. by apply wrap_small.
Qed.
Lemma loaded_producer R n k b : is_size n → counters_at b R k → loaded R n n k → producer_start b n R.
Proof. intros Hn (Hb & Hp & Hc) HR V sl. by rewrite HR, Hp, Hc, size_mask by done. Qed.

(** When a socket is created, its receive ring is where the consumer of
    [Ring] starts and its transmit ring where the producer starts, of the sizes
    of the configuration and with the counters found in the mapped memory. *)
Theorem socket_rings_start p n q u rx tx fill comp cfg cf s e x s' :
  xsk_socket__create_shared p n q (Some u) rx tx fill comp cfg s = Some (e, Some x, s') →
  xsk_set_xdp_socket_config cfg = inr cf → (∀ r, rx = Some r → tx ≠ Some r) →
  (∀ r, rx = Some r → ∃ R k, rings s' !! r = Some R ∧
     ∀ b, is_size (rx_size cf) → counters_at b R k → consumer_start b (rx_size cf) R) ∧
  (∀ r, tx = Some r → ∃ R k, rings s' !! r = Some R ∧
     ∀ b, is_size (tx_size cf) → counters_at b R k → producer_start b (tx_size cf) R).
Proof.
  intros E Ec Hne.
  assert (both_mapped rx tx cf s') as (s0 & s1 & s2 & Hrx & Htx & Es).
  { cut (after (xsk_socket__create_shared p n q (Some u) rx tx fill comp cfg) s (sock_mapped rx tx cf)).
    { intros Ha. apply (Ha _ _ E). by eexists. }
    clear E. cbn [xsk_socket__create_shared]. destruct (_ || _); [apply no_sock_mapped, no_sock_ret|].
    apply after_bind. eapply after_mono; [apply after_true|]. intros [] s1 _; cbn [negb]; [|apply no_sock_mapped, no_sock_ret].
    rewrite Ec. apply after_create_body. }
  clear E. rewrite Es. split; intros r ->.
  - destruct Hrx as (R & k & E1 & HR). exists R, k. split; [|intros b ??; by eapply loaded_consumer].
    assert (rings s1 !! r = Some R) as H1' by by rewrite E1, lookup_insert_eq.
    destruct tx as [t|]; [|by rewrite Htx]. destruct Htx as (T & k' & -> & _).
    rewrite lookup_insert_ne; [done|]. intros ->. by apply (Hne r).
  - destruct Htx as (R & k & -> & HR). exists R, k. split; [by rewrite lookup_insert_eq|].
    intros b ??; by eapply loaded_producer.
Qed.
End rings.

(** ** An instance *)

Section idle.
#[local] Existing Instances idle_kernel idle_xsk idle_sock.

Lemma idle_maps : maps_ok.
Proof.
  split; try by intros * [=].
  - intros fd k n ws [= <- _]. by left.
  - by intros fd n [] k k' a [= <- _].
Qed.

(** The umem of [idle_umem]. *)
Lemma umem_rings_start_witness : ∃ F C,
  rings (state_after [idle_umem]) !! 0%nat = Some F ∧ rings (state_after [idle_umem]) !! 1%nat = Some C ∧
  r_cache F = mk_ring 0 2048 2047 2048 ∧ r_cache C = mk_ring 0 0 2047 2048.
Proof.
  destruct (umem_rings_start idle_maps true (-1) 65536 16384 0 1 None idle_state 0 (state_after [idle_umem]))
    as (F & C & HF & HC & EF & EC); [vm_compute; reflexivity|lia|split; reflexivity|split; reflexivity|
                                     vm_compute; reflexivity|vm_compute; reflexivity|].
  exists F, C. split; [exact HF|]. split; [exact HC|]. clear HF HC. split; [exact (EF Z [])|exact (EC Z [])].
Defined.

(** The socket of [idle_socket]. *)
Lemma socket_rings_start_witness : ∃ R T,
  rings (state_after [idle_umem; idle_socket]) !! 2%nat = Some R ∧
  rings (state_after [idle_umem; idle_socket]) !! 3%nat = Some T ∧
  r_cache R = mk_ring 0 0 2047 2048 ∧ r_cache T = mk_ring 0 2048 2047 2048.
Proof.
  destruct (socket_rings_start true "eth0" 0 0 (Some 2%nat) (Some 3%nat) (Some 0%nat) (Some 1%nat) None
    (mk_socket_config 2048 2048 0 0 0) (state_after [idle_umem]) 0 0 (state_after [idle_umem; idle_socket]))
    as [Hr Ht]; [vm_compute; reflexivity|reflexivity|by intros r [= <-]|].
  destruct (Hr _ eq_refl) as (R & k & HR & ER). destruct (Ht _ eq_refl) as (T & k' & HT & ET).
  exists R, T. split; [exact HR|]. split; [exact HT|]. clear HR HT Hr Ht. split.
  - refine (ER 0 _ _ Z []); split; try split; done.
  - refine (ET 0 _ _ Z []); split; try split; done.
Defined.
End idle.

(** ** What goes wrong

    A kernel whose offsets have another size: [xsk_get_mmap_offsets] fails
    without setting [errno], its caller returns [-errno], and the umem counts as
    created while neither ring was mapped. *)
Definition other_offsets : SockKernel (list Z) := {|
  s_offsets _ _ := inr (160, []);
  s_socket := s_socket (SockKernel := idle_sock); s_setsockopt := s_setsockopt (SockKernel := idle_sock);
  s_netns := s_netns (SockKernel := idle_sock); s_mmap := s_mmap (SockKernel := idle_sock);
  s_munmap := s_munmap (SockKernel := idle_sock); s_bind := s_bind (SockKernel := idle_sock);
  s_nametoindex := s_nametoindex (SockKernel := idle_sock);
  s_pagesize := s_pagesize (SockKernel := idle_sock); s_load := s_load (SockKernel := idle_sock) |}.

Example umem_without_rings :
  ∃ s, run_call (H := idle_kernel) (H0 := idle_xsk) (H1 := other_offsets) idle_umem idle_state =
    Some (0, Some 0%nat, s) ∧ rings s !! 0%nat = Some zero_ring ∧ rings s !! 1%nat = Some zero_ring.
Proof. eexists. split; [vm_compute; reflexivity|]. split; reflexivity. Qed.
